(* ===== verification/_CoqProject ===== *)
-Q . S2P
Prelude.v
Js.v
Crypto.v
FieldSet.v
AuthStore.v
Store.v
Tx.v
QuotaGate.v
AuditLog.v
Notifications.v
Credentials.v
Rotation.v
Transitions.v
Workers.v
Demo.v
Lifecycle.v
Effects.v
RotationSpec.v
Refinement.v
RefinementWorkers.v
System.v
Checklist.v
Liveness.v
Frames.v
Text.v
EnvFile.v
EnvFileTheorems.v
Semver.v
ClientVersions.v
ClientVersionTheorems.v
Ephemeral.v
EphemeralTheorems.v
Sessions.v
Shares.v
Authenticate.v
Mfa.v
ExternalShares.v
ShareViews.v
ShareEvolution.v
ShareTheorems.v
ShareGuesses.v
ShareScope.v
ShareDemo.v
UserSessions.v
Login.v
SessionFrames.v
SessionInvariant.v
SessionTheorems.v
SessionLimit.v
AuthDemo.v
AuthTheorems.v
DeviceTheorems.v
MfaTheorems.v
AuthErrors.v
Vault.v
VaultTheorems.v
RotationTheorems.v
ServiceTheorems.v
JsMap.v
RateLimit.v
Server.v
CapabilityGate.v
GateTheorems.v
AuditPayload.v
SecureRoute.v
SecureRouteTheorems.v
RouteTheorems.v
RouteDemo.v
Projects.v
ProjectMembers.v
ProjectTheorems.v
ProjectSlugs.v
ProjectLifecycle.v
ProjectOwners.v
ProjectDemo.v
MachineKeys.v
MachineAuth.v
MachineOps.v
MachineTheorems.v
MachineDemo.v
