(* ===== verification/Prelude.v ===== *)
(** * Project Vault: a verification development

    Project Vault is a multi-tenant secret manager: an HTTP API over PostgreSQL
    (apps/api), a cryptography package (packages/crypto), the database schema
    (packages/db), a command line (packages/cli) and a web application.  This
    development models the core of the API server and parts of the command
    line, and proves what makes them correct: how a secret is encrypted, stored,
    revealed, shared, rotated and retired, who is let in and for how long, how
    the master key is opened, and how every change is recorded in a
    tamper-evident audit log.

    ** How the parts interact

    A request is authenticated from its access token (Authenticate), which
    reads the session tables that login, refresh and revocation write
    (Sessions, Login, Mfa, UserSessions).  The route pipeline (SecureRoute)
    then asks its guards, in order: the role or the platform operator, the rate
    limit (RateLimit), enrolment in MFA, the capability gate of an extension
    (CapabilityGate); and, in one organisation-scoped transaction, that the
    project of the path is not deleted and the caller's role in it suffices.
    The handler runs a service function in that transaction, and the pipeline
    appends the default audit entry.  A scheduled job opens such a transaction
    for each candidate row.  The services read and write the tables, encrypt
    and decrypt values with the vault keys held in memory (Vault), append audit
    rows through gates that refuse writes over a quota or a rate, and queue
    notifications.  A share hands the current value of a secret, bounded to some
    of its fields, to another member or, by a link, to a guest.  Extensions
    keep short-lived state through a host service (Ephemeral).  The command
    line asks the server which versions of itself are supported
    (ClientVersions) and writes fetched secrets into environment files
    (EnvFile).

    ** Files, in dependency order, and what they model

    - Prelude (this file): notations of the scope [pv_scope] ([===], SQL
      comparisons, record update), automation ([bool_simpl], the hint database
      [pv]) and shared lemmas on lists and sorting.
    - Js: exceptions and [Outcome], hexadecimal, dates, and JSON: the value
      type, [stringify], a parser with fuel and their round trip.
    - Crypto: packages/crypto/src (aes, kdf, secret-value, envelope, passwords,
      export-envelope, backup-crypto).  Node's ciphers are the class
      [NodeCrypto] and their documented behaviour the class [NodeCryptoLaws].
    - FieldSet: modules/credentials/field-set.ts, totp-field.ts and the shared
      credential templates.  Unicode tables and the otpauth library are classes.
    - AuthStore, Store: the rows and unique indexes of packages/db/src/schema as
      records and lists of rows in insertion order ([AuthDb], [Db]).
    - Tx: the monad of the services.  A [World] is a database, a counter of
      random draws and clock readings, the transaction's [now()], the locks of
      other sessions and the vault keys; a computation returns or throws and
      gives the next world.  [transaction] rolls the database back on a throw.
      One definition per kind of SQL statement; [wp] is the post-condition of a
      computation and [readOnly] the frame of those that only read.
    - QuotaGate, AuditLog: modules/audit (quota-gate, maintenance-mode,
      write-entry, the four writers, verify), lib/system-audit-row.ts (the
      fifth) and workers/audit-retention-prune.ts.
    - Notifications: notifications/dispatcher.ts, preferences and routing.
    - Credentials: modules/credentials/service.ts, db-helpers.ts,
      archive-guards.ts, lib/tags.ts.
    - Rotation, Transitions: modules/rotation/service.ts, from the preflight of
      an initiation to promote, retire, complete, resume, abandon and
      break-glass.
    - Workers: the jobs on rotations and versions (workers/rotation-recover.ts,
      rotation-stale-staged-alert.ts, rotation-notify-shared.ts,
      rotation-break-glass-expire.ts, prune-credential-versions.ts).
    - Demo: a concrete database for the witnesses.
    - Lifecycle: the abstract specification: a transition system on rotations
      and versions alone ([Step]), its invariant [Inv], and what every sequence
      of transitions keeps.
    - Effects, RotationSpec: frames and exact results of the service functions.
    - Refinement, RefinementWorkers: every service function and job, on a
      database that satisfies the invariant, makes only such transitions.
    - System: the requests and jobs as one type [Op], any sequence of them
      ([Reaches]), and the safety theorems.
    - Checklist, Liveness: the items of a rotation under any sequence of
      operations, and a way out of every open rotation.
    - Frames: invariants statement by statement ([preserves], tactic [preserve]).
    - Text: regular expressions as terms matched by derivatives, proved against
      their languages; splitting and cutting of texts.
    - EnvFile, EnvFileTheorems: packages/cli: env-file-format.ts,
      write-env-file.ts, parse-run-secrets.ts, fetch-secrets.ts,
      inject-and-run.ts, reserved-env-vars.ts, exit-codes.ts.
    - Semver, ClientVersions, ClientVersionTheorems: cli/semver-precedence.ts,
      modules/client-versions/policy.ts, cli/version-policy-response.ts,
      version-check.ts and version-check-cache.ts.
    - Ephemeral, EphemeralTheorems: lib/ephemeral-state.ts and
      workers/extension-state-cleanup.ts; the specification is a map with expiry.
    - Sessions, Authenticate, Login: modules/auth/service.ts, session-revoke.ts,
      session-activity.ts, tokens.ts, plugins/authenticate.ts,
      workers/prune-revoked-tokens.ts.
    - Mfa, UserSessions: modules/auth/mfa.ts, mfa-login.ts, totp.ts,
      recovery-codes.ts, failed-auth.ts; user-session.ts, cli-device-service.ts,
      cli-device-codes.ts.
    - Shares, ExternalShares, ShareViews: modules/credential-shares/service.ts,
      external-service.ts, external-verification-service.ts, verification.ts,
      nudge.ts, display-status-sql.ts, step-up.ts,
      credentials/bounded-share-adapter.ts, workers/credential-share-expire.ts.
    - ShareEvolution, ShareTheorems, ShareGuesses, ShareScope, ShareDemo: how
      shares change under any sequence of operations, each of which relies on
      the transactions it waits for to change them the same way
      ([SharesEvolve]); the theorems on opening, codes, scope and closing;
      their witnesses and the defects.
    - SessionFrames, SessionInvariant, SessionTheorems, SessionLimit, AuthDemo,
      AuthTheorems, DeviceTheorems, MfaTheorems, AuthErrors: the invariant
      [SessionsOk] of the tables of sessions and refresh tokens under any
      sequence of authentication requests and of the job that prunes the list of
      revoked tokens, and the theorems on them.
    - Vault, VaultTheorems: modules/vault/key-service.ts and kms-provider.ts: the
      states of the vault, and restarts.
    - RotationTheorems, ServiceTheorems: functional theorems on whole requests
      and defects.
    - JsMap, RateLimit: JavaScript's ordered maps; lib/route-helpers.ts.
    - Server: what a request reads and changes besides the database: the state
      of the process and the reply; the monad [H] of the handlers over [Tx]'s,
      with transactions that can also fail where PostgreSQL does.
    - CapabilityGate, GateTheorems: lib/capability-gate.ts,
      capability-gate-audit.ts, race-with-timeout.ts, and what they guarantee.
    - AuditPayload: the sanitizer of lib/secure-route.ts, on graphs of objects.
    - SecureRoute: lib/secure-route.ts, secure-route-overrides.ts,
      secure-route-project-role.ts, modules/projects/project-access.ts.
    - SecureRouteTheorems, RouteTheorems, RouteDemo: complete mediation, the
      gate of the project role, the audited transaction; witnesses and defects.
    - Projects, ProjectMembers: modules/projects/routes.ts,
      project-lifecycle.ts, archive-guards.ts, member-management.ts,
      machine-users/archival-check.ts, workers/project-purge.ts, shared
      utils/archive-authority.ts, and the change of a project role in
      modules/org/routes.ts: each handler from its guards to its reply.
    - ProjectTheorems, ProjectSlugs, ProjectLifecycle, ProjectOwners,
      ProjectDemo: what a deletion, a restore and a purge leave, the slugs, the
      abstract life cycle of a project ([PhaseStep]) that requests and purges
      one after the other implement, and the owner of a project; witnesses and
      two races, which show that a commit during a wait breaks both.
    - MachineKeys, MachineAuth: modules/machine-users (rotation.ts, routes.ts,
      tokens.ts, key-validity.ts, admin-provisioned.ts, the exchange of a key
      for a token, the check of a token, the routes behind it),
      lib/pagination.ts, workers/machine-key-overlap-revoke.ts.
    - MachineOps, MachineTheorems, MachineDemo: what an
      invariant of the keys survives ([KeyInvariant]), every request and job as
      one type of operations that keep such an invariant, the theorems on the
      succession, the revocation and the use of keys; witnesses and defects.

    Functions keep their TypeScript names; a request body or a result union is
    an Inductive or a Record with the constructors of the source; a column is a
    record field prefixed by its table ([rot_], [cv_], [item_], [cred_], [sh_], ...).

    ** What the theorems show

    - Rotations: at most one active rotation per credential; its superseded
      version stays usable and locked; no sequence of operations loses a
      credential's last usable version; statuses follow the status graph and
      terminal ones are final; a promotion happens once and makes the new
      version current; every open rotation can be closed; retries are bounded;
      exact results of every transition on every branch.
    - Secrets: encryption, backup and field-envelope round trips; what is stored
      is what is revealed; one-time-password seeds are never revealed.
    - Audit: each of the five writers appends one row, linked and signed, or
      fails and changes nothing, and so keeps the HMAC chain well formed, but for
      a system row with a resource; verification of an intact chain in order of
      creation reports nothing, rows deleted in front of another are reported,
      retention leaves an attested gap, the quota and rate gates admit what they
      should.
    - Authentication: the session tables stay well formed under any requests; a
      revoked session stays out; a refresh token, a one-time code and a device
      code are taken once; wrong codes and sessions per user are bounded; the
      two kinds of access token exclude each other; drawing recovery codes ends.
    - Shares: a single-use share is opened once, by its recipient, or by a guest
      with a fresh proof; statuses follow their graph and counters never go
      back, under interference; at most five wrong codes are answered; a code
      that was sent confirms; what is shown is within the scope; at most five
      shares of a scope are pending; a rotation closes what was shared; the
      recommendation to rotate is exact.
    - Routes: the code of a route runs only for a caller every declared guard
      admits, and a refused request ends the same way whatever the code is; a
      viewer of a project never reaches the code that changes it, but in the
      routes registered without a gate, which are characterised; what an
      audited route changes commits with its audit entry or not at all; a
      capability is granted only by a timely answer that says so, the gates in
      flight are bounded and organisations isolated, every denial is written,
      waiting or lost in a way that is counted; a rate limit lets at most twice
      its maximum less one through in any interval of its window, and more only
      by the evictions of the bounded map; the sanitizer of payloads ends and
      leaves no forbidden key.
    - Projects: requests and purges, one after the other, move a project along
      its life cycle alone, and only the project they name; a deletion closes shares and invitations
      with an entry for each share, a restore undoes it, a purge erases a due project
      whole and no other; no secret is lost but by a purge thirty days after the
      deletion; the list of deleted projects is what its reader may restore; a
      project keeps one owner; slugs are always well formed.
    - Machines: API keys form chains in which a key has one successor and is
      then on its way out; a revoked key gives no token and no token of it is
      accepted; a value is given only to a live key of its project, with one
      entry in the log; the token of an exchange is accepted while the key lives.
    - Vault: the keys in memory are those of the stored row; after a restart the
      same credentials open the vault and what was encrypted is read back.
    - Extension state refines a map with expiry, keeps its cap and fails closed.
    - Command line: server and CLI accept the same versions and compare them as
      SemVer does, a served policy is accepted and only tightened, a withdrawal
      sticks; environment files are parsed back, and written whole or not at all.
    - Defects, as theorems on the model, are listed with the theorems that
      prove them: the retention job can destroy the current version, the list
      shows another version than the one revealed, system audit rows with a
      resource never verify, an intact chain is misreported, one alert type is
      never queued, revocations and audit entries undone by the rollback of
      the error that reports them, stored key-derivation costs that are not
      used, a policy the server accepts and every CLI ignores, shares of a
      field with a capital that never open, a guess that a refused audit entry
      uncounts, a recommendation that returns after the rotation, denials the
      dampener drops, a default audit entry that never verifies, a deleted
      project served by a route without organisation scope, a deleted project
      unarchived by a request that waited for the deletion, an owner removed by
      one that waited for the transfer, an expired key of a deleted project
      whose successor reads its secrets, names with a percent sign.

    ** Modelling decisions

    - Concurrency: a request is atomic up to its locks.  Advisory and row locks
      of other sessions are in the world, arbitrary at every operation; what
      other sessions commit while a request waits for a lock, or for a row of
      the shares that it updates, is [w_onWait], which the theorems quantify
      over; those on projects take it to change nothing ([Idle]), and two races
      show that they must.  If the request then rolls back, the other sessions' commits come
      after it.  Interleavings of statements of two requests on the same rows,
      which the locks and the unique indexes exclude, are not modelled
      otherwise.
    - Integers are unbounded [Z] (JavaScript numbers in the safe range, or
      PostgreSQL integers); dates are milliseconds; identifiers are numbers.
    - Strings are bytes of UTF-8 ([jsLength] counts UTF-16 code units).
    - Fuel: the JSON parser has fuel ([parseFuel], twice the length of the text
      plus two), proved enough by the round trip; the parser of environment
      files has the length of the text plus one, enough by
      [parseEnvFile_terminates]; the drawing of recovery codes takes the number
      of draws as fuel, and [recovery_codes_drawn] says when it is enough.
      The sanitizer of payloads has the square of one more than the number of
      cells, and [sanitized_payload] says when it is enough (an array that
      contains itself overflows in the code too).  [decodeURIComponent] has the
      length of the text, of which every step takes a character.  Every other recursion is
      structural.
    - The life cycle puts the gate of deleted projects before each handler as
      the routes declare it ([serveProject]); [asHandler] makes a handler of
      projects one of the route pipeline, whose theorems then apply.
    - A handler is any computation of [H]: the theorems on the pipeline
      quantify over it, and say where they need it to answer through its reply
      ([repliesThroughGuard]).  The gate of an extension is any function of its
      context whose answer is any JSON value, on time, late or never.
    - Code outside the repository is a class: [NodeCrypto], [Unicode],
      [OtpAuth], [OtpValidate], [Passwords] (argon2, bcrypt), [JwtLibrary], the
      key management service and the file system of the vault ([VaultHost]),
      [Locale] ([localeCompare]), [NumberText] (the text of a number),
      [Postgres] (whether a statement or a commit fails), [Jitter],
      [MachineJwtLibrary] (fast-jwt), [UnicodeCategories].  The
      clock and random draws are [Platform], configuration is [Env].
    - A failed sign-in attempt is written by a connection of its own
      ([w_failedAttempts]) and survives the rollback of its request.
    - A sequence number drawn by a transaction that is rolled back is drawn
      again, where PostgreSQL leaves a hole; only the order of the chain is used.
    - Columns that no modelled code reads are left out of the rows.

    ** Not modelled, and why

    The handlers of the modules other than those of projects and of machine
    users, and schema validation (glue between the pipeline and the services); the lists and the
    dashboard of projects and the worker that delivers the outbox; the tables of
    monitoring that a purge erases too; the delegation stages of a route, added and raw
    routes of extensions; registration, single sign-on, handoff and delegation
    tokens; the alerts on expiring and dormant keys and the machine users of
    credential sharing; project export and import; membership deactivation;
    monitoring; the host facades for extensions other than the state store;
    the operational log, metrics, pg-boss and mail delivery (pure I/O); the web
    application and the other commands of the CLI.  Of the rotation service,
    badges, history pages and the upcoming schedule are left out for now. *)

From stdpp Require Export base tactics list numbers strings option.
From stdpp Require Export sorting.

(** Identifiers are PostgreSQL [uuid] values: 128-bit numbers.  Dates are
    JavaScript [Date] instants: milliseconds since the epoch. *)
Abbreviation Uuid := N (only parsing).
Abbreviation Date := Z (only parsing).

Declare Scope pv_scope.
Delimit Scope pv_scope with pv.
Open Scope pv_scope.

(** The equality test of the source ([===], SQL [=]) as a boolean. *)
Notation "x =? y" := (bool_decide (x = y)) (at level 70, no associativity) : pv_scope.
Notation "x <? y" := (bool_decide (x < y)%Z) (at level 70, no associativity) : pv_scope.
Notation "x <=? y" := (bool_decide (x <= y)%Z) (at level 70, no associativity) : pv_scope.
Notation "x ∈? l" := (bool_decide (x ∈ l)) (at level 70, no associativity) : pv_scope.

(** SQL [IS NULL] / [IS NOT NULL] and the [=== null] tests of the source. *)
Definition isNull {A} (o : option A) : bool :=
  match o with None => true | Some _ => false end.
Definition isNotNull {A} (o : option A) : bool := negb (isNull o).

Lemma isNull_true {A} (o : option A) : isNull o = true <-> o = None.
Proof. by destruct o. Qed.
Lemma isNull_false {A} (o : option A) : isNull o = false <-> is_Some o.
Proof. unfold is_Some. destruct o; naive_solver. Qed.

(** ** Record update

    [r <| f := v |>] is the object spread [{ ...r, f: v }] and the column list
    of an SQL [UPDATE ... SET].  A record type declares its eta-expansion once
    ([Eta]); the setter of a projection is found by abstracting that projection
    in it. *)
Class Eta (R : Type) := eta : R -> R.
Class Setter {R T : Type} (proj : R -> T) := { setter : (T -> T) -> R -> R }.

Ltac find_setter :=
  lazymatch goal with
  | |- @Setter ?R ?T ?proj =>
      let e := eval hnf in (@eta R _) in
      lazymatch eval pattern proj in e with
      | ?abstracted _ =>
          let body := eval cbv beta in
            (fun (upd : T -> T) (r : R) => abstracted (fun r' : R => upd (proj r')) r) in
          exact (@Build_Setter R T proj body)
      end
  end.

#[export] Hint Extern 1 (Setter _) => find_setter : typeclass_instances.

Notation "r <| f := v |>" := (setter (proj := f) (fun _ => v) r)
  (at level 1, left associativity) : pv_scope.
Notation "r <| f ::= upd |>" := (setter (proj := f) upd r)
  (at level 1, left associativity) : pv_scope.
Arguments setter {R T} proj {_} upd r /.

(** ** Booleans *)

Lemma bool_decide_and_true (P Q : Prop) `{!Decision P, !Decision Q} :
  bool_decide P && bool_decide Q = true <-> P /\ Q.
Proof. rewrite andb_true_iff, !bool_decide_eq_true. done. Qed.

(** Turns the boolean guards of the source, once they are hypotheses, into
    propositions. *)
Ltac bool_simpl :=
  repeat match goal with
  | H : _ && _ = true |- _ => apply andb_true_iff in H; destruct H
  | H : _ || _ = false |- _ => apply orb_false_iff in H; destruct H
  | H : negb _ = true |- _ => apply negb_true_iff in H
  | H : negb _ = false |- _ => apply negb_false_iff in H
  | H : bool_decide _ = true |- _ => apply bool_decide_eq_true in H
  | H : bool_decide _ = false |- _ => apply bool_decide_eq_false in H
  | H : isNull _ = true |- _ => apply isNull_true in H
  | H : isNull _ = false |- _ => apply isNull_false in H; destruct H
  | H : isNotNull _ = true |- _ => unfold isNotNull in H
  | H : isNotNull _ = false |- _ => unfold isNotNull in H
  | H : Is_true _ |- _ => apply Is_true_true in H
  end.

(** ** Lists *)

Section lists.
Context {A : Type}.
Implicit Types (l : list A) (p q : A -> bool) (f : A -> A).

  (** [UPDATE t SET f WHERE p], on the rows of a table. *)
Definition map_where p f l : list A := map (fun x => if p x then f x else x) l.

Lemma elem_of_lfilter p l x : x ∈ List.filter p l <-> p x = true /\ x ∈ l.
  Proof. rewrite !list_elem_of_In, filter_In. tauto. Qed.

Lemma lfilter_ext p q l :
    (forall x, x ∈ l -> p x = q x) -> List.filter p l = List.filter q l.
  Proof.
    induction l as [|x l IH]; intros E; simpl; [done|].
    rewrite (E x) by left. rewrite IH; [done|]. intros y Hy. apply E. by right.
  Qed.

Lemma lfilter_none p l : (forall x, x ∈ l -> p x = false) -> List.filter p l = [].
  Proof.
    induction l as [|x l IH]; intros E; simpl; [done|].
    rewrite (E x) by left. apply IH. intros y Hy. apply E. by right.
  Qed.

Lemma elem_of_map_where p f l y :
    y ∈ map_where p f l <-> exists x, x ∈ l /\ y = if p x then f x else x.
  Proof.
    unfold map_where. rewrite list_elem_of_In, in_map_iff.
    setoid_rewrite list_elem_of_In. naive_solver.
  Qed.

Lemma map_where_ext p q f l :
    (forall x, x ∈ l -> p x = q x) -> map_where p f l = map_where q f l.
  Proof.
    intros E. apply map_ext_in. intros x Hx. by rewrite E by (by apply list_elem_of_In).
  Qed.

Lemma map_where_none p f l : (forall x, x ∈ l -> p x = false) -> map_where p f l = l.
  Proof.
    intros E. transitivity (map id l); [|by rewrite List.map_id].
    apply map_ext_in. intros x Hx. by rewrite E by (by apply list_elem_of_In).
  Qed.

Lemma map_where_proj {B} (g : A -> B) p f l :
    (forall x, g (f x) = g x) -> map g (map_where p f l) = map g l.
  Proof.
    intros E. unfold map_where. rewrite map_map. apply map_ext. intros x.
    destruct (p x); auto.
  Qed.

(** Two updates of the same rows are one. *)
Lemma map_where_compose p q f g l :
    (forall x, x ∈ l -> p x = false -> q x = false) ->
    map_where q g (map_where p f l) = map_where p (fun x => if q (f x) then g (f x) else f x) l.
  Proof.
    intros E. unfold map_where. rewrite map_map. apply map_ext_in. intros x Hx%list_elem_of_In.
    destruct (p x) eqn:Ep; [done|]. by rewrite E.
  Qed.

Lemma head_elem_of l x : head l = Some x -> x ∈ l.
  Proof. destruct l; simpl; intros; simplify_eq; constructor. Qed.

Lemma find_elem_of p l x : List.find p l = Some x -> x ∈ l /\ p x = true.
  Proof. intros H%find_some. by rewrite list_elem_of_In. Qed.

Lemma find_none_all p l : List.find p l = None -> forall x, x ∈ l -> p x = false.
  Proof. intros H x Hx%list_elem_of_In. eapply find_none; eauto. Qed.
End lists.

Lemma elem_of_map {A B} (f : A -> B) l y : y ∈ map f l <-> exists x, y = f x /\ x ∈ l.
Proof. rewrite list_elem_of_In, in_map_iff. setoid_rewrite list_elem_of_In. naive_solver. Qed.

Section forall2.
Context {A B : Type} (P : A -> B -> Prop).

Lemma Forall2_in_l l k x : Forall2 P l k -> x ∈ l -> exists y, y ∈ k /\ P x y.
Proof.
  induction 1 as [|a b l k Hp _ IH]; [by intros ?%not_elem_of_nil|].
  rewrite elem_of_cons. intros [->|Hx]; [exists b; split; [left|done]|].
  destruct (IH Hx) as (y & Hy & ?). exists y. split; [by right|done].
Qed.

Lemma Forall2_in_r l k y : Forall2 P l k -> y ∈ k -> exists x, x ∈ l /\ P x y.
Proof.
  induction 1 as [|a b l k Hp _ IH]; [by intros ?%not_elem_of_nil|].
  rewrite elem_of_cons. intros [->|Hx]; [exists a; split; [left|done]|].
  destruct (IH Hx) as (x & ? & ?). exists x. split; [by right|done].
Qed.

Lemma Forall2_strengthen (Q : A -> B -> Prop) l k :
  Forall2 P l k -> (forall x y, x ∈ l -> y ∈ k -> P x y -> Q x y) -> Forall2 Q l k.
Proof.
  induction 1 as [|a b l k Hp _ IH]; intros HQ; constructor.
  - apply HQ; [left|left|done].
  - apply IH. intros x y Hx Hy. apply HQ; by right.
Qed.

Lemma Forall2_build (l : list A) :
  (forall x, x ∈ l -> exists y, P x y) -> exists k, Forall2 P l k.
Proof.
  induction l as [|x l IH]; intros Hall; [by exists []; constructor|].
  destruct (Hall x) as [y Hy]; [left|]. destruct IH as [k Hk].
  - intros z Hz. apply Hall. by right.
  - exists (y :: k). by constructor.
Qed.
End forall2.

(** Rows with a unique key. *)
Section keyed.
Context {A K : Type} (key : A -> K).
Implicit Types l : list A.

Lemma NoDup_key_inj l x y :
    NoDup (map key l) -> x ∈ l -> y ∈ l -> key x = key y -> x = y.
  Proof.
    induction l as [|z l IH]; simpl; intros Hnd Hx Hy E; [by apply not_elem_of_nil in Hx|].
    apply NoDup_cons in Hnd as [Hz Hnd].
    assert (Hin : forall w, w ∈ l -> key w ∈ map key l).
    { intros w Hw. by apply list_elem_of_In, in_map, list_elem_of_In. }
    apply elem_of_cons in Hx as [->|Hx]; apply elem_of_cons in Hy as [->|Hy]; auto.
    - destruct Hz. rewrite E. auto.
    - destruct Hz. rewrite <- E. auto.
  Qed.

Lemma filter_unique l x p :
    NoDup (map key l) -> x ∈ l -> p x = true ->
    (forall y, y ∈ l -> p y = true -> key y = key x) -> List.filter p l = [x].
  Proof.
    induction l as [|z l IH]; simpl; intros Hnd Hx Hp Hk; [by apply not_elem_of_nil in Hx|].
    pose proof Hnd as Hnd'. apply NoDup_cons in Hnd as [Hz Hnd].
    destruct (p z) eqn:Hpz.
    - assert (z = x) as ->.
      { apply (NoDup_key_inj (z :: l)); [done|left|done|]. apply Hk; [left|done]. }
      f_equal. apply lfilter_none. intros y Hy. destruct (p y) eqn:Hpy; [|done].
      destruct Hz. rewrite <- (Hk y) by (by (try right)).
      by apply list_elem_of_In, in_map, list_elem_of_In.
    - apply elem_of_cons in Hx as [->|Hx]; [congruence|].
      apply IH; auto. intros y Hy. apply Hk. by right.
  Qed.
End keyed.

(** ** Sorting: [ORDER BY] and [Array.prototype.sort], which are stable. *)
Section isort.
Context {A : Type} (leb : A -> A -> bool).

Fixpoint isort_insert (x : A) (l : list A) : list A :=
    match l with
    | [] => [x]
    | y :: l' => if leb x y then x :: y :: l' else y :: isort_insert x l'
    end.

Definition isort (l : list A) : list A := foldr isort_insert [] l.

Lemma isort_insert_perm x l : isort_insert x l ≡ₚ x :: l.
  Proof.
    induction l as [|y l IH]; simpl; [done|]. destruct (leb x y); [done|].
    rewrite IH. by constructor.
  Qed.

Lemma isort_perm l : isort l ≡ₚ l.
  Proof.
    induction l as [|x l IH]; simpl; [done|]. rewrite isort_insert_perm. by rewrite IH.
  Qed.

Lemma elem_of_isort l x : x ∈ isort l <-> x ∈ l.
  Proof. by rewrite isort_perm. Qed.

Lemma isort_length l : length (isort l) = length l.
  Proof. by rewrite isort_perm. Qed.

Context (leb_total : forall x y, leb x y = false -> leb y x = true)
          (leb_trans : forall x y z, leb x y = true -> leb y z = true -> leb x z = true).

Lemma isort_insert_sorted x l :
    StronglySorted (fun a b => leb a b = true) l ->
    StronglySorted (fun a b => leb a b = true) (isort_insert x l).
  Proof.
    induction 1 as [|y l Hs IH Hall]; simpl; [repeat constructor|].
    destruct (leb x y) eqn:E.
    - constructor; [by constructor|]. constructor; [done|].
      eapply Forall_impl; [exact Hall|]. simpl. eauto.
    - constructor; [done|]. rewrite isort_insert_perm. constructor; auto.
  Qed.

Lemma isort_sorted l : StronglySorted (fun a b => leb a b = true) (isort l).
  Proof. induction l; simpl; [constructor|by apply isort_insert_sorted]. Qed.

  (** The row of [ORDER BY ... LIMIT 1] precedes every other row. *)
Lemma isort_head_least l x y : head (isort l) = Some x -> y ∈ l -> leb x y = true \/ x = y.
  Proof.
    intros Hh Hy. apply elem_of_isort in Hy. pose proof (isort_sorted l) as Hs.
    destruct (isort l) as [|z l']; simplify_eq/=.
    apply StronglySorted_inv in Hs as [_ Hall].
    apply elem_of_cons in Hy as [->|Hy]; [by right|]. left.
    by eapply (proj1 (Forall_forall _ _)) in Hall; eauto.
  Qed.
End isort.

(** ** Hints *)
Create HintDb pv discriminated.
#[export] Hint Resolve head_elem_of : pv.
