(* ===== verification/Js.v ===== *)
(** * The JavaScript run time the source relies on

    Exceptions ([Outcome], [Exn]), JSON ([JSON.stringify], [JSON.parse]) and
    the hexadecimal codec of [Buffer].  A JavaScript string is represented by
    its UTF-8 bytes (a Rocq [string]); [Buffer.from(s, 'utf8')] is therefore
    the identity.  The exceptions are the error classes the modelled files
    declare or raise.  Nothing of this file models code of the repository: it
    is the part of the language its modules use. *)

From S2P Require Import Prelude.
From Stdlib Require Import Ascii String.
From stdpp Require Import strings.

(** ** Exceptions *)

(** Every error class the modelled code constructs or catches. *)
Inductive Exn :=
| JsError (message : string)                        (* new Error(message) *)
| SyntaxError                                       (* JSON.parse *)
| UniqueViolation                                   (* SQLSTATE 23505 *)
| LockNotAvailable                                  (* SQLSTATE 55P03 *)
| BackupDecryptError (message : string)             (* workers/backup-crypto.ts *)
| VaultSealedError                                  (* vault/key-service.ts *)
| FieldKeyConflictError (conflictingKey : string)   (* credentials/field-set.ts *)
| LegacyShapeFieldLossError                         (* credentials/field-set.ts *)
| TotpSeedRequiredError (fieldKey : string)         (* credentials/totp-field.ts *)
| InvalidTotpSeedError (fieldKey : string)          (* credentials/totp-field.ts *)
| VersionConflictError                              (* credentials/service.ts *)
| RotationConflictError (rotationId : option Uuid)  (* rotation/service.ts *)
| PromotedRotationConflictError (rotationId : Uuid) (* rotation/service.ts *)
| SameTransactionAuditWriteError (reason : string)  (* lib/secure-route.ts *)
| AppError (errorCode : string) (statusCode : Z)    (* lib/errors.ts *)
| InvalidRangeError                                 (* audit/verify.ts *)
| RangeTooLargeError                                (* audit/verify.ts *)
| EphemeralStateValidationError (message : string)  (* lib/ephemeral-state.ts *)
| EphemeralStateUnboundContextError                 (* lib/ephemeral-state.ts *)
| EphemeralStateCapExceededError                    (* lib/ephemeral-state.ts *)
| EphemeralStateStoreUnavailableError.              (* lib/ephemeral-state.ts *)

#[export] Instance Exn_eq_dec : EqDecision Exn.
Proof. solve_decision. Defined.

(** A synchronous computation returns or throws. *)
Inductive Outcome (A : Type) :=
| Ok (a : A)
| Throw (e : Exn).
Arguments Ok {A} a.
Arguments Throw {A} e.

#[export] Instance Outcome_ret : MRet Outcome := fun A a => Ok a.
#[export] Instance Outcome_bind : MBind Outcome := fun A B k m =>
  match m with Ok a => k a | Throw e => Throw e end.

(** ** Characters *)

Local Open Scope pv_scope.

Definition code (c : ascii) : N := N_of_ascii c.
Definition DQ : ascii := "034"%char.  (* quotation mark *)
Definition BS : ascii := "092"%char.  (* reverse solidus *)
Definition chr (n : N) : ascii := ascii_of_N n.

Fixpoint string_map (f : ascii -> string) (s : string) : string :=
  match s with
  | EmptyString => EmptyString
  | String c s' => f c +:+ string_map f s'
  end.

(** A hexadecimal digit, as [toString(16)] prints it. *)
Definition hexDigit (n : N) : ascii :=
  if (n <? 10)%N then chr (48 + n) else chr (87 + n).

Definition hexValue (c : ascii) : option N :=
  let n := code c in
  if (48 <=? n)%N && (n <=? 57)%N then Some (n - 48)%N
  else if (97 <=? n)%N && (n <=? 102)%N then Some (n - 87)%N
  else if (65 <=? n)%N && (n <=? 70)%N then Some (n - 55)%N
  else None.

(** [Buffer#toString('hex')]. *)
Definition toHex : string -> string :=
  string_map (fun c => String (hexDigit (code c / 16)) (String (hexDigit (code c mod 16)) EmptyString)).

(** [Buffer.from(s, 'hex')]: decodes pairs of digits and stops at the first pair that is not one. *)
Fixpoint fromHex (s : string) : string :=
  match s with
  | String h (String l s') =>
      match hexValue h, hexValue l with
      | Some a, Some b => String (chr (a * 16 + b)) (fromHex s')
      | _, _ => EmptyString
      end
  | _ => EmptyString
  end.

(** ** Dates *)

Definition MS_PER_DAY : Z := 86400000.

(** The [n] lowest decimal digits. *)
Fixpoint decimalDigits (n : nat) (z : Z) : string :=
  match n with
  | O => EmptyString
  | S n' => decimalDigits n' (z / 10) +:+ String (chr (48 + Z.to_N (z mod 10))) EmptyString
  end.

(** Year, month and day of a day counted from 1970-01-01. *)
Definition civilFromDays (days : Z) : Z * Z * Z :=
  let z := (days + 719468)%Z in
  let era := (z / 146097)%Z in
  let doe := (z mod 146097)%Z in
  let yoe := ((doe - doe / 1460 + doe / 36524 - doe / 146096) / 365)%Z in
  let doy := (doe - (365 * yoe + yoe / 4 - yoe / 100))%Z in
  let mp := ((5 * doy + 2) / 153)%Z in
  let m := (if mp <? 10 then mp + 3 else mp - 9)%Z in
  ((yoe + era * 400 + if m <=? 2 then 1 else 0)%Z, m, (doy - (153 * mp + 2) / 5 + 1)%Z).

(** [Date#toISOString], for the years 0 to 9999. *)
Definition toISOString (d : Date) : string :=
  let '(year, month, day) := civilFromDays (d / MS_PER_DAY) in
  let ms := (d mod MS_PER_DAY)%Z in
  decimalDigits 4 year +:+ "-" +:+ decimalDigits 2 month +:+ "-" +:+ decimalDigits 2 day +:+ "T"
  +:+ decimalDigits 2 (ms / 3600000) +:+ ":" +:+ decimalDigits 2 (ms / 60000 mod 60) +:+ ":"
  +:+ decimalDigits 2 (ms / 1000 mod 60) +:+ "." +:+ decimalDigits 3 (ms mod 1000) +:+ "Z".

Example toISOString_example : toISOString 1700000000123 = "2023-11-14T22:13:20.123Z".
Proof. reflexivity. Qed.
Example toISOString_leap : toISOString 951782400000 = "2000-02-29T00:00:00.000Z".
Proof. reflexivity. Qed.

(** ** JSON values *)

(** A number is kept as its source lexeme; objects keep the order of their keys. *)
Inductive Json :=
| JNull
| JBool (b : bool)
| JNum (lexeme : string)
| JStr (s : string)
| JArr (items : list Json)
| JObj (members : list (string * Json)).

Section json_ind.
Context (P : Json -> Prop).
Context (Hnull : P JNull) (Hbool : forall b, P (JBool b)) (Hnum : forall l, P (JNum l))
          (Hstr : forall s, P (JStr s))
          (Harr : forall l, Forall P l -> P (JArr l))
          (Hobj : forall kvs, Forall (fun kv => P kv.2) kvs -> P (JObj kvs)).

Fixpoint Json_ind' (j : Json) : P j :=
    match j with
    | JNull => Hnull
    | JBool b => Hbool b
    | JNum l => Hnum l
    | JStr s => Hstr s
    | JArr l => Harr l
        ((fix go l : Forall P l :=
            match l with [] => @List.Forall_nil _ P | x :: l' => @List.Forall_cons _ P x l' (Json_ind' x) (go l') end) l)
    | JObj kvs => Hobj kvs
        ((fix go l : Forall (fun kv => P kv.2) l :=
            match l with
            | [] => @List.Forall_nil _ _
            | kv :: l' => @List.Forall_cons _ (fun kv => P kv.2) kv l' (Json_ind' kv.2) (go l')
            end) kvs)
    end.
End json_ind.

(** The property of an object: the last binding wins, [None] is [undefined]. *)
Definition getProp (k : string) (kvs : list (string * Json)) : option Json :=
  snd <$> List.find (fun kv => kv.1 =? k) (rev kvs).

(** ** JSON.stringify *)

Definition escapeChar (c : ascii) : string :=
  if c =? DQ then String BS (String DQ EmptyString)
  else if c =? BS then String BS (String BS EmptyString)
  else if c =? "008"%char then String BS "b"
  else if c =? "012"%char then String BS "f"
  else if c =? "010"%char then String BS "n"
  else if c =? "013"%char then String BS "r"
  else if c =? "009"%char then String BS "t"
  else if (code c <? 32)%N
  then String BS (String "u"%char (String "0"%char (String "0"%char
         (String (hexDigit (code c / 16)) (String (hexDigit (code c mod 16)) EmptyString)))))
  else String c EmptyString.

Definition quote (s : string) : string :=
  String DQ (string_map escapeChar s +:+ String DQ EmptyString).

(** [a,b,c] *)
Fixpoint commaSep (l : list string) : string :=
  match l with
  | [] => EmptyString
  | [s] => s
  | s :: l' => s +:+ String ","%char (commaSep l')
  end.

Fixpoint stringify (j : Json) : string :=
  match j with
  | JNull => "null"
  | JBool true => "true"
  | JBool false => "false"
  | JNum l => l
  | JStr s => quote s
  | JArr l => String "["%char (commaSep (map stringify l) +:+ "]")
  | JObj kvs =>
      String "{"%char (commaSep (map (fun kv => quote kv.1 +:+ String ":"%char (stringify kv.2)) kvs) +:+ "}")
  end.

(** ** JSON.parse *)

Definition isWs (c : ascii) : bool :=
  (c =? " "%char) || (c =? "009"%char) || (c =? "010"%char) || (c =? "013"%char).

Fixpoint skipWs (s : string) : string :=
  match s with
  | String c s' => if isWs c then skipWs s' else s
  | EmptyString => EmptyString
  end.

(** The UTF-8 encoding of a code point. *)
Definition utf8 (n : N) : string :=
  if (n <? 128)%N then String (chr n) EmptyString
  else if (n <? 2048)%N
  then String (chr (192 + n / 64)) (String (chr (128 + n mod 64)) EmptyString)
  else if (n <? 65536)%N
  then String (chr (224 + n / 4096))
         (String (chr (128 + n / 64 mod 64)) (String (chr (128 + n mod 64)) EmptyString))
  else String (chr (240 + n / 262144))
         (String (chr (128 + n / 4096 mod 64))
            (String (chr (128 + n / 64 mod 64)) (String (chr (128 + n mod 64)) EmptyString))).

Definition hex4 (a b c d : ascii) : option N :=
  w ← hexValue a; x ← hexValue b; y ← hexValue c; z ← hexValue d;
  Some (w * 4096 + x * 256 + y * 16 + z)%N.

Definition unescape1 (e : ascii) : option ascii :=
  if e =? DQ then Some DQ
  else if e =? BS then Some BS
  else if e =? "/"%char then Some "/"%char
  else if e =? "b"%char then Some "008"%char
  else if e =? "f"%char then Some "012"%char
  else if e =? "n"%char then Some "010"%char
  else if e =? "r"%char then Some "013"%char
  else if e =? "t"%char then Some "009"%char
  else None.

Definition prepend (p : string) (r : option (string * string)) : option (string * string) :=
  '(s, rest) ← r; Some (p +:+ s, rest).

(** The characters of a string literal, after its opening quotation mark. *)
Fixpoint parseChars (s : string) : option (string * string) :=
  match s with
  | EmptyString => None
  | String c s1 =>
      if c =? DQ then Some (EmptyString, s1)
      else if c =? BS then
        match s1 with
        | String e s2 =>
            if e =? "u"%char then
              match s2 with
              | String a (String b (String c' (String d s3))) =>
                  u ← hex4 a b c' d;
                  match s3 with
                  | String b1 (String b2 (String e1 (String e2 (String e3 (String e4 s4))))) =>
                      match (if (b1 =? BS) && (b2 =? "u"%char) && (55296 <=? u)%N && (u <? 56320)%N
                             then hex4 e1 e2 e3 e4 else None) with
                      | Some v =>
                          if (56320 <=? v)%N && (v <? 57344)%N
                          then prepend (utf8 (65536 + (u - 55296) * 1024 + (v - 56320))) (parseChars s4)
                          else prepend (utf8 u) (parseChars s3)
                      | None => prepend (utf8 u) (parseChars s3)
                      end
                  | _ => prepend (utf8 u) (parseChars s3)
                  end
              | _ => None
              end
            else u ← unescape1 e; prepend (String u EmptyString) (parseChars s2)
        | EmptyString => None
        end
      else if (code c <? 32)%N then None
      else prepend (String c EmptyString) (parseChars s1)
  end.

(** The longest prefix of decimal digits. *)
Fixpoint digits (s : string) : string * string :=
  match s with
  | String c s' =>
      if (48 <=? code c)%N && (code c <=? 57)%N
      then let '(d, rest) := digits s' in (String c d, rest)
      else (EmptyString, s)
  | EmptyString => (EmptyString, EmptyString)
  end.

Definition digits1 (s : string) : option (string * string) :=
  match digits s with (EmptyString, _) => None | r => Some r end.

Definition parseFraction (s : string) : option (string * string) :=
  match s with
  | String "." s' => '(d, rest) ← digits1 s'; Some (String "."%char d, rest)
  | _ => Some (EmptyString, s)
  end.

Definition parseExponent (s : string) : option (string * string) :=
  match s with
  | String c s' =>
      if (c =? "e"%char) || (c =? "E"%char) then
        match s' with
        | String g s'' =>
            if (g =? "+"%char) || (g =? "-"%char)
            then '(d, rest) ← digits1 s''; Some (String c (String g d), rest)
            else '(d, rest) ← digits1 s'; Some (String c d, rest)
        | EmptyString => None
        end
      else Some (EmptyString, s)
  | EmptyString => Some (EmptyString, s)
  end.

Definition parseNumber (s : string) : option (string * string) :=
  let '(sign, s1) := match s with
                     | String "-" s' => (String "-"%char EmptyString, s')
                     | _ => (EmptyString, s)
                     end in
  '(int, s2) ← match s1 with
               | String "0" s' => Some (String "0"%char EmptyString, s')
               | _ => digits1 s1
               end;
  '(frac, s3) ← parseFraction s2;
  '(exp, s4) ← parseExponent s3;
  Some (sign +:+ int +:+ frac +:+ exp, s4).

(** The rest of [s] after the literal [w]. *)
Fixpoint literal (w s : string) : option string :=
  match w, s with
  | EmptyString, _ => Some s
  | String a w', String b s' => if a =? b then literal w' s' else None
  | String _ _, EmptyString => None
  end.

Definition stripChar (c : ascii) (s : string) : option string :=
  match s with
  | String d s' => if c =? d then Some s' else None
  | EmptyString => None
  end.

(** A value, the items of a non-empty array and the members of a non-empty
    object; the fuel bounds the recursion depth. *)
Fixpoint parseValue (fuel : nat) (s : string) {struct fuel} : option (Json * string) :=
  match fuel with
  | O => None
  | S n =>
      match skipWs s with
      | String c s1 =>
          if c =? DQ then '(t, r) ← parseChars s1; Some (JStr t, r)
          else if c =? "["%char then
            match stripChar "]" (skipWs s1) with
            | Some r => Some (JArr [], r)
            | None => '(l, r) ← parseItems n (skipWs s1); Some (JArr l, r)
            end
          else if c =? "{"%char then
            match stripChar "}" (skipWs s1) with
            | Some r => Some (JObj [], r)
            | None => '(l, r) ← parseMembers n (skipWs s1); Some (JObj l, r)
            end
          else if c =? "n"%char then r ← literal "ull" s1; Some (JNull, r)
          else if c =? "t"%char then r ← literal "rue" s1; Some (JBool true, r)
          else if c =? "f"%char then r ← literal "alse" s1; Some (JBool false, r)
          else '(l, r) ← parseNumber (String c s1); Some (JNum l, r)
      | EmptyString => None
      end
  end
with parseItems (fuel : nat) (s : string) {struct fuel} : option (list Json * string) :=
  match fuel with
  | O => None
  | S n =>
      '(v, s1) ← parseValue n s;
      match skipWs s1 with
      | String "," s2 => '(l, r) ← parseItems n s2; Some (v :: l, r)
      | String "]" s2 => Some ([v], s2)
      | _ => None
      end
  end
with parseMembers (fuel : nat) (s : string) {struct fuel} : option (list (string * Json) * string) :=
  match fuel with
  | O => None
  | S n =>
      match skipWs s with
      | String c s1 =>
          if c =? DQ then
            '(k, s2) ← parseChars s1;
            match skipWs s2 with
            | String ":" s3 =>
                '(v, s4) ← parseValue n s3;
                match skipWs s4 with
                | String "," s5 => '(l, r) ← parseMembers n s5; Some ((k, v) :: l, r)
                | String "}" s5 => Some ([(k, v)], s5)
                | _ => None
                end
            | _ => None
            end
          else None
      | EmptyString => None
      end
  end.

(** Each level of nesting opens a bracket, and takes two steps of the parser. *)
Definition parseFuel (s : string) : nat := S (S (2 * String.length s)).

Definition JSON_parse (s : string) : Outcome Json :=
  match parseValue (parseFuel s) s with
  | Some (v, r) => match skipWs r with EmptyString => Ok v | _ => Throw SyntaxError end
  | None => Throw SyntaxError
  end.

(** ** Hexadecimal round trip *)

Ltac all_ascii c := destruct c as [[] [] [] [] [] [] [] []].

Lemma hexDigit_pair (c : ascii) :
  hexValue (hexDigit (code c / 16)) = Some (code c / 16)%N /\
  hexValue (hexDigit (code c mod 16)) = Some (code c mod 16)%N /\
  chr (code c / 16 * 16 + code c mod 16) = c.
Proof. all_ascii c; vm_compute; auto. Qed.

Lemma fromHex_toHex (s : string) : fromHex (toHex s) = s.
Proof.
  induction s as [|c s IH]; [done|]. destruct (hexDigit_pair c) as (H1 & H2 & H3).
  change (toHex (String c s)) with
    (String (hexDigit (code c / 16)) (String (hexDigit (code c mod 16)) (toHex s))).
  cbn [fromHex]. by rewrite H1, H2, H3, IH.
Qed.

Lemma toHex_inj (s t : string) : toHex s = toHex t -> s = t.
Proof. intros E. by rewrite <- (fromHex_toHex s), E, fromHex_toHex. Qed.

(** ** JSON round trip *)

Lemma string_app_cons c (s t : string) : String c s +:+ t = String c (s +:+ t).
Proof. done. Qed.

Lemma string_app_assoc (s t u : string) : (s +:+ t) +:+ u = s +:+ (t +:+ u).
Proof. induction s as [|c s IH]; [done|]. by rewrite !string_app_cons, IH. Qed.

Lemma string_app_nil_r (s : string) : s +:+ EmptyString = s.
Proof. induction s as [|c s IH]; [done|]. by rewrite string_app_cons, IH. Qed.

Lemma string_length_app (s t : string) :
  String.length (s +:+ t) = String.length s + String.length t.
Proof. induction s as [|c s IH]; [done|]. rewrite string_app_cons. simpl. by rewrite IH. Qed.

(** A [\u] escape below the surrogates is the code point itself. *)
Lemma parseChars_unicode (a b c d : ascii) u t :
  hex4 a b c d = Some u -> (u < 55296)%N ->
  parseChars (String BS (String "u" (String a (String b (String c (String d t)))))) =
  prepend (utf8 u) (parseChars t).
Proof.
  intros E Hu. cbn -[hex4 utf8]. rewrite E. cbn -[hex4 utf8].
  destruct t as [|b1 [|b2 [|e1 [|e2 [|e3 [|e4 t]]]]]]; try done.
  cbn -[hex4 utf8 N.leb N.ltb].
  rewrite (proj2 (N.leb_gt 55296 u)) by lia. by rewrite andb_false_r.
Qed.

Lemma escapeChar_cases (c : ascii) :
  (exists h l, escapeChar c = String BS (String "u" (String "0" (String "0"
     (String h (String l EmptyString))))) /\ hex4 "0" "0" h l = Some (code c) /\
     utf8 (code c) = String c EmptyString /\ (code c < 55296)%N) \/
  (exists e, escapeChar c = String BS (String e EmptyString) /\
     (e =? "u"%char) = false /\ unescape1 e = Some c) \/
  (escapeChar c = String c EmptyString /\
     (c =? DQ) = false /\ (c =? BS) = false /\ (code c <? 32)%N = false).
Proof.
  all_ascii c; first
    [ right; right; repeat split; reflexivity
    | right; left; eexists; repeat split; reflexivity
    | left; do 2 eexists; repeat split; reflexivity ].
Qed.

Lemma parseChars_escape (c : ascii) (t : string) :
  parseChars (escapeChar c +:+ t) = prepend (String c EmptyString) (parseChars t).
Proof.
  destruct (escapeChar_cases c) as
    [(h & l & E & Hx & Hu & Hlt)|[(e & E & He & Hu)|(E & H1 & H2 & H3)]]; rewrite E.
  - rewrite <- Hu. by apply parseChars_unicode.
  - rewrite !string_app_cons. cbn -[unescape1 bool_decide].
    rewrite He, Hu. done.
  - rewrite !string_app_cons. cbn -[N.ltb bool_decide].
    by rewrite H1, H2, H3.
Qed.

Lemma parseChars_quote (s t : string) :
  parseChars (string_map escapeChar s +:+ String DQ t) = Some (s, t).
Proof.
  induction s as [|c s IH]; [done|]. cbn [string_map].
  by rewrite string_app_assoc, parseChars_escape, IH.
Qed.

(** What follows a value inside a document: nothing, or a closing bracket, or
    a comma. *)
Definition delimited (t : string) : Prop :=
  match t with
  | EmptyString => True
  | String c _ => c = ","%char \/ c = "]"%char \/ c = "}"%char
  end.

(** A lexeme [JSON.parse] reads as one number. *)
Definition wfNumber (l : string) : Prop :=
  match l with String c _ => isWs c = false /\ c <> "]"%char | _ => False end /\
  forall t n, delimited t -> parseValue (S n) (l +:+ t) = Some (JNum l, t).

Fixpoint wfJson (j : Json) : Prop :=
  match j with
  | JNum l => wfNumber l
  | JArr l => foldr and True (map wfJson l)
  | JObj kvs => foldr and True (map (fun kv => wfJson kv.2) kvs)
  | _ => True
  end.

Lemma foldr_and_Forall {A} (P : A -> Prop) l : foldr and True (map P l) <-> Forall P l.
Proof.
  induction l as [|x l IH]; cbn; [by split; [constructor|]|].
  by rewrite Forall_cons, IH.
Qed.

(** The parser reads the value [j] and leaves what follows. *)
Definition parses (j : Json) : Prop :=
  wfJson j -> forall n t, 2 * String.length (stringify j) <= n -> delimited t ->
  parseValue n (stringify j +:+ t) = Some (j, t).

Definition stringifyMember (kv : string * Json) : string :=
  quote kv.1 +:+ String ":"%char (stringify kv.2).

Lemma stringify_nonempty j : wfJson j -> 1 <= String.length (stringify j).
Proof.
  destruct j as [|[]|l|s|l|l]; cbn; try lia. intros [H _]. destruct l; [done|cbn; lia].
Qed.

Lemma commaSep_cons s l :
  commaSep (s :: l) = match l with [] => s | _ => s +:+ String ","%char (commaSep l) end.
Proof. by destruct l. Qed.

Lemma skipWs_id c s : isWs c = false -> skipWs (String c s) = String c s.
Proof. intros E. cbn. by rewrite E. Qed.

Lemma skipWs_delimited t : delimited t -> skipWs t = t.
Proof. destruct t as [|c t]; [done|]. by intros [-> | [-> | ->]]. Qed.

Lemma parseItems_commaSep (l : list Json) (n : nat) (t : string) :
  Forall parses l -> Forall wfJson l -> l <> [] ->
  2 * String.length (commaSep (map stringify l)) + 1 <= n ->
  parseItems n (commaSep (map stringify l) +:+ String "]" t) = Some (l, t).
Proof.
  intros Hp Hw. revert n. induction l as [|j l IH]; intros n Hne Hn; [done|].
  apply Forall_cons in Hp as [Hj Hp]. apply Forall_cons in Hw as [Wj Hw].
  pose proof (stringify_nonempty j Wj). cbn [map] in *. rewrite commaSep_cons in *.
  destruct n as [|n]; [lia|]. destruct l as [|j' l].
  - cbn [map] in *. cbn [parseItems].
    rewrite Hj; [done|done|lia|cbn; auto].
  - cbn [map] in *. rewrite string_length_app in Hn. cbn [String.length] in Hn.
    rewrite string_app_assoc, string_app_cons. cbn [parseItems].
    rewrite Hj; [|done|lia|cbn; auto]. cbn [mbind option_bind]. rewrite skipWs_id by done.
    rewrite IH; [done|done|done|done|cbn [map]; lia].
Qed.

Lemma parseMembers_commaSep (l : list (string * Json)) (n : nat) (t : string) :
  Forall (fun kv => parses kv.2) l -> Forall (fun kv => wfJson kv.2) l -> l <> [] ->
  2 * String.length (commaSep (map stringifyMember l)) + 1 <= n ->
  parseMembers n (commaSep (map stringifyMember l) +:+ String "}" t) = Some (l, t).
Proof.
  intros Hp Hw. revert n. induction l as [|[k j] l IH]; intros n Hne Hn; [done|].
  apply Forall_cons in Hp as [Hj Hp]. apply Forall_cons in Hw as [Wj Hw]. cbn [snd] in *.
  cbn [map] in *. rewrite commaSep_cons in *.
  destruct n as [|n]; [lia|].
  assert (Hlen : String.length (stringifyMember (k, j)) >= String.length (stringify j) + 2).
  { unfold stringifyMember, quote. cbn [fst snd]. rewrite string_length_app. cbn; lia. }
  assert (Hhead : forall u,
    stringifyMember (k, j) +:+ u =
    String DQ (string_map escapeChar k +:+ String DQ (String ":" (stringify j +:+ u)))).
  { intros u. unfold stringifyMember, quote. cbn [fst snd].
    by rewrite !string_app_assoc, !string_app_cons, !string_app_assoc. }
  destruct l as [|kv l].
  - cbn [map] in *. rewrite Hhead. cbn [parseMembers]. rewrite skipWs_id by done.
    rewrite bool_decide_eq_true_2, parseChars_quote by done.
    cbn [mbind option_bind]. rewrite skipWs_id by done.
    rewrite Hj; [|done|lia|cbn; auto]. done.
  - cbn [map] in *. rewrite string_length_app in Hn. cbn [String.length] in Hn.
    rewrite string_app_assoc, Hhead, string_app_cons. cbn [parseMembers].
    rewrite skipWs_id by done. rewrite bool_decide_eq_true_2, parseChars_quote by done.
    cbn [mbind option_bind]. rewrite skipWs_id by done.
    rewrite Hj; [|done|lia|cbn; auto]. cbn [mbind option_bind]. rewrite skipWs_id by done.
    rewrite IH; [done|done|done|done|cbn [map]; lia].
Qed.

(** The first character of a printed value is neither white space nor the
    closing bracket of an empty array. *)
Lemma stringify_head j t :
  wfJson j ->
  exists c u, stringify j +:+ t = String c u /\ isWs c = false /\ c <> "]"%char.
Proof.
  destruct j as [|[]|l|s|l|l]; cbn [stringify wfJson]; intros W;
    rewrite ?string_app_cons; try by do 2 eexists.
  destruct W as [H _]. destruct l as [|c l]; [done|].
  rewrite string_app_cons. exists c, (l +:+ t). tauto.
Qed.

Lemma literal_app w t : literal w (w +:+ t) = Some t.
Proof.
  induction w as [|c w IH]; [done|]. rewrite string_app_cons. cbn [literal].
  by rewrite bool_decide_eq_true_2, IH.
Qed.

Lemma commaSep_map_head {A} (f : A -> string) x l t :
  exists u, commaSep (map f (x :: l)) +:+ t = f x +:+ u.
Proof.
  cbn [map]. rewrite commaSep_cons. destruct (map f l); [by eexists|].
  rewrite string_app_assoc. by eexists.
Qed.

Lemma parses_arr l : Forall parses l -> parses (JArr l).
Proof.
  intros Hp W n t Hn _. cbn [wfJson] in W. apply foldr_and_Forall in W.
  cbn [stringify] in *.
  cbn [String.length] in Hn. rewrite string_length_app in Hn. cbn [String.length] in Hn.
  destruct n as [|n]; [lia|]. rewrite string_app_cons, string_app_assoc.
  cbn [parseValue]. rewrite skipWs_id by done.
  rewrite bool_decide_eq_false_2, bool_decide_eq_true_2 by done.
  destruct l as [|j l]; [done|].
  destruct (commaSep_map_head stringify j l (String "]" t)) as [u Hu].
  destruct (stringify_head j u) as (c & v & Hv & Hc & Hb); [by apply Forall_cons in W as [? _]|].
  pose proof (parseItems_commaSep (j :: l) n t Hp W ltac:(done) ltac:(lia)) as IH.
  change (String "]" "" +:+ t) with (String "]" t).
  rewrite Hu, Hv in *. rewrite skipWs_id by done. cbn [stripChar].
  rewrite bool_decide_eq_false_2 by done. by rewrite IH.
Qed.

Lemma parses_obj l : Forall (fun kv => parses kv.2) l -> parses (JObj l).
Proof.
  intros Hp W n t Hn _. cbn [wfJson] in W. apply foldr_and_Forall in W.
  cbn [stringify] in *. fold stringifyMember in *.
  cbn [String.length] in Hn. rewrite string_length_app in Hn. cbn [String.length] in Hn.
  destruct n as [|n]; [lia|]. rewrite string_app_cons, string_app_assoc.
  cbn [parseValue]. rewrite skipWs_id by done.
  do 2 rewrite bool_decide_eq_false_2 by done. rewrite bool_decide_eq_true_2 by done.
  destruct l as [|kv l]; [done|].
  destruct (commaSep_map_head stringifyMember kv l (String "}" t)) as [u Hu].
  pose proof (parseMembers_commaSep (kv :: l) n t Hp W ltac:(done) ltac:(lia)) as IH.
  change (String "}" "" +:+ t) with (String "}" t).
  change (stringifyMember kv) with (quote kv.1 +:+ String ":" (stringify kv.2)) in Hu.
  unfold quote in Hu. rewrite !string_app_cons in Hu.
  rewrite Hu in *. rewrite skipWs_id by done. cbn [stripChar].
  rewrite bool_decide_eq_false_2 by done. by rewrite IH.
Qed.

Lemma parses_all j : parses j.
Proof.
  induction j as [|b|l|s|l IH|l IH] using Json_ind'; [| | | |by apply parses_arr|by apply parses_obj].
  - intros _ [|n] t Hn Ht; [cbn in Hn; lia|done].
  - intros _ [|n] t Hn Ht; [destruct b; cbn in Hn; lia|]. by destruct b.
  - intros W n t Hn Ht. pose proof (stringify_nonempty (JNum l) W). destruct W as [_ W].
    cbn [stringify] in *. destruct n as [|n]; [lia|]. by apply W.
  - intros _ [|n] t Hn Ht; [cbn in Hn; lia|]. cbn [stringify]. unfold quote.
    rewrite string_app_cons, string_app_assoc. cbn [parseValue].
    rewrite skipWs_id, bool_decide_eq_true_2 by done.
    by rewrite string_app_cons, parseChars_quote.
Qed.

Lemma JSON_parse_stringify j : wfJson j -> JSON_parse (stringify j) = Ok j.
Proof.
  intros W. unfold JSON_parse, parseFuel.
  pose proof (parses_all j W (S (S (2 * String.length (stringify j)))) EmptyString
    ltac:(lia) I) as E.
  by rewrite string_app_nil_r in E; rewrite E.
Qed.

(** Reading back what a serializer wrote determines the value. *)
Lemma stringify_inj j k : wfJson j -> wfJson k -> stringify j = stringify k -> j = k.
Proof.
  intros Wj Wk E. apply JSON_parse_stringify in Wj, Wk. rewrite E in Wj. congruence.
Qed.

#[export] Hint Resolve JSON_parse_stringify fromHex_toHex : pv.
