(* ===== verification/Crypto.v ===== *)
(** * packages/crypto: the encrypted value, the vault key and the backup format

    [encryptSync]/[decryptSync] and the backup container are the functions of
    aes.ts and workers/backup-crypto.ts with the initialisation vector, which
    the code draws with [randomBytes], as an argument; a [Buffer] is the string
    of its bytes.  AES-256-GCM, HKDF and HMAC come from node:crypto and are the
    methods of the class [NodeCrypto].  What the code relies on is in the class
    [NodeCryptoLaws].  The module state of secret-value.ts ([_activeKey]) is an
    explicit [option string]. *)

From S2P Require Import Prelude Js.
From Stdlib Require Import Ascii String.
From stdpp Require Import strings pretty.

Local Open Scope string_scope.
Local Open Scope list_scope.
Local Open Scope pv_scope.

(** node:crypto.  [aesGcmSeal key iv plaintext] is the ciphertext and the tag;
    [aesGcmDecipher key iv tag] is [createDecipheriv] followed by [setAuthTag]
    (both throw on malformed parameters) and gives the function that [update]
    and [final] compute, [None] when the tag does not authenticate. *)
Class NodeCrypto := {
  aesGcmSeal : string -> string -> string -> string * string;
  aesGcmDecipher : string -> string -> string -> Outcome (string -> option string);
  hkdfSync : string -> string -> string -> string -> nat -> string;
  hmacSha256Hex : string -> string -> string;
  sha256 : string -> string;
}.

(** What decryption relies on: with a 256-bit key and a 96-bit vector, a tag
    has 16 bytes and the deciphering of a sealed text is that text; HKDF gives
    the number of bytes asked for; an HMAC is a digest in hexadecimal. *)
Class NodeCryptoLaws `{NodeCrypto} := {
  seal_tag_length key iv p :
    String.length key = 32 -> String.length iv = 12 ->
    String.length (snd (aesGcmSeal key iv p)) = 16;
  decipher_seal key iv p :
    String.length key = 32 -> String.length iv = 12 ->
    exists open,
      aesGcmDecipher key iv (snd (aesGcmSeal key iv p)) = Ok open /\
      open (fst (aesGcmSeal key iv p)) = Some p;
  hkdf_length h ikm salt info n : String.length (hkdfSync h ikm salt info n) = n;
  hmac_hex key s : exists d, d <> EmptyString /\ hmacSha256Hex key s = toHex d;
}.

(** ** types.ts *)
Record EncryptedValue := MkEncryptedValue {
  ev_version : Z;
  ev_iv : string;
  ev_ciphertext : string;
  ev_tag : string;
}.

#[export] Instance EncryptedValue_eq_dec : EqDecision EncryptedValue.
Proof. solve_decision. Defined.

(** ** aes.ts *)

Definition IV_BYTES : nat := 12.
Definition VERSION : Z := 1.

Definition showLength (s : string) : string := pretty (N.of_nat (String.length s)).

(** The key length both directions check. *)
Definition badKeyLength (key : string) : bool := negb (String.length key =? 32).

Section aes.
Context `{NodeCrypto}.

Definition encryptSync (randomIv plaintext key : string) : Outcome EncryptedValue :=
  if badKeyLength key
  then Throw (JsError ("aes.encrypt: key must be 32 bytes, got " +:+ showLength key))
  else
    let '(ct, tg) := aesGcmSeal key randomIv plaintext in
    Ok {| ev_version := VERSION; ev_iv := toHex randomIv; ev_ciphertext := toHex ct; ev_tag := toHex tg |}.

Definition decryptSync (encrypted : EncryptedValue) (key : string) : Outcome string :=
  if negb (ev_version encrypted =? VERSION)
  then Throw (JsError ("aes.decrypt: unsupported version " +:+ pretty (ev_version encrypted)
                       +:+ "; only version 1 supported"))
  else if badKeyLength key
  then Throw (JsError ("aes.decrypt: key must be 32 bytes, got " +:+ showLength key))
  else
    open ← aesGcmDecipher key (fromHex (ev_iv encrypted)) (fromHex (ev_tag encrypted));
    match open (fromHex (ev_ciphertext encrypted)) with
    | Some p => Ok p
    | None => Throw (JsError "Decryption failed: invalid key or corrupted ciphertext")
    end.

(** ** kdf.ts *)

Definition HKDF_PRIMARY : string := "project-vault-v1".
Definition HKDF_AUDIT_LOG : string := "project-vault-audit-log-v1".
Definition HKDF_BACKUP : string := "project-vault-backup-v1".
Definition HKDF_PLATFORM_AUDIT : string := "project-vault-platform-audit-v1".
Definition HKDF_EXPORT : string := "project-vault-export-v1".

Definition deriveKey (ikm info : string) : string :=
  hkdfSync "sha256" ikm "" info 32.

(** ** secret-value.ts: the module-level key *)

Definition setVaultKey (_activeKey : option string) (key : string) : option string := Some key.
Definition clearVaultKey (_activeKey : option string) : option string := None.
Definition isVaultKeySet (_activeKey : option string) : bool := isNotNull _activeKey.

(** The callbacks the code passes compute a value from the plaintext. *)
Definition withSecret {T} (_activeKey : option string) (encrypted : EncryptedValue)
    (fn : string -> Outcome T) : Outcome T :=
  match _activeKey with
  | None => Throw (JsError
      "withSecret: vault is sealed — ensure vault is unsealed before accessing secrets")
  | Some key => plaintext ← decryptSync encrypted key; fn plaintext
  end.

(** ** export-envelope.ts *)

Definition encryptExportBundle (randomIv plaintext exportAesKey : string) : Outcome EncryptedValue :=
  encryptSync randomIv plaintext exportAesKey.
Definition decryptExportBundle (encrypted : EncryptedValue) (exportAesKey : string) : Outcome string :=
  decryptSync encrypted exportAesKey.

(** ** workers/backup-crypto.ts *)

Definition TAG_BYTES : nat := 16.
Definition MAGIC : string := "PVB1".
Definition HEADER_BYTES : nat := String.length MAGIC + IV_BYTES + TAG_BYTES.

Definition encryptBackupBuffer (randomIv plaintext key : string) : Outcome string :=
  if badKeyLength key
  then Throw (JsError ("encryptBackupBuffer: key must be 32 bytes, got " +:+ showLength key))
  else
    let '(ct, tg) := aesGcmSeal key randomIv plaintext in
    Ok (MAGIC +:+ randomIv +:+ tg +:+ ct).

(** [buf.subarray(from, until)] *)
Definition subarray (s : string) (from until : nat) : string := substring from (until - from) s.

Definition decryptBackupBuffer (encrypted key : string) : Outcome string :=
  if badKeyLength key
  then Throw (JsError ("decryptBackupBuffer: key must be 32 bytes, got " +:+ showLength key))
  else if (bool_decide (String.length encrypted < HEADER_BYTES)%nat)
          || negb (subarray encrypted 0 (String.length MAGIC) =? MAGIC)
  then Throw (BackupDecryptError "decryptBackupBuffer: unrecognized backup file format")
  else
    let iv := subarray encrypted (String.length MAGIC) (String.length MAGIC + IV_BYTES) in
    let tag := subarray encrypted (String.length MAGIC + IV_BYTES) HEADER_BYTES in
    let ciphertext := subarray encrypted HEADER_BYTES (String.length encrypted) in
    open ← aesGcmDecipher key iv tag;
    match open ciphertext with
    | Some p => Ok p
    | None => Throw (BackupDecryptError
        "decryptBackupBuffer: decryption failed — invalid key or corrupted/tampered ciphertext")
    end.

End aes.

(** ** envelope.ts *)

Definition ENVELOPE_HALF_BYTES : nat := 16.

Definition combineEnvelopeHalves (envHalf fileHalf : string) : Outcome string :=
  if negb (String.length envHalf =? ENVELOPE_HALF_BYTES)
     || negb (String.length fileHalf =? ENVELOPE_HALF_BYTES)
  then Throw (JsError ("combineEnvelopeHalves: each half must be 16 bytes, got env="
                       +:+ showLength envHalf +:+ " file=" +:+ showLength fileHalf))
  else Ok (envHalf +:+ fileHalf).

Definition isLowerHex (c : ascii) : bool :=
  ((48 <=? code c) && (code c <=? 57))%N || ((97 <=? code c) && (code c <=? 102))%N.

Fixpoint string_forallb (p : ascii -> bool) (s : string) : bool :=
  match s with
  | EmptyString => true
  | String c s' => p c && string_forallb p s'
  end.

(** The regular expression [/^[0-9a-f]{32}$/]. *)
Definition isHex32 (s : string) : bool :=
  (String.length s =? 32) && string_forallb isLowerHex s.

Definition parseEnvelopeEnvHalf (hex : string) : Outcome string :=
  if negb (isHex32 hex)
  then Throw (JsError "VAULT_ENVELOPE_KEY_HALF must be exactly 32 lowercase hex characters (16 bytes)")
  else Ok (fromHex hex).

(** ** passwords.ts: the parameters of the master key derivation *)

Record KeyDerivationParams := MkKeyDerivationParams {
  kdp_type : string;
  kdp_salt : string;
  kdp_memoryCost : Z;
  kdp_timeCost : Z;
  kdp_parallelism : Z;
}.

Definition createKeyDerivationParams (randomSalt : string) : KeyDerivationParams :=
  {| kdp_type := "argon2id"; kdp_salt := toHex randomSalt;
     kdp_memoryCost := 65536; kdp_timeCost := 3; kdp_parallelism := 4 |}.

Definition validateKeyDerivationParams (params : KeyDerivationParams) : Outcome unit :=
  if negb (kdp_type params =? "argon2id") then Throw (JsError "unsupported KDF type")
  else if kdp_memoryCost params <? 65536 then Throw (JsError "memoryCost below minimum")
  else if kdp_timeCost params <? 3 then Throw (JsError "timeCost below minimum")
  else if (kdp_parallelism params <? 1) || (4 <? kdp_parallelism params)
  then Throw (JsError "parallelism out of range")
  else if negb (isHex32 (kdp_salt params)) then Throw (JsError "invalid salt")
  else Ok tt.

(** ** Lemmas *)

Lemma substring_app_l (s t : string) : substring 0 (String.length s) (s +:+ t) = s.
Proof.
  induction s as [|c s IH]; [by destruct t|].
  rewrite string_app_cons. cbn. by rewrite IH.
Qed.

(** The part of a concatenation between two known lengths. *)
Lemma subarray_app (s t u : string) a b :
  a = String.length s -> b = a + String.length t -> subarray (s +:+ t +:+ u) a b = t.
Proof.
  intros -> ->. unfold subarray. rewrite Nat.add_comm, Nat.add_sub.
  induction s as [|c s IH]; [exact (substring_app_l t u)|exact IH].
Qed.

Lemma subarray_app_end (s t : string) a b :
  a = String.length s -> b = a + String.length t -> subarray (s +:+ t) a b = t.
Proof. intros Ha Hb. rewrite <- (string_app_nil_r t) at 1. by apply subarray_app. Qed.

Lemma badKeyLength_false key : badKeyLength key = false <-> String.length key = 32.
Proof. unfold badKeyLength. rewrite negb_false_iff. apply bool_decide_eq_true. Qed.

Lemma toHex_length (s : string) : String.length (toHex s) = 2 * String.length s.
Proof.
  induction s as [|c s IH]; [done|].
  change (String.length (toHex (String c s))) with (S (S (String.length (toHex s)))).
  rewrite IH. cbn. lia.
Qed.

Lemma isLowerHex_pair a b :
  isLowerHex a = true -> isLowerHex b = true ->
  exists m n, hexValue a = Some m /\ hexValue b = Some n /\ (m < 16)%N /\ (n < 16)%N /\
    hexDigit m = a /\ hexDigit n = b.
Proof.
  assert (H : forall c, isLowerHex c = true ->
    exists m, hexValue c = Some m /\ (m < 16)%N /\ hexDigit m = c).
  { intros c. all_ascii c; try discriminate; intros _; eexists; repeat split. }
  intros (m & ? & ? & ?)%H (n & ? & ? & ?)%H. by exists m, n.
Qed.

Lemma code_chr n : (n < 256)%N -> code (chr n) = n.
Proof. apply N_ascii_embedding. Qed.

(** On an even number of lower-case digits, decoding and encoding agree. *)
Lemma toHex_fromHex n (s : string) :
  String.length s = 2 * n -> string_forallb isLowerHex s = true ->
  toHex (fromHex s) = s /\ String.length (fromHex s) = n.
Proof.
  revert s. induction n as [|n IH]; intros s Hl Hs.
  - by destruct s.
  - destruct s as [|a [|b s]]; cbn in Hl; try lia. cbn in Hs. bool_simpl.
    destruct (isLowerHex_pair a b) as (x & y & Ha & Hb & Hx & Hy & <- & <-); [done..|].
    cbn [fromHex]. rewrite Ha, Hb.
    change (toHex (String (chr (x * 16 + y)) (fromHex s))) with
      (String (hexDigit (code (chr (x * 16 + y)) / 16))
        (String (hexDigit (code (chr (x * 16 + y)) mod 16)) (toHex (fromHex s)))).
    rewrite code_chr by lia.
    destruct (IH s) as [E1 E2]; [lia|done|]. rewrite E1. cbn [String.length]. rewrite E2.
    rewrite (N.add_comm _ y), N.div_add, N.Div0.mod_add, N.div_small, N.mod_small by lia.
    done.
Qed.

Lemma toHex_lower (s : string) : string_forallb isLowerHex (toHex s) = true.
Proof.
  induction s as [|c s IH]; [done|].
  change (toHex (String c s)) with
    (String (hexDigit (code c / 16)) (String (hexDigit (code c mod 16)) (toHex s))).
  cbn [string_forallb]. rewrite IH. by all_ascii c.
Qed.

Lemma isHex32_toHex b : isHex32 (toHex b) = true <-> String.length b = 16.
Proof.
  unfold isHex32. rewrite toHex_lower, andb_true_r, bool_decide_eq_true, toHex_length. lia.
Qed.

Lemma isHex32_spec h : isHex32 h = true <-> exists b, String.length b = 16 /\ h = toHex b.
Proof.
  split.
  - unfold isHex32. intros H. bool_simpl. destruct (toHex_fromHex 16 h) as [E1 E2]; [done..|].
    by exists (fromHex h).
  - intros (b & Hb & ->). by apply isHex32_toHex.
Qed.

Lemma backup_layout (iv tg ct : string) :
  String.length iv = 12 -> String.length tg = 16 ->
  let f := MAGIC +:+ iv +:+ tg +:+ ct in
  String.length f = 32 + String.length ct /\ subarray f 0 4 = MAGIC /\
  subarray f 4 16 = iv /\ subarray f 16 32 = tg /\ subarray f 32 (String.length f) = ct.
Proof.
  intros Hi Ht f. assert (Hf : String.length f = 32 + String.length ct).
  { unfold f. rewrite !string_length_app, Hi, Ht. done. }
  split; [exact Hf|]. rewrite Hf. unfold f. repeat split.
  - exact (subarray_app "" MAGIC (iv +:+ tg +:+ ct) 0 4 eq_refl eq_refl).
  - by apply subarray_app; rewrite ?Hi.
  - rewrite <- (string_app_assoc MAGIC iv). apply subarray_app;
      rewrite ?string_length_app, ?Hi, ?Ht; done.
  - rewrite <- (string_app_assoc MAGIC iv), <- (string_app_assoc _ tg).
    apply subarray_app_end; rewrite ?string_length_app, ?Hi, ?Ht; done.
Qed.

Lemma combine_ok (b f : string) :
  String.length b = ENVELOPE_HALF_BYTES -> String.length f = ENVELOPE_HALF_BYTES ->
  combineEnvelopeHalves b f = Ok (b +:+ f).
Proof. intros Hb Hf. unfold combineEnvelopeHalves. by rewrite !bool_decide_eq_true_2. Qed.

Lemma string_app_inj_length (a b c d : string) :
  a +:+ b = c +:+ d -> String.length a = String.length c -> a = c /\ b = d.
Proof.
  revert c. induction a as [|x a IH]; intros [|y c]; cbn [String.length]; try done.
  rewrite !string_app_cons. intros [= -> E] Hl. destruct (IH c E) as [-> ->]; [congruence|done].
Qed.

Fixpoint string_repeat (c : ascii) (n : nat) : string :=
  match n with O => EmptyString | S n => String c (string_repeat c n) end.

Lemma substring_length (n : nat) (s : string) :
  n <= String.length s -> String.length (substring 0 n s) = n.
Proof.
  revert n. induction s as [|c s IH]; intros [|n] Hn; cbn in *; try done; [lia|].
  rewrite IH; lia.
Qed.

(** ** Theorems *)

(** The round trip of one stored value. *)
Lemma encryptSync_decrypts `{NodeCryptoLaws} (key iv plaintext : string)
    (Hkey : String.length key = 32) (Hiv : String.length iv = IV_BYTES) :
  exists e, encryptSync iv plaintext key = Ok e /\ ev_version e = VERSION /\
    decryptSync e key = Ok plaintext /\
    forall old, withSecret (setVaultKey old key) e Ok = Ok plaintext.
Proof.
  unfold encryptSync. apply badKeyLength_false in Hkey as Hk. rewrite Hk.
  destruct (decipher_seal key iv plaintext Hkey Hiv) as (open & E1 & E2).
  destruct (aesGcmSeal key iv plaintext) as [ct tg]; cbn [fst snd] in *.
  eexists; split; [done|]. split; [done|].
  assert (E : decryptSync {| ev_version := VERSION; ev_iv := toHex iv;
    ev_ciphertext := toHex ct; ev_tag := toHex tg |} key = Ok plaintext).
  { unfold decryptSync. cbn [ev_version ev_iv ev_ciphertext ev_tag].
    rewrite Hk, !fromHex_toHex, E1. cbn. by rewrite E2. }
  split; [exact E|]. intros old. cbn. by rewrite E.
Qed.

(** What [encrypt] writes with a 256-bit key, [decrypt] and [withSecret]
    (once the same key is set) read back: the stored row carries the format
    version 1 and the plaintext of any length is recovered exactly. *)
Theorem decrypt_encrypt `{NodeCryptoLaws} (key iv plaintext : string)
    (Hkey : String.length key = 32) (Hiv : String.length iv = IV_BYTES) :
  exists e, encryptSync iv plaintext key = Ok e /\ ev_version e = VERSION /\
    decryptSync e key = Ok plaintext /\
    forall old, withSecret (setVaultKey old key) e Ok = Ok plaintext.
Proof. by apply encryptSync_decrypts. Qed.

(** The backup container [PVB1 | iv | tag | ciphertext] is read back by
    [decryptBackupBuffer] for every plaintext, and is 32 bytes of header longer
    than its ciphertext. *)
Theorem decryptBackup_encryptBackup `{NodeCryptoLaws} (key iv plaintext : string)
    (Hkey : String.length key = 32) (Hiv : String.length iv = IV_BYTES) :
  exists file, encryptBackupBuffer iv plaintext key = Ok file /\
    decryptBackupBuffer file key = Ok plaintext /\
    String.length file = 32 + String.length (fst (aesGcmSeal key iv plaintext)).
Proof.
  unfold encryptBackupBuffer. apply badKeyLength_false in Hkey as Hk. rewrite Hk.
  destruct (decipher_seal key iv plaintext Hkey Hiv) as (open & E1 & E2).
  pose proof (seal_tag_length key iv plaintext Hkey Hiv) as Ht.
  destruct (aesGcmSeal key iv plaintext) as [ct tg]; cbn [fst snd] in *.
  eexists; split; [done|]. unfold decryptBackupBuffer. rewrite Hk.
  destruct (backup_layout iv tg ct Hiv Ht) as (Hlen & E3 & E4 & E5 & E6).
  split; [|done]. cbv zeta. change (String.length MAGIC) with 4.
  change (4 + IV_BYTES) with 16. change HEADER_BYTES with 32.
  rewrite E3, E4, E5, E6, Hlen.
  rewrite bool_decide_eq_false_2 by lia.
  cbn [negb orb]. rewrite bool_decide_eq_true_2 by done.
  cbn [negb orb]. rewrite E1. cbn. by rewrite E2.
Qed.

(** [parseEnvelopeEnvHalf] accepts exactly the lower-case hexadecimal
    spelling of 16 bytes and gives those bytes; two such halves always combine
    into 32 bytes of key material, and different halves into different material. *)
Theorem parseEnvelopeEnvHalf_spec (h : string) :
  (forall b, parseEnvelopeEnvHalf h = Ok b <->
             (h = toHex b /\ String.length b = ENVELOPE_HALF_BYTES)) /\
  (forall b f, parseEnvelopeEnvHalf h = Ok b -> String.length f = ENVELOPE_HALF_BYTES ->
     combineEnvelopeHalves b f = Ok (b +:+ f) /\ String.length (b +:+ f) = 32 /\
     forall b' f', combineEnvelopeHalves b' f' = Ok (b +:+ f) -> b' = b /\ f' = f).
Proof.
  assert (Hspec : forall b, parseEnvelopeEnvHalf h = Ok b <->
    (h = toHex b /\ String.length b = ENVELOPE_HALF_BYTES)).
  { intros b. unfold parseEnvelopeEnvHalf. destruct (isHex32 h) eqn:E; cbn [negb].
    - apply isHex32_spec in E as (b' & Hb & ->). rewrite fromHex_toHex.
      split; [intros [= <-]; done|]. by intros [->%toHex_inj _].
    - split; [done|]. intros [-> Hb%isHex32_toHex]. congruence. }
  split; [exact Hspec|]. intros b f [_ Hb]%Hspec Hf. rewrite string_length_app, Hb, Hf.
  split; [by apply combine_ok|]. split; [done|]. intros b' f'.
  destruct (decide (String.length b' = 16 /\ String.length f' = 16)) as [[Hb' Hf']|Hn].
  - rewrite combine_ok by done. intros [= E]. apply string_app_inj_length in E; [done|].
    unfold ENVELOPE_HALF_BYTES in *; lia.
  - unfold combineEnvelopeHalves. intros E. destruct Hn.
    destruct (negb _ || negb _) eqn:G in E; [done|]. by bool_simpl.
Qed.

(** The stored key-derivation parameters are accepted exactly when they
    are Argon2id with at least the canonical memory and time cost, one to four
    lanes and a 16-byte salt in lower-case hexadecimal; the parameters a new
    vault is created with are accepted. *)
Theorem validateKeyDerivationParams_spec (params : KeyDerivationParams) :
  (validateKeyDerivationParams params = Ok tt <->
     kdp_type params = "argon2id" /\ (65536 <= kdp_memoryCost params)%Z /\
     (3 <= kdp_timeCost params)%Z /\ (1 <= kdp_parallelism params <= 4)%Z /\
     exists b, String.length b = 16 /\ kdp_salt params = toHex b) /\
  (forall b, String.length b = 16 ->
     validateKeyDerivationParams (createKeyDerivationParams b) = Ok tt).
Proof.
  assert (Hspec : forall p, validateKeyDerivationParams p = Ok tt <->
     kdp_type p = "argon2id" /\ (65536 <= kdp_memoryCost p)%Z /\
     (3 <= kdp_timeCost p)%Z /\ (1 <= kdp_parallelism p <= 4)%Z /\
     exists b, String.length b = 16 /\ kdp_salt p = toHex b).
  { intros p. rewrite <- isHex32_spec. unfold validateKeyDerivationParams.
    repeat case_match; bool_simpl; split; intros; destruct_and?; try done; try congruence; try lia;
      repeat split; try done; try lia.
    all: match goal with H : _ || _ = true |- _ => apply orb_true_iff in H as [?|?]; bool_simpl; lia end. }
  split; [apply Hspec|]. intros b Hb. apply Hspec. cbn. repeat split; try lia. by exists b.
Qed.

(** ** A concrete cipher, for the witnesses

    The tag is the first half of the key, so that a wrong key is detected. *)
Definition toyCrypto : NodeCrypto := {|
  aesGcmSeal key iv p := (p, substring 0 16 key);
  aesGcmDecipher key iv tg :=
    Ok (fun ct => if tg =? substring 0 16 key then Some ct else None);
  hkdfSync h ikm salt info n := string_repeat "k"%char n;
  hmacSha256Hex key s := toHex (String "h" (key +:+ s));
  sha256 s := s;
|}.

Lemma toyCrypto_laws : @NodeCryptoLaws toyCrypto.
Proof.
  split; cbn.
  - intros key iv p Hk _. apply substring_length. rewrite Hk. lia.
  - intros key iv p _ _. eexists; split; [done|]. cbn. by rewrite bool_decide_eq_true_2.
  - intros _ _ _ _ n. induction n as [|n IH]; cbn; congruence.
  - intros key s. exists (String "h" (key +:+ s)). by split.
Qed.

Definition key32 : string := "0123456789abcdef0123456789abcdef".
Definition iv12 : string := "iv-iv-iv-iv-".

Lemma decrypt_encrypt_witness :
  exists e, @encryptSync toyCrypto iv12 "hunter2" key32 = Ok e /\ ev_version e = VERSION /\
    @decryptSync toyCrypto e key32 = Ok "hunter2" /\
    forall old, @withSecret toyCrypto _ (setVaultKey old key32) e Ok = Ok "hunter2".
Proof. exact (@decrypt_encrypt toyCrypto toyCrypto_laws key32 iv12 "hunter2" eq_refl eq_refl). Defined.

Lemma decryptBackup_encryptBackup_witness :
  exists file, @encryptBackupBuffer toyCrypto iv12 "dump" key32 = Ok file /\
    @decryptBackupBuffer toyCrypto file key32 = Ok "dump" /\
    String.length file = 32 + String.length (fst (@aesGcmSeal toyCrypto key32 iv12 "dump")).
Proof.
  exact (@decryptBackup_encryptBackup toyCrypto toyCrypto_laws key32 iv12 "dump" eq_refl eq_refl).
Defined.
