(* ===== verification/FieldSet.v ===== *)
(** * Structured secrets: credential-templates.ts, field-set.ts, totp-field.ts

    The field set a version stores, its JSON envelope, its plaintext metadata
    and the one-time-password seeds.  Unicode case folding, normalisation and
    white space (tables of the JavaScript engine) are the methods of [Unicode];
    the otpauth library is [OtpAuth]. *)

From S2P Require Import Prelude Js.
From Stdlib Require Import Ascii String.
From stdpp Require Import strings pretty.

Local Open Scope string_scope.
Local Open Scope list_scope.
Local Open Scope pv_scope.

(** The Unicode tables behind [trim], [normalize('NFC')], [toLowerCase],
    [toUpperCase] and the regular-expression class of white space. *)
Class Unicode := {
  trim : string -> string;
  normalizeNFC : string -> string;
  normalizeNFKC : string -> string;
  toLowerCase : string -> string;
  toUpperCase : string -> string;
  removeSpaces : string -> string;
}.

(** A [TOTP] object of the otpauth library; [totp_secret] is its key. *)
Record Totp := MkTotp {
  totp_algorithm : string;
  totp_digits : Z;
  totp_period : Z;
  totp_secret : string;
}.

(** otpauth: [OTPAuth.URI.parse] gives a TOTP, something else ([None], an
    HOTP) or throws; [OTPAuth.Secret.fromBase32]; [totp.generate]. *)
Class OtpAuth := {
  URI_parse : string -> Outcome (option Totp);
  Secret_fromBase32 : string -> Outcome string;
  totp_generate : Totp -> Date -> string;
}.

(** ** credential-templates.ts *)

Inductive CredentialTemplate := login | db_connection | api_key | secure_note | custom.
Inductive FieldKind := text | multiline | totp.

#[export] Instance CredentialTemplate_eq_dec : EqDecision CredentialTemplate.
Proof. solve_decision. Defined.
#[export] Instance FieldKind_eq_dec : EqDecision FieldKind.
Proof. solve_decision. Defined.

Definition CREDENTIAL_TEMPLATE_FIELDS (t : CredentialTemplate) : list (string * bool) :=
  match t with
  | login => [("username", false); ("password", true)]
  | db_connection => [("host", false); ("port", false); ("database", false);
                      ("username", false); ("password", true)]
  | api_key => [("key", true)]
  | secure_note => [("note", true)]
  | custom => []
  end.

Definition CREDENTIAL_TEMPLATE_MAIN_FIELD (t : CredentialTemplate) : option string :=
  match t with
  | login | db_connection => Some "password"
  | api_key => Some "key"
  | secure_note => Some "note"
  | custom => None
  end.

Definition FIELD_KINDS : list FieldKind := [text; multiline; totp].
Definition DEFAULT_FIELD_KEY : string := "value".

Definition kindName (k : FieldKind) : string :=
  match k with text => "text" | multiline => "multiline" | totp => "totp" end.

Definition normalizeFieldKey `{Unicode} (key : string) : string :=
  toLowerCase (normalizeNFC (trim key)).

Definition templateFields (t : CredentialTemplate) : list (string * bool) :=
  CREDENTIAL_TEMPLATE_FIELDS t.

(** ** field-set.ts: data *)

Record Field := MkField {
  fld_key : string;
  fld_value : string;
  fld_sensitive : bool;
  fld_kind : option FieldKind;
}.

Record FieldMeta := MkFieldMeta {
  fm_key : string;
  fm_sensitive : bool;
  fm_template : option CredentialTemplate;
  fm_kind : option FieldKind;
}.

#[export] Instance Field_eq_dec : EqDecision Field.
Proof. solve_decision. Defined.
#[export] Instance FieldMeta_eq_dec : EqDecision FieldMeta.
Proof. solve_decision. Defined.
#[export] Instance Eta_Field : Eta Field := fun f =>
  MkField (fld_key f) (fld_value f) (fld_sensitive f) (fld_kind f).

(** The create/edit body: the legacy [value] or a field set. *)
Record CreateBodyish := MkCreateBodyish {
  body_value : option string;
  body_fields : option (list Field);
  body_template : option CredentialTemplate;
}.

Record ResolvedFieldSet := MkResolvedFieldSet {
  rfs_fields : list Field;
  rfs_template : option CredentialTemplate;
}.

Definition isTotp (f : Field) : bool := fld_kind f =? Some totp.

(** [for (const x of l) f(x)], where [f] may throw. *)
Fixpoint forEach {A} (f : A -> Outcome unit) (l : list A) : Outcome unit :=
  match l with
  | [] => Ok tt
  | x :: l' => _ ← f x; forEach f l'
  end.

Definition assertLegacyShapeSafe (isLegacyBody : bool) (currentKeys : list string) : Outcome unit :=
  if negb isLegacyBody then Ok tt
  else
    let isAlreadyMultiField :=
      (bool_decide (1 < length currentKeys)%nat)
      || match currentKeys with
         | k :: _ => negb (k =? DEFAULT_FIELD_KEY)
         | [] => false
         end in
    if isAlreadyMultiField then Throw LegacyShapeFieldLossError else Ok tt.

(** ** totp-field.ts *)

Definition TOTP_DEFAULT_DIGITS : Z := 6.
Definition TOTP_DEFAULT_PERIOD_SECONDS : Z := 30.
Definition TOTP_MIN_SEED_CHARS : Z := 16.
Definition TOTP_MAX_SEED_CHARS : Z := 256.
Definition TOTP_ALGORITHMS : list string := ["SHA1"; "SHA256"; "SHA512"].

(** [s.length]: UTF-16 code units, counted on the UTF-8 bytes. *)
Fixpoint jsLength (s : string) : Z :=
  match s with
  | EmptyString => 0
  | String c s' =>
      (if (code c <? 128)%N then 1 else if (code c <? 192)%N then 0
       else if (code c <? 240)%N then 1 else 2) + jsLength s'
  end.

Fixpoint allChars (p : ascii -> bool) (s : string) : bool :=
  match s with
  | EmptyString => true
  | String c s' => p c && allChars p s'
  end.

(** [/^[A-Z2-7]+$/], on a non-empty string. *)
Definition isBase32 (s : string) : bool :=
  allChars (fun c => ((65 <=? code c) && (code c <=? 90))%N || ((50 <=? code c) && (code c <=? 55))%N) s.

(** [replaceAll('-', '')] and [replace(/=+$/, '')]. *)
Fixpoint removeDashes (s : string) : string :=
  match s with
  | EmptyString => EmptyString
  | String c s' => if c =? "-"%char then removeDashes s' else String c (removeDashes s')
  end.

Fixpoint stripPadding (s : string) : string :=
  match s with
  | EmptyString => EmptyString
  | String c s' => if allChars (fun d => d =? "="%char) s then EmptyString else String c (stripPadding s')
  end.

Section otp.
Context `{Unicode, OtpAuth}.

Definition parseBase32 (txt : string) : Outcome (option Totp) :=
  let normalized := toUpperCase (stripPadding (removeSpaces (removeDashes txt))) in
  if (jsLength normalized <? TOTP_MIN_SEED_CHARS) || (TOTP_MAX_SEED_CHARS <? jsLength normalized)
     || negb (isBase32 normalized)
  then Ok None
  else
    secret ← Secret_fromBase32 normalized;
    Ok (Some {| totp_algorithm := "SHA1"; totp_digits := TOTP_DEFAULT_DIGITS;
                totp_period := TOTP_DEFAULT_PERIOD_SECONDS; totp_secret := secret |}).

Definition parseOtpAuthUri (txt : string) : Outcome (option Totp) :=
  parsed ← URI_parse txt;
  match parsed with
  | None => Ok None
  | Some t =>
      let bits := (Z.of_nat (String.length (totp_secret t)) * 8)%Z in
      if (bits <? TOTP_MIN_SEED_CHARS * 5) || negb (totp_algorithm t ∈? TOTP_ALGORITHMS)
         || (totp_digits t <? 6) || (8 <? totp_digits t)
         || (totp_period t <? 15) || (120 <? totp_period t)
      then Ok None else Ok (Some t)
  end.

(** The library's exceptions are caught and dropped. *)
Definition parseTotpSeed (raw : string) : option Totp :=
  let txt := trim raw in
  if (jsLength txt =? 0%Z) || (2048 <? jsLength txt) then None
  else
    match (if String.prefix "otpauth://" (toLowerCase txt) then parseOtpAuthUri txt else parseBase32 txt) with
    | Ok t => t
    | Throw _ => None
    end.

Record GeneratedTotpCode := MkGeneratedTotpCode {
  gtc_code : string;
  gtc_digits : Z;
  gtc_periodSeconds : Z;
  gtc_expiresAt : Date;
  gtc_secondsRemaining : Z;
}.

(** [Math.ceil(a / b)] *)
Definition ceilDiv (a b : Z) : Z := (- ((- a) / b))%Z.

Definition generateTotpCode (seed : string) (nowMs : Date) : option GeneratedTotpCode :=
  t ← parseTotpSeed seed;
  let periodMs := (totp_period t * 1000)%Z in
  let expiresAtMs := ((nowMs / periodMs + 1) * periodMs)%Z in
  Some {| gtc_code := totp_generate t nowMs; gtc_digits := totp_digits t;
          gtc_periodSeconds := totp_period t; gtc_expiresAt := expiresAtMs;
          gtc_secondsRemaining := Z.max 1 (ceilDiv (expiresAtMs - nowMs) 1000) |}.

Definition assertValidTotpSeeds (fields : list Field) : Outcome unit :=
  forEach (fun field =>
    if isTotp field && isNull (parseTotpSeed (fld_value field))
    then Throw (InvalidTotpSeedError (fld_key field)) else Ok tt) fields.

(** ** field-set.ts: operations *)

Definition isFieldSetBody (body : CreateBodyish) : bool := isNotNull (body_fields body).

Fixpoint assertUniqueFieldKeysFrom (seen : list string) (fields : list Field) : Outcome unit :=
  match fields with
  | [] => Ok tt
  | field :: fields' =>
      let norm := normalizeFieldKey (fld_key field) in
      if norm ∈? seen then Throw (FieldKeyConflictError (fld_key field))
      else assertUniqueFieldKeysFrom (norm :: seen) fields'
  end.

Definition assertUniqueFieldKeys (fields : list Field) : Outcome unit :=
  assertUniqueFieldKeysFrom [] fields.

Definition storedKind (kind : option FieldKind) : option FieldKind :=
  match kind with
  | Some text | None => None
  | Some k => Some k
  end.

Definition keptTotpSeed (name : string) (previousFields : option (list Field)) : Outcome string :=
  let wanted := normalizeFieldKey name in
  match previousFields ≫= List.find (fun item => isTotp item && (normalizeFieldKey (fld_key item) =? wanted)) with
  | None => Throw (TotpSeedRequiredError name)
  | Some previous =>
      if fld_value previous =? "" then Throw (TotpSeedRequiredError name) else Ok (fld_value previous)
  end.

(** One field of a [{ fields }] body, as it is persisted. *)
Definition resolveField (previousFields : option (list Field)) (item : Field) : Outcome Field :=
  value ← (if isTotp item && (fld_value item =? "")
           then keptTotpSeed (fld_key item) previousFields else Ok (fld_value item));
  Ok {| fld_key := fld_key item; fld_value := value;
        fld_sensitive := if isTotp item then true else fld_sensitive item;
        fld_kind := storedKind (fld_kind item) |}.

Definition resolveFieldSet (body : CreateBodyish) (previousFields : option (list Field))
    : Outcome ResolvedFieldSet :=
  match body_fields body with
  | Some bodyFields =>
      _ ← assertUniqueFieldKeys bodyFields;
      fields ← mapM (resolveField previousFields) bodyFields;
      _ ← assertValidTotpSeeds fields;
      Ok {| rfs_fields := fields; rfs_template := body_template body |}
  | None =>
      Ok {| rfs_fields := [ {| fld_key := DEFAULT_FIELD_KEY; fld_value := default "" (body_value body);
                               fld_sensitive := true; fld_kind := None |} ];
            rfs_template := None |}
  end.

Definition buildFieldMeta (resolved : ResolvedFieldSet) : list FieldMeta :=
  map (fun f => {| fm_key := fld_key f; fm_sensitive := fld_sensitive f;
                   fm_template := rfs_template resolved; fm_kind := storedKind (fld_kind f) |})
      (rfs_fields resolved).

Definition fieldJson (f : Field) : Json :=
  JObj ([("key", JStr (fld_key f)); ("value", JStr (fld_value f)); ("sensitive", JBool (fld_sensitive f))]
        ++ match storedKind (fld_kind f) with Some k => [("kind", JStr (kindName k))] | None => [] end)%list.

Definition serializeFieldEnvelope (resolved : ResolvedFieldSet) : string :=
  stringify (JArr (map fieldJson (rfs_fields resolved))).

Definition fieldMetaForResponse (schemaVersion : Z) (fieldMeta : option (list FieldMeta)) : list FieldMeta :=
  match fieldMeta with
  | Some fm => if 2 <=? schemaVersion then fm
               else [MkFieldMeta DEFAULT_FIELD_KEY true None None]
  | None => [MkFieldMeta DEFAULT_FIELD_KEY true None None]
  end.

(** [FIELD_KINDS.find((kind) => kind === raw)] *)
Definition parseKind (raw : option Json) : option FieldKind :=
  List.find (fun kind => match raw with Some (JStr s) => s =? kindName kind | _ => false end) FIELD_KINDS.

(** [String(f.key)] and [Boolean(f.sensitive)]; a number prints as its lexeme. *)
Fixpoint toJsString (j : Json) : string :=
  match j with
  | JNull => "null"
  | JBool b => if b then "true" else "false"
  | JNum l => l
  | JStr s => s
  | JArr l => commaSep (map (fun x => match x with JNull => "" | _ => toJsString x end) l)
  | JObj _ => "[object Object]"
  end.

(** Every digit of the mantissa is zero. *)
Fixpoint isZeroLexeme (l : string) : bool :=
  match l with
  | EmptyString => true
  | String c l' =>
      if (c =? "e"%char) || (c =? "E"%char) then true
      else if (49 <=? code c)%N && (code c <=? 57)%N then false
      else isZeroLexeme l'
  end.

Definition toBoolean (j : option Json) : bool :=
  match j with
  | None | Some JNull => false
  | Some (JBool b) => b
  | Some (JNum l) => negb (isZeroLexeme l)
  | Some (JStr s) => negb (s =? "")
  | Some (JArr _) | Some (JObj _) => true
  end.

(** One element of the envelope; reading a property of [null] throws. *)
Definition parseFieldJson (raw : Json) : Outcome Field :=
  match raw with
  | JNull => Throw (JsError "Cannot read properties of null (reading 'key')")
  | _ =>
      let get k := match raw with JObj kvs => getProp k kvs | _ => None end in
      Ok {| fld_key := match get "key" with Some j => toJsString j | None => "undefined" end;
            fld_value := match get "value" with Some (JStr s) => s | _ => "" end;
            fld_sensitive := toBoolean (get "sensitive");
            fld_kind := storedKind (parseKind (get "kind")) |}
  end.

Definition parseEnvelope (plaintext : string) : Outcome (list Field) :=
  parsed ← JSON_parse plaintext;
  match parsed with
  | JArr items => mapM parseFieldJson items
  | _ => Throw (JsError "Field envelope is not a JSON array")
  end.

Definition unwrapRevealValue (schemaVersion : Z) (plaintext : string) : Outcome string :=
  if schemaVersion <? 2 then Ok plaintext
  else
    fields ← parseEnvelope plaintext;
    match fields with
    | [f] => Ok (fld_value f)
    | _ => Ok plaintext
    end.

Definition parseFieldsFromPlaintext (schemaVersion : Z) (plaintext : string) : Outcome (list Field) :=
  if schemaVersion <? 2
  then Ok [ {| fld_key := DEFAULT_FIELD_KEY; fld_value := plaintext; fld_sensitive := true; fld_kind := None |} ]
  else parseEnvelope plaintext.

Definition withoutTotpFields (fields : list Field) : list Field :=
  List.filter (fun item => negb (isTotp item)) fields.

Definition plaintextWithoutTotpSeeds (schemaVersion : Z) (plaintext : string) : Outcome string :=
  if schemaVersion <? 2 then Ok plaintext
  else
    fields ← parseEnvelope plaintext;
    if negb (existsb isTotp fields) then Ok plaintext
    else Ok (serializeFieldEnvelope
      {| rfs_fields := map (fun item => if isTotp item then item <| fld_value := "" |> else item) fields;
         rfs_template := None |}).

Record FieldDelta := MkFieldDelta {
  addedFields : list string;
  removedFields : list string;
  renamedFields : list (string * string);
}.

Definition computeFieldDelta (oldKeys newKeys : list string) : FieldDelta :=
  let oldSet := map normalizeFieldKey oldKeys in
  let newSet := map normalizeFieldKey newKeys in
  let added := List.filter (fun k => negb (normalizeFieldKey k ∈? oldSet)) newKeys in
  let removed := List.filter (fun k => negb (normalizeFieldKey k ∈? newSet)) oldKeys in
  match added, removed with
  | [addedKey], [removedKey] =>
      {| addedFields := []; removedFields := []; renamedFields := [(removedKey, addedKey)] |}
  | _, _ => {| addedFields := added; removedFields := removed; renamedFields := [] |}
  end.

(** [new Map(entries)] and [map.get(k)]: the last entry of a key wins. *)
Definition mapGet (entries : list (string * string)) (k : string) : option string :=
  snd <$> List.find (fun e => e.1 =? k) (rev entries).

Definition computeChangedFields (oldFields newFields : list Field) : list string :=
  let oldValues := map (fun item => (normalizeFieldKey (fld_key item), fld_value item)) oldFields in
  map fld_key (List.filter (fun item =>
    match mapGet oldValues (normalizeFieldKey (fld_key item)) with
    | Some before => negb (before =? fld_value item)
    | None => false
    end) newFields).

End otp.

(** ** Lemmas *)

Lemma mapM_Ok {A B} (f : A -> Outcome B) (g : A -> B) l :
  (forall x, x ∈ l -> f x = Ok (g x)) -> mapM f l = Ok (map g l).
Proof.
  induction l as [|x l IH]; intros E; cbn; [done|].
  rewrite E by left. cbn. rewrite IH; [done|]. intros y Hy. apply E. by right.
Qed.

Lemma mapM_Ok_inv {A B} (f : A -> Outcome B) l k :
  mapM f l = Ok k -> Forall2 (fun x y => f x = Ok y) l k.
Proof.
  revert k. induction l as [|x l IH]; intros k; cbn; [intros [= <-]; constructor|].
  destruct (f x) as [y|] eqn:E; cbn; [|done].
  destruct (mapM f l) as [k'|] eqn:El; cbn; [|done]. intros [= <-]. constructor; auto.
Qed.

Lemma forEach_Ok {A} (f : A -> Outcome unit) l :
  forEach f l = Ok tt <-> forall x, x ∈ l -> f x = Ok tt.
Proof.
  induction l as [|x l IH]; cbn; [split; [intros _ x Hx; by apply not_elem_of_nil in Hx|done]|].
  destruct (f x) as [[]|] eqn:E; cbn.
  - rewrite IH. split; intros Hl y; [|intros Hy; apply Hl; by right].
    rewrite elem_of_cons. intros [->|Hy]; auto.
  - split; [done|]. intros Hl. rewrite Hl in E by left. done.
Qed.

(** A field in the form it is persisted in. *)
Definition storedField (f : Field) : Field := f <| fld_kind ::= storedKind |>.

Lemma storedKind_idem k : storedKind (storedKind k) = storedKind k.
Proof. by destruct k as [[]|]. Qed.

Lemma isTotp_storedField f : isTotp (storedField f) = isTotp f.
Proof. by destruct f as [? ? ? [[]|]]. Qed.

Lemma parseFieldJson_fieldJson f : parseFieldJson (fieldJson f) = Ok (storedField f).
Proof. by destruct f as [k v s [[]|]]; cbn; destruct s. Qed.

Lemma wfJson_fieldJson f : wfJson (fieldJson f).
Proof. by destruct f as [k v s [[]|]]; cbn. Qed.

Lemma parseEnvelope_serialize r :
  parseEnvelope (serializeFieldEnvelope r) = Ok (map storedField (rfs_fields r)).
Proof.
  unfold parseEnvelope, serializeFieldEnvelope. rewrite JSON_parse_stringify; cbn.
  - rewrite (mapM_Ok _ (fun j => match parseFieldJson j with Ok f => f | Throw _ => MkField "" "" true None end)).
    + rewrite map_map. f_equal. apply map_ext. intros f. by rewrite parseFieldJson_fieldJson.
    + intros j (f & <- & _)%list_elem_of_In%in_map_iff. by rewrite parseFieldJson_fieldJson.
  - rewrite foldr_and_Forall. apply Forall_forall. intros j Hj.
    apply list_elem_of_In, in_map_iff in Hj as (f & <- & _). apply wfJson_fieldJson.
Qed.

Section with_unicode.
Context `{Unicode}.

Definition normKeys (fields : list Field) : list string :=
  map (fun f => normalizeFieldKey (fld_key f)) fields.

Lemma assertUniqueFieldKeysFrom_Ok seen fields :
  assertUniqueFieldKeysFrom seen fields = Ok tt <->
  NoDup (normKeys fields) /\ forall k, k ∈ normKeys fields -> k ∉ seen.
Proof.
  revert seen. induction fields as [|f fields IH]; intros seen; cbn.
  { split; [intros _; split; [constructor|intros k Hk; by apply not_elem_of_nil in Hk]|done]. }
  rewrite NoDup_cons. setoid_rewrite elem_of_cons. case_bool_decide as E.
  - split; [done|]. intros [_ Hn]. destruct (Hn (normalizeFieldKey (fld_key f))); auto.
  - rewrite IH. setoid_rewrite elem_of_cons. naive_solver.
Qed.

Lemma assertUniqueFieldKeysFrom_Throw seen fields e :
  assertUniqueFieldKeysFrom seen fields = Throw e <->
  exists pre f post, fields = pre ++ f :: post /\ e = FieldKeyConflictError (fld_key f) /\
    (normalizeFieldKey (fld_key f) ∈ seen \/ normalizeFieldKey (fld_key f) ∈ normKeys pre) /\
    assertUniqueFieldKeysFrom seen pre = Ok tt.
Proof.
  revert seen. induction fields as [|f fields IH]; intros seen; cbn.
  { split; [done|]. by intros ([|] & ? & ? & ? & _). }
  case_bool_decide as E.
  - split.
    + intros [= <-]. exists [], f, fields. auto.
    + intros ([|f' pre] & g & post & Heq & -> & Hg & Hpre); simplify_eq/=; [done|].
      by rewrite bool_decide_eq_true_2 in Hpre.
  - rewrite IH. split.
    + intros (pre & g & post & -> & -> & Hg & Hpre). exists (f :: pre), g, post.
      cbn. rewrite bool_decide_eq_false_2 by done.
      repeat split; auto. rewrite !elem_of_cons in *. naive_solver.
    + intros ([|f' pre] & g & post & Heq & -> & Hg & Hpre); simplify_eq/=.
      * by destruct Hg as [?|?%not_elem_of_nil].
      * rewrite bool_decide_eq_false_2 in Hpre by done. exists pre, g, post.
        rewrite !elem_of_cons in *. naive_solver.
Qed.

End with_unicode.

(** The seed a [totp] field is stored with: its own, or the one it keeps. *)
Definition seedFor `{Unicode} (prev : option (list Field)) (item : Field) : Outcome string :=
  if isTotp item && (fld_value item =? "")
  then keptTotpSeed (fld_key item) prev else Ok (fld_value item).

Section resolve.
Context `{Unicode, OtpAuth}.

Lemma resolveField_seed prev item :
  resolveField prev item =
  (v ← seedFor prev item;
   Ok {| fld_key := fld_key item; fld_value := v;
         fld_sensitive := if isTotp item then true else fld_sensitive item;
         fld_kind := storedKind (fld_kind item) |}).
Proof. done. Qed.

Lemma seedFor_nonempty prev item :
  isTotp item = false \/ fld_value item <> "" -> seedFor prev item = Ok (fld_value item).
Proof.
  unfold seedFor. intros [-> | Hv]; [done|]. rewrite (bool_decide_eq_false_2 _ Hv).
  by rewrite andb_false_r.
Qed.

Lemma seedFor_kept prev item v :
  isTotp item = true -> fld_value item = "" -> seedFor prev item = Ok v ->
  v <> "" /\ exists l p, prev = Some l /\ p ∈ l /\ isTotp p = true /\ fld_value p = v /\
    normalizeFieldKey (fld_key p) = normalizeFieldKey (fld_key item).
Proof.
  unfold seedFor. intros -> ->. rewrite bool_decide_eq_true_2 by done. cbn.
  unfold keptTotpSeed.
  destruct prev as [l|]; cbn; [|done].
  destruct (List.find _ l) as [p|] eqn:E; [|done].
  apply find_elem_of in E as [Hp Hk]. bool_simpl. case_bool_decide as Hv; [done|].
  intros [= <-]. split; [done|]. by exists l, p.
Qed.

Lemma isTotp_kind f g : fld_kind f = storedKind (fld_kind g) -> isTotp f = isTotp g.
Proof. unfold isTotp. intros ->. by destruct (fld_kind g) as [[]|]. Qed.

Lemma assertValidTotpSeeds_Ok fields :
  assertValidTotpSeeds fields = Ok tt <->
  forall f, f ∈ fields -> isTotp f = true -> is_Some (parseTotpSeed (fld_value f)).
Proof.
  unfold assertValidTotpSeeds. rewrite forEach_Ok. split; intros Hall f Hf.
  - intros Ht. specialize (Hall f Hf). cbn in Hall. rewrite Ht in Hall.
    destruct (parseTotpSeed (fld_value f)); [by eexists|done].
  - specialize (Hall f Hf). cbn. destruct (isTotp f); [|done].
    destruct Hall as [t ->]; done.
Qed.

(** How an item of the body and the stored field relate. *)
Definition resolves (prev : option (list Field)) (item f : Field) : Prop :=
  seedFor prev item = Ok (fld_value f) /\ fld_key f = fld_key item /\
  fld_kind f = storedKind (fld_kind item) /\
  fld_sensitive f = (isTotp item || fld_sensitive item).

Lemma resolveField_Ok prev item f : resolveField prev item = Ok f <-> resolves prev item f.
Proof.
  rewrite resolveField_seed. unfold resolves.
  destruct (seedFor prev item) as [v|]; cbn; [|split; [done|by intros []]].
  destruct f as [k v' s kd]. cbn. split; [intros [= <- <- <- <-]|intros ([= ->] & -> & -> & ->)];
    by destruct (isTotp item).
Qed.

Lemma mapM_Ok_Forall2 {A B} (f : A -> Outcome B) l k :
  mapM f l = Ok k <-> Forall2 (fun x y => f x = Ok y) l k.
Proof.
  split; [apply mapM_Ok_inv|]. induction 1 as [|x y l k E _ IH]; cbn; [done|].
  rewrite E. cbn. by rewrite IH.
Qed.

Lemma mapM_resolveField prev items fields :
  mapM (resolveField prev) items = Ok fields <-> Forall2 (resolves prev) items fields.
Proof.
  rewrite mapM_Ok_Forall2. split; intros Hf; (eapply Forall2_impl; [exact Hf|]);
    intros ? ?; by rewrite resolveField_Ok.
Qed.

Lemma resolves_normKeys prev items fields :
  Forall2 (resolves prev) items fields -> normKeys fields = normKeys items.
Proof.
  induction 1 as [|item f items fields (_ & Hk & _) _ IH]; [done|].
  unfold normKeys in *. cbn. by rewrite Hk, IH.
Qed.

Lemma assertUniqueFieldKeys_Ok fields :
  assertUniqueFieldKeys fields = Ok tt <-> NoDup (normKeys fields).
Proof.
  unfold assertUniqueFieldKeys. rewrite assertUniqueFieldKeysFrom_Ok.
  split; [tauto|]. intros Hn. split; [done|]. intros k _. apply not_elem_of_nil.
Qed.

(** [assertUniqueFieldKeys] passes exactly on field sets whose normalised
    keys are pairwise distinct; otherwise it names the first field, in order,
    whose normalised key already occurred. *)
Lemma assertUniqueFieldKeys_spec (fields : list Field) :
  (assertUniqueFieldKeys fields = Ok tt <-> NoDup (normKeys fields)) /\
  (forall e, assertUniqueFieldKeys fields = Throw e <->
     exists pre f post, fields = pre ++ f :: post /\ e = FieldKeyConflictError (fld_key f) /\
       normalizeFieldKey (fld_key f) ∈ normKeys pre /\ NoDup (normKeys pre)).
Proof.
  split; [apply assertUniqueFieldKeys_Ok|].
  - intros e. unfold assertUniqueFieldKeys. rewrite assertUniqueFieldKeysFrom_Throw.
    split; intros (pre & f & post & -> & -> & Hf & Hpre); exists pre, f, post.
    + apply assertUniqueFieldKeysFrom_Ok in Hpre as [Hpre _].
      destruct Hf as [Hf|Hf]; [by apply not_elem_of_nil in Hf|]. auto.
    + rewrite assertUniqueFieldKeysFrom_Ok. repeat split; auto.
      intros k _. apply not_elem_of_nil.
Qed.

(** The outcome on a [{ fields }] body, as a relation. *)
Lemma resolveFieldSet_Ok body items prev r :
  body_fields body = Some items ->
  resolveFieldSet body prev = Ok r <->
  NoDup (normKeys items) /\ Forall2 (resolves prev) items (rfs_fields r) /\
  (forall f, f ∈ rfs_fields r -> isTotp f = true -> is_Some (parseTotpSeed (fld_value f))) /\
  rfs_template r = body_template body.
Proof.
  intros Hbody. unfold resolveFieldSet. rewrite Hbody.
  destruct (assertUniqueFieldKeys_Ok items) as [HU1 HU2].
  destruct r as [fields tpl]. cbn [rfs_fields rfs_template].
  rewrite <- mapM_resolveField, <- assertValidTotpSeeds_Ok. split.
  - destruct (assertUniqueFieldKeys items) as [[]|]; cbn; [|done].
    destruct (mapM _ items) as [fs|]; cbn; [|done].
    destruct (assertValidTotpSeeds fs) as [[]|] eqn:EV; cbn; [|done].
    intros [= -> ->]. auto.
  - intros (Hnd & -> & EV & ->). rewrite HU2 by done. cbn. by rewrite EV.
Qed.

(** A [{ fields }] body resolves exactly when its keys are distinct and
    every [totp] field has a seed, its own or the stored one of the same key,
    that produces codes. What is stored then keeps each key, kind and value in
    order; a [totp] field is always sensitive; an empty [totp] value is replaced
    by the non-empty stored seed of the field with the same normalised key. *)
Theorem resolveFieldSet_spec (body : CreateBodyish) (items : list Field)
    (prev : option (list Field)) (Hbody : body_fields body = Some items) :
  ((exists r, resolveFieldSet body prev = Ok r) <->
     NoDup (normKeys items) /\
     forall item, item ∈ items ->
       exists v, seedFor prev item = Ok v /\
         (isTotp item = true -> is_Some (parseTotpSeed v))) /\
  forall r, resolveFieldSet body prev = Ok r ->
    rfs_template r = body_template body /\ NoDup (normKeys (rfs_fields r)) /\
    Forall2 (fun item f =>
      fld_key f = fld_key item /\ fld_kind f = storedKind (fld_kind item) /\
      fld_sensitive f = (isTotp item || fld_sensitive item) /\
      (isTotp item = false \/ fld_value item <> "" -> fld_value f = fld_value item) /\
      (isTotp item = true -> is_Some (parseTotpSeed (fld_value f)) /\
         (fld_value item = "" -> fld_value f <> "" /\
            exists l p, prev = Some l /\ p ∈ l /\ isTotp p = true /\ fld_value p = fld_value f /\
              normalizeFieldKey (fld_key p) = normalizeFieldKey (fld_key item))))
      items (rfs_fields r).
Proof.
  split.
  - setoid_rewrite (resolveFieldSet_Ok body items prev _ Hbody). split.
    + intros (r & Hnd & HF & HV & _). split; [done|]. intros item Hi.
      destruct (Forall2_in_l _ _ _ _ HF Hi) as (f & Hf & Hs & _ & Hk & _).
      exists (fld_value f). split; [done|]. rewrite <- (isTotp_kind f item Hk). by apply HV.
    + intros [Hnd Hall]. destruct (Forall2_build (resolves prev) items) as [fields HF].
      { intros item Hi. destruct (Hall item Hi) as (v & Hv & _).
        by exists (MkField (fld_key item) v (isTotp item || fld_sensitive item)
                     (storedKind (fld_kind item))). }
      exists (MkResolvedFieldSet fields (body_template body)). repeat split; try done.
      intros f Hf Ht. destruct (Forall2_in_r _ _ _ _ HF Hf) as (item & Hi & Hs & _ & Hk & _).
      destruct (Hall item Hi) as (v & Hv & Hp). rewrite Hs in Hv. injection Hv as ->.
      apply Hp. by rewrite <- (isTotp_kind f item Hk).
  - intros r (Hnd & HF & HV & Ht)%(resolveFieldSet_Ok body items prev _ Hbody).
    split; [done|]. split; [by rewrite (resolves_normKeys _ _ _ HF)|].
    eapply Forall2_strengthen; [exact HF|]. intros item f _ Hf (Hs & Hk & Hkd & Hse).
    repeat split; try done.
    + intros Hn. rewrite (seedFor_nonempty _ _ Hn) in Hs. congruence.
    + apply HV; [done|]. by rewrite (isTotp_kind f item Hkd).
    + by eapply seedFor_kept; eauto.
    + by eapply seedFor_kept; eauto.
Qed.
End resolve.

(** Reading back what a write stored: the envelope of a field set parses to
    the same fields (with [text], the default kind, left out); a single field
    is revealed as its bare value, any other set as the envelope; a legacy row
    is its plaintext under the default key. *)
Theorem fieldEnvelope_roundtrip (r : ResolvedFieldSet) (plaintext : string) :
  parseFieldsFromPlaintext 2 (serializeFieldEnvelope r) = Ok (map storedField (rfs_fields r)) /\
  unwrapRevealValue 2 (serializeFieldEnvelope r) =
    Ok (match rfs_fields r with [f] => fld_value f | _ => serializeFieldEnvelope r end) /\
  parseFieldsFromPlaintext 1 plaintext =
    Ok [MkField DEFAULT_FIELD_KEY plaintext true None] /\
  unwrapRevealValue 1 plaintext = Ok plaintext.
Proof.
  repeat split; [apply parseEnvelope_serialize|].
  unfold unwrapRevealValue. rewrite bool_decide_eq_false_2 by lia. rewrite parseEnvelope_serialize. cbn.
  by destruct (rfs_fields r) as [|f [|]].
Qed.

(** A stored field as the export shows it. *)
Definition blankTotp (f : Field) : Field := if isTotp f then f <| fld_value := "" |> else f.

Lemma isTotp_blankTotp f : isTotp (blankTotp f) = isTotp f.
Proof. unfold blankTotp. destruct (isTotp f) eqn:E; [by destruct f|done]. Qed.

Lemma blankTotp_stored f : storedField (blankTotp (storedField f)) = blankTotp (storedField f).
Proof. by destruct f as [? ? ? [[]|]]. Qed.

(** The export of a stored envelope ([plaintextWithoutTotpSeeds]) parses to
    the same fields in the same order except that the value of every [totp]
    field is empty; without a [totp] field the plaintext is returned unchanged. *)
Theorem plaintextWithoutTotpSeeds_spec (r : ResolvedFieldSet) :
  exists s, plaintextWithoutTotpSeeds 2 (serializeFieldEnvelope r) = Ok s /\
    parseFieldsFromPlaintext 2 s = Ok (map blankTotp (map storedField (rfs_fields r))) /\
    (forall fields f, parseFieldsFromPlaintext 2 s = Ok fields -> f ∈ fields -> isTotp f = true ->
       fld_value f = "") /\
    ((forall f, f ∈ rfs_fields r -> isTotp f = false) -> s = serializeFieldEnvelope r).
Proof.
  set (fs := map storedField (rfs_fields r)).
  assert (Hblank : forall fields f, fields = map blankTotp fs -> f ∈ fields -> isTotp f = true ->
    fld_value f = "").
  { intros fields f -> (g & <- & _)%list_elem_of_In%in_map_iff Ht.
    rewrite isTotp_blankTotp in Ht. unfold blankTotp. by rewrite Ht. }
  unfold plaintextWithoutTotpSeeds. rewrite bool_decide_eq_false_2 by lia.
  rewrite parseEnvelope_serialize. cbn [mbind Outcome_bind]. fold fs.
  destruct (existsb isTotp fs) eqn:E; cbn [negb].
  - eexists; split; [done|].
    assert (Hp : parseFieldsFromPlaintext 2 (serializeFieldEnvelope
      {| rfs_fields := map blankTotp fs; rfs_template := None |}) = Ok (map blankTotp fs)).
    { unfold parseFieldsFromPlaintext. rewrite bool_decide_eq_false_2 by lia.
      rewrite parseEnvelope_serialize. cbn [rfs_fields]. f_equal. unfold fs. rewrite !map_map. apply map_ext, blankTotp_stored. }
    split; [exact Hp|]. split.
    + intros fields f Hf. change (map (fun _ => _) fs) with (map blankTotp fs) in Hf.
      rewrite Hp in Hf. injection Hf as <-. by apply Hblank.
    + intros Hn. apply existsb_exists in E as (f & Hf & Ht).
      unfold fs in Hf. apply in_map_iff in Hf as (g & <- & Hg%list_elem_of_In).
      rewrite isTotp_storedField, (Hn g Hg) in Ht. done.
  - eexists; split; [done|].
    assert (Hid : map blankTotp fs = fs).
    { transitivity (map id fs); [|apply List.map_id]. apply map_ext_in. intros f Hf.
      unfold blankTotp, id. destruct (isTotp f) eqn:Ht; [|done].
      assert (existsb isTotp fs = true) by (apply existsb_exists; eauto). congruence. }
    assert (Hp : parseFieldsFromPlaintext 2 (serializeFieldEnvelope r) = Ok fs)
      by apply parseEnvelope_serialize.
    rewrite Hid. split; [exact Hp|]. split; [|done].
    intros fields f Hf. rewrite Hp in Hf. injection Hf as <-. by apply Hblank.
Qed.

Lemma mapGet_Some entries k v :
  NoDup (map fst entries) -> mapGet entries k = Some v <-> (k, v) ∈ entries.
Proof.
  intros Hnd. unfold mapGet. destruct (List.find _ _) as [[k' v']|] eqn:E; cbn.
  - apply find_elem_of in E as [Hin Hk]. cbn in Hk. bool_simpl. subst k'.
    apply list_elem_of_In in Hin. rewrite <- in_rev in Hin. apply list_elem_of_In in Hin.
    split; [by intros [= <-]|]. intros Hv.
    by pose proof (NoDup_key_inj fst entries (k, v') (k, v) Hnd Hin Hv eq_refl) as [= <-].
  - split; [done|]. intros Hv. pose proof (find_none_all _ _ E (k, v)) as Hn. cbn in Hn.
    rewrite bool_decide_eq_true_2 in Hn by done. discriminate Hn.
    by rewrite list_elem_of_In, <- in_rev, <- list_elem_of_In.
Qed.

Section deltas.
Context `{Unicode}.

Lemma normKey_elem k keys :
  normalizeFieldKey k ∈ map normalizeFieldKey keys <->
  exists k', k' ∈ keys /\ normalizeFieldKey k' = normalizeFieldKey k.
Proof. rewrite list_elem_of_In, in_map_iff. setoid_rewrite list_elem_of_In. naive_solver. Qed.

Lemma computeChangedFields_elem oldFields newFields k :
  NoDup (normKeys oldFields) ->
  k ∈ computeChangedFields oldFields newFields <->
  exists n o, n ∈ newFields /\ fld_key n = k /\ o ∈ oldFields /\
    normalizeFieldKey (fld_key o) = normalizeFieldKey k /\ fld_value o <> fld_value n.
Proof.
  intros Hnd. unfold computeChangedFields.
  set (entries := map (fun item => (normalizeFieldKey (fld_key item), fld_value item)) oldFields).
  assert (Hent : NoDup (map fst entries)) by (unfold entries; rewrite map_map; exact Hnd).
  rewrite list_elem_of_In, in_map_iff.
  setoid_rewrite <- list_elem_of_In. setoid_rewrite elem_of_lfilter. split.
  - intros (n & <- & Hb & Hn). destruct (mapGet entries _) as [v|] eqn:E; [|done].
    apply mapGet_Some in E; [|done]. bool_simpl.
    apply list_elem_of_In, in_map_iff in E as (o & [= Hk <-] & Ho%list_elem_of_In).
    by exists n, o.
  - intros (n & o & Hn & <- & Ho & Hk & Hv). exists n. split; [done|]. split; [|done].
    assert (Hin : (normalizeFieldKey (fld_key n), fld_value o) ∈ entries).
    { apply list_elem_of_In, in_map_iff. exists o. rewrite Hk.
      split; [done|by apply list_elem_of_In]. }
    apply mapGet_Some in Hin; [|done]. rewrite Hin. by rewrite bool_decide_eq_false_2.
Qed.

(** The audit delta of an edit. A key is reported as added, or as the
    target of the one rename, exactly when it is new up to normalisation, and
    symmetrically for removals; a rename is reported only when exactly one key
    appeared and one disappeared. [computeChangedFields] names exactly the keys
    of both sets whose values differ, when the old keys are distinct. *)
Theorem computeFieldDelta_spec (oldKeys newKeys : list string) (oldFields newFields : list Field)
    (k : string) (Hold : NoDup (normKeys oldFields)) :
  let d := computeFieldDelta oldKeys newKeys in
  (k ∈ addedFields d \/ k ∈ map snd (renamedFields d) <->
     k ∈ newKeys /\ ~ exists k', k' ∈ oldKeys /\ normalizeFieldKey k' = normalizeFieldKey k) /\
  (k ∈ removedFields d \/ k ∈ map fst (renamedFields d) <->
     k ∈ oldKeys /\ ~ exists k', k' ∈ newKeys /\ normalizeFieldKey k' = normalizeFieldKey k) /\
  (renamedFields d <> [] -> length (renamedFields d) = 1 /\ addedFields d = [] /\ removedFields d = []) /\
  (k ∈ computeChangedFields oldFields newFields <->
     exists n o, n ∈ newFields /\ fld_key n = k /\ o ∈ oldFields /\
       normalizeFieldKey (fld_key o) = normalizeFieldKey k /\ fld_value o <> fld_value n).
Proof.
  set (added := List.filter (fun k => negb (normalizeFieldKey k ∈? map normalizeFieldKey oldKeys)) newKeys).
  set (removed := List.filter (fun k => negb (normalizeFieldKey k ∈? map normalizeFieldKey newKeys)) oldKeys).
  assert (Ha : k ∈ added <-> k ∈ newKeys /\ ~ exists k', k' ∈ oldKeys /\
    normalizeFieldKey k' = normalizeFieldKey k).
  { unfold added. rewrite elem_of_lfilter, <- normKey_elem, negb_true_iff, bool_decide_eq_false. tauto. }
  assert (Hr : k ∈ removed <-> k ∈ oldKeys /\ ~ exists k', k' ∈ newKeys /\
    normalizeFieldKey k' = normalizeFieldKey k).
  { unfold removed. rewrite elem_of_lfilter, <- normKey_elem, negb_true_iff, bool_decide_eq_false. tauto. }
  intros d. rewrite <- Ha, <- Hr. split; [|split; [|split]];
    [..|exact (computeChangedFields_elem oldFields newFields k Hold)];
    unfold d, computeFieldDelta; fold added removed; clear Ha Hr;
  destruct added as [|a [|a' added']], removed as [|b [|b' removed']]; cbn;
    rewrite ?elem_of_cons, ?not_elem_of_nil, ?elem_of_nil; naive_solver.
Qed.
End deltas.

Section codes.
Context `{Unicode, OtpAuth}.

Lemma ceilDiv_spec a b : (0 < b)%Z -> (b * (ceilDiv a b - 1) < a <= b * ceilDiv a b)%Z.
Proof. unfold ceilDiv. intros Hb. pose proof (Z.div_mod (- a) b). pose proof (Z.mod_pos_bound (- a) b). lia. Qed.

Lemma parseTotpSeed_period seed t :
  parseTotpSeed seed = Some t -> (15 <= totp_period t <= 120)%Z /\ (6 <= totp_digits t <= 8)%Z.
Proof.
  unfold parseTotpSeed. case_match; [done|]. cbv zeta.
  match goal with |- match ?x with _ => _ end = _ -> _ => destruct x as [o|] eqn:E; [|done] end.
  intros ->. destruct (String.prefix _ _).
  - unfold parseOtpAuthUri in E. destruct (URI_parse _) as [[u|]|]; [|done..].
    cbn [mbind Outcome_bind] in E.
    match type of E with (if ?b then _ else _) = _ => destruct b eqn:G; [done|] end.
    injection E as ->. bool_simpl. lia.
  - unfold parseBase32 in E.
    match type of E with (if ?b then _ else _) = _ => destruct b; [done|] end.
        destruct (Secret_fromBase32 _); cbn [mbind Outcome_bind] in E; [|done].
    injection E as <-. cbn. unfold TOTP_DEFAULT_DIGITS, TOTP_DEFAULT_PERIOD_SECONDS. lia.
Qed.

(** A code is generated exactly for a parsable seed. It has six to eight
    digits and a period of 15 to 120 seconds; it expires at the end of the
    period that contains now, and the remaining seconds are between one and
    the period. *)
Theorem generateTotpCode_bounds (seed : string) (nowMs : Date) :
  (generateTotpCode seed nowMs = None <-> parseTotpSeed seed = None) /\
  forall g, generateTotpCode seed nowMs = Some g ->
    (6 <= gtc_digits g <= 8)%Z /\ (15 <= gtc_periodSeconds g <= 120)%Z /\
    (gtc_periodSeconds g * 1000 | gtc_expiresAt g)%Z /\
    (nowMs < gtc_expiresAt g <= nowMs + gtc_periodSeconds g * 1000)%Z /\
    (1 <= gtc_secondsRemaining g <= gtc_periodSeconds g)%Z /\
    (gtc_expiresAt g - nowMs <= gtc_secondsRemaining g * 1000)%Z.
Proof.
  unfold generateTotpCode. destruct (parseTotpSeed seed) as [t|] eqn:E; cbn; [|done].
  split; [done|]. intros g [= <-]. cbn. apply parseTotpSeed_period in E as [Hp Hd].
  set (p := (totp_period t * 1000)%Z) in *.
  pose proof (Z.div_mod nowMs p). pose proof (Z.mod_pos_bound nowMs p).
  pose proof (ceilDiv_spec ((nowMs / p + 1) * p - nowMs) 1000 ltac:(lia)).
  split; [lia|]. split; [lia|]. split; [by exists (nowMs / p + 1)%Z|]. nia.
Qed.
End codes.

(** ** Concrete tables, for the witnesses: the ASCII part of Unicode *)

Definition lowerAscii (c : ascii) : ascii :=
  if (65 <=? code c)%N && (code c <=? 90)%N then chr (code c + 32) else c.
Definition upperAscii (c : ascii) : ascii :=
  if (97 <=? code c)%N && (code c <=? 122)%N then chr (code c - 32) else c.
Definition mapChars (f : ascii -> ascii) : string -> string :=
  string_map (fun c => String (f c) EmptyString).
Definition trimAscii (s : string) : string :=
  let strip s := skipWs s in
  String.string_of_list_ascii (rev (String.list_ascii_of_string
    (strip (String.string_of_list_ascii (rev (String.list_ascii_of_string (strip s))))))).

#[export] Instance asciiUnicode : Unicode := {|
  trim := trimAscii;
  normalizeNFC s := s;
  normalizeNFKC s := s;
  toLowerCase := mapChars lowerAscii;
  toUpperCase := mapChars upperAscii;
  removeSpaces := string_map (fun c => if isWs c then EmptyString else String c EmptyString);
|}.

Definition toyOtpAuth : OtpAuth := {|
  URI_parse _ := Throw (JsError "Invalid URI format");
  Secret_fromBase32 s := Ok s;
  totp_generate t now := "123456";
|}.

(** A login with a one-time-password field whose seed is kept. *)
Definition seed0 : string := "JBSWY3DPEHPK3PXP".
Definition loginFields : list Field :=
  [MkField "username" "nestor" false None; MkField "otp" "" false (Some totp)].
Definition loginBody : CreateBodyish := MkCreateBodyish None (Some loginFields) (Some login).
Definition loginPrevious : option (list Field) :=
  Some [MkField " OTP " seed0 true (Some totp)].

Lemma resolveFieldSet_spec_witness :
  exists r, @resolveFieldSet _ toyOtpAuth loginBody loginPrevious = Ok r /\
    NoDup (normKeys (rfs_fields r)) /\
    map fld_value (rfs_fields r) = ["nestor"; seed0] /\ map fld_sensitive (rfs_fields r) = [false; true].
Proof.
  eexists. split; [vm_compute; reflexivity|]. split; [|split; reflexivity].
  exact (proj1 (proj2 (proj2 (@resolveFieldSet_spec _ toyOtpAuth loginBody loginFields loginPrevious
    eq_refl) _ eq_refl))).
Defined.

Lemma computeFieldDelta_spec_witness :
  "b" ∈ computeChangedFields [MkField "B" "1" true None] [MkField "b" "2" true None; MkField "c" "3" true None].
Proof.
  apply (computeFieldDelta_spec ["B"] ["b"; "c"] [MkField "B" "1" true None]
           [MkField "b" "2" true None; MkField "c" "3" true None] "b").
  - vm_compute. repeat constructor. by intros ?%not_elem_of_nil.
  - exists (MkField "b" "2" true None), (MkField "B" "1" true None).
    repeat split; [left|left|by vm_compute].
Defined.

(** Renaming one key, and adding two. *)
Example delta_rename : computeFieldDelta ["user"; "pw"] ["login"; "PW"] =
  MkFieldDelta [] [] [("user", "login")].
Proof. reflexivity. Qed.
Example delta_add : computeFieldDelta ["pw"] ["login"; "PW"; "otp"] =
  MkFieldDelta ["login"; "otp"] [] [].
Proof. reflexivity. Qed.
