(* ===== verification/AuthStore.v ===== *)
(** * The tables of authentication

    packages/db/src/schema: users, sessions, refresh and revoked tokens, the
    user sessions of the command line and its device grants, one-time codes and
    their enrolments, failed attempts, the extensions' ephemeral state, the
    burnt delegation assertions and the shares of credentials; as rows with the
    columns the modelled services read or write. *)

From S2P Require Import Prelude Js Crypto.
From Stdlib Require Import Ascii String.
From stdpp Require Import strings.

Local Open Scope pv_scope.

(** users.ts *)
Record UserRow := MkUserRow {
  usr_id : Uuid;
  usr_email : string;
  usr_passwordHash : string;
  usr_mfaEnrolledAt : option Date;
  usr_isPlatformOperator : bool;
}.
#[export] Instance Eta_UserRow : Eta UserRow := fun r =>
  MkUserRow (usr_id r) (usr_email r) (usr_passwordHash r) (usr_mfaEnrolledAt r) (usr_isPlatformOperator r).

(** user-identity-tokens.ts *)
Record IdentityTokenRow := MkIdentityTokenRow {
  uit_id : Uuid;
  uit_userId : option Uuid;
  uit_createdAt : Date;
}.

(** sessions.ts *)
Record SessionRow := MkSessionRow {
  ses_id : Uuid;
  ses_userId : Uuid;
  ses_orgId : Uuid;
  ses_jti : Uuid;
  ses_sessionVersion : Z;
  ses_expiresAt : Date;
  ses_revokedAt : option Date;
  ses_createdAt : Date;
  ses_lastActiveAt : Date;
  ses_ipAddress : option string;
  ses_userAgent : option string;
  ses_updatedAt : Date;
}.
#[export] Instance Eta_SessionRow : Eta SessionRow := fun r =>
  MkSessionRow (ses_id r) (ses_userId r) (ses_orgId r) (ses_jti r) (ses_sessionVersion r) (ses_expiresAt r)
    (ses_revokedAt r) (ses_createdAt r) (ses_lastActiveAt r) (ses_ipAddress r) (ses_userAgent r) (ses_updatedAt r).

(** refresh-tokens.ts *)
Record RefreshTokenRow := MkRefreshTokenRow {
  rt_id : Uuid;
  rt_sessionId : Uuid;
  rt_orgId : Uuid;
  rt_tokenHash : string;
  rt_expiresAt : Date;
  rt_usedAt : option Date;
  rt_newSessionId : option Uuid;
  rt_revokedAt : option Date;
}.
#[export] Instance Eta_RefreshTokenRow : Eta RefreshTokenRow := fun r =>
  MkRefreshTokenRow (rt_id r) (rt_sessionId r) (rt_orgId r) (rt_tokenHash r) (rt_expiresAt r) (rt_usedAt r)
    (rt_newSessionId r) (rt_revokedAt r).

(** revoked-tokens.ts *)
Record RevokedTokenRow := MkRevokedTokenRow {
  rvt_jti : Uuid;
  rvt_userId : Uuid;
  rvt_expiresAt : Date;
}.

(** user-sessions.ts *)
Record UserSessionRow := MkUserSessionRow {
  uss_id : Uuid;
  uss_userId : Uuid;
  uss_jti : Uuid;
  uss_sessionVersion : Z;
  uss_expiresAt : Date;
  uss_revokedAt : option Date;
  uss_lastActiveAt : Date;
  uss_ipAddress : option string;
  uss_userAgent : option string;
  uss_updatedAt : Date;
}.
#[export] Instance Eta_UserSessionRow : Eta UserSessionRow := fun r =>
  MkUserSessionRow (uss_id r) (uss_userId r) (uss_jti r) (uss_sessionVersion r) (uss_expiresAt r) (uss_revokedAt r)
    (uss_lastActiveAt r) (uss_ipAddress r) (uss_userAgent r) (uss_updatedAt r).

Record UserRefreshTokenRow := MkUserRefreshTokenRow {
  urt_id : Uuid;
  urt_userSessionId : Uuid;
  urt_tokenHash : string;
  urt_expiresAt : Date;
  urt_usedAt : option Date;
  urt_revokedAt : option Date;
}.
#[export] Instance Eta_UserRefreshTokenRow : Eta UserRefreshTokenRow := fun r =>
  MkUserRefreshTokenRow (urt_id r) (urt_userSessionId r) (urt_tokenHash r) (urt_expiresAt r) (urt_usedAt r) (urt_revokedAt r).

Record CliOrgCredentialRow := MkCliOrgCredentialRow {
  coc_id : Uuid;
  coc_userSessionId : Uuid;
  coc_orgId : Uuid;
  coc_sessionId : Uuid;
}.

(** cli-device-grants.ts *)
Inductive GrantStatus := grantPending | grantApproved | grantDenied | grantConsumed | grantRevoked.
#[export] Instance GrantStatus_eq_dec : EqDecision GrantStatus.
Proof. solve_decision. Defined.

Record DeviceGrantRow := MkDeviceGrantRow {
  dg_id : Uuid;
  dg_deviceCodeHash : string;
  dg_userCodeHash : string;
  dg_status : GrantStatus;
  dg_expiresAt : Date;
  dg_intervalSeconds : Z;
  dg_lastPolledAt : option Date;
  dg_clientName : option string;
  dg_userId : option Uuid;
  dg_orgId : option Uuid;
  dg_approverSessionId : option Uuid;
  dg_sessionId : option Uuid;
  dg_stepUpFailures : Z;
  dg_approvedAt : option Date;
  dg_deniedAt : option Date;
  dg_consumedAt : option Date;
  dg_revokedAt : option Date;
}.
#[export] Instance Eta_DeviceGrantRow : Eta DeviceGrantRow := fun r =>
  MkDeviceGrantRow (dg_id r) (dg_deviceCodeHash r) (dg_userCodeHash r) (dg_status r) (dg_expiresAt r)
    (dg_intervalSeconds r) (dg_lastPolledAt r) (dg_clientName r) (dg_userId r) (dg_orgId r) (dg_approverSessionId r)
    (dg_sessionId r) (dg_stepUpFailures r) (dg_approvedAt r) (dg_deniedAt r) (dg_consumedAt r) (dg_revokedAt r).

(** api-keys.ts *)
Record ApiKeyRow := MkApiKeyRow {
  ak_id : Uuid;
  ak_orgId : Uuid;
  ak_machineUserId : Uuid;
  ak_name : string;
  ak_keyHash : string;
  ak_hmacKeyVersion : Z;
  ak_expiresAt : option Date;
  ak_lastUsedAt : option Date;
  ak_createdAt : Date;
  ak_revokedAt : option Date;
  ak_overlapExpiresAt : option Date;
  ak_rotatedFromKeyId : option Uuid;
  ak_dormancySnoozedUntil : option Date;
  ak_overlapAlertSent : bool;
}.
#[export] Instance Eta_ApiKeyRow : Eta ApiKeyRow := fun r =>
  MkApiKeyRow (ak_id r) (ak_orgId r) (ak_machineUserId r) (ak_name r) (ak_keyHash r) (ak_hmacKeyVersion r)
    (ak_expiresAt r) (ak_lastUsedAt r) (ak_createdAt r) (ak_revokedAt r) (ak_overlapExpiresAt r)
    (ak_rotatedFromKeyId r) (ak_dormancySnoozedUntil r) (ak_overlapAlertSent r).

(** mfa-enrollments.ts *)
Inductive EnrollmentStatus := enrollmentPending | enrollmentConfirmed.
#[export] Instance EnrollmentStatus_eq_dec : EqDecision EnrollmentStatus.
Proof. solve_decision. Defined.

Record EnrollmentRow := MkEnrollmentRow {
  mfa_id : Uuid;
  mfa_userId : Uuid;
  mfa_secretEncrypted : EncryptedValue;
  mfa_status : EnrollmentStatus;
  mfa_confirmedAt : option Date;
}.
#[export] Instance Eta_EnrollmentRow : Eta EnrollmentRow := fun r =>
  MkEnrollmentRow (mfa_id r) (mfa_userId r) (mfa_secretEncrypted r) (mfa_status r) (mfa_confirmedAt r).

(** mfa-recovery-codes.ts *)
Record RecoveryCodeRow := MkRecoveryCodeRow {
  rc_id : Uuid;
  rc_userId : Uuid;
  rc_codeHash : string;
  rc_usedAt : option Date;
}.
#[export] Instance Eta_RecoveryCodeRow : Eta RecoveryCodeRow := fun r =>
  MkRecoveryCodeRow (rc_id r) (rc_userId r) (rc_codeHash r) (rc_usedAt r).

(** pending-mfa-sessions.ts *)
Record PendingMfaRow := MkPendingMfaRow {
  pm_id : Uuid;
  pm_userId : Uuid;
  pm_orgId : Uuid;
  pm_tokenHash : string;
  pm_attemptCount : Z;
  pm_ipAddress : option string;
  pm_userAgent : option string;
  pm_expiresAt : Date;
}.
#[export] Instance Eta_PendingMfaRow : Eta PendingMfaRow := fun r =>
  MkPendingMfaRow (pm_id r) (pm_userId r) (pm_orgId r) (pm_tokenHash r) (pm_attemptCount r) (pm_ipAddress r)
    (pm_userAgent r) (pm_expiresAt r).

(** totp-used-codes.ts *)
Record UsedCodeRow := MkUsedCodeRow {
  tuc_id : Uuid;
  tuc_userId : Uuid;
  tuc_codeHash : string;
  tuc_windowStart : Date;
  tuc_expiresAt : Date;
}.

(** failed-auth-attempts.ts: written on connections of their own, so kept outside the database a transaction undoes *)
Record FailedAttemptRow := MkFailedAttemptRow {
  fa_id : Uuid;
  fa_userId : option Uuid;
  fa_ipAddress : string;
  fa_attemptedEmail : string;
  fa_reason : string;
  fa_attemptedAt : Date;
}.

(** extension-ephemeral-state.ts *)
Record EphemeralRow := MkEphemeralRow {
  es_id : Uuid;
  es_orgId : Uuid;
  es_extensionNamespace : string;
  es_key : string;
  es_valueCiphertext : string;
  es_encryptionKeyVersion : Z;
  es_expiresAt : Date;
  es_updatedAt : Date;
}.
#[export] Instance Eta_EphemeralRow : Eta EphemeralRow := fun r =>
  MkEphemeralRow (es_id r) (es_orgId r) (es_extensionNamespace r) (es_key r) (es_valueCiphertext r)
    (es_encryptionKeyVersion r) (es_expiresAt r) (es_updatedAt r).

(** delegation-assertion-jti.ts *)
Record AssertionJtiRow := MkAssertionJtiRow {
  daj_orgId : Uuid;
  daj_jti : string;
  daj_kid : string;
  daj_expiresAt : Date;
}.

(** organizations.ts *)
Record OrganizationRow := MkOrganizationRow {
  org_id : Uuid;
  org_name : string;
  org_slug : string;
  org_defaultLocale : string;
  org_createdAt : Date;
}.
#[export] Instance Eta_OrganizationRow : Eta OrganizationRow := fun r =>
  MkOrganizationRow (org_id r) (org_name r) (org_slug r) (org_defaultLocale r) (org_createdAt r).

(** platform-security-events.ts *)
Record PlatformEventRow := MkPlatformEventRow {
  pe_id : Uuid;
  pe_eventType : string;
  pe_subjectHash : option string;
  pe_emailDomain : option string;
  pe_ipAddress : option string;
  pe_userAgent : option string;
  pe_payload : Json;
  pe_keyVersion : Z;
  pe_hmac : string;
}.

(** credential-shares.ts; [action] is always ['read'] and left out. *)
Inductive RecipientType := recipientUser | recipientExternal.
Inductive ShareStatus := shareActive | shareViewed | shareRevoked | shareExpired | shareSuperseded.
#[export] Instance RecipientType_eq_dec : EqDecision RecipientType.
Proof. solve_decision. Defined.
#[export] Instance ShareStatus_eq_dec : EqDecision ShareStatus.
Proof. solve_decision. Defined.

Record ShareRow := MkShareRow {
  sh_id : Uuid;
  sh_orgId : Uuid;
  sh_credentialId : Uuid;
  sh_fieldKey : option string;
  sh_attributeKeys : option (list string);
  sh_sharedBy : Uuid;
  sh_actingUserId : option Uuid;
  sh_hostCreated : bool;
  sh_recipientType : RecipientType;
  sh_recipientUserId : option Uuid;
  sh_recipientEmail : option string;
  sh_tokenHash : string;
  sh_singleUse : bool;
  sh_createdAt : Date;
  sh_expiresAt : Date;
  sh_revokedAt : option Date;
  sh_supersededAt : option Date;
  sh_firstViewedAt : option Date;
  sh_viewCount : Z;
  sh_status : ShareStatus;
  sh_revealAttemptCount : Z;
  sh_verificationRequired : bool;
  sh_verificationCodeHash : option string;
  sh_verificationCodeExpiresAt : option Date;
  sh_verificationAttemptCount : Z;
  sh_verificationSendCount : Z;
  sh_verificationSentAt : option Date;
  sh_verificationProofHash : option string;
  sh_verifiedAt : option Date;
  sh_lockedAt : option Date;
}.
#[export] Instance Eta_ShareRow : Eta ShareRow := fun r =>
  MkShareRow (sh_id r) (sh_orgId r) (sh_credentialId r) (sh_fieldKey r) (sh_attributeKeys r) (sh_sharedBy r)
    (sh_actingUserId r) (sh_hostCreated r) (sh_recipientType r) (sh_recipientUserId r) (sh_recipientEmail r)
    (sh_tokenHash r) (sh_singleUse r) (sh_createdAt r) (sh_expiresAt r) (sh_revokedAt r) (sh_supersededAt r)
    (sh_firstViewedAt r) (sh_viewCount r) (sh_status r) (sh_revealAttemptCount r) (sh_verificationRequired r)
    (sh_verificationCodeHash r) (sh_verificationCodeExpiresAt r) (sh_verificationAttemptCount r)
    (sh_verificationSendCount r) (sh_verificationSentAt r) (sh_verificationProofHash r) (sh_verifiedAt r)
    (sh_lockedAt r).

(** credential-share-nudge-dismissals.ts *)
Record NudgeDismissalRow := MkNudgeDismissalRow {
  nd_id : Uuid;
  nd_orgId : Uuid;
  nd_credentialId : Uuid;
  nd_fieldKey : option string;
  nd_dismissedBy : Uuid;
  nd_dismissedAt : Date;
  nd_reason : string;
}.

Record AuthDb := MkAuthDb {
  au_users : list UserRow;
  au_identityTokens : list IdentityTokenRow;
  au_sessions : list SessionRow;
  au_refreshTokens : list RefreshTokenRow;
  au_revokedTokens : list RevokedTokenRow;
  au_userSessions : list UserSessionRow;
  au_userRefreshTokens : list UserRefreshTokenRow;
  au_cliOrgCredentials : list CliOrgCredentialRow;
  au_deviceGrants : list DeviceGrantRow;
  au_apiKeys : list ApiKeyRow;
  au_enrollments : list EnrollmentRow;
  au_pendingMfa : list PendingMfaRow;
  au_usedCodes : list UsedCodeRow;
  au_recoveryCodes : list RecoveryCodeRow;
  au_ephemeral : list EphemeralRow;
  au_assertionJtis : list AssertionJtiRow;
  au_organizations : list OrganizationRow;
  au_platformEvents : list PlatformEventRow;
  au_shares : list ShareRow;
  au_nudgeDismissals : list NudgeDismissalRow;
}.
#[export] Instance Eta_AuthDb : Eta AuthDb := fun r =>
  MkAuthDb (au_users r) (au_identityTokens r) (au_sessions r) (au_refreshTokens r) (au_revokedTokens r)
    (au_userSessions r) (au_userRefreshTokens r) (au_cliOrgCredentials r) (au_deviceGrants r) (au_apiKeys r)
    (au_enrollments r) (au_pendingMfa r) (au_usedCodes r) (au_recoveryCodes r) (au_ephemeral r) (au_assertionJtis r)
    (au_organizations r) (au_platformEvents r) (au_shares r) (au_nudgeDismissals r).

Definition emptyAuthDb : AuthDb := MkAuthDb [] [] [] [] [] [] [] [] [] [] [] [] [] [] [] [] [] [] [] [].

(** ** Texts of identifiers *)

(** The [n] lowest hexadecimal digits of a number, and the 8-4-4-4-12 form of
    a [uuid]. *)
Fixpoint hexDigits (n : nat) (x : N) : string :=
  match n with
  | O => EmptyString
  | S n' => hexDigits n' (x / 16) +:+ String (hexDigit (x mod 16)) EmptyString
  end.

Definition uuidText (u : Uuid) : string :=
  hexDigits 8 (u / 2 ^ 96) +:+ "-" +:+ hexDigits 4 (u / 2 ^ 80) +:+ "-"
  +:+ hexDigits 4 (u / 2 ^ 64) +:+ "-" +:+ hexDigits 4 (u / 2 ^ 48) +:+ "-" +:+ hexDigits 12 u.

(** ** Unique indexes *)

(** idx_sessions_jti, on a column of type [text], and the primary key *)
Definition sessionConflict (new old : SessionRow) : bool :=
  (ses_id new =? ses_id old) || (uuidText (ses_jti new) =? uuidText (ses_jti old)).
(** idx_refresh_tokens_token_hash *)
Definition refreshTokenConflict (new old : RefreshTokenRow) : bool :=
  (rt_id new =? rt_id old) || (rt_tokenHash new =? rt_tokenHash old).
Definition revokedTokenConflict (new old : RevokedTokenRow) : bool := rvt_jti new =? rvt_jti old.
(** uq_user_sessions_jti *)
Definition userSessionConflict (new old : UserSessionRow) : bool :=
  (uss_id new =? uss_id old) || (uss_jti new =? uss_jti old).
(** uq_user_refresh_tokens_token_hash *)
Definition userRefreshTokenConflict (new old : UserRefreshTokenRow) : bool :=
  (urt_id new =? urt_id old) || (urt_tokenHash new =? urt_tokenHash old).
Definition cliOrgCredentialConflict (new old : CliOrgCredentialRow) : bool := coc_id new =? coc_id old.
(** uq_cli_device_grants_device_code_hash, uq_cli_device_grants_user_code_hash *)
Definition deviceGrantConflict (new old : DeviceGrantRow) : bool :=
  (dg_id new =? dg_id old) || (dg_deviceCodeHash new =? dg_deviceCodeHash old)
  || (dg_userCodeHash new =? dg_userCodeHash old).
(** idx_totp_used_codes_replay *)
Definition usedCodeConflict (new old : UsedCodeRow) : bool :=
  (tuc_id new =? tuc_id old) || ((tuc_userId new =? tuc_userId old) && (tuc_codeHash new =? tuc_codeHash old)).
Definition pendingMfaConflict (new old : PendingMfaRow) : bool :=
  (pm_id new =? pm_id old) || (pm_tokenHash new =? pm_tokenHash old)
  || ((pm_userId new =? pm_userId old) && (pm_orgId new =? pm_orgId old)).
(** delegation_assertion_jti_org_id_jti_pk *)
Definition assertionJtiConflict (new old : AssertionJtiRow) : bool :=
  (daj_orgId new =? daj_orgId old) && (daj_jti new =? daj_jti old).
(** idx_extension_ephemeral_state_unique *)
Definition ephemeralConflict (new old : EphemeralRow) : bool :=
  (es_id new =? es_id old)
  || ((es_orgId new =? es_orgId old) && (es_extensionNamespace new =? es_extensionNamespace old)
      && (es_key new =? es_key old)).
(** idx_mfa_enrollments_user_pending, idx_mfa_enrollments_user_confirmed *)
Definition enrollmentConflict (new old : EnrollmentRow) : bool :=
  (mfa_id new =? mfa_id old) || ((mfa_userId new =? mfa_userId old) && (mfa_status new =? mfa_status old)).
Definition recoveryCodeConflict (new old : RecoveryCodeRow) : bool := rc_id new =? rc_id old.
(** organizations_slug_unique *)
Definition organizationConflict (new old : OrganizationRow) : bool :=
  (org_id new =? org_id old) || (org_slug new =? org_slug old).
(** idx_credential_shares_token_hash *)
Definition shareConflict (new old : ShareRow) : bool :=
  (sh_id new =? sh_id old) || (sh_tokenHash new =? sh_tokenHash old).
