(* ===== verification/Store.v ===== *)
(** * The database schema: packages/db/src/schema

    One record per table row with the columns the modelled code reads or
    writes, the status columns as inductive types with the values of their
    CHECK constraints, and the database as a record of row lists.  A [Db] is
    what one organisation sees: row-level security filters every statement of
    an organisation's transaction, so the other organisations' rows are not
    part of it.  Rows are kept in insertion order. *)

From S2P Require Import Prelude Js Crypto FieldSet AuthStore.
From Stdlib Require Import Ascii String.
From stdpp Require Import strings pretty.

Local Open Scope string_scope.
Local Open Scope list_scope.
Local Open Scope pv_scope.

(** ** Status columns *)

(** rotations_status_check *)
Inductive RotationStatus :=
| in_progress | staged | promoted | retired | completed | abandoned | stale_recovery
| break_glass_complete.

(** rotation_checklist_items_status_check *)
Inductive ItemStatus := unconfirmed | confirmed | failed | max_retries_exceeded.

(** org_memberships_role_check and org_memberships_status_check *)
Inductive OrgRole := owner | admin | member | viewer.
Inductive MembershipStatus := active | deactivated.

Inductive NotificationSeverity := info | warning | critical.
Inductive NotificationFrequency := immediate | digest_daily.

#[export] Instance RotationStatus_eq_dec : EqDecision RotationStatus.
Proof. solve_decision. Defined.
#[export] Instance ItemStatus_eq_dec : EqDecision ItemStatus.
Proof. solve_decision. Defined.
#[export] Instance OrgRole_eq_dec : EqDecision OrgRole.
Proof. solve_decision. Defined.
#[export] Instance MembershipStatus_eq_dec : EqDecision MembershipStatus.
Proof. solve_decision. Defined.
#[export] Instance NotificationSeverity_eq_dec : EqDecision NotificationSeverity.
Proof. solve_decision. Defined.
#[export] Instance NotificationFrequency_eq_dec : EqDecision NotificationFrequency.
Proof. solve_decision. Defined.

Definition rotationStatusName (s : RotationStatus) : string :=
  match s with
  | in_progress => "in_progress" | staged => "staged" | promoted => "promoted"
  | retired => "retired" | completed => "completed" | abandoned => "abandoned"
  | stale_recovery => "stale_recovery" | break_glass_complete => "break_glass_complete"
  end.

(** ** Rows *)

(** rotations.ts *)
Record RotationRow := MkRotationRow {
  rot_id : Uuid;
  rot_orgId : Uuid;
  rot_projectId : Uuid;
  rot_credentialId : Uuid;
  rot_newVersionId : Uuid;
  rot_previousVersionId : Uuid;
  rot_status : RotationStatus;
  rot_version : Z;
  rot_initiatedBy : option Uuid;
  rot_ownerUserId : option Uuid;
  rot_initiatedAt : Date;
  rot_completedAt : option Date;
  rot_promotedAt : option Date;
  rot_retiredAt : option Date;
  rot_staleStagedAlertedAt : option Date;
  rot_notes : option string;
  rot_targetFields : option (list string);
  rot_createdAt : Date;
  rot_updatedAt : Date;
}.
#[export] Instance Eta_RotationRow : Eta RotationRow := fun r =>
  MkRotationRow (rot_id r) (rot_orgId r) (rot_projectId r) (rot_credentialId r)
    (rot_newVersionId r) (rot_previousVersionId r) (rot_status r) (rot_version r)
    (rot_initiatedBy r) (rot_ownerUserId r) (rot_initiatedAt r) (rot_completedAt r)
    (rot_promotedAt r) (rot_retiredAt r) (rot_staleStagedAlertedAt r) (rot_notes r)
    (rot_targetFields r) (rot_createdAt r) (rot_updatedAt r).

(** credential-versions.ts *)
Record VersionRow := MkVersionRow {
  cv_id : Uuid;
  cv_orgId : Uuid;
  cv_credentialId : Uuid;
  cv_encryptedValue : option EncryptedValue;
  cv_keyVersion : option Z;
  cv_versionNumber : Z;
  cv_rotationLockedAt : option Date;
  cv_purgedAt : option Date;
  cv_breakGlassOverlapExpiresAt : option Date;
  cv_abandonedAt : option Date;
  cv_promotedAt : option Date;
  cv_createdBy : option Uuid;
  cv_createdAt : Date;
  cv_schemaVersion : Z;
  cv_fieldMeta : option (list FieldMeta);
}.
#[export] Instance Eta_VersionRow : Eta VersionRow := fun r =>
  MkVersionRow (cv_id r) (cv_orgId r) (cv_credentialId r) (cv_encryptedValue r) (cv_keyVersion
    r) (cv_versionNumber r) (cv_rotationLockedAt r) (cv_purgedAt r)
    (cv_breakGlassOverlapExpiresAt r) (cv_abandonedAt r) (cv_promotedAt r) (cv_createdBy r)
    (cv_createdAt r) (cv_schemaVersion r) (cv_fieldMeta r).

(** rotation-checklist-items.ts *)
Record ChecklistItemRow := MkChecklistItemRow {
  item_id : Uuid;
  item_orgId : Uuid;
  item_rotationId : Uuid;
  item_dependencyId : option Uuid;
  item_systemName : string;
  item_status : ItemStatus;
  item_confirmedBy : option Uuid;
  item_confirmedAt : option Date;
  item_notes : option string;
  item_retryCount : Z;
  item_retryScheduledAt : option Date;
  item_lastFailureReason : option string;
  item_lastActedBy : option Uuid;
  item_lastActedAt : option Date;
  item_createdAt : Date;
  item_updatedAt : Date;
}.
#[export] Instance Eta_ChecklistItemRow : Eta ChecklistItemRow := fun r =>
  MkChecklistItemRow (item_id r) (item_orgId r) (item_rotationId r) (item_dependencyId r)
    (item_systemName r) (item_status r) (item_confirmedBy r) (item_confirmedAt r)
    (item_notes r) (item_retryCount r) (item_retryScheduledAt r) (item_lastFailureReason r)
    (item_lastActedBy r) (item_lastActedAt r) (item_createdAt r) (item_updatedAt r).

(** credentials.ts *)
Record CredentialRow := MkCredentialRow {
  cred_id : Uuid;
  cred_orgId : Uuid;
  cred_projectId : Uuid;
  cred_name : string;
  cred_description : option string;
  cred_tags : list string;
  cred_expiresAt : option Date;
  cred_rotationSchedule : option string;
  cred_retentionCount : Z;
  cred_createdBy : option Uuid;
  cred_createdAt : Date;
  cred_updatedAt : Date;
  cred_cacheable : bool;
  cred_currentVersionId : option Uuid;
  cred_archivedAt : option Date;
  cred_archivedBy : option Uuid;
}.
#[export] Instance Eta_CredentialRow : Eta CredentialRow := fun r =>
  MkCredentialRow (cred_id r) (cred_orgId r) (cred_projectId r) (cred_name r)
    (cred_description r) (cred_tags r) (cred_expiresAt r) (cred_rotationSchedule r)
    (cred_retentionCount r) (cred_createdBy r) (cred_createdAt r) (cred_updatedAt r)
    (cred_cacheable r) (cred_currentVersionId r) (cred_archivedAt r) (cred_archivedBy r).

(** projects.ts *)
Record ProjectRow := MkProjectRow {
  proj_id : Uuid;
  proj_orgId : Uuid;
  proj_name : string;
  proj_slug : string;
  proj_creationRequestId : option Uuid;
  proj_description : option string;
  proj_tags : list string;
  proj_createdBy : option Uuid;
  proj_createdAt : Date;
  proj_updatedAt : Date;
  proj_archivedAt : option Date;
  proj_urls : list string;
  proj_deletedAt : option Date;
  proj_deletedBy : option Uuid;
  proj_purgeAfter : option Date;
  proj_purgedAt : option Date;
}.
#[export] Instance Eta_ProjectRow : Eta ProjectRow := fun r =>
  MkProjectRow (proj_id r) (proj_orgId r) (proj_name r) (proj_slug r) (proj_creationRequestId r) (proj_description r)
    (proj_tags r) (proj_createdBy r) (proj_createdAt r) (proj_updatedAt r) (proj_archivedAt r) (proj_urls r)
    (proj_deletedAt r) (proj_deletedBy r) (proj_purgeAfter r) (proj_purgedAt r).

(** project-memberships.ts *)
Record ProjectMembershipRow := MkProjectMembershipRow {
  pmb_orgId : Uuid;
  pmb_projectId : Uuid;
  pmb_userId : Uuid;
  pmb_role : OrgRole;
}.
#[export] Instance Eta_ProjectMembershipRow : Eta ProjectMembershipRow := fun r =>
  MkProjectMembershipRow (pmb_orgId r) (pmb_projectId r) (pmb_userId r) (pmb_role r).

(** project-invitations.ts *)
Record ProjectInvitationRow := MkProjectInvitationRow {
  pinv_id : Uuid;
  pinv_projectId : Uuid;
  pinv_acceptedAt : option Date;
  pinv_revokedAt : option Date;
}.
#[export] Instance Eta_ProjectInvitationRow : Eta ProjectInvitationRow := fun r =>
  MkProjectInvitationRow (pinv_id r) (pinv_projectId r) (pinv_acceptedAt r) (pinv_revokedAt r).

(** machine-users.ts *)
Inductive MachineUserRole := machine_member | machine_viewer.
Record MachineUserRow := MkMachineUserRow {
  mu_id : Uuid;
  mu_orgId : Uuid;
  mu_projectId : option Uuid;
  mu_name : string;
  mu_description : option string;
  mu_role : MachineUserRole;
  mu_createdBy : option Uuid;
  mu_createdAt : Date;
  mu_deactivatedAt : option Date;
  mu_hostManaged : bool;
}.
#[export] Instance Eta_MachineUserRow : Eta MachineUserRow := fun r =>
  MkMachineUserRow (mu_id r) (mu_orgId r) (mu_projectId r) (mu_name r) (mu_description r) (mu_role r)
    (mu_createdBy r) (mu_createdAt r) (mu_deactivatedAt r) (mu_hostManaged r).

(** extension-lifecycle-events.ts *)
Record LifecycleEventRow := MkLifecycleEventRow {
  le_id : Uuid;
  le_orgId : Uuid;
  le_projectId : Uuid;
  le_eventType : string;
  le_payload : Json;
  le_status : string;
  le_attemptCount : Z;
  le_lastAttemptAt : option Date;
  le_lastError : option string;
  le_createdAt : Date;
  le_deliveredAt : option Date;
}.
#[export] Instance Eta_LifecycleEventRow : Eta LifecycleEventRow := fun r =>
  MkLifecycleEventRow (le_id r) (le_orgId r) (le_projectId r) (le_eventType r) (le_payload r) (le_status r)
    (le_attemptCount r) (le_lastAttemptAt r) (le_lastError r) (le_createdAt r) (le_deliveredAt r).

(** credential-dependencies.ts *)
Record DependencyRow := MkDependencyRow {
  dep_id : Uuid;
  dep_orgId : Uuid;
  dep_credentialId : Uuid;
  dep_systemName : string;
  dep_fieldKey : option string;
  dep_archivedAt : option Date;
}.
#[export] Instance Eta_DependencyRow : Eta DependencyRow := fun r =>
  MkDependencyRow (dep_id r) (dep_orgId r) (dep_credentialId r) (dep_systemName r)
    (dep_fieldKey r) (dep_archivedAt r).

(** org-memberships.ts *)
Record MembershipRow := MkMembershipRow {
  mem_orgId : Uuid;
  mem_userId : Uuid;
  mem_role : OrgRole;
  mem_status : MembershipStatus;
  mem_lastActiveAt : option Date;
  mem_gracePeriodExpiresAt : option Date;
}.
#[export] Instance Eta_MembershipRow : Eta MembershipRow := fun r =>
  MkMembershipRow (mem_orgId r) (mem_userId r) (mem_role r) (mem_status r) (mem_lastActiveAt r)
    (mem_gracePeriodExpiresAt r).

(** vault-state.ts (the key versions) *)
Record VaultStateRow := MkVaultStateRow {
  vs_keyVersion : Z;
  vs_auditKeyVersion : Z;
}.
#[export] Instance Eta_VaultStateRow : Eta VaultStateRow := fun r =>
  MkVaultStateRow (vs_keyVersion r) (vs_auditKeyVersion r).

(** audit-log-entries.ts *)
Record AuditRow := MkAuditRow {
  al_id : Uuid;
  al_chainSeq : Z;
  al_orgId : Uuid;
  al_projectId : option Uuid;
  al_actorTokenId : option Uuid;
  al_actorType : string;
  al_eventType : string;
  al_resourceId : option Uuid;
  al_resourceType : option string;
  al_ipAddress : option string;
  al_userAgent : option string;
  al_payload : Json;
  al_revealedFields : option (list string);
  al_keyVersion : Z;
  al_hmac : string;
  al_createdAt : Date;
  al_previousEntryHmac : option string;
}.
#[export] Instance Eta_AuditRow : Eta AuditRow := fun r =>
  MkAuditRow (al_id r) (al_chainSeq r) (al_orgId r) (al_projectId r) (al_actorTokenId r)
    (al_actorType r) (al_eventType r) (al_resourceId r) (al_resourceType r) (al_ipAddress r)
    (al_userAgent r) (al_payload r) (al_revealedFields r) (al_keyVersion r) (al_hmac r)
    (al_createdAt r) (al_previousEntryHmac r).

(** audit-org-storage-usage.ts *)
Record UsageRow := MkUsageRow {
  us_orgId : Uuid;
  us_bytesUsed : Z;
  us_preauthBytesUsed : Z;
  us_entryCount : Z;
  us_refusedWriteCount : Z;
  us_lastRefusalAt : option Date;
  us_rateWindowCount : Z;
  us_rateWindowResetAt : option Date;
  us_preauthRateWindowCount : Z;
  us_preauthRateWindowResetAt : option Date;
  us_rateRefusedCount : Z;
  us_lastRateRefusalAt : option Date;
  us_updatedAt : Date;
}.
#[export] Instance Eta_UsageRow : Eta UsageRow := fun r =>
  MkUsageRow (us_orgId r) (us_bytesUsed r) (us_preauthBytesUsed r) (us_entryCount r)
    (us_refusedWriteCount r) (us_lastRefusalAt r) (us_rateWindowCount r)
    (us_rateWindowResetAt r) (us_preauthRateWindowCount r) (us_preauthRateWindowResetAt r)
    (us_rateRefusedCount r) (us_lastRateRefusalAt r) (us_updatedAt r).

(** audit-storage-quota-config.ts *)
Record QuotaConfigRow := MkQuotaConfigRow {
  qc_orgId : Uuid;
  qc_quotaBytes : option Z;
  qc_writeRatePerMinute : option Z;
}.
#[export] Instance Eta_QuotaConfigRow : Eta QuotaConfigRow := fun r =>
  MkQuotaConfigRow (qc_orgId r) (qc_quotaBytes r) (qc_writeRatePerMinute r).

(** audit-retention-config.ts *)
Record RetentionRow := MkRetentionRow {
  ar_orgId : Uuid;
  ar_retentionDays : option Z;
}.
#[export] Instance Eta_RetentionRow : Eta RetentionRow := fun r =>
  MkRetentionRow (ar_orgId r) (ar_retentionDays r).

(** notification-queue.ts *)
Record QueueRow := MkQueueRow {
  nq_id : Uuid;
  nq_orgId : Uuid;
  nq_recipientUserId : option Uuid;
  nq_recipientEmail : option string;
  nq_channel : string;
  nq_templateId : string;
  nq_payload : Json;
  nq_status : string;
  nq_deliverAt : option Date;
  nq_attemptCount : Z;
  nq_lastAttemptAt : option Date;
  nq_deliveredAt : option Date;
  nq_providerId : option string;
  nq_providerMessageId : option string;
  nq_lastEventAt : option Date;
  nq_claimExpiresAt : option Date;
  nq_sendStartedAt : option Date;
}.
#[export] Instance Eta_QueueRow : Eta QueueRow := fun r =>
  MkQueueRow (nq_id r) (nq_orgId r) (nq_recipientUserId r) (nq_recipientEmail r) (nq_channel
    r) (nq_templateId r) (nq_payload r) (nq_status r) (nq_deliverAt r) (nq_attemptCount r)
    (nq_lastAttemptAt r) (nq_deliveredAt r) (nq_providerId r) (nq_providerMessageId r) (nq_lastEventAt r)
    (nq_claimExpiresAt r) (nq_sendStartedAt r).

(** notification-preferences.ts *)
Record PreferenceRow := MkPreferenceRow {
  np_orgId : Uuid;
  np_userId : Uuid;
  np_alertType : string;
  np_channel : string;
  np_frequency : NotificationFrequency;
  np_minSeverity : NotificationSeverity;
}.
#[export] Instance Eta_PreferenceRow : Eta PreferenceRow := fun r =>
  MkPreferenceRow (np_orgId r) (np_userId r) (np_alertType r) (np_channel r) (np_frequency r)
    (np_minSeverity r).

(** org-notification-routing.ts *)
Record RoutingRow := MkRoutingRow {
  nr_orgId : Uuid;
  nr_alertType : string;
  nr_routeTo : OrgRole;
}.
#[export] Instance Eta_RoutingRow : Eta RoutingRow := fun r =>
  MkRoutingRow (nr_orgId r) (nr_alertType r) (nr_routeTo r).

(** The tables, and the sequence behind [audit_log_entries.chain_seq]. *)
(** The tables around projects. *)
Record ProjectTables := MkProjectTables {
  pt_memberships : list ProjectMembershipRow;
  pt_invitations : list ProjectInvitationRow;
  pt_machineUsers : list MachineUserRow;
  pt_lifecycleEvents : list LifecycleEventRow;
}.
#[export] Instance Eta_ProjectTables : Eta ProjectTables := fun t =>
  MkProjectTables (pt_memberships t) (pt_invitations t) (pt_machineUsers t) (pt_lifecycleEvents t).

Record Db := MkDb {
  db_rotations : list RotationRow;
  db_versions : list VersionRow;
  db_items : list ChecklistItemRow;
  db_credentials : list CredentialRow;
  db_projects : list ProjectRow;
  db_dependencies : list DependencyRow;
  db_memberships : list MembershipRow;
  db_vaultState : list VaultStateRow;
  db_audit : list AuditRow;
  db_usage : list UsageRow;
  db_quotaConfig : list QuotaConfigRow;
  db_retention : list RetentionRow;
  db_queue : list QueueRow;
  db_preferences : list PreferenceRow;
  db_routing : list RoutingRow;
  db_auditSeq : Z;
  db_auth : AuthDb;
  db_projectTables : ProjectTables;
}.
#[export] Instance Eta_Db : Eta Db := fun r =>
  MkDb (db_rotations r) (db_versions r) (db_items r) (db_credentials r) (db_projects r)
    (db_dependencies r) (db_memberships r) (db_vaultState r) (db_audit r) (db_usage r)
    (db_quotaConfig r) (db_retention r) (db_queue r) (db_preferences r) (db_routing r) (db_auditSeq r) (db_auth r) (db_projectTables r).

Definition emptyDb : Db := MkDb [] [] [] [] [] [] [] [] [] [] [] [] [] [] [] 0 emptyAuthDb (MkProjectTables [] [] [] []).

(** ** The tables of authentication, as tables of the database *)

Definition db_users (db : Db) : list UserRow := au_users (db_auth db).
Definition db_identityTokens (db : Db) : list IdentityTokenRow := au_identityTokens (db_auth db).
Definition db_sessions (db : Db) : list SessionRow := au_sessions (db_auth db).
Definition db_refreshTokens (db : Db) : list RefreshTokenRow := au_refreshTokens (db_auth db).
Definition db_revokedTokens (db : Db) : list RevokedTokenRow := au_revokedTokens (db_auth db).
Definition db_userSessions (db : Db) : list UserSessionRow := au_userSessions (db_auth db).
Definition db_userRefreshTokens (db : Db) : list UserRefreshTokenRow := au_userRefreshTokens (db_auth db).
Definition db_cliOrgCredentials (db : Db) : list CliOrgCredentialRow := au_cliOrgCredentials (db_auth db).
Definition db_deviceGrants (db : Db) : list DeviceGrantRow := au_deviceGrants (db_auth db).
Definition db_apiKeys (db : Db) : list ApiKeyRow := au_apiKeys (db_auth db).
Definition db_enrollments (db : Db) : list EnrollmentRow := au_enrollments (db_auth db).
Definition db_pendingMfa (db : Db) : list PendingMfaRow := au_pendingMfa (db_auth db).
Definition db_usedCodes (db : Db) : list UsedCodeRow := au_usedCodes (db_auth db).
Definition db_recoveryCodes (db : Db) : list RecoveryCodeRow := au_recoveryCodes (db_auth db).
Definition db_ephemeral (db : Db) : list EphemeralRow := au_ephemeral (db_auth db).
Definition db_assertionJtis (db : Db) : list AssertionJtiRow := au_assertionJtis (db_auth db).
Definition db_organizations (db : Db) : list OrganizationRow := au_organizations (db_auth db).
Definition db_platformEvents (db : Db) : list PlatformEventRow := au_platformEvents (db_auth db).
Definition db_shares (db : Db) : list ShareRow := au_shares (db_auth db).
Definition db_nudgeDismissals (db : Db) : list NudgeDismissalRow := au_nudgeDismissals (db_auth db).

#[export] Instance Setter_users : Setter db_users | 0 :=
  {| setter upd db := db <| db_auth ::= fun a => a <| au_users ::= upd |> |> |}.
#[export] Instance Setter_identityTokens : Setter db_identityTokens | 0 :=
  {| setter upd db := db <| db_auth ::= fun a => a <| au_identityTokens ::= upd |> |> |}.
#[export] Instance Setter_sessions : Setter db_sessions | 0 :=
  {| setter upd db := db <| db_auth ::= fun a => a <| au_sessions ::= upd |> |> |}.
#[export] Instance Setter_refreshTokens : Setter db_refreshTokens | 0 :=
  {| setter upd db := db <| db_auth ::= fun a => a <| au_refreshTokens ::= upd |> |> |}.
#[export] Instance Setter_revokedTokens : Setter db_revokedTokens | 0 :=
  {| setter upd db := db <| db_auth ::= fun a => a <| au_revokedTokens ::= upd |> |> |}.
#[export] Instance Setter_userSessions : Setter db_userSessions | 0 :=
  {| setter upd db := db <| db_auth ::= fun a => a <| au_userSessions ::= upd |> |> |}.
#[export] Instance Setter_userRefreshTokens : Setter db_userRefreshTokens | 0 :=
  {| setter upd db := db <| db_auth ::= fun a => a <| au_userRefreshTokens ::= upd |> |> |}.
#[export] Instance Setter_cliOrgCredentials : Setter db_cliOrgCredentials | 0 :=
  {| setter upd db := db <| db_auth ::= fun a => a <| au_cliOrgCredentials ::= upd |> |> |}.
#[export] Instance Setter_deviceGrants : Setter db_deviceGrants | 0 :=
  {| setter upd db := db <| db_auth ::= fun a => a <| au_deviceGrants ::= upd |> |> |}.
#[export] Instance Setter_apiKeys : Setter db_apiKeys | 0 :=
  {| setter upd db := db <| db_auth ::= fun a => a <| au_apiKeys ::= upd |> |> |}.
#[export] Instance Setter_enrollments : Setter db_enrollments | 0 :=
  {| setter upd db := db <| db_auth ::= fun a => a <| au_enrollments ::= upd |> |> |}.
#[export] Instance Setter_pendingMfa : Setter db_pendingMfa | 0 :=
  {| setter upd db := db <| db_auth ::= fun a => a <| au_pendingMfa ::= upd |> |> |}.
#[export] Instance Setter_usedCodes : Setter db_usedCodes | 0 :=
  {| setter upd db := db <| db_auth ::= fun a => a <| au_usedCodes ::= upd |> |> |}.
#[export] Instance Setter_recoveryCodes : Setter db_recoveryCodes | 0 :=
  {| setter upd db := db <| db_auth ::= fun a => a <| au_recoveryCodes ::= upd |> |> |}.
#[export] Instance Setter_ephemeral : Setter db_ephemeral | 0 :=
  {| setter upd db := db <| db_auth ::= fun a => a <| au_ephemeral ::= upd |> |> |}.
#[export] Instance Setter_assertionJtis : Setter db_assertionJtis | 0 :=
  {| setter upd db := db <| db_auth ::= fun a => a <| au_assertionJtis ::= upd |> |> |}.
#[export] Instance Setter_organizations : Setter db_organizations | 0 :=
  {| setter upd db := db <| db_auth ::= fun a => a <| au_organizations ::= upd |> |> |}.
#[export] Instance Setter_platformEvents : Setter db_platformEvents | 0 :=
  {| setter upd db := db <| db_auth ::= fun a => a <| au_platformEvents ::= upd |> |> |}.
#[export] Instance Setter_shares : Setter db_shares | 0 :=
  {| setter upd db := db <| db_auth ::= fun a => a <| au_shares ::= upd |> |> |}.
#[export] Instance Setter_nudgeDismissals : Setter db_nudgeDismissals | 0 :=
  {| setter upd db := db <| db_auth ::= fun a => a <| au_nudgeDismissals ::= upd |> |> |}.

Definition db_projectMemberships (db : Db) : list ProjectMembershipRow := pt_memberships (db_projectTables db).
Definition db_projectInvitations (db : Db) : list ProjectInvitationRow := pt_invitations (db_projectTables db).
Definition db_machineUsers (db : Db) : list MachineUserRow := pt_machineUsers (db_projectTables db).
Definition db_lifecycleEvents (db : Db) : list LifecycleEventRow := pt_lifecycleEvents (db_projectTables db).

#[export] Instance Setter_projectMemberships : Setter db_projectMemberships | 0 :=
  {| setter upd db := db <| db_projectTables ::= fun t => t <| pt_memberships ::= upd |> |> |}.
#[export] Instance Setter_projectInvitations : Setter db_projectInvitations | 0 :=
  {| setter upd db := db <| db_projectTables ::= fun t => t <| pt_invitations ::= upd |> |> |}.
#[export] Instance Setter_machineUsers : Setter db_machineUsers | 0 :=
  {| setter upd db := db <| db_projectTables ::= fun t => t <| pt_machineUsers ::= upd |> |> |}.
#[export] Instance Setter_lifecycleEvents : Setter db_lifecycleEvents | 0 :=
  {| setter upd db := db <| db_projectTables ::= fun t => t <| pt_lifecycleEvents ::= upd |> |> |}.

(** ** Unique indexes, checked by INSERT *)

(** idx_rotations_one_active_per_credential *)
Definition ACTIVE_ROTATION_STATUSES : list RotationStatus :=
  [in_progress; staged; promoted; stale_recovery].
Definition isActiveStatus (s : RotationStatus) : bool := s ∈? ACTIVE_ROTATION_STATUSES.
Definition isActive (r : RotationRow) : bool := isActiveStatus (rot_status r).

Definition rotationConflict (new old : RotationRow) : bool :=
  (rot_id new =? rot_id old)
  || ((rot_credentialId new =? rot_credentialId old) && isActive new && isActive old).

(** idx_credential_versions_unique *)
Definition versionConflict (new old : VersionRow) : bool :=
  (cv_id new =? cv_id old)
  || ((cv_credentialId new =? cv_credentialId old) && (cv_versionNumber new =? cv_versionNumber old)).

(** idx_projects_org_slug, and idx_projects_creation_request_id as far as the organisation goes *)
Definition projectConflict (new old : ProjectRow) : bool :=
  (proj_id new =? proj_id old)
  || ((proj_orgId new =? proj_orgId old) && (proj_slug new =? proj_slug old))
  || (isNotNull (proj_creationRequestId new) && (proj_creationRequestId new =? proj_creationRequestId old)).

(** project_memberships: the primary key *)
Definition projectMembershipConflict (new old : ProjectMembershipRow) : bool :=
  (pmb_projectId new =? pmb_projectId old) && (pmb_userId new =? pmb_userId old).

Definition lifecycleEventConflict (new old : LifecycleEventRow) : bool := le_id new =? le_id old.

(** uq_machine_users_host_managed_org_name *)
Definition machineUserConflict (new old : MachineUserRow) : bool :=
  (mu_id new =? mu_id old)
  || (mu_hostManaged new && mu_hostManaged old && (mu_orgId new =? mu_orgId old) && (mu_name new =? mu_name old)).

(** api_keys: the primary key; [key_hash] is not unique *)
Definition apiKeyConflict (new old : ApiKeyRow) : bool := ak_id new =? ak_id old.

(** idx_rotation_checklist_items_rotation_dependency *)
Definition itemConflict (new old : ChecklistItemRow) : bool :=
  (item_id new =? item_id old)
  || ((item_rotationId new =? item_rotationId old) && (item_dependencyId new =? item_dependencyId old)
      && isNotNull (item_dependencyId new)).

(** ** JSON of columns *)

Definition JUuid (u : Uuid) : Json := JStr (uuidText u).
Definition JOptUuid (u : option Uuid) : Json := match u with Some x => JUuid x | None => JNull end.
Definition JInt (z : Z) : Json := JNum (pretty z).
Definition JOptStr (o : option string) : Json := match o with Some s => JStr s | None => JNull end.
Definition JOptArr (o : option (list string)) : Json := match o with Some l => JArr (map JStr l) | None => JNull end.
