(* ===== verification/Tx.v ===== *)
(** * Transactions

    The monad of the service functions: a computation takes a [World] and
    returns a value, or an exception, and the next world.  The world holds the
    database an organisation's transaction sees, the environment the code reads
    (the vault keys, the advisory locks and row locks other sessions hold) and
    a counter [w_tick]; every draw from the environment (the clock of
    [new Date()], [gen_random_uuid()], [randomBytes]) reads the [Platform] at
    the counter and advances it, so that a theorem quantifies over every
    behaviour of the environment.

    One SQL statement is one step on the database.  A service function runs
    inside one transaction under the locks the code takes, so its statements
    are not interleaved with writes to the same rows; what other sessions do
    while the code blocks on an advisory lock is the world's [w_onWait], and
    what happens between two calls is in the theorems, which quantify over the
    database each call finds. *)

From S2P Require Import Prelude Js Crypto FieldSet AuthStore Store.
From Stdlib Require Import Ascii String.
From stdpp Require Import strings.

Local Open Scope string_scope.
Local Open Scope list_scope.
Local Open Scope pv_scope.

(** The environment of the process. *)
Class Platform := {
  clock : nat -> Date;
  randomUuid : nat -> Uuid;
  randomIv : nat -> string;
  randomOpaque : nat -> string;   (* randomBytes(n).toString('base64url') *)
  randomInt : nat -> N -> N;         (* crypto.randomInt(max) *)
}.

(** [String#localeCompare]: the collation of the JavaScript engine. *)
Class Locale := { localeCompare : string -> string -> comparison }.

(** config/env.ts *)
Class Env := {
  NOTIFICATION_DIGEST_HOUR : Z;
  ROTATION_MAX_RETRIES : Z;
  STALE_ROTATION_THRESHOLD_MINUTES : Z;
  STALE_STAGED_ROTATION_THRESHOLD_DAYS : Z;
  CREDENTIAL_RETENTION_DRY_RUN : bool;
  AUDIT_ORG_QUOTA_ENFORCEMENT_ENABLED : bool;
  AUDIT_ORG_DEFAULT_STORAGE_QUOTA_MB : Z;
  AUDIT_ORG_WRITE_RATE_ENFORCEMENT_ENABLED : bool;
  AUDIT_ORG_DEFAULT_WRITE_RATE_PER_MIN : Z;
  AUDIT_ORG_WRITE_RATE_WINDOW_MS : Z;
  JWT_ACCESS_TTL_SECONDS : Z;
  JWT_MAX_CLOCK_SKEW_SECONDS : Z;
  REFRESH_TOKEN_TTL_DAYS : Z;
  REFRESH_GRACE_WINDOW_SECONDS : Z;
  REFRESH_TOKEN_HMAC_SECRET : string;
  SESSION_IDLE_TIMEOUT_MINUTES : Z;
  SESSION_ACTIVITY_DEBOUNCE_SECONDS : Z;
  MAX_SESSIONS_PER_USER : Z;
  CLI_DEVICE_CODE_HMAC_SECRET : string;
  MFA_PENDING_SESSION_HMAC_SECRET : string;
  MFA_PENDING_SESSION_TTL_SECONDS : Z;
  MFA_LOGIN_MAX_ATTEMPTS : Z;
  MFA_TOTP_PERIOD_SECONDS : Z;
  MFA_TOTP_WINDOW : Z;
  MFA_RECOVERY_CODE_COUNT : nat;
  MFA_RECOVERY_CODE_BCRYPT_COST : Z;
  TOTP_REPLAY_HMAC_SECRET : string;
  TOTP_USED_CODES_TTL_MINUTES : Z;
  FAILED_AUTH_RECORD_ENABLED : bool;
  LOGIN_LOCKOUT_THRESHOLD : Z;
  LOGIN_LOCKOUT_WINDOW_SECONDS : Z;
  AUTH_DUMMY_PASSWORD_HASH : string;
  INVITATION_TOKEN_HMAC_SECRET : string;
  API_KEY_HMAC_SECRET : string;
  MACHINE_JWT_TTL_SECONDS : Z;
}.

Record World := MkWorld {
  w_db : Db;
  w_tick : nat;
  w_now : Date;                       (* now(): the start of the transaction *)
  w_locks : list (Uuid * Uuid);       (* advisory locks of other sessions: (organisation, key) *)
  w_rowLocks : list Uuid;             (* rows other sessions hold FOR UPDATE *)
  w_onWait : Db -> Db;                (* what the holder of a lock commits while this session waits *)
  w_activeKey : option string;        (* crypto/secret-value.ts *)
  w_primaryKey : option string;       (* vault/key-service.ts, [None] when sealed *)
  w_auditKey : option string;
  w_activity : list (Uuid * Date);    (* auth/session-activity.ts: the debounce maps of this process *)
  w_orgActivity : list ((Uuid * Uuid) * Date);
  w_failedAttempts : list FailedAttemptRow; (* failed_auth_attempts: committed by a connection of its own *)
}.
#[export] Instance Eta_World : Eta World := fun w =>
  MkWorld (w_db w) (w_tick w) (w_now w) (w_locks w) (w_rowLocks w) (w_onWait w)
    (w_activeKey w) (w_primaryKey w) (w_auditKey w) (w_activity w)
    (w_orgActivity w) (w_failedAttempts w).

Definition M (A : Type) : Type := World -> Outcome A * World.

#[export] Instance M_ret : MRet M := fun A a w => (Ok a, w).
#[export] Instance M_bind : MBind M := fun A B k m w =>
  match m w with
  | (Ok a, w') => k a w'
  | (Throw e, w') => (Throw e, w')
  end.

Definition throw {A} (e : Exn) : M A := fun w => (Throw e, w).
Definition lift {A} (o : Outcome A) : M A := fun w => (o, w).

(** [try { m } catch (e) { h(e) }] *)
Definition catch {A} (m : M A) (h : Exn -> M A) : M A := fun w =>
  match m w with
  | (Throw e, w') => h e w'
  | r => r
  end.

(** A transaction, or a savepoint inside one: an exception undoes its writes. *)
Definition transaction {A} (m : M A) : M A := fun w =>
  match m w with
  | (Throw e, w') => (Throw e, w' <| w_db := w_db w |>)
  | r => r
  end.

(** ** The environment *)

Section platform.
Context `{Platform}.

Definition newDate : M Date := fun w => (Ok (clock (w_tick w)), w <| w_tick ::= S |>).
Definition genRandomUuid : M Uuid := fun w => (Ok (randomUuid (w_tick w)), w <| w_tick ::= S |>).
Definition randomBytes12 : M string := fun w => (Ok (randomIv (w_tick w)), w <| w_tick ::= S |>).
Definition dbNow : M Date := fun w => (Ok (w_now w), w).

(** [getDb().transaction(fn)], [withOrg(orgId, fn)]: [now()] is the start of the new transaction. *)
Definition setNow (now : Date) : M unit := fun w => (Ok tt, w <| w_now := now |>).
Definition beginTransaction : M unit := now ← newDate; setNow now.
Definition withOrg {A} (m : M A) : M A := _ ← beginTransaction; transaction m.
End platform.

(** ** Statements *)

(** [SELECT * FROM t WHERE p] *)
Definition selectWhere {R} (t : Db -> list R) (p : R -> bool) : M (list R) := fun w =>
  (Ok (List.filter p (t (w_db w))), w).

(** [... LIMIT 1], on the rows in table order. *)
Definition selectFirst {R} (t : Db -> list R) (p : R -> bool) : M (option R) := fun w =>
  (Ok (head (List.filter p (t (w_db w)))), w).

(** [... ORDER BY leb] *)
Definition selectOrdered {R} (t : Db -> list R) (p : R -> bool) (leb : R -> R -> bool) : M (list R) :=
  fun w => (Ok (isort leb (List.filter p (t (w_db w)))), w).

Definition selectFirstOrdered {R} (t : Db -> list R) (p : R -> bool) (leb : R -> R -> bool)
    : M (option R) :=
  fun w => (Ok (head (isort leb (List.filter p (t (w_db w))))), w).

(** [UPDATE t SET f WHERE p RETURNING *] *)
Definition updateWhere {R} (t : Db -> list R) `{!Setter t} (p : R -> bool) (f : R -> R)
    : M (list R) := fun w =>
  (Ok (map f (List.filter p (t (w_db w)))),
   w <| w_db ::= fun db => db <| t ::= map_where p f |> |>).

(** [INSERT INTO t VALUES row RETURNING *], with the unique indexes of the table. *)
Definition insertRow {R} (t : Db -> list R) `{!Setter t} (conflict : R -> R -> bool) (row : R) : M R :=
  fun w =>
  if existsb (conflict row) (t (w_db w)) then (Throw UniqueViolation, w)
  else (Ok row, w <| w_db ::= fun db => db <| t ::= fun l => (l ++ [row])%list |> |>).

(** [DELETE FROM t WHERE p] *)
Definition deleteWhere {R} (t : Db -> list R) `{!Setter t} (p : R -> bool) : M unit := fun w =>
  (Ok tt, w <| w_db ::= fun db => db <| t ::= List.filter (fun r => negb (p r)) |> |>).

(** [SELECT ... FOR UPDATE NOWAIT LIMIT 1] *)
Definition selectFirstNoWait {R} (t : Db -> list R) (rowId : R -> Uuid) (p : R -> bool)
    : M (option R) := fun w =>
  match head (List.filter p (t (w_db w))) with
  | Some r => if rowId r ∈? w_rowLocks w then (Throw LockNotAvailable, w) else (Ok (Some r), w)
  | None => (Ok None, w)
  end.

(** ** lib/rotation-locks.ts: transaction-scoped advisory locks *)

Definition tryAcquireLock (orgId key : Uuid) : M bool := fun w =>
  (Ok (negb ((orgId, key) ∈? w_locks w)), w).

Definition tryAcquireCredentialScopedLock (orgId credentialId : Uuid) : M bool :=
  tryAcquireLock orgId credentialId.

Definition tryAcquireRotationScopedLock (orgId rotationId : Uuid) : M bool :=
  tryAcquireLock orgId rotationId.

(** The holder's transaction ends: its writes become visible and the lock is ours. *)
Definition awaitCredentialScopedLockRelease (orgId credentialId : Uuid) : M unit := fun w =>
  (Ok tt, w <| w_db ::= w_onWait w |>
            <| w_locks ::= List.filter (fun k => negb (k =? (orgId, credentialId))) |>).

(** ** lib/for-each-sequential.ts *)

Fixpoint forEachSequential {A} (items : list A) (fn : A -> M unit) : M unit :=
  match items with
  | [] => mret tt
  | item :: items' => _ ← fn item; forEachSequential items' fn
  end.

(** The same, collecting the results. *)
Fixpoint forEachCollect {A B} (items : list A) (fn : A -> M B) : M (list B) :=
  match items with
  | [] => mret []
  | item :: items' => b ← fn item; bs ← forEachCollect items' fn; mret (b :: bs)
  end.

(** [let b = init; for (const x of l) b = await f(b, x)] *)
Fixpoint foldM {A B} (f : B -> A -> M B) (b : B) (l : list A) : M B :=
  match l with
  | [] => mret b
  | x :: l' => b' ← f b x; foldM f b' l'
  end.

(** ** The vault keys *)

Section secrets.
Context `{Platform, NodeCrypto}.

(** vault/key-service.ts *)
Definition getPrimaryKey : M string := fun w =>
  match w_primaryKey w with
  | Some k => (Ok k, w)
  | None => (Throw (JsError "getPrimaryKey: vault is sealed — primary key unavailable"), w)
  end.

Definition getAuditKey : M string := fun w =>
  match w_auditKey w with
  | Some k => (Ok k, w)
  | None => (Throw VaultSealedError, w)
  end.

(** lib/encrypt-value.ts *)
Definition encryptValue (value : string) : M EncryptedValue :=
  key ← getPrimaryKey;
  iv ← randomBytes12;
  lift (encryptSync iv value key).

(** [withSecret(encrypted, (buf) => buf.toString('utf8'))] *)
Definition withSecretText (encrypted : EncryptedValue) : M string := fun w =>
  (withSecret (w_activeKey w) encrypted Ok, w).
End secrets.

(** ** Weakest preconditions *)

Definition wp {A} (m : M A) (Q : Outcome A -> World -> Prop) (w : World) : Prop :=
  let '(o, w') := m w in Q o w'.

Section wp_rules.
Context {A B : Type}.
Implicit Types (w : World).

Lemma wp_intro (m : M A) (Q : Outcome A -> World -> Prop) w :
  (forall o w', m w = (o, w') -> Q o w') -> wp m Q w.
Proof. unfold wp. destruct (m w) as [o w']. auto. Qed.

Lemma wp_elim (m : M A) (Q : Outcome A -> World -> Prop) w o w' :
  wp m Q w -> m w = (o, w') -> Q o w'.
Proof. unfold wp. intros HQ E. by rewrite E in HQ. Qed.

Lemma wp_snd (m : M A) (P : World -> Prop) w : wp m (fun _ w' => P w') w -> P (snd (m w)).
Proof. unfold wp. by destruct (m w). Qed.

Lemma wp_mono (m : M A) (Q Q' : Outcome A -> World -> Prop) w :
  wp m Q w -> (forall o w', Q o w' -> Q' o w') -> wp m Q' w.
Proof. unfold wp. destruct (m w). auto. Qed.

Lemma wp_ret (a : A) (Q : Outcome A -> World -> Prop) w : Q (Ok a) w -> wp (mret a) Q w.
Proof. done. Qed.

Lemma wp_throw e (Q : Outcome A -> World -> Prop) w : Q (Throw e) w -> wp (throw e) Q w.
Proof. done. Qed.

Lemma wp_lift (o : Outcome A) (Q : Outcome A -> World -> Prop) w : Q o w -> wp (lift o) Q w.
Proof. done. Qed.

Lemma wp_bind (m : M A) (k : A -> M B) (Q : Outcome B -> World -> Prop) w :
  wp m (fun o w' => match o with Ok a => wp (k a) Q w' | Throw e => Q (Throw e) w' end) w ->
  wp (m ≫= k) Q w.
Proof. unfold wp, mbind, M_bind. by destruct (m w) as [[a|e] w']. Qed.

(** A call whose result is known. *)
Lemma wp_bind_eq (m : M A) (k : A -> M B) (Q : Outcome B -> World -> Prop) w a w' :
  m w = (Ok a, w') -> wp (k a) Q w' -> wp (m ≫= k) Q w.
Proof. intros E HQ. apply wp_bind. unfold wp. by rewrite E. Qed.

Lemma wp_catch (m : M A) h (Q : Outcome A -> World -> Prop) w :
  wp m (fun o w' => match o with Ok a => Q (Ok a) w' | Throw e => wp (h e) Q w' end) w ->
  wp (catch m h) Q w.
Proof. unfold wp, catch. by destruct (m w) as [[a|e] w']. Qed.

Lemma wp_transaction (m : M A) (Q : Outcome A -> World -> Prop) w :
  wp m (fun o w' => match o with Ok a => Q (Ok a) w'
                    | Throw e => Q (Throw e) (w' <| w_db := w_db w |>) end) w ->
  wp (transaction m) Q w.
Proof. unfold wp, transaction. by destruct (m w) as [[a|e] w']. Qed.
End wp_rules.

Lemma insertRow_ok {R} (t : Db -> list R) `{!Setter t} conflict row w :
  (forall r, r ∈ t (w_db w) -> conflict row r = false) ->
  insertRow t conflict row w =
    (Ok row, w <| w_db ::= fun db => db <| t ::= fun l => (l ++ [row])%list |> |>).
Proof.
  intros Hn. unfold insertRow. destruct (existsb _ _) eqn:E; [|done].
  apply existsb_exists in E as (r & Hr & Hc). rewrite Hn in Hc; [done|]. by apply list_elem_of_In.
Qed.

(** A loop that cannot throw, with its invariant. *)
Lemma wp_foldM {A B} (I : list A -> B -> World -> Prop) (f : B -> A -> M B) l b w :
  I [] b w ->
  (forall done x b w, x ∈ l -> I done b w ->
     wp (f b x) (fun o w' => exists b', o = Ok b' /\ I (done ++ [x]) b' w') w) ->
  wp (foldM f b l) (fun o w' => exists b', o = Ok b' /\ I l b' w') w.
Proof.
  intros H0 Hstep.
  enough (G : forall l' done b w, done ++ l' = l -> I done b w ->
    wp (foldM f b l') (fun o w' => exists b', o = Ok b' /\ I l b' w') w) by (by apply (G l [])).
  induction l' as [|x l' IH]; intros done b' w' E HI; cbn [foldM].
  - apply wp_ret. exists b'. rewrite app_nil_r in E. by subst.
  - apply wp_bind. eapply wp_mono; [apply Hstep; [|exact HI]|].
    { rewrite <- E. apply elem_of_app. right. left. }
    intros o w'' (b'' & -> & HI'). apply (IH (done ++ [x])); [|done]. by rewrite <- app_assoc.
Qed.

(** ** Computations that only read the database *)

(** [reads m]: the result may depend on the world, which only its counter changes. *)
Definition sameDb (w w' : World) : Prop := exists n, w' = w <| w_tick := n |>.

Lemma sameDb_refl w : sameDb w w.
Proof. exists (w_tick w). by destruct w. Qed.
Lemma sameDb_trans w1 w2 w3 : sameDb w1 w2 -> sameDb w2 w3 -> sameDb w1 w3.
Proof. intros [n ->] [k ->]. by exists k. Qed.
Lemma sameDb_db w w' : sameDb w w' -> w_db w' = w_db w.
Proof. by intros [n ->]. Qed.

Definition readOnly {A} (m : M A) : Prop := forall w, wp m (fun _ w' => sameDb w w') w.

Section readOnly.
Context {A B : Type}.

Lemma readOnly_ret (a : A) : readOnly (mret a).
Proof. intros w. apply sameDb_refl. Qed.
Lemma readOnly_throw e : readOnly (@throw A e).
Proof. intros w. apply sameDb_refl. Qed.
Lemma readOnly_lift (o : Outcome A) : readOnly (lift o).
Proof. intros w. apply sameDb_refl. Qed.
Lemma readOnly_bind (m : M A) (k : A -> M B) :
  readOnly m -> (forall a, readOnly (k a)) -> readOnly (m ≫= k).
Proof.
  intros Hm Hk w. apply wp_bind. eapply wp_mono; [apply Hm|]. intros [a|e] w' Hw'; [|done].
  eapply wp_mono; [apply Hk|]. intros o w''. by apply sameDb_trans.
Qed.
Lemma readOnly_catch (m : M A) h :
  readOnly m -> (forall e, readOnly (h e)) -> readOnly (catch m h).
Proof.
  intros Hm Hk w. apply wp_catch. eapply wp_mono; [apply Hm|]. intros [a|e] w' Hw'; [done|].
  eapply wp_mono; [apply Hk|]. intros o w''. by apply sameDb_trans.
Qed.
Lemma readOnly_db (m : M A) w o w' : readOnly m -> m w = (o, w') -> w_db w' = w_db w.
Proof. intros Hm E. apply sameDb_db. exact (wp_elim _ _ _ _ _ (Hm w) E). Qed.
End readOnly.

Section readOnly_statements.
Context {R : Type} (t : Db -> list R).
Lemma readOnly_selectWhere p : readOnly (selectWhere t p).
Proof. intros w. apply sameDb_refl. Qed.
Lemma readOnly_selectFirst p : readOnly (selectFirst t p).
Proof. intros w. apply sameDb_refl. Qed.
Lemma readOnly_selectOrdered p leb : readOnly (selectOrdered t p leb).
Proof. intros w. apply sameDb_refl. Qed.
Lemma readOnly_selectFirstOrdered p leb : readOnly (selectFirstOrdered t p leb).
Proof. intros w. apply sameDb_refl. Qed.
Lemma readOnly_selectFirstNoWait i p : readOnly (selectFirstNoWait t i p).
Proof.
  intros w. unfold wp, selectFirstNoWait. destruct (head _); [case_bool_decide|]; apply sameDb_refl.
Qed.
End readOnly_statements.

Section readOnly_env.
Context `{Platform, NodeCrypto}.
Lemma readOnly_newDate : readOnly newDate.
Proof. intros w. by exists (S (w_tick w)). Qed.
Lemma readOnly_genRandomUuid : readOnly genRandomUuid.
Proof. intros w. by exists (S (w_tick w)). Qed.
Lemma readOnly_randomBytes12 : readOnly randomBytes12.
Proof. intros w. by exists (S (w_tick w)). Qed.
Lemma readOnly_dbNow : readOnly dbNow.
Proof. intros w. apply sameDb_refl. Qed.
Lemma readOnly_getPrimaryKey : readOnly getPrimaryKey.
Proof. intros w. unfold wp, getPrimaryKey. destruct (w_primaryKey w); apply sameDb_refl. Qed.
Lemma readOnly_getAuditKey : readOnly getAuditKey.
Proof. intros w. unfold wp, getAuditKey. destruct (w_auditKey w); apply sameDb_refl. Qed.
Lemma readOnly_withSecretText e : readOnly (withSecretText e).
Proof. intros w. apply sameDb_refl. Qed.
Lemma readOnly_tryAcquireLock o k : readOnly (tryAcquireLock o k).
Proof. intros w. apply sameDb_refl. Qed.
Lemma readOnly_encryptValue v : readOnly (encryptValue v).
Proof.
  apply readOnly_bind; [apply readOnly_getPrimaryKey|]. intros k.
  apply readOnly_bind; [apply readOnly_randomBytes12|]. intros iv. apply readOnly_lift.
Qed.
End readOnly_env.

#[export] Hint Resolve sameDb_refl sameDb_trans readOnly_ret readOnly_throw readOnly_lift
  readOnly_selectWhere readOnly_selectFirst readOnly_selectOrdered readOnly_selectFirstOrdered
  readOnly_selectFirstNoWait readOnly_newDate readOnly_genRandomUuid readOnly_randomBytes12
  readOnly_dbNow readOnly_getPrimaryKey readOnly_getAuditKey readOnly_withSecretText
  readOnly_tryAcquireLock readOnly_encryptValue : pv.

(** Decomposes a computation into its statements. *)
Ltac read_only :=
  repeat first
    [ progress (auto with pv)
    | apply readOnly_bind; [|intros ?]
    | apply readOnly_catch; [|intros ?]
    | match goal with
      | |- readOnly (if ?b then _ else _) => destruct b
      | |- readOnly (match ?x with _ => _ end) => destruct x
      end ].

(** ** A concrete environment, for the witnesses *)

Definition byteLocale : Locale := {| localeCompare := String.compare |}.
Definition toyPlatform : Platform :=
  {| clock n := (1700000000000 + 1000 * Z.of_nat n)%Z; randomUuid n := (1000 + N.of_nat n)%N;
     randomIv n := "iv-iv-iv-iv-";
     randomOpaque n := String (ascii_of_nat n) EmptyString;
     randomInt n max := N.modulo (N.of_nat n * 7) max |}.
Definition toyEnv : Env :=
  {| NOTIFICATION_DIGEST_HOUR := 8; ROTATION_MAX_RETRIES := 3;
     STALE_ROTATION_THRESHOLD_MINUTES := 60; STALE_STAGED_ROTATION_THRESHOLD_DAYS := 14;
     CREDENTIAL_RETENTION_DRY_RUN := false; AUDIT_ORG_QUOTA_ENFORCEMENT_ENABLED := true;
     AUDIT_ORG_DEFAULT_STORAGE_QUOTA_MB := 1; AUDIT_ORG_WRITE_RATE_ENFORCEMENT_ENABLED := true;
     AUDIT_ORG_DEFAULT_WRITE_RATE_PER_MIN := 2; AUDIT_ORG_WRITE_RATE_WINDOW_MS := 60000;
     JWT_ACCESS_TTL_SECONDS := 300; JWT_MAX_CLOCK_SKEW_SECONDS := 60; REFRESH_TOKEN_TTL_DAYS := 7;
     REFRESH_GRACE_WINDOW_SECONDS := 30; REFRESH_TOKEN_HMAC_SECRET := "refresh";
     SESSION_IDLE_TIMEOUT_MINUTES := 30; SESSION_ACTIVITY_DEBOUNCE_SECONDS := 60; MAX_SESSIONS_PER_USER := 2;
     CLI_DEVICE_CODE_HMAC_SECRET := "device"; MFA_PENDING_SESSION_HMAC_SECRET := "pending";
     MFA_PENDING_SESSION_TTL_SECONDS := 300; MFA_LOGIN_MAX_ATTEMPTS := 5; MFA_TOTP_PERIOD_SECONDS := 30; MFA_TOTP_WINDOW := 1;
     MFA_RECOVERY_CODE_COUNT := 10; MFA_RECOVERY_CODE_BCRYPT_COST := 12;
     TOTP_REPLAY_HMAC_SECRET := "replay"; TOTP_USED_CODES_TTL_MINUTES := 10; FAILED_AUTH_RECORD_ENABLED := true;
     LOGIN_LOCKOUT_THRESHOLD := 3; LOGIN_LOCKOUT_WINDOW_SECONDS := 900;
     AUTH_DUMMY_PASSWORD_HASH := "dummy"; INVITATION_TOKEN_HMAC_SECRET := "invitation";
     API_KEY_HMAC_SECRET := "api-key"; MACHINE_JWT_TTL_SECONDS := 3600 |}.

Definition worldOf (db : Db) : World :=
  {| w_db := db; w_tick := 0; w_now := 1700000000000; w_locks := []; w_rowLocks := [];
     w_onWait := id; w_activeKey := Some key32; w_primaryKey := Some key32;
     w_auditKey := Some key32; w_activity := []; w_orgActivity := []; w_failedAttempts := [] |}.
