(* ===== verification/QuotaGate.v ===== *)
(** * Audit quota: modules/audit/quota-gate.ts, modules/audit/maintenance-mode.ts

    The two gates every audit write passes: the write rate of the organisation
    in a fixed window, then its storage quota.  Each gate is one conditional
    [INSERT ... ON CONFLICT DO UPDATE]: its two arms are guarded separately, and
    no row returned means refused. *)

From S2P Require Import Prelude Js Crypto FieldSet AuthStore Store Tx.
From Stdlib Require Import Ascii String.
From stdpp Require Import strings.

Local Open Scope string_scope.
Local Open Scope list_scope.
Local Open Scope pv_scope.

(** ** Exempt event types *)

Definition SECURITY_CRITICAL_AUDIT_EVENT_TYPES : list string :=
  ["MFA_ENROLLMENT_STARTED"; "MFA_ENROLLED"; "MFA_LOGIN_VERIFIED"; "MFA_RECOVERY_USED";
   "MFA_RECOVERY_CODES_REGENERATED"; "SESSION_REVOKED"; "SESSION_CREATED"; "LOGIN_FAILED";
   "auth.recovery_requested"; "auth.recovery_link_sent"; "auth.recovery_completed";
   "auth.recovery_blocked_no_admin"; "machine_user.api_key_rotated";
   "machine_user.api_key_emergency_revoked"; "machine_user.rotation_anomaly_detected"].

Definition PREAUTH_ATTRIBUTABLE_EVENT_TYPES : list string :=
  ["LOGIN_FAILED"; "auth.recovery_requested"; "auth.recovery_link_sent";
   "auth.recovery_blocked_no_admin"].

Definition QUOTA_REMEDIATION_EVENT_TYPES : list string :=
  ["audit.quota_configured"; "audit.retention_purge_boundary"; "audit.retention_configured";
   "audit.forwarding_configured"].

Definition isSecurityCriticalAuditEventType (eventType : string) : bool :=
  eventType ∈? SECURITY_CRITICAL_AUDIT_EVENT_TYPES.

Inductive AuditWriteExemptionClass := security_critical | preauth_class | remediation.
#[export] Instance AuditWriteExemptionClass_eq_dec : EqDecision AuditWriteExemptionClass.
Proof. solve_decision. Defined.

Definition classifyAuditWriteExemption (eventType : string) : option AuditWriteExemptionClass :=
  if eventType ∈? PREAUTH_ATTRIBUTABLE_EVENT_TYPES then Some preauth_class
  else if eventType ∈? QUOTA_REMEDIATION_EVENT_TYPES then Some remediation
  else if isSecurityCriticalAuditEventType eventType then Some security_critical
  else None.

Definition isExempt (eventType : string) : bool :=
  let c := classifyAuditWriteExemption eventType in
  (c =? Some security_critical) || (c =? Some remediation).
Definition isPreauth (eventType : string) : bool :=
  classifyAuditWriteExemption eventType =? Some preauth_class.

(** ** The size of an entry *)

Definition FIXED_ROW_OVERHEAD_BYTES : Z := 256.

Definition byteLength (s : string) : Z := Z.of_nat (String.length s).

(** On the texts of the row. *)
Definition estimateTextSizeBytes (payload : Json) (resourceId resourceType : option string)
    (revealedFields : option (list string)) : Z :=
  (FIXED_ROW_OVERHEAD_BYTES + byteLength (stringify payload)
   + ((match resourceId with Some r => byteLength r | None => 0 end)
      + (match resourceType with Some t => byteLength t | None => 0 end))
   + match revealedFields with Some fs => byteLength (stringify (JArr (map JStr fs))) | None => 0 end)%Z.

Definition estimateAuditEntrySizeBytes (payload : Json) (resourceId : option Uuid)
    (resourceType : option string) (revealedFields : option (list string)) : Z :=
  estimateTextSizeBytes payload (uuidText <$> resourceId) resourceType revealedFields.

Section gates.
Context `{Env}.

(** ** The statements *)

(** The CTEs [cfg] and [resolved]. *)
Definition resolveQuota (orgId : Uuid) (config : option QuotaConfigRow) : option Z :=
  match config with
  | Some c => qc_quotaBytes c
  | None =>
      if 0 <? AUDIT_ORG_DEFAULT_STORAGE_QUOTA_MB
      then Some (AUDIT_ORG_DEFAULT_STORAGE_QUOTA_MB * 1048576)%Z else None
  end.

Definition within (limit : option Z) (n : Z) : bool :=
  match limit with None => true | Some q => n <=? q end.

Definition findUsage (orgId : Uuid) : M (option UsageRow) :=
  selectFirst db_usage (fun u => us_orgId u =? orgId).
Definition findQuotaConfig (orgId : Uuid) : M (option QuotaConfigRow) :=
  selectFirst db_quotaConfig (fun c => qc_orgId c =? orgId).
Definition insertUsage (u : UsageRow) : M UsageRow :=
  insertRow db_usage (fun new old => us_orgId new =? us_orgId old) u.

(** A row with its column defaults. *)
Definition newUsage (orgId : Uuid) (now : Date) : UsageRow :=
  {| us_orgId := orgId; us_bytesUsed := 0; us_preauthBytesUsed := 0; us_entryCount := 0;
     us_refusedWriteCount := 0; us_lastRefusalAt := None; us_rateWindowCount := 0;
     us_rateWindowResetAt := None; us_preauthRateWindowCount := 0;
     us_preauthRateWindowResetAt := None; us_rateRefusedCount := 0; us_lastRateRefusalAt := None;
     us_updatedAt := now |}.

Definition runGateStatement (orgId : Uuid) (sizeBytes : Z) (exempt preauth : bool) : M bool :=
  config ← findQuotaConfig orgId;
  let quota := resolveQuota orgId config in
  now ← dbNow;
  existing ← findUsage orgId;
  if negb (exempt || preauth || within quota sizeBytes) then mret false
  else
    match existing with
    | None =>
        _ ← insertUsage ((newUsage orgId now)
              <| us_bytesUsed := if preauth then 0%Z else sizeBytes |>
              <| us_preauthBytesUsed := if preauth then sizeBytes else 0%Z |>
              <| us_entryCount := 1%Z |>);
        mret true
    | Some u =>
        if negb (exempt || preauth || within quota (us_bytesUsed u + sizeBytes)) then mret false
        else
          _ ← updateWhere db_usage (fun u => us_orgId u =? orgId)
            (fun u => u <| us_bytesUsed ::= Z.add (if preauth then 0%Z else sizeBytes) |>
                        <| us_preauthBytesUsed ::= Z.add (if preauth then sizeBytes else 0%Z) |>
                        <| us_entryCount ::= Z.succ |> <| us_updatedAt := now |>);
          mret true
    end.

Definition resolveRateLimit (config : option QuotaConfigRow) : option Z :=
  match config ≫= qc_writeRatePerMinute with
  | Some limit => Some limit
  | None =>
      if 0 <? AUDIT_ORG_DEFAULT_WRITE_RATE_PER_MIN then Some AUDIT_ORG_DEFAULT_WRITE_RATE_PER_MIN
      else None
  end.

(** [reset_at IS NULL OR reset_at <= now()] *)
Definition windowClosed (resetAt : option Date) (now : Date) : bool :=
  match resetAt with None => true | Some t => t <=? now end.

(** The count of the window with one more write. *)
Definition nextCount (resetAt : option Date) (now : Date) (count : Z) : Z :=
  if windowClosed resetAt now then 1%Z else (count + 1)%Z.
Definition nextReset (resetAt : option Date) (now : Date) : option Date :=
  if windowClosed resetAt now then Some (now + AUDIT_ORG_WRITE_RATE_WINDOW_MS)%Z else resetAt.

Definition runRateGateStatement (orgId : Uuid) (exempt preauth : bool) : M bool :=
  config ← findQuotaConfig orgId;
  let limit := resolveRateLimit config in
  now ← dbNow;
  existing ← findUsage orgId;
  if negb (exempt || preauth || within limit 1) then mret false
  else
    match existing with
    | None =>
        let reset := Some (now + AUDIT_ORG_WRITE_RATE_WINDOW_MS)%Z in
        _ ← insertUsage ((newUsage orgId now)
              <| us_rateWindowCount := if preauth then 0%Z else 1%Z |>
              <| us_rateWindowResetAt := if preauth then None else reset |>
              <| us_preauthRateWindowCount := if preauth then 1%Z else 0%Z |>
              <| us_preauthRateWindowResetAt := if preauth then reset else None |>);
        mret true
    | Some u =>
        if negb (exempt || preauth
                 || within limit (nextCount (us_rateWindowResetAt u) now (us_rateWindowCount u)))
        then mret false
        else
          _ ← updateWhere db_usage (fun u => us_orgId u =? orgId)
            (fun u => if preauth
              then u <| us_preauthRateWindowCount :=
                          nextCount (us_preauthRateWindowResetAt u) now (us_preauthRateWindowCount u) |>
                     <| us_preauthRateWindowResetAt := nextReset (us_preauthRateWindowResetAt u) now |>
                     <| us_updatedAt := now |>
              else u <| us_rateWindowCount :=
                          nextCount (us_rateWindowResetAt u) now (us_rateWindowCount u) |>
                     <| us_rateWindowResetAt := nextReset (us_rateWindowResetAt u) now |>
                     <| us_updatedAt := now |>);
          mret true
    end.

(** ** The gates *)

Definition assertOrgMayWriteAudit (orgId : Uuid) (eventType : string) (sizeBytes : Z) : M unit :=
  if negb AUDIT_ORG_QUOTA_ENFORCEMENT_ENABLED then mret tt
  else
    admitted ← catch (runGateStatement orgId sizeBytes (isExempt eventType) (isPreauth eventType))
      (fun _ => throw (SameTransactionAuditWriteError "audit_gate_unavailable"));
    if negb admitted then throw (SameTransactionAuditWriteError "audit_quota_exhausted") else mret tt.

Definition assertOrgMayWriteAuditAtRate (orgId : Uuid) (eventType : string) : M unit :=
  if negb AUDIT_ORG_WRITE_RATE_ENFORCEMENT_ENABLED then mret tt
  else
    admitted ← catch (runRateGateStatement orgId (isExempt eventType) (isPreauth eventType))
      (fun _ => throw (SameTransactionAuditWriteError "audit_gate_unavailable"));
    if negb admitted then throw (SameTransactionAuditWriteError "audit_rate_limited") else mret tt.

Definition assertOrgMayWriteAuditGates (orgId : Uuid) (eventType : string) (sizeBytes : Z) : M unit :=
  _ ← assertOrgMayWriteAuditAtRate orgId eventType;
  assertOrgMayWriteAudit orgId eventType sizeBytes.

(** ** What the refused caller records in its own transaction *)

Definition recordAuditQuotaRefusalBestEffort (orgId : Uuid) : M unit :=
  now ← dbNow;
  _ ← updateWhere db_usage (fun u => us_orgId u =? orgId)
    (fun u => u <| us_refusedWriteCount ::= Z.succ |> <| us_lastRefusalAt := Some now |>
                <| us_updatedAt := now |>);
  mret tt.

(** [Math.max(1, Math.ceil(remainingMs / 1000 + jitterSeconds))], on milliseconds. *)
Definition retryAfterSecondsFor (remainingMs jitterMs : Z) : Z :=
  Z.max 1 (- ((- (remainingMs + jitterMs)) / 1000))%Z.

Definition recordAuditRateRefusalBestEffort `{Platform} (orgId : Uuid) (jitterMs : Z) : M (option Z) :=
  now ← dbNow;
  rows ← updateWhere db_usage (fun u => us_orgId u =? orgId)
    (fun u => u <| us_rateRefusedCount ::= Z.succ |> <| us_lastRateRefusalAt := Some now |>
                <| us_updatedAt := now |>);
  match head rows ≫= us_rateWindowResetAt with
  | None => mret None
  | Some resetAt => d ← newDate; mret (Some (retryAfterSecondsFor (resetAt - d) jitterMs))
  end.

End gates.

(** ** The rows of an organisation *)

Definition usageOf (db : Db) (orgId : Uuid) : option UsageRow :=
  head (List.filter (fun u => us_orgId u =? orgId) (db_usage db)).
Definition quotaConfigOf (db : Db) (orgId : Uuid) : option QuotaConfigRow :=
  head (List.filter (fun c => qc_orgId c =? orgId) (db_quotaConfig db)).

(** Bytes charged to the organisation's quota; writes counted in its window. *)
Definition bytesUsed (db : Db) (orgId : Uuid) : Z :=
  match usageOf db orgId with Some u => us_bytesUsed u | None => 0 end.
Definition windowReset (db : Db) (orgId : Uuid) : option Date :=
  u ← usageOf db orgId; us_rateWindowResetAt u.
Definition windowCount (db : Db) (orgId : Uuid) : Z :=
  match usageOf db orgId with Some u => us_rateWindowCount u | None => 0 end.

(** Only the organisation's usage row changed. *)
Definition onlyUsage (orgId : Uuid) (w w' : World) : Prop :=
  (forall o, o <> orgId -> usageOf (w_db w') o = usageOf (w_db w) o) /\
  w' = w <| w_db := (w_db w) <| db_usage := db_usage (w_db w') |> |>.

Lemma onlyUsage_refl orgId w : onlyUsage orgId w w.
Proof. split; [done|]. destruct w as [db]. by destruct db. Qed.

Lemma head_filter_map_where {R} (p q : R -> bool) f l :
  (forall x, q (f x) = q x) ->
  head (List.filter q (map_where p f l)) =
    (fun x => if p x then f x else x) <$> head (List.filter q l).
Proof.
  intros Hq. induction l as [|x l IH]; [done|]. cbn. destruct (p x) eqn:Hp; rewrite ?Hq;
    destruct (q x); cbn; rewrite ?Hp; auto.
Qed.

Lemma usageOf_insert db row :
  (forall u, u ∈ db_usage db -> us_orgId u <> us_orgId row) ->
  usageOf (db <| db_usage := db_usage db ++ [row] |>) (us_orgId row) = Some row /\
  forall o, o <> us_orgId row ->
    usageOf (db <| db_usage := db_usage db ++ [row] |>) o = usageOf db o.
Proof.
  intros Hn. unfold usageOf. cbn. split; [|intros o Ho]; rewrite !List.filter_app.
  - rewrite lfilter_none by (intros u Hu; apply bool_decide_eq_false_2; by apply Hn).
    cbn. by rewrite bool_decide_eq_true_2.
  - cbn. rewrite bool_decide_eq_false_2 by done. by rewrite app_nil_r.
Qed.

Lemma usageOf_update db orgId f :
  (forall u, us_orgId (f u) = us_orgId u) ->
  let db' := db <| db_usage ::= map_where (fun u => us_orgId u =? orgId) f |> in
  usageOf db' orgId = f <$> usageOf db orgId /\
  forall o, o <> orgId -> usageOf db' o = usageOf db o.
Proof.
  intros Hf. unfold usageOf. cbn.
  assert (Hhd : forall o x, head (List.filter (fun u => us_orgId u =? o) (db_usage db)) = Some x -> us_orgId x = o).
  { intros o x Hx%head_elem_of. apply elem_of_lfilter in Hx as [Hx _]. by apply bool_decide_eq_true in Hx. }
  split; [|intros o Ho]; rewrite head_filter_map_where by (intros u; by rewrite Hf).
  - destruct (head _) as [x|] eqn:E; [|done]. cbn.
    rewrite bool_decide_eq_true_2; [done|]. by apply Hhd.
  - destruct (head _) as [x|] eqn:E; [|done]. cbn.
    rewrite bool_decide_eq_false_2; [done|]. by rewrite (Hhd o).
Qed.

Lemma usageOf_none db orgId : usageOf db orgId = None -> forall u, u ∈ db_usage db -> us_orgId u <> orgId.
Proof.
  intros E u Hu Eo. subst orgId. unfold usageOf in E.
  assert (Hin : u ∈ List.filter (fun x => us_orgId x =? us_orgId u) (db_usage db))
    by (apply elem_of_lfilter; by rewrite bool_decide_eq_true_2).
  destruct (List.filter _ _); [by apply not_elem_of_nil in Hin|done].
Qed.

Section gate_lemmas.
Context `{Env}.

(** The statement of a gate: an insertion of [new] or an update by [f], or a refusal. *)
Lemma insertUsage_spec orgId new w :
  usageOf (w_db w) orgId = None -> us_orgId new = orgId ->
  exists w', insertUsage new w = (Ok new, w') /\ onlyUsage orgId w w' /\
    usageOf (w_db w') orgId = Some new.
Proof.
  intros Hn <-. eexists. split; [|split].
  - apply insertRow_ok. intros u Hu. apply bool_decide_eq_false_2. intros E.
    by eapply (usageOf_none _ _ Hn).
  - split; [|by destruct w as [db]; destruct db]. cbn. apply usageOf_insert.
    intros u Hu. by eapply usageOf_none.
  - cbn. apply usageOf_insert. intros u Hu. by eapply usageOf_none.
Qed.

Lemma updateUsage_spec orgId f u w :
  usageOf (w_db w) orgId = Some u -> (forall x, us_orgId (f x) = us_orgId x) ->
  exists rows w', updateWhere db_usage (fun u => us_orgId u =? orgId) f w = (Ok rows, w') /\
    onlyUsage orgId w w' /\ usageOf (w_db w') orgId = Some (f u).
Proof.
  intros Hu Hf. destruct (usageOf_update (w_db w) orgId f Hf) as [H1 H2]. do 2 eexists.
  split; [reflexivity|]. split; [split|].
  - exact H2.
  - by destruct w as [db]; destruct db.
  - cbn in *. by rewrite H1, Hu.
Qed.

Lemma runGateStatement_spec orgId sizeBytes exempt preauth w :
  (0 <= bytesUsed (w_db w) orgId)%Z ->
  let used := bytesUsed (w_db w) orgId in
  let admitted := exempt || preauth
                  || within (resolveQuota orgId (quotaConfigOf (w_db w) orgId)) (used + sizeBytes) in
  exists w', runGateStatement orgId sizeBytes exempt preauth w = (Ok admitted, w') /\
    (admitted = false -> w' = w) /\
    (admitted = true -> onlyUsage orgId w w' /\
       bytesUsed (w_db w') orgId = (used + if preauth then 0 else sizeBytes)%Z /\
       windowCount (w_db w') orgId = windowCount (w_db w) orgId /\
       windowReset (w_db w') orgId = windowReset (w_db w) orgId).
Proof.
  unfold bytesUsed at 1. cbv zeta. intros Hpos.
  unfold runGateStatement, findQuotaConfig, findUsage, selectFirst, dbNow, mbind, M_bind.
  cbv beta iota zeta. fold (quotaConfigOf (w_db w) orgId). fold (usageOf (w_db w) orgId).
  set (quota := resolveQuota _ _). unfold bytesUsed, windowCount, windowReset.
  destruct (usageOf (w_db w) orgId) as [u|] eqn:Eu.
  - assert (Himp : within quota (us_bytesUsed u + sizeBytes) = true -> within quota sizeBytes = true).
    { unfold within. destruct quota; [|done]. intros Hq. bool_simpl. apply bool_decide_eq_true_2. lia. }
    destruct (exempt || preauth) eqn:Ee; cbn [orb negb].
    + edestruct (updateUsage_spec orgId) as (rows & w' & E & Ho & Hu'); [exact Eu| |rewrite E]; [done|].
      exists w'. rewrite Hu'. split; [done|]. split; [done|]. intros _. split; [done|]. cbn.
      split; [destruct preauth; lia|done].
    + destruct (within quota (us_bytesUsed u + sizeBytes)) eqn:Eq; cbn [negb].
      * rewrite Himp by done. cbn [negb].
        edestruct (updateUsage_spec orgId) as (rows & w' & E & Ho & Hu'); [exact Eu| |rewrite E]; [done|].
        exists w'. rewrite Hu'. split; [done|]. split; [done|]. intros _. split; [done|]. cbn.
        split; [destruct preauth; lia|done].
      * exists w. split; [|done]. by destruct (within quota sizeBytes).
  - rewrite Z.add_0_l. destruct (_ || within quota sizeBytes) eqn:Ea; cbn [negb]; [|by exists w].
    edestruct (insertUsage_spec orgId) as (w' & E & Ho & Hu'); [exact Eu| |rewrite E]; [done|].
    exists w'. rewrite Hu'. split; [done|]. split; [done|]. intros _. split; [done|]. cbn.
    by destruct preauth.
Qed.

Lemma runRateGateStatement_spec orgId exempt preauth w :
  (0 <= windowCount (w_db w) orgId)%Z ->
  let count := nextCount (windowReset (w_db w) orgId) (w_now w) (windowCount (w_db w) orgId) in
  let admitted := exempt || preauth || within (resolveRateLimit (quotaConfigOf (w_db w) orgId)) count in
  exists w', runRateGateStatement orgId exempt preauth w = (Ok admitted, w') /\
    (admitted = false -> w' = w) /\
    (admitted = true -> onlyUsage orgId w w' /\
       bytesUsed (w_db w') orgId = bytesUsed (w_db w) orgId /\
       windowCount (w_db w') orgId = (if preauth then windowCount (w_db w) orgId else count) /\
       windowReset (w_db w') orgId =
         (if preauth then windowReset (w_db w) orgId
          else nextReset (windowReset (w_db w) orgId) (w_now w))).
Proof.
  unfold windowCount, windowReset, bytesUsed. intros Hpos.
  unfold runRateGateStatement, findQuotaConfig, findUsage, selectFirst, dbNow, mbind, M_bind.
  cbv beta iota zeta. fold (quotaConfigOf (w_db w) orgId). fold (usageOf (w_db w) orgId).
  set (limit := resolveRateLimit _). destruct (usageOf (w_db w) orgId) as [u|] eqn:Eu; cbn [option_bind].
  - set (count := nextCount _ _ _).
    assert (Himp : within limit count = true -> within limit 1 = true).
    { unfold within. destruct limit; [|done]. intros Hq. bool_simpl. apply bool_decide_eq_true_2.
      unfold count, nextCount in Hq. destruct (windowClosed _ _); lia. }
    destruct (exempt || preauth || within limit count) eqn:Ea; cycle 1.
    { exists w. split; [|done]. cbn [negb]. by destruct (_ || within limit 1). }
    assert (Eb : exempt || preauth || within limit 1 = true).
    { destruct (exempt || preauth); [done|]. by apply Himp. }
    rewrite Eb. cbn [negb].
    edestruct (updateUsage_spec orgId) as (rows & w' & E & Ho & Hu'); [exact Eu| |rewrite E].
    { by destruct preauth. }
    exists w'. rewrite Hu'. split; [done|]. split; [done|]. intros _. split; [done|]. by destruct preauth.
  - change (nextCount None (w_now w) 0) with 1%Z.
    destruct (_ || within limit 1) eqn:Ea; cbn [negb]; [|by exists w].
    edestruct (insertUsage_spec orgId) as (w' & E & Ho & Hu'); [exact Eu| |rewrite E]; [done|].
    exists w'. rewrite Hu'. split; [done|]. split; [done|]. intros _. split; [done|]. by destruct preauth.
Qed.

(** The storage gate, with enforcement on, admits a write exactly when its
    event type is exempt or attributable to unauthenticated callers, or the
    organisation has no quota, or its bytes stay within it: the bytes before
    authentication are no part of the decision. An admitted write is charged
    to its own organisation only, unless it is unauthenticated, and leaves the
    rate window alone; a refused one throws [audit_quota_exhausted] and
    changes nothing. *)
Theorem assertOrgMayWriteAudit_spec orgId eventType sizeBytes w
    (Henforced : AUDIT_ORG_QUOTA_ENFORCEMENT_ENABLED = true)
    (Hcheck : (0 <= bytesUsed (w_db w) orgId)%Z) :
  let quota := resolveQuota orgId (quotaConfigOf (w_db w) orgId) in
  let used := bytesUsed (w_db w) orgId in
  let admitted := isExempt eventType || isPreauth eventType || within quota (used + sizeBytes) in
  if admitted
  then exists w', assertOrgMayWriteAudit orgId eventType sizeBytes w = (Ok tt, w') /\
         onlyUsage orgId w w' /\
         bytesUsed (w_db w') orgId = (used + if isPreauth eventType then 0 else sizeBytes)%Z /\
         windowCount (w_db w') orgId = windowCount (w_db w) orgId
  else assertOrgMayWriteAudit orgId eventType sizeBytes w =
         (Throw (SameTransactionAuditWriteError "audit_quota_exhausted"), w).
Proof.
  cbv zeta. unfold assertOrgMayWriteAudit. rewrite Henforced. cbn [negb].
  destruct (runGateStatement_spec orgId sizeBytes (isExempt eventType) (isPreauth eventType) w Hcheck)
    as (w' & E & Hno & Hyes).
  unfold mbind, M_bind, catch. rewrite E. destruct (_ || within _ _); cbn [negb].
  - exists w'. destruct (Hyes eq_refl) as (? & ? & ? & _). done.
  - by rewrite (Hno eq_refl).
Qed.

Lemma rateGate_spec orgId eventType w
    (Henforced : AUDIT_ORG_WRITE_RATE_ENFORCEMENT_ENABLED = true)
    (Hcheck : (0 <= windowCount (w_db w) orgId)%Z) :
  let limit := resolveRateLimit (quotaConfigOf (w_db w) orgId) in
  let reset := windowReset (w_db w) orgId in
  let count := nextCount reset (w_now w) (windowCount (w_db w) orgId) in
  let admitted := isExempt eventType || isPreauth eventType || within limit count in
  if admitted
  then exists w', assertOrgMayWriteAuditAtRate orgId eventType w = (Ok tt, w') /\
         onlyUsage orgId w w' /\
         bytesUsed (w_db w') orgId = bytesUsed (w_db w) orgId /\
         windowCount (w_db w') orgId = (if isPreauth eventType then windowCount (w_db w) orgId else count) /\
         windowReset (w_db w') orgId = (if isPreauth eventType then reset else nextReset reset (w_now w))
  else assertOrgMayWriteAuditAtRate orgId eventType w =
         (Throw (SameTransactionAuditWriteError "audit_rate_limited"), w).
Proof.
  cbv zeta. unfold assertOrgMayWriteAuditAtRate. rewrite Henforced. cbn [negb].
  destruct (runRateGateStatement_spec orgId (isExempt eventType) (isPreauth eventType) w Hcheck)
    as (w' & E & Hno & Hyes).
  unfold mbind, M_bind, catch. rewrite E. destruct (_ || within _ _); cbn [negb].
  - exists w'. destruct (Hyes eq_refl) as (? & ? & ? & ?). done.
  - by rewrite (Hno eq_refl).
Qed.

(** A run of writes by one organisation, each in a transaction of its own at
    its own time: how many of them the rate gate admits. *)
Fixpoint admittedWrites (orgId : Uuid) (writes : list (Date * string)) (w : World) : nat :=
  match writes with
  | [] => 0
  | (now, eventType) :: writes' =>
      match assertOrgMayWriteAuditAtRate orgId eventType (w <| w_now := now |>) with
      | (Ok _, w') => S (admittedWrites orgId writes' w')
      | (Throw _, _) => admittedWrites orgId writes' w
      end
  end.

Definition ordinary (eventType : string) : Prop := classifyAuditWriteExemption eventType = None.

Lemma ordinary_gates eventType : ordinary eventType -> isExempt eventType = false /\ isPreauth eventType = false.
Proof. unfold ordinary, isExempt, isPreauth. by intros ->. Qed.

(** Writes after the window opened and before it closes. *)
Lemma admittedWrites_open orgId writes w limit reset :
  AUDIT_ORG_WRITE_RATE_ENFORCEMENT_ENABLED = true ->
  resolveRateLimit (quotaConfigOf (w_db w) orgId) = Some limit ->
  windowReset (w_db w) orgId = Some reset ->
  Forall (fun e => (e.1 < reset)%Z /\ ordinary e.2) writes ->
  (0 <= windowCount (w_db w) orgId <= limit)%Z ->
  (windowCount (w_db w) orgId + Z.of_nat (admittedWrites orgId writes w) <= limit)%Z.
Proof.
  intros He. revert w. induction writes as [|[now ev] writes IH]; intros w Hl Hr Hall Hc; [cbn; lia|].
  apply Forall_cons in Hall as [[Hnow Hord] Hall]. cbn in Hnow, Hord.
  destruct (ordinary_gates _ Hord) as [Eex Epre]. cbn [admittedWrites].
  pose proof (rateGate_spec orgId ev (w <| w_now := now |>) He) as Hgate. cbn [w_db w_now setter] in Hgate.
  cbv zeta in Hgate. specialize (Hgate ltac:(lia)). rewrite Eex, Epre, Hl, Hr in Hgate.
  assert (Hclosed : windowClosed (Some reset) now = false) by (apply bool_decide_eq_false_2; lia).
  unfold nextCount, nextReset in Hgate. rewrite Hclosed in Hgate. cbn [orb] in Hgate.
  destruct (within (Some limit) _) eqn:Ew.
  - destruct Hgate as (w' & E & [_ Hw'] & _ & Ec & Er).
    replace (w <| w_now := now |>) with (MkWorld (w_db w) (w_tick w) now (w_locks w) (w_rowLocks w)
      (w_onWait w) (w_activeKey w) (w_primaryKey w) (w_auditKey w) (w_activity w) (w_orgActivity w) (w_failedAttempts w)) in * by done.
    rewrite E. unfold within in Ew. bool_simpl. specialize (IH w'). rewrite Ec in IH.
    assert (Hcfg : quotaConfigOf (w_db w') orgId = quotaConfigOf (w_db w) orgId) by by rewrite Hw'.
    rewrite Hcfg in IH. specialize (IH Hl Er Hall ltac:(lia)). lia.
  - replace (w <| w_now := now |>) with (MkWorld (w_db w) (w_tick w) now (w_locks w) (w_rowLocks w)
      (w_onWait w) (w_activeKey w) (w_primaryKey w) (w_auditKey w) (w_activity w) (w_orgActivity w) (w_failedAttempts w)) in * by done.
    rewrite Hgate. by apply IH.
Qed.

(** While a rate window is open, the ordinary writes of an organisation
    that the gate admits never exceed what is left of its limit, whatever the
    order and the times of the writes. *)
Theorem rate_window_bound orgId writes w limit reset
    (Henforced : AUDIT_ORG_WRITE_RATE_ENFORCEMENT_ENABLED = true)
    (Hlimit : resolveRateLimit (quotaConfigOf (w_db w) orgId) = Some limit)
    (Hopen : windowReset (w_db w) orgId = Some reset)
    (Hwrites : Forall (fun e => (e.1 < reset)%Z /\ ordinary e.2) writes)
    (Hcount : (0 <= windowCount (w_db w) orgId <= limit)%Z) :
  (Z.of_nat (admittedWrites orgId writes w) <= limit - windowCount (w_db w) orgId)%Z.
Proof.
  pose proof (admittedWrites_open orgId writes w limit reset Henforced Hlimit Hopen Hwrites Hcount). lia.
Qed.

(** Exempt events are always admitted, but they count in the same window
    as the ordinary ones: when the window has room for one write, an exempt
    write takes it and the next ordinary write of the window is refused. (The
    schema says that the column counts the writes that are not exempt.) *)
Theorem exempt_write_consumes_window orgId exemptEvent ordinaryEvent w limit reset
    (Henforced : AUDIT_ORG_WRITE_RATE_ENFORCEMENT_ENABLED = true)
    (Hlimit : resolveRateLimit (quotaConfigOf (w_db w) orgId) = Some limit)
    (Hopen : windowReset (w_db w) orgId = Some reset) (Hnow : (w_now w < reset)%Z)
    (Hcount : windowCount (w_db w) orgId = (limit - 1)%Z) (Hpos : (0 < limit)%Z)
    (Hexempt : isExempt exemptEvent = true) (Hordinary : ordinary ordinaryEvent) :
  exists w', assertOrgMayWriteAuditAtRate orgId exemptEvent w = (Ok tt, w') /\
    assertOrgMayWriteAuditAtRate orgId ordinaryEvent w' =
      (Throw (SameTransactionAuditWriteError "audit_rate_limited"), w').
Proof.
  destruct (ordinary_gates _ Hordinary) as [Eex Epre].
  assert (Hpre : isPreauth exemptEvent = false).
  { unfold isExempt in Hexempt. unfold isPreauth. by destruct (classifyAuditWriteExemption _) as [[]|]. }
  assert (Hclosed : windowClosed (Some reset) (w_now w) = false) by (apply bool_decide_eq_false_2; lia).
  pose proof (rateGate_spec orgId exemptEvent w Henforced ltac:(lia)) as H1. cbv zeta in H1.
  rewrite Hexempt, Hpre, Hopen in H1. unfold nextCount, nextReset in H1. rewrite Hclosed in H1.
  cbn [orb] in H1. destruct H1 as (w' & E & [_ Hw'] & _ & Ec & Er). exists w'. split; [done|].
  assert (Hcfg : quotaConfigOf (w_db w') orgId = quotaConfigOf (w_db w) orgId) by by rewrite Hw'.
  assert (Hn : w_now w' = w_now w) by by rewrite Hw'.
  pose proof (rateGate_spec orgId ordinaryEvent w' Henforced ltac:(lia)) as H2. cbv zeta in H2.
  rewrite Eex, Epre, Hcfg, Hlimit, Er, Hn in H2. unfold nextCount in H2. rewrite Hclosed in H2.
  unfold within in H2. rewrite bool_decide_eq_false_2 in H2 by lia. done.
Qed.
End gate_lemmas.

(** ** Witnesses: a limit of two writes a minute, and a quota of one megabyte *)

Definition usageDb (bytes count : Z) (reset : option Date) : Db :=
  emptyDb <| db_usage := [(newUsage 1 0) <| us_bytesUsed := bytes |>
               <| us_rateWindowCount := count |> <| us_rateWindowResetAt := reset |>] |>.

Lemma assertOrgMayWriteAudit_spec_witness :
  @assertOrgMayWriteAudit toyEnv 1 "credential.created" 600 (worldOf (usageDb 1048000 0 None)) =
    (Throw (SameTransactionAuditWriteError "audit_quota_exhausted"), worldOf (usageDb 1048000 0 None)).
Proof.
  refine (@assertOrgMayWriteAudit_spec toyEnv 1 "credential.created" 600
    (worldOf (usageDb 1048000 0 None)) eq_refl _). by vm_compute.
Defined.

Lemma rate_window_bound_witness :
  let w := worldOf (usageDb 0 1 (Some 1700000030000%Z)) in
  (Z.of_nat (@admittedWrites toyEnv 1 [(1700000010000%Z, "credential.created");
     (1700000020000%Z, "credential.created")] w) <= 2 - windowCount (w_db w) 1)%Z.
Proof.
  apply (@rate_window_bound toyEnv 1 _ _ 2 1700000030000); try reflexivity.
  - repeat constructor; cbn; lia.
  - by vm_compute.
Defined.

Lemma exempt_write_consumes_window_witness :
  exists w', @assertOrgMayWriteAuditAtRate toyEnv 1 "SESSION_CREATED"
      (worldOf (usageDb 0 1 (Some 1700000030000%Z))) = (Ok tt, w') /\
    @assertOrgMayWriteAuditAtRate toyEnv 1 "credential.created" w' =
      (Throw (SameTransactionAuditWriteError "audit_rate_limited"), w').
Proof.
  apply (@exempt_write_consumes_window toyEnv 1 _ _ _ 2 1700000030000); try reflexivity; by vm_compute.
Defined.
