(* ===== verification/AuditLog.v ===== *)
(** * The audit chain: modules/audit/write-entry.ts, human-entry.ts,
      machine-entry.ts, extension-entry.ts, verify.ts, lib/system-audit-row.ts,
      workers/audit-retention-prune.ts

    Every audit row carries the HMAC of its canonical JSON and of the HMAC of
    the row before it in its organisation's chain.  The writers append to the
    chain, [verifyAuditRange] walks it, and the retention worker deletes the
    oldest rows and attests the gap it leaves.  The chain's advisory lock
    ([pg_advisory_xact_lock]) only makes writers wait for each other: here their
    transactions follow one another.  Columns of type [jsonb] hold the JSON
    value that was inserted; that the order in which PostgreSQL gives back the
    members of an object does not matter is [sortKeys_canonical]. *)

From S2P Require Import Prelude Js Crypto FieldSet Store Tx QuotaGate.
From Stdlib Require Import Ascii String.
From stdpp Require Import strings pretty.

Local Open Scope string_scope.
Local Open Scope list_scope.
Local Open Scope pv_scope.

(** ** Canonical JSON: write-entry.ts *)

(** The value of a canonical array index ([0] to [2^32 - 2]), which objects
    enumerate before their other keys, in ascending order. *)
Fixpoint decimalValue (acc : N) (s : string) : option N :=
  match s with
  | EmptyString => Some acc
  | String c s' =>
      if (48 <=? code c)%N && (code c <=? 57)%N then decimalValue (acc * 10 + (code c - 48)) s' else None
  end.

Definition arrayIndex (s : string) : option N :=
  match s with
  | EmptyString => None
  | String c s' =>
      if (c =? "0"%char) && negb (s' =? EmptyString) then None
      else n ← decimalValue 0 s; if (n <? 4294967295)%N then Some n else None
  end.

Definition indexOf {V} (kv : string * V) : N := default 0%N (arrayIndex kv.1).

(** [Object.fromEntries], on distinct keys. *)
Definition fromEntries {V} (entries : list (string * V)) : list (string * V) :=
  isort (fun a b => (indexOf a <=? indexOf b)%N) (List.filter (fun kv => isNotNull (arrayIndex kv.1)) entries)
  ++ List.filter (fun kv => isNull (arrayIndex kv.1)) entries.

Definition keyLe `{Locale} {V} (a b : string * V) : bool :=
  match localeCompare a.1 b.1 with Gt => false | _ => true end.

(** The comparison of [sort] reads the keys only, so the values may be mapped first. *)
Fixpoint sortKeys `{Locale} (value : Json) : Json :=
  match value with
  | JArr items => JArr (map sortKeys items)
  | JObj members => JObj (fromEntries (isort keyLe (map (fun kv => (kv.1, sortKeys kv.2)) members)))
  | _ => value
  end.

Record AuditLogEntryHmacFields := MkAuditLogEntryHmacFields {
  hf_orgId : Uuid;
  hf_actorTokenId : option Uuid;
  hf_actorType : string;
  hf_eventType : string;
  hf_resourceId : option Uuid;
  hf_resourceType : option string;
  hf_payload : Json;
  hf_keyVersion : Z;
  hf_previousEntryHmac : string;
}.

(** A member whose value is [undefined] is left out. *)
Definition optionalMember (k : string) (v : option Json) : list (string * Json) :=
  match v with Some j => [(k, j)] | None => [] end.

Definition hmacObject (f : AuditLogEntryHmacFields) : Json :=
  JObj ([("orgId", JUuid (hf_orgId f)); ("actorTokenId", JOptUuid (hf_actorTokenId f));
         ("actorType", JStr (hf_actorType f)); ("eventType", JStr (hf_eventType f))]
        ++ optionalMember "resourceId" (JUuid <$> hf_resourceId f)
        ++ optionalMember "resourceType" (JStr <$> hf_resourceType f)
        ++ [("payload", hf_payload f); ("keyVersion", JInt (hf_keyVersion f));
            ("previousEntryHmac", JStr (hf_previousEntryHmac f))]).

Definition GENESIS_SENTINEL : string := "GENESIS".

Section audit.
Context `{Locale, Platform, NodeCrypto, Env}.

Definition canonicalJson (f : AuditLogEntryHmacFields) : string := stringify (sortKeys (hmacObject f)).

Definition computeAuditHmac (fields : AuditLogEntryHmacFields) (auditKey : string) : string :=
  hmacSha256Hex auditKey (canonicalJson fields).

(** ** The head of the chain *)

(** key-version.ts *)
Definition currentAuditKeyVersion : M Z :=
  vs ← selectFirst db_vaultState (fun _ => true);
  mret (match vs with Some v => vs_auditKeyVersion v | None => 1%Z end).

(** [ORDER BY chain_seq DESC LIMIT 1] *)
Definition getPreviousEntryHmac (orgId : Uuid) : M (option string) :=
  row ← selectFirstOrdered db_audit (fun r => al_orgId r =? orgId)
          (fun a b => al_chainSeq b <=? al_chainSeq a);
  mret (al_hmac <$> row).

Definition readAuditChainHead (orgId : Uuid) : M (Z * option string) :=
  keyVersion ← currentAuditKeyVersion;
  previousEntryHmac ← getPreviousEntryHmac orgId;
  mret (keyVersion, previousEntryHmac).

(** ** The writers *)

(** The columns outside the HMAC. *)
Record Unsigned := MkUnsigned {
  un_projectId : option Uuid;
  un_ipAddress : option string;
  un_userAgent : option string;
  un_revealedFields : option (list string);
}.
#[export] Instance Eta_Unsigned : Eta Unsigned := fun u =>
  MkUnsigned (un_projectId u) (un_ipAddress u) (un_userAgent u) (un_revealedFields u).
Definition noUnsigned : Unsigned := MkUnsigned None None None None.

(** The identity sequence of the table. *)
Definition nextChainSeq : M Z := fun w =>
  let seq := (db_auditSeq (w_db w) + 1)%Z in
  (Ok seq, w <| w_db := (w_db w) <| db_auditSeq := seq |> |>).

(** [INSERT INTO audit_log_entries ... RETURNING *]; the identifier is a primary key. *)
Definition insertAuditRow (f : AuditLogEntryHmacFields) (resourceId : option Uuid)
    (previousHmac : option string) (hmac : string) (u : Unsigned) : M AuditRow :=
  id ← genRandomUuid;
  now ← dbNow;
  seq ← nextChainSeq;
  insertRow db_audit (fun new old => al_id new =? al_id old)
    {| al_id := id; al_chainSeq := seq; al_orgId := hf_orgId f; al_projectId := un_projectId u;
       al_actorTokenId := hf_actorTokenId f; al_actorType := hf_actorType f;
       al_eventType := hf_eventType f; al_resourceId := resourceId;
       al_resourceType := hf_resourceType f; al_ipAddress := un_ipAddress u;
       al_userAgent := un_userAgent u; al_payload := hf_payload f;
       al_revealedFields := un_revealedFields u; al_keyVersion := hf_keyVersion f;
       al_hmac := hmac; al_createdAt := now; al_previousEntryHmac := previousHmac |}.

(** What every writer does once the gates let it through. *)
Definition appendAuditRow (orgId : Uuid) (actorTokenId : option Uuid) (actorType eventType : string)
    (resourceId : option Uuid) (resourceType : option string) (payload : Json)
    (storedResourceId : option Uuid) (u : Unsigned) : M AuditRow :=
  '(keyVersion, previousHmac) ← readAuditChainHead orgId;
  auditKey ← getAuditKey;
  let fields := {| hf_orgId := orgId; hf_actorTokenId := actorTokenId; hf_actorType := actorType;
                   hf_eventType := eventType; hf_resourceId := resourceId;
                   hf_resourceType := resourceType; hf_payload := payload;
                   hf_keyVersion := keyVersion;
                   hf_previousEntryHmac := default GENESIS_SENTINEL previousHmac |} in
  insertAuditRow fields storedResourceId previousHmac (computeAuditHmac fields auditKey) u.

Record AuditFields := MkAuditFields {
  af_orgId : Uuid;
  af_actorTokenId : option Uuid;        (* human entries only *)
  af_eventType : string;
  af_resourceId : option Uuid;
  af_resourceType : option string;
  af_payload : list (string * Json);
  af_unsigned : Unsigned;
}.

(** human-entry.ts *)
Definition writeHumanAuditEntry (fields : AuditFields) : M AuditRow :=
  let payload := JObj (af_payload fields) in
  _ ← assertOrgMayWriteAuditGates (af_orgId fields) (af_eventType fields)
        (estimateAuditEntrySizeBytes payload (af_resourceId fields) (af_resourceType fields)
           (un_revealedFields (af_unsigned fields)));
  appendAuditRow (af_orgId fields) (af_actorTokenId fields) "human" (af_eventType fields)
    (af_resourceId fields) (af_resourceType fields) payload (af_resourceId fields) (af_unsigned fields).

(** [{ ...members, [k]: v }] *)
Fixpoint spreadSet (members : list (string * Json)) (k : string) (v : Json) : list (string * Json) :=
  match members with
  | [] => [(k, v)]
  | (k', v') :: members' => if k' =? k then (k', v) :: members' else (k', v') :: spreadSet members' k v
  end.

(** machine-entry.ts *)
Definition writeMachineAuditEntry (fields : AuditFields) (machineUserId : string) (keyId : option string)
    : M AuditRow :=
  let payload := JObj (spreadSet (spreadSet (af_payload fields) "machineUserId" (JStr machineUserId))
                         "keyId" (match keyId with Some k => JStr k | None => JNull end)) in
  _ ← assertOrgMayWriteAuditGates (af_orgId fields) (af_eventType fields)
        (estimateAuditEntrySizeBytes payload (af_resourceId fields) (af_resourceType fields)
           (un_revealedFields (af_unsigned fields)));
  appendAuditRow (af_orgId fields) None "machine_user" (af_eventType fields)
    (af_resourceId fields) (af_resourceType fields) payload (af_resourceId fields)
    ((af_unsigned fields) <| un_projectId := None |>).

Definition writeSystemAuditEntry (orgId : Uuid) (eventType : string) (resourceId : option Uuid)
    (resourceType : option string) (payload : list (string * Json)) : M AuditRow :=
  _ ← assertOrgMayWriteAuditGates orgId eventType
        (estimateAuditEntrySizeBytes (JObj payload) resourceId resourceType None);
  appendAuditRow orgId None "system" eventType resourceId resourceType (JObj payload) resourceId noUnsigned.

(** extension-entry.ts *)
Definition PV_ATTRIBUTION_KEY : string := "pvAttribution".

Definition writeExtensionAuditEntry (fields : AuditFields) (extensionName : string)
    (attribution : option Json) : M (Uuid * Date) :=
  let members := match attribution with
                 | Some a => spreadSet (af_payload fields) PV_ATTRIBUTION_KEY a
                 | None => af_payload fields
                 end in
  let payload := JObj (spreadSet members "extensionName" (JStr extensionName)) in
  _ ← assertOrgMayWriteAuditGates (af_orgId fields) (af_eventType fields)
        (estimateAuditEntrySizeBytes payload (af_resourceId fields) (af_resourceType fields) None);
  row ← appendAuditRow (af_orgId fields) None "extension" (af_eventType fields)
          (af_resourceId fields) (af_resourceType fields) payload (af_resourceId fields) noUnsigned;
  mret (al_id row, al_createdAt row).

(** lib/system-audit-row.ts: the resource is stored but not part of the HMAC. *)
Definition writeSystemAuditRow (orgId : Uuid) (eventType : string) (resourceId : option Uuid)
    (payload : list (string * Json)) : M AuditRow :=
  _ ← assertOrgMayWriteAuditGates orgId eventType
        (estimateAuditEntrySizeBytes (JObj payload) resourceId None None);
  appendAuditRow orgId None "system" eventType None None (JObj payload) resourceId noUnsigned.

(** ** Verification: verify.ts *)

Definition AUDIT_VERIFY_MAX_RANGE_DAYS : Z := 90.
Definition AUDIT_VERIFY_MAX_ROWS : nat := 50000.
Definition FAILED_ENTRIES_CAP : nat := 500.
Definition RETENTION_PURGE_BOUNDARY : string := "audit.retention_purge_boundary".

Inductive VerifyFailureReason := hmac_mismatch | key_version_mismatch | chain_break.

Record VerifyFailedEntry := MkVerifyFailedEntry {
  vf_id : Uuid;
  vf_eventType : string;
  vf_timestamp : string;
  vf_reason : VerifyFailureReason;
}.

Record VerifyResult := MkVerifyResult {
  vr_summary : string;
  vr_rowsChecked : nat;
  vr_passed : nat;
  vr_failed : list VerifyFailedEntry;
  vr_failedCount : nat;
  vr_failedTruncated : bool;
  vr_verifiedAt : string;
}.

(** [from] and [to] parsed. *)
Definition validateVerifyRange (from to : Date) (maxRangeDays : Z) : Outcome (Date * Date) :=
  if to <? from then Throw InvalidRangeError
  else if maxRangeDays * MS_PER_DAY <? to - from then Throw RangeTooLargeError
  else Ok (from, to).

Definition showNat (n : nat) : string := pretty (N.of_nat n).

Definition buildVerifySummary (rowsChecked passed failedCount : nat) : string :=
  if rowsChecked =? 0%nat then "No records found in this range"
  else if failedCount =? 0%nat
  then "All " +:+ showNat rowsChecked +:+ " records verified — no tampering detected"
  else showNat passed +:+ " of " +:+ showNat rowsChecked +:+ " records verified — "
       +:+ showNat failedCount +:+ " record" +:+ (if failedCount =? 1%nat then "" else "s")
       +:+ " failed integrity check".

Definition finalizeVerifyResult (rowsChecked passed : nat) (failed : list VerifyFailedEntry)
    (failedCount : nat) : M VerifyResult :=
  now ← newDate;
  mret {| vr_summary := buildVerifySummary rowsChecked passed failedCount;
          vr_rowsChecked := rowsChecked; vr_passed := passed; vr_failed := failed;
          vr_failedCount := failedCount;
          vr_failedTruncated := bool_decide (length failed < failedCount)%nat;
          vr_verifiedAt := toISOString now |}.

Definition hmacMatches (stored recomputed : string) : bool :=
  let storedBuffer := fromHex stored in
  let recomputedBuffer := fromHex recomputed in
  if negb (String.length storedBuffer =? String.length recomputedBuffer) then false
  else if String.length storedBuffer =? 0%nat then false
  else storedBuffer =? recomputedBuffer.

(** The text of [payload ->> k], for a member that is no array or object. *)
Definition payloadText (k : string) (payload : Json) : option string :=
  match payload with
  | JObj members =>
      match getProp k members with
      | Some (JStr s) => Some s
      | Some (JNum l) => Some l
      | Some (JBool b) => Some (if b then "true" else "false")
      | _ => None
      end
  | _ => None
  end.

Definition attestsGap (orgId : Uuid) (orphanedHash : string) (r : AuditRow) : bool :=
  (al_orgId r =? orgId) && (al_eventType r =? RETENTION_PURGE_BOUNDARY)
  && (payloadText "attestedGapHash" (al_payload r) =? Some orphanedHash).

Definition hasAttestedGap (orgId : Uuid) (orphanedHash : string) : M bool :=
  rows ← selectFirst db_audit (attestsGap orgId orphanedHash);
  mret (isNotNull rows).

(** The fields verification hashes. *)
Definition storedFields (row : AuditRow) : AuditLogEntryHmacFields :=
  {| hf_orgId := al_orgId row; hf_actorTokenId := al_actorTokenId row;
     hf_actorType := al_actorType row; hf_eventType := al_eventType row;
     hf_resourceId := al_resourceId row; hf_resourceType := al_resourceType row;
     hf_payload := al_payload row; hf_keyVersion := al_keyVersion row;
     hf_previousEntryHmac := default GENESIS_SENTINEL (al_previousEntryHmac row) |}.

Definition evaluateAuditRow (row : AuditRow) (auditKey : string) (currentKeyVersion : Z)
    (expectedPreviousHmac : option string) : M (option VerifyFailureReason * string) :=
  let recomputed := computeAuditHmac (storedFields row) auditKey in
  let hmacOk := hmacMatches (al_hmac row) recomputed in
  let keyVersionOk := al_keyVersion row =? currentKeyVersion in
  chainOk ← (if al_previousEntryHmac row =? expectedPreviousHmac then mret true
             else match al_previousEntryHmac row with
                  | Some orphan => hasAttestedGap (al_orgId row) orphan
                  | None => mret false
                  end);
  mret (if negb hmacOk then Some hmac_mismatch
        else if negb keyVersionOk then Some key_version_mismatch
        else if negb chainOk then Some chain_break else None, al_hmac row).

(** The state of the walk: the rows that passed, the entries reported, the
    failures and the HMAC the next row must carry. *)
Record Walk := MkWalk {
  wk_passed : nat;
  wk_failed : list VerifyFailedEntry;
  wk_failedCount : nat;
  wk_expected : option string;
}.

Definition recordOutcome (st : Walk) (row : AuditRow) (reason : option VerifyFailureReason) : Walk :=
  match reason with
  | None => MkWalk (S (wk_passed st)) (wk_failed st) (wk_failedCount st) (Some (al_hmac row))
  | Some why =>
      MkWalk (wk_passed st)
        (if bool_decide (length (wk_failed st) < FAILED_ENTRIES_CAP)%nat
         then wk_failed st ++ [MkVerifyFailedEntry (al_id row) (al_eventType row)
                                 (toISOString (al_createdAt row)) why]
         else wk_failed st)
        (S (wk_failedCount st)) (Some (al_hmac row))
  end.

Definition verifyRow (auditKey : string) (currentKeyVersion : Z) (st : Walk) (row : AuditRow) : M Walk :=
  '(reason, _) ← evaluateAuditRow row auditKey currentKeyVersion (wk_expected st);
  mret (recordOutcome st row reason).

Definition seqLe (a b : AuditRow) : bool := al_chainSeq a <=? al_chainSeq b.

Definition inRange (from to : Date) (r : AuditRow) : bool :=
  (from <=? al_createdAt r) && (al_createdAt r <? to).

Definition verifyAuditRange (from to : Date) : M VerifyResult :=
  '(fromDate, toDate) ← lift (validateVerifyRange from to AUDIT_VERIFY_MAX_RANGE_DAYS);
  auditKey ← getAuditKey;
  allRows ← selectOrdered db_audit (inRange fromDate toDate) seqLe;
  let rows := take (S AUDIT_VERIFY_MAX_ROWS) allRows in
  if bool_decide (AUDIT_VERIFY_MAX_ROWS < length rows)%nat then throw RangeTooLargeError
  else
    currentKeyVersion ← currentAuditKeyVersion;
    expectedPreviousHmac ← match rows with
      | [] => mret None
      | firstRow :: _ =>
          predecessor ← selectFirstOrdered db_audit
            (fun r => (al_orgId r =? al_orgId firstRow) && (al_chainSeq r <? al_chainSeq firstRow))
            (fun a b => al_chainSeq b <=? al_chainSeq a);
          mret (al_hmac <$> predecessor)
      end;
    st ← foldM (verifyRow auditKey currentKeyVersion) (MkWalk 0 [] 0 expectedPreviousHmac) rows;
    finalizeVerifyResult (length rows) (wk_passed st) (wk_failed st) (wk_failedCount st).

(** ** Retention: workers/audit-retention-prune.ts, one organisation *)

(** migrations/0036: purge_expired_audit_log_entries *)
Definition purgeExpiredAuditLogEntries (orgId : Uuid) (cutoff : Date) : M nat :=
  rows ← selectWhere db_audit (fun r => (al_orgId r =? orgId) && (al_createdAt r <? cutoff));
  _ ← deleteWhere db_audit (fun r => (al_orgId r =? orgId) && (al_createdAt r <? cutoff));
  mret (length rows).

Definition pruneOrgAuditLogEntries (orgId : Uuid) : M unit :=
  config ← selectFirst db_retention (fun r => ar_orgId r =? orgId);
  match config ≫= ar_retentionDays with
  | None => mret tt
  | Some retentionDays =>
      now ← newDate;
      let cutoff := (now - retentionDays * MS_PER_DAY)%Z in
      survivor ← selectFirstOrdered db_audit
        (fun r => (al_orgId r =? orgId) && (cutoff <=? al_createdAt r)) seqLe;
      let expectedGapHash := survivor ≫= al_previousEntryHmac in
      deleted ← purgeExpiredAuditLogEntries orgId cutoff;
      match expectedGapHash with
      | Some gap =>
          if bool_decide (0 < deleted)%nat then
            _ ← writeSystemAuditEntry orgId RETENTION_PURGE_BOUNDARY None None
                  [("retentionDays", JInt retentionDays); ("cutoff", JStr (toISOString cutoff));
                   ("deletedCount", JNum (showNat deleted)); ("attestedGapHash", JStr gap)];
            mret tt
          else mret tt
      | None => mret tt
      end
  end.

End audit.

(** ** Canonical JSON *)

(** What comparing with a collation gives: a total preorder. *)
Class LocaleLaws `{Locale} := {
  localeCompare_flip a b : localeCompare b a = CompOpp (localeCompare a b);
  localeCompare_le_trans a b c :
    localeCompare a b <> Gt -> localeCompare b c <> Gt -> localeCompare a c <> Gt;
}.

(** The same JSON value but for the order of members, inside objects whose keys
    are distinct and told apart by the collation. *)
Inductive sameJson `{Locale} : Json -> Json -> Prop :=
| same_refl j : sameJson j j
| same_trans a b c : sameJson a b -> sameJson b c -> sameJson a c
| same_item pre x y post : sameJson x y -> sameJson (JArr (pre ++ x :: post)) (JArr (pre ++ y :: post))
| same_member pre k x y post :
    sameJson x y -> sameJson (JObj (pre ++ (k, x) :: post)) (JObj (pre ++ (k, y) :: post))
| same_perm m m' :
    NoDup (map fst m) ->
    (forall k k', k ∈ map fst m -> k' ∈ map fst m -> localeCompare k k' = Eq -> k = k') ->
    m ≡ₚ m' -> sameJson (JObj m) (JObj m').

Section canonical.
Context `{LocaleLaws}.

Lemma keyLe_true {V} (a b : string * V) : keyLe a b = true <-> localeCompare a.1 b.1 <> Gt.
Proof. unfold keyLe. by destruct (localeCompare _ _). Qed.

Lemma keyLe_total {V} (a b : string * V) : keyLe a b = false -> keyLe b a = true.
Proof. unfold keyLe. rewrite (localeCompare_flip a.1 b.1). by destruct (localeCompare _ _). Qed.

Lemma keyLe_trans {V} (a b c : string * V) : keyLe a b = true -> keyLe b c = true -> keyLe a c = true.
Proof. rewrite !keyLe_true. apply localeCompare_le_trans. Qed.

Lemma keyLe_antisym {V} (a b : string * V) :
  keyLe a b = true -> keyLe b a = true -> localeCompare a.1 b.1 = Eq.
Proof. rewrite !keyLe_true, (localeCompare_flip a.1 b.1). by destruct (localeCompare _ _). Qed.

Lemma isort_perm_eq {V} (m m' : list (string * V)) :
  NoDup (map fst m) ->
  (forall k k', k ∈ map fst m -> k' ∈ map fst m -> localeCompare k k' = Eq -> k = k') ->
  m ≡ₚ m' -> isort keyLe m = isort keyLe m'.
Proof.
  intros Hnd Hdist Hp.
  apply (StronglySorted_unique_strong (fun a b => keyLe a b = true)).
  - intros a b Ha Hb Hab Hba. rewrite elem_of_isort in Ha, Hb. rewrite <- Hp in Hb.
    apply (NoDup_key_inj fst m); [done|done|done|].
    apply Hdist; [by apply list_elem_of_In, in_map, list_elem_of_In..|by apply keyLe_antisym].
  - apply isort_sorted; [apply keyLe_total|apply keyLe_trans].
  - apply isort_sorted; [apply keyLe_total|apply keyLe_trans].
  - by rewrite !isort_perm.
Qed.

Lemma sortKeys_same a b : sameJson a b -> sortKeys a = sortKeys b.
Proof.
  induction 1 as [j|a b c _ IH1 _ IH2|pre x y post _ IH|pre k x y post _ IH|m m' Hnd Hdist Hp].
  - done.
  - congruence.
  - cbn [sortKeys]. by rewrite !map_app, !map_cons, IH.
  - cbn [sortKeys]. rewrite !map_app, !map_cons. cbn [fst snd]. by rewrite IH.
  - cbn [sortKeys]. do 2 f_equal.
    assert (E : forall l : list (string * Json), map fst (map (fun kv => (kv.1, sortKeys kv.2)) l) = map fst l).
    { intros l. rewrite map_map. by apply map_ext. }
    apply isort_perm_eq; rewrite ?E; [done|done|].
    by apply Permutation_map.
Qed.

(** The audit HMAC does not depend on the order of the members of the
    payload's objects, at any depth, so the order in which PostgreSQL returns a
    [jsonb] payload does not change the HMAC that verification recomputes;
    provided that the collation tells the keys of each object apart. *)
Theorem sortKeys_canonical `{NodeCrypto} (f : AuditLogEntryHmacFields) (payload' : Json) (auditKey : string)
    (Hsame : sameJson (hf_payload f) payload') :
  computeAuditHmac
    {| hf_orgId := hf_orgId f; hf_actorTokenId := hf_actorTokenId f; hf_actorType := hf_actorType f;
       hf_eventType := hf_eventType f; hf_resourceId := hf_resourceId f;
       hf_resourceType := hf_resourceType f; hf_payload := payload'; hf_keyVersion := hf_keyVersion f;
       hf_previousEntryHmac := hf_previousEntryHmac f |} auditKey
  = computeAuditHmac f auditKey.
Proof.
  unfold computeAuditHmac, canonicalJson. do 2 f_equal. unfold hmacObject. cbn [sortKeys].
  do 3 f_equal. cbn [hf_orgId hf_actorTokenId hf_actorType hf_eventType hf_resourceId
    hf_resourceType hf_payload hf_keyVersion hf_previousEntryHmac].
  rewrite !map_app. do 3 f_equal. cbn [map fst snd]. by rewrite (sortKeys_same _ _ Hsame).
Qed.

(** Two keys the collation confuses make the canonical JSON depend on the order. *)
Lemma sortKeys_tie k k' (v v' : Json) :
  localeCompare k k' = Eq -> arrayIndex k = None -> arrayIndex k' = None -> k <> k' ->
  sortKeys v = v -> sortKeys v' = v' ->
  sortKeys (JObj [(k, v); (k', v')]) <> sortKeys (JObj [(k', v'); (k, v)]).
Proof.
  intros Hc Hk Hk' Hne Hv Hv'. assert (Hc' : localeCompare k' k = Eq) by by rewrite localeCompare_flip, Hc.
  cbn [sortKeys map fst snd]. rewrite Hv, Hv'. unfold isort. cbn [foldr isort_insert].
  unfold keyLe. cbn [fst]. rewrite Hc, Hc'. unfold fromEntries. cbn. rewrite Hk, Hk'. cbn.
  congruence.
Qed.
End canonical.

(** The collation of bytes is one. *)
Lemma byteLocale_laws : @LocaleLaws byteLocale.
Proof.
  split; cbn.
  - intros a b. apply String.compare_antisym.
  - induction a as [|x a IH]; intros [|y b] [|z c]; cbn; try done.
    unfold Ascii.compare.
    destruct (N.compare_spec (N_of_ascii x) (N_of_ascii y)) as [Exy|Lxy|Gxy]; try done.
    + rewrite Exy. destruct (N.compare_spec (N_of_ascii y) (N_of_ascii z)); try done. apply IH.
    + intros _. destruct (N.compare_spec (N_of_ascii y) (N_of_ascii z)) as [Eyz|Lyz|Gyz]; try done; intros _.
      * rewrite <- Eyz. by rewrite (proj2 (N.compare_lt_iff _ _) Lxy).
      * rewrite (proj2 (N.compare_lt_iff _ _)); [done|]. lia.
Qed.

Lemma sortKeys_canonical_witness :
  let f payload := {| hf_orgId := 1; hf_actorTokenId := None; hf_actorType := "system";
    hf_eventType := "rotation.stale_detected"; hf_resourceId := None; hf_resourceType := None;
    hf_payload := payload; hf_keyVersion := 1; hf_previousEntryHmac := GENESIS_SENTINEL |} in
  @computeAuditHmac byteLocale toyCrypto (f (JObj [("b", JNum "1"); ("a", JNull)])) key32
  = @computeAuditHmac byteLocale toyCrypto (f (JObj [("a", JNull); ("b", JNum "1")])) key32.
Proof.
  intros f. apply (@sortKeys_canonical byteLocale byteLocale_laws toyCrypto
    (f (JObj [("a", JNull); ("b", JNum "1")]))).
  apply (@same_perm byteLocale).
  - apply (bool_decide_eq_true_1 (NoDup ["a"; "b"])). reflexivity.
  - intros k k'. cbn [map fst]. rewrite !elem_of_cons, !elem_of_nil. cbn. naive_solver.
  - constructor.
Defined.

(** ** The frame of a writer *)

(** At most the usage rows and the counter changed. *)
Definition usageOnly (w w' : World) : Prop :=
  exists n usage, w' = w <| w_tick := n |> <| w_db := (w_db w) <| db_usage := usage |> |>.

Lemma usageOnly_sameDb w w' : sameDb w w' -> usageOnly w w'.
Proof. intros [n ->]. exists n, (db_usage (w_db w)). destruct w as [db]. by destruct db. Qed.
Lemma usageOnly_trans w1 w2 w3 : usageOnly w1 w2 -> usageOnly w2 w3 -> usageOnly w1 w3.
Proof. intros (n & u & ->) (n' & u' & ->). by exists n', u'. Qed.

Definition usageFrame {A} (m : M A) : Prop := forall w, wp m (fun _ w' => usageOnly w w') w.

Lemma usageFrame_readOnly {A} (m : M A) : readOnly m -> usageFrame m.
Proof. intros Hm w. eapply wp_mono; [apply Hm|]. intros o w'. apply usageOnly_sameDb. Qed.
Lemma usageFrame_bind {A B} (m : M A) (k : A -> M B) :
  usageFrame m -> (forall a, usageFrame (k a)) -> usageFrame (m ≫= k).
Proof.
  intros Hm Hk w. apply wp_bind. eapply wp_mono; [apply Hm|]. intros [a|e] w' Hw'; [|done].
  eapply wp_mono; [apply Hk|]. intros o w''. by apply usageOnly_trans.
Qed.
Lemma usageFrame_catch {A} (m : M A) h :
  usageFrame m -> (forall e, usageFrame (h e)) -> usageFrame (catch m h).
Proof.
  intros Hm Hk w. apply wp_catch. eapply wp_mono; [apply Hm|]. intros [a|e] w' Hw'; [done|].
  eapply wp_mono; [apply Hk|]. intros o w''. by apply usageOnly_trans.
Qed.
Lemma usageFrame_insert u : usageFrame (insertUsage u).
Proof.
  intros w. unfold wp, insertUsage, insertRow. destruct (existsb _ _).
  - apply usageOnly_sameDb, sameDb_refl.
  - exists (w_tick w), (db_usage (w_db w) ++ [u]). destruct w as [db]. by destruct db.
Qed.
Lemma usageFrame_update p f : usageFrame (updateWhere db_usage p f).
Proof.
  intros w. exists (w_tick w), (map_where p f (db_usage (w_db w))). destruct w as [db]. by destruct db.
Qed.

Ltac usage_frame :=
  repeat first
    [ apply usageFrame_insert | apply usageFrame_update
    | apply usageFrame_bind; [|intros ?]
    | apply usageFrame_catch; [|intros ?]
    | match goal with
      | |- usageFrame (if ?b then _ else _) => destruct b
      | |- usageFrame (match ?x with _ => _ end) => destruct x
      end
    | apply usageFrame_readOnly; solve [auto with pv] ].

Lemma gates_frame `{Env} orgId eventType sizeBytes :
  usageFrame (assertOrgMayWriteAuditGates orgId eventType sizeBytes).
Proof.
  unfold assertOrgMayWriteAuditGates, assertOrgMayWriteAuditAtRate, assertOrgMayWriteAudit,
    runRateGateStatement, runGateStatement, findQuotaConfig, findUsage. usage_frame.
Qed.

(** ** Appending to the chain *)

(** The rows of an organisation, in the order of the table. *)
Definition chainOf (db : Db) (orgId : Uuid) : list AuditRow :=
  List.filter (fun r => al_orgId r =? orgId) (db_audit db).

Definition tailHmac (db : Db) (orgId : Uuid) : option string := al_hmac <$> last (chainOf db orgId).

(** The key version new rows carry. *)
Definition auditKeyVersionOf (db : Db) : Z :=
  match head (List.filter (fun _ => true) (db_vaultState db)) with
  | Some v => vs_auditKeyVersion v
  | None => 1
  end.

(** Rows are inserted with increasing sequence numbers. *)
Definition seqLt (a b : AuditRow) : Prop := (al_chainSeq a < al_chainSeq b)%Z.
Definition sequenced (db : Db) : Prop :=
  StronglySorted seqLt (db_audit db) /\ Forall (fun r => (al_chainSeq r <= db_auditSeq db)%Z) (db_audit db).

Lemma StronglySorted_lfilter {A} (R : A -> A -> Prop) p (l : list A) :
  StronglySorted R l -> StronglySorted R (List.filter p l).
Proof.
  induction 1 as [|x l Hs IH Hall]; [constructor|]. cbn. destruct (p x); [|done].
  constructor; [done|]. apply Forall_forall. intros y [_ Hy]%elem_of_lfilter.
  by apply (proj1 (Forall_forall _ _) Hall).
Qed.

Lemma StronglySorted_snoc {A} (R : A -> A -> Prop) (l : list A) x :
  StronglySorted R l -> Forall (fun y => R y x) l -> StronglySorted R (l ++ [x]).
Proof.
  induction 1 as [|y l Hs IH Hall]; intros Hx; [repeat constructor|].
  apply Forall_cons in Hx as [Hyx Hx]. cbn. constructor; [by apply IH|].
  apply Forall_app. split; [done|by constructor].
Qed.

(** Ascending rows sorted again are the same; the first of the descending order is the last. *)
Lemma isort_sorted_asc l : StronglySorted seqLt l -> isort seqLe l = l.
Proof.
  intros Hs. apply (StronglySorted_unique_strong (fun a b => seqLe a b = true)).
  - intros a b Ha Hb Hab Hba. rewrite elem_of_isort in Ha. unfold seqLe in *. bool_simpl.
    apply (NoDup_key_inj al_chainSeq l); [|done|done|lia].
    clear -Hs. induction Hs as [|x l Hs IH Hall]; [constructor|]. cbn. constructor; [|done].
    intros (y & Ey & Hy%list_elem_of_In)%list_elem_of_In%in_map_iff.
    apply (proj1 (Forall_forall _ _) Hall) in Hy. unfold seqLt in Hy. lia.
  - apply isort_sorted; unfold seqLe; intros; bool_simpl; apply bool_decide_eq_true_2; lia.
  - clear -Hs. induction Hs as [|x l Hs IH Hall]; constructor; [done|].
    eapply Forall_impl; [exact Hall|]. intros y Hxy. unfold seqLt, seqLe in *.
    apply bool_decide_eq_true_2. lia.
  - by rewrite isort_perm.
Qed.

Lemma isort_head_desc l :
  StronglySorted seqLt l -> head (isort (fun a b => al_chainSeq b <=? al_chainSeq a) l) = last l.
Proof.
  intros Hs. set (le := fun _ _ => _).
  assert (Hleast : forall x y, head (isort le l) = Some x -> y ∈ l -> le x y = true \/ x = y).
  { apply isort_head_least; unfold le; intros; bool_simpl; apply bool_decide_eq_true_2; lia. }
  destruct (head (isort le l)) as [x|] eqn:E.
  - assert (Hx : x ∈ l) by (apply (elem_of_isort le), head_elem_of; done).
    destruct l as [|z l _] using rev_ind; [by apply not_elem_of_nil in Hx|]. rewrite last_snoc. f_equal.
    destruct (Hleast x z eq_refl) as [Hle|]; [apply elem_of_app; right; by left| |done].
    apply elem_of_app in Hx as [Hx|Hx%list_elem_of_singleton]; [|done]. exfalso.
    assert (seqLt x z); [|unfold le in Hle; bool_simpl; unfold seqLt in *; lia].
    clear -Hs Hx. induction l as [|y l IH]; [by apply not_elem_of_nil in Hx|]. cbn in Hs.
    apply StronglySorted_inv in Hs as [Hs Hall].
    apply elem_of_cons in Hx as [->|Hx]; [|by apply IH].
    apply (proj1 (Forall_forall _ _) Hall). apply elem_of_app. right. by left.
  - assert (isort le l = []) as E' by by destruct (isort le l).
    apply (f_equal length) in E'. rewrite isort_length in E'. by destruct l.
Qed.

Section writers.
Context `{Locale, Platform, NodeCrypto, Env}.

Lemma getPreviousEntryHmac_spec orgId w :
  sequenced (w_db w) -> getPreviousEntryHmac orgId w = (Ok (tailHmac (w_db w) orgId), w).
Proof.
  intros [Hs _]. unfold getPreviousEntryHmac, selectFirstOrdered, mbind, M_bind. cbv beta iota.
  rewrite isort_head_desc by by apply StronglySorted_lfilter. done.
Qed.

(** [row] was appended by a writer that hashed [f]. *)
Record appended (w w' : World) (f : AuditLogEntryHmacFields) (row : AuditRow) : Prop := {
  ap_key : exists key, w_auditKey w = Some key /\ al_hmac row = computeAuditHmac f key;
  ap_previous : al_previousEntryHmac row = tailHmac (w_db w) (al_orgId row);
  ap_sentinel : hf_previousEntryHmac f = default GENESIS_SENTINEL (al_previousEntryHmac row);
  ap_seq : al_chainSeq row = (db_auditSeq (w_db w) + 1)%Z;
  ap_created : al_createdAt row = w_now w;
  ap_keyVersion : al_keyVersion row = hf_keyVersion f;
  ap_db : exists n usage, w' = w <| w_tick := n |> <| w_db := (w_db w)
            <| db_usage := usage |> <| db_auditSeq := al_chainSeq row |>
            <| db_audit := db_audit (w_db w) ++ [row] |> |>;
}.

Lemma appendAuditRow_spec orgId actorTokenId actorType eventType resourceId resourceType payload stored u w :
  sequenced (w_db w) ->
  wp (appendAuditRow orgId actorTokenId actorType eventType resourceId resourceType payload stored u)
    (fun o w' => forall row, o = Ok row ->
       let f := (storedFields row) in
       appended w w' {| hf_orgId := orgId; hf_actorTokenId := actorTokenId; hf_actorType := actorType;
                        hf_eventType := eventType; hf_resourceId := resourceId;
                        hf_resourceType := resourceType; hf_payload := payload;
                        hf_keyVersion := al_keyVersion row;
                        hf_previousEntryHmac := hf_previousEntryHmac (storedFields row) |} row /\
       al_orgId row = orgId /\ al_actorTokenId row = actorTokenId /\ al_actorType row = actorType /\
       al_eventType row = eventType /\ al_resourceId row = stored /\
       al_resourceType row = resourceType /\ al_payload row = payload) w.
Proof.
  intros Hseq. unfold appendAuditRow. apply wp_bind.
  unfold readAuditChainHead. eapply wp_bind_eq; [reflexivity|].
  eapply wp_bind_eq; [by apply getPreviousEntryHmac_spec|]. apply wp_ret. cbv beta iota.
  apply wp_bind. unfold getAuditKey, wp. destruct (w_auditKey w) as [key|] eqn:Ek; [|done].
  unfold insertAuditRow, genRandomUuid, dbNow, nextChainSeq, mbind, M_bind. cbv beta iota zeta.
  unfold insertRow. destruct (existsb _ _); [done|]. intros row [= <-].
  split; [|done]. constructor; cbn [al_hmac al_previousEntryHmac al_orgId al_chainSeq al_createdAt
    al_keyVersion hf_previousEntryHmac hf_keyVersion storedFields hf_orgId]; try done.
  - by exists key.
  - exists (S (w_tick w)), (db_usage (w_db w)). destruct w as [db]. by destruct db.
Qed.
End writers.

(** ** The chain invariant *)

Section chain.
Context `{Locale, Platform, NodeCrypto, Env}.

Definition signed (key : string) (r : AuditRow) : Prop := al_hmac r = computeAuditHmac (storedFields r) key.

Fixpoint linkedFrom (p : option string) (rows : list AuditRow) : Prop :=
  match rows with
  | [] => True
  | r :: rows' => al_previousEntryHmac r = p /\ linkedFrom (Some (al_hmac r)) rows'
  end.

Definition attested (db : Db) (orgId : Uuid) (h : string) : Prop :=
  exists r, r ∈ db_audit db /\ attestsGap orgId h r = true.

(** The first row is the genesis row, or the rows before it were purged and
    the gap attested. *)
Definition startsAt (db : Db) (orgId : Uuid) (p : option string) : Prop :=
  match p with None => True | Some h => attested db orgId h end.

Record ChainOk (db : Db) (orgId : Uuid) (key : string) : Prop := {
  ck_sequenced : sequenced db;
  ck_signed : Forall (signed key) (chainOf db orgId);
  ck_linked : exists p, linkedFrom p (chainOf db orgId) /\ startsAt db orgId p;
}.

Lemma linkedFrom_app p l k :
  linkedFrom p (l ++ k) <->
  linkedFrom p l /\ linkedFrom (match last l with Some r => Some (al_hmac r) | None => p end) k.
Proof.
  revert p. induction l as [|r l IH]; intros p; [cbn; tauto|].
  cbn [app linkedFrom]. rewrite IH. destruct l as [|x l]; [cbn; tauto|].
  rewrite last_cons_cons. destruct (last (x :: l)) eqn:E; [tauto|]. by apply last_None in E.
Qed.

Lemma ChainOk_frame db db' org key :
  db_audit db' = db_audit db -> db_auditSeq db' = db_auditSeq db -> ChainOk db org key -> ChainOk db' org key.
Proof.
  intros Ea Es [[Hs Hle] Hsig (p & Hl & Hp)].
  constructor; unfold sequenced, chainOf; rewrite ?Ea, ?Es; [done|done|]. exists p. split; [done|].
  destruct p as [h|]; [|done]. destruct Hp as (r & Hr & Ha). exists r. by rewrite Ea.
Qed.

Lemma chainOf_app db row o n usage w :
  chainOf (w_db (w <| w_tick := n |> <| w_db := db <| db_usage := usage |>
     <| db_auditSeq := al_chainSeq row |> <| db_audit := db_audit db ++ [row] |> |>)) o =
  chainOf db o ++ (if al_orgId row =? o then [row] else []).
Proof. unfold chainOf. cbn. rewrite List.filter_app. cbn. by destruct (_ =? _). Qed.

Lemma sequenced_snoc db db' row :
  sequenced db -> al_chainSeq row = (db_auditSeq db + 1)%Z -> db_auditSeq db' = al_chainSeq row ->
  db_audit db' = db_audit db ++ [row] -> sequenced db'.
Proof.
  intros [Hs Hle] Eseq Es Ea. unfold sequenced. rewrite Es, Ea. split.
  - apply StronglySorted_snoc; [done|]. eapply Forall_impl; [exact Hle|]. cbn. unfold seqLt. lia.
  - apply Forall_app. split; [|by constructor]. eapply Forall_impl; [exact Hle|]. cbn. lia.
Qed.

Lemma ChainOk_append w w' f row o key :
  appended w w' f row -> (al_orgId row = o -> f = storedFields row) -> w_auditKey w = Some key ->
  ChainOk (w_db w) o key -> ChainOk (w_db w') o key.
Proof.
  intros [(k & Ek & Eh) Eprev _ Eseq _ _ (n & usage & ->)] Ef Hkey [Hseq Hsig (p & Hlink & Hp)].
  rewrite Hkey in Ek. simplify_eq. constructor.
  - by apply (sequenced_snoc (w_db w) _ row).
  - rewrite chainOf_app. apply Forall_app. split; [done|]. case_bool_decide as Eo; [|done].
    rewrite (Ef Eo) in Eh. constructor; [done|constructor].
  - rewrite chainOf_app.
    assert (Hatt : startsAt (w_db w) o p -> startsAt (w_db (w <| w_tick := n |> <| w_db := (w_db w)
      <| db_usage := usage |> <| db_auditSeq := al_chainSeq row |> <| db_audit := db_audit (w_db w) ++ [row] |> |>)) o p).
    { destruct p as [h|]; [|done]. intros (r & Hr & Ha). exists r. split; [|done]. cbn. apply elem_of_app. by left. }
    case_bool_decide as Eo; [subst o|rewrite app_nil_r; exists p; auto].
    destruct (last (chainOf (w_db w) (al_orgId row))) as [r|] eqn:El.
    + exists p. split; [|auto]. apply linkedFrom_app. split; [done|]. rewrite El. cbn. split; [|done].
      rewrite Eprev. unfold tailHmac. by rewrite El.
    + apply last_None in El. rewrite El. exists None. split; [|done]. cbn. split; [|done].
      rewrite Eprev. unfold tailHmac. by rewrite El.
Qed.

(** *** The five writers *)

Inductive AuditWrite :=
| WriteHuman (fields : AuditFields)
| WriteMachine (fields : AuditFields) (machineUserId : string) (keyId : option string)
| WriteSystem (orgId : Uuid) (eventType : string) (resourceId : option Uuid)
    (resourceType : option string) (payload : list (string * Json))
| WriteExtension (fields : AuditFields) (extensionName : string) (attribution : option Json)
| WriteSystemRow (orgId : Uuid) (eventType : string) (resourceId : option Uuid)
    (payload : list (string * Json)).

Definition discard {A} (m : M A) : M unit := _ ← m; mret tt.

Definition runWrite (write : AuditWrite) : M unit :=
  match write with
  | WriteHuman fields => discard (writeHumanAuditEntry fields)
  | WriteMachine fields mu key => discard (writeMachineAuditEntry fields mu key)
  | WriteSystem o e r t p => discard (writeSystemAuditEntry o e r t p)
  | WriteExtension fields name a => discard (writeExtensionAuditEntry fields name a)
  | WriteSystemRow o e r p => discard (writeSystemAuditRow o e r p)
  end.

(** What is to be stored by a write, and the resource its HMAC covers. *)
Record Written := MkWritten {
  wn_orgId : Uuid;
  wn_actorTokenId : option Uuid;
  wn_actorType : string;
  wn_eventType : string;
  wn_hashedResourceId : option Uuid;
  wn_resourceId : option Uuid;
  wn_resourceType : option string;
  wn_payload : Json;
  wn_unsigned : Unsigned;
}.

Definition machineMembers (fields : AuditFields) (machineUserId : string) (keyId : option string) : Json :=
  JObj (spreadSet (spreadSet (af_payload fields) "machineUserId" (JStr machineUserId))
          "keyId" (match keyId with Some k => JStr k | None => JNull end)).

Definition extensionMembers (fields : AuditFields) (extensionName : string) (attribution : option Json) : Json :=
  JObj (spreadSet (match attribution with
                   | Some a => spreadSet (af_payload fields) PV_ATTRIBUTION_KEY a
                   | None => af_payload fields
                   end) "extensionName" (JStr extensionName)).

Definition writtenBy (write : AuditWrite) : Written :=
  match write with
  | WriteHuman f => MkWritten (af_orgId f) (af_actorTokenId f) "human" (af_eventType f) (af_resourceId f)
      (af_resourceId f) (af_resourceType f) (JObj (af_payload f)) (af_unsigned f)
  | WriteMachine f mu key => MkWritten (af_orgId f) None "machine_user" (af_eventType f) (af_resourceId f)
      (af_resourceId f) (af_resourceType f) (machineMembers f mu key) ((af_unsigned f) <| un_projectId := None |>)
  | WriteSystem o e r t p => MkWritten o None "system" e r r t (JObj p) noUnsigned
  | WriteExtension f name a => MkWritten (af_orgId f) None "extension" (af_eventType f) (af_resourceId f)
      (af_resourceId f) (af_resourceType f) (extensionMembers f name a) noUnsigned
  | WriteSystemRow o e r p => MkWritten o None "system" e None r None (JObj p) noUnsigned
  end.

Definition gatesOf (e : Written) : M unit :=
  assertOrgMayWriteAuditGates (wn_orgId e) (wn_eventType e)
    (estimateAuditEntrySizeBytes (wn_payload e) (wn_resourceId e) (wn_resourceType e)
       (un_revealedFields (wn_unsigned e))).

Definition hashedFields (e : Written) (keyVersion : Z) (previousHmac : option string) : AuditLogEntryHmacFields :=
  {| hf_orgId := wn_orgId e; hf_actorTokenId := wn_actorTokenId e; hf_actorType := wn_actorType e;
     hf_eventType := wn_eventType e; hf_resourceId := wn_hashedResourceId e;
     hf_resourceType := wn_resourceType e; hf_payload := wn_payload e; hf_keyVersion := keyVersion;
     hf_previousEntryHmac := default GENESIS_SENTINEL previousHmac |}.

(** The row of [e] at the end of its organisation's chain. *)
Definition nextRow (e : Written) (key : string) (id : Uuid) (w : World) : AuditRow :=
  let keyVersion := auditKeyVersionOf (w_db w) in
  let previousHmac := tailHmac (w_db w) (wn_orgId e) in
  {| al_id := id; al_chainSeq := db_auditSeq (w_db w) + 1; al_orgId := wn_orgId e;
     al_projectId := un_projectId (wn_unsigned e); al_actorTokenId := wn_actorTokenId e;
     al_actorType := wn_actorType e; al_eventType := wn_eventType e; al_resourceId := wn_resourceId e;
     al_resourceType := wn_resourceType e; al_ipAddress := un_ipAddress (wn_unsigned e);
     al_userAgent := un_userAgent (wn_unsigned e); al_payload := wn_payload e;
     al_revealedFields := un_revealedFields (wn_unsigned e); al_keyVersion := keyVersion;
     al_hmac := computeAuditHmac (hashedFields e keyVersion previousHmac) key;
     al_createdAt := w_now w; al_previousEntryHmac := previousHmac |}.

(** The row was appended, and nothing else changed but the usage of the organisations. *)
Definition extendedBy (e : Written) (key : string) (w w' : World) : Prop :=
  exists id n usage, w' = w <| w_tick := n |> <| w_db := (w_db w)
    <| db_usage := usage |> <| db_auditSeq := (db_auditSeq (w_db w) + 1)%Z |>
    <| db_audit := db_audit (w_db w) ++ [nextRow e key id w] |> |>.

Lemma usageOnly_ChainOk w w' o key : usageOnly w w' -> ChainOk (w_db w) o key -> ChainOk (w_db w') o key.
Proof. intros (n & usage & ->) []. by constructor. Qed.

Lemma appendAuditRow_next e key w :
  w_auditKey w = Some key -> sequenced (w_db w) ->
  wp (appendAuditRow (wn_orgId e) (wn_actorTokenId e) (wn_actorType e) (wn_eventType e) (wn_hashedResourceId e)
        (wn_resourceType e) (wn_payload e) (wn_resourceId e) (wn_unsigned e))
    (fun o w' => match o with Ok _ => extendedBy e key w w' | Throw x => x = UniqueViolation end) w.
Proof.
  intros Hkey Hseq. unfold appendAuditRow. apply wp_bind. unfold readAuditChainHead.
  eapply wp_bind_eq; [reflexivity|]. eapply wp_bind_eq; [by apply getPreviousEntryHmac_spec|].
  apply wp_ret. cbv beta iota. apply wp_bind. unfold getAuditKey, wp. rewrite Hkey.
  unfold insertAuditRow, genRandomUuid, dbNow, nextChainSeq, mbind, M_bind. cbv beta iota zeta.
  unfold insertRow. destruct (existsb _ _); [done|].
  exists (randomUuid (w_tick w)), (S (w_tick w)), (db_usage (w_db w)). destruct w as [db]. by destruct db.
Qed.

(** The gates, then the row. *)
Lemma gated_append {A} e (f : AuditRow -> A) key w :
  w_auditKey w = Some key -> sequenced (w_db w) ->
  wp (_ ← gatesOf e;
      row ← appendAuditRow (wn_orgId e) (wn_actorTokenId e) (wn_actorType e) (wn_eventType e)
              (wn_hashedResourceId e) (wn_resourceType e) (wn_payload e) (wn_resourceId e) (wn_unsigned e);
      mret (f row))
    (fun o w' => match o with
                 | Ok _ => extendedBy e key w w'
                 | Throw x => fst (gatesOf e w) = Throw x \/ x = UniqueViolation
                 end) w.
Proof.
  intros Hkey Hseq. apply wp_bind. pose proof (gates_frame _ _ _ w : wp (gatesOf e) _ w) as Hg.
  unfold wp in Hg |- *. destruct (gatesOf e w) as [[[]|x] w1]; [|by left]. destruct Hg as (n & usage & ->).
  set (w1 := w <| w_tick := n |> <| w_db := _ |>).
  pose proof (appendAuditRow_next e key w1 Hkey Hseq) as Ha. unfold wp in Ha. unfold mbind at 1, M_bind at 1.
  destruct (appendAuditRow _ _ _ _ _ _ _ _ _ w1) as [[row|x] w2]; [|by right].
  destruct Ha as (id & n' & usage' & ->). exists id, n', usage'. destruct w as [db]. by destruct db.
Qed.

Lemma runWrite_extends write key w :
  w_auditKey w = Some key -> sequenced (w_db w) ->
  wp (runWrite write)
    (fun o w' => match o with
                 | Ok _ => extendedBy (writtenBy write) key w w'
                 | Throw x => fst (gatesOf (writtenBy write) w) = Throw x \/ x = UniqueViolation
                 end) w.
Proof.
  intros Hkey Hseq.
  pose proof (gated_append (writtenBy write) id key w Hkey Hseq) as Hg.
  destruct write; cbn [runWrite]; unfold discard, writeHumanAuditEntry, writeMachineAuditEntry,
    writeSystemAuditEntry, writeExtensionAuditEntry, writeSystemAuditRow; cbv zeta.
  all: unfold gatesOf in Hg |- *; cbn in Hg |- *.
  all: unfold wp, mbind, M_bind in Hg |- *.
  all: destruct (assertOrgMayWriteAuditGates _ _ _ w) as [[[]|x] w1]; [|exact Hg].
  all: destruct (appendAuditRow _ _ _ _ _ _ _ _ _ w1) as [[row|x] w2]; exact Hg.
Qed.

Lemma extendedBy_appended e key w w' :
  extendedBy e key w w' -> w_auditKey w = Some key ->
  exists row, appended w w' (hashedFields e (al_keyVersion row) (al_previousEntryHmac row)) row /\
    al_orgId row = wn_orgId e /\
    (wn_hashedResourceId e = wn_resourceId e ->
       hashedFields e (al_keyVersion row) (al_previousEntryHmac row) = storedFields row).
Proof.
  intros (id & n & usage & ->) Hkey. exists (nextRow e key id w). split; [|split; [done|]].
  - constructor; try done; [by exists key|by exists n, usage].
  - intros E. unfold storedFields, hashedFields, nextRow. cbn. by rewrite E.
Qed.

Lemma extendedBy_ChainOk e key w w' o :
  extendedBy e key w w' -> w_auditKey w = Some key ->
  wn_hashedResourceId e = wn_resourceId e \/ o <> wn_orgId e ->
  ChainOk (w_db w) o key -> ChainOk (w_db w') o key.
Proof.
  intros Hext Hkey Hres. destruct (extendedBy_appended _ _ _ _ Hext Hkey) as (row & Happ & Ho & Hst).
  eapply ChainOk_append; [exact Happ| |done]. intros E. destruct Hres as [Hres|Hne]; [by apply Hst|]. congruence.
Qed.

Lemma extendedBy_sequenced e key w w' : extendedBy e key w w' -> sequenced (w_db w) -> sequenced (w_db w').
Proof. intros (id & n & usage & ->) Hs. by apply (sequenced_snoc (w_db w) _ (nextRow e key id w)). Qed.

Lemma runWrite_ChainOk write o key w :
  w_auditKey w = Some key -> wn_hashedResourceId (writtenBy write) = wn_resourceId (writtenBy write) ->
  ChainOk (w_db w) o key -> wp (transaction (runWrite write)) (fun _ w' => ChainOk (w_db w') o key) w.
Proof.
  intros Hkey Hres HC. apply wp_transaction. eapply wp_mono; [by apply runWrite_extends, HC|].
  intros [[]|e] w' Hw'; [|exact HC]. eapply extendedBy_ChainOk; eauto.
Qed.

(** C25: The five audit writers, each in a transaction of an open vault, extend
    the chain or leave the table as it was.  A write that succeeds appends one
    row and changes nothing else but the usage: with the next sequence number,
    the columns it was asked for, the HMAC of the last row of its organisation
    (none for the first), and its own HMAC over the hashed columns and that
    one.  A write fails only with what the quota and rate gates throw, or when
    the drawn identifier is in use, and then the database is as before.  So the
    chain of every organisation stays intact (rows in increasing sequence, each
    signed over what it stores and carrying the HMAC of the row before it);
    except, by [system_row_with_resource_fails], that of an organisation for
    which [writeSystemAuditRow] writes a row with a resource, which it does not
    hash. *)
Theorem audit_writers_preserve_chain (write : AuditWrite) (key : string) (w : World)
    (Hkey : w_auditKey w = Some key) (Hseq : sequenced (w_db w)) :
  let e := writtenBy write in
  wp (transaction (runWrite write)) (fun out w' =>
    match out with
    | Ok _ => extendedBy e key w w'
    | Throw x => w_db w' = w_db w /\ (fst (gatesOf e w) = Throw x \/ x = UniqueViolation)
    end /\
    sequenced (w_db w') /\
    forall orgId, wn_hashedResourceId e = wn_resourceId e \/ orgId <> wn_orgId e ->
      ChainOk (w_db w) orgId key -> ChainOk (w_db w') orgId key) w.
Proof.
  intros e. apply wp_transaction. eapply wp_mono; [by apply runWrite_extends|].
  intros [[]|x] w' Hw'; [|done]. split; [done|]. split; [by eapply extendedBy_sequenced|].
  intros orgId Hres. by apply (extendedBy_ChainOk e).
Qed.
End chain.

(** ** Verification: what the walk reports *)

Section verification.
Context `{Locale, Platform, NodeCrypto}.

(** Why a row fails after a row with HMAC [p]. *)
Definition reasonOf (db : Db) (key : string) (keyVersion : Z) (p : option string) (r : AuditRow)
    : option VerifyFailureReason :=
  if negb (hmacMatches (al_hmac r) (computeAuditHmac (storedFields r) key)) then Some hmac_mismatch
  else if negb (al_keyVersion r =? keyVersion) then Some key_version_mismatch
  else if negb ((al_previousEntryHmac r =? p)
                || match al_previousEntryHmac r with
                   | Some orphan => existsb (attestsGap (al_orgId r) orphan) (db_audit db)
                   | None => false
                   end)
  then Some chain_break else None.

Fixpoint failures (db : Db) (key : string) (keyVersion : Z) (p : option string) (rows : list AuditRow)
    : list (AuditRow * VerifyFailureReason) :=
  match rows with
  | [] => []
  | r :: rows' =>
      match reasonOf db key keyVersion p r with
      | Some why => (r, why) :: failures db key keyVersion (Some (al_hmac r)) rows'
      | None => failures db key keyVersion (Some (al_hmac r)) rows'
      end
  end.

Definition entryOf (f : AuditRow * VerifyFailureReason) : VerifyFailedEntry :=
  MkVerifyFailedEntry (al_id f.1) (al_eventType f.1) (toISOString (al_createdAt f.1)) f.2.

Lemma isNotNull_head_filter {A} (p : A -> bool) l : isNotNull (head (List.filter p l)) = existsb p l.
Proof. induction l as [|x l IH]; [done|]. cbn. by destruct (p x). Qed.

Lemma evaluateAuditRow_spec row key kv p w :
  evaluateAuditRow row key kv p w = (Ok (reasonOf (w_db w) key kv p row, al_hmac row), w).
Proof.
  unfold evaluateAuditRow, reasonOf. destruct (al_previousEntryHmac row =? p); [done|]. cbn [orb].
  destruct (al_previousEntryHmac row) as [o|]; [|done].
  unfold hasAttestedGap, mbind, M_bind, selectFirst, mret, M_ret. by rewrite isNotNull_head_filter.
Qed.

Lemma verifyRow_spec key kv st row w :
  verifyRow key kv st row w = (Ok (recordOutcome st row (reasonOf (w_db w) key kv (wk_expected st) row)), w).
Proof. unfold verifyRow, mbind, M_bind. by rewrite evaluateAuditRow_spec. Qed.

Definition walkTo (st : Walk) (fs : list (AuditRow * VerifyFailureReason)) (n : nat) (p : option string) : Walk :=
  MkWalk (wk_passed st + (n - length fs))
    (wk_failed st ++ take (FAILED_ENTRIES_CAP - length (wk_failed st)) (map entryOf fs))
    (wk_failedCount st + length fs) p.

Lemma failures_length db key kv p rows : length (failures db key kv p rows) <= length rows.
Proof.
  revert p. induction rows as [|r rows IH]; intros p; [done|]. cbn.
  destruct (reasonOf _ _ _ _ _); cbn; [specialize (IH (Some (al_hmac r)))|etransitivity; [apply IH|]]; lia.
Qed.

Lemma foldM_verifyRow key kv rows st w :
  foldM (verifyRow key kv) st rows w =
    (Ok (walkTo st (failures (w_db w) key kv (wk_expected st) rows) (length rows)
           (match last rows with Some r => Some (al_hmac r) | None => wk_expected st end)), w).
Proof.
  revert st. induction rows as [|r rows IH]; intros st.
  { cbn. unfold walkTo. cbn. rewrite take_nil, app_nil_r, !Nat.add_0_r. by destruct st. }
  cbn [foldM]. unfold mbind, M_bind. rewrite verifyRow_spec, IH. do 2 f_equal. cbn [failures].
  assert (Hlast : match last (r :: rows) with Some x => Some (al_hmac x) | None => wk_expected st end =
    match last rows with Some x => Some (al_hmac x) | None => Some (al_hmac r) end).
  { destruct rows as [|x rows]; [done|]. rewrite last_cons_cons.
    destruct (last (x :: rows)) eqn:E; [done|]. by apply last_None in E. }
  rewrite Hlast. pose proof (failures_length (w_db w) key kv (Some (al_hmac r)) rows) as Hlen.
  destruct (reasonOf (w_db w) key kv (wk_expected st) r) as [why|] eqn:Er;
    unfold walkTo; cbn [recordOutcome wk_passed wk_failed wk_failedCount wk_expected]; f_equal.
  all: try (cbn [length]; lia).
  cbn [map]. case_bool_decide as Hcap.
  - rewrite <- app_assoc, length_app. cbn [length app].
    destruct (FAILED_ENTRIES_CAP - length (wk_failed st)) as [|k] eqn:Ek; [lia|]. cbn [take app].
    do 3 f_equal. lia.
  - replace (FAILED_ENTRIES_CAP - length (wk_failed st)) with 0 by lia. done.
Qed.

(** The row before the first one of the range, in the chain. *)
Definition predecessorHmac (db : Db) (rows : list AuditRow) : option string :=
  match rows with
  | [] => None
  | r :: _ => al_hmac <$> head (isort (fun a b => al_chainSeq b <=? al_chainSeq a)
      (List.filter (fun x => (al_orgId x =? al_orgId r) && (al_chainSeq x <? al_chainSeq r)) (db_audit db)))
  end.

(** The report on a list of rows and its failures. *)
Definition reports (rows : list AuditRow) (fs : list (AuditRow * VerifyFailureReason)) (r : VerifyResult) : Prop :=
  vr_rowsChecked r = length rows /\ vr_passed r = length rows - length fs /\
  vr_failedCount r = length fs /\ vr_failed r = take FAILED_ENTRIES_CAP (map entryOf fs) /\
  vr_failedTruncated r = bool_decide (FAILED_ENTRIES_CAP < length fs) /\
  vr_summary r = buildVerifySummary (length rows) (length rows - length fs) (length fs).

Lemma verifyAuditRange_lemma from to key w :
  w_auditKey w = Some key -> (from <= to)%Z -> (to - from <= AUDIT_VERIFY_MAX_RANGE_DAYS * MS_PER_DAY)%Z ->
  let rows := isort seqLe (List.filter (inRange from to) (db_audit (w_db w))) in
  length rows <= AUDIT_VERIFY_MAX_ROWS ->
  exists r, verifyAuditRange from to w = (Ok r, w <| w_tick ::= S |>) /\
    reports rows (failures (w_db w) key (auditKeyVersionOf (w_db w)) (predecessorHmac (w_db w) rows) rows) r.
Proof.
  intros Hk Hle Hspan rows Hmax. unfold verifyAuditRange, validateVerifyRange.
  rewrite bool_decide_eq_false_2 by lia. rewrite bool_decide_eq_false_2 by lia.
  unfold lift, getAuditKey, selectOrdered. unfold mbind at 1 2 3. unfold M_bind at 1 2 3. rewrite Hk.
  cbv beta iota zeta. fold rows. rewrite (take_ge rows) by lia.
  rewrite bool_decide_eq_false_2 by lia.
  assert (E : (match rows with
     | [] => mret None
     | firstRow :: _ =>
         predecessor ← selectFirstOrdered db_audit
           (fun r => (al_orgId r =? al_orgId firstRow) && (al_chainSeq r <? al_chainSeq firstRow))
           (fun a b => al_chainSeq b <=? al_chainSeq a);
         mret (al_hmac <$> predecessor)
     end) w = (Ok (predecessorHmac (w_db w) rows), w)) by by destruct rows.
  unfold mbind, M_bind, mret, M_ret in E |- *.
  unfold currentAuditKeyVersion, selectFirst, mbind, M_bind, mret, M_ret. cbv beta iota.
  fold (auditKeyVersionOf (w_db w)). rewrite E.
  rewrite foldM_verifyRow. cbv beta iota. unfold walkTo. cbn [wk_passed wk_failed wk_failedCount wk_expected].
  eexists. split; [reflexivity|].
  unfold reports. cbn [vr_rowsChecked vr_passed vr_failedCount vr_failed vr_failedTruncated vr_summary].
  rewrite !Nat.add_0_l, Nat.sub_0_r. cbn [app length]. split; [done|]. split; [done|]. split; [done|].
  split; [done|]. split; [|done].
  rewrite length_take, length_map. apply bool_decide_ext. lia.
Qed.

(** Verification of a range reports exactly the rows of the range, in chain
    order, that fail: whose stored HMAC is not the one recomputed from what is
    stored, whose key version is not the current one, or that do not carry the
    HMAC of the row before them and sit at no attested gap. It counts all of
    them, lists the first 500 and only reads the database. *)
Theorem verifyAuditRange_spec (from to : Date) (key : string) (w : World)
    (Hkey : w_auditKey w = Some key) (Hrange : (from <= to)%Z)
    (Hspan : (to - from <= AUDIT_VERIFY_MAX_RANGE_DAYS * MS_PER_DAY)%Z) :
  let rows := isort seqLe (List.filter (inRange from to) (db_audit (w_db w))) in
  forall (Hmax : length rows <= AUDIT_VERIFY_MAX_ROWS),
  exists r, verifyAuditRange from to w = (Ok r, w <| w_tick ::= S |>) /\
    reports rows (failures (w_db w) key (auditKeyVersionOf (w_db w)) (predecessorHmac (w_db w) rows) rows) r.
Proof. by apply verifyAuditRange_lemma. Qed.
End verification.

(** ** Intact chains pass, deletions show *)

(** A list sorted by [f] is its elements below [a] followed by the others. *)
Lemma split_sorted {A} (f : A -> Z) (a : Z) l :
  StronglySorted (fun x y => (f x <= f y)%Z) l ->
  l = List.filter (fun x => f x <? a) l ++ List.filter (fun x => negb (f x <? a)) l.
Proof.
  induction 1 as [|x l Hs IH Hall]; [done|]. cbn. case_bool_decide as E; cbn; [by rewrite <- IH|].
  rewrite lfilter_none; [cbn; f_equal|].
  - symmetry. rewrite forallb_filter_id; [done|]. apply forallb_forall. intros y Hy%list_elem_of_In.
    apply (proj1 (Forall_forall _ _) Hall) in Hy. apply negb_true_iff, bool_decide_eq_false_2. lia.
  - intros y Hy. apply (proj1 (Forall_forall _ _) Hall) in Hy. apply bool_decide_eq_false_2. lia.
Qed.

Definition createdLe (a b : AuditRow) : Prop := (al_createdAt a <= al_createdAt b)%Z.

(** The rows of a range, in the table and in the order of the chain. *)
Lemma range_segment from to l :
  StronglySorted createdLe l -> (from <= to)%Z ->
  exists pre post, l = pre ++ List.filter (inRange from to) l ++ post.
Proof.
  intros Hs Hle.
  exists (List.filter (fun r => al_createdAt r <? from) l),
    (List.filter (fun r => negb (al_createdAt r <? to)) (List.filter (fun r => negb (al_createdAt r <? from)) l)).
  rewrite (split_sorted al_createdAt from l Hs) at 1. f_equal.
  rewrite (split_sorted al_createdAt to) at 1 by by apply StronglySorted_lfilter. f_equal.
  clear. induction l as [|r l IH]; [done|]. cbn. unfold inRange at 1.
  destruct (decide (al_createdAt r < from)%Z).
  - rewrite bool_decide_eq_true_2 by done. cbn. by rewrite (bool_decide_eq_false_2 (from <= _)%Z) by lia.
  - rewrite bool_decide_eq_false_2 by done. cbn. rewrite (bool_decide_eq_true_2 (from <= _)%Z) by lia. cbn.
    destruct (al_createdAt r <? to); [by rewrite <- IH|done].
Qed.

Section intact.
Context `{Locale, Platform, NodeCrypto} {HL : NodeCryptoLaws} `{Env}.

Lemma hmacMatches_refl key s : hmacMatches (hmacSha256Hex key s) (hmacSha256Hex key s) = true.
Proof using HL.
  unfold hmacMatches. destruct (hmac_hex key s) as (d & Hd & ->). rewrite fromHex_toHex.
  rewrite (bool_decide_eq_true_2 (String.length d = _)) by done. cbn [negb].
  rewrite bool_decide_eq_false_2 by by destruct d. by apply bool_decide_eq_true_2.
Qed.

Lemma reasonOf_none db key kv p r :
  signed key r -> al_keyVersion r = kv ->
  al_previousEntryHmac r = p \/ (exists h, al_previousEntryHmac r = Some h /\ attested db (al_orgId r) h) ->
  reasonOf db key kv p r = None.
Proof using HL.
  intros Hsig Hkv Hp. unfold reasonOf. rewrite Hsig. unfold computeAuditHmac. rewrite hmacMatches_refl.
  rewrite bool_decide_eq_true_2 by done. cbn [negb].
  destruct Hp as [E|(h & E & x & Hx & Ha)]; [by rewrite bool_decide_eq_true_2|]. rewrite E.
  assert (Hex : existsb (attestsGap (al_orgId r) h) (db_audit db) = true)
    by (apply existsb_exists; exists x; by rewrite <- list_elem_of_In).
  rewrite Hex, orb_true_r. done.
Qed.

Lemma failures_none db key kv p rows :
  Forall (signed key) rows -> Forall (fun r => al_keyVersion r = kv) rows -> linkedFrom p rows ->
  failures db key kv p rows = [].
Proof using HL.
  revert p. induction rows as [|r rows IH]; intros p Hs Hk Hl; [done|].
  apply Forall_cons in Hs as [Hr Hs]. apply Forall_cons in Hk as [Hkr Hk]. destruct Hl as [Hp Hl].
  cbn. rewrite reasonOf_none by auto. by apply IH.
Qed.

(** The row before a segment of the chain. *)
Lemma predecessorHmac_app db org pre r seg :
  StronglySorted seqLt (db_audit db) -> Forall (fun x => al_orgId x = org) (db_audit db) ->
  (exists post, db_audit db = pre ++ (r :: seg) ++ post) ->
  predecessorHmac db (r :: seg) = al_hmac <$> last pre.
Proof.
  intros Hs Horg (post & E). unfold predecessorHmac. f_equal.
  assert (Hf : List.filter (fun x => (al_orgId x =? al_orgId r) && (al_chainSeq x <? al_chainSeq r)) (db_audit db) = pre).
  { rewrite E in Hs, Horg |- *. apply Forall_app in Horg as [Hop Horg]. cbn in Horg.
    apply Forall_cons in Horg as [Hor Horg]. rewrite List.filter_app.
    apply StronglySorted_app in Hs as (Hpre & Hsp & Hss).
    rewrite forallb_filter_id.
    - rewrite <- (app_nil_r pre) at 2. f_equal. apply lfilter_none. intros x Hx. apply andb_false_iff. right.
      apply bool_decide_eq_false_2. apply StronglySorted_inv in Hss as [_ Hall]. cbn in Hx.
      apply elem_of_cons in Hx as [->|Hx]; [lia|]. apply (proj1 (Forall_forall _ _) Hall) in Hx.
      unfold seqLt in Hx. lia.
    - apply forallb_forall. intros x Hx%list_elem_of_In.
      pose proof (proj1 (Forall_forall _ _) Hop x Hx) as Hox. cbn in Hox.
      rewrite Hox, Hor, bool_decide_eq_true_2 by done.
      apply bool_decide_eq_true_2. specialize (Hpre x r Hx ltac:(by left)). unfold seqLt in Hpre. lia. }
  rewrite Hf. apply isort_head_desc. rewrite E in Hs. by apply StronglySorted_app in Hs as (_ & Hs & _).
Qed.

Lemma predecessorHmac_first db org rows :
  StronglySorted seqLt (db_audit db) -> Forall (fun x => al_orgId x = org) (db_audit db) ->
  db_audit db = rows -> predecessorHmac db rows = None.
Proof.
  intros Hs Ho E. destruct rows as [|r rows]; [done|].
  rewrite (predecessorHmac_app db org []); [done|done|done|]. exists []. by rewrite app_nil_r.
Qed.

Lemma chainOf_all db org : Forall (fun r => al_orgId r = org) (db_audit db) -> chainOf db org = db_audit db.
Proof.
  intros Ho. unfold chainOf. apply forallb_filter_id, forallb_forall. intros x Hx%list_elem_of_In.
  apply bool_decide_eq_true_2. by apply (proj1 (Forall_forall _ _) Ho).
Qed.

(** C26: Verification of an intact chain whose rows were created in chain order
    passes: every row of any range is counted as passed and nothing is
    reported, also right after a purge whose gap is attested. *)
Theorem verify_intact (orgId : Uuid) (from to : Date) (key : string) (w : World)
    (Hkey : w_auditKey w = Some key) (Hrange : (from <= to)%Z)
    (Hspan : (to - from <= AUDIT_VERIFY_MAX_RANGE_DAYS * MS_PER_DAY)%Z)
    (Hchain : ChainOk (w_db w) orgId key)
    (Horg : Forall (fun r => al_orgId r = orgId) (db_audit (w_db w)))
    (Hversion : Forall (fun r => al_keyVersion r = auditKeyVersionOf (w_db w)) (db_audit (w_db w)))
    (Hcreated : StronglySorted createdLe (db_audit (w_db w)))
    (Hmax : length (List.filter (inRange from to) (db_audit (w_db w))) <= AUDIT_VERIFY_MAX_ROWS) :
  exists r, verifyAuditRange from to w = (Ok r, w <| w_tick ::= S |>) /\ vr_failedCount r = 0 /\
    vr_failed r = [] /\ vr_passed r = length (List.filter (inRange from to) (db_audit (w_db w))).
Proof.
  destruct Hchain as [[Hseq _] Hsig (p & Hlink & Hp)].
  rewrite chainOf_all in Hsig, Hlink by done.
  destruct (range_segment from to _ Hcreated Hrange) as (pre & post & E).
  set (seg := List.filter (inRange from to) (db_audit (w_db w))) in *.
  assert (Hsort : isort seqLe seg = seg) by (apply isort_sorted_asc, StronglySorted_lfilter, Hseq).
  destruct (verifyAuditRange_lemma from to key w Hkey Hrange Hspan) as (r & Hr & Hrep).
  { fold seg. by rewrite Hsort. }
  fold seg in Hrep. rewrite Hsort in Hrep.
  assert (Hf : failures (w_db w) key (auditKeyVersionOf (w_db w)) (predecessorHmac (w_db w) seg) seg = []).
  { destruct seg as [|x seg'] eqn:Eseg; [done|].
    rewrite E in Hsig, Hlink, Hversion. rewrite !Forall_app in Hsig, Hversion.
    apply linkedFrom_app in Hlink as [_ Hlink]. apply linkedFrom_app in Hlink as [Hlink _].
    rewrite (predecessorHmac_app _ orgId pre) by (try done; by exists post).
    destruct (last pre) as [y|]; [by apply failures_none; tauto|]. cbn [option_map fmap option_fmap].
    destruct Hsig as (_ & Hsx & _), Hversion as (_ & Hvx & _).
    apply Forall_cons in Hsx as [Hsx Hss]. apply Forall_cons in Hvx as [Hvx Hvv].
    destruct Hlink as [Hlx Hlink]. cbn [failures].
    rewrite reasonOf_none; [by apply failures_none|done|done|].
    destruct p as [h|]; [right; exists h|by left]. split; [done|].
    assert (al_orgId x = orgId) as ->; [|done]. apply (proj1 (Forall_forall _ _) Horg).
    rewrite E. apply elem_of_app. right. by left. }
  rewrite Hf in Hrep. destruct Hrep as (_ & Hpass & Hcnt & Hfl & _). exists r.
  split; [done|]. split; [done|]. split; [done|]. rewrite Hpass. cbn. lia.
Qed.

Lemma failures_app db key kv p l k :
  failures db key kv p (l ++ k) = failures db key kv p l ++
    failures db key kv (match last l with Some r => Some (al_hmac r) | None => p end) k.
Proof.
  revert p. induction l as [|x l IH]; intros p; [done|]. cbn [app failures].
  assert (El : match last (x :: l) with Some r => Some (al_hmac r) | None => p end =
    match last l with Some r => Some (al_hmac r) | None => Some (al_hmac x) end).
  { destruct l as [|y l]; [done|]. rewrite last_cons_cons.
    destruct (last (y :: l)) eqn:El; [done|]. by apply last_None in El. }
  rewrite El. destruct (reasonOf _ _ _ _ _); cbn [app]; by rewrite IH.
Qed.

(** The end of a chain, walked from the row before it. *)
Lemma failures_suffix db org key kv p pre seg :
  Forall (signed key) seg -> Forall (fun r => al_keyVersion r = kv) seg -> Forall (fun r => al_orgId r = org) seg ->
  linkedFrom p (pre ++ seg) -> startsAt db org p -> failures db key kv (al_hmac <$> last pre) seg = [].
Proof using HL.
  intros Hsig Hkv Horg [_ Hlink]%linkedFrom_app Hp. destruct (last pre) as [y|]; [by apply failures_none|].
  destruct seg as [|x seg]; [done|]. cbn [fmap option_fmap option_map failures].
  apply Forall_cons in Hsig as [Hsx Hsig], Hkv as [Hkx Hkv], Horg as [Hox _]. destruct Hlink as [Hlx Hlink].
  rewrite reasonOf_none; [by apply failures_none|done|done|].
  destruct p as [h|]; [right; exists h; by rewrite Hox|by left].
Qed.

(** The rows of a range, on both sides of one of them. *)
Lemma range_around from to pre x post :
  StronglySorted createdLe (pre ++ x :: post) -> inRange from to x = true ->
  exists a b, pre = a ++ List.filter (inRange from to) pre /\ post = List.filter (inRange from to) post ++ b.
Proof.
  intros (Hpx & Hs1 & Hs2)%StronglySorted_app Hx. apply StronglySorted_inv in Hs2 as [Hs2 Hall].
  unfold inRange in Hx. apply andb_prop in Hx as [Hfrom%bool_decide_eq_true_1 Hto%bool_decide_eq_true_1].
  exists (List.filter (fun r => al_createdAt r <? from) pre), (List.filter (fun r => negb (al_createdAt r <? to)) post).
  split.
  - rewrite (split_sorted al_createdAt from pre Hs1) at 1. f_equal. apply lfilter_ext. intros r Hr.
    specialize (Hpx r x Hr ltac:(by left)). unfold createdLe in Hpx. unfold inRange.
    rewrite (bool_decide_eq_true_2 (al_createdAt r < to)%Z), andb_true_r by lia.
    rewrite <- bool_decide_not. apply bool_decide_ext. lia.
  - rewrite (split_sorted al_createdAt to post Hs2) at 1. f_equal. apply lfilter_ext. intros r Hr.
    apply (proj1 (Forall_forall _ _) Hall) in Hr. unfold createdLe in Hr. unfold inRange.
    by rewrite (bool_decide_eq_true_2 (from <= al_createdAt r)%Z) by lia.
Qed.

Lemma reasonOf_break db org key kv p r h :
  signed key r -> al_keyVersion r = kv -> al_orgId r = org -> al_previousEntryHmac r = Some h ->
  p <> Some h -> ~ attested db org h -> reasonOf db key kv p r = Some chain_break.
Proof using HL.
  intros Hsig Hkv Ho Hprev Hne Hun. unfold reasonOf. rewrite Hsig at 1. unfold computeAuditHmac.
  rewrite hmacMatches_refl, Hkv, bool_decide_eq_true_2 by done. cbn [negb]. rewrite Hprev.
  rewrite bool_decide_eq_false_2 by congruence. cbn [orb]. destruct (existsb _ _) eqn:Ex; [|done].
  exfalso. apply Hun. apply existsb_exists in Ex as (x & Hx%list_elem_of_In & Ha). rewrite Ho in Ha. by exists x.
Qed.

(** C27: Rows deleted from the middle or the start of a chain are reported.  From
    a chain of one organisation and one key version, whose rows are linked,
    signed, in the order of their times and start at a genesis row or an
    attested gap, a run of consecutive rows is deleted that does not reach the
    newest row.  Then verification of any range that holds the row that
    followed the run reports this row as a chain break, and nothing else;
    provided that the last deleted row's HMAC is not that of the row left in
    front of the gap, and no row left attests it as a purge's.  (Without the
    newest rows an intact chain is left, [ChainOk_truncated]: their deletion is
    not reported.) *)
Theorem deleted_row_detected (orgId : Uuid) (from to : Date) (key : string) (w : World)
    (p : option string) (pre gone post : list AuditRow) (deleted next : AuditRow)
    (Hkey : w_auditKey w = Some key) (Hrange : (from <= to)%Z)
    (Hspan : (to - from <= AUDIT_VERIFY_MAX_RANGE_DAYS * MS_PER_DAY)%Z)
    (Hseq : StronglySorted seqLt (pre ++ gone ++ deleted :: next :: post))
    (Hsigned : Forall (signed key) (pre ++ gone ++ deleted :: next :: post))
    (Hlinked : linkedFrom p (pre ++ gone ++ deleted :: next :: post))
    (Hstart : startsAt (w_db w) orgId p)
    (Hrows : db_audit (w_db w) = pre ++ next :: post)
    (Horg : Forall (fun r => al_orgId r = orgId) (pre ++ next :: post))
    (Hversion : Forall (fun r => al_keyVersion r = auditKeyVersionOf (w_db w)) (pre ++ next :: post))
    (Hcreated : StronglySorted createdLe (pre ++ next :: post))
    (Hnext : inRange from to next = true)
    (Hmax : length (List.filter (inRange from to) (db_audit (w_db w))) <= AUDIT_VERIFY_MAX_ROWS)
    (Hdistinct : al_hmac <$> last pre <> Some (al_hmac deleted))
    (Hunattested : ~ attested (w_db w) orgId (al_hmac deleted)) :
  exists r, verifyAuditRange from to w = (Ok r, w <| w_tick ::= S |>) /\ vr_failedCount r = 1 /\
    vr_failed r = [entryOf (next, chain_break)] /\
    vr_rowsChecked r = length (List.filter (inRange from to) (db_audit (w_db w))).
Proof.
  assert (Hseq' : StronglySorted seqLt (db_audit (w_db w))).
  { rewrite Hrows. clear -Hseq. apply StronglySorted_app in Hseq as (Hpq & Hsp & Hsq).
    rewrite (app_assoc gone [deleted] (next :: post) : gone ++ deleted :: next :: post = _) in Hpq, Hsq.
    apply StronglySorted_app in Hsq as (_ & _ & Hsq).
    apply StronglySorted_app. split; [|done]. intros x y Hx Hy. apply Hpq; [done|]. apply elem_of_app. by right. }
  destruct (range_around from to pre next post Hcreated Hnext) as (a & b & Epre & Epost).
  set (sp := List.filter (inRange from to) pre) in *. set (sq := List.filter (inRange from to) post) in *.
  assert (Hseg : List.filter (inRange from to) (db_audit (w_db w)) = sp ++ next :: sq).
  { rewrite Hrows, List.filter_app. cbn. by rewrite Hnext. }
  destruct (verifyAuditRange_lemma from to key w Hkey Hrange Hspan) as (r & Hr & Hrep).
  { by rewrite isort_sorted_asc by by apply StronglySorted_lfilter. }
  rewrite isort_sorted_asc, Hseg in Hrep by by apply StronglySorted_lfilter.
  set (kv := auditKeyVersionOf (w_db w)) in *.
  assert (Hpred : predecessorHmac (w_db w) (sp ++ next :: sq) = al_hmac <$> last a).
  { destruct (sp ++ next :: sq) as [|x seg] eqn:E; [by destruct sp|].
    apply (predecessorHmac_app _ orgId); [done|by rewrite Hrows|]. exists b.
    by rewrite <- E, Hrows, Epre, Epost at 1; rewrite <- !app_assoc. }
  apply Forall_app in Hsigned as [Hs1 Hs2], Hversion as [Hv1 Hv2], Horg as [Ho1 Ho2].
  apply Forall_app in Hs2 as [_ Hs2]. apply Forall_cons in Hs2 as [_ Hs2].
  apply Forall_cons in Hs2 as [Hsn Hs2], Hv2 as [Hvn Hv2], Ho2 as [Hon _].
  apply linkedFrom_app in Hlinked as [Hl1 Hl2]. apply linkedFrom_app in Hl2 as [_ (_ & Hln & Hl2)].
  rewrite Epost in Hs2, Hv2, Hl2. apply Forall_app in Hs2 as [Hs2 _], Hv2 as [Hv2 _].
  apply linkedFrom_app in Hl2 as [Hl2 _].
  assert (Hf : failures (w_db w) key kv (al_hmac <$> last a) (sp ++ next :: sq) = [(next, chain_break)]).
  { rewrite failures_app.
    rewrite Epre in Hs1, Hv1, Ho1, Hl1. apply Forall_app in Hs1 as [_ Hs1], Hv1 as [_ Hv1], Ho1 as [_ Ho1].
    rewrite (failures_suffix _ orgId key kv p) by done. cbn [app failures].
    rewrite (reasonOf_break _ orgId key kv _ next (al_hmac deleted)); [by rewrite failures_none|done..| |done].
    intros E. apply Hdistinct. rewrite Epre, last_app, <- E. by destruct (last sp). }
  rewrite Hpred, Hf in Hrep. destruct Hrep as (Hn & _ & Hcnt & Hfl & _). exists r. by rewrite Hseg.
Qed.

(** Without its newest rows a chain is intact: nothing tells how long it was. *)
Lemma ChainOk_truncated (orgId : Uuid) (key : string) (db : Db) (rows newest : list AuditRow) :
  ChainOk db orgId key -> db_audit db = rows ++ newest ->
  Forall (fun r => al_eventType r <> RETENTION_PURGE_BOUNDARY) newest ->
  ChainOk (db <| db_audit := rows |>) orgId key.
Proof.
  intros [[Hs Hle] Hsig (p & Hl & Hp)] E Hnew. unfold chainOf in *. rewrite E, ?List.filter_app in *.
  apply StronglySorted_app in Hs as (_ & Hs & _). apply Forall_app in Hle as [Hle _], Hsig as [Hsig _].
  apply linkedFrom_app in Hl as [Hl _]. constructor; [by split|done|]. exists p. split; [done|].
  destruct p as [h|]; [|done]. destruct Hp as (r & Hr & Ha). exists r. split; [|done]. cbn.
  rewrite E in Hr. apply elem_of_app in Hr as [Hr|Hr]; [done|]. exfalso.
  apply (proj1 (Forall_forall _ _) Hnew r Hr). unfold attestsGap in Ha. by bool_simpl.
Qed.
End intact.

(** ** Retention *)

Section retention.
Context `{Locale, Platform, NodeCrypto, Env}.

Lemma deleteWhere_audit p w :
  deleteWhere db_audit p w =
    (Ok tt, w <| w_db := (w_db w) <| db_audit := List.filter (fun r => negb (p r)) (db_audit (w_db w)) |> |>).
Proof. destruct w as [db]. by destruct db. Qed.

Lemma purgeExpiredAuditLogEntries_eq orgId cutoff w :
  let expired r := (al_orgId r =? orgId) && (al_createdAt r <? cutoff) in
  purgeExpiredAuditLogEntries orgId cutoff w =
    (Ok (length (List.filter expired (db_audit (w_db w)))),
     w <| w_db := (w_db w) <| db_audit := List.filter (fun r => negb (expired r)) (db_audit (w_db w)) |> |>).
Proof.
  unfold purgeExpiredAuditLogEntries, selectWhere, mbind, M_bind. cbv beta iota zeta.
  by rewrite deleteWhere_audit.
Qed.

(** The rows a purge keeps, and the first of them. *)
Lemma purge_split org cutoff l :
  Forall (fun r => al_orgId r = org) l -> StronglySorted createdLe l -> StronglySorted seqLt l ->
  exists pre, l = pre ++ List.filter (fun r => negb ((al_orgId r =? org) && (al_createdAt r <? cutoff))) l /\
    length (List.filter (fun r => (al_orgId r =? org) && (al_createdAt r <? cutoff)) l) = length pre /\
    head (isort seqLe (List.filter (fun r => (al_orgId r =? org) && (cutoff <=? al_createdAt r)) l)) =
      head (List.filter (fun r => negb ((al_orgId r =? org) && (al_createdAt r <? cutoff))) l).
Proof.
  intros Ho Hc Hs.
  assert (E1 : List.filter (fun r => negb ((al_orgId r =? org) && (al_createdAt r <? cutoff))) l =
    List.filter (fun r => negb (al_createdAt r <? cutoff)) l).
  { apply lfilter_ext. intros r Hr. apply (proj1 (Forall_forall _ _) Ho) in Hr. by rewrite bool_decide_eq_true_2. }
  assert (E2 : List.filter (fun r => (al_orgId r =? org) && (al_createdAt r <? cutoff)) l =
    List.filter (fun r => al_createdAt r <? cutoff) l).
  { apply lfilter_ext. intros r Hr. apply (proj1 (Forall_forall _ _) Ho) in Hr. by rewrite bool_decide_eq_true_2. }
  assert (E3 : List.filter (fun r => (al_orgId r =? org) && (cutoff <=? al_createdAt r)) l =
    List.filter (fun r => negb (al_createdAt r <? cutoff)) l).
  { apply lfilter_ext. intros r Hr. apply (proj1 (Forall_forall _ _) Ho) in Hr. rewrite bool_decide_eq_true_2 by done.
    rewrite <- bool_decide_not. apply bool_decide_ext. lia. }
  exists (List.filter (fun r => al_createdAt r <? cutoff) l). rewrite E1, E2, E3.
  split; [by apply split_sorted|]. split; [done|].
  by rewrite isort_sorted_asc by by apply StronglySorted_lfilter.
Qed.

(** The text of the hash the tombstone attests. *)
Lemma tombstone_attests org gap payload r :
  al_orgId r = org -> al_eventType r = RETENTION_PURGE_BOUNDARY -> al_payload r = JObj payload ->
  getProp "attestedGapHash" payload = Some (JStr gap) -> attestsGap org gap r = true.
Proof.
  intros Ho He Hp Hg. unfold attestsGap, payloadText. rewrite Ho, He, Hp, Hg. by rewrite !bool_decide_eq_true_2.
Qed.

(** The chain after a purge that attested what it removed. *)
Lemma ChainOk_attested w w' f row org key pre kept :
  appended w w' f row -> f = storedFields row -> al_orgId row = org -> w_auditKey w = Some key ->
  sequenced (w_db w) -> Forall (signed key) (pre ++ kept) ->
  (exists p, linkedFrom p (pre ++ kept)) -> chainOf (w_db w) org = kept ->
  (forall r, head kept = Some r -> exists h, al_previousEntryHmac r = Some h /\ attestsGap org h row = true) ->
  kept <> [] -> ChainOk (w_db w') org key.
Proof.
  intros Happ Ef Eo Hkey Hseq Hsig (p & Hlink) Hkept Hhead Hne.
  apply Forall_app in Hsig as [_ Hsig]. apply linkedFrom_app in Hlink as [_ Hlink].
  destruct kept as [|r kept]; [done|]. destruct (Hhead r eq_refl) as (h & Hh & Hatt).
  destruct Hlink as [Hr Hlink]. rewrite Hh in Hr.
  pose proof Happ as [(k & Ek & Eh) Eprev _ Eseq _ _ (n & usage & ->)]. rewrite Hkey in Ek. simplify_eq.
  destruct Hseq as [Hs Hle]. constructor.
  - split; cbn.
    + apply StronglySorted_snoc; [done|]. eapply Forall_impl; [exact Hle|]. cbn. unfold seqLt. lia.
    + apply Forall_app. split; [|by constructor]. eapply Forall_impl; [exact Hle|]. cbn. lia.
  - rewrite chainOf_app, bool_decide_eq_true_2, Hkept by done. apply Forall_app. split; [done|].
    by repeat constructor.
  - rewrite chainOf_app, bool_decide_eq_true_2, Hkept by done. exists (Some h). split.
    + apply linkedFrom_app. split; [by split|]. split; [|done]. rewrite Eprev. unfold tailHmac. rewrite Hkept.
      destruct (last (r :: kept)) eqn:El; [done|]. by apply last_None in El.
    + exists row. split; [|done]. cbn. apply elem_of_app. right. by left.
Qed.

Lemma pruneOrgAuditLogEntries_lemma orgId key w :
  w_auditKey w = Some key -> ChainOk (w_db w) orgId key ->
  Forall (fun r => al_orgId r = orgId) (db_audit (w_db w)) ->
  StronglySorted createdLe (db_audit (w_db w)) ->
  wp (transaction (pruneOrgAuditLogEntries orgId)) (fun _ w' => ChainOk (w_db w') orgId key) w.
Proof.
  intros Hkey HC Horg Hcreated. apply wp_transaction. unfold pruneOrgAuditLogEntries.
  eapply wp_bind_eq; [reflexivity|]. destruct (_ ≫= _) as [days|]; [|by apply wp_ret].
  eapply wp_bind_eq; [reflexivity|]. eapply wp_bind_eq; [reflexivity|].
  set (cutoff := (_ - _)%Z). cbn [w_db setter].
  destruct HC as [[Hseq Hle] Hsig (p & Hlink & Hp)]. rewrite chainOf_all in Hsig, Hlink by done.
  destruct (purge_split orgId cutoff _ Horg Hcreated Hseq) as (pre & E & Hlen & Hhd).
  set (kept := List.filter (fun r => negb _) (db_audit (w_db w))) in *.
  eapply wp_bind_eq; [apply purgeExpiredAuditLogEntries_eq|]. cbn [w_db setter]. rewrite Hlen.
  match goal with |- wp _ _ ?w' => set (w1 := w') end.
  assert (Hc1 : chainOf (w_db w1) orgId = kept).
  { apply chainOf_all. cbn. fold kept. rewrite E in Horg. by apply Forall_app in Horg as [_ Horg]. }
  assert (Hq1 : sequenced (w_db w1)).
  { split; cbn; fold kept; rewrite E in Hseq, Hle.
    - by apply StronglySorted_app in Hseq as (_ & _ & Hseq).
    - by apply Forall_app in Hle as [_ Hle]. }
  rewrite E in Hsig, Hlink.
  assert (Hdone : forall p', linkedFrom p' kept -> startsAt (w_db w1) orgId p' -> ChainOk (w_db w1) orgId key).
  { intros p' Hlp Hsp. constructor; [done| |]; rewrite Hc1; [|by exists p'].
    by apply Forall_app in Hsig as [_ Hsig]. }
  cbn [w_db setter] in Hhd |- *.
  destruct (head (isort seqLe _) ≫= al_previousEntryHmac) as [gap|] eqn:Egap; cycle 1.
  { apply wp_ret. apply (Hdone None); [|done]. apply linkedFrom_app in Hlink as [_ Hlink].
    destruct kept as [|r kept']; [done|]. rewrite Hhd in Egap. cbn in Egap.
    destruct Hlink as [_ Hlink]. by split. }
  rewrite Hhd in Egap. destruct kept as [|r kept'] eqn:Ek; [done|]. cbn in Egap.
  case_bool_decide as Hpos; cycle 1.
  { apply wp_ret. assert (pre = []) as -> by (destruct pre; [done|cbn in Hpos; lia]).
    apply (Hdone p); [done|]. destruct p as [h|]; [|done]. destruct Hp as (x & Hx & Ha).
    exists x. split; [|done]. cbn. rewrite E in Hx. subst kept. rewrite Ek. exact Hx. }
  apply wp_bind. unfold writeSystemAuditEntry. apply wp_bind.
  eapply wp_mono; [apply gates_frame|]. intros [[]|e] w2 (n & usage & ->); cycle 1.
  { cbn. constructor; [by split| |exists p]; by rewrite chainOf_all, E. }
  eapply wp_mono; [apply appendAuditRow_spec; exact Hq1|]. intros [row|e] w3 Hrow; cycle 1.
  { cbn. constructor; [by split| |exists p]; by rewrite chainOf_all, E. }
  destruct (Hrow row eq_refl) as (Happ & Ho & _ & _ & He & Er & _ & Epay). apply wp_ret.
  eapply (ChainOk_attested _ _ _ row orgId key pre (r :: kept')); try exact Happ; try done.
  - unfold storedFields in Happ |- *. cbn in Er |- *. rewrite Er. f_equal.
    all: try (symmetry; apply Hrow; done).
  - by exists p.
  - intros r' [= <-]. exists gap. split; [done|]. by eapply tombstone_attests.
Qed.
End retention.

(** ** Claims on retention and on the limits of verification *)

Section audit_claims.
Context `{Locale, Platform, NodeCrypto} {HL : NodeCryptoLaws} `{Env}.

(** The retention worker keeps the chain intact: it removes the rows older
    than the cutoff, and when rows remain that carried the HMAC of a removed
    one it appends a tombstone that attests this gap; if the tombstone cannot
    be written nothing is removed. *)
Theorem prune_preserves_chain (orgId : Uuid) (key : string) (w : World)
    (Hkey : w_auditKey w = Some key) (Hchain : ChainOk (w_db w) orgId key)
    (Horg : Forall (fun r => al_orgId r = orgId) (db_audit (w_db w)))
    (Hcreated : StronglySorted createdLe (db_audit (w_db w))) :
  wp (transaction (pruneOrgAuditLogEntries orgId)) (fun _ w' => ChainOk (w_db w') orgId key) w.
Proof. by apply pruneOrgAuditLogEntries_lemma. Qed.

Lemma hmacMatches_eq key a b :
  hmacMatches (hmacSha256Hex key a) (hmacSha256Hex key b) = true -> hmacSha256Hex key a = hmacSha256Hex key b.
Proof using HL.
  destruct (hmac_hex key a) as (d & _ & ->), (hmac_hex key b) as (d' & _ & ->). unfold hmacMatches.
  rewrite !fromHex_toHex. destruct (negb _); [done|]. destruct (_ =? 0); [done|]. intros E. bool_simpl. by subst.
Qed.

(** A row that [writeSystemAuditRow] writes for a resource does not verify:
    the resource is stored and hashed by the verifier, but was not hashed by
    the writer. The row, untouched, is reported as tampered with, unless the
    HMACs of the two different contents collide. *)
Theorem system_row_with_resource_fails (orgId resourceId : Uuid) (eventType : string)
    (payload : list (string * Json)) (key : string) (keyVersion : Z) (p : option string) (w : World)
    (Hkey : w_auditKey w = Some key) (Hseq : sequenced (w_db w)) :
  wp (writeSystemAuditRow orgId eventType (Some resourceId) payload)
    (fun o w' => forall row, o = Ok row ->
       let unhashed := {| hf_orgId := orgId; hf_actorTokenId := None; hf_actorType := "system";
         hf_eventType := eventType; hf_resourceId := None; hf_resourceType := None;
         hf_payload := JObj payload; hf_keyVersion := al_keyVersion row;
         hf_previousEntryHmac := default GENESIS_SENTINEL (al_previousEntryHmac row) |} in
       al_resourceId row = Some resourceId /\
       (evaluateAuditRow row key keyVersion p w' = (Ok (Some hmac_mismatch, al_hmac row), w') \/
        computeAuditHmac (storedFields row) key = computeAuditHmac unhashed key)) w.
Proof using HL.
  unfold writeSystemAuditRow. apply wp_bind. eapply wp_mono; [apply gates_frame|].
  intros [[]|e] w1 Hu; [|done]. pose proof Hu as (n & usage & ->).
  eapply wp_mono; [apply appendAuditRow_spec; exact Hseq|].
  intros o w2 Hrow row ->. destruct (Hrow row eq_refl) as ([(k & Ek & Eh) _ _ _ _ _ _] & _ & _ & _ & _ & Er & _ & _).
  cbn in Ek. rewrite Hkey in Ek. simplify_eq. cbv zeta. split; [done|].
  rewrite evaluateAuditRow_spec. unfold reasonOf.
  destruct (hmacMatches _ _) eqn:Em; [right|by left].
  rewrite Eh in Em. unfold computeAuditHmac in *. apply hmacMatches_eq in Em. symmetry. exact Em.
Qed.
End audit_claims.

(** ** Witnesses *)

Definition auditDb : Db := emptyDb <| db_vaultState := [MkVaultStateRow 1 1] |>.

(** A system entry written at a time of its own. *)
Definition writeAt (now : Date) (w : World) : World :=
  snd (@transaction unit (@runWrite byteLocale toyPlatform toyCrypto toyEnv
    (WriteSystem 1 "SESSION_REVOKED" None None [("n", JInt now)])) (w <| w_now := now |>)).

Definition toyChain (times : list Date) : World := foldl (fun w t => writeAt t w) (worldOf auditDb) times.

Lemma ChainOk_auditDb : @ChainOk byteLocale toyCrypto auditDb 1 key32.
Proof. constructor; [split; constructor|constructor|by exists None]. Qed.

Lemma writeAt_ok t w :
  w_auditKey w = Some key32 -> @ChainOk byteLocale toyCrypto (w_db w) 1 key32 ->
  @ChainOk byteLocale toyCrypto (w_db (writeAt t w)) 1 key32.
Proof.
  intros Hk HC.
  pose proof (@runWrite_ChainOk byteLocale toyPlatform toyCrypto toyEnv
    (WriteSystem 1 "SESSION_REVOKED" None None [("n", JInt t)]) 1 key32 (w <| w_now := t |>) Hk eq_refl HC) as Hw.
  exact (wp_snd _ (fun w => ChainOk (w_db w) 1 key32) _ Hw).
Qed.

Lemma audit_writers_preserve_chain_witness :
  let write := WriteSystemRow 1 "rotation.stale_detected" None [("stale", JInt 2)] in
  let w := worldOf auditDb in
  let '(out, w') := @transaction unit (@runWrite byteLocale toyPlatform toyCrypto toyEnv write) w in
  map al_payload (db_audit (w_db w')) = [JObj [("stale", JInt 2)]] /\
  match out with
  | Ok _ => @extendedBy byteLocale toyCrypto (writtenBy write) key32 w w'
  | Throw x => False
  end /\ @ChainOk byteLocale toyCrypto (w_db w') 1 key32.
Proof.
  intros write w.
  pose proof (@audit_writers_preserve_chain byteLocale toyPlatform toyCrypto toyEnv write key32 w eq_refl
    (ck_sequenced _ _ _ ChainOk_auditDb)) as Hw.
  assert (E : fst (@transaction unit (@runWrite byteLocale toyPlatform toyCrypto toyEnv write) w) = Ok tt /\
    map al_payload (db_audit (w_db (snd (@transaction unit (@runWrite byteLocale toyPlatform toyCrypto toyEnv write) w))))
      = [JObj [("stale", JInt 2)]]) by (vm_compute; split; reflexivity).
  cbv zeta in Hw. unfold wp in Hw. destruct (transaction _ w) as [[[]|x] w']; [|by destruct E].
  destruct Hw as (Hext & _ & HC). split; [exact (proj2 E)|]. split; [exact Hext|].
  apply HC; [by left|exact ChainOk_auditDb].
Defined.

(** Three rows, in the order of their times. *)
Definition orderedChain : World := toyChain [1700000001000; 1700000002000; 1700000003000]%Z.

Lemma orderedChain_ok : @ChainOk byteLocale toyCrypto (w_db orderedChain) 1 key32.
Proof.
  unfold orderedChain, toyChain. cbn [foldl].
  do 3 (apply writeAt_ok; [vm_compute; reflexivity|]). exact ChainOk_auditDb.
Qed.

Lemma orderedChain_created : StronglySorted createdLe (db_audit (w_db orderedChain)).
Proof. vm_compute. repeat constructor; discriminate. Qed.

Lemma verify_intact_witness :
  exists r, @verifyAuditRange byteLocale toyPlatform toyCrypto 1700000001500 1700000009000 orderedChain =
    (Ok r, orderedChain <| w_tick ::= S |>) /\ vr_failedCount r = 0 /\ vr_failed r = [] /\
    vr_passed r = length (List.filter (inRange 1700000001500 1700000009000) (db_audit (w_db orderedChain))).
Proof.
  apply (@verify_intact byteLocale toyPlatform toyCrypto toyCrypto_laws 1 _ _ key32).
  - reflexivity.
  - lia.
  - by vm_compute.
  - exact orderedChain_ok.
  - vm_compute. repeat constructor.
  - vm_compute. repeat constructor.
  - exact orderedChain_created.
  - apply Nat.leb_le. by vm_compute.
Defined.

Lemma verifyAuditRange_spec_witness :
  exists r, @verifyAuditRange byteLocale toyPlatform toyCrypto 1700000000000 1700000009000 orderedChain =
    (Ok r, orderedChain <| w_tick ::= S |>) /\ vr_rowsChecked r = 3.
Proof.
  destruct (@verifyAuditRange_spec byteLocale toyPlatform toyCrypto 1700000000000 1700000009000 key32
    orderedChain) as (r & Hr & Hrep).
  - reflexivity.
  - lia.
  - by vm_compute.
  - apply Nat.leb_le. by vm_compute.
  - exists r. split; [exact Hr|]. exact (proj1 Hrep).
Defined.

(** The middle row removed. *)
Definition without (n : nat) (w : World) : World :=
  w <| w_db := (w_db w) <| db_audit := take n (db_audit (w_db w)) ++ drop (S n) (db_audit (w_db w)) |> |>.
Definition rowAt (n : nat) : AuditRow :=
  default (MkAuditRow 0 0 0 None None "" "" None None None None JNull None 0 "" 0 None)
    (db_audit (w_db orderedChain) !! n).

(** The range starts after the row in front of the gap. *)
Lemma deleted_row_detected_witness :
  exists r, @verifyAuditRange byteLocale toyPlatform toyCrypto 1700000001500 1700000009000 (without 1 orderedChain) =
    (Ok r, (without 1 orderedChain) <| w_tick ::= S |>) /\ vr_failedCount r = 1 /\
    vr_failed r = [entryOf (rowAt 2, chain_break)] /\
    vr_rowsChecked r = length (List.filter (inRange 1700000001500 1700000009000) (db_audit (w_db (without 1 orderedChain)))).
Proof.
  apply (@deleted_row_detected byteLocale toyPlatform toyCrypto toyCrypto_laws 1 _ _ key32
    (without 1 orderedChain) None [rowAt 0] [] [] (rowAt 1) (rowAt 2)).
  - reflexivity.
  - lia.
  - by vm_compute.
  - vm_compute. repeat constructor.
  - cbn [app]. do 3 (apply Forall_cons; split; [by vm_compute|]). by apply Forall_nil.
  - split; [by vm_compute|]. split; [by vm_compute|]. by split; [vm_compute|].
  - exact I.
  - vm_compute. reflexivity.
  - do 2 (apply Forall_cons; split; [by vm_compute|]). by apply Forall_nil.
  - do 2 (apply Forall_cons; split; [by vm_compute|]). by apply Forall_nil.
  - vm_compute. repeat constructor; discriminate.
  - vm_compute. reflexivity.
  - apply Nat.leb_le. by vm_compute.
  - vm_compute. discriminate.
  - intros (x & Hx & Ha). revert Ha. assert (Hin : x = rowAt 0 \/ x = rowAt 2).
    { assert (E : db_audit (w_db (without 1 orderedChain)) = [rowAt 0; rowAt 2]) by (vm_compute; reflexivity).
      rewrite E in Hx. apply elem_of_cons in Hx as [->|Hx%list_elem_of_singleton]; auto. }
    destruct Hin as [-> | ->]; vm_compute; discriminate.
Defined.

(** A retention of no days at all. *)
Definition purgeAll (w : World) : World :=
  w <| w_db := (w_db w) <| db_retention := [MkRetentionRow 1 (Some 0%Z)] |> |>.
Lemma purgeAll_audit w : db_audit (w_db (purgeAll w)) = db_audit (w_db w).
Proof. done. Qed.
Lemma purgeAll_auditSeq w : db_auditSeq (w_db (purgeAll w)) = db_auditSeq (w_db w).
Proof. done. Qed.

Lemma orderedChain_org : Forall (fun r => al_orgId r = 1%N) (db_audit (w_db orderedChain)).
Proof. apply (Forall_map al_orgId (fun o => o = 1%N)). vm_compute. repeat constructor. Qed.

Lemma prune_preserves_chain_witness :
  wp (@transaction unit (@pruneOrgAuditLogEntries byteLocale toyPlatform toyCrypto toyEnv 1))
    (fun _ w' => @ChainOk byteLocale toyCrypto (w_db w') 1 key32) (purgeAll orderedChain).
Proof.
  apply prune_preserves_chain.
  - by vm_compute.
  - apply (ChainOk_frame (w_db orderedChain)); [apply purgeAll_audit|apply purgeAll_auditSeq|exact orderedChain_ok].
  - rewrite purgeAll_audit. exact orderedChain_org.
  - rewrite purgeAll_audit. exact orderedChain_created.
Defined.

Lemma system_row_with_resource_fails_witness :
  wp (@writeSystemAuditRow byteLocale toyPlatform toyCrypto toyEnv 1 "service.down" (Some 9%N) [])
    (fun o _ => forall row, o = Ok row -> al_resourceId row = Some 9%N) (worldOf auditDb).
Proof.
  eapply wp_mono; [apply (@system_row_with_resource_fails byteLocale toyPlatform toyCrypto toyCrypto_laws
    toyEnv 1 9 "service.down" [] key32 1 None (worldOf auditDb)); [reflexivity|split; constructor]|].
  intros o w' Hrow row E. exact (proj1 (Hrow row E)).
Defined.

(** The row of a resource, written and then verified: reported. *)
Example service_down_row_reported :
  match @transaction _ (@writeSystemAuditRow byteLocale toyPlatform toyCrypto toyEnv 1 "service.down" (Some 9%N) [])
          (worldOf auditDb) with
  | (_, w) =>
      match @verifyAuditRange byteLocale toyPlatform toyCrypto 1699999999000 1700000009000 w with
      | (Ok r, _) => vr_failedCount r = 1 /\ map vf_reason (vr_failed r) = [hmac_mismatch]
      | _ => False
      end
  end.
Proof. vm_compute. split; reflexivity. Qed.

(** A transaction that began before another one and appended after it. *)
Definition interleavedChain : World := toyChain [1700000002000; 1700000001000; 1700000003000]%Z.

Lemma interleavedChain_ok : @ChainOk byteLocale toyCrypto (w_db interleavedChain) 1 key32.
Proof.
  unfold interleavedChain, toyChain. cbn [foldl].
  do 3 (apply writeAt_ok; [vm_compute; reflexivity|]). exact ChainOk_auditDb.
Qed.

(** The time of a row is when its transaction began, the chain is the order
    in which transactions appended, and verification selects its range by
    time: a row of an intact chain whose predecessor began before the range,
    but appended inside it, is reported as a chain break, although nothing
    was changed or removed. *)
Theorem intact_chain_misreported :
  @ChainOk byteLocale toyCrypto (w_db interleavedChain) 1 key32 /\
  exists r w', @verifyAuditRange byteLocale toyPlatform toyCrypto 1700000001500 1700000009000 interleavedChain = (Ok r, w') /\
    vr_rowsChecked r = 2 /\ vr_failedCount r = 1 /\ map vf_reason (vr_failed r) = [chain_break].
Proof.
  split; [exact interleavedChain_ok|]. do 2 eexists. split; [vm_compute; reflexivity|]. by vm_compute.
Qed.
