(* ===== verification/Notifications.v ===== *)
(** * Notifications: notifications/dispatcher.ts, modules/notifications

    Preferences with their defaults, the routing of an alert to the members of
    a role, and the rows an alert adds to the queue.  [String#localeCompare]
    (the collation of the JavaScript engine) is [Locale].  Primary keys of the
    queue are drawn by the database and never read here, so their collisions
    are not modelled. *)

From S2P Require Import Prelude Js Crypto FieldSet Store Tx.
From Stdlib Require Import Ascii String.
From stdpp Require Import strings.

Local Open Scope string_scope.
Local Open Scope list_scope.
Local Open Scope pv_scope.

(** ** packages/shared/src/constants/notification-types.ts *)

Definition NOTIFICATION_ALERT_TYPES : list string :=
  ["security.failed_auth_threshold"; "security.mfa_recovery_used";
   "security.mfa_recovery_codes_regenerated"; "credential.expiry"; "service.down";
   "service.recovery"; "rotation.stale"; "rotation.ownership_transferred";
   "rotation.confirmation_failed"; "rotation.max_retries_exceeded"; "rotation.break_glass";
   "backup.failure"; "backup.missed"; "machine_key.expiry"; "security.anomalous_access";
   "machine_cache.activated"; "machine_key.dormant"; "user.dormant"; "payment.expiry";
   "certificate.expiry"; "domain.expiry"; "resource.users_near_limit";
   "resource.secrets_near_limit"; "audit_storage.warning"; "audit_storage.critical";
   "audit_org_storage.warning"; "audit_org_storage.critical";
   "audit_usage_reconciliation.failing"; "audit_preauth_volume.high"; "key_custody_risk";
   "credential.share_created"; "credential.external_share_created";
   "credential.external_share_viewed"].

Definition DEFAULT_NOTIFICATION_CHANNELS : list string := ["email"; "inbox"].
Definition DEFAULT_NOTIFICATION_FREQUENCY : NotificationFrequency := immediate.
Definition DEFAULT_NOTIFICATION_MIN_SEVERITY : NotificationSeverity := warning.
Definition DEFAULT_ROUTING_ROLE : OrgRole := owner.

(** ** modules/notifications/preferences.ts *)

Record PreferenceOutput := MkPreferenceOutput {
  po_alertType : string;
  po_channel : string;
  po_frequency : NotificationFrequency;
  po_minSeverity : NotificationSeverity;
}.

Definition IMMEDIATE_INFO_DEFAULT_ALERT_TYPES : list string := ["credential.share_created"].

Definition defaultPreference (alertType channel : string) : PreferenceOutput :=
  {| po_alertType := alertType; po_channel := channel;
     po_frequency := DEFAULT_NOTIFICATION_FREQUENCY;
     po_minSeverity := if alertType ∈? IMMEDIATE_INFO_DEFAULT_ALERT_TYPES then info
                       else DEFAULT_NOTIFICATION_MIN_SEVERITY |}.

(** The default rows of the alert types that are neither stored nor opted out. *)
Definition missingDefaults (stored : list PreferenceOutput) : list PreferenceOutput :=
  flat_map (fun alertType =>
    if alertType ∈? map po_alertType (List.filter (fun r => po_channel r =? "none") stored) then []
    else map (defaultPreference alertType)
           (List.filter (fun channel =>
              negb ((alertType, channel) ∈? map (fun r => (po_alertType r, po_channel r)) stored))
              DEFAULT_NOTIFICATION_CHANNELS))
    NOTIFICATION_ALERT_TYPES.

Definition preferenceLe `{Locale} (a b : PreferenceOutput) : bool :=
  match localeCompare (po_alertType a) (po_alertType b) with
  | Lt => true
  | Gt => false
  | Eq => match localeCompare (po_channel a) (po_channel b) with Gt => false | _ => true end
  end.

Definition fillDefaultPreferences `{Locale} (stored : list PreferenceOutput) : list PreferenceOutput :=
  isort preferenceLe (stored ++ missingDefaults stored).

Definition toPreferenceOutput (rows : list PreferenceRow) : list PreferenceOutput :=
  map (fun r => MkPreferenceOutput (np_alertType r) (np_channel r) (np_frequency r) (np_minSeverity r)) rows.

Section notifications.
Context `{Locale, Platform, Env}.

Definition getPreferences (orgId userId : Uuid) : M (list PreferenceOutput) :=
  stored ← selectWhere db_preferences (fun r => (np_orgId r =? orgId) && (np_userId r =? userId));
  mret (fillDefaultPreferences (toPreferenceOutput stored)).

(** The map from each user to the filled preferences, as its entries. *)
Definition getPreferencesBatch (orgId : Uuid) (userIds : list Uuid)
    : M (list (Uuid * list PreferenceOutput)) :=
  match userIds with
  | [] => mret []
  | _ =>
      stored ← selectWhere db_preferences (fun r => (np_orgId r =? orgId) && (np_userId r ∈? userIds));
      mret (map (fun userId =>
        (userId, fillDefaultPreferences
                   (toPreferenceOutput (List.filter (fun r => np_userId r =? userId) stored)))) userIds)
  end.

(** ** modules/notifications/routing.ts *)

Definition getMembersWithRole (orgId : Uuid) (role : OrgRole) : M (list Uuid) :=
  rows ← selectWhere db_memberships (fun m =>
    (mem_orgId m =? orgId) && (mem_status m =? active)
    && (if role =? member then true else mem_role m =? role));
  mret (map mem_userId rows).

Definition resolveRoutingRecipients (orgId : Uuid) (alertType : string) : M (list Uuid) :=
  routing ← selectFirst db_routing (fun r => (nr_orgId r =? orgId) && (nr_alertType r =? alertType));
  let targetRole := match routing with Some r => nr_routeTo r | None => DEFAULT_ROUTING_ROLE end in
  members ← getMembersWithRole orgId targetRole;
  match members with
  | [] => if targetRole =? owner then mret [] else getMembersWithRole orgId owner
  | _ => mret members
  end.

(** ** notifications/dispatcher.ts *)

Record NotificationTemplate := MkNotificationTemplate {
  nt_templateId : string;
  nt_payload : Json;
  nt_severity : option NotificationSeverity;
}.

Record NotificationQueueJob := MkNotificationQueueJob {
  nj_id : Uuid;
  nj_orgId : Uuid;
  nj_deliverAt : option Date;
}.

Definition severityLevel (s : NotificationSeverity) : Z :=
  match s with info => 0 | warning => 1 | critical => 2 end.

Definition nextDigestDeliveryTime (digestHourUtc : Z) : M Date :=
  now ← newDate;
  let candidate := (now / MS_PER_DAY * MS_PER_DAY + digestHourUtc * 3600000)%Z in
  mret (if now <? candidate then candidate else (candidate + MS_PER_DAY)%Z).

Definition passesSeverityFilter (alertSeverity : NotificationSeverity) (pref : PreferenceOutput) : bool :=
  severityLevel (po_minSeverity pref) <=? severityLevel alertSeverity.

Definition insertQueue (orgId : Uuid) (user : option Uuid) (email : option string) (channel : string)
    (template : NotificationTemplate) (deliverAt : option Date) : M NotificationQueueJob :=
  id ← genRandomUuid;
  entry ← insertRow db_queue (fun _ _ => false)
    {| nq_id := id; nq_orgId := orgId; nq_recipientUserId := user; nq_recipientEmail := email;
       nq_channel := channel; nq_templateId := nt_templateId template;
       nq_payload := nt_payload template; nq_status := "pending"; nq_deliverAt := deliverAt;
       nq_attemptCount := 0; nq_lastAttemptAt := None; nq_deliveredAt := None; nq_providerId := None;
       nq_providerMessageId := None; nq_lastEventAt := None; nq_claimExpiresAt := None; nq_sendStartedAt := None |};
  mret {| nj_id := nq_id entry; nj_orgId := orgId; nj_deliverAt := deliverAt |}.

Definition enqueueUserChannel (orgId userId : Uuid) (template : NotificationTemplate)
    (pref : PreferenceOutput) : M NotificationQueueJob :=
  deliverAt ← (if (po_frequency pref =? digest_daily) && (po_channel pref =? "email")
               then d ← nextDigestDeliveryTime NOTIFICATION_DIGEST_HOUR; mret (Some d)
               else mret None);
  insertQueue orgId (Some userId) None (po_channel pref) template deliverAt.

(** What the loops over recipients and preferences accumulate: the jobs, whether
    Slack is wanted and the [seenUserChannels] set. *)
Record DispatchState := MkDispatchState {
  ds_jobs : list NotificationQueueJob;
  ds_slack : bool;
  ds_seen : list (Uuid * string);
}.

Definition processPreference (userId : Uuid) (alertSeverity : NotificationSeverity)
    (template : NotificationTemplate) (orgId : Uuid) (st : DispatchState) (pref : PreferenceOutput)
    : M DispatchState :=
  if po_channel pref =? "none" then mret st
  else if negb (passesSeverityFilter alertSeverity pref) then mret st
  else if (userId, po_channel pref) ∈? ds_seen st then mret st
  else
    let seen := (userId, po_channel pref) :: ds_seen st in
    if po_channel pref =? "slack" then mret (MkDispatchState (ds_jobs st) true seen)
    else
      job ← enqueueUserChannel orgId userId template pref;
      mret (MkDispatchState (ds_jobs st ++ [job]) (ds_slack st) seen).

Definition processRecipientPreferences (userId : Uuid) (alertSeverity : NotificationSeverity)
    (template : NotificationTemplate) (prefs : list PreferenceOutput) (orgId : Uuid)
    (st : DispatchState) : M DispatchState :=
  foldM (processPreference userId alertSeverity template orgId) st
    (List.filter (fun p => po_alertType p =? nt_templateId template) prefs).

Definition enqueueSlackEntry (orgId : Uuid) (template : NotificationTemplate) : M NotificationQueueJob :=
  insertQueue orgId None None "slack" template None.

Definition prefsOf (preferencesByUserId : list (Uuid * list PreferenceOutput)) (userId : Uuid)
    : list PreferenceOutput :=
  match List.find (fun e => e.1 =? userId) preferencesByUserId with
  | Some e => e.2
  | None => []
  end.

Definition createOrgAdminNotificationEntries (orgId : Uuid) (template : NotificationTemplate)
    (recipients : option (list Uuid)) : M (list NotificationQueueJob) :=
  let alertSeverity := default warning (nt_severity template) in
  recipientUserIds ← match recipients with
                     | Some ids => mret ids
                     | None => resolveRoutingRecipients orgId (nt_templateId template)
                     end;
  preferencesByUserId ← getPreferencesBatch orgId recipientUserIds;
  st ← foldM (fun st userId =>
         processRecipientPreferences userId alertSeverity template
           (prefsOf preferencesByUserId userId) orgId st)
         (MkDispatchState [] false []) recipientUserIds;
  if ds_slack st
  then slackJob ← enqueueSlackEntry orgId template; mret (ds_jobs st ++ [slackJob])
  else mret (ds_jobs st).

Definition dispatchDirectUserNotification (orgId userId : Uuid) (template : NotificationTemplate)
    : M (list NotificationQueueJob) :=
  let alertSeverity := default warning (nt_severity template) in
  prefs ← getPreferences orgId userId;
  let alertPrefs := List.filter (fun p =>
    (po_alertType p =? nt_templateId template) && negb (po_channel p =? "slack")) prefs in
  st ← foldM (processPreference userId alertSeverity template orgId)
         (MkDispatchState [] false []) alertPrefs;
  mret (ds_jobs st).

Definition dispatchDirectEmailNotification (orgId : Uuid) (recipientEmail : string)
    (template : NotificationTemplate) : M (list NotificationQueueJob) :=
  job ← insertQueue orgId None (Some recipientEmail) "email" template None;
  mret [job].

Definition enqueueSecurityAlertNotification (orgId : Uuid) (templateId : string) (payload : Json)
    (severity : option NotificationSeverity) : M (list NotificationQueueJob) :=
  createOrgAdminNotificationEntries orgId (MkNotificationTemplate templateId payload severity) None.

End notifications.

(** ** Lemmas: what an alert adds to the queue *)

(** [new] was appended to the queue; nothing else changed. *)
Definition queued (w w' : World) (new : list QueueRow) : Prop :=
  exists n, w' = w <| w_tick := n |> <| w_db := (w_db w) <| db_queue := db_queue (w_db w) ++ new |> |>.

Lemma queued_nil w n : queued w (w <| w_tick := n |>) [].
Proof. exists n. destruct w as [db]. destruct db. cbn. by rewrite app_nil_r. Qed.

Lemma queued_refl w : queued w w [].
Proof. destruct w. apply (queued_nil (MkWorld _ _ _ _ _ _ _ _ _ _ _ _)). Qed.

Lemma queued_trans w1 w2 w3 new1 new2 :
  queued w1 w2 new1 -> queued w2 w3 new2 -> queued w1 w3 (new1 ++ new2).
Proof. intros [n ->] [m ->]. exists m. cbn. by rewrite app_assoc. Qed.

Lemma queued_sameDb w1 w2 w3 new : sameDb w1 w2 -> queued w2 w3 new -> queued w1 w3 new.
Proof. intros [n ->] [m ->]. by exists m. Qed.

Definition rowKey (r : QueueRow) : option Uuid * string := (nq_recipientUserId r, nq_channel r).

(** The columns an alert's row takes from its template. *)
Definition rowOf (orgId : Uuid) (template : NotificationTemplate) (r : QueueRow) : Prop :=
  nq_orgId r = orgId /\ nq_templateId r = nt_templateId template /\
  nq_payload r = nt_payload template /\ nq_status r = "pending" /\ nq_recipientEmail r = None.

(** A preference that lets the alert through. *)
Definition wanted (sev : NotificationSeverity) (p : PreferenceOutput) : Prop :=
  po_channel p <> "none" /\ passesSeverityFilter sev p = true.

Section queue_lemmas.
Context `{Locale, Platform, Env}.

Lemma insertQueue_spec orgId user email channel template deliverAt w :
  wp (insertQueue orgId user email channel template deliverAt)
    (fun o w' => exists job r, o = Ok job /\ queued w w' [r] /\ rowKey r = (user, channel) /\
       nq_orgId r = orgId /\ nq_templateId r = nt_templateId template /\
       nq_payload r = nt_payload template /\ nq_status r = "pending" /\ nq_recipientEmail r = email) w.
Proof.
  unfold insertQueue. eapply wp_bind_eq; [reflexivity|].
  eapply wp_bind_eq; [by apply insertRow_ok|].
  apply wp_ret. do 2 eexists. split; [done|]. split; [by eexists|]. done.
Qed.

Lemma enqueueUserChannel_spec orgId userId template pref w :
  wp (enqueueUserChannel orgId userId template pref)
    (fun o w' => exists job r, o = Ok job /\ queued w w' [r] /\
       rowKey r = (Some userId, po_channel pref) /\ rowOf orgId template r) w.
Proof.
  unfold enqueueUserChannel.
  assert (Hd : exists d n, (if (po_frequency pref =? digest_daily) && (po_channel pref =? "email")
    then d ← nextDigestDeliveryTime NOTIFICATION_DIGEST_HOUR; mret (Some d) else mret None) w =
    (Ok d, w <| w_tick := n |>)).
  { destruct (_ && _); [by do 2 eexists|]. exists None, (w_tick w). by destruct w. }
  destruct Hd as (d & n & Hd). eapply wp_bind_eq; [exact Hd|].
  eapply wp_mono; [apply insertQueue_spec|]. intros o w' (job & r & -> & Hq & Hk & Hr).
  exists job, r. split; [done|]. split; [eapply queued_sameDb; [by exists n|done]|].
  split; [done|]. unfold rowOf. tauto.
Qed.

Definition notSlack (k : Uuid * string) : bool := negb (k.2 =? "slack").

(** The rows queued so far are the keys seen so far, Slack apart. *)
Definition dispatched (orgId : Uuid) (template : NotificationTemplate) (w0 : World)
    (st : DispatchState) (w : World) : Prop :=
  NoDup (ds_seen st) /\
  ds_slack st = existsb (fun k => negb (notSlack k)) (ds_seen st) /\
  exists new, queued w0 w new /\ Forall (rowOf orgId template) new /\
    map rowKey new = map (fun k => (Some k.1, k.2)) (rev (List.filter notSlack (ds_seen st))).

Lemma dispatched_init orgId template w : dispatched orgId template w (MkDispatchState [] false []) w.
Proof.
  split; [constructor|]. split; [done|]. exists []. split; [apply queued_refl|]. by split.
Qed.

Lemma processPreference_spec userId sev template orgId st pref w0 w :
  dispatched orgId template w0 st w ->
  wp (processPreference userId sev template orgId st pref)
    (fun o w' => exists st', o = Ok st' /\ dispatched orgId template w0 st' w' /\
       forall k, k ∈ ds_seen st' <->
         k ∈ ds_seen st \/ (wanted sev pref /\ k = (userId, po_channel pref))) w.
Proof.
  intros Hd. unfold processPreference, wanted. case_bool_decide as Hnone.
  { apply wp_ret. exists st. naive_solver. }
  destruct (passesSeverityFilter sev pref) eqn:Hsev; cbn [negb]; cycle 1.
  { apply wp_ret. exists st. naive_solver. }
  case_bool_decide as Hseen.
  { apply wp_ret. exists st. split; [done|]. split; [done|]. naive_solver. }
  destruct Hd as (Hnd & Hsl & new & Hq & Hall & Hkeys).
  assert (Hin : forall k, k ∈ (userId, po_channel pref) :: ds_seen st <->
    k ∈ ds_seen st \/ ((po_channel pref <> "none" /\ true = true) /\ k = (userId, po_channel pref))).
  { intros k. rewrite elem_of_cons. naive_solver. }
  case_bool_decide as Hslack.
  - apply wp_ret. eexists. split; [done|]. split; [|exact Hin].
    split; [by constructor|]. cbn. unfold notSlack at 1 3. cbn. rewrite bool_decide_eq_true_2 by done.
    split; [done|]. by exists new.
  - apply wp_bind. eapply wp_mono; [apply enqueueUserChannel_spec|].
    intros o w' (job & r & -> & Hq' & Hk & Hr). apply wp_ret.
    eexists. split; [done|]. split; [|exact Hin].
    split; [by constructor|]. cbn. unfold notSlack at 1 3. cbn. rewrite bool_decide_eq_false_2 by done.
    split; [done|]. exists (new ++ [r]). split; [by eapply queued_trans|].
    split; [apply Forall_app; split; [exact Hall|by constructor]|]. cbn [negb rev].
    rewrite !map_app, Hkeys. cbn [map]. by rewrite Hk.
Qed.

Lemma processPreferences_spec userId sev template orgId st prefs w0 w :
  dispatched orgId template w0 st w ->
  wp (foldM (processPreference userId sev template orgId) st prefs)
    (fun o w' => exists st', o = Ok st' /\ dispatched orgId template w0 st' w' /\
       forall k, k ∈ ds_seen st' <->
         k ∈ ds_seen st \/ exists p, p ∈ prefs /\ wanted sev p /\ k = (userId, po_channel p)) w.
Proof.
  intros Hd. eapply wp_mono; [apply (wp_foldM (fun done st' w' =>
    dispatched orgId template w0 st' w' /\ forall k, k ∈ ds_seen st' <->
      k ∈ ds_seen st \/ exists p, p ∈ done /\ wanted sev p /\ k = (userId, po_channel p)))|].
  - split; [done|]. intros k. split; [auto|]. intros [?|(p & Hp & _)]; [done|].
    by apply not_elem_of_nil in Hp.
  - intros done p st' w' _ [Hd' Hin']. eapply wp_mono; [by apply processPreference_spec|].
    intros o w'' (st'' & -> & Hd'' & Hin''). exists st''. split; [reflexivity|]. split; [exact Hd''|].
    intros k. rewrite Hin'', Hin'. setoid_rewrite elem_of_app. setoid_rewrite list_elem_of_singleton.
    naive_solver.
  - intros o w' (st' & -> & Hd' & Hin'). by exists st'.
Qed.

(** The preferences of an alert's recipient: the stored rows and the defaults. *)
Definition userPreferences (db : Db) (orgId userId : Uuid) : list PreferenceOutput :=
  fillDefaultPreferences (toPreferenceOutput
    (List.filter (fun r => (np_orgId r =? orgId) && (np_userId r =? userId)) (db_preferences db))).

Lemma lfilter_lfilter {A} (p q : A -> bool) l :
  List.filter p (List.filter q l) = List.filter (fun x => q x && p x) l.
Proof.
  induction l as [|x l IH]; cbn; [done|]. destruct (q x); cbn; [destruct (p x)|]; by rewrite IH.
Qed.

Lemma find_map_key {B} (g : Uuid -> B) u us :
  u ∈ us -> List.find (fun e => e.1 =? u) (map (fun x => (x, g x)) us) = Some (u, g u).
Proof.
  induction us as [|x us IH]; [by intros ?%not_elem_of_nil|]. cbn. intros Hu.
  case_bool_decide as E; [by subst|]. apply elem_of_cons in Hu as [->|Hu]; [done|auto].
Qed.

Lemma getPreferencesBatch_spec orgId userIds w :
  exists m, getPreferencesBatch orgId userIds w = (Ok m, w) /\
    forall u, u ∈ userIds -> prefsOf m u = userPreferences (w_db w) orgId u.
Proof.
  unfold getPreferencesBatch. destruct userIds as [|x l].
  { exists []. split; [done|]. by intros u Hu%not_elem_of_nil. }
  eexists. split; [reflexivity|]. intros u Hu. unfold prefsOf.
  rewrite (find_map_key (fun u => fillDefaultPreferences (toPreferenceOutput
    (List.filter (fun r => np_userId r =? u) _)))) by done.
  cbn [snd]. unfold userPreferences. rewrite lfilter_lfilter. do 2 f_equal. apply lfilter_ext.
  intros r _. repeat case_bool_decide; subst; cbn; try done.
Qed.

Lemma resolveRoutingRecipients_readOnly orgId alertType :
  readOnly (resolveRoutingRecipients orgId alertType).
Proof. unfold resolveRoutingRecipients, getMembersWithRole. read_only. Qed.

Lemma resolveRoutingRecipients_ok orgId alertType w :
  exists ids, resolveRoutingRecipients orgId alertType w = (Ok ids, w).
Proof.
  unfold resolveRoutingRecipients, getMembersWithRole, mbind, M_bind. cbn.
  destruct (map mem_userId _) as [|u l]; [|by eexists].
  case_bool_decide; by eexists.
Qed.
End queue_lemmas.

Section alerts.
Context `{Locale, Platform, Env}.

Lemma recipients_loop sev template orgId prefs recipients w :
  wp (foldM (fun st userId =>
         processRecipientPreferences userId sev template (prefs userId) orgId st)
         (MkDispatchState [] false []) recipients)
    (fun o w' => exists st, o = Ok st /\ dispatched orgId template w st w' /\
       forall k, k ∈ ds_seen st <-> exists u p, u ∈ recipients /\ p ∈ prefs u /\
         po_alertType p = nt_templateId template /\ wanted sev p /\ k = (u, po_channel p)) w.
Proof.
  eapply wp_mono; [apply (wp_foldM (fun done st w' =>
    dispatched orgId template w st w' /\ forall k, k ∈ ds_seen st <->
      exists u p, u ∈ done /\ p ∈ prefs u /\
         po_alertType p = nt_templateId template /\ wanted sev p /\ k = (u, po_channel p)))|].
  - split; [apply dispatched_init|]. intros k. split; [by intros ?%not_elem_of_nil|].
    by intros (u & p & ?%not_elem_of_nil & _).
  - intros done u st w' _ [Hd Hin]. eapply wp_mono; [by apply processPreferences_spec|].
    intros o w'' (st' & -> & Hd' & Hin'). exists st'. split; [reflexivity|]. split; [exact Hd'|].
    intros k. rewrite Hin', Hin. setoid_rewrite elem_of_app. setoid_rewrite list_elem_of_singleton.
    setoid_rewrite elem_of_lfilter. setoid_rewrite bool_decide_eq_true. split.
    + intros [(v & p & Hv & Hp)|(p & (Ht & Hp) & Hw & ->)]; [exists v, p|exists u, p]; tauto.
    + intros (v & p & [Hv | ->] & Hp & Ht & Hw & ->); [left; exists v, p|right; exists p]; tauto.
  - intros o w' (st & -> & Hd & Hin). by exists st.
Qed.

(** The rows an alert has to queue: one per recipient and channel that a
    preference lets through, and one for Slack. *)
Definition alertRows (db : Db) (orgId : Uuid) (template : NotificationTemplate)
    (recipients : list Uuid) (new : list QueueRow) : Prop :=
  let sev := default warning (nt_severity template) in
  let asks u c := exists p, p ∈ userPreferences db orgId u /\
    po_alertType p = nt_templateId template /\ wanted sev p /\ po_channel p = c in
  Forall (rowOf orgId template) new /\ NoDup (map rowKey new) /\
  (forall u c, (Some u, c) ∈ map rowKey new <-> u ∈ recipients /\ asks u c /\ c <> "slack") /\
  (forall c, (None, c) ∈ map rowKey new <->
     c = "slack" /\ exists u, u ∈ recipients /\ asks u "slack").

Lemma NoDup_lfilter {A} (p : A -> bool) (l : list A) : NoDup l -> NoDup (List.filter p l).
Proof.
  induction 1 as [|x l Hx Hl IH]; cbn; [constructor|]. destruct (p x); [|done].
  constructor; [|done]. rewrite elem_of_lfilter. tauto.
Qed.

Definition userKey (k : Uuid * string) : option Uuid * string := (Some k.1, k.2).

#[export] Instance userKey_inj : Inj (=) (=) userKey.
Proof. by intros [u c] [v d] [= -> ->]. Qed.

Lemma elem_of_userKeys (seen : list (Uuid * string)) k :
  k ∈ map userKey (rev (List.filter notSlack seen)) <->
  exists u, k.1 = Some u /\ (u, k.2) ∈ seen /\ k.2 <> "slack".
Proof.
  rewrite list_elem_of_In, in_map_iff. setoid_rewrite <- in_rev.
  setoid_rewrite <- list_elem_of_In. setoid_rewrite elem_of_lfilter. unfold notSlack.
  setoid_rewrite negb_true_iff. setoid_rewrite bool_decide_eq_false.
  destruct k as [o c]; cbn. split.
  - intros ([v c'] & [= <- <-] & Hc & Hin). by exists v.
  - intros (v & -> & Hin & Hc). by exists (v, c).
Qed.

Lemma slack_wanted (seen : list (Uuid * string)) :
  existsb (fun k => negb (notSlack k)) seen = true <-> exists u, (u, "slack") ∈ seen.
Proof.
  rewrite existsb_exists. unfold notSlack. split.
  - intros ([u c] & Hin%list_elem_of_In & Hc). cbn in Hc. bool_simpl. subst. by exists u.
  - intros (u & Hu). exists (u, "slack"). split; [by apply list_elem_of_In|done].
Qed.

(** The keys the loops have seen determine the rows. *)
Lemma alertRows_intro db orgId template recipients new seen :
  Forall (rowOf orgId template) new -> NoDup seen ->
  (forall u c, (u, c) ∈ seen <-> u ∈ recipients /\
    exists p, p ∈ userPreferences db orgId u /\ po_alertType p = nt_templateId template /\
      wanted (default warning (nt_severity template)) p /\ po_channel p = c) ->
  map rowKey new = map userKey (rev (List.filter notSlack seen)) ++
    (if existsb (fun k => negb (notSlack k)) seen then [(None, "slack")] else []) ->
  alertRows db orgId template recipients new.
Proof.
  intros Hall Hnd Hseen Hkeys. unfold alertRows. rewrite Hkeys. split; [done|].
  assert (Hb : forall k, k ∈ (if existsb (fun k => negb (notSlack k)) seen then [(@None Uuid, "slack")] else []) <->
    k = (None, "slack") /\ exists u, (u, "slack") ∈ seen).
  { intros k. rewrite <- slack_wanted. destruct (existsb _ _).
    - rewrite list_elem_of_singleton. tauto.
    - rewrite elem_of_nil. naive_solver. }
  split; [|split].
  - apply NoDup_app. split; [|split].
    + apply (NoDup_fmap_2 userKey). rewrite <- (Permutation_rev (List.filter _ _)).
      by apply NoDup_lfilter.
    + intros [o c] (u & Ho & _)%elem_of_userKeys. rewrite Hb. cbn in Ho. subst. by intros [[=] _].
    + destruct (existsb _ _); repeat constructor. apply not_elem_of_nil.
  - intros u c. rewrite elem_of_app, elem_of_userKeys, Hb. cbn. setoid_rewrite Hseen.
    naive_solver.
  - intros c. rewrite elem_of_app, elem_of_userKeys, Hb. cbn. setoid_rewrite Hseen.
    naive_solver.
Qed.

Lemma createOrgAdminNotificationEntries_wp (orgId : Uuid) (template : NotificationTemplate)
    (recipients : list Uuid) (w : World) :
  wp (createOrgAdminNotificationEntries orgId template (Some recipients))
    (fun o w' => exists jobs new, o = Ok jobs /\ queued w w' new /\
       alertRows (w_db w) orgId template recipients new) w.
Proof.
  unfold createOrgAdminNotificationEntries. eapply wp_bind_eq; [reflexivity|].
  destruct (getPreferencesBatch_spec orgId recipients w) as (m & Em & Hm).
  eapply wp_bind_eq; [exact Em|]. apply wp_bind. eapply wp_mono; [apply recipients_loop|].
  intros o w' (st & -> & (Hnd & Hsl & new & Hq & Hall & Hkeys) & Hseen).
  assert (Hasks : forall u c, (u, c) ∈ ds_seen st <-> u ∈ recipients /\
    exists p, p ∈ userPreferences (w_db w) orgId u /\ po_alertType p = nt_templateId template /\
      wanted (default warning (nt_severity template)) p /\ po_channel p = c).
  { intros u c. rewrite Hseen. split.
    - intros (u' & p & Hu & Hp & Ht & Hw & [= -> ->]). rewrite Hm in Hp by done. naive_solver.
    - intros (Hu & p & Hp & Ht & Hw & <-). exists u, p. rewrite Hm by done. done. }
  rewrite Hsl. destruct (existsb _ _) eqn:Hs.
  - apply wp_bind. eapply wp_mono; [apply insertQueue_spec|].
    intros o w'' (job & r & -> & Hq' & Hk & Ho & Ht & Hp & Hst & He). apply wp_ret.
    eexists _, (new ++ [r]). split; [done|]. split; [by eapply queued_trans|].
    apply (alertRows_intro _ _ _ _ _ (ds_seen st)); [|done|done|].
    + apply Forall_app. split; [done|]. by constructor.
    + rewrite Hs, map_app, Hkeys. cbn. by rewrite Hk.
  - apply wp_ret. eexists _, new. split; [done|]. split; [done|].
    apply (alertRows_intro _ _ _ _ _ (ds_seen st)); [done|done|done|].
    by rewrite Hs, Hkeys, app_nil_r.
Qed.

(** The alert types without a default: only a stored preference queues them. *)
Lemma userPreferences_unknown db orgId u alertType p :
  alertType ∉ NOTIFICATION_ALERT_TYPES ->
  (forall r, r ∈ db_preferences db -> np_alertType r <> alertType) ->
  p ∈ userPreferences db orgId u -> po_alertType p <> alertType.
Proof.
  intros Hd Hs. unfold userPreferences, fillDefaultPreferences.
  rewrite elem_of_isort, elem_of_app. intros [Hp|Hp].
  - apply list_elem_of_In, in_map_iff in Hp as (r & <- & Hr). cbn. apply Hs.
    apply list_elem_of_In, elem_of_lfilter in Hr as [_ Hr]. done.
  - unfold missingDefaults in Hp. apply list_elem_of_In, in_flat_map in Hp as (t & Ht & Hp).
    case_bool_decide; [done|]. apply in_map_iff in Hp as (c & <- & _). cbn. intros ->.
    by apply Hd, list_elem_of_In.
Qed.

Lemma stale_staged_unregistered : "rotation.stale_staged" ∉ NOTIFICATION_ALERT_TYPES.
Proof.
  apply (bool_decide_eq_false ("rotation.stale_staged" ∈ NOTIFICATION_ALERT_TYPES)).
  vm_compute. reflexivity.
Qed.

Lemma routed_recipients orgId template w :
  exists ids, resolveRoutingRecipients orgId (nt_templateId template) w = (Ok ids, w) /\
    createOrgAdminNotificationEntries orgId template None w =
    createOrgAdminNotificationEntries orgId template (Some ids) w.
Proof.
  destruct (resolveRoutingRecipients_ok orgId (nt_templateId template) w) as [ids E].
  exists ids. split; [exact E|]. unfold createOrgAdminNotificationEntries.
  unfold mbind at 1, M_bind at 1. by rewrite E.
Qed.

(** The alert of a template, routed to the members of the configured role. *)
Lemma enqueueSecurityAlertNotification_spec orgId templateId payload severity w :
  wp (enqueueSecurityAlertNotification orgId templateId payload severity)
    (fun o w' => exists jobs new ids, o = Ok jobs /\ queued w w' new /\
       resolveRoutingRecipients orgId templateId w = (Ok ids, w) /\
       alertRows (w_db w) orgId (MkNotificationTemplate templateId payload severity) ids new) w.
Proof.
  unfold enqueueSecurityAlertNotification.
  destruct (routed_recipients orgId (MkNotificationTemplate templateId payload severity) w)
    as (ids & Hids & E).
  unfold wp at 1. rewrite E.
  destruct (createOrgAdminNotificationEntries orgId _ (Some ids) w) as [o w'] eqn:Er.
  apply (wp_elim _ _ _ _ _ (createOrgAdminNotificationEntries_wp orgId _ ids w)) in Er
    as (jobs & new & -> & Hq & Hr).
  by exists jobs, new, ids.
Qed.

(** An alert queues, in one pass over its recipients, exactly one row per
    recipient and channel that a stored or default preference of that recipient
    lets through (never [none], never below the minimum severity, whatever the
    number of matching preferences and repetitions of the recipient), and one
    organisation-wide Slack row exactly when some recipient asks for Slack; it
    cannot fail, and it changes nothing but the queue. *)
Theorem createOrgAdminNotificationEntries_spec (orgId : Uuid) (template : NotificationTemplate)
    (recipients : list Uuid) (w : World) :
  wp (createOrgAdminNotificationEntries orgId template (Some recipients))
    (fun o w' => exists jobs new, o = Ok jobs /\ queued w w' new /\
       alertRows (w_db w) orgId template recipients new) w.
Proof. apply createOrgAdminNotificationEntries_wp. Qed.

(** An alert whose template is not one of the registered alert types, and
    for which nobody stored a preference, is queued for nobody: the call
    succeeds and leaves the database as it was. [rotation.stale_staged], the
    template of the stale-staged worker, is not registered. *)
Theorem unregistered_alert_not_queued (orgId : Uuid) (templateId : string) (payload : Json)
    (severity : option NotificationSeverity) (w : World)
    (Hstored : forall r, r ∈ db_preferences (w_db w) -> np_alertType r <> templateId)
    (Hunregistered : templateId ∉ NOTIFICATION_ALERT_TYPES) :
  wp (enqueueSecurityAlertNotification orgId templateId payload severity)
    (fun o w' => (exists jobs, o = Ok jobs) /\ w_db w' = w_db w) w /\
  "rotation.stale_staged" ∉ NOTIFICATION_ALERT_TYPES.
Proof.
  split; [|by apply stale_staged_unregistered].
  eapply wp_mono; [apply enqueueSecurityAlertNotification_spec|].
  intros o w' (jobs & new & ids & -> & [n ->] & _ & _ & _ & Huser & Hslack).
  split; [by eexists|]. cbn.
  assert (Hno : forall u c, ~ exists p, p ∈ userPreferences (w_db w) orgId u /\
    po_alertType p = templateId /\ wanted (default warning severity) p /\ po_channel p = c).
  { intros u c (p & Hp & Ht & _). exact (userPreferences_unknown _ _ _ _ _ Hunregistered Hstored Hp Ht). }
  destruct new as [|r new].
  { rewrite app_nil_r. by destruct (w_db w). }
  exfalso. assert (Hr : (nq_recipientUserId r, nq_channel r) ∈ map rowKey (r :: new)) by left.
  destruct (nq_recipientUserId r) as [u|].
  - apply Huser in Hr as (_ & Hp & _). by eapply Hno.
  - apply Hslack in Hr as (_ & u & _ & Hp). by eapply Hno.
Qed.
End alerts.

(** ** Witness: the template of the stale-staged worker, in a small organisation *)

Definition ownerDb : Db :=
  emptyDb <| db_memberships := [MkMembershipRow 1 7 owner active None None] |>.

Lemma unregistered_alert_not_queued_witness :
  wp (@enqueueSecurityAlertNotification byteLocale toyPlatform toyEnv 1 "rotation.stale_staged" JNull None)
    (fun o w' => (exists jobs, o = Ok jobs) /\ w_db w' = ownerDb) (worldOf ownerDb).
Proof.
  refine (proj1 (@unregistered_alert_not_queued byteLocale toyPlatform toyEnv 1
    "rotation.stale_staged" JNull None (worldOf ownerDb) _ _)).
  - intros r Hr. by apply not_elem_of_nil in Hr.
  - exact stale_staged_unregistered.
Defined.

(** A registered alert reaches the owner by email and in the inbox. *)
Example stale_alert_queued :
  map rowKey (db_queue (w_db (snd (@enqueueSecurityAlertNotification byteLocale toyPlatform toyEnv 1
    "rotation.stale" JNull None (worldOf ownerDb))))) = [(Some 7%N, "email"); (Some 7%N, "inbox")].
Proof. vm_compute. reflexivity. Qed.
