(* ===== verification/Credentials.v ===== *)
(** * Credentials: modules/credentials/db-helpers.ts, archive-guards.ts, service.ts

    Creation, new versions, the current version, the audited reveal, version
    history, one-time codes, archival and tags.  ISO-8601 rendering of dates in
    responses is left out: a response carries the date itself. *)

From S2P Require Import Prelude Js Crypto FieldSet Store Tx.
From Stdlib Require Import Ascii String.
From stdpp Require Import strings.

Local Open Scope string_scope.
Local Open Scope list_scope.
Local Open Scope pv_scope.

(** ** Statements on the tables, with their column defaults and triggers *)

(** The columns an [INSERT INTO credential_versions] gives; the others take
    their defaults. *)
Record NewVersion := MkNewVersion {
  nv_orgId : Uuid;
  nv_credentialId : Uuid;
  nv_encryptedValue : EncryptedValue;
  nv_keyVersion : Z;
  nv_versionNumber : Z;
  nv_createdBy : Uuid;
  nv_schemaVersion : option Z;
  nv_fieldMeta : option (list FieldMeta);
  nv_promotedAt : option Date;
}.

Definition versionRowOf (id : Uuid) (now : Date) (v : NewVersion) : VersionRow :=
  {| cv_id := id; cv_orgId := nv_orgId v; cv_credentialId := nv_credentialId v;
     cv_encryptedValue := Some (nv_encryptedValue v); cv_keyVersion := Some (nv_keyVersion v);
     cv_versionNumber := nv_versionNumber v; cv_rotationLockedAt := None; cv_purgedAt := None;
     cv_breakGlassOverlapExpiresAt := None; cv_abandonedAt := None;
     cv_promotedAt := nv_promotedAt v; cv_createdBy := Some (nv_createdBy v); cv_createdAt := now;
     cv_schemaVersion := default 1%Z (nv_schemaVersion v); cv_fieldMeta := nv_fieldMeta v |}.

Section credentials.
Context `{Platform, NodeCrypto, Unicode, OtpAuth}.

Definition insertVersion (v : NewVersion) : M VersionRow :=
  id ← genRandomUuid;
  now ← dbNow;
  insertRow db_versions versionConflict (versionRowOf id now v).

(** The trigger [set_updated_at] overrides the column with [now()]. *)
Definition updateCredentials (p : CredentialRow -> bool) (f : CredentialRow -> CredentialRow)
    : M (list CredentialRow) :=
  now ← dbNow;
  updateWhere db_credentials p (fun c => (f c) <| cred_updatedAt := now |>).

(** ** db-helpers.ts *)

Definition insertVersionAndSetCurrent (values : NewVersion) : M VersionRow :=
  version ← insertVersion values;
  _ ← updateCredentials (fun c => cred_id c =? nv_credentialId values)
        (fun c => c <| cred_currentVersionId := Some (cv_id version) |>);
  mret version.

Definition isUniqueViolation (e : Exn) : bool := e =? UniqueViolation.
Definition isLockNotAvailable (e : Exn) : bool := e =? LockNotAvailable.

Definition currentKeyVersion : M Z :=
  vs ← selectFirst db_vaultState (fun _ => true);
  mret (match vs with Some v => vs_keyVersion v | None => 1%Z end).

Definition findCredentialIdInProject (credentialId projectId : Uuid) : M (option Uuid) :=
  row ← selectFirst db_credentials (fun c => (cred_id c =? credentialId) && (cred_projectId c =? projectId));
  mret (cred_id <$> row).

Definition lockCredentialInProject (credentialId projectId : Uuid) : M (option Uuid) :=
  findCredentialIdInProject credentialId projectId.

Definition credentialExistsInProject (credentialId projectId : Uuid) : M bool :=
  row ← findCredentialIdInProject credentialId projectId; mret (isNotNull row).

(** ** archive-guards.ts *)

Definition BLOCKING_ROTATION_STATUSES : list RotationStatus :=
  [in_progress; staged; promoted; stale_recovery].

Definition findBlockingRotationIdsForCredential (credentialId : Uuid) : M (list Uuid) :=
  rows ← selectWhere db_rotations (fun r =>
    (rot_credentialId r =? credentialId) && (rot_status r ∈? BLOCKING_ROTATION_STATUSES));
  mret (map rot_id rows).

Definition isCredentialArchived (credentialId : Uuid) : M bool :=
  row ← selectFirst db_credentials (fun c => cred_id c =? credentialId);
  mret (match row with Some c => isNotNull (cred_archivedAt c) | None => false end).

(** ** service.ts: the current version *)

(** Not purged, not abandoned, promoted. *)
Definition isLive (v : VersionRow) : bool :=
  isNull (cv_purgedAt v) && isNull (cv_abandonedAt v) && isNotNull (cv_promotedAt v).

(** [ORDER BY promoted_at DESC, version_number DESC], on promoted rows. *)
Definition currentOrder (a b : VersionRow) : bool :=
  let pa := default 0%Z (cv_promotedAt a) in
  let pb := default 0%Z (cv_promotedAt b) in
  (pb <? pa) || ((pa =? pb) && (cv_versionNumber b <=? cv_versionNumber a)).

Definition selectCurrentVersionMeta (credentialId : Uuid) : M (option VersionRow) :=
  selectFirstOrdered db_versions
    (fun v => (cv_credentialId v =? credentialId) && isLive v) currentOrder.

Definition currentFieldKeys (credentialId : Uuid) : M (list string) :=
  row ← selectCurrentVersionMeta credentialId;
  mret (map fm_key (fieldMetaForResponse
    (match row with Some v => cv_schemaVersion v | None => 1%Z end) (row ≫= cv_fieldMeta))).

Definition currentFieldsForDiff (credentialId : Uuid) : M (option (list Field)) :=
  row ← selectCurrentVersionMeta credentialId;
  match row with
  | Some v =>
      match cv_encryptedValue v with
      | Some enc =>
          catch (plaintext ← withSecretText enc;
                 fields ← lift (parseFieldsFromPlaintext (cv_schemaVersion v) plaintext);
                 mret (Some fields))
            (fun _ => mret None)
      | None => mret None
      end
  | None => mret None
  end.

(** [COALESCE(MAX(version_number), 0)] *)
Definition maxVersionNumber (rows : list VersionRow) : Z :=
  match map cv_versionNumber rows with
  | [] => 0
  | x :: l => foldr Z.max x l
  end.

Definition selectMaxVersionNumber (credentialId : Uuid) : M Z :=
  rows ← selectWhere db_versions (fun v => cv_credentialId v =? credentialId);
  mret (maxVersionNumber rows).

(** ** service.ts: creation and new versions *)

Record CreateCredentialBody := MkCreateCredentialBody {
  ccb_name : string;
  ccb_description : option string;
  ccb_tags : option (list string);
  ccb_expiresAt : option Date;
  ccb_rotationSchedule : option string;
  ccb_cacheable : option bool;
  ccb_body : CreateBodyish;
}.

Record CreatedCredential := MkCreatedCredential {
  cc_credential : CredentialRow;
  cc_fieldMeta : list FieldMeta;
  cc_visibleFieldValues : list (string * string);
}.

Definition insertCredential (orgId projectId userId : Uuid) (body : CreateCredentialBody) : M CredentialRow :=
  id ← genRandomUuid;
  now ← dbNow;
  insertRow db_credentials (fun new old => cred_id new =? cred_id old)
    {| cred_id := id; cred_orgId := orgId; cred_projectId := projectId; cred_name := ccb_name body;
       cred_description := ccb_description body; cred_tags := default [] (ccb_tags body);
       cred_expiresAt := ccb_expiresAt body; cred_rotationSchedule := ccb_rotationSchedule body;
       cred_retentionCount := 3; cred_createdBy := Some userId; cred_createdAt := now;
       cred_updatedAt := now; cred_cacheable := default true (ccb_cacheable body);
       cred_currentVersionId := None; cred_archivedAt := None; cred_archivedBy := None |}.

Definition createCredentialWithFirstVersion (orgId projectId userId : Uuid)
    (body : CreateCredentialBody) : M CreatedCredential :=
  keyVersion ← currentKeyVersion;
  resolved ← lift (resolveFieldSet (ccb_body body) None);
  let fieldMeta := buildFieldMeta resolved in
  encryptedValue ← encryptValue (serializeFieldEnvelope resolved);
  credential ← insertCredential orgId projectId userId body;
  promotedAt ← newDate;
  _ ← insertVersionAndSetCurrent
        {| nv_orgId := orgId; nv_credentialId := cred_id credential;
           nv_encryptedValue := encryptedValue; nv_keyVersion := keyVersion; nv_versionNumber := 1;
           nv_createdBy := userId; nv_schemaVersion := Some 2%Z; nv_fieldMeta := Some fieldMeta;
           nv_promotedAt := Some promotedAt |};
  mret {| cc_credential := credential; cc_fieldMeta := fieldMeta;
          cc_visibleFieldValues := map (fun f => (fld_key f, fld_value f))
            (List.filter (fun f => negb (fld_sensitive f)) (rfs_fields resolved)) |}.

(** The audit payload of a new version; [ap_changedFields] is [None] for
    [changedFieldsUnknown: true]. *)
Record VersionAuditPayload := MkVersionAuditPayload {
  ap_versionNumber : Z;
  ap_template : option CredentialTemplate;
  ap_delta : FieldDelta;
  ap_changedFields : option (list string);
}.

Definition addCredentialVersion (orgId credentialId projectId userId : Uuid) (body : CreateBodyish)
    : M (option (VersionRow * VersionAuditPayload)) :=
  cred ← lockCredentialInProject credentialId projectId;
  match cred with
  | None => mret None
  | Some _ =>
      oldKeys ← currentFieldKeys credentialId;
      oldFields ← currentFieldsForDiff credentialId;
      _ ← lift (assertLegacyShapeSafe (negb (isFieldSetBody body)) oldKeys);
      resolved ← lift (resolveFieldSet body oldFields);
      let fieldMeta := buildFieldMeta resolved in
      maxRow ← selectMaxVersionNumber credentialId;
      let nextVersion := (maxRow + 1)%Z in
      keyVersion ← currentKeyVersion;
      encryptedValue ← encryptValue (serializeFieldEnvelope resolved);
      catch
        (promotedAt ← newDate;
         version ← insertVersionAndSetCurrent
           {| nv_orgId := orgId; nv_credentialId := credentialId;
              nv_encryptedValue := encryptedValue; nv_keyVersion := keyVersion;
              nv_versionNumber := nextVersion; nv_createdBy := userId;
              nv_schemaVersion := Some 2%Z; nv_fieldMeta := Some fieldMeta;
              nv_promotedAt := Some promotedAt |};
         mret (Some (version,
           {| ap_versionNumber := cv_versionNumber version; ap_template := rfs_template resolved;
              ap_delta := computeFieldDelta oldKeys (map fm_key fieldMeta);
              ap_changedFields :=
                (fun fields => computeChangedFields fields (rfs_fields resolved)) <$> oldFields |})))
        (fun e => if isUniqueViolation e then throw VersionConflictError else throw e)
  end.

(** ** service.ts: reading *)

Definition findCredentialInProject (credentialId projectId : Uuid) : M (option CredentialRow) :=
  selectFirst db_credentials (fun c => (cred_id c =? credentialId) && (cred_projectId c =? projectId)).

Definition isTotpMeta (m : FieldMeta) : bool := fm_kind m =? Some totp.

Definition invalidRequestedField (field : option string) (schemaVersion : Z)
    (fieldMeta : option (list FieldMeta)) : option string :=
  match field with
  | None => None
  | Some f =>
      if schemaVersion <? 2 then Some f
      else if f ∈? map fm_key (List.filter (fun item => negb (isTotpMeta item))
                                 (fieldMetaForResponse schemaVersion fieldMeta))
      then None else Some f
  end.

Definition readableFields (schemaVersion : Z) (plaintext : string) : Outcome (list Field * bool) :=
  allFields ← parseFieldsFromPlaintext schemaVersion plaintext;
  let fields := withoutTotpFields allFields in
  Ok (fields, (2 <=? schemaVersion)
              && ((bool_decide (1 < length allFields)%nat)
                  || negb (length fields =? length allFields))).

Inductive RevealCurrentValueResult :=
| FoundValue (value : string) (versionNumber : Z) (abandonedVersionExcluded : bool)
    (revealedFields : option (list string))
| FoundFields (fields : list Field) (schemaVersion versionNumber : Z)
    (abandonedVersionExcluded : bool) (revealedFields : list string)
| CredentialNotFound
| AllVersionsPurged
| UnknownField (key : string).

Definition revealCurrentValue (credentialId projectId : Uuid) (field : option string)
    : M RevealCurrentValueResult :=
  credential ← findCredentialInProject credentialId projectId;
  match credential with
  | None => mret CredentialNotFound
  | Some _ =>
      row ← selectFirstOrdered db_versions
              (fun v => (cv_credentialId v =? credentialId) && isLive v) currentOrder;
      match (v ← row; enc ← cv_encryptedValue v; Some (v, enc)) with
      | None => mret AllVersionsPurged
      | Some (v, enc) =>
          higherAbandoned ← selectFirst db_versions (fun x =>
            (cv_credentialId x =? credentialId) && isNull (cv_purgedAt x)
            && isNotNull (cv_abandonedAt x) && (cv_versionNumber v <? cv_versionNumber x));
          let abandonedVersionExcluded := isNotNull higherAbandoned in
          match invalidRequestedField field (cv_schemaVersion v) (cv_fieldMeta v) with
          | Some key => mret (UnknownField key)
          | None =>
              plaintext ← withSecretText enc;
              '(fields, isGenuineMultiField) ← lift (readableFields (cv_schemaVersion v) plaintext);
              if negb isGenuineMultiField then
                value ← lift (unwrapRevealValue (cv_schemaVersion v) plaintext);
                mret (FoundValue value (cv_versionNumber v) abandonedVersionExcluded
                        ((fun f => [f]) <$> field))
              else
                match field with
                | Some f =>
                    match List.find (fun x => fld_key x =? f) fields with
                    | None => mret (UnknownField f)
                    | Some m => mret (FoundFields [m] (cv_schemaVersion v) (cv_versionNumber v)
                                        abandonedVersionExcluded [fld_key m])
                    end
                | None =>
                    mret (FoundFields fields (cv_schemaVersion v) (cv_versionNumber v)
                            abandonedVersionExcluded (map fld_key (List.filter fld_sensitive fields)))
                end
          end
      end
  end.

(** Decryption failures degrade to no values. *)
Definition eagerNonSensitiveFieldValues (schemaVersion : Z) (fieldMeta : list FieldMeta)
    (encryptedValue : option EncryptedValue) : M (list (string * string)) :=
  let nonSensitiveKeys := map fm_key (List.filter (fun f => negb (fm_sensitive f)) fieldMeta) in
  match nonSensitiveKeys, encryptedValue with
  | [], _ | _, None => mret []
  | _, Some enc =>
      catch (plaintext ← withSecretText enc;
             fields ← lift (parseFieldsFromPlaintext schemaVersion plaintext);
             mret (map (fun f => (fld_key f, fld_value f))
               (List.filter (fun f => fld_key f ∈? nonSensitiveKeys) (withoutTotpFields fields))))
        (fun _ => mret [])
  end.

Record CredentialDetail := MkCredentialDetail {
  cd_credential : CredentialRow;
  cd_currentVersionNumber : Z;
  cd_schemaVersion : Z;
  cd_fields : list FieldMeta;
  cd_visibleFieldValues : list (string * string);
}.

Definition getCredentialDetail (credentialId projectId : Uuid) : M (option CredentialDetail) :=
  credential ← findCredentialInProject credentialId projectId;
  match credential with
  | None => mret None
  | Some c =>
      versionRow ← selectCurrentVersionMeta credentialId;
      let schemaVersion := match versionRow with Some v => cv_schemaVersion v | None => 1%Z end in
      let fieldMeta := fieldMetaForResponse schemaVersion (versionRow ≫= cv_fieldMeta) in
      visibleFieldValues ← eagerNonSensitiveFieldValues schemaVersion fieldMeta
                             (versionRow ≫= cv_encryptedValue);
      mret (Some {| cd_credential := c;
        cd_currentVersionNumber := match versionRow with Some v => cv_versionNumber v | None => 1%Z end;
        cd_schemaVersion := schemaVersion; cd_fields := fieldMeta;
        cd_visibleFieldValues := visibleFieldValues |})
  end.

(** The version number the list of credentials shows. *)
Definition listedCurrentVersionNumber (credentialId : Uuid) : M Z :=
  rows ← selectWhere db_versions (fun v => (cv_credentialId v =? credentialId) && isLive v);
  mret (match rows with [] => 1%Z | _ => maxVersionNumber rows end).

Record VersionHistoryItem := MkVersionHistoryItem {
  vh_versionNumber : Z;
  vh_isCurrent : bool;
  vh_purgedAt : option Date;
  vh_abandonedAt : option Date;
  vh_schemaVersion : Z;
}.

Definition listVersionHistory (credentialId projectId : Uuid) : M (option (list VersionHistoryItem)) :=
  credential ← findCredentialInProject credentialId projectId;
  match credential with
  | None => mret None
  | Some _ =>
      rows ← selectOrdered db_versions (fun v => cv_credentialId v =? credentialId)
               (fun a b => cv_versionNumber b <=? cv_versionNumber a);
      let currentVersionNumber := cv_versionNumber <$> head (isort currentOrder (List.filter isLive rows)) in
      mret (Some (map (fun v =>
        {| vh_versionNumber := cv_versionNumber v;
           vh_isCurrent := Some (cv_versionNumber v) =? currentVersionNumber;
           vh_purgedAt := cv_purgedAt v; vh_abandonedAt := cv_abandonedAt v;
           vh_schemaVersion := cv_schemaVersion v |}) rows))
  end.

Inductive GenerateCredentialTotpResult :=
| TotpFound (code : GeneratedTotpCode) (versionNumber : Z) (fieldKey : string)
| TotpCredentialNotFound
| TotpUnknownField (key : string)
| TotpSeedUnavailable (fieldKey : string).

Definition generateCredentialTotp (credentialId projectId : Uuid) (field : string)
    : M GenerateCredentialTotpResult :=
  credential ← findCredentialInProject credentialId projectId;
  match credential with
  | None => mret TotpCredentialNotFound
  | Some _ =>
      row ← selectCurrentVersionMeta credentialId;
      match (v ← row; enc ← cv_encryptedValue v; Some (v, enc)) with
      | None => mret TotpCredentialNotFound
      | Some (v, enc) =>
          let wanted := normalizeFieldKey field in
          match List.find (fun m => isTotpMeta m && (normalizeFieldKey (fm_key m) =? wanted))
                  (fieldMetaForResponse (cv_schemaVersion v) (cv_fieldMeta v)) with
          | None => mret (TotpUnknownField field)
          | Some declared =>
              plaintext ← withSecretText enc;
              fields ← lift (parseFieldsFromPlaintext (cv_schemaVersion v) plaintext);
              match List.find (fun f => isTotp f && (normalizeFieldKey (fld_key f) =? wanted)) fields with
              | None => mret (TotpSeedUnavailable (fm_key declared))
              | Some stored =>
                  nowMs ← newDate;
                  match generateTotpCode (fld_value stored) nowMs with
                  | None => mret (TotpSeedUnavailable (fm_key declared))
                  | Some code => mret (TotpFound code (cv_versionNumber v) (fld_key stored))
                  end
              end
          end
      end
  end.

(** ** service.ts: archival and tags *)

Definition archiveCredential (credentialId userId : Uuid) : M (option CredentialRow) :=
  archivedAt ← newDate;
  _ ← newDate;
  rows ← updateCredentials (fun c => (cred_id c =? credentialId) && isNull (cred_archivedAt c))
           (fun c => c <| cred_archivedAt := Some archivedAt |> <| cred_archivedBy := Some userId |>);
  mret (head rows).

Definition unarchiveCredential (credentialId : Uuid) : M (option CredentialRow) :=
  _ ← newDate;
  rows ← updateCredentials (fun c => (cred_id c =? credentialId) && isNotNull (cred_archivedAt c))
           (fun c => c <| cred_archivedAt := None |> <| cred_archivedBy := None |>);
  mret (head rows).

(** lib/tags.ts *)
Definition normalizeTag (tag : string) : string := toLowerCase tag.

Fixpoint keepFirst (seen l : list string) : list string :=
  match l with
  | [] => []
  | x :: l' => if x ∈? seen then keepFirst seen l' else x :: keepFirst (x :: seen) l'
  end.

Definition dedupeTags (tags : list string) : list string := keepFirst [] (map normalizeTag tags).

Inductive TagUpdateMode := replace | append.
#[export] Instance TagUpdateMode_eq_dec : EqDecision TagUpdateMode.
Proof. solve_decision. Defined.

Inductive UpdateTagsResult :=
| TagsNotFound
| TooManyTags
| TagsUpdated (tags added removed : list string).

Definition updateCredentialTags (credentialId projectId : Uuid) (tags : list string)
    (mode : TagUpdateMode) : M UpdateTagsResult :=
  found ← selectFirst db_credentials (fun c => (cred_id c =? credentialId) && (cred_projectId c =? projectId));
  match found with
  | None => mret TagsNotFound
  | Some row =>
      let incoming := dedupeTags tags in
      let missing old := List.filter (fun tag => negb (tag ∈? old)) in
      let nextTags := if mode =? replace then incoming
                      else cred_tags row ++ missing (cred_tags row) incoming in
      if bool_decide (20 < length nextTags)%nat then mret TooManyTags
      else
        updated ← updateCredentials (fun c => cred_id c =? credentialId)
                    (fun c => c <| cred_tags := nextTags |>);
        match updated with
        | [] => mret TagsNotFound
        | _ =>
            mret (TagsUpdated nextTags (missing (cred_tags row) nextTags)
                    (if mode =? append then [] else missing nextTags (cred_tags row)))
        end
  end.

End credentials.
