(* ===== verification/Rotation.v ===== *)
(** * Rotation: modules/rotation/service.ts

    Every operation of the rotation service: initiation with its preflight,
    the checklist, the staged/promoted/retired transitions, the legacy
    completion, break-glass, resume and abandon, and the reads.  Result types
    have one constructor per outcome of the source's union type.  Dates are
    returned as dates, not rendered. *)

From S2P Require Import Prelude Js Crypto FieldSet AuthStore Store Tx Notifications Credentials.
From Stdlib Require Import Ascii String.
From stdpp Require Import strings.

Local Open Scope string_scope.
Local Open Scope list_scope.
Local Open Scope pv_scope.

(** ** JavaScript maps and sets, as entries in insertion order *)

Fixpoint jsMapSet {V} (m : list (string * V)) (k : string) (v : V) : list (string * V) :=
  match m with
  | [] => [(k, v)]
  | (k', v') :: m' => if k' =? k then (k', v) :: m' else (k', v') :: jsMapSet m' k v
  end.

Definition jsMapGet {V} (m : list (string * V)) (k : string) : option V :=
  snd <$> List.find (fun e => e.1 =? k) m.

(** [[...new Set(l)]] *)
Definition jsSet (l : list string) : list string := keepFirst [] l.

(** ** Preflight: the fields a rotation targets *)

Record InitiateRotationBody := MkInitiateRotationBody {
  irb_newValue : string;
  irb_targetFields : option (list string);
  irb_fieldValues : option (list (string * string));
  irb_notes : option string;
  irb_confirmSameValue : option bool;
}.

Inductive TargetFieldsValidation :=
| TargetFieldsOk (normalized : option (list string))
| TargetFieldsUnknown (field : string).

Inductive FieldValuesValidation :=
| FieldValuesOk
| FieldValuesMismatch (missing extra : list string).

Record FieldScopedSnapshot := MkFieldScopedSnapshot {
  fss_fields : list Field;
  fss_sameValueField : option string;
}.

Section preflight.
Context `{Platform, NodeCrypto, Unicode, OtpAuth}.

Definition constantTimeEqual (a b : string) : bool := sha256 a =? sha256 b.

Definition validateTargetFields (targetFields : option (list string)) (schemaVersion : Z)
    (fieldMeta : option (list FieldMeta)) : TargetFieldsValidation :=
  let declared := fieldMetaForResponse schemaVersion fieldMeta in
  match targetFields with
  | None =>
      match List.find isTotpMeta declared with
      | Some m => TargetFieldsUnknown (normalizeFieldKey (fm_key m))
      | None => TargetFieldsOk None
      end
  | Some keys =>
      let normalized := map normalizeFieldKey keys in
      let declaredKeys := map (fun m => normalizeFieldKey (fm_key m))
                            (List.filter (fun m => negb (isTotpMeta m)) declared) in
      match List.find (fun key => negb (key ∈? declaredKeys)) normalized with
      | Some m => TargetFieldsUnknown m
      | None => TargetFieldsOk (Some normalized)
      end
  end.

Definition normalizeFieldValues (fieldValues : option (list (string * string)))
    : option (list (string * string)) :=
  (fun entries => foldl (fun m e => jsMapSet m (normalizeFieldKey e.1) e.2) [] entries) <$> fieldValues.

Fixpoint findDuplicateFrom (seen : list (string * string)) (keys : list string) : option string :=
  match keys with
  | [] => None
  | key :: keys' =>
      let normalizedKey := normalizeFieldKey key in
      match jsMapGet seen normalizedKey with
      | Some firstRawKey =>
          if negb (firstRawKey =? key) then Some normalizedKey
          else findDuplicateFrom (jsMapSet seen normalizedKey key) keys'
      | None => findDuplicateFrom (jsMapSet seen normalizedKey key) keys'
      end
  end.

Definition findDuplicateNormalizedFieldValueKey (fieldValues : list (string * string)) : option string :=
  findDuplicateFrom [] (map fst fieldValues).

Definition validateFieldValues (normalizedFieldValues : option (list (string * string)))
    (normalizedTargetFields : option (list string)) : FieldValuesValidation :=
  match normalizedFieldValues with
  | None => FieldValuesOk
  | Some values =>
      let targetSet := jsSet (default [] normalizedTargetFields) in
      let valueKeys := map fst values in
      let missing := List.filter (fun key => negb (key ∈? valueKeys)) targetSet in
      let extra := List.filter (fun key => negb (key ∈? targetSet)) valueKeys in
      if (bool_decide (0 < length missing)%nat) || (bool_decide (0 < length extra)%nat)
      then FieldValuesMismatch missing extra else FieldValuesOk
  end.

Definition valueForField (key newValue : string) (fieldValues : option (list (string * string))) : string :=
  default newValue (m ← fieldValues; jsMapGet m key).

Definition buildFieldScopedSnapshot (previousSchemaVersion : Z) (previousPlaintext : string)
    (normalizedTargetFields : list string) (newValue : string)
    (fieldValues : option (list (string * string))) : Outcome FieldScopedSnapshot :=
  previousFields ← parseFieldsFromPlaintext previousSchemaVersion previousPlaintext;
  let nextFields := map (fun f =>
    let normalizedKey := normalizeFieldKey (fld_key f) in
    if normalizedKey ∈? normalizedTargetFields
    then f <| fld_value := valueForField normalizedKey newValue fieldValues |> else f) previousFields in
  let sameValueField := List.find (fun key =>
    match List.find (fun f => normalizeFieldKey (fld_key f) =? key) previousFields with
    | Some m => constantTimeEqual (fld_value m) (valueForField key newValue fieldValues)
    | None => false
    end) normalizedTargetFields in
  Ok {| fss_fields := nextFields; fss_sameValueField := sameValueField |}.

(** [sameValueAsPrevious], [sameValueField] and [previousPlaintext]. *)
Definition computeSameValueAsPrevious (previousVersion : VersionRow)
    (normalizedTargetFields : option (list string)) (newValue : string)
    (fieldValues : option (list (string * string))) : M (bool * option string * option string) :=
  match cv_encryptedValue previousVersion with
  | None => mret (false, None, None)
  | Some enc =>
      previousPlaintext ← withSecretText enc;
      match normalizedTargetFields with
      | Some targets =>
          snapshot ← lift (buildFieldScopedSnapshot (cv_schemaVersion previousVersion)
                             previousPlaintext targets newValue fieldValues);
          mret (isNotNull (fss_sameValueField snapshot), fss_sameValueField snapshot,
                Some previousPlaintext)
      | None =>
          previousValue ← lift (unwrapRevealValue (cv_schemaVersion previousVersion) previousPlaintext);
          mret (constantTimeEqual previousValue newValue, None, Some previousPlaintext)
      end
  end.

(** The encrypted value, [schemaVersion] and [fieldMeta] of the new version. *)
Definition buildNewVersionInsertFields (previousVersion : VersionRow)
    (previousPlaintext : option string) (normalizedTargetFields : option (list string))
    (newValue : string) (fieldValues : option (list (string * string)))
    : M (EncryptedValue * option Z * option (list FieldMeta)) :=
  match normalizedTargetFields with
  | None => enc ← encryptValue newValue; mret (enc, None, None)
  | Some targets =>
      snapshot ← lift (buildFieldScopedSnapshot (cv_schemaVersion previousVersion)
                         (default "" previousPlaintext) targets newValue fieldValues);
      enc ← encryptValue (serializeFieldEnvelope (MkResolvedFieldSet (fss_fields snapshot) None));
      mret (enc, Some 2%Z, Some (fieldMetaForResponse (cv_schemaVersion previousVersion)
                                    (cv_fieldMeta previousVersion)))
  end.

Definition nextCredentialVersionNumber (credentialId : Uuid) : M Z :=
  max ← selectMaxVersionNumber credentialId;
  mret (max + 1)%Z.

Definition newVersionInsertValues (orgId credentialId userId : Uuid) (versionNumber keyVersion : Z)
    (newVersionFields : EncryptedValue * option Z * option (list FieldMeta)) : NewVersion :=
  let '(enc, schemaVersion, fieldMeta) := newVersionFields in
  {| nv_orgId := orgId; nv_credentialId := credentialId; nv_encryptedValue := enc;
     nv_keyVersion := keyVersion; nv_versionNumber := versionNumber; nv_createdBy := userId;
     nv_schemaVersion := schemaVersion; nv_fieldMeta := fieldMeta; nv_promotedAt := None |}.

Definition dependencyChecklistFilter (orgId credentialId : Uuid)
    (normalizedTargetFields : option (list string)) (d : DependencyRow) : bool :=
  (dep_orgId d =? orgId) && (dep_credentialId d =? credentialId) && isNull (dep_archivedAt d)
  && match normalizedTargetFields with
     | Some targets =>
         match dep_fieldKey d with
         | None => true
         | Some k => k ∈? targets
         end
     | None => true
     end.

(** [ORDER BY version_number DESC LIMIT 1 FOR UPDATE] *)
Definition lockCurrentNonPurgedVersion (credentialId : Uuid) (notFoundMessage : string) : M VersionRow :=
  row ← selectFirstOrdered db_versions
          (fun v => (cv_credentialId v =? credentialId) && isNull (cv_purgedAt v) && isNull (cv_abandonedAt v))
          (fun a b => cv_versionNumber b <=? cv_versionNumber a);
  match row with
  | Some v => mret v
  | None => throw (JsError notFoundMessage)
  end.

Inductive LoadRotationTargetResult :=
| LoadCredentialNotFound
| LoadProjectArchived
| LoadCredentialArchived
| LoadOk (previousVersion : VersionRow).

Definition loadRotationTargetForUpdate (projectId credentialId : Uuid) : M LoadRotationTargetResult :=
  projectRow ← selectFirst db_projects (fun p => proj_id p =? projectId);
  match projectRow with
  | None => mret LoadCredentialNotFound
  | Some p =>
      if isNotNull (proj_archivedAt p) then mret LoadProjectArchived
      else
        credential ← lockCredentialInProject credentialId projectId;
        match credential with
        | None => mret LoadCredentialNotFound
        | Some id =>
            archived ← isCredentialArchived id;
            if archived : bool then mret LoadCredentialArchived
            else
              previousVersion ← lockCurrentNonPurgedVersion credentialId
                ("initiateRotation: credential " +:+ uuidText credentialId
                 +:+ " has no non-purged version to supersede");
              mret (LoadOk previousVersion)
        end
  end.

Inductive InitiateRotationResult :=
| InitCredentialNotFound
| InitProjectArchived
| InitCredentialArchived
| InitUnknownFieldKey (field : string)
| InitSameValueConfirmationRequired (field : option string)
| InitFieldValuesTargetMismatch (missing extra : list string)
| InitInitiatorInactive
| Initiated (rotation : RotationRow) (checklistItems : list ChecklistItemRow)
    (sameValueAsPrevious sameValueConfirmed : bool).

Record Preflight := MkPreflight {
  pf_targetFields : option (list string);
  pf_fieldValues : option (list (string * string));
  pf_previousPlaintext : option string;
  pf_sameValueAsPrevious : bool;
  pf_sameValueConfirmed : bool;
}.

Definition resolveInitiateRotationPreflight (previousVersion : VersionRow)
    (body : InitiateRotationBody) : M (InitiateRotationResult + Preflight) :=
  match validateTargetFields (irb_targetFields body) (cv_schemaVersion previousVersion)
          (cv_fieldMeta previousVersion) with
  | TargetFieldsUnknown field => mret (inl (InitUnknownFieldKey field))
  | TargetFieldsOk targets =>
      match irb_fieldValues body ≫= findDuplicateNormalizedFieldValueKey with
      | Some duplicateKey => mret (inl (InitFieldValuesTargetMismatch [] [duplicateKey]))
      | None =>
          let values := normalizeFieldValues (irb_fieldValues body) in
          match validateFieldValues values targets with
          | FieldValuesMismatch missing extra => mret (inl (InitFieldValuesTargetMismatch missing extra))
          | FieldValuesOk =>
              '(same, sameField, plaintext) ←
                computeSameValueAsPrevious previousVersion targets (irb_newValue body) values;
              if same && negb (irb_confirmSameValue body =? Some true)
              then mret (inl (InitSameValueConfirmationRequired sameField))
              else mret (inr {| pf_targetFields := targets; pf_fieldValues := values;
                                pf_previousPlaintext := plaintext; pf_sameValueAsPrevious := same;
                                pf_sameValueConfirmed := same && (irb_confirmSameValue body =? Some true) |})
          end
      end
  end.

Definition lockActiveInitiatorMembership (orgId userId : Uuid) : M bool :=
  membership ← selectFirst db_memberships (fun m => (mem_orgId m =? orgId) && (mem_userId m =? userId));
  mret (match membership with Some m => mem_status m =? active | None => false end).

(** ** Statements on rotations and checklist items *)

Definition findInProgressRotationId (credentialId : Uuid) : M (option Uuid) :=
  row ← selectFirst db_rotations (fun r => (rot_credentialId r =? credentialId) && isActive r);
  mret (rot_id <$> row).

Definition updateRotations (p : RotationRow -> bool) (f : RotationRow -> RotationRow)
    : M (list RotationRow) :=
  now ← dbNow;
  updateWhere db_rotations p (fun r => (f r) <| rot_updatedAt := now |>).

Definition updateItems (p : ChecklistItemRow -> bool) (f : ChecklistItemRow -> ChecklistItemRow)
    : M (list ChecklistItemRow) :=
  now ← dbNow;
  updateWhere db_items p (fun i => (f i) <| item_updatedAt := now |>).

Definition updateVersions (p : VersionRow -> bool) (f : VersionRow -> VersionRow) : M (list VersionRow) :=
  updateWhere db_versions p f.

Definition insertRotation (orgId projectId credentialId newVersionId previousVersionId : Uuid)
    (status : RotationStatus) (userId : Uuid) (notes : option string)
    (targetFields : option (list string)) : M RotationRow :=
  id ← genRandomUuid;
  now ← dbNow;
  insertRow db_rotations rotationConflict
    {| rot_id := id; rot_orgId := orgId; rot_projectId := projectId; rot_credentialId := credentialId;
       rot_newVersionId := newVersionId; rot_previousVersionId := previousVersionId;
       rot_status := status; rot_version := 1; rot_initiatedBy := Some userId; rot_ownerUserId := None;
       rot_initiatedAt := now; rot_completedAt := None; rot_promotedAt := None; rot_retiredAt := None;
       rot_staleStagedAlertedAt := None; rot_notes := notes; rot_targetFields := targetFields;
       rot_createdAt := now; rot_updatedAt := now |}.

Definition insertChecklistItem (orgId rotationId : Uuid) (dep : DependencyRow) : M ChecklistItemRow :=
  id ← genRandomUuid;
  now ← dbNow;
  insertRow db_items itemConflict
    {| item_id := id; item_orgId := orgId; item_rotationId := rotationId;
       item_dependencyId := Some (dep_id dep); item_systemName := dep_systemName dep;
       item_status := unconfirmed; item_confirmedBy := None; item_confirmedAt := None;
       item_notes := None; item_retryCount := 0; item_retryScheduledAt := None;
       item_lastFailureReason := None; item_lastActedBy := None; item_lastActedAt := None;
       item_createdAt := now; item_updatedAt := now |}.

(** ** Initiation *)

Record InitiateInput := MkInitiateInput {
  ii_orgId : Uuid;
  ii_projectId : Uuid;
  ii_credentialId : Uuid;
  ii_userId : Uuid;
  ii_body : InitiateRotationBody;
}.

(** The writes of an accepted initiation. *)
Definition writeRotation (input : InitiateInput) (previousVersion : VersionRow) (pf : Preflight)
    : M InitiateRotationResult :=
  keyVersion ← currentKeyVersion;
  versionNumber ← nextCredentialVersionNumber (ii_credentialId input);
  newVersionFields ← buildNewVersionInsertFields previousVersion (pf_previousPlaintext pf)
    (pf_targetFields pf) (irb_newValue (ii_body input)) (pf_fieldValues pf);
  newVersion ← insertVersion (newVersionInsertValues (ii_orgId input) (ii_credentialId input)
                 (ii_userId input) versionNumber keyVersion newVersionFields);
  lockedAt ← newDate;
  _ ← updateVersions (fun v => cv_id v =? cv_id previousVersion)
        (fun v => v <| cv_rotationLockedAt := Some lockedAt |>);
  dependencyRows ← selectWhere db_dependencies
    (dependencyChecklistFilter (ii_orgId input) (ii_credentialId input) (pf_targetFields pf));
  rotation ← insertRotation (ii_orgId input) (ii_projectId input) (ii_credentialId input)
    (cv_id newVersion) (cv_id previousVersion) staged (ii_userId input)
    (irb_notes (ii_body input)) (pf_targetFields pf);
  checklistItems ← forEachCollect dependencyRows
    (insertChecklistItem (ii_orgId input) (rot_id rotation));
  mret (Initiated rotation checklistItems (pf_sameValueAsPrevious pf) (pf_sameValueConfirmed pf)).

(** The callback of the savepoint. *)
Definition initiateInSavepoint (input : InitiateInput) : M InitiateRotationResult :=
  loaded ← loadRotationTargetForUpdate (ii_projectId input) (ii_credentialId input);
  match loaded with
  | LoadCredentialNotFound => mret InitCredentialNotFound
  | LoadProjectArchived => mret InitProjectArchived
  | LoadCredentialArchived => mret InitCredentialArchived
  | LoadOk previousVersion =>
      preflight ← resolveInitiateRotationPreflight previousVersion (ii_body input);
      match preflight with
      | inl result => mret result
      | inr pf => writeRotation input previousVersion pf
      end
  end.

Definition initiateRotation (input : InitiateInput) : M InitiateRotationResult :=
  locked ← tryAcquireCredentialScopedLock (ii_orgId input) (ii_credentialId input);
  if negb locked then
    _ ← awaitCredentialScopedLockRelease (ii_orgId input) (ii_credentialId input);
    id ← findInProgressRotationId (ii_credentialId input);
    throw (RotationConflictError id)
  else
    activeMember ← lockActiveInitiatorMembership (ii_orgId input) (ii_userId input);
    if negb activeMember then mret InitInitiatorInactive
    else
      catch (transaction (initiateInSavepoint input))
        (fun error =>
           if isUniqueViolation error
           then id ← findInProgressRotationId (ii_credentialId input); throw (RotationConflictError id)
           else throw error).

End preflight.
