(* ===== verification/Transitions.v ===== *)
(** * Rotation transitions: modules/rotation/service.ts, from the checklist to abandon

    Compare-and-swap on [rotations.version], the checklist mutations, the
    legacy completion, promote and retire with their acknowledgement gate,
    break-glass, resume and abandon, and the reads. *)

From S2P Require Import Prelude Js Crypto FieldSet AuthStore Store Tx Notifications Credentials Rotation.
From Stdlib Require Import Ascii String.
From stdpp Require Import strings.

Local Open Scope string_scope.
Local Open Scope list_scope.
Local Open Scope pv_scope.

(** The scope of a rotation route. *)
Record RotationParams := MkRotationParams {
  rp_orgId : Uuid;
  rp_projectId : Uuid;
  rp_credentialId : Uuid;
  rp_rotationId : Uuid;
}.

(** [ORDER BY created_at, id] *)
Definition itemOrder (a b : ChecklistItemRow) : bool :=
  (item_createdAt a <? item_createdAt b)
  || ((item_createdAt a =? item_createdAt b) && (item_id a <=? item_id b)%N).

Definition orderChecklistItems (items : list ChecklistItemRow) : list ChecklistItemRow :=
  isort itemOrder items.

Record PendingItem := MkPendingItem {
  pi_id : Uuid;
  pi_systemName : string;
  pi_status : ItemStatus;
}.

Definition pendingOf (i : ChecklistItemRow) : PendingItem :=
  MkPendingItem (item_id i) (item_systemName i) (item_status i).

Section transitions.
Context `{Platform, NodeCrypto, Unicode, OtpAuth, Locale, Env}.

(** ** Lookup and compare-and-swap *)

Definition inScope (p : RotationParams) (r : RotationRow) : bool :=
  (rot_id r =? rp_rotationId p) && (rot_credentialId r =? rp_credentialId p)
  && (rot_projectId r =? rp_projectId p).

Definition findRotationInScope (p : RotationParams) : M (option RotationRow) :=
  selectFirst db_rotations (inScope p).

Inductive CasResult (A : Type) :=
| CasOk (a : A)
| CasConcurrentModification (currentVersion : option Z).
Arguments CasOk {A} a.
Arguments CasConcurrentModification {A} currentVersion.

Definition casTransitionRotation (p : RotationParams) (observedVersion : Z)
    (setFields : RotationRow -> RotationRow) (fromStatus : option RotationStatus)
    : M (CasResult RotationRow) :=
  _ ← newDate;
  updated ← updateRotations
    (fun r => (rot_id r =? rp_rotationId p) && (rot_version r =? observedVersion)
              && match fromStatus with Some s => rot_status r =? s | None => true end)
    (fun r => (setFields r) <| rot_version := (observedVersion + 1)%Z |>);
  match updated with
  | [] => current ← findRotationInScope p; mret (CasConcurrentModification (rot_version <$> current))
  | r :: _ => mret (CasOk r)
  end.

Definition findChecklistItemInScope (rotationId itemId : Uuid) : M (option ChecklistItemRow) :=
  selectFirst db_items (fun i => (item_id i =? itemId) && (item_rotationId i =? rotationId)).

Definition itemScopeWhere (rotationId itemId : Uuid) (status : option ItemStatus)
    (i : ChecklistItemRow) : bool :=
  (item_id i =? itemId) && (item_rotationId i =? rotationId)
  && match status with Some s => item_status i =? s | None => true end.

Definition casIncrementRotationVersion (rotationId : Uuid) (observedVersion : Z) : M (option Z) :=
  _ ← newDate;
  rows ← updateRotations
    (fun r => (rot_id r =? rotationId) && (rot_version r =? observedVersion))
    (fun r => r <| rot_version := (observedVersion + 1)%Z |>);
  mret (rot_version <$> head rows).

Definition assertUpdatedRow {T} (rows : list T) (context : string) : M T :=
  match rows with
  | [] => throw (JsError (context +:+ ": expected UPDATE ... RETURNING to return exactly one row"))
  | row :: _ => mret row
  end.

Definition reserveRotationVersion (p : RotationParams) (observedVersion : Z) : M (CasResult Z) :=
  newVersion ← casIncrementRotationVersion (rp_rotationId p) observedVersion;
  match newVersion with
  | Some v => mret (CasOk v)
  | None => current ← findRotationInScope p; mret (CasConcurrentModification (rot_version <$> current))
  end.

Definition reserveVersionAndUpdateItem (p : RotationParams) (itemId : Uuid) (rotationVersion : Z)
    (fromStatus : option ItemStatus) (setFields : ChecklistItemRow -> ChecklistItemRow) (label : string)
    : M (CasResult (ChecklistItemRow * Z)) :=
  cas ← reserveRotationVersion p rotationVersion;
  match cas with
  | CasConcurrentModification v => mret (CasConcurrentModification v)
  | CasOk newVersion =>
      updated ← updateItems (itemScopeWhere (rp_rotationId p) itemId fromStatus) setFields;
      item ← assertUpdatedRow updated label;
      mret (CasOk (item, newVersion))
  end.

(** ** Locking and loading *)

Inductive RotationScopedLockResult :=
| RslLockedConflict (currentVersion : option Z)
| RslNotFound
| RslFound (rotation : RotationRow).

Definition acquireRotationScopedLockAndFind (p : RotationParams) : M RotationScopedLockResult :=
  locked ← tryAcquireRotationScopedLock (rp_orgId p) (rp_rotationId p);
  if negb locked then
    existing ← findRotationInScope p;
    mret (RslLockedConflict (rot_version <$> existing))
  else
    rotation ← findRotationInScope p;
    mret (match rotation with Some r => RslFound r | None => RslNotFound end).

Inductive RotationLockOutcome :=
| LockLockedConflict (currentVersion : option Z)
| LockNotFound
| LockNotActive (rotation : RotationRow)
| LockOk (rotation : RotationRow).

Definition CHECKLIST_ACTION_ALLOWED_STATUSES : list RotationStatus := [in_progress; staged; promoted].

Definition acquireAndLoadRotation (p : RotationParams) (allowedStatuses : list RotationStatus)
    : M RotationLockOutcome :=
  result ← acquireRotationScopedLockAndFind p;
  mret (match result with
        | RslLockedConflict v => LockLockedConflict v
        | RslNotFound => LockNotFound
        | RslFound r => if negb (rot_status r ∈? allowedStatuses) then LockNotActive r else LockOk r
        end).

Inductive ChecklistLockFailure :=
| FailLockedConflict (currentVersion : option Z)
| FailRotationNotFound
| FailRotationNotActive (status : RotationStatus)
| FailItemNotFound
| FailConcurrentModification (currentVersion : option Z).

Definition lockOutcomeToFailure (lockResult : RotationLockOutcome) : option ChecklistLockFailure :=
  match lockResult with
  | LockLockedConflict v => Some (FailLockedConflict v)
  | LockNotFound => Some FailRotationNotFound
  | LockNotActive r => Some (FailRotationNotActive (rot_status r))
  | LockOk _ => None
  end.

Definition acquireLockAndItem (p : RotationParams) (itemId : Uuid)
    : M (ChecklistLockFailure + RotationRow * ChecklistItemRow) :=
  lockResult ← acquireAndLoadRotation p CHECKLIST_ACTION_ALLOWED_STATUSES;
  match lockOutcomeToFailure lockResult, lockResult with
  | Some f, _ => mret (inl f)
  | None, LockOk rotation =>
      item ← findChecklistItemInScope (rp_rotationId p) itemId;
      mret (match item with
            | None => inl FailItemNotFound
            | Some i => inr (rotation, i)
            end)
  | None, _ => throw (JsError "unreachable rotation lock outcome")
  end.

(** ** Checklist: confirm, fail, retry *)

Inductive ConfirmChecklistItemResult :=
| ConfirmFailure (f : ChecklistLockFailure)
| AlreadyConfirmed (item : ChecklistItemRow)
| Confirmed (item : ChecklistItemRow) (rotationVersion : Z).

Definition confirmChecklistItem (p : RotationParams) (itemId userId : Uuid) (notes : option string)
    : M ConfirmChecklistItemResult :=
  acquired ← acquireLockAndItem p itemId;
  match acquired with
  | inl f => mret (ConfirmFailure f)
  | inr (rotation, item) =>
      if item_status item =? confirmed then mret (AlreadyConfirmed item)
      else
        now ← newDate;
        result ← reserveVersionAndUpdateItem p itemId (rot_version rotation) None
          (fun i =>
             let i := i <| item_status := confirmed |> <| item_confirmedBy := Some userId |>
                        <| item_confirmedAt := Some now |> <| item_lastActedBy := Some userId |>
                        <| item_lastActedAt := Some now |> in
             match notes with
             | Some n => if n =? "" then i else i <| item_notes := Some n |>
             | None => i
             end)
          "confirmChecklistItem";
        mret (match result with
              | CasConcurrentModification v => ConfirmFailure (FailConcurrentModification v)
              | CasOk (i, v) => Confirmed i v
              end)
  end.

Inductive FailChecklistItemResult :=
| FailFailure (f : ChecklistLockFailure)
| FailInvalidItemStatus (item : ChecklistItemRow)
| Failed (item : ChecklistItemRow) (rotationVersion : Z) (jobs : list NotificationQueueJob).

Definition itemAlertPayload (p : RotationParams) (item : ChecklistItemRow) (extra : string * Json) : Json :=
  JObj [("rotationId", JUuid (rp_rotationId p)); ("itemId", JUuid (item_id item));
        ("credentialId", JUuid (rp_credentialId p)); ("systemName", JStr (item_systemName item)); extra].

Definition failChecklistItem (p : RotationParams) (itemId userId : Uuid) (reason : string)
    (retryScheduledAt : option Date) : M FailChecklistItemResult :=
  acquired ← acquireLockAndItem p itemId;
  match acquired with
  | inl f => mret (FailFailure f)
  | inr (rotation, item) =>
      if negb (item_status item =? unconfirmed) then mret (FailInvalidItemStatus item)
      else
        now ← newDate;
        result ← reserveVersionAndUpdateItem p itemId (rot_version rotation) (Some unconfirmed)
          (fun i => i <| item_status := failed |> <| item_lastFailureReason := Some reason |>
                      <| item_retryScheduledAt := retryScheduledAt |>
                      <| item_lastActedBy := Some userId |> <| item_lastActedAt := Some now |>)
          "failChecklistItem";
        match result with
        | CasConcurrentModification v => mret (FailFailure (FailConcurrentModification v))
        | CasOk (failedItem, v) =>
            jobs ← enqueueSecurityAlertNotification (rp_orgId p) "rotation.confirmation_failed"
                     (itemAlertPayload p failedItem ("reason", JStr reason)) (Some warning);
            mret (Failed failedItem v jobs)
        end
  end.

Inductive RetryChecklistItemResult :=
| RetryFailure (f : ChecklistLockFailure)
| RetryInvalidItemStatus (item : ChecklistItemRow)
| Retried (item : ChecklistItemRow) (rotationVersion : Z)
| MaxRetriesExceeded (item : ChecklistItemRow) (retryCount maxRetries : Z)
    (jobs : list NotificationQueueJob).

Definition applyMaxRetriesExceeded (p : RotationParams) (itemId userId : Uuid)
    (observedVersion maxRetries : Z) : M RetryChecklistItemResult :=
  now ← newDate;
  result ← reserveVersionAndUpdateItem p itemId observedVersion (Some failed)
    (fun i => i <| item_status := max_retries_exceeded |> <| item_lastActedBy := Some userId |>
                <| item_lastActedAt := Some now |>)
    "applyMaxRetriesExceeded";
  match result with
  | CasConcurrentModification v => mret (RetryFailure (FailConcurrentModification v))
  | CasOk (exceededItem, _) =>
      jobs ← enqueueSecurityAlertNotification (rp_orgId p) "rotation.max_retries_exceeded"
               (itemAlertPayload p exceededItem ("retryCount", JInt (item_retryCount exceededItem)))
               (Some critical);
      mret (MaxRetriesExceeded exceededItem (item_retryCount exceededItem) maxRetries jobs)
  end.

Definition applyRetry (p : RotationParams) (itemId userId : Uuid) (observedVersion : Z)
    : M RetryChecklistItemResult :=
  now ← newDate;
  result ← reserveVersionAndUpdateItem p itemId observedVersion (Some failed)
    (fun i => i <| item_status := unconfirmed |> <| item_retryCount := (item_retryCount i + 1)%Z |>
                <| item_lastActedBy := Some userId |> <| item_lastActedAt := Some now |>)
    "applyRetry";
  mret (match result with
        | CasConcurrentModification v => RetryFailure (FailConcurrentModification v)
        | CasOk (i, v) => Retried i v
        end).

Definition retryChecklistItem (p : RotationParams) (itemId userId : Uuid) : M RetryChecklistItemResult :=
  acquired ← acquireLockAndItem p itemId;
  match acquired with
  | inl f => mret (RetryFailure f)
  | inr (rotation, item) =>
      if negb (item_status item =? failed) then mret (RetryInvalidItemStatus item)
      else
        let maxRetries := ROTATION_MAX_RETRIES in
        if maxRetries <=? item_retryCount item
        then applyMaxRetriesExceeded p itemId userId (rot_version rotation) maxRetries
        else applyRetry p itemId userId (rot_version rotation)
  end.

(** ** Completion of a legacy rotation *)

Definition loadChecklistItems (rotationId : Uuid) : M (list ChecklistItemRow) :=
  selectOrdered db_items (fun i => item_rotationId i =? rotationId) itemOrder.

Definition LEGACY_COMPLETE_BLOCKED_STATUSES : list RotationStatus := [staged; promoted; retired].

Inductive CompleteRotationResult :=
| CompleteFailure (f : ChecklistLockFailure)
| CompleteWrongState (currentStatus : RotationStatus)
| CompleteChecklistIncomplete (pendingItems : list PendingItem) (totalItemCount : nat)
| CompleteAcknowledgementRequired
| Completed (rotation : RotationRow) (checklistItems : list ChecklistItemRow) (singleActorAttested : bool).

(** The distinct confirmers, [None] for a deleted account. *)
Fixpoint distinctConfirmers (seen : list (option Uuid)) (items : list ChecklistItemRow)
    : list (option Uuid) :=
  match items with
  | [] => []
  | i :: items' =>
      if item_confirmedBy i ∈? seen then distinctConfirmers seen items'
      else item_confirmedBy i :: distinctConfirmers (item_confirmedBy i :: seen) items'
  end.

Definition computeSingleActorAttested (items : list ChecklistItemRow) (initiatedBy : option Uuid) : bool :=
  let confirmedByUsers := distinctConfirmers [] items in
  match confirmedByUsers with
  | soleConfirmedBy :: _ =>
      (bool_decide (0 < length items)%nat) && (length confirmedByUsers =? 1%nat)
      && isNotNull soleConfirmedBy && (soleConfirmedBy =? initiatedBy)
  | [] => false
  end.

Definition completeRotation (p : RotationParams) (acknowledgedNoDependencies : option bool)
    : M CompleteRotationResult :=
  lockResult ← acquireAndLoadRotation p [in_progress];
  match lockResult with
  | LockNotActive r =>
      if rot_status r ∈? LEGACY_COMPLETE_BLOCKED_STATUSES then mret (CompleteWrongState (rot_status r))
      else mret (CompleteFailure (FailRotationNotActive (rot_status r)))
  | LockLockedConflict v => mret (CompleteFailure (FailLockedConflict v))
  | LockNotFound => mret (CompleteFailure FailRotationNotFound)
  | LockOk rotation =>
      items ← loadChecklistItems (rp_rotationId p);
      let pending := List.filter (fun i => negb (item_status i =? confirmed)) items in
      if bool_decide (0 < length pending)%nat
      then mret (CompleteChecklistIncomplete (map pendingOf pending) (length items))
      else if (length items =? 0%nat) && negb (acknowledgedNoDependencies =? Some true)
      then mret CompleteAcknowledgementRequired
      else
        completedAt ← newDate;
        transition ← casTransitionRotation p (rot_version rotation)
          (fun r => r <| rot_status := completed |> <| rot_completedAt := Some completedAt |>) None;
        match transition with
        | CasConcurrentModification v => mret (CompleteFailure (FailConcurrentModification v))
        | CasOk updatedRotation =>
            _ ← updateVersions (fun v => cv_id v =? rot_previousVersionId rotation)
                  (fun v => v <| cv_rotationLockedAt := None |>);
            mret (Completed updatedRotation items
                    (computeSingleActorAttested items (rot_initiatedBy rotation)))
        end
  end.

(** ** Promote and retire *)

Record AckBody := MkAckBody {
  ack_noDependencies : option bool;
  ack_incompleteChecklist : option bool;
}.

Inductive ChecklistAcknowledgementOutcome :=
| AckRequired (pendingItems : list PendingItem) (totalItemCount : nat)
| AckOk (checklistAcknowledged : bool) (pendingCount : nat).

Definition evaluateChecklistAcknowledgement (items : list ChecklistItemRow) (body : AckBody)
    : ChecklistAcknowledgementOutcome :=
  let pending := List.filter (fun i => negb (item_status i =? confirmed)) items in
  if length items =? 0%nat then
    if negb (ack_noDependencies body =? Some true) then AckRequired [] 0 else AckOk false 0
  else if bool_decide (0 < length pending)%nat then
    if negb (ack_incompleteChecklist body =? Some true)
    then AckRequired (map pendingOf pending) (length items)
    else AckOk true (length pending)
  else AckOk false 0.

(** The failures promote and retire share. *)
Inductive TransitionFailure :=
| TfLockedConflict (currentVersion : option Z)
| TfRotationNotFound
| TfWrongStatus (currentStatus : RotationStatus)
| TfAcknowledgementRequired (pendingItems : list PendingItem) (totalItemCount : nat)
| TfConcurrentModification (currentVersion : option Z).

Record ReadyToTransition := MkReadyToTransition {
  ready_rotation : RotationRow;
  ready_items : list ChecklistItemRow;
  ready_checklistAcknowledged : bool;
  ready_pendingCount : nat;
}.

Definition acquireAndLoadRotationExpecting (p : RotationParams) (expectedStatus : RotationStatus)
    : M (TransitionFailure + RotationRow) :=
  result ← acquireRotationScopedLockAndFind p;
  mret (match result with
        | RslLockedConflict v => inl (TfLockedConflict v)
        | RslNotFound => inl TfRotationNotFound
        | RslFound r => if negb (rot_status r =? expectedStatus) then inl (TfWrongStatus (rot_status r))
                        else inr r
        end).

Definition acquireLoadAndAcknowledgeRotation (p : RotationParams) (body : AckBody)
    (expectedStatus : RotationStatus) : M (TransitionFailure + ReadyToTransition) :=
  lockResult ← acquireAndLoadRotationExpecting p expectedStatus;
  match lockResult with
  | inl f => mret (inl f)
  | inr rotation =>
      items ← loadChecklistItems (rp_rotationId p);
      mret (match evaluateChecklistAcknowledgement items body with
            | AckRequired pending total => inl (TfAcknowledgementRequired pending total)
            | AckOk acknowledged pendingCount =>
                inr (MkReadyToTransition rotation items acknowledged pendingCount)
            end)
  end.

Inductive PromoteRotationResult :=
| PromoteFailure (f : TransitionFailure)
| Promoted (rotation : RotationRow) (checklistItems : list ChecklistItemRow)
    (checklistAcknowledged : bool) (pendingItemCountAtAction : nat).

Definition promoteRotation (p : RotationParams) (body : AckBody) : M PromoteRotationResult :=
  ready ← acquireLoadAndAcknowledgeRotation p body staged;
  match ready with
  | inl f => mret (PromoteFailure f)
  | inr ready =>
      promotedAt ← newDate;
      transition ← casTransitionRotation p (rot_version (ready_rotation ready))
        (fun r => r <| rot_status := promoted |> <| rot_promotedAt := Some promotedAt |>) None;
      match transition with
      | CasConcurrentModification v => mret (PromoteFailure (TfConcurrentModification v))
      | CasOk updatedRotation =>
          versionPromotedAt ← newDate;
          _ ← updateVersions (fun v => cv_id v =? rot_newVersionId updatedRotation)
                (fun v => v <| cv_promotedAt := Some versionPromotedAt |>);
          mret (Promoted updatedRotation (ready_items ready) (ready_checklistAcknowledged ready)
                  (ready_pendingCount ready))
      end
  end.

(** lib/zero-overwrite-credential-version.ts *)
Fixpoint repeatChar (c : ascii) (n : nat) : string :=
  match n with O => EmptyString | S n => String c (repeatChar c n) end.

Definition zeroedValue : EncryptedValue :=
  {| ev_version := 1; ev_iv := repeatChar "0" 24; ev_ciphertext := repeatChar "0" 64;
     ev_tag := repeatChar "0" 32 |}.

Definition zeroOverwriteCredentialVersionValue (versionId : Uuid) (extraWhere : VersionRow -> bool) : M unit :=
  _ ← updateVersions (fun v => (cv_id v =? versionId) && extraWhere v)
        (fun v => v <| cv_encryptedValue := Some zeroedValue |>);
  mret tt.

Inductive RetireRotationResult :=
| RetireFailure (f : TransitionFailure)
| Retired (rotation : RotationRow) (checklistItems : list ChecklistItemRow)
    (checklistAcknowledged : bool) (pendingItemCountAtAction : nat).

Definition retireRotation (p : RotationParams) (body : AckBody) : M RetireRotationResult :=
  ready ← acquireLoadAndAcknowledgeRotation p body promoted;
  match ready with
  | inl f => mret (RetireFailure f)
  | inr ready =>
      retiredAt ← newDate;
      transition ← casTransitionRotation p (rot_version (ready_rotation ready))
        (fun r => r <| rot_status := retired |> <| rot_retiredAt := Some retiredAt |>) None;
      match transition with
      | CasConcurrentModification v => mret (RetireFailure (TfConcurrentModification v))
      | CasOk updatedRotation =>
          let oldVersionId := rot_previousVersionId updatedRotation in
          _ ← zeroOverwriteCredentialVersionValue oldVersionId (fun v => isNull (cv_purgedAt v));
          purgedAt ← newDate;
          _ ← updateVersions (fun v => (cv_id v =? oldVersionId) && isNull (cv_purgedAt v))
                (fun v => v <| cv_encryptedValue := None |> <| cv_keyVersion := None |>
                            <| cv_purgedAt := Some purgedAt |> <| cv_rotationLockedAt := None |>);
          mret (Retired updatedRotation (ready_items ready) (ready_checklistAcknowledged ready)
                  (ready_pendingCount ready))
      end
  end.

Inductive GetStagedValueResult :=
| StagedRotationNotFound
| StagedNotStaged (currentStatus : RotationStatus)
| StagedFound (value : string) (versionNumber : Z).

Definition getStagedValue (p : RotationParams) : M GetStagedValueResult :=
  rotation ← findRotationInScope p;
  match rotation with
  | None => mret StagedRotationNotFound
  | Some r =>
      if negb (rot_status r =? staged) then mret (StagedNotStaged (rot_status r))
      else
        version ← selectFirst db_versions (fun v =>
          (cv_id v =? rot_newVersionId r) && isNull (cv_abandonedAt v));
        match (v ← version; enc ← cv_encryptedValue v; Some (v, enc)) with
        | None => mret StagedRotationNotFound
        | Some (v, enc) =>
            plaintext ← withSecretText enc;
            blanked ← lift (plaintextWithoutTotpSeeds (cv_schemaVersion v) plaintext);
            value ← lift (unwrapRevealValue (cv_schemaVersion v) blanked);
            mret (StagedFound value (cv_versionNumber v))
        end
  end.

(** ** Resume and abandon *)

Inductive StaleFailure :=
| SfLockedConflict (currentVersion : option Z)
| SfRotationNotFound
| SfRotationNotStale (status : RotationStatus)
| SfNotAbandonableAfterPromotion
| SfConcurrentModification (currentVersion : option Z).

Definition acquireAndLoadStaleRotation (p : RotationParams) : M (StaleFailure + RotationRow) :=
  result ← acquireRotationScopedLockAndFind p;
  mret (match result with
        | RslLockedConflict v => inl (SfLockedConflict v)
        | RslNotFound => inl SfRotationNotFound
        | RslFound r => if negb (rot_status r =? stale_recovery)
                        then inl (SfRotationNotStale (rot_status r)) else inr r
        end).

Inductive ResumeRotationResult :=
| ResumeFailure (f : StaleFailure)
| Resumed (rotation : RotationRow) (checklistItems : list ChecklistItemRow).

Definition resumeRotation (p : RotationParams) : M ResumeRotationResult :=
  lockResult ← acquireAndLoadStaleRotation p;
  match lockResult with
  | inl f => mret (ResumeFailure f)
  | inr rotation =>
      transition ← casTransitionRotation p (rot_version rotation)
        (fun r => r <| rot_status := in_progress |>) (Some stale_recovery);
      match transition with
      | CasConcurrentModification v => mret (ResumeFailure (SfConcurrentModification v))
      | CasOk updated =>
          checklistItems ← loadChecklistItems (rp_rotationId p);
          mret (Resumed updated checklistItems)
      end
  end.

Definition acquireAndLoadAbandonableRotation (p : RotationParams) : M (StaleFailure + RotationRow) :=
  result ← acquireRotationScopedLockAndFind p;
  mret (match result with
        | RslLockedConflict v => inl (SfLockedConflict v)
        | RslNotFound => inl SfRotationNotFound
        | RslFound r =>
            if rot_status r =? promoted then inl SfNotAbandonableAfterPromotion
            else if negb (rot_status r =? stale_recovery) && negb (rot_status r =? staged)
            then inl (SfRotationNotStale (rot_status r)) else inr r
        end).

Inductive AbandonRotationResult :=
| AbandonFailure (f : StaleFailure)
| Abandoned (rotation : RotationRow) (checklistItems : list ChecklistItemRow).

Definition abandonRotation (p : RotationParams) : M AbandonRotationResult :=
  lockResult ← acquireAndLoadAbandonableRotation p;
  match lockResult with
  | inl f => mret (AbandonFailure f)
  | inr rotation =>
      transition ← casTransitionRotation p (rot_version rotation)
        (fun r => r <| rot_status := abandoned |>) (Some (rot_status rotation));
      match transition with
      | CasConcurrentModification v => mret (AbandonFailure (SfConcurrentModification v))
      | CasOk updated =>
          abandonedAt ← newDate;
          _ ← updateVersions (fun v => cv_id v =? rot_newVersionId updated)
                (fun v => v <| cv_abandonedAt := Some abandonedAt |>);
          _ ← updateVersions (fun v => cv_id v =? rot_previousVersionId updated)
                (fun v => v <| cv_rotationLockedAt := None |>);
          checklistItems ← loadChecklistItems (rp_rotationId p);
          mret (Abandoned updated checklistItems)
      end
  end.

(** ** Break-glass *)

Inductive BreakGlassResult :=
| BgLockContention
| BgCredentialNotFound
| BgPromotedRotationConflict (rotationId : Uuid)
| BgTotpFieldUnsupported
| BgOk (rotation : RotationRow) (supersededRotationId : option Uuid)
    (overlapVersionNumber : Z) (overlapExpiresAt : Date)
    (dependentSystems : list (Uuid * string)) (deduped : bool).

Definition activeDependentSystems (orgId credentialId : Uuid) : M (list (Uuid * string)) :=
  rows ← selectWhere db_dependencies (fun d =>
    (dep_orgId d =? orgId) && (dep_credentialId d =? credentialId) && isNull (dep_archivedAt d));
  mret (map (fun d => (dep_id d, dep_systemName d)) rows).

Definition supersedeActiveRotation (credentialId : Uuid) : M (option Uuid) :=
  found ← selectFirstNoWait db_rotations rot_id (fun r =>
    (rot_credentialId r =? credentialId)
    && (rot_status r ∈? [in_progress; staged; stale_recovery; promoted]));
  match found with
  | None => mret None
  | Some activeRow =>
      if rot_status activeRow =? promoted then throw (PromotedRotationConflictError (rot_id activeRow))
      else
        _ ← newDate;
        _ ← updateRotations (fun r => rot_id r =? rot_id activeRow)
              (fun r => r <| rot_status := abandoned |> <| rot_version := (rot_version activeRow + 1)%Z |>);
        abandonedAt ← newDate;
        _ ← updateVersions (fun v => cv_id v =? rot_newVersionId activeRow)
              (fun v => v <| cv_abandonedAt := Some abandonedAt |>);
        _ ← updateVersions (fun v => cv_id v =? rot_previousVersionId activeRow)
              (fun v => v <| cv_rotationLockedAt := None |>);
        mret (Some (rot_id activeRow))
  end.

Definition findRecentDuplicateBreakGlass (credentialId : Uuid) (windowMs : Z) : M (option RotationRow) :=
  now ← newDate;
  selectFirstOrdered db_rotations (fun r =>
      (rot_credentialId r =? credentialId) && (rot_status r =? break_glass_complete)
      && (now - windowMs <? rot_initiatedAt r))
    (fun a b => rot_initiatedAt b <=? rot_initiatedAt a).

Definition buildDedupedBreakGlassResult (orgId credentialId : Uuid) (duplicate : RotationRow)
    : M BreakGlassResult :=
  previousVersion ← selectFirst db_versions (fun v => cv_id v =? rot_previousVersionId duplicate);
  dependentSystems ← activeDependentSystems orgId credentialId;
  expires ← (match previousVersion ≫= cv_breakGlassOverlapExpiresAt with
             | Some d => mret d
             | None => newDate
             end);
  mret (BgOk duplicate None (match previousVersion with Some v => cv_versionNumber v | None => 0%Z end)
          expires dependentSystems true).

Definition createBreakGlassVersion (orgId credentialId userId : Uuid) (newValue : string)
    : M (VersionRow * VersionRow) :=
  previousVersion ← lockCurrentNonPurgedVersion credentialId
    ("breakGlassRotation: credential " +:+ uuidText credentialId
     +:+ " has no non-purged/non-abandoned version to supersede");
  nextVersionNumber ← nextCredentialVersionNumber credentialId;
  keyVersion ← currentKeyVersion;
  encryptedValue ← encryptValue newValue;
  promotedAt ← newDate;
  newVersion ← insertVersion
    {| nv_orgId := orgId; nv_credentialId := credentialId; nv_encryptedValue := encryptedValue;
       nv_keyVersion := keyVersion; nv_versionNumber := nextVersionNumber; nv_createdBy := userId;
       nv_schemaVersion := None; nv_fieldMeta := None; nv_promotedAt := Some promotedAt |};
  mret (previousVersion, newVersion).

Definition currentVersionHasTotpField (credentialId : Uuid) : M bool :=
  meta ← selectCurrentVersionMeta credentialId;
  mret (existsb isTotpMeta (fieldMetaForResponse
    (match meta with Some v => cv_schemaVersion v | None => 1%Z end) (meta ≫= cv_fieldMeta))).

Record BreakGlassInput := MkBreakGlassInput {
  bg_orgId : Uuid;
  bg_projectId : Uuid;
  bg_credentialId : Uuid;
  bg_userId : Uuid;
  bg_newValue : string;
  bg_reason : string;
  bg_overlapMinutes : Z;
  bg_idempotencyWindowSeconds : Z;
}.

(** The writes once an active rotation, if any, was superseded. *)
Definition writeBreakGlass (input : BreakGlassInput) (supersededRotationId : option Uuid)
    : M BreakGlassResult :=
  '(previousVersion, newVersion) ← createBreakGlassVersion (bg_orgId input) (bg_credentialId input)
                                     (bg_userId input) (bg_newValue input);
  now ← newDate;
  let breakGlassOverlapExpiresAt := (now + bg_overlapMinutes input * 60000)%Z in
  lockedAt ← newDate;
  _ ← updateVersions (fun v => cv_id v =? cv_id previousVersion)
        (fun v => v <| cv_rotationLockedAt := Some lockedAt |>
                    <| cv_breakGlassOverlapExpiresAt := Some breakGlassOverlapExpiresAt |>);
  dependentSystems ← activeDependentSystems (bg_orgId input) (bg_credentialId input);
  rotation ← insertRotation (bg_orgId input) (bg_projectId input) (bg_credentialId input)
    (cv_id newVersion) (cv_id previousVersion) break_glass_complete (bg_userId input)
    (Some (bg_reason input)) None;
  mret (BgOk rotation supersededRotationId (cv_versionNumber previousVersion)
          breakGlassOverlapExpiresAt dependentSystems false).

Definition breakGlassRotation (input : BreakGlassInput) : M BreakGlassResult :=
  locked ← tryAcquireCredentialScopedLock (bg_orgId input) (bg_credentialId input);
  if negb locked then mret BgLockContention
  else
    credential ← lockCredentialInProject (bg_credentialId input) (bg_projectId input);
    match credential with
    | None => mret BgCredentialNotFound
    | Some _ =>
        hasTotp ← currentVersionHasTotpField (bg_credentialId input);
        if hasTotp : bool then mret BgTotpFieldUnsupported
        else
          duplicate ← findRecentDuplicateBreakGlass (bg_credentialId input)
                        (bg_idempotencyWindowSeconds input * 1000);
          match duplicate with
          | Some d => buildDedupedBreakGlassResult (bg_orgId input) (bg_credentialId input) d
          | None =>
              superseded ← catch (id ← supersedeActiveRotation (bg_credentialId input); mret (inr id))
                (fun error =>
                   if isLockNotAvailable error then mret (inl BgLockContention)
                   else match error with
                        | PromotedRotationConflictError id => mret (inl (BgPromotedRotationConflict id))
                        | _ => throw error
                        end);
              match superseded with
              | inl result => mret result
              | inr supersededRotationId => writeBreakGlass input supersededRotationId
              end
          end
    end.

End transitions.
Arguments CasOk {A} a.
Arguments CasConcurrentModification {A} currentVersion.
