(* ===== verification/Workers.v ===== *)
(** * Workers: workers/rotation-recover.ts, rotation-stale-staged-alert.ts,
      rotation-notify-shared.ts, rotation-break-glass-expire.ts,
      prune-credential-versions.ts

    The scheduled jobs that move rotations and versions without a human: stale
    detection, the stale-staged alert, the end of a break-glass overlap and the
    purge of old versions.  Each function is the work on one organisation; the
    loops over organisations, the queue of jobs (pg-boss) and the operational
    log are left out.  [runOrgScopedJob] is a transaction, and a failure on one
    candidate is caught so that the next one is still processed. *)

From S2P Require Import Prelude Js Crypto FieldSet Store Tx QuotaGate AuditLog Notifications Credentials Rotation Transitions.
From Stdlib Require Import Ascii String.
From stdpp Require Import strings.

Local Open Scope string_scope.
Local Open Scope list_scope.
Local Open Scope pv_scope.

Section workers.
Context `{Platform, NodeCrypto, Unicode, OtpAuth, Locale, Env}.

(** ** rotation-notify-shared.ts *)

Definition withRotationScopedLock {T} (orgId candidateId : Uuid) (fn : M (option T)) : M (option T) :=
  transaction
    (locked ← tryAcquireRotationScopedLock orgId candidateId;
     if negb locked then mret None else fn).

Record RotationAlertCandidate := MkRotationAlertCandidate {
  rac_id : Uuid;
  rac_credentialId : Uuid;
  rac_initiatedBy : option Uuid;
  rac_notifyUserId : option Uuid;
}.

Definition coalesce {A} (a b : option A) : option A := match a with Some _ => a | None => b end.

Definition findRotationCandidates (orgId : Uuid) (status : RotationStatus) (threshold : Date)
    (extraCondition : RotationRow -> bool) : M (list RotationAlertCandidate) :=
  rows ← selectWhere db_rotations (fun r =>
    (rot_orgId r =? orgId) && (rot_status r =? status) && (rot_initiatedAt r <? threshold)
    && extraCondition r);
  mret (map (fun r => MkRotationAlertCandidate (rot_id r) (rot_credentialId r) (rot_initiatedBy r)
                        (coalesce (rot_ownerUserId r) (rot_initiatedBy r))) rows).

Definition dispatchRotationAlertNotifications (orgId : Uuid) (candidate : RotationAlertCandidate)
    (templateId : string) (severity : NotificationSeverity) (payload : Json)
    : M (list NotificationQueueJob) :=
  directJobs ← match rac_notifyUserId candidate with
               | Some userId => dispatchDirectUserNotification orgId userId
                                  (MkNotificationTemplate templateId payload (Some severity))
               | None => mret []
               end;
  routedJobs ← enqueueSecurityAlertNotification orgId templateId payload (Some severity);
  mret (directJobs ++ routedJobs).

(** ** rotation-recover.ts *)

Definition RESETTABLE_STATUSES : list ItemStatus := [unconfirmed; failed; max_retries_exceeded].

Definition findStaleRotations (orgId : Uuid) : M (list RotationAlertCandidate) :=
  now ← newDate;
  findRotationCandidates orgId in_progress (now - STALE_ROTATION_THRESHOLD_MINUTES * 60000)%Z (fun _ => true).

Definition alertPayload (candidate : RotationAlertCandidate) : Json :=
  JObj [("rotationId", JUuid (rac_id candidate)); ("credentialId", JUuid (rac_credentialId candidate))].

Definition recoverOneRotation (orgId : Uuid) (candidate : RotationAlertCandidate)
    : M (option (list NotificationQueueJob)) :=
  withRotationScopedLock orgId (rac_id candidate)
    (_ ← newDate;
     updated ← updateRotations (fun r => (rot_id r =? rac_id candidate) && (rot_status r =? in_progress))
       (fun r => r <| rot_status := stale_recovery |> <| rot_version := (rot_version r + 1)%Z |>);
     match updated with
     | [] => mret None
     | _ :: _ =>
         _ ← newDate;
         resetItems ← updateItems
           (fun i => (item_rotationId i =? rac_id candidate) && (item_status i ∈? RESETTABLE_STATUSES))
           (fun i => i <| item_status := unconfirmed |>);
         _ ← writeSystemAuditRow orgId "rotation.stale_detected" None
               [("credentialId", JUuid (rac_credentialId candidate));
                ("initiatedBy", JOptUuid (rac_initiatedBy candidate));
                ("thresholdMinutes", JInt STALE_ROTATION_THRESHOLD_MINUTES);
                ("pendingItemsReset", JInt (Z.of_nat (length resetItems)))];
         jobs ← dispatchRotationAlertNotifications orgId candidate "rotation.stale" warning
                  (alertPayload candidate);
         mret (Some jobs)
     end).

(** One candidate after another, each in a transaction of its own; a failure
    yields no jobs. *)
Definition forEachIsolated {A} (candidates : list A)
    (one : A -> M (option (list NotificationQueueJob))) : M (list NotificationQueueJob) :=
  results ← forEachCollect candidates (fun candidate =>
    jobs ← catch (one candidate) (fun _ => mret None);
    mret (default [] jobs));
  mret (concat results).

Definition recoverStaleRotationsForOrg (orgId : Uuid) : M (list NotificationQueueJob) :=
  candidates ← transaction (findStaleRotations orgId);
  forEachIsolated candidates (recoverOneRotation orgId).

(** ** rotation-stale-staged-alert.ts *)

Definition findStaleStagedRotations (orgId : Uuid) : M (list RotationAlertCandidate) :=
  now ← newDate;
  findRotationCandidates orgId staged
    (now - STALE_STAGED_ROTATION_THRESHOLD_DAYS * 24 * 60 * 60 * 1000)%Z
    (fun r => isNull (rot_staleStagedAlertedAt r)).

Definition alertOneRotation (orgId : Uuid) (candidate : RotationAlertCandidate)
    : M (option (list NotificationQueueJob)) :=
  withRotationScopedLock orgId (rac_id candidate)
    (alertedAt ← newDate;
     _ ← newDate;
     updated ← updateRotations
       (fun r => (rot_id r =? rac_id candidate) && (rot_status r =? staged)
                 && isNull (rot_staleStagedAlertedAt r))
       (fun r => r <| rot_staleStagedAlertedAt := Some alertedAt |>);
     match updated with
     | [] => mret None
     | _ :: _ =>
         _ ← writeSystemAuditRow orgId "rotation.stale_staged_detected" None
               [("rotationId", JUuid (rac_id candidate));
                ("credentialId", JUuid (rac_credentialId candidate));
                ("initiatedBy", JOptUuid (rac_initiatedBy candidate));
                ("thresholdDays", JInt STALE_STAGED_ROTATION_THRESHOLD_DAYS)];
         jobs ← dispatchRotationAlertNotifications orgId candidate "rotation.stale_staged" warning
                  (alertPayload candidate);
         mret (Some jobs)
     end).

Definition alertStaleStagedForOrg (orgId : Uuid) : M (list NotificationQueueJob) :=
  candidates ← transaction (findStaleStagedRotations orgId);
  forEachIsolated candidates (alertOneRotation orgId).

(** ** rotation-break-glass-expire.ts *)

Definition overlapExpired (now : Date) (v : VersionRow) : bool :=
  match cv_breakGlassOverlapExpiresAt v with Some t => t <=? now | None => false end.

Definition findExpiredOverlapVersions (orgId : Uuid) : M (list VersionRow) :=
  now ← newDate;
  selectWhere db_versions (fun v => (cv_orgId v =? orgId) && overlapExpired now v).

Definition expireOneVersion (orgId versionId credentialId : Uuid) : M unit :=
  transaction
    (locked ← tryAcquireCredentialScopedLock orgId credentialId;
     if negb locked then mret tt
     else
       now ← newDate;
       updated ← updateVersions (fun v => (cv_id v =? versionId) && overlapExpired now v)
         (fun v => v <| cv_rotationLockedAt := None |> <| cv_breakGlassOverlapExpiresAt := None |>);
       match updated with
       | [] => mret tt
       | _ :: _ =>
           _ ← writeSystemAuditRow orgId "rotation.break_glass_overlap_expired" None
                 [("credentialVersionId", JUuid versionId); ("credentialId", JUuid credentialId)];
           mret tt
       end).

Definition expireOverlapForOrg (orgId : Uuid) : M unit :=
  candidates ← transaction (findExpiredOverlapVersions orgId);
  forEachSequential candidates (fun v =>
    catch (expireOneVersion orgId (cv_id v) (cv_credentialId v)) (fun _ => mret tt)).

(** ** prune-credential-versions.ts *)

Record PurgeCandidate := MkPurgeCandidate {
  pc_id : Uuid;
  pc_credentialId : Uuid;
  pc_versionNumber : Z;
}.

Definition numberDesc (a b : VersionRow) : bool := cv_versionNumber b <=? cv_versionNumber a.

(** The pure part: what the rows of a credential leave to purge. *)
Definition purgeCandidates (versions : list VersionRow) (credentialId : Uuid) (retentionCount : Z)
    : list PurgeCandidate :=
  let currentVersionId := cv_id <$> List.find (fun v => isNull (cv_abandonedAt v)) versions in
  let keepCount := Z.max retentionCount 1 in
  map (fun v => MkPurgeCandidate (cv_id v) credentialId (cv_versionNumber v))
    (List.filter (fun v => negb (Some (cv_id v) =? currentVersionId))
       (drop (Z.to_nat keepCount) versions)).

Definition purgeCandidatesForCredential (credentialId : Uuid) (retentionCount : Z) : M (list PurgeCandidate) :=
  versions ← selectOrdered db_versions (fun v =>
      (cv_credentialId v =? credentialId) && isNull (cv_purgedAt v) && isNull (cv_rotationLockedAt v))
    numberDesc;
  mret (purgeCandidates versions credentialId retentionCount).

Definition purgeVersion (orgId : Uuid) (candidate : PurgeCandidate) : M bool :=
  lockedCandidate ← selectFirst db_versions (fun v =>
    (cv_id v =? pc_id candidate) && isNull (cv_rotationLockedAt v) && isNull (cv_purgedAt v));
  match lockedCandidate with
  | None => mret false
  | Some _ =>
      _ ← zeroOverwriteCredentialVersionValue (pc_id candidate) (fun _ => true);
      purgedAt ← newDate;
      _ ← updateVersions (fun v => cv_id v =? pc_id candidate)
            (fun v => v <| cv_encryptedValue := None |> <| cv_keyVersion := None |>
                        <| cv_purgedAt := Some purgedAt |>);
      let payload := JObj [("credentialId", JUuid (pc_credentialId candidate));
                           ("versionNumber", JInt (pc_versionNumber candidate))] in
      let resourceId := Some (pc_credentialId candidate) in
      _ ← assertOrgMayWriteAuditGates orgId "credential.version_purged"
            (estimateAuditEntrySizeBytes payload resourceId (Some "credential") None);
      _ ← appendAuditRow orgId None "system" "credential.version_purged" resourceId
            (Some "credential") payload resourceId noUnsigned;
      breakGlassRotation ← selectFirst db_rotations (fun r =>
        (rot_previousVersionId r =? pc_id candidate) && (rot_status r =? break_glass_complete));
      match breakGlassRotation with
      | None => mret true
      | Some r =>
          _ ← writeSystemAuditRow orgId "rotation.old_retired" None
                [("rotationId", JUuid (rot_id r)); ("credentialVersionId", JUuid (pc_id candidate));
                 ("credentialId", JUuid (pc_credentialId candidate)); ("breakGlass", JBool true)];
          mret true
      end
  end.

Record PruneOrgResult := MkPruneOrgResult {
  po_credentialsScanned : nat;
  po_versionsPurged : nat;
  po_versionsWouldPurge : nat;
}.

(** One credential, in its transaction: the versions purged and those a dry run
    would purge. *)
Definition pruneCredential (orgId : Uuid) (dryRun : bool) (credential : CredentialRow) : M (nat * nat) :=
  candidates ← purgeCandidatesForCredential (cred_id credential) (cred_retentionCount credential);
  if length candidates =? 0%nat then mret (0, 0)%nat
  else if dryRun then mret (0, length candidates)%nat
  else
    purged ← forEachCollect candidates (purgeVersion orgId);
    mret (length (List.filter (fun b => b) purged), 0)%nat.

Definition pruneOrgCredentialVersions (orgId : Uuid) (dryRun : bool) : M PruneOrgResult :=
  orgCredentials ← transaction (selectWhere db_credentials (fun c => cred_orgId c =? orgId));
  counts ← forEachCollect orgCredentials (fun c => transaction (pruneCredential orgId dryRun c));
  mret {| po_credentialsScanned := length orgCredentials;
          po_versionsPurged := sum_list (map fst counts);
          po_versionsWouldPurge := sum_list (map snd counts) |}.

Definition pruneOrgCredentialVersionsIsolated (orgId : Uuid) (dryRun : bool) : M (option PruneOrgResult) :=
  catch (r ← pruneOrgCredentialVersions orgId dryRun; mret (Some r)) (fun _ => mret None).

End workers.
