(* ===== verification/Demo.v ===== *)
(** * A small database, for the witnesses

    Organisation 1 with project 2, the active owner 7, a routing-free
    notification set-up and one dependency of the credential that the first
    request creates.  The worlds below are computed by the service functions
    themselves. *)

From S2P Require Import Prelude Js Crypto FieldSet Store Tx QuotaGate AuditLog Notifications Credentials Rotation Transitions Workers.
From Stdlib Require Import Ascii String.
From stdpp Require Import strings.

Local Open Scope string_scope.
Local Open Scope list_scope.
Local Open Scope pv_scope.

#[local] Existing Instances byteLocale toyPlatform toyCrypto toyEnv toyOtpAuth.

(** The identifier the first draw of [genRandomUuid] after [n] draws returns. *)
Definition drawn (n : nat) : Uuid := (1000 + N.of_nat n)%N.

Definition demoCredential : Uuid := drawn 1.

Definition demoDb : Db := emptyDb
  <| db_projects := [MkProjectRow 2 1 "Payments" "payments" None None [] None 0 0 None [] None None None None] |>
  <| db_memberships := [MkMembershipRow 1 7 owner active None None] |>
  <| db_vaultState := [MkVaultStateRow 1 1] |>
  <| db_dependencies := [MkDependencyRow 30 1 demoCredential "billing" None None] |>.

Definition demoBody : CreateCredentialBody :=
  {| ccb_name := "database"; ccb_description := None; ccb_tags := None; ccb_expiresAt := None;
     ccb_rotationSchedule := None; ccb_cacheable := None;
     ccb_body := MkCreateBodyish (Some "first secret") None None |}.

Definition demoInitiate (value : string) : InitiateInput :=
  MkInitiateInput 1 2 demoCredential 7 (MkInitiateRotationBody value None None None None).

(** The world after a computation. *)
Definition after {A} (m : M A) (w : World) : World := snd (transaction m w).

Definition created : World :=
  Eval vm_compute in after (createCredentialWithFirstVersion 1 2 7 demoBody) (worldOf demoDb).
Definition staged1 : World := Eval vm_compute in after (initiateRotation (demoInitiate "second secret")) created.

Definition demoRotation : RotationRow :=
  Eval vm_compute in default (MkRotationRow 0 0 0 0 0 0 staged 0 None None 0 None None None None None None 0 0)
    (head (db_rotations (w_db staged1))).
Definition demoItem : Uuid := Eval vm_compute in default 0%N (item_id <$> head (db_items (w_db staged1))).
Definition demoParams : RotationParams :=
  Eval vm_compute in MkRotationParams 1 2 demoCredential (rot_id demoRotation).

Definition ackAll : AckBody := Eval vm_compute in MkAckBody None (Some true).
Definition promoted1 : World := Eval vm_compute in after (promoteRotation demoParams ackAll) staged1.
Definition retired1 : World := Eval vm_compute in after (retireRotation demoParams ackAll) promoted1.

(** The legacy statuses, as rows written by earlier releases have them. *)
Definition withStatus (s : RotationStatus) (w : World) : World :=
  w <| w_db ::= fun db => db <| db_rotations ::= map (fun r => r <| rot_status := s |>) |> |>.

Definition confirmed1 : World := Eval vm_compute in after (confirmChecklistItem demoParams demoItem 7 None) staged1.
Definition inProgress1 : World := Eval vm_compute in withStatus in_progress confirmed1.
Definition stale1 : World := Eval vm_compute in withStatus stale_recovery staged1.
