(* ===== verification/Lifecycle.v ===== *)
(** * The rotation life cycle: an abstract specification

    What the rotation service and its workers promise, as a transition system
    on the two tables that matter ([LState]: the rotations and the credential
    versions).  [Step] has one rule per kind of transition, without locks,
    optimistic versions, acknowledgements, clocks or error results; [Inv] is
    the invariant every rule preserves, and its consequences are what the
    stories of the repository ask for: one active rotation per credential, the
    superseded version is retained and locked until the rotation ends, a
    version in its break-glass overlap is not purged, and a credential never
    loses its last usable version.  The file Refinement shows that the service
    functions only make such steps. *)

From S2P Require Import Prelude Js Crypto FieldSet Store.
From Stdlib Require Import Relations.

Local Open Scope list_scope.
Local Open Scope pv_scope.

Record LState := MkLState {
  ls_rotations : list RotationRow;
  ls_versions : list VersionRow;
}.

Definition lstate (db : Db) : LState := MkLState (db_rotations db) (db_versions db).

(** ** Predicates on rows *)

(** Neither purged nor abandoned: the value can still be used. *)
Definition usable (v : VersionRow) : Prop := cv_purgedAt v = None /\ cv_abandonedAt v = None.
Definition isUsable (v : VersionRow) : bool := isNull (cv_purgedAt v) && isNull (cv_abandonedAt v).

(** Abandon and break-glass can still withdraw the new version. *)
Definition abandonable (r : RotationRow) : bool := rot_status r ∈? [in_progress; staged; stale_recovery].

(** The transitions of [rotations.status]. *)
Inductive edge : RotationStatus -> RotationStatus -> Prop :=
| edge_promote : edge staged promoted
| edge_retire : edge promoted retired
| edge_complete : edge in_progress completed
| edge_stale : edge in_progress stale_recovery
| edge_resume : edge stale_recovery in_progress
| edge_abandon s : s ∈ [in_progress; staged; stale_recovery] -> edge s abandoned.

Definition terminal (s : RotationStatus) : bool := s ∈? [retired; completed; abandoned; break_glass_complete].

(** Updates that keep what identifies a row. *)
Definition keepsRotation (f : RotationRow -> RotationRow) : Prop := forall r,
  rot_id (f r) = rot_id r /\ rot_credentialId (f r) = rot_credentialId r /\
  rot_newVersionId (f r) = rot_newVersionId r /\ rot_previousVersionId (f r) = rot_previousVersionId r.
Definition keepsVersion (f : VersionRow -> VersionRow) : Prop := forall v,
  cv_id (f v) = cv_id v /\ cv_credentialId (f v) = cv_credentialId v /\
  cv_versionNumber (f v) = cv_versionNumber v.

Definition setRotation (id : Uuid) (f : RotationRow -> RotationRow) : list RotationRow -> list RotationRow :=
  map_where (fun r => rot_id r =? id) f.
Definition setVersion (id : Uuid) (f : VersionRow -> VersionRow) : list VersionRow -> list VersionRow :=
  map_where (fun v => cv_id v =? id) f.

Definition purge (d : Date) (v : VersionRow) : VersionRow :=
  v <| cv_encryptedValue := None |> <| cv_keyVersion := None |> <| cv_purgedAt := Some d |>.

(** A version number above every number of the credential, on a fresh row. *)
Definition freshVersion (vs : list VersionRow) (v : VersionRow) : Prop :=
  usable v /\ cv_rotationLockedAt v = None /\ cv_breakGlassOverlapExpiresAt v = None /\
  cv_id v ∉ map cv_id vs /\
  forall x, x ∈ vs -> cv_credentialId x = cv_credentialId v -> (cv_versionNumber x < cv_versionNumber v)%Z.

(** The usable version of the credential with the highest number. *)
Definition highestUsable (vs : list VersionRow) (c : Uuid) (v : VersionRow) : Prop :=
  v ∈ vs /\ cv_credentialId v = c /\ usable v /\
  forall x, x ∈ vs -> cv_credentialId x = c -> usable x -> (cv_versionNumber x <= cv_versionNumber v)%Z.

Definition noActive (rs : list RotationRow) (c : Uuid) : Prop :=
  forall r, r ∈ rs -> rot_credentialId r = c -> isActive r = false.

(** ** Transitions *)

Inductive Step : LState -> LState -> Prop :=
(** checklist work, stale detection, resume and the stale-staged alert *)
| Step_touch rs vs r f :
    r ∈ rs -> keepsRotation f ->
    rot_status (f r) = rot_status r \/
      (edge (rot_status r) (rot_status (f r)) /\ abandonable (f r) = true) ->
    (rot_version r <= rot_version (f r))%Z ->
    Step (MkLState rs vs) (MkLState (setRotation (rot_id r) f rs) vs)
| Step_promote rs vs r f d :
    r ∈ rs -> rot_status r = staged -> keepsRotation f -> rot_status (f r) = promoted ->
    (rot_version r <= rot_version (f r))%Z ->
    Step (MkLState rs vs)
      (MkLState (setRotation (rot_id r) f rs)
         (setVersion (rot_newVersionId r) (fun v => v <| cv_promotedAt := Some d |>) vs))
| Step_retire rs vs r f d :
    r ∈ rs -> rot_status r = promoted -> keepsRotation f -> rot_status (f r) = retired ->
    (rot_version r <= rot_version (f r))%Z ->
    Step (MkLState rs vs)
      (MkLState (setRotation (rot_id r) f rs)
         (setVersion (rot_previousVersionId r)
            (fun v => (purge d v) <| cv_rotationLockedAt := None |>) vs))
| Step_complete rs vs r f :
    r ∈ rs -> rot_status r = in_progress -> keepsRotation f -> rot_status (f r) = completed ->
    (rot_version r <= rot_version (f r))%Z ->
    Step (MkLState rs vs)
      (MkLState (setRotation (rot_id r) f rs)
         (setVersion (rot_previousVersionId r) (fun v => v <| cv_rotationLockedAt := None |>) vs))
| Step_abandon rs vs r f d :
    r ∈ rs -> abandonable r = true -> keepsRotation f -> rot_status (f r) = abandoned ->
    (rot_version r <= rot_version (f r))%Z ->
    Step (MkLState rs vs)
      (MkLState (setRotation (rot_id r) f rs)
         (setVersion (rot_previousVersionId r) (fun v => v <| cv_rotationLockedAt := None |>)
            (setVersion (rot_newVersionId r) (fun v => v <| cv_abandonedAt := Some d |>) vs)))
| Step_newVersion rs vs v :
    freshVersion vs v ->
    Step (MkLState rs vs) (MkLState rs (vs ++ [v]))
| Step_initiate rs vs r prev new d :
    highestUsable vs (rot_credentialId r) prev -> noActive rs (rot_credentialId r) ->
    freshVersion vs new -> cv_credentialId new = rot_credentialId r -> cv_promotedAt new = None ->
    rot_id r ∉ map rot_id rs -> rot_status r = staged -> rot_newVersionId r = cv_id new ->
    rot_previousVersionId r = cv_id prev ->
    Step (MkLState rs vs)
      (MkLState (rs ++ [r])
         (setVersion (cv_id prev) (fun v => v <| cv_rotationLockedAt := Some d |>) (vs ++ [new])))
| Step_breakGlass rs vs r prev new d e :
    highestUsable vs (rot_credentialId r) prev -> noActive rs (rot_credentialId r) ->
    freshVersion vs new -> cv_credentialId new = rot_credentialId r -> cv_promotedAt new <> None ->
    rot_id r ∉ map rot_id rs -> rot_status r = break_glass_complete ->
    rot_newVersionId r = cv_id new -> rot_previousVersionId r = cv_id prev ->
    Step (MkLState rs vs)
      (MkLState (rs ++ [r])
         (setVersion (cv_id prev)
            (fun v => v <| cv_rotationLockedAt := Some d |>
                        <| cv_breakGlassOverlapExpiresAt := Some e |>) (vs ++ [new])))
| Step_overlapExpire rs vs v :
    v ∈ vs -> cv_breakGlassOverlapExpiresAt v <> None ->
    Step (MkLState rs vs)
      (MkLState rs
         (setVersion (cv_id v) (fun v => v <| cv_rotationLockedAt := None |>
                                           <| cv_breakGlassOverlapExpiresAt := None |>) vs))
| Step_purge rs vs v d :
    v ∈ vs -> cv_purgedAt v = None -> cv_rotationLockedAt v = None ->
    (usable v -> exists h, h ∈ vs /\ usable h /\ cv_credentialId h = cv_credentialId v /\
       (cv_versionNumber v < cv_versionNumber h)%Z) ->
    Step (MkLState rs vs) (MkLState rs (setVersion (cv_id v) (purge d) vs)).

Definition Steps : LState -> LState -> Prop := clos_refl_trans LState Step.

(** ** The invariant *)

Definition withdrawable (rs : list RotationRow) (v : VersionRow) : Prop :=
  exists r, r ∈ rs /\ abandonable r = true /\ rot_newVersionId r = cv_id v.

(** A usable version no abandon can withdraw. *)
Definition safe (L : LState) (v : VersionRow) : Prop :=
  v ∈ ls_versions L /\ usable v /\ ~ withdrawable (ls_rotations L) v.

(** The two versions of an active rotation. *)
Record Linked (vs : list VersionRow) (r : RotationRow) (p n : VersionRow) : Prop := {
  lk_prev : p ∈ vs;
  lk_new : n ∈ vs;
  lk_prev_id : cv_id p = rot_previousVersionId r;
  lk_new_id : cv_id n = rot_newVersionId r;
  lk_prev_cred : cv_credentialId p = rot_credentialId r;
  lk_new_cred : cv_credentialId n = rot_credentialId r;
  lk_order : (cv_versionNumber p < cv_versionNumber n)%Z;
  lk_locked : cv_rotationLockedAt p <> None;
  lk_prev_usable : usable p;
  lk_prev_overlap : cv_breakGlassOverlapExpiresAt p = None;
  lk_new_kept : cv_abandonedAt n = None;
  lk_between : forall v, v ∈ vs -> cv_credentialId v = rot_credentialId r -> usable v ->
    ~ (cv_versionNumber p < cv_versionNumber v < cv_versionNumber n)%Z;
  lk_purged : cv_purgedAt n <> None -> exists v, v ∈ vs /\ cv_credentialId v = rot_credentialId r /\
    usable v /\ (cv_versionNumber n < cv_versionNumber v)%Z;
  lk_staged : rot_status r = staged -> cv_promotedAt n = None;
  lk_promoted : rot_status r = promoted -> cv_promotedAt n <> None;
}.

Record Inv (L : LState) : Prop := {
  inv_rotation_ids : NoDup (map rot_id (ls_rotations L));
  inv_version_ids : NoDup (map cv_id (ls_versions L));
  inv_numbers : forall v w, v ∈ ls_versions L -> w ∈ ls_versions L ->
    cv_credentialId v = cv_credentialId w -> cv_versionNumber v = cv_versionNumber w -> v = w;
  inv_one_active : forall r s, r ∈ ls_rotations L -> s ∈ ls_rotations L ->
    isActive r = true -> isActive s = true -> rot_credentialId r = rot_credentialId s -> r = s;
  inv_linked : forall r, r ∈ ls_rotations L -> isActive r = true ->
    exists p n, Linked (ls_versions L) r p n;
  inv_overlap : forall v, v ∈ ls_versions L -> cv_breakGlassOverlapExpiresAt v <> None ->
    cv_rotationLockedAt v <> None /\ cv_purgedAt v = None /\
    exists s, safe L s /\ cv_credentialId s = cv_credentialId v /\
      (cv_versionNumber v < cv_versionNumber s)%Z;
  inv_kept : forall v, v ∈ ls_versions L ->
    exists s, safe L s /\ cv_credentialId s = cv_credentialId v;
}.

(** ** Lemmas on rows *)

Lemma isUsable_spec v : isUsable v = true <-> usable v.
Proof. unfold isUsable, usable. rewrite andb_true_iff, !isNull_true. done. Qed.

Lemma abandonable_active r : abandonable r = true -> isActive r = true.
Proof.
  unfold abandonable, isActive, isActiveStatus, ACTIVE_ROTATION_STATUSES.
  rewrite !bool_decide_eq_true, !elem_of_cons, !elem_of_nil. tauto.
Qed.

(** The pointwise function of an update by identifier. *)
Definition onId {A} (key : A -> Uuid) (i : Uuid) (f : A -> A) (x : A) : A :=
  if key x =? i then f x else x.

Lemma setVersion_map i f vs : setVersion i f vs = map (onId cv_id i f) vs.
Proof. done. Qed.
Lemma setRotation_map i f rs : setRotation i f rs = map (onId rot_id i f) rs.
Proof. done. Qed.

Lemma onId_hit {A} (key : A -> Uuid) f x : onId key (key x) f x = f x.
Proof. unfold onId. by rewrite bool_decide_eq_true_2. Qed.
Lemma onId_miss {A} (key : A -> Uuid) i f x : key x <> i -> onId key i f x = x.
Proof. intros E. unfold onId. by rewrite bool_decide_eq_false_2. Qed.

Lemma keepsVersion_onId i f : keepsVersion f -> keepsVersion (onId cv_id i f).
Proof. intros Hf v. unfold onId. destruct (_ =? _); [apply Hf|done]. Qed.
Lemma keepsRotation_onId i f : keepsRotation f -> keepsRotation (onId rot_id i f).
Proof. intros Hf v. unfold onId. destruct (_ =? _); [apply Hf|done]. Qed.

Lemma keepsVersion_compose f g : keepsVersion f -> keepsVersion g -> keepsVersion (fun v => f (g v)).
Proof.
  intros Hf Hg v. destruct (Hf (g v)) as (-> & -> & ->). apply Hg.
Qed.

Lemma map_ids_version g vs : keepsVersion g -> map cv_id (map g vs) = map cv_id vs.
Proof. intros Hg. rewrite map_map. apply map_ext. intros v. apply Hg. Qed.
Lemma map_ids_rotation h rs : keepsRotation h -> map rot_id (map h rs) = map rot_id rs.
Proof. intros Hh. rewrite map_map. apply map_ext. intros v. apply Hh. Qed.

(** A rotation is either the updated one or unchanged. *)
Lemma elem_of_setRotation rs r f x :
  NoDup (map rot_id rs) -> r ∈ rs ->
  x ∈ setRotation (rot_id r) f rs <-> x = f r \/ (x ∈ rs /\ rot_id x <> rot_id r).
Proof.
  intros Hnd Hr. rewrite setRotation_map, elem_of_map. split.
  - intros (y & -> & Hy). unfold onId. case_bool_decide as E; [|by right].
    left. by rewrite (NoDup_key_inj _ _ _ _ Hnd Hy Hr E).
  - intros [->|[Hx Hn]]; [exists r; by rewrite onId_hit|exists x]. by rewrite onId_miss.
Qed.

(** ** What the invariant gives for linked versions *)

Section linked.
Context (rs : list RotationRow) (vs : list VersionRow) (HI : Inv (MkLState rs vs)).

Lemma Linked_unique r p n p' n' : Linked vs r p n -> Linked vs r p' n' -> p' = p /\ n' = n.
Proof using HI.
  intros Hl Hl'. pose proof (inv_version_ids _ HI) as Hnd. cbn in Hnd.
  split; apply (NoDup_key_inj cv_id vs); try done; try apply Hl; try apply Hl'.
  - by rewrite (lk_prev_id _ _ _ _ Hl), (lk_prev_id _ _ _ _ Hl').
  - by rewrite (lk_new_id _ _ _ _ Hl), (lk_new_id _ _ _ _ Hl').
Qed.

(** A version some abandon can withdraw is the new version of the active
    rotation of its own credential. *)
Lemma withdrawable_new v :
  v ∈ vs -> withdrawable rs v ->
  exists r p, r ∈ rs /\ abandonable r = true /\ Linked vs r p v /\ rot_credentialId r = cv_credentialId v.
Proof using HI.
  intros Hv (r & Hr & Ha & Hid).
  destruct (inv_linked _ HI r Hr (abandonable_active _ Ha)) as (p & n & Hl). cbn in Hl.
  assert (n = v) as ->.
  { apply (NoDup_key_inj cv_id vs); [apply (inv_version_ids _ HI)|apply Hl|done|].
    by rewrite (lk_new_id _ _ _ _ Hl). }
  exists r, p. by rewrite (lk_new_cred _ _ _ _ Hl).
Qed.

Lemma prev_not_withdrawable r p n : r ∈ rs -> isActive r = true -> Linked vs r p n -> ~ withdrawable rs p.
Proof using HI.
  intros Hr Ha Hl Hw. destruct (withdrawable_new p (lk_prev _ _ _ _ Hl) Hw) as (s & q & Hs & Has & Hls & Hc).
  assert (s = r) as ->.
  { apply (inv_one_active _ HI); try done; [by apply abandonable_active|].
    by rewrite Hc, (lk_prev_cred _ _ _ _ Hl). }
  destruct (Linked_unique _ _ _ _ _ Hl Hls) as [_ <-].
  pose proof (lk_order _ _ _ _ Hl). lia.
Qed.

Lemma prev_safe r p n : r ∈ rs -> isActive r = true -> Linked vs r p n -> safe (MkLState rs vs) p.
Proof using HI.
  intros Hr Ha Hl. split; [apply Hl|]. split; [apply Hl|]. by eapply prev_not_withdrawable.
Qed.

Lemma noActive_not_withdrawable v : v ∈ vs -> noActive rs (cv_credentialId v) -> ~ withdrawable rs v.
Proof using HI.
  intros Hv Hn Hw. destruct (withdrawable_new v Hv Hw) as (r & p & Hr & Ha & _ & Hc).
  apply abandonable_active in Ha. by rewrite (Hn r Hr Hc) in Ha.
Qed.
End linked.

(** ** Updates of the rows *)

(** The versions of an active rotation after an update of the version rows. *)
Lemma Linked_map g vs r r' p n :
  keepsVersion g ->
  rot_credentialId r' = rot_credentialId r -> rot_newVersionId r' = rot_newVersionId r ->
  rot_previousVersionId r' = rot_previousVersionId r ->
  (forall v, usable (g v) -> usable v) ->
  cv_rotationLockedAt (g p) <> None -> usable (g p) -> cv_breakGlassOverlapExpiresAt (g p) = None ->
  cv_abandonedAt (g n) = None ->
  (cv_purgedAt (g n) <> None -> exists v, v ∈ vs /\ cv_credentialId v = rot_credentialId r /\
     usable (g v) /\ (cv_versionNumber n < cv_versionNumber v)%Z) ->
  (rot_status r' = staged -> cv_promotedAt (g n) = None) ->
  (rot_status r' = promoted -> cv_promotedAt (g n) <> None) ->
  Linked vs r p n -> Linked (map g vs) r' (g p) (g n).
Proof.
  intros Hg Hc Hn Hp Hu Hlock Hup Hov Hab Hpu Hst Hpr [].
  destruct (Hg p) as (Ep1 & Ep2 & Ep3), (Hg n) as (En1 & En2 & En3).
  constructor; rewrite ?Hc, ?Hn, ?Hp, ?Ep1, ?Ep2, ?Ep3, ?En1, ?En2, ?En3; try done.
  - apply elem_of_map. by exists p.
  - apply elem_of_map. by exists n.
  - intros v (w & -> & Hw)%elem_of_map. destruct (Hg w) as (_ & -> & ->). auto.
  - intros (v & Hv & Hcv & Hus & Hlt)%Hpu. exists (g v). destruct (Hg v) as (_ & -> & ->).
    rewrite elem_of_map. eauto 10.
Qed.

(** An update that leaves the linked versions as they are, for a rotation whose
    status does not change. *)
Lemma Linked_map_frame g vs r p n :
  keepsVersion g -> (forall v, usable (g v) -> usable v) -> g p = p ->
  cv_abandonedAt (g n) = cv_abandonedAt n -> cv_promotedAt (g n) = cv_promotedAt n ->
  (cv_purgedAt (g n) <> None -> exists v, v ∈ vs /\ cv_credentialId v = rot_credentialId r /\
     usable (g v) /\ (cv_versionNumber n < cv_versionNumber v)%Z) ->
  Linked vs r p n -> Linked (map g vs) r (g p) (g n).
Proof.
  intros Hg Hu Ep Ea Epr Hpu Hl. eapply Linked_map; try done; try (rewrite Ep; apply Hl).
  - rewrite Ea. apply Hl.
  - rewrite Epr. apply Hl.
  - rewrite Epr. apply Hl.
Qed.

Lemma Linked_app vs r p n v : freshVersion vs v -> Linked vs r p n -> Linked (vs ++ [v]) r p n.
Proof.
  intros (_ & _ & _ & _ & Hmax) [].
  assert (Hin : forall x, x ∈ vs -> x ∈ vs ++ [v]) by (intros x; rewrite elem_of_app; auto).
  constructor; auto.
  - intros x [Hx|Hx%list_elem_of_singleton]%elem_of_app Hc Hu; [by apply lk_between0|].
    subst x. pose proof (Hmax n lk_new0 ltac:(congruence)). lia.
  - intros (x & Hx & Hc & Hu & Hlt)%lk_purged0. exists x. auto.
Qed.

(** The invariant after an update of the version rows. *)
Lemma Inv_map rs rs' vs g :
  keepsVersion g -> Inv (MkLState rs vs) ->
  NoDup (map rot_id rs') ->
  (forall r s, r ∈ rs' -> s ∈ rs' -> isActive r = true -> isActive s = true ->
     rot_credentialId r = rot_credentialId s -> r = s) ->
  (forall r, r ∈ rs' -> isActive r = true -> exists p n, Linked (map g vs) r p n) ->
  (forall v, v ∈ vs -> cv_breakGlassOverlapExpiresAt (g v) <> None ->
     cv_rotationLockedAt (g v) <> None /\ cv_purgedAt (g v) = None /\
     exists s, safe (MkLState rs vs) s /\ cv_credentialId s = cv_credentialId v /\
       (cv_versionNumber v < cv_versionNumber s)%Z) ->
  (forall s, safe (MkLState rs vs) s -> exists s', s' ∈ vs /\ safe (MkLState rs' (map g vs)) (g s') /\
     cv_credentialId s' = cv_credentialId s /\ (cv_versionNumber s <= cv_versionNumber s')%Z) ->
  Inv (MkLState rs' (map g vs)).
Proof.
  intros Hg HI Hnd Hone Hlink Hov Hsafe.
  assert (HsafeL : forall v s, safe (MkLState rs vs) s -> cv_credentialId s = cv_credentialId v ->
    exists s', safe (MkLState rs' (map g vs)) s' /\ cv_credentialId s' = cv_credentialId (g v) /\
      (cv_versionNumber s <= cv_versionNumber s')%Z).
  { intros v s Hs Hc. destruct (Hsafe s Hs) as (s' & Hs' & Hsafe' & Hc' & Hle). exists (g s').
    destruct (Hg s') as (_ & -> & ->), (Hg v) as (_ & -> & _). split; [done|]. split; [congruence|done]. }
  constructor; cbn.
  - done.
  - rewrite map_ids_version by done. apply (inv_version_ids _ HI).
  - intros v w (v0 & -> & Hv)%elem_of_map (w0 & -> & Hw)%elem_of_map.
    destruct (Hg v0) as (_ & -> & ->), (Hg w0) as (_ & -> & ->). intros Hc Hn.
    by rewrite (inv_numbers _ HI v0 w0).
  - done.
  - done.
  - intros v (v0 & -> & Hv)%elem_of_map Hb. destruct (Hov v0 Hv Hb) as (H1 & H2 & s & Hs & Hc & Hlt).
    split; [done|]. split; [done|]. destruct (HsafeL v0 s Hs Hc) as (s' & Hs' & Hc' & Hle).
    exists s'. split; [done|]. split; [done|]. destruct (Hg v0) as (_ & _ & ->). lia.
  - intros v (v0 & -> & Hv)%elem_of_map. destruct (inv_kept _ HI v0 Hv) as (s & Hs & Hc).
    destruct (HsafeL v0 s Hs Hc) as (s' & Hs' & Hc' & _). by exists s'.
Qed.

(** ** Preservation: transitions of an active rotation *)

(** Versions of another credential are left alone, and so are their rotations. *)
Lemma Linked_map_other g vs r p n :
  keepsVersion g -> (forall v, v ∈ vs -> cv_credentialId v = rot_credentialId r -> g v = v) ->
  Linked vs r p n -> Linked (map g vs) r p n.
Proof.
  intros Hg Hid Hl.
  assert (Hin : forall v, v ∈ vs -> cv_credentialId v = rot_credentialId r -> v ∈ map g vs).
  { intros v Hv Hc. apply elem_of_map. exists v. by rewrite Hid. }
  destruct Hl. constructor; auto.
  - intros v (w & -> & Hw)%elem_of_map. destruct (Hg w) as (_ & -> & _). intros Hc.
    rewrite Hid by done. auto.
  - intros (v & Hv & Hc & Hu & Hlt)%lk_purged0. exists v. auto.
Qed.

Lemma rotations_updated rs vs r f :
  Inv (MkLState rs vs) -> r ∈ rs -> keepsRotation f -> (isActive (f r) = true -> isActive r = true) ->
  NoDup (map rot_id (setRotation (rot_id r) f rs)) /\
  (forall x y, x ∈ setRotation (rot_id r) f rs -> y ∈ setRotation (rot_id r) f rs ->
     isActive x = true -> isActive y = true -> rot_credentialId x = rot_credentialId y -> x = y).
Proof.
  intros HI Hr Hf Ha. pose proof (inv_rotation_ids _ HI) as Hnd. cbn in Hnd. split.
  - rewrite setRotation_map, map_ids_rotation; [done|by apply keepsRotation_onId].
  - destruct (Hf r) as (_ & Ec & _). intros x y.
    rewrite !elem_of_setRotation by done. intros [->|[Hx Hnx]] [->|[Hy Hny]] Hax Hay E; try done.
    + exfalso. apply Hny. f_equal. symmetry. apply (inv_one_active _ HI); auto. congruence.
    + exfalso. apply Hnx. f_equal. apply (inv_one_active _ HI); auto. congruence.
    + by apply (inv_one_active _ HI).
Qed.

Lemma withdrawable_updated rs r f v w :
  NoDup (map rot_id rs) -> r ∈ rs -> keepsRotation f -> (abandonable (f r) = true -> abandonable r = true) ->
  cv_id w = cv_id v -> withdrawable (setRotation (rot_id r) f rs) w -> withdrawable rs v.
Proof.
  intros Hnd Hr Hf Ha E (x & Hx & Hax & Hid).
  apply elem_of_setRotation in Hx as [->|[Hx _]]; [|by exists x; rewrite <- E|done..].
  destruct (Hf r) as (_ & _ & En & _). exists r. rewrite <- E, <- Hid. auto.
Qed.

Lemma Inv_rotation_step rs vs r f g :
  Inv (MkLState rs vs) -> r ∈ rs -> isActive r = true -> keepsRotation f -> keepsVersion g ->
  (abandonable (f r) = true -> abandonable r = true) ->
  (forall v, v ∈ vs -> cv_credentialId v <> rot_credentialId r -> g v = v) ->
  (forall p n, Linked vs r p n -> isActive (f r) = true -> Linked (map g vs) (f r) (g p) (g n)) ->
  (forall v, v ∈ vs -> cv_breakGlassOverlapExpiresAt (g v) <> None ->
     cv_breakGlassOverlapExpiresAt v <> None /\ cv_rotationLockedAt (g v) = cv_rotationLockedAt v /\
     cv_purgedAt (g v) = cv_purgedAt v) ->
  (forall s, safe (MkLState rs vs) s -> exists s', s' ∈ vs /\ usable (g s') /\ ~ withdrawable rs s' /\
     cv_credentialId s' = cv_credentialId s /\ (cv_versionNumber s <= cv_versionNumber s')%Z) ->
  Inv (MkLState (setRotation (rot_id r) f rs) (map g vs)).
Proof.
  intros HI Hr Hact Hf Hg Hab Hother Hl Hov Hs.
  destruct (rotations_updated rs vs r f HI Hr Hf (fun _ => Hact)) as [Hnd Hone].
  pose proof (inv_rotation_ids _ HI) as Hnd0. cbn in Hnd0.
  apply Inv_map with (rs := rs); try done.
  - intros x Hx Hax. apply elem_of_setRotation in Hx as [->|[Hx Hn]]; [..|done|done].
    + destruct (inv_linked _ HI r Hr Hact) as (p & n & Hpn). eauto.
    + destruct (inv_linked _ HI x Hx Hax) as (p & n & Hpn). exists p, n. apply Linked_map_other; try done.
      intros v Hv Hc. apply Hother; [done|]. intros Ec. apply Hn. f_equal.
      apply (inv_one_active _ HI); try done. congruence.
  - intros v Hv Hb. destruct (Hov v Hv Hb) as (Hb' & -> & ->). by apply (inv_overlap _ HI).
  - intros s Hsafe. destruct (Hs s Hsafe) as (s' & Hs' & Hu & Hw & Hc & Hle). exists s'.
    split; [done|]. split; [|done]. split; [apply elem_of_map; eauto|]. split; [done|].
    intros Hwd. apply Hw. eapply withdrawable_updated; [..|exact Hwd]; try done. apply Hg.
Qed.

(** The common case: the usable versions stay usable. *)
Lemma Inv_rotation_step_usable rs vs r f g :
  Inv (MkLState rs vs) -> r ∈ rs -> isActive r = true -> keepsRotation f -> keepsVersion g ->
  (abandonable (f r) = true -> abandonable r = true) ->
  (forall v, v ∈ vs -> cv_credentialId v <> rot_credentialId r -> g v = v) ->
  (forall p n, Linked vs r p n -> isActive (f r) = true -> Linked (map g vs) (f r) (g p) (g n)) ->
  (forall v, v ∈ vs -> cv_breakGlassOverlapExpiresAt (g v) <> None ->
     cv_breakGlassOverlapExpiresAt v <> None /\ cv_rotationLockedAt (g v) = cv_rotationLockedAt v /\
     cv_purgedAt (g v) = cv_purgedAt v) ->
  (forall s, safe (MkLState rs vs) s -> usable (g s)) ->
  Inv (MkLState (setRotation (rot_id r) f rs) (map g vs)).
Proof.
  intros HI Hr Hact Hf Hg Hab Hother Hl Hov Hs. apply Inv_rotation_step; try done.
  intros s Hsafe. exists s. split; [apply Hsafe|]. split; [auto|]. split; [apply Hsafe|]. split; [done|lia].
Qed.

(** The update of one version by its identifier. *)
Lemma setVersion_other rs vs r p n g i :
  Inv (MkLState rs vs) -> Linked vs r p n -> i = cv_id p \/ i = cv_id n ->
  forall v, v ∈ vs -> cv_credentialId v <> rot_credentialId r -> onId cv_id i g v = v.
Proof.
  intros HI Hl Hi v Hv Hc. apply onId_miss. intros E. apply Hc.
  pose proof (inv_version_ids _ HI) as Hnd. cbn in Hnd.
  destruct Hi as [Hi|Hi]; rewrite Hi in E.
  - rewrite (NoDup_key_inj cv_id vs v p Hnd Hv (lk_prev _ _ _ _ Hl) E). apply Hl.
  - rewrite (NoDup_key_inj cv_id vs v n Hnd Hv (lk_new _ _ _ _ Hl) E). apply Hl.
Qed.

Ltac keeps_version := intros ?; repeat split; reflexivity.


Section steps.
Context (rs : list RotationRow) (vs : list VersionRow) (HI : Inv (MkLState rs vs)).
Implicit Types (r : RotationRow).

Lemma Linked_distinct r p n : Linked vs r p n -> cv_id p <> cv_id n.
Proof using HI.
  intros Hl E. pose proof (inv_version_ids _ HI) as Hnd. cbn in Hnd.
  pose proof (NoDup_key_inj cv_id vs p n Hnd (lk_prev _ _ _ _ Hl) (lk_new _ _ _ _ Hl) E) as ->.
  pose proof (lk_order _ _ _ _ Hl). lia.
Qed.

Lemma edge_active s s' : edge s s' -> isActiveStatus s = true.
Proof.
  destruct 1 as [| | | | |s Hs]; try done.
  repeat (apply elem_of_cons in Hs as [->|Hs]; [done|]). by apply not_elem_of_nil in Hs.
Qed.

(** The two transitions between abandonable statuses. *)
Lemma edge_abandonable r s : edge (rot_status r) (rot_status s) -> abandonable s = true ->
  rot_status s <> staged /\ rot_status s <> promoted /\ abandonable r = true.
Proof.
  unfold abandonable. generalize (rot_status r) (rot_status s). intros a b.
  destruct 1; done.
Qed.

Lemma Inv_touch r f :
  r ∈ rs -> keepsRotation f ->
  rot_status (f r) = rot_status r \/ (edge (rot_status r) (rot_status (f r)) /\ abandonable (f r) = true) ->
  Inv (MkLState (setRotation (rot_id r) f rs) vs).
Proof using HI.
  intros Hr Hf Hst. rewrite <- (List.map_id vs).
  destruct (isActive r) eqn:Ha.
  - apply Inv_rotation_step_usable; try done.
    + intros Hab. destruct Hst as [E|[He _]]; [unfold abandonable in *; by rewrite <- E|].
      by apply (edge_abandonable _ _ He).
    + intros p n Hl _. destruct (Hf r) as (_ & Ec & En & Ep).
      apply (Linked_map (fun v => v) vs r (f r) p n); try done; try apply Hl.
      * destruct Hst as [E|[He Hab]]; [rewrite E; apply Hl|]. by destruct (edge_abandonable _ _ He Hab).
      * destruct Hst as [E|[He Hab]]; [rewrite E; apply Hl|].
        by destruct (edge_abandonable _ _ He Hab) as (_ & ? & _).
    + intros s Hs. apply Hs.
  - destruct Hst as [E|[He _]]; cycle 1.
    { apply edge_active in He. unfold isActive in Ha. congruence. }
    assert (Hin : isActive (f r) = false) by (unfold isActive in *; by rewrite E).
    destruct (rotations_updated rs vs r f HI Hr Hf) as [Hnd Hone]; [congruence|].
    pose proof (inv_rotation_ids _ HI) as Hnd0. cbn in Hnd0.
    apply Inv_map with (rs := rs); try done.
    + intros x Hx Hax. apply elem_of_setRotation in Hx as [->|[Hx Hn]]; [congruence| |done|done].
      rewrite List.map_id. by apply (inv_linked _ HI x).
    + intros v Hv Hb. by apply (inv_overlap _ HI).
    + intros s Hs. exists s. rewrite List.map_id. split; [apply Hs|]. split; [|split; [done|lia]].
      split; [apply Hs|]. split; [apply Hs|]. intros Hw. apply Hs.
      eapply withdrawable_updated; [..|exact Hw]; try done.
      intros Hab. apply abandonable_active in Hab. congruence.
Qed.

Lemma Inv_promote r f d :
  r ∈ rs -> rot_status r = staged -> keepsRotation f -> rot_status (f r) = promoted ->
  Inv (MkLState (setRotation (rot_id r) f rs)
         (setVersion (rot_newVersionId r) (fun v => v <| cv_promotedAt := Some d |>) vs)).
Proof using HI.
  intros Hr Hst Hf Hst'. rewrite setVersion_map.
  assert (Ha : isActive r = true) by (unfold isActive; by rewrite Hst).
  destruct (inv_linked _ HI r Hr Ha) as (p & n & Hl). cbn in Hl.
  assert (Hk : keepsVersion (fun v => v <| cv_promotedAt := Some d |>)) by keeps_version.
  pose proof (lk_new_id _ _ _ _ Hl) as En.
  assert (Hu : forall v, usable (onId cv_id (rot_newVersionId r) (fun v => v <| cv_promotedAt := Some d |>) v) <-> usable v).
  { intros v. unfold onId. by destruct (_ =? _). }
  apply Inv_rotation_step_usable; try done.
  - by apply keepsVersion_onId.
  - intros Hab. unfold abandonable in Hab. by rewrite Hst' in Hab.
  - apply (setVersion_other rs vs r p n); auto.
  - intros p' n' Hl' _. destruct (Linked_unique rs vs HI _ _ _ _ _ Hl Hl') as [-> ->].
    destruct (Hf r) as (_ & Ec & Enn & Ep).
    apply Linked_map with (r := r); try done; rewrite <- En;
      rewrite ?(onId_hit cv_id _ n), ?(onId_miss cv_id _ _ p) by (by apply (Linked_distinct r));
      try apply Hl; try done.
    + by apply keepsVersion_onId.
    + intros v. rewrite En. apply Hu.
    + cbn. rewrite En. intros (v & ? & ? & ? & ?)%(lk_purged _ _ _ _ Hl). exists v. by rewrite Hu.
    + rewrite Hst'. done.
  - intros v Hv. unfold onId. destruct (_ =? _); done.
  - intros s Hs. rewrite Hu. apply Hs.
Qed.

(** Unlocking the previous version, with an update of the new one. *)
Lemma onId_usable i f v : (forall v, usable (f v) <-> usable v) -> usable (onId cv_id i f v) <-> usable v.
Proof. intros Hf. unfold onId. by destruct (_ =? _). Qed.

Lemma Inv_complete r f :
  r ∈ rs -> rot_status r = in_progress -> keepsRotation f -> rot_status (f r) = completed ->
  Inv (MkLState (setRotation (rot_id r) f rs)
         (setVersion (rot_previousVersionId r) (fun v => v <| cv_rotationLockedAt := None |>) vs)).
Proof using HI.
  intros Hr Hst Hf Hst'. rewrite setVersion_map.
  assert (Ha : isActive r = true) by (unfold isActive; by rewrite Hst).
  destruct (inv_linked _ HI r Hr Ha) as (p & n & Hl). cbn in Hl.
  pose proof (lk_prev_id _ _ _ _ Hl) as Ep.
  pose proof (inv_version_ids _ HI) as Hnd. cbn in Hnd.
  apply Inv_rotation_step_usable; try done.
  - apply keepsVersion_onId. keeps_version.
  - intros Hab. unfold abandonable in Hab. by rewrite Hst' in Hab.
  - apply (setVersion_other rs vs r p n); auto.
  - intros p' n' _ Hab. unfold isActive in Hab. by rewrite Hst' in Hab.
  - intros v Hv. unfold onId. case_bool_decide as E; [|done]. cbn. intros Hb. exfalso. apply Hb.
    rewrite <- Ep in E. rewrite (NoDup_key_inj cv_id vs v p Hnd Hv (lk_prev _ _ _ _ Hl) E). apply Hl.
  - intros s Hs. apply onId_usable; [done|apply Hs].
Qed.

Lemma Inv_retire r f d :
  r ∈ rs -> rot_status r = promoted -> keepsRotation f -> rot_status (f r) = retired ->
  Inv (MkLState (setRotation (rot_id r) f rs)
         (setVersion (rot_previousVersionId r)
            (fun v => (purge d v) <| cv_rotationLockedAt := None |>) vs)).
Proof using HI.
  intros Hr Hst Hf Hst'. rewrite setVersion_map.
  assert (Ha : isActive r = true) by (unfold isActive; by rewrite Hst).
  destruct (inv_linked _ HI r Hr Ha) as (p & n & Hl). cbn in Hl.
  pose proof (lk_prev_id _ _ _ _ Hl) as Ep.
  pose proof (inv_version_ids _ HI) as Hnd. cbn in Hnd.
  assert (Hnw : forall v, v ∈ vs -> cv_credentialId v = rot_credentialId r -> ~ withdrawable rs v).
  { intros v Hv Hc Hw. destruct (withdrawable_new rs vs HI v Hv Hw) as (x & q & Hx & Hax & _ & Hcx).
    assert (x = r) as ->
      by (apply (inv_one_active _ HI); try done; [by apply abandonable_active|congruence]).
    unfold abandonable in Hax. by rewrite Hst in Hax. }
  assert (Hid : forall v g, v ∈ vs -> (cv_versionNumber p < cv_versionNumber v)%Z ->
    onId cv_id (rot_previousVersionId r) g v = v).
  { intros v g Hv Hlt. apply onId_miss. rewrite <- Ep. intros E.
    rewrite (NoDup_key_inj cv_id vs v p Hnd Hv (lk_prev _ _ _ _ Hl) E) in Hlt. lia. }
  apply Inv_rotation_step; try done.
  - apply keepsVersion_onId. keeps_version.
  - intros Hab. unfold abandonable in Hab. by rewrite Hst' in Hab.
  - apply (setVersion_other rs vs r p n); auto.
  - intros p' n' _ Hab. unfold isActive in Hab. by rewrite Hst' in Hab.
  - intros v Hv. unfold onId. case_bool_decide as E; [|done]. cbn. intros Hb. exfalso. apply Hb.
    rewrite <- Ep in E. rewrite (NoDup_key_inj cv_id vs v p Hnd Hv (lk_prev _ _ _ _ Hl) E). apply Hl.
  - intros s (Hs & Hu & Hw). destruct (decide (cv_id s = cv_id p)) as [E|E]; cycle 1.
    { exists s. rewrite onId_miss by by rewrite <- Ep. done. }
    rewrite (NoDup_key_inj cv_id vs s p Hnd Hs (lk_prev _ _ _ _ Hl) E).
    destruct (cv_purgedAt n) eqn:Hpn; cycle 1.
    + exists n. pose proof (lk_order _ _ _ _ Hl). rewrite Hid by (try done; apply Hl).
      split; [apply Hl|]. split; [by split; [|apply Hl]|].
      split; [apply Hnw; apply Hl|]. rewrite (lk_new_cred _ _ _ _ Hl), (lk_prev_cred _ _ _ _ Hl).
      split; [done|lia].
    + destruct (lk_purged _ _ _ _ Hl) as (v & Hv & Hc & Huv & Hlt); [congruence|].
      pose proof (lk_order _ _ _ _ Hl). exists v. rewrite Hid by (try done; lia).
      split; [done|]. split; [done|]. split; [by apply Hnw|].
      rewrite (lk_prev_cred _ _ _ _ Hl). split; [done|lia].
Qed.

Lemma Inv_abandon r f d :
  r ∈ rs -> abandonable r = true -> keepsRotation f -> rot_status (f r) = abandoned ->
  Inv (MkLState (setRotation (rot_id r) f rs)
         (setVersion (rot_previousVersionId r) (fun v => v <| cv_rotationLockedAt := None |>)
            (setVersion (rot_newVersionId r) (fun v => v <| cv_abandonedAt := Some d |>) vs))).
Proof using HI.
  intros Hr Hab Hf Hst'. rewrite !setVersion_map, map_map.
  pose proof (abandonable_active _ Hab) as Ha.
  destruct (inv_linked _ HI r Hr Ha) as (p & n & Hl). cbn in Hl.
  pose proof (lk_prev_id _ _ _ _ Hl) as Ep. pose proof (lk_new_id _ _ _ _ Hl) as En.
  pose proof (inv_version_ids _ HI) as Hnd. cbn in Hnd.
  apply Inv_rotation_step_usable; try done.
  - apply keepsVersion_compose; apply keepsVersion_onId; keeps_version.
  - intros v Hv Hc.
    rewrite (setVersion_other rs vs r p n _ (rot_newVersionId r) HI Hl) by (try done; by right).
    by rewrite (setVersion_other rs vs r p n _ (rot_previousVersionId r) HI Hl) by (try done; by left).
  - intros p' n' _ Hac. unfold isActive in Hac. by rewrite Hst' in Hac.
  - intros v Hv. rewrite <- Ep, <- En. destruct (decide (cv_id v = cv_id p)) as [E|E].
    + rewrite (NoDup_key_inj cv_id vs v p Hnd Hv (lk_prev _ _ _ _ Hl) E).
      rewrite (onId_miss cv_id (cv_id n) _ p) by (by apply (Linked_distinct r)). rewrite onId_hit. cbn.
      by rewrite (lk_prev_overlap _ _ _ _ Hl).
    + rewrite (onId_miss cv_id (cv_id p)) by (unfold onId; by destruct (_ =? _)). unfold onId. by destruct (_ =? _).
  - intros s (Hs & Hu & Hw). apply onId_usable; [done|]. rewrite onId_miss; [done|].
    intros E. apply Hw. by exists r.
Qed.
End steps.

(** ** Preservation: new versions and new rotations *)

Section growth.
Context (rs : list RotationRow) (vs : list VersionRow) (HI : Inv (MkLState rs vs)).

Lemma fresh_not_withdrawable v : cv_id v ∉ map cv_id vs -> ~ withdrawable rs v.
Proof using HI.
  intros Hf (r & Hr & Ha & Hid). destruct (inv_linked _ HI r Hr (abandonable_active _ Ha)) as (p & n & Hl).
  apply Hf. rewrite <- Hid, <- (lk_new_id _ _ _ _ Hl). apply elem_of_map. exists n. split; [done|apply Hl].
Qed.

Lemma fresh_ids v : cv_id v ∉ map cv_id vs -> NoDup (map cv_id (vs ++ [v])).
Proof using HI.
  intros Hf. rewrite map_app. apply NoDup_app. split; [apply (inv_version_ids _ HI)|]. split.
  - cbn. intros i Hi ->%list_elem_of_singleton. done.
  - cbn. apply NoDup_singleton.
Qed.

Lemma fresh_numbers v : freshVersion vs v -> forall x y, x ∈ vs ++ [v] -> y ∈ vs ++ [v] ->
  cv_credentialId x = cv_credentialId y -> cv_versionNumber x = cv_versionNumber y -> x = y.
Proof using HI.
  intros (_ & _ & _ & _ & Hmax) x y.
  rewrite !elem_of_app, !list_elem_of_singleton. intros [Hx| ->] [Hy| ->] Hc Hn; try done.
  - by apply (inv_numbers _ HI).
  - specialize (Hmax x Hx Hc). lia.
  - specialize (Hmax y Hy (eq_sym Hc)). lia.
Qed.

Lemma Inv_newVersion v : freshVersion vs v -> Inv (MkLState rs (vs ++ [v])).
Proof using HI.
  intros Hv. pose proof Hv as (Hu & Hlk & Hov & Hid & Hmax).
  assert (Hsafe : forall s, safe (MkLState rs vs) s -> safe (MkLState rs (vs ++ [v])) s).
  { intros s (Hs & ? & ?). split; [|done]. apply elem_of_app. by left. }
  constructor; cbn.
  - apply (inv_rotation_ids _ HI).
  - by apply fresh_ids.
  - by apply fresh_numbers.
  - apply (inv_one_active _ HI).
  - intros r Hr Ha. destruct (inv_linked _ HI r Hr Ha) as (p & n & Hl). exists p, n. by apply Linked_app.
  - intros x [Hx| ->%list_elem_of_singleton]%elem_of_app Hb; [|done].
    destruct (inv_overlap _ HI x Hx Hb) as (? & ? & s & ? & ? & ?). eauto 10.
  - intros x [Hx| ->%list_elem_of_singleton]%elem_of_app.
    + destruct (inv_kept _ HI x Hx) as (s & ? & ?). eauto.
    + exists v. split; [|done]. split; [apply elem_of_app; right; by left|].
      split; [done|]. by apply fresh_not_withdrawable.
Qed.

(** The highest usable version is in no overlap window. *)
Lemma highestUsable_no_overlap c v : highestUsable vs c v -> cv_breakGlassOverlapExpiresAt v = None.
Proof using HI.
  intros (Hv & Hc & Hu & Hmax). destruct (cv_breakGlassOverlapExpiresAt v) eqn:E; [|done].
  destruct (inv_overlap _ HI v Hv) as (_ & _ & s & Hs & Hcs & Hlt); [congruence|].
  specialize (Hmax s ltac:(apply Hs) ltac:(congruence) ltac:(apply Hs)). lia.
Qed.

Section new_rotation.
Context (r : RotationRow) (prev new : VersionRow) (g : VersionRow -> VersionRow).
Context (Hprev : highestUsable vs (rot_credentialId r) prev) (Hna : noActive rs (rot_credentialId r)).
Context (Hnew : freshVersion vs new) (Hnewc : cv_credentialId new = rot_credentialId r).
Context (Hrid : rot_id r ∉ map rot_id rs).
Context (Enew : rot_newVersionId r = cv_id new) (Eprev : rot_previousVersionId r = cv_id prev).
Context (Hg : keepsVersion g) (Hgother : forall v, cv_id v <> cv_id prev -> g v = v).
Context (Hgu : usable (g prev)) (Hgl : cv_rotationLockedAt (g prev) <> None).

Lemma new_not_prev : cv_id new <> cv_id prev.
Proof using Hnew Hprev.
  destruct Hnew as (_ & _ & _ & Hid & _). destruct Hprev as (Hp & _). intros E. apply Hid. rewrite E.
  apply elem_of_map. by exists prev.
Qed.

Lemma prev_before_new : (cv_versionNumber prev < cv_versionNumber new)%Z.
Proof using Hnew Hprev Hnewc.
  destruct Hnew as (_ & _ & _ & _ & Hmax). destruct Hprev as (Hp & Hc & _). apply Hmax; [done|congruence].
Qed.

Lemma is_prev v : v ∈ vs -> cv_id v = cv_id prev -> v = prev.
Proof using HI Hprev.
  intros Hv. pose proof (inv_version_ids _ HI) as Hnd.
  apply (NoDup_key_inj cv_id vs v prev Hnd Hv). apply Hprev.
Qed.

Lemma usable_updated v : v ∈ vs -> usable v -> usable (g v).
Proof using HI Hprev Hgother Hgu.
  intros Hv Hu. destruct (decide (cv_id v = cv_id prev)) as [E|E]; [by rewrite (is_prev v Hv E)|].
  by rewrite Hgother.
Qed.

Lemma safe_kept s :
  safe (MkLState rs vs) s -> safe (MkLState (rs ++ [r]) (map g (vs ++ [new]))) (g s).
Proof using All.
  intros (Hs & Hu & Hw). cbn in Hs. split; [|split; [by apply usable_updated|]]; cbn.
  - apply elem_of_map. exists s. split; [done|]. apply elem_of_app. by left.
  - destruct (Hg s) as (Eid & _). intros (x & Hx & Hax & Hid). apply Hw. rewrite Eid in Hid.
    apply elem_of_app in Hx as [Hx|Hx%list_elem_of_singleton]; [by exists x|subst x].
    exfalso. destruct Hnew as (_ & _ & _ & Hfr & _). apply Hfr. rewrite <- Enew, Hid.
    apply elem_of_map. by exists s.
Qed.

Lemma new_kept : new ∈ map g (vs ++ [new]).
Proof using Hnew Hprev Hgother.
  apply elem_of_map. exists new. rewrite Hgother by apply new_not_prev. split; [done|].
  apply elem_of_app. right. by left.
Qed.

(** The new staged rotation is linked to the version it locks. *)
Lemma Linked_new :
  rot_status r = staged -> cv_promotedAt new = None -> cv_breakGlassOverlapExpiresAt (g prev) = None ->
  Linked (map g (vs ++ [new])) r (g prev) new.
Proof using All.
  intros Est Epr Eov. pose proof prev_before_new as Hlt.
  pose proof Hnew as (Hnu & _). pose proof Hprev as (Hp & Hpc & Hpu & Hhigh). destruct (Hg prev) as (Ei & Ec & En).
  constructor; rewrite ?Ei, ?Ec, ?En; try done.
  - apply elem_of_map. exists prev. split; [done|]. apply elem_of_app. by left.
  - apply new_kept.
  - apply Hnu.
  - intros v (w & -> & Hw)%elem_of_map. destruct (Hg w) as (_ & -> & ->). intros Hcw Huw.
    apply elem_of_app in Hw as [Hw|Hw%list_elem_of_singleton]; [|subst w; lia].
    enough (cv_versionNumber w <= cv_versionNumber prev)%Z by lia.
    destruct (decide (cv_id w = cv_id prev)) as [E|E]; [by rewrite (is_prev w Hw E)|].
    apply Hhigh; try done. by rewrite Hgother in Huw.
  - by destruct Hnu as [-> _].
  - by rewrite Est.
Qed.

(** The new version of a break-glass rotation is final at once. *)
Lemma safe_new :
  rot_status r = break_glass_complete -> safe (MkLState (rs ++ [r]) (map g (vs ++ [new]))) new.
Proof using All.
  intros Est. pose proof Hnew as (Hnu & _ & _ & Hfr & _).
  split; [apply new_kept|]. split; [done|]. cbn. intros (x & Hx & Hax & Hid).
  apply elem_of_app in Hx as [Hx|Hx%list_elem_of_singleton].
  - apply (fresh_not_withdrawable new Hfr). by exists x.
  - subst x. unfold abandonable in Hax. by rewrite Est in Hax.
Qed.

Lemma one_active_new x y :
  x ∈ rs ++ [r] -> y ∈ rs ++ [r] -> isActive x = true -> isActive y = true ->
  rot_credentialId x = rot_credentialId y -> x = y.
Proof using HI Hna.
  assert (Hact : forall x, x ∈ rs ++ [r] -> isActive x = true -> rot_credentialId x = rot_credentialId r -> x = r).
  { intros z [Hz|Hz%list_elem_of_singleton]%elem_of_app Ha Hc; [|done]. by rewrite (Hna z Hz Hc) in Ha. }
  intros Hx Hy Hax Hay Hc. pose proof Hx as Hx'. pose proof Hy as Hy'.
  apply elem_of_app in Hx as [Hx|Hx%list_elem_of_singleton]; [|subst x; symmetry; by apply Hact].
  apply elem_of_app in Hy as [Hy|Hy%list_elem_of_singleton]; [|subst y; by apply Hact].
  by apply (inv_one_active _ HI).
Qed.

(** The other active rotations are of other credentials. *)
Lemma Linked_others x : x ∈ rs -> isActive x = true -> exists p n, Linked (map g (vs ++ [new])) x p n.
Proof using All.
  intros Hx Ha. pose proof Hprev as (_ & Hpc & _).
  destruct (inv_linked _ HI x Hx Ha) as (p & n & Hl). exists p, n. cbn in Hl.
  assert (Hc : rot_credentialId x <> rot_credentialId r) by (intros Hc; by rewrite (Hna x Hx Hc) in Ha).
  apply Linked_map_other; [done| |by apply Linked_app].
  intros v Hv Hcv. apply Hgother. intros E. apply Hc. rewrite <- Hcv.
  apply elem_of_app in Hv as [Hv|Hv%list_elem_of_singleton]; [|congruence]. by rewrite (is_prev v Hv E).
Qed.

Lemma Inv_newRotation :
  (rot_status r = staged /\ cv_promotedAt new = None /\ cv_breakGlassOverlapExpiresAt (g prev) = None) \/
  (rot_status r = break_glass_complete /\ cv_purgedAt (g prev) = None) ->
  Inv (MkLState (rs ++ [r]) (map g (vs ++ [new]))).
Proof using All.
  intros Hst. pose proof Hnew as (_ & _ & Hnov & Hfr & _). pose proof Hprev as (Hp & Hpc & _).
  constructor; cbn.
  - rewrite map_app. apply NoDup_app. split; [apply (inv_rotation_ids _ HI)|]. split; [|apply NoDup_singleton].
    cbn. by intros i Hi ->%list_elem_of_singleton.
  - rewrite map_ids_version by done. by apply fresh_ids.
  - intros v w (v0 & -> & Hv)%elem_of_map (w0 & -> & Hw)%elem_of_map.
    destruct (Hg v0) as (_ & -> & ->), (Hg w0) as (_ & -> & ->). intros Hc Hn.
    by rewrite (fresh_numbers new Hnew v0 w0).
  - apply one_active_new.
  - intros x [Hx|Hx%list_elem_of_singleton]%elem_of_app Ha; [by apply Linked_others|subst x].
    destruct Hst as [(Est & Epr & Eov)|[Est _]]; [|unfold isActive in Ha; by rewrite Est in Ha].
    exists (g prev), new. by apply Linked_new.
  - intros v (w & -> & Hw)%elem_of_map Hb. destruct (Hg w) as (_ & Ec & En).
    apply elem_of_app in Hw as [Hw|Hw%list_elem_of_singleton]; cycle 1.
    { subst w. by rewrite Hgother in Hb by apply new_not_prev. }
    destruct (decide (cv_id w = cv_id prev)) as [E|E].
    + rewrite (is_prev w Hw E) in *. destruct Hst as [(_ & _ & Eov)|[Est Epu]]; [done|].
      split; [done|]. split; [done|]. exists new. rewrite Ec, En, Hpc.
      split; [by apply safe_new|]. split; [done|apply prev_before_new].
    + rewrite Hgother in Hb |- * by done.
      destruct (inv_overlap _ HI w Hw Hb) as (? & ? & s & Hs & ? & ?).
      split; [done|]. split; [done|]. exists (g s). destruct (Hg s) as (_ & -> & ->).
      split; [by apply safe_kept|done].
  - intros v (w & -> & Hw)%elem_of_map. destruct (Hg w) as (_ & Ec & _). rewrite Ec.
    assert (exists x, x ∈ vs /\ cv_credentialId x = cv_credentialId w) as (x & Hx & <-).
    { apply elem_of_app in Hw as [Hw|Hw%list_elem_of_singleton]; [by exists w|].
      subst w. exists prev. by rewrite Hnewc. }
    destruct (inv_kept _ HI x Hx) as (s & Hs & <-). exists (g s). destruct (Hg s) as (_ & -> & _).
    split; [by apply safe_kept|done].
Qed.
End new_rotation.
End growth.

(** ** Preservation: the workers' transitions *)

Section workers.
Context (rs : list RotationRow) (vs : list VersionRow) (HI : Inv (MkLState rs vs)).

Lemma is_version v w : v ∈ vs -> w ∈ vs -> cv_id v = cv_id w -> v = w.
Proof using HI.
  intros Hv Hw. pose proof (inv_version_ids _ HI) as Hnd. by apply (NoDup_key_inj cv_id vs v w Hnd Hv Hw).
Qed.

Lemma Inv_overlapExpire v :
  v ∈ vs -> cv_breakGlassOverlapExpiresAt v <> None ->
  Inv (MkLState rs
         (setVersion (cv_id v) (fun v => v <| cv_rotationLockedAt := None |>
                                           <| cv_breakGlassOverlapExpiresAt := None |>) vs)).
Proof using HI.
  intros Hv Hb. rewrite setVersion_map. set (f := fun _ => _).
  assert (Hk : keepsVersion (onId cv_id (cv_id v) f)) by (apply keepsVersion_onId; keeps_version).
  assert (Hu : forall x, usable (onId cv_id (cv_id v) f x) <-> usable x) by (intros x; by apply onId_usable).
  apply Inv_map with (rs := rs); try done; try apply HI.
  - intros r Hr Ha. destruct (inv_linked _ HI r Hr Ha) as (p & n & Hl). cbn in Hl.
    exists (onId cv_id (cv_id v) f p), (onId cv_id (cv_id v) f n). apply Linked_map_frame; try done.
    + intros x. apply Hu.
    + apply onId_miss. intros E. rewrite (is_version p v) in Hl by (done || apply Hl).
      apply Hb. apply Hl.
    + unfold onId. by destruct (_ =? _).
    + unfold onId. by destruct (_ =? _).
    + intros Hp. destruct (lk_purged _ _ _ _ Hl) as (x & ? & ? & ? & ?).
      { unfold onId in Hp. by destruct (_ =? _). }
      exists x. by rewrite Hu.
  - intros w Hw Hbw. destruct (decide (cv_id w = cv_id v)) as [E|E].
    + unfold onId in Hbw. by rewrite bool_decide_eq_true_2 in Hbw.
    + rewrite onId_miss in Hbw |- * by done. by apply (inv_overlap _ HI).
  - intros s (Hs & Hus & Hw). exists s. split; [done|]. split; [|split; [done|lia]].
    destruct (Hk s) as (Ei & _). split; [apply elem_of_map; by exists s|]. split; [by apply Hu|].
    intros (r & Hr & Ha & Hid). apply Hw. exists r. by rewrite <- Ei.
Qed.

(** A purge leaves another safe version of the credential that is at least as recent. *)
Lemma purge_keeps_safe v h :
  v ∈ vs -> cv_rotationLockedAt v = None ->
  h ∈ vs -> usable h -> cv_credentialId h = cv_credentialId v ->
  (cv_versionNumber v < cv_versionNumber h)%Z -> usable v ->
  exists s, s ∈ vs /\ cv_id s <> cv_id v /\ usable s /\ ~ withdrawable rs s /\
    cv_credentialId s = cv_credentialId v /\ (cv_versionNumber v <= cv_versionNumber s)%Z.
Proof using HI.
  intros Hv Hlk Hh Huh Hc Hlt Huv.
  destruct (decide (Exists (fun r => abandonable r = true /\ rot_newVersionId r = cv_id h) rs)) as [Hw|Hw];
    rewrite Exists_exists in Hw; cycle 1.
  { exists h. split; [done|]. split; [|split; [done|split; [|split; [done|lia]]]].
    - intros E. rewrite (is_version h v) in Hlt by done. lia.
    - intros (r & ?). apply Hw. exists r. tauto. }
  destruct (withdrawable_new rs vs HI h Hh) as (r & p & Hr & Ha & Hl & Hcr).
  { destruct Hw as (r & ?). exists r. tauto. }
  exists p. split; [apply Hl|]. split.
  - intros E. pose proof (lk_locked _ _ _ _ Hl) as Hlock.
    rewrite (is_version p v) in Hlock by (done || apply Hl). done.
  - split; [apply Hl|].
    split; [eapply prev_not_withdrawable; [exact HI|exact Hr|by apply abandonable_active|exact Hl]|].
    split; [by rewrite (lk_prev_cred _ _ _ _ Hl), Hcr|].
    pose proof (lk_between _ _ _ _ Hl v Hv ltac:(congruence) Huv). lia.
Qed.

Lemma Inv_purge v d :
  v ∈ vs -> cv_rotationLockedAt v = None ->
  (usable v -> exists h, h ∈ vs /\ usable h /\ cv_credentialId h = cv_credentialId v /\
     (cv_versionNumber v < cv_versionNumber h)%Z) ->
  Inv (MkLState rs (setVersion (cv_id v) (purge d) vs)).
Proof using HI.
  intros Hv Hlk Hhigher. rewrite setVersion_map.
  assert (Hother : forall h, (cv_versionNumber v < cv_versionNumber h)%Z -> h ∈ vs -> cv_id h <> cv_id v).
  { intros h Hlt Hh E. rewrite (is_version h v) in Hlt by done. lia. }
  assert (Hk : keepsVersion (onId cv_id (cv_id v) (purge d))) by (apply keepsVersion_onId; keeps_version).
  apply Inv_map with (rs := rs); try done; try apply HI.
  - intros r Hr Ha. destruct (inv_linked _ HI r Hr Ha) as (p & n & Hl). cbn in Hl.
    exists (onId cv_id (cv_id v) (purge d) p), (onId cv_id (cv_id v) (purge d) n).
    apply Linked_map_frame; try done.
    + intros x. unfold onId. case_bool_decide; [|done]. intros [Hpu _]. done.
    + apply onId_miss. intros E. pose proof (lk_locked _ _ _ _ Hl) as Hlock.
      rewrite (is_version p v) in Hlock by (done || apply Hl). done.
    + unfold onId. by destruct (_ =? _).
    + unfold onId. by destruct (_ =? _).
    + intros Hp. destruct (decide (cv_id n = cv_id v)) as [E|E].
      * assert (n = v) as -> by (apply is_version; (done || apply Hl)).
        destruct (cv_purgedAt v) as [t|] eqn:Epv; [|].
        -- destruct (lk_purged _ _ _ _ Hl) as (x & Hx & Hcx & Hux & Hltx); [congruence|].
           exists x. rewrite onId_miss by by apply Hother. done.
        -- destruct Hhigher as (h & Hh & Huh & Hc & Hlt); [by split; [|apply Hl]|].
           exists h. rewrite onId_miss by by apply Hother. by rewrite Hc, (lk_new_cred _ _ _ _ Hl).
      * rewrite onId_miss in Hp by done. destruct (lk_purged _ _ _ _ Hl Hp) as (x & Hx & Hcx & Hux & Hltx).
        destruct (decide (cv_id x = cv_id v)) as [Ex|Ex]; [|exists x; by rewrite onId_miss].
        assert (x = v) as -> by by apply is_version. destruct (Hhigher Hux) as (h & Hh & Huh & Hc & Hlt).
        exists h. rewrite onId_miss by by apply Hother. split; [done|]. split; [congruence|]. split; [done|]. lia.
  - intros w Hw Hbw.
    assert (E : cv_breakGlassOverlapExpiresAt w <> None) by (unfold onId in Hbw; by destruct (_ =? _)).
    destruct (inv_overlap _ HI w Hw E) as (Hl & Hp & Hs).
    rewrite onId_miss; [done|]. intros Ei. rewrite (is_version w v) in Hl by done. done.
  - intros s (Hs & Hus & Hw). cbn in Hs.
    assert (exists s', s' ∈ vs /\ cv_id s' <> cv_id v /\ usable s' /\ ~ withdrawable rs s' /\
      cv_credentialId s' = cv_credentialId s /\ (cv_versionNumber s <= cv_versionNumber s')%Z)
      as (s' & Hs' & Hid & Hu' & Hw' & Hc' & Hle).
    { destruct (decide (cv_id s = cv_id v)) as [E|E]; [|exists s; naive_solver lia].
      assert (s = v) as -> by by apply is_version. destruct (Hhigher Hus) as (h & ? & ? & ? & ?).
      by apply (purge_keeps_safe v h). }
    exists s'. rewrite onId_miss by done. split; [done|]. split; [|done].
    split; [apply elem_of_map; exists s'; by rewrite onId_miss|done].
Qed.
End workers.

(** ** The invariant is preserved *)

Lemma Step_Inv L L' : Step L L' -> Inv L -> Inv L'.
Proof.
  destruct 1 as [rs vs r f Hr Hf Hst Hv|rs vs r f d Hr Hst Hf Hst' Hv|rs vs r f d Hr Hst Hf Hst' Hv
    |rs vs r f Hr Hst Hf Hst' Hv|rs vs r f d Hr Hab Hf Hst' Hv|rs vs v Hv
    |rs vs r prev new d Hp Hna Hn Hc Hpr Hid Hst En Ep
    |rs vs r prev new d e Hp Hna Hn Hc Hpr Hid Hst En Ep|rs vs v Hv Hb
    |rs vs v d Hv Hpu Hl Hh]; intros HI.
  - by apply Inv_touch.
  - by apply Inv_promote.
  - by apply Inv_retire.
  - by apply Inv_complete.
  - by apply Inv_abandon.
  - by apply Inv_newVersion.
  - rewrite setVersion_map. destruct Hp as (Hp1 & Hp2 & Hp3 & Hp4).
    apply Inv_newRotation with (prev := prev); try done; rewrite ?onId_hit; try done.
    + apply keepsVersion_onId. keeps_version.
    + intros v. apply onId_miss.
    + left. split; [done|]. split; [done|]. cbn. by eapply highestUsable_no_overlap.
  - rewrite setVersion_map. pose proof Hp as (Hp1 & Hp2 & Hp3 & Hp4).
    apply Inv_newRotation with (prev := prev); try done; rewrite ?onId_hit; try done.
    + apply keepsVersion_onId. keeps_version.
    + intros v. apply onId_miss.
    + right. split; [done|]. apply Hp3.
  - by apply Inv_overlapExpire.
  - by apply Inv_purge.
Qed.

Lemma Steps_Inv L L' : Steps L L' -> Inv L -> Inv L'.
Proof. induction 1; eauto using Step_Inv. Qed.

(** ** What every step keeps *)

(** The identity of a rotation row, its status moving along an edge at most. *)
Record follows (r r' : RotationRow) : Prop := {
  fo_id : rot_id r' = rot_id r;
  fo_credential : rot_credentialId r' = rot_credentialId r;
  fo_new : rot_newVersionId r' = rot_newVersionId r;
  fo_previous : rot_previousVersionId r' = rot_previousVersionId r;
  fo_status : clos_refl_trans _ edge (rot_status r) (rot_status r');
  fo_version : (rot_version r <= rot_version r')%Z;
}.

Lemma follows_refl r : follows r r.
Proof. constructor; try done; apply rt_refl. Qed.

Lemma follows_trans r s t : follows r s -> follows s t -> follows r t.
Proof. intros [] []. constructor; try congruence; [by eapply rt_trans|lia]. Qed.

Lemma setRotation_follows rs r f x :
  NoDup (map rot_id rs) -> r ∈ rs -> keepsRotation f ->
  rot_status (f r) = rot_status r \/ edge (rot_status r) (rot_status (f r)) ->
  (rot_version r <= rot_version (f r))%Z ->
  x ∈ rs -> exists x', x' ∈ setRotation (rot_id r) f rs /\ follows x x'.
Proof.
  intros Hnd Hr Hf Hst Hv Hx. destruct (decide (rot_id x = rot_id r)) as [E|E].
  - assert (x = r) as -> by by apply (NoDup_key_inj rot_id rs).
    exists (f r). split; [apply elem_of_setRotation; auto|]. destruct (Hf r) as (E1 & E2 & E3 & E4).
    constructor; try done. destruct Hst as [->|He]; [apply rt_refl|by apply rt_step].
  - exists x. split; [apply elem_of_setRotation; auto|apply follows_refl].
Qed.

Lemma Step_follows L L' x :
  Step L L' -> Inv L -> x ∈ ls_rotations L -> exists x', x' ∈ ls_rotations L' /\ follows x x'.
Proof.
  intros HS HI. pose proof (inv_rotation_ids _ HI) as Hnd.
  destruct HS as [rs vs r f Hr Hf Hst Hv|rs vs r f d Hr Hst Hf Hst' Hv|rs vs r f d Hr Hst Hf Hst' Hv
    |rs vs r f Hr Hst Hf Hst' Hv|rs vs r f d Hr Hab Hf Hst' Hv|rs vs v Hv
    |rs vs r prev new d Hp Hna Hn Hc Hpr Hid Hst En Ep
    |rs vs r prev new d e Hp Hna Hn Hc Hpr Hid Hst En Ep|rs vs v Hv Hb
    |rs vs v d Hv Hpu Hl Hh]; cbn in *; intros Hx;
    try (by exists x; split; [done|apply follows_refl]);
    try (by exists x; split; [apply elem_of_app; by left|apply follows_refl]).
  - apply setRotation_follows; try done. destruct Hst as [?|[? _]]; auto.
  - apply setRotation_follows; try done. right. rewrite Hst, Hst'. constructor.
  - apply setRotation_follows; try done. right. rewrite Hst, Hst'. constructor.
  - apply setRotation_follows; try done. right. rewrite Hst, Hst'. constructor.
  - apply setRotation_follows; try done. right. rewrite Hst'. constructor.
    unfold abandonable in Hab. by apply bool_decide_eq_true in Hab.
Qed.

Lemma Steps_follows L L' x :
  Steps L L' -> Inv L -> x ∈ ls_rotations L -> exists x', x' ∈ ls_rotations L' /\ follows x x'.
Proof.
  intros HS. revert x. induction HS as [L L' HS|L|L1 L2 L3 H1 IH1 H2 IH2]; intros x HI Hx.
  - by eapply Step_follows.
  - exists x. split; [done|apply follows_refl].
  - destruct (IH1 x HI Hx) as (y & Hy & Hxy).
    destruct (IH2 y (Steps_Inv _ _ H1 HI) Hy) as (z & Hz & Hyz).
    exists z. split; [done|by eapply follows_trans].
Qed.

Lemma terminal_edge s s' : terminal s = true -> clos_refl_trans _ edge s s' -> s' = s.
Proof.
  intros Ht He. apply clos_rt_rt1n in He. destruct He as [|y z Hxy _]; [done|].
  apply edge_active in Hxy. by destruct s.
Qed.

(** A rotation in a terminal status keeps it for ever. *)
Lemma Steps_terminal L L' x :
  Steps L L' -> Inv L -> x ∈ ls_rotations L -> terminal (rot_status x) = true ->
  exists x', x' ∈ ls_rotations L' /\ rot_id x' = rot_id x /\ rot_status x' = rot_status x.
Proof.
  intros HS HI Hx Ht. destruct (Steps_follows L L' x HS HI Hx) as (x' & Hx' & Hf).
  exists x'. split; [done|]. split; [apply Hf|]. apply terminal_edge; [done|apply Hf].
Qed.

(** While a rotation is active its previous version is usable and locked. *)
Lemma Inv_previous_retained L r :
  Inv L -> r ∈ ls_rotations L -> isActive r = true ->
  exists p, p ∈ ls_versions L /\ cv_id p = rot_previousVersionId r /\
    cv_credentialId p = rot_credentialId r /\ usable p /\ cv_rotationLockedAt p <> None.
Proof.
  intros HI Hr Ha. destruct (inv_linked _ HI r Hr Ha) as (p & n & []). exists p. auto.
Qed.

Lemma Inv_usable L v : Inv L -> v ∈ ls_versions L ->
  exists s, s ∈ ls_versions L /\ cv_credentialId s = cv_credentialId v /\ usable s.
Proof. intros HI Hv. destruct (inv_kept _ HI v Hv) as (s & (? & ? & _) & ?). exists s. auto. Qed.

Lemma Inv_empty : Inv (lstate emptyDb).
Proof.
  constructor; cbn; try (intros ? ?%not_elem_of_nil; done); try apply NoDup_nil_2.
  - by intros ? ? ?%not_elem_of_nil.
  - by intros ? ? ?%not_elem_of_nil.
Qed.
