(* ===== verification/Effects.v ===== *)
(** * Effects: what the statements of the service do to the database

    The lemmas that the refinement and the functional theorems share: the
    frame of the computations that touch no rotation, version or credential;
    compare-and-swap on a rotation row; the scoped lock; and the insertion of a
    version. *)

From S2P Require Import Prelude Js Crypto FieldSet Store Tx QuotaGate AuditLog Notifications Credentials Rotation Transitions Workers Lifecycle.
From Stdlib Require Import Ascii String.
From stdpp Require Import strings.

Local Open Scope string_scope.
Local Open Scope list_scope.
Local Open Scope pv_scope.

(** ** A world at a counter and a database *)

Definition at_ (w : World) (n : nat) (db : Db) : World := w <| w_tick := n |> <| w_db := db |>.

Lemma at_id w : w = at_ w (w_tick w) (w_db w).
Proof. by destruct w. Qed.

Lemma wp_at_readOnly {A} (m : M A) (Q : Outcome A -> World -> Prop) w n db :
  readOnly m -> (forall o n', Q o (at_ w n' db)) -> wp m Q (at_ w n db).
Proof. intros Hm HQ. eapply wp_mono; [apply Hm|]. intros o w' [n' ->]. apply (HQ o n'). Qed.

(** ** Computations that leave the life cycle alone *)

Definition credIds (db : Db) : list Uuid := map cred_id (db_credentials db).

Record sameLife (db db' : Db) : Prop := {
  sl_rotations : db_rotations db' = db_rotations db;
  sl_versions : db_versions db' = db_versions db;
  sl_creds : credIds db' = credIds db;
}.

Lemma sameLife_refl db : sameLife db db.
Proof. done. Qed.
Lemma sameLife_trans a b c : sameLife a b -> sameLife b c -> sameLife a c.
Proof. intros [] []. constructor; congruence. Qed.

Definition lifeFrame {A} (m : M A) : Prop := forall w, wp m (fun _ w' => sameLife (w_db w) (w_db w')) w.

Section frame.
Context {A B : Type}.

Lemma lifeFrame_readOnly (m : M A) : readOnly m -> lifeFrame m.
Proof. intros Hm w. eapply wp_mono; [apply Hm|]. intros o w' [n ->]. apply sameLife_refl. Qed.
Lemma lifeFrame_usage (m : M A) : usageFrame m -> lifeFrame m.
Proof. intros Hm w. eapply wp_mono; [apply Hm|]. by intros o w' (n & u & ->). Qed.
Lemma lifeFrame_bind (m : M A) (k : A -> M B) :
  lifeFrame m -> (forall a, lifeFrame (k a)) -> lifeFrame (m ≫= k).
Proof.
  intros Hm Hk w. apply wp_bind. eapply wp_mono; [apply Hm|]. intros [a|e] w' Hw'; [|done].
  eapply wp_mono; [apply Hk|]. intros o w''. by apply sameLife_trans.
Qed.
Lemma lifeFrame_catch (m : M A) h :
  lifeFrame m -> (forall e, lifeFrame (h e)) -> lifeFrame (catch m h).
Proof.
  intros Hm Hk w. apply wp_catch. eapply wp_mono; [apply Hm|]. intros [a|e] w' Hw'; [done|].
  eapply wp_mono; [apply Hk|]. intros o w''. by apply sameLife_trans.
Qed.
Lemma lifeFrame_transaction (m : M A) : lifeFrame m -> lifeFrame (transaction m).
Proof.
  intros Hm w. apply wp_transaction. eapply wp_mono; [apply Hm|]. intros [a|e] w' Hw'; [done|].
  apply sameLife_refl.
Qed.
Lemma lifeFrame_ok (m : M A) (Q : Outcome A -> World -> Prop) w :
  lifeFrame m -> (forall o w', sameLife (w_db w) (w_db w') -> Q o w') -> wp m Q w.
Proof. intros Hm HQ. eapply wp_mono; [apply Hm|]. auto. Qed.
End frame.

Lemma lifeFrame_items p f : lifeFrame (updateWhere db_items p f).
Proof. intros w. by constructor. Qed.
Lemma lifeFrame_insertItem c r : lifeFrame (insertRow db_items c r).
Proof. intros w. unfold wp, insertRow. by destruct (existsb _ _). Qed.
Lemma lifeFrame_insertQueue c r : lifeFrame (insertRow db_queue c r).
Proof. intros w. unfold wp, insertRow. by destruct (existsb _ _). Qed.
Lemma lifeFrame_insertAudit c r : lifeFrame (insertRow db_audit c r).
Proof. intros w. unfold wp, insertRow. by destruct (existsb _ _). Qed.
Lemma lifeFrame_seq : lifeFrame nextChainSeq.
Proof. intros w. by constructor. Qed.
Lemma lifeFrame_credentials p f :
  (forall c, cred_id (f c) = cred_id c) -> lifeFrame (updateWhere db_credentials p f).
Proof. intros Hf w. constructor; [done|done|]. unfold credIds. cbn. by apply map_where_proj. Qed.
Lemma lifeFrame_foldM {A B} (f : B -> A -> M B) b l :
  (forall b x, lifeFrame (f b x)) -> lifeFrame (foldM f b l).
Proof.
  intros Hf. revert b. induction l as [|x l IH]; intros b; cbn; [by apply lifeFrame_readOnly, readOnly_ret|].
  apply lifeFrame_bind; auto.
Qed.
Lemma lifeFrame_forEachCollect {A B} (f : A -> M B) l :
  (forall x, lifeFrame (f x)) -> lifeFrame (forEachCollect l f).
Proof.
  intros Hf. induction l as [|x l IH]; cbn; [by apply lifeFrame_readOnly, readOnly_ret|].
  apply lifeFrame_bind; [done|]. intros b. apply lifeFrame_bind; [done|]. intros bs.
  by apply lifeFrame_readOnly, readOnly_ret.
Qed.
Lemma lifeFrame_gates `{Env} orgId eventType size : lifeFrame (assertOrgMayWriteAuditGates orgId eventType size).
Proof. apply lifeFrame_usage, gates_frame. Qed.

(** Decomposes a computation into statements on other tables. *)
Ltac life_frame :=
  repeat first
    [ apply lifeFrame_items | apply lifeFrame_insertItem | apply lifeFrame_insertQueue
    | apply lifeFrame_insertAudit | apply lifeFrame_seq | apply lifeFrame_gates
    | apply lifeFrame_credentials; intros ?; reflexivity
    | apply lifeFrame_bind; [|intros ?]
    | apply lifeFrame_catch; [|intros ?]
    | apply lifeFrame_transaction
    | apply lifeFrame_foldM; intros ? ?
    | apply lifeFrame_forEachCollect; intros ?
    | match goal with
      | |- lifeFrame (if ?b then _ else _) => destruct b
      | |- lifeFrame (match ?x with _ => _ end) => destruct x
      end
    | apply lifeFrame_readOnly; solve [auto with pv] ].

Section statements.
Context `{Platform, NodeCrypto, Unicode, OtpAuth, Locale, Env}.

Lemma enqueueSecurityAlert_frame orgId templateId payload severity :
  lifeFrame (enqueueSecurityAlertNotification orgId templateId payload severity).
Proof.
  unfold enqueueSecurityAlertNotification, createOrgAdminNotificationEntries, resolveRoutingRecipients,
    getMembersWithRole, getPreferencesBatch, processRecipientPreferences, processPreference,
    enqueueUserChannel, enqueueSlackEntry, nextDigestDeliveryTime, insertQueue. life_frame.
Qed.

Lemma dispatchRotationAlert_frame orgId candidate templateId severity payload :
  lifeFrame (dispatchRotationAlertNotifications orgId candidate templateId severity payload).
Proof.
  unfold dispatchRotationAlertNotifications, dispatchDirectUserNotification, getPreferences,
    processPreference, enqueueUserChannel, nextDigestDeliveryTime, insertQueue.
  apply lifeFrame_bind; [life_frame|intros ?]. apply lifeFrame_bind; [apply enqueueSecurityAlert_frame|].
  intros ?. life_frame.
Qed.

Lemma appendAuditRow_frame orgId a t e r rt p s u : lifeFrame (appendAuditRow orgId a t e r rt p s u).
Proof.
  unfold appendAuditRow, readAuditChainHead, currentAuditKeyVersion, getPreviousEntryHmac, insertAuditRow.
  life_frame.
Qed.

Lemma writeSystemAuditRow_frame orgId e r p : lifeFrame (writeSystemAuditRow orgId e r p).
Proof.
  unfold writeSystemAuditRow. apply lifeFrame_bind; [apply lifeFrame_gates|]. intros ?. apply appendAuditRow_frame.
Qed.

Lemma updateItems_frame p f : lifeFrame (updateItems p f).
Proof. unfold updateItems. life_frame. Qed.

Lemma insertChecklistItem_frame orgId rotationId dep : lifeFrame (insertChecklistItem orgId rotationId dep).
Proof. unfold insertChecklistItem. life_frame. Qed.

(** ** Compare-and-swap *)

(** Statement [UPDATE rotations SET f, updated_at = now()]. *)
Definition touched (now : Date) (f : RotationRow -> RotationRow) (r : RotationRow) : RotationRow :=
  (f r) <| rot_updatedAt := now |>.

Lemma updateRotations_eq p f w :
  updateRotations p f w =
    (Ok (map (touched (w_now w) f) (List.filter p (db_rotations (w_db w)))),
     w <| w_db := (w_db w) <| db_rotations :=
       map_where p (touched (w_now w) f) (db_rotations (w_db w)) |> |>).
Proof. done. Qed.

Lemma updateRotations_unique p f r w :
  NoDup (map rot_id (db_rotations (w_db w))) -> r ∈ db_rotations (w_db w) -> p r = true ->
  (forall x, p x = true -> rot_id x = rot_id r) ->
  updateRotations p f w =
    (Ok [touched (w_now w) f r],
     w <| w_db := (w_db w) <| db_rotations :=
       setRotation (rot_id r) (touched (w_now w) f) (db_rotations (w_db w)) |> |>).
Proof.
  intros Hnd Hr Hp Hid. rewrite updateRotations_eq.
  rewrite (filter_unique rot_id _ r p Hnd Hr Hp) by (intros; by apply Hid).
  assert (E : map_where p (touched (w_now w) f) (db_rotations (w_db w)) =
    setRotation (rot_id r) (touched (w_now w) f) (db_rotations (w_db w))); [|by rewrite E].
  apply map_where_ext. intros x Hx. destruct (p x) eqn:Ep; [by rewrite bool_decide_eq_true_2 by auto|].
  rewrite bool_decide_eq_false_2; [done|]. intros E.
  rewrite (NoDup_key_inj rot_id _ x r Hnd Hx Hr E) in Ep. congruence.
Qed.

Lemma updateRotations_none p f w :
  (forall x, x ∈ db_rotations (w_db w) -> p x = false) -> updateRotations p f w = (Ok [], w).
Proof.
  intros Hp. rewrite updateRotations_eq, lfilter_none, map_where_none by done.
  destruct w as [db]. by destruct db.
Qed.

(** The same statements on a world at a database. *)
Lemma newDate_at w n db : newDate (at_ w n db) = (Ok (clock n), at_ w (S n) db).
Proof. done. Qed.

Lemma updateVersions_at p f w n db :
  updateVersions p f (at_ w n db) =
    (Ok (map f (List.filter p (db_versions db))),
     at_ w n (db <| db_versions := map_where p f (db_versions db) |>)).
Proof. done. Qed.

Lemma updateRotations_at p f r w n db :
  NoDup (map rot_id (db_rotations db)) -> r ∈ db_rotations db -> p r = true ->
  (forall x, p x = true -> rot_id x = rot_id r) ->
  updateRotations p f (at_ w n db) =
    (Ok [touched (w_now w) f r],
     at_ w n (db <| db_rotations := setRotation (rot_id r) (touched (w_now w) f) (db_rotations db) |>)).
Proof. intros. by rewrite (updateRotations_unique _ _ r). Qed.

Lemma encryptValue_at value key w n db :
  w_primaryKey w = Some key ->
  encryptValue value (at_ w n db) = (encryptSync (randomIv n) value key, at_ w (S n) db).
Proof.
  intros Hk. unfold encryptValue, getPrimaryKey, randomBytes12, lift, mbind, M_bind.
  change (w_primaryKey (at_ w n db)) with (w_primaryKey w). by rewrite Hk.
Qed.
(** The row the compare-and-swap accepts. *)
Definition casMatch (rotationId : Uuid) (observedVersion : Z) (fromStatus : option RotationStatus)
    (r : RotationRow) : Prop :=
  rot_id r = rotationId /\ rot_version r = observedVersion /\
  match fromStatus with Some s => rot_status r = s | None => True end.

Definition casUpdate (now : Date) (observedVersion : Z) (f : RotationRow -> RotationRow) : RotationRow -> RotationRow :=
  touched now (fun r => (f r) <| rot_version := (observedVersion + 1)%Z |>).

Lemma casTransitionRotation_hit p v f s r w :
  NoDup (map rot_id (db_rotations (w_db w))) -> r ∈ db_rotations (w_db w) -> casMatch (rp_rotationId p) v s r ->
  casTransitionRotation p v f s w =
    (Ok (CasOk (casUpdate (w_now w) v f r)),
     w <| w_tick ::= S |> <| w_db := (w_db w) <| db_rotations :=
       setRotation (rot_id r) (casUpdate (w_now w) v f) (db_rotations (w_db w)) |> |>).
Proof.
  intros Hnd Hr (E1 & E2 & E3). unfold casTransitionRotation. unfold mbind, M_bind.
  change (newDate w) with (Ok (clock (w_tick w)), w <| w_tick ::= S |>). cbv beta iota.
  rewrite (updateRotations_unique _ _ r); [done|done|done| |].
  - rewrite !bool_decide_eq_true_2 by done. destruct s; [by rewrite bool_decide_eq_true_2|done].
  - intros x Hx. bool_simpl. congruence.
Qed.

Lemma casTransitionRotation_miss p v f s w :
  (forall r, r ∈ db_rotations (w_db w) -> ~ casMatch (rp_rotationId p) v s r) ->
  casTransitionRotation p v f s w =
    (Ok (CasConcurrentModification
       (rot_version <$> head (List.filter (inScope p) (db_rotations (w_db w))))), w <| w_tick ::= S |>).
Proof.
  intros Hno. unfold casTransitionRotation. unfold mbind, M_bind.
  change (newDate w) with (Ok (clock (w_tick w)), w <| w_tick ::= S |>). cbv beta iota.
  rewrite updateRotations_none; [done|]. intros x Hx. apply not_true_iff_false. intros Ep.
  apply (Hno x Hx). unfold casMatch. bool_simpl. split; [done|]. split; [done|]. destruct s; [by bool_simpl|done].
Qed.

Lemma casMatch_dec rotationId v s (rs : list RotationRow) :
  (exists r, r ∈ rs /\ casMatch rotationId v s r) \/ (forall r, r ∈ rs -> ~ casMatch rotationId v s r).
Proof.
  assert (Hdec : forall r, Decision (casMatch rotationId v s r)) by (intros r; unfold casMatch; destruct s; apply _).
  destruct (decide (Exists (casMatch rotationId v s) rs)) as [Hx|Hx].
  - left. by apply Exists_exists.
  - right. intros r Hr Hc. apply Hx. apply Exists_exists. eauto.
Qed.

(** ** The scoped lock *)

Definition rotationLocked (w : World) (p : RotationParams) : bool :=
  (rp_orgId p, rp_rotationId p) ∈? w_locks w.
Definition rotationInScope (db : Db) (p : RotationParams) : option RotationRow :=
  head (List.filter (inScope p) (db_rotations db)).

Lemma rotationInScope_spec db p r :
  rotationInScope db p = Some r ->
  r ∈ db_rotations db /\ rot_id r = rp_rotationId p /\ rot_credentialId r = rp_credentialId p.
Proof.
  unfold rotationInScope. intros Hr%head_elem_of. apply elem_of_lfilter in Hr as [Hp Hr].
  unfold inScope in Hp. by bool_simpl.
Qed.

Definition scopedLockResult (w : World) (p : RotationParams) : RotationScopedLockResult :=
  if rotationLocked w p then RslLockedConflict (rot_version <$> rotationInScope (w_db w) p)
  else match rotationInScope (w_db w) p with Some r => RslFound r | None => RslNotFound end.

Lemma acquireRotationScopedLockAndFind_eq p w :
  acquireRotationScopedLockAndFind p w = (Ok (scopedLockResult w p), w).
Proof.
  unfold acquireRotationScopedLockAndFind, tryAcquireRotationScopedLock, tryAcquireLock, scopedLockResult,
    rotationLocked, mbind, M_bind. cbv beta iota. rewrite negb_involutive. by destruct (_ ∈? _).
Qed.

Lemma acquireRotationScopedLockAndFind_readOnly p : readOnly (acquireRotationScopedLockAndFind p).
Proof. intros w. unfold wp. rewrite acquireRotationScopedLockAndFind_eq. apply sameDb_refl. Qed.

(** ** Versions *)

Lemma maxVersionNumber_ge rows v : v ∈ rows -> (cv_versionNumber v <= maxVersionNumber rows)%Z.
Proof.
  unfold maxVersionNumber. intros Hv. destruct rows as [|x rows]; [by apply not_elem_of_nil in Hv|]. cbn.
  apply elem_of_cons in Hv as [->|Hv].
  - clear. induction (map cv_versionNumber rows); cbn; lia.
  - induction rows as [|y rows IH]; [by apply not_elem_of_nil in Hv|]. cbn.
    apply elem_of_cons in Hv as [->|Hv]; [lia|]. specialize (IH Hv). lia.
Qed.

Definition versionsOf (db : Db) (c : Uuid) : list VersionRow :=
  List.filter (fun v => cv_credentialId v =? c) (db_versions db).

Lemma nextCredentialVersionNumber_eq c w :
  nextCredentialVersionNumber c w = (Ok (maxVersionNumber (versionsOf (w_db w) c) + 1)%Z, w).
Proof. done. Qed.

Lemma insertVersion_spec nv w :
  wp (insertVersion nv) (fun o w' =>
    match o with
    | Ok row =>
        row = versionRowOf (randomUuid (w_tick w)) (w_now w) nv /\
        Forall (fun x => versionConflict row x = false) (db_versions (w_db w)) /\
        w' = w <| w_tick ::= S |> <| w_db := (w_db w) <| db_versions := db_versions (w_db w) ++ [row] |> |>
    | Throw e => e = UniqueViolation
    end) w.
Proof.
  unfold insertVersion, wp, genRandomUuid, dbNow, insertRow, mbind, M_bind. cbv beta iota.
  destruct (existsb _ _) eqn:E; [done|]. split; [done|]. split; [|done].
  apply Forall_forall. intros x Hx. apply not_true_iff_false. intros Hc.
  assert (existsb (versionConflict (versionRowOf (randomUuid (w_tick w)) (w_now w) nv)) (db_versions (w_db w)) = true)
    by (apply existsb_exists; exists x; by rewrite <- list_elem_of_In).
  cbn in E. congruence.
Qed.

Lemma versionRowOf_fresh id now nv (vs : list VersionRow) :
  Forall (fun x => versionConflict (versionRowOf id now nv) x = false) vs ->
  (forall x, x ∈ vs -> cv_credentialId x = nv_credentialId nv -> (cv_versionNumber x < nv_versionNumber nv)%Z) ->
  freshVersion vs (versionRowOf id now nv).
Proof.
  intros Hc Hmax. split; [done|]. split; [done|]. split; [done|]. split; [|exact Hmax].
  intros (x & Ex & Hx)%elem_of_map. apply (proj1 (Forall_forall _ _) Hc) in Hx. unfold versionConflict in Hx.
  rewrite Ex, bool_decide_eq_true_2 in Hx; done.
Qed.

Lemma next_version_above db c x :
  x ∈ db_versions db -> cv_credentialId x = c -> (cv_versionNumber x < maxVersionNumber (versionsOf db c) + 1)%Z.
Proof.
  intros Hx Hc. enough (cv_versionNumber x <= maxVersionNumber (versionsOf db c))%Z by lia.
  apply maxVersionNumber_ge, elem_of_lfilter. split; [by apply bool_decide_eq_true_2|done].
Qed.

Lemma numberDesc_total a b : numberDesc a b = false -> numberDesc b a = true.
Proof. unfold numberDesc. intros. bool_simpl. apply bool_decide_eq_true_2. lia. Qed.
Lemma numberDesc_trans a b c : numberDesc a b = true -> numberDesc b c = true -> numberDesc a c = true.
Proof. unfold numberDesc. intros. bool_simpl. apply bool_decide_eq_true_2. lia. Qed.

Lemma lockCurrentNonPurgedVersion_spec c msg w :
  wp (lockCurrentNonPurgedVersion c msg) (fun o w' =>
    w' = w /\ match o with Ok v => highestUsable (db_versions (w_db w)) c v | Throw e => e = JsError msg end) w.
Proof.
  unfold lockCurrentNonPurgedVersion. eapply wp_bind_eq; [reflexivity|]. fold numberDesc.
  destruct (head _) as [v|] eqn:E; [|by apply wp_throw]. apply wp_ret. split; [done|].
  pose proof (isort_head_least numberDesc numberDesc_total numberDesc_trans _ _ v E) as _.
  pose proof (head_elem_of _ _ E) as Hv. rewrite elem_of_isort, elem_of_lfilter in Hv.
  destruct Hv as [Hp Hv]. bool_simpl. split; [done|]. split; [done|]. split; [done|].
  intros x Hx Hc [Hpu Hab].
  assert (Hin : x ∈ List.filter (fun v => (cv_credentialId v =? c) && isNull (cv_purgedAt v) && isNull (cv_abandonedAt v))
    (db_versions (w_db w))).
  { apply elem_of_lfilter. split; [|done]. by rewrite bool_decide_eq_true_2, Hpu, Hab. }
  destruct (isort_head_least numberDesc numberDesc_total numberDesc_trans _ _ x E Hin) as [Hle|<-]; [|lia].
  unfold numberDesc in Hle. by bool_simpl.
Qed.
End statements.
#[export] Hint Resolve acquireRotationScopedLockAndFind_readOnly : pv.
