(* ===== verification/RotationSpec.v ===== *)
(** * What the rotation transitions do

    For each transition of the rotation service, its result and the next
    database as a function of the database it finds: every failure of the
    source in its order, each leaving the database unchanged, and the rows a
    success writes. *)

From S2P Require Import Prelude Js Crypto FieldSet Store Tx QuotaGate AuditLog Notifications Credentials Rotation Transitions Workers Lifecycle Effects.
From Stdlib Require Import Ascii String.
From stdpp Require Import strings.

Local Open Scope string_scope.
Local Open Scope list_scope.
Local Open Scope pv_scope.

(** The checklist of a rotation, ordered. *)
Definition checklistOf (db : Db) (rotationId : Uuid) : list ChecklistItemRow :=
  isort itemOrder (List.filter (fun i => item_rotationId i =? rotationId) (db_items db)).

(** The database after a rotation row and version rows were written. *)
Definition writes (w : World) (ticks : nat) (rs : list RotationRow) (vs : list VersionRow) : World :=
  w <| w_tick ::= Nat.add ticks |> <| w_db := (w_db w) <| db_rotations := rs |> <| db_versions := vs |> |>.

Section specs.
Context `{Platform, NodeCrypto, Unicode, OtpAuth, Locale, Env}.

(** ** Promote and retire *)

(** What stops a promotion or a retirement before its first write. *)
Definition transitionFailure (w : World) (p : RotationParams) (body : AckBody) (expected : RotationStatus)
    : TransitionFailure + ReadyToTransition :=
  match scopedLockResult w p with
  | RslLockedConflict v => inl (TfLockedConflict v)
  | RslNotFound => inl TfRotationNotFound
  | RslFound r =>
      if rot_status r =? expected then
        match evaluateChecklistAcknowledgement (checklistOf (w_db w) (rp_rotationId p)) body with
        | AckRequired pending total => inl (TfAcknowledgementRequired pending total)
        | AckOk acknowledged count =>
            inr (MkReadyToTransition r (checklistOf (w_db w) (rp_rotationId p)) acknowledged count)
        end
      else inl (TfWrongStatus (rot_status r))
  end.

Lemma acquireLoadAndAcknowledgeRotation_eq p body expected w :
  acquireLoadAndAcknowledgeRotation p body expected w = (Ok (transitionFailure w p body expected), w).
Proof.
  unfold acquireLoadAndAcknowledgeRotation, acquireAndLoadRotationExpecting, transitionFailure.
  unfold mbind, M_bind. rewrite acquireRotationScopedLockAndFind_eq.
  destruct (scopedLockResult w p) as [v| |r]; [done|done|]. cbv beta iota.
  destruct (rot_status r =? expected); [|done]. cbn [negb].
  unfold loadChecklistItems, selectOrdered. fold (checklistOf (w_db w) (rp_rotationId p)). unfold mret, M_ret.
  by destruct (evaluateChecklistAcknowledgement _ _).
Qed.

Lemma transitionFailure_ready w p body expected ready :
  transitionFailure w p body expected = inr ready ->
  rotationInScope (w_db w) p = Some (ready_rotation ready) /\ rot_status (ready_rotation ready) = expected.
Proof.
  unfold transitionFailure, scopedLockResult. destruct (rotationLocked w p); [done|].
  destruct (rotationInScope (w_db w) p) as [r|]; [|done]. case_bool_decide as Es; [|done].
  destruct (evaluateChecklistAcknowledgement _ _); [done|]. by intros [= <-].
Qed.

(** The rotation row after a transition to [status], the date column set by [f]. *)
Definition transitioned (w : World) (r : RotationRow) (f : RotationRow -> RotationRow) : RotationRow -> RotationRow :=
  casUpdate (w_now w) (rot_version r) f.

Definition promoteRow (w : World) (r : RotationRow) : RotationRow -> RotationRow :=
  transitioned w r (fun r => r <| rot_status := promoted |> <| rot_promotedAt := Some (clock (w_tick w)) |>).

Lemma promoteRotation_eq p body w :
  NoDup (map rot_id (db_rotations (w_db w))) ->
  promoteRotation p body w =
    match transitionFailure w p body staged with
    | inl f => (Ok (PromoteFailure f), w)
    | inr ready =>
        let r := ready_rotation ready in
        (Ok (Promoted (promoteRow w r r) (ready_items ready) (ready_checklistAcknowledged ready)
               (ready_pendingCount ready)),
         writes w 3 (setRotation (rot_id r) (promoteRow w r) (db_rotations (w_db w)))
           (setVersion (rot_newVersionId r)
              (fun v => v <| cv_promotedAt := Some (clock (2 + w_tick w)) |>) (db_versions (w_db w))))
    end.
Proof.
  intros Hnd. unfold promoteRotation. unfold mbind at 1, M_bind at 1.
  rewrite acquireLoadAndAcknowledgeRotation_eq.
  destruct (transitionFailure w p body staged) as [f|ready] eqn:E; [done|].
  apply transitionFailure_ready in E as [Hr%rotationInScope_spec Hst]. destruct Hr as (Hin & Hid & _).
  unfold mbind at 1, M_bind at 1. unfold newDate at 1. cbv beta iota.
  unfold mbind at 1, M_bind at 1. erewrite casTransitionRotation_hit; [|exact Hnd|exact Hin|by split].
  done.
Qed.

Definition retireRow (w : World) (r : RotationRow) : RotationRow -> RotationRow :=
  transitioned w r (fun r => r <| rot_status := retired |> <| rot_retiredAt := Some (clock (w_tick w)) |>).

(** The previous version loses its value, its key version and its lock. *)
Definition destroy (d : Date) (v : VersionRow) : VersionRow :=
  if isNull (cv_purgedAt v)
  then v <| cv_encryptedValue := None |> <| cv_keyVersion := None |> <| cv_purgedAt := Some d |>
         <| cv_rotationLockedAt := None |>
  else v.

Lemma zero_then_destroy i d (vs : list VersionRow) :
  map_where (fun v => (cv_id v =? i) && isNull (cv_purgedAt v))
    (fun v => v <| cv_encryptedValue := None |> <| cv_keyVersion := None |> <| cv_purgedAt := Some d |>
                <| cv_rotationLockedAt := None |>)
    (map_where (fun v => (cv_id v =? i) && isNull (cv_purgedAt v))
       (fun v => v <| cv_encryptedValue := Some zeroedValue |>) vs)
  = setVersion i (destroy d) vs.
Proof.
  unfold setVersion, map_where. rewrite map_map. apply map_ext. intros v. unfold destroy.
  destruct (cv_id v =? i) eqn:Ei; cbn [andb].
  - destruct (isNull (cv_purgedAt v)) eqn:Ep; cbn; rewrite Ei, Ep; done.
  - by rewrite Ei.
Qed.

Lemma retireRotation_eq p body w :
  NoDup (map rot_id (db_rotations (w_db w))) ->
  retireRotation p body w =
    match transitionFailure w p body promoted with
    | inl f => (Ok (RetireFailure f), w)
    | inr ready =>
        let r := ready_rotation ready in
        (Ok (Retired (retireRow w r r) (ready_items ready) (ready_checklistAcknowledged ready)
               (ready_pendingCount ready)),
         writes w 3 (setRotation (rot_id r) (retireRow w r) (db_rotations (w_db w)))
           (setVersion (rot_previousVersionId r) (destroy (clock (2 + w_tick w))) (db_versions (w_db w))))
    end.
Proof.
  intros Hnd. unfold retireRotation. unfold mbind at 1, M_bind at 1.
  rewrite acquireLoadAndAcknowledgeRotation_eq.
  destruct (transitionFailure w p body promoted) as [f|ready] eqn:E; [done|].
  apply transitionFailure_ready in E as [Hr%rotationInScope_spec Hst]. destruct Hr as (Hin & Hid & _).
  unfold mbind at 1, M_bind at 1. unfold newDate at 1. cbv beta iota.
  unfold mbind at 1, M_bind at 1. erewrite casTransitionRotation_hit; [|exact Hnd|exact Hin|by split].
  cbv beta iota zeta. unfold writes. rewrite <- zero_then_destroy. done.
Qed.

(** ** Complete, resume, abandon *)

Lemma acquireAndLoadRotation_eq p allowed w :
  acquireAndLoadRotation p allowed w =
    (Ok (match scopedLockResult w p with
         | RslLockedConflict v => LockLockedConflict v
         | RslNotFound => LockNotFound
         | RslFound r => if negb (rot_status r ∈? allowed) then LockNotActive r else LockOk r
         end), w).
Proof. unfold acquireAndLoadRotation, mbind, M_bind. by rewrite acquireRotationScopedLockAndFind_eq. Qed.

Lemma acquireAndLoadStaleRotation_eq p w :
  acquireAndLoadStaleRotation p w =
    (Ok (match scopedLockResult w p with
         | RslLockedConflict v => inl (SfLockedConflict v)
         | RslNotFound => inl SfRotationNotFound
         | RslFound r => if negb (rot_status r =? stale_recovery)
                         then inl (SfRotationNotStale (rot_status r)) else inr r
         end), w).
Proof. unfold acquireAndLoadStaleRotation, mbind, M_bind. by rewrite acquireRotationScopedLockAndFind_eq. Qed.

Lemma acquireAndLoadAbandonableRotation_eq p w :
  acquireAndLoadAbandonableRotation p w =
    (Ok (match scopedLockResult w p with
         | RslLockedConflict v => inl (SfLockedConflict v)
         | RslNotFound => inl SfRotationNotFound
         | RslFound r =>
             if rot_status r =? promoted then inl SfNotAbandonableAfterPromotion
             else if negb (rot_status r =? stale_recovery) && negb (rot_status r =? staged)
             then inl (SfRotationNotStale (rot_status r)) else inr r
         end), w).
Proof. unfold acquireAndLoadAbandonableRotation, mbind, M_bind. by rewrite acquireRotationScopedLockAndFind_eq. Qed.

Definition completeRow (w : World) (r : RotationRow) : RotationRow -> RotationRow :=
  transitioned w r (fun r => r <| rot_status := completed |> <| rot_completedAt := Some (clock (w_tick w)) |>).

Lemma completeRotation_eq p ack w :
  NoDup (map rot_id (db_rotations (w_db w))) ->
  completeRotation p ack w =
    match scopedLockResult w p with
    | RslLockedConflict v => (Ok (CompleteFailure (FailLockedConflict v)), w)
    | RslNotFound => (Ok (CompleteFailure FailRotationNotFound), w)
    | RslFound r =>
        if negb (rot_status r ∈? [in_progress]) then
          (Ok (if rot_status r ∈? LEGACY_COMPLETE_BLOCKED_STATUSES then CompleteWrongState (rot_status r)
               else CompleteFailure (FailRotationNotActive (rot_status r))), w)
        else
          let items := checklistOf (w_db w) (rp_rotationId p) in
          let pending := List.filter (fun i => negb (item_status i =? confirmed)) items in
          if bool_decide (0 < length pending)
          then (Ok (CompleteChecklistIncomplete (map pendingOf pending) (length items)), w)
          else if (length items =? 0) && negb (ack =? Some true)
          then (Ok CompleteAcknowledgementRequired, w)
          else
            (Ok (Completed (completeRow w r r) items (computeSingleActorAttested items (rot_initiatedBy r))),
             writes w 2 (setRotation (rot_id r) (completeRow w r) (db_rotations (w_db w)))
               (setVersion (rot_previousVersionId r) (fun v => v <| cv_rotationLockedAt := None |>)
                  (db_versions (w_db w))))
    end.
Proof.
  intros Hnd. unfold completeRotation. unfold mbind at 1, M_bind at 1. rewrite acquireAndLoadRotation_eq.
  destruct (scopedLockResult w p) as [v| |r] eqn:E; [done|done|]. cbv beta iota.
  assert (Hr : rotationInScope (w_db w) p = Some r).
  { unfold scopedLockResult in E. destruct (rotationLocked w p); [done|]. by destruct (rotationInScope _ _); simplify_eq. }
  apply rotationInScope_spec in Hr as (Hin & Hid & _).
  destruct (rot_status r ∈? [in_progress]) eqn:Es; cbn [negb].
  2:{ by destruct (_ ∈? LEGACY_COMPLETE_BLOCKED_STATUSES). }
  unfold mbind at 1, M_bind at 1. unfold loadChecklistItems at 1, selectOrdered at 1. cbv beta iota.
  fold (checklistOf (w_db w) (rp_rotationId p)). cbv zeta.
  destruct (bool_decide (0 < length _)); [done|]. destruct (_ && negb _); [done|].
  unfold mbind at 1, M_bind at 1. unfold newDate at 1. cbv beta iota.
  unfold mbind at 1, M_bind at 1. erewrite casTransitionRotation_hit; [|exact Hnd|exact Hin|by split].
  done.
Qed.

(** What stops a resume and an abandon. *)
Definition staleFailure (w : World) (p : RotationParams) : StaleFailure + RotationRow :=
  match scopedLockResult w p with
  | RslLockedConflict v => inl (SfLockedConflict v)
  | RslNotFound => inl SfRotationNotFound
  | RslFound r => if rot_status r =? stale_recovery then inr r else inl (SfRotationNotStale (rot_status r))
  end.

Definition abandonFailure (w : World) (p : RotationParams) : StaleFailure + RotationRow :=
  match scopedLockResult w p with
  | RslLockedConflict v => inl (SfLockedConflict v)
  | RslNotFound => inl SfRotationNotFound
  | RslFound r =>
      match rot_status r with
      | promoted => inl SfNotAbandonableAfterPromotion
      | stale_recovery | staged => inr r
      | s => inl (SfRotationNotStale s)
      end
  end.

Lemma scopedLockResult_found w p r :
  scopedLockResult w p = RslFound r ->
  r ∈ db_rotations (w_db w) /\ rot_id r = rp_rotationId p /\ rot_credentialId r = rp_credentialId p.
Proof.
  unfold scopedLockResult. destruct (rotationLocked w p); [done|].
  destruct (rotationInScope (w_db w) p) as [x|] eqn:E; [|done]. intros [= <-]. by apply rotationInScope_spec.
Qed.

Definition resumeRow (w : World) (r : RotationRow) : RotationRow -> RotationRow :=
  transitioned w r (fun r => r <| rot_status := in_progress |>).

Lemma resumeRotation_eq p w :
  NoDup (map rot_id (db_rotations (w_db w))) ->
  resumeRotation p w =
    match staleFailure w p with
    | inl f => (Ok (ResumeFailure f), w)
    | inr r =>
        (Ok (Resumed (resumeRow w r r) (checklistOf (w_db w) (rp_rotationId p))),
         writes w 1 (setRotation (rot_id r) (resumeRow w r) (db_rotations (w_db w))) (db_versions (w_db w)))
    end.
Proof.
  intros Hnd. unfold resumeRotation, staleFailure. unfold mbind at 1, M_bind at 1.
  rewrite acquireAndLoadStaleRotation_eq.
  destruct (scopedLockResult w p) as [v| |r] eqn:E; [done|done|]. apply scopedLockResult_found in E as (Hin & Hid & _).
  cbv beta iota. case_bool_decide as Es; [|done]. cbn [negb].
  unfold mbind at 1, M_bind at 1. erewrite casTransitionRotation_hit; [|exact Hnd|exact Hin|by split].
  unfold writes. destruct w as [db]. by destruct db.
Qed.

Definition abandonRow (w : World) (r : RotationRow) : RotationRow -> RotationRow :=
  transitioned w r (fun r => r <| rot_status := abandoned |>).

Lemma abandonRotation_eq p w :
  NoDup (map rot_id (db_rotations (w_db w))) ->
  abandonRotation p w =
    match abandonFailure w p with
    | inl f => (Ok (AbandonFailure f), w)
    | inr r =>
        (Ok (Abandoned (abandonRow w r r) (checklistOf (w_db w) (rp_rotationId p))),
         writes w 2 (setRotation (rot_id r) (abandonRow w r) (db_rotations (w_db w)))
           (setVersion (rot_previousVersionId r) (fun v => v <| cv_rotationLockedAt := None |>)
              (setVersion (rot_newVersionId r)
                 (fun v => v <| cv_abandonedAt := Some (clock (1 + w_tick w)) |>) (db_versions (w_db w)))))
    end.
Proof.
  intros Hnd. unfold abandonRotation, abandonFailure. unfold mbind at 1, M_bind at 1.
  rewrite acquireAndLoadAbandonableRotation_eq.
  destruct (scopedLockResult w p) as [v| |r] eqn:E; [done|done|]. apply scopedLockResult_found in E as (Hin & Hid & _).
  cbv beta iota.
  assert (Eif : (if rot_status r =? promoted then inl SfNotAbandonableAfterPromotion
      else if negb (rot_status r =? stale_recovery) && negb (rot_status r =? staged)
      then inl (SfRotationNotStale (rot_status r)) else inr r) =
    match rot_status r with
    | promoted => inl SfNotAbandonableAfterPromotion
    | stale_recovery | staged => inr r
    | s => inl (SfRotationNotStale s)
    end) by (by destruct (rot_status r)).
  rewrite Eif. clear Eif. destruct (rot_status r) eqn:Es; cbv beta iota; try done.
  all: unfold mbind at 1, M_bind at 1.
  all: erewrite casTransitionRotation_hit; [|exact Hnd|exact Hin|split; [done|split; [done|by rewrite ?Es]]].
  all: done.
Qed.
End specs.
