(* ===== verification/Refinement.v ===== *)
(** * Refinement: the services and workers only make life-cycle steps

    Every operation on rotations and versions, run in its transaction on a
    database that satisfies the invariant, moves the rotations and versions by
    steps of [Lifecycle.Step], so it keeps the invariant; and so does every
    sequence of operations, with any clock, any locks held by others and any
    results drawn by the database in between. *)

From S2P Require Import Prelude Js Crypto FieldSet Store Tx QuotaGate AuditLog Notifications Credentials Rotation Transitions Workers Lifecycle Effects RotationSpec.
From Stdlib Require Import Ascii String Relations.
From stdpp Require Import strings sets.

Local Open Scope string_scope.
Local Open Scope list_scope.
Local Open Scope pv_scope.

(** ** The invariant of the database *)

(** The life cycle, and the foreign key [credential_versions.credential_id]. *)
Record DbInv (db : Db) : Prop := {
  di_life : Inv (lstate db);
  di_credential : forall v, v ∈ db_versions db -> cv_credentialId v ∈ credIds db;
}.

Record Evolves (db db' : Db) : Prop := {
  ev_steps : Steps (lstate db) (lstate db');
  ev_credentials : forall c, c ∈ credIds db -> c ∈ credIds db';
  ev_versions : forall v', v' ∈ db_versions db' ->
    (exists v, v ∈ db_versions db /\ cv_credentialId v = cv_credentialId v') \/ cv_credentialId v' ∈ credIds db';
}.

Lemma Evolves_refl db : Evolves db db.
Proof. constructor; [apply rt_refl|done|]. intros v Hv. left. by exists v. Qed.

Lemma Evolves_trans a b c : Evolves a b -> Evolves b c -> Evolves a c.
Proof.
  intros [S1 C1 V1] [S2 C2 V2]. constructor; [by eapply rt_trans|auto|].
  intros v [(x & Hx & <-)|?]%V2; [|by right]. destruct (V1 x Hx) as [?|?]; [by left|right; auto].
Qed.

Lemma Evolves_DbInv db db' : Evolves db db' -> DbInv db -> DbInv db'.
Proof.
  intros [HS HC HV] [HI HF]. constructor; [by eapply Steps_Inv|].
  intros v [(x & Hx & <-)|?]%HV; auto.
Qed.

Lemma sameLife_Evolves db db' : sameLife db db' -> Evolves db db'.
Proof.
  intros [Hr Hv Hc]. constructor; unfold lstate; rewrite ?Hr, ?Hv, ?Hc; [apply rt_refl|done|].
  intros v Hin. left. by exists v.
Qed.

(** A step that maps the versions and leaves the credentials. *)
Lemma Evolves_map db db' g :
  Step (lstate db) (lstate db') -> keepsVersion g -> db_versions db' = map g (db_versions db) ->
  credIds db' = credIds db -> Evolves db db'.
Proof.
  intros HS Hg Hv Hc. constructor; [by apply rt_step|by rewrite Hc|]. rewrite Hv.
  intros v' (v & -> & Hin)%elem_of_map. left. exists v. split; [done|]. symmetry. apply Hg.
Qed.

(** A step that adds a version of a known credential. *)
Lemma Evolves_add db db' g row :
  Step (lstate db) (lstate db') -> keepsVersion g -> db_versions db' = map g (db_versions db ++ [row]) ->
  (forall c, c ∈ credIds db -> c ∈ credIds db') -> cv_credentialId row ∈ credIds db' -> Evolves db db'.
Proof.
  intros HS Hg Hv Hc Hrow. constructor; [by apply rt_step|done|]. rewrite Hv.
  intros v' (v & -> & [Hin|Hin%list_elem_of_singleton]%elem_of_app)%elem_of_map;
    destruct (Hg v) as (_ & E & _); rewrite E.
  - left. by exists v.
  - right. by subst.
Qed.

(** ** Computations *)

(** [refines]: on success; [refinesAll]: also when an exception is thrown. *)
Definition refines {A} (m : M A) : Prop := forall w, DbInv (w_db w) ->
  wp m (fun o w' => match o with Ok _ => Evolves (w_db w) (w_db w') | Throw _ => True end) w.
Definition refinesAll {A} (m : M A) : Prop := forall w, DbInv (w_db w) ->
  wp m (fun _ w' => Evolves (w_db w) (w_db w')) w.

Section rules.
Context {A B : Type}.

Lemma refinesAll_frame (m : M A) : lifeFrame m -> refinesAll m.
Proof. intros Hm w _. eapply wp_mono; [apply Hm|]. intros o w'. apply sameLife_Evolves. Qed.

Lemma refinesAll_refines (m : M A) : refinesAll m -> refines m.
Proof. intros Hm w HI. eapply wp_mono; [by apply Hm|]. by intros [a|e] w'. Qed.

Lemma refines_transaction (m : M A) : refines m -> refinesAll (transaction m).
Proof.
  intros Hm w HI. apply wp_transaction. eapply wp_mono; [by apply Hm|]. intros [a|e] w' He; [done|].
  apply Evolves_refl.
Qed.

Lemma refinesAll_bind (m : M A) (k : A -> M B) :
  refinesAll m -> (forall a, refinesAll (k a)) -> refinesAll (m ≫= k).
Proof.
  intros Hm Hk w HI. apply wp_bind. eapply wp_mono; [by apply Hm|]. intros [a|e] w' He; [|done].
  eapply wp_mono; [apply Hk; by eapply Evolves_DbInv|]. intros o w''. by apply Evolves_trans.
Qed.

Lemma refinesAll_catch (m : M A) h :
  refinesAll m -> (forall e, refinesAll (h e)) -> refinesAll (catch m h).
Proof.
  intros Hm Hk w HI. apply wp_catch. eapply wp_mono; [by apply Hm|]. intros [a|e] w' He; [done|].
  eapply wp_mono; [apply Hk; by eapply Evolves_DbInv|]. intros o w''. by apply Evolves_trans.
Qed.

Lemma refines_bind (m : M A) (k : A -> M B) :
  refines m -> (forall a, refines (k a)) -> refines (m ≫= k).
Proof.
  intros Hm Hk w HI. apply wp_bind. eapply wp_mono; [by apply Hm|]. intros [a|e] w' He; [|done].
  eapply wp_mono; [apply Hk; by eapply Evolves_DbInv|]. intros [b|e] w''; [|done]. by apply Evolves_trans.
Qed.

Lemma refines_frame (m : M A) : lifeFrame m -> refines m.
Proof. intros Hm. by apply refinesAll_refines, refinesAll_frame. Qed.

(** After a step, only statements on other tables. *)
Lemma wp_after_step (m : M A) db w :
  lifeFrame m -> Evolves db (w_db w) ->
  wp m (fun o w' => match o with Ok _ => Evolves db (w_db w') | Throw _ => True end) w.
Proof.
  intros Hm He. apply lifeFrame_ok; [done|]. intros [a|e] w' Hs; [|done].
  eapply Evolves_trans; [exact He|by apply sameLife_Evolves].
Qed.
End rules.

Lemma refinesAll_forEachCollect {A B} (f : A -> M B) l :
  (forall x, refinesAll (f x)) -> refinesAll (forEachCollect l f).
Proof.
  intros Hf. induction l as [|x l IH]; cbn; [apply refinesAll_frame; life_frame|].
  apply refinesAll_bind; [done|]. intros b. apply refinesAll_bind; [done|]. intros bs.
  apply refinesAll_frame. life_frame.
Qed.
Lemma refines_forEachCollect {A B} (f : A -> M B) l :
  (forall x, refines (f x)) -> refines (forEachCollect l f).
Proof.
  intros Hf. induction l as [|x l IH]; cbn; [apply refines_frame; life_frame|].
  apply refines_bind; [done|]. intros b. apply refines_bind; [done|]. intros bs.
  apply refines_frame. life_frame.
Qed.
Lemma refinesAll_forEachSequential {A} (f : A -> M unit) l :
  (forall x, refinesAll (f x)) -> refinesAll (forEachSequential l f).
Proof.
  intros Hf. induction l as [|x l IH]; cbn; [apply refinesAll_frame; life_frame|].
  by apply refinesAll_bind.
Qed.

(** ** The rotation service *)

Section service.
Context `{Platform, NodeCrypto, Unicode, OtpAuth, Locale, Env}.

(** A write that [Step_touch] allows. *)
Definition touchable (r r' : RotationRow) : Prop :=
  (rot_status r' = rot_status r \/ (edge (rot_status r) (rot_status r') /\ abandonable r' = true)) /\
  (rot_version r <= rot_version r')%Z.

Lemma keepsRotation_touched now f : keepsRotation f -> keepsRotation (touched now f).
Proof. intros Hf r. apply Hf. Qed.

Lemma DbInv_rotation_ids db : DbInv db -> NoDup (map rot_id (db_rotations db)).
Proof. intros [HI _]. apply (inv_rotation_ids _ HI). Qed.
Hint Resolve DbInv_rotation_ids : pv.

Lemma Evolves_touch w ticks r f :
  DbInv (w_db w) -> r ∈ db_rotations (w_db w) -> keepsRotation f -> touchable r (f r) ->
  Evolves (w_db w) (w_db (writes w ticks (setRotation (rot_id r) f (db_rotations (w_db w))) (db_versions (w_db w)))).
Proof.
  intros HI Hr Hf [Hst Hv]. apply (Evolves_map _ _ (fun v => v)).
  - unfold lstate. cbn. by apply Step_touch.
  - intros v. done.
  - cbn. by rewrite List.map_id.
  - done.
Qed.

Lemma refines_updateRotations id p f :
  (forall x, p x = true -> rot_id x = id) -> keepsRotation f ->
  (forall r now, p r = true -> touchable r (touched now f r)) -> refinesAll (updateRotations p f).
Proof.
  intros Hid Hf Ht w HI. unfold wp. pose proof (DbInv_rotation_ids _ HI) as Hnd.
  destruct (decide (Exists (fun r => p r = true) (db_rotations (w_db w)))) as [Hx|Hx].
  - apply Exists_exists in Hx as (r & Hr & Hp).
    rewrite (updateRotations_unique p f r w Hnd Hr Hp) by (intros x Hx; by rewrite (Hid x Hx), (Hid r Hp)).
    change (Evolves (w_db w) (w_db (writes w 0 (setRotation (rot_id r) (touched (w_now w) f) (db_rotations (w_db w)))
      (db_versions (w_db w))))).
    apply Evolves_touch; [done|done|by apply keepsRotation_touched|auto].
  - rewrite updateRotations_none; [apply Evolves_refl|]. intros x Hin. apply not_true_iff_false. intros Hp.
    apply Hx, Exists_exists. eauto.
Qed.

Lemma touchable_version r v now f :
  rot_version r = v -> rot_status (f r) = rot_status r ->
  touchable r (touched now (fun r => (f r) <| rot_version := (v + 1)%Z |>) r).
Proof. intros Ev Es. split; [by left|]. cbn. lia. Qed.

Lemma refines_reserve p itemId v from setFields label :
  refinesAll (reserveVersionAndUpdateItem p itemId v from setFields label).
Proof.
  unfold reserveVersionAndUpdateItem. apply refinesAll_bind.
  - unfold reserveRotationVersion, casIncrementRotationVersion. apply refinesAll_bind; [|intros ?].
    + apply refinesAll_bind; [apply refinesAll_frame; life_frame|intros ?].
      apply refinesAll_bind; [|intros ?; apply refinesAll_frame; life_frame].
      apply (refines_updateRotations (rp_rotationId p)).
      * intros x Hx. by bool_simpl.
      * intros r. done.
      * intros r now Hp. bool_simpl. by apply (touchable_version r v now (fun r => r)).
    + apply refinesAll_frame. unfold findRotationInScope. life_frame.
  - intros [newVersion|cv]; apply refinesAll_frame; [|life_frame].
    apply lifeFrame_bind; [apply updateItems_frame|intros ?]. unfold assertUpdatedRow. life_frame.
Qed.

Lemma acquireLockAndItem_frame p itemId : lifeFrame (acquireLockAndItem p itemId).
Proof.
  unfold acquireLockAndItem, acquireAndLoadRotation, findChecklistItemInScope. life_frame.
Qed.

Lemma refines_confirm p itemId userId notes : refinesAll (confirmChecklistItem p itemId userId notes).
Proof.
  unfold confirmChecklistItem. apply refinesAll_bind; [apply refinesAll_frame, acquireLockAndItem_frame|].
  intros [f|[r i]]; [apply refinesAll_frame; life_frame|].
  destruct (_ =? _); [apply refinesAll_frame; life_frame|].
  apply refinesAll_bind; [apply refinesAll_frame; life_frame|intros ?].
  apply refinesAll_bind; [apply refines_reserve|intros ?; apply refinesAll_frame; life_frame].
Qed.

Lemma refines_fail p itemId userId reason scheduled :
  refinesAll (failChecklistItem p itemId userId reason scheduled).
Proof.
  unfold failChecklistItem. apply refinesAll_bind; [apply refinesAll_frame, acquireLockAndItem_frame|].
  intros [f|[r i]]; [apply refinesAll_frame; life_frame|].
  destruct (negb _); [apply refinesAll_frame; life_frame|].
  apply refinesAll_bind; [apply refinesAll_frame; life_frame|intros ?].
  apply refinesAll_bind; [apply refines_reserve|intros [[item v]|v]; apply refinesAll_frame; [|life_frame]].
  apply lifeFrame_bind; [apply enqueueSecurityAlert_frame|intros ?; life_frame].
Qed.

Lemma refines_retry p itemId userId : refinesAll (retryChecklistItem p itemId userId).
Proof.
  unfold retryChecklistItem. apply refinesAll_bind; [apply refinesAll_frame, acquireLockAndItem_frame|].
  intros [f|[r i]]; [apply refinesAll_frame; life_frame|].
  destruct (negb _); [apply refinesAll_frame; life_frame|]. cbv zeta.
  destruct (_ <=? _); unfold applyMaxRetriesExceeded, applyRetry.
  - apply refinesAll_bind; [apply refinesAll_frame; life_frame|intros ?].
    apply refinesAll_bind; [apply refines_reserve|intros [[item v]|v]; apply refinesAll_frame; [|life_frame]].
    apply lifeFrame_bind; [apply enqueueSecurityAlert_frame|intros ?; life_frame].
  - apply refinesAll_bind; [apply refinesAll_frame; life_frame|intros ?].
    apply refinesAll_bind; [apply refines_reserve|intros ?; apply refinesAll_frame; life_frame].
Qed.

Lemma refines_promote p body : refinesAll (promoteRotation p body).
Proof.
  intros w HI. unfold wp. rewrite promoteRotation_eq by auto with pv.
  destruct (transitionFailure w p body staged) as [f|ready] eqn:E; [apply Evolves_refl|].
  apply transitionFailure_ready in E as [(Hr & _)%rotationInScope_spec Hst]. cbv zeta.
  set (r := ready_rotation ready) in *.
  eapply (Evolves_map _ _ (onId cv_id (rot_newVersionId r)
    (fun v => v <| cv_promotedAt := Some (clock (2 + w_tick w)) |>))); [|apply keepsVersion_onId; keeps_version|done|done].
  unfold lstate. cbn. apply Step_promote; [done|done|intros ?; done|done|cbn; lia].
Qed.

Lemma Linked_unpurged db r :
  DbInv db -> r ∈ db_rotations db -> isActive r = true ->
  forall v, v ∈ db_versions db -> cv_id v = rot_previousVersionId r -> cv_purgedAt v = None.
Proof.
  intros [HI _] Hr Ha v Hv Hid. destruct (inv_linked _ HI r Hr Ha) as (p & n & Hl). cbn in Hl.
  pose proof (inv_version_ids _ HI) as Hnd. cbn in Hnd.
  assert (v = p) as ->; [|apply Hl]. apply (NoDup_key_inj cv_id _ v p Hnd Hv (lk_prev _ _ _ _ Hl)).
  by rewrite (lk_prev_id _ _ _ _ Hl).
Qed.

Lemma refines_retire p body : refinesAll (retireRotation p body).
Proof.
  intros w HI. unfold wp. rewrite retireRotation_eq by auto with pv.
  destruct (transitionFailure w p body promoted) as [f|ready] eqn:E; [apply Evolves_refl|].
  apply transitionFailure_ready in E as [(Hr & _)%rotationInScope_spec Hst]. cbv zeta.
  set (r := ready_rotation ready) in *. set (d := clock _).
  assert (Hact : isActive r = true) by (unfold isActive; by rewrite Hst).
  assert (Ev : setVersion (rot_previousVersionId r) (destroy d) (db_versions (w_db w)) =
    setVersion (rot_previousVersionId r) (fun v => (purge d v) <| cv_rotationLockedAt := None |>) (db_versions (w_db w))).
  { apply map_ext_in. intros v Hv%list_elem_of_In. case_bool_decide as Ei; [|done].
    unfold destroy. by rewrite (Linked_unpurged _ r HI Hr Hact v Hv Ei). }
  rewrite Ev.
  eapply (Evolves_map _ _ (onId cv_id (rot_previousVersionId r)
    (fun v => (purge d v) <| cv_rotationLockedAt := None |>))); [|apply keepsVersion_onId; keeps_version|done|done].
  unfold lstate. cbn. apply Step_retire; [done|done|intros ?; done|done|cbn; lia].
Qed.

Lemma refines_complete p ack : refinesAll (completeRotation p ack).
Proof.
  intros w HI. unfold wp. rewrite completeRotation_eq by auto with pv.
  destruct (scopedLockResult w p) as [v| |r] eqn:E; [apply Evolves_refl|apply Evolves_refl|].
  apply scopedLockResult_found in E as (Hr & _).
  destruct (rot_status r ∈? [in_progress]) eqn:Es; cbn [negb]; [|apply Evolves_refl].
  bool_simpl. apply list_elem_of_singleton in Es. cbv zeta.
  destruct (bool_decide _); [apply Evolves_refl|]. destruct (_ && _); [apply Evolves_refl|].
  eapply (Evolves_map _ _ (onId cv_id (rot_previousVersionId r)
    (fun v => v <| cv_rotationLockedAt := None |>))); [|apply keepsVersion_onId; keeps_version|done|done].
  unfold lstate. cbn. apply Step_complete; [done|done|intros ?; done|done|cbn; lia].
Qed.

Lemma refines_resume p : refinesAll (resumeRotation p).
Proof.
  intros w HI. unfold wp. rewrite resumeRotation_eq by auto with pv. unfold staleFailure.
  destruct (scopedLockResult w p) as [v| |r] eqn:E; [apply Evolves_refl|apply Evolves_refl|].
  apply scopedLockResult_found in E as (Hr & _). case_bool_decide as Es; [|apply Evolves_refl].
  apply Evolves_touch; [done|done|intros ?; done|]. split; [|cbn; lia].
  right. cbn. rewrite Es. split; [constructor|done].
Qed.

Lemma refines_abandon p : refinesAll (abandonRotation p).
Proof.
  intros w HI. unfold wp. rewrite abandonRotation_eq by auto with pv. unfold abandonFailure.
  destruct (scopedLockResult w p) as [v| |r] eqn:E; [apply Evolves_refl|apply Evolves_refl|].
  apply scopedLockResult_found in E as (Hr & _).
  assert (Hab : forall x, rot_status r = x -> x ∈ [stale_recovery; staged] -> abandonable r = true).
  { intros x Ex Hx. unfold abandonable. rewrite Ex.
    repeat (apply elem_of_cons in Hx as [->|Hx]; [done|]). by apply not_elem_of_nil in Hx. }
  destruct (rot_status r) eqn:Es; try apply Evolves_refl.
  all: eapply (Evolves_map _ _ (fun v => onId cv_id (rot_previousVersionId r)
    (fun v => v <| cv_rotationLockedAt := None |>) (onId cv_id (rot_newVersionId r)
    (fun v => v <| cv_abandonedAt := Some (clock (1 + w_tick w)) |>) v)));
    [|apply keepsVersion_compose; apply keepsVersion_onId; keeps_version
     |cbn; rewrite !setVersion_map, map_map; reflexivity|done].
  all: unfold lstate; cbn; apply Step_abandon;
    [done|eapply Hab; [reflexivity|repeat constructor]|intros ?; done|done|cbn; lia].
Qed.

(** ** Initiation *)

Lemma insertRotation_spec orgId projectId credentialId newId prevId status userId notes targets w :
  wp (insertRotation orgId projectId credentialId newId prevId status userId notes targets) (fun o w' =>
    match o with
    | Ok r =>
        rot_credentialId r = credentialId /\ rot_newVersionId r = newId /\ rot_previousVersionId r = prevId /\
        rot_status r = status /\ rot_version r = 1%Z /\ rot_targetFields r = targets /\
        Forall (fun x => rotationConflict r x = false) (db_rotations (w_db w)) /\
        w' = w <| w_tick ::= S |> <| w_db := (w_db w) <| db_rotations := db_rotations (w_db w) ++ [r] |> |>
    | Throw e => e = UniqueViolation
    end) w.
Proof.
  unfold insertRotation, wp, genRandomUuid, dbNow, insertRow, mbind, M_bind. cbv beta iota.
  destruct (existsb _ _) eqn:E; [done|]. do 6 (split; [done|]). split; [|done].
  apply Forall_forall. intros x Hx. apply not_true_iff_false. intros Hc.
  eapply not_true_iff_false; [exact E|]. apply existsb_exists. exists x. by rewrite <- list_elem_of_In.
Qed.

(** The writes, on a world at a database. *)
Lemma insertVersion_at nv w n db (Q : Outcome VersionRow -> World -> Prop) :
  (forall id now n', let row := versionRowOf id now nv in
     Forall (fun x => versionConflict row x = false) (db_versions db) ->
     Q (Ok row) (at_ w n' (db <| db_versions := db_versions db ++ [row] |>))) ->
  (forall e w', Q (Throw e) w') -> wp (insertVersion nv) Q (at_ w n db).
Proof.
  intros Hok Hno. eapply wp_mono; [apply insertVersion_spec|]. intros [row|e] w'; [|auto].
  intros (-> & Hc & ->). exact (Hok _ _ (S n) Hc).
Qed.

Lemma insertRotation_at orgId projectId c newId prevId status userId notes targets w n db
    (Q : Outcome RotationRow -> World -> Prop) :
  (forall r n', rot_credentialId r = c -> rot_newVersionId r = newId -> rot_previousVersionId r = prevId ->
     rot_status r = status -> Forall (fun x => rotationConflict r x = false) (db_rotations db) ->
     Q (Ok r) (at_ w n' (db <| db_rotations := db_rotations db ++ [r] |>))) ->
  (forall e w', Q (Throw e) w') ->
  wp (insertRotation orgId projectId c newId prevId status userId notes targets) Q (at_ w n db).
Proof.
  intros Hok Hno. eapply wp_mono; [apply insertRotation_spec|]. intros [r|e] w'; [|auto].
  intros (E1 & E2 & E3 & E4 & _ & _ & Hc & ->). exact (Hok r (S n) E1 E2 E3 E4 Hc).
Qed.


Lemma no_conflict_fresh r (rs : list RotationRow) :
  Forall (fun x => rotationConflict r x = false) rs ->
  rot_id r ∉ map rot_id rs /\ (isActive r = true -> noActive rs (rot_credentialId r)).
Proof.
  intros Hc. split.
  - intros (x & Ex & Hx)%elem_of_map. apply (proj1 (Forall_forall _ _) Hc) in Hx. unfold rotationConflict in Hx.
    by rewrite Ex, bool_decide_eq_true_2 in Hx.
  - intros Ha x Hx Ex. apply (proj1 (Forall_forall _ _) Hc) in Hx. unfold rotationConflict in Hx.
    apply orb_false_iff in Hx as [_ Hx]. by rewrite Ex, bool_decide_eq_true_2, Ha in Hx.
Qed.

Lemma buildNewVersionInsertFields_readOnly prev plain targets newValue values :
  readOnly (buildNewVersionInsertFields prev plain targets newValue values).
Proof. unfold buildNewVersionInsertFields. read_only. Qed.

Lemma loadRotationTargetForUpdate_spec projectId c w :
  wp (loadRotationTargetForUpdate projectId c) (fun o w' =>
    w' = w /\ forall v, o = Ok (LoadOk v) -> highestUsable (db_versions (w_db w)) c v /\ c ∈ credIds (w_db w)) w.
Proof.
  unfold loadRotationTargetForUpdate. eapply wp_bind_eq; [reflexivity|].
  destruct (head _) as [p|]; [|by apply wp_ret]. destruct (isNotNull _); [by apply wp_ret|].
  eapply wp_bind_eq; [reflexivity|]. destruct (head _) as [cr|] eqn:Ec; [|by apply wp_ret]. cbn [fmap option_fmap option_map].
  eapply wp_bind_eq; [reflexivity|]. cbv beta. match goal with |- wp (if ?b then _ else _) _ _ => destruct b end;
    [by apply wp_ret|].
  apply wp_bind. eapply wp_mono; [apply lockCurrentNonPurgedVersion_spec|].
  intros [v|e] w' [-> Hv]; [|done]. apply wp_ret. split; [done|]. intros v' [= <-]. split; [done|].
  apply head_elem_of, elem_of_lfilter in Ec as [Ep Hin]. bool_simpl. subst. by apply elem_of_map; exists cr.
Qed.

Lemma wp_writeRotation input prev pf w :
  DbInv (w_db w) -> highestUsable (db_versions (w_db w)) (ii_credentialId input) prev ->
  ii_credentialId input ∈ credIds (w_db w) ->
  wp (writeRotation input prev pf)
    (fun o w' => match o with Ok _ => Evolves (w_db w) (w_db w') | Throw _ => True end) w.
Proof.
  intros HI Hprev Hcred. unfold writeRotation. eapply wp_bind_eq; [reflexivity|].
  eapply wp_bind_eq; [apply nextCredentialVersionNumber_eq|].
  apply wp_bind. eapply wp_mono; [apply buildNewVersionInsertFields_readOnly|].
  intros [fields|e] w1 [n ->]; [|done].
  apply wp_bind. eapply wp_mono; [apply insertVersion_spec|].
  intros [new|e] w2; [|done]. intros (Enew & Hfresh & ->).
  eapply wp_bind_eq; [reflexivity|]. eapply wp_bind_eq; [reflexivity|]. eapply wp_bind_eq; [reflexivity|].
  apply wp_bind. eapply wp_mono; [apply insertRotation_spec|].
  intros [r|e] w3; [|done]. intros (Erc & Ern & Erp & Ers & _ & _ & Hconf & ->).
  apply wp_after_step.
  { apply lifeFrame_bind; [|intros ?; life_frame]. apply lifeFrame_forEachCollect. intros d. apply insertChecklistItem_frame. }
  cbn in Hconf, Hfresh. set (lock := clock _).
  apply no_conflict_fresh in Hconf as [Hid Hna].
  assert (Hnv : nv_credentialId (newVersionInsertValues (ii_orgId input) (ii_credentialId input) (ii_userId input)
      (maxVersionNumber (versionsOf (w_db w) (ii_credentialId input)) + 1)
      (match head (List.filter (fun _ => true) (db_vaultState (w_db w))) with Some v => vs_keyVersion v | None => 1%Z end)
      fields) = ii_credentialId input) by (by destruct fields as [[? ?] ?]).
  assert (Hnn : nv_versionNumber (newVersionInsertValues (ii_orgId input) (ii_credentialId input) (ii_userId input)
      (maxVersionNumber (versionsOf (w_db w) (ii_credentialId input)) + 1)
      (match head (List.filter (fun _ => true) (db_vaultState (w_db w))) with Some v => vs_keyVersion v | None => 1%Z end)
      fields) = (maxVersionNumber (versionsOf (w_db w) (ii_credentialId input)) + 1)%Z)
    by (by destruct fields as [[? ?] ?]).
  assert (Hnp : cv_promotedAt new = None) by (rewrite Enew; by destruct fields as [[? ?] ?]).
  assert (Hf : freshVersion (db_versions (w_db w)) new).
  { rewrite Enew. apply versionRowOf_fresh; [by rewrite <- Enew|]. intros x Hx. rewrite Hnv, Hnn.
    by apply next_version_above. }
  assert (Hcn : cv_credentialId new = ii_credentialId input) by (rewrite Enew; exact Hnv).
  eapply (Evolves_add _ _ (onId cv_id (cv_id prev) (fun v => v <| cv_rotationLockedAt := Some lock |>)) new).
  - unfold lstate. cbn. apply (Step_initiate _ _ r prev new lock); rewrite ?Erc; try done.
    rewrite <- Erc. apply Hna. unfold isActive. by rewrite Ers.
  - apply keepsVersion_onId. keeps_version.
  - reflexivity.
  - done.
  - by rewrite Hcn.
Qed.

Lemma refines_initiateInSavepoint input : refines (initiateInSavepoint input).
Proof.
  intros w HI. unfold initiateInSavepoint. apply wp_bind. eapply wp_mono; [apply loadRotationTargetForUpdate_spec|].
  intros [res|e] w' [-> Hload]; [|done].
  destruct res as [| | |prev]; try (apply wp_ret; apply Evolves_refl).
  destruct (Hload prev eq_refl) as [Hprev Hcred].
  apply wp_bind.
  assert (Hro : readOnly (resolveInitiateRotationPreflight prev (ii_body input))).
  { unfold resolveInitiateRotationPreflight, computeSameValueAsPrevious. read_only. }
  eapply wp_mono; [apply Hro|]. intros [[failure|pf]|e] w1 [n ->]; [by apply wp_ret, Evolves_refl| |done].
  eapply wp_mono; [by apply wp_writeRotation|]. done.
Qed.

Lemma refines_initiate input : refines (initiateRotation input).
Proof.
  intros w HI. unfold initiateRotation. eapply wp_bind_eq; [reflexivity|].
  destruct (negb _).
  { eapply wp_bind_eq; [reflexivity|]. eapply wp_bind_eq; [reflexivity|]. by apply wp_throw. }
  apply wp_bind. eapply wp_mono; [assert (Hro : readOnly (lockActiveInitiatorMembership (ii_orgId input) (ii_userId input)))
    by (unfold lockActiveInitiatorMembership; read_only); apply Hro|].
  intros [b|e] w1 [n ->]; [|done]. destruct (negb b); [by apply wp_ret, Evolves_refl|].
  apply wp_catch. eapply wp_mono; [apply (refines_transaction _ (refines_initiateInSavepoint input)); exact HI|].
  intros [res|e] w2 He; [exact He|]. destruct (isUniqueViolation e); [|by apply wp_throw].
  apply wp_bind. eapply wp_mono; [assert (Hro : readOnly (findInProgressRotationId (ii_credentialId input)))
    by (unfold findInProgressRotationId; read_only); apply Hro|].
  intros [id|e'] w3 _; [by apply wp_throw|done].
Qed.

(** ** Break-glass *)

Lemma not_active_statuses r : rot_status r ∉ [in_progress; staged; stale_recovery; promoted] -> isActive r = false.
Proof.
  intros Hn. apply not_true_iff_false. intros Ha. apply Hn. unfold isActive, isActiveStatus, ACTIVE_ROTATION_STATUSES in Ha.
  bool_simpl. revert Ha. rewrite !elem_of_cons. tauto.
Qed.

Lemma supersede_spec c w :
  DbInv (w_db w) ->
  wp (supersedeActiveRotation c) (fun o w' =>
    Evolves (w_db w) (w_db w') /\ credIds (w_db w') = credIds (w_db w) /\
    match o with Ok _ => noActive (db_rotations (w_db w')) c | Throw _ => True end) w.
Proof.
  intros HI. unfold supersedeActiveRotation. apply wp_bind. unfold wp at 1, selectFirstNoWait.
  destruct (head _) as [r|] eqn:Eh; cycle 1.
  { apply wp_ret. split; [apply Evolves_refl|]. split; [done|]. intros x Hx Ex. apply not_active_statuses. intros Hs.
    apply head_None in Eh.
    assert (Hin : x ∈ List.filter (fun r => (rot_credentialId r =? c) &&
      (rot_status r ∈? [in_progress; staged; stale_recovery; promoted])) (db_rotations (w_db w)))
      by (apply elem_of_lfilter; by rewrite !bool_decide_eq_true_2).
    rewrite Eh in Hin. by apply not_elem_of_nil in Hin. }
  destruct (rot_id r ∈? w_rowLocks w); [by split; [apply Evolves_refl|]|].
  apply head_elem_of, elem_of_lfilter in Eh as [Ep Hr]. bool_simpl.
  case_bool_decide as Epr; [by apply wp_throw; split; [apply Evolves_refl|]|].
  assert (Hab : abandonable r = true).
  { unfold abandonable. apply bool_decide_eq_true_2. set_unfold. naive_solver. }
  match goal with |- wp ?m ?Q w => enough (Hw : forall n0, wp m Q (at_ w n0 (w_db w)))
    by (specialize (Hw (w_tick w)); rewrite <- at_id in Hw; exact Hw) end.
  intros n0. eapply wp_bind_eq; [apply newDate_at|].
  eapply wp_bind_eq; [apply (updateRotations_at _ _ r); [by apply DbInv_rotation_ids|done|by apply bool_decide_eq_true_2|]|].
  { intros x Hx. by bool_simpl. }
  eapply wp_bind_eq; [apply newDate_at|]. eapply wp_bind_eq; [apply updateVersions_at|].
  eapply wp_bind_eq; [apply updateVersions_at|].
  apply wp_ret. change (w_db (at_ ?w ?n ?db)) with db. set (f := touched _ _). set (d := clock _).
  assert (Hf : keepsRotation f) by (intros ?; done).
  split; [|split; [done|]].
  - eapply (Evolves_map _ _ (fun v => onId cv_id (rot_previousVersionId r)
      (fun v => v <| cv_rotationLockedAt := None |>) (onId cv_id (rot_newVersionId r)
      (fun v => v <| cv_abandonedAt := Some d |>) v))).
    + unfold lstate. cbn. apply Step_abandon; [done|done|done|done|cbn; lia].
    + apply keepsVersion_compose; apply keepsVersion_onId; keeps_version.
    + cbn. unfold map_where. rewrite map_map. reflexivity.
    + done.
  - cbn. intros x Hx Ex. apply elem_of_setRotation in Hx as [->|[Hx Hn]]; [done| |by apply DbInv_rotation_ids|done].
    apply not_true_iff_false. intros Ha. apply Hn. f_equal. destruct HI as [HI _].
    apply (inv_one_active _ HI); [done|done|done|by apply abandonable_active|congruence].
Qed.

Lemma wp_writeBreakGlass input superseded w :
  DbInv (w_db w) -> noActive (db_rotations (w_db w)) (bg_credentialId input) ->
  bg_credentialId input ∈ credIds (w_db w) ->
  wp (writeBreakGlass input superseded)
    (fun o w' => match o with Ok _ => Evolves (w_db w) (w_db w') | Throw _ => True end) w.
Proof.
  intros HI Hna Hcred.
  enough (forall n0, wp (writeBreakGlass input superseded)
    (fun o w' => match o with Ok _ => Evolves (w_db w) (w_db w') | Throw _ => True end) (at_ w n0 (w_db w))) as Hw
    by (specialize (Hw (w_tick w)); by rewrite <- at_id in Hw).
  intros n0. unfold writeBreakGlass, createBreakGlassVersion. apply wp_bind, wp_bind.
  eapply wp_mono; [apply lockCurrentNonPurgedVersion_spec|]. intros [prev|e] w0 [-> Hprev]; [|done].
  eapply wp_bind_eq; [apply nextCredentialVersionNumber_eq|]. eapply wp_bind_eq; [reflexivity|].
  apply wp_bind, wp_at_readOnly; [auto with pv|]. intros [enc|e] n1; [|done].
  apply wp_bind, wp_at_readOnly; [auto with pv|]. intros [promotedAt|e] n2; [|done].
  apply wp_bind, insertVersion_at; [|done]. cbv zeta. intros id now n3 Hfresh. apply wp_ret. cbv beta iota.
  apply wp_bind, wp_at_readOnly; [auto with pv|]. intros [d1|e] n4; [|done].
  apply wp_bind, wp_at_readOnly; [auto with pv|]. intros [lock|e] n5; [|done].
  eapply wp_bind_eq; [apply updateVersions_at|]. eapply wp_bind_eq; [reflexivity|].
  apply wp_bind, insertRotation_at; [|done]. intros r n6 Erc Ern Erp Ers Hconf. apply wp_ret.
  set (new := versionRowOf _ _ _) in *. set (expires := (d1 + _)%Z).
  apply no_conflict_fresh in Hconf as [Hid _]. change (w_db (at_ w n0 (w_db w))) with (w_db w) in *.
  assert (Hf : freshVersion (db_versions (w_db w)) new).
  { apply versionRowOf_fresh; [done|]. intros x Hx. by apply next_version_above. }
  eapply (Evolves_add _ _ (onId cv_id (cv_id prev) (fun v => v <| cv_rotationLockedAt := Some lock |>
    <| cv_breakGlassOverlapExpiresAt := Some expires |>)) new).
  - unfold lstate. cbn. apply (Step_breakGlass _ _ r prev new lock expires); by rewrite ?Erc.
  - apply keepsVersion_onId. keeps_version.
  - reflexivity.
  - done.
  - done.
Qed.

Lemma refines_breakGlass input : refines (breakGlassRotation input).
Proof.
  intros w HI. unfold breakGlassRotation. eapply wp_bind_eq; [reflexivity|].
  destruct (negb _); [by apply wp_ret, Evolves_refl|].
  eapply wp_bind_eq; [reflexivity|]. destruct (head _) as [cr|] eqn:Ec; [|by apply wp_ret, Evolves_refl].
  cbn [fmap option_fmap option_map].
  assert (Hcred : bg_credentialId input ∈ credIds (w_db w)).
  { apply head_elem_of, elem_of_lfilter in Ec as [Ep Hin]. bool_simpl. apply elem_of_map. by exists cr. }
  apply wp_bind. eapply wp_mono;
    [assert (Hro : readOnly (currentVersionHasTotpField (bg_credentialId input)))
       by (unfold currentVersionHasTotpField, selectCurrentVersionMeta; read_only); apply Hro|].
  intros [b|e] w1 [n1 ->]; [|done]. destruct b; [by apply wp_ret, Evolves_refl|].
  apply wp_bind. eapply wp_mono;
    [assert (Hro : readOnly (findRecentDuplicateBreakGlass (bg_credentialId input)
       (bg_idempotencyWindowSeconds input * 1000))) by (unfold findRecentDuplicateBreakGlass; read_only); apply Hro|].
  intros [[d|]|e] w2 [n2 ->]; [| |done].
  { assert (Hro : readOnly (buildDedupedBreakGlassResult (bg_orgId input) (bg_credentialId input) d))
      by (unfold buildDedupedBreakGlassResult, activeDependentSystems; read_only).
    eapply wp_mono; [apply Hro|]. intros [x|e] w3 [n3 ->]; [apply Evolves_refl|done]. }
  apply wp_bind, wp_catch, wp_bind. eapply wp_mono; [by apply supersede_spec|].
  intros [id|e] w3 (He & Hcr & Hna).
  - apply wp_ret. cbv beta iota. eapply wp_mono; [apply wp_writeBreakGlass|].
    + by eapply Evolves_DbInv.
    + done.
    + by rewrite Hcr.
    + intros [x|e] w4 He4; [by eapply Evolves_trans|done].
  - destruct (isLockNotAvailable e); [by apply wp_ret, wp_ret|].
    destruct e; try (by apply wp_throw). by apply wp_ret, wp_ret.
Qed.
End service.
