(* ===== verification/RefinementWorkers.v ===== *)
(** * Refinement, continued: the credential service and the workers

    New credentials and versions, archival and tags
    (modules/credentials/service.ts), and the scheduled jobs (workers/) also
    only make life-cycle steps. *)

From S2P Require Import Prelude Js Crypto FieldSet Store Tx QuotaGate AuditLog Notifications Credentials Rotation Transitions Workers Lifecycle Effects RotationSpec Refinement.
From Stdlib Require Import Ascii String Relations.
From stdpp Require Import strings sets.

Local Open Scope string_scope.
Local Open Scope list_scope.
Local Open Scope pv_scope.

(** [find] on sorted rows returns the first of them. *)
Lemma find_isort_least {A} (leb : A -> A -> bool)
    (total : forall a b, leb a b = false -> leb b a = true)
    (trans : forall a b c, leb a b = true -> leb b c = true -> leb a c = true) p l x y :
  List.find p (isort leb l) = Some x -> y ∈ isort leb l -> p y = true -> leb x y = true \/ x = y.
Proof.
  pose proof (isort_sorted leb total trans l) as Hs. induction Hs as [|z l' Hs IH Hz]; cbn; [done|].
  intros Hf Hy Hpy. apply elem_of_cons in Hy. destruct (p z) eqn:Ep.
  - injection Hf as <-. destruct Hy as [->|Hy]; [by right|]. left. by apply (proj1 (Forall_forall _ _) Hz).
  - destruct Hy as [->|Hy]; [congruence|]. by apply IH.
Qed.

(** A job's failure on one candidate is caught. *)
Lemma refinesAll_isolated {A} (m : M A) a : refinesAll m -> refinesAll (catch m (fun _ => mret a)).
Proof. intros Hm. apply refinesAll_catch; [done|]. intros e. apply refinesAll_frame. life_frame. Qed.

Section credentials.
Context `{Platform, NodeCrypto, Unicode, OtpAuth, Locale, Env}.

Lemma updateCredentials_frame p f :
  (forall c, cred_id (f c) = cred_id c) -> lifeFrame (updateCredentials p f).
Proof.
  intros Hf. unfold updateCredentials. apply lifeFrame_bind; [life_frame|]. intros now.
  by apply lifeFrame_credentials.
Qed.

Lemma wp_insertVersionAndSetCurrent nv w :
  DbInv (w_db w) -> nv_credentialId nv ∈ credIds (w_db w) ->
  (forall x, x ∈ db_versions (w_db w) -> cv_credentialId x = nv_credentialId nv ->
     (cv_versionNumber x < nv_versionNumber nv)%Z) ->
  wp (insertVersionAndSetCurrent nv)
    (fun o w' => match o with Ok _ => Evolves (w_db w) (w_db w') | Throw _ => True end) w.
Proof.
  intros HI Hc Hn. unfold insertVersionAndSetCurrent. apply wp_bind. eapply wp_mono; [apply insertVersion_spec|].
  intros [row|e] w1; [|done]. intros (Erow & Hfree & ->). apply wp_after_step.
  { apply lifeFrame_bind; [by apply updateCredentials_frame|]. intros ?. life_frame. }
  eapply (Evolves_add _ _ (fun v => v) row).
  - unfold lstate. cbn. apply Step_newVersion. rewrite Erow. apply versionRowOf_fresh; [by rewrite <- Erow|done].
  - intros v. done.
  - cbn. by rewrite List.map_id.
  - done.
  - by rewrite Erow.
Qed.

Lemma refines_addVersion orgId credentialId projectId userId body :
  refines (addCredentialVersion orgId credentialId projectId userId body).
Proof.
  intros w HI. unfold addCredentialVersion. eapply wp_bind_eq; [reflexivity|].
  destruct (head _) as [c|] eqn:Ec; [|by apply wp_ret, Evolves_refl]. cbn [fmap option_fmap option_map].
  assert (Hcred : credentialId ∈ credIds (w_db w)).
  { apply head_elem_of, elem_of_lfilter in Ec as [Ep Hin]. bool_simpl. subst. by apply elem_of_map; exists c. }
  enough (Hw : forall n0, wp (_) (fun o w' => match o with Ok _ => Evolves (w_db w) (w_db w') | Throw _ => True end)
    (at_ w n0 (w_db w))) by (specialize (Hw (w_tick w)); rewrite <- at_id in Hw; exact Hw).
  intros n0.
  apply wp_bind, wp_at_readOnly; [unfold currentFieldKeys, selectCurrentVersionMeta; read_only|].
  intros [oldKeys|e] n1; [|done].
  apply wp_bind, wp_at_readOnly; [unfold currentFieldsForDiff, selectCurrentVersionMeta; read_only|].
  intros [oldFields|e] n2; [|done].
  apply wp_bind, wp_at_readOnly; [auto with pv|]. intros [[]|e] n3; [|done].
  apply wp_bind, wp_at_readOnly; [auto with pv|]. intros [resolved|e] n4; [|done]. cbv zeta.
  eapply wp_bind_eq; [reflexivity|]. eapply wp_bind_eq; [reflexivity|].
  apply wp_bind, wp_at_readOnly; [auto with pv|]. intros [enc|e] n5; [|done].
  apply wp_catch, wp_bind, wp_at_readOnly; [auto with pv|]. intros [promotedAt|e] n6; cycle 1.
  { destruct (isUniqueViolation e); by apply wp_throw. }
  apply wp_bind. eapply wp_mono; [apply wp_insertVersionAndSetCurrent; [done|exact Hcred|]|].
  - intros x Hx Hxc. cbn. by apply next_version_above.
  - intros [row|e] w' He; [exact He|]. destruct (isUniqueViolation e); by apply wp_throw.
Qed.

Lemma insertCredential_spec orgId projectId userId body w :
  wp (insertCredential orgId projectId userId body) (fun o w' =>
    match o with
    | Ok c => cred_id c ∉ credIds (w_db w) /\
              w' = w <| w_tick ::= S |> <| w_db := (w_db w) <| db_credentials := db_credentials (w_db w) ++ [c] |> |>
    | Throw e => e = UniqueViolation
    end) w.
Proof.
  unfold insertCredential, wp, genRandomUuid, dbNow, insertRow, mbind, M_bind. cbv beta iota.
  destruct (existsb _ _) eqn:E; [done|]. split; [|done]. intros (c & Ec & Hc)%elem_of_map.
  eapply not_true_iff_false; [exact E|]. apply existsb_exists. exists c. rewrite <- list_elem_of_In.
  split; [done|]. by apply bool_decide_eq_true_2.
Qed.

(** A new credential: no version refers to it yet. *)
Lemma Evolves_credential db c :
  Evolves db (db <| db_credentials := db_credentials db ++ [c] |>) /\
  cred_id c ∈ credIds (db <| db_credentials := db_credentials db ++ [c] |>).
Proof.
  unfold credIds. cbn. rewrite map_app. split.
  - constructor; [apply rt_refl| |].
    + intros x Hx. unfold credIds. cbn. rewrite map_app. apply elem_of_app. by left.
    + intros v Hv. left. by exists v.
  - apply elem_of_app. right. by left.
Qed.

Lemma refines_create orgId projectId userId body :
  refines (createCredentialWithFirstVersion orgId projectId userId body).
Proof.
  intros w HI. unfold createCredentialWithFirstVersion.
  enough (Hw : forall n0, wp (_) (fun o w' => match o with Ok _ => Evolves (w_db w) (w_db w') | Throw _ => True end)
    (at_ w n0 (w_db w))) by (specialize (Hw (w_tick w)); rewrite <- at_id in Hw; exact Hw).
  intros n0. eapply wp_bind_eq; [reflexivity|].
  apply wp_bind, wp_at_readOnly; [auto with pv|]. intros [resolved|e] n1; [|done]. cbv zeta.
  apply wp_bind, wp_at_readOnly; [auto with pv|]. intros [enc|e] n2; [|done].
  apply wp_bind. eapply wp_mono; [apply insertCredential_spec|]. intros [c|e] w1; [|done].
  intros [Hfresh ->]. cbv beta iota. set (db1 := (w_db w) <| db_credentials := db_credentials (w_db w) ++ [c] |>).
  destruct (Evolves_credential (w_db w) c) as [He Hin]. fold db1 in He, Hin.
  match goal with |- wp ?m ?Q _ => change (wp m Q (at_ w (S n2) db1)) end.
  apply wp_bind, wp_at_readOnly; [auto with pv|]. intros [promotedAt|e] n3; [|done].
  apply wp_bind. eapply wp_mono; [apply wp_insertVersionAndSetCurrent; [by eapply Evolves_DbInv|exact Hin|]|].
  - intros x Hx Hxc. destruct Hfresh. cbn in Hxc. rewrite <- Hxc. by apply (di_credential _ HI).
  - intros [row|e] w' He'; [|done]. apply wp_ret. by eapply Evolves_trans.
Qed.

Lemma refines_archive credentialId userId : refinesAll (archiveCredential credentialId userId).
Proof. apply refinesAll_frame. unfold archiveCredential, updateCredentials. life_frame. Qed.
Lemma refines_unarchive credentialId : refinesAll (unarchiveCredential credentialId).
Proof. apply refinesAll_frame. unfold unarchiveCredential, updateCredentials. life_frame. Qed.
Lemma refines_tags credentialId projectId tags mode :
  refinesAll (updateCredentialTags credentialId projectId tags mode).
Proof. apply refinesAll_frame. unfold updateCredentialTags, updateCredentials. life_frame. Qed.

(** ** Alerts on rotations *)

Lemma refines_recoverOne orgId candidate : refinesAll (recoverOneRotation orgId candidate).
Proof.
  unfold recoverOneRotation, withRotationScopedLock. apply refines_transaction, refinesAll_refines.
  apply refinesAll_bind; [apply refinesAll_frame; life_frame|]. intros locked.
  destruct (negb locked); [apply refinesAll_frame; life_frame|].
  apply refinesAll_bind; [apply refinesAll_frame; life_frame|]. intros ?.
  apply refinesAll_bind.
  - apply (refines_updateRotations (rac_id candidate)).
    + intros x Hx. by bool_simpl.
    + intros r. done.
    + intros r now Hp. bool_simpl. split; [|cbn; lia]. right. cbn. split; [|done].
      match goal with Hs : rot_status r = in_progress |- _ => rewrite Hs end. constructor.
  - intros updated. apply refinesAll_frame. destruct updated; [life_frame|].
    apply lifeFrame_bind; [life_frame|]. intros ?. apply lifeFrame_bind; [apply updateItems_frame|]. intros ?.
    apply lifeFrame_bind; [apply writeSystemAuditRow_frame|]. intros ?.
    apply lifeFrame_bind; [apply dispatchRotationAlert_frame|]. intros ?. life_frame.
Qed.

Lemma refines_alertOne orgId candidate : refinesAll (alertOneRotation orgId candidate).
Proof.
  unfold alertOneRotation, withRotationScopedLock. apply refines_transaction, refinesAll_refines.
  apply refinesAll_bind; [apply refinesAll_frame; life_frame|]. intros locked.
  destruct (negb locked); [apply refinesAll_frame; life_frame|].
  apply refinesAll_bind; [apply refinesAll_frame; life_frame|]. intros alertedAt.
  apply refinesAll_bind; [apply refinesAll_frame; life_frame|]. intros ?.
  apply refinesAll_bind.
  - apply (refines_updateRotations (rac_id candidate)).
    + intros x Hx. by bool_simpl.
    + intros r. done.
    + intros r now Hp. split; [by left|cbn; lia].
  - intros updated. apply refinesAll_frame. destruct updated; [life_frame|].
    apply lifeFrame_bind; [apply writeSystemAuditRow_frame|]. intros ?.
    apply lifeFrame_bind; [apply dispatchRotationAlert_frame|]. intros ?. life_frame.
Qed.

Lemma refines_forEachIsolated {A} (candidates : list A) one :
  (forall c, refinesAll (one c)) -> refinesAll (forEachIsolated candidates one).
Proof.
  intros Hone. unfold forEachIsolated. apply refinesAll_bind; [|intros ?; apply refinesAll_frame; life_frame].
  apply refinesAll_forEachCollect. intros c. apply refinesAll_bind; [by apply refinesAll_isolated|].
  intros ?. apply refinesAll_frame. life_frame.
Qed.

Lemma refines_recoverStale orgId : refinesAll (recoverStaleRotationsForOrg orgId).
Proof.
  unfold recoverStaleRotationsForOrg. apply refinesAll_bind.
  - apply refinesAll_frame. unfold findStaleRotations, findRotationCandidates. life_frame.
  - intros candidates. apply refines_forEachIsolated, refines_recoverOne.
Qed.
Lemma refines_alertStaleStaged orgId : refinesAll (alertStaleStagedForOrg orgId).
Proof.
  unfold alertStaleStagedForOrg. apply refinesAll_bind.
  - apply refinesAll_frame. unfold findStaleStagedRotations, findRotationCandidates. life_frame.
  - intros candidates. apply refines_forEachIsolated, refines_alertOne.
Qed.

(** ** The end of a break-glass overlap *)

Lemma refines_expireUpdate versionId now :
  refinesAll (updateVersions (fun v => (cv_id v =? versionId) && overlapExpired now v)
    (fun v => v <| cv_rotationLockedAt := None |> <| cv_breakGlassOverlapExpiresAt := None |>)).
Proof.
  intros w HI. unfold wp. rewrite (at_id w), updateVersions_at. cbn [at_ w_db setter].
  set (p := fun v => _). set (f := fun v => _).
  destruct (decide (Exists (fun v => p v = true) (db_versions (w_db w)))) as [Hx|Hx].
  - apply Exists_exists in Hx as (v & Hv & Hp). unfold p in Hp. bool_simpl.
    assert (E : map_where p f (db_versions (w_db w)) = setVersion (cv_id v) f (db_versions (w_db w))).
    { apply map_where_ext. intros x Hxin. unfold p. case_bool_decide as Ex; cbn.
      - rewrite bool_decide_eq_true_2 by congruence. pose proof (inv_version_ids _ (di_life _ HI)) as Hnd.
        rewrite (NoDup_key_inj cv_id _ x v Hnd Hxin Hv) by congruence.
        match goal with Ho : overlapExpired now v = true |- _ => by rewrite Ho end.
      - by rewrite bool_decide_eq_false_2 by congruence. }
    apply (Evolves_map _ _ (onId cv_id (cv_id v) f)); [|apply keepsVersion_onId; keeps_version|exact E|done].
    unfold lstate. cbn. rewrite E. apply Step_overlapExpire; [done|].
    match goal with Ho : overlapExpired now v = true |- _ => unfold overlapExpired in Ho end.
    by destruct (cv_breakGlassOverlapExpiresAt v).
  - rewrite map_where_none; [by apply sameLife_Evolves|]. intros v Hv. apply not_true_iff_false. intros Hp.
    apply Hx, Exists_exists. eauto.
Qed.

Lemma refines_expireOne orgId versionId credentialId : refinesAll (expireOneVersion orgId versionId credentialId).
Proof.
  unfold expireOneVersion. apply refines_transaction, refinesAll_refines.
  apply refinesAll_bind; [apply refinesAll_frame; life_frame|]. intros locked.
  destruct (negb locked); [apply refinesAll_frame; life_frame|].
  apply refinesAll_bind; [apply refinesAll_frame; life_frame|]. intros now.
  apply refinesAll_bind; [apply refines_expireUpdate|]. intros updated. apply refinesAll_frame.
  destruct updated; [life_frame|]. apply lifeFrame_bind; [apply writeSystemAuditRow_frame|]. intros ?. life_frame.
Qed.

Lemma refines_expireOverlap orgId : refinesAll (expireOverlapForOrg orgId).
Proof.
  unfold expireOverlapForOrg. apply refinesAll_bind.
  - apply refinesAll_frame. unfold findExpiredOverlapVersions. life_frame.
  - intros candidates. apply refinesAll_forEachSequential. intros v. apply refinesAll_isolated, refines_expireOne.
Qed.

(** ** The purge of old versions *)

(** What the selection of candidates establishes and each purge keeps: a usable
    version due for purge has a more recent usable version that is not due. *)
Definition purgeSafe (ids : list Uuid) (db : Db) : Prop := forall v, v ∈ db_versions db -> cv_id v ∈ ids ->
  usable v -> exists h, h ∈ db_versions db /\ cv_id h ∉ ids /\ usable h /\
    cv_credentialId h = cv_credentialId v /\ (cv_versionNumber v < cv_versionNumber h)%Z.

Lemma purgeSafe_sameLife ids db db' : sameLife db db' -> purgeSafe ids db -> purgeSafe ids db'.
Proof. intros [_ Hv _]. unfold purgeSafe. by rewrite Hv. Qed.

Lemma purgeSafe_purge ids db i d :
  i ∈ ids -> purgeSafe ids db ->
  purgeSafe ids (db <| db_versions := setVersion i (purge d) (db_versions db) |>).
Proof.
  intros Hi Hs v'. unfold purgeSafe. cbn. rewrite setVersion_map.
  intros (v & -> & Hv)%elem_of_map. unfold onId at 1 2 4 5. case_bool_decide as E; [by intros _ []|].
  intros Hin Hu. destruct (Hs v Hv Hin Hu) as (h & Hh & Hhi & Hhu & Hc & Hn). exists h. split; [|done].
  apply elem_of_map. exists h. rewrite onId_miss; [done|]. intros Eh. by rewrite Eh in Hhi.
Qed.

(** Both overwrites of the value, in one. *)
Lemma purge_twice i d vs :
  map_where (fun v => cv_id v =? i) (fun v => v <| cv_encryptedValue := None |> <| cv_keyVersion := None |>
      <| cv_purgedAt := Some d |>)
    (map_where (fun v => (cv_id v =? i) && true) (fun v => v <| cv_encryptedValue := Some zeroedValue |>) vs)
  = setVersion i (purge d) vs.
Proof.
  unfold map_where, setVersion. rewrite map_map. apply map_ext. intros v. rewrite andb_true_r.
  destruct (cv_id v =? i) eqn:E; cbn; [|by rewrite E]. rewrite E. by destruct v.
Qed.

Lemma purgeVersion_spec orgId candidate ids w :
  DbInv (w_db w) -> purgeSafe ids (w_db w) -> pc_id candidate ∈ ids ->
  wp (purgeVersion orgId candidate) (fun o w' =>
    match o with Ok _ => Evolves (w_db w) (w_db w') /\ purgeSafe ids (w_db w') | Throw _ => True end) w.
Proof.
  intros HI Hs Hi. unfold purgeVersion. eapply wp_bind_eq; [reflexivity|].
  destruct (head _) as [v|] eqn:Ev; [|by apply wp_ret; split; [apply Evolves_refl|]].
  apply head_elem_of, elem_of_lfilter in Ev as [Ep Hv]. bool_simpl.
  eapply wp_bind_eq; [reflexivity|]. eapply wp_bind_eq; [reflexivity|]. eapply wp_bind_eq; [reflexivity|].
  cbv zeta. cbn [w_tick w_now setter]. set (d := clock _).
  set (db1 := (w_db w) <| db_versions := setVersion (pc_id candidate) (purge d) (db_versions (w_db w)) |>).
  match goal with |- wp ?m ?Q ?wx => assert (Hdb : w_db wx = db1); [|generalize wx Hdb; clear Hdb; intros w1 Hdb] end.
  { cbn. unfold db1. by rewrite <- purge_twice. }
  assert (He : Evolves (w_db w) db1).
  { apply (Evolves_map _ _ (onId cv_id (pc_id candidate) (purge d))); [|apply keepsVersion_onId; keeps_version|done|done].
    unfold lstate. cbn. match goal with E : cv_id v = _ |- _ => rewrite <- E in Hi |- * end.
    apply Step_purge; [done|done|done|]. intros Hu. destruct (Hs v Hv Hi Hu) as (h & ? & _ & ?). by exists h. }
  assert (Hs1 : purgeSafe ids db1) by by apply purgeSafe_purge.
  apply lifeFrame_ok; [|intros [b|e] w2 Hl; [|done]; rewrite Hdb in Hl; split;
    [eapply Evolves_trans; [exact He|by apply sameLife_Evolves]|by eapply purgeSafe_sameLife]].
  apply lifeFrame_bind; [apply lifeFrame_gates|]. intros ?.
  apply lifeFrame_bind; [apply appendAuditRow_frame|]. intros ?.
  apply lifeFrame_bind; [life_frame|]. intros [r|]; [|life_frame].
  apply lifeFrame_bind; [apply writeSystemAuditRow_frame|]. intros ?. life_frame.
Qed.

Lemma purgeLoop_spec orgId ids candidates w :
  DbInv (w_db w) -> purgeSafe ids (w_db w) -> (forall c, c ∈ candidates -> pc_id c ∈ ids) ->
  wp (forEachCollect candidates (purgeVersion orgId)) (fun o w' =>
    match o with Ok _ => Evolves (w_db w) (w_db w') | Throw _ => True end) w.
Proof.
  revert w. induction candidates as [|c l IH]; intros w HI Hs Hids; cbn [forEachCollect]; [apply Evolves_refl|].
  apply wp_bind. eapply wp_mono; [apply (purgeVersion_spec _ _ ids); [done|done|apply Hids; by left]|].
  intros [b|e] w1; [|done]. intros [He Hs1]. apply wp_bind. eapply wp_mono; [apply IH; [by eapply Evolves_DbInv|done|]|].
  - intros x Hx. apply Hids. by right.
  - intros [bs|e] w2; [|done]. intros He2. apply wp_ret. by eapply Evolves_trans.
Qed.

(** The candidates of a credential are safe to purge. *)
Lemma purgeCandidates_safe db c n :
  DbInv db ->
  purgeSafe (map pc_id (purgeCandidates (isort numberDesc (List.filter (fun v =>
    (cv_credentialId v =? c) && isNull (cv_purgedAt v) && isNull (cv_rotationLockedAt v)) (db_versions db))) c n)) db.
Proof.
  intros [HI _]. set (vs := isort _ _). pose proof (inv_version_ids _ HI) as Hnd. cbn in Hnd.
  assert (Hvs : forall x, x ∈ vs <-> x ∈ db_versions db /\ cv_credentialId x = c /\ cv_purgedAt x = None /\
    cv_rotationLockedAt x = None).
  { intros x. unfold vs. rewrite elem_of_isort, elem_of_lfilter, !andb_true_iff, bool_decide_eq_true, !isNull_true. tauto. }
  intros v Hv Hid [Hpu Hab]. unfold purgeCandidates in Hid |- *. rewrite map_map in Hid |- *. cbn [pc_id] in Hid |- *.
  apply elem_of_map in Hid as (v' & Ei & [Hcur Hd]%elem_of_lfilter).
  assert (Hin : v' ∈ vs) by by (rewrite <- (take_drop (Z.to_nat (n `max` 1)) vs); apply elem_of_app; right).
  assert (v' = v) as -> by (apply (NoDup_key_inj cv_id (db_versions db)); [done|by apply Hvs|done|done]).
  destruct (List.find _ vs) as [h|] eqn:Ef; cycle 1.
  { eapply List.find_none in Ef; [|by apply list_elem_of_In]. cbn in Ef. by rewrite Hab in Ef. }
  pose proof (find_isort_least numberDesc numberDesc_total numberDesc_trans _ _ h v Ef Hin) as Hle.
  apply List.find_some in Ef as [Hh%list_elem_of_In Ehb]. cbn in Hcur. bool_simpl. exists h.
  apply Hvs in Hh as (Hh & Hhc & Hhp & _). apply Hvs in Hin as (_ & Hvc & _).
  split; [done|]. split; [|split; [done|split; [congruence|]]].
  - intros (x & Ex & [Hx _]%elem_of_lfilter)%elem_of_map. bool_simpl. apply Hx. cbn. by rewrite Ex.
  - destruct Hle as [Hle|E]; [by rewrite Hab|unfold numberDesc in Hle|by subst]. bool_simpl.
    destruct (decide (cv_versionNumber v = cv_versionNumber h)) as [En|?]; [|lia].
    exfalso. assert (v = h) by (apply (inv_numbers _ HI); [done|done|congruence|done]). by subst.
Qed.

Lemma refines_prune orgId dryRun credential : refines (pruneCredential orgId dryRun credential).
Proof.
  intros w HI. unfold pruneCredential, purgeCandidatesForCredential. apply wp_bind.
  eapply wp_bind_eq; [reflexivity|]. apply wp_ret. cbv beta iota.
  destruct (_ =? _); [by apply wp_ret, Evolves_refl|]. destruct dryRun; [by apply wp_ret, Evolves_refl|].
  apply wp_bind. eapply wp_mono; [eapply purgeLoop_spec; [done|by apply purgeCandidates_safe|]|].
  - intros x Hx. apply elem_of_map. by exists x.
  - by intros [bs|e] w'.
Qed.

Lemma refines_pruneOrg orgId dryRun : refinesAll (pruneOrgCredentialVersionsIsolated orgId dryRun).
Proof.
  unfold pruneOrgCredentialVersionsIsolated. apply refinesAll_isolated.
  apply refinesAll_bind; [|intros ?; apply refinesAll_frame; life_frame].
  unfold pruneOrgCredentialVersions. apply refinesAll_bind; [apply refinesAll_frame; life_frame|].
  intros cs. apply refinesAll_bind; [|intros ?; apply refinesAll_frame; life_frame].
  apply refinesAll_forEachCollect. intros c. apply refines_transaction, refines_prune.
Qed.
End credentials.
