(* ===== verification/System.v ===== *)
(** * The system: sequences of operations

    [Op] lists the requests of the rotation and credential services and the
    scheduled jobs; [runOp] runs one in its transaction.  [Reaches] is any
    sequence of them: between two operations everything but the database is
    arbitrary (the clock, the locks other sessions hold, the vault keys, the
    counter of random draws).  The theorems are what such sequences guarantee,
    whatever their order and their outcomes, failed and rolled-back operations
    included. *)

From S2P Require Import Prelude Js Crypto FieldSet Store Tx QuotaGate AuditLog Notifications Credentials Rotation Transitions Workers Demo Lifecycle Effects RotationSpec Refinement RefinementWorkers.
From Stdlib Require Import Ascii String Relations.
From stdpp Require Import strings sets.

Local Open Scope string_scope.
Local Open Scope list_scope.
Local Open Scope pv_scope.

(** ** Operations *)

Inductive Op :=
| OpCreateCredential (orgId projectId userId : Uuid) (body : CreateCredentialBody)
| OpAddVersion (orgId credentialId projectId userId : Uuid) (body : CreateBodyish)
| OpArchive (credentialId userId : Uuid)
| OpUnarchive (credentialId : Uuid)
| OpUpdateTags (credentialId projectId : Uuid) (tags : list string) (mode : TagUpdateMode)
| OpInitiate (input : InitiateInput)
| OpConfirm (p : RotationParams) (itemId userId : Uuid) (notes : option string)
| OpFail (p : RotationParams) (itemId userId : Uuid) (reason : string) (scheduled : option Date)
| OpRetry (p : RotationParams) (itemId userId : Uuid)
| OpPromote (p : RotationParams) (body : AckBody)
| OpRetire (p : RotationParams) (body : AckBody)
| OpComplete (p : RotationParams) (ack : option bool)
| OpResume (p : RotationParams)
| OpAbandon (p : RotationParams)
| OpBreakGlass (input : BreakGlassInput)
| JobRecoverStale (orgId : Uuid)
| JobAlertStaleStaged (orgId : Uuid)
| JobExpireOverlap (orgId : Uuid)
| JobPruneVersions (orgId : Uuid) (dryRun : bool).

Section system.
Context `{Platform, NodeCrypto, Unicode, OtpAuth, Locale, Env}.

(** A request: its transaction, the response dropped. *)
Definition request {A} (m : M A) : M unit := transaction (_ ← m; mret tt).

(** A job runs its own transactions. *)
Definition job {A} (m : M A) : M unit := _ ← m; mret tt.

Definition runOp (o : Op) : M unit :=
  match o with
  | OpCreateCredential orgId projectId userId body =>
      request (createCredentialWithFirstVersion orgId projectId userId body)
  | OpAddVersion orgId credentialId projectId userId body =>
      request (addCredentialVersion orgId credentialId projectId userId body)
  | OpArchive credentialId userId => request (archiveCredential credentialId userId)
  | OpUnarchive credentialId => request (unarchiveCredential credentialId)
  | OpUpdateTags credentialId projectId tags mode =>
      request (updateCredentialTags credentialId projectId tags mode)
  | OpInitiate input => request (initiateRotation input)
  | OpConfirm p itemId userId notes => request (confirmChecklistItem p itemId userId notes)
  | OpFail p itemId userId reason scheduled => request (failChecklistItem p itemId userId reason scheduled)
  | OpRetry p itemId userId => request (retryChecklistItem p itemId userId)
  | OpPromote p body => request (promoteRotation p body)
  | OpRetire p body => request (retireRotation p body)
  | OpComplete p ack => request (completeRotation p ack)
  | OpResume p => request (resumeRotation p)
  | OpAbandon p => request (abandonRotation p)
  | OpBreakGlass input => request (breakGlassRotation input)
  | JobRecoverStale orgId => job (recoverStaleRotationsForOrg orgId)
  | JobAlertStaleStaged orgId => job (alertStaleStagedForOrg orgId)
  | JobExpireOverlap orgId => job (expireOverlapForOrg orgId)
  | JobPruneVersions orgId dryRun => job (pruneOrgCredentialVersionsIsolated orgId dryRun)
  end.

Inductive Reaches (db : Db) : Db -> Prop :=
| reaches_refl : Reaches db db
| reaches_op w o : Reaches db (w_db w) -> Reaches db (w_db (snd (runOp o w))).

(** ** Refinement *)

Lemma refinesAll_request {A} (m : M A) : refines m -> refinesAll (request m).
Proof.
  intros Hm. apply refines_transaction, refines_bind; [done|]. intros a. apply refines_frame. life_frame.
Qed.
Lemma refinesAll_job {A} (m : M A) : refinesAll m -> refinesAll (job m).
Proof. intros Hm. apply refinesAll_bind; [done|]. intros a. apply refinesAll_frame. life_frame. Qed.

Lemma refines_runOp o : refinesAll (runOp o).
Proof.
  destruct o; cbn [runOp]; (apply refinesAll_job || apply refinesAll_request).
  - apply refines_create.
  - apply refines_addVersion.
  - apply refinesAll_refines, refines_archive.
  - apply refinesAll_refines, refines_unarchive.
  - apply refinesAll_refines, refines_tags.
  - apply refines_initiate.
  - apply refinesAll_refines, refines_confirm.
  - apply refinesAll_refines, refines_fail.
  - apply refinesAll_refines, refines_retry.
  - apply refinesAll_refines, refines_promote.
  - apply refinesAll_refines, refines_retire.
  - apply refinesAll_refines, refines_complete.
  - apply refinesAll_refines, refines_resume.
  - apply refinesAll_refines, refines_abandon.
  - apply refines_breakGlass.
  - apply refines_recoverStale.
  - apply refines_alertStaleStaged.
  - apply refines_expireOverlap.
  - apply refines_pruneOrg.
Qed.

(** A sequence of operations in one process. *)
Fixpoint runAll (ops : list Op) (w : World) : World :=
  match ops with
  | [] => w
  | o :: ops' => runAll ops' (snd (runOp o w))
  end.

Lemma Reaches_runAll db ops w : Reaches db (w_db w) -> Reaches db (w_db (runAll ops w)).
Proof. revert w. induction ops as [|o ops IH]; intros w Hr; [done|]. by apply IH, reaches_op. Qed.

Lemma runOp_evolves o w : DbInv (w_db w) -> Evolves (w_db w) (w_db (snd (runOp o w))).
Proof. intros HI. apply (wp_snd _ (fun w' => Evolves (w_db w) (w_db w'))). by apply refines_runOp. Qed.

Lemma Reaches_evolves db db' : DbInv db -> Reaches db db' -> Evolves db db'.
Proof.
  intros HI. induction 1 as [|w o Hr IH]; [apply Evolves_refl|].
  eapply Evolves_trans; [exact IH|]. apply runOp_evolves. by eapply Evolves_DbInv.
Qed.

(** C3: refinement: every request and every scheduled job, on any database that
    satisfies the invariant, with any clock, locks and keys, and whether it
    succeeds, fails or throws, moves the rotations and credential versions only
    by transitions of the abstract life cycle, and keeps the invariant. *)
Theorem operations_refine_lifecycle o w :
  DbInv (w_db w) ->
  Steps (lstate (w_db w)) (lstate (w_db (snd (runOp o w)))) /\ DbInv (w_db (snd (runOp o w))).
Proof.
  intros HI. pose proof (runOp_evolves o w HI) as He. split; [apply He|]. by eapply Evolves_DbInv.
Qed.

(** C1: in every database that any sequence of operations reaches, a credential
    has at most one active rotation, and the version an active rotation
    supersedes is still usable (neither purged nor abandoned) and locked
    against purging, and a promoted rotation's new version is live. *)
Theorem active_rotation_retains_previous db0 db :
  DbInv db0 -> Reaches db0 db ->
  (forall r s, r ∈ db_rotations db -> s ∈ db_rotations db -> isActive r = true -> isActive s = true ->
     rot_credentialId r = rot_credentialId s -> r = s) /\
  (forall r, r ∈ db_rotations db -> isActive r = true ->
     exists p n, p ∈ db_versions db /\ cv_id p = rot_previousVersionId r /\
       cv_credentialId p = rot_credentialId r /\ usable p /\ cv_rotationLockedAt p <> None /\
       n ∈ db_versions db /\ cv_id n = rot_newVersionId r /\ cv_credentialId n = rot_credentialId r /\
       (cv_versionNumber p < cv_versionNumber n)%Z /\
       (rot_status r = staged -> cv_promotedAt n = None) /\
       (rot_status r = promoted -> cv_promotedAt n <> None)).
Proof.
  intros HI Hr. pose proof (Evolves_DbInv _ _ (Reaches_evolves _ _ HI Hr) HI) as [HI' _]. split.
  - exact (inv_one_active _ HI').
  - intros r Hin Ha. destruct (inv_linked _ HI' r Hin Ha) as (p & n & []). exists p, n. done.
Qed.

(** C2: no sequence of operations makes a credential lose its last usable
    version: every credential that has a version has one that is neither purged
    nor abandoned and that no abandonment of an open rotation would withdraw;
    a version in its break-glass overlap is kept, locked, until the overlap ends. *)
Theorem last_usable_version_kept db0 db v :
  DbInv db0 -> Reaches db0 db -> v ∈ db_versions db ->
  (exists s, s ∈ db_versions db /\ cv_credentialId s = cv_credentialId v /\ usable s /\
     forall r, r ∈ db_rotations db -> rot_newVersionId r = cv_id s -> abandonable r = false) /\
  (cv_breakGlassOverlapExpiresAt v <> None -> cv_rotationLockedAt v <> None /\ cv_purgedAt v = None).
Proof.
  intros HI Hr Hv. pose proof (Evolves_DbInv _ _ (Reaches_evolves _ _ HI Hr) HI) as [HI' _]. split.
  - destruct (inv_kept _ HI' v Hv) as (s & (Hs & Hu & Hw) & Hc). exists s. split; [done|]. split; [done|].
    split; [done|]. intros r Hin Hid. apply not_true_iff_false. intros Ha. apply Hw. by exists r.
  - intros Ho. destruct (inv_overlap _ HI' v Hv Ho) as (? & ? & _). done.
Qed.

(** A rotation is never deleted; whatever operations run, its identity and
    its two versions stay, its optimistic version never decreases and its
    status moves along the edges of the status graph only, so that a retired,
    completed, abandoned or break-glass rotation stays as it is. *)
Theorem rotation_status_graph db db' r :
  DbInv db -> Reaches db db' -> r ∈ db_rotations db ->
  exists r', r' ∈ db_rotations db' /\ follows r r' /\
    (terminal (rot_status r) = true -> rot_status r' = rot_status r).
Proof.
  intros HI Hr Hin. pose proof (Reaches_evolves _ _ HI Hr) as He.
  destruct (Steps_follows _ _ r (ev_steps _ _ He) (di_life _ HI) Hin) as (r' & Hin' & Hf).
  exists r'. split; [done|]. split; [done|]. intros Ht. apply terminal_edge; [done|apply Hf].
Qed.
End system.

(** ** Witnesses *)

Lemma DbInv_noVersions db : db_rotations db = [] -> db_versions db = [] -> DbInv db.
Proof.
  intros Hr Hv. constructor; [|by rewrite Hv; intros v ?%not_elem_of_nil].
  unfold lstate. rewrite Hr, Hv. apply Inv_empty.
Qed.

#[local] Existing Instances byteLocale toyPlatform toyCrypto toyEnv toyOtpAuth.

(** A credential, a rotation, its promotion, an emergency replacement refused
    by the promoted rotation, the purge of old versions, and the retirement. *)
Definition demoOps : list Op :=
  [OpCreateCredential 1 2 7 demoBody; OpInitiate (demoInitiate "second secret");
   OpConfirm demoParams demoItem 7 None; OpPromote demoParams ackAll;
   OpBreakGlass (MkBreakGlassInput 1 2 demoCredential 7 "third secret" "incident" 60 300);
   JobPruneVersions 1 false].
Definition demoEnd : World := runAll demoOps (worldOf demoDb).

Lemma demoEnd_reached : Reaches demoDb (w_db demoEnd).
Proof. apply Reaches_runAll. apply reaches_refl. Qed.

Lemma operations_refine_lifecycle_witness :
  Steps (lstate demoDb) (lstate (w_db (snd (runOp (OpCreateCredential 1 2 7 demoBody) (worldOf demoDb))))) /\
  length (db_versions (w_db (snd (runOp (OpCreateCredential 1 2 7 demoBody) (worldOf demoDb))))) = 1.
Proof.
  split; [|by vm_compute].
  exact (proj1 (operations_refine_lifecycle (OpCreateCredential 1 2 7 demoBody) (worldOf demoDb)
    (DbInv_noVersions demoDb eq_refl eq_refl))).
Defined.

Lemma active_rotation_retains_previous_witness :
  map rot_status (db_rotations (w_db demoEnd)) = [promoted] /\
  forall r s, r ∈ db_rotations (w_db demoEnd) -> s ∈ db_rotations (w_db demoEnd) ->
    isActive r = true -> isActive s = true -> rot_credentialId r = rot_credentialId s -> r = s.
Proof.
  split; [by vm_compute|].
  exact (proj1 (active_rotation_retains_previous demoDb (w_db demoEnd)
    (DbInv_noVersions demoDb eq_refl eq_refl) demoEnd_reached)).
Defined.

Lemma last_usable_version_kept_witness :
  exists v s, v ∈ db_versions (w_db demoEnd) /\ s ∈ db_versions (w_db demoEnd) /\
    cv_credentialId s = cv_credentialId v /\ usable s.
Proof.
  destruct (db_versions (w_db demoEnd)) as [|v l] eqn:E; [by vm_compute in E|].
  assert (Hv : v ∈ db_versions (w_db demoEnd)) by (rewrite E; left).
  destruct (proj1 (last_usable_version_kept demoDb (w_db demoEnd) v
    (DbInv_noVersions demoDb eq_refl eq_refl) demoEnd_reached Hv)) as (s & Hs & Hc & Hu & _).
  exists v, s. rewrite E in Hs. split; [apply elem_of_cons; by left|]. split; [exact Hs|]. split; [exact Hc|exact Hu].
Defined.

Lemma demo_DbInv : DbInv (w_db demoEnd).
Proof.
  eapply Evolves_DbInv; [|apply (DbInv_noVersions demoDb eq_refl eq_refl)].
  apply Reaches_evolves; [by apply DbInv_noVersions|apply demoEnd_reached].
Qed.

Lemma rotation_status_graph_witness :
  exists r r', r ∈ db_rotations (w_db demoEnd) /\
    r' ∈ db_rotations (w_db (runAll [OpRetire demoParams ackAll] demoEnd)) /\ follows r r' /\
    rot_status r = promoted.
Proof.
  destruct (db_rotations (w_db demoEnd)) as [|r l] eqn:E; [by vm_compute in E|].
  assert (Hr : r ∈ db_rotations (w_db demoEnd)) by (rewrite E; left).
  assert (Hs : Some (rot_status r) = head (map rot_status (db_rotations (w_db demoEnd)))) by by rewrite E.
  destruct (rotation_status_graph (w_db demoEnd) (w_db (runAll [OpRetire demoParams ackAll] demoEnd)) r
    demo_DbInv (Reaches_runAll _ [OpRetire demoParams ackAll] demoEnd (reaches_refl _)) Hr) as (r' & Hr' & Hf & _).
  exists r, r'. split; [apply elem_of_cons; by left|]. split; [exact Hr'|]. split; [exact Hf|].
  vm_compute in Hs. by injection Hs.
Defined.

(** The end of the story: retired, the first version destroyed, the second live. *)
Example demo_retired :
  let db := w_db (runAll [OpRetire demoParams ackAll] demoEnd) in
  map rot_status (db_rotations db) = [retired] /\
  map (fun v => (isNull (cv_encryptedValue v), isNull (cv_promotedAt v))) (db_versions db) =
    [(true, false); (false, false)].
Proof. by vm_compute. Qed.
