(* ===== verification/Checklist.v ===== *)
(** * The checklist: its creation and the bound on retries

    What an initiation writes as the rotation's checklist, and an invariant of
    every sequence of operations on the table of checklist items: identifiers
    are distinct and no item is retried more often than ROTATION_MAX_RETRIES. *)

From S2P Require Import Prelude Js Crypto FieldSet Store Tx QuotaGate AuditLog Notifications Credentials Rotation Transitions Workers Demo Lifecycle Effects RotationSpec Refinement RefinementWorkers System.
From Stdlib Require Import Ascii String.
From stdpp Require Import strings sets.

Local Open Scope string_scope.
Local Open Scope list_scope.
Local Open Scope pv_scope.

(** ** Computations that keep a property of the items *)

Section keeps.
Context (P : list ChecklistItemRow -> Prop).

Definition keeps {A} (m : M A) : Prop := forall w, P (db_items (w_db w)) ->
  wp m (fun _ w' => P (db_items (w_db w'))) w.
(** Only when no exception is thrown, which is enough inside a transaction. *)
Definition keepsOk {A} (m : M A) : Prop := forall w, P (db_items (w_db w)) ->
  wp m (fun o w' => match o with Ok _ => P (db_items (w_db w')) | Throw _ => True end) w.

Context {A B : Type}.

Lemma keeps_ok (m : M A) : keeps m -> keepsOk m.
Proof. intros Hm w HP. eapply wp_mono; [by apply Hm|]. by intros [a|e] w'. Qed.
Lemma keeps_readOnly (m : M A) : readOnly m -> keeps m.
Proof. intros Hm w HP. eapply wp_mono; [apply Hm|]. intros o w' [n ->]. exact HP. Qed.
Lemma keeps_usage (m : M A) : usageFrame m -> keeps m.
Proof. intros Hm w HP. eapply wp_mono; [apply Hm|]. by intros o w' (n & u & ->). Qed.
Lemma keeps_bind (m : M A) (k : A -> M B) : keeps m -> (forall a, keeps (k a)) -> keeps (m ≫= k).
Proof.
  intros Hm Hk w HP. apply wp_bind. eapply wp_mono; [by apply Hm|]. intros [a|e] w' HP'; [|done]. by apply Hk.
Qed.
Lemma keepsOk_bind (m : M A) (k : A -> M B) : keepsOk m -> (forall a, keepsOk (k a)) -> keepsOk (m ≫= k).
Proof.
  intros Hm Hk w HP. apply wp_bind. eapply wp_mono; [by apply Hm|]. intros [a|e] w' HP'; [|done]. by apply Hk.
Qed.
Lemma keeps_catch (m : M A) h : keeps m -> (forall e, keeps (h e)) -> keeps (catch m h).
Proof.
  intros Hm Hk w HP. apply wp_catch. eapply wp_mono; [by apply Hm|]. intros [a|e] w' HP'; [done|]. by apply Hk.
Qed.
Lemma keepsOk_catch (m : M A) h : keeps m -> (forall e, keepsOk (h e)) -> keepsOk (catch m h).
Proof.
  intros Hm Hk w HP. apply wp_catch. eapply wp_mono; [by apply Hm|]. intros [a|e] w' HP'; [done|]. by apply Hk.
Qed.
Lemma keeps_transaction (m : M A) : keepsOk m -> keeps (transaction m).
Proof.
  intros Hm w HP. apply wp_transaction. eapply wp_mono; [by apply Hm|]. by intros [a|e] w' HP'.
Qed.
End keeps.

Lemma keeps_foldM P {A B} (f : B -> A -> M B) b l : (forall b x, keeps P (f b x)) -> keeps P (foldM f b l).
Proof.
  intros Hf. revert b. induction l as [|x l IH]; intros b; cbn; [by apply keeps_readOnly, readOnly_ret|].
  apply keeps_bind; auto.
Qed.
Lemma keeps_forEachCollect P {A B} (f : A -> M B) l : (forall x, keeps P (f x)) -> keeps P (forEachCollect l f).
Proof.
  intros Hf. induction l as [|x l IH]; cbn; [by apply keeps_readOnly, readOnly_ret|].
  apply keeps_bind; [done|]. intros b. apply keeps_bind; [done|]. intros bs.
  by apply keeps_readOnly, readOnly_ret.
Qed.
Lemma keeps_forEachSequential P {A} (f : A -> M unit) l : (forall x, keeps P (f x)) -> keeps P (forEachSequential l f).
Proof.
  intros Hf. induction l as [|x l IH]; cbn; [by apply keeps_readOnly, readOnly_ret|]. by apply keeps_bind.
Qed.

(** The statements on the other tables. *)
Section others.
Context (P : list ChecklistItemRow -> Prop).
Lemma keeps_rotations p f : keeps P (updateWhere db_rotations p f).
Proof. by intros w. Qed.
Lemma keeps_versions p f : keeps P (updateWhere db_versions p f).
Proof. by intros w. Qed.
Lemma keeps_credentials p f : keeps P (updateWhere db_credentials p f).
Proof. by intros w. Qed.
Lemma keeps_insertRotation c r : keeps P (insertRow db_rotations c r).
Proof. intros w HP. unfold wp, insertRow. by destruct (existsb _ _). Qed.
Lemma keeps_insertVersion c r : keeps P (insertRow db_versions c r).
Proof. intros w HP. unfold wp, insertRow. by destruct (existsb _ _). Qed.
Lemma keeps_insertCredential c r : keeps P (insertRow db_credentials c r).
Proof. intros w HP. unfold wp, insertRow. by destruct (existsb _ _). Qed.
Lemma keeps_insertQueue c r : keeps P (insertRow db_queue c r).
Proof. intros w HP. unfold wp, insertRow. by destruct (existsb _ _). Qed.
Lemma keeps_insertAudit c r : keeps P (insertRow db_audit c r).
Proof. intros w HP. unfold wp, insertRow. by destruct (existsb _ _). Qed.
Lemma keeps_seq : keeps P nextChainSeq.
Proof. by intros w. Qed.
Lemma keeps_gates `{Env} orgId eventType size : keeps P (assertOrgMayWriteAuditGates orgId eventType size).
Proof. apply keeps_usage, gates_frame. Qed.
End others.

Ltac items_keep :=
  repeat first
    [ apply keeps_rotations | apply keeps_versions | apply keeps_credentials | apply keeps_insertRotation
    | apply keeps_insertVersion | apply keeps_insertCredential | apply keeps_insertQueue
    | apply keeps_insertAudit | apply keeps_seq | apply keeps_gates
    | apply keeps_bind; [|intros ?]
    | apply keeps_catch; [|intros ?]
    | apply keeps_transaction, keeps_ok
    | apply keeps_foldM; intros ? ?
    | apply keeps_forEachCollect; intros ?
    | apply keeps_forEachSequential; intros ?
    | match goal with
      | |- keeps _ (if ?b then _ else _) => destruct b
      | |- keeps _ (match ?x with _ => _ end) => destruct x
      end
    | apply keeps_readOnly; solve [auto with pv] ].

(** ** The invariant *)

Section checklist.
Context `{Platform, NodeCrypto, Unicode, OtpAuth, Locale, Env}.

Record ItemsOk (items : list ChecklistItemRow) : Prop := {
  io_ids : NoDup (map item_id items);
  io_retries : forall i, i ∈ items -> (0 <= item_retryCount i <= ROTATION_MAX_RETRIES)%Z;
}.

Lemma ItemsOk_nil : ItemsOk [].
Proof. constructor; [constructor|]. by intros i Hi%not_elem_of_nil. Qed.

Lemma alert_keeps P orgId templateId payload severity :
  keeps P (enqueueSecurityAlertNotification orgId templateId payload severity).
Proof.
  unfold enqueueSecurityAlertNotification, createOrgAdminNotificationEntries, resolveRoutingRecipients,
    getMembersWithRole, getPreferencesBatch, processRecipientPreferences, processPreference,
    enqueueUserChannel, enqueueSlackEntry, nextDigestDeliveryTime, insertQueue. items_keep.
Qed.

Lemma rotationAlert_keeps P orgId candidate templateId severity payload :
  keeps P (dispatchRotationAlertNotifications orgId candidate templateId severity payload).
Proof.
  unfold dispatchRotationAlertNotifications, dispatchDirectUserNotification, getPreferences,
    processPreference, enqueueUserChannel, nextDigestDeliveryTime, insertQueue.
  apply keeps_bind; [items_keep|intros ?]. apply keeps_bind; [apply alert_keeps|]. intros ?. items_keep.
Qed.

Lemma appendAuditRow_keeps P orgId a t e r rt p s u : keeps P (appendAuditRow orgId a t e r rt p s u).
Proof.
  unfold appendAuditRow, readAuditChainHead, currentAuditKeyVersion, getPreviousEntryHmac, insertAuditRow.
  items_keep.
Qed.
Lemma writeSystemAuditRow_keeps P orgId e r p : keeps P (writeSystemAuditRow orgId e r p).
Proof.
  unfold writeSystemAuditRow. apply keeps_bind; [apply keeps_gates|]. intros ?. apply appendAuditRow_keeps.
Qed.

Lemma updateItems_keeps p f :
  (forall i, p i = true -> (0 <= item_retryCount i <= ROTATION_MAX_RETRIES)%Z ->
     item_id (f i) = item_id i /\ (0 <= item_retryCount (f i) <= ROTATION_MAX_RETRIES)%Z) ->
  keeps ItemsOk (updateItems p f).
Proof.
  intros Hf w [Hnd Hr]. unfold updateItems, wp, mbind, M_bind, dbNow, updateWhere. cbn. constructor.
  - unfold map_where. rewrite map_map. rewrite (map_ext_in _ item_id); [done|]. intros i Hi%list_elem_of_In. destruct (p i) eqn:Ep; [|done].
    by apply (Hf i Ep (Hr i Hi)).
  - intros j (i & -> & Hi)%elem_of_map. destruct (p i) eqn:Ep; [|by apply Hr].
    apply (Hf i Ep (Hr i Hi)).
Qed.

Lemma reserve_keeps p itemId v from f label :
  (forall i, itemScopeWhere (rp_rotationId p) itemId from i = true -> item_id (f i) = item_id i /\
     item_retryCount (f i) = item_retryCount i) ->
  keeps ItemsOk (reserveVersionAndUpdateItem p itemId v from f label).
Proof.
  intros Hf. unfold reserveVersionAndUpdateItem, reserveRotationVersion, casIncrementRotationVersion, updateRotations,
    findRotationInScope, assertUpdatedRow.
  apply keeps_bind; [items_keep|]. intros [newVersion|cv]; [|items_keep].
  apply keeps_bind; [|intros ?; items_keep]. apply updateItems_keeps. intros i Hi Hr.
  destruct (Hf i Hi) as [-> ->]. done.
Qed.

Lemma acquireLockAndItem_keeps P p itemId : keeps P (acquireLockAndItem p itemId).
Proof. unfold acquireLockAndItem, acquireAndLoadRotation, findChecklistItemInScope. items_keep. Qed.

Lemma confirm_keeps p itemId userId notes : keeps ItemsOk (confirmChecklistItem p itemId userId notes).
Proof.
  unfold confirmChecklistItem. apply keeps_bind; [apply acquireLockAndItem_keeps|]. intros [f|[r i]]; [items_keep|].
  destruct (_ =? _); [items_keep|]. apply keeps_bind; [items_keep|]. intros now.
  apply keeps_bind; [|intros ?; items_keep]. apply reserve_keeps. intros x _.
  destruct notes as [n|]; [|done]. by destruct (n =? "").
Qed.

Lemma fail_keeps p itemId userId reason scheduled : keeps ItemsOk (failChecklistItem p itemId userId reason scheduled).
Proof.
  unfold failChecklistItem. apply keeps_bind; [apply acquireLockAndItem_keeps|]. intros [f|[r i]]; [items_keep|].
  destruct (negb _); [items_keep|]. apply keeps_bind; [items_keep|]. intros now.
  apply keeps_bind; [by apply reserve_keeps|]. intros [[item v]|v]; [|items_keep].
  apply keeps_bind; [apply alert_keeps|intros ?; items_keep].
Qed.

Lemma acquireLockAndItem_spec p itemId w :
  wp (acquireLockAndItem p itemId) (fun o w' => sameDb w w' /\ forall r i, o = Ok (inr (r, i)) ->
    i ∈ db_items (w_db w) /\ item_id i = itemId) w.
Proof.
  unfold acquireLockAndItem. eapply wp_bind_eq; [apply acquireAndLoadRotation_eq|].
  destruct (scopedLockResult w p) as [v| |r]; try (apply wp_ret; by split; [apply sameDb_refl|]).
  destruct (negb _); [apply wp_ret; by split; [apply sameDb_refl|]|]. cbn [lockOutcomeToFailure].
  eapply wp_bind_eq; [reflexivity|]. apply wp_ret. split; [apply sameDb_refl|].
  destruct (head _) as [i|] eqn:E; [|by intros ? ? [=]]. intros r' i' [= <- <-].
  apply head_elem_of, elem_of_lfilter in E as [Hp Hi]. by bool_simpl.
Qed.

(** A retry is counted only below the maximum. *)
Lemma applyRetry_keeps p i userId v w :
  ItemsOk (db_items (w_db w)) -> i ∈ db_items (w_db w) -> (item_retryCount i < ROTATION_MAX_RETRIES)%Z ->
  wp (applyRetry p (item_id i) userId v) (fun _ w' => ItemsOk (db_items (w_db w'))) w.
Proof.
  intros HI Hi Hlt. unfold applyRetry.
  set (P := fun items : list ChecklistItemRow => ItemsOk items /\
    forall x, x ∈ items -> item_id x = item_id i -> (item_retryCount x < ROTATION_MAX_RETRIES)%Z).
  assert (HP : P (db_items (w_db w))).
  { split; [done|]. intros x Hx Ex. by rewrite (NoDup_key_inj item_id _ x i (io_ids _ HI) Hx Hi Ex). }
  apply wp_bind. eapply wp_mono; [apply (keeps_readOnly P); [auto with pv|exact HP]|]. intros [now|e] w1 HP1; [|apply HP1].
  unfold reserveVersionAndUpdateItem. apply wp_bind, wp_bind.
  eapply wp_mono; [apply (keeps_bind P); [| |exact HP1]|]; unfold casIncrementRotationVersion, updateRotations,
    findRotationInScope; [items_keep|intros ?; items_keep|].
  intros [[newVersion|cv]|e] w2 HP2; [|apply wp_ret, wp_ret, HP2|apply HP2].
  apply wp_bind. unfold updateItems at 1, wp at 1, mbind at 1, M_bind at 1, dbNow, updateWhere.
  assert (Hnew : ItemsOk (db_items (w_db (w2 <| w_db ::= fun db => db <| db_items ::= map_where
      (itemScopeWhere (rp_rotationId p) (item_id i) (Some failed)) (fun x => x <| item_status := unconfirmed |>
        <| item_retryCount := (item_retryCount x + 1)%Z |> <| item_lastActedBy := Some userId |>
        <| item_lastActedAt := Some now |> <| item_updatedAt := w_now w2 |>) |> |>)))).
  { destruct HP2 as [[Hnd Hr] Hb]. cbn. constructor.
    - rewrite (map_where_proj item_id); [done|by intros x].
    - intros y (x & -> & Hx)%elem_of_map. destruct (itemScopeWhere _ _ _ x) eqn:Es; [|by apply Hr].
      unfold itemScopeWhere in Es. bool_simpl. cbn. specialize (Hr x Hx). specialize (Hb x Hx ltac:(done)). lia. }
  apply wp_bind. unfold assertUpdatedRow. destruct (map _ _); [exact Hnew|]. apply wp_ret, wp_ret. exact Hnew.
Qed.

Lemma retry_keeps p itemId userId : keeps ItemsOk (retryChecklistItem p itemId userId).
Proof.
  intros w HI. unfold retryChecklistItem. apply wp_bind. eapply wp_mono; [apply acquireLockAndItem_spec|].
  intros [[f|[r i]]|e] w1 [Hs Hi]; rewrite <- (sameDb_db _ _ Hs) in HI; [exact HI| |exact HI].
  destruct (Hi r i eq_refl) as [Hin Eid]. rewrite <- (sameDb_db _ _ Hs) in Hin. subst itemId.
  destruct (negb _); [exact HI|]. cbv zeta. case_bool_decide as Hmax.
  - revert w1 Hs HI Hin. intros w1 _ HI _. revert w1 HI. change (keeps ItemsOk
      (applyMaxRetriesExceeded p (item_id i) userId (rot_version r) ROTATION_MAX_RETRIES)).
    unfold applyMaxRetriesExceeded. apply keeps_bind; [items_keep|]. intros now.
    apply keeps_bind; [by apply reserve_keeps|]. intros [[item v]|v]; [|items_keep].
    apply keeps_bind; [apply alert_keeps|intros ?; items_keep].
  - apply applyRetry_keeps; [done|done|lia].
Qed.

(** ** Initiation *)

(** The item a dependency gives. *)
Definition freshItem (orgId rotationId : Uuid) (dep : DependencyRow) (i : ChecklistItemRow) : Prop :=
  item_orgId i = orgId /\ item_rotationId i = rotationId /\ item_dependencyId i = Some (dep_id dep) /\
  item_systemName i = dep_systemName dep /\ item_status i = unconfirmed /\ item_retryCount i = 0%Z /\
  item_confirmedBy i = None.

Lemma insertChecklistItem_spec orgId rotationId dep w :
  wp (insertChecklistItem orgId rotationId dep) (fun o w' =>
    match o with
    | Ok i => freshItem orgId rotationId dep i /\ item_id i ∉ map item_id (db_items (w_db w)) /\
              exists n, w' = at_ w n ((w_db w) <| db_items := db_items (w_db w) ++ [i] |>)
    | Throw _ => db_items (w_db w') = db_items (w_db w)
    end) w.
Proof.
  unfold insertChecklistItem, wp, genRandomUuid, dbNow, insertRow, mbind, M_bind. cbv beta iota.
  destruct (existsb _ _) eqn:E; [done|]. split; [done|]. split; [|by eexists].
  intros (x & Ex & Hx)%elem_of_map. eapply not_true_iff_false; [exact E|]. apply existsb_exists. exists x.
  rewrite <- list_elem_of_In. split; [done|]. unfold itemConflict. by rewrite Ex, bool_decide_eq_true_2.
Qed.

Lemma insertItems_spec orgId rotationId deps w :
  wp (forEachCollect deps (insertChecklistItem orgId rotationId)) (fun o w' =>
    forall items, o = Ok items -> Forall2 (freshItem orgId rotationId) deps items /\
      exists n, w' = at_ w n ((w_db w) <| db_items := db_items (w_db w) ++ items |>)) w.
Proof.
  revert w. induction deps as [|d deps IH]; intros w; cbn [forEachCollect].
  - apply wp_ret. intros items [= <-]. split; [constructor|]. exists (w_tick w). rewrite app_nil_r.
    destruct w as [db]. by destruct db.
  - apply wp_bind. eapply wp_mono; [apply insertChecklistItem_spec|]. intros [i|e] w1; [|done].
    intros (Hi & _ & n & ->). apply wp_bind. eapply wp_mono; [apply IH|]. intros [items|e] w2; [|done].
    intros Hitems. destruct (Hitems items eq_refl) as (HF & n' & ->). apply wp_ret.
    intros ? [= <-]. split; [by constructor|]. exists n'. unfold at_. cbn. by rewrite <- app_assoc.
Qed.

Lemma insertItem_keeps orgId rotationId dep :
  (0 <= ROTATION_MAX_RETRIES)%Z -> keeps ItemsOk (insertChecklistItem orgId rotationId dep).
Proof.
  intros Hmax w HI. eapply wp_mono; [apply insertChecklistItem_spec|]. intros [i|e] w'; [|by intros ->].
  intros ((_ & _ & _ & _ & _ & Hr & _) & Hfresh & n & ->). destruct HI as [Hnd Hrs]. cbn. constructor.
  - rewrite map_app. apply NoDup_app. split; [done|]. split; [|apply NoDup_singleton].
    by intros x Hx ->%list_elem_of_singleton.
  - intros x [Hx|Hx%list_elem_of_singleton]%elem_of_app; [by apply Hrs|]. subst x. rewrite Hr. lia.
Qed.

Lemma initiate_keeps input : (0 <= ROTATION_MAX_RETRIES)%Z -> keepsOk ItemsOk (initiateRotation input).
Proof.
  intros Hmax. unfold initiateRotation. apply keepsOk_bind; [apply keeps_ok; items_keep|]. intros locked.
  destruct (negb locked).
  { intros w _. eapply wp_bind_eq; [reflexivity|]. eapply wp_bind_eq; [reflexivity|]. by apply wp_throw. }
  apply keepsOk_bind; [apply keeps_ok; unfold lockActiveInitiatorMembership; items_keep|]. intros active.
  destruct (negb active); [apply keeps_ok; items_keep|]. apply keepsOk_catch.
  - apply keeps_transaction, keeps_ok. unfold initiateInSavepoint, loadRotationTargetForUpdate,
      lockCredentialInProject, findCredentialIdInProject, isCredentialArchived, lockCurrentNonPurgedVersion,
      resolveInitiateRotationPreflight, computeSameValueAsPrevious, writeRotation, currentKeyVersion,
      nextCredentialVersionNumber, selectMaxVersionNumber, buildNewVersionInsertFields, insertVersion, updateVersions,
      insertRotation.
    with_strategy opaque [insertChecklistItem] items_keep. by apply insertItem_keeps.
  - intros e. apply keeps_ok. unfold findInProgressRotationId. items_keep.
Qed.

(** ** Every operation *)

Lemma recoverOne_keeps orgId c : keeps ItemsOk (recoverOneRotation orgId c).
Proof.
  unfold recoverOneRotation, withRotationScopedLock, updateRotations. apply keeps_transaction, keeps_ok.
  apply keeps_bind; [items_keep|]. intros locked. destruct (negb locked); [items_keep|].
  apply keeps_bind; [items_keep|]. intros ?. apply keeps_bind; [items_keep|]. intros [|r l]; [items_keep|].
  apply keeps_bind; [items_keep|]. intros ?. apply keeps_bind; [by apply updateItems_keeps|]. intros ?.
  apply keeps_bind; [apply writeSystemAuditRow_keeps|]. intros ?.
  apply keeps_bind; [apply rotationAlert_keeps|]. intros ?. items_keep.
Qed.

Lemma alertOne_keeps P orgId c : keeps P (alertOneRotation orgId c).
Proof.
  unfold alertOneRotation, withRotationScopedLock, updateRotations. apply keeps_transaction, keeps_ok.
  apply keeps_bind; [items_keep|]. intros locked. destruct (negb locked); [items_keep|].
  apply keeps_bind; [items_keep|]. intros ?. apply keeps_bind; [items_keep|]. intros ?.
  apply keeps_bind; [items_keep|]. intros [|r l]; [items_keep|].
  apply keeps_bind; [apply writeSystemAuditRow_keeps|]. intros ?.
  apply keeps_bind; [apply rotationAlert_keeps|]. intros ?. items_keep.
Qed.

Lemma expireOne_keeps P orgId v c : keeps P (expireOneVersion orgId v c).
Proof.
  unfold expireOneVersion, updateVersions. apply keeps_transaction, keeps_ok.
  apply keeps_bind; [items_keep|]. intros locked. destruct (negb locked); [items_keep|].
  apply keeps_bind; [items_keep|]. intros ?. apply keeps_bind; [items_keep|]. intros [|r l]; [items_keep|].
  apply keeps_bind; [apply writeSystemAuditRow_keeps|]. intros ?. items_keep.
Qed.

Lemma purgeVersion_keeps P orgId c : keeps P (purgeVersion orgId c).
Proof.
  unfold purgeVersion, zeroOverwriteCredentialVersionValue, updateVersions.
  apply keeps_bind; [items_keep|]. intros [v|]; [|items_keep].
  apply keeps_bind; [items_keep|]. intros ?. apply keeps_bind; [items_keep|]. intros ?.
  apply keeps_bind; [items_keep|]. intros ?. cbv zeta. apply keeps_bind; [items_keep|]. intros ?.
  apply keeps_bind; [apply appendAuditRow_keeps|]. intros ?. apply keeps_bind; [items_keep|]. intros [r|]; [|items_keep].
  apply keeps_bind; [apply writeSystemAuditRow_keeps|]. intros ?. items_keep.
Qed.

Lemma transition_keeps P p v set from : keeps P (casTransitionRotation p v set from).
Proof. unfold casTransitionRotation, updateRotations, findRotationInScope. items_keep. Qed.

Lemma ready_keeps P p body st : keeps P (acquireLoadAndAcknowledgeRotation p body st).
Proof. unfold acquireLoadAndAcknowledgeRotation, acquireAndLoadRotationExpecting, loadChecklistItems. items_keep. Qed.

Lemma promote_keeps P p body : keeps P (promoteRotation p body).
Proof.
  unfold promoteRotation, updateVersions. apply keeps_bind; [apply ready_keeps|]. intros [f|r]; [items_keep|].
  apply keeps_bind; [items_keep|]. intros ?. apply keeps_bind; [apply transition_keeps|]. intros ?. items_keep.
Qed.

Lemma retire_keeps P p body : keeps P (retireRotation p body).
Proof.
  unfold retireRotation, zeroOverwriteCredentialVersionValue, updateVersions.
  apply keeps_bind; [apply ready_keeps|]. intros [f|r]; [items_keep|].
  apply keeps_bind; [items_keep|]. intros ?. apply keeps_bind; [apply transition_keeps|]. intros ?. items_keep.
Qed.

Lemma complete_keeps P p ack : keeps P (completeRotation p ack).
Proof.
  unfold completeRotation, acquireAndLoadRotation, loadChecklistItems, updateVersions. cbv zeta.
  apply keeps_bind; [items_keep|]. intros [v| |r|r]; [items_keep..|].
  apply keeps_bind; [items_keep|]. intros items. case_bool_decide; [items_keep|]. destruct (_ && _); [items_keep|].
  apply keeps_bind; [items_keep|]. intros ?. apply keeps_bind; [apply transition_keeps|]. intros ?. items_keep.
Qed.

Lemma resume_keeps P p : keeps P (resumeRotation p).
Proof.
  unfold resumeRotation, acquireAndLoadStaleRotation, loadChecklistItems.
  apply keeps_bind; [items_keep|]. intros [f|r]; [items_keep|].
  apply keeps_bind; [apply transition_keeps|]. intros ?. items_keep.
Qed.

Lemma abandon_keeps P p : keeps P (abandonRotation p).
Proof.
  unfold abandonRotation, acquireAndLoadAbandonableRotation, loadChecklistItems, updateVersions.
  apply keeps_bind; [items_keep|]. intros [f|r]; [items_keep|].
  apply keeps_bind; [apply transition_keeps|]. intros ?. items_keep.
Qed.

Lemma breakGlass_keeps P input : keeps P (breakGlassRotation input).
Proof.
  unfold breakGlassRotation, lockCredentialInProject, findCredentialIdInProject, currentVersionHasTotpField,
    selectCurrentVersionMeta, findRecentDuplicateBreakGlass, buildDedupedBreakGlassResult, activeDependentSystems,
    supersedeActiveRotation, writeBreakGlass, createBreakGlassVersion, lockCurrentNonPurgedVersion,
    nextCredentialVersionNumber, selectMaxVersionNumber, currentKeyVersion, insertVersion, insertRotation,
    updateVersions, updateRotations. cbv zeta. items_keep.
Qed.

Lemma create_keeps P orgId projectId userId body : keeps P (createCredentialWithFirstVersion orgId projectId userId body).
Proof.
  unfold createCredentialWithFirstVersion, currentKeyVersion, insertCredential, insertVersionAndSetCurrent,
    insertVersion, updateCredentials. cbv zeta. items_keep.
Qed.

Lemma addVersion_keeps P orgId credentialId projectId userId body :
  keeps P (addCredentialVersion orgId credentialId projectId userId body).
Proof.
  unfold addCredentialVersion, lockCredentialInProject, findCredentialIdInProject, currentFieldKeys,
    currentFieldsForDiff, selectCurrentVersionMeta, selectMaxVersionNumber, currentKeyVersion,
    insertVersionAndSetCurrent, insertVersion, updateCredentials. cbv zeta. items_keep.
Qed.

Lemma archival_keeps P credentialId userId :
  keeps P (archiveCredential credentialId userId) /\ keeps P (unarchiveCredential credentialId).
Proof. unfold archiveCredential, unarchiveCredential, updateCredentials. split; items_keep. Qed.

Lemma tags_keeps P credentialId projectId tags mode : keeps P (updateCredentialTags credentialId projectId tags mode).
Proof. unfold updateCredentialTags, updateCredentials. cbv zeta. items_keep. Qed.

Lemma forEachIsolated_keeps P {A} (l : list A) one : (forall x, keeps P (one x)) -> keeps P (forEachIsolated l one).
Proof.
  intros Hone. unfold forEachIsolated. apply keeps_bind; [|intros ?; items_keep].
  apply keeps_forEachCollect. intros x. apply keeps_bind; [|intros ?; items_keep].
  apply keeps_catch; [done|]. intros ?. items_keep.
Qed.

Lemma pruneOrg_keeps P orgId dryRun : keeps P (pruneOrgCredentialVersionsIsolated orgId dryRun).
Proof.
  unfold pruneOrgCredentialVersionsIsolated, pruneOrgCredentialVersions. apply keeps_catch; [|intros ?; items_keep].
  apply keeps_bind; [|intros ?; items_keep]. apply keeps_bind; [items_keep|]. intros credentials.
  apply keeps_bind; [|intros ?; items_keep]. apply keeps_forEachCollect. intros c. apply keeps_transaction, keeps_ok.
  unfold pruneCredential, purgeCandidatesForCredential. apply keeps_bind; [items_keep|]. intros candidates.
  destruct (_ =? _); [items_keep|]. destruct dryRun; [items_keep|]. apply keeps_bind; [|intros ?; items_keep].
  apply keeps_forEachCollect. intros ?. apply purgeVersion_keeps.
Qed.

Lemma keeps_request P {A} (m : M A) : keepsOk P m -> keeps P (request m).
Proof. intros Hm. apply keeps_transaction, keepsOk_bind; [done|]. intros a. apply keeps_ok. items_keep. Qed.
Lemma keeps_job P {A} (m : M A) : keeps P m -> keeps P (job m).
Proof. intros Hm. apply keeps_bind; [done|]. intros a. items_keep. Qed.

Lemma runOp_keeps o : (0 <= ROTATION_MAX_RETRIES)%Z -> keeps ItemsOk (runOp o).
Proof.
  intros Hmax. destruct o; cbn [runOp]; first
    [ apply keeps_request; first [by apply initiate_keeps|apply keeps_ok] | apply keeps_job ].
  - apply create_keeps.
  - apply addVersion_keeps.
  - by apply archival_keeps.
  - apply archival_keeps; exact 0%N.
  - apply tags_keeps.
  - apply confirm_keeps.
  - apply fail_keeps.
  - apply retry_keeps.
  - apply promote_keeps.
  - apply retire_keeps.
  - apply complete_keeps.
  - apply resume_keeps.
  - apply abandon_keeps.
  - apply breakGlass_keeps.
  - unfold recoverStaleRotationsForOrg, findStaleRotations, findRotationCandidates.
    apply keeps_bind; [items_keep|]. intros ?. apply forEachIsolated_keeps. intros ?. apply recoverOne_keeps.
  - unfold alertStaleStagedForOrg, findStaleStagedRotations, findRotationCandidates.
    apply keeps_bind; [items_keep|]. intros ?. apply forEachIsolated_keeps. intros ?. apply alertOne_keeps.
  - unfold expireOverlapForOrg, findExpiredOverlapVersions. apply keeps_bind; [items_keep|]. intros ?.
    apply keeps_forEachSequential. intros ?. apply keeps_catch; [apply expireOne_keeps|]. intros ?. items_keep.
  - apply pruneOrg_keeps.
Qed.
Lemma Reaches_items db0 db :
  (0 <= ROTATION_MAX_RETRIES)%Z -> ItemsOk (db_items db0) -> Reaches db0 db -> ItemsOk (db_items db).
Proof.
  intros Hmax HI. induction 1 as [|w o Hr IH]; [done|].
  apply (wp_snd _ (fun w' => ItemsOk (db_items (w_db w')))). by apply runOp_keeps.
Qed.

(** ** What an initiation creates *)

(** The checklist of a rotation just staged, [before] being the items so far. *)
Definition CreatesChecklist (orgId credentialId : Uuid) (before : list ChecklistItemRow)
    (o : Outcome InitiateRotationResult) (w' : World) : Prop :=
  forall rotation items same confirmedSame, o = Ok (Initiated rotation items same confirmedSame) ->
    rot_status rotation = staged /\ rot_version rotation = 1%Z /\ rot_credentialId rotation = credentialId /\
    rotation ∈ db_rotations (w_db w') /\
    Forall2 (freshItem orgId (rot_id rotation))
      (List.filter (dependencyChecklistFilter orgId credentialId (rot_targetFields rotation))
         (db_dependencies (w_db w'))) items /\
    db_items (w_db w') = before ++ items.

Section creates.
Context (orgId credentialId : Uuid) (before : list ChecklistItemRow).
Local Notation Post := (CreatesChecklist orgId credentialId before).
Local Notation same items := (before = items).

Lemma creates_throw e w : Post (Throw e) w.
Proof. intros ? ? ? ?. discriminate. Qed.

Lemma creates_bind {A} (m : M A) k w :
  keeps (fun items => same items) m -> same (db_items (w_db w)) ->
  (forall a w', same (db_items (w_db w')) -> wp (k a) Post w') -> wp (m ≫= k) Post w.
Proof.
  intros Hm Hw Hk. apply wp_bind. eapply wp_mono; [by apply Hm|]. intros [a|e] w' Hw'; [by apply Hk|apply creates_throw].
Qed.

Lemma creates_other r w : match r with Initiated _ _ _ _ => False | _ => True end -> wp (mret r) Post w.
Proof. intros Hr. apply wp_ret. intros ? ? ? ? [= ->]. done. Qed.
End creates.

Lemma writeRotation_creates input previousVersion pf before w :
  before = db_items (w_db w) ->
  wp (writeRotation input previousVersion pf) (CreatesChecklist (ii_orgId input) (ii_credentialId input) before) w.
Proof.
  intros Hw. unfold writeRotation.
  apply creates_bind; [unfold currentKeyVersion; items_keep|done|]. clear w Hw. intros keyVersion w Hw.
  apply creates_bind; [unfold nextCredentialVersionNumber, selectMaxVersionNumber; items_keep|done|]. clear w Hw. intros number w Hw.
  apply creates_bind; [unfold buildNewVersionInsertFields; items_keep|done|]. clear w Hw. intros fields w Hw.
  apply creates_bind; [unfold insertVersion; items_keep|done|]. clear w Hw. intros newVersion w Hw.
  apply creates_bind; [items_keep|done|]. clear w Hw. intros lockedAt w Hw.
  apply creates_bind; [unfold updateVersions; items_keep|done|]. clear w Hw. intros _ w Hw.
  eapply wp_bind_eq; [reflexivity|]. apply wp_bind. unfold insertRotation at 1, wp at 1, genRandomUuid at 1, dbNow at 1,
    insertRow at 1, mbind at 1 2, M_bind at 1 2. cbv beta iota.
  destruct (existsb _ _); [apply creates_throw|].
  apply wp_bind. eapply wp_mono; [apply insertItems_spec|]. intros [items|e] w1; [|intros; apply creates_throw].
  intros Hitems. destruct (Hitems items eq_refl) as (HF & n & ->). apply wp_ret. intros ? ? ? ? [= <- <- _ _].
  do 3 (split; [done|]). split; [cbn; set_solver|]. split; [exact HF|]. rewrite Hw. done.
Qed.

Lemma initiate_creates input w :
  wp (initiateRotation input)
    (CreatesChecklist (ii_orgId input) (ii_credentialId input) (db_items (w_db w))) w.
Proof.
  unfold initiateRotation. generalize (eq_refl (db_items (w_db w))). generalize (db_items (w_db w)) at 1 3. intros before Hw.
  apply creates_bind; [items_keep|done|]. clear w Hw. intros locked w Hw. destruct (negb locked).
  { eapply wp_bind_eq; [reflexivity|]. eapply wp_bind_eq; [reflexivity|]. apply creates_throw. }
  apply creates_bind; [unfold lockActiveInitiatorMembership; items_keep|done|]. clear w Hw. intros active w Hw.
  destruct (negb active); [by apply creates_other|]. apply wp_catch, wp_transaction.
  enough (Hin : wp (initiateInSavepoint input) (CreatesChecklist (ii_orgId input) (ii_credentialId input) before) w).
  { eapply wp_mono; [exact Hin|]. intros [a|e] w' HQ; [exact HQ|]. cbv beta iota. destruct (isUniqueViolation e);
      [|apply creates_throw]. eapply wp_bind_eq; [reflexivity|]. apply creates_throw. }
  unfold initiateInSavepoint. apply creates_bind; [|done|].
  { unfold loadRotationTargetForUpdate, lockCredentialInProject, findCredentialIdInProject, isCredentialArchived,
      lockCurrentNonPurgedVersion. items_keep. }
  clear w Hw. intros [| | |previousVersion] w Hw; [by apply creates_other..|].
  apply wp_bind. eapply wp_mono with (Q := fun o w' => before = db_items (w_db w') /\
    forall r, o = Ok (inl r) -> match r with Initiated _ _ _ _ => False | _ => True end).
  2:{ intros [[r|pf]|e] w' [Hw' Hr]; [by apply creates_other, Hr|by apply writeRotation_creates|apply creates_throw]. }
  unfold resolveInitiateRotationPreflight.
  destruct (validateTargetFields _ _ _) as [targets|f]; [|apply wp_ret; split; [done|]; by intros ? [= <-]].
  destruct (_ ≫= _); [apply wp_ret; split; [done|]; by intros ? [= <-]|]. cbv zeta.
  destruct (validateFieldValues _ _) as [|m x]; [|apply wp_ret; split; [done|]; by intros ? [= <-]].
  assert (Hk : keeps (fun items => before = items)
    (computeSameValueAsPrevious previousVersion targets (irb_newValue (ii_body input))
       (normalizeFieldValues (irb_fieldValues (ii_body input))))) by
    (unfold computeSameValueAsPrevious; items_keep).
  apply wp_bind. eapply wp_mono; [exact (Hk w Hw)|].
  intros [[[same sameField] plaintext]|e] w' Hw'; [|done].
  destruct (_ && _); apply wp_ret; (split; [done|]); by intros ? [= <-].
Qed.

(** An initiation that succeeds stages a rotation at version 1 whose
    checklist is exactly one fresh item (unconfirmed, never retried, confirmed
    by nobody) per dependency that its target fields select, in their order;
    the items are appended to the table and nothing else is. *)
Theorem initiate_creates_checklist input w rotation items same confirmedSame w' :
  initiateRotation input w = (Ok (Initiated rotation items same confirmedSame), w') ->
  rot_status rotation = staged /\ rot_version rotation = 1%Z /\ rot_credentialId rotation = ii_credentialId input /\
  rotation ∈ db_rotations (w_db w') /\
  Forall2 (freshItem (ii_orgId input) (rot_id rotation))
    (List.filter (dependencyChecklistFilter (ii_orgId input) (ii_credentialId input) (rot_targetFields rotation))
       (db_dependencies (w_db w'))) items /\
  db_items (w_db w') = db_items (w_db w) ++ items.
Proof.
  intros E. pose proof (initiate_creates input w) as Hc. unfold wp in Hc. rewrite E in Hc. by eapply Hc.
Qed.

(** Whatever requests and jobs run, in any order, identifiers of checklist
    items stay distinct and no item is ever retried more than
    ROTATION_MAX_RETRIES times. *)
Theorem retries_bounded db0 db i :
  (0 <= ROTATION_MAX_RETRIES)%Z -> ItemsOk (db_items db0) -> Reaches db0 db ->
  NoDup (map item_id (db_items db)) /\
  (i ∈ db_items db -> (0 <= item_retryCount i <= ROTATION_MAX_RETRIES)%Z).
Proof.
  intros Hmax HI Hr. destruct (Reaches_items db0 db Hmax HI Hr) as [Hnd Hb]. split; [done|]. apply Hb.
Qed.
End checklist.

(** ** Witnesses *)

#[local] Existing Instances byteLocale toyPlatform toyCrypto toyEnv toyOtpAuth.

Lemma initiate_creates_checklist_witness :
  exists rotation items w', initiateRotation (demoInitiate "second secret") created =
      (Ok (Initiated rotation items false false), w') /\
    map item_systemName items = ["billing"] /\ db_items (w_db w') = db_items (w_db created) ++ items.
Proof.
  destruct (initiateRotation (demoInitiate "second secret") created) as [[[| | | | | | |r items s c]|e] w'] eqn:E;
    try (vm_compute in E; discriminate E).
  assert (Hi : map item_systemName items = ["billing"] /\ s = false /\ c = false).
  { vm_compute in E. injection E as <- <- <- <- <-. done. }
  destruct Hi as (Hi & -> & ->). exists r, items, w'. split; [done|]. split; [exact Hi|].
  exact (proj2 (proj2 (proj2 (proj2 (proj2 (initiate_creates_checklist _ _ _ _ _ _ _ E)))))).
Defined.

(** The bound on the demonstration's item after a sequence of operations. *)
Lemma retries_bounded_witness :
  NoDup (map item_id (db_items (w_db demoEnd))) /\ length (db_items (w_db demoEnd)) = 1%nat.
Proof.
  split; [|by vm_compute].
  refine (proj1 (retries_bounded demoDb (w_db demoEnd)
    (MkChecklistItemRow 0 0 0 None "" unconfirmed None None None 0 None None None None 0 0) _ ItemsOk_nil demoEnd_reached)).
  by vm_compute.
Defined.
