(* ===== verification/Liveness.v ===== *)
(** * Liveness: an open rotation can always be closed

    From any database that satisfies the invariants, a fixed sequence of
    requests takes an open rotation to a terminal status, in every world where
    no other session holds the rotation's lock: a staged or stale rotation is
    abandoned, a promoted one retired, and an in-progress one completed once
    each item of its checklist is confirmed.  No rotation is stuck. *)

From S2P Require Import Prelude Js Crypto FieldSet Store Tx QuotaGate AuditLog Notifications Credentials Rotation Transitions Workers Demo Lifecycle Effects RotationSpec Refinement RefinementWorkers System Checklist.
From Stdlib Require Import Ascii String.
From stdpp Require Import strings sets.

Local Open Scope string_scope.
Local Open Scope list_scope.
Local Open Scope pv_scope.

Definition paramsOf (r : RotationRow) : RotationParams :=
  MkRotationParams (rot_orgId r) (rot_projectId r) (rot_credentialId r) (rot_id r).

(** Acknowledges whatever a checklist leaves open. *)
Definition ackEverything : AckBody := MkAckBody (Some true) (Some true).

(** The requests that close a rotation, the items of its checklist known. *)
Definition closingOps (db : Db) (userId : Uuid) (r : RotationRow) : list Op :=
  match rot_status r with
  | staged | stale_recovery => [OpAbandon (paramsOf r)]
  | promoted => [OpRetire (paramsOf r) ackEverything]
  | in_progress =>
      map (fun i => OpConfirm (paramsOf r) (item_id i) userId None)
        (List.filter (fun i => item_rotationId i =? rot_id r) (db_items db))
      ++ [OpComplete (paramsOf r) (Some true)]
  | _ => []
  end.

Section liveness.
Context `{Platform, NodeCrypto, Unicode, OtpAuth, Locale, Env}.

(** A world in which the requests on [r0] find its current row [r]. *)
Record Open (r0 r : RotationRow) (w : World) : Prop := {
  op_unlocked : rotationLocked w (paramsOf r0) = false;
  op_rotations : NoDup (map rot_id (db_rotations (w_db w)));
  op_items : NoDup (map item_id (db_items (w_db w)));
  op_in : r ∈ db_rotations (w_db w);
  op_id : rot_id r = rot_id r0;
  op_credential : rot_credentialId r = rot_credentialId r0;
  op_project : rot_projectId r = rot_projectId r0;
}.

Lemma Open_found r0 r w : Open r0 r w -> scopedLockResult w (paramsOf r0) = RslFound r.
Proof.
  intros []. unfold scopedLockResult, rotationInScope. rewrite op_unlocked0.
  rewrite (filter_unique rot_id _ r) by
    (done || unfold inScope; cbn; try (intros; bool_simpl); by rewrite ?op_id0, ?op_credential0, ?op_project0,
      ?bool_decide_eq_true_2).
  done.
Qed.

Lemma request_world {A} (m : M A) w a w' : m w = (Ok a, w') -> snd (request m w) = w'.
Proof. intros E. unfold request, transaction, mbind, M_bind. by rewrite E. Qed.

Lemma request_world_ex {A} (m : M A) w w' : (exists a, m w = (Ok a, w')) -> snd (request m w) = w'.
Proof. intros [a E]. by eapply request_world. Qed.

Lemma setRotation_origin r f (rs : list RotationRow) : r ∈ rs -> f r ∈ setRotation (rot_id r) f rs.
Proof. intros Hr. apply elem_of_map_where. exists r. by rewrite bool_decide_eq_true_2. Qed.

(** ** One request closes a rotation that is not in progress *)

Definition closedIn (r0 : RotationRow) (w : World) : Prop :=
  exists r, r ∈ db_rotations (w_db w) /\ rot_id r = rot_id r0 /\ terminal (rot_status r) = true.

Lemma closed_write r0 r f w n vs :
  r ∈ db_rotations (w_db w) -> rot_id r = rot_id r0 -> rot_id (f r) = rot_id r -> terminal (rot_status (f r)) = true ->
  closedIn r0 (writes w n (setRotation (rot_id r) f (db_rotations (w_db w))) vs).
Proof. intros Hr Hid Hf Ht. exists (f r). split; [by apply setRotation_origin|]. by rewrite Hf. Qed.

Lemma evaluate_ackEverything items : exists b n, evaluateChecklistAcknowledgement items ackEverything = AckOk b n.
Proof.
  unfold evaluateChecklistAcknowledgement. destruct (_ =? _); [by do 2 eexists|]. destruct (bool_decide _); by do 2 eexists.
Qed.

Lemma abandon_closes r0 r w : Open r0 r w -> rot_status r ∈ [staged; stale_recovery] ->
  closedIn r0 (snd (runOp (OpAbandon (paramsOf r0)) w)).
Proof.
  intros HO Hs. cbn [runOp]. erewrite request_world; cycle 1.
  { rewrite abandonRotation_eq by apply HO. unfold abandonFailure. rewrite (Open_found _ _ _ HO).
    instantiate (1 := writes _ _ _ _).
    assert (E : rot_status r = staged \/ rot_status r = stale_recovery) by
      (rewrite !elem_of_cons, elem_of_nil in Hs; tauto).
    destruct E as [E|E]; rewrite E; reflexivity. }
  apply closed_write; [apply HO|apply (op_id _ _ _ HO)|done|done].
Qed.

Lemma retire_closes r0 r w : Open r0 r w -> rot_status r = promoted ->
  closedIn r0 (snd (runOp (OpRetire (paramsOf r0) ackEverything) w)).
Proof.
  intros HO Hs. cbn [runOp]. destruct (evaluate_ackEverything (checklistOf (w_db w) (rot_id r0))) as (b & n & E).
  erewrite request_world; cycle 1.
  { rewrite retireRotation_eq by apply HO. unfold transitionFailure. rewrite (Open_found _ _ _ HO), Hs.
    cbn [rp_rotationId paramsOf]. rewrite bool_decide_eq_true_2, E by done. reflexivity. }
  apply closed_write; [apply HO|apply (op_id _ _ _ HO)|done|done].
Qed.

(** ** Confirming the checklist of a rotation in progress *)

(** Every item of the rotation is confirmed or still to be confirmed. *)
Definition Confirming (r0 : RotationRow) (todo : list Uuid) (w : World) : Prop :=
  exists r, Open r0 r w /\ rot_status r = in_progress /\
    forall i, i ∈ db_items (w_db w) -> item_rotationId i = rot_id r0 ->
      item_status i = confirmed \/ item_id i ∈ todo.

(** What a confirmation writes. *)
Definition confirmItem (w : World) (userId : Uuid) (i : ChecklistItemRow) : ChecklistItemRow :=
  i <| item_status := confirmed |> <| item_confirmedBy := Some userId |> <| item_confirmedAt := Some (clock (w_tick w)) |>
    <| item_lastActedBy := Some userId |> <| item_lastActedAt := Some (clock (w_tick w)) |> <| item_updatedAt := w_now w |>.

Lemma confirm_eq r0 r i userId w :
  Open r0 r w -> rot_status r = in_progress -> i ∈ db_items (w_db w) -> item_rotationId i = rot_id r0 ->
  item_status i <> confirmed ->
  snd (runOp (OpConfirm (paramsOf r0) (item_id i) userId None) w) =
    at_ w (2 + w_tick w) ((w_db w)
      <| db_rotations := setRotation (rot_id r) (touched (w_now w) (fun r' => r' <| rot_version := (rot_version r + 1)%Z |>))
           (db_rotations (w_db w)) |>
      <| db_items := map_where (itemScopeWhere (rot_id r0) (item_id i) None) (confirmItem w userId) (db_items (w_db w)) |>).
Proof.
  intros HO Hs Hi Hr Hc. cbn [runOp]. apply request_world_ex. unfold confirmChecklistItem, acquireLockAndItem.
  unfold mbind at 1, M_bind at 1. unfold mbind at 1, M_bind at 1.
  rewrite acquireAndLoadRotation_eq, (Open_found _ _ _ HO), Hs. cbn [negb bool_decide lockOutcomeToFailure].
  cbv beta iota. rewrite bool_decide_eq_true_2 by (unfold CHECKLIST_ACTION_ALLOWED_STATUSES; left).
  cbn [negb lockOutcomeToFailure]. unfold mbind at 1, M_bind at 1. unfold findChecklistItemInScope, selectFirst.
  cbn [rp_rotationId paramsOf].
  erewrite (filter_unique item_id _ i); [|by apply HO|done|by rewrite !bool_decide_eq_true_2|intros; by bool_simpl].
  cbn [head]. unfold mret, M_ret at 1. cbv beta iota. rewrite bool_decide_eq_false_2 by done.
  unfold mbind at 1, M_bind at 1. change (newDate w) with (Ok (clock (w_tick w)), at_ w (S (w_tick w)) (w_db w)).
  cbv beta iota. unfold mbind at 1, M_bind at 1. unfold reserveVersionAndUpdateItem, reserveRotationVersion, casIncrementRotationVersion.
  unfold mbind, M_bind. rewrite newDate_at.
  cbv beta iota.
  erewrite (updateRotations_at _ _ r); [|by apply HO|by apply HO| |]; cycle 1.
  { cbn. by rewrite (op_id _ _ _ HO), !bool_decide_eq_true_2. }
  { intros x Hx. cbn in Hx. bool_simpl. by rewrite (op_id _ _ _ HO). }
  cbn [head fmap option_fmap option_map]. unfold mret, M_ret, updateItems, mbind, M_bind, dbNow, updateWhere. cbv beta iota.
  assert (Hf : i ∈ List.filter (itemScopeWhere (rot_id r0) (item_id i) None) (db_items (w_db w))).
  { apply elem_of_lfilter. split; [|done]. unfold itemScopeWhere. by rewrite !bool_decide_eq_true_2. }
  cbn. destruct (List.filter _ _) as [|j l]; [by apply not_elem_of_nil in Hf|].
  eexists. reflexivity.
Qed.

Lemma touched_open r0 r w n f items :
  Open r0 r w -> (forall x, rot_id (f x) = rot_id x) -> rot_credentialId (f r) = rot_credentialId r ->
  rot_projectId (f r) = rot_projectId r -> NoDup (map item_id items) ->
  Open r0 (f r) (at_ w n ((w_db w) <| db_rotations := setRotation (rot_id r) f (db_rotations (w_db w)) |>
                            <| db_items := items |>)).
Proof.
  intros [] Hid Hc Hp Hi. constructor; cbn; [done| |done| |by rewrite Hid|by rewrite Hc|by rewrite Hp].
  - unfold setRotation. by rewrite map_where_proj.
  - by apply setRotation_origin.
Qed.

Lemma confirm_progress r0 itemId userId todo w :
  Confirming r0 (itemId :: todo) w -> Confirming r0 todo (snd (runOp (OpConfirm (paramsOf r0) itemId userId None) w)).
Proof.
  intros (r & HO & Hs & Hitems).
  set (found := List.filter (fun i => (item_id i =? itemId) && (item_rotationId i =? rot_id r0) &&
                                 negb (item_status i =? confirmed)) (db_items (w_db w))).
  destruct found as [|i l] eqn:Ef.
  - (* no such item is open: the request answers without a write *)
    assert (Hno : forall i, i ∈ db_items (w_db w) -> item_rotationId i = rot_id r0 -> item_id i = itemId ->
      item_status i = confirmed).
    { intros i Hi Hr Hid. destruct (decide (item_status i = confirmed)) as [|Hc]; [done|]. exfalso.
      assert (Hin : i ∈ found) by (apply elem_of_lfilter; split; [by rewrite Hid, Hr,
        (bool_decide_eq_false_2 (item_status i = _)), !bool_decide_eq_true_2|done]). rewrite Ef in Hin. by apply not_elem_of_nil in Hin. }
    assert (Hsnd : snd (runOp (OpConfirm (paramsOf r0) itemId userId None) w) = w).
    { cbn [runOp]. apply request_world_ex. unfold confirmChecklistItem, acquireLockAndItem, mbind, M_bind.
      rewrite acquireAndLoadRotation_eq, (Open_found _ _ _ HO), Hs. cbv beta iota.
      rewrite bool_decide_eq_true_2 by (unfold CHECKLIST_ACTION_ALLOWED_STATUSES; left).
      cbn [negb lockOutcomeToFailure]. unfold findChecklistItemInScope, selectFirst. cbn [rp_rotationId paramsOf].
      destruct (head _) as [i|] eqn:Eh; unfold mret, M_ret; cbv beta iota; [|by eexists].
      apply head_elem_of, elem_of_lfilter in Eh as [Hp Hi]. bool_simpl.
      rewrite bool_decide_eq_true_2 by (by apply Hno). by eexists. }
    rewrite Hsnd. exists r. split; [done|]. split; [done|]. intros i Hi Hr.
    destruct (Hitems i Hi Hr) as [|[Hid|]%elem_of_cons]; [by left| |by right]. left. by apply Hno.
  - assert (Hi : i ∈ found) by (rewrite Ef; left). apply elem_of_lfilter in Hi as [Hp Hi]. bool_simpl. subst itemId.
    rewrite (confirm_eq r0 r i) by done.
    eexists. split; [apply touched_open; [done|by intros x|done|done|]|].
    + rewrite (map_where_proj item_id); [by apply HO|]. by intros x.
    + split; [done|]. cbn. intros j (x & Hx & ->)%elem_of_map_where Hr.
      destruct (itemScopeWhere (rot_id r0) (item_id i) None x) eqn:Ex; [by left|].
      destruct (Hitems x Hx Hr) as [|[Hid|]%elem_of_cons]; [by left| |by right]. exfalso.
      unfold itemScopeWhere in Ex. by rewrite Hid, Hr, !bool_decide_eq_true_2 in Ex.
Qed.

Lemma confirm_all r0 userId todo w :
  Confirming r0 todo w ->
  Confirming r0 [] (runAll (map (fun i => OpConfirm (paramsOf r0) i userId None) todo) w).
Proof.
  revert w. induction todo as [|i todo IH]; intros w HC; [done|]. cbn [map runAll]. by apply IH, confirm_progress.
Qed.

Lemma complete_closes r0 w : Confirming r0 [] w -> closedIn r0 (snd (runOp (OpComplete (paramsOf r0) (Some true)) w)).
Proof.
  intros (r & HO & Hs & Hitems). cbn [runOp]. erewrite request_world; cycle 1.
  { rewrite completeRotation_eq by apply HO. rewrite (Open_found _ _ _ HO), Hs. cbn [rp_rotationId paramsOf].
    rewrite bool_decide_eq_true_2 by left. cbn [negb]. cbv zeta.
    rewrite (lfilter_none _ (checklistOf _ _)).
    2:{ intros i Hi. apply elem_of_isort, elem_of_lfilter in Hi as [Hr Hi]. bool_simpl.
        destruct (Hitems i Hi Hr) as [->|[]%not_elem_of_nil]. by rewrite bool_decide_eq_true_2. }
    cbn [length]. rewrite bool_decide_eq_false_2 by lia. rewrite (bool_decide_eq_true_2 (Some true = Some true)) by done.
    cbn [negb]. rewrite andb_false_r. reflexivity. }
  apply closed_write; [apply HO|apply (op_id _ _ _ HO)|done|done].
Qed.

Lemma runAll_app ops ops' w : runAll (ops ++ ops') w = runAll ops' (runAll ops w).
Proof. revert w. induction ops as [|o ops IH]; intros w; cbn; [done|]. apply IH. Qed.

(** C38: liveness: no rotation is stuck.  From any database that satisfies the
    invariants, the requests [closingOps] (abandon for a staged or stale
    rotation, retire for a promoted one, the confirmation of every item and
    then completion for one in progress) take an open rotation to a terminal
    status, whatever the clock, the keys and the other tables are, as long as
    no other session holds the lock of that rotation. *)
Theorem open_rotation_can_be_closed userId r w :
  DbInv (w_db w) -> ItemsOk (db_items (w_db w)) -> r ∈ db_rotations (w_db w) ->
  terminal (rot_status r) = false -> rotationLocked w (paramsOf r) = false ->
  exists r', r' ∈ db_rotations (w_db (runAll (closingOps (w_db w) userId r) w)) /\
    rot_id r' = rot_id r /\ terminal (rot_status r') = true.
Proof.
  intros HI Hitems Hr Ht Hl.
  assert (HO : Open r r w).
  { constructor; try done; [by apply DbInv_rotation_ids|apply Hitems]. }
  change (closedIn r (runAll (closingOps (w_db w) userId r) w)). unfold closingOps.
  destruct (rot_status r) eqn:Es; try done; cbn [runAll].
  all: try (eapply abandon_closes; [exact HO|rewrite Es; set_solver]).
  all: try (eapply retire_closes; [exact HO|done]).
  rewrite runAll_app. cbn [runAll]. apply complete_closes.
  rewrite <- (map_map item_id (fun i => OpConfirm (paramsOf r) i userId None)). apply confirm_all.
  exists r. split; [done|]. split; [done|]. intros i Hi Hri. right.
  apply list_elem_of_In, in_map, list_elem_of_In, elem_of_lfilter. by rewrite bool_decide_eq_true_2.
Qed.
End liveness.

(** ** Witness *)

#[local] Existing Instances byteLocale toyPlatform toyCrypto toyEnv toyOtpAuth.

(** The promoted rotation of the demonstration. *)
Lemma open_rotation_can_be_closed_witness :
  exists r r', r ∈ db_rotations (w_db demoEnd) /\ rot_status r = promoted /\
    r' ∈ db_rotations (w_db (runAll (closingOps (w_db demoEnd) 7 r) demoEnd)) /\ terminal (rot_status r') = true.
Proof.
  destruct (db_rotations (w_db demoEnd)) as [|r l] eqn:E; [by vm_compute in E|].
  assert (Hr : r ∈ db_rotations (w_db demoEnd)) by (rewrite E; left).
  assert (Hs : Some (rot_status r) = head (map rot_status (db_rotations (w_db demoEnd)))) by by rewrite E.
  assert (Hp : rot_status r = promoted) by (vm_compute in Hs; by injection Hs).
  assert (HI : ItemsOk (db_items (w_db demoEnd))).
  { apply (Reaches_items demoDb); [by vm_compute|exact ItemsOk_nil|exact demoEnd_reached]. }
  destruct (open_rotation_can_be_closed 7 r demoEnd demo_DbInv HI Hr) as (r' & Hr' & _ & Ht).
  - by rewrite Hp.
  - unfold rotationLocked. assert (Hl : w_locks demoEnd = []) by by vm_compute. by rewrite Hl.
  - exists r, r'. split; [apply elem_of_cons; by left|]. split; [exact Hp|]. split; [exact Hr'|exact Ht].
Defined.
