(* ===== verification/Frames.v ===== *)
(** * Invariants of the database, computation by computation

    [holds P W w]: the database of [w] satisfies [P], and what another session
    commits while this one waits for a lock satisfies [W].  [preserves P W m]: if
    that holds before [m] it does after it, whether [m] returns or throws;
    [preservesOk P W m] only when it returns, which is enough inside a transaction.  The tactic [preserve] decomposes a service
    function into its statements; what it leaves are the statements on the
    tables [P] speaks of. *)

From S2P Require Import Prelude Js Crypto FieldSet AuthStore Store Tx QuotaGate AuditLog.
From Stdlib Require Import Ascii String.
From stdpp Require Import strings.

Local Open Scope string_scope.
Local Open Scope list_scope.
Local Open Scope pv_scope.

Definition holds (P : Db -> Prop) (W : (Db -> Db) -> Prop) (w : World) : Prop := P (w_db w) /\ W (w_onWait w).

Section preserves.
Context (P : Db -> Prop) (W : (Db -> Db) -> Prop).

Definition preserves {A} (m : M A) : Prop := forall w, holds P W w -> wp m (fun _ w' => holds P W w') w.
Definition okPost {A} (o : Outcome A) (w : World) : Prop :=
  match o with Ok _ => holds P W w | Throw _ => W (w_onWait w) end.
Definition preservesOk {A} (m : M A) : Prop := forall w, holds P W w -> wp m okPost w.

Context {A B : Type}.

Lemma preserves_ok (m : M A) : preserves m -> preservesOk m.
Proof. intros Hm w HP. eapply wp_mono; [by apply Hm|]. by intros [a|e] w' []. Qed.
Lemma preserves_readOnly (m : M A) : readOnly m -> preserves m.
Proof. intros Hm w HP. eapply wp_mono; [apply Hm|]. intros o w' [n ->]. exact HP. Qed.
Lemma preserves_bind (m : M A) (k : A -> M B) :
  preserves m -> (forall a, preserves (k a)) -> preserves (m ≫= k).
Proof.
  intros Hm Hk w HP. apply wp_bind. eapply wp_mono; [by apply Hm|]. intros [a|e] w' HP'; [|done]. by apply Hk.
Qed.
Lemma preservesOk_bind (m : M A) (k : A -> M B) :
  preservesOk m -> (forall a, preservesOk (k a)) -> preservesOk (m ≫= k).
Proof.
  intros Hm Hk w HP. apply wp_bind. eapply wp_mono; [by apply Hm|]. intros [a|e] w' HP'; [|done]. by apply Hk.
Qed.
Lemma preserves_catch (m : M A) h : preserves m -> (forall e, preserves (h e)) -> preserves (catch m h).
Proof.
  intros Hm Hk w HP. apply wp_catch. eapply wp_mono; [by apply Hm|]. intros [a|e] w' HP'; [done|]. by apply Hk.
Qed.
Lemma preservesOk_catch (m : M A) h : preserves m -> (forall e, preservesOk (h e)) -> preservesOk (catch m h).
Proof.
  intros Hm Hk w HP. apply wp_catch. eapply wp_mono; [by apply Hm|]. intros [a|e] w' HP'; [done|]. by apply Hk.
Qed.
Lemma preserves_transaction (m : M A) : preservesOk m -> preserves (transaction m).
Proof.
  intros Hm w HP. apply wp_transaction. eapply wp_mono; [by apply Hm|]. intros [a|e] w' HP'; [done|].
  split; [apply HP|exact HP'].
Qed.
Lemma preserves_elim (m : M A) w o w' : preserves m -> holds P W w -> m w = (o, w') -> holds P W w'.
Proof. intros Hm HP E. exact (wp_elim _ _ _ _ _ (Hm w HP) E). Qed.
End preserves.

Section more.
Context (P : Db -> Prop) (W : (Db -> Db) -> Prop).

Lemma holds_db w w' : holds P W w -> P (w_db w') -> w_onWait w' = w_onWait w -> holds P W w'.
Proof. intros [_ HW] HP E. split; [done|]. by rewrite E. Qed.
Lemma preserves_withOrg `{Platform} {A} (m : M A) : preservesOk P W m -> preserves P W (withOrg m).
Proof.
  intros Hm. unfold withOrg, beginTransaction. apply preserves_bind; [by intros w|]. intros _.
  by apply preserves_transaction.
Qed.
Lemma preserves_foldM {A B} (f : B -> A -> M B) b l : (forall b x, preserves P W (f b x)) -> preserves P W (foldM f b l).
Proof.
  intros Hf. revert b. induction l as [|x l IH]; intros b; cbn; [by apply preserves_readOnly, readOnly_ret|].
  apply preserves_bind; auto.
Qed.
Lemma preserves_forEachCollect {A B} (f : A -> M B) l :
  (forall x, preserves P W (f x)) -> preserves P W (forEachCollect l f).
Proof.
  intros Hf. induction l as [|x l IH]; cbn; [by apply preserves_readOnly, readOnly_ret|].
  apply preserves_bind; [done|]. intros b. apply preserves_bind; [done|]. intros bs.
  by apply preserves_readOnly, readOnly_ret.
Qed.
Lemma preserves_forEachSequential {A} (f : A -> M unit) l :
  (forall x, preserves P W (f x)) -> preserves P W (forEachSequential l f).
Proof.
  intros Hf. induction l as [|x l IH]; cbn; [by apply preserves_readOnly, readOnly_ret|]. by apply preserves_bind.
Qed.
Lemma preservesOk_forEachSequential {A} (f : A -> M unit) l :
  (forall x, preservesOk P W (f x)) -> preservesOk P W (forEachSequential l f).
Proof.
  intros Hf. induction l as [|x l IH]; cbn; [by apply preserves_ok, preserves_readOnly, readOnly_ret|].
  by apply preservesOk_bind.
Qed.

Lemma wp_withOrg `{Platform} {A} (m : M A) (Q : Outcome A -> World -> Prop) w :
  wp m (fun o w' => match o with Ok a => Q (Ok a) w' | Throw e => Q (Throw e) (w' <| w_db := w_db w |>) end)
    (w <| w_tick ::= S |> <| w_now := clock (w_tick w) |>) ->
  wp (withOrg m) Q w.
Proof.
  intros Hm. unfold withOrg, beginTransaction.
  change (wp (transaction m) Q (w <| w_tick ::= S |> <| w_now := clock (w_tick w) |>)).
  apply wp_transaction. exact Hm.
Qed.

(** The statements on one table. *)
Lemma preserves_updateWhere {R} (t : Db -> list R) `{!Setter t} p f :
  (forall db, P db -> P (db <| t ::= map_where p f |>)) -> preserves P W (updateWhere t p f).
Proof. intros Ht w [HP HW]. split; [apply Ht, HP|exact HW]. Qed.
Lemma preserves_deleteWhere {R} (t : Db -> list R) `{!Setter t} p :
  (forall db, P db -> P (db <| t ::= List.filter (fun r => negb (p r)) |>)) -> preserves P W (deleteWhere t p).
Proof. intros Ht w [HP HW]. split; [apply Ht, HP|exact HW]. Qed.
Lemma preserves_insertRow {R} (t : Db -> list R) `{!Setter t} conflict row :
  (forall db, P db -> (forall r, r ∈ t db -> conflict row r = false) ->
     P (db <| t ::= fun l => (l ++ [row])%list |>)) ->
  preserves P W (insertRow t conflict row).
Proof.
  intros Ht w [HP HW]. unfold wp, insertRow. destruct (existsb _ _) eqn:E; [by split|]. split; [|exact HW].
  apply Ht; [exact HP|].
  intros r Hr. destruct (conflict row r) eqn:Ec; [|done]. exfalso. eapply not_true_iff_false; [exact E|].
  apply existsb_exists. exists r. by rewrite <- list_elem_of_In.
Qed.
End more.

Lemma preserves_usage (Q : AuthDb -> Prop) W {A} (m : M A) : usageFrame m -> preserves (fun db => Q (db_auth db)) W m.
Proof. intros Hm w HP. eapply wp_mono; [apply Hm|]. by intros o w' (n & u & ->). Qed.

(** ** The tables of authentication *)

Section auth.
Context (Q : AuthDb -> Prop) (W : (Db -> Db) -> Prop).
Notation authP := (fun db => Q (db_auth db)).

Lemma auth_memberships p f : preserves authP W (updateWhere db_memberships p f).
Proof. by intros w. Qed.
Lemma auth_insertAudit c r : preserves authP W (insertRow db_audit c r).
Proof. intros w HP. unfold wp, insertRow. by destruct (existsb _ _). Qed.
Lemma auth_seq : preserves authP W nextChainSeq.
Proof. by intros w. Qed.
Lemma auth_gates `{Env} orgId eventType size : preserves authP W (assertOrgMayWriteAuditGates orgId eventType size).
Proof. apply preserves_usage, gates_frame. Qed.
End auth.

Ltac preserve_step :=
  first
    [ apply auth_memberships | apply auth_insertAudit | apply auth_seq | apply auth_gates
    | apply preserves_bind; [|intros ?]
    | apply preserves_catch; [|intros ?]
    | apply preserves_transaction, preserves_ok
    | apply preserves_withOrg, preserves_ok
    | apply preserves_foldM; intros ? ?
    | apply preserves_forEachCollect; intros ?
    | apply preserves_forEachSequential; intros ?
    | match goal with
      | |- preserves _ _ (if ?b then _ else _) => destruct b
      | |- preserves _ _ (match ?x with _ => _ end) => destruct x
      end
    | apply preserves_readOnly; solve [auto with pv] ].
Ltac preserve := repeat preserve_step.

Section audit.
Context `{Platform, NodeCrypto, Locale, Env}.
Context (Q : AuthDb -> Prop) (W : (Db -> Db) -> Prop).
Notation authP := (fun db => Q (db_auth db)).

Lemma auth_appendAuditRow orgId a t e r rt p s u : preserves authP W (appendAuditRow orgId a t e r rt p s u).
Proof.
  unfold appendAuditRow, readAuditChainHead, currentAuditKeyVersion, getPreviousEntryHmac, insertAuditRow. preserve.
Qed.
Lemma auth_insertAuditRow f r p h u : preserves authP W (insertAuditRow f r p h u).
Proof. unfold insertAuditRow. preserve. Qed.
Lemma auth_writeHuman fields : preserves authP W (writeHumanAuditEntry fields).
Proof. unfold writeHumanAuditEntry. apply preserves_bind; [preserve|]. intros ?. apply auth_appendAuditRow. Qed.
Lemma auth_writeSystem orgId e r rt p : preserves authP W (writeSystemAuditEntry orgId e r rt p).
Proof. unfold writeSystemAuditEntry. apply preserves_bind; [preserve|]. intros ?. apply auth_appendAuditRow. Qed.
End audit.

(** ** One statement at a time *)

Lemma wp_bind_update {R A} (t : Db -> list R) `{!Setter t} p f (k : list R -> M A) (Q : Outcome A -> World -> Prop) w :
  wp (k (map f (List.filter p (t (w_db w))))) Q (w <| w_db ::= fun db => db <| t ::= map_where p f |> |>) ->
  wp (updateWhere t p f ≫= k) Q w.
Proof. done. Qed.
Lemma wp_bind_first {R A} (t : Db -> list R) p (k : option R -> M A) (Q : Outcome A -> World -> Prop) w :
  wp (k (head (List.filter p (t (w_db w))))) Q w -> wp (selectFirst t p ≫= k) Q w.
Proof. done. Qed.
Lemma wp_bind_insert {R A} (t : Db -> list R) `{!Setter t} c r (k : R -> M A) (Q : Outcome A -> World -> Prop) w :
  Q (Throw UniqueViolation) w ->
  ((forall x, x ∈ t (w_db w) -> c r x = false) ->
   wp (k r) Q (w <| w_db ::= fun db => db <| t ::= fun l => (l ++ [r])%list |> |>)) ->
  wp (insertRow t c r ≫= k) Q w.
Proof.
  intros Hq Hk. unfold wp, mbind, M_bind, insertRow in *. destruct (existsb _ _) eqn:E; [exact Hq|]. apply Hk.
  intros x Hx. destruct (c r x) eqn:Ec; [|done]. exfalso. eapply not_true_iff_false; [exact E|].
  apply existsb_exists. exists x. by rewrite <- list_elem_of_In.
Qed.

Section draws.
Context `{Platform} {A : Type}.
Lemma wp_newDate (k : Date -> M A) (Q : Outcome A -> World -> Prop) w :
  wp (k (clock (w_tick w))) Q (w <| w_tick ::= S |>) -> wp (newDate ≫= k) Q w.
Proof. done. Qed.
Lemma wp_genRandomUuid (k : Uuid -> M A) (Q : Outcome A -> World -> Prop) w :
  wp (k (randomUuid (w_tick w))) Q (w <| w_tick ::= S |>) -> wp (genRandomUuid ≫= k) Q w.
Proof. done. Qed.
Lemma wp_dbNow (k : Date -> M A) (Q : Outcome A -> World -> Prop) w : wp (k (w_now w)) Q w -> wp (dbNow ≫= k) Q w.
Proof. done. Qed.
End draws.
