(* ===== verification/Text.v ===== *)
(** * Texts: regular expressions, splitting, trimming

    The string functions of JavaScript that the version policy and the
    environment files use, on texts held as UTF-8 bytes.  A regular expression
    of the source is a term of [Regex], tested by derivatives ([re_test]) and
    understood through its language ([Lang]); [re_test_lang]. *)

From S2P Require Import Prelude Js FieldSet.
From Stdlib Require Import Ascii String.
From stdpp Require Import strings.

Local Open Scope string_scope.
Local Open Scope list_scope.
Local Open Scope pv_scope.

(** ** Regular expressions, anchored at both ends *)

Inductive Regex :=
| re_none
| re_eps
| re_class (p : ascii -> bool)
| re_seq (a b : Regex)
| re_alt (a b : Regex)
| re_star (a : Regex).

Definition re_char (c : ascii) : Regex := re_class (fun x => x =? c).
Definition re_opt (a : Regex) : Regex := re_alt re_eps a.
Definition re_plus (a : Regex) : Regex := re_seq a (re_star a).
Fixpoint re_cat (l : list Regex) : Regex :=
  match l with [] => re_eps | [a] => a | a :: l' => re_seq a (re_cat l') end.

Fixpoint nullable (r : Regex) : bool :=
  match r with
  | re_none | re_class _ => false
  | re_eps | re_star _ => true
  | re_seq a b => nullable a && nullable b
  | re_alt a b => nullable a || nullable b
  end.

(** Sequences and alternatives that keep a derivative small. *)
Definition mk_seq (a b : Regex) : Regex :=
  match a, b with re_none, _ => re_none | re_eps, _ => b | _, re_none => re_none | _, _ => re_seq a b end.
Definition mk_alt (a b : Regex) : Regex :=
  match a, b with re_none, _ => b | _, re_none => a | _, _ => re_alt a b end.

Fixpoint deriv (c : ascii) (r : Regex) : Regex :=
  match r with
  | re_none | re_eps => re_none
  | re_class p => if p c then re_eps else re_none
  | re_seq a b => mk_alt (mk_seq (deriv c a) b) (if nullable a then deriv c b else re_none)
  | re_alt a b => mk_alt (deriv c a) (deriv c b)
  | re_star a => mk_seq (deriv c a) (re_star a)
  end.

(** [/^r$/.test(s)] *)
Fixpoint re_test (r : Regex) (s : string) : bool :=
  match s with EmptyString => nullable r | String c s' => re_test (deriv c r) s' end.

Inductive Lang : Regex -> string -> Prop :=
| L_eps : Lang re_eps EmptyString
| L_class p c : p c = true -> Lang (re_class p) (String c EmptyString)
| L_seq a b s t : Lang a s -> Lang b t -> Lang (re_seq a b) (s +:+ t)
| L_altl a b s : Lang a s -> Lang (re_alt a b) s
| L_altr a b s : Lang b s -> Lang (re_alt a b) s
| L_star_nil a : Lang (re_star a) EmptyString
| L_star_cons a s t : Lang a s -> Lang (re_star a) t -> Lang (re_star a) (s +:+ t).
#[export] Hint Constructors Lang : pv.

Lemma lang_none s : ~ Lang re_none s.
Proof. inversion 1. Qed.
Lemma lang_seq a b s : Lang (re_seq a b) s <-> exists s1 s2, s = s1 +:+ s2 /\ Lang a s1 /\ Lang b s2.
Proof. split; [inversion 1; subst; eauto|]. intros (s1 & s2 & -> & ? & ?). by constructor. Qed.
Lemma lang_alt a b s : Lang (re_alt a b) s <-> Lang a s \/ Lang b s.
Proof. split; [inversion 1; subst; auto|]. intros [?|?]; auto with pv. Qed.
Lemma lang_class p s : Lang (re_class p) s <-> exists c, s = String c EmptyString /\ p c = true.
Proof. split; [inversion 1; subst; eauto|]. intros (c & -> & ?). by constructor. Qed.
Lemma lang_eps s : Lang re_eps s <-> s = EmptyString.
Proof. split; [by inversion 1|]. intros ->. constructor. Qed.

Lemma lang_mk_seq a b s : Lang (mk_seq a b) s <-> Lang (re_seq a b) s.
Proof.
  rewrite lang_seq.
  assert (He : Lang b s <-> exists s1 s2, s = s1 +:+ s2 /\ Lang re_eps s1 /\ Lang b s2).
  { split; [intros Hb; exists EmptyString, s; by repeat constructor|]. by intros (? & ? & -> & ->%lang_eps & ?). }
  assert (Hn : forall x, Lang re_none s <-> exists s1 s2, s = s1 +:+ s2 /\ Lang x s1 /\ Lang re_none s2).
  { intros x. split; [by intros ?%lang_none|]. by intros (? & ? & _ & _ & ?%lang_none). }
  assert (Hn' : Lang re_none s <-> exists s1 s2, s = s1 +:+ s2 /\ Lang re_none s1 /\ Lang b s2).
  { split; [by intros ?%lang_none|]. by intros (? & ? & _ & ?%lang_none & _). }
  destruct a; cbn [mk_seq]; try done; destruct b; first [done|apply Hn|by rewrite lang_seq].
Qed.
Lemma lang_mk_alt a b s : Lang (mk_alt a b) s <-> Lang (re_alt a b) s.
Proof.
  assert (Hl : forall x, Lang x s <-> Lang (re_alt x re_none) s).
  { intros x. rewrite lang_alt. split; [by left|]. by intros [?|?%lang_none]. }
  assert (Hr : Lang b s <-> Lang (re_alt re_none b) s).
  { rewrite lang_alt. split; [by right|]. by intros [?%lang_none|?]. }
  destruct a; cbn [mk_alt]; try done; destruct b; first [done|apply Hl].
Qed.

Lemma nullable_lang r : nullable r = true <-> Lang r EmptyString.
Proof.
  induction r as [| |p|a IHa b IHb|a IHa b IHb|a IHa]; cbn.
  - split; [done|]. by intros ?%lang_none.
  - split; [|done]. constructor.
  - split; [done|]. by intros (c & ? & _)%lang_class.
  - rewrite andb_true_iff, IHa, IHb, lang_seq. split; [intros [Ha Hb]; exists EmptyString, EmptyString; auto|].
    intros (s1 & s2 & E & H1 & H2). destruct s1, s2; [by split|done..].
  - by rewrite orb_true_iff, IHa, IHb, lang_alt.
  - split; [|done]. constructor.
Qed.

Lemma lang_star_head a c s : Lang (re_star a) (String c s) ->
  exists s1 s2, s = s1 +:+ s2 /\ Lang a (String c s1) /\ Lang (re_star a) s2.
Proof.
  remember (re_star a) as r eqn:Er. remember (String c s) as u eqn:Eu. intros HL. revert c s Er Eu.
  induction HL as [| | | | | |x s1 t H1 _ H2 IH]; intros d u [= ->] Eu; [done|].
  destruct s1 as [|e s1]; [by apply (IH d u)|]. injection Eu as -> <-. exists s1, t; auto.
Qed.

Lemma deriv_lang r c s : Lang (deriv c r) s <-> Lang r (String c s).
Proof.
  revert s. induction r as [| |p|a IHa b IHb|a IHa b IHb|a IHa]; intros s; cbn [deriv].
  - split; by intros ?%lang_none.
  - split; [by intros ?%lang_none|by intros ?%lang_eps].
  - rewrite lang_class. destruct (p c) eqn:E.
    + rewrite lang_eps. split; [intros ->; by exists c|]. by intros (d & [= _ ->] & _).
    + split; [by intros ?%lang_none|]. intros (d & [= -> _] & Hd). congruence.
  - rewrite lang_mk_alt, lang_alt, lang_mk_seq, !lang_seq. split.
    + intros [(s1 & s2 & -> & H1%IHa & H2)|Hb].
      * by exists (String c s1), s2.
      * destruct (nullable a) eqn:En; [|by apply lang_none in Hb]. apply nullable_lang in En. apply IHb in Hb.
        by exists EmptyString, (String c s).
    + intros ([|d s1] & s2 & E & H1 & H2).
      * right. apply nullable_lang in H1. rewrite H1. apply IHb. by rewrite E.
      * left. injection E as <- ->. exists s1, s2. by rewrite IHa.
  - by rewrite lang_mk_alt, !lang_alt, IHa, IHb.
  - rewrite lang_mk_seq, lang_seq. split.
    + intros (s1 & s2 & -> & H1%IHa & H2). by apply (L_star_cons a (String c s1)).
    + intros (s1 & s2 & -> & H1 & H2)%lang_star_head. exists s1, s2. by rewrite IHa.
Qed.

Lemma re_test_lang r s : re_test r s = true <-> Lang r s.
Proof. revert r. induction s as [|c s IH]; intros r; cbn; [apply nullable_lang|]. by rewrite IH, deriv_lang. Qed.

(** ** Characters of a text *)

Lemma allChars_app p s t : allChars p (s +:+ t) = allChars p s && allChars p t.
Proof. induction s as [|c s IH]; [done|]. rewrite string_app_cons. cbn [allChars]. by rewrite IH, andb_assoc. Qed.
Lemma allChars_mono p q s : (forall c, p c = true -> q c = true) -> allChars p s = true -> allChars q s = true.
Proof. intros Hpq. induction s as [|c s IH]; cbn; [done|]. intros [Hc Hs]%andb_true_iff. by rewrite Hpq, IH. Qed.

Lemma lang_star_class p s : Lang (re_star (re_class p)) s <-> allChars p s = true.
Proof.
  split.
  - remember (re_star (re_class p)) as r eqn:E. intros HL. revert E.
    induction HL as [| | | | | |x s t H1 _ H2 IH]; intros [= ->]; [done|].
    apply lang_class in H1 as (c & -> & Hc). change (p c && allChars p t = true). by rewrite Hc, IH.
  - induction s as [|c s IH]; cbn; [constructor|]. intros [Hc Hs]%andb_true_iff.
    apply (L_star_cons _ (String c EmptyString) s); [by constructor|auto].
Qed.
Lemma lang_plus_class p s : Lang (re_plus (re_class p)) s <-> s <> EmptyString /\ allChars p s = true.
Proof.
  unfold re_plus. rewrite lang_seq. split.
  - intros (s1 & s2 & -> & (c & -> & Hc)%lang_class & H2%lang_star_class).
    split; [done|]. change (p c && allChars p s2 = true). by rewrite Hc, H2.
  - intros [Hne Hs]. destruct s as [|c s]; [done|]. cbn in Hs. apply andb_true_iff in Hs as [Hc Hs].
    exists (String c EmptyString), s. split; [done|]. split; [by constructor|by apply lang_star_class].
Qed.
Lemma lang_char c s : Lang (re_char c) s <-> s = String c EmptyString.
Proof.
  unfold re_char. rewrite lang_class. split.
  - intros (d & -> & ->%bool_decide_eq_true). done.
  - intros ->. exists c. split; [done|]. by apply bool_decide_eq_true.
Qed.

Definition isAsciiDigit (c : ascii) : bool := (48 <=? code c)%N && (code c <=? 57)%N.
Definition isLetter (c : ascii) : bool :=
  ((65 <=? code c)%N && (code c <=? 90)%N) || ((97 <=? code c)%N && (code c <=? 122)%N).

(** ** [split] and [indexOf] with one character *)

(** [s.split(c)] *)
Fixpoint splitOn (c : ascii) (s : string) : list string :=
  match s with
  | EmptyString => [EmptyString]
  | String d s' =>
      if d =? c then EmptyString :: splitOn c s'
      else match splitOn c s' with w :: ws => String d w :: ws | [] => [String d EmptyString] end
  end.

(** [i = s.indexOf(c)]: [s.slice(0, i)] and [s.slice(i + 1)], or the whole text when [i] is -1. *)
Fixpoint cutAt (c : ascii) (s : string) : string * option string :=
  match s with
  | EmptyString => (EmptyString, None)
  | String d s' => if d =? c then (EmptyString, Some s') else let '(a, b) := cutAt c s' in (String d a, b)
  end.

Fixpoint joinWith (c : ascii) (l : list string) : string :=
  match l with [] => EmptyString | [w] => w | w :: l' => w +:+ String c (joinWith c l') end.

Definition withoutChar (c : ascii) (s : string) : Prop := allChars (fun x => negb (x =? c)) s = true.

Lemma without_cons c d s : withoutChar c (String d s) <-> d <> c /\ withoutChar c s.
Proof. unfold withoutChar. cbn. rewrite andb_true_iff, negb_true_iff, bool_decide_eq_false. done. Qed.
Lemma without_app c s t : withoutChar c (s +:+ t) <-> withoutChar c s /\ withoutChar c t.
Proof. unfold withoutChar. by rewrite allChars_app, andb_true_iff. Qed.

Lemma cutAt_spec c s : match cutAt c s with
  | (a, None) => a = s /\ withoutChar c s
  | (a, Some b) => s = a +:+ String c b /\ withoutChar c a
  end.
Proof.
  induction s as [|d s IH]; cbn; [done|]. case_bool_decide as Hd; [by subst|].
  destruct (cutAt c s) as [a [b|]]; destruct IH as [E Hw]; subst; (split; [done|]; by apply without_cons).
Qed.
Lemma cutAt_without c s : withoutChar c s -> cutAt c s = (s, None).
Proof.
  induction s as [|d s IH]; [done|]. intros [Hd Hs]%without_cons. cbn. by rewrite bool_decide_eq_false_2, IH.
Qed.
Lemma cutAt_app c a b : withoutChar c a -> cutAt c (a +:+ String c b) = (a, Some b).
Proof.
  induction a as [|d a IH]; [intros _; change (EmptyString +:+ ?x) with x; cbn [cutAt]; by rewrite bool_decide_eq_true_2|].
  intros [Hd Ha]%without_cons. rewrite string_app_cons. cbn [cutAt]. by rewrite bool_decide_eq_false_2, IH.
Qed.

Lemma splitOn_ne c s : splitOn c s <> [].
Proof. destruct s as [|d s]; cbn; [done|]. case_bool_decide; [done|]. by destruct (splitOn c s). Qed.
Lemma splitOn_without c s : withoutChar c s -> splitOn c s = [s].
Proof.
  induction s as [|d s IH]; [done|]. intros [Hd Hs]%without_cons. cbn. by rewrite bool_decide_eq_false_2, IH.
Qed.
Lemma splitOn_app c a b : withoutChar c a -> splitOn c (a +:+ String c b) = a :: splitOn c b.
Proof.
  induction a as [|d a IH]; [intros _; change (EmptyString +:+ ?x) with x; cbn [splitOn]; by rewrite bool_decide_eq_true_2|].
  intros [Hd Ha]%without_cons. rewrite string_app_cons. cbn [splitOn]. by rewrite bool_decide_eq_false_2, IH.
Qed.
Lemma joinWith_cons c w l : l <> [] -> joinWith c (w :: l) = w +:+ String c (joinWith c l).
Proof. by destruct l. Qed.
Lemma joinWith_splitOn c s : joinWith c (splitOn c s) = s.
Proof.
  induction s as [|d s IH]; [done|]. cbn [splitOn]. pose proof (splitOn_ne c s) as Hne. case_bool_decide as Hd.
  - subst. rewrite joinWith_cons by done. by rewrite IH.
  - destruct (splitOn c s) as [|w ws]; [done|]. rewrite <- IH. by destruct ws.
Qed.
Lemma splitOn_parts c s w : w ∈ splitOn c s -> withoutChar c w.
Proof.
  revert w. induction s as [|d s IH]; cbn; [by intros w ->%list_elem_of_singleton|]. case_bool_decide as Hd.
  - intros w [->|Hw]%elem_of_cons; [done|auto].
  - pose proof (splitOn_ne c s). destruct (splitOn c s) as [|x xs]; [done|]. intros w [->|Hw]%elem_of_cons.
    + apply without_cons. split; [done|]. apply IH. left.
    + apply IH. by right.
Qed.

(** [r(cr)*] reads the texts whose parts are all of [r], when no text of [r] has [c]. *)
Lemma lang_separated c r s : (forall w, Lang r w -> withoutChar c w) ->
  Lang (re_seq r (re_star (re_seq (re_char c) r))) s <-> forall w, w ∈ splitOn c s -> Lang r w.
Proof.
  intros Hr. rewrite lang_seq. split.
  - intros (s1 & s2 & -> & H1 & H2). remember (re_star _) as R eqn:ER. revert s1 H1.
    induction H2 as [| | | | | |x t u Ht _ Hu IH]; try discriminate; intros s1 H1 w.
    + rewrite string_app_nil_r, splitOn_without by auto. by intros ->%list_elem_of_singleton.
    + injection ER as ->. apply lang_seq in Ht as (t1 & t2 & -> & ->%lang_char & Ht2).
      rewrite string_app_assoc, !string_app_cons. change (EmptyString +:+ ?x) with x. rewrite splitOn_app by auto. intros [->|Hw]%elem_of_cons; [done|].
      by apply (IH eq_refl t2).
  - intros Hall. rewrite <- (joinWith_splitOn c s). pose proof (splitOn_ne c s) as Hne.
    induction (splitOn c s) as [|w ws IH]; [done|]. destruct ws as [|x ws].
    + exists w, EmptyString. rewrite string_app_nil_r. split; [done|]. split; [apply Hall; left|constructor].
    + exists w, (String c (joinWith c (x :: ws))). split; [done|]. split; [apply Hall; left|].
      destruct IH as (s1 & s2 & -> & H1 & H2); [by intros y Hy; apply Hall; right|done|].
      apply (L_star_cons _ (String c s1) s2); [|done].
      apply (L_seq _ _ (String c EmptyString) s1); [by apply lang_char|done].
Qed.
