(* ===== verification/EnvFile.v ===== *)
(** * Secrets handed to a process or a file

    packages/cli/src: reserved-env-vars.ts, parse-run-secrets.ts,
    fetch-secrets.ts, the environment inject-and-run.ts spawns a command with,
    env-file-format.ts and write-env-file.ts.

    Messages are left out: a failure is its exit code.  What a call of the
    agent returns is [getSecret] (the nth call, the name asked for); the state
    of the output path before the command and the outcome of the atomic write
    are arguments.  The loops of the parser advance along the text and have
    fuel, [None] when it runs out: [parseEnvFile_terminates]. *)

From S2P Require Import Prelude Js FieldSet Text.
From Stdlib Require Import Ascii String.
From stdpp Require Import strings gmap.

Local Open Scope string_scope.
Local Open Scope list_scope.
Local Open Scope pv_scope.

(** ** packages/cli/src/exit-codes.ts *)

Definition EXIT_usageError : Z := 1.
Definition EXIT_unexpected : Z := 13.
Definition EXIT_outputExists : Z := 25.
Definition EXIT_outputPathInvalid : Z := 26.
Definition EXIT_valueNotRepresentable : Z := 27.
Definition EXIT_outputWriteFailed : Z := 28.

Definition CODE_TO_EXIT_CODE : list (string * Z) :=
  [("token_exchange_failed", 2%Z); ("credential_not_found", 3%Z); ("insufficient_role", 4%Z);
   ("ambiguous_credential_name", 5%Z); ("vault_request_failed", 6%Z); ("multi_field_secret_unsupported", 7%Z);
   ("vault_unreachable", 8%Z); ("vault_unreachable_non_cacheable", 9%Z); ("cache_expired", 10%Z);
   ("cache_decryption_failed", 11%Z); ("cache_corrupted", 12%Z)].

Definition exitCodeForAgentErrorCode (code : string) : Z :=
  match List.find (fun kv => kv.1 =? code) CODE_TO_EXIT_CODE with Some kv => kv.2 | None => EXIT_unexpected end.

(** ** reserved-env-vars.ts *)

Definition RESERVED_ENV_VAR_NAMES : list string :=
  ["PATH"; "LD_PRELOAD"; "LD_LIBRARY_PATH"; "DYLD_INSERT_LIBRARIES"; "DYLD_LIBRARY_PATH"; "NODE_OPTIONS"; "HOME"; "SHELL"].

Definition isReservedEnvVarName `{Unicode} (name : string) : bool := toUpperCase name ∈? RESERVED_ENV_VAR_NAMES.

Definition isWordStart (c : ascii) : bool := isLetter c || (c =? "_"%char).
Definition isWord (c : ascii) : bool := isWordStart c || isAsciiDigit c.

(** [/^[A-Za-z_]\w*$/] *)
Definition SAFE_ENV_VAR_REGEX : Regex := re_seq (re_class isWordStart) (re_star (re_class isWord)).
Definition isValidEnvVarIdentifier (name : string) : bool := re_test SAFE_ENV_VAR_REGEX name.

(** ** parse-run-secrets.ts *)

Record InjectEntry := MkInjectEntry { ie_credentialName : string; ie_envVarName : string }.

Definition parseOne (raw : string) : option InjectEntry :=
  match cutAt "="%char raw with
  | (_, None) => if negb (isValidEnvVarIdentifier raw) then None else Some (MkInjectEntry raw raw)
  | (credentialName, Some envVarName) =>
      if (credentialName =? "") || (envVarName =? "") then None
      else if negb (isValidEnvVarIdentifier envVarName) then None
      else Some (MkInjectEntry credentialName envVarName)
  end.

(** [None]: [{ ok: false }] *)
Fixpoint parseRunSecrets (raw : list string) : option (list InjectEntry) :=
  match raw with
  | [] => Some []
  | value :: raw' => match parseOne value with
                     | None => None
                     | Some entry => cons entry <$> parseRunSecrets raw'
                     end
  end.

(** ** fetch-secrets.ts *)

Inductive Result (A : Type) := done_ (a : A) | failed (exitCode : Z).
Arguments done_ {A} a.
Arguments failed {A} exitCode.

Fixpoint findDuplicateTarget `{Unicode} (seen : list string) (entries : list InjectEntry) : bool :=
  match entries with
  | [] => false
  | entry :: entries' =>
      let key := toUpperCase (ie_envVarName entry) in
      if key ∈? seen then true else findDuplicateTarget (key :: seen) entries'
  end.

Definition checkEntryTargets `{Unicode} (entries : list InjectEntry) : option Z :=
  if existsb (fun e => isReservedEnvVarName (ie_envVarName e)) entries then Some EXIT_usageError
  else if findDuplicateTarget [] entries then Some EXIT_usageError
  else None.

(** A call of the agent: the value and whether it came from the offline cache; an error of the agent; another. *)
Inductive Fetched := fetched_value (value : string) (fromCache : bool) | fetched_agent_error (code : string) | fetched_error.
Class VaultAgent := { getSecret : nat -> string -> Fetched }.

Record FetchState := MkFetchState { fs_injected : gmap string string; fs_servedFromCacheCount : nat }.

Section fetch.
Context `{VaultAgent, Unicode}.

Fixpoint fetchEntryAt (index : nat) (entries : list InjectEntry) (state : FetchState) : Result FetchState :=
  match entries with
  | [] => done_ state
  | entry :: entries' =>
      match getSecret index (ie_credentialName entry) with
      | fetched_value value fromCache =>
          fetchEntryAt (S index) entries'
            (MkFetchState (<[ie_envVarName entry := value]> (fs_injected state))
               (fs_servedFromCacheCount state + (if fromCache then 1 else 0))%nat)
      | fetched_agent_error code => failed (exitCodeForAgentErrorCode code)
      | fetched_error => failed EXIT_unexpected
      end
  end.

Definition fetchAllOrNothing (entries : list InjectEntry) : Result FetchState :=
  fetchEntryAt 0 entries (MkFetchState ∅ 0).

(** ** inject-and-run.ts: the environment of the child *)

Definition CALLER_CREDENTIAL_ENV_VARS : list string := ["VAULT_API_KEY"].
Definition SECRETS_FD_ENV_VAR : string := "PVAULT_SECRETS_FD".

Definition withoutCallerCredentials (baseEnv : gmap string string) : gmap string string :=
  filter (fun kv => toUpperCase kv.1 ∉ CALLER_CREDENTIAL_ENV_VARS) baseEnv.

Inductive SecretsDelivery := delivery_env | delivery_fd.

(** What [spawn] is called with: the environment, and the payload of the pipe. *)
Definition spawnWithSecrets (delivery : SecretsDelivery) (baseEnv injected : gmap string string)
    : gmap string string * option (gmap string string) :=
  match delivery with
  | delivery_env => (injected ∪ withoutCallerCredentials baseEnv, None)
  | delivery_fd => (<[SECRETS_FD_ENV_VAR := "3"]> (withoutCallerCredentials baseEnv), Some injected)
  end.

(** [injectAndRun] up to the spawn. *)
Definition injectAndSpawn (entries : list InjectEntry) (delivery : SecretsDelivery) (baseEnv : gmap string string)
    : Result (gmap string string * option (gmap string string)) :=
  match checkEntryTargets entries with
  | Some exitCode => failed exitCode
  | None =>
      match fetchAllOrNothing entries with
      | failed exitCode => failed exitCode
      | done_ state => done_ (spawnWithSecrets delivery baseEnv (fs_injected state))
      end
  end.
End fetch.

(** ** env-file-format.ts *)

Inductive EnvFileFormat := format_dotenv | format_shell.
Inductive RefusalReason := refused_nul | refused_carriage_return | refused_unrepresentable.
Record EnvFileEntry := MkEnvFileEntry { ef_key : string; ef_value : string }.

Definition NL : ascii := "010".
Definition CR : ascii := "013".
Definition NUL : ascii := "000".
Definition QUOTE : ascii := "'".
Definition BACKTICK : ascii := "`".

Definition ENV_FILE_HEADER : string :=
  "# Written by pvault write-env. Contains secrets: do not commit, do not share." +:+ String NL EmptyString.

(** [value.includes(c)] *)
Definition includesChar (c : ascii) (s : string) : bool := negb (allChars (fun x => negb (x =? c)) s).

(** [/\\[nr]/.test(value)] *)
Fixpoint hasBackslashNR (s : string) : bool :=
  match s with
  | EmptyString => false
  | String c s' =>
      ((c =? BS) && match s' with String d _ => (d =? "n"%char) || (d =? "r"%char) | EmptyString => false end)
      || hasBackslashNR s'
  end.

Inductive Quoted := quoted (text : string) (dotenvOnly : bool) | unquotable (reason : RefusalReason).

Definition wrap (q : ascii) (s : string) : string := String q (s +:+ String q EmptyString).

Definition quoteDotenv (value : string) : Quoted :=
  if includesChar CR value then unquotable refused_carriage_return
  else if negb (includesChar QUOTE value) then quoted (wrap QUOTE value) false
  else if negb (includesChar BACKTICK value) then quoted (wrap BACKTICK value) true
  else if negb (includesChar DQ value) && negb (includesChar NL value) && negb (hasBackslashNR value)
  then quoted (wrap DQ value) true
  else unquotable refused_unrepresentable.

(** [value.replaceAll("'", String.raw`'\''`)] *)
Definition SHELL_ESCAPED_QUOTE : string := String QUOTE (String BS (String QUOTE (String QUOTE EmptyString))).
Definition shellEscape (value : string) : string :=
  string_map (fun c => if c =? QUOTE then SHELL_ESCAPED_QUOTE else String c EmptyString) value.

Inductive SerializeResult :=
| serialized (text : string) (dotenvOnlyQuotedKeys : list string)
| refused (key : string) (reason : RefusalReason).

(** The lines of the entries; [Throw] on a malformed name, a programmer's error. *)
Fixpoint serializeEntries (entries : list EnvFileEntry) (format : EnvFileFormat) : Outcome SerializeResult :=
  match entries with
  | [] => Ok (serialized "" [])
  | MkEnvFileEntry key value :: entries' =>
      if negb (isValidEnvVarIdentifier key)
      then Throw (JsError "serializeEnvFile: invalid environment variable name") else
      if includesChar NUL value then Ok (refused key refused_nul) else
      match format with
      | format_shell =>
          rest ← serializeEntries entries' format;
          match rest with
          | refused k r => Ok (refused k r)
          | serialized lines keys =>
              Ok (serialized ("export " +:+ key +:+ "=" +:+ wrap QUOTE (shellEscape value) +:+ String NL lines) keys)
          end
      | format_dotenv =>
          match quoteDotenv value with
          | unquotable reason => Ok (refused key reason)
          | quoted quotedValue dotenvOnly =>
              rest ← serializeEntries entries' format;
              match rest with
              | refused k r => Ok (refused k r)
              | serialized lines keys =>
                  Ok (serialized (key +:+ "=" +:+ quotedValue +:+ String NL lines) (if dotenvOnly then key :: keys else keys))
              end
          end
      end
  end.

Definition serializeEnvFile (entries : list EnvFileEntry) (format : EnvFileFormat) : Outcome SerializeResult :=
  rest ← serializeEntries entries format;
  match rest with
  | refused k r => Ok (refused k r)
  | serialized lines keys => Ok (serialized (ENV_FILE_HEADER +:+ lines) keys)
  end.

(** The parser works on what is left of the text; an error names no offset. *)
Definition parseError : Exn := JsError "parseEnvFile: unexpected content".

(** The longest run of word characters. *)
Fixpoint takeWord (s : string) : string * string :=
  match s with
  | EmptyString => (EmptyString, EmptyString)
  | String c s' => if isWord c then let '(w, r) := takeWord s' in (String c w, r) else (EmptyString, s)
  end.

(** [/^([A-Za-z_]\w* )=/]: the name and what follows the equals sign. *)
Definition matchAssignment (s : string) : option (string * string) :=
  match s with
  | String c s' =>
      if isWordStart c then
        let '(w, r) := takeWord s' in
        match r with
        | String d r' => if d =? "="%char then Some (String c w, r') else None
        | EmptyString => None
        end
      else None
  | EmptyString => None
  end.

Fixpoint stripPrefix (p s : string) : option string :=
  match p, s with
  | EmptyString, _ => Some s
  | String c p', String d s' => if c =? d then stripPrefix p' s' else None
  | _, EmptyString => None
  end.

(** [for (;;)] of readShellValue, from the text at [pos]: the value and what is left. *)
Fixpoint readShellValue (fuel : nat) (s value : string) : option (Outcome (string * string)) :=
  match fuel with
  | O => None
  | S fuel' =>
      match s with
      | String c s' =>
          if negb (c =? QUOTE) then Some (Throw parseError) else
          match cutAt QUOTE s' with
          | (_, None) => Some (Throw parseError)
          | (run, Some rest) =>
              let value := value +:+ run in
              match stripPrefix (String BS (String QUOTE EmptyString)) rest with
              | None => Some (Ok (value, rest))
              | Some rest' => readShellValue fuel' rest' (value +:+ String QUOTE EmptyString)
              end
          end
      | EmptyString => Some (Throw parseError)
      end
  end.

Definition readDotenvValue (s : string) (quote : ascii) : Outcome (string * string) :=
  match cutAt quote s with
  | (_, None) => Throw parseError
  | (value, Some rest) => Ok (value, rest)
  end.

(** One assignment: the entry and what is left. *)
Definition parseAssignment (fuel : nat) (text : string) (format : EnvFileFormat)
    : option (Outcome (EnvFileEntry * string)) :=
  match format with
  | format_shell =>
      match stripPrefix "export " text ≫= matchAssignment with
      | None => Some (Throw parseError)
      | Some (key, rest) =>
          match readShellValue fuel rest "" with
          | None => None
          | Some r => Some ('(value, rest') ← r; Ok (MkEnvFileEntry key value, rest'))
          end
      end
  | format_dotenv =>
      match matchAssignment text with
      | Some (key, String q rest) =>
          if (q =? QUOTE) || (q =? BACKTICK) || (q =? DQ)
          then Some ('(value, rest') ← readDotenvValue rest q; Ok (MkEnvFileEntry key value, rest'))
          else Some (Throw parseError)
      | _ => Some (Throw parseError)
      end
  end.

Definition startsWithHash (s : string) : bool := match s with String c _ => c =? "#"%char | EmptyString => false end.

Fixpoint parseLines (fuel : nat) (text : string) (format : EnvFileFormat) : option (Outcome (list EnvFileEntry)) :=
  match fuel with
  | O => None
  | S fuel' =>
      if text =? "" then Some (Ok []) else
      let '(line, after) := cutAt NL text in
      if (line =? "") || startsWithHash line then parseLines fuel' (default "" after) format else
      match parseAssignment fuel text format with
      | None => None
      | Some (Throw e) => Some (Throw e)
      | Some (Ok (entry, rest)) =>
          match rest with
          | EmptyString => Some (Ok [entry])
          | String c rest' =>
              if negb (c =? NL) then Some (Throw parseError) else
              match parseLines fuel' rest' format with
              | Some (Ok entries) => Some (Ok (entry :: entries))
              | r => r
              end
          end
      end
  end.

Definition parseEnvFuel (text : string) : nat := S (String.length text).
Definition parseEnvFile (text : string) (format : EnvFileFormat) : option (Outcome (list EnvFileEntry)) :=
  parseLines (parseEnvFuel text) text format.

(** ** write-env-file.ts *)

(** [lstat] of the output path, and [stat] of its parent when there is nothing. *)
Inductive PathState :=
| path_absent (parentIsDirectory : bool)
| path_regular | path_symlink | path_directory | path_special
| path_parent_not_directory | path_stat_failed.

(** The atomic write, as the file system answers it. *)
Inductive WriteOutcome := write_ok | write_exists | write_failed.

Record WriteEnvResult := MkWriteEnvResult { we_count : nat; we_servedFromCacheCount : nat; we_text : string }.

Definition preflight (endsWithSeparator : bool) (path : PathState) (force : bool) : option Z :=
  if endsWithSeparator then Some EXIT_outputPathInvalid else
  match path with
  | path_absent parent => if parent then None else Some EXIT_outputPathInvalid
  | path_parent_not_directory => Some EXIT_outputPathInvalid
  | path_stat_failed => Some EXIT_outputWriteFailed
  | path_directory | path_special => Some EXIT_outputPathInvalid
  | path_regular | path_symlink => if negb force then Some EXIT_outputExists else None
  end.

Definition checkIdentifiers (entries : list InjectEntry) : option Z :=
  if existsb (fun e => negb (isValidEnvVarIdentifier (ie_envVarName e))) entries then Some EXIT_usageError else None.

Section write.
Context `{VaultAgent, Unicode}.

Definition envEntries (entries : list InjectEntry) (injected : gmap string string) : list EnvFileEntry :=
  map (fun e => MkEnvFileEntry (ie_envVarName e) (default "" (injected !! ie_envVarName e))) entries.

(** [Throw]: the serializer met a malformed name. *)
Definition serializeOrRefuse (entries : list InjectEntry) (injected : gmap string string) (format : EnvFileFormat)
    : Outcome (Result string) :=
  s ← serializeEnvFile (envEntries entries injected) format;
  match s with
  | refused _ _ => Ok (failed EXIT_valueNotRepresentable)
  | serialized content _ => Ok (done_ content)
  end.

(** [force]: the write replaces; else it is exclusive. *)
Definition commit (force : bool) (written : WriteOutcome) : option Z :=
  match written with
  | write_ok => None
  | write_exists => if negb force then Some EXIT_outputExists else Some EXIT_outputWriteFailed
  | write_failed => Some EXIT_outputWriteFailed
  end.

(** The result, and the text that was handed to the atomic write when there was one. *)
Definition writeEnvFile (entries : list InjectEntry) (endsWithSeparator : bool) (path : PathState) (format : EnvFileFormat)
    (force : bool) (written : WriteOutcome) : Outcome (Result WriteEnvResult) * option string :=
  match (match checkIdentifiers entries with Some e => Some e | None => checkEntryTargets entries end) with
  | Some exitCode => (Ok (failed exitCode), None)
  | None =>
      match preflight endsWithSeparator path force with
      | Some exitCode => (Ok (failed exitCode), None)
      | None =>
          match fetchAllOrNothing entries with
          | failed exitCode => (Ok (failed exitCode), None)
          | done_ fetched =>
              match serializeOrRefuse entries (fs_injected fetched) format with
              | Throw e => (Throw e, None)
              | Ok (failed exitCode) => (Ok (failed exitCode), None)
              | Ok (done_ content) =>
                  match commit force written with
                  | Some exitCode => (Ok (failed exitCode), Some content)
                  | None => (Ok (done_ (MkWriteEnvResult (length entries) (fs_servedFromCacheCount fetched) content)), Some content)
                  end
              end
          end
      end
  end.
End write.
