(* ===== verification/EnvFileTheorems.v ===== *)
(** * What an environment file says

    [parseEnvFile_terminates]: the parser returns or throws on every text;
    [envFile_roundtrip]: it reads back what the serializer wrote, in both
    formats, for every value the serializer does not refuse;
    [write_env_exact]: the text [pvault write-env] hands to the file system
    holds every requested secret and nothing else. *)

From S2P Require Import Prelude Js FieldSet Text EnvFile.
From Stdlib Require Import Ascii String.
From stdpp Require Import strings gmap.

Local Open Scope string_scope.
Local Open Scope list_scope.
Local Open Scope pv_scope.

(** ** Texts *)

Lemma cutAt_shorter c s a b : cutAt c s = (a, Some b) -> String.length b < String.length s.
Proof.
  intros E. pose proof (cutAt_spec c s) as Hs. rewrite E in Hs. destruct Hs as [-> _].
  rewrite string_length_app. cbn. lia.
Qed.
Lemma stripPrefix_app p s r : stripPrefix p s = Some r <-> s = p +:+ r.
Proof.
  revert s. induction p as [|c p IH]; intros s; cbn [stripPrefix].
  - change (EmptyString +:+ r) with r. split; [by intros [= ->]|by intros ->].
  - destruct s as [|d s]; [split; [done|discriminate]|]. rewrite string_app_cons.
    destruct (bool_decide_reflect (c = d)) as [->|Hne].
    + rewrite IH. split; [by intros ->|by intros [= ->]].
    + split; [done|]. intros [= -> _]. done.
Qed.
Lemma takeWord_app s w r : takeWord s = (w, r) -> s = w +:+ r.
Proof.
  revert w r. induction s as [|c s IH]; intros w r; cbn [takeWord]; [by intros [= <- <-]|].
  destruct (isWord c); [|by intros [= <- <-]]. destruct (takeWord s) as [w' r']. intros [= <- <-].
  rewrite string_app_cons. by rewrite (IH w' r' eq_refl) at 1.
Qed.
Lemma matchAssignment_shorter s k r : matchAssignment s = Some (k, r) -> String.length r < String.length s.
Proof.
  unfold matchAssignment. destruct s as [|c s]; [done|]. destruct (isWordStart c); [|done].
  destruct (takeWord s) as [w t] eqn:E. apply takeWord_app in E as ->. destruct t as [|d t]; [done|].
  destruct (d =? _); [|done]. intros [= <- <-]. cbn. rewrite string_length_app. cbn. lia.
Qed.

(** ** Termination *)

Lemma readShellValue_terminates fuel s v : String.length s < fuel ->
  exists o, readShellValue fuel s v = Some o /\ forall x r, o = Ok (x, r) -> String.length r < String.length s.
Proof.
  revert s v. induction fuel as [|fuel IH]; intros s v Hl; [lia|]. cbn [readShellValue].
  destruct s as [|c s]; [by eexists|]. cbn in Hl. destruct (negb _); [by eexists|].
  destruct (cutAt QUOTE s) as [run [rest|]] eqn:E; [|by eexists]. apply cutAt_shorter in E.
  destruct (stripPrefix _ rest) as [rest'|] eqn:Es.
  - apply stripPrefix_app in Es as ->. rewrite string_app_cons in E. cbn in E.
    change (String.length (String QUOTE EmptyString +:+ rest')) with (S (String.length rest')) in E.
    destruct (IH rest' ((v +:+ run) +:+ String QUOTE EmptyString)) as (o & -> & Ho); [lia|].
    exists o. split; [done|]. intros x r Ex. specialize (Ho x r Ex). cbn. lia.
  - eexists. split; [done|]. intros x r [= _ <-]. cbn. lia.
Qed.

Lemma parseAssignment_terminates fuel s format : String.length s < fuel ->
  exists o, parseAssignment fuel s format = Some o /\ forall e r, o = Ok (e, r) -> String.length r < String.length s.
Proof.
  intros Hl. unfold parseAssignment. destruct format.
  - destruct (matchAssignment s) as [[key rest]|] eqn:E; [|by eexists]. apply matchAssignment_shorter in E.
    destruct rest as [|q rest]; [by eexists|]. cbn in E. destruct (_ || _); [|by eexists]. eexists. split; [done|].
    unfold readDotenvValue. destruct (cutAt q rest) as [v [r|]] eqn:Ec; [|done]. apply cutAt_shorter in Ec.
    cbn. intros e r' [= _ <-]. lia.
  - destruct (stripPrefix "export " s) as [t|] eqn:Ep; [|by eexists]. apply stripPrefix_app in Ep as ->.
    rewrite string_length_app in *. cbn [option_bind mbind]. destruct (matchAssignment t) as [[key rest]|] eqn:E; [|by eexists].
    apply matchAssignment_shorter in E. destruct (readShellValue_terminates fuel rest "") as (o & -> & Ho); [lia|].
    eexists. split; [done|]. destruct o as [[v r]|]; [|done]. cbn. intros e r' [= _ <-]. specialize (Ho v r eq_refl). lia.
Qed.

Lemma parseLines_terminates fuel s format : String.length s < fuel -> exists o, parseLines fuel s format = Some o.
Proof.
  revert s. induction fuel as [|fuel IH]; intros s Hl; [lia|]. cbn [parseLines].
  destruct (bool_decide_reflect (s = "")) as [|Hne]; [by eexists|].
  destruct (cutAt NL s) as [line after] eqn:Ec. destruct (_ || _).
  - apply IH. destruct after as [a|]; [apply cutAt_shorter in Ec; cbn; lia|]. destruct s; [done|]. cbn in *. lia.
  - destruct (parseAssignment_terminates (S fuel) s format Hl) as (o & -> & Ho). destruct o as [[e r]|]; [|by eexists].
    specialize (Ho e r eq_refl). destruct r as [|c r]; [by eexists|]. cbn in Ho. destruct (negb _); [by eexists|].
    destruct (IH r) as [[l|x] ->]; [lia|by eexists|by eexists].
Qed.

(** The parser of environment files terminates on every text in both formats: each turn of its loops consumes a
    character, and it returns the entries or throws. *)
Theorem parseEnvFile_terminates (s : string) (format : EnvFileFormat) :
  exists o, parseEnvFile s format = Some o.
Proof. apply parseLines_terminates. unfold parseEnvFuel. lia. Qed.

(** ** Round trip *)

Lemma includesChar_without c s : includesChar c s = false <-> withoutChar c s.
Proof. unfold includesChar, withoutChar. by rewrite negb_false_iff. Qed.

Lemma valid_cases key : isValidEnvVarIdentifier key = true <->
  exists c s, key = String c s /\ isWordStart c = true /\ allChars isWord s = true.
Proof.
  unfold isValidEnvVarIdentifier, SAFE_ENV_VAR_REGEX. rewrite re_test_lang, lang_seq. split.
  - intros (s1 & s2 & -> & (c & -> & Hc)%lang_class & H2%lang_star_class). by exists c, s2.
  - intros (c & s & -> & Hc & Hs). exists (String c EmptyString), s. split; [done|]. split; [by constructor|].
    by apply lang_star_class.
Qed.

Lemma takeWord_stop s c r : allChars isWord s = true -> isWord c = false ->
  takeWord (s +:+ String c r) = (s, String c r).
Proof.
  intros Hs Hc. induction s as [|d s IH].
  - change (EmptyString +:+ ?x) with x. cbn [takeWord]. by rewrite Hc.
  - cbn in Hs. apply andb_true_iff in Hs as [Hd Hs]. rewrite string_app_cons. cbn [takeWord]. by rewrite Hd, IH.
Qed.
Lemma matchAssignment_key key r : isValidEnvVarIdentifier key = true ->
  matchAssignment (key +:+ "=" +:+ r) = Some (key, r).
Proof.
  intros (c & s & -> & Hc & Hs)%valid_cases. rewrite !string_app_cons. change (EmptyString +:+ ?x) with x.
  unfold matchAssignment. rewrite Hc, takeWord_stop by done. by rewrite bool_decide_eq_true_2.
Qed.

Lemma shellEscape_app a b : shellEscape (a +:+ b) = shellEscape a +:+ shellEscape b.
Proof.
  induction a as [|c a IH]; [done|]. rewrite string_app_cons. unfold shellEscape in *. cbn [string_map].
  rewrite IH. by rewrite string_app_assoc.
Qed.
Lemma shellEscape_without a : withoutChar QUOTE a -> shellEscape a = a.
Proof.
  induction a as [|c a IH]; [done|]. intros [Hc Ha]%without_cons. unfold shellEscape in *. cbn [string_map].
  rewrite bool_decide_eq_false_2 by done. rewrite IH by done. done.
Qed.

Lemma readShellValue_escaped fuel v acc r :
  String.length (shellEscape v) < fuel -> stripPrefix (String BS (String QUOTE EmptyString)) r = None ->
  readShellValue fuel (wrap QUOTE (shellEscape v) +:+ r) acc = Some (Ok (acc +:+ v, r)).
Proof.
  revert v acc. induction fuel as [|fuel IH]; intros v acc Hl Hr; [lia|].
  unfold wrap. rewrite string_app_cons, string_app_assoc, string_app_cons. change (EmptyString +:+ ?x) with x.
  cbn [readShellValue]. rewrite bool_decide_eq_true_2 by done. cbn [negb].
  pose proof (cutAt_spec QUOTE v) as Hv. destruct (cutAt QUOTE v) as [a [b|]].
  - destruct Hv as [-> Ha]. rewrite shellEscape_app, (shellEscape_without a) in * by done.
    change (shellEscape (String QUOTE b)) with (SHELL_ESCAPED_QUOTE +:+ shellEscape b) in *.
    unfold SHELL_ESCAPED_QUOTE in *. rewrite string_app_assoc, !string_app_cons. change (EmptyString +:+ ?x) with x.
    rewrite cutAt_app by done.
    change (stripPrefix (String BS (String QUOTE EmptyString)) (String BS (String QUOTE ?x))) with (Some x). cbv beta iota.
    rewrite !string_length_app in Hl. cbn in Hl.
    pose proof (IH b ((acc +:+ a) +:+ String QUOTE EmptyString)) as IHb. unfold wrap in IHb.
    rewrite string_app_cons, string_app_assoc, string_app_cons in IHb. change (EmptyString +:+ r) with r in IHb.
    rewrite IHb by (done || lia). by rewrite !string_app_assoc.
  - destruct Hv as [_ Hv]. rewrite shellEscape_without, cutAt_app by done. by rewrite Hr.
Qed.

Lemma first_line c s : c <> NL -> fst (cutAt NL (String c s)) = String c (fst (cutAt NL s)).
Proof. intros Hc. cbn [cutAt]. rewrite bool_decide_eq_false_2 by done. by destruct (cutAt NL s). Qed.

Lemma wordStart_char c : isWordStart c = true -> c <> NL /\ (c =? "#"%char) = false.
Proof. intros Hc. split; [|apply bool_decide_eq_false]; intros ->; by vm_compute in Hc. Qed.

(** One line of an assignment, when the assignment parses. *)
Lemma parseLines_entry fuel c s format e lines entries :
  c <> NL -> (c =? "#"%char) = false ->
  parseAssignment (S fuel) (String c s) format = Some (Ok (e, String NL lines)) ->
  parseLines fuel lines format = Some (Ok entries) ->
  parseLines (S fuel) (String c s) format = Some (Ok (e :: entries)).
Proof.
  intros Hn Hh Ha Hl. cbn [parseLines]. rewrite (bool_decide_eq_false_2 (String c s = "")) by done.
  pose proof (first_line c s Hn) as Hf. destruct (cutAt NL (String c s)) as [line after]. cbn in Hf. subst line.
  rewrite bool_decide_eq_false_2 by done. unfold startsWithHash. rewrite Hh. cbn [orb]. rewrite Ha.
  rewrite (bool_decide_eq_true_2 (NL = NL)) by done. cbn [negb]. by rewrite Hl.
Qed.

Lemma quoteDotenv_read v q dotenvOnly r : quoteDotenv v = quoted q dotenvOnly ->
  exists d, (d =? QUOTE) || (d =? BACKTICK) || (d =? DQ) = true /\ q +:+ r = String d (v +:+ String d r) /\ withoutChar d v.
Proof.
  assert (Hw : forall d, wrap d v +:+ r = String d (v +:+ String d r)).
  { intros d. unfold wrap. rewrite string_app_cons, string_app_assoc, string_app_cons. done. }
  unfold quoteDotenv. destruct (includesChar CR v); [done|].
  destruct (includesChar QUOTE v) eqn:E1; cbn [negb].
  2: { intros [= <- _]. exists QUOTE. rewrite Hw. split; [done|]. split; [done|]. by apply includesChar_without. }
  destruct (includesChar BACKTICK v) eqn:E2; cbn [negb].
  2: { intros [= <- _]. exists BACKTICK. rewrite Hw. split; [done|]. split; [done|]. by apply includesChar_without. }
  destruct (includesChar DQ v) eqn:E3; cbn [negb andb]; [done|].
  destruct (_ && _); [|done]. intros [= <- _]. exists DQ. rewrite Hw. split; [done|]. split; [done|]. by apply includesChar_without.
Qed.

Lemma key_head key r : isValidEnvVarIdentifier key = true ->
  exists c s, key +:+ r = String c s /\ c <> NL /\ (c =? "#"%char) = false.
Proof.
  intros (c & s & -> & Hc & _)%valid_cases. rewrite string_app_cons. exists c, (s +:+ r). split; [done|].
  by apply wordStart_char.
Qed.

Lemma parseLines_serialized entries format lines keys fuel :
  serializeEntries entries format = Ok (serialized lines keys) -> String.length lines < fuel ->
  parseLines fuel lines format = Some (Ok entries).
Proof.
  revert lines keys fuel. induction entries as [|[key v] entries IH]; intros lines keys fuel.
  { intros [= <- <-] Hf. destruct fuel; [lia|done]. }
  destruct fuel as [|fuel]; [lia|]. cbn [serializeEntries].
  destruct (isValidEnvVarIdentifier key) eqn:Ek; cbn [negb]; [|done].
  destruct (includesChar NUL v); [done|]. destruct format.
  - destruct (quoteDotenv v) as [q dotenvOnly|] eqn:Eq; [|done].
    destruct (serializeEntries entries format_dotenv) as [[lines' keys'|]|] eqn:Es; try done. cbn. intros [= <- _] Hf.
    assert (Hrest : parseLines fuel lines' format_dotenv = Some (Ok entries)).
    { eapply IH; [done|]. rewrite !string_length_app in Hf. cbn in Hf. lia. }
    destruct (key_head key ("=" +:+ q +:+ String NL lines') Ek) as (c & s & Ec & Hn & Hh).
    destruct (quoteDotenv_read v q dotenvOnly (String NL lines') Eq) as (d & Hd & Ed & Hw).
    rewrite Ec. eapply parseLines_entry; [done|done| |exact Hrest]. rewrite <- Ec. unfold parseAssignment.
    rewrite matchAssignment_key by done. rewrite Ed, Hd. unfold readDotenvValue. by rewrite cutAt_app.
  - destruct (serializeEntries entries format_shell) as [[lines' keys'|]|] eqn:Es; try done. cbn. intros [= <- _] Hf.
    assert (Hrest : parseLines fuel lines' format_shell = Some (Ok entries)).
    { eapply IH; [done|]. rewrite !string_length_app in Hf. cbn in Hf. lia. }
    change ("export " +:+ ?x) with (String "e" ("xport " +:+ x)).
    eapply parseLines_entry; [done|done| |exact Hrest].
    change (String "e" ("xport " +:+ ?x)) with ("export " +:+ x). unfold parseAssignment.
    rewrite (proj2 (stripPrefix_app "export " _ _) eq_refl). cbn [mbind option_bind].
    rewrite matchAssignment_key by done. rewrite readShellValue_escaped; [done| |done].
    rewrite !string_length_app in Hf. unfold wrap in Hf. cbn [String.length] in Hf. rewrite !string_length_app in Hf. lia.
Qed.

Lemma header_skipped fuel s format : parseLines (S fuel) (ENV_FILE_HEADER +:+ s) format = parseLines fuel s format.
Proof. reflexivity. Qed.

Lemma roundtrip_lemma entries format s keys :
  serializeEnvFile entries format = Ok (serialized s keys) -> parseEnvFile s format = Some (Ok entries).
Proof.
  unfold serializeEnvFile. destruct (serializeEntries entries format) as [[lines keys'|]|] eqn:E; try done.
  cbn [mbind Outcome_bind]. intros [= <- _]. unfold parseEnvFile, parseEnvFuel. rewrite header_skipped. eapply parseLines_serialized; [done|].
  rewrite string_length_app. assert (0 < String.length ENV_FILE_HEADER) by (vm_compute; lia). lia.
Qed.

(** C40: what the serializer of environment files writes, the parser reads back: the same names and values in the same
    order, whatever quotes, newlines, backslashes or shell characters the values hold, in both formats. *)
Theorem envFile_roundtrip (entries : list EnvFileEntry) (format : EnvFileFormat) (s : string) (keys : list string)
    (HS : serializeEnvFile entries format = Ok (serialized s keys)) :
  parseEnvFile s format = Some (Ok entries).
Proof. by eapply roundtrip_lemma. Qed.

(** ** write-env *)

Section write.
Context `{VaultAgent, Unicode}.

(** The value the [n]th call returns. *)
Definition fetchedAs (n : nat) (e : InjectEntry) (v : string) : Prop :=
  exists fromCache, getSecret n (ie_credentialName e) = fetched_value v fromCache.

Lemma findDuplicate_false seen entries : findDuplicateTarget seen entries = false ->
  NoDup (map ie_envVarName entries) /\ forall e, e ∈ entries -> toUpperCase (ie_envVarName e) ∉ seen.
Proof.
  revert seen. induction entries as [|e entries IH]; intros seen; cbn [findDuplicateTarget].
  { intros _. split; [apply NoDup_nil_2|]. by intros e ?%not_elem_of_nil. }
  case_bool_decide as Hin; [done|]. intros [Hnd Hall]%IH. split.
  - cbn. apply NoDup_cons. split; [|done]. intros (x & Ex & Hx)%Prelude.elem_of_map.
    apply (Hall x Hx). rewrite Ex. left.
  - intros x [->|Hx]%elem_of_cons; [done|]. intros Hs. apply (Hall x Hx). by right.
Qed.

Lemma fetchEntryAt_done n entries st st' : fetchEntryAt n entries st = done_ st' ->
  exists values, length values = length entries /\
    (forall i e v, entries !! i = Some e -> values !! i = Some v -> fetchedAs (n + i) e v) /\
    (NoDup (map ie_envVarName entries) ->
     (forall i e v, entries !! i = Some e -> values !! i = Some v -> fs_injected st' !! ie_envVarName e = Some v) /\
     forall x, x ∉ map ie_envVarName entries -> fs_injected st' !! x = fs_injected st !! x).
Proof.
  revert n st. induction entries as [|e entries IH]; intros n st; cbn [fetchEntryAt].
  { intros [= <-]. exists []. split; [done|]. split; [by intros [] ?|]. intros _. split; [by intros [] ?|done]. }
  destruct (getSecret n _) as [v fromCache|code|] eqn:E; try done. intros Hd.
  destruct (IH _ _ Hd) as (values & Hlen & Hf & Hinj). exists (v :: values). split; [by cbn; f_equal|]. split.
  - intros [|i] x y; cbn; [intros [= <-] [= <-]; rewrite Nat.add_0_r; by exists fromCache|].
    intros Hx Hy. replace (n + S i) with (S n + i) by lia. by apply Hf.
  - cbn [map]. intros [Hn Hnd]%NoDup_cons. destruct (Hinj Hnd) as [Hv Ho]. split.
    + intros [|i] x y; cbn; [|by apply Hv]. intros [= <-] [= <-]. rewrite Ho by done. cbn. apply lookup_insert_eq.
    + intros x Hx. apply not_elem_of_cons in Hx as [Hne Hx]. rewrite Ho by done. cbn. by apply lookup_insert_ne.
Qed.

Lemma envEntries_zip entries (injected : gmap string string) values :
  length values = length entries ->
  (forall i e v, entries !! i = Some e -> values !! i = Some v -> injected !! ie_envVarName e = Some v) ->
  envEntries entries injected = zip_with (fun e v => MkEnvFileEntry (ie_envVarName e) v) entries values.
Proof.
  revert values. induction entries as [|e entries IH]; intros [|v values] Hl Hv; try done.
  cbn. rewrite (Hv 0 e v) by done. cbn. f_equal. apply IH; [by cbn in Hl; lia|]. intros i. apply (Hv (S i)).
Qed.

Lemma serialize_ok entries format : (forall e, e ∈ entries -> isValidEnvVarIdentifier (ef_key e) = true) ->
  exists r, serializeEntries entries format = Ok r.
Proof.
  induction entries as [|[k v] entries IH]; intros Hv; cbn [serializeEntries]; [by eexists|].
  assert (isValidEnvVarIdentifier k = true) as -> by (apply (Hv (MkEnvFileEntry k v)); left). cbn [negb].
  destruct IH as [r Er]; [by intros e He; apply Hv; right|].
  destruct (includesChar NUL v); [by eexists|]. destruct format.
  - destruct (quoteDotenv v); [|by eexists]. rewrite Er. destruct r; by eexists.
  - rewrite Er. destruct r; by eexists.
Qed.

Lemma checkIdentifiers_ok entries : checkIdentifiers entries = None ->
  forall e, e ∈ entries -> isValidEnvVarIdentifier (ie_envVarName e) = true.
Proof.
  unfold checkIdentifiers. destruct (existsb _ entries) eqn:E; [done|]. intros _ e He.
  destruct (isValidEnvVarIdentifier _) eqn:Ei; [done|]. exfalso. eapply not_true_iff_false; [exact E|].
  apply existsb_exists. exists e. rewrite <- list_elem_of_In. by rewrite Ei.
Qed.

(** [pvault write-env] is all or nothing: it never throws, and a text reaches the file system only when every
    secret was fetched and can be represented; that text, read back, holds exactly the requested variables in
    order, each with the value its own fetch returned; no variable of it is reserved and none occurs twice. *)
Theorem write_env_exact entries endsWithSeparator path format force written :
  let '(o, handed) := writeEnvFile entries endsWithSeparator path format force written in
  (exists r, o = Ok r) /\
  match handed with
  | None => exists exitCode, o = Ok (failed exitCode)
  | Some content =>
      exists values, length values = length entries /\
        (forall i e v, entries !! i = Some e -> values !! i = Some v -> fetchedAs i e v) /\
        parseEnvFile content format =
          Some (Ok (zip_with (fun e v => MkEnvFileEntry (ie_envVarName e) v) entries values)) /\
        NoDup (map ie_envVarName entries) /\
        (forall e, e ∈ entries -> isReservedEnvVarName (ie_envVarName e) = false) /\
        preflight endsWithSeparator path force = None
  end.
Proof.
  unfold writeEnvFile. destruct (checkIdentifiers entries) as [z|] eqn:Ei; [eauto|].
  destruct (checkEntryTargets entries) as [z|] eqn:Et; [eauto|].
  destruct (preflight _ _ _) as [z|] eqn:Ep; [eauto|].
  destruct (fetchAllOrNothing entries) as [st|z] eqn:Ef; [|eauto].
  unfold checkEntryTargets in Et. destruct (existsb _ entries) eqn:Er; [done|].
  destruct (findDuplicateTarget [] entries) eqn:Ed; [done|]. apply findDuplicate_false in Ed as [Hnd _].
  destruct (fetchEntryAt_done _ _ _ _ Ef) as (values & Hlen & Hf & Hinj). destruct (Hinj Hnd) as [Hv _].
  destruct (serialize_ok (envEntries entries (fs_injected st)) format) as [r Es].
  { intros x (e & -> & He)%Prelude.elem_of_map. by apply (checkIdentifiers_ok entries). }
  assert (Hser : serializeOrRefuse entries (fs_injected st) format =
    match r with serialized lines _ => Ok (done_ (ENV_FILE_HEADER +:+ lines)) | refused _ _ => Ok (failed EXIT_valueNotRepresentable) end).
  { unfold serializeOrRefuse, serializeEnvFile. rewrite Es. by destruct r. }
  rewrite Hser. destruct r as [lines keys|k reason]; [|eauto]. cbv beta iota.
  assert (Hp : parseEnvFile (ENV_FILE_HEADER +:+ lines) format =
    Some (Ok (zip_with (fun e v => MkEnvFileEntry (ie_envVarName e) v) entries values))).
  { rewrite <- (envEntries_zip entries (fs_injected st)) by done. eapply roundtrip_lemma.
    unfold serializeEnvFile. by rewrite Es. }
  assert (Hres : forall e, e ∈ entries -> isReservedEnvVarName (ie_envVarName e) = false).
  { intros e He. destruct (isReservedEnvVarName _) eqn:Ex; [|done]. exfalso. eapply not_true_iff_false; [exact Er|].
    apply existsb_exists. exists e. by rewrite <- list_elem_of_In. }
  destruct (commit force written); (split; [eauto|]); exists values; auto 10.
Qed.
End write.

(** ** Witnesses *)

Definition trickyEntries : list EnvFileEntry :=
  [MkEnvFileEntry "A" "it's"; MkEnvFileEntry "_B1" (String NL "# not a comment"); MkEnvFileEntry "C" ""].

Definition trickyDotenv : string * list string := Eval vm_compute in
  match serializeEnvFile trickyEntries format_dotenv with Ok (serialized s k) => (s, k) | _ => ("", []) end.

Lemma envFile_roundtrip_witness : parseEnvFile (fst trickyDotenv) format_dotenv = Some (Ok trickyEntries).
Proof. refine (envFile_roundtrip trickyEntries format_dotenv (fst trickyDotenv) (snd trickyDotenv) _). vm_compute. reflexivity. Defined.

Example shell_quotes :
  serializeEnvFile [MkEnvFileEntry "A" "it's"] format_shell =
  Ok (serialized (ENV_FILE_HEADER +:+ "export A='it'\''s'" +:+ String NL EmptyString) []).
Proof. reflexivity. Qed.
