(* ===== verification/Semver.v ===== *)
(** * Versions of clients: parsing and precedence

    packages/cli/src/semver-precedence.ts, and the version checks of
    modules/client-versions/policy.ts that the server makes of the same texts.
    The regular expressions are the terms of [Regex] the source spells; the
    groups a match captures are the parts around the first '-' and the dots.
    [Number(digits)] is exact up to the largest safe integer and above it is
    never safe.

    [parity]: the server accepts a text exactly when the CLI parses it;
    [compareSemver_precedence]: the comparison of the CLI is the precedence of
    SemVer 2.0.0, section 11 ([Precedes]). *)

From S2P Require Import Prelude Js FieldSet Text.
From Stdlib Require Import Ascii String.
From stdpp Require Import strings.

Local Open Scope string_scope.
Local Open Scope list_scope.
Local Open Scope pv_scope.

(** ** packages/cli/src/semver-precedence.ts *)

Inductive Identifier := id_number (n : Z) | id_text (s : string).
#[export] Instance Identifier_eq_dec : EqDecision Identifier.
Proof. solve_decision. Defined.

Record ParsedSemver := MkParsedSemver {
  sv_major : Z;
  sv_minor : Z;
  sv_patch : Z;
  sv_prerelease : list Identifier;
}.

Definition MAX_SEMVER_LENGTH : Z := 128.
Definition MAX_SAFE_INTEGER : Z := 9007199254740991.

Definition DOT : ascii := ".".
Definition DASH : ascii := "-".
Definition digit : Regex := re_class isAsciiDigit.
Definition nonZeroDigit : Regex := re_class (fun c => isAsciiDigit c && negb (c =? "0"%char)).
Definition isLetterOrDash (c : ascii) : bool := isLetter c || (c =? DASH).
Definition isIdChar (c : ascii) : bool := isAsciiDigit c || isLetterOrDash c.

(** [0|[1-9]\d*] *)
Definition NUMERIC : Regex := re_alt (re_char "0") (re_seq nonZeroDigit (re_star digit)).
(** [(?:0|[1-9]\d*|\d*[a-zA-Z-][0-9a-zA-Z-]* )] *)
Definition PRERELEASE_ID : Regex :=
  re_alt (re_char "0") (re_alt (re_seq nonZeroDigit (re_star digit))
    (re_seq (re_star digit) (re_seq (re_class isLetterOrDash) (re_star (re_class isIdChar))))).
Definition STRICT_SEMVER : Regex :=
  re_seq (re_cat [NUMERIC; re_char DOT; NUMERIC; re_char DOT; NUMERIC])
    (re_opt (re_seq (re_char DASH) (re_seq PRERELEASE_ID (re_star (re_seq (re_char DOT) PRERELEASE_ID))))).
Definition NUMERIC_ID : Regex := re_plus digit.

(** [Number(s)] of a text of digits. *)
Fixpoint numberFrom (acc : Z) (s : string) : Z :=
  match s with
  | EmptyString => acc
  | String c s' => numberFrom (10 * acc + (Z.of_N (code c) - 48)) s'
  end.
Definition toNumber (s : string) : Z := numberFrom 0 s.

Definition toSafeInt (value : string) : option Z :=
  let n := toNumber value in if (n <=? MAX_SAFE_INTEGER) then Some n else None.

Fixpoint parsePrereleaseIds (ids : list string) : option (list Identifier) :=
  match ids with
  | [] => Some []
  | id :: ids' =>
      if negb (re_test NUMERIC_ID id) then cons (id_text id) <$> parsePrereleaseIds ids'
      else match toSafeInt id with
           | None => None
           | Some n => cons (id_number n) <$> parsePrereleaseIds ids'
           end
  end.

Definition parsePrerelease (raw : option string) : option (list Identifier) :=
  parsePrereleaseIds (match raw with
                      | Some raw => if raw =? "" then [] else splitOn DOT raw
                      | None => []
                      end).

Definition parseStrictSemver (value : string) : option ParsedSemver :=
  if (MAX_SEMVER_LENGTH <? jsLength value) then None else
  if negb (re_test STRICT_SEMVER value) then None else
  let '(core, raw) := cutAt DASH value in
  match map toSafeInt (splitOn DOT core), parsePrerelease raw with
  | [Some major; Some minor; Some patch], Some prerelease => Some (MkParsedSemver major minor patch prerelease)
  | _, _ => None
  end.

(** [a < b] on texts of one-byte characters. *)
Definition textLess (a b : string) : bool := match String.compare a b with Lt => true | _ => false end.

Definition compareIdentifiers (a b : Identifier) : Z :=
  match a, b with
  | id_number a, id_number b => a - b
  | id_number _, _ => -1
  | _, id_number _ => 1
  | id_text a, id_text b => if a =? b then 0 else if textLess a b then -1 else 1
  end.

(** [a || b] of numbers *)
Definition orNumber (a b : Z) : Z := if a =? 0%Z then b else a.

Fixpoint compareShared (a b : list Identifier) : Z :=
  match a, b with
  | x :: a', y :: b' => orNumber (compareIdentifiers x y) (compareShared a' b')
  | a, b => Z.of_nat (length a) - Z.of_nat (length b)
  end.

Definition compareSemver (a b : ParsedSemver) : Z :=
  let core := orNumber (orNumber (sv_major a - sv_major b) (sv_minor a - sv_minor b)) (sv_patch a - sv_patch b) in
  if negb (core =? 0%Z) then core else
  if (length (sv_prerelease a) =? 0%nat) || (length (sv_prerelease b) =? 0%nat)
  then Z.of_nat (length (sv_prerelease b)) - Z.of_nat (length (sv_prerelease a))
  else compareShared (sv_prerelease a) (sv_prerelease b).

Definition compareSemverStrings (a b : string) : option Z :=
  match parseStrictSemver a, parseStrictSemver b with
  | Some pa, Some pb => Some (compareSemver pa pb)
  | _, _ => None
  end.

(** ** modules/client-versions/policy.ts: the texts the server accepts *)

Definition CLI_MAX_VERSION_LENGTH : Z := 128.

Definition STRICT_RELEASE_VERSION : Regex := re_cat [NUMERIC; re_char DOT; NUMERIC; re_char DOT; NUMERIC].
Definition PRERELEASE_NUMERIC_ID : Regex := NUMERIC.
Definition PRERELEASE_CHARS : Regex := re_plus (re_class isIdChar).
(** [/[a-zA-Z-]/.test(s)]: not anchored *)
Definition NON_DIGIT (s : string) : bool := negb (allChars (fun c => negb (isLetterOrDash c)) s).
Definition NUMERIC_IDENTIFIER : Regex := re_plus digit.

Definition isPrereleaseIdentifier (id : string) : bool :=
  re_test PRERELEASE_NUMERIC_ID id || (re_test PRERELEASE_CHARS id && NON_DIGIT id).

Definition isStrictSemver (version : string) : bool :=
  match cutAt DASH version with
  | (_, None) => re_test STRICT_RELEASE_VERSION version
  | (core, Some rest) => re_test STRICT_RELEASE_VERSION core && forallb isPrereleaseIdentifier (splitOn DOT rest)
  end.

Definition isSafeNumber (part : string) : bool := (toNumber part <=? MAX_SAFE_INTEGER).

Definition isCliAcceptedVersion (version : string) : bool :=
  if (CLI_MAX_VERSION_LENGTH <? jsLength version) || negb (isStrictSemver version) then false else
  let '(c, rest) := cutAt DASH version in
  let core := splitOn DOT c in
  let prerelease := match rest with None => [] | Some r => splitOn DOT r end in
  forallb isSafeNumber (core ++ List.filter (re_test NUMERIC_IDENTIFIER) prerelease).

Definition isCliAcceptedReleaseVersion (version : string) : bool :=
  re_test STRICT_RELEASE_VERSION version && isCliAcceptedVersion version.

Fixpoint compareNumbers (a b : list Z) : Z :=
  match a, b with
  | x :: a', y :: b' => orNumber (x - y) (compareNumbers a' b')
  | _, _ => 0
  end.

(** Both texts match STRICT_RELEASE_VERSION: three parts each. *)
Definition compareReleaseVersions (a b : string) : Z :=
  compareNumbers (map toNumber (splitOn DOT a)) (map toNumber (splitOn DOT b)).

(** ** The two recognisers agree *)

Lemma isDigit_not_dot c : isAsciiDigit c = true -> negb (c =? DOT) = true.
Proof. intros Hd. apply negb_true_iff, bool_decide_eq_false. intros ->. by vm_compute in Hd. Qed.
Lemma isDigit_not_dash c : isAsciiDigit c = true -> negb (c =? DASH) = true.
Proof. intros Hd. apply negb_true_iff, bool_decide_eq_false. intros ->. by vm_compute in Hd. Qed.
Lemma isIdChar_not_dot c : isIdChar c = true -> negb (c =? DOT) = true.
Proof. intros Hd. apply negb_true_iff, bool_decide_eq_false. intros ->. by vm_compute in Hd. Qed.

Lemma numeric_digits s : Lang NUMERIC s -> s <> EmptyString /\ allChars isAsciiDigit s = true.
Proof.
  unfold NUMERIC. rewrite lang_alt. intros [->%lang_char|(s1 & s2 & -> & (c & -> & Hc)%lang_class & H2%lang_star_class)%lang_seq].
  - done.
  - split; [done|]. apply andb_true_iff in Hc as [Hc _]. change (isAsciiDigit c && allChars isAsciiDigit s2 = true). by rewrite Hc, H2.
Qed.

Lemma core_parts s : Lang STRICT_RELEASE_VERSION s <->
  exists a b c, splitOn DOT s = [a; b; c] /\ Lang NUMERIC a /\ Lang NUMERIC b /\ Lang NUMERIC c.
Proof.
  assert (Hn : forall x, Lang NUMERIC x -> withoutChar DOT x).
  { intros x [_ Hx]%numeric_digits. by apply (allChars_mono _ _ _ isDigit_not_dot). }
  unfold STRICT_RELEASE_VERSION. cbn [re_cat]. split.
  - rewrite lang_seq. intros (a & t1 & -> & Ha & (d1 & t2 & -> & ->%lang_char & Ht2)%lang_seq).
    apply lang_seq in Ht2 as (b & t3 & -> & Hb & (d2 & c & -> & ->%lang_char & Hc)%lang_seq).
    rewrite !string_app_cons. change (EmptyString +:+ ?x) with x. exists a, b, c.
    by rewrite !splitOn_app, splitOn_without by auto.
  - intros (a & b & c & E & Ha & Hb & Hc). rewrite <- (joinWith_splitOn DOT s), E. cbn [joinWith].
    rewrite lang_seq. eexists a, _. split; [done|]. split; [done|].
    rewrite lang_seq. eexists (String DOT EmptyString), _. split; [done|]. split; [by apply lang_char|].
    rewrite lang_seq. eexists b, _. split; [done|]. split; [done|].
    rewrite lang_seq. eexists (String DOT EmptyString), _. split; [done|]. split; [by apply lang_char|done].
Qed.

Lemma core_without_dash s : Lang STRICT_RELEASE_VERSION s -> withoutChar DASH s.
Proof.
  intros (a & b & c & E & [_ Ha]%numeric_digits & [_ Hb]%numeric_digits & [_ Hc]%numeric_digits)%core_parts.
  rewrite <- (joinWith_splitOn DOT s), E. cbn [joinWith].
  apply without_app. split; [by apply (allChars_mono _ _ _ isDigit_not_dash)|]. apply without_cons. split; [done|].
  apply without_app. split; [by apply (allChars_mono _ _ _ isDigit_not_dash)|]. apply without_cons. split; [done|].
  by apply (allChars_mono _ _ _ isDigit_not_dash).
Qed.

Lemma alnum_lang s :
  Lang (re_seq (re_star digit) (re_seq (re_class isLetterOrDash) (re_star (re_class isIdChar)))) s <->
  allChars isIdChar s = true /\ NON_DIGIT s = true.
Proof.
  unfold NON_DIGIT. rewrite negb_true_iff, lang_seq. split.
  - intros (s1 & s2 & -> & H1%lang_star_class & (t1 & t2 & -> & (c & -> & Hc)%lang_class & H2%lang_star_class)%lang_seq).
    rewrite string_app_cons, !allChars_app. change (EmptyString +:+ ?x) with x. cbn [allChars].
    rewrite Hc, H2. unfold isIdChar at 2. rewrite Hc, orb_true_r, andb_false_r, !andb_true_r. split; [|done].
    apply (allChars_mono _ _ _ (fun c Hd => orb_true_intro _ _ (or_introl Hd)) H1).
  - induction s as [|c s IH]; cbn [allChars]; [by intros []|]. intros [[Hc Hs]%andb_true_iff Hn].
    destruct (isLetterOrDash c) eqn:El.
    + exists EmptyString, (String c s). split; [done|]. split; [constructor|].
      apply (L_seq _ _ (String c EmptyString) s); [by constructor|by apply lang_star_class].
    + destruct IH as (s1 & s2 & -> & H1 & H2); [done|]. exists (String c s1), s2. split; [done|]. split; [|done].
      apply (L_star_cons _ (String c EmptyString) s1); [|done]. constructor.
      unfold isIdChar in Hc. by rewrite El, orb_false_r in Hc.
Qed.

Lemma identifier_parity s : Lang PRERELEASE_ID s <-> isPrereleaseIdentifier s = true.
Proof.
  unfold PRERELEASE_ID, isPrereleaseIdentifier. rewrite orb_true_iff, andb_true_iff, !re_test_lang.
  unfold PRERELEASE_NUMERIC_ID, NUMERIC, PRERELEASE_CHARS. rewrite !lang_alt, alnum_lang, lang_plus_class.
  assert (Hne : NON_DIGIT s = true -> s <> EmptyString) by (by intros Hs ->). naive_solver.
Qed.

Lemma identifier_without_dot s : Lang PRERELEASE_ID s -> withoutChar DOT s.
Proof.
  unfold PRERELEASE_ID. rewrite !lang_alt, alnum_lang. intros Hs. apply (allChars_mono _ _ _ isIdChar_not_dot).
  assert (Hd : Lang NUMERIC s -> allChars isIdChar s = true).
  { intros [_ Hn]%numeric_digits. apply (allChars_mono _ _ _ (fun c Hx => orb_true_intro _ _ (or_introl Hx)) Hn). }
  unfold NUMERIC in Hd. rewrite lang_alt in Hd. naive_solver.
Qed.

Lemma strict_parity v : re_test STRICT_SEMVER v = isStrictSemver v.
Proof.
  apply eq_true_iff_eq. rewrite re_test_lang. unfold STRICT_SEMVER, isStrictSemver.
  change (re_cat [NUMERIC; re_char DOT; NUMERIC; re_char DOT; NUMERIC]) with STRICT_RELEASE_VERSION.
  assert (Hall : forall rest, forallb isPrereleaseIdentifier (splitOn DOT rest) = true <->
    Lang (re_seq PRERELEASE_ID (re_star (re_seq (re_char DOT) PRERELEASE_ID))) rest).
  { intros rest. rewrite lang_separated by apply identifier_without_dot. rewrite forallb_forall.
    setoid_rewrite list_elem_of_In. by setoid_rewrite identifier_parity. }
  rewrite lang_seq. pose proof (cutAt_spec DASH v) as Hcut. split.
  - intros (s1 & s2 & -> & H1 & [->%lang_eps|(d & rest & -> & ->%lang_char & Hr)%lang_seq]%lang_alt).
    + rewrite string_app_nil_r, cutAt_without by (by apply core_without_dash). by apply re_test_lang.
    + rewrite !string_app_cons. change (EmptyString +:+ ?x) with x.
      rewrite cutAt_app by (by apply core_without_dash). apply andb_true_iff. by rewrite re_test_lang, Hall.
  - destruct (cutAt DASH v) as [core [rest|]].
    + destruct Hcut as [-> _]. intros [H1%re_test_lang H2%Hall]%andb_true_iff. exists core, (String DASH rest).
      split; [done|]. split; [done|]. apply lang_alt. right.
      apply (L_seq _ _ (String DASH EmptyString) rest); [by apply lang_char|done].
    + intros H1%re_test_lang. exists v, EmptyString. rewrite string_app_nil_r. split; [done|]. split; [done|].
      apply lang_alt. left. constructor.
Qed.

Definition isSome {A} (o : option A) : bool := match o with Some _ => true | None => false end.

Lemma toSafeInt_some s : isSome (toSafeInt s) = isSafeNumber s.
Proof. unfold toSafeInt, isSafeNumber. by destruct (_ <=? _). Qed.

Lemma parsePrereleaseIds_some ids :
  isSome (parsePrereleaseIds ids) = forallb isSafeNumber (List.filter (re_test NUMERIC_IDENTIFIER) ids).
Proof.
  induction ids as [|id ids IH]; [done|]. cbn [parsePrereleaseIds List.filter].
  change NUMERIC_IDENTIFIER with NUMERIC_ID in *. destruct (re_test NUMERIC_ID id); cbn [negb forallb].
  - rewrite <- toSafeInt_some, <- IH. destruct (toSafeInt id); [|done]. by destruct (parsePrereleaseIds ids).
  - rewrite <- IH. by destruct (parsePrereleaseIds ids).
Qed.

Lemma parity_lemma version : isCliAcceptedVersion version = isSome (parseStrictSemver version).
Proof.
  unfold isCliAcceptedVersion, parseStrictSemver. change CLI_MAX_VERSION_LENGTH with MAX_SEMVER_LENGTH.
  destruct (MAX_SEMVER_LENGTH <? jsLength version); [done|]. rewrite strict_parity. cbn [orb].
  destruct (isStrictSemver version) eqn:Es; [|done]. cbn [negb]. unfold isStrictSemver in Es.
  pose proof (cutAt_spec DASH version) as Hcut. destruct (cutAt DASH version) as [core rest].
  assert (Hcore : Lang STRICT_RELEASE_VERSION core).
  { apply re_test_lang. destruct rest; [by apply andb_true_iff in Es as [Es _]|]. destruct Hcut as [-> _]. exact Es. }
  apply core_parts in Hcore as (a & b & c & -> & _). cbn [map app forallb]. rewrite <- !toSafeInt_some.
  assert (Hpre : isSome (parsePrerelease rest) = forallb isSafeNumber
    (List.filter (re_test NUMERIC_IDENTIFIER) match rest with None => [] | Some r => splitOn DOT r end)).
  { unfold parsePrerelease. rewrite <- parsePrereleaseIds_some. destruct rest as [rest|]; [|done].
    destruct (bool_decide_reflect (rest = "")) as [->|_]; [|done].
    apply andb_true_iff in Es as [_ Es]. by vm_compute in Es. }
  rewrite <- Hpre. by destruct (toSafeInt a), (toSafeInt b), (toSafeInt c), (parsePrerelease rest).
Qed.

(** The server accepts a version of the CLI exactly when the CLI's own parser does, although one splits the
    text at its dashes and dots and the other matches it against one regular expression. *)
Theorem parity (version : string) : isCliAcceptedVersion version = isSome (parseStrictSemver version).
Proof. apply parity_lemma. Qed.

(** ** SemVer 2.0.0, section 11 *)

(** The order of ASCII texts. *)
Inductive AsciiLess : string -> string -> Prop :=
| al_prefix c s : AsciiLess EmptyString (String c s)
| al_head a b s t : (code a < code b)%N -> AsciiLess (String a s) (String b t)
| al_tail c s t : AsciiLess s t -> AsciiLess (String c s) (String c t).

(** Numeric identifiers numerically; textual ones in ASCII order; numeric below textual. *)
Inductive IdentifierLess : Identifier -> Identifier -> Prop :=
| il_numbers a b : (a < b)%Z -> IdentifierLess (id_number a) (id_number b)
| il_mixed a b : IdentifierLess (id_number a) (id_text b)
| il_texts a b : AsciiLess a b -> IdentifierLess (id_text a) (id_text b).

(** The first difference decides; a longer list is above its prefixes. *)
Inductive PrereleaseLess : list Identifier -> list Identifier -> Prop :=
| pl_longer l x m : PrereleaseLess l (l ++ x :: m)
| pl_differ p x y l m : IdentifierLess x y -> PrereleaseLess (p ++ x :: l) (p ++ y :: m).

Definition sameCore (a b : ParsedSemver) : Prop :=
  sv_major a = sv_major b /\ sv_minor a = sv_minor b /\ sv_patch a = sv_patch b.

Inductive Precedes (a b : ParsedSemver) : Prop :=
| pr_major : (sv_major a < sv_major b)%Z -> Precedes a b
| pr_minor : sv_major a = sv_major b -> (sv_minor a < sv_minor b)%Z -> Precedes a b
| pr_patch : sv_major a = sv_major b -> sv_minor a = sv_minor b -> (sv_patch a < sv_patch b)%Z -> Precedes a b
| pr_release : sameCore a b -> sv_prerelease a <> [] -> sv_prerelease b = [] -> Precedes a b
| pr_prerelease : sameCore a b -> sv_prerelease a <> [] -> PrereleaseLess (sv_prerelease a) (sv_prerelease b) -> Precedes a b.

Lemma textLess_ascii a b : textLess a b = true <-> AsciiLess a b.
Proof.
  unfold textLess. revert b. induction a as [|c a IH]; intros [|d b]; cbn [String.compare].
  - split; [done|inversion 1].
  - split; [constructor|done].
  - split; [done|inversion 1].
  - unfold Ascii.compare. destruct (N.compare_spec (N_of_ascii c) (N_of_ascii d)) as [E|Hl|Hg].
    + apply (f_equal ascii_of_N) in E. rewrite !ascii_N_embedding in E. subst d. rewrite IH. split; [by constructor|].
      inversion 1; subst; [lia|done].
    + split; [|done]. intros _. by apply al_head.
    + split; [done|]. inversion 1; subst; unfold code in *; lia.
Qed.
Lemma textLess_flip a b : a <> b -> textLess a b = negb (textLess b a).
Proof.
  intros Hne. unfold textLess. rewrite String.compare_antisym. destruct (String.compare b a) eqn:E; try done.
  by apply String.compare_eq_iff in E.
Qed.

Lemma compareIdentifiers_less a b : (compareIdentifiers a b < 0)%Z <-> IdentifierLess a b.
Proof.
  destruct a as [a|a], b as [b|b]; cbn [compareIdentifiers].
  - split; [intros; constructor; lia|inversion 1; lia].
  - split; [constructor|lia].
  - split; [lia|inversion 1].
  - destruct (bool_decide_reflect (a = b)) as [->|Hne].
    + split; [lia|]. inversion 1 as [| |x y Hl]; subst. apply textLess_ascii in Hl. unfold textLess in Hl.
      pose proof (String.compare_antisym b b) as Hanti. by destruct (String.compare b b).
    + destruct (textLess a b) eqn:E.
      * split; [intros _; constructor; by apply textLess_ascii|lia].
      * split; [lia|]. inversion 1 as [| |x y Hl]; subst. apply textLess_ascii in Hl. congruence.
Qed.
Lemma compareIdentifiers_flip a b : (compareIdentifiers a b < 0)%Z <-> (0 < compareIdentifiers b a)%Z.
Proof.
  destruct a as [a|a], b as [b|b]; cbn [compareIdentifiers]; try lia.
  destruct (bool_decide_reflect (a = b)) as [->|Hne]; [by rewrite bool_decide_eq_true_2|].
  rewrite (bool_decide_eq_false_2 (b = a)) by done. rewrite (textLess_flip a b Hne). destruct (textLess b a); cbn; lia.
Qed.
Lemma compareIdentifiers_zero a b : compareIdentifiers a b = 0%Z <-> a = b.
Proof.
  destruct a as [a|a], b as [b|b]; cbn [compareIdentifiers].
  - split; [intros; f_equal; lia|intros [= ->]; lia].
  - done.
  - done.
  - destruct (bool_decide_reflect (a = b)) as [->|Hne]; [done|]. split; [destruct (textLess a b); lia|congruence].
Qed.

Lemma prereleaseLess_inv a b : PrereleaseLess a b ->
  (exists x m, b = a ++ x :: m) \/ exists p x y l m, a = p ++ x :: l /\ b = p ++ y :: m /\ IdentifierLess x y.
Proof. destruct 1; [left; eauto|right; naive_solver]. Qed.

Lemma prereleaseLess_cons x l m : PrereleaseLess (x :: l) (x :: m) <-> PrereleaseLess l m.
Proof.
  assert (Hirr : ~ IdentifierLess x x).
  { intros Hx. apply compareIdentifiers_less in Hx. assert (compareIdentifiers x x = 0%Z) by (by apply compareIdentifiers_zero). lia. }
  split.
  - intros [(y & m' & [= ->])|(p & y & z & l' & m' & E1 & E2 & Hyz)]%prereleaseLess_inv; [constructor|].
    destruct p as [|w p]; cbn in *; simplify_eq; [done|]. by constructor.
  - intros [(y & m' & ->)|(p & y & z & l' & m' & -> & -> & Hyz)]%prereleaseLess_inv.
    + apply (pl_longer (x :: l)).
    + by apply (pl_differ (x :: p)).
Qed.

Lemma orNumber_cases a b : (a <> 0 /\ orNumber a b = a \/ a = 0 /\ orNumber a b = b)%Z.
Proof. unfold orNumber. case_bool_decide; auto. Qed.

Lemma compareShared_spec a b :
  ((compareShared a b < 0)%Z <-> PrereleaseLess a b) /\ (compareShared a b = 0%Z <-> a = b) /\
  ((0 < compareShared a b)%Z <-> PrereleaseLess b a).
Proof.
  assert (Hnil : forall x l, PrereleaseLess [] (x :: l) /\ ~ PrereleaseLess (x :: l) []).
  { intros x l. split; [apply (pl_longer [])|].
    by intros [(? & ? & ?)|([] & ? & ? & ? & ? & ? & ? & _)]%prereleaseLess_inv. }
  assert (Hnn : ~ PrereleaseLess [] []).
  { by intros [(? & ? & ?)|([] & ? & ? & ? & ? & ? & ? & _)]%prereleaseLess_inv. }
  revert b. induction a as [|x a IH]; intros [|y b]; cbn [compareShared length].
  - naive_solver lia.
  - destruct (Hnil y b). repeat split; intros; try done; lia.
  - destruct (Hnil x a). repeat split; intros; try done; lia.
  - specialize (IH b). destruct (orNumber_cases (compareIdentifiers x y) (compareShared a b)) as [[Hne ->]|[Hz ->]].
    + assert (Hd : forall l m u v, u <> v -> PrereleaseLess (u :: l) (v :: m) <-> IdentifierLess u v).
      { intros l m u v Huv. split; [|by apply (pl_differ [])].
        intros [(z & m' & [=])|([|q p] & z & w & l' & m' & E1 & E2 & Hzw)]%prereleaseLess_inv; cbn in *; simplify_eq; done. }
      assert (Hxy : x <> y) by (intros ->; apply Hne; by apply compareIdentifiers_zero).
      rewrite !Hd, <- !compareIdentifiers_less by congruence. rewrite <- compareIdentifiers_flip.
      repeat split; intros; try lia; simplify_eq.
    + apply compareIdentifiers_zero in Hz as ->. rewrite !prereleaseLess_cons. destruct IH as (H1 & H2 & H3).
      split; [done|]. split; [|done]. rewrite H2. split; [by intros ->|by intros [= ->]].
Qed.

Lemma compareSemver_spec a b :
  ((compareSemver a b < 0)%Z <-> Precedes a b) /\ (compareSemver a b = 0%Z <-> a = b) /\
  ((0 < compareSemver a b)%Z <-> Precedes b a).
Proof.
  unfold compareSemver.
  destruct (orNumber_cases (sv_major a - sv_major b) (sv_minor a - sv_minor b)) as [[H1 ->]|[H1 ->]].
  { rewrite (bool_decide_eq_false_2 (orNumber _ _ = 0%Z)) by (unfold orNumber; rewrite bool_decide_eq_false_2; lia).
    unfold orNumber. rewrite bool_decide_eq_false_2 by lia. cbn [negb]. unfold sameCore.
    split; [|split]; (split; intros Hc); try (by constructor; lia); try (destruct Hc; unfold sameCore in *; lia); try lia; subst; lia. }
  destruct (orNumber_cases (sv_minor a - sv_minor b) (sv_patch a - sv_patch b)) as [[H2 ->]|[H2 ->]].
  { rewrite bool_decide_eq_false_2 by lia. cbn [negb].
    split; [|split]; (split; intros Hc); try (apply pr_minor; lia); try (destruct Hc; unfold sameCore in *; lia); try lia; subst; lia. }
  destruct (bool_decide_reflect (sv_patch a - sv_patch b = 0)%Z) as [H3|H3]; cbn [negb].
  2: { split; [|split]; (split; intros Hc); try (apply pr_patch; lia); try (destruct Hc; unfold sameCore in *; lia); try lia; subst; lia. }
  assert (Hs : sameCore a b /\ sameCore b a) by (unfold sameCore; lia). destruct Hs as [Hab Hba].
  assert (Hcore : forall x y, sameCore x y -> Precedes x y <->
    sv_prerelease x <> [] /\ (sv_prerelease y = [] \/ PrereleaseLess (sv_prerelease x) (sv_prerelease y))).
  { intros x y Hxy. split.
    - unfold sameCore in *. destruct 1; try lia; auto.
    - intros (Hx & [Hy|Hy]); [by apply pr_release|by apply pr_prerelease]. }
  assert (Heq : a = b <-> sv_prerelease a = sv_prerelease b).
  { split; [by intros ->|]. destruct a, b, Hab as (? & ? & ?); cbn in *. congruence. }
  rewrite !Hcore, Heq by done. clear Hcore Heq.
  pose proof (compareShared_spec (sv_prerelease a) (sv_prerelease b)) as (G1 & G2 & G3).
  assert (Hnil : forall l, ~ PrereleaseLess l []).
  { by intros l [(? & ? & ?%eq_sym%app_eq_nil)|([] & ? & ? & ? & ? & ? & ? & _)]%prereleaseLess_inv; [naive_solver|..]. }
  destruct (sv_prerelease a) as [|x l], (sv_prerelease b) as [|y m]; cbn [length].
  - cbn. naive_solver lia.
  - rewrite bool_decide_eq_true_2 by done. cbn [orb]. split; [|split]; (split; [intros; try lia|]); try naive_solver lia.
  - rewrite (bool_decide_eq_true_2 (0 = 0)) by done. rewrite orb_true_r. split; [|split]; (split; [intros; try lia|]); try naive_solver lia.
  - rewrite !bool_decide_eq_false_2 by done. cbn [orb]. rewrite G1, G2, G3. naive_solver.
Qed.

(** C39: the comparison of versions is the precedence of SemVer 2.0.0, section 11: negative exactly when the first
    version precedes, zero exactly when the versions are the same, positive exactly when the second precedes. *)
Theorem compareSemver_precedence (a b : ParsedSemver) :
  ((compareSemver a b < 0)%Z <-> Precedes a b) /\ (compareSemver a b = 0%Z <-> a = b) /\
  ((0 < compareSemver a b)%Z <-> Precedes b a).
Proof. apply compareSemver_spec. Qed.
