(* ===== verification/ClientVersions.v ===== *)
(** * The version policy of the CLI

    The server's side, modules/client-versions/policy.ts and
    routes/client-version-policy.ts: the policy merged at boot from the one
    baked into the release and the operator's environment, and the body served.
    The CLI's side, packages/cli/src/version-policy-response.ts,
    version-check.ts and version-check-cache.ts: reading the body, the verdict,
    and the check a command makes, with its cache on disk.

    Texts of messages are data ([PolicyError], [BootLog], [Notice]); a request
    of the CLI is its outcome ([FetchOutcome]); the URL of the server is the
    cache key computed from it; timestamps are instants. *)

From S2P Require Import Prelude Js FieldSet AuthStore Store Text Semver.
From Stdlib Require Import Ascii String.
From stdpp Require Import strings.

Local Open Scope string_scope.
Local Open Scope list_scope.
Local Open Scope pv_scope.

(** ** lib/package-version.ts *)

Record ReleaseVersion := MkReleaseVersion { rv_version : string; rv_isRelease : bool }.
Definition DEV_RELEASE_VERSION : string := "dev".

Definition getReleaseVersion `{Unicode} (RELEASE_VERSION : option string) : ReleaseVersion :=
  match trim <$> RELEASE_VERSION with
  | Some raw =>
      if negb (raw =? "") && negb (toLowerCase raw =? DEV_RELEASE_VERSION) then MkReleaseVersion raw true
      else MkReleaseVersion DEV_RELEASE_VERSION false
  | None => MkReleaseVersion DEV_RELEASE_VERSION false
  end.

(** ** modules/client-versions/policy.ts *)

Definition MAX_ENV_WITHDRAWN_VERSIONS : nat := 50.
Definition CLI_MAX_WITHDRAWN_ENTRIES : nat := 100.
Definition CLI_MAX_REASON_CODE_POINTS : nat := 200.
Definition ENV_WITHDRAWN_REASON : string := "Withdrawn by this server's administrator.".

(** [[...s].length]: the code points of a text. *)
Fixpoint codePoints (s : string) : nat :=
  match s with
  | EmptyString => 0
  | String c s' => (if N.leb 128 (code c) && N.ltb (code c) 192 then 0 else 1) + codePoints s'
  end.

(** [[...new Set(l)]] *)
Fixpoint setFrom (seen l : list string) : list string :=
  match l with
  | [] => []
  | x :: l' => if x ∈? seen then setFrom seen l' else x :: setFrom (x :: seen) l'
  end.
Definition newSet (l : list string) : list string := setFrom [] l.

Record WithdrawnVersion := MkWithdrawnVersion { wv_version : string; wv_reason : string }.
Record BakedCliVersionPolicy := MkBakedPolicy {
  bp_minimumSupported : option string;
  bp_withdrawn : list WithdrawnVersion;
}.
Inductive PolicySource := source_baked | source_env.
Record EffectiveEntry := MkEffectiveEntry { ee_version : string; ee_reason : string; ee_source : PolicySource }.
Record EffectiveCliVersionPolicy := MkEffectivePolicy {
  ep_minimumSupported : option string;
  ep_withdrawn : list EffectiveEntry;
}.
Record CliVersionPolicyEnv := MkPolicyEnv { pe_minimumSupported : option string; pe_withdrawn : list string }.

Inductive PolicyError :=
| pe_not_accepted (version : string)
| pe_minimum_not_accepted (version : string)
| pe_too_many_env (count : nat)
| pe_too_many_effective (count : nat)
| pe_reason_too_long (version : string).

Inductive BootLog :=
| log_minimum_ignored (configured : string) (baked : option string)
| log_effective (minimumSupported : option string) (withdrawn : list (string * PolicySource))
| log_minimum_above_release (minimumSupported serverVersion : string)
| log_release_withdrawn (serverVersion : string).

Definition effectiveWithdrawnCountError (count : nat) : option PolicyError :=
  if Nat.ltb CLI_MAX_WITHDRAWN_ENTRIES count then Some (pe_too_many_effective count) else None.

Definition parseCliWithdrawnVersions `{Unicode} (raw : option string) (bakedVersions : list string)
    : PolicyError + list string :=
  let versions := newSet (List.filter (fun e => negb (e =? "")) (map trim (splitOn ","%char (default "" raw)))) in
  match List.find (fun v => negb (isCliAcceptedVersion v)) versions with
  | Some bad => inl (pe_not_accepted bad)
  | None =>
      if Nat.ltb MAX_ENV_WITHDRAWN_VERSIONS (length versions) then inl (pe_too_many_env (length versions)) else
      match effectiveWithdrawnCountError (length (newSet (bakedVersions ++ versions))) with
      | Some e => inl e
      | None => inr versions
      end
  end.

Definition strictReleaseVersionOrNull (release : ReleaseVersion) : option string :=
  if rv_isRelease release && isCliAcceptedReleaseVersion (rv_version release) then Some (rv_version release) else None.

Definition effectiveMinimum (envMinimum bakedMinimum : option string) : option string * list BootLog :=
  match envMinimum with
  | None | Some EmptyString => (bakedMinimum, [])
  | Some m =>
      match bakedMinimum with
      | None => (Some m, [])
      | Some b => if (0%Z <=? compareReleaseVersions m b) then (Some m, []) else (Some b, [log_minimum_ignored m (Some b)])
      end
  end.

Definition warnOnSelfContradiction (policy : EffectiveCliVersionPolicy) (release : ReleaseVersion) : list BootLog :=
  match strictReleaseVersionOrNull release with
  | None => []
  | Some current =>
      (match ep_minimumSupported policy with
       | Some m => if negb (m =? "") && (0%Z <? compareReleaseVersions m current)
                   then [log_minimum_above_release m current] else []
       | None => []
       end)
      ++ (if existsb (fun e => ee_version e =? current) (ep_withdrawn policy) then [log_release_withdrawn current] else [])
  end.

Fixpoint assertEntries (withdrawn : list EffectiveEntry) : option PolicyError :=
  match withdrawn with
  | [] => None
  | e :: withdrawn' =>
      if negb (isCliAcceptedVersion (ee_version e)) then Some (pe_not_accepted (ee_version e))
      else if Nat.ltb CLI_MAX_REASON_CODE_POINTS (codePoints (ee_reason e)) then Some (pe_reason_too_long (ee_version e))
      else assertEntries withdrawn'
  end.

(** [Some e]: the exception thrown. *)
Definition assertCliAcceptsPolicy (policy : EffectiveCliVersionPolicy) : option PolicyError :=
  match (match ep_minimumSupported policy with
         | Some m => if negb (isCliAcceptedReleaseVersion m) then Some (pe_minimum_not_accepted m) else None
         | None => None
         end) with
  | Some e => Some e
  | None =>
      match effectiveWithdrawnCountError (length (ep_withdrawn policy)) with
      | Some e => Some e
      | None => assertEntries (ep_withdrawn policy)
      end
  end.

(** The entries of the environment that are not baked. *)
Definition mergeWithdrawn (envWithdrawn : list string) (baked : list WithdrawnVersion) : list EffectiveEntry :=
  map (fun e => MkEffectiveEntry (wv_version e) (wv_reason e) source_baked) baked
  ++ map (fun v => MkEffectiveEntry v ENV_WITHDRAWN_REASON source_env)
       (List.filter (fun v => negb (v ∈? map wv_version baked)) envWithdrawn).

Definition resolveCliVersionPolicy (envPolicy : CliVersionPolicyEnv) (baked : BakedCliVersionPolicy)
    (release : ReleaseVersion) : PolicyError + (EffectiveCliVersionPolicy * list BootLog) :=
  let withdrawn := mergeWithdrawn (pe_withdrawn envPolicy) (bp_withdrawn baked) in
  match assertCliAcceptsPolicy (MkEffectivePolicy (pe_minimumSupported envPolicy) withdrawn) with
  | Some e => inl e
  | None =>
      match assertCliAcceptsPolicy (MkEffectivePolicy (bp_minimumSupported baked) []) with
      | Some e => inl e
      | None =>
          let '(minimum, logs) := effectiveMinimum (pe_minimumSupported envPolicy) (bp_minimumSupported baked) in
          let policy := MkEffectivePolicy minimum withdrawn in
          inr (policy, logs ++ [log_effective minimum (map (fun e => (ee_version e, ee_source e)) withdrawn)]
                       ++ warnOnSelfContradiction policy release)
      end
  end.


Definition buildClientVersionPolicyData (policy : EffectiveCliVersionPolicy) (release : ReleaseVersion) : Json :=
  JObj [("schemaVersion", JNum "1");
        ("server", JObj [("version", JStr (rv_version release));
                         ("versionSource", JStr (if rv_isRelease release then "release" else "development"))]);
        ("clients", JObj [("cli", JObj
          [("current", JOptStr (strictReleaseVersionOrNull release));
           ("minimumSupported", JOptStr (ep_minimumSupported policy));
           ("withdrawn", JArr (map (fun e => JObj [("version", JStr (ee_version e)); ("reason", JStr (ee_reason e))])
                                 (ep_withdrawn policy)))])])].

(** routes/client-version-policy.ts: [reply.send({ data })] *)
Definition clientVersionPolicyBody (policy : EffectiveCliVersionPolicy) (release : ReleaseVersion) : string :=
  stringify (JObj [("data", buildClientVersionPolicyData policy release)]).

(** ** packages/cli/src/version-policy-response.ts *)

Record CliVersionPolicy := MkCliPolicy {
  cp_current : option string;
  cp_minimumSupported : option string;
  cp_withdrawn : list WithdrawnVersion;
}.

Definition MAX_POLICY_BODY_BYTES : Z := 16 * 1024.
Definition MAX_WITHDRAWN_ENTRIES : nat := 100.
Definition MAX_REASON_CODE_POINTS : nat := 200.

Definition isRecord (value : option Json) : option (list (string * Json)) :=
  match value with Some (JObj kvs) => Some kvs | _ => None end.

(** [Some v]: the value is null or a version, and it is [v]. *)
Definition nullableSemver (value : option Json) : option (option string) :=
  match value with
  | Some JNull => Some None
  | Some (JStr s) => if isSome (parseStrictSemver s) then Some (Some s) else None
  | _ => None
  end.

Definition validateWithdrawnEntry (value : Json) : option WithdrawnVersion :=
  match isRecord (Some value) with
  | None => None
  | Some kvs =>
      match getProp "version" kvs with
      | Some (JStr version) =>
          if negb (isSome (parseStrictSemver version)) then None else
          match getProp "reason" kvs with
          | None | Some JNull => Some (MkWithdrawnVersion version "")
          | Some (JStr reason) =>
              if Nat.ltb MAX_REASON_CODE_POINTS (codePoints reason) then None else Some (MkWithdrawnVersion version reason)
          | _ => None
          end
      | _ => None
      end
  end.

Fixpoint validateEntries (l : list Json) : option (list WithdrawnVersion) :=
  match l with
  | [] => Some []
  | raw :: l' => match validateWithdrawnEntry raw with
                 | None => None
                 | Some entry => cons entry <$> validateEntries l'
                 end
  end.

Definition validateCliVersionPolicy (value : option Json) : option CliVersionPolicy :=
  match isRecord value with
  | None => None
  | Some kvs =>
      match nullableSemver (getProp "current" kvs), nullableSemver (getProp "minimumSupported" kvs) with
      | Some current, Some minimumSupported =>
          match getProp "withdrawn" kvs with
          | Some (JArr withdrawn) =>
              if Nat.ltb MAX_WITHDRAWN_ENTRIES (length withdrawn) then None else
              MkCliPolicy current minimumSupported <$> validateEntries withdrawn
          | _ => None
          end
      | _, _ => None
      end
  end.

Definition parseCliVersionPolicyBody (body : string) : option CliVersionPolicy :=
  match JSON_parse body with
  | Throw _ => None
  | Ok parsed =>
      match isRecord (Some parsed) with
      | None => None
      | Some kvs =>
          match isRecord (getProp "data" kvs) with
          | None => None
          | Some data =>
              match isRecord (getProp "clients" data) with
              | None => None
              | Some clients => validateCliVersionPolicy (getProp "cli" clients)
              end
          end
      end
  end.

(** ** packages/cli/src/version-check.ts *)

Inductive VersionVerdict :=
| verdict_ok
| verdict_stale (current : string)
| verdict_below_minimum (minimumSupported : string)
| verdict_server_older (current : string)
| verdict_withdrawn (reason : string).

Definition isLess (a b : string) : bool := (default 0%Z (compareSemverStrings a b) <? 0%Z).

Definition evaluateVersionPolicy (cliVersion : string) (policy : CliVersionPolicy) : VersionVerdict :=
  match List.find (fun e => wv_version e =? cliVersion) (cp_withdrawn policy) with
  | Some w => verdict_withdrawn (wv_reason w)
  | None =>
      match (match cp_minimumSupported policy with
             | Some m => if isLess cliVersion m then Some m else None
             | None => None
             end) with
      | Some m => verdict_below_minimum m
      | None =>
          match cp_current policy with
          | None => verdict_ok
          | Some current =>
              if isLess cliVersion current then verdict_stale current
              else if isLess current cliVersion then verdict_server_older current
              else verdict_ok
          end
      end
  end.

(** The chunks read, or [None] once their total crosses the cap. *)
Fixpoint readChunksCapped (maxBytes : Z) (chunks : list string) (totalSoFar : Z) : option string :=
  match chunks with
  | [] => Some ""
  | value :: chunks' =>
      let total := (totalSoFar + Z.of_nat (String.length value))%Z in
      if (maxBytes <? total) then None
      else String.append value <$> readChunksCapped maxBytes chunks' total
  end.

(** A request that failed, timed out or was redirected; or a response. *)
Inductive FetchOutcome := fetch_failed | fetch_response (status : Z) (chunks : list string).

Definition fetchPolicy (outcome : FetchOutcome) : option CliVersionPolicy :=
  match outcome with
  | fetch_failed => None
  | fetch_response status chunks =>
      if negb (status =? 200%Z) then None else
      match readChunksCapped MAX_POLICY_BODY_BYTES chunks 0%Z with
      | None => None
      | Some body => parseCliVersionPolicyBody body
      end
  end.

(** ** packages/cli/src/version-check-cache.ts *)

Inductive CacheOutcome := outcome_ok | outcome_unreachable.
Record Confirmed := MkConfirmed { cw_reason : string; cw_at : Date }.
Record VersionCheckCacheEntry := MkCacheEntry {
  ce_cliVersion : string;
  ce_checkedAt : Date;
  ce_outcome : CacheOutcome;
  ce_policy : option CliVersionPolicy;
  ce_lastConfirmedWithdrawn : option Confirmed;
  ce_lastNoticeAt : option Date;
}.
#[export] Instance Eta_CacheEntry : Eta VersionCheckCacheEntry := fun e =>
  MkCacheEntry (ce_cliVersion e) (ce_checkedAt e) (ce_outcome e) (ce_policy e) (ce_lastConfirmedWithdrawn e)
    (ce_lastNoticeAt e).

Definition Cache : Type := list (string * VersionCheckCacheEntry).  (* a Map, in insertion order *)

Definition MAX_CACHE_ENTRIES : nat := 20.
Definition OK_TTL_MS : Z := 60 * 60 * 1000.
Definition UNREACHABLE_TTL_MS : Z := 10 * 60 * 1000.
Definition NOTICE_INTERVAL_MS : Z := 24 * 60 * 60 * 1000.

Definition isWithinTtl (timestamp : option Date) (now ttlMs : Z) : bool :=
  match timestamp with
  | None => false
  | Some at_ => if (now <? at_) then false else (now - at_ <? ttlMs)%pv
  end.

Definition cacheGet (key : string) (cache : Cache) : option VersionCheckCacheEntry :=
  snd <$> List.find (fun kv => kv.1 =? key) cache.
Definition cacheSet (key : string) (entry : VersionCheckCacheEntry) (cache : Cache) : Cache :=
  if existsb (fun kv => kv.1 =? key) cache
  then map (fun kv => if kv.1 =? key then (key, entry) else kv) cache
  else cache ++ [(key, entry)].

(** What the file holds after the write, when it succeeds. *)
Definition writeVersionCheckCache (entries : Cache) : Cache :=
  take MAX_CACHE_ENTRIES (isort (fun a b => (ce_checkedAt b.2 <=? ce_checkedAt a.2)) entries).

(** The text of a sticky reason is sanitised again when the file is read. *)
Class ServerText := { sanitizeServerText : string -> string }.
Definition readVersionCheckCache `{ServerText} (file : Cache) : Cache :=
  map (fun kv => (kv.1, kv.2 <| ce_lastConfirmedWithdrawn ::=
    fmap (fun c => MkConfirmed (sanitizeServerText (cw_reason c)) (cw_at c)) |>)) file.

(** ** One check of the CLI *)

Definition needsFetch (entry : option VersionCheckCacheEntry) (now : Date) : bool :=
  match entry with
  | None => true
  | Some entry =>
      if isNotNull (ce_lastConfirmedWithdrawn entry) then true else
      let ttl := match ce_outcome entry with outcome_ok => OK_TTL_MS | outcome_unreachable => UNREACHABLE_TTL_MS end in
      negb (isWithinTtl (Some (ce_checkedAt entry)) now ttl)
  end.

Record Refusal := MkRefusal { rf_reason : string; rf_sticky : option Date }.
Record Decision := MkDecision {
  dc_entry : VersionCheckCacheEntry;
  dc_isPrior : bool;                  (* [entry === prior] *)
  dc_refusal : option Refusal;
  dc_advisory : option VersionVerdict;
}.

Definition advisoryOf (cliVersion : string) (policy : option CliVersionPolicy) : option VersionVerdict :=
  match policy with
  | None => None
  | Some policy => match evaluateVersionPolicy cliVersion policy with verdict_withdrawn _ => None | v => Some v end
  end.

Definition freshDecision (cliVersion : string) (checkedAt : Date) (policy : CliVersionPolicy)
    (prior : option VersionCheckCacheEntry) : Decision :=
  let withdrawn := match evaluateVersionPolicy cliVersion policy with
                   | verdict_withdrawn reason => Some (MkConfirmed reason checkedAt)
                   | _ => None
                   end in
  MkDecision (MkCacheEntry cliVersion checkedAt outcome_ok (Some policy) withdrawn (prior ≫= ce_lastNoticeAt)) false
    ((fun w => MkRefusal (cw_reason w) None) <$> withdrawn) (advisoryOf cliVersion (Some policy)).

Definition unreachableDecision (cliVersion : string) (checkedAt : Date) (prior : option VersionCheckCacheEntry) : Decision :=
  let sticky := prior ≫= ce_lastConfirmedWithdrawn in
  let policy := prior ≫= ce_policy in
  MkDecision (MkCacheEntry cliVersion checkedAt outcome_unreachable policy sticky (prior ≫= ce_lastNoticeAt)) false
    ((fun w => MkRefusal (cw_reason w) (Some (cw_at w))) <$> sticky) (advisoryOf cliVersion policy).

Definition decideCheck (cliVersion : string) (now : Date) (outcome : FetchOutcome) (prior : option VersionCheckCacheEntry)
    : Decision :=
  match prior with
  | Some p =>
      if negb (needsFetch prior now) then MkDecision p true None (advisoryOf cliVersion (ce_policy p)) else
      match fetchPolicy outcome with
      | Some policy => freshDecision cliVersion now policy prior
      | None => unreachableDecision cliVersion now prior
      end
  | None =>
      match fetchPolicy outcome with
      | Some policy => freshDecision cliVersion now policy None
      | None => unreachableDecision cliVersion now None
      end
  end.

Inductive Notice := notice_refused (reason : string) (sticky : option Date) | notice_advisory (verdict : VersionVerdict).

(** [advisoryText] has a text for these verdicts. *)
Definition hasAdvisoryText (v : VersionVerdict) : bool :=
  match v with verdict_below_minimum _ | verdict_stale _ | verdict_server_older _ => true | _ => false end.

Record CheckOptions := MkCheckOptions {
  co_cliVersion : string;
  co_serverKey : option string;       (* computeServerKey(baseUrl) *)
  co_hasCacheDir : bool;
  co_suppressNotices : bool;
}.

(** The notice printed, and the entry with [lastNoticeAt] set. *)
Definition maybePrintNotice (opts : CheckOptions) (decision : Decision) (now : Date)
    : option VersionVerdict * VersionCheckCacheEntry :=
  match dc_advisory decision with
  | Some v =>
      if co_suppressNotices opts || negb (hasAdvisoryText v)
         || isWithinTtl (ce_lastNoticeAt (dc_entry decision)) now NOTICE_INTERVAL_MS
      then (None, dc_entry decision)
      else (Some v, (dc_entry decision) <| ce_lastNoticeAt := Some now |>)
  | None => (None, dc_entry decision)
  end.

Record CheckResult := MkCheckResult { cr_refuse : bool; cr_stderr : list Notice; cr_file : Cache }.

(** [now] is read once to decide ([now1]) and once for the notice ([now2]); [written]: the write succeeded. *)
Definition runVersionCheck `{ServerText} (opts : CheckOptions) (now1 now2 : Date) (outcome : FetchOutcome)
    (written : bool) (file : Cache) : CheckResult :=
  match (if co_cliVersion opts =? "dev" then None else co_serverKey opts) with
  | None => MkCheckResult false [] file
  | Some serverKey =>
      let cache := if co_hasCacheDir opts then readVersionCheckCache file else [] in
      let prior := match cacheGet serverKey cache with
                   | Some e => if ce_cliVersion e =? co_cliVersion opts then Some e else None
                   | None => None
                   end in
      let decision := decideCheck (co_cliVersion opts) now1 outcome prior in
      let '(notice, entry) := match dc_refusal decision with
                              | Some _ => (None, dc_entry decision)
                              | None => maybePrintNotice opts decision now2
                              end in
      let file' := if co_hasCacheDir opts && (negb (dc_isPrior decision) || isNotNull notice) && written
                   then writeVersionCheckCache (cacheSet serverKey entry cache) else file in
      MkCheckResult (isNotNull (dc_refusal decision))
        (match dc_refusal decision with
         | Some r => [notice_refused (rf_reason r) (rf_sticky r)]
         | None => match notice with Some v => [notice_advisory v] | None => [] end
         end) file'
  end.
