(* ===== verification/ClientVersionTheorems.v ===== *)
(** * The version policy, from the operator's environment to the CLI's verdict

    [served_policy_accepted]: what the server serves the CLI reads back;
    [oversized_policy_ignored]: except when the body passes 16 KiB;
    [policy_only_tightened]: the operator's environment can only tighten the
    policy; [withdrawal_sticks]: a confirmed withdrawal outlives an
    unreachable server. *)

From S2P Require Import Prelude Js FieldSet AuthStore Store Text Semver ClientVersions.
From Stdlib Require Import Ascii String.
From stdpp Require Import strings pretty.

Local Open Scope string_scope.
Local Open Scope list_scope.
Local Open Scope pv_scope.

(** ** What the server accepts *)

Lemma assertEntries_ok l : assertEntries l = None -> forall e, e ∈ l ->
  isSome (parseStrictSemver (ee_version e)) = true /\ codePoints (ee_reason e) <= 200.
Proof.
  induction l as [|x l IH]; cbn [assertEntries]; [by intros _ e ?%not_elem_of_nil|].
  rewrite parity_lemma. destruct (isSome _) eqn:Ev; cbn [negb]; [|done].
  destruct (Nat.ltb_spec CLI_MAX_REASON_CODE_POINTS (codePoints (ee_reason x))) as [|Hr]; [done|].
  intros Hl e [->|He]%elem_of_cons; [by split|by apply IH].
Qed.

Lemma assertAccepts_ok p : assertCliAcceptsPolicy p = None ->
  (forall m, ep_minimumSupported p = Some m -> isCliAcceptedReleaseVersion m = true) /\
  length (ep_withdrawn p) <= 100 /\ assertEntries (ep_withdrawn p) = None.
Proof.
  unfold assertCliAcceptsPolicy, effectiveWithdrawnCountError. intros E.
  destruct (Nat.ltb_spec CLI_MAX_WITHDRAWN_ENTRIES (length (ep_withdrawn p))) as [|Hl].
  { destruct (ep_minimumSupported p); [destruct (negb _)|]; done. }
  destruct (ep_minimumSupported p) as [m|].
  - destruct (isCliAcceptedReleaseVersion m) eqn:Em; [|done]. split; [by intros ? [= <-]|]. done.
  - split; [done|]. done.
Qed.

Lemma resolve_cases env baked release policy logs : resolveCliVersionPolicy env baked release = inr (policy, logs) ->
  ep_withdrawn policy = mergeWithdrawn (pe_withdrawn env) (bp_withdrawn baked) /\
  ep_minimumSupported policy = fst (effectiveMinimum (pe_minimumSupported env) (bp_minimumSupported baked)) /\
  (forall m, pe_minimumSupported env = Some m -> isCliAcceptedReleaseVersion m = true) /\
  (forall m, bp_minimumSupported baked = Some m -> isCliAcceptedReleaseVersion m = true) /\
  length (ep_withdrawn policy) <= 100 /\ assertEntries (ep_withdrawn policy) = None.
Proof.
  unfold resolveCliVersionPolicy. destruct (assertCliAcceptsPolicy (MkEffectivePolicy (pe_minimumSupported env) _)) eqn:E1; [done|].
  destruct (assertCliAcceptsPolicy (MkEffectivePolicy (bp_minimumSupported baked) [])) eqn:E2; [done|].
  destruct (effectiveMinimum _ _) as [m ls]. intros [= <- <-]. cbn.
  apply assertAccepts_ok in E1 as (H1 & H2 & H3). by apply assertAccepts_ok in E2 as (H4 & _).
Qed.

Lemma accepted_release_semver m : isCliAcceptedReleaseVersion m = true -> isSome (parseStrictSemver m) = true.
Proof. unfold isCliAcceptedReleaseVersion. rewrite parity_lemma. by intros [_ ?]%andb_true_iff. Qed.

Lemma effectiveMinimum_accepted env baked m :
  fst (effectiveMinimum env baked) = Some m -> env = Some m \/ baked = Some m.
Proof.
  unfold effectiveMinimum. destruct env as [[|c s]|]; cbn; auto. destruct baked as [b|]; cbn; auto.
  destruct (_ <=? _); cbn; auto.
Qed.

(** ** The body *)

Lemma nullable_accepted o : (forall m, o = Some m -> isSome (parseStrictSemver m) = true) ->
  nullableSemver (Some (JOptStr o)) = Some o.
Proof. intros Ho. destruct o as [m|]; [|done]. cbn. by rewrite (Ho m eq_refl). Qed.

Lemma validateEntries_body l : assertEntries l = None ->
  validateEntries (map (fun e => JObj [("version", JStr (ee_version e)); ("reason", JStr (ee_reason e))]) l) =
  Some (map (fun e => MkWithdrawnVersion (ee_version e) (ee_reason e)) l).
Proof.
  intros Hl. pose proof (assertEntries_ok l Hl) as Hok. clear Hl. induction l as [|e l IH]; [done|].
  destruct (Hok e) as [Hv Hr]; [left|]. cbn [map validateEntries].
  assert (Hx : validateWithdrawnEntry (JObj [("version", JStr (ee_version e)); ("reason", JStr (ee_reason e))]) =
    Some (MkWithdrawnVersion (ee_version e) (ee_reason e))).
  { unfold validateWithdrawnEntry. cbn [isRecord].
    change (getProp "version" _) with (Some (JStr (ee_version e))).
    change (getProp "reason" _) with (Some (JStr (ee_reason e))). cbv beta iota.
    rewrite Hv. cbn [negb].
    destruct (Nat.ltb_spec MAX_REASON_CODE_POINTS (codePoints (ee_reason e))) as [Hlt|]; [unfold MAX_REASON_CODE_POINTS in Hlt; lia|done]. }
  rewrite Hx, IH; [done|]. intros y Hy. apply Hok. by right.
Qed.

Lemma wf_one : wfNumber "1".
Proof.
  split; [split; [vm_compute; reflexivity|discriminate]|].
  intros [|c t] n Ht; [reflexivity|]. by destruct Ht as [->|[->| ->]].
Qed.

Lemma wf_body policy release : wfJson (JObj [("data", buildClientVersionPolicyData policy release)]).
Proof.
  assert (Ho : forall o, wfJson (JOptStr o)) by (by intros []).
  cbn. split; [|done]. split; [apply wf_one|]. split; [done|]. split; [|done]. split; [|done].
  split; [apply Ho|]. split; [apply Ho|]. split; [|done]. apply foldr_and_Forall, Forall_forall.
  intros x (e & -> & _)%elem_of_map. done.
Qed.

Lemma parseBody policy release env baked logs : resolveCliVersionPolicy env baked release = inr (policy, logs) ->
  parseCliVersionPolicyBody (clientVersionPolicyBody policy release) =
  Some (MkCliPolicy (strictReleaseVersionOrNull release) (ep_minimumSupported policy)
          (map (fun e => MkWithdrawnVersion (ee_version e) (ee_reason e)) (ep_withdrawn policy))).
Proof.
  intros (_ & Hm & He & Hb & Hl & Hw)%resolve_cases. unfold parseCliVersionPolicyBody, clientVersionPolicyBody.
  rewrite JSON_parse_stringify by apply wf_body.
  change (validateCliVersionPolicy (Some (JObj
          [("current", JOptStr (strictReleaseVersionOrNull release));
           ("minimumSupported", JOptStr (ep_minimumSupported policy));
           ("withdrawn", JArr (map (fun e => JObj [("version", JStr (ee_version e)); ("reason", JStr (ee_reason e))])
                                 (ep_withdrawn policy)))])) =
    Some (MkCliPolicy (strictReleaseVersionOrNull release) (ep_minimumSupported policy)
          (map (fun e => MkWithdrawnVersion (ee_version e) (ee_reason e)) (ep_withdrawn policy)))).
  unfold validateCliVersionPolicy. cbn [isRecord].
  change (getProp "current" _) with (Some (JOptStr (strictReleaseVersionOrNull release))).
  change (getProp "minimumSupported" _) with (Some (JOptStr (ep_minimumSupported policy))).
  change (getProp "withdrawn" ?l) with (Some (JArr (map (fun e => JObj [("version", JStr (ee_version e)); ("reason", JStr (ee_reason e))])
                                 (ep_withdrawn policy)))).
  cbv beta iota. rewrite !nullable_accepted.
  - rewrite length_map, validateEntries_body by done.
    destruct (Nat.ltb_spec MAX_WITHDRAWN_ENTRIES (length (ep_withdrawn policy))) as [Hlt|]; [unfold MAX_WITHDRAWN_ENTRIES in Hlt; lia|done].
  - intros m Em. rewrite Hm in Em. apply accepted_release_semver. by apply effectiveMinimum_accepted in Em as [?|?]; auto.
  - unfold strictReleaseVersionOrNull. intros m. destruct (_ && _) eqn:E; [|done]. intros [= <-].
    apply andb_true_iff in E as [_ E]. by apply accepted_release_semver.
Qed.

Lemma readChunks_fits maxBytes chunks total :
  (total + Z.of_nat (String.length (foldr String.append "" chunks)) <= maxBytes)%Z ->
  readChunksCapped maxBytes chunks total = Some (foldr String.append "" chunks).
Proof.
  revert total. induction chunks as [|c chunks IH]; intros total Ht; [done|]. cbn [foldr readChunksCapped] in *.
  rewrite string_length_app in Ht. rewrite bool_decide_eq_false_2 by lia. by rewrite IH by lia.
Qed.

(** What the server serves, the CLI reads: when the server starts with an environment and a baked policy, the
    CLI parses the body of the route, in whatever chunks it arrives, into the effective policy with the server's
    release, provided the body has at most 16384 bytes. *)
Theorem served_policy_accepted env baked release policy logs chunks
    (HR : resolveCliVersionPolicy env baked release = inr (policy, logs))
    (HC : foldr String.append "" chunks = clientVersionPolicyBody policy release)
    (HL : (Z.of_nat (String.length (clientVersionPolicyBody policy release)) <= 16384)%Z) :
  fetchPolicy (fetch_response 200 chunks) =
  Some (MkCliPolicy (strictReleaseVersionOrNull release) (ep_minimumSupported policy)
          (map (fun e => MkWithdrawnVersion (ee_version e) (ee_reason e)) (ep_withdrawn policy))).
Proof.
  unfold fetchPolicy. cbn [negb bool_decide decide]. rewrite readChunks_fits; [|rewrite HC; unfold MAX_POLICY_BODY_BYTES; lia].
  rewrite HC. by eapply parseBody.
Qed.

(** Ninety withdrawn versions whose reasons have 200 characters each: the server starts, and the CLI ignores the
    body, so none of the versions is refused. *)
Fixpoint repeated (c : ascii) (n : nat) : string :=
  match n with O => EmptyString | S n' => String c (repeated c n') end.
Definition longPolicy : BakedCliVersionPolicy :=
  MkBakedPolicy None (map (fun n => MkWithdrawnVersion ("0.1." +:+ pretty (N.of_nat n)) (repeated "x" 200)) (seq 0 90)).
Definition noEnv : CliVersionPolicyEnv := MkPolicyEnv None [].
Definition release1 : ReleaseVersion := MkReleaseVersion "1.0.0" true.

Lemma oversized_policy_ignored :
  exists policy logs, resolveCliVersionPolicy noEnv longPolicy release1 = inr (policy, logs) /\
    length (ep_withdrawn policy) = 90%nat /\
    fetchPolicy (fetch_response 200 [clientVersionPolicyBody policy release1]) = None.
Proof.
  assert (Hb : match resolveCliVersionPolicy noEnv longPolicy release1 with
               | inr (p, _) => Nat.eqb (length (ep_withdrawn p)) 90
                   && isNull (fetchPolicy (fetch_response 200 [clientVersionPolicyBody p release1]))
               | inl _ => false end = true) by (vm_compute; reflexivity).
  destruct (resolveCliVersionPolicy noEnv longPolicy release1) as [e|[policy logs]]; [done|].
  apply andb_true_iff in Hb as [Hl%Nat.eqb_eq Hf%isNull_true]. by exists policy, logs.
Qed.

(** ** Tightening *)

Definition coreOf (v : ParsedSemver) : Z * Z * Z := (sv_major v, sv_minor v, sv_patch v).

Lemma release_parse m : isCliAcceptedReleaseVersion m = true ->
  exists a b c, parseStrictSemver m = Some (MkParsedSemver a b c []) /\ map toNumber (splitOn DOT m) = [a; b; c].
Proof.
  unfold isCliAcceptedReleaseVersion. intros [Hr Ha]%andb_true_iff. rewrite parity_lemma in Ha.
  apply re_test_lang in Hr. apply core_without_dash in Hr as Hd. apply core_parts in Hr as (x & y & z & Hs & _).
  unfold parseStrictSemver in *. rewrite cutAt_without, Hs in * by done. cbn [map parsePrerelease parsePrereleaseIds] in *.
  destruct (_ <? _); [done|]. destruct (negb _); [done|]. unfold toSafeInt in *.
  destruct (toNumber x <=? _); [|done]. destruct (toNumber y <=? _); [|done]. destruct (toNumber z <=? _); [|done].
  by exists (toNumber x), (toNumber y), (toNumber z).
Qed.

Lemma minimum_raised v b m : isCliAcceptedReleaseVersion b = true -> isCliAcceptedReleaseVersion m = true ->
  (0 <= compareReleaseVersions m b)%Z -> isLess v b = true -> isLess v m = true.
Proof.
  intros (b1 & b2 & b3 & Eb & Sb)%release_parse (m1 & m2 & m3 & Em & Sm)%release_parse.
  unfold compareReleaseVersions, isLess, compareSemverStrings. rewrite Sb, Sm, Eb, Em. intros Hle.
  destruct (parseStrictSemver v) as [[v1 v2 v3 pre]|]; [|done]. cbn [default]. rewrite !bool_decide_eq_true.
  revert Hle. unfold compareSemver. cbn [sv_major sv_minor sv_patch sv_prerelease length compareNumbers]. rewrite !orb_true_r.
  unfold orNumber. repeat case_bool_decide; cbn [negb orb]; unfold id; try lia; done.
Qed.

Definition servedTo (policy : EffectiveCliVersionPolicy) (current : option string) : CliVersionPolicy :=
  MkCliPolicy current (ep_minimumSupported policy)
    (map (fun e => MkWithdrawnVersion (ee_version e) (ee_reason e)) (ep_withdrawn policy)).
Definition bakedTo (baked : BakedCliVersionPolicy) (current : option string) : CliVersionPolicy :=
  MkCliPolicy current (bp_minimumSupported baked) (bp_withdrawn baked).

Lemma find_app {A} (p : A -> bool) l k x : List.find p l = Some x -> List.find p (l ++ k) = Some x.
Proof. induction l as [|y l IH]; cbn; [done|]. destruct (p y); auto. Qed.

Lemma served_withdrawn env baked l :
  map (fun e => MkWithdrawnVersion (ee_version e) (ee_reason e)) (mergeWithdrawn env baked) = l ->
  exists rest, l = baked ++ rest.
Proof.
  intros <-. unfold mergeWithdrawn. rewrite map_app. rewrite map_map. eexists. f_equal.
  induction baked as [|[v r] baked IH]; [done|]. cbn. by f_equal.
Qed.

(** An operator can only tighten the policy baked into a release: a version of the CLI the baked policy
    withdraws stays withdrawn, for the baked reason, and one below the baked minimum is withdrawn or below the
    minimum under the policy served, whatever the environment; every version the environment lists is withdrawn. *)
Theorem policy_only_tightened env baked release policy logs current cliVersion
    (HR : resolveCliVersionPolicy env baked release = inr (policy, logs)) :
  (forall r, evaluateVersionPolicy cliVersion (bakedTo baked current) = verdict_withdrawn r ->
     evaluateVersionPolicy cliVersion (servedTo policy current) = verdict_withdrawn r) /\
  (forall m, evaluateVersionPolicy cliVersion (bakedTo baked current) = verdict_below_minimum m ->
     exists m' r, evaluateVersionPolicy cliVersion (servedTo policy current) = verdict_below_minimum m' \/
       evaluateVersionPolicy cliVersion (servedTo policy current) = verdict_withdrawn r) /\
  (cliVersion ∈ pe_withdrawn env ->
     exists r, evaluateVersionPolicy cliVersion (servedTo policy current) = verdict_withdrawn r).
Proof.
  apply resolve_cases in HR as (Hw & Hm & He & Hb & _ & _).
  destruct (served_withdrawn (pe_withdrawn env) (bp_withdrawn baked) _ eq_refl) as [rest Hrest].
  unfold evaluateVersionPolicy, servedTo, bakedTo. cbn [cp_withdrawn cp_minimumSupported cp_current]. rewrite Hw, Hrest.
  split; [|split].
  - intros r. destruct (List.find _ (bp_withdrawn baked)) as [w|] eqn:E; [|repeat case_match; done].
    intros [= <-]. by rewrite (find_app _ _ _ _ E).
  - intros m. destruct (List.find _ (bp_withdrawn baked)) as [w|] eqn:E; [done|].
    destruct (bp_minimumSupported baked) as [b|] eqn:Eb; [|repeat case_match; done].
    destruct (isLess cliVersion b) eqn:El; [|repeat case_match; done]. intros _.
    destruct (List.find _ (bp_withdrawn baked ++ rest)) as [w|]; [by exists "", (wv_reason w); right|].
    assert (exists m', ep_minimumSupported policy = Some m' /\ isLess cliVersion m' = true) as (m' & -> & ->).
    { rewrite Hm. unfold effectiveMinimum. destruct (pe_minimumSupported env) as [[|c s]|] eqn:Ee; [by eauto| |by eauto].
      destruct (bool_decide_reflect (0 <= compareReleaseVersions (String c s) b)%Z) as [Hle|]; [|by eauto].
      exists (String c s). split; [reflexivity|]. eapply minimum_raised; [..|exact El]; auto. }
    by exists m', ""; left.
  - intros Hin. rewrite <- Hrest.
    destruct (List.find _ _) as [w|] eqn:E; [by exists (wv_reason w)|]. exfalso.
    assert (Hex : exists w, w ∈ map (fun e => MkWithdrawnVersion (ee_version e) (ee_reason e))
      (mergeWithdrawn (pe_withdrawn env) (bp_withdrawn baked)) /\ wv_version w = cliVersion).
    { unfold mergeWithdrawn. setoid_rewrite elem_of_map. setoid_rewrite elem_of_app. setoid_rewrite elem_of_map.
      destruct (decide (cliVersion ∈ map wv_version (bp_withdrawn baked))) as [(w & -> & Hwb)%elem_of_map|Hn].
      - exists (MkWithdrawnVersion (wv_version w) (wv_reason w)). split; [|done].
        exists (MkEffectiveEntry (wv_version w) (wv_reason w) source_baked). split; [done|]. left. by exists w.
      - exists (MkWithdrawnVersion cliVersion ENV_WITHDRAWN_REASON). split; [|done].
        exists (MkEffectiveEntry cliVersion ENV_WITHDRAWN_REASON source_env). split; [done|]. right.
        exists cliVersion. split; [done|]. apply elem_of_lfilter. split; [|done]. by apply negb_true_iff, bool_decide_eq_false. }
    destruct Hex as (w & Hw' & Ev). pose proof (find_none_all _ _ E w Hw') as Hf. cbn in Hf. by bool_simpl.
Qed.

(** ** A confirmed withdrawal *)

Section sticky.
Context `{ServerText}.

Record Attempt := MkAttempt { at_now1 : Date; at_now2 : Date; at_outcome : FetchOutcome; at_written : bool }.

Fixpoint runChecks (opts : CheckOptions) (attempts : list Attempt) (file : Cache) : list bool * Cache :=
  match attempts with
  | [] => ([], file)
  | a :: attempts' =>
      let r := runVersionCheck opts (at_now1 a) (at_now2 a) (at_outcome a) (at_written a) file in
      let '(rs, file') := runChecks opts attempts' (cr_file r) in (cr_refuse r :: rs, file')
  end.

(** The cache holds a confirmed withdrawal of this version by this server. *)
Definition Sticky (key version : string) (file : Cache) : Prop :=
  length file <= MAX_CACHE_ENTRIES /\ NoDup (map fst file) /\
  exists e, (key, e) ∈ file /\ ce_cliVersion e = version /\ ce_lastConfirmedWithdrawn e <> None.

Lemma cacheGet_elem key e (cache : Cache) : NoDup (map fst cache) -> (key, e) ∈ cache -> cacheGet key cache = Some e.
Proof.
  intros Hnd Hin. unfold cacheGet. destruct (List.find _ cache) as [[k e']|] eqn:E.
  - apply find_elem_of in E as [Hin' Hk]. cbn in Hk. bool_simpl. subst k. cbn.
    by injection (NoDup_key_inj fst cache _ _ Hnd Hin Hin' eq_refl) as <-.
  - pose proof (find_none_all _ _ E _ Hin) as Hf. cbn in Hf. by bool_simpl.
Qed.

Lemma cacheSet_props key e (cache : Cache) : key ∈ map fst cache -> NoDup (map fst cache) ->
  map fst (cacheSet key e cache) = map fst cache /\ (key, e) ∈ cacheSet key e cache.
Proof.
  intros (kv & -> & Hin)%elem_of_map Hnd. unfold cacheSet.
  assert (existsb (fun x => x.1 =? kv.1) cache = true) as ->.
  { apply existsb_exists. exists kv. split; [by apply list_elem_of_In|by apply bool_decide_eq_true]. }
  split.
  - rewrite map_map. apply map_ext. intros x. destruct (bool_decide_reflect (x.1 = kv.1)) as [->|]; done.
  - apply elem_of_map. exists kv. split; [|done]. by rewrite bool_decide_eq_true_2.
Qed.

Lemma sticky_write key version entry (cache : Cache) :
  length cache <= MAX_CACHE_ENTRIES -> NoDup (map fst cache) -> key ∈ map fst cache ->
  ce_cliVersion entry = version -> ce_lastConfirmedWithdrawn entry <> None ->
  Sticky key version (writeVersionCheckCache (cacheSet key entry cache)).
Proof.
  intros Hl Hnd Hk Hv Hc. destruct (cacheSet_props key entry cache Hk Hnd) as [Hf Hin].
  assert (Hlen : length (cacheSet key entry cache) = length cache).
  { rewrite <- (length_map fst (cacheSet _ _ _)), Hf. apply length_map. }
  unfold writeVersionCheckCache. rewrite take_ge by (rewrite isort_length; lia).
  split; [rewrite isort_length; lia|]. split.
  - rewrite (Permutation_map fst (isort_perm _ (cacheSet key entry cache))). by rewrite Hf.
  - exists entry. split; [by rewrite elem_of_isort|done].
Qed.

Lemma read_keys (file : Cache) : map fst (readVersionCheckCache file) = map fst file.
Proof. unfold readVersionCheckCache. rewrite map_map. by apply map_ext. Qed.

Lemma unreachable_check opts key now1 now2 outcome written file :
  co_serverKey opts = Some key -> co_cliVersion opts <> "dev" -> co_hasCacheDir opts = true ->
  fetchPolicy outcome = None -> Sticky key (co_cliVersion opts) file ->
  let r := runVersionCheck opts now1 now2 outcome written file in
  cr_refuse r = true /\ Sticky key (co_cliVersion opts) (cr_file r).
Proof.
  intros Hkey Hdev Hdir Hout Hst. cbv zeta. pose proof Hst as (Hl & Hnd & e & Hin & Hv & Hc).
  unfold runVersionCheck. rewrite Hkey, Hdir, (bool_decide_eq_false_2 (co_cliVersion opts = "dev")) by done.
  set (cache := readVersionCheckCache file).
  destruct (ce_lastConfirmedWithdrawn e) as [c|] eqn:Ec; [|done].
  set (e' := e <| ce_lastConfirmedWithdrawn ::= fmap (fun c => MkConfirmed (sanitizeServerText (cw_reason c)) (cw_at c)) |>).
  assert (Hin' : (key, e') ∈ cache) by (apply elem_of_map; by exists (key, e)).
  assert (Hc' : ce_lastConfirmedWithdrawn e' = Some (MkConfirmed (sanitizeServerText (cw_reason c)) (cw_at c))).
  { unfold e'. cbn. by rewrite Ec. }
  assert (Hnd' : NoDup (map fst cache)) by (unfold cache; by rewrite read_keys).
  rewrite (cacheGet_elem key e' cache Hnd' Hin').
  rewrite (bool_decide_eq_true_2 (ce_cliVersion e' = co_cliVersion opts)) by done.
  unfold decideCheck, needsFetch. rewrite Hc', Hout. cbn [isNotNull isNull negb unreachableDecision dc_refusal dc_isPrior dc_entry].
  unfold mbind, option_bind. rewrite Hc'. cbn [option_fmap fmap option_map isNotNull isNull negb orb andb cr_refuse cr_file].
  split; [done|]. destruct written; [|done]. apply sticky_write; try done.
  - unfold cache, readVersionCheckCache. by rewrite length_map.
  - apply elem_of_map. by exists (key, e').
Qed.

(** Once this server has confirmed that this version of the CLI is withdrawn, every check refuses to run for as
    long as the server does not answer (unreachable, rate limited, malformed, oversized), however long that is
    and whether or not the cache can be written; and with no confirmed withdrawal in the cache a check that gets
    no answer never refuses. *)
Theorem withdrawal_sticks opts key attempts file
    (Hkey : co_serverKey opts = Some key) (Hdev : co_cliVersion opts <> "dev") (Hdir : co_hasCacheDir opts = true)
    (Hout : Forall (fun a => fetchPolicy (at_outcome a) = None) attempts) :
  (Sticky key (co_cliVersion opts) file ->
     Forall (fun refused => refused = true) (fst (runChecks opts attempts file))) /\
  ((forall e, (key, e) ∈ file -> ce_lastConfirmedWithdrawn e = None) ->
     forall a, a ∈ attempts -> cr_refuse (runVersionCheck opts (at_now1 a) (at_now2 a) (at_outcome a) (at_written a) file) = false).
Proof.
  split.
  - revert file. induction Hout as [|a attempts Ha _ IH]; intros file Hst; cbn [runChecks]; [constructor|].
    pose proof (unreachable_check opts key (at_now1 a) (at_now2 a) (at_outcome a) (at_written a) file Hkey Hdev Hdir Ha Hst) as [Hr Hs].
    specialize (IH _ Hs). destruct (runChecks _ _ _). by constructor.
  - intros Hno a Hin. rewrite Forall_forall in Hout. specialize (Hout a Hin).
    unfold runVersionCheck. rewrite Hkey, Hdir, (bool_decide_eq_false_2 (co_cliVersion opts = "dev")) by done.
    assert (Hp : forall e, cacheGet key (readVersionCheckCache file) = Some e -> ce_lastConfirmedWithdrawn e = None).
    { unfold cacheGet. intros e. destruct (List.find _ _) as [[k x]|] eqn:E; [|done]. intros [= <-].
      apply find_elem_of in E as [Hx Hk]. cbn in Hk. bool_simpl. subst k.
      apply elem_of_map in Hx as ([k y] & [= -> ->] & Hy). cbn. by rewrite (Hno y Hy). }
    set (prior := match cacheGet key (readVersionCheckCache file) with
                  | Some e => if ce_cliVersion e =? co_cliVersion opts then Some e else None | None => None end).
    assert (Hprior : forall e, prior = Some e -> ce_lastConfirmedWithdrawn e = None).
    { intros e. unfold prior. destruct (cacheGet _ _) as [x|]; [|done]. case_bool_decide; [|done]. intros [= <-]. by apply Hp. }
    assert (Hd : dc_refusal (decideCheck (co_cliVersion opts) (at_now1 a) (at_outcome a) prior) = None).
    { unfold decideCheck. rewrite Hout. destruct prior as [e|]; [|done]. destruct (negb _); [done|].
      unfold unreachableDecision. cbn. by rewrite (Hprior e eq_refl). }
    rewrite Hd. by destruct (maybePrintNotice _ _ _).
Qed.
End sticky.

(** ** Witnesses *)

#[local] Instance plainText : ServerText := {| sanitizeServerText s := s |}.

Definition envPolicy : CliVersionPolicyEnv := MkPolicyEnv (Some "1.2.0") ["1.3.0-rc.1"].
Definition bakedPolicy : BakedCliVersionPolicy := MkBakedPolicy (Some "1.1.0") [MkWithdrawnVersion "1.2.5" "leaks tokens"].
Definition resolved : EffectiveCliVersionPolicy * list BootLog := Eval vm_compute in
  match resolveCliVersionPolicy envPolicy bakedPolicy release1 with inr r => r | inl _ => (MkEffectivePolicy None [], []) end.
Definition servedBody : string := Eval vm_compute in clientVersionPolicyBody (fst resolved) release1.
Definition bodyStart : string := Eval vm_compute in substring 0 100 servedBody.
Definition bodyEnd : string := Eval vm_compute in substring 100 10000 servedBody.

Lemma served_policy_accepted_witness :
  fetchPolicy (fetch_response 200 [bodyStart; bodyEnd]) =
  Some (MkCliPolicy (Some "1.0.0") (Some "1.2.0")
    [MkWithdrawnVersion "1.2.5" "leaks tokens"; MkWithdrawnVersion "1.3.0-rc.1" ENV_WITHDRAWN_REASON]).
Proof.
  refine (served_policy_accepted envPolicy bakedPolicy release1 (fst resolved) (snd resolved) [bodyStart; bodyEnd] _ _ _).
  - vm_compute. reflexivity.
  - vm_compute. reflexivity.
  - vm_compute. discriminate.
Defined.

Lemma policy_only_tightened_witness :
  evaluateVersionPolicy "1.2.5" (servedTo (fst resolved) (Some "1.0.0")) = verdict_withdrawn "leaks tokens".
Proof.
  refine (proj1 (policy_only_tightened envPolicy bakedPolicy release1 (fst resolved) (snd resolved) (Some "1.0.0") "1.2.5" _) _ _).
  - vm_compute. reflexivity.
  - vm_compute. reflexivity.
Defined.

Definition stickyEntry : VersionCheckCacheEntry :=
  MkCacheEntry "1.2.5" 1000 outcome_ok None (Some (MkConfirmed "leaks tokens" 1000)) None.
Definition someAttempts : list Attempt :=
  [MkAttempt 2000 2000 fetch_failed true; MkAttempt 90000000 90000000 (fetch_response 503 ["busy"]) false].

Lemma withdrawal_sticks_witness :
  Forall (fun refused => refused = true)
    (fst (runChecks (MkCheckOptions "1.2.5" (Some "https://vault") true false) someAttempts [("https://vault", stickyEntry)])).
Proof.
  refine (proj1 (withdrawal_sticks (MkCheckOptions "1.2.5" (Some "https://vault") true false) "https://vault" someAttempts
            [("https://vault", stickyEntry)] eq_refl _ eq_refl _) _).
  - discriminate.
  - repeat constructor.
  - split; [cbn; unfold MAX_CACHE_ENTRIES; lia|]. split; [apply NoDup_singleton|]. exists stickyEntry.
    split; [left|]. split; [reflexivity|discriminate].
Defined.
