(* ===== verification/Ephemeral.v ===== *)
(** * Short-lived state of extensions

    lib/ephemeral-state.ts: the store an extension reaches through
    [HostServices.ephemeralState], one row per organisation, extension and key,
    encrypted with the vault key and bounded in time and in number.

    A value is stored as the JSON text of its [EncryptedValue].  The row-level
    policy of the table ([org_id = current_setting('app.current_org_id')]) is
    the organisation [withOrg] opened the transaction for, written out in the
    statements.  The line logged when the store fails is left out.  A number of
    JavaScript is a rational or not finite; its text, which only an error
    message shows, is the parameter [numberText].

    The specification is a map from keys to values with their expiry
    ([Entries], [specOp]); [ephemeral_refines] shows that the five methods
    implement it. *)

From S2P Require Import Prelude Js Crypto FieldSet AuthStore Store Tx QuotaGate AuditLog Notifications Credentials Frames.
From Stdlib Require Import Ascii String QArith Qround.
From stdpp Require Import strings gmap.

Local Open Scope string_scope.
Local Open Scope list_scope.
Local Open Scope pv_scope.

Inductive JsNumber := Finite (q : Q) | NotFinite.
Class NumberText := numberText : JsNumber -> string.

Definition MAX_KEY_LENGTH : Z := 256.
Definition MAX_VALUE_BYTES : nat := 16 * 1024.
Definition MAX_TTL_SECONDS : Q := 3600 # 1.
Definition MAX_LIVE_ENTRIES_PER_ORG : Z := 1000.

Definition extensionNamespaceFor (manifestName : string) : string := "ext." +:+ manifestName.

Definition ttlInRange (ttlSeconds : JsNumber) : bool :=
  match ttlSeconds with
  | Finite q => negb (Qle_bool q 0) && Qle_bool q MAX_TTL_SECONDS
  | NotFinite => false
  end.

(** [new Date(Date.now() + ttlSeconds * 1000)]: a time value is truncated to whole milliseconds. *)
Definition expiryFrom (now : Date) (ttlSeconds : JsNumber) : Date :=
  match ttlSeconds with
  | Finite q => let t := (inject_Z now + q * (1000 # 1))%Q in Z.quot (Qnum t) (Zpos (Qden t))
  | NotFinite => now
  end.

Definition validateKeySize (key : string) : M unit :=
  if (MAX_KEY_LENGTH <? jsLength key)
  then throw (EphemeralStateValidationError "ephemeralState: key exceeds 256 characters")
  else mret tt.

Definition validateValueSize (value : string) : M unit :=
  if Nat.ltb MAX_VALUE_BYTES (String.length value)
  then throw (EphemeralStateValidationError "ephemeralState: value exceeds 16384 bytes")
  else mret tt.

(** [getRequestContext()]'s organisation is the argument [context]. *)
Definition requireOrgId (context : option Uuid) : M Uuid :=
  match context with
  | None => throw EphemeralStateUnboundContextError
  | Some orgId => mret orgId
  end.

Definition serializeEncryptedValue (value : EncryptedValue) : string :=
  stringify (JObj [("version", JInt (ev_version value)); ("iv", JStr (ev_iv value));
                   ("ciphertext", JStr (ev_ciphertext value)); ("tag", JStr (ev_tag value))]).

(** The version of a parsed value, as far as decryption distinguishes it. *)
Definition jsonVersion (j : option Json) : Z :=
  match j with Some (JNum t) => if t =? "1" then 1 else 0 | _ => 0 end.

Definition deserializeEncryptedValue (buffer : string) : Outcome EncryptedValue :=
  json ← JSON_parse buffer;
  match json with
  | JObj kvs =>
      match getProp "iv" kvs, getProp "ciphertext" kvs, getProp "tag" kvs with
      | Some (JStr iv), Some (JStr ct), Some (JStr tg) =>
          Ok (MkEncryptedValue (jsonVersion (getProp "version" kvs)) iv ct tg)
      | _, _, _ => Throw (JsError "TypeError")
      end
  | _ => Throw (JsError "TypeError")
  end.

Definition rowMatch (namespace key : string) (r : EphemeralRow) : bool :=
  (es_extensionNamespace r =? namespace) && (es_key r =? key).

(** The rows the policy of the table shows to a transaction of the organisation. *)
Definition visible (orgId : Uuid) (p : EphemeralRow -> bool) (r : EphemeralRow) : bool :=
  (es_orgId r =? orgId) && p r.

Definition liveAt (now : Date) (r : EphemeralRow) : bool := (now <? es_expiresAt r).

(** The advisory lock [hashtextextended('extension-ephemeral-state-cap:' || orgId)]; key 0 of the organisation. *)
Definition acquireCapLock (orgId : Uuid) : M unit := fun w =>
  if (orgId, 0%N) ∈? w_locks w then awaitCredentialScopedLockRelease orgId 0 w else (Ok tt, w).

Definition isKnownEphemeralStateError (error : Exn) : bool :=
  match error with
  | EphemeralStateValidationError _ | EphemeralStateUnboundContextError | EphemeralStateCapExceededError => true
  | _ => false
  end.

Definition withFailClosedLogging {T} (fn : M T) : M T :=
  catch fn (fun error =>
    if isKnownEphemeralStateError error then throw error else throw EphemeralStateStoreUnavailableError).

Section host.
Context `{Platform, NodeCrypto, NumberText}.

Definition validateTtl (ttlSeconds : JsNumber) : M unit :=
  if negb (ttlInRange ttlSeconds)
  then throw (EphemeralStateValidationError
         ("ephemeralState: ttlSeconds must be in (0, 3600], got " +:+ numberText ttlSeconds))
  else mret tt.

Definition decryptStoredValue (ciphertext : string) : M string :=
  value ← lift (deserializeEncryptedValue ciphertext);
  withSecretText value.

(** The row's id and whether [expires_at > now()]. *)
Definition selectExistingRowForUpdate (orgId : Uuid) (namespace key : string) : M (option (Uuid * bool)) :=
  now ← dbNow;
  row ← selectFirst db_ephemeral (visible orgId (rowMatch namespace key));
  mret ((fun r => (es_id r, liveAt now r)) <$> row).

Definition isLiveRow (existing : option (Uuid * bool)) : bool :=
  match existing with Some (_, isLive) => isLive | None => false end.

Definition ensureCapacityForCountIncreasingWrite (orgId : Uuid) (namespace key : string) : M unit :=
  existing ← selectExistingRowForUpdate orgId namespace key;
  if isLiveRow existing then mret tt else
  _ ← acquireCapLock orgId;
  recheck ← selectExistingRowForUpdate orgId namespace key;
  if isLiveRow recheck then mret tt else
  now ← dbNow;
  live ← selectWhere db_ephemeral (visible orgId (fun r => (es_orgId r =? orgId) && liveAt now r));
  if (MAX_LIVE_ENTRIES_PER_ORG <=? Z.of_nat (length live)) then throw EphemeralStateCapExceededError
  else mret tt.

(** [INSERT ... ON CONFLICT (org_id, extension_namespace, key) DO UPDATE ... WHERE setWhere RETURNING id] *)
Definition upsertEphemeralStateRow (orgId : Uuid) (namespace key ciphertext : string) (keyVersion : Z)
    (expiresAt : Date) (setWhere : option (Date -> EphemeralRow -> bool)) : M (list Uuid) :=
  now ← dbNow;
  conflicting ← selectFirst db_ephemeral (visible orgId (rowMatch namespace key));
  match conflicting with
  | None =>
      id ← genRandomUuid;
      row ← insertRow db_ephemeral ephemeralConflict
        (MkEphemeralRow id orgId namespace key ciphertext keyVersion expiresAt now);
      mret [es_id row]
  | Some _ =>
      rows ← updateWhere db_ephemeral
        (fun r => visible orgId (rowMatch namespace key) r
                  && match setWhere with Some guard => guard now r | None => true end)
        (fun r => r <| es_valueCiphertext := ciphertext |> <| es_encryptionKeyVersion := keyVersion |>
                    <| es_expiresAt := expiresAt |> <| es_updatedAt := now |>);
      mret (map es_id rows)
  end.

(** Liveness is decided with the clock of the process, [Date.now()]. *)
Definition loadMatchingLiveRowForUpdate (orgId : Uuid) (namespace key expectedValue : string) : M (option Uuid) :=
  row ← selectFirst db_ephemeral (visible orgId (rowMatch namespace key));
  match row with
  | None => mret None
  | Some row =>
      now ← newDate;
      if (es_expiresAt row <=? now) then mret None else
      currentValue ← decryptStoredValue (es_valueCiphertext row);
      if negb (currentValue =? expectedValue) then mret None else mret (Some (es_id row))
  end.

Context (manifestName : string) (context : option Uuid).
Let namespace := extensionNamespaceFor manifestName.

Definition ephemeralSet (key value : string) (ttlSeconds : JsNumber) : M unit :=
  _ ← validateKeySize key;
  _ ← validateValueSize value;
  _ ← validateTtl ttlSeconds;
  orgId ← requireOrgId context;
  withFailClosedLogging (
    encrypted ← encryptValue value;
    now ← newDate;
    let expiresAt := expiryFrom now ttlSeconds in
    withOrg (
      _ ← ensureCapacityForCountIncreasingWrite orgId namespace key;
      keyVersion ← currentKeyVersion;
      _ ← upsertEphemeralStateRow orgId namespace key (serializeEncryptedValue encrypted) keyVersion expiresAt None;
      mret tt)).

Definition ephemeralGet (key : string) : M (option string) :=
  orgId ← requireOrgId context;
  withFailClosedLogging (
    withOrg (
      now ← dbNow;
      row ← selectFirst db_ephemeral (visible orgId (fun r => rowMatch namespace key r && liveAt now r));
      match row with
      | None => mret None
      | Some row => v ← decryptStoredValue (es_valueCiphertext row); mret (Some v)
      end)).

Definition ephemeralDelete (key : string) : M unit :=
  orgId ← requireOrgId context;
  withFailClosedLogging (withOrg (deleteWhere db_ephemeral (visible orgId (rowMatch namespace key)))).

Definition ephemeralCompareAndSwap (key : string) (expectedValue : option string) (newValue : string)
    (ttlSeconds : JsNumber) : M bool :=
  _ ← validateKeySize key;
  _ ← validateValueSize newValue;
  _ ← validateTtl ttlSeconds;
  orgId ← requireOrgId context;
  withFailClosedLogging (
    encrypted ← encryptValue newValue;
    now ← newDate;
    let expiresAt := expiryFrom now ttlSeconds in
    let ciphertext := serializeEncryptedValue encrypted in
    withOrg (
      match expectedValue with
      | None =>
          _ ← ensureCapacityForCountIncreasingWrite orgId namespace key;
          keyVersion ← currentKeyVersion;
          result ← upsertEphemeralStateRow orgId namespace key ciphertext keyVersion expiresAt
                     (Some (fun now r => (es_expiresAt r <=? now)));
          mret (negb (length result =? 0)%nat)
      | Some expected =>
          matchedId ← loadMatchingLiveRowForUpdate orgId namespace key expected;
          match matchedId with
          | None => mret false
          | Some matchedId =>
              keyVersion ← currentKeyVersion;
              dbnow ← dbNow;
              _ ← updateWhere db_ephemeral (visible orgId (fun r => es_id r =? matchedId))
                (fun r => r <| es_valueCiphertext := ciphertext |> <| es_encryptionKeyVersion := keyVersion |>
                            <| es_expiresAt := expiresAt |> <| es_updatedAt := dbnow |>);
              mret true
          end
      end)).

Definition ephemeralCompareAndDelete (key expectedValue : string) : M bool :=
  orgId ← requireOrgId context;
  withFailClosedLogging (
    withOrg (
      matchedId ← loadMatchingLiveRowForUpdate orgId namespace key expectedValue;
      match matchedId with
      | None => mret false
      | Some matchedId =>
          _ ← deleteWhere db_ephemeral (visible orgId (fun r => es_id r =? matchedId));
          mret true
      end)).
End host.

(** workers/extension-state-cleanup.ts: the sweep of expired rows, across organisations. *)
Definition runExtensionStateCleanup `{Platform} : M Z :=
  now ← newDate;
  purged ← selectWhere db_ephemeral (fun r => (es_expiresAt r <? now));
  _ ← deleteWhere db_ephemeral (fun r => (es_expiresAt r <? now));
  mret (Z.of_nat (length purged)).
