(* ===== verification/EphemeralTheorems.v ===== *)
(** * The store of extensions is a map with expiry and a cap

    [view]: the map the rows of extension_ephemeral_state stand for.
    [specOp]: what each method promises of that map, at the time of the
    transaction and the time of the process.  [ephemeral_refines]: the methods
    keep the promise; [ephemeral_cap]: an organisation never has more than
    MAX_LIVE_ENTRIES_PER_ORG live entries; [ephemeral_fail_closed]: what a
    method throws. *)

From S2P Require Import Prelude Js Crypto FieldSet AuthStore Store Tx QuotaGate AuditLog Notifications Credentials Frames Ephemeral.
From Stdlib Require Import Ascii String QArith.
From stdpp Require Import strings gmap.

Local Open Scope string_scope.
Local Open Scope list_scope.
Local Open Scope pv_scope.

(** ** The specification *)

Notation EntryKey := (Uuid * string * string)%type.  (* organisation, extension, key *)
Notation Entries := (gmap EntryKey (string * Date)).

Definition entryLive (now : Date) (m : Entries) (i : EntryKey) : bool :=
  match m !! i with Some (_, e) => (now <? e) | None => false end.

Definition liveOf (orgId : Uuid) (now : Date) (x : EntryKey * (string * Date)) : Prop :=
  x.1.1.1 = orgId /\ (now < x.2.2)%Z.
#[export] Instance liveOf_dec orgId now x : Decision (liveOf orgId now x).
Proof. unfold liveOf. apply _. Defined.

Definition liveCount (orgId : Uuid) (now : Date) (m : Entries) : nat := size (filter (liveOf orgId now) m).

Inductive EphemeralOp :=
| eo_set (key value : string) (ttlSeconds : JsNumber)
| eo_get (key : string)
| eo_delete (key : string)
| eo_compareAndSwap (key : string) (expectedValue : option string) (newValue : string) (ttlSeconds : JsNumber)
| eo_compareAndDelete (key expectedValue : string).

Inductive EphemeralReply := er_done | er_value (v : option string) | er_bool (b : bool).

(** The time the call begins, the [now()] of its transaction and the [Date.now()] of its comparison. *)
Record Times := MkTimes { t_call : Date; t_db : Date; t_app : Date }.

Section spec.
Context `{NumberText}.

Definition specChecks (key value : string) (ttlSeconds : JsNumber) (orgId : option Uuid) : Outcome Uuid :=
  if (MAX_KEY_LENGTH <? jsLength key)
  then Throw (EphemeralStateValidationError "ephemeralState: key exceeds 256 characters")
  else if Nat.ltb MAX_VALUE_BYTES (String.length value)
  then Throw (EphemeralStateValidationError "ephemeralState: value exceeds 16384 bytes")
  else if negb (ttlInRange ttlSeconds)
  then Throw (EphemeralStateValidationError
         ("ephemeralState: ttlSeconds must be in (0, 3600], got " +:+ numberText ttlSeconds))
  else match orgId with None => Throw EphemeralStateUnboundContextError | Some o => Ok o end.

(** Whether a write that makes one more entry live is allowed. *)
Definition hasRoom (orgId : Uuid) (now : Date) (m : Entries) : bool :=
  (Z.of_nat (liveCount orgId now m) <? MAX_LIVE_ENTRIES_PER_ORG).

Definition specOp (context : option Uuid) (ns : string) (t : Times) (op : EphemeralOp) (m : Entries)
    : Outcome EphemeralReply * Entries :=
  match op with
  | eo_set key value ttl =>
      match specChecks key value ttl context with
      | Throw e => (Throw e, m)
      | Ok org =>
          if entryLive (t_db t) m (org, ns, key) || hasRoom org (t_db t) m
          then (Ok er_done, <[(org, ns, key) := (value, expiryFrom (t_call t) ttl)]> m)
          else (Throw EphemeralStateCapExceededError, m)
      end
  | eo_get key =>
      match context with
      | None => (Throw EphemeralStateUnboundContextError, m)
      | Some org =>
          (Ok (er_value (if entryLive (t_db t) m (org, ns, key) then fst <$> m !! (org, ns, key) else None)), m)
      end
  | eo_delete key =>
      match context with
      | None => (Throw EphemeralStateUnboundContextError, m)
      | Some org => (Ok er_done, delete (org, ns, key) m)
      end
  | eo_compareAndSwap key None value ttl =>
      match specChecks key value ttl context with
      | Throw e => (Throw e, m)
      | Ok org =>
          if entryLive (t_db t) m (org, ns, key) then (Ok (er_bool false), m)
          else if hasRoom org (t_db t) m
          then (Ok (er_bool true), <[(org, ns, key) := (value, expiryFrom (t_call t) ttl)]> m)
          else (Throw EphemeralStateCapExceededError, m)
      end
  | eo_compareAndSwap key (Some expected) value ttl =>
      match specChecks key value ttl context with
      | Throw e => (Throw e, m)
      | Ok org =>
          if entryLive (t_app t) m (org, ns, key) && ((fst <$> m !! (org, ns, key)) =? Some expected)
          then (Ok (er_bool true), <[(org, ns, key) := (value, expiryFrom (t_call t) ttl)]> m)
          else (Ok (er_bool false), m)
      end
  | eo_compareAndDelete key expected =>
      match context with
      | None => (Throw EphemeralStateUnboundContextError, m)
      | Some org =>
          if entryLive (t_app t) m (org, ns, key) && ((fst <$> m !! (org, ns, key)) =? Some expected)
          then (Ok (er_bool true), delete (org, ns, key) m)
          else (Ok (er_bool false), m)
      end
  end.
End spec.

(** ** The map a table stands for *)

Section view.
Context `{NodeCrypto}.

Definition storedText (vaultKey ciphertext : string) : Outcome string :=
  value ← deserializeEncryptedValue ciphertext; decryptSync value vaultKey.

Definition entryKey (r : EphemeralRow) : EntryKey := (es_orgId r, es_extensionNamespace r, es_key r).
Definition textOf (vaultKey : string) (r : EphemeralRow) : string :=
  match storedText vaultKey (es_valueCiphertext r) with Ok v => v | Throw _ => "" end.
Definition entryOf (vaultKey : string) (r : EphemeralRow) : EntryKey * (string * Date) :=
  (entryKey r, (textOf vaultKey r, es_expiresAt r)).
Definition view (vaultKey : string) (rows : list EphemeralRow) : Entries :=
  list_to_map (map (entryOf vaultKey) rows).

Definition RowsOk (vaultKey : string) (rows : list EphemeralRow) : Prop :=
  NoDup (map entryKey rows) /\ NoDup (map es_id rows) /\
  forall r, r ∈ rows -> exists v, storedText vaultKey (es_valueCiphertext r) = Ok v.

Context (k : string).
Implicit Types rows : list EphemeralRow.

Lemma keys_fst rows : (map (entryOf k) rows).*1 = map entryKey rows.
Proof. induction rows as [|r rows IH]; cbn; [done|]. by f_equal. Qed.

Lemma view_lookup rows i x : NoDup (map entryKey rows) ->
  view k rows !! i = Some x <-> exists r, r ∈ rows /\ entryOf k r = (i, x).
Proof.
  intros Hnd. unfold view. rewrite <- elem_of_list_to_map by (by rewrite keys_fst). rewrite Prelude.elem_of_map.
  naive_solver.
Qed.
Lemma view_none rows i : view k rows !! i = None <-> i ∉ map entryKey rows.
Proof. unfold view. by rewrite <- not_elem_of_list_to_map, keys_fst. Qed.

Lemma match_key org ns key r : visible org (rowMatch ns key) r = true <-> entryKey r = (org, ns, key).
Proof.
  unfold visible, rowMatch, entryKey. split.
  - intros E. bool_simpl. congruence.
  - intros [= -> -> ->]. by rewrite !bool_decide_eq_true_2.
Qed.

Lemma view_head rows org ns key : NoDup (map entryKey rows) ->
  view k rows !! (org, ns, key) =
    (fun r => (textOf k r, es_expiresAt r)) <$> head (List.filter (visible org (rowMatch ns key)) rows).
Proof.
  intros Hnd. destruct (head _) as [r|] eqn:E; cbn.
  - apply head_elem_of, elem_of_lfilter in E as [Em Hr]. apply match_key in Em. apply view_lookup; [done|].
    exists r. split; [done|]. unfold entryOf. by rewrite Em.
  - apply view_none. intros (r & Er & Hr)%Prelude.elem_of_map. symmetry in Er. apply match_key in Er.
    assert (Hin : r ∈ List.filter (visible org (rowMatch ns key)) rows) by (by apply elem_of_lfilter).
    destruct (List.filter _ _); [by apply not_elem_of_nil in Hin|done].
Qed.

Lemma live_count rows org now : NoDup (map entryKey rows) ->
  length (List.filter (visible org (fun r => (es_orgId r =? org) && liveAt now r)) rows) =
  liveCount org now (view k rows).
Proof.
  intros Hnd. unfold liveCount. rewrite map_filter_alt.
  assert (Hp : map_to_list (view k rows) ≡ₚ map (entryOf k) rows).
  { apply map_to_list_to_map. by rewrite keys_fst. }
  rewrite map_size_list_to_map.
  2: { apply (sublist_NoDup _ ((map_to_list (view k rows)).*1)); [apply NoDup_fst_map_to_list|]. apply fmap_sublist, sublist_filter. }
  rewrite Hp. clear Hp Hnd. induction rows as [|r rows IH]; [done|]. cbn [map List.filter]. rewrite filter_cons.
  unfold visible at 1, liveAt at 1. destruct (bool_decide_reflect (es_orgId r = org)) as [Eo|Ho]; cbn [andb].
  - destruct (bool_decide_reflect (now < es_expiresAt r)%Z) as [Hl|Hl].
    + rewrite decide_True by done. cbn [length]. by rewrite IH.
    + rewrite decide_False by (by intros []). exact IH.
  - rewrite decide_False by (by intros []). exact IH.
Qed.

(** The rows after the three kinds of write. *)

Lemma view_ext rows m : NoDup (map entryKey rows) ->
  (forall i x, m !! i = Some x <-> exists r, r ∈ rows /\ entryOf k r = (i, x)) -> view k rows = m.
Proof.
  intros Hnd Hm. apply map_eq. intros i. apply option_eq. intros x. by rewrite view_lookup, Hm.
Qed.

Lemma RowsOk_append rows r v :
  RowsOk k rows -> entryKey r ∉ map entryKey rows -> es_id r ∉ map es_id rows ->
  storedText k (es_valueCiphertext r) = Ok v ->
  RowsOk k (rows ++ [r]) /\ view k (rows ++ [r]) = <[entryKey r := (v, es_expiresAt r)]> (view k rows).
Proof.
  intros (Hk & Hi & Ht) Hnk Hni Hv. split.
  - split; [|split].
    + rewrite map_app. apply NoDup_app. split; [done|]. split; [|apply NoDup_singleton].
      intros x Hx ->%list_elem_of_singleton. done.
    + rewrite map_app. apply NoDup_app. split; [done|]. split; [|apply NoDup_singleton].
      intros x Hx ->%list_elem_of_singleton. done.
    + intros y [Hy| ->%list_elem_of_singleton]%elem_of_app; [by apply Ht|by exists v].
  - unfold view. rewrite map_app. change (map (entryOf k) [r]) with [entryOf k r]. unfold entryOf at 2, textOf.
    rewrite Hv. apply list_to_map_snoc. by rewrite keys_fst.
Qed.

Lemma RowsOk_update rows p f r0 v e :
  RowsOk k rows -> r0 ∈ rows -> (forall r, r ∈ rows -> p r = true <-> r = r0) ->
  (forall r, entryKey (f r) = entryKey r) -> (forall r, es_id (f r) = es_id r) ->
  storedText k (es_valueCiphertext (f r0)) = Ok v -> es_expiresAt (f r0) = e ->
  RowsOk k (map_where p f rows) /\ view k (map_where p f rows) = <[entryKey r0 := (v, e)]> (view k rows).
Proof.
  intros (Hk & Hi & Ht) Hr0 Hp Hfk Hfi Hv He.
  assert (Hk' : NoDup (map entryKey (map_where p f rows))) by (by rewrite map_where_proj).
  split; [split; [done|]; split; [by rewrite map_where_proj|]|].
  - intros y (r & Hr & ->)%elem_of_map_where. destruct (p r) eqn:E; [|by apply Ht].
    apply Hp in E as ->; [|done]. by exists v.
  - apply view_ext; [done|]. intros i x. rewrite lookup_insert_Some, view_lookup by done. split.
    + intros [[<- <-]|[Hne (r & Hr & Er)]].
      * exists (f r0). split; [apply elem_of_map_where; exists r0; by rewrite (proj2 (Hp r0 Hr0) eq_refl)|].
        unfold entryOf, textOf. by rewrite Hfk, Hv, He.
      * exists r. split; [|done]. apply elem_of_map_where. exists r. split; [done|].
        destruct (p r) eqn:E; [|done]. apply Hp in E as ->; [|done]. by apply (f_equal fst) in Er.
    + intros (y & (r & Hr & ->)%elem_of_map_where & Ey). destruct (p r) eqn:E.
      * apply Hp in E as ->; [|done]. left. unfold entryOf, textOf in Ey. rewrite Hfk, Hv, He in Ey.
        by injection Ey.
      * right. split; [|by exists r]. intros <-. apply (f_equal fst) in Ey as Ek.
        assert (r = r0) as -> by (by apply (NoDup_key_inj entryKey rows)).
        by rewrite (proj2 (Hp r0 Hr0) eq_refl) in E.
Qed.

Lemma RowsOk_delete rows p i :
  RowsOk k rows -> (forall r, r ∈ rows -> p r = true <-> entryKey r = i) ->
  let rows' := List.filter (fun r => negb (p r)) rows in
  RowsOk k rows' /\ view k rows' = delete i (view k rows).
Proof.
  intros (Hk & Hi & Ht) Hp. cbv zeta.
  assert (Hsub : forall A (g : EphemeralRow -> A), NoDup (map g rows) -> NoDup (map g (List.filter (fun r => negb (p r)) rows))).
  { intros A g. clear. induction rows as [|r rows IH]; cbn; [done|]. intros [Hn Hnd]%NoDup_cons.
    destruct (negb (p r)); cbn; [|by apply IH]. apply NoDup_cons. split; [|by apply IH].
    intros (y & Ey & [_ Hy]%elem_of_lfilter)%Prelude.elem_of_map. apply Hn, Prelude.elem_of_map. by exists y. }
  split; [split; [by apply Hsub|]; split; [by apply Hsub|]|].
  - intros r [_ Hr]%elem_of_lfilter. by apply Ht.
  - apply view_ext; [by apply Hsub|]. intros j x. rewrite lookup_delete_Some, view_lookup by done. split.
    + intros [Hne (r & Hr & Er)]. exists r. split; [|done]. apply elem_of_lfilter. split; [|done].
      apply negb_true_iff, not_true_iff_false. rewrite Hp by done. intros <-. by apply (f_equal fst) in Er.
    + intros (r & [Hn Hr]%elem_of_lfilter & Er). split; [|by exists r]. intros <-. apply (f_equal fst) in Er as Ek.
      apply Hp in Ek; [|done]. by rewrite Ek in Hn.
Qed.
End view.

(** ** The methods *)

Section methods.
Context `{Platform, NodeCryptoLaws, NumberText}.

Definition runEphemeral (manifestName : string) (context : option Uuid) (op : EphemeralOp) : M EphemeralReply :=
  match op with
  | eo_set key value ttl => _ ← ephemeralSet manifestName context key value ttl; mret er_done
  | eo_get key => v ← ephemeralGet manifestName context key; mret (er_value v)
  | eo_delete key => _ ← ephemeralDelete manifestName context key; mret er_done
  | eo_compareAndSwap key expected value ttl =>
      b ← ephemeralCompareAndSwap manifestName context key expected value ttl; mret (er_bool b)
  | eo_compareAndDelete key expected => b ← ephemeralCompareAndDelete manifestName context key expected; mret (er_bool b)
  end.

(** The times a call that begins at the tick [n] sees. *)
Definition timesOf (op : EphemeralOp) (n : nat) : Times :=
  match op with
  | eo_set _ _ _ | eo_compareAndSwap _ _ _ _ => MkTimes (clock (1 + n)) (clock (2 + n)) (clock (3 + n))
  | eo_get _ | eo_delete _ | eo_compareAndDelete _ _ => MkTimes (clock n) (clock n) (clock (1 + n))
  end.

(** What the store relies on: an unsealed vault, identifiers and vectors of [randomUUID] and [randomBytes]. *)
Record EphOk (k : string) (w : World) : Prop := MkEphOk {
  eph_primary : w_primaryKey w = Some k;
  eph_active : w_activeKey w = Some k;
  eph_key : String.length k = 32;
  eph_rows : RowsOk k (db_ephemeral (w_db w));
  eph_fresh : forall n, w_tick w <= n -> randomUuid n ∉ map es_id (db_ephemeral (w_db w));
  eph_alone : w_onWait w = id;
}.

Context (k : string) (HU : forall i j, randomUuid i = randomUuid j -> i = j)
  (HV : forall n, String.length (randomIv n) = IV_BYTES).
Notation entries w := (view k (db_ephemeral (w_db w))).

Lemma EphOk_world w w' : EphOk k w -> w_primaryKey w' = w_primaryKey w -> w_activeKey w' = w_activeKey w ->
  w_db w' = w_db w -> w_onWait w' = w_onWait w -> w_tick w <= w_tick w' -> EphOk k w'.
Proof.
  intros [] E1 E2 E3 E4 Ht. constructor; rewrite ?E1, ?E2, ?E3, ?E4; try done. intros n Hn. apply eph_fresh0. lia.
Qed.

Lemma storedText_serialize iv v e : String.length k = 32 -> String.length iv = IV_BYTES ->
  encryptSync iv v k = Ok e -> storedText k (serializeEncryptedValue e) = Ok v.
Proof.
  intros Hk Hiv E. destruct (encryptSync_decrypts k iv v Hk Hiv) as (e' & E' & Ev & Ed & _).
  assert (e' = e) as -> by congruence. unfold storedText, deserializeEncryptedValue, serializeEncryptedValue.
  rewrite JSON_parse_stringify.
  - cbn [mbind Outcome_bind getProp]. rewrite Ev. rewrite <- Ed. by destruct e; cbn in Ev; subst.
  - rewrite Ev. cbn. split; [|done]. split; [split; [vm_compute; reflexivity|discriminate]|].
    intros [|c t] n Ht; [reflexivity|]. by destruct Ht as [->|[->| ->]].
Qed.

Lemma decrypt_run ct v w : EphOk k w -> storedText k ct = Ok v -> decryptStoredValue ct w = (Ok v, w).
Proof.
  intros Hw. unfold storedText, decryptStoredValue. cbn. unfold mbind, M_bind, lift.
  destruct (deserializeEncryptedValue ct) as [e|]; [|done]. cbn. intros Hd. unfold withSecretText.
  rewrite (eph_active _ _ Hw). cbn. by rewrite Hd.
Qed.

Lemma wp_encrypt {A} v (K : EncryptedValue -> M A) Q w : EphOk k w ->
  (forall e, storedText k (serializeEncryptedValue e) = Ok v -> wp (K e) Q (w <| w_tick ::= S |>)) ->
  wp (encryptValue v ≫= K) Q w.
Proof.
  intros Hw HK. destruct (encryptSync_decrypts k (randomIv (w_tick w)) v (eph_key _ _ Hw) (HV _)) as (e & E & _).
  eapply wp_bind_eq; [|apply (HK e)].
  - unfold encryptValue, getPrimaryKey, mbind, M_bind. rewrite (eph_primary _ _ Hw). cbn. unfold lift. by rewrite E.
  - by eapply storedText_serialize; [apply (eph_key _ _ Hw)| |exact E].
Qed.

Lemma existing_live w org ns key : EphOk k w ->
  isLiveRow ((fun r => (es_id r, liveAt (w_now w) r)) <$>
    head (List.filter (visible org (rowMatch ns key)) (db_ephemeral (w_db w)))) = entryLive (w_now w) (entries w) (org, ns, key).
Proof.
  intros Hw. unfold entryLive. rewrite view_head by apply (eph_rows _ _ Hw). by destruct (head _).
Qed.

Lemma wp_ensure {A} org ns key (K : unit -> M A) Q w : EphOk k w ->
  (forall ls, if entryLive (w_now w) (entries w) (org, ns, key) || hasRoom org (w_now w) (entries w)
     then wp (K tt) Q (w <| w_locks := ls |>) else Q (Throw EphemeralStateCapExceededError) (w <| w_locks := ls |>)) ->
  wp (ensureCapacityForCountIncreasingWrite org ns key ≫= K) Q w.
Proof.
  intros Hw HK. pose proof (existing_live w org ns key Hw) as Hx.
  unfold ensureCapacityForCountIncreasingWrite, selectExistingRowForUpdate.
  unfold wp, mbind, M_bind, dbNow, selectFirst. cbn [mret M_ret]. rewrite Hx.
  destruct (entryLive (w_now w) (entries w) (org, ns, key)) eqn:E.
  { specialize (HK (w_locks w)). cbn [orb] in HK.
    replace (w <| w_locks := w_locks w |>) with w in HK by (by destruct w). exact HK. }
  assert (exists ls, acquireCapLock org w = (Ok tt, w <| w_locks := ls |>)) as [ls Hls].
  { unfold acquireCapLock. destruct (_ ∈? _); [|exists (w_locks w); by destruct w].
    unfold awaitCredentialScopedLockRelease. rewrite (eph_alone _ _ Hw). eexists. destruct w; reflexivity. }
  rewrite Hls. specialize (HK ls). cbn [orb] in HK.
  change (w_now (w <| w_locks := ls |>)) with (w_now w). change (w_db (w <| w_locks := ls |>)) with (w_db w).
  rewrite Hx. unfold selectWhere. change (w_db (w <| w_locks := ls |>)) with (w_db w).
  rewrite (live_count k) by apply (eph_rows _ _ Hw).
  unfold hasRoom in HK. change (w_now (w <| w_locks := ls |>)) with (w_now w).
  destruct (bool_decide_reflect (MAX_LIVE_ENTRIES_PER_ORG <= Z.of_nat (liveCount org (w_now w) (entries w)))%Z).
  - rewrite bool_decide_eq_false_2 in HK by lia. exact HK.
  - rewrite bool_decide_eq_true_2 in HK by lia. exact HK.
Qed.

Lemma head_key rows org ns key r : head (List.filter (visible org (rowMatch ns key)) rows) = Some r ->
  r ∈ rows /\ entryKey r = (org, ns, key).
Proof. by intros [Em%match_key Hr]%head_elem_of%elem_of_lfilter. Qed.
Lemma head_none rows org ns key : head (List.filter (visible org (rowMatch ns key)) rows) = None ->
  (org, ns, key) ∉ map entryKey rows.
Proof.
  intros Hh (r & Er & Hr)%Prelude.elem_of_map. symmetry in Er. apply match_key in Er.
  assert (Hin : r ∈ List.filter (visible org (rowMatch ns key)) rows) by (by apply elem_of_lfilter).
  destruct (List.filter _ _); [by apply not_elem_of_nil in Hin|done].
Qed.

Definition setRow (ct : string) (kv : Z) (exp now : Date) (r : EphemeralRow) : EphemeralRow :=
  r <| es_valueCiphertext := ct |> <| es_encryptionKeyVersion := kv |> <| es_expiresAt := exp |> <| es_updatedAt := now |>.

(** An UPDATE of one row. *)
Lemma EphOk_update w p r0 ct kv exp now v : EphOk k w -> storedText k ct = Ok v -> r0 ∈ db_ephemeral (w_db w) ->
  (forall r, r ∈ db_ephemeral (w_db w) -> p r = true <-> r = r0) ->
  let w' := w <| w_db ::= fun db => db <| db_ephemeral ::= map_where p (setRow ct kv exp now) |> |> in
  EphOk k w' /\ entries w' = <[entryKey r0 := (v, exp)]> (entries w).
Proof.
  intros [] Hv Hr0 Hp. cbv zeta.
  destruct (RowsOk_update k (db_ephemeral (w_db w)) p (setRow ct kv exp now) r0 v exp) as [Hok Hview]; try done.
  split; [|exact Hview]. constructor; try done. intros n Hn. cbn.
  change (randomUuid n ∉ map es_id (map_where p (setRow ct kv exp now) (db_ephemeral (w_db w)))).
  rewrite map_where_proj by done. by apply eph_fresh0.
Qed.

Lemma EphOk_delete w p i : EphOk k w ->
  (forall r, r ∈ db_ephemeral (w_db w) -> p r = true <-> entryKey r = i) ->
  let w' := w <| w_db ::= fun db => db <| db_ephemeral ::= List.filter (fun r => negb (p r)) |> |> in
  EphOk k w' /\ entries w' = delete i (entries w).
Proof.
  intros [] Hp. cbv zeta. destruct (RowsOk_delete k (db_ephemeral (w_db w)) p i) as [Hok Hview]; try done.
  split; [|exact Hview]. constructor; try done. intros n Hn (r & Er & [_ Hr]%elem_of_lfilter)%Prelude.elem_of_map.
  apply (eph_fresh0 n Hn), Prelude.elem_of_map. by exists r.
Qed.

Definition guardOf (onlyExpired : bool) : option (Date -> EphemeralRow -> bool) :=
  if onlyExpired then Some (fun now r => (es_expiresAt r <=? now)) else None.

Lemma unchanged_db db (p : EphemeralRow -> bool) f :
  map_where p f (db_ephemeral db) = db_ephemeral db -> db <| db_ephemeral ::= map_where p f |> = db.
Proof. destruct db as [? ? ? ? ? ? ? ? ? ? ? ? ? ? ? ? a]. destruct a. cbn -[map_where]. by intros ->. Qed.

Lemma wp_upsert {A} org ns key ct kv exp onlyExpired v (K : list Uuid -> M A) Q w :
  EphOk k w -> storedText k ct = Ok v ->
  (forall ids w', EphOk k w' -> 
     (if onlyExpired && entryLive (w_now w) (entries w) (org, ns, key)
      then ids = [] /\ entries w' = entries w
      else ids <> [] /\ entries w' = <[(org, ns, key) := (v, exp)]> (entries w)) -> wp (K ids) Q w') ->
  wp (upsertEphemeralStateRow org ns key ct kv exp (guardOf onlyExpired) ≫= K) Q w.
Proof.
  intros Hw Hv HK. apply wp_bind. unfold upsertEphemeralStateRow. apply wp_dbNow, wp_bind_first.
  assert (Hlive : entryLive (w_now w) (entries w) (org, ns, key) = match head (List.filter (visible org (rowMatch ns key))
     (db_ephemeral (w_db w))) with Some r => liveAt (w_now w) r | None => false end).
  { unfold entryLive. rewrite view_head by apply (eph_rows _ _ Hw). by destruct (head _). }
  destruct (head _) as [r|] eqn:E.
  - apply head_key in E as [Hr Ek]. apply wp_bind_update, wp_ret. rewrite Hlive in HK.
    set (p := fun r => visible org (rowMatch ns key) r && _).
    assert (Hp : forall x, x ∈ db_ephemeral (w_db w) -> p x = true <-> x = r /\ onlyExpired && liveAt (w_now w) r = false).
    { intros x Hx. unfold p. rewrite andb_true_iff, match_key. split.
      - intros [Ex Hg]. assert (x = r) as ->.
        { apply (NoDup_key_inj entryKey (db_ephemeral (w_db w))); [apply (eph_rows _ _ Hw)|done|done|congruence]. }
        split; [done|]. destruct onlyExpired; cbn in *; [|done]. unfold liveAt. bool_simpl. apply bool_decide_eq_false. lia.
      - intros [-> Hg]. split; [done|]. destruct onlyExpired; cbn in *; [|done]. unfold liveAt in Hg. bool_simpl.
        apply bool_decide_eq_true. lia. }
    destruct (onlyExpired && liveAt (w_now w) r) eqn:Eg.
    + assert (Hn : forall x, x ∈ db_ephemeral (w_db w) -> p x = false).
      { intros x Hx. apply not_true_iff_false. by intros [_ ?]%Hp. }
      apply HK; [|split; [by rewrite lfilter_none|]].
      * apply (EphOk_world w); try done. cbn [w_db]. apply (unchanged_db _ p). exact (map_where_none p _ _ Hn).
      * change (view k (map_where p (setRow ct kv exp (w_now w)) (db_ephemeral (w_db w))) = entries w).
        by rewrite map_where_none.
    + destruct (EphOk_update w p r ct kv exp (w_now w) v Hw Hv Hr) as [Hok Hview].
      { intros x Hx. rewrite Hp by done. naive_solver. }
      rewrite Ek in Hview. apply HK; [exact Hok|]. split; [|exact Hview].
      assert (Hin : r ∈ List.filter p (db_ephemeral (w_db w))) by (apply elem_of_lfilter; split; [by apply Hp|done]).
      by destruct (List.filter p _); [by apply not_elem_of_nil in Hin|].
  - rewrite Hlive, andb_false_r in HK. apply head_none in E. apply wp_genRandomUuid.
    assert (Hfresh : randomUuid (w_tick w) ∉ map es_id (db_ephemeral (w_db w))) by (by apply (eph_fresh _ _ Hw)).
    set (row := MkEphemeralRow _ _ _ _ _ _ _ _).
    assert (Hno : forall x, x ∈ db_ephemeral (w_db w) -> ephemeralConflict row x = false).
    { intros x Hx. unfold ephemeralConflict, row. cbn. apply orb_false_iff. split.
      - apply bool_decide_eq_false. intros Eq. apply Hfresh, Prelude.elem_of_map. by exists x.
      - apply not_true_iff_false. intros Ht. apply E, Prelude.elem_of_map. exists x. split; [|done].
        unfold entryKey. bool_simpl. congruence. }
    eapply wp_bind_eq; [by apply insertRow_ok|]. apply wp_ret.
    destruct (RowsOk_append k (db_ephemeral (w_db w)) row v) as [Hok Hview]; [apply (eph_rows _ _ Hw)|done|done|done|].
    apply HK; [|split; [done|exact Hview]]. constructor; try apply Hw; [exact Hok|].
    intros n Hn. cbn in Hn. change (randomUuid n ∉ map es_id (db_ephemeral (w_db w) ++ [row])). rewrite map_app.
    intros [Hin|Hin%list_elem_of_singleton]%elem_of_app; [eapply (eph_fresh _ _ Hw n); [lia|done]|].
    apply HU in Hin. lia.
Qed.

Definition matches (now : Date) (m : Entries) (i : EntryKey) (expected : string) : bool :=
  entryLive now m i && ((fst <$> m !! i) =? Some expected).

Lemma wp_load {A} org ns key expected (K : option Uuid -> M A) Q w : EphOk k w ->
  (forall w', EphOk k w' -> w_db w' = w_db w ->
   if matches (clock (w_tick w)) (entries w) (org, ns, key) expected
   then forall r, r ∈ db_ephemeral (w_db w) -> entryKey r = (org, ns, key) -> wp (K (Some (es_id r))) Q w'
   else wp (K None) Q w') ->
  wp (loadMatchingLiveRowForUpdate org ns key expected ≫= K) Q w.
Proof.
  intros Hw HK. apply wp_bind. unfold loadMatchingLiveRowForUpdate. apply wp_bind_first.
  unfold matches, entryLive in HK. rewrite view_head in HK by apply (eph_rows _ _ Hw).
  destruct (head _) as [r|] eqn:E; [|by apply wp_ret, HK].
  apply head_key in E as [Hr Ek]. cbn in HK. apply wp_newDate.
  assert (Hw1 : EphOk k (w <| w_tick ::= S |>)) by (apply (EphOk_world w); try done; cbn; lia).
  destruct (bool_decide_reflect (es_expiresAt r <= clock (w_tick w))%Z) as [He|He].
  { apply wp_ret. specialize (HK _ Hw1 eq_refl). rewrite bool_decide_eq_false_2 in HK by lia. exact HK. }
  rewrite bool_decide_eq_true_2 in HK by lia. cbn [andb] in HK.
  destruct (proj2 (proj2 (eph_rows _ _ Hw)) r Hr) as [v Hv].
  eapply wp_bind_eq; [by apply decrypt_run|]. unfold textOf in HK. rewrite Hv in HK.
  destruct (bool_decide_reflect (v = expected)) as [->|Hne]; cbn [negb].
  - apply wp_ret. specialize (HK _ Hw1 eq_refl). rewrite bool_decide_eq_true_2 in HK by done. by apply HK.
  - apply wp_ret. specialize (HK _ Hw1 eq_refl). rewrite bool_decide_eq_false_2 in HK by congruence. exact HK.
Qed.

(** The checks before the transaction. *)
Lemma wp_checks {A} context key value ttl (K : Uuid -> M A) Q w :
  match specChecks key value ttl context with
  | Ok org => wp (K org) Q w
  | Throw e => Q (Throw e) w
  end ->
  wp (_ ← validateKeySize key; _ ← validateValueSize value; _ ← validateTtl ttl; org ← requireOrgId context; K org) Q w.
Proof.
  unfold specChecks, validateKeySize, validateValueSize, validateTtl, requireOrgId. intros HQ.
  destruct (MAX_KEY_LENGTH <? _); [exact HQ|]. destruct (Nat.ltb MAX_VALUE_BYTES _); [exact HQ|].
  destruct (negb _); [exact HQ|]. by destruct context.
Qed.

Lemma wp_guarded {A} (m : M A) (Q : Outcome A -> World -> Prop) w :
  wp m (fun o w' => match o with
        | Ok a => Q (Ok a) w'
        | Throw e => Q (Throw (if isKnownEphemeralStateError e then e else EphemeralStateStoreUnavailableError)) w' end) w ->
  wp (withFailClosedLogging m) Q w.
Proof.
  intros Hm. apply wp_catch. eapply wp_mono; [exact Hm|]. intros [a|e] w'; [done|]. by destruct (isKnownEphemeralStateError e).
Qed.

Definition implements (manifestName : string) (context : option Uuid) (op : EphemeralOp) (w : World) : Prop :=
  wp (runEphemeral manifestName context op)
    (fun o w' => (o, entries w') = specOp context (extensionNamespaceFor manifestName) (timesOf op (w_tick w)) op (entries w)
                 /\ EphOk k w') w.

Lemma EphOk_tx w : EphOk k w -> EphOk k (w <| w_tick ::= S |> <| w_now := clock (w_tick w) |>).
Proof. intros Hw. apply (EphOk_world w); try done. cbn. lia. Qed.
Lemma EphOk_tick w : EphOk k w -> EphOk k (w <| w_tick ::= S |>).
Proof. intros Hw. apply (EphOk_world w); try done. cbn. lia. Qed.
Lemma EphOk_locks w ls : EphOk k w -> EphOk k (w <| w_locks := ls |>).
Proof. intros Hw. by apply (EphOk_world w). Qed.
Lemma EphOk_rollback w w' : EphOk k w -> EphOk k w' -> w_tick w <= w_tick w' -> EphOk k (w' <| w_db := w_db w |>).
Proof. intros Hw Hw' Ht. apply (EphOk_world w); try apply Hw; try done; cbn; rewrite ?(eph_primary _ _ Hw), ?(eph_active _ _ Hw), ?(eph_alone _ _ Hw); apply Hw'. Qed.

Context (manifestName : string) (context : option Uuid).
Notation ns := (extensionNamespaceFor manifestName).

Lemma set_implements key value ttl w : EphOk k w -> implements manifestName context (eo_set key value ttl) w.
Proof.
  intros Hw. unfold implements. cbn [runEphemeral specOp timesOf t_db t_call]. apply wp_bind. unfold ephemeralSet.
  apply wp_checks. destruct (specChecks _ _ _ _) as [org|e]; [|by split].
  apply wp_guarded, wp_encrypt; [done|]. intros e He. apply wp_newDate, wp_withOrg.
  apply EphOk_tick in Hw as Hw1. apply EphOk_tick in Hw1 as Hw2. apply EphOk_tx in Hw2 as Hw3.
  apply wp_ensure; [done|]. intros ls.
  match type of Hw3 with EphOk k ?x => set (w3 := x) in * end.
  change (w_now w3) with (clock (2 + w_tick w)). change (w_db w3) with (w_db w).
  destruct (_ || _).
  - eapply wp_bind_eq; [reflexivity|]. apply (wp_upsert org ns key _ _ _ false value); [by apply EphOk_locks|done|].
    intros ids w4 Hw4 [_ Hent]. cbn [wp]. apply wp_ret, wp_ret. by rewrite Hent.
  - cbn [isKnownEphemeralStateError]. split; [done|]. apply (EphOk_rollback _ _ Hw2); [by apply EphOk_locks|cbn; lia].
Qed.

Lemma filter_and (p q : EphemeralRow -> bool) l :
  List.filter (fun r => p r && q r) l = List.filter q (List.filter p l).
Proof.
  induction l as [|r l IH]; [done|]. cbn [List.filter]. destruct (p r); cbn; [|exact IH]. destruct (q r); by rewrite IH.
Qed.

Lemma get_implements key w : EphOk k w -> implements manifestName context (eo_get key) w.
Proof.
  intros Hw. unfold implements. cbn [runEphemeral specOp timesOf t_db]. apply wp_bind. unfold ephemeralGet.
  destruct context as [org|]; [|by split]. eapply wp_bind_eq; [reflexivity|]. apply wp_guarded, wp_withOrg.
  apply EphOk_tx in Hw as Hw1. apply wp_dbNow, wp_bind_first.
  match type of Hw1 with EphOk k ?x => set (w1 := x) in * end.
  change (w_now w1) with (clock (w_tick w)). change (w_db w1) with (w_db w).
  unfold entryLive. rewrite !view_head by apply (eph_rows _ _ Hw).
  assert (Hf : List.filter (visible org (fun r => rowMatch ns key r && liveAt (clock (w_tick w)) r)) (db_ephemeral (w_db w)) =
    List.filter (liveAt (clock (w_tick w))) (List.filter (visible org (rowMatch ns key)) (db_ephemeral (w_db w)))).
  { rewrite <- filter_and. apply lfilter_ext. intros r _. apply andb_assoc. }
  rewrite Hf. clear Hf. pose proof (head_key (db_ephemeral (w_db w)) org ns key) as Hh.
  assert (Hone : forall r l, List.filter (visible org (rowMatch ns key)) (db_ephemeral (w_db w)) = r :: l -> l = []).
  { intros r [|r' l] E; [done|]. exfalso.
    assert (Hnd : NoDup (map entryKey (r :: r' :: l))).
    { rewrite <- E. eapply sublist_NoDup; [apply (eph_rows _ _ Hw)|]. apply fmap_sublist.
      clear. induction (db_ephemeral (w_db w)) as [|x l IH]; cbn; [constructor|]. destruct (visible _ _ _); by constructor. }
    assert (Hk : forall x, x ∈ r :: r' :: l -> entryKey x = (org, ns, key)).
    { intros x Hx. rewrite <- E in Hx. apply elem_of_lfilter in Hx as [Hx _]. by apply match_key. }
    apply NoDup_cons in Hnd as [Hn _]. apply Hn. apply elem_of_cons. left. rewrite !Hk; [done|right; left|left]. }
  destruct (List.filter (visible _ _) _) as [|r l]; [by apply wp_ret|]. rewrite (Hone r l eq_refl).
  destruct (Hh r eq_refl) as [Hr _]. cbn [List.filter head]. unfold liveAt. cbn [option_fmap fmap].
  destruct (_ <? _) eqn:El; cbn [head]; [|apply wp_ret; split; [cbn; by rewrite El|done]].
  destruct (proj2 (proj2 (eph_rows _ _ Hw)) r Hr) as [v Hv].
  eapply wp_bind_eq; [by apply decrypt_run|]. apply wp_ret. split; [|done]. cbn. unfold textOf. by rewrite El, Hv.
Qed.

Lemma delete_implements key w : EphOk k w -> implements manifestName context (eo_delete key) w.
Proof.
  intros Hw. unfold implements. cbn [runEphemeral specOp timesOf]. apply wp_bind. unfold ephemeralDelete.
  destruct context as [org|]; [|by split]. eapply wp_bind_eq; [reflexivity|]. apply wp_guarded, wp_withOrg.
  apply EphOk_tx in Hw as Hw1.
  destruct (EphOk_delete _ (visible org (rowMatch ns key)) (org, ns, key) Hw1) as [Hok Hview].
  { intros r _. apply match_key. }
  split; [|exact Hok]. f_equal. exact Hview.
Qed.

Lemma byId_key w r org key : EphOk k w -> r ∈ db_ephemeral (w_db w) -> entryKey r = (org, ns, key) ->
  forall x, x ∈ db_ephemeral (w_db w) -> visible org (fun y => es_id y =? es_id r) x = true <-> x = r.
Proof.
  intros Hw Hr Ek x Hx. unfold visible. rewrite andb_true_iff, !bool_decide_eq_true. split.
  - intros [_ Ei]. by apply (NoDup_key_inj es_id (db_ephemeral (w_db w))); [apply (eph_rows _ _ Hw)|..].
  - intros ->. split; [|done]. unfold entryKey in Ek. congruence.
Qed.

Lemma swap_implements key expected value ttl w :
  EphOk k w -> implements manifestName context (eo_compareAndSwap key expected value ttl) w.
Proof.
  intros Hw. unfold implements. cbn [runEphemeral timesOf]. apply wp_bind. unfold ephemeralCompareAndSwap.
  apply wp_checks. destruct (specChecks key value ttl context) as [org|e] eqn:Ec.
  2: { split; [|done]. cbn [specOp]. rewrite Ec. by destruct expected. }
  apply wp_guarded, wp_encrypt; [done|]. intros e He. apply wp_newDate, wp_withOrg.
  apply EphOk_tick in Hw as Hw1. apply EphOk_tick in Hw1 as Hw2. apply EphOk_tx in Hw2 as Hw3.
  match type of Hw3 with EphOk k ?x => set (w3 := x) in * end.
  destruct expected as [expected|]; cbn [specOp t_db t_app t_call]; rewrite Ec.
  - apply wp_load; [done|]. intros w4 Hw4 E4. change (w_db w3) with (w_db w). change (w_tick w3) with (3 + w_tick w).
    unfold matches. change (w_db w3) with (w_db w) in E4. destruct (_ && _) eqn:Em.
    + intros r Hr Ek. rewrite <- E4 in Hr. eapply wp_bind_eq; [reflexivity|]. apply wp_dbNow.
      apply wp_bind_update, wp_ret, wp_ret.
      destruct (EphOk_update w4 (visible org (fun y => es_id y =? es_id r)) r (serializeEncryptedValue e)
        (match head (List.filter (fun _ => true) (db_vaultState (w_db w4))) with Some v => vs_keyVersion v | None => 1%Z end)
        (expiryFrom (clock (1 + w_tick w)) ttl) (w_now w4) value Hw4 He Hr) as [Hok Hview].
      { by eapply byId_key. }
      split; [|exact Hok]. f_equal. rewrite Ek in Hview. etransitivity; [exact Hview|]. by rewrite E4.
    + apply wp_ret, wp_ret. split; [|done]. by rewrite E4.
  - apply wp_ensure; [done|]. intros ls. change (w_now w3) with (clock (2 + w_tick w)). change (w_db w3) with (w_db w).
    destruct (entryLive (clock (2 + w_tick w)) (entries w) (org, ns, key)) eqn:El; cbn [orb].
    + eapply wp_bind_eq; [reflexivity|]. apply (wp_upsert org ns key _ _ _ true value); [by apply EphOk_locks|exact He|].
      change (w_now (w3 <| w_locks := ls |>)) with (clock (2 + w_tick w)).
      change (w_db (w3 <| w_locks := ls |>)) with (w_db w). rewrite El. cbn [andb].
      intros ids w4 Hw4 [-> Hent]. apply wp_ret, wp_ret. by rewrite Hent.
    + destruct (hasRoom _ _ _).
      * eapply wp_bind_eq; [reflexivity|]. apply (wp_upsert org ns key _ _ _ true value); [by apply EphOk_locks|exact He|].
        change (w_now (w3 <| w_locks := ls |>)) with (clock (2 + w_tick w)).
        change (w_db (w3 <| w_locks := ls |>)) with (w_db w). rewrite El. cbn [andb].
        intros ids w4 Hw4 [Hne Hent]. apply wp_ret, wp_ret. rewrite Hent. by destruct ids.
      * cbn [isKnownEphemeralStateError]. split; [done|]. apply (EphOk_rollback _ _ Hw2); [by apply EphOk_locks|cbn; lia].
Qed.

Lemma compareDelete_implements key expected w :
  EphOk k w -> implements manifestName context (eo_compareAndDelete key expected) w.
Proof.
  intros Hw. unfold implements. cbn [runEphemeral timesOf specOp t_app]. apply wp_bind. unfold ephemeralCompareAndDelete.
  destruct context as [org|]; [|by split]. eapply wp_bind_eq; [reflexivity|]. apply wp_guarded, wp_withOrg.
  apply EphOk_tx in Hw as Hw1. apply wp_load; [done|].
  match type of Hw1 with EphOk k ?x => set (w1 := x) in * end. intros w4 Hw4 E4.
  change (w_db w1) with (w_db w) in E4 |- *. change (w_tick w1) with (1 + w_tick w). unfold matches. destruct (_ && _) eqn:Em.
  - intros r Hr Ek. rewrite <- E4 in Hr. eapply wp_bind_eq; [reflexivity|]. apply wp_ret, wp_ret.
    destruct (EphOk_delete w4 (visible org (fun y => es_id y =? es_id r)) (org, ns, key) Hw4) as [Hok Hview].
    { intros x Hx. rewrite byId_key by done. rewrite <- Ek. split; [by intros ->|].
      intros E. by apply (NoDup_key_inj entryKey (db_ephemeral (w_db w4))); [apply (eph_rows _ _ Hw4)|..]. }
    split; [|exact Hok]. f_equal. etransitivity; [exact Hview|]. by rewrite E4.
  - apply wp_ret, wp_ret. split; [|done]. by rewrite E4.
Qed.

Lemma ephemeral_implements op w : EphOk k w -> implements manifestName context op w.
Proof.
  destruct op; [apply set_implements|apply get_implements|apply delete_implements|apply swap_implements
    |apply compareDelete_implements].
Qed.
End methods.

(** ** The cap *)

Section cap.
Implicit Types m : Entries.

Lemma liveCount_later org t t' m : (t <= t')%Z -> liveCount org t' m <= liveCount org t m.
Proof.
  intros Ht. unfold liveCount. apply map_subseteq_size. apply map_filter_subseteq_ext.
  intros i x Hx. unfold liveOf. intros [Ho Hl]. split; [done|]. lia.
Qed.
Lemma liveCount_delete org t i m : liveCount org t (delete i m) <= liveCount org t m.
Proof. unfold liveCount. apply map_subseteq_size. apply map_filter_subseteq_mono, delete_subseteq. Qed.
Lemma liveCount_insert org t i x m : liveCount org t (<[i := x]> m) <= S (liveCount org t m).
Proof.
  unfold liveCount. rewrite map_filter_insert. case_decide.
  - rewrite map_size_insert. destruct (filter _ m !! i); unfold id; lia.
  - etransitivity; [apply map_subseteq_size, map_filter_subseteq_mono, delete_subseteq|]. lia.
Qed.
Lemma liveCount_other org t i x m : i.1.1 <> org -> liveCount org t (<[i := x]> m) <= liveCount org t m.
Proof.
  intros Ho. unfold liveCount. rewrite map_filter_insert_False by (by intros []).
  apply map_subseteq_size, map_filter_subseteq_mono, delete_subseteq.
Qed.
Lemma liveCount_overwrite org t i x m : entryLive t m i = true ->
  liveCount org t (<[i := x]> m) <= liveCount org t m.
Proof.
  intros Hl. destruct (decide (i.1.1 = org)) as [Ho|Ho]; [|by apply liveCount_other].
  unfold entryLive in Hl. destruct (m !! i) as [[v e]|] eqn:E; [|done]. bool_simpl.
  unfold liveCount. rewrite map_filter_insert. case_decide.
  - rewrite map_size_insert.
    assert (filter (liveOf org t) m !! i = Some (v, e)) as -> by (by apply map_lookup_filter_Some). done.
  - apply map_subseteq_size, map_filter_subseteq_mono, delete_subseteq.
Qed.
End cap.

Lemma specOp_cap `{NumberText} context ns t op m org :
  (t_db t <= t_app t)%Z -> (Z.of_nat (liveCount org (t_db t) m) <= MAX_LIVE_ENTRIES_PER_ORG)%Z ->
  (Z.of_nat (liveCount org (t_db t) (snd (specOp context ns t op m))) <= MAX_LIVE_ENTRIES_PER_ORG)%Z.
Proof.
  intros Ht Hm.
  assert (Hover : forall o key x, entryLive (t_app t) m (o, ns, key) = true ->
    (Z.of_nat (liveCount org (t_db t) (<[(o, ns, key) := x]> m)) <= MAX_LIVE_ENTRIES_PER_ORG)%Z).
  { intros o key x Hl. pose proof (liveCount_overwrite org (t_db t) (o, ns, key) x m) as Hc. revert Hc Hl. unfold entryLive.
    destruct (m !! _) as [[? e]|]; [|done]. intros Hc Hl. bool_simpl. rewrite bool_decide_eq_true_2 in Hc by lia.
    specialize (Hc eq_refl). lia. }
  assert (Hnew : forall o key x, entryLive (t_db t) m (o, ns, key) || hasRoom o (t_db t) m = true ->
    (Z.of_nat (liveCount org (t_db t) (<[(o, ns, key) := x]> m)) <= MAX_LIVE_ENTRIES_PER_ORG)%Z).
  { intros o key x [Hl|Hr]%orb_true_iff.
    - pose proof (liveCount_overwrite org _ _ x _ Hl). lia.
    - unfold hasRoom in Hr. bool_simpl. destruct (decide (o = org)) as [->|Ho].
      + pose proof (liveCount_insert org (t_db t) (org, ns, key) x m). lia.
      + pose proof (liveCount_other org (t_db t) (o, ns, key) x m Ho). lia. }
  assert (Hdel : forall i, (Z.of_nat (liveCount org (t_db t) (delete i m)) <= MAX_LIVE_ENTRIES_PER_ORG)%Z).
  { intros i. pose proof (liveCount_delete org (t_db t) i m). lia. }
  destruct op as [key value ttl|key|key|key [expected|] value ttl|key expected]; cbn [specOp].
  - destruct (specChecks _ _ _ _); [|done]. destruct (_ || _) eqn:E; [by apply Hnew|done].
  - by destruct context.
  - destruct context; [apply Hdel|done].
  - destruct (specChecks _ _ _ _); [|done]. destruct (entryLive _ _ _) eqn:E; cbn [andb]; [|done].
    destruct (_ =? _); [by apply Hover|done].
  - destruct (specChecks _ _ _ _); [|done]. destruct (entryLive _ _ _) eqn:E; [done|].
    destruct (hasRoom _ _ _) eqn:Er; [|done]. apply Hnew. by rewrite E, Er.
  - destruct context; [|done]. destruct (_ && _); [apply Hdel|done].
Qed.

(** ** Exceptions *)

Definition isEphemeralError (e : Exn) : bool := isKnownEphemeralStateError e || (e =? EphemeralStateStoreUnavailableError).

Definition throwsClean {A} (m : M A) : Prop := forall w, wp m (fun o w' => forall e, o = Throw e -> w_db w' = w_db w) w.

Lemma clean_readOnly {A} (m : M A) : readOnly m -> throwsClean m.
Proof. intros Hm w. eapply wp_mono; [apply Hm|]. intros o w' Hs e _. by apply sameDb_db. Qed.
Lemma clean_bind {A B} (m : M A) (K : A -> M B) : readOnly m -> (forall a, throwsClean (K a)) -> throwsClean (m ≫= K).
Proof.
  intros Hm HK w. apply wp_bind. eapply wp_mono; [apply Hm|]. intros [a|e] w' Hs; [|intros ? _; by apply sameDb_db].
  eapply wp_mono; [apply HK|]. intros o w'' Hc e He. rewrite (Hc e He). by apply sameDb_db.
Qed.
Lemma clean_withOrg `{Platform} {A} (m : M A) : throwsClean (withOrg m).
Proof. intros w. apply wp_withOrg, wp_intro. by intros [a|e] w' _ e' He. Qed.
Lemma clean_guarded {A} (m : M A) : throwsClean m ->
  forall w, wp (withFailClosedLogging m) (fun o w' => forall e, o = Throw e -> isEphemeralError e = true /\ w_db w' = w_db w) w.
Proof.
  intros Hm w. apply wp_catch. eapply wp_mono; [apply Hm|]. intros [a|e] w' Hc; [done|].
  destruct (isKnownEphemeralStateError e) eqn:E; intros e' [= <-]; (split; [|by eapply Hc]).
  - unfold isEphemeralError. by rewrite E.
  - done.
Qed.

(** ** Theorems *)

Section theorems.
Context `{Platform, NodeCryptoLaws, NumberText}.

(** C23: the five methods of the store of an extension implement a map from (organisation, extension, key) to
    values with an expiry: on the rows of an unsealed vault each method returns, or throws, what [specOp] says
    of the map the rows stand for, and leaves the rows of the map [specOp] says: a set replaces, a get does not
    see an expired entry, a compare-and-swap with null writes only where no live entry is, with a value only
    over that value, and a compare-and-delete deletes only that value. *)
Theorem ephemeral_refines (k manifestName : string) (context : option Uuid) (op : EphemeralOp) (w : World)
    (HU : forall i j, randomUuid i = randomUuid j -> i = j)
    (HV : forall n, String.length (randomIv n) = IV_BYTES) (Hw : EphOk k w) :
  let '(o, w') := runEphemeral manifestName context op w in
  (o, view k (db_ephemeral (w_db w'))) =
    specOp context (extensionNamespaceFor manifestName) (timesOf op (w_tick w)) op (view k (db_ephemeral (w_db w)))
  /\ EphOk k w'.
Proof.
  pose proof (ephemeral_implements k HU HV manifestName context op w Hw) as Hi. unfold implements, wp in Hi.
  by destruct (runEphemeral _ _ _ _).
Qed.

(** No call takes an organisation above 1000 live entries: if it has no more when the transaction of the
    call begins, it has no more at that time, or at any later time, after the call, whichever extension and
    whichever organisation call; the clock does not go back during the call. *)
Theorem ephemeral_cap (k manifestName : string) (context : option Uuid) (op : EphemeralOp) (w : World) (org : Uuid) (T : Date)
    (HU : forall i j, randomUuid i = randomUuid j -> i = j)
    (HV : forall n, String.length (randomIv n) = IV_BYTES) (Hw : EphOk k w)
    (Ht : (t_db (timesOf op (w_tick w)) <= t_app (timesOf op (w_tick w)))%Z)
    (Hm : (Z.of_nat (liveCount org (t_db (timesOf op (w_tick w))) (view k (db_ephemeral (w_db w)))) <= MAX_LIVE_ENTRIES_PER_ORG)%Z)
    (HT : (t_db (timesOf op (w_tick w)) <= T)%Z) :
  (Z.of_nat (liveCount org T (view k (db_ephemeral (w_db (snd (runEphemeral manifestName context op w)))))) <= 1000)%Z.
Proof.
  pose proof (ephemeral_implements k HU HV manifestName context op w Hw) as Hi. unfold implements, wp in Hi.
  pose proof (specOp_cap context (extensionNamespaceFor manifestName) _ op _ org Ht Hm) as Hc.
  destruct (runEphemeral _ _ _ _) as [o w']. destruct Hi as [Hi _]. rewrite <- Hi in Hc. cbn [snd] in *.
  pose proof (liveCount_later org _ _ (view k (db_ephemeral (w_db w'))) HT). unfold MAX_LIVE_ENTRIES_PER_ORG in Hc. lia.
Qed.

(** The store fails closed: in every state of the vault and of the database, a method either returns or
    throws one of the four errors of the contract, never a driver's or the vault's own, and then the database
    is as it was; without a bound request context no method returns. *)
Theorem ephemeral_fail_closed (manifestName : string) (context : option Uuid) (op : EphemeralOp) (w : World) :
  let '(o, w') := runEphemeral manifestName context op w in
  match o with
  | Ok _ => context <> None
  | Throw e => isEphemeralError e = true /\ w_db w' = w_db w
  end.
Proof.
  cut (wp (runEphemeral manifestName context op) (fun o w' => (forall a, o = Ok a -> context <> None) /\
      forall e, o = Throw e -> isEphemeralError e = true /\ w_db w' = w_db w) w).
  { unfold wp. destruct (runEphemeral _ _ _ _) as [[a|e] w']; intros [Ha He]; [by eapply Ha|by apply He]. }
  assert (Hg : forall org A (m : M A) (K : A -> EphemeralReply), context = Some org -> throwsClean m ->
    wp (a ← withFailClosedLogging m; mret (K a)) (fun o w' => (forall a, o = Ok a -> context <> None) /\
      forall e, o = Throw e -> isEphemeralError e = true /\ w_db w' = w_db w) w).
  { intros org A m K -> Hm. apply wp_bind. eapply wp_mono; [by apply clean_guarded|]. intros [a|e] w' Hc; [by apply wp_ret|].
    split; [done|]. intros e' [= <-]. by apply Hc. }
  assert (Hc : forall A key value ttl (m : Uuid -> M A) (K : A -> EphemeralReply),
    (forall org, throwsClean (m org)) ->
    wp (a ← (_ ← validateKeySize key; _ ← validateValueSize value; _ ← validateTtl ttl; org ← requireOrgId context;
             withFailClosedLogging (m org)); mret (K a))
      (fun o w' => (forall a, o = Ok a -> context <> None) /\
         forall e, o = Throw e -> isEphemeralError e = true /\ w_db w' = w_db w) w).
  { intros A key value ttl m K Hm. apply wp_bind, wp_checks. destruct (specChecks _ _ _ _) as [org|e] eqn:E.
    - assert (context = Some org) as Ho.
      { unfold specChecks in E. repeat (case_match; try done). congruence. }
      specialize (Hg org A (m org) K Ho (Hm org)). unfold wp, mbind, M_bind in *.
      by destruct (withFailClosedLogging (m org) w) as [[a|e] w'].
    - split; [done|]. intros e' [= <-]. split; [|done]. unfold specChecks in E.
      repeat (case_match; try done); by injection E as <-. }
  destruct op as [key value ttl|key|key|key expected value ttl|key expected]; cbn [runEphemeral].
  - apply Hc. intros org. apply clean_bind; [auto with pv|]. intros e. apply clean_bind; [auto with pv|]. intros now.
    apply clean_withOrg.
  - unfold ephemeralGet. destruct context as [org|]; [|split; [done|]; intros e [= <-]; done]. apply (Hg org); [done|]. apply clean_withOrg.
  - unfold ephemeralDelete. destruct context as [org|]; [|split; [done|]; intros e [= <-]; done].
    apply (Hg org _ _ (fun _ => er_done)); [done|]. apply clean_withOrg.
  - apply Hc. intros org. apply clean_bind; [auto with pv|]. intros e. apply clean_bind; [auto with pv|]. intros now.
    apply clean_withOrg.
  - unfold ephemeralCompareAndDelete. destruct context as [org|]; [|split; [done|]; intros e [= <-]; done]. apply (Hg org); [done|]. apply clean_withOrg.
Qed.
End theorems.

(** A live entry the transaction still sees, [expires_at > now()], is absent for a compare-and-delete whose
    process clock has passed its expiry. *)
Lemma compare_uses_process_clock `{Platform, NodeCryptoLaws, NumberText} k manifestName org key v e w
    (HU : forall i j, randomUuid i = randomUuid j -> i = j)
    (HV : forall n, String.length (randomIv n) = IV_BYTES) (Hw : EphOk k w) :
  let i := (org, extensionNamespaceFor manifestName, key) in
  view k (db_ephemeral (w_db w)) !! i = Some (v, e) -> (clock (w_tick w) < e <= clock (S (w_tick w)))%Z ->
  fst (runEphemeral manifestName (Some org) (eo_get key) w) = Ok (er_value (Some v)) /\
  fst (runEphemeral manifestName (Some org) (eo_compareAndDelete key v) w) = Ok (er_bool false).
Proof.
  intros i Hi He. split.
  - pose proof (get_implements k manifestName (Some org) key w Hw) as Hg. unfold implements, wp in Hg.
    destruct (runEphemeral _ _ _ _) as [o w']. destruct Hg as [Hg _]. cbn [specOp timesOf t_db] in Hg.
    unfold entryLive in Hg. subst i. rewrite Hi in Hg. rewrite bool_decide_eq_true_2 in Hg by lia. by injection Hg.
  - pose proof (compareDelete_implements k manifestName (Some org) key v w Hw) as Hg. unfold implements, wp in Hg.
    destruct (runEphemeral _ _ _ _) as [o w']. destruct Hg as [Hg _]. cbn [specOp timesOf t_app] in Hg.
    unfold entryLive in Hg. subst i. rewrite Hi in Hg. rewrite bool_decide_eq_false_2 in Hg by (cbn; lia). by injection Hg.
Qed.

(** ** Witnesses *)

#[local] Existing Instances toyPlatform toyCrypto toyCrypto_laws.
#[local] Instance toyNumberText : NumberText := fun _ => "n".

Definition emptyStore : World := worldOf emptyDb.
Definition minute : JsNumber := Finite (60 # 1).
Definition setOp : EphemeralOp := eo_set "state" "opened" minute.
Definition swapOp : EphemeralOp := eo_compareAndSwap "state" (Some "opened") "closed" minute.
Definition storeWithEntry : World := Eval vm_compute in snd (runEphemeral "acme" (Some 1%N) setOp emptyStore).
Definition swapResult : Outcome EphemeralReply * World :=
  Eval vm_compute in runEphemeral "acme" (Some 1%N) swapOp storeWithEntry.

Lemma toyUuid_inj i j : randomUuid i = randomUuid j -> i = j.
Proof. cbn. lia. Qed.

Lemma EphOk_empty : EphOk key32 emptyStore.
Proof.
  constructor; try done.
  - split; [apply NoDup_nil_2|]. split; [apply NoDup_nil_2|]. by intros r ?%not_elem_of_nil.
  - intros n _. apply not_elem_of_nil.
Qed.
Lemma EphOk_storeWithEntry : EphOk key32 storeWithEntry.
Proof.
  pose proof (ephemeral_implements key32 toyUuid_inj (fun _ => eq_refl) "acme" (Some 1%N) setOp emptyStore EphOk_empty) as Hi.
  unfold implements, wp in Hi. replace storeWithEntry with (snd (runEphemeral "acme" (Some 1%N) setOp emptyStore)) by reflexivity.
  destruct (runEphemeral _ _ _ _). apply Hi.
Qed.

Lemma ephemeral_refines_witness :
  let '(o, w') := runEphemeral "acme" (Some 1%N) swapOp storeWithEntry in
  o = Ok (er_bool true) /\
  (o, view key32 (db_ephemeral (w_db w'))) =
    specOp (Some 1%N) "ext.acme" (timesOf swapOp (w_tick storeWithEntry)) swapOp (view key32 (db_ephemeral (w_db storeWithEntry))).
Proof.
  pose proof (ephemeral_refines key32 "acme" (Some 1%N) swapOp storeWithEntry toyUuid_inj (fun _ => eq_refl) EphOk_storeWithEntry) as Hr.
  replace (runEphemeral "acme" (Some 1%N) swapOp storeWithEntry) with swapResult in * by reflexivity.
  split; [reflexivity|]. exact (proj1 Hr).
Defined.

Lemma ephemeral_cap_witness :
  (Z.of_nat (liveCount 1 1700000009000 (view key32 (db_ephemeral (w_db
     (snd (runEphemeral "acme" (Some 1%N) (eo_set "other" "x" minute) storeWithEntry)))))) <= 1000)%Z.
Proof.
  refine (ephemeral_cap key32 "acme" (Some 1%N) (eo_set "other" "x" minute) storeWithEntry 1 1700000009000
            toyUuid_inj (fun _ => eq_refl) EphOk_storeWithEntry _ _ _).
  - vm_compute. discriminate.
  - vm_compute. discriminate.
  - vm_compute. discriminate.
Defined.
