(* ===== verification/Sessions.v ===== *)
(** * Sessions of organisations

    modules/auth/session-revoke.ts, session-activity.ts, cli-device-revoke.ts,
    the tokens of tokens.ts, the session functions of service.ts (login session,
    session limit, refresh with rotation and grace, list) and the session checks
    of plugins/authenticate.ts, up to the role of the caller.

    The signature of the access token is the JWT library's: a request presents
    verified claims.  Row-level security is left out: every statement on
    sessions names the session or the organisation. *)

From S2P Require Import Prelude Js Crypto FieldSet AuthStore Store Tx QuotaGate AuditLog.
From Stdlib Require Import Ascii String.
From stdpp Require Import strings.

Local Open Scope string_scope.
Local Open Scope list_scope.
Local Open Scope pv_scope.

Record RequestMeta := MkRequestMeta {
  rm_ipAddress : option string;
  rm_userAgent : option string;
}.
Definition noMeta : RequestMeta := MkRequestMeta None None.

Inductive SessionRevokeScope :=
| scope_single | scope_all_except_current | scope_admin_action | scope_logout | scope_idle_expiry
| scope_deactivation | scope_security | scope_account_recovery | scope_erasure.
#[export] Instance SessionRevokeScope_eq_dec : EqDecision SessionRevokeScope.
Proof. solve_decision. Defined.

Definition scopeText (s : SessionRevokeScope) : string :=
  match s with
  | scope_single => "single"
  | scope_all_except_current => "all_except_current"
  | scope_admin_action => "admin_action"
  | scope_logout => "logout"
  | scope_idle_expiry => "idle_expiry"
  | scope_deactivation => "deactivation"
  | scope_security => "security"
  | scope_account_recovery => "account_recovery"
  | scope_erasure => "erasure"
  end.

(** service.ts: the claims a session's access token is signed with *)
Record AccessClaims := MkAccessClaims {
  ac_sub : Uuid;
  ac_orgId : Uuid;
  ac_jti : Uuid;
  ac_sessionVersion : Z;
}.

Record TokenMaterial := MkTokenMaterial {
  tm_accessClaims : AccessClaims;
  tm_accessMaxAgeSec : Z;
  tm_refreshOpaque : option string;
  tm_refreshMaxAgeSec : Z;
}.

Record LoginResult := MkLoginResult {
  lr_userId : Uuid;
  lr_orgId : Uuid;
  lr_expiresAt : Date;
  lr_tokens : TokenMaterial;
}.

(** The rows with the first occurrence of each key, in order. *)
Fixpoint distinctBy {A} (key : A -> Uuid) (seen : list Uuid) (l : list A) : list A :=
  match l with
  | [] => []
  | x :: l' => if key x ∈? seen then distinctBy key seen l' else x :: distinctBy key (key x :: seen) l'
  end.

(** [t INNER JOIN u ON ... WHERE p] *)
Definition selectJoined {R S} (t : Db -> list R) (u : Db -> list S) (p : R -> S -> bool) : M (list (R * S)) :=
  fun w => (Ok (List.filter (fun rs => p rs.1 rs.2) (list_prod (t (w_db w)) (u (w_db w)))), w).

Section sessions.
Context `{Locale, Platform, NodeCrypto, Env}.

(** ** tokens.ts *)

(** [randomBytes(n).toString('base64url')] *)
Definition generateOpaque : M string := fun w => (Ok (randomOpaque (w_tick w)), w <| w_tick ::= S |>).
Definition generateRefreshToken : M string := generateOpaque.
Definition hashRefreshToken (opaque : string) : string := hmacSha256Hex REFRESH_TOKEN_HMAC_SECRET opaque.

(** audit/actor-token.ts: the oldest identity token of the user *)
Definition tokenLe (a b : IdentityTokenRow) : bool :=
  (uit_createdAt a <? uit_createdAt b) || ((uit_createdAt a =? uit_createdAt b) && bool_decide (uit_id a <= uit_id b)%N).
Definition firstActorTokenIdForUser (userId : Uuid) : M (option Uuid) :=
  row ← selectFirstOrdered db_identityTokens (fun t => uit_userId t =? Some userId) tokenLe;
  mret (uit_id <$> row).

(** ** session-activity.ts *)

Definition evictSessionActivityDebounce (sessionId : Uuid) : M unit := fun w =>
  (Ok tt, w <| w_activity ::= List.filter (fun e => negb (e.1 =? sessionId)) |>).

Definition lastActivityWrite (sessionId : Uuid) : M Date := fun w =>
  (Ok (match List.find (fun e => e.1 =? sessionId) (w_activity w) with Some e => e.2 | None => 0%Z end), w).
Definition setLastActivityWrite (sessionId : Uuid) (now : Date) : M unit := fun w =>
  (Ok tt, w <| w_activity ::= fun m => (sessionId, now) :: List.filter (fun e => negb (e.1 =? sessionId)) m |>).

Definition touchSessionActivity (sessionId orgId : Uuid) : M unit :=
  now ← newDate;
  last ← lastActivityWrite sessionId;
  if (now - last <? SESSION_ACTIVITY_DEBOUNCE_SECONDS * 1000) then mret tt
  else
    _ ← withOrg (updateWhere db_sessions (fun s => ses_id s =? sessionId)
          (fun s => s <| ses_lastActiveAt := now |> <| ses_updatedAt := now |>));
    setLastActivityWrite sessionId now.

Definition lastOrgActivityWrite (key : Uuid * Uuid) : M Date := fun w =>
  (Ok (match List.find (fun e => e.1 =? key) (w_orgActivity w) with Some e => e.2 | None => 0%Z end), w).
Definition setLastOrgActivityWrite (key : Uuid * Uuid) (now : Date) : M unit := fun w =>
  (Ok tt, w <| w_orgActivity ::= fun m => (key, now) :: List.filter (fun e => negb (e.1 =? key)) m |>).

Definition touchOrgMembershipActivity (orgId userId : Uuid) : M unit :=
  now ← newDate;
  last ← lastOrgActivityWrite (orgId, userId);
  if (now - last <? SESSION_ACTIVITY_DEBOUNCE_SECONDS * 1000) then mret tt
  else
    _ ← withOrg (updateWhere db_memberships (fun m => (mem_orgId m =? orgId) && (mem_userId m =? userId))
          (fun m => m <| mem_lastActiveAt := Some now |>));
    setLastOrgActivityWrite (orgId, userId) now.

(** ** The audit entries of sessions *)

(** The members of a payload that are not [undefined]. *)
Definition members (l : list (string * option Json)) : list (string * Json) :=
  omap (fun kv => (fun j => (kv.1, j)) <$> kv.2) l.

Definition SESSION_REVOKED : string := "SESSION_REVOKED".
Definition SESSION_CREATED : string := "SESSION_CREATED".

Definition writeSessionRevokedAudit (orgId : Uuid) (sessionId : option Uuid) (actorUserId targetUserId : Uuid)
    (scope : SessionRevokeScope) (bulk : option bool) (revokedCount : option Z) : M unit :=
  keyVersion ← currentAuditKeyVersion;
  let payload := JObj (members
    [("sessionId", JUuid <$> sessionId); ("scope", Some (JStr (scopeText scope)));
     ("actorUserId", Some (JUuid actorUserId)); ("targetUserId", Some (JUuid targetUserId));
     ("bulk", JBool <$> bulk); ("revokedCount", JInt <$> revokedCount)]) in
  actorTokenId ← firstActorTokenIdForUser actorUserId;
  _ ← assertOrgMayWriteAuditGates orgId SESSION_REVOKED (estimateAuditEntrySizeBytes payload None None None);
  previousHmac ← getPreviousEntryHmac orgId;
  auditKey ← getAuditKey;
  let fields := {| hf_orgId := orgId; hf_actorTokenId := actorTokenId; hf_actorType := "human";
                   hf_eventType := SESSION_REVOKED; hf_resourceId := None; hf_resourceType := None;
                   hf_payload := payload; hf_keyVersion := keyVersion;
                   hf_previousEntryHmac := default GENESIS_SENTINEL previousHmac |} in
  _ ← insertAuditRow fields None previousHmac (computeAuditHmac fields auditKey) noUnsigned;
  mret tt.

(** service.ts: [insertAuditEntry], for a human actor *)
Definition insertAuditEntry (orgId : Uuid) (actorTokenId : option Uuid) (eventType : string)
    (payload : list (string * Json)) (meta : RequestMeta) : M unit :=
  _ ← assertOrgMayWriteAuditGates orgId eventType (estimateAuditEntrySizeBytes (JObj payload) None None None);
  _ ← appendAuditRow orgId actorTokenId "human" eventType None None (JObj payload) None
        (noUnsigned <| un_ipAddress := rm_ipAddress meta |> <| un_userAgent := rm_userAgent meta |>);
  mret tt.

(** ** cli-device-revoke.ts *)

Definition CLI_DEVICE_LOGIN_REVOKED : string := "CLI_DEVICE_LOGIN_REVOKED".

Definition grantAudit (orgId userId : Uuid) (eventType : string) (grantId : Uuid) (meta : RequestMeta) : M unit :=
  actorTokenId ← firstActorTokenIdForUser userId;
  _ ← writeHumanAuditEntry {| af_orgId := orgId; af_actorTokenId := actorTokenId; af_eventType := eventType;
        af_resourceId := None; af_resourceType := None; af_payload := [("grantId", JUuid grantId)];
        af_unsigned := noUnsigned <| un_ipAddress := rm_ipAddress meta |> <| un_userAgent := rm_userAgent meta |> |};
  mret tt.

Definition revokeDeviceGrantsForSessions (sessionIds : list Uuid) (now : Date) : M unit :=
  match sessionIds with
  | [] => mret tt
  | _ :: _ =>
      revoked ← updateWhere db_deviceGrants
        (fun g => match dg_approverSessionId g with Some s => s ∈? sessionIds | None => false end
                  && (dg_status g =? grantApproved) && isNull (dg_consumedAt g))
        (fun g => g <| dg_status := grantRevoked |> <| dg_revokedAt := Some now |>);
      forEachSequential revoked (fun g =>
        match dg_orgId g, dg_userId g with
        | Some orgId, Some userId => grantAudit orgId userId CLI_DEVICE_LOGIN_REVOKED (dg_id g) noMeta
        | _, _ => mret tt
        end)
  end.

(** recovery-codes.ts *)
Definition deletePendingEnrollmentForUser (userId : Uuid) : M unit :=
  deleteWhere db_enrollments (fun e => (mfa_userId e =? userId) && (mfa_status e =? enrollmentPending)).

(** ** session-revoke.ts *)

Definition computeRevokedTokenExpiresAt (accessTokenExp refreshTokenExpiresAt : option Date) (now : Date) : Date :=
  match accessTokenExp with
  | Some d => d
  | None =>
      let accessTtlExpiresAt := (now + JWT_ACCESS_TTL_SECONDS * 1000)%Z in
      match refreshTokenExpiresAt with
      | None => accessTtlExpiresAt
      | Some r => if r <? accessTtlExpiresAt then r else accessTtlExpiresAt
      end
  end.

(** [INSERT INTO revoked_tokens ... ON CONFLICT DO NOTHING] *)
Definition insertRevokedToken (row : RevokedTokenRow) : M unit :=
  catch (_ ← insertRow db_revokedTokens revokedTokenConflict row; mret tt) (fun _ => mret tt).

Record RevokeSessionOptions := MkRevokeSessionOptions {
  ro_actorUserId : option Uuid;
  ro_scope : SessionRevokeScope;
  ro_accessTokenExp : option Date;
  ro_expectedUserId : option Uuid;
  ro_expectedOrgId : option Uuid;
  ro_audit : bool;
}.

Definition sessionDoesNotMatchOptions (session : SessionRow) (options : RevokeSessionOptions) : bool :=
  match ro_expectedUserId options with Some u => negb (ses_userId session =? u) | None => false end
  || match ro_expectedOrgId options with Some o => negb (ses_orgId session =? o) | None => false end.

Definition maybeWriteSessionRevokedAudit (session : SessionRow) (options : RevokeSessionOptions) : M unit :=
  if negb (ro_audit options) then mret tt
  else writeSessionRevokedAudit (ses_orgId session) (Some (ses_id session))
         (default (ses_userId session) (ro_actorUserId options)) (ses_userId session) (ro_scope options) None None.

(** Inside the caller's transaction, or [transaction] around it. *)
Definition revokeSessionById (sessionId : Uuid) (options : RevokeSessionOptions) : M bool :=
  activeRefreshRow ← selectFirst db_refreshTokens (fun t => (rt_sessionId t =? sessionId) && isNull (rt_revokedAt t));
  found ← selectFirst db_sessions (fun s => ses_id s =? sessionId);
  match found with
  | None => mret false
  | Some session =>
      if isNotNull (ses_revokedAt session) then mret false
      else if sessionDoesNotMatchOptions session options then mret false
      else
        revokedAt ← newDate;
        _ ← updateWhere db_sessions (fun s => ses_id s =? sessionId)
              (fun s => s <| ses_revokedAt := Some revokedAt |>
                          <| ses_sessionVersion := (ses_sessionVersion session + 1)%Z |> <| ses_updatedAt := revokedAt |>);
        _ ← updateWhere db_refreshTokens (fun t => (rt_sessionId t =? sessionId) && isNull (rt_revokedAt t))
              (fun t => t <| rt_revokedAt := Some revokedAt |>);
        _ ← insertRevokedToken {| rvt_jti := ses_jti session; rvt_userId := ses_userId session;
              rvt_expiresAt := computeRevokedTokenExpiresAt (ro_accessTokenExp options)
                                 (rt_expiresAt <$> activeRefreshRow) revokedAt |};
        _ ← deletePendingEnrollmentForUser (ses_userId session);
        _ ← evictSessionActivityDebounce (ses_id session);
        _ ← maybeWriteSessionRevokedAudit session options;
        now ← newDate;
        _ ← revokeDeviceGrantsForSessions [sessionId] now;
        mret true
  end.

Definition cleanupExpiredSession (sessionId orgId : Uuid) : M unit :=
  _ ← revokeSessionById sessionId (MkRevokeSessionOptions None scope_idle_expiry None None (Some orgId) true);
  mret tt.

Fixpoint revokeTargetSessions (targets : list Uuid) (options : RevokeSessionOptions) : M Z :=
  match targets with
  | [] => mret 0%Z
  | sessionId :: rest =>
      revoked ← revokeSessionById sessionId options;
      n ← revokeTargetSessions rest options;
      mret ((if revoked : bool then 1 else 0) + n)%Z
  end.

Definition selectRevocableUserSessionsInOrg (userId orgId : Uuid) (extraPredicate : SessionRow -> bool) : M (list Uuid) :=
  rows ← selectWhere db_sessions (fun s => (ses_userId s =? userId) && (ses_orgId s =? orgId)
                                            && isNull (ses_revokedAt s) && extraPredicate s);
  mret (map ses_id rows).

Definition revokeAllUserSessionsInOrg (userId orgId actorUserId : Uuid) (reason : SessionRevokeScope) : M Z :=
  targets ← selectRevocableUserSessionsInOrg userId orgId (fun _ => true);
  revokeTargetSessions targets
    (MkRevokeSessionOptions (Some actorUserId) reason None (Some userId) (Some orgId) true).

Definition revokeAllOtherSessions (userId orgId currentJti actorUserId : Uuid) : M Z :=
  targets ← selectRevocableUserSessionsInOrg userId orgId (fun s => negb (ses_jti s =? currentJti));
  revokedCount ← revokeTargetSessions targets
    (MkRevokeSessionOptions (Some actorUserId) scope_all_except_current None (Some userId) (Some orgId) false);
  _ ← (if (0 <? revokedCount)
       then writeSessionRevokedAudit orgId None actorUserId userId scope_all_except_current (Some true) (Some revokedCount)
       else mret tt);
  mret revokedCount.

Definition ORG_SESSIONS_REVOKED_BY_SERVICE : string := "org.sessions_revoked_by_service".

(** [pg_advisory_xact_lock(hashtext(orgId))]: waits for the transaction that holds it. *)
Definition acquireOrgLock (orgId : Uuid) : M unit := fun w =>
  if (orgId, orgId) ∈? w_locks w then awaitCredentialScopedLockRelease orgId orgId w else (Ok tt, w).

(** The statements on the rows of the revoked sessions, when there are any. *)
Definition bulkRevoke (revokedRows : list SessionRow) (now : Date) : M unit :=
  let sessionIds := map ses_id revokedRows in
  if (0 <? Z.of_nat (length sessionIds)) then
    _ ← updateWhere db_refreshTokens (fun t => (rt_sessionId t ∈? sessionIds) && isNull (rt_revokedAt t))
          (fun t => t <| rt_revokedAt := Some now |>);
    _ ← forEachSequential revokedRows (fun s => insertRevokedToken
          {| rvt_jti := ses_jti s; rvt_userId := ses_userId s;
             rvt_expiresAt := computeRevokedTokenExpiresAt None None now |});
    _ ← forEachSequential revokedRows (fun s => evictSessionActivityDebounce (ses_id s));
    forEachSequential (distinctBy id [] (map ses_userId revokedRows)) deletePendingEnrollmentForUser
  else mret tt.

Definition revokeOrgApiKeys (orgId : Uuid) (now : Date) : M Z :=
  revokedKeys ← updateWhere db_apiKeys (fun k => (ak_orgId k =? orgId) && isNull (ak_revokedAt k))
    (fun k => k <| ak_revokedAt := Some now |>);
  mret (Z.of_nat (length revokedKeys)).

(** The advisory lock of the organisation is held by this transaction until it ends. *)
Definition revokeAllSessionsForOrg (orgId : Uuid) (requestId : string) : M (Z * Z) :=
  _ ← acquireOrgLock orgId;
  now ← newDate;
  revokedRows ← updateWhere db_sessions (fun s => (ses_orgId s =? orgId) && isNull (ses_revokedAt s))
    (fun s => s <| ses_revokedAt := Some now |> <| ses_sessionVersion ::= Z.succ |> <| ses_updatedAt := now |>);
  _ ← revokeDeviceGrantsForSessions (map ses_id revokedRows) now;
  _ ← bulkRevoke revokedRows now;
  apiKeysRevokedCount ← revokeOrgApiKeys orgId now;
  let sessionsRevokedCount := Z.of_nat (length (map ses_id revokedRows)) in
  _ ← writeSystemAuditEntry orgId ORG_SESSIONS_REVOKED_BY_SERVICE None None
        [("sessionsRevokedCount", JInt sessionsRevokedCount); ("apiKeysRevokedCount", JInt apiKeysRevokedCount);
         ("requestId", JStr requestId); ("triggeredBy", JStr "centralizeme")];
  mret (sessionsRevokedCount, apiKeysRevokedCount).

(** ** service.ts: the session of a login *)

Definition REFRESH_MAX_AGE_SECONDS : Z := (REFRESH_TOKEN_TTL_DAYS * 24 * 60 * 60)%Z.

Definition buildTokenMaterial (userId orgId jti : Uuid) (accessTtlSeconds : Z) : M (TokenMaterial * string) :=
  refreshOpaque ← generateRefreshToken;
  mret ({| tm_accessClaims := MkAccessClaims userId orgId jti 1; tm_accessMaxAgeSec := accessTtlSeconds;
           tm_refreshOpaque := Some refreshOpaque; tm_refreshMaxAgeSec := REFRESH_MAX_AGE_SECONDS |}, refreshOpaque).

Definition activeSessionPredicate (userId orgId : Uuid) (idleCutoff : option Date) (now : Date)
    (s : SessionRow) (t : RefreshTokenRow) : bool :=
  (rt_sessionId t =? ses_id s)
  && (ses_userId s =? userId) && (ses_orgId s =? orgId) && (rt_orgId t =? orgId)
  && isNull (ses_revokedAt s) && isNull (rt_revokedAt t) && (now <? rt_expiresAt t)
  && match idleCutoff with Some c => c <? ses_lastActiveAt s | None => true end.

Definition revokeSecurity (userId orgId sessionId : Uuid) : M unit :=
  _ ← revokeSessionById sessionId (MkRevokeSessionOptions (Some userId) scope_security None (Some userId) (Some orgId) true);
  mret tt.

Definition enforceMaxSessionsForUser (userId orgId : Uuid) : M unit :=
  if MAX_SESSIONS_PER_USER =? 0%Z then mret tt
  else
    now ← newDate;
    rows ← selectJoined db_sessions db_refreshTokens (activeSessionPredicate userId orgId None now);
    let ordered := isort (fun a b => ses_lastActiveAt a <=? ses_lastActiveAt b) (map fst rows) in
    let activeSessionIds := map ses_id (distinctBy ses_id [] ordered) in
    let revokeCount := (Z.of_nat (length activeSessionIds) - MAX_SESSIONS_PER_USER + 1)%Z in
    if (revokeCount <=? 0) then mret tt
    else forEachSequential (take (Z.to_nat revokeCount) activeSessionIds) (revokeSecurity userId orgId).

Definition insertSession (userId orgId jti : Uuid) (sessionVersion : Z) (expiresAt : Date) (lastActiveAt : option Date)
    (meta : RequestMeta) : M SessionRow :=
  sid ← genRandomUuid;
  now ← dbNow;
  insertRow db_sessions sessionConflict
    {| ses_id := sid; ses_userId := userId; ses_orgId := orgId; ses_jti := jti; ses_sessionVersion := sessionVersion;
       ses_expiresAt := expiresAt; ses_revokedAt := None; ses_createdAt := now;
       ses_lastActiveAt := default now lastActiveAt; ses_ipAddress := rm_ipAddress meta;
       ses_userAgent := rm_userAgent meta; ses_updatedAt := now |}.

Definition insertRefreshToken (sessionId orgId : Uuid) (tokenHash : string) (expiresAt : Date) : M RefreshTokenRow :=
  tid ← genRandomUuid;
  insertRow db_refreshTokens refreshTokenConflict
    {| rt_id := tid; rt_sessionId := sessionId; rt_orgId := orgId; rt_tokenHash := tokenHash;
       rt_expiresAt := expiresAt; rt_usedAt := None; rt_newSessionId := None; rt_revokedAt := None |}.

Record LoginSessionOptions := MkLoginSessionOptions {
  ls_accessTtlSeconds : option Z;
  ls_issueRefresh : bool;
}.
Definition defaultLogin : LoginSessionOptions := MkLoginSessionOptions None true.

Definition createLoginSessionInTx (userId : Uuid) (identityTokenId : option Uuid) (orgId : Uuid) (meta : RequestMeta)
    (options : LoginSessionOptions) : M LoginResult :=
  _ ← acquireOrgLock orgId;
  _ ← enforceMaxSessionsForUser userId orgId;
  jti ← genRandomUuid;
  let accessTtlSeconds := default JWT_ACCESS_TTL_SECONDS (ls_accessTtlSeconds options) in
  now ← newDate;
  let expiresAt := (now + accessTtlSeconds * 1000)%Z in
  '(tokens, refreshOpaque) ← buildTokenMaterial userId orgId jti accessTtlSeconds;
  session ← insertSession userId orgId jti 1 expiresAt None meta;
  _ ← (if ls_issueRefresh options then
         now' ← newDate;
         _ ← insertRefreshToken (ses_id session) orgId (hashRefreshToken refreshOpaque)
               (now' + tm_refreshMaxAgeSec tokens * 1000)%Z;
         mret tt
       else mret tt);
  _ ← insertAuditEntry orgId identityTokenId SESSION_CREATED [] meta;
  mret {| lr_userId := userId; lr_orgId := orgId; lr_expiresAt := expiresAt;
          lr_tokens := if ls_issueRefresh options then tokens
                       else MkTokenMaterial (tm_accessClaims tokens) (tm_accessMaxAgeSec tokens) None
                              (tm_refreshMaxAgeSec tokens) |}.

(** ** service.ts: refresh *)

Record RefreshResult := MkRefreshResult { rr_expiresAt : Date; rr_tokens : TokenMaterial }.
Inductive RefreshOutcome := idleExpired | refreshed (r : RefreshResult).

Definition revokedRefreshToken : Exn := AppError "refresh_token_revoked" 401.
Definition refreshTokenInvalid : Exn := AppError "refresh_token_invalid" 401.

(** The token and the session it belongs to, both locked. *)
Definition findRefreshRow (tokenHash : string) : M (RefreshTokenRow * SessionRow) :=
  token ← selectFirst db_refreshTokens (fun t => rt_tokenHash t =? tokenHash);
  match token with
  | None => throw refreshTokenInvalid
  | Some token =>
      session ← selectFirst db_sessions (fun s => (ses_id s =? rt_sessionId token) && (ses_orgId s =? rt_orgId token));
      match session with
      | None => throw refreshTokenInvalid
      | Some session => mret (token, session)
      end
  end.

Definition handleGraceRefresh (row : RefreshTokenRow * SessionRow) : M RefreshResult :=
  now ← newDate;
  let withinGrace := (now - default 0%Z (rt_usedAt row.1) <=? REFRESH_GRACE_WINDOW_SECONDS * 1000) in
  match rt_newSessionId row.1 with
  | None => throw revokedRefreshToken
  | Some newSessionId =>
      if negb withinGrace then throw revokedRefreshToken
      else
        now' ← newDate;
        existing ← selectFirst db_sessions
          (fun s => (ses_id s =? newSessionId) && isNull (ses_revokedAt s) && (now' <? ses_expiresAt s));
        match existing with
        | None => throw revokedRefreshToken
        | Some session =>
            now'' ← newDate;
            mret {| rr_expiresAt := (now'' + JWT_ACCESS_TTL_SECONDS * 1000)%Z;
                    rr_tokens := {| tm_accessClaims := MkAccessClaims (ses_userId session) (ses_orgId session)
                                                         (ses_jti session) (ses_sessionVersion session);
                                    tm_accessMaxAgeSec := JWT_ACCESS_TTL_SECONDS; tm_refreshOpaque := None;
                                    tm_refreshMaxAgeSec := REFRESH_MAX_AGE_SECONDS |} |}
        end
  end.

Definition rotateRefreshToken (row : RefreshTokenRow * SessionRow) (meta : RequestMeta) (accessTokenExp : option Date)
    : M RefreshResult :=
  let '(token, session) := row in
  jti ← genRandomUuid;
  now ← newDate;
  let expiresAt := (now + JWT_ACCESS_TTL_SECONDS * 1000)%Z in
  '(tokens, refreshOpaque) ← buildTokenMaterial (ses_userId session) (rt_orgId token) jti JWT_ACCESS_TTL_SECONDS;
  rotatedAt ← newDate;
  newSession ← insertSession (ses_userId session) (rt_orgId token) jti (ses_sessionVersion session) expiresAt
                 (Some rotatedAt) meta;
  _ ← updateWhere db_sessions (fun s => ses_id s =? rt_sessionId token)
        (fun s => s <| ses_revokedAt := Some rotatedAt |>
                    <| ses_sessionVersion := (ses_sessionVersion session + 1)%Z |> <| ses_updatedAt := rotatedAt |>);
  _ ← updateWhere db_refreshTokens
        (fun t => (rt_sessionId t =? rt_sessionId token) && isNull (rt_revokedAt t) && negb (rt_id t =? rt_id token))
        (fun t => t <| rt_revokedAt := Some rotatedAt |>);
  _ ← updateWhere db_refreshTokens (fun t => rt_id t =? rt_id token)
        (fun t => t <| rt_usedAt := Some rotatedAt |> <| rt_newSessionId := Some (ses_id newSession) |>);
  now' ← newDate;
  _ ← insertRefreshToken (ses_id newSession) (rt_orgId token) (hashRefreshToken refreshOpaque)
        (now' + tm_refreshMaxAgeSec tokens * 1000)%Z;
  _ ← insertRevokedToken {| rvt_jti := ses_jti session; rvt_userId := ses_userId session;
        rvt_expiresAt := computeRevokedTokenExpiresAt accessTokenExp (Some (rt_expiresAt token)) rotatedAt |};
  _ ← evictSessionActivityDebounce (rt_sessionId token);
  mret {| rr_expiresAt := expiresAt; rr_tokens := tokens |}.

Definition IDLE_MS : Z := (SESSION_IDLE_TIMEOUT_MINUTES * 60 * 1000)%Z.

(** The body of the transaction: an idle session is revoked, and reported by a value so that it commits. *)
Definition refreshInTx (tokenHash : string) (meta : RequestMeta) (accessTokenExp : option Date) : M RefreshOutcome :=
  row ← findRefreshRow tokenHash;
  if isNotNull (rt_usedAt row.1) then r ← handleGraceRefresh row; mret (refreshed r)
  else if isNotNull (ses_revokedAt row.2) then throw revokedRefreshToken
  else if isNotNull (rt_revokedAt row.1) then throw revokedRefreshToken
  else
    now ← newDate;
    if (rt_expiresAt row.1 <=? now) then throw (AppError "refresh_token_expired" 401)
    else
      revoked ← selectFirst db_revokedTokens (fun t => rvt_jti t =? ses_jti row.2);
      if isNotNull revoked then throw revokedRefreshToken
      else
        now' ← newDate;
        if (IDLE_MS <? now' - ses_lastActiveAt row.2) then
          _ ← cleanupExpiredSession (rt_sessionId row.1) (rt_orgId row.1);
          mret idleExpired
        else r ← rotateRefreshToken row meta accessTokenExp; mret (refreshed r).

Definition refreshSession (refreshOpaque : string) (meta : RequestMeta) (accessTokenExp : option Date) : M RefreshResult :=
  result ← withOrg (refreshInTx (hashRefreshToken refreshOpaque) meta accessTokenExp);
  match result with
  | idleExpired => throw (AppError "session_expired" 401)
  | refreshed r => mret r
  end.

(** workers/prune-revoked-tokens.ts *)
Definition pruneRevokedTokens : M unit :=
  now ← newDate;
  deleteWhere db_revokedTokens (fun t => rvt_expiresAt t <? now).

Record SessionSummary := MkSessionSummary {
  sm_sessionId : Uuid;
  sm_createdAt : Date;
  sm_lastActiveAt : Date;
  sm_ipAddress : option string;
  sm_userAgent : option string;
  sm_isCurrent : bool;
}.

Definition listSessions (userId orgId currentJti : Uuid) : M (list SessionSummary) :=
  t0 ← newDate;
  let idleCutoff := (t0 - IDLE_MS)%Z in
  now ← newDate;
  rows ← selectJoined db_sessions db_refreshTokens (activeSessionPredicate userId orgId (Some idleCutoff) now);
  let ordered := isort (fun a b => ses_lastActiveAt b <=? ses_lastActiveAt a) (map fst rows) in
  mret (map (fun s => MkSessionSummary (ses_id s) (ses_createdAt s) (ses_lastActiveAt s) (ses_ipAddress s)
                        (ses_userAgent s) (ses_jti s =? currentJti)) (distinctBy ses_id [] ordered)).

End sessions.
