(* ===== verification/Shares.v ===== *)
(** * Shares of credentials

    modules/credential-shares/service.ts, the bounded serialization of
    credentials/bounded-share-adapter.ts and lib/audit-or-fail-closed.ts: a
    member shares a secret, or some of its fields, with another member of the
    organisation, by a token of which only the hash is stored.

    The table holds the shares of all organisations; a statement of a
    transaction sees those of its [tenant], which the row-level policy compares
    with [org_id].  An UPDATE waits for a row that another transaction holds
    and evaluates its WHERE on what that transaction committed: [otherCommits]
    applies [w_onWait] before each of them. *)

From S2P Require Import Prelude Js Crypto FieldSet AuthStore Store Tx QuotaGate AuditLog Credentials Sessions.
From Stdlib Require Import Ascii String.
From stdpp Require Import strings.

Local Open Scope string_scope.
Local Open Scope list_scope.
Local Open Scope pv_scope.

(** ** schema.ts *)

Definition SHARE_MAX_TTL_MS : Z := 7 * 24 * 60 * 60 * 1000.
Definition MAX_ATTRIBUTE_KEYS : nat := 50.
Definition DEFAULT_SHARE_LIST_LIMIT : nat := 25.

(** A string that is neither [undefined], [null] nor empty. *)
Definition truthy (s : option string) : option string :=
  match s with Some EmptyString => None | s => s end.

(** ** Who shared *)

Definition effectiveSharerOf (share : ShareRow) : Uuid := default (sh_sharedBy share) (sh_actingUserId share).

Definition extensionVisibleSharedBy (share : ShareRow) : option Uuid :=
  if sh_hostCreated share then sh_actingUserId share else Some (sh_sharedBy share).

(** [COALESCE(acting_user_id, CASE WHEN host_created THEN NULL ELSE shared_by END)] *)
Definition extensionVisibleSharedBySql (share : ShareRow) : option Uuid :=
  match sh_actingUserId share with
  | Some u => Some u
  | None => if sh_hostCreated share then None else Some (sh_sharedBy share)
  end.

Inductive SharerMode := sharerNative | sharerExtension.

Definition sharerPredicate (userId : Uuid) (mode : SharerMode) (share : ShareRow) : bool :=
  match mode with
  | sharerNative => effectiveSharerOf share =? userId
  | sharerExtension => extensionVisibleSharedBySql share =? Some userId
  end.

Definition effectiveAttributeKeysForShare (share : ShareRow) : option (list string) :=
  match sh_attributeKeys share with
  | Some ((_ :: _) as keys) => Some keys
  | _ => (fun k => [k]) <$> truthy (sh_fieldKey share)
  end.

(** [timingSafeEqual(Buffer.from(a, 'hex'), Buffer.from(b, 'hex'))], [false] when the lengths differ *)
Definition constantTimeHexEqual (a b : string) : bool := fromHex a =? fromHex b.

(** ** The rows a transaction sees *)

Definition scoped (tenant : Uuid) (p : ShareRow -> bool) (share : ShareRow) : bool :=
  (sh_orgId share =? tenant) && p share.

Definition otherCommits : M unit := fun w => (Ok tt, w <| w_db ::= w_onWait w |>).

Definition updateShares (tenant : Uuid) (p : ShareRow -> bool) (f : ShareRow -> ShareRow) : M (list ShareRow) :=
  _ ← otherCommits;
  updateWhere db_shares (scoped tenant p) f.

(** ** bounded-share-adapter.ts *)

Record BoundedField := MkBoundedField {
  bf_key : string;
  bf_value : string;
  bf_sensitive : bool;
}.

Inductive SerializeBoundedResult :=
| bounded_not_found
| bounded_value (value : string)
| bounded_fields (fields : list BoundedField).

Inductive ValueFormat := format_scalar | format_fields.

Definition boundedFieldJson (f : BoundedField) : Json :=
  JObj [("key", JStr (bf_key f)); ("value", JStr (bf_value f)); ("sensitive", JBool (bf_sensitive f))].

(** [None] for a result that was not found, which no caller passes. *)
Definition formatBoundedRevealValue (bounded : SerializeBoundedResult) : option (string * ValueFormat) :=
  match bounded with
  | bounded_not_found => None
  | bounded_value value => Some (value, format_scalar)
  | bounded_fields fields => Some (stringify (JArr (map boundedFieldJson fields)), format_fields)
  end.

Definition boundedField (f : Field) : BoundedField := MkBoundedField (fld_key f) (fld_value f) (fld_sensitive f).

Definition filteredFieldsResult (attributeKeysFilter : option (list string)) (fields : list BoundedField)
    : SerializeBoundedResult :=
  match attributeKeysFilter with
  | Some keys => if Nat.ltb (length fields) (length keys) then bounded_not_found else bounded_fields fields
  | None => bounded_fields fields
  end.

Section adapter.
Context `{Platform, NodeCrypto, Unicode}.

Definition loadCredentialProjectId (resourceId : Uuid) : M (option Uuid) :=
  row ← selectFirst db_credentials (fun c => cred_id c =? resourceId);
  mret (cred_projectId <$> row).

Definition attributeKeys (resourceId : Uuid) : M (list string) :=
  versionRow ← selectCurrentVersionMeta resourceId;
  mret (match versionRow with
        | None => []
        | Some v => map fm_key (fieldMetaForResponse (cv_schemaVersion v) (cv_fieldMeta v))
        end).

Definition resourceExists (resourceId : Uuid) : M bool :=
  row ← selectFirst db_credentials (fun c => cred_id c =? resourceId);
  mret (isNotNull row).

Definition isIncluded (attributeKeysFilter : option (list string)) (key : string) (sensitive : bool) : bool :=
  match attributeKeysFilter with
  | Some keys => normalizeFieldKey key ∈? keys
  | None => negb sensitive
  end.

Definition serializeBoundedSingleKey (resourceId projectId : Uuid) (key : string) : M SerializeBoundedResult :=
  revealed ← revealCurrentValue resourceId projectId (Some key);
  mret (match revealed with
        | FoundValue value _ _ _ => bounded_value value
        | FoundFields fields _ _ _ _ => bounded_fields (map boundedField fields)
        | _ => bounded_not_found
        end).

Definition serializeBoundedSingleFieldValue (resourceId : Uuid) (attributeKeysFilter : option (list string))
    (revealedValue : string) (revealedVersionNumber : Z) : M SerializeBoundedResult :=
  versionRow ← selectCurrentVersionMeta resourceId;
  mret (match versionRow with
        | None => bounded_not_found
        | Some v =>
            if negb (cv_versionNumber v =? revealedVersionNumber) then bounded_not_found else
            match fieldMetaForResponse (cv_schemaVersion v) (cv_fieldMeta v) with
            | [] => filteredFieldsResult attributeKeysFilter []
            | meta :: _ =>
                if negb (isIncluded attributeKeysFilter (fm_key meta) (fm_sensitive meta))
                then filteredFieldsResult attributeKeysFilter []
                else
                  match attributeKeysFilter with
                  | Some (_ :: _ :: _) => bounded_not_found
                  | _ => bounded_value revealedValue
                  end
            end
        end).

Definition serializeBoundedFiltered (resourceId projectId : Uuid) (attributeKeysFilter : option (list string))
    : M SerializeBoundedResult :=
  revealed ← revealCurrentValue resourceId projectId None;
  match revealed with
  | FoundFields fields _ _ _ _ =>
      mret (filteredFieldsResult attributeKeysFilter
        (map boundedField
           (List.filter (fun f => isIncluded attributeKeysFilter (fld_key f) (fld_sensitive f)) fields)))
  | FoundValue value versionNumber _ _ =>
      serializeBoundedSingleFieldValue resourceId attributeKeysFilter value versionNumber
  | _ => mret bounded_not_found
  end.

Definition serializeBounded (resourceId : Uuid) (attributeKeysFilter : option (list string))
    : M SerializeBoundedResult :=
  projectId ← loadCredentialProjectId resourceId;
  match projectId with
  | None => mret bounded_not_found
  | Some projectId =>
      match attributeKeysFilter ≫= (fun keys => match keys with [k] => truthy (Some k) | _ => None end) with
      | Some singleKey => serializeBoundedSingleKey resourceId projectId singleKey
      | None => serializeBoundedFiltered resourceId projectId attributeKeysFilter
      end
  end.
End adapter.

(** ** lib/audit-or-fail-closed.ts *)

Definition rethrowAsSameTransactionAuditWriteError {A} (write : M A) : M unit :=
  catch (_ ← write; mret tt) (fun error =>
    match error with
    | SameTransactionAuditWriteError _ => throw error
    | _ => throw (SameTransactionAuditWriteError "audit_write_failed")
    end).

Definition writeSystemAuditEntryOrFailClosed `{Locale, Platform, NodeCrypto, Env} (orgId : Uuid) (eventType : string)
    (resourceId : option Uuid) (resourceType : option string) (payload : list (string * Json)) : M unit :=
  rethrowAsSameTransactionAuditWriteError (writeSystemAuditEntry orgId eventType resourceId resourceType payload).

Definition writeHumanAuditEntryOrFailClosed `{Locale, Platform, NodeCrypto, Env} (orgId actorUserId : Uuid)
    (eventType : string) (resourceId : option Uuid) (resourceType : string) (payload : list (string * Json))
    (meta : RequestMeta) : M unit :=
  rethrowAsSameTransactionAuditWriteError (
    actorTokenId ← firstActorTokenIdForUser actorUserId;
    writeHumanAuditEntry {| af_orgId := orgId; af_actorTokenId := actorTokenId; af_eventType := eventType;
      af_resourceId := resourceId; af_resourceType := Some resourceType; af_payload := payload;
      af_unsigned := MkUnsigned None (rm_ipAddress meta) (rm_userAgent meta) None |}).

(** ** service.ts: creation *)

Definition expiredPayload (share : ShareRow) : list (string * Json) :=
  [("credentialId", JUuid (sh_credentialId share)); ("fieldKey", JOptStr (sh_fieldKey share));
   ("recipientType", JStr (match sh_recipientType share with recipientUser => "user" | recipientExternal => "external" end));
   ("attributeKeys", JOptArr (sh_attributeKeys share))].

Record ShareBase := MkShareBase {
  sb_orgId : Uuid;
  sb_credentialId : Uuid;
  sb_sharedByUserId : Uuid;
  sb_expiresAt : Date;
  sb_hostCreated : bool;
  sb_actingUserId : option Uuid;
}.

(** What the two kinds of recipient add to the columns of [baseShareInsertValues]. *)
Record ShareRecipient := MkShareRecipient {
  rcp_type : RecipientType;
  rcp_userId : option Uuid;
  rcp_email : option string;
  rcp_singleUse : bool;
  rcp_verificationRequired : bool;
}.

Definition baseShareInsertValues (input : ShareBase) (fieldKey : option string) (attributeKeys : option (list string))
    (tokenHash : string) (recipient : ShareRecipient) (id : Uuid) (now : Date) : ShareRow :=
  {| sh_id := id; sh_orgId := sb_orgId input; sh_credentialId := sb_credentialId input; sh_fieldKey := fieldKey;
     sh_attributeKeys := attributeKeys; sh_sharedBy := sb_sharedByUserId input;
     sh_actingUserId := if sb_hostCreated input then sb_actingUserId input else None;
     sh_hostCreated := sb_hostCreated input; sh_recipientType := rcp_type recipient;
     sh_recipientUserId := rcp_userId recipient; sh_recipientEmail := rcp_email recipient; sh_tokenHash := tokenHash;
     sh_singleUse := rcp_singleUse recipient; sh_createdAt := now; sh_expiresAt := sb_expiresAt input;
     sh_revokedAt := None; sh_supersededAt := None; sh_firstViewedAt := None; sh_viewCount := 0;
     sh_status := shareActive; sh_revealAttemptCount := 0;
     sh_verificationRequired := rcp_verificationRequired recipient; sh_verificationCodeHash := None;
     sh_verificationCodeExpiresAt := None; sh_verificationAttemptCount := 0; sh_verificationSendCount := 0;
     sh_verificationSentAt := None; sh_verificationProofHash := None; sh_verifiedAt := None; sh_lockedAt := None |}.

Record CreateShareInput := MkCreateShareInput {
  csi_orgId : Uuid;
  csi_projectId : Uuid;
  csi_credentialId : Uuid;
  csi_sharedByUserId : Uuid;
  csi_recipientUserId : Uuid;
  csi_fieldKey : option string;
  csi_attributeKeys : option (list string);
  csi_expiresAt : Date;
  csi_singleUse : bool;
}.

(** Why a share is not created. *)
Inductive ShareCreationError :=
| sc_credential_not_found
| sc_credential_archived
| sc_self_share
| sc_recipient_not_found
| sc_recipient_inactive
| sc_unknown_field_key (field : string)
| sc_ambiguous_share_scope
| sc_too_many_attribute_keys
| sc_expires_at_past
| sc_expires_at_too_far_in_future
| sc_cap_exceeded.

Inductive CreateShareResult :=
| create_refused (why : ShareCreationError)
| create_ok (share : ShareRow) (token : string).

Section service.
Context `{Locale, Platform, NodeCrypto, Env, Unicode}.

Definition generateShareToken : M string := generateOpaque.

Definition hashShareToken (rawToken : string) : string :=
  hmacSha256Hex INVITATION_TOKEN_HMAC_SECRET ("credential_share:" +:+ rawToken).

Definition generateAndHashShareToken : M (string * string) :=
  rawToken ← generateShareToken;
  mret (rawToken, hashShareToken rawToken).

Definition insertShare (input : ShareBase) (fieldKey : option string) (attributeKeys : option (list string))
    (tokenHash : string) (recipient : ShareRecipient) : M ShareRow :=
  id ← genRandomUuid;
  now ← dbNow;
  insertRow db_shares shareConflict (baseShareInsertValues input fieldKey attributeKeys tokenHash recipient id now).

Definition declaredFieldKeys (credentialId : Uuid) : M (list string) :=
  keys ← attributeKeys credentialId;
  mret (map normalizeFieldKey keys).

(** The field that is not declared, or the normalized key. *)
Definition validateFieldKey (credentialId : Uuid) (fieldKey : option string) : M (string + option string) :=
  match truthy fieldKey with
  | None => mret (inr None)
  | Some fieldKey =>
      declaredKeys ← declaredFieldKeys credentialId;
      let normalized := normalizeFieldKey fieldKey in
      mret (if negb (normalized ∈? declaredKeys) then inl fieldKey else inr (Some normalized))
  end.

(** The distinct normalized keys, up to the first that is not declared. *)
Fixpoint normalizeKeys (declaredKeys seen keys : list string) : string + list string :=
  match keys with
  | [] => inr []
  | key :: keys' =>
      let norm := normalizeFieldKey key in
      if negb (norm ∈? declaredKeys) then inl key
      else if norm ∈? seen then normalizeKeys declaredKeys seen keys'
      else
        match normalizeKeys declaredKeys (norm :: seen) keys' with
        | inl field => inl field
        | inr normalized => inr (norm :: normalized)
        end
  end.

Definition localeLe (a b : string) : bool := match localeCompare a b with Gt => false | _ => true end.

Definition validateAttributeKeys (credentialId : Uuid) (keys : option (list string))
    : M (ShareCreationError + option (list string)) :=
  match keys with
  | None | Some [] => mret (inr None)
  | Some keys =>
      declaredKeys ← declaredFieldKeys credentialId;
      mret (match normalizeKeys declaredKeys [] keys with
            | inl field => inl (sc_unknown_field_key field)
            | inr normalized =>
                if Nat.ltb MAX_ATTRIBUTE_KEYS (length normalized) then inl sc_too_many_attribute_keys
                else inr (Some (isort localeLe normalized))
            end)
  end.

(** The normalized field key and attribute keys. *)
Definition validateShareFieldAndExpiry (credentialId : Uuid) (fieldKey : option string)
    (keys : option (list string)) (expiresAt : Date) (maxTtlMs : Z)
    : M (ShareCreationError + option string * option (list string)) :=
  fieldValidation ← validateFieldKey credentialId fieldKey;
  match fieldValidation with
  | inl field => mret (inl (sc_unknown_field_key field))
  | inr normalizedField =>
      keysValidation ← validateAttributeKeys credentialId keys;
      match keysValidation with
      | inl why => mret (inl why)
      | inr normalizedKeys =>
          if isNotNull (truthy normalizedField) && isNotNull normalizedKeys
          then mret (inl sc_ambiguous_share_scope)
          else
            now ← newDate;
            mret (if (expiresAt <=? now) then inl sc_expires_at_past
                  else if (now + maxTtlMs <? expiresAt) then inl sc_expires_at_too_far_in_future
                  else inr (normalizedField, normalizedKeys))
      end
  end.

Definition findActiveOrgMembership (orgId userId : Uuid) : M (option MembershipStatus) :=
  row ← selectFirst db_memberships (fun m => (mem_orgId m =? orgId) && (mem_userId m =? userId));
  mret (mem_status <$> row).

(** projects/project-lifecycle.ts *)
Definition isProjectDeleted (projectId : Uuid) : M bool :=
  row ← selectFirst db_projects (fun p => (proj_id p =? projectId) && isNotNull (proj_deletedAt p));
  mret (isNotNull row).

Definition preflightCredentialForShareCreation (credentialId projectId : Uuid) : M (option ShareCreationError) :=
  exists_ ← credentialExistsInProject credentialId projectId;
  if negb exists_ then mret (Some sc_credential_not_found) else
  deleted ← isProjectDeleted projectId;
  if (deleted : bool) then mret (Some sc_credential_not_found) else
  archived ← isCredentialArchived credentialId;
  mret (if (archived : bool) then Some sc_credential_archived else None).

Definition createCredentialShare (input : CreateShareInput) : M CreateShareResult :=
  preflight ← preflightCredentialForShareCreation (csi_credentialId input) (csi_projectId input);
  match preflight with
  | Some why => mret (create_refused why)
  | None =>
      if csi_recipientUserId input =? csi_sharedByUserId input then mret (create_refused sc_self_share) else
      membership ← findActiveOrgMembership (csi_orgId input) (csi_recipientUserId input);
      match membership with
      | None => mret (create_refused sc_recipient_not_found)
      | Some deactivated => mret (create_refused sc_recipient_inactive)
      | Some active =>
          validation ← validateShareFieldAndExpiry (csi_credentialId input) (csi_fieldKey input)
                         (csi_attributeKeys input) (csi_expiresAt input) SHARE_MAX_TTL_MS;
          match validation with
          | inl why => mret (create_refused why)
          | inr (normalizedField, normalizedAttributeKeys) =>
              '(rawToken, tokenHash) ← generateAndHashShareToken;
              share ← insertShare
                (MkShareBase (csi_orgId input) (csi_credentialId input) (csi_sharedByUserId input)
                   (csi_expiresAt input) false None)
                normalizedField normalizedAttributeKeys tokenHash
                (MkShareRecipient recipientUser (Some (csi_recipientUserId input)) None (csi_singleUse input) false);
              mret (create_ok share rawToken)
          end
      end
  end.

(** ** service.ts: listing *)

(** What a list of shares is filtered by; [None] leaves the condition out. *)
Record ShareFilter := MkShareFilter {
  sf_credentialId : option Uuid;
  sf_sharedByUserId : option Uuid;
  sf_extensionViewerUserId : option Uuid;
  sf_status : option ShareStatus;
}.

Definition given {A} (o : option A) (p : A -> bool) : bool := match o with Some a => p a | None => true end.

Definition sharesForCredentialWhereClause (orgId : Uuid) (params : ShareFilter) (s : ShareRow) : bool :=
  (sh_orgId s =? orgId)
  && given (sf_credentialId params) (fun c => sh_credentialId s =? c)
  && given (sf_sharedByUserId params) (fun u => sharerPredicate u sharerNative s)
  && given (sf_extensionViewerUserId params) (fun u => sharerPredicate u sharerExtension s)
  && given (sf_status params) (fun st => sh_status s =? st).

(** [ORDER BY created_at DESC] *)
Definition newestFirst (a b : ShareRow) : bool := (sh_createdAt b <=? sh_createdAt a).

Definition listSharesForCredential (orgId : Uuid) (params : ShareFilter) (limit offset : option nat)
    : M (list ShareRow) :=
  rows ← selectOrdered db_shares (scoped orgId (sharesForCredentialWhereClause orgId params)) newestFirst;
  mret (firstn (default DEFAULT_SHARE_LIST_LIMIT limit) (skipn (default 0%nat offset) rows)).

Definition countSharesForCredential (orgId : Uuid) (params : ShareFilter) : M Z :=
  rows ← selectWhere db_shares (scoped orgId (sharesForCredentialWhereClause orgId params));
  mret (Z.of_nat (length rows)).

(** ** service.ts: revocation *)

Definition findShareInScope (orgId credentialId shareId : Uuid) : M (option ShareRow) :=
  selectFirst db_shares (scoped orgId (fun s =>
    (sh_orgId s =? orgId) && (sh_credentialId s =? credentialId) && (sh_id s =? shareId))).

Inductive RevokeShareResult :=
| revoke_not_found
| revoke_ok (share : ShareRow) (alreadyTerminal : bool).

(** [id = ? AND status = 'active'] *)
Definition activeShare (shareId : Uuid) (s : ShareRow) : bool :=
  (sh_id s =? shareId) && (sh_status s =? shareActive).

Definition revokeShare (orgId credentialId shareId : Uuid) : M RevokeShareResult :=
  existing ← findShareInScope orgId credentialId shareId;
  match existing with
  | None => mret revoke_not_found
  | Some existing =>
      if negb (sh_status existing =? shareActive) then mret (revoke_ok existing true) else
      now ← newDate;
      updated ← updateShares orgId (activeShare (sh_id existing))
                  (fun s => s <| sh_status := shareRevoked |> <| sh_revokedAt := Some now |>);
      match head updated with
      | Some updated => mret (revoke_ok updated false)
      | None =>
          current ← findShareInScope orgId credentialId shareId;
          mret (match current with None => revoke_not_found | Some current => revoke_ok current true end)
      end
  end.

Definition autoRevokeSharesForDeactivatedUser (orgId userId : Uuid) : M (list ShareRow) :=
  now ← newDate;
  updateShares orgId (fun s =>
      (sh_orgId s =? orgId) && sharerPredicate userId sharerNative s && (sh_status s =? shareActive))
    (fun s => s <| sh_status := shareRevoked |> <| sh_revokedAt := Some now |>).

(** ** service.ts: the recipient *)

Record ShareMetadata := MkShareMetadata {
  smd_share : ShareRow;
  smd_credentialName : string;
  smd_credentialProjectId : Uuid;
  smd_sharedByEmail : option string;
}.

(** Shares joined with their credentials and, if known, their sharers; the first row. *)
Definition shareWithCredentialAndSharerQuery (tenant : Uuid) (p : ShareRow -> bool) : M (option ShareMetadata) :=
  fun w =>
    (Ok (head (flat_map (fun s : ShareRow =>
           map (fun c : CredentialRow => MkShareMetadata s (cred_name c) (cred_projectId c)
                  (usr_email <$> head (List.filter (fun u : UserRow => usr_id u =? effectiveSharerOf s) (db_users (w_db w)))))
             (List.filter (fun c => cred_id c =? sh_credentialId s) (db_credentials (w_db w))))
         (List.filter (scoped tenant p) (db_shares (w_db w))))), w).

Definition lazilyExpireShareIfDue (tenant : Uuid) (share : ShareRow) : M ShareRow :=
  if negb (sh_status share =? shareActive) then mret share else
  now ← newDate;
  if (now <? sh_expiresAt share) then mret share else
  updated ← updateShares tenant (activeShare (sh_id share)) (fun s => s <| sh_status := shareExpired |>);
  match head updated with
  | None => mret share
  | Some updated =>
      _ ← writeSystemAuditEntryOrFailClosed (sh_orgId updated) "credential.share_expired" (Some (sh_id updated))
            (Some "credential_share") (expiredPayload updated);
      mret updated
  end.

Inductive FindShareByTokenResult :=
| find_not_found
| find_session_mismatch
| find_ok (metadata : ShareMetadata).

Definition findShareByToken (orgId : Uuid) (rawToken : string) (sessionUserId : Uuid) : M FindShareByTokenResult :=
  let tokenHash := hashShareToken rawToken in
  row ← shareWithCredentialAndSharerQuery orgId (fun s => (sh_orgId s =? orgId) && (sh_tokenHash s =? tokenHash));
  match row with
  | None => mret find_not_found
  | Some row =>
      if negb (constantTimeHexEqual (sh_tokenHash (smd_share row)) tokenHash) then mret find_not_found
      else if negb (sh_recipientUserId (smd_share row) =? Some sessionUserId) then mret find_session_mismatch
      else
        share ← lazilyExpireShareIfDue orgId (smd_share row);
        mret (find_ok (MkShareMetadata share (smd_credentialName row) (smd_credentialProjectId row)
                         (smd_sharedByEmail row)))
  end.

Inductive RevealShareResult :=
| reveal_not_found
| reveal_session_mismatch
| reveal_recipient_ineligible
| reveal_expired
| reveal_already_viewed
| reveal_revoked
| reveal_ok (share : ShareRow) (value : string) (valueFormat : ValueFormat) (fieldKey : option string).

Definition buildShareRevealResult (share : ShareRow) (value : string * ValueFormat) (fieldKey : option string)
    : RevealShareResult :=
  reveal_ok share value.1 value.2 fieldKey.

(** The terminal result, if the share cannot be claimed. *)
Definition precheckShareClaimable (orgId sessionUserId : Uuid) (share : ShareRow) : M (option RevealShareResult) :=
  membership ← findActiveOrgMembership orgId sessionUserId;
  if negb (membership =? Some active) then mret (Some reveal_recipient_ineligible)
  else if sh_status share =? shareRevoked then mret (Some reveal_revoked)
  else if (sh_status share =? shareExpired) || (sh_status share =? shareSuperseded) then mret (Some reveal_expired)
  else
    now ← newDate;
    if (sh_expiresAt share <=? now) then
      _ ← lazilyExpireShareIfDue orgId share;
      mret (Some reveal_expired)
    else mret None.

Definition resolveLostClaim (orgId credentialId shareId : Uuid) : M RevealShareResult :=
  current ← findShareInScope orgId credentialId shareId;
  mret (if (sh_status <$> current) =? Some shareRevoked then reveal_revoked
        else if (sh_status <$> current) =? Some shareExpired then reveal_expired
        else reveal_already_viewed).

Definition claimSingleUseView (tenant shareId : Uuid) : M (option ShareRow) :=
  now ← newDate;
  updated ← updateShares tenant (activeShare shareId)
    (fun s => s <| sh_status := shareViewed |> <| sh_viewCount := 1%Z |> <| sh_firstViewedAt := Some now |>);
  mret (head updated).

Definition recordMultiView (tenant shareId : Uuid) : M (option ShareRow) :=
  now ← dbNow;
  updated ← updateShares tenant (activeShare shareId)
    (fun s => s <| sh_viewCount := (sh_viewCount s + 1)%Z |>
                <| sh_firstViewedAt := Some (default now (sh_firstViewedAt s)) |>);
  mret (head updated).

Definition revealShare (orgId : Uuid) (rawToken : string) (sessionUserId : Uuid) : M RevealShareResult :=
  found ← findShareByToken orgId rawToken sessionUserId;
  match found with
  | find_not_found => mret reveal_not_found
  | find_session_mismatch => mret reveal_session_mismatch
  | find_ok metadata =>
      let share := smd_share metadata in
      blocked ← precheckShareClaimable orgId sessionUserId share;
      match blocked with
      | Some blocked => mret blocked
      | None =>
          bounded ← serializeBounded (sh_credentialId share) (effectiveAttributeKeysForShare share);
          match formatBoundedRevealValue bounded with
          | None => mret reveal_expired
          | Some value =>
              claimed ← (if sh_singleUse share then claimSingleUseView orgId (sh_id share)
                         else recordMultiView orgId (sh_id share));
              match claimed with
              | None => resolveLostClaim orgId (sh_credentialId share) (sh_id share)
              | Some claimed => mret (buildShareRevealResult claimed value (sh_fieldKey share))
              end
          end
      end
  end.

(** The handler of [POST /access/:token/reveal]: the view is audited in the transaction of the claim. *)
Definition revealShareRoute (orgId userId : Uuid) (rawToken : string) (meta : RequestMeta) : M RevealShareResult :=
  withOrg (
    result ← revealShare orgId rawToken userId;
    match result with
    | reveal_ok share _ _ _ =>
        _ ← writeHumanAuditEntryOrFailClosed orgId userId "credential.share_viewed" (Some (sh_id share))
              "credential_share"
              [("credentialId", JUuid (sh_credentialId share)); ("fieldKey", JOptStr (sh_fieldKey share));
               ("attributeKeys", JOptArr (sh_attributeKeys share)); ("viewCount", JInt (sh_viewCount share))] meta;
        mret result
    | _ => mret result
    end).

(** ** service.ts: rotations *)

(** [field_key IS NULL OR field_key = ANY(targetFields)] *)
Definition inFieldScope (targetFields : option (list string)) (s : ShareRow) : bool :=
  match targetFields with
  | None => true
  | Some fields => match sh_fieldKey s with None => true | Some k => k ∈? fields end
  end.

Definition isOutstanding (s : ShareRow) : bool := (sh_status s =? shareActive) || (sh_status s =? shareViewed).

Definition supersedeOutstandingSharesForRotation (orgId credentialId : Uuid) (targetFields : option (list string))
    : M (list ShareRow) :=
  now ← newDate;
  updateShares orgId (fun s =>
      (sh_orgId s =? orgId) && (sh_credentialId s =? credentialId) && isOutstanding s && inFieldScope targetFields s)
    (fun s => s <| sh_status := shareSuperseded |> <| sh_supersededAt := Some now |>).

(** rotation/routes.ts: one audit entry for each share, in the transaction of the promotion *)
Definition supersedeOutstandingSharesAndAudit (orgId userId projectId credentialId rotationId : Uuid)
    (targetFields : option (list string)) (meta : RequestMeta) : M unit :=
  superseded ← supersedeOutstandingSharesForRotation orgId credentialId targetFields;
  forEachSequential superseded (fun share =>
    writeHumanAuditEntryOrFailClosed orgId userId "credential.share_superseded" (Some (sh_id share)) "credential_share"
      [("credentialId", JUuid credentialId); ("fieldKey", JOptStr (sh_fieldKey share));
       ("rotationId", JUuid rotationId);
       ("recipientType", JStr (match sh_recipientType share with recipientUser => "user" | recipientExternal => "external" end));
       ("attributeKeys", JOptArr (sh_attributeKeys share))] meta).

(** credentials/archive-guards.ts *)
Definition findBlockingShareIdsForCredential (tenant credentialId : Uuid) : M (list Uuid) :=
  rows ← selectWhere db_shares (scoped tenant (fun s => (sh_credentialId s =? credentialId) && (sh_status s =? shareActive)));
  mret (map sh_id rows).
End service.
