(* ===== verification/Authenticate.v ===== *)
(** * Authentication of a request

    The claims parsers of modules/auth/tokens.ts, modules/machine-users/bearer-token.ts
    and plugins/authenticate.ts.  The JWT library's [verify] is a parameter: it
    returns the members of the payload it verified, or throws.  The numbers of a
    payload are the whole seconds the library signs. *)

From S2P Require Import Prelude Js Crypto FieldSet AuthStore Store Tx QuotaGate AuditLog Frames Sessions.
From Stdlib Require Import Ascii String.
From stdpp Require Import strings.

Local Open Scope string_scope.
Local Open Scope list_scope.
Local Open Scope pv_scope.

Inductive ClaimValue := CStr (s : string) | CNum (n : Z) | COther.
Definition Payload : Type := list (string * ClaimValue).

(** [fastify.jwt.verify]: [None] when it throws, [Some None] for a payload that is not an object. *)
Class JwtLibrary := { jwtVerify : string -> option (option Payload) }.

(** ** tokens.ts *)

Definition claim (k : string) (p : Payload) : option ClaimValue :=
  snd <$> List.find (fun kv => kv.1 =? k) p.
Definition strClaim (k : string) (p : Payload) : option string :=
  match claim k p with Some (CStr s) => Some s | _ => None end.
Definition numClaim (k : string) (p : Payload) : option Z :=
  match claim k p with Some (CNum n) => Some n | _ => None end.

Record CommonClaims := MkCommonClaims {
  cc_sub : string;
  cc_jti : string;
  cc_sessionVersion : Z;
  cc_iat : option Z;
  cc_exp : option Z;
}.
Record AccessTokenClaims := MkAccessTokenClaims { atc_common : CommonClaims; atc_orgId : string }.

Definition parseCommonClaims (payload : option Payload) : option CommonClaims :=
  match payload with
  | None => None
  | Some claims =>
      match strClaim "sub" claims, strClaim "jti" claims, numClaim "sessionVersion" claims with
      | Some sub, Some jti, Some v => Some (MkCommonClaims sub jti v (numClaim "iat" claims) (numClaim "exp" claims))
      | _, _, _ => None
      end
  end.

Definition parseAccessTokenClaims (payload : option Payload) : option AccessTokenClaims :=
  match parseCommonClaims payload, payload with
  | Some common, Some claims =>
      match strClaim "orgId" claims with
      | Some orgId => Some (MkAccessTokenClaims common orgId)
      | None => None
      end
  | _, _ => None
  end.

Definition parseUserAccessClaims (payload : option Payload) : option CommonClaims :=
  match parseCommonClaims payload, payload with
  | Some common, Some claims =>
      if negb (strClaim "scope" claims =? Some "user") || isNotNull (strClaim "orgId" claims) then None
      else Some common
  | _, _ => None
  end.

(** ** bearer-token.ts *)

Definition BEARER_PREFIX : string := "Bearer ".

Definition extractBearerToken `{Unicode} (header : option string) : option string :=
  match header with
  | Some h =>
      if String.prefix BEARER_PREFIX h then
        let token := trim (String.substring (String.length BEARER_PREFIX) (String.length h) h) in
        if token =? "" then None else Some token
      else None
  | None => None
  end.

(** ** authenticate.ts *)

Record AuthContext := MkAuthContext {
  actx_userId : Uuid;
  actx_orgId : Uuid;
  actx_sessionId : Uuid;
  actx_jti : Uuid;
  actx_sessionVersion : Z;
  actx_orgRole : OrgRole;
  actx_isPlatformOperator : bool;
}.

(** The reply of the preHandler: the request goes on, or the error is sent. *)
Inductive AuthReply := authenticated (c : AuthContext) | refusedWith (code : string) (status : Z).

Record RequestToken := MkRequestToken {
  rq_cookie : option string;
  rq_authorization : option string;
}.

Section authenticate.
Context `{Locale, Platform, NodeCrypto, Env, Unicode, JwtLibrary}.

Definition accessTokenInvalid : Exn := AppError "access_token_invalid" 401.
Definition sessionRevoked : Exn := AppError "session_revoked" 401.

Definition assertTemporalClaims (claims : CommonClaims) : M unit :=
  now ← newDate;
  let nowSeconds := (now / 1000)%Z in
  if match cc_exp claims with Some exp => exp <? nowSeconds | None => false end then throw accessTokenInvalid
  else if match cc_iat claims with Some iat => nowSeconds + JWT_MAX_CLOCK_SKEW_SECONDS <? iat | None => false end
  then throw accessTokenInvalid
  else mret tt.

Definition verifyAccessClaims (token : string) : M AccessTokenClaims :=
  match jwtVerify token with
  | None => throw accessTokenInvalid
  | Some verified =>
      match parseAccessTokenClaims verified with
      | None =>
          if isNotNull (parseUserAccessClaims verified) then throw (AppError "org_scope_required" 401)
          else throw accessTokenInvalid
      | Some claims => _ ← assertTemporalClaims (atc_common claims); mret claims
      end
  end.

Definition rejectRevokedToken (jti : string) : M unit :=
  revoked ← selectFirst db_revokedTokens (fun t => uuidText (rvt_jti t) =? jti);
  if isNotNull revoked then throw sessionRevoked else mret tt.

Definition sessionMatchesClaims (session : SessionRow) (claims : AccessTokenClaims) : bool :=
  isNull (ses_revokedAt session)
  && (ses_sessionVersion session =? cc_sessionVersion (atc_common claims))
  && (uuidText (ses_userId session) =? cc_sub (atc_common claims))
  && (uuidText (ses_orgId session) =? atc_orgId claims).

(** Under row-level security: the sessions of the organisation the claims name. *)
Definition loadSessionForClaims (claims : AccessTokenClaims) : M SessionRow :=
  found ← withOrg (selectFirst db_sessions (fun s =>
            (uuidText (ses_jti s) =? cc_jti (atc_common claims)) && (uuidText (ses_orgId s) =? atc_orgId claims)));
  match found with
  | Some session => if sessionMatchesClaims session claims then mret session else throw sessionRevoked
  | None => throw sessionRevoked
  end.

Definition enforceIdleTimeout (session : SessionRow) : M unit :=
  now ← newDate;
  if (now - ses_lastActiveAt session <=? IDLE_MS) then mret tt
  else
    _ ← withOrg (cleanupExpiredSession (ses_id session) (ses_orgId session));
    throw (AppError "session_expired" 401).

Definition resolveActiveOrgRoleInTx (userId orgId : Uuid) : M (option OrgRole) :=
  row ← selectFirst db_memberships (fun m => (mem_userId m =? userId) && (mem_orgId m =? orgId) && (mem_status m =? active));
  mret (mem_role <$> row).

Definition resolveActiveOrgRole (userId orgId : Uuid) : M (option OrgRole) :=
  withOrg (resolveActiveOrgRoleInTx userId orgId).

Definition loadOrgRole (session : SessionRow) : M OrgRole :=
  role ← resolveActiveOrgRole (ses_userId session) (ses_orgId session);
  match role with
  | Some r => mret r
  | None => throw (AppError "account_deactivated" 403)
  end.

Definition loadIsPlatformOperator (userId : Uuid) : M bool :=
  row ← selectFirst db_users (fun u => usr_id u =? userId);
  mret (default false (usr_isPlatformOperator <$> row)).

Definition touchActivityWithoutBlocking (session : SessionRow) : M unit :=
  _ ← catch (touchSessionActivity (ses_id session) (ses_orgId session)) (fun _ => mret tt);
  catch (touchOrgMembershipActivity (ses_orgId session) (ses_userId session)) (fun _ => mret tt).

Definition authContextOf (token : string) : M AuthContext :=
  claims ← verifyAccessClaims token;
  _ ← rejectRevokedToken (cc_jti (atc_common claims));
  session ← loadSessionForClaims claims;
  _ ← enforceIdleTimeout session;
  orgRole ← loadOrgRole session;
  isPlatformOperator ← loadIsPlatformOperator (ses_userId session);
  _ ← touchActivityWithoutBlocking session;
  mret (MkAuthContext (ses_userId session) (ses_orgId session) (ses_id session) (ses_jti session)
          (ses_sessionVersion session) orgRole isPlatformOperator).

(** A non-empty cookie wins over the header. *)
Definition requestToken (request : RequestToken) : option string :=
  match rq_cookie request with
  | Some c => if c =? "" then extractBearerToken (rq_authorization request) else Some c
  | None => extractBearerToken (rq_authorization request)
  end.

Definition sendAuthError (e : Exn) : AuthReply :=
  match e with
  | AppError code status => refusedWith code status
  | _ => refusedWith "service_unavailable" 503
  end.

Definition authenticateRequest (request : RequestToken) : M AuthReply :=
  match requestToken request with
  | None => mret (refusedWith "access_token_missing" 401)
  | Some token =>
      catch (c ← authContextOf token; mret (authenticated c)) (fun e => mret (sendAuthError e))
  end.

End authenticate.
