(* ===== verification/Mfa.v ===== *)
(** * One-time codes

    modules/auth: failed-auth.ts (attempts and the lockout), normalize.ts,
    totp.ts, recovery-codes.ts, mfa.ts (enrolment, recovery codes) and
    mfa-login.ts (the second step of a login).

    The libraries otpauth, argon2 and bcrypt are parameters.  A failed attempt is
    written by a connection of its own, so a rolled-back transaction keeps it. *)

From S2P Require Import Prelude Js Crypto FieldSet AuthStore Store Tx QuotaGate AuditLog Notifications Frames Sessions.
From Stdlib Require Import Ascii String.
From stdpp Require Import strings pretty.

Local Open Scope string_scope.
Local Open Scope list_scope.
Local Open Scope pv_scope.

(** otpauth: the base32 form of a secret, and [totp.validate], the offset in periods of the matching code. *)
Class OtpValidate := {
  secretBase32 : string -> string;
  totpDelta : string -> string -> Z -> Date -> option Z;
}.

(** argon2 [verify] (throws on a malformed hash); bcrypt [hash] (salted by a draw) and [compare]. *)
Class Passwords := {
  verifyUserPassword : string -> string -> Outcome bool;
  bcryptHash : nat -> string -> Z -> string;
  bcryptCompare : string -> string -> bool;
}.

Inductive TotpResult := totp_valid | totp_invalid_code | totp_replayed_code | totp_no_enrollment.
#[export] Instance TotpResult_eq_dec : EqDecision TotpResult.
Proof. solve_decision. Defined.

(** lib/first-result-sequential.ts *)
Fixpoint firstResultSequential {A B} (items : list A) (fn : A -> M (option B)) : M (option B) :=
  match items with
  | [] => mret None
  | item :: items' =>
      result ← fn item;
      match result with
      | Some r => mret (Some r)
      | None => firstResultSequential items' fn
      end
  end.

(** [/^\d{6}$/] *)
Definition isDigit (c : ascii) : bool := (48 <=? N_of_ascii c)%N && (N_of_ascii c <=? 57)%N.
Definition isSixDigits (s : string) : bool :=
  (String.length s =? 6%nat) && forallb isDigit (String.list_ascii_of_string s).

Record AuthPair := MkAuthPair { ap_userId : Uuid; ap_orgId : Uuid }.
Definition appError (code : string) (status : Z) : Exn := AppError code status.

Section mfa.
Context `{Locale, Platform, NodeCrypto, Env, Unicode, OtpValidate, Passwords}.

(** ** normalize.ts, failed-auth.ts *)

(** [/^[\x21-\x7E]+$/] *)
Definition isPrintableAscii (s : string) : bool :=
  negb (s =? "") && forallb (fun c => (33 <=? N_of_ascii c)%N && (N_of_ascii c <=? 126)%N) (String.list_ascii_of_string s).

Definition normalizeEmail (input : string) : Outcome string :=
  let normalized := normalizeNFKC (toLowerCase (trim input)) in
  if isPrintableAscii normalized then Ok normalized else Throw (AppError "validation_error" 422).

Definition normalizeAttemptedEmail (email : string) : string :=
  match normalizeEmail email with
  | Ok e => e
  | Throw _ => String.substring 0 320 (toLowerCase (trim email))
  end.

Definition insertFailedAttempt (row : FailedAttemptRow) : M unit := fun w =>
  (Ok tt, w <| w_failedAttempts ::= fun l => (l ++ [row])%list |>).
Definition selectFailedAttempts (p : FailedAttemptRow -> bool) : M (list FailedAttemptRow) := fun w =>
  (Ok (List.filter p (w_failedAttempts w)), w).

Definition recordFailedAuthAttempt (userId : option Uuid) (ipAddress attemptedEmail reason : string) : M unit :=
  if negb FAILED_AUTH_RECORD_ENABLED then mret tt
  else
    fid ← genRandomUuid;
    now ← newDate;
    insertFailedAttempt (MkFailedAttemptRow fid userId ipAddress (normalizeAttemptedEmail attemptedEmail) reason now).

Definition isLoginLockedOut (email : string) : M bool :=
  now ← newDate;
  let windowStart := (now - LOGIN_LOCKOUT_WINDOW_SECONDS * 1000)%Z in
  rows ← selectFailedAttempts (fun a => (toLowerCase (fa_attemptedEmail a) =? normalizeAttemptedEmail email)
                                         && (windowStart <=? fa_attemptedAt a));
  mret (LOGIN_LOCKOUT_THRESHOLD <=? Z.of_nat (length rows)).

(** ** totp.ts *)

Definition validateTotpCode (secretText token : string) (timestamp : Date) : option Z :=
  let normalized := removeSpaces token in
  if negb (isSixDigits normalized) then None
  else
    match totpDelta secretText normalized MFA_TOTP_WINDOW timestamp with
    | None => None
    | Some delta => Some (timestamp / 1000 / MFA_TOTP_PERIOD_SECONDS + delta)%Z
    end.

Definition createTotpReplayHash (userId : Uuid) (counter : Z) (token : string) : string :=
  hmacSha256Hex TOTP_REPLAY_HMAC_SECRET (uuidText userId ++ ":" ++ pretty counter ++ ":" ++ token)%string.

(** [INSERT ... ON CONFLICT DO NOTHING RETURNING id] *)
Definition recordTotpUse (userId : Uuid) (counter : Z) (token : string) : M bool :=
  let windowStart := (counter * (MFA_TOTP_PERIOD_SECONDS * 1000))%Z in
  tid ← genRandomUuid;
  catch (_ ← insertRow db_usedCodes usedCodeConflict
           (MkUsedCodeRow tid userId (createTotpReplayHash userId counter token) windowStart
              (windowStart + TOTP_USED_CODES_TTL_MINUTES * 60000)%Z);
         mret true)
        (fun e => match e with UniqueViolation => mret false | _ => throw e end).

(** ** recovery-codes.ts *)

Definition RECOVERY_CODE_CHARSET : string := "ABCDEFGHJKMNPQRSTUVWXYZ23456789".

Definition charsetAt (i : N) : string := String.substring (N.to_nat i) 1 RECOVERY_CODE_CHARSET.
Definition drawChar : M string := fun w =>
  (Ok (charsetAt (randomInt (w_tick w) (N.of_nat (String.length RECOVERY_CODE_CHARSET)))), w <| w_tick ::= S |>).
Fixpoint drawRaw (n : nat) : M string :=
  match n with
  | O => mret ""
  | S n' => c ← drawChar; rest ← drawRaw n'; mret (c ++ rest)%string
  end.
Definition hyphenated (raw : string) : string :=
  (String.substring 0 5 raw ++ "-" ++ String.substring 5 (String.length raw) raw)%string.

(** [while (codes.size < count)], for at most [fuel] turns; [None] when it is still drawing. *)
Fixpoint generateRecoveryCodes (fuel count : nat) (codes : list string) : M (option (list string)) :=
  if (length codes <? count)%nat then
    match fuel with
    | O => mret None
    | S fuel' =>
        raw ← drawRaw 10;
        let code := hyphenated raw in
        generateRecoveryCodes fuel' count (if code ∈? codes then codes else (codes ++ [code])%list)
    end
  else mret (Some codes).

Definition normalizeRecoveryCode (code : string) : string := removeDashes (removeSpaces (toUpperCase code)).

(** [/^[A-HJ-KMNP-Z2-9]{10}$/] *)
Definition inRange (a b : N) (c : ascii) : bool := (a <=? N_of_ascii c)%N && (N_of_ascii c <=? b)%N.
Definition isRecoveryChar (c : ascii) : bool :=
  inRange 65 72 c || inRange 74 75 c || inRange 77 78 c || inRange 80 90 c || inRange 50 57 c.
Definition isNormalizedRecoveryCode (code : string) : bool :=
  (String.length code =? 10%nat) && forallb isRecoveryChar (String.list_ascii_of_string code).

Definition recoveryCodeMatches (code hash : string) : bool := bcryptCompare (normalizeRecoveryCode code) hash.

Definition countUnusedRecoveryCodes (userId : Uuid) : M Z :=
  rows ← selectWhere db_recoveryCodes (fun c => (rc_userId c =? userId) && isNull (rc_usedAt c));
  mret (Z.of_nat (length rows)).

Definition hashRecoveryCode (code : string) : M string := fun w =>
  (Ok (bcryptHash (w_tick w) (normalizeRecoveryCode code) MFA_RECOVERY_CODE_BCRYPT_COST), w <| w_tick ::= S |>).
Definition insertRecoveryCode (userId : Uuid) (code : string) : M unit :=
  codeHash ← hashRecoveryCode code;
  rid ← genRandomUuid;
  _ ← insertRow db_recoveryCodes recoveryCodeConflict (MkRecoveryCodeRow rid userId codeHash None);
  mret tt.
Definition insertRecoveryCodes (userId : Uuid) (codes : list string) : M unit :=
  forEachSequential codes (insertRecoveryCode userId).

(** ** mfa.ts *)

Definition invalidTotp : Exn := AppError "invalid_totp" 422.
Definition invalidRecoveryCredentials : Exn := AppError "invalid_credentials" 401.

Definition attemptedEmailForUser (userId : Uuid) : M (option string) :=
  row ← selectFirst db_users (fun u => usr_id u =? userId);
  mret (usr_email <$> row).

Definition mfaUnsigned (meta : RequestMeta) : Unsigned :=
  noUnsigned <| un_ipAddress := rm_ipAddress meta |> <| un_userAgent := rm_userAgent meta |>.

Definition MFA_ENROLLMENT_STARTED : string := "MFA_ENROLLMENT_STARTED".
Definition MFA_ENROLLED : string := "MFA_ENROLLED".
Definition MFA_RECOVERY_CODES_REGENERATED : string := "MFA_RECOVERY_CODES_REGENERATED".
Definition MFA_RECOVERY_USED : string := "MFA_RECOVERY_USED".
Definition MFA_LOGIN_VERIFIED : string := "MFA_LOGIN_VERIFIED".
Definition LOGIN_FAILED : string := "LOGIN_FAILED".

Definition humanAudit (orgId : Uuid) (actorTokenId : option Uuid) (eventType : string)
    (resource : option (Uuid * string)) (payload : list (string * Json)) (meta : RequestMeta) : M unit :=
  _ ← writeHumanAuditEntry {| af_orgId := orgId; af_actorTokenId := actorTokenId; af_eventType := eventType;
        af_resourceId := fst <$> resource; af_resourceType := snd <$> resource; af_payload := payload;
        af_unsigned := mfaUnsigned meta |};
  mret tt.

Definition writeMfaEnrollmentAudit (auth : AuthPair) (eventType : string) (enrollmentId : Uuid)
    (payload : list (string * Json)) (meta : RequestMeta) : M unit :=
  actorTokenId ← firstActorTokenIdForUser (ap_userId auth);
  humanAudit (ap_orgId auth) actorTokenId eventType (Some (enrollmentId, "mfa_enrollment")) payload meta.

Definition loadPendingEnrollmentForUpdate (userId : Uuid) : M (option EnrollmentRow) :=
  selectFirst db_enrollments (fun e => mfa_userId e =? userId).
Definition loadConfirmedEnrollmentForUpdate (userId : Uuid) : M (option EnrollmentRow) :=
  selectFirst db_enrollments (fun e => (mfa_userId e =? userId) && (mfa_status e =? enrollmentConfirmed)).
Definition hasConfirmedTotpEnrollment (userId : Uuid) : M bool :=
  row ← loadConfirmedEnrollmentForUpdate userId;
  mret (isNotNull row).

(** The secret of the enrolment is drawn by the otpauth library. *)
Definition enrollMfa (secret : string) (auth : AuthPair) (meta : RequestMeta) : M (Uuid * string) :=
  user ← selectFirst db_users (fun u => usr_id u =? ap_userId auth);
  match user with
  | None => throw (appError "user_not_found" 404)
  | Some user =>
      if isNotNull (usr_mfaEnrolledAt user) then throw (appError "mfa_already_enrolled" 409)
      else
        _ ← deletePendingEnrollmentForUser (ap_userId auth);
        encrypted ← encryptValue secret;
        eid ← genRandomUuid;
        enrollment ← catch (insertRow db_enrollments enrollmentConflict
                              (MkEnrollmentRow eid (ap_userId auth) encrypted enrollmentPending None))
                       (fun e => match e with
                                 | UniqueViolation => throw (appError "mfa_enrollment_conflict" 409)
                                 | _ => throw e
                                 end);
        _ ← writeMfaEnrollmentAudit auth MFA_ENROLLMENT_STARTED (mfa_id enrollment) [("method", JStr "totp")] meta;
        mret (mfa_id enrollment, secretBase32 secret)
  end.

Definition validateEnrollmentTotp (userId : Uuid) (enrollment : EnrollmentRow) (totp : string)
    (deletePendingOnInvalid : bool) : M TotpResult :=
  plaintext ← withSecretText (mfa_secretEncrypted enrollment);
  catch
    (let normalizedTotp := removeSpaces totp in
     now ← newDate;
     match validateTotpCode (secretBase32 plaintext) normalizedTotp now with
     | None =>
         _ ← (if deletePendingOnInvalid then deletePendingEnrollmentForUser userId else mret tt);
         mret totp_invalid_code
     | Some counter =>
         recorded ← recordTotpUse userId counter normalizedTotp;
         mret (if recorded : bool then totp_valid else totp_replayed_code)
     end)
    (fun e => match e with UniqueViolation => mret totp_invalid_code | _ => throw e end).

Definition verifyConfirmedLoginTotp (userId : Uuid) (totp : string) : M TotpResult :=
  enrollment ← loadConfirmedEnrollmentForUpdate userId;
  match enrollment with
  | None => mret totp_no_enrollment
  | Some e => validateEnrollmentTotp userId e totp false
  end.

(** [checkEnrollmentTotp] and [handleInvalidEnrollmentTotp]: an invalid code, or a replayed one. *)
Definition guardedByTotp {A} (auth : AuthPair) (meta : RequestMeta) (totpResult : TotpResult)
    (attemptedEmail : option string) (k : M A) : M A :=
  if totpResult =? totp_valid then k
  else
    _ ← (if totpResult =? totp_replayed_code then mret tt
         else recordFailedAuthAttempt (Some (ap_userId auth)) (default "0.0.0.0" (rm_ipAddress meta))
                (default "" attemptedEmail) "invalid_totp");
    throw invalidTotp.

Definition verifyEnrollment (fuel : nat) (auth : AuthPair) (totp : string) (meta : RequestMeta)
    : M (option (Date * list string)) :=
  attemptedEmail ← attemptedEmailForUser (ap_userId auth);
  enrollment ← loadPendingEnrollmentForUpdate (ap_userId auth);
  match enrollment with
  | None => throw (appError "mfa_enrollment_not_started" 409)
  | Some enrollment =>
      if negb (mfa_status enrollment =? enrollmentPending) then throw invalidTotp
      else
        totpResult ← validateEnrollmentTotp (ap_userId auth) enrollment totp true;
        guardedByTotp auth meta totpResult attemptedEmail
          (enrolledAt ← newDate;
           codes ← generateRecoveryCodes fuel MFA_RECOVERY_CODE_COUNT [];
           match codes with
           | None => mret None
           | Some recoveryCodes =>
               _ ← updateWhere db_enrollments (fun e => mfa_id e =? mfa_id enrollment)
                     (fun e => e <| mfa_status := enrollmentConfirmed |> <| mfa_confirmedAt := Some enrolledAt |>);
               _ ← updateWhere db_users (fun u => usr_id u =? ap_userId auth)
                     (fun u => u <| usr_mfaEnrolledAt := Some enrolledAt |>);
               _ ← insertRecoveryCodes (ap_userId auth) recoveryCodes;
               _ ← writeMfaEnrollmentAudit auth MFA_ENROLLED (mfa_id enrollment) [("method", JStr "totp")] meta;
               mret (Some (enrolledAt, recoveryCodes))
           end)
  end.

Definition safeDispatchDirectUserNotification (orgId userId : Uuid) (template : NotificationTemplate)
    : M (list NotificationQueueJob) :=
  catch (dispatchDirectUserNotification orgId userId template) (fun _ => mret []).

Definition regenerateRecoveryCodes (fuel : nat) (auth : AuthPair) (totp : string) (meta : RequestMeta)
    : M (option (list string * Date * list NotificationQueueJob)) :=
  attemptedEmail ← attemptedEmailForUser (ap_userId auth);
  enrollment ← loadConfirmedEnrollmentForUpdate (ap_userId auth);
  match enrollment with
  | None => throw (appError "mfa_not_enrolled" 409)
  | Some enrollment =>
      totpResult ← validateEnrollmentTotp (ap_userId auth) enrollment totp false;
      guardedByTotp auth meta totpResult attemptedEmail
        (generatedAt ← newDate;
         codes ← generateRecoveryCodes fuel MFA_RECOVERY_CODE_COUNT [];
         match codes with
         | None => mret None
         | Some recoveryCodes =>
             _ ← updateWhere db_recoveryCodes (fun c => (rc_userId c =? ap_userId auth) && isNull (rc_usedAt c))
                   (fun c => c <| rc_usedAt := Some generatedAt |>);
             _ ← insertRecoveryCodes (ap_userId auth) recoveryCodes;
             remaining ← countUnusedRecoveryCodes (ap_userId auth);
             _ ← writeMfaEnrollmentAudit auth MFA_RECOVERY_CODES_REGENERATED (mfa_id enrollment)
                   [("method", JStr "totp"); ("remainingRecoveryCodes", JInt remaining)] meta;
             jobs ← safeDispatchDirectUserNotification (ap_orgId auth) (ap_userId auth)
                      (MkNotificationTemplate "security.mfa_recovery_codes_regenerated"
                         (JObj [("userId", JUuid (ap_userId auth)); ("remainingRecoveryCodes", JInt remaining)])
                         (Some warning));
             mret (Some (recoveryCodes, generatedAt, jobs))
         end)
  end.

(** user-lookup.ts: a left join, one row for each identity token *)
Definition findUserWithIdentityByEmail (email : string) : M (list (UserRow * option Uuid)) := fun w =>
  (Ok (flat_map (fun u =>
         match List.filter (fun t => uit_userId t =? Some (usr_id u)) (db_identityTokens (w_db w)) with
         | [] => [(u, None)]
         | ts => map (fun t => (u, Some (uit_id t))) ts
         end) (List.filter (fun u => usr_email u =? email) (db_users (w_db w)))), w).

Definition activeOrgForUser (userId : Uuid) : M (option Uuid) :=
  orgs ← selectOrdered db_organizations (fun _ => true)
           (fun a b => (org_createdAt a <? org_createdAt b)
                       || ((org_createdAt a =? org_createdAt b) && bool_decide (org_id a <= org_id b)%N));
  firstResultSequential orgs (fun org =>
    membership ← selectFirst db_memberships (fun m => (mem_orgId m =? org_id org) && (mem_userId m =? userId)
                                                      && (mem_status m =? active));
    mret (if isNotNull membership then Some (org_id org) else None)).

Definition passwordMatches (password : string) (hash : option string) : bool :=
  match verifyUserPassword password (default AUTH_DUMMY_PASSWORD_HASH hash) with
  | Ok b => b
  | Throw _ => false
  end.

(** The last of the matching codes. *)
Definition findMatchingRecoveryCode (userId : Uuid) (recoveryCode : string) : M (option Uuid) :=
  rows ← selectWhere db_recoveryCodes (fun c => (rc_userId c =? userId) && isNull (rc_usedAt c));
  mret (foldl (fun found c => if recoveryCodeMatches recoveryCode (rc_codeHash c) then Some (rc_id c) else found)
          None rows).

Definition tryWriteFailedRecoverAudit (subject : option (option Uuid * option Uuid)) (meta : RequestMeta) : M unit :=
  match subject with
  | Some (Some orgId, identityTokenId) =>
      catch (humanAudit orgId identityTokenId LOGIN_FAILED None [("method", JStr "recovery_code")] meta)
        (fun _ => mret tt)
  | _ => mret tt
  end.

Record RecoveryResult := MkRecoveryResult {
  rec_userId : Uuid;
  rec_orgId : Uuid;
  rec_expiresAt : Date;
  rec_remainingRecoveryCodes : Z;
  rec_tokens : TokenMaterial;
  rec_jobs : list NotificationQueueJob;
}.

Definition recordRecoveryFailure (email : string) (meta : RequestMeta) (subject : option (option Uuid * option Uuid))
    (userId : option Uuid) (reason : string) : M unit :=
  _ ← tryWriteFailedRecoverAudit subject meta;
  recordFailedAuthAttempt userId (default "0.0.0.0" (rm_ipAddress meta)) email reason.

(** The transaction of [recoverWithCode]. *)
Definition recoverInTx (email recoveryCode : string) (user : option (UserRow * option Uuid)) (validPassword : bool)
    (meta : RequestMeta) : M RecoveryResult :=
  let refuse := fun subject userId reason =>
    _ ← recordRecoveryFailure email meta subject userId reason; throw invalidRecoveryCredentials in
  match user with
  | None => refuse None None "invalid_credentials"
  | Some (user, identityTokenId) =>
      orgId ← activeOrgForUser (usr_id user);
      let subject := Some (orgId, identityTokenId) in
      if negb validPassword || isNull (usr_mfaEnrolledAt user) then refuse subject None "invalid_credentials"
      else
        match orgId with
        | None => refuse subject (Some (usr_id user)) "invalid_credentials"
        | Some orgId =>
            matched ← findMatchingRecoveryCode (usr_id user) recoveryCode;
            match matched with
            | None => refuse subject (Some (usr_id user)) "invalid_recovery_code"
            | Some codeId =>
                locked ← selectFirst db_recoveryCodes (fun c => (rc_id c =? codeId) && isNull (rc_usedAt c));
                if isNull locked then refuse subject (Some (usr_id user)) "expired_recovery_code"
                else
                  usedAt ← newDate;
                  _ ← updateWhere db_recoveryCodes (fun c => rc_id c =? codeId)
                        (fun c => c <| rc_usedAt := Some usedAt |>);
                  remaining ← countUnusedRecoveryCodes (usr_id user);
                  session ← createLoginSessionInTx (usr_id user) identityTokenId orgId meta defaultLogin;
                  _ ← humanAudit orgId identityTokenId MFA_RECOVERY_USED None
                        [("remainingRecoveryCodes", JInt remaining)] meta;
                  jobs ← safeDispatchDirectUserNotification orgId (usr_id user)
                           (MkNotificationTemplate "security.mfa_recovery_used"
                              (JObj [("userId", JUuid (usr_id user)); ("remainingRecoveryCodes", JInt remaining)])
                              (Some critical));
                  mret (MkRecoveryResult (lr_userId session) (lr_orgId session) (lr_expiresAt session) remaining
                          (lr_tokens session) jobs)
            end
        end
  end.

Definition recoverWithCode (email password recoveryCode : string) (meta : RequestMeta) : M RecoveryResult :=
  email ← lift (normalizeEmail email);
  let normalizedRecoveryCode := normalizeRecoveryCode recoveryCode in
  if negb (isNormalizedRecoveryCode normalizedRecoveryCode) then throw (appError "validation_error" 422)
  else
    users ← findUserWithIdentityByEmail email;
    let user := head users in
    let validPassword := passwordMatches password (usr_passwordHash <$> (fst <$> user)) in
    withOrg (recoverInTx email normalizedRecoveryCode user validPassword meta).

Definition getMfaStatus (userId : Uuid) : M (option (Date * Z)) :=
  user ← selectFirst db_users (fun u => usr_id u =? userId);
  match user ≫= usr_mfaEnrolledAt with
  | None => mret None
  | Some enrolledAt => remaining ← countUnusedRecoveryCodes userId; mret (Some (enrolledAt, remaining))
  end.

(** ** mfa-login.ts *)

Definition mfaTokenExpired : Exn := AppError "mfa_token_expired" 401.

Inductive VerifyLoginOutcome := login_success (session : LoginResult) | login_invalid_totp | login_mfa_token_expired.

Definition isAttemptCapped (attemptCount : Z) : bool := MFA_LOGIN_MAX_ATTEMPTS <=? attemptCount.

Definition hashPendingMfaToken (opaque : string) : string := hmacSha256Hex MFA_PENDING_SESSION_HMAC_SECRET opaque.

Definition tryWriteLoginVerifiedAudit (row : PendingMfaRow) (identityTokenId : option Uuid) (meta : RequestMeta) : M unit :=
  catch (transaction (humanAudit (pm_orgId row) identityTokenId MFA_LOGIN_VERIFIED None [("method", JStr "totp")] meta))
    (fun _ => mret tt).

Definition tryWriteLoginFailedAudit (row : PendingMfaRow) (meta : RequestMeta) : M unit :=
  catch (transaction (
           actorTokenId ← firstActorTokenIdForUser (pm_userId row);
           humanAudit (pm_orgId row) actorTokenId LOGIN_FAILED None [("method", JStr "totp_login")] meta))
    (fun _ => mret tt).

Definition deletePendingSession (tokenHash : string) : M unit :=
  deleteWhere db_pendingMfa (fun p => pm_tokenHash p =? tokenHash).

Definition recordInvalidTotpFailure (row : PendingMfaRow) (meta : RequestMeta) (replayed : bool) : M unit :=
  _ ← tryWriteLoginFailedAudit row meta;
  if replayed then mret tt
  else
    email ← attemptedEmailForUser (pm_userId row);
    recordFailedAuthAttempt (Some (pm_userId row))
      (default (default "0.0.0.0" (pm_ipAddress row)) (rm_ipAddress meta)) (default "" email) "invalid_totp".

(** [ON CONFLICT (token_hash) DO NOTHING] *)
Definition insertPendingChallenge (userId orgId : Uuid) (meta : RequestMeta) : M (option string) :=
  mfaToken ← generateOpaque;
  let tokenHash := hashPendingMfaToken mfaToken in
  pid ← genRandomUuid;
  now ← dbNow;
  existing ← selectFirst db_pendingMfa (fun p => pm_tokenHash p =? tokenHash);
  if isNotNull existing then mret None
  else
    _ ← insertRow db_pendingMfa pendingMfaConflict
          (MkPendingMfaRow pid userId orgId tokenHash 0 (rm_ipAddress meta)
             (String.substring 0 512 <$> rm_userAgent meta) (now + MFA_PENDING_SESSION_TTL_SECONDS * 1000)%Z);
    mret (Some mfaToken).

Definition TOKEN_ATTEMPTS : list nat := seq 0 3.

Definition createPendingMfaSession (userId orgId : Uuid) (meta : RequestMeta) : M string :=
  withOrg (
    _ ← deleteWhere db_pendingMfa (fun p => (pm_userId p =? userId) && (pm_orgId p =? orgId));
    challenge ← firstResultSequential TOKEN_ATTEMPTS (fun _ => insertPendingChallenge userId orgId meta);
    match challenge with
    | Some mfaToken => mret mfaToken
    | None => throw (AppError "service_unavailable" 503)
    end).

Definition consumeInvalidAttempt (row : PendingMfaRow) (meta : RequestMeta) (replayed : bool) : M VerifyLoginOutcome :=
  let nextAttemptCount := (pm_attemptCount row + 1)%Z in
  if (MFA_LOGIN_MAX_ATTEMPTS <=? nextAttemptCount) then
    _ ← recordInvalidTotpFailure row meta replayed;
    _ ← deletePendingSession (pm_tokenHash row);
    mret login_mfa_token_expired
  else
    _ ← updateWhere db_pendingMfa (fun p => pm_tokenHash p =? pm_tokenHash row)
          (fun p => p <| pm_attemptCount := nextAttemptCount |>);
    _ ← recordInvalidTotpFailure row meta replayed;
    mret login_invalid_totp.

Definition verifyLoginInTx (tokenHash totp : string) (meta : RequestMeta) : M VerifyLoginOutcome :=
  found ← selectFirst db_pendingMfa (fun p => pm_tokenHash p =? tokenHash);
  match found with
  | None => mret login_mfa_token_expired
  | Some row =>
      now ← dbNow;
      if (pm_expiresAt row <=? now) || isAttemptCapped (pm_attemptCount row) then
        _ ← deletePendingSession tokenHash;
        mret login_mfa_token_expired
      else
        totpResult ← verifyConfirmedLoginTotp (pm_userId row) totp;
        match totpResult with
        | totp_no_enrollment => _ ← deletePendingSession tokenHash; mret login_mfa_token_expired
        | totp_invalid_code => consumeInvalidAttempt row meta false
        | totp_replayed_code => consumeInvalidAttempt row meta true
        | totp_valid =>
            identityTokenId ← firstActorTokenIdForUser (pm_userId row);
            session ← createLoginSessionInTx (pm_userId row) identityTokenId (pm_orgId row) meta defaultLogin;
            _ ← tryWriteLoginVerifiedAudit row identityTokenId meta;
            _ ← deletePendingSession tokenHash;
            mret (login_success session)
        end
  end.

Definition verifyLogin (mfaToken totp : string) (meta : RequestMeta) : M LoginResult :=
  outcome ← withOrg (verifyLoginInTx (hashPendingMfaToken mfaToken) totp meta);
  match outcome with
  | login_success session => mret session
  | login_invalid_totp => throw invalidTotp
  | login_mfa_token_expired => throw mfaTokenExpired
  end.

End mfa.
