(* ===== verification/ExternalShares.v ===== *)
(** * Shares with recipients outside the organisation

    modules/credential-shares: external-service.ts, verification.ts,
    external-verification-service.ts, step-up.ts, and the hourly sweep of
    workers/credential-share-expire.ts.

    A share is found by its token before its organisation is known, by one
    query that no row-level policy restricts ([adminLookupByTokenHash]).  What
    the code schedules after its response (a losing attempt, the sending of a
    code) is returned beside the response and run by an operation of its own.
    The miss floor of the response time and the log lines are left out. *)

From S2P Require Import Prelude Js Crypto FieldSet AuthStore Store Tx QuotaGate AuditLog Notifications Credentials Text Sessions Mfa Shares.
From Stdlib Require Import Ascii String.
From stdpp Require Import strings pretty.

Local Open Scope string_scope.
Local Open Scope list_scope.
Local Open Scope pv_scope.

(** ** schema.ts *)

Definition EXTERNAL_SHARE_MAX_TTL_MS : Z := 72 * 60 * 60 * 1000.
Definition MAX_PENDING_EXTERNAL_SHARES_PER_FIELD : Z := 5.
Definition EXTERNAL_SHARE_MAX_REVEAL_ATTEMPTS : Z := 5.
Definition EXTERNAL_SHARE_VERIFICATION_CODE_TTL_MS : Z := 10 * 60 * 1000.
Definition EXTERNAL_SHARE_VERIFICATION_MAX_ATTEMPTS : Z := 5.
Definition EXTERNAL_SHARE_VERIFICATION_RESEND_COOLDOWN_SECONDS : Z := 60.
Definition EXTERNAL_SHARE_VERIFICATION_MAX_SENDS : Z := 5.
Definition EXTERNAL_SHARE_VERIFICATION_PROOF_TTL_MS : Z := 15 * 60 * 1000.

(** ** verification.ts *)

Definition HEX_SHA256_LENGTH : nat := 64.

Fixpoint zeros (n : nat) : string := match n with O => EmptyString | S n' => String "0" (zeros n') end.
(** [s.padStart(n, '0')] *)
Definition padStart (n : nat) (s : string) : string := zeros (n - String.length s) +:+ s.

(** [crypto.timingSafeEqual] throws on buffers of different lengths. *)
Definition timingSafeEqual (a b : string) : Outcome bool :=
  if negb (String.length a =? String.length b) then Throw (JsError "ERR_CRYPTO_TIMING_SAFE_EQUAL_LENGTH") else Ok (a =? b).

Definition hexDigestsEqual (left right : string) : Outcome bool :=
  if negb (String.length left =? HEX_SHA256_LENGTH) || negb (String.length right =? HEX_SHA256_LENGTH) then Ok false
  else timingSafeEqual (fromHex left) (fromHex right).

Definition LOWERCASE_LETTER_COUNT : N := 26.
Definition MASK_ALPHABET_SIZE : N := LOWERCASE_LETTER_COUNT + 10.
Definition LOWERCASE_A : N := 97.

Definition isMaskChar (c : ascii) : bool :=
  ((97 <=? N_of_ascii c)%N && (N_of_ascii c <=? 122)%N) || isDigit c.

(** The first character of a part; a part that starts otherwise shows [x]. *)
Definition maskInitial (part : string) : string :=
  match part with
  | String c _ => if isMaskChar c then String c EmptyString else "x"
  | EmptyString => "x"
  end.

(** The text around the last [@], if there is one. *)
Fixpoint cutLastAt (s : string) : option (string * string) :=
  match s with
  | EmptyString => None
  | String c s' =>
      match cutLastAt s' with
      | Some (a, b) => Some (String c a, b)
      | None => if c =? "@"%char then Some (EmptyString, s') else None
      end
  end.

Definition maskOf (a b : string) : string := a +:+ "***@" +:+ b +:+ "***".

Definition pickMaskChar (byte : option ascii) : string :=
  let n := (match byte with Some c => N_of_ascii c | None => 0 end mod MASK_ALPHABET_SIZE)%N in
  if (n <? LOWERCASE_LETTER_COUNT)%N then String (ascii_of_N (LOWERCASE_A + n)) EmptyString
  else pretty (n - LOWERCASE_LETTER_COUNT)%N.

Definition displayNameFromEmail (email : option string) : string :=
  match truthy email with None => "A teammate" | Some email => fst (cutAt "@"%char email) end.  (* email.split('@')[0] *)

(** ** external-service.ts: the bucket of the cap on pending shares *)

Definition pendingCapBucket (normalizedField : option string) (normalizedAttributeKeys : option (list string))
    (s : ShareRow) : bool :=
  let effectiveKeys := match truthy normalizedField with Some k => Some [k] | None => normalizedAttributeKeys end in
  match effectiveKeys with
  | Some ((_ :: _) as keys) =>
      let attributeKeysCondition := sh_attributeKeys s =? Some keys in
      match keys with
      | [onlyKey] =>
          if isNotNull (truthy (Some onlyKey)) then (sh_fieldKey s =? Some onlyKey) || attributeKeysCondition
          else attributeKeysCondition
      | _ => attributeKeysCondition
      end
  | _ => isNull (sh_fieldKey s) && isNull (sh_attributeKeys s)
  end.

Record CreateExternalShareInput := MkCreateExternalShareInput {
  cei_orgId : Uuid;
  cei_projectId : Uuid;
  cei_credentialId : Uuid;
  cei_sharedByUserId : Uuid;
  cei_recipientEmail : string;
  cei_fieldKey : option string;
  cei_attributeKeys : option (list string);
  cei_expiresAt : Date;
  cei_hostCreated : bool;
  cei_actingUserId : option Uuid;
}.

Inductive AttemptCapLockReason := reveal_attempts_exhausted | verification_attempts_exhausted.
Definition lockReasonName (r : AttemptCapLockReason) : string :=
  match r with
  | reveal_attempts_exhausted => "reveal_attempts_exhausted"
  | verification_attempts_exhausted => "verification_attempts_exhausted"
  end.

Record DeferredLosingAttempt := MkDeferredLosingAttempt {
  dl_orgId : Uuid;
  dl_shareId : Uuid;
  dl_expireIfDue : bool;
}.

Inductive RevealExternalShareResult :=
| ext_not_found
| ext_expired
| ext_already_viewed
| ext_revoked
| ext_ok (share : ShareRow) (value : string) (valueFormat : ValueFormat) (fieldKey : option string).

Definition RevealOutcome : Type := RevealExternalShareResult * option DeferredLosingAttempt.

Definition terminalRevealStatusFor (status : ShareStatus) : option RevealExternalShareResult :=
  match status with
  | shareRevoked => Some ext_revoked
  | shareExpired | shareSuperseded => Some ext_expired
  | shareActive | shareViewed => None
  end.

Inductive FindExternalShareResult :=
| find_ext_not_found
| find_ext_ok (share : ShareRow) (credentialName : string) (credentialProjectId : Uuid) (sharedByDisplayName : string).

Inductive StepUpResult := step_up_ok | step_up_missing_factor | step_up_invalid_password | step_up_invalid_totp.

Inductive ConfirmVerificationResult := confirm_ok (proof : string) | confirm_failed.

(** The organisation and the identifier of the share a code is sent for. *)
Record VerificationTarget := MkVerificationTarget { vt_orgId : Uuid; vt_shareId : Uuid }.

Section external.
Context `{Locale, Platform, NodeCrypto, Env, Unicode}.

Definition generateVerificationCode : M string := fun w =>
  (Ok (padStart 6 (pretty (randomInt (w_tick w) 1000000))), w <| w_tick ::= S |>).

Definition hashVerificationCode (rawToken : string) (shareId : Uuid) (code : string) : string :=
  hmacSha256Hex rawToken (uuidText shareId +:+ ":" +:+ code).

Definition verificationCodeMatches (rawToken : string) (shareId : Uuid) (code : string) (storedHash : option string)
    : Outcome bool :=
  let candidate := hashVerificationCode rawToken shareId code in
  match storedHash with
  | None => Ok false
  | Some storedHash => equal ← hexDigestsEqual candidate storedHash; Ok (equal && isSixDigits code)
  end.

Definition sha256Hex (value : string) : string := toHex (sha256 value).

Definition generateVerificationProof : M (string * string) :=
  proof ← generateOpaque;
  mret (proof, sha256Hex proof).

Definition verificationProofMatches (proof storedHash : option string) : Outcome bool :=
  match proof, storedHash with
  | Some proof, Some storedHash => hexDigestsEqual (sha256Hex proof) storedHash
  | _, _ => Ok false
  end.

Definition maskRecipientEmail (email : string) : string :=
  let normalized := toLowerCase (trim email) in
  let '(local, domain) := match cutLastAt normalized with
                          | Some ((String _ _) as a, b) => (a, b)
                          | _ => (normalized, EmptyString)
                          end in
  maskOf (maskInitial local) (maskInitial domain).

Definition syntheticMaskForToken (rawToken : string) : string :=
  let digest := fromHex (hmacSha256Hex INVITATION_TOKEN_HMAC_SECRET ("credential_share_mask:" +:+ rawToken)) in
  maskOf (pickMaskChar (String.get 0 digest)) (pickMaskChar (String.get 1 digest)).

Definition maskedRecipientFor (rawToken : string) (recipientEmail : option string) : string :=
  match truthy recipientEmail with
  | Some email => maskRecipientEmail email
  | None => syntheticMaskForToken rawToken
  end.

(** ** external-service.ts *)

Definition adminLookupByTokenHash (tokenHash : string) : M (option ShareRow) :=
  selectFirst db_shares (fun s => sh_tokenHash s =? tokenHash).

(** What was committed between the lookup and the transaction of the organisation. *)
Definition withOrgLater {A} (m : M A) : M A := _ ← otherCommits; withOrg m.

(** The advisory lock of a bucket: another creation in the bucket has ended when it is taken. *)
Definition lockPendingBucket : M unit := otherCommits.

Definition createExternalCredentialShare (input : CreateExternalShareInput) : M CreateShareResult :=
  preflight ← preflightCredentialForShareCreation (cei_credentialId input) (cei_projectId input);
  match preflight with
  | Some why => mret (create_refused why)
  | None =>
      validation ← validateShareFieldAndExpiry (cei_credentialId input) (cei_fieldKey input)
                     (cei_attributeKeys input) (cei_expiresAt input) EXTERNAL_SHARE_MAX_TTL_MS;
      match validation with
      | inl why => mret (create_refused why)
      | inr (normalizedField, normalizedAttributeKeys) =>
          _ ← lockPendingBucket;
          now ← dbNow;
          countRows ← selectWhere db_shares (scoped (cei_orgId input) (fun s =>
            (sh_credentialId s =? cei_credentialId input) && (sh_recipientType s =? recipientExternal)
            && pendingCapBucket normalizedField normalizedAttributeKeys s
            && (sh_status s ∈? [shareActive]) && (now <? sh_expiresAt s)));
          if (MAX_PENDING_EXTERNAL_SHARES_PER_FIELD <=? Z.of_nat (length countRows))
          then mret (create_refused sc_cap_exceeded)
          else
            '(rawToken, tokenHash) ← generateAndHashShareToken;
            share ← insertShare
              (MkShareBase (cei_orgId input) (cei_credentialId input) (cei_sharedByUserId input)
                 (cei_expiresAt input) (cei_hostCreated input) (cei_actingUserId input))
              normalizedField normalizedAttributeKeys tokenHash
              (MkShareRecipient recipientExternal None (Some (toLowerCase (trim (cei_recipientEmail input)))) true
                 (negb (cei_hostCreated input)));
            mret (create_ok share rawToken)
      end
  end.

Definition findExternalShareByTokenHash (rawToken : string) : M FindExternalShareResult :=
  let tokenHash := hashShareToken rawToken in
  row ← adminLookupByTokenHash tokenHash;
  match row with
  | None => mret find_ext_not_found
  | Some row =>
      if negb (sh_recipientType row =? recipientExternal) then mret find_ext_not_found else
      withOrgLater (
        joined ← shareWithCredentialAndSharerQuery (sh_orgId row) (fun s => sh_id s =? sh_id row);
        match joined with
        | None => mret find_ext_not_found
        | Some joined =>
            share ← lazilyExpireShareIfDue (sh_orgId row) (smd_share joined);
            mret (find_ext_ok share (smd_credentialName joined) (smd_credentialProjectId joined)
                    (displayNameFromEmail (smd_sharedByEmail joined)))
        end)
  end.

(** Both callers have updated the row in this transaction, so the UPDATE does not wait for it. *)
Definition lockShareAfterAttemptCap (tenant : Uuid) (share : ShareRow) (reason : AttemptCapLockReason)
    : M (option ShareRow) :=
  now ← newDate;
  updated ← updateWhere db_shares
    (scoped tenant (fun s => (sh_id s =? sh_id share) && negb (sh_status s =? shareRevoked)))
    (fun s => s <| sh_status := shareRevoked |> <| sh_revokedAt := Some now |> <| sh_lockedAt := Some now |>
                <| sh_verificationCodeHash := None |> <| sh_verificationCodeExpiresAt := None |>);
  match head updated with
  | None => mret None
  | Some locked =>
      _ ← writeSystemAuditEntryOrFailClosed (sh_orgId locked) "credential.share_revoked" (Some (sh_id locked))
            (Some "credential_share")
            [("credentialId", JUuid (sh_credentialId locked));
             ("recipientType", JStr (match sh_recipientType locked with recipientUser => "user" | recipientExternal => "external" end));
             ("attributeKeys", JOptArr (sh_attributeKeys locked)); ("reason", JStr (lockReasonName reason))];
      mret (Some locked)
  end.

Definition recordLosingAttempt (tenant : Uuid) (share : ShareRow) : M ShareRow :=
  updated ← updateShares tenant (fun s => sh_id s =? sh_id share)
              (fun s => s <| sh_revealAttemptCount := (sh_revealAttemptCount s + 1)%Z |>);
  let current := default share (head updated) in
  if negb (sh_status current =? shareRevoked)
     && (EXTERNAL_SHARE_MAX_REVEAL_ATTEMPTS <=? sh_revealAttemptCount current)
  then
    locked ← lockShareAfterAttemptCap tenant current reveal_attempts_exhausted;
    mret (default current locked)
  else mret current.

Definition applyDeferredLosingAttempt (deferred : DeferredLosingAttempt) : M unit :=
  withOrg (
    fresh ← selectFirst db_shares (scoped (dl_orgId deferred) (fun s => sh_id s =? dl_shareId deferred));
    match fresh with
    | None => mret tt
    | Some fresh =>
        share ← (if dl_expireIfDue deferred then lazilyExpireShareIfDue (dl_orgId deferred) fresh else mret fresh);
        _ ← recordLosingAttempt (dl_orgId deferred) share;
        mret tt
    end).

(** Never rejects. *)
Definition runDeferredTask {A} (work : M A) : M unit := catch (_ ← work; mret tt) (fun _ => mret tt).

Definition losing (share : ShareRow) (result : RevealExternalShareResult) (expireIfDue : bool) : RevealOutcome :=
  (result, Some (MkDeferredLosingAttempt (sh_orgId share) (sh_id share) expireIfDue)).

Definition precheckExternalShareClaimable (share : ShareRow) : M (option RevealOutcome) :=
  match terminalRevealStatusFor (sh_status share) with
  | Some terminal => mret (Some (losing share terminal false))
  | None =>
      if sh_status share =? shareViewed then mret (Some (losing share ext_already_viewed false)) else
      now ← newDate;
      mret (if (sh_expiresAt share <=? now) then Some (losing share ext_expired true) else None)
  end.

Definition resolveLostExternalClaim (tenant : Uuid) (share : ShareRow) : M RevealOutcome :=
  reread ← selectFirst db_shares (scoped tenant (fun s => sh_id s =? sh_id share));
  let lost := default share reread in
  mret (losing lost (default ext_already_viewed (terminalRevealStatusFor (sh_status lost))) false).

Definition hasValidVerificationProof (share : ShareRow) (proof : option string) : M bool :=
  match sh_verifiedAt share with
  | None => mret false
  | Some verifiedAt =>
      now ← newDate;
      if (verifiedAt + EXTERNAL_SHARE_VERIFICATION_PROOF_TTL_MS <=? now) then mret false
      else lift (verificationProofMatches proof (sh_verificationProofHash share))
  end.

Definition gatedShareMiss (share : ShareRow) : RevealOutcome := losing share ext_not_found true.

Definition auditExternalView (orgId : Uuid) (share claimed : ShareRow) : M unit :=
  writeSystemAuditEntryOrFailClosed orgId "credential.share_viewed" (Some (sh_id claimed)) (Some "credential_share")
    ([("credentialId", JUuid (sh_credentialId claimed)); ("fieldKey", JOptStr (sh_fieldKey share));
      ("attributeKeys", JOptArr (sh_attributeKeys share)); ("viewCount", JInt (sh_viewCount claimed));
      ("recipientType", JStr "external")]
     ++ (if sh_verificationRequired share then [("recipientVerified", JBool true)] else [])).

(** The transaction of the organisation. *)
Definition revealExternalInTx (orgId shareId : Uuid) (proof : option string) : M RevealOutcome :=
  found ← selectFirst db_shares (scoped orgId (fun s => sh_id s =? shareId));
  match found with
  | None => mret (ext_not_found, None)
  | Some current =>
      proven ← (if sh_verificationRequired current then hasValidVerificationProof current proof else mret true);
      if negb proven then mret (gatedShareMiss current) else
      precheck ← precheckExternalShareClaimable current;
      match precheck with
      | Some outcome => mret outcome
      | None =>
          bounded ← serializeBounded (sh_credentialId current) (effectiveAttributeKeysForShare current);
          match formatBoundedRevealValue bounded with
          | None => mret (ext_expired, None)
          | Some value =>
              claimed ← claimSingleUseView orgId (sh_id current);
              match claimed with
              | None => resolveLostExternalClaim orgId current
              | Some claimed =>
                  _ ← auditExternalView orgId current claimed;
                  mret (ext_ok claimed value.1 value.2 (sh_fieldKey current), None)
              end
          end
      end
  end.

(** The result, and the losing attempt that is scheduled after the response. *)
Definition revealExternalShare (rawToken : string) (proof : option string) : M RevealOutcome :=
  let tokenHash := hashShareToken rawToken in
  row ← adminLookupByTokenHash tokenHash;
  match row with
  | None => mret (ext_not_found, None)
  | Some row =>
      if negb (sh_recipientType row =? recipientExternal) then mret (ext_not_found, None)
      else withOrgLater (revealExternalInTx (sh_orgId row) (sh_id row) proof)
  end.

(** ** external-verification-service.ts *)

Definition verifiableShareCondition (now : Date) (shareId : Uuid) (s : ShareRow) : bool :=
  (sh_id s =? shareId) && sh_verificationRequired s && (sh_status s =? shareActive) && (now <? sh_expiresAt s)
  && isNull (sh_lockedAt s) && (sh_verificationAttemptCount s <? EXTERNAL_SHARE_VERIFICATION_MAX_ATTEMPTS).

(** [verification_sent_at IS NULL OR verification_sent_at <= now() - make_interval(secs => 60)] *)
Definition sendAllowed (now : Date) (s : ShareRow) : bool :=
  (sh_verificationSendCount s <? EXTERNAL_SHARE_VERIFICATION_MAX_SENDS)
  && match sh_verificationSentAt s with
     | None => true
     | Some sentAt => (sentAt <=? now - EXTERNAL_SHARE_VERIFICATION_RESEND_COOLDOWN_SECONDS * 1000)
     end.

(** The deferred half of the send: the jobs it queued. *)
Definition sendVerificationCode (rawToken : string) (target : VerificationTarget) : M (list NotificationQueueJob) :=
  code ← generateVerificationCode;
  withOrg (
    now ← dbNow;
    updated ← updateShares (vt_orgId target)
      (fun s => verifiableShareCondition now (vt_shareId target) s && sendAllowed now s)
      (fun s => s <| sh_verificationCodeHash := Some (hashVerificationCode rawToken (vt_shareId target) code) |>
                  <| sh_verificationCodeExpiresAt := Some (now + EXTERNAL_SHARE_VERIFICATION_CODE_TTL_MS)%Z |>
                  <| sh_verificationSendCount := (sh_verificationSendCount s + 1)%Z |>
                  <| sh_verificationSentAt := Some now |>);
    match head updated ≫= (fun s => e ← truthy (sh_recipientEmail s); Some (s, e)) with
    | None => mret []
    | Some (updated, recipientEmail) =>
        joined ← shareWithCredentialAndSharerQuery (vt_orgId target) (fun s => sh_id s =? sh_id updated);
        dispatchDirectEmailNotification (vt_orgId target) recipientEmail
          (MkNotificationTemplate "credential_share.verification_code"
             (JObj [("code", JStr code);
                    ("sharedByDisplayName", JStr (displayNameFromEmail (joined ≫= smd_sharedByEmail)))])
             (Some info))
    end).

(** The masked address, the cooldown and the send that is scheduled. *)
Definition requestExternalShareVerification (rawToken : string) : M (string * Z * option VerificationTarget) :=
  row ← adminLookupByTokenHash (hashShareToken rawToken);
  let external := row ≫= (fun r => if sh_recipientType r =? recipientExternal then Some r else None) in
  let gated := external ≫= (fun r => if sh_verificationRequired r then Some r else None) in
  let liveEmail := gated ≫= (fun r => if sh_status r =? shareActive then sh_recipientEmail r else None) in
  mret (maskedRecipientFor rawToken liveEmail, EXTERNAL_SHARE_VERIFICATION_RESEND_COOLDOWN_SECONDS,
        (fun r => MkVerificationTarget (sh_orgId r) (sh_id r)) <$> gated).

(** The transaction of the organisation; the row is locked from the reservation on. *)
Definition confirmInTx (orgId shareId : Uuid) (rawToken code : string) : M ConfirmVerificationResult :=
  now ← dbNow;
  updated ← updateShares orgId
    (fun s => verifiableShareCondition now shareId s && isNotNull (sh_verificationCodeHash s)
              && match sh_verificationCodeExpiresAt s with Some e => (now <? e) | None => false end)
    (fun s => s <| sh_verificationAttemptCount := (sh_verificationAttemptCount s + 1)%Z |>);
  match head updated with
  | None => mret confirm_failed
  | Some reserved =>
      matches ← lift (verificationCodeMatches rawToken (sh_id reserved) code (sh_verificationCodeHash reserved));
      if (matches : bool) then
        '(proof, proofHash) ← generateVerificationProof;
        _ ← updateWhere db_shares (scoped orgId (fun s => sh_id s =? sh_id reserved))
          (fun s => s <| sh_verificationAttemptCount := (sh_verificationAttemptCount s - 1)%Z |>
                      <| sh_verificationCodeHash := None |> <| sh_verificationCodeExpiresAt := None |>
                      <| sh_verificationProofHash := Some proofHash |> <| sh_verifiedAt := Some now |>);
        mret (confirm_ok proof)
      else
        _ ← (if (EXTERNAL_SHARE_VERIFICATION_MAX_ATTEMPTS <=? sh_verificationAttemptCount reserved)
             then lockShareAfterAttemptCap orgId reserved verification_attempts_exhausted else mret None);
        mret confirm_failed
  end.

Definition confirmExternalShareVerification (rawToken code : string) : M ConfirmVerificationResult :=
  row ← adminLookupByTokenHash (hashShareToken rawToken);
  match row with
  | None => mret confirm_failed
  | Some row =>
      if negb (sh_recipientType row =? recipientExternal) || negb (sh_verificationRequired row)
      then mret confirm_failed
      else withOrgLater (confirmInTx (sh_orgId row) (sh_id row) rawToken code)
  end.

(** ** workers/credential-share-expire.ts *)

Definition findDueCandidates (orgId : Uuid) : M (list Uuid) :=
  now ← newDate;
  rows ← selectWhere db_shares (scoped orgId (fun s =>
    (sh_orgId s =? orgId) && (sh_status s =? shareActive) && (sh_expiresAt s <? now)));
  mret (map sh_id rows).

Definition expireOneShare (orgId candidateId : Uuid) : M bool :=
  catch (withOrgLater (
      row ← selectFirst db_shares (scoped orgId (fun s => sh_id s =? candidateId));
      match row with
      | None => mret false
      | Some row =>
          if negb (sh_status row =? shareActive) then mret false else
          updated ← lazilyExpireShareIfDue orgId row;
          mret (sh_status updated =? shareExpired)
      end))
    (fun _ => mret false).

Definition sweepOrg (orgId : Uuid) : M unit :=
  candidates ← withOrg (findDueCandidates orgId);
  forEachSequential candidates (fun candidate => _ ← expireOneShare orgId candidate; mret tt).

Definition runCredentialShareExpireJob : M unit :=
  orgs ← selectWhere db_organizations (fun _ => true);
  forEachSequential (map org_id orgs) (fun orgId => catch (sweepOrg orgId) (fun _ => mret tt)).
End external.

(** ** step-up.ts *)

Section stepUp.
Context `{Locale, Platform, NodeCrypto, Env, Unicode, OtpValidate, Passwords}.

(** [isNativeLoginEnabled()] is the argument [nativeLogin]. *)
Definition verifyStepUp (nativeLogin : bool) (userId : Uuid) (password totpCode : option string) : M StepUpResult :=
  match (if nativeLogin then truthy password else None) with
  | Some password =>
      row ← selectFirst db_users (fun u => usr_id u =? userId);
      match row with
      | None => mret step_up_invalid_password
      | Some row =>
          valid ← lift (verifyUserPassword password (usr_passwordHash row));
          mret (if (valid : bool) then step_up_ok else step_up_invalid_password)
      end
  | None =>
      match truthy totpCode with
      | Some totpCode =>
          result ← verifyConfirmedLoginTotp userId totpCode;
          mret (if result =? totp_valid then step_up_ok else step_up_invalid_totp)
      | None => mret step_up_missing_factor
      end
  end.
End stepUp.
