(* ===== verification/ShareViews.v ===== *)
(** * What is shown of shares

    shared/utils/share-display-status.ts and its SQL twin
    credential-shares/display-status-sql.ts, and nudge.ts: the recommendation to
    rotate a secret that was shared since it was last rotated or dismissed. *)

From S2P Require Import Prelude Js Crypto FieldSet AuthStore Store Tx Sessions Shares.
From Stdlib Require Import Ascii String.
From stdpp Require Import strings.

Local Open Scope string_scope.
Local Open Scope list_scope.
Local Open Scope pv_scope.

Inductive ShareDisplayStatus := show_active | show_opened | show_locked | show_revoked | show_expired | show_superseded.
#[export] Instance ShareDisplayStatus_eq_dec : EqDecision ShareDisplayStatus.
Proof. solve_decision. Defined.

Definition deriveShareDisplayStatus (share : ShareRow) : ShareDisplayStatus :=
  if isNotNull (sh_lockedAt share) then show_locked
  else
    match sh_status share with
    | shareViewed => show_opened
    | shareActive => if negb (sh_singleUse share) && (0 <? sh_viewCount share) then show_opened else show_active
    | shareExpired => show_expired
    | shareSuperseded => show_superseded
    | shareRevoked => show_revoked
    end.

(** The predicates [opened] and [notLocked] of the SQL. *)
Definition opened (s : ShareRow) : bool :=
  (sh_status s =? shareViewed)
  || ((sh_status s =? shareActive) && (sh_singleUse s =? false) && (0 <? sh_viewCount s)).
Definition notLocked (s : ShareRow) : bool := isNull (sh_lockedAt s).

Definition displayStatusPredicate (displayStatus : ShareDisplayStatus) (s : ShareRow) : bool :=
  match displayStatus with
  | show_locked => isNotNull (sh_lockedAt s)
  | show_opened => notLocked s && opened s
  | show_active => notLocked s && (sh_status s =? shareActive) && negb (opened s)
  | show_expired => notLocked s && (sh_status s =? shareExpired)
  | show_superseded => notLocked s && (sh_status s =? shareSuperseded)
  | show_revoked => notLocked s && negb (sh_status s ∈? [shareActive; shareViewed; shareExpired; shareSuperseded])
  end.

(** The filter of a list agrees with the status shown on each of its rows. *)
Lemma displayStatusPredicate_derives d s : displayStatusPredicate d s = (deriveShareDisplayStatus s =? d).
Proof.
  unfold displayStatusPredicate, deriveShareDisplayStatus, notLocked, opened, isNotNull.
  destruct (isNull (sh_lockedAt s)), (sh_status s), (sh_singleUse s), d; cbn; try reflexivity;
    by destruct (0 <? sh_viewCount s).
Qed.

(** ** nudge.ts *)

Record RotationRecommendedBucket := MkRotationRecommendedBucket {
  rb_fieldKey : option string;
  rb_active : bool;
  rb_mostRecentShareAt : Date;
  rb_mostRecentSharedWith : option string;
}.

Definition WHOLE_CREDENTIAL_BUCKET_KEY : string := "".
Definition bucketKey (fieldKey : option string) : string := default WHOLE_CREDENTIAL_BUCKET_KEY fieldKey.

(** A share as the computation reads it. *)
Record NudgeShare := MkNudgeShare {
  ns_fieldKey : option string;
  ns_status : ShareStatus;
  ns_createdAt : Date;
  ns_recipientEmail : option string;
  ns_recipientUserEmail : option string;
  ns_sharedBy : Uuid;
}.

Definition latestDismissalByBucket (dismissalRows : list NudgeDismissalRow) (key : string) : option Date :=
  fold_left (fun existing row =>
    if bucketKey (nd_fieldKey row) =? key then
      match existing with
      | Some e => if (e <? nd_dismissedAt row) then Some (nd_dismissedAt row) else Some e
      | None => Some (nd_dismissedAt row)
      end
    else existing) dismissalRows None.

(** The buckets in the order of their first shares, each with its shares in order. *)
Fixpoint addToBucket (row : NudgeShare) (buckets : list (string * list NudgeShare)) : list (string * list NudgeShare) :=
  match buckets with
  | [] => [(bucketKey (ns_fieldKey row), [row])]
  | (key, rows) :: buckets' =>
      if key =? bucketKey (ns_fieldKey row) then (key, rows ++ [row]) :: buckets'
      else (key, rows) :: addToBucket row buckets'
  end.

Definition groupSharesByBucket (shareRows : list NudgeShare) : list (string * list NudgeShare) :=
  fold_left (fun buckets row => addToBucket row buckets) shareRows [].

Definition nudgeActive (rows : list NudgeShare) (lastDismissedAt : option Date) : bool :=
  existsb (fun row => negb (ns_status row =? shareSuperseded)
    && match lastDismissedAt with None => true | Some d => (d <? ns_createdAt row) end) rows.

Definition buildBucket (key : string) (rows : list NudgeShare) (lastDismissedAt : option Date)
    (viewerUserId : Uuid) (viewerIsAdmin : bool) : Outcome RotationRecommendedBucket :=
  match rows with
  | [] => Throw (JsError "buildBucket called with an empty rows array")
  | first :: rest =>
      let mostRecent := fold_left (fun latest row => if (ns_createdAt latest <? ns_createdAt row) then row else latest)
                          rest first in
      let canSeeRecipient := viewerIsAdmin || (ns_sharedBy mostRecent =? viewerUserId) in
      Ok (MkRotationRecommendedBucket (if key =? WHOLE_CREDENTIAL_BUCKET_KEY then None else Some key)
            (nudgeActive rows lastDismissedAt) (ns_createdAt mostRecent)
            (if canSeeRecipient
             then match ns_recipientEmail mostRecent with Some e => Some e | None => ns_recipientUserEmail mostRecent end
             else None))
  end.

(** The shares of the credential, each with the address of its recipient's account. *)
Definition selectNudgeShares (orgId credentialId : Uuid) : M (list NudgeShare) := fun w =>
  (Ok (map (fun s : ShareRow =>
         MkNudgeShare (sh_fieldKey s) (sh_status s) (sh_createdAt s) (sh_recipientEmail s)
           (usr_email <$> head (List.filter (fun u : UserRow => Some (usr_id u) =? sh_recipientUserId s) (db_users (w_db w))))
           (effectiveSharerOf s))
       (List.filter (scoped orgId (fun s => (sh_orgId s =? orgId) && (sh_credentialId s =? credentialId)))
          (db_shares (w_db w)))), w).

Definition computeRotationRecommendedNudges (orgId credentialId viewerUserId : Uuid) (viewerIsAdmin : bool)
    : M (list RotationRecommendedBucket) :=
  shareRows ← selectNudgeShares orgId credentialId;
  match shareRows with
  | [] => mret []
  | _ =>
      dismissalRows ← selectWhere db_nudgeDismissals (fun d =>
        (nd_orgId d =? orgId) && (nd_credentialId d =? credentialId));
      forEachCollect (groupSharesByBucket shareRows) (fun '(key, rows) =>
        lift (buildBucket key rows (latestDismissalByBucket dismissalRows key) viewerUserId viewerIsAdmin))
  end.

Definition dismissRotationRecommendedNudge `{Platform, Unicode} (orgId credentialId : Uuid) (fieldKey : option string)
    (dismissedBy : Uuid) (reason : string) : M (option Date) :=
  let trimmedReason := trim reason in
  if trimmedReason =? "" then mret None else
  id ← genRandomUuid;
  now ← dbNow;
  row ← insertRow db_nudgeDismissals (fun new old => nd_id new =? nd_id old)
    (MkNudgeDismissalRow id orgId credentialId fieldKey dismissedBy now trimmedReason);
  mret (Some (nd_dismissedAt row)).
