(* ===== verification/ShareEvolution.v ===== *)
(** * How shares change

    What every operation of modules/credential-shares does to the table of
    shares, and what it relies on other transactions to do while it waits for a
    row: shares are only added, and each moves along the graph [statusLe], its
    counters never going back ([SharesEvolve]).  The operations are the type
    [ShareOp], as the routes and the worker run them. *)

From S2P Require Import Prelude Js Crypto FieldSet AuthStore Store Tx QuotaGate AuditLog Notifications Credentials Frames Sessions Shares ExternalShares.
From Stdlib Require Import Ascii String.
From stdpp Require Import strings.

Local Open Scope string_scope.
Local Open Scope list_scope.
Local Open Scope pv_scope.

(** ** The graph of the status and the invariant of a row *)

Definition statusLe (a b : ShareStatus) : bool :=
  match a, b with
  | shareActive, _ => true
  | shareViewed, (shareViewed | shareSuperseded | shareRevoked) => true
  | shareExpired, (shareExpired | shareRevoked) => true
  | shareSuperseded, (shareSuperseded | shareRevoked) => true
  | shareRevoked, shareRevoked => true
  | _, _ => false
  end.

Lemma statusLe_refl a : statusLe a a = true.
Proof. by destruct a. Qed.
Lemma statusLe_revoked a : statusLe a shareRevoked = true.
Proof. by destruct a. Qed.
Lemma statusLe_trans a b c : statusLe a b = true -> statusLe b c = true -> statusLe a c = true.
Proof. by destruct a, b, c. Qed.
Lemma statusLe_active a b : statusLe a b = true -> b = shareActive -> a = shareActive.
Proof. by destruct a, b. Qed.

Record ShareOk (s : ShareRow) : Prop := {
  ok_locked : sh_lockedAt s <> None -> sh_status s = shareRevoked;
  ok_guesses : (0 <= sh_verificationAttemptCount s <= EXTERNAL_SHARE_VERIFICATION_MAX_ATTEMPTS)%Z;
  ok_guessLock : sh_verificationAttemptCount s = EXTERNAL_SHARE_VERIFICATION_MAX_ATTEMPTS -> sh_status s = shareRevoked;
  ok_sends : (0 <= sh_verificationSendCount s <= EXTERNAL_SHARE_VERIFICATION_MAX_SENDS)%Z;
  ok_revealLock : (EXTERNAL_SHARE_MAX_REVEAL_ATTEMPTS <= sh_revealAttemptCount s)%Z -> sh_status s = shareRevoked;
  ok_external : sh_recipientType s = recipientExternal -> sh_singleUse s = true;
  ok_views : (0 <= sh_viewCount s)%Z;
  ok_unviewed : sh_singleUse s = true -> sh_status s = shareActive -> sh_viewCount s = 0%Z;
  ok_once : sh_singleUse s = true -> (sh_viewCount s <= 1)%Z;
  ok_viewed : sh_status s = shareViewed -> sh_singleUse s = true /\ sh_viewCount s = 1%Z;
}.

(** The columns that no statement writes. *)
Definition shareIdentity (s : ShareRow) :=
  (sh_id s, sh_orgId s, sh_credentialId s, sh_fieldKey s, sh_attributeKeys s, sh_sharedBy s, sh_actingUserId s,
   sh_hostCreated s, sh_recipientType s, sh_recipientUserId s, sh_recipientEmail s, sh_tokenHash s, sh_singleUse s,
   sh_createdAt s, sh_expiresAt s, sh_verificationRequired s).

Record evolves (s s' : ShareRow) : Prop := {
  ev_identity : shareIdentity s' = shareIdentity s;
  ev_status : statusLe (sh_status s) (sh_status s') = true;
  ev_views : (sh_viewCount s <= sh_viewCount s')%Z;
  ev_viewsFixed : sh_status s <> shareActive -> sh_viewCount s' = sh_viewCount s;
  ev_reveals : (sh_revealAttemptCount s <= sh_revealAttemptCount s')%Z;
  ev_guesses : (sh_verificationAttemptCount s <= sh_verificationAttemptCount s')%Z;
  ev_sends : (sh_verificationSendCount s <= sh_verificationSendCount s')%Z;
  ev_locked : sh_lockedAt s <> None -> sh_lockedAt s' = sh_lockedAt s;
}.

#[export] Instance evolves_preorder : PreOrder evolves.
Proof.
  split.
  - intros s. constructor; try done. apply statusLe_refl.
  - intros a b c [] []. constructor; try lia; try congruence; try naive_solver.
    + by eapply statusLe_trans.
    + intros Ha. rewrite ev_viewsFixed1; [auto|]. intros Hb. by apply Ha, (statusLe_active _ _ ev_status0).
    + intros Ha. rewrite ev_locked1; [auto|]. by rewrite ev_locked0.
Qed.

Lemma evolves_id s s' : evolves s s' -> sh_id s' = sh_id s.
Proof. intros E%ev_identity. by injection E. Qed.
Lemma evolves_hash s s' : evolves s s' -> sh_tokenHash s' = sh_tokenHash s.
Proof. intros E%ev_identity. by injection E. Qed.
Lemma evolves_singleUse s s' : evolves s s' -> sh_singleUse s' = sh_singleUse s.
Proof. intros E%ev_identity. by injection E. Qed.

(** ** The table *)

Record SharesOk (l : list ShareRow) : Prop := {
  so_ids : NoDup (map sh_id l);
  so_hashes : NoDup (map sh_tokenHash l);
  so_rows : forall s, s ∈ l -> ShareOk s;
}.

Definition extends (l l' : list ShareRow) : Prop := exists l1 new, l' = l1 ++ new /\ Forall2 evolves l l1.

#[export] Instance extends_preorder : PreOrder extends.
Proof.
  split.
  - intros l. exists l, []. split; [by rewrite app_nil_r|]. induction l; by constructor.
  - intros a b c (b1 & n & -> & Hab) (c1 & m & -> & Hbc).
    apply Forall2_app_inv_l in Hbc as (c2 & c3 & H2 & H3 & ->). exists c2, (c3 ++ m). split; [by rewrite app_assoc|].
    clear -Hab H2. revert c2 H2. induction Hab; intros c2 H2; inversion H2; subst; constructor; [by etrans|auto].
Qed.

Definition SharesEvolve (l l' : list ShareRow) : Prop := SharesOk l' /\ extends l l'.

Lemma SharesEvolve_refl l : SharesOk l -> SharesEvolve l l.
Proof. by split. Qed.
Lemma SharesEvolve_trans a b c : SharesEvolve a b -> SharesEvolve b c -> SharesEvolve a c.
Proof. intros [_ H1] [? H2]. split; [done|by etrans]. Qed.

Lemma extends_row l l' s : extends l l' -> s ∈ l -> exists s', s' ∈ l' /\ evolves s s'.
Proof.
  intros (l1 & new & -> & HF) Hs. destruct (Forall2_in_l _ _ _ _ HF Hs) as (s' & Hs' & He).
  exists s'. split; [apply elem_of_app; by left|done].
Qed.

(** The row that has the identifier of an earlier one is that row. *)
Lemma extends_same l l' s s' :
  SharesOk l' -> extends l l' -> s ∈ l -> s' ∈ l' -> sh_id s' = sh_id s -> evolves s s'.
Proof.
  intros [Hnd _ _] HE Hs Hs' E. destruct (extends_row _ _ _ HE Hs) as (t & Ht & He).
  by rewrite (NoDup_key_inj sh_id l' s' t) by (try done; by rewrite (evolves_id _ _ He)).
Qed.

Lemma SharesOk_map l l1 : Forall2 evolves l l1 -> SharesOk l -> (forall s, s ∈ l1 -> ShareOk s) -> SharesOk l1.
Proof.
  intros HF [Hi Hh _] Hr. constructor; [..|done].
  - replace (map sh_id l1) with (map sh_id l); [done|]. clear -HF.
    induction HF as [|x y l l1 Hx HF IH]; cbn; [done|]. by rewrite IH, (evolves_id _ _ Hx).
  - replace (map sh_tokenHash l1) with (map sh_tokenHash l); [done|]. clear -HF.
    induction HF as [|x y l l1 Hx HF IH]; cbn; [done|]. by rewrite IH, (evolves_hash _ _ Hx).
Qed.

Definition evolvesOk (s s' : ShareRow) : Prop := evolves s s' /\ ShareOk s'.

Lemma SharesEvolve_update l0 l p f :
  SharesEvolve l0 l -> (forall s, s ∈ l -> p s = true -> ShareOk s -> evolvesOk s (f s)) ->
  SharesEvolve l0 (map_where p f l).
Proof.
  intros HE Hf. eapply SharesEvolve_trans; [exact HE|]. destruct HE as [HO _].
  assert (HF : Forall2 evolves l (map_where p f l)).
  { unfold map_where. apply Forall2_fmap_r, Forall_Forall2_diag, Forall_forall. intros s Hs. cbn.
    destruct (p s) eqn:Ep; [by apply Hf, HO|done]. }
  split; [|exists (map_where p f l), []; by rewrite app_nil_r]. apply (SharesOk_map l); [done..|].
  intros y (s & Hs & ->)%elem_of_map_where. destruct (p s) eqn:Ep; [apply Hf|]; by try apply HO.
Qed.

Lemma SharesEvolve_insert l0 l s :
  SharesEvolve l0 l -> (forall r, r ∈ l -> shareConflict s r = false) -> ShareOk s ->
  SharesEvolve l0 (l ++ [s]).
Proof.
  intros HE Hc Hs. eapply SharesEvolve_trans; [exact HE|]. destruct HE as [[Hi Hh Hr] _].
  split; [|exists l, [s]; split; [done|]; apply (Forall_Forall2_diag evolves), Forall_forall; done].
  constructor.
  - rewrite map_app. apply NoDup_app. split; [done|]. split; [|apply NoDup_singleton].
    intros x (r & -> & Hin)%elem_of_map E%list_elem_of_singleton. specialize (Hc r Hin).
    unfold shareConflict in Hc. bool_simpl. congruence.
  - rewrite map_app. apply NoDup_app. split; [done|]. split; [|apply NoDup_singleton].
    intros x (r & -> & Hin)%elem_of_map E%list_elem_of_singleton. specialize (Hc r Hin).
    unfold shareConflict in Hc. bool_simpl. congruence.
  - intros r [Hin| ->%list_elem_of_singleton]%elem_of_app; auto.
Qed.

(** ** The operations *)

Inductive ShareOp :=
| op_shareCreate (input : CreateShareInput)
| op_shareCreateExternal (input : CreateExternalShareInput)
| op_shareRevoke (orgId credentialId shareId : Uuid)
| op_shareDeactivateUser (orgId userId : Uuid)
| op_shareFind (orgId userId : Uuid) (rawToken : string)
| op_shareReveal (orgId userId : Uuid) (rawToken : string) (meta : RequestMeta)
| op_shareSupersede (orgId userId projectId credentialId rotationId : Uuid) (targetFields : option (list string))
    (meta : RequestMeta)
| op_shareFindExternal (rawToken : string)
| op_shareRevealExternal (rawToken : string) (proof : option string)
| op_shareLosing (deferred : DeferredLosingAttempt)
| op_shareRequestCode (rawToken : string)
| op_shareSendCode (rawToken : string) (target : VerificationTarget)
| op_shareConfirm (rawToken code : string)
| op_shareExpireJob.

(** What a request answers: the share it opened, if it opened one. *)
Definition openedNative (r : RevealShareResult) : option ShareRow :=
  match r with reveal_ok share _ _ _ => Some share | _ => None end.
Definition openedExternal (r : RevealOutcome) : option ShareRow :=
  match r.1 with ext_ok share _ _ _ => Some share | _ => None end.

Section ops.
Context `{Locale, Platform, NodeCrypto, Env, Unicode}.

Definition answering {A} (m : M A) : M (option ShareRow) := _ ← m; mret None.

Definition runShareOp (op : ShareOp) : M (option ShareRow) :=
  match op with
  | op_shareCreate input => answering (withOrg (createCredentialShare input))
  | op_shareCreateExternal input => answering (withOrg (createExternalCredentialShare input))
  | op_shareRevoke o c s => answering (withOrg (revokeShare o c s))
  | op_shareDeactivateUser o u => answering (withOrg (autoRevokeSharesForDeactivatedUser o u))
  | op_shareFind o u k => answering (withOrg (findShareByToken o k u))
  | op_shareReveal o u k m => r ← revealShareRoute o u k m; mret (openedNative r)
  | op_shareSupersede o u p c r f m => answering (withOrg (supersedeOutstandingSharesAndAudit o u p c r f m))
  | op_shareFindExternal k => answering (findExternalShareByTokenHash k)
  | op_shareRevealExternal k p => r ← revealExternalShare k p; mret (openedExternal r)
  | op_shareLosing d => answering (runDeferredTask (applyDeferredLosingAttempt d))
  | op_shareRequestCode k => answering (requestExternalShareVerification k)
  | op_shareSendCode k t => answering (runDeferredTask (sendVerificationCode k t))
  | op_shareConfirm k c => answering (confirmExternalShareVerification k c)
  | op_shareExpireJob => answering runCredentialShareExpireJob
  end.

(** The share an operation opened: a request that throws opened none. *)
Definition openedBy (op : ShareOp) (w : World) : option ShareRow :=
  match fst (runShareOp op w) with Ok o => o | Throw _ => None end.

(** The operations one after the other: the shares they opened, and the world they leave. *)
Fixpoint runShareOps (ops : list ShareOp) (w : World) : list (option ShareRow) * World :=
  match ops with
  | [] => ([], w)
  | op :: ops' => let r := runShareOps ops' (snd (runShareOp op w)) in (openedBy op w :: r.1, r.2)
  end.

(** ** Reductions *)

Definition evolvedFrom (l0 : list ShareRow) (a : AuthDb) : Prop := SharesEvolve l0 (au_shares a).
Notation Ev l0 := (fun db => evolvedFrom l0 (db_auth db)).

(** What the holder of a row commits while this transaction waits for it. *)
Definition politeWait (f : Db -> Db) : Prop :=
  forall db, SharesOk (db_shares db) -> SharesEvolve (db_shares db) (db_shares (f db)).

Definition evolving {A} (m : M A) : Prop := forall l0, preserves (Ev l0) politeWait m.
Definition evolvingOk {A} (m : M A) : Prop := forall l0, preservesOk (Ev l0) politeWait m.

Lemma evolving_here {A} (m : M A) :
  (forall w, SharesOk (db_shares (w_db w)) -> politeWait (w_onWait w) ->
     wp m (fun _ w' => holds (Ev (db_shares (w_db w))) politeWait w') w) -> evolving m.
Proof.
  intros Hm l0 w [HE HW]. eapply wp_mono; [apply Hm; [apply HE|done]|]. intros o w' [HE' HW']. split; [|done].
  by eapply SharesEvolve_trans.
Qed.
Lemma evolvingOk_here {A} (m : M A) :
  (forall w, SharesOk (db_shares (w_db w)) -> politeWait (w_onWait w) ->
     wp m (okPost (Ev (db_shares (w_db w))) politeWait) w) -> evolvingOk m.
Proof.
  intros Hm l0 w [HE HW]. eapply wp_mono; [apply Hm; [apply HE|done]|]. intros [a|e] w' HP; [|exact HP].
  destruct HP as [HE' HW']. split; [|done]. by eapply SharesEvolve_trans.
Qed.
Lemma holds_here w :
  SharesOk (db_shares (w_db w)) -> politeWait (w_onWait w) -> holds (Ev (db_shares (w_db w))) politeWait w.
Proof. intros HO HW. split; [by apply SharesEvolve_refl|done]. Qed.
Lemma holds_ok l0 w : holds (Ev l0) politeWait w -> SharesOk (db_shares (w_db w)).
Proof. by intros [[? _] _]. Qed.

Section fixed.
Context (l0 : list ShareRow).
Notation sharesP := (Ev l0).

Lemma ev_otherCommits : preserves sharesP politeWait otherCommits.
Proof.
  intros w [HE HW]. split; [|exact HW]. eapply SharesEvolve_trans; [exact HE|]. apply HW, HE.
Qed.

Lemma ev_updateWhere tenant p f :
  (forall l s, SharesEvolve l0 l -> s ∈ l -> scoped tenant p s = true -> ShareOk s -> evolvesOk s (f s)) ->
  preserves sharesP politeWait (updateWhere db_shares (scoped tenant p) f).
Proof. intros Hf. apply preserves_updateWhere. intros db HE. apply SharesEvolve_update; [exact HE|]. intros s. by apply Hf. Qed.

Lemma ev_updateShares tenant p f :
  (forall l s, SharesEvolve l0 l -> s ∈ l -> scoped tenant p s = true -> ShareOk s -> evolvesOk s (f s)) ->
  preserves sharesP politeWait (updateShares tenant p f).
Proof. intros Hf. apply preserves_bind; [apply ev_otherCommits|]. intros _. by apply ev_updateWhere. Qed.

Lemma ev_other {R} (t : Db -> list R) `{!Setter t} c r :
  (forall db g, au_shares (db_auth (db <| t ::= g |>)) = au_shares (db_auth db)) ->
  preserves sharesP politeWait (insertRow t c r).
Proof. intros Ht. apply preserves_insertRow. intros db HE _. unfold evolvedFrom in *. by rewrite Ht. Qed.

Lemma ev_failClosed {A} (m : M A) :
  preserves sharesP politeWait m -> preserves sharesP politeWait (rethrowAsSameTransactionAuditWriteError m).
Proof.
  intros Hm. unfold rethrowAsSameTransactionAuditWriteError. apply preserves_catch.
  - apply preserves_bind; [done|]. intros ?. preserve.
  - intros []; preserve.
Qed.
Lemma ev_systemAudit o e r t p : preserves sharesP politeWait (writeSystemAuditEntryOrFailClosed o e r t p).
Proof. apply ev_failClosed, (auth_writeSystem (evolvedFrom l0)). Qed.
Lemma ev_humanAudit o a e r t p m : preserves sharesP politeWait (writeHumanAuditEntryOrFailClosed o a e r t p m).
Proof.
  apply ev_failClosed, preserves_bind; [unfold firstActorTokenIdForUser; preserve|]. intros ?.
  apply (auth_writeHuman (evolvedFrom l0)).
Qed.

(** Statements that only read, and audit entries. *)
Ltac shares :=
  repeat first
    [ apply ev_systemAudit | apply ev_humanAudit
    | apply preserves_bind; [|intros ?]
    | match goal with
      | |- preserves _ _ (if ?b then _ else _) => destruct b
      | |- preserves _ _ (match ?x with _ => _ end) => destruct x
      end
    | progress preserve
    | apply ev_other; intros ? ?; reflexivity
    | apply preserves_readOnly; solve [auto with pv] ].

(** *** What only reads *)

Lemma ev_joined tenant p : preserves sharesP politeWait (shareWithCredentialAndSharerQuery tenant p).
Proof. by intros w. Qed.
Lemma ev_generateOpaque : preserves sharesP politeWait generateOpaque.
Proof. by intros w. Qed.
Lemma ev_serializeBounded c k : preserves sharesP politeWait (serializeBounded c k).
Proof.
  unfold serializeBounded, loadCredentialProjectId, serializeBoundedSingleKey, serializeBoundedFiltered,
    serializeBoundedSingleFieldValue, revealCurrentValue, findCredentialInProject, selectCurrentVersionMeta.
  shares.
Qed.
Lemma ev_preflight c p : preserves sharesP politeWait (preflightCredentialForShareCreation c p).
Proof. unfold preflightCredentialForShareCreation, credentialExistsInProject, isProjectDeleted, isCredentialArchived. shares. Qed.
Lemma ev_validate c f k e m : preserves sharesP politeWait (validateShareFieldAndExpiry c f k e m).
Proof.
  unfold validateShareFieldAndExpiry, validateFieldKey, validateAttributeKeys, declaredFieldKeys, attributeKeys,
    selectCurrentVersionMeta. shares.
Qed.
Lemma ev_membership o u : preserves sharesP politeWait (findActiveOrgMembership o u).
Proof. unfold findActiveOrgMembership. shares. Qed.
Lemma ev_proof s p : preserves sharesP politeWait (hasValidVerificationProof s p).
Proof. unfold hasValidVerificationProof. shares. Qed.
Lemma ev_precheckExternal s : preserves sharesP politeWait (precheckExternalShareClaimable s).
Proof. unfold precheckExternalShareClaimable. shares. Qed.

(** *** The writes *)

(** An UPDATE of one row: each column of [evolves] and of [ShareOk] in turn. *)
Ltac row_evolves :=
  match goal with HO : ShareOk ?s |- evolvesOk ?s _ =>
    destruct HO as [HL HG HGL HS HR HX HV HU HO HD]; split; constructor;
    unfold EXTERNAL_SHARE_VERIFICATION_MAX_ATTEMPTS, EXTERNAL_SHARE_VERIFICATION_MAX_SENDS,
      EXTERNAL_SHARE_MAX_REVEAL_ATTEMPTS in *; cbn;
    repeat match goal with E : sh_status _ = _ |- _ => rewrite E in * end;
    try solve [ assumption | reflexivity | apply statusLe_refl | apply statusLe_revoked | by auto | lia | intuition (congruence || lia) ]
  end.

Lemma activeShare_status tenant i s : scoped tenant (activeShare i) s = true -> sh_status s = shareActive /\ sh_id s = i.
Proof. unfold scoped, activeShare. intros ?. by bool_simpl. Qed.

Lemma ev_revokeActive tenant i now :
  preserves sharesP politeWait (updateShares tenant (activeShare i)
    (fun s => s <| sh_status := shareRevoked |> <| sh_revokedAt := Some now |>)).
Proof. apply ev_updateShares. intros l s _ _ [Es _]%activeShare_status HO. row_evolves. Qed.

Lemma ev_expireActive tenant i :
  preserves sharesP politeWait (updateShares tenant (activeShare i) (fun s => s <| sh_status := shareExpired |>)).
Proof. apply ev_updateShares. intros l s _ _ [Es _]%activeShare_status HO. row_evolves. Qed.

Lemma ev_lazilyExpire tenant share : preserves sharesP politeWait (lazilyExpireShareIfDue tenant share).
Proof.
  unfold lazilyExpireShareIfDue. destruct (negb _); [shares|]. apply preserves_bind; [shares|]. intros now.
  case_bool_decide; [shares|]. apply preserves_bind; [apply ev_expireActive|]. intros l. shares.
Qed.

Lemma ev_supersede o c f : preserves sharesP politeWait (supersedeOutstandingSharesForRotation o c f).
Proof.
  unfold supersedeOutstandingSharesForRotation. apply preserves_bind; [shares|]. intros now.
  apply ev_updateShares. intros l s _ _ Hs HO. unfold scoped in Hs. bool_simpl.
  match goal with E : isOutstanding s = true |- _ => apply orb_true_iff in E as [E|E] end; bool_simpl; row_evolves.
Qed.

Lemma ev_deactivate o u : preserves sharesP politeWait (autoRevokeSharesForDeactivatedUser o u).
Proof.
  unfold autoRevokeSharesForDeactivatedUser. apply preserves_bind; [shares|]. intros now.
  apply ev_updateShares. intros l s _ _ Hs HO. unfold scoped in Hs. bool_simpl. row_evolves.
Qed.

(** A view is recorded on a share that the transaction has read. *)
Lemma ev_claimSingleUse tenant share :
  share ∈ l0 -> sh_singleUse share = true -> preserves sharesP politeWait (claimSingleUseView tenant (sh_id share)).
Proof.
  intros Hs Hu. unfold claimSingleUseView. apply preserves_bind; [shares|]. intros now.
  apply preserves_bind; [|intros ?; shares]. apply ev_updateShares.
  intros l s [HO HE] Hin [Es Ei]%activeShare_status Hok.
  pose proof (evolves_singleUse _ _ (extends_same _ _ _ _ HO HE Hs Hin Ei)) as Eu. rewrite Hu in Eu. row_evolves.
Qed.

Lemma ev_recordMultiView tenant share :
  share ∈ l0 -> sh_singleUse share = false -> preserves sharesP politeWait (recordMultiView tenant (sh_id share)).
Proof.
  intros Hs Hu. unfold recordMultiView. apply preserves_bind; [shares|]. intros now.
  apply preserves_bind; [|intros ?; shares]. apply ev_updateShares.
  intros l s [HO HE] Hin [Es Ei]%activeShare_status Hok.
  pose proof (evolves_singleUse _ _ (extends_same _ _ _ _ HO HE Hs Hin Ei)) as Eu. rewrite Hu in Eu. row_evolves.
Qed.

Lemma ev_insertShare input fk ak h rcp :
  (rcp_type rcp = recipientExternal -> rcp_singleUse rcp = true) ->
  preserves sharesP politeWait (insertShare input fk ak h rcp).
Proof.
  intros Hx. unfold insertShare. apply preserves_bind; [shares|]. intros i. apply preserves_bind; [shares|]. intros now.
  apply preserves_insertRow. intros db HE Hc. apply SharesEvolve_insert; [exact HE|exact Hc|].
  constructor; cbn; unfold EXTERNAL_SHARE_VERIFICATION_MAX_ATTEMPTS, EXTERNAL_SHARE_VERIFICATION_MAX_SENDS,
    EXTERNAL_SHARE_MAX_REVEAL_ATTEMPTS; try done; try lia.
Qed.

Lemma ev_revoke o c i : preserves sharesP politeWait (revokeShare o c i).
Proof.
  unfold revokeShare, findShareInScope. apply preserves_bind; [shares|]. intros [e|]; [|shares]. destruct (negb _); [shares|].
  apply preserves_bind; [shares|]. intros now. apply preserves_bind; [apply ev_revokeActive|]. intros l. shares.
Qed.

Lemma ev_findByToken o k u : preserves sharesP politeWait (findShareByToken o k u).
Proof.
  unfold findShareByToken. apply preserves_bind; [apply ev_joined|]. intros [row|]; [|shares].
  destruct (negb _); [shares|]. destruct (negb _); [shares|]. apply preserves_bind; [apply ev_lazilyExpire|]. intros ?. shares.
Qed.

Lemma ev_create input : preserves sharesP politeWait (createCredentialShare input).
Proof.
  unfold createCredentialShare. apply preserves_bind; [apply ev_preflight|]. intros [?|]; [shares|].
  case_bool_decide; [shares|]. apply preserves_bind; [apply ev_membership|]. intros [[]|]; [|shares|shares].
  apply preserves_bind; [apply ev_validate|]. intros [?|[f k]]; [shares|].
  apply preserves_bind; [unfold generateAndHashShareToken; apply preserves_bind; [apply ev_generateOpaque|intros ?; shares]|].
  intros [t h]. apply preserves_bind; [by apply ev_insertShare|]. intros ?. shares.
Qed.

Lemma ev_createExternal input : preserves sharesP politeWait (createExternalCredentialShare input).
Proof.
  unfold createExternalCredentialShare. apply preserves_bind; [apply ev_preflight|]. intros [?|]; [shares|].
  apply preserves_bind; [apply ev_validate|]. intros [?|[f k]]; [shares|].
  apply preserves_bind; [apply ev_otherCommits|]. intros ?. apply preserves_bind; [shares|]. intros now.
  apply preserves_bind; [shares|]. intros rows. case_bool_decide; [shares|].
  apply preserves_bind; [unfold generateAndHashShareToken; apply preserves_bind; [apply ev_generateOpaque|intros ?; shares]|].
  intros [t h]. apply preserves_bind; [by apply ev_insertShare|]. intros ?. shares.
Qed.

Lemma ev_supersedeAudit o u p c r f m :
  preserves sharesP politeWait (supersedeOutstandingSharesAndAudit o u p c r f m).
Proof.
  unfold supersedeOutstandingSharesAndAudit. apply preserves_bind; [apply ev_supersede|]. intros rows.
  apply preserves_forEachSequential. intros ?. apply ev_humanAudit.
Qed.

Lemma ev_sendCode k t : preserves sharesP politeWait (sendVerificationCode k t).
Proof.
  unfold sendVerificationCode. apply preserves_bind; [by intros w|]. intros code. apply preserves_withOrg, preserves_ok.
  apply preserves_bind; [shares|]. intros now. apply preserves_bind.
  - apply ev_updateShares. intros l s _ _ Hs HO. unfold scoped, sendAllowed in Hs. bool_simpl.
    match goal with E : (sh_verificationSendCount s < _)%Z |- _ => revert E end. clear - HO. intros E. row_evolves.
  - intros rows. destruct (_ ≫= _) as [[s e]|]; [|shares]. apply preserves_bind; [apply ev_joined|]. intros j.
    unfold dispatchDirectEmailNotification, insertQueue. apply preserves_bind; [|intros ?; shares].
    apply preserves_bind; [shares|]. intros id. shares.
Qed.
(** *** Attempts: the count and the lock together *)

Definition lockRow (now : Date) (s : ShareRow) : ShareRow :=
  s <| sh_status := shareRevoked |> <| sh_revokedAt := Some now |> <| sh_lockedAt := Some now |>
    <| sh_verificationCodeHash := None |> <| sh_verificationCodeExpiresAt := None |>.

(** The lock writes its row and adds an audit entry, or throws. *)
Lemma lock_spec tenant share reason w :
  wp (lockShareAfterAttemptCap tenant share reason) (fun o w' => w_onWait w' = w_onWait w /\
    exists now, db_shares (w_db w') =
      map_where (scoped tenant (fun s => (sh_id s =? sh_id share) && negb (sh_status s =? shareRevoked))) (lockRow now)
        (db_shares (w_db w))) w.
Proof.
  unfold lockShareAfterAttemptCap. apply wp_newDate, wp_bind_update. set (w1 := _ <| w_db ::= _ |>).
  assert (Hw1 : w_onWait w1 = w_onWait w /\ exists now, db_shares (w_db w1) =
    map_where (scoped tenant (fun s => (sh_id s =? sh_id share) && negb (sh_status s =? shareRevoked))) (lockRow now)
      (db_shares (w_db w))) by (split; [done|by eexists]).
  destruct (head _) as [locked|]; [|exact Hw1]. apply wp_bind.
  assert (Ha : preserves (fun db => au_shares (db_auth db) = db_shares (w_db w1)) (fun f => f = w_onWait w)
    (writeSystemAuditEntryOrFailClosed (sh_orgId locked) "credential.share_revoked" (Some (sh_id locked))
            (Some "credential_share")
            [("credentialId", JUuid (sh_credentialId locked));
             ("recipientType", JStr (match sh_recipientType locked with recipientUser => "user" | recipientExternal => "external" end));
             ("attributeKeys", JOptArr (sh_attributeKeys locked)); ("reason", JStr (lockReasonName reason))])).
  { unfold writeSystemAuditEntryOrFailClosed, rethrowAsSameTransactionAuditWriteError. apply preserves_catch.
    - apply preserves_bind; [apply (auth_writeSystem (fun a => au_shares a = db_shares (w_db w1)))|]. intros ?. preserve.
    - intros []; preserve. }
  eapply wp_mono; [apply Ha; by split|]. intros [a|e] w' [E EW]; change (au_shares (db_auth (w_db w'))) with (db_shares (w_db w')) in E;
    (split; [done|]); destruct Hw1 as [_ [now E1]]; exists now; by rewrite E.
Qed.

Lemma wp_bind_updateShares {A} tenant p f (k : list ShareRow -> M A) (Q : Outcome A -> World -> Prop) w w1 :
  w1 = w <| w_db ::= w_onWait w |> ->
  wp (k (map f (List.filter (scoped tenant p) (db_shares (w_db w1)))))
    Q (w1 <| w_db ::= fun db => db <| db_shares ::= map_where (scoped tenant p) f |> |>) ->
  wp (updateShares tenant p f ≫= k) Q w.
Proof. by intros ->. Qed.

Lemma head_map_filter {R} (f : R -> R) p (l : list R) :
  (head (map f (List.filter p l)) = None /\ forall x, x ∈ l -> p x = false) \/
  exists r, head (map f (List.filter p l)) = Some (f r) /\ r ∈ l /\ p r = true.
Proof.
  destruct (List.filter p l) as [|r rs] eqn:E.
  - left. split; [done|]. intros x Hx. destruct (p x) eqn:Ep; [|done].
    assert (Hin : x ∈ List.filter p l) by (by apply elem_of_lfilter). rewrite E in Hin. by apply not_elem_of_nil in Hin.
  - right. exists r. assert (Hin : r ∈ List.filter p l) by (rewrite E; left). by apply elem_of_lfilter in Hin as [? ?].
Qed.

(** Rows that the tenant sees under one identifier. *)
Lemma scoped_id_same l tenant i s r :
  SharesOk l -> s ∈ l -> r ∈ l -> scoped tenant (fun x => sh_id x =? i) s = true -> sh_id r = i -> s = r.
Proof.
  intros HO Hs Hr E Er. unfold scoped in E. bool_simpl.
  apply (NoDup_key_inj sh_id l); [apply HO|done|done|congruence].
Qed.

Lemma ev_losing tenant share : preservesOk sharesP politeWait (recordLosingAttempt tenant share).
Proof.
  intros w HP. unfold recordLosingAttempt.
  set (inc := fun s : ShareRow => s <| sh_revealAttemptCount := (sh_revealAttemptCount s + 1)%Z |>).
  eapply wp_bind_updateShares; [reflexivity|]. set (w1 := w <| w_db ::= _ |>).
  assert (HP1 : holds (Ev l0) politeWait w1) by (exact (ev_otherCommits w HP)).
  destruct HP1 as [HE1 HW1]. change (SharesEvolve l0 (db_shares (w_db w1))) in HE1.
  set (l := db_shares (w_db w1)) in *. set (p := scoped tenant _). set (current := default share _).
  destruct (negb (sh_status current =? shareRevoked) && (EXTERNAL_SHARE_MAX_REVEAL_ATTEMPTS <=? sh_revealAttemptCount current)) eqn:Eb.
  - apply wp_bind. eapply wp_mono; [apply lock_spec|]. intros o w' [EW [now E]].
    assert (HE' : SharesEvolve l0 (db_shares (w_db w'))).
    { rewrite E. change (db_shares _) with (map_where p inc l).
      assert (Ecur : sh_id current = sh_id share).
      { unfold current. destruct (head_map_filter inc p l) as [[-> _]|(r & -> & _ & Er)]; [done|].
        unfold p, scoped in Er. bool_simpl. done. }
      rewrite map_where_compose.
      - apply SharesEvolve_update; [done|]. intros s Hs Ep HO. unfold p, scoped in Ep. bool_simpl.
        assert (Eq : scoped tenant (fun x => (sh_id x =? sh_id current) && negb (sh_status x =? shareRevoked)) (inc s)
                     = negb (sh_status s =? shareRevoked)).
        { unfold scoped. cbn. rewrite !bool_decide_true by congruence. done. }
        rewrite Eq. unfold inc, lockRow.
        case_bool_decide as Er; cbn [negb]; row_evolves.
      - intros s _ Ep. unfold p, scoped in *. apply andb_false_iff in Ep as [Ep|Ep]; [by rewrite Ep|].
        rewrite Ecur, Ep. apply andb_false_r. }
    destruct o as [o|e]; [|by cbn; rewrite EW]. apply wp_ret. split; [exact HE'|by rewrite EW].
  - apply wp_ret. split; [|exact HW1]. change (SharesEvolve l0 (map_where p inc l)).
    apply SharesEvolve_update; [done|]. intros s Hs Ep HO.
    assert (Hcur : current = inc s).
    { unfold current. destruct (head_map_filter inc p l) as [[_ Hn]|(r & Eh & Hr & Er)].
      { rewrite Hn in Ep by done. done. }
      rewrite Eh. enough (s = r) as -> by done. eapply scoped_id_same; [apply HE1|done|done|exact Ep|].
      unfold p, scoped in Er. bool_simpl. done. }
    rewrite Hcur in Eb. cbn in Eb. apply andb_false_iff in Eb as [Eb|Eb]; bool_simpl;
      unfold EXTERNAL_SHARE_MAX_REVEAL_ATTEMPTS in *; unfold inc; row_evolves.
Qed.

(** A live code: the rows on which a guess is compared. *)
Definition guessable (now : Date) (shareId : Uuid) (s : ShareRow) : bool :=
  verifiableShareCondition now shareId s && isNotNull (sh_verificationCodeHash s)
  && match sh_verificationCodeExpiresAt s with Some e => (now <? e) | None => false end.
Definition countGuess (s : ShareRow) : ShareRow :=
  s <| sh_verificationAttemptCount := (sh_verificationAttemptCount s + 1)%Z |>.

Lemma guessable_spec tenant now i s : scoped tenant (guessable now i) s = true ->
  sh_orgId s = tenant /\ sh_id s = i /\ sh_status s = shareActive /\
  (sh_verificationAttemptCount s < EXTERNAL_SHARE_VERIFICATION_MAX_ATTEMPTS)%Z.
Proof. unfold scoped, guessable, verifiableShareCondition. intros E. by bool_simpl. Qed.

Lemma ev_confirmInTx orgId i k c : preservesOk sharesP politeWait (confirmInTx orgId i k c).
Proof.
  intros w HP. unfold confirmInTx. apply wp_dbNow. eapply wp_bind_updateShares; [reflexivity|].
  set (w1 := w <| w_db ::= _ |>). assert (HP1 : holds (Ev l0) politeWait w1) by (exact (ev_otherCommits w HP)).
  destruct HP1 as [HE1 HW1]. change (SharesEvolve l0 (db_shares (w_db w1))) in HE1.
  change (fun s : ShareRow => s <| sh_verificationAttemptCount := _ |>) with countGuess.
  change (fun s => _ && _) with (guessable (w_now w) i).
  set (l := db_shares (w_db w1)) in *. set (p := scoped orgId _).
  assert (Hp : forall s, s ∈ l -> p s = true -> sh_orgId s = orgId /\ sh_id s = i /\ sh_status s = shareActive /\
    (sh_verificationAttemptCount s < EXTERNAL_SHARE_VERIFICATION_MAX_ATTEMPTS)%Z) by (intros s _ Ep; exact (guessable_spec _ _ _ _ Ep)).
  destruct (head_map_filter countGuess p l) as [[-> Hn]|(r & -> & Hr & Er)].
  { apply wp_ret. split; [|exact HW1]. change (SharesEvolve l0 (map_where p countGuess l)). by rewrite map_where_none. }
  destruct (Hp r Hr Er) as (_ & Ei & _ & _).
  assert (Huniq : forall s, s ∈ l -> sh_id s = i -> s = r).
  { intros s Hs Es. apply (NoDup_key_inj sh_id l); [apply HE1|done|done|congruence]. }
  assert (Hw : holds sharesP politeWait w1) by (by split). cbv zeta.
  apply wp_bind, wp_lift. destruct (verificationCodeMatches _ _ _ _) as [m|e]; [|exact HW1]. destruct m.
  - apply wp_bind. unfold generateVerificationProof, generateOpaque. cbn [mbind M_bind]. apply wp_bind_update.
    apply wp_ret. split; [|exact HW1].
    match goal with |- evolvedFrom _ (db_auth (w_db (_ <| w_db ::= fun db => db <| _ ::= map_where ?q ?g |> |>))) =>
      change (SharesEvolve l0 (map_where q g (map_where p countGuess l))) end.
    rewrite map_where_compose.
    + apply SharesEvolve_update; [done|]. intros s Hs Ep HO. destruct (Hp s Hs Ep) as (_ & _ & Es & Hc).
      assert (Eq : scoped orgId (fun x => sh_id x =? sh_id (countGuess r)) (countGuess s) = true).
      { destruct (Hp s Hs Ep) as (Eo & Es' & _). unfold scoped. cbn. rewrite !bool_decide_true by congruence. done. }
      rewrite Eq. unfold countGuess. row_evolves.
    + intros s Hs Ep. destruct (scoped _ _ s) eqn:Eq; [|done]. unfold scoped in Eq. bool_simpl.
      rewrite <- Ep, (Huniq s Hs); [done|]. cbn in *. congruence.
  - change (sh_verificationAttemptCount (countGuess r)) with (sh_verificationAttemptCount r + 1)%Z.
    case_bool_decide as Hmax.
    + apply wp_bind. eapply wp_mono; [apply lock_spec|]. intros o w' [EW [now E]].
      assert (HE' : SharesEvolve l0 (db_shares (w_db w'))).
      { rewrite E. change (db_shares _) with (map_where p countGuess l). rewrite map_where_compose.
        - apply SharesEvolve_update; [done|]. intros s Hs Ep HO. destruct (Hp s Hs Ep) as (Eo & Ei' & Es & Hc).
          match goal with |- evolvesOk _ (if ?b then _ else _) => assert (Eq : b = true) end.
          { unfold scoped. cbn. rewrite Es, !bool_decide_true, bool_decide_false by congruence. done. }
          rewrite Eq. unfold countGuess, lockRow. row_evolves.
        - intros s Hs Ep. destruct (scoped _ _ s) eqn:Eq; [|done]. unfold scoped in Eq. bool_simpl.
          rewrite <- Ep, (Huniq s Hs); [done|]. cbn in *. congruence. }
      destruct o as [o|e]; [|by cbn; rewrite EW]. apply wp_ret. split; [exact HE'|by rewrite EW].
    + apply wp_bind, wp_ret, wp_ret. split; [|exact HW1]. change (SharesEvolve l0 (map_where p countGuess l)).
      apply SharesEvolve_update; [done|]. intros s Hs Ep HO. destruct (Hp s Hs Ep) as (_ & Ei' & Es & Hc).
      rewrite (Huniq s Hs Ei') in *. unfold EXTERNAL_SHARE_VERIFICATION_MAX_ATTEMPTS in *. unfold countGuess. row_evolves.
Qed.

(** *** Opening *)

Lemma ev_precheck o u share : preserves sharesP politeWait (precheckShareClaimable o u share).
Proof.
  unfold precheckShareClaimable. apply preserves_bind; [apply ev_membership|]. intros m. destruct (negb _); [shares|].
  case_bool_decide; [shares|]. destruct (_ || _); [shares|]. apply preserves_bind; [shares|]. intros now.
  case_bool_decide; [|shares]. apply preserves_bind; [apply ev_lazilyExpire|]. intros ?. shares.
Qed.
Lemma ev_lostClaim o c i : preserves sharesP politeWait (resolveLostClaim o c i).
Proof. unfold resolveLostClaim, findShareInScope. shares. Qed.
Lemma ev_lostExternal o s : preserves sharesP politeWait (resolveLostExternalClaim o s).
Proof. unfold resolveLostExternalClaim. shares. Qed.
End fixed.

(** The row a query joins is a row of the table. *)
Lemma joined_row tenant p w r : fst (shareWithCredentialAndSharerQuery tenant p w) = Ok (Some r) ->
  smd_share r ∈ db_shares (w_db w) /\ scoped tenant p (smd_share r) = true.
Proof.
  unfold shareWithCredentialAndSharerQuery. cbn [fst]. intros [= Eh]. apply head_elem_of, list_elem_of_In, in_flat_map in Eh as (s & Hs & Hr).
  apply in_map_iff in Hr as (c & <- & _). by apply list_elem_of_In, elem_of_lfilter in Hs as [? ?].
Qed.

(** The members of an organisation when a request arrives, and those at the end of a wait. *)
Definition membersAround (w : World) : list MembershipRow :=
  db_memberships (w_db w) ++ db_memberships (w_onWait w (w_db w)).
(** [w'] is later in the same request: one reading of the clock at most. *)
Definition soonAfter (w w' : World) : Prop :=
  (forall m, m ∈ db_memberships (w_db w') -> m ∈ membersAround w) /\ w_tick w <= w_tick w' <= S (w_tick w).

Lemma soonAfter_same w w' :
  db_memberships (w_db w') = db_memberships (w_db w) -> w_tick w <= w_tick w' <= S (w_tick w) -> soonAfter w w'.
Proof. intros E Et. split; [|done]. intros m. rewrite E. intros ?. apply elem_of_app. by left. Qed.
Lemma soonAfter_waited w w' :
  db_memberships (w_db w') = db_memberships (w_onWait w (w_db w)) -> w_tick w <= w_tick w' <= S (w_tick w) ->
  soonAfter w w'.
Proof. intros E Et. split; [|done]. intros m. rewrite E. intros ?. apply elem_of_app. by right. Qed.

(** An expiry returns the row as it is, or an expired one. *)
Lemma lazilyExpire_row tenant share w :
  wp (lazilyExpireShareIfDue tenant share) (fun o w' => forall s, o = Ok s ->
    (s = share /\ soonAfter w w') \/ sh_status s = shareExpired) w.
Proof.
  unfold lazilyExpireShareIfDue.
  destruct (negb _); [apply wp_ret; intros ? [= <-]; left; split; [done|apply soonAfter_same; [done|cbn; lia]]|].
  apply wp_newDate. case_bool_decide; [apply wp_ret; intros ? [= <-]; left; split; [done|apply soonAfter_same; [done|cbn; lia]]|].
  eapply wp_bind_updateShares; [reflexivity|].
  match goal with |- context [head (map ?f (List.filter ?p ?l))] => destruct (head_map_filter f p l) as [[-> _]|(r & -> & _)] end.
  - apply wp_ret. intros ? [= <-]. left. split; [done|apply soonAfter_waited; [done|cbn; lia]].
  - apply wp_bind, wp_intro. intros [?|?] w' _; [|done]. apply wp_ret. intros ? [= <-]. by right.
Qed.

(** The share a token finds is the row its hash names, of the session's user. *)
Definition findsRow (orgId userId : Uuid) (rawToken : string) (db : Db) (share : ShareRow) : Prop :=
  share ∈ db_shares db /\ sh_orgId share = orgId /\ sh_tokenHash share = hashShareToken rawToken /\
  sh_recipientUserId share = Some userId.

Lemma findByToken_row o k u w :
  wp (findShareByToken o k u) (fun r w' => forall md, r = Ok (find_ok md) ->
    (findsRow o u k (w_db w) (smd_share md) /\ soonAfter w w') \/ sh_status (smd_share md) = shareExpired) w.
Proof.
  unfold findShareByToken. apply wp_bind, wp_intro. intros [row|e] w1 E; [|done].
  assert (w1 = w) as -> by (by injection E). destruct row as [row|]; [|by apply wp_ret].
  destruct (joined_row _ _ _ _ (f_equal fst E)) as [Hin Hs]. unfold scoped in Hs. bool_simpl.
  destruct (negb (constantTimeHexEqual _ _)); [by apply wp_ret|].
  destruct (negb _) eqn:Eu; [by apply wp_ret|]. bool_simpl.
  apply wp_bind, wp_intro. intros [share|e] w2 E2; [|done]. apply wp_ret. intros md [= <-]. cbn.
  destruct (wp_elim _ _ _ _ _ (lazilyExpire_row _ _ _) E2 _ eq_refl) as [[-> ?]|?]; [left; split; [by repeat split|done]|by right].
Qed.

Definition activeMember (orgId userId : Uuid) (ms : list MembershipRow) : Prop :=
  exists m, m ∈ ms /\ mem_orgId m = orgId /\ mem_userId m = userId /\ mem_status m = active.

(** What the precheck lets through. *)
Record claimable (orgId userId : Uuid) (share : ShareRow) (w : World) : Prop := {
  cl_status : sh_status share = shareActive \/ sh_status share = shareViewed;
  cl_member : activeMember orgId userId (db_memberships (w_db w));
  cl_time : (clock (w_tick w) < sh_expiresAt share)%Z;
}.

Lemma precheck_spec o u share w :
  wp (precheckShareClaimable o u share) (fun r _ => forall b, r = Ok b ->
    match b with Some b => openedNative b = None | None => claimable o u share w end) w.
Proof.
  unfold precheckShareClaimable, findActiveOrgMembership. apply wp_bind, wp_bind_first, wp_ret.
  destruct (negb _) eqn:Em; [by apply wp_ret; intros ? [= <-]|]. bool_simpl.
  case_bool_decide; [by apply wp_ret; intros ? [= <-]|].
  destruct (_ || _) eqn:E; [by apply wp_ret; intros ? [= <-]|]. bool_simpl. apply wp_newDate.
  case_bool_decide.
  { apply wp_bind, wp_intro. intros [?|?] w' _; [|done]. by apply wp_ret; intros ? [= <-]. }
  apply wp_ret. intros ? [= <-]. constructor.
  - destruct (sh_status share); auto; congruence.
  - destruct (head _) as [m|] eqn:Eh; [|done]. apply head_elem_of, elem_of_lfilter in Eh as [Ep Hm]. bool_simpl.
    exists m. repeat split; try done. cbn in Em. congruence.
  - lia.
Qed.

Lemma ev_reveal orgId k u : evolving (revealShare orgId k u).
Proof.
  apply evolving_here. intros w HO HW. pose proof (holds_here w HO HW) as HP. set (l := db_shares (w_db w)) in *.
  unfold revealShare. apply wp_bind, wp_intro. intros [found|e] w1 E1;
    pose proof (preserves_elim _ _ _ _ _ _ (ev_findByToken l orgId k u) HP E1) as HP1; [|exact HP1].
  destruct found as [| |md]; [exact HP1|exact HP1|]. cbv zeta. apply wp_bind, wp_intro. intros [blocked|e] w2 E2;
    pose proof (preserves_elim _ _ _ _ _ _ (ev_precheck l orgId u (smd_share md)) HP1 E2) as HP2; [|exact HP2].
  destruct blocked; [exact HP2|].
  assert (Hin : smd_share md ∈ l).
  { destruct (wp_elim _ _ _ _ _ (findByToken_row _ _ _ _) E1 md eq_refl) as [[[? _] _]|Ex]; [done|].
    destruct (cl_status _ _ _ _ (wp_elim _ _ _ _ _ (precheck_spec _ _ _ _) E2 _ eq_refl)); congruence. }
  revert HP2. generalize w2. clear -Hin. intros w2 HP2.
  match goal with |- wp ?m _ _ => enough (Hm : preserves (Ev l) politeWait m) by (exact (Hm w2 HP2)) end.
  apply preserves_bind; [apply ev_serializeBounded|]. intros b. destruct (formatBoundedRevealValue b); [|by apply preserves_readOnly, readOnly_ret].
  apply preserves_bind.
  - destruct (sh_singleUse (smd_share md)) eqn:Eu; [by apply ev_claimSingleUse|by apply ev_recordMultiView].
  - intros [c|]; [by apply preserves_readOnly, readOnly_ret|apply ev_lostClaim].
Qed.

Lemma ev_revealRoute orgId u k m : evolving (revealShareRoute orgId u k m).
Proof.
  intros l0. unfold revealShareRoute. apply preserves_withOrg, preserves_ok.
  apply preserves_bind; [apply ev_reveal|]. intros []; try (by apply preserves_readOnly, readOnly_ret).
  apply preserves_bind; [apply ev_humanAudit|]. intros ?. by apply preserves_readOnly, readOnly_ret.
Qed.

(** *** Shares with outside recipients *)

Lemma ev_withOrgLater {A} l0 (m : M A) :
  preservesOk (Ev l0) politeWait m -> preserves (Ev l0) politeWait (withOrgLater m).
Proof. intros Hm. apply preserves_bind; [apply ev_otherCommits|]. intros _. by apply preserves_withOrg. Qed.

Lemma ev_findExternal k : evolving (findExternalShareByTokenHash k).
Proof.
  intros l0. unfold findExternalShareByTokenHash, adminLookupByTokenHash.
  apply preserves_bind; [by apply preserves_readOnly; auto with pv|]. intros [row|]; [|by apply preserves_readOnly, readOnly_ret].
  destruct (negb _); [by apply preserves_readOnly, readOnly_ret|]. apply ev_withOrgLater, preserves_ok.
  apply preserves_bind; [apply ev_joined|]. intros [j|]; [|by apply preserves_readOnly, readOnly_ret].
  apply preserves_bind; [apply ev_lazilyExpire|]. intros ?. by apply preserves_readOnly, readOnly_ret.
Qed.

(** The row is external and stays so until the transaction of its organisation reads it. *)
Lemma ev_revealExternalInTx row w proof :
  row ∈ db_shares (w_db w) -> sh_recipientType row = recipientExternal -> SharesOk (db_shares (w_db w)) ->
  politeWait (w_onWait w) ->
  wp (withOrgLater (revealExternalInTx (sh_orgId row) (sh_id row) proof))
    (fun _ w' => holds (Ev (db_shares (w_db w))) politeWait w') w.
Proof.
  intros Hrow Hx HO HW. pose proof (holds_here w HO HW) as HP. set (l := db_shares (w_db w)) in *.
  unfold withOrgLater. apply wp_bind, wp_intro. intros o w1 E1.
  pose proof (preserves_elim _ _ _ _ _ _ (ev_otherCommits l) HP E1) as HP1.
  assert (exists a, o = Ok a) as [a ->] by (injection E1 as <- _; by eexists). clear E1.
  apply wp_withOrg. set (w2 := w1 <| w_tick ::= S |> <| w_now := _ |>).
  assert (HP2 : holds (Ev l) politeWait w2) by exact HP1. clearbody w2.
  unfold revealExternalInTx. apply wp_bind_first. set (l2 := db_shares (w_db w2)).
  assert (HE : SharesEvolve l l2) by apply HP2. destruct (head _) as [current|] eqn:Ec; [|exact HP2].
  apply head_elem_of, elem_of_lfilter in Ec as [Ecur Hcur]. unfold scoped in Ecur. bool_simpl.
  assert (Hu : sh_singleUse current = true).
  { apply (so_rows _ (proj1 HE) current Hcur). pose proof (extends_same _ _ _ _ (proj1 HE) (proj2 HE) Hrow Hcur) as He.
    apply ev_identity in He; [|done]. injection He. congruence. }
  assert (HPl2 : holds (Ev l2) politeWait w2) by (apply holds_here; [apply HE|apply HP2]).
  match goal with |- wp ?m _ _ => assert (Hm : preserves (Ev l2) politeWait m) end.
  { apply preserves_bind; [destruct (sh_verificationRequired current); [apply ev_proof|by apply preserves_readOnly, readOnly_ret]|].
    intros proven. destruct (negb proven); [by apply preserves_readOnly, readOnly_ret|].
    apply preserves_bind; [apply ev_precheckExternal|]. intros [?|]; [by apply preserves_readOnly, readOnly_ret|].
    apply preserves_bind; [apply ev_serializeBounded|]. intros b.
    destruct (formatBoundedRevealValue b); [|by apply preserves_readOnly, readOnly_ret].
    apply preserves_bind; [by apply ev_claimSingleUse|]. intros [c|]; [|apply ev_lostExternal].
    apply preserves_bind; [apply ev_systemAudit|]. intros ?. by apply preserves_readOnly, readOnly_ret. }
  eapply wp_mono; [exact (Hm w2 HPl2)|]. intros [r|e] w' [HE' HW'].
  - split; [|done]. by eapply SharesEvolve_trans.
  - split; [exact (proj1 HP1)|done].
Qed.

Lemma ev_revealExternal k proof : evolving (revealExternalShare k proof).
Proof.
  apply evolving_here. intros w HO HW. unfold revealExternalShare, adminLookupByTokenHash.
  apply wp_bind_first. destruct (head _) as [row|] eqn:Er; [|by apply holds_here].
  apply head_elem_of, elem_of_lfilter in Er as [_ Hin]. destruct (negb _) eqn:Ex; [by apply holds_here|]. bool_simpl.
  by apply ev_revealExternalInTx.
Qed.

Lemma ev_deferred {A} l0 (m : M A) : preserves (Ev l0) politeWait m -> preserves (Ev l0) politeWait (runDeferredTask m).
Proof.
  intros Hm. apply preserves_catch; [|intros ?; by apply preserves_readOnly, readOnly_ret].
  apply preserves_bind; [done|]. intros ?. by apply preserves_readOnly, readOnly_ret.
Qed.

Lemma ev_applyLosing d : evolving (applyDeferredLosingAttempt d).
Proof.
  intros l0. unfold applyDeferredLosingAttempt. apply preserves_withOrg.
  apply preservesOk_bind; [by apply preserves_ok, preserves_readOnly; auto with pv|]. intros [fresh|]; [|by apply preserves_ok, preserves_readOnly, readOnly_ret].
  apply preservesOk_bind.
  { apply preserves_ok. destruct (dl_expireIfDue d); [apply ev_lazilyExpire|by apply preserves_readOnly, readOnly_ret]. }
  intros share. apply preservesOk_bind; [apply ev_losing|]. intros ?. by apply preserves_ok, preserves_readOnly, readOnly_ret.
Qed.

Lemma ev_confirm k c : evolving (confirmExternalShareVerification k c).
Proof.
  intros l0. unfold confirmExternalShareVerification, adminLookupByTokenHash.
  apply preserves_bind; [by apply preserves_readOnly; auto with pv|]. intros [row|]; [|by apply preserves_readOnly, readOnly_ret].
  destruct (_ || _); [by apply preserves_readOnly, readOnly_ret|]. apply ev_withOrgLater, ev_confirmInTx.
Qed.

Lemma ev_expireJob : evolving runCredentialShareExpireJob.
Proof.
  intros l0. unfold runCredentialShareExpireJob. apply preserves_bind; [by apply preserves_readOnly; auto with pv|]. intros orgs.
  apply preserves_forEachSequential. intros o. apply preserves_catch; [|intros ?; by apply preserves_readOnly, readOnly_ret].
  unfold sweepOrg, findDueCandidates. apply preserves_bind.
  { apply preserves_withOrg, preserves_ok, preserves_readOnly. read_only. }
  intros cs. apply preserves_forEachSequential. intros c. apply preserves_bind; [|intros ?; by apply preserves_readOnly, readOnly_ret].
  unfold expireOneShare. apply preserves_catch; [|intros ?; by apply preserves_readOnly, readOnly_ret].
  apply ev_withOrgLater, preserves_ok, preserves_bind; [by apply preserves_readOnly; auto with pv|].
  intros [row|]; [|by apply preserves_readOnly, readOnly_ret]. destruct (negb _); [by apply preserves_readOnly, readOnly_ret|].
  apply preserves_bind; [apply ev_lazilyExpire|]. intros ?. by apply preserves_readOnly, readOnly_ret.
Qed.

(** *** Every operation *)

Lemma ev_answering {A} l0 (m : M A) : preserves (Ev l0) politeWait m -> preserves (Ev l0) politeWait (answering m).
Proof. intros Hm. apply preserves_bind; [done|]. intros ?. by apply preserves_readOnly, readOnly_ret. Qed.

Lemma runShareOp_evolving op : evolving (runShareOp op).
Proof.
  intros l0. destruct op; cbn [runShareOp]; try apply ev_answering.
  - apply preserves_withOrg, preserves_ok, ev_create.
  - apply preserves_withOrg, preserves_ok, ev_createExternal.
  - apply preserves_withOrg, preserves_ok, ev_revoke.
  - apply preserves_withOrg, preserves_ok, ev_deactivate.
  - apply preserves_withOrg, preserves_ok, ev_findByToken.
  - apply preserves_bind; [apply ev_revealRoute|]. intros ?. by apply preserves_readOnly, readOnly_ret.
  - apply preserves_withOrg, preserves_ok, ev_supersedeAudit.
  - apply ev_findExternal.
  - apply preserves_bind; [apply ev_revealExternal|]. intros ?. by apply preserves_readOnly, readOnly_ret.
  - apply ev_deferred, ev_applyLosing.
  - apply preserves_readOnly. unfold requestExternalShareVerification, adminLookupByTokenHash. read_only.
  - apply ev_deferred, ev_sendCode.
  - apply ev_confirm.
  - apply ev_expireJob.
Qed.

Lemma runShareOps_evolving ops w :
  SharesOk (db_shares (w_db w)) -> politeWait (w_onWait w) ->
  SharesEvolve (db_shares (w_db w)) (db_shares (w_db (runShareOps ops w).2)) /\ politeWait (w_onWait (runShareOps ops w).2).
Proof.
  revert w. induction ops as [|op ops IH]; intros w HO HW; [split; [by apply SharesEvolve_refl|done]|].
  cbn. pose proof (wp_snd _ _ _ (runShareOp_evolving op _ w (holds_here w HO HW))) as [HE HW1].
  destruct (IH (snd (runShareOp op w)) (proj1 HE) HW1) as [HE2 HW2]. split; [|done].
  eapply SharesEvolve_trans; [exact HE|exact HE2].
Qed.
End ops.
