(* ===== verification/ShareTheorems.v ===== *)
(** * Shares: what holds of every sequence of operations

    How often a share is opened and by whom, the guesses of a verification code,
    the cap on pending shares, and what a share discloses. *)

From S2P Require Import Prelude Js Crypto FieldSet AuthStore Store Tx QuotaGate AuditLog Notifications Credentials Frames Sessions Shares ExternalShares ShareEvolution.
From Stdlib Require Import Ascii String.
From stdpp Require Import strings.

Local Open Scope string_scope.
Local Open Scope list_scope.
Local Open Scope pv_scope.

(** The audited answer to request [o] opened the single-use share [i]. *)
Definition opensOnce (i : Uuid) (o : option ShareRow) : bool :=
  match o with Some s => (sh_id s =? i) && sh_singleUse s | None => false end.

Section theorems.
Context `{Locale, Platform, NodeCrypto, Env, Unicode}.

Notation Ev l0 := (fun db => evolvedFrom l0 (db_auth db)).

(** ** Opening a share *)

(** The row a claim returned: an active row of the table, and what it became. *)
Definition claims (tenant : Uuid) (row claimed : ShareRow) (w w' : World) : Prop :=
  exists r, r ∈ db_shares (w_onWait w (w_db w)) /\ sh_orgId r = tenant /\ sh_id r = sh_id row /\
    sh_status r = shareActive /\ sh_id claimed = sh_id row /\ sh_singleUse claimed = sh_singleUse r /\
    claimed ∈ db_shares (w_db w').

Lemma claim_spec tenant row w :
  wp (claimSingleUseView tenant (sh_id row)) (fun o w' => forall c, o = Ok (Some c) ->
    claims tenant row c w w' /\ sh_status c = shareViewed) w.
Proof.
  unfold claimSingleUseView. apply wp_newDate. eapply wp_bind_updateShares; [reflexivity|].
  match goal with |- context [head (map ?f (List.filter ?p ?l))] => destruct (head_map_filter f p l) as [[-> _]|(r & -> & Hr & Er)] end.
  { apply wp_ret. by intros c [= ]. }
  apply wp_ret. intros c [= <-]. destruct (activeShare_status _ _ _ Er) as [Es Ei]. unfold scoped in Er. bool_simpl.
  split; [|done]. exists r. repeat split; try done.
  match goal with |- ?c ∈ _ => change (c ∈ map_where (scoped tenant (activeShare (sh_id row)))
    (fun s => s <| sh_status := shareViewed |> <| sh_viewCount := 1%Z |> <| sh_firstViewedAt := Some (clock (w_tick w)) |>)
    (db_shares (w_onWait w (w_db w)))) end.
  apply elem_of_map_where. exists r. split; [exact Hr|].
  unfold scoped. by rewrite (bool_decide_true _), H5 by done.
Qed.

Lemma multi_spec tenant row w :
  wp (recordMultiView tenant (sh_id row)) (fun o w' => forall c, o = Ok (Some c) -> claims tenant row c w w') w.
Proof.
  unfold recordMultiView. apply wp_dbNow. eapply wp_bind_updateShares; [reflexivity|].
  match goal with |- context [head (map ?f (List.filter ?p ?l))] => destruct (head_map_filter f p l) as [[-> _]|(r & -> & Hr & Er)] end.
  { apply wp_ret. by intros c [= ]. }
  apply wp_ret. intros c [= <-]. destruct (activeShare_status _ _ _ Er) as [Es Ei].
  exists r. pose proof Er as Er'. unfold scoped in Er'. bool_simpl. repeat split; try done.
  match goal with |- ?c ∈ _ => change (c ∈ map_where (scoped tenant (activeShare (sh_id row)))
    (fun s => s <| sh_viewCount := (sh_viewCount s + 1)%Z |> <| sh_firstViewedAt := Some (default (w_now w) (sh_firstViewedAt s)) |>)
    (db_shares (w_onWait w (w_db w)))) end.
  apply elem_of_map_where. exists r. by rewrite Er.
Qed.

(** The share [s] was opened between the tables [l] and [l']: it was active, and is not any more. *)
Definition spent (l l' : list ShareRow) (s : ShareRow) : Prop :=
  (forall r, r ∈ l -> sh_id r = sh_id s -> sh_status r = shareActive) /\
  exists r, r ∈ l' /\ sh_id r = sh_id s /\ sh_status r <> shareActive.

Lemma spent_after l l' l'' s : spent l l' s -> SharesEvolve l' l'' -> spent l l'' s.
Proof.
  intros [Ha (r & Hr & Er & Hn)] [_ HE]. split; [done|]. destruct (extends_row _ _ _ HE Hr) as (r' & Hr' & Hev).
  exists r'. split; [done|]. split; [by rewrite (evolves_id _ _ Hev)|]. intros Es. by apply Hn, (statusLe_active _ _ (ev_status _ _ Hev)).
Qed.

Section claimed.
Context (l : list ShareRow) (tenant : Uuid) (row c : ShareRow) (w w' : World).
Context (HP : holds (Ev l) politeWait w) (HC : claims tenant row c w w').

Lemma claims_waited : SharesEvolve l (db_shares (w_onWait w (w_db w))).
Proof. destruct HP as [HE HW]. eapply SharesEvolve_trans; [exact HE|]. apply HW, HE. Qed.

Lemma claims_active r0 : r0 ∈ l -> sh_id r0 = sh_id c -> sh_status r0 = shareActive.
Proof.
  destruct HC as (r & Hr & _ & Er & Es & Ec & _ & Hin). pose proof claims_waited as HE'. intros Hr0 E0.
  apply (statusLe_active _ (sh_status r)); [|done]. apply ev_status.
  eapply extends_same; [apply HE'|apply HE'|done|done|congruence].
Qed.

Lemma claims_spent : sh_status c = shareViewed -> spent l (db_shares (w_db w')) c.
Proof.
  intros Ev. split; [exact claims_active|]. destruct HC as (r & _ & _ & _ & _ & _ & _ & Hin).
  exists c. split; [done|]. split; [done|]. by rewrite Ev.
Qed.

Lemma claims_singleUse : row ∈ l -> sh_singleUse c = sh_singleUse row.
Proof.
  destruct HC as (r & Hr & _ & Er & _ & _ & -> & _). pose proof claims_waited as HE'. intros Hrow.
  apply evolves_singleUse. eapply extends_same; [apply HE'|apply HE'|done|done|congruence].
Qed.
End claimed.

(** What an answered reveal has read, and what it has written. *)
Record revealFacts (orgId userId : Uuid) (rawToken : string) (w w' : World) (s : ShareRow) : Prop := {
  rf_row : exists row, findsRow orgId userId rawToken (w_db w) row /\ sh_id s = sh_id row /\
    exists n, w_tick w <= n <= w_tick w + 1 /\ (clock n < sh_expiresAt row)%Z;
  rf_member : activeMember orgId userId (membersAround w);
  rf_active : forall r, r ∈ db_shares (w_db w) -> sh_id r = sh_id s -> sh_status r = shareActive;
  rf_spent : sh_singleUse s = true -> spent (db_shares (w_db w)) (db_shares (w_db w')) s;
}.

Lemma reveal_facts orgId k u w :
  SharesOk (db_shares (w_db w)) -> politeWait (w_onWait w) ->
  wp (revealShare orgId k u) (fun o w' => forall r s, o = Ok r -> openedNative r = Some s ->
    revealFacts orgId u k w w' s) w.
Proof.
  intros HO HW. pose proof (holds_here w HO HW) as HP. set (l := db_shares (w_db w)) in *.
  unfold revealShare. apply wp_bind, wp_intro. intros [found|e] w1 E1;
    pose proof (preserves_elim _ _ _ _ _ _ (ev_findByToken l orgId k u) HP E1) as HP1; [|done].
  destruct found as [| |md]; [by apply wp_ret; intros ? ? [= <-]..|].
  cbv zeta. apply wp_bind, wp_intro. intros [blocked|e] w2 E2;
    pose proof (preserves_elim _ _ _ _ _ _ (ev_precheck l orgId u (smd_share md)) HP1 E2) as HP2; [|done].
  pose proof (wp_elim _ _ _ _ _ (precheck_spec _ _ _ _) E2 _ eq_refl) as Hpre.
  destruct blocked as [b|]; [apply wp_ret; intros r s [= <-]; congruence|].
  destruct Hpre as [Hst (m & Hm & Hmem) Ht].
  destruct (wp_elim _ _ _ _ _ (findByToken_row _ _ _ _) E1 md eq_refl) as [[Hf [Hsee Htick]]|Ex]; [|destruct Hst; congruence].
  apply wp_bind, wp_intro. intros [bd|e] w3 E3;
    pose proof (preserves_elim _ _ _ _ _ _ (ev_serializeBounded l _ _) HP2 E3) as HP3; [|done].
  destruct (formatBoundedRevealValue bd) as [v|]; [|by apply wp_ret; intros ? ? [= <-]].
  apply wp_bind, wp_intro. intros [[c|]|e] w4 E4; [|..].
  - apply wp_ret. intros r s [= <-] [= <-].
    assert (HC : claims orgId (smd_share md) c w3 w4 /\ (sh_singleUse (smd_share md) = true -> sh_status c = shareViewed)).
    { destruct (sh_singleUse (smd_share md)).
      - destruct (wp_elim _ _ _ _ _ (claim_spec _ _ _) E4 c eq_refl). done.
      - split; [|done]. exact (wp_elim _ _ _ _ _ (multi_spec _ _ _) E4 c eq_refl). }
    destruct HC as [HC Hv]. constructor.
    + exists (smd_share md). split; [done|]. split; [by destruct HC as (? & _ & _ & _ & _ & ? & _)|].
      exists (w_tick w1). split; [lia|done].
    + exists m. split; [by apply Hsee|done].
    + intros r0 Hr0 E0. by apply (claims_active _ _ _ _ _ _ HP3 HC).
    + intros Hu. eapply claims_spent; [exact HP3|exact HC|]. apply Hv.
      rewrite <- Hu. symmetry. eapply claims_singleUse; [exact HP3|exact HC|]. apply Hf.
  - apply wp_bind, wp_intro. intros [cur|e] w5 _; [|done]. apply wp_ret. intros r s [= <-]. by repeat case_bool_decide.
  - done.
Qed.

(** The route begins its transaction, which reads the clock once more. *)
Lemma revealRoute_facts orgId k u m w :
  SharesOk (db_shares (w_db w)) -> politeWait (w_onWait w) ->
  let w0 := w <| w_tick ::= S |> <| w_now := clock (w_tick w) |> in
  wp (revealShareRoute orgId u k m) (fun o w' => forall r s, o = Ok r -> openedNative r = Some s ->
    revealFacts orgId u k w0 w' s) w.
Proof.
  intros HO HW w0. unfold revealShareRoute. apply wp_withOrg. fold w0.
  apply wp_bind, wp_intro. intros [r|e] w1 E1; [|done].
  pose proof (wp_elim _ _ _ _ _ (reveal_facts orgId k u w0 HO HW) E1) as Hf.
  pose proof (preserves_elim _ _ _ _ _ _ (ev_reveal orgId k u (db_shares (w_db w0))) (holds_here w0 HO HW) E1) as HP1.
  destruct r as [| | | | | |share v f fk]; try (by apply wp_ret; intros ? ? [= <-]).
  destruct (Hf _ share eq_refl eq_refl) as [Hrow Hmem Hact Hsp]. apply wp_bind, wp_intro. intros [a|e] w2 E2; [|done].
  apply wp_ret. intros r s [= <-] [= <-]. constructor; [exact Hrow|exact Hmem|exact Hact|]. intros Hu.
  eapply spent_after; [exact (Hsp Hu)|].
  apply (preserves_elim _ _ _ _ _ _ (ev_humanAudit (db_shares (w_db w1)) _ _ _ _ _ _ _)
    (holds_here w1 (holds_ok _ _ HP1) (proj2 HP1)) E2).
Qed.

(** *** Outside recipients *)

(** The digest of [proof] is the one stored, less than a quarter of an hour before [now]. *)
Definition provenBy (now : Date) (share : ShareRow) (proof : option string) : Prop :=
  exists p h v, proof = Some p /\ sh_verificationProofHash share = Some h /\ fromHex h = sha256 p /\
    sh_verifiedAt share = Some v /\ (now < v + EXTERNAL_SHARE_VERIFICATION_PROOF_TTL_MS)%Z.

Lemma hexDigestsEqual_sha p h : hexDigestsEqual (sha256Hex p) h = Ok true -> fromHex h = sha256 p.
Proof.
  unfold hexDigestsEqual, timingSafeEqual, sha256Hex. rewrite fromHex_toHex.
  destruct (_ || _); [done|]. destruct (negb _); [done|]. intros [= E]. by bool_simpl.
Qed.

Lemma hasValidProof_spec share proof w :
  wp (hasValidVerificationProof share proof) (fun o w' => sameDb w w' /\ (o = Ok true -> provenBy (clock (w_tick w)) share proof) /\ w_tick w <= w_tick w' <= S (w_tick w)) w.
Proof.
  unfold hasValidVerificationProof. destruct (sh_verifiedAt share) as [v|] eqn:Ev; [|apply wp_ret; split; [apply sameDb_refl|]; split; [done|lia]].
  apply wp_newDate. case_bool_decide; [apply wp_ret; split; [by eexists|]; split; [done|cbn; lia]|].
  apply wp_lift. split; [by eexists|]. split; [|cbn; lia]. unfold verificationProofMatches. destruct proof as [p|]; [|done].
  destruct (sh_verificationProofHash share) as [h|] eqn:Eh; [|done]. intros E%hexDigestsEqual_sha.
  exists p, h, v. repeat split; try done. lia.
Qed.

Record externalFacts (rawToken : string) (proof : option string) (w w' : World) (s : ShareRow) : Prop := {
  ef_row : exists row, row ∈ db_shares (w_db w) /\ sh_tokenHash row = hashShareToken rawToken /\
    sh_recipientType row = recipientExternal /\ sh_id s = sh_id row;
  ef_current : exists current, current ∈ db_shares (w_onWait w (w_db w)) /\ sh_id current = sh_id s /\
    sh_status current = shareActive /\ (exists n, w_tick w <= n <= w_tick w + 2 /\ (clock n < sh_expiresAt current)%Z) /\
    (sh_verificationRequired current = true -> provenBy (clock (w_tick w + 1)) current proof);
  ef_single : sh_singleUse s = true;
  ef_spent : spent (db_shares (w_db w)) (db_shares (w_db w')) s;
}.

Lemma precheckExternal_spec share w :
  wp (precheckExternalShareClaimable share) (fun r _ => forall b, r = Ok b ->
    match b with
    | Some b => openedExternal b = None
    | None => sh_status share = shareActive /\ (clock (w_tick w) < sh_expiresAt share)%Z
    end) w.
Proof.
  unfold precheckExternalShareClaimable, terminalRevealStatusFor.
  destruct (sh_status share) eqn:Es; try (by apply wp_ret; intros ? [= <-]).
  apply wp_newDate, wp_ret. intros ? [= <-]. case_bool_decide; [done|]. split; [done|]. lia.
Qed.

Lemma lostExternal_spec tenant share w :
  wp (resolveLostExternalClaim tenant share) (fun r _ => forall b, r = Ok b -> openedExternal b = None) w.
Proof.
  unfold resolveLostExternalClaim. apply wp_bind_first, wp_ret. intros b [= <-]. unfold openedExternal. cbn.
  by destruct (sh_status _).
Qed.

(** The transaction that opens a share it has read in [l]. *)
Lemma revealExternalInTx_facts l row proof w :
  holds (Ev l) politeWait w -> row ∈ l -> sh_recipientType row = recipientExternal ->
  wp (revealExternalInTx (sh_orgId row) (sh_id row) proof) (fun o w' => forall r s, o = Ok r -> openedExternal r = Some s ->
    (exists current, current ∈ db_shares (w_db w) /\ sh_id current = sh_id s /\ sh_id s = sh_id row /\
      sh_status current = shareActive /\
      (exists n, w_tick w <= n <= w_tick w + 1 /\ (clock n < sh_expiresAt current)%Z) /\
      (sh_verificationRequired current = true -> provenBy (clock (w_tick w)) current proof)) /\
    sh_singleUse s = true /\ spent l (db_shares (w_db w')) s) w.
Proof.
  intros HP Hrow Hx. unfold revealExternalInTx. apply wp_bind_first.
  destruct (head _) as [current|] eqn:Ec; [|by apply wp_ret; intros ? ? [= <-]].
  apply head_elem_of, elem_of_lfilter in Ec as [Ecur Hcur]. unfold scoped in Ecur. bool_simpl.
  assert (Hu : sh_singleUse current = true).
  { destruct HP as [HE _]. apply (so_rows _ (proj1 HE) current Hcur).
    pose proof (extends_same _ _ _ _ (proj1 HE) (proj2 HE) Hrow Hcur) as He.
    apply ev_identity in He; [|done]. injection He. congruence. }
  assert (HPc : holds (Ev (db_shares (w_db w))) politeWait w) by (apply holds_here; [by eapply holds_ok|apply HP]).
  apply wp_bind, wp_intro. intros [proven|e] w1 E1; [|done].
  assert (Hproof : sameDb w w1 /\ w_tick w <= w_tick w1 <= S (w_tick w) /\
    (proven = true -> sh_verificationRequired current = true -> provenBy (clock (w_tick w)) current proof)).
  { destruct (sh_verificationRequired current).
    - destruct (wp_elim _ _ _ _ _ (hasValidProof_spec _ _ _) E1) as (? & Hpr & ?).
      split; [done|]. split; [done|]. intros -> _. by apply Hpr.
    - injection E1 as <- <-. split; [apply sameDb_refl|]. split; [lia|done]. }
  destruct Hproof as (Hsame & Htick & Hproof). destruct proven; [|by apply wp_ret; intros ? ? [= <-]]. cbn [negb].
  apply wp_bind, wp_intro. intros [pre|e] w2 E2; [|done].
  pose proof (wp_elim _ _ _ _ _ (precheckExternal_spec _ _) E2 _ eq_refl) as Hpre.
  destruct pre as [r|]; [apply wp_ret; intros r' s [= <-]; congruence|]. destruct Hpre as [Hst Ht].
  assert (HP2 : forall l', holds (Ev l') politeWait w -> holds (Ev l') politeWait w2).
  { intros l' HP'. refine (preserves_elim _ _ _ _ _ _ (ev_precheckExternal l' _) _ E2).
    destruct Hsame as [n ->]. exact HP'. }
  apply wp_bind, wp_intro. intros [bd|e] w3 E3; [|done].
  assert (HP3 : forall l', holds (Ev l') politeWait w -> holds (Ev l') politeWait w3).
  { intros l' HP'%HP2. exact (preserves_elim _ _ _ _ _ _ (ev_serializeBounded l' _ _) HP' E3). }
  destruct (formatBoundedRevealValue bd) as [v|]; [|by apply wp_ret; intros ? ? [= <-]].
  apply wp_bind, wp_intro. intros [[c|]|e] w4 E4; [|..].
  - destruct (wp_elim _ _ _ _ _ (claim_spec _ _ _) E4 c eq_refl) as [HC Hv].
    pose proof (claims_spent _ _ _ _ _ _ (HP3 _ HP) HC Hv) as Hspent.
    pose proof (claims_singleUse _ _ _ _ _ _ (HP3 _ HPc) HC Hcur) as Eu.
    pose proof (preserves_elim _ _ _ _ _ _ (ev_claimSingleUse _ (sh_orgId row) current Hcur Hu) (HP3 _ HPc) E4) as HP4.
    apply wp_bind, wp_intro. intros [a|e] w5 E5; [|done]. apply wp_ret. intros r s [= <-] [= <-].
    assert (Eid : sh_id c = sh_id current) by (by destruct HC as (? & _ & _ & _ & _ & ? & _)).
    split; [|split; [congruence|]].
    + exists current. repeat split; try done; [congruence| |by apply Hproof]. exists (w_tick w1). split; [lia|done].
    + eapply spent_after; [exact Hspent|].
      apply (preserves_elim _ _ _ _ _ _ (ev_systemAudit (db_shares (w_db w4)) _ _ _ _ _)
        (holds_here w4 (holds_ok _ _ HP4) (proj2 HP4)) E5).
  - apply wp_intro. intros o w5 E5 r s ->. by rewrite (wp_elim _ _ _ _ _ (lostExternal_spec _ _ _) E5 _ eq_refl).
  - done.
Qed.

Lemma revealExternal_facts k proof w :
  SharesOk (db_shares (w_db w)) -> politeWait (w_onWait w) ->
  wp (revealExternalShare k proof) (fun o w' => forall r s, o = Ok r -> openedExternal r = Some s ->
    externalFacts k proof w w' s) w.
Proof.
  intros HO HW. unfold revealExternalShare, adminLookupByTokenHash. apply wp_bind_first.
  destruct (head _) as [row|] eqn:Er; [|by apply wp_ret; intros ? ? [= <-]].
  apply head_elem_of, elem_of_lfilter in Er as [Eh Hin]. destruct (negb _) eqn:Ex; [by apply wp_ret; intros ? ? [= <-]|]. bool_simpl.
  unfold withOrgLater. apply wp_bind, wp_intro. intros [a|e] w1 E1; [|done].
  pose proof (preserves_elim _ _ _ _ _ _ (ev_otherCommits (db_shares (w_db w))) (holds_here w HO HW) E1) as HP1.
  assert (Edb : w_db w1 = w_onWait w (w_db w)) by (by injection E1 as _ <-).
  apply wp_withOrg. set (w2 := w1 <| w_tick ::= S |> <| w_now := _ |>).
  assert (HP2 : holds (Ev (db_shares (w_db w))) politeWait w2) by exact HP1.
  eapply wp_mono; [exact (revealExternalInTx_facts _ row proof w2 HP2 Hin Ex)|]. intros [r|e] w3 Hf; [|done].
  intros r' s [= <-] Es.
  destruct (Hf r s eq_refl Es) as [(current & Hc & Eid & Eid' & Est & (n & Hn & Hlt) & Hpr) [Hu Hsp]].
  change (w_db w2) with (w_db w1) in Hc. rewrite Edb in Hc.
  assert (Etick : w_tick w2 = w_tick w + 1) by (by injection E1 as _ <-; cbn; lia). rewrite Etick in Hn, Hpr.
  constructor; [|exists current|done|done]; [by exists row|]. repeat split; try done. exists n. split; [lia|done].
Qed.

(** *** Every sequence of operations *)

Lemma answering_none {A} (m : M A) w s : fst (answering m w) <> Ok (Some s).
Proof. unfold answering, mbind, M_bind, mret, M_ret. by destruct (m w) as [[a|e] w']. Qed.

Lemma opened_facts op w s :
  SharesOk (db_shares (w_db w)) -> politeWait (w_onWait w) -> openedBy op w = Some s ->
  (forall r, r ∈ db_shares (w_db w) -> sh_id r = sh_id s -> sh_status r = shareActive) /\
  (sh_singleUse s = true -> spent (db_shares (w_db w)) (db_shares (w_db (snd (runShareOp op w)))) s).
Proof.
  intros HO HW. unfold openedBy. destruct op; cbn [runShareOp];
    try (match goal with |- context [answering ?m w] => pose proof (answering_none m w s); destruct (fst (answering m w)) as [[r|]|e] end;
         [by intros [= ->]|done|done]).
  - unfold mbind, M_bind, mret, M_ret. destruct (revealShareRoute _ _ _ _ w) as [[r|e] w'] eqn:E; [|done]. cbn [fst snd].
    intros Es. destruct (wp_elim _ _ _ _ _ (revealRoute_facts _ _ _ _ _ HO HW) E r s eq_refl Es). done.
  - unfold mbind, M_bind, mret, M_ret. destruct (revealExternalShare _ _ w) as [[r|e] w'] eqn:E; [|done]. cbn [fst snd].
    intros Es. pose proof (ef_spent _ _ _ _ _ (wp_elim _ _ _ _ _ (revealExternal_facts _ _ _ HO HW) E r s eq_refl Es)) as Hs.
    split; [apply Hs|done].
Qed.

Lemma runShareOp_polite op w :
  SharesOk (db_shares (w_db w)) -> politeWait (w_onWait w) ->
  SharesEvolve (db_shares (w_db w)) (db_shares (w_db (snd (runShareOp op w)))) /\
  politeWait (w_onWait (snd (runShareOp op w))).
Proof. intros HO HW. exact (wp_snd _ _ _ (runShareOp_evolving op _ w (holds_here w HO HW))). Qed.

Definition opensShare (i : Uuid) (o : option ShareRow) : bool :=
  match o with Some s => sh_id s =? i | None => false end.

(** A share that is not active is opened by nothing. *)
Lemma inactive_never_opened ops w i r :
  SharesOk (db_shares (w_db w)) -> politeWait (w_onWait w) ->
  r ∈ db_shares (w_db w) -> sh_id r = i -> sh_status r <> shareActive ->
  List.filter (opensShare i) (runShareOps ops w).1 = [].
Proof.
  revert w r. induction ops as [|op ops IH]; intros w r HO HW Hr Ei Hn; [done|]. cbn [runShareOps fst List.filter].
  destruct (runShareOp_polite op w HO HW) as [HE HW1]. destruct (opensShare i (openedBy op w)) eqn:Eo.
  - exfalso. unfold opensShare in Eo. destruct (openedBy op w) as [s|] eqn:Es; [|done]. bool_simpl.
    apply Hn, (proj1 (opened_facts op w s HO HW Es) r Hr). congruence.
  - destruct (extends_row _ _ _ (proj2 HE) Hr) as (r' & Hr' & Hev).
    apply (IH _ r'); [apply HE|done|done|by rewrite (evolves_id _ _ Hev)|].
    intros E. by apply Hn, (statusLe_active _ _ (ev_status _ _ Hev)).
Qed.

Lemma opensOnce_none i l : List.filter (opensShare i) l = [] -> List.filter (opensOnce i) l = [].
Proof.
  induction l as [|[s|] l IH]; cbn; [done| |done]. destruct (sh_id s =? i); [done|exact IH].
Qed.

(** C19: a single-use share is opened at most once, whatever requests run and whatever other transactions
    commit while one of them waits for the row. *)
Theorem single_use_opened_once ops w i :
  SharesOk (db_shares (w_db w)) -> politeWait (w_onWait w) ->
  length (List.filter (opensOnce i) (runShareOps ops w).1) <= 1.
Proof.
  revert w. induction ops as [|op ops IH]; intros w HO HW; [cbn; lia|]. cbn [runShareOps fst List.filter].
  destruct (runShareOp_polite op w HO HW) as [HE HW1]. destruct (opensOnce i (openedBy op w)) eqn:Eo; [|by apply IH; [apply HE|]].
  unfold opensOnce in Eo. destruct (openedBy op w) as [s|] eqn:Es; [|done]. bool_simpl.
  destruct (proj2 (opened_facts op w s HO HW Es)) as [_ (r & Hr & Er & Hn)]; [done|].
  rewrite opensOnce_none; [done|]. apply (inactive_never_opened ops _ i r); [apply HE|done|done|congruence|done].
Qed.

(** C29: the operations keep the invariant of the table (at most five guesses, five codes sent and one view of a
    single-use share, a lock only on a revoked share), and every share stays the share it was: its status moves
    along the graph, its counters never go back, and a share that is not active has no more views. *)
Theorem share_lifecycle ops w :
  SharesOk (db_shares (w_db w)) -> politeWait (w_onWait w) ->
  let l' := db_shares (w_db (runShareOps ops w).2) in
  SharesOk l' /\ forall s, s ∈ db_shares (w_db w) -> exists s', s' ∈ l' /\ evolves s s'.
Proof.
  intros HO HW. destruct (runShareOps_evolving ops w HO HW) as [HE _]. split; [apply HE|]. intros s. apply extends_row, HE.
Qed.

(** An opened share was named by the token, was addressed to the user who opened it, had not expired by the
    clock of the request, and the user was an active member. *)
Theorem native_open_authorised orgId userId rawToken meta w s :
  SharesOk (db_shares (w_db w)) -> politeWait (w_onWait w) ->
  openedBy (op_shareReveal orgId userId rawToken meta) w = Some s ->
  (exists row, row ∈ db_shares (w_db w) /\ sh_id row = sh_id s /\ sh_orgId row = orgId /\
     sh_tokenHash row = hashShareToken rawToken /\ sh_recipientUserId row = Some userId /\
     exists n, w_tick w <= n <= w_tick w + 2 /\ (clock n < sh_expiresAt row)%Z) /\
  activeMember orgId userId (membersAround w).
Proof.
  intros HO HW. unfold openedBy. cbn [runShareOp]. unfold mbind, M_bind, mret, M_ret.
  destruct (revealShareRoute _ _ _ _ w) as [[r|e] w'] eqn:E; [|done]. cbn [fst]. intros Es.
  destruct (wp_elim _ _ _ _ _ (revealRoute_facts _ _ _ _ _ HO HW) E r s eq_refl Es) as [(row & (H1' & H2' & H3' & H4') & Ei & n & Hn & Ht) Hm _ _].
  split; [|exact Hm]. exists row. repeat split; try done. exists n. split; [cbn in Hn; lia|done].
Qed.

(** C21: a share with an outside recipient is opened only by its token while it is active and not expired, and, if it
    requires a verified recipient, only with a proof whose digest is the one stored at most fifteen minutes ago. *)
Theorem external_open_proven rawToken proof w s :
  SharesOk (db_shares (w_db w)) -> politeWait (w_onWait w) ->
  openedBy (op_shareRevealExternal rawToken proof) w = Some s ->
  (exists row, row ∈ db_shares (w_db w) /\ sh_id row = sh_id s /\ sh_tokenHash row = hashShareToken rawToken /\
     sh_recipientType row = recipientExternal) /\
  exists current, current ∈ db_shares (w_onWait w (w_db w)) /\ sh_id current = sh_id s /\
    sh_status current = shareActive /\ (exists n, w_tick w <= n <= w_tick w + 2 /\ (clock n < sh_expiresAt current)%Z) /\
    (sh_verificationRequired current = true -> provenBy (clock (w_tick w + 1)) current proof).
Proof.
  intros HO HW. unfold openedBy. cbn [runShareOp]. unfold mbind, M_bind, mret, M_ret.
  destruct (revealExternalShare _ _ w) as [[r|e] w'] eqn:E; [|done]. cbn [fst]. intros Es.
  destruct (wp_elim _ _ _ _ _ (revealExternal_facts _ _ _ HO HW) E r s eq_refl Es) as [(row & ? & ? & ? & ?) Hc _ _].
  split; [|exact Hc]. by exists row.
Qed.
End theorems.
