(* ===== verification/ShareGuesses.v ===== *)
(** * Verification codes of shares

    A code that was sent confirms, and its proof opens the share; a wrong code
    spends one of five guesses. *)

From S2P Require Import Prelude Js Crypto FieldSet AuthStore Store Tx QuotaGate AuditLog Notifications Credentials Frames Sessions Mfa Shares ExternalShares ShareEvolution ShareTheorems.
From Stdlib Require Import Ascii String.
From stdpp Require Import strings pretty.

Local Open Scope string_scope.
Local Open Scope list_scope.
Local Open Scope pv_scope.

(** ** Codes are six digits *)

Lemma forallb_app_digits (a b : string) :
  forallb isDigit (String.list_ascii_of_string (a +:+ b)) =
  forallb isDigit (String.list_ascii_of_string a) && forallb isDigit (String.list_ascii_of_string b).
Proof. induction a as [|c a IH]; [done|]. rewrite string_app_cons. cbn. by rewrite IH, andb_assoc. Qed.

Lemma pretty_N_char_digit x : isDigit (pretty_N_char x) = true.
Proof. unfold pretty_N_char. by repeat case_match. Qed.

Lemma zeros_digits n : forallb isDigit (String.list_ascii_of_string (zeros n)) = true /\ String.length (zeros n) = n.
Proof. induction n as [|n [IH1 IH2]]; [done|]. cbn. by rewrite IH1, IH2. Qed.

Lemma pretty_go_digits k x s :
  (x < 10 ^ N.of_nat k)%N -> forallb isDigit (String.list_ascii_of_string s) = true ->
  forallb isDigit (String.list_ascii_of_string (pretty_N_go x s)) = true /\
  String.length (pretty_N_go x s) <= k + String.length s.
Proof.
  revert x s. induction k as [|k IH]; intros x s Hx Hs.
  - assert (x = 0%N) as -> by (cbn in Hx; lia). rewrite pretty_N_go_0. done.
  - destruct (decide (x = 0)%N) as [->|Hn]; [rewrite pretty_N_go_0; split; [done|lia]|].
    rewrite pretty_N_go_step by (by apply N.neq_0_lt_0). destruct (IH (x `div` 10)%N (String (pretty_N_char (x `mod` 10)) s)) as [E1 E2].
    + apply N.Div0.div_lt_upper_bound. rewrite Nat2N.inj_succ, N.pow_succ_r' in Hx. exact Hx.
    + cbn. by rewrite pretty_N_char_digit, Hs.
    + split; [done|]. change (String.length (String _ s)) with (S (String.length s)) in E2. lia.
Qed.

Lemma pretty_digits k x : (x < 10 ^ N.of_nat (S k))%N ->
  forallb isDigit (String.list_ascii_of_string (pretty x)) = true /\ String.length (pretty x) <= S k.
Proof.
  intros Hx. unfold pretty, pretty_N. destruct (decide (x = 0)%N); [split; [done|cbn; lia]|].
  destruct (pretty_go_digits (S k) x "" Hx eq_refl) as [E1 E2]. split; [exact E1|]. change (String.length "") with 0 in E2. lia.
Qed.

Lemma code_six_digits x : (x < 1000000)%N -> isSixDigits (padStart 6 (pretty x)) = true.
Proof.
  intros Hx. destruct (pretty_digits 5 x) as [Hd Hl]; [exact Hx|]. unfold isSixDigits, padStart.
  destruct (zeros_digits (6 - String.length (pretty x))) as [Hz Hzl].
  rewrite forallb_app_digits, Hz, Hd, andb_true_r. apply bool_decide_eq_true. rewrite string_length_app, Hzl. lia.
Qed.

Section guesses.
Context `{Locale, Platform, NodeCrypto, Env, Unicode}.

(** ** The comparison of a guess *)

(** The table when the row is updated: others commit before the transaction begins, and while it waits for the row. *)
Definition afterWaits (w : World) : Db := w_onWait w (w_onWait w (w_db w)).

(** The row on which the request compares a guess. *)
Definition guessedRow (tenant i : Uuid) (w : World) : option ShareRow :=
  head (List.filter (scoped tenant (guessable (clock (w_tick w)) i)) (db_shares (afterWaits w))).

(** What the request compares: the external share its token names, and the row with a live code. *)
Definition comparedRow (rawToken : string) (w : World) : option ShareRow :=
  row ← head (List.filter (fun s => sh_tokenHash s =? hashShareToken rawToken) (db_shares (w_db w)));
  if negb (sh_recipientType row =? recipientExternal) || negb (sh_verificationRequired row) then None
  else guessedRow (sh_orgId row) (sh_id row) w.

Definition isOk {A} (o : Outcome A) : bool := match o with Ok _ => true | Throw _ => false end.

(** The operation compared a wrong code with the one of share [i], and was answered. *)
Definition answeredWrong (i : Uuid) (op : ShareOp) (w : World) : bool :=
  match op with
  | op_shareConfirm rawToken code =>
      match comparedRow rawToken w with
      | Some r => (sh_id r =? i)
          && match verificationCodeMatches rawToken i code (sh_verificationCodeHash r) with Ok m => negb m | Throw _ => false end
          && isOk (fst (runShareOp op w))
      | None => false
      end
  | _ => false
  end.

Fixpoint wrongAnswers (i : Uuid) (ops : list ShareOp) (w : World) : nat :=
  match ops with
  | [] => 0
  | op :: ops' => (if answeredWrong i op w then 1 else 0) + wrongAnswers i ops' (snd (runShareOp op w))
  end.

(** The guesses counted on the share. *)
Definition guessesOn (i : Uuid) (l : list ShareRow) : Z :=
  match head (List.filter (fun s => sh_id s =? i) l) with Some s => sh_verificationAttemptCount s | None => 0 end.

Lemma guessesOn_row i l s : SharesOk l -> s ∈ l -> sh_id s = i -> guessesOn i l = sh_verificationAttemptCount s.
Proof.
  intros HO Hs Ei. unfold guessesOn. rewrite (filter_unique sh_id l s); [done|apply HO|done|by apply bool_decide_eq_true|].
  intros y _ Hy. bool_simpl. congruence.
Qed.

Lemma guessesOn_bounds i l : SharesOk l -> (0 <= guessesOn i l <= EXTERNAL_SHARE_VERIFICATION_MAX_ATTEMPTS)%Z.
Proof.
  intros HO. unfold guessesOn. destruct (head _) as [s|] eqn:E; [|done].
  apply head_elem_of, elem_of_lfilter in E as [_ Hs]. apply (so_rows _ HO s Hs).
Qed.

Lemma guessesOn_grows i l l' : SharesOk l -> SharesEvolve l l' -> (guessesOn i l <= guessesOn i l')%Z.
Proof.
  intros HO [HO' HE]. unfold guessesOn at 1. destruct (head _) as [s|] eqn:E; [|by apply guessesOn_bounds].
  apply head_elem_of, elem_of_lfilter in E as [Ei Hs]. bool_simpl. destruct (extends_row _ _ _ HE Hs) as (s' & Hs' & Hev).
  rewrite (guessesOn_row i l' s'); [by apply ev_guesses|done|done|]. by rewrite (evolves_id _ _ Hev).
Qed.

(** The transaction that compares a wrong code counts it. *)
Lemma confirmInTx_wrong tenant i rawToken code r w :
  head (List.filter (scoped tenant (guessable (w_now w) i)) (db_shares (w_onWait w (w_db w)))) = Some r ->
  verificationCodeMatches rawToken (sh_id r) code (sh_verificationCodeHash r) = Ok false ->
  wp (confirmInTx tenant i rawToken code) (fun o w' => isOk o = true ->
    exists s, s ∈ db_shares (w_db w') /\ sh_id s = i /\
      sh_verificationAttemptCount s = (sh_verificationAttemptCount r + 1)%Z) w.
Proof.
  intros Hr Hm. unfold confirmInTx. apply wp_dbNow. eapply wp_bind_updateShares; [reflexivity|].
  set (w1 := w <| w_db ::= _ |>). change (fun s : ShareRow => s <| sh_verificationAttemptCount := _ |>) with countGuess.
  change (fun s => _ && _) with (guessable (w_now w) i). change (db_shares (w_db w1)) with (db_shares (w_onWait w (w_db w))).
  set (l := db_shares (w_onWait w (w_db w))) in *. set (p := scoped tenant _) in *.
  destruct (List.filter p l) as [|r' rs] eqn:Ef; [done|]. injection Hr as ->. cbn [map head].
  assert (Hin : r ∈ List.filter p l) by (rewrite Ef; left). apply elem_of_lfilter in Hin as [Ep Hin].
  destruct (guessable_spec _ _ _ _ Ep) as (_ & Ei & _ & _).
  apply wp_bind, wp_lift. change (sh_verificationCodeHash (countGuess r)) with (sh_verificationCodeHash r).
  change (sh_id (countGuess r)) with (sh_id r). rewrite Hm.
  assert (Hcount : countGuess r ∈ map_where p countGuess l) by (apply elem_of_map_where; exists r; by rewrite Ep).
  case_bool_decide.
  - apply wp_bind. eapply wp_mono; [apply lock_spec|]. intros o w' [_ [now E]].
    match type of E with _ = map_where ?q _ (db_shares (w_db ?w2)) => set (q0 := q) in E;
      change (db_shares (w_db w2)) with (map_where p countGuess l) in E end.
    destruct o as [o|e]; [|done]. apply wp_ret. intros _. rewrite E.
    eexists. split; [apply elem_of_map_where; exists (countGuess r); split; [exact Hcount|reflexivity]|].
    by destruct (q0 (countGuess r)).
  - apply wp_bind, wp_ret, wp_ret. intros _. exists (countGuess r). split; [exact Hcount|done].
Qed.

Lemma answeredWrong_counts i op w :
  SharesOk (db_shares (w_db w)) -> politeWait (w_onWait w) -> answeredWrong i op w = true ->
  (guessesOn i (db_shares (w_db w)) + 1 <= guessesOn i (db_shares (w_db (snd (runShareOp op w)))))%Z.
Proof.
  intros HO HW Ha. destruct (runShareOp_polite op w HO HW) as [HE _]. destruct op; try done. cbn [answeredWrong] in Ha.
  destruct (comparedRow rawToken w) as [r|] eqn:Er; [|done].
  apply andb_true_iff in Ha as [[Hi Hm]%andb_true_iff Hok]. bool_simpl.
  destruct (verificationCodeMatches _ _ _ _) as [[]|] eqn:Em; try done.
  assert (HEw : SharesEvolve (db_shares (w_db w)) (db_shares (afterWaits w))).
  { assert (HE1 : SharesEvolve (db_shares (w_db w)) (db_shares (w_onWait w (w_db w)))) by (by apply HW).
    eapply SharesEvolve_trans; [exact HE1|]. apply HW, HE1. }
  unfold comparedRow in Er. cbn [mbind option_bind] in Er.
  destruct (head (List.filter _ (db_shares (w_db w)))) as [row|] eqn:Erow; [|done]. cbn in Er.
  destruct (negb (sh_recipientType row =? recipientExternal) || negb (sh_verificationRequired row)) eqn:Eb; [done|].
  assert (Hr : r ∈ db_shares (afterWaits w) /\ sh_id r = sh_id row).
  { unfold guessedRow in Er. apply head_elem_of, elem_of_lfilter in Er as [Ep Hin]. split; [done|].
    by destruct (guessable_spec _ _ _ _ Ep) as (_ & ? & _). }
  destruct Hr as [Hr Eid].
  assert (Hafter : exists s, s ∈ db_shares (w_db (snd (runShareOp (op_shareConfirm rawToken code) w))) /\ sh_id s = i /\
    sh_verificationAttemptCount s = (sh_verificationAttemptCount r + 1)%Z).
  { revert Hok. cbn [runShareOp]. unfold answering, confirmExternalShareVerification, adminLookupByTokenHash.
    match goal with |- context [isOk (fst (?m w))] => enough (Hwp : wp m (fun o w' => isOk o = true -> exists s, s ∈ db_shares (w_db w') /\
      sh_id s = i /\ sh_verificationAttemptCount s = (sh_verificationAttemptCount r + 1)%Z) w) by
      (unfold wp in Hwp; destruct (m w) as [o w']; exact Hwp) end.
    apply wp_bind. eapply wp_mono with (Q := fun o w' => isOk o = true -> exists s, s ∈ db_shares (w_db w') /\
      sh_id s = i /\ sh_verificationAttemptCount s = (sh_verificationAttemptCount r + 1)%Z); [|by intros [a|e] w' Hw'].
    apply wp_bind_first. rewrite Erow, Eb. unfold withOrgLater. apply wp_bind. cbn. apply wp_withOrg.
    eapply wp_mono; [eapply (confirmInTx_wrong (sh_orgId row) (sh_id row) rawToken code r)|].
    - exact Er.
    - by rewrite <- Em, Hi.
    - intros [a|e] w' Hw'; [|done]. intros E. destruct (Hw' eq_refl) as (s & ? & ? & ?). exists s. by rewrite <- Hi, Eid. }
  destruct Hafter as (s & Hs & Es & Ec). rewrite (guessesOn_row i _ s (proj1 HE) Hs Es), Ec.
  pose proof (guessesOn_grows i _ _ HO HEw) as Hg. rewrite (guessesOn_row i _ r (proj1 HEw) Hr Hi) in Hg. lia.
Qed.

Lemma wrongAnswers_count i ops w :
  SharesOk (db_shares (w_db w)) -> politeWait (w_onWait w) ->
  (Z.of_nat (wrongAnswers i ops w) + guessesOn i (db_shares (w_db w)) <= EXTERNAL_SHARE_VERIFICATION_MAX_ATTEMPTS)%Z.
Proof.
  revert w. induction ops as [|op ops IH]; intros w HO HW; cbn [wrongAnswers]; [by apply guessesOn_bounds|].
  destruct (runShareOp_polite op w HO HW) as [HE HW1]. specialize (IH _ (proj1 HE) HW1).
  pose proof (guessesOn_grows i _ _ HO HE). destruct (answeredWrong i op w) eqn:Ea; [|lia].
  pose proof (answeredWrong_counts i op w HO HW Ea). lia.
Qed.

(** C20: of all the requests that compare a wrong code with the code of one share, at most five are answered,
    whatever runs between them and however many codes are sent. *)
Theorem wrong_answers_bounded i ops w :
  SharesOk (db_shares (w_db w)) -> politeWait (w_onWait w) -> wrongAnswers i ops w <= 5.
Proof.
  intros HO HW. pose proof (wrongAnswers_count i ops w HO HW). pose proof (guessesOn_bounds i _ HO).
  unfold EXTERNAL_SHARE_VERIFICATION_MAX_ATTEMPTS in *. lia.
Qed.

(** ** The code that was sent *)

Section sent.
Context (HhmacHex : forall key s, String.length (hmacSha256Hex key s) = 64)
        (Hsha : forall s, String.length (sha256 s) = 32)
        (Hrandom : forall n max, (0 < max)%N -> (randomInt n max < max)%N).

Definition codeRow (rawToken : string) (i : Uuid) (code : string) (now : Date) (s : ShareRow) : ShareRow :=
  s <| sh_verificationCodeHash := Some (hashVerificationCode rawToken i code) |>
    <| sh_verificationCodeExpiresAt := Some (now + EXTERNAL_SHARE_VERIFICATION_CODE_TTL_MS)%Z |>
    <| sh_verificationSendCount := (sh_verificationSendCount s + 1)%Z |>
    <| sh_verificationSentAt := Some now |>.

(** The share [s], verified at [now] by [proof]; no guess is spent. *)
Record verifiedAs (proof : string) (now : Date) (s s' : ShareRow) : Prop := {
  va_identity : shareIdentity s' = shareIdentity s;
  va_status : sh_status s' = sh_status s;
  va_guesses : sh_verificationAttemptCount s' = sh_verificationAttemptCount s;
  va_code : sh_verificationCodeHash s' = None;
  va_proof : sh_verificationProofHash s' = Some (sha256Hex proof);
  va_time : sh_verifiedAt s' = Some now;
}.

Lemma own_code_matches rawToken i code :
  isSixDigits code = true ->
  verificationCodeMatches rawToken i code (Some (hashVerificationCode rawToken i code)) = Ok true.
Proof.
  intros Hc. unfold verificationCodeMatches, hexDigestsEqual, timingSafeEqual, hashVerificationCode.
  by rewrite HhmacHex, Hc, !bool_decide_true by done.
Qed.

Lemma own_proof_valid share proof v w :
  sh_verifiedAt share = Some v -> sh_verificationProofHash share = Some (sha256Hex proof) ->
  (clock (w_tick w) < v + EXTERNAL_SHARE_VERIFICATION_PROOF_TTL_MS)%Z ->
  fst (hasValidVerificationProof share (Some proof) w) = Ok true.
Proof.
  intros Ev Eh Ht. unfold hasValidVerificationProof. rewrite Ev. unfold mbind, M_bind, newDate. cbv beta iota.
  rewrite bool_decide_false by lia. unfold lift, verificationProofMatches. rewrite Eh. cbn [fst].
  unfold hexDigestsEqual, timingSafeEqual, sha256Hex. by rewrite toHex_length, Hsha, fromHex_toHex, !bool_decide_true by done.
Qed.

(** One row is updated: the row of an identifier. *)
Lemma filter_row (l : list ShareRow) s p :
  SharesOk l -> s ∈ l -> p s = true -> (forall x, p x = true -> sh_id x = sh_id s) -> List.filter p l = [s].
Proof. intros HO Hs Hp Hk. apply (filter_unique sh_id); [apply HO|done|done|]. intros y _ Hy. by apply Hk. Qed.

Lemma send_spec rawToken s w :
  let now := clock (S (w_tick w)) in
  SharesOk (db_shares (w_db w)) -> w_onWait w = id -> s ∈ db_shares (w_db w) ->
  verifiableShareCondition now (sh_id s) s = true -> sendAllowed now s = true -> isNotNull (truthy (sh_recipientEmail s)) = true ->
  wp (sendVerificationCode rawToken (MkVerificationTarget (sh_orgId s) (sh_id s))) (fun o w' =>
    exists code jobs, o = Ok jobs /\ isSixDigits code = true /\
      db_shares (w_db w') = map_where (scoped (sh_orgId s) (fun x => verifiableShareCondition now (sh_id s) x && sendAllowed now x))
        (codeRow rawToken (sh_id s) code now) (db_shares (w_db w)) /\
      exists job, last (db_queue (w_db w')) = Some job /\ nq_recipientEmail job = sh_recipientEmail s /\
        exists rest, nq_payload job = JObj (("code", JStr code) :: rest)) w.
Proof.
  intros now HO HW Hs Hv Ha He. unfold sendVerificationCode. cbn [vt_orgId vt_shareId].
  set (code := padStart 6 (pretty (randomInt (w_tick w) 1000000))).
  eapply (wp_bind_eq _ _ _ _ code (w <| w_tick ::= S |>)); [reflexivity|]. apply wp_withOrg, wp_dbNow.
  eapply wp_bind_updateShares; [reflexivity|].
  match goal with |- context [head (map ?f (List.filter ?p ?l))] =>
    change f with (codeRow rawToken (sh_id s) code now); change p with (scoped (sh_orgId s) (fun x => verifiableShareCondition now (sh_id s) x && sendAllowed now x));
    change l with (db_shares (w_onWait w (w_db w))) end.
  match goal with |- wp _ _ (?w0 <| w_db ::= _ |>) => set (w1 := w0) end.
  assert (Edb : w_db w1 = w_db w) by (change (w_onWait w (w_db w) = w_db w); by rewrite HW).
  rewrite HW. change (id (w_db w)) with (w_db w).
  rewrite (filter_row (db_shares (w_db w)) s); [|done|done| |].
  2: { unfold scoped. by rewrite Hv, Ha, bool_decide_true. }
  2: { intros x Hx. unfold scoped, verifiableShareCondition in Hx. by bool_simpl. }
  cbn [map head mbind option_bind]. change (sh_recipientEmail (codeRow _ _ _ _ s)) with (sh_recipientEmail s).
  destruct (truthy (sh_recipientEmail s)) as [e|] eqn:Ee; [|done].
  assert (Eemail : sh_recipientEmail s = Some e) by (destruct (sh_recipientEmail s) as [[]|]; cbn in Ee; congruence).
  eapply wp_bind_eq; [reflexivity|]. unfold dispatchDirectEmailNotification, insertQueue. apply wp_bind, wp_genRandomUuid.
  eapply wp_bind_eq; [by apply insertRow_ok|]. apply wp_ret, wp_ret.
  exists code. eexists. split; [reflexivity|]. split; [by apply code_six_digits, Hrandom|]. split.
  - change (map_where (scoped (sh_orgId s) (fun x => verifiableShareCondition now (sh_id s) x && sendAllowed now x))
      (codeRow rawToken (sh_id s) code now) (db_shares (w_db w1)) = map_where (scoped (sh_orgId s) (fun x => verifiableShareCondition now (sh_id s) x && sendAllowed now x))
      (codeRow rawToken (sh_id s) code now) (db_shares (w_db w))). by rewrite Edb.
  - eexists. split; [cbn; apply last_snoc|]. split; [done|]. eexists. reflexivity.
Qed.

Lemma confirm_right rawToken code r w :
  let now := clock (w_tick w) in
  SharesOk (db_shares (w_db w)) -> w_onWait w = id -> r ∈ db_shares (w_db w) ->
  sh_tokenHash r = hashShareToken rawToken -> sh_recipientType r = recipientExternal ->
  guessable now (sh_id r) r = true -> isSixDigits code = true ->
  sh_verificationCodeHash r = Some (hashVerificationCode rawToken (sh_id r) code) ->
  wp (confirmExternalShareVerification rawToken code) (fun o w' => exists proof s,
    o = Ok (confirm_ok proof) /\ s ∈ db_shares (w_db w') /\ verifiedAs proof now r s) w.
Proof.
  intros now HO HW Hr Eh Ex Hg Hc Ecode. unfold confirmExternalShareVerification, adminLookupByTokenHash.
  assert (Ev : sh_verificationRequired r = true) by (unfold guessable, verifiableShareCondition in Hg; by bool_simpl).
  apply wp_bind_first.
  assert (Efirst : List.filter (fun s => sh_tokenHash s =? hashShareToken rawToken) (db_shares (w_db w)) = [r]).
  { apply (filter_unique sh_tokenHash); [apply HO|done|by apply bool_decide_eq_true|]. intros y _ Hy. bool_simpl. congruence. }
  rewrite Efirst. cbn [head]. rewrite Ex, Ev, bool_decide_true by done. cbn [negb orb].
  unfold withOrgLater. apply wp_bind. unfold otherCommits, wp at 1. rewrite HW. apply wp_withOrg. unfold confirmInTx.
  apply wp_dbNow. eapply wp_bind_updateShares; [reflexivity|].
  match goal with |- wp _ _ (?w0 <| w_db ::= _ |>) => set (w1 := w0) end.
  assert (Edb : w_db w1 = w_db w) by (change (w_onWait w (w_db w) = w_db w); by rewrite HW).
  change (fun s : ShareRow => s <| sh_verificationAttemptCount := _ |>) with countGuess.
  change (fun s => _ && _) with (guessable now (sh_id r)). rewrite Edb.
  set (p := scoped (sh_orgId r) (guessable now (sh_id r))).
  assert (Ep : p r = true) by (unfold p, scoped; by rewrite Hg, bool_decide_true).
  assert (Hp : forall x, p x = true -> sh_id x = sh_id r) by (intros x Hx; by destruct (guessable_spec _ _ _ _ Hx) as (_ & ? & _)).
  rewrite (filter_row (db_shares (w_db w)) r p) by done. cbn [map head]. apply wp_bind, wp_lift.
  change (sh_id (countGuess r)) with (sh_id r). change (sh_verificationCodeHash (countGuess r)) with (sh_verificationCodeHash r).
  rewrite Ecode, own_code_matches by done. unfold generateVerificationProof, generateOpaque. apply wp_bind.
  cbn [mbind M_bind]. apply wp_bind_update, wp_ret.
  match goal with |- exists proof s, Ok (confirm_ok ?pr) = _ /\ s ∈ db_shares (w_db (?w2 <| w_tick ::= S |> <| w_db ::= fun db => db <| _ ::= map_where ?q ?f |> |>)) /\ _ =>
    exists pr, (f (countGuess r)); split; [reflexivity|]; split;
    [change (f (countGuess r) ∈ map_where q f (map_where p countGuess (db_shares (w_db w1))))|] end.
  - apply elem_of_map_where. exists (countGuess r). split.
    + apply elem_of_map_where. exists r. rewrite Edb, Ep. done.
    + unfold scoped. cbn. by rewrite !bool_decide_true by done.
  - constructor; try done. cbn. lia.
Qed.

(** The code in the message that was queued, entered within ten minutes and before the share expires, confirms
    without spending a guess; and the proof it gives satisfies the check of the opening for fifteen minutes. *)
Theorem sent_code_confirms rawToken s w jobs w1 :
  let sent := clock (S (w_tick w)) in
  SharesOk (db_shares (w_db w)) -> w_onWait w = id -> s ∈ db_shares (w_db w) ->
  sh_tokenHash s = hashShareToken rawToken -> sh_recipientType s = recipientExternal ->
  verifiableShareCondition sent (sh_id s) s = true -> sendAllowed sent s = true ->
  isNotNull (truthy (sh_recipientEmail s)) = true ->
  sendVerificationCode rawToken (MkVerificationTarget (sh_orgId s) (sh_id s)) w = (Ok jobs, w1) ->
  exists code job rest, last (db_queue (w_db w1)) = Some job /\ nq_recipientEmail job = sh_recipientEmail s /\
    nq_payload job = JObj (("code", JStr code) :: rest) /\
    forall w2, db_shares (w_db w2) = db_shares (w_db w1) -> w_onWait w2 = id ->
      let now := clock (w_tick w2) in
      (now < sh_expiresAt s)%Z -> (now < sent + EXTERNAL_SHARE_VERIFICATION_CODE_TTL_MS)%Z ->
      exists proof w3 s3,
        confirmExternalShareVerification rawToken code w2 = (Ok (confirm_ok proof), w3) /\
        s3 ∈ db_shares (w_db w3) /\ verifiedAs proof now s s3 /\
        forall w4, (clock (w_tick w4) < now + EXTERNAL_SHARE_VERIFICATION_PROOF_TTL_MS)%Z ->
          fst (hasValidVerificationProof s3 (Some proof) w4) = Ok true.
Proof.
  intros sent HO HW Hs Eh Ex Hv Ha He E.
  destruct (wp_elim _ _ _ _ _ (send_spec rawToken s w HO HW Hs Hv Ha He) E)
    as (code & jobs' & _ & Hc & Etab & job & Hjob & Hmail & rest & Hpay).
  exists code, job, rest. split; [done|]. split; [done|]. split; [done|]. intros w2 E2 HW2 now Hexp Httl.
  set (p := scoped _ _) in Etab. set (r := codeRow rawToken (sh_id s) code sent s).
  assert (Hmap : SharesEvolve (db_shares (w_db w)) (db_shares (w_db w1))).
  { pose proof (ev_sendCode (db_shares (w_db w)) rawToken (MkVerificationTarget (sh_orgId s) (sh_id s))) as Hev.
    refine (proj1 (preserves_elim _ _ _ _ _ _ Hev (holds_here w HO _) E)). rewrite HW. intros db HOdb. by apply SharesEvolve_refl. }
  assert (Hr : r ∈ db_shares (w_db w2)).
  { rewrite E2, Etab. apply elem_of_map_where. exists s. split; [done|]. unfold p, scoped.
    fold sent. rewrite Hv, Ha, bool_decide_true by done. done. }
  assert (Hg : guessable now (sh_id r) r = true).
  { unfold guessable, verifiableShareCondition in *. cbn. bool_simpl. rewrite !bool_decide_true by done.
    repeat match goal with E : ?b = true |- context [?b] => rewrite E end. by match goal with E : sh_lockedAt s = None |- _ => rewrite E end. }
  destruct (confirmExternalShareVerification rawToken code w2) as [o w3] eqn:E3.
  assert (HO2 : SharesOk (db_shares (w_db w2))) by (rewrite E2; apply Hmap).
  destruct (wp_elim _ _ _ _ _ (confirm_right rawToken code r w2 HO2 HW2 Hr Eh Ex Hg Hc eq_refl) E3)
    as (proof & s3 & -> & Hs3 & [Vi Vs Vg Vc Vp Vt]).
  exists proof, w3, s3. split; [done|]. split; [done|]. split; [by constructor|].
  intros w4 Ht. by apply (own_proof_valid s3 proof now).
Qed.
End sent.
End guesses.
