(* ===== verification/ShareScope.v ===== *)
(** * What a share discloses, and until when

    The bounded serialization returns nothing outside the fields of the share;
    at most five shares of one scope are pending; a rotation closes the shares
    of what it rotated; the recommendation to rotate is shown exactly while an
    undismissed share is outstanding. *)

From S2P Require Import Prelude Js Crypto FieldSet AuthStore Store Tx QuotaGate AuditLog Notifications Credentials Frames Sessions Shares ExternalShares ShareViews ShareEvolution ShareTheorems ShareGuesses.
From Stdlib Require Import Ascii String.
From stdpp Require Import strings.

Local Open Scope string_scope.
Local Open Scope list_scope.
Local Open Scope pv_scope.

(** ** Disclosure *)

(** A field a share may show: one it names, as written or normalized; without names, one that is not sensitive. *)
Definition mayShow `{Unicode} (names : option (list string)) (key : string) (sensitive : bool) : Prop :=
  match names with
  | None => sensitive = false
  | Some keys => key ∈ keys \/ normalizeFieldKey key ∈ keys
  end.

(** The field [key] of a version of the credential. *)
Definition declaredField (db : Db) (credentialId : Uuid) (key : string) (sensitive : bool) : Prop :=
  exists v meta, v ∈ db_versions db /\ cv_credentialId v = credentialId /\
    meta ∈ fieldMetaForResponse (cv_schemaVersion v) (cv_fieldMeta v) /\ fm_key meta = key /\ fm_sensitive meta = sensitive.

Section disclosure.
Context `{Platform, NodeCrypto, Unicode}.

Lemma isIncluded_mayShow names key sensitive : isIncluded names key sensitive = true -> mayShow names key sensitive.
Proof. destruct names as [keys|]; cbn; intros E; bool_simpl; [by right|done]. Qed.

(** A field that was asked for by name. *)
Lemma reveal_named credentialId projectId f w :
  wp (revealCurrentValue credentialId projectId (Some f)) (fun o w' => w' = w /\ forall r, o = Ok r ->
    match r with
    | FoundFields fields _ _ _ _ => forall x, x ∈ fields -> fld_key x = f
    | FoundValue _ _ _ _ => exists sensitive, declaredField (w_db w) credentialId f sensitive
    | _ => True
    end) w.
Proof.
  unfold revealCurrentValue. eapply wp_bind_eq; [reflexivity|]. destruct (head _) as [cr|]; [|by apply wp_ret; split; [|intros ? [= <-]]].
  eapply wp_bind_eq; [reflexivity|]. destruct (head (isort _ _)) as [v|] eqn:Ev; [|by apply wp_ret; split; [|intros ? [= <-]]].
  apply head_elem_of in Ev. rewrite elem_of_isort, elem_of_lfilter in Ev. destruct Ev as [Hc Hv]. bool_simpl.
  cbn [mbind option_bind]. destruct (cv_encryptedValue v) as [enc|]; cbn [mbind option_bind];
    [|by apply wp_ret; split; [|intros ? [= <-]]].
  eapply wp_bind_eq; [reflexivity|]. cbv zeta. destruct (invalidRequestedField _ _ _) eqn:Einv; [by apply wp_ret; split; [|intros ? [= <-]]|].
  apply wp_bind, wp_intro. unfold withSecretText. intros o w1 [= Eo <-]. destruct o as [plaintext|e]; [|by split].
  apply wp_bind, wp_lift. destruct (readableFields _ _) as [[fields multi]|e]; [|by split].
  destruct multi; cbn [negb].
  - destruct (List.find _ fields) as [m|] eqn:Ef; [|by apply wp_ret; split; [|intros ? [= <-]]].
    apply wp_ret. split; [done|]. intros ? [= <-] x ->%list_elem_of_singleton.
    apply List.find_some in Ef as [_ E]. by bool_simpl.
  - apply wp_bind, wp_lift. destruct (unwrapRevealValue _ _) as [value|e]; [|by split].
    apply wp_ret. split; [done|]. intros ? [= <-]. unfold invalidRequestedField in Einv.
    case_bool_decide; [done|]. case_bool_decide as Hin; [|done]. apply elem_of_map in Hin as (meta & E & Hm).
    apply elem_of_lfilter in Hm as [_ Hm]. exists (fm_sensitive meta), v, meta. by repeat split.
Qed.

Lemma selectCurrentVersionMeta_spec c w :
  wp (selectCurrentVersionMeta c) (fun o w' => w' = w /\ forall v, o = Ok (Some v) ->
    v ∈ db_versions (w_db w) /\ cv_credentialId v = c) w.
Proof.
  unfold selectCurrentVersionMeta, wp, selectFirstOrdered. split; [done|]. intros v [= Eh].
  apply head_elem_of in Eh. rewrite elem_of_isort, elem_of_lfilter in Eh. destruct Eh as [Hc Hv]. by bool_simpl.
Qed.

Definition disclosed (db : Db) (credentialId : Uuid) (names : option (list string)) (b : SerializeBoundedResult) : Prop :=
  match b with
  | bounded_not_found => True
  | bounded_value _ => exists key sensitive, declaredField db credentialId key sensitive /\ mayShow names key sensitive
  | bounded_fields fields => forall f, f ∈ fields -> mayShow names (bf_key f) (bf_sensitive f)
  end.

Lemma filteredFieldsResult_disclosed db c names fields :
  (forall f, f ∈ fields -> mayShow names (bf_key f) (bf_sensitive f)) ->
  disclosed db c names (filteredFieldsResult names fields).
Proof. intros Hf. unfold filteredFieldsResult. destruct names; [destruct (Nat.ltb _ _)|]; done. Qed.

Lemma singleFieldValue_disclosed c names value n w :
  wp (serializeBoundedSingleFieldValue c names value n) (fun o w' => forall b, o = Ok b -> disclosed (w_db w) c names b) w.
Proof.
  unfold serializeBoundedSingleFieldValue. apply wp_bind, wp_intro. intros [v|e] w1 E1; [|done]. apply wp_ret. intros b [= <-].
  destruct v as [v|]; [|done]. destruct (wp_elim _ _ _ _ _ (selectCurrentVersionMeta_spec _ _) E1) as [_ Hv].
  destruct (Hv v eq_refl) as [Hin Hc]. destruct (negb _); [done|].
  assert (Hnil : disclosed (w_db w) c names (filteredFieldsResult names [])).
  { apply filteredFieldsResult_disclosed. by intros f ?%not_elem_of_nil. }
  destruct (fieldMetaForResponse _ _) as [|meta rest] eqn:Em; [exact Hnil|].
  destruct (isIncluded names (fm_key meta) (fm_sensitive meta)) eqn:Ei; cbn [negb]; [|exact Hnil].
  assert (Hb : disclosed (w_db w) c names (bounded_value value)); [|by destruct names as [[|? [|? ?]]|]].
  exists (fm_key meta), (fm_sensitive meta). split; [|by apply isIncluded_mayShow].
  exists v, meta. rewrite Em. repeat split; try done. left.
Qed.

(** What a share shows lies within its scope: each returned field is one of the named ones, or not sensitive
    when the share names none; and a bare value is that of a version which declares such a field. *)
Theorem bounded_disclosure credentialId names w b w' :
  serializeBounded credentialId names w = (Ok b, w') -> disclosed (w_db w) credentialId names b.
Proof.
  intros E. revert E. set (m := serializeBounded credentialId names).
  enough (Hwp : wp m (fun o _ => forall b, o = Ok b -> disclosed (w_db w) credentialId names b) w).
  { intros E. exact (wp_elim _ _ _ _ _ Hwp E b eq_refl). }
  unfold m, serializeBounded, loadCredentialProjectId. apply wp_bind, wp_bind_first, wp_ret.
  destruct (cred_projectId <$> _) as [projectId|]; [|by apply wp_ret; intros ? [= <-]].
  destruct (names ≫= _) as [key|] eqn:Ek.
  - assert (Hn : names = Some [key]).
    { destruct names as [[|k [|? ?]]|]; cbn in Ek; try done. destruct k; cbn in Ek; congruence. }
    unfold serializeBoundedSingleKey. apply wp_bind, wp_intro. intros [r|e] w1 E1; [|done].
    destruct (wp_elim _ _ _ _ _ (reveal_named _ _ _ _) E1) as [_ Hr]. specialize (Hr r eq_refl).
    apply wp_ret. intros ? [= <-]. destruct r; try done; cbn.
    + destruct Hr as [sensitive Hd]. exists key, sensitive. split; [done|]. rewrite Hn. left. left.
    + intros f (x & -> & Hx)%elem_of_map. rewrite Hn. left. cbn. rewrite (Hr x Hx). left.
  - unfold serializeBoundedFiltered. apply wp_bind, wp_intro. intros [r|e] w1 E1; [|done].
    assert (Edb : w_db w1 = w_db w).
    { refine (readOnly_db _ _ _ _ _ E1). unfold revealCurrentValue, findCredentialInProject. read_only. }
    destruct r; try (by apply wp_ret; intros ? [= <-]).
    + apply wp_intro. intros o w2 E2 b' ->. rewrite <- Edb. exact (wp_elim _ _ _ _ _ (singleFieldValue_disclosed _ _ _ _ _) E2 b' eq_refl).
    + apply wp_ret. intros ? [= <-]. apply filteredFieldsResult_disclosed.
      intros f (x & -> & Hx)%elem_of_map. apply elem_of_lfilter in Hx as [Hi _]. by apply isIncluded_mayShow.
Qed.
End disclosure.

(** ** Pending shares *)

Section pending.
Context `{Locale, Platform, NodeCrypto, Env, Unicode}.

(** The pending external shares of the scope of [share]. *)
Definition pendingBeside (now : Date) (share s : ShareRow) : bool :=
  scoped (sh_orgId share) (fun s =>
    (sh_credentialId s =? sh_credentialId share) && (sh_recipientType s =? recipientExternal)
    && pendingCapBucket (sh_fieldKey share) (sh_attributeKeys share) s
    && (sh_status s ∈? [shareActive]) && (now <? sh_expiresAt s)) s.

Lemma insertRow_inv {R} (t : Db -> list R) `{!Setter t} c r w x w' : insertRow t c r w = (Ok x, w') ->
  x = r /\ w' = w <| w_db ::= fun db => db <| t ::= fun l => (l ++ [r])%list |> |>.
Proof. unfold insertRow. destruct (existsb _ _); [done|]. by intros [= <- <-]. Qed.

(** When an external share is created, at most five of its scope, itself among them, are pending. *)
Theorem external_cap input w share token w' :
  createExternalCredentialShare input w = (Ok (create_ok share token), w') ->
  length (List.filter (pendingBeside (w_now w') share) (db_shares (w_db w'))) <= 5.
Proof.
  assert (Hwp : wp (createExternalCredentialShare input) (fun o w' => forall share token, o = Ok (create_ok share token) ->
    length (List.filter (pendingBeside (w_now w') share) (db_shares (w_db w'))) <= 5) w);
    [|intros E; exact (wp_elim _ _ _ _ _ Hwp E share token eq_refl)].
  unfold createExternalCredentialShare. apply wp_bind, wp_intro. intros [[?|]|e] w1 _; [by apply wp_ret| |done].
  apply wp_bind, wp_intro. intros [[?|[f k]]|e] w2 _; [by apply wp_ret| |done].
  apply wp_bind. unfold lockPendingBucket, otherCommits, wp at 1. set (w3 := _ <| w_db ::= _ |>). apply wp_dbNow.
  eapply wp_bind_eq; [reflexivity|]. case_bool_decide as Hcap; [by apply wp_ret|].
  eapply wp_bind_eq; [reflexivity|]. unfold insertShare. apply wp_bind, wp_genRandomUuid, wp_dbNow, wp_intro. intros [row|e] w4 E4; [|done].
  apply wp_ret. intros s t [= <- _]. apply insertRow_inv in E4 as [-> ->].
  set (share' := baseShareInsertValues _ _ _ _ _ _ _).
  change (length (List.filter (pendingBeside (w_now w3) share') (db_shares (w_db w3) ++ [share'])) <= 5).
  rewrite List.filter_app, length_app. unfold MAX_PENDING_EXTERNAL_SHARES_PER_FIELD in Hcap.
  match type of Hcap with context [length (List.filter ?p ?l)] =>
    change (length (List.filter (pendingBeside (w_now w3) share') (db_shares (w_db w3)))) with (length (List.filter p l)) end.
  pose proof (List.filter_length_le (pendingBeside (w_now w3) share') [share']) as Hle. cbn [length] in Hle. lia.
Qed.
End pending.

(** ** Rotations *)

Section rotations.
Context `{Locale, Platform, NodeCrypto, Env, Unicode}.

Lemma humanAudit_shares l o a e r t p m :
  preserves (fun db => au_shares (db_auth db) = l) (fun _ => True) (writeHumanAuditEntryOrFailClosed o a e r t p m).
Proof.
  unfold writeHumanAuditEntryOrFailClosed, rethrowAsSameTransactionAuditWriteError, firstActorTokenIdForUser.
  apply preserves_catch.
  - apply preserves_bind; [|intros ?; preserve]. apply preserves_bind; [preserve|]. intros ?.
    apply (auth_writeHuman (fun a => au_shares a = l)).
  - intros []; preserve.
Qed.

Definition closed (orgId credentialId : Uuid) (targetFields : option (list string)) (s : ShareRow) : Prop :=
  sh_orgId s = orgId -> sh_credentialId s = credentialId -> inFieldScope targetFields s = true -> isOutstanding s = false.

Lemma supersede_closes orgId u p c r fields m w :
  wp (supersedeOutstandingSharesAndAudit orgId u p c r fields m) (fun o w' => isOk o = true ->
    forall s, s ∈ db_shares (w_db w') -> closed orgId c fields s) w.
Proof.
  unfold supersedeOutstandingSharesAndAudit. apply wp_bind. unfold supersedeOutstandingSharesForRotation.
  apply wp_newDate. unfold updateShares. apply wp_bind. unfold otherCommits, wp at 1. unfold wp at 1, updateWhere. cbv beta iota.
  set (w1 := _ <| w_db ::= _ |>). set (f := fun s : ShareRow => s <| sh_status := _ |> <| sh_supersededAt := _ |>).
  set (q := scoped orgId _).
  assert (Hcl : forall s, s ∈ map_where q f (db_shares (w_db w1)) -> closed orgId c fields s).
  { intros s (x & _ & ->)%elem_of_map_where. destruct (q x) eqn:Eq; [by intros _ _ _|].
    intros Eo Ec Ef. unfold q, scoped in Eq. rewrite Ec, Ef, !bool_decide_true in Eq by done. by rewrite andb_true_r in Eq. }
  match goal with |- wp ?k _ ?w2 => assert (Hk : preserves (fun db => au_shares (db_auth db) = map_where q f (db_shares (w_db w1))) (fun _ => True) k) end.
  { apply preserves_forEachSequential. intros s. apply humanAudit_shares. }
  eapply wp_mono; [by apply Hk|]. intros o w' [E _] _ s Hs. change (s ∈ au_shares (db_auth (w_db w'))) in Hs.
  rewrite E in Hs. by apply Hcl.
Qed.

(** C22: once the shares of a rotated secret are superseded, no share of what was rotated is opened again: whatever
    was shared before the promotion never shows the new value. *)
Theorem rotation_closes_shares orgId userId projectId credentialId rotationId fields meta w w1 ops s :
  SharesOk (db_shares (w_db w)) -> politeWait (w_onWait w) ->
  runShareOp (op_shareSupersede orgId userId projectId credentialId rotationId fields meta) w = (Ok None, w1) ->
  s ∈ db_shares (w_db w1) -> sh_orgId s = orgId -> sh_credentialId s = credentialId -> inFieldScope fields s = true ->
  List.filter (opensShare (sh_id s)) (runShareOps ops w1).1 = [].
Proof.
  intros HO HW E Hs Eo Ec Ef. set (op := op_shareSupersede _ _ _ _ _ _ _) in E.
  destruct (runShareOp_polite op w HO HW) as [HE HW1]. rewrite E in HE, HW1. cbn [snd] in HE, HW1.
  apply (inactive_never_opened ops w1 _ s); [apply HE|done|done|done|]. intros Es.
  assert (Hcl : closed orgId credentialId fields s).
  { assert (Hwp : wp (withOrg (supersedeOutstandingSharesAndAudit orgId userId projectId credentialId rotationId fields meta))
      (fun o w' => isOk o = true -> forall s, s ∈ db_shares (w_db w') -> closed orgId credentialId fields s) w).
    { apply wp_withOrg. eapply wp_mono; [apply supersede_closes|]. by intros [a|e] w' Hw'. }
    revert E. unfold op. cbn [runShareOp]. unfold answering, mbind, M_bind, mret, M_ret, wp in *.
    destruct (withOrg _ w) as [[a|e] w'] eqn:Ew; [|done]. intros [= <-]. by apply Hwp. }
  specialize (Hcl Eo Ec Ef). unfold isOutstanding in Hcl. by rewrite Es, bool_decide_true in Hcl.
Qed.
End rotations.

(** ** The recommendation to rotate *)

Section nudge.

Lemma latestDismissal_spec rows key t acc :
  (match fold_left (fun existing row =>
    if bucketKey (nd_fieldKey row) =? key then
      match existing with
      | Some e => if (e <? nd_dismissedAt row) then Some (nd_dismissedAt row) else Some e
      | None => Some (nd_dismissedAt row)
      end
    else existing) rows acc with None => True | Some d => (d < t)%Z end) <->
  (match acc with None => True | Some d => (d < t)%Z end) /\
  forall d, d ∈ rows -> bucketKey (nd_fieldKey d) = key -> (nd_dismissedAt d < t)%Z.
Proof.
  revert acc. induction rows as [|r rows IH]; intros acc; cbn [fold_left].
  { split; [intros Ha; split; [done|by intros ? ?%not_elem_of_nil]|by intros []]. }
  rewrite IH. setoid_rewrite elem_of_cons. case_bool_decide as Ek; destruct acc as [e|]; try case_bool_decide; naive_solver lia.
Qed.

(** The buckets of rows already read. *)
Record grouped (rows : list NudgeShare) (buckets : list (string * list NudgeShare)) : Prop := {
  gp_keys : NoDup (map fst buckets);
  gp_rows : forall k rs r, (k, rs) ∈ buckets -> r ∈ rs <-> r ∈ rows /\ bucketKey (ns_fieldKey r) = k;
  gp_all : forall r, r ∈ rows -> bucketKey (ns_fieldKey r) ∈ map fst buckets;
  gp_some : forall k rs, (k, rs) ∈ buckets -> rs <> [];
}.

Lemma addToBucket_keys row buckets k :
  k ∈ map fst (addToBucket row buckets) <-> k ∈ map fst buckets \/ k = bucketKey (ns_fieldKey row).
Proof.
  induction buckets as [|[k' rs] buckets IH]; cbn [addToBucket map fst].
  - rewrite elem_of_nil, list_elem_of_singleton. naive_solver.
  - case_bool_decide as E; cbn [map fst]; rewrite !elem_of_cons; [naive_solver|]. rewrite IH. naive_solver.
Qed.

Lemma addToBucket_nodup row buckets : NoDup (map fst buckets) -> NoDup (map fst (addToBucket row buckets)).
Proof.
  induction buckets as [|[k' rs] buckets IH]; cbn [addToBucket map fst]; [intros _; apply NoDup_singleton|].
  intros [Hn Hd]%NoDup_cons. case_bool_decide as E; cbn [map fst]; [by apply NoDup_cons|].
  apply NoDup_cons. split; [|by apply IH]. rewrite addToBucket_keys. naive_solver.
Qed.

Lemma addToBucket_elem row buckets k rs : NoDup (map fst buckets) -> (k, rs) ∈ addToBucket row buckets ->
  ((k, rs) ∈ buckets /\ k <> bucketKey (ns_fieldKey row)) \/
  (k = bucketKey (ns_fieldKey row) /\
   ((exists old, (k, old) ∈ buckets /\ rs = old ++ [row]) \/ (k ∉ map fst buckets /\ rs = [row]))).
Proof.
  induction buckets as [|[k' rs'] buckets IH]; cbn [addToBucket map fst].
  { intros _ [= -> ->]%list_elem_of_singleton. right. split; [done|]. right. split; [apply not_elem_of_nil|done]. }
  intros [Hn Hd]%NoDup_cons. case_bool_decide as E; subst.
  - rewrite elem_of_cons. intros [[= -> ->]|Hin].
    + right. split; [done|]. left. exists rs'. split; [left|done].
    + left. split; [by right|]. intros ->. apply Hn, elem_of_map. by exists (bucketKey (ns_fieldKey row), rs).
  - rewrite elem_of_cons. intros [[= -> ->]|Hin]; [left; split; [left|done]|].
    destruct (IH Hd Hin) as [[? ?]|[-> [(old & ? & ->)|[Hk ->]]]].
    + left. split; [by right|done].
    + right. split; [done|]. left. exists old. split; [by right|done].
    + right. split; [done|]. right. split; [|done]. rewrite elem_of_cons. intros [?|?]; [by subst|done].
Qed.

Lemma addToBucket_grouped rows buckets row : grouped rows buckets -> grouped (rows ++ [row]) (addToBucket row buckets).
Proof.
  intros [Hk Hr Ha Hs]. constructor.
  - by apply addToBucket_nodup.
  - intros k rs r Hin. rewrite elem_of_app, list_elem_of_singleton.
    destruct (addToBucket_elem _ _ _ _ Hk Hin) as [[Hin' Hn]|[-> [(old & Hin' & ->)|[Hno ->]]]].
    + rewrite (Hr k rs r Hin'). naive_solver.
    + rewrite elem_of_app, list_elem_of_singleton, (Hr _ _ r Hin'). naive_solver.
    + rewrite list_elem_of_singleton. split; [naive_solver|]. intros [[Hin'| ->] E]; [|done].
      destruct Hno. rewrite <- E. by apply Ha.
  - intros r Hin. apply addToBucket_keys. apply elem_of_app in Hin as [Hin| ->%list_elem_of_singleton]; [left; by apply Ha|by right].
  - intros k rs Hin. destruct (addToBucket_elem _ _ _ _ Hk Hin) as [[Hin' _]|[-> [(old & _ & ->)|[_ ->]]]]; [by eapply Hs| |done].
    by destruct old.
Qed.

Lemma groupSharesByBucket_grouped rows : grouped rows (groupSharesByBucket rows).
Proof.
  unfold groupSharesByBucket. enough (G : forall l done acc, grouped done acc ->
    grouped (done ++ l) (fold_left (fun buckets row => addToBucket row buckets) l acc)).
  { apply (G rows []). constructor; cbn; [apply NoDup_nil_2|by intros ? ? ? ?%not_elem_of_nil|by intros ? ?%not_elem_of_nil|by intros ? ? ?%not_elem_of_nil]. }
  induction l as [|r l IH]; intros done acc HG; cbn [fold_left]; [by rewrite app_nil_r|].
  replace (done ++ r :: l) with ((done ++ [r]) ++ l) by (by rewrite <- app_assoc). by apply IH, addToBucket_grouped.
Qed.

Lemma nudgeActive_spec rows last :
  nudgeActive rows last = true <->
  exists r, r ∈ rows /\ ns_status r <> shareSuperseded /\ match last with None => True | Some d => (d < ns_createdAt r)%Z end.
Proof.
  unfold nudgeActive. rewrite existsb_exists. setoid_rewrite <- list_elem_of_In.
  split; intros (r & Hr & Hc); exists r; (split; [done|]).
  - bool_simpl. split; [done|]. destruct last; [by bool_simpl|done].
  - destruct Hc as [Hn Hd]. rewrite bool_decide_false by done. cbn. destruct last; [by apply bool_decide_eq_true|done].
Qed.

(** The key under which a bucket is reported. *)
Definition reportedKey (b : RotationRecommendedBucket) : string := bucketKey (rb_fieldKey b).

Lemma collect_buckets dismissals viewer isAdmin buckets w :
  (forall k rs, (k, rs) ∈ buckets -> rs <> []) ->
  wp (forEachCollect buckets (fun '(key, rows) =>
        lift (buildBucket key rows (latestDismissalByBucket dismissals key) viewer isAdmin)))
    (fun o w' => w' = w /\ exists out, o = Ok out /\ Forall2 (fun (g : string * list NudgeShare) b =>
       reportedKey b = g.1 /\ rb_active b = nudgeActive g.2 (latestDismissalByBucket dismissals g.1)) buckets out) w.
Proof.
  induction buckets as [|[k rs] buckets IH]; intros Hne; cbn [forEachCollect]; [split; [done|]; exists []; split; [done|constructor]|].
  apply wp_bind, wp_lift. destruct rs as [|r rs]; [destruct (Hne k []); [left|done]|]. cbn [buildBucket].
  apply wp_bind. eapply wp_mono; [apply IH; intros k' rs' Hin; apply (Hne k'); by right|]. intros o w' (-> & out & -> & HF).
  apply wp_ret. split; [done|]. eexists. split; [done|]. constructor; [|exact HF]. cbn. split; [|done].
  unfold reportedKey. cbn. by case_bool_decide as E; [rewrite E|].
Qed.

(** What the recommendation means for one scope of the secret. *)
Definition undismissedShare (db : Db) (orgId credentialId : Uuid) (key : string) : Prop :=
  exists s, s ∈ db_shares db /\ sh_orgId s = orgId /\ sh_credentialId s = credentialId /\ bucketKey (sh_fieldKey s) = key /\
    sh_status s <> shareSuperseded /\
    forall d, d ∈ db_nudgeDismissals db -> nd_orgId d = orgId -> nd_credentialId d = credentialId ->
      bucketKey (nd_fieldKey d) = key -> (nd_dismissedAt d < sh_createdAt s)%Z.

(** The computation of the recommendations always answers; it reports every scope of the secret that was ever
    shared, once, and recommends a rotation exactly for those with a share that no rotation has superseded and that
    is newer than every dismissal of that scope. *)
Theorem nudges_spec orgId credentialId viewer isAdmin w :
  exists out, computeRotationRecommendedNudges orgId credentialId viewer isAdmin w = (Ok out, w) /\
    NoDup (map reportedKey out) /\
    (forall key, key ∈ map reportedKey out <->
       exists s, s ∈ db_shares (w_db w) /\ sh_orgId s = orgId /\ sh_credentialId s = credentialId /\ bucketKey (sh_fieldKey s) = key) /\
    (forall b, b ∈ out -> rb_active b = true <-> undismissedShare (w_db w) orgId credentialId (reportedKey b)).
Proof.
  unfold computeRotationRecommendedNudges. set (db := w_db w).
  destruct (selectNudgeShares orgId credentialId w) as [o w1] eqn:Esel.
  assert (Hsel : exists rows, o = Ok rows /\ w1 = w /\ forall r, r ∈ rows <-> exists s, s ∈ db_shares db /\ sh_orgId s = orgId /\
      sh_credentialId s = credentialId /\ exists e, r = MkNudgeShare (sh_fieldKey s) (sh_status s) (sh_createdAt s) (sh_recipientEmail s) e (effectiveSharerOf s) /\
      e = usr_email <$> head (List.filter (fun u : UserRow => Some (usr_id u) =? sh_recipientUserId s) (db_users db))).
  { unfold selectNudgeShares in Esel. injection Esel as <- <-. eexists. split; [done|]. split; [done|]. intros r.
    rewrite elem_of_map. setoid_rewrite elem_of_lfilter. unfold scoped. split.
    - intros (s & -> & Hp & Hs). bool_simpl. exists s. repeat split; try done. by eexists.
    - intros (s & Hs & Eo & Ec & e & -> & ->). exists s. split; [done|]. split; [|done]. by rewrite !bool_decide_true by done. }
  destruct Hsel as (rows & -> & -> & Hrows).
  assert (Hkeys : forall key, (exists r, r ∈ rows /\ bucketKey (ns_fieldKey r) = key) <-> exists s, s ∈ db_shares db /\ sh_orgId s = orgId /\
    sh_credentialId s = credentialId /\ bucketKey (sh_fieldKey s) = key).
  { intros key. split.
    - intros (r & Hr & Ek). apply Hrows in Hr as (s & ? & ? & ? & e & -> & _). by exists s.
    - intros (s & ? & ? & ? & Ek). eexists. split; [apply Hrows; exists s; repeat split; try done; by eexists|done]. }
  destruct (groupSharesByBucket_grouped rows) as [Gk Gr Ga Gs].
  unfold mbind at 1, M_bind at 1. rewrite Esel. destruct rows as [|r0 rows'] eqn:Erows.
  { exists []. split; [done|]. split; [apply NoDup_nil_2|]. split; [|by intros ? ?%not_elem_of_nil].
    intros key. rewrite <- Hkeys. split; [by intros ?%not_elem_of_nil|by intros (? & ?%not_elem_of_nil & _)]. }
  rewrite <- Erows in *. set (ds := List.filter (fun d => (nd_orgId d =? orgId) && (nd_credentialId d =? credentialId)) (db_nudgeDismissals db)).
  pose proof (collect_buckets ds viewer isAdmin (groupSharesByBucket rows) w Gs) as Hc.
  unfold wp in Hc. unfold selectWhere, mbind at 1, M_bind at 1. cbv beta iota. fold db. fold ds.
  destruct (forEachCollect _ _ w) as [o' w'] eqn:Ef. destruct Hc as (-> & out & -> & HF). exists out.
  split; [done|].
  assert (Emap : map reportedKey out = map fst (groupSharesByBucket rows)).
  { clear -HF. induction HF as [|g b gs out [E _] _ IH]; cbn; [done|]. by rewrite E, IH. }
  rewrite Emap. split; [exact Gk|]. split.
  - intros key. rewrite <- Hkeys. split.
    + intros ([k rs] & -> & Hin)%elem_of_map. destruct rs as [|r rs]; [by destruct (Gs _ _ Hin)|].
      exists r. apply (Gr _ _ r Hin). left.
    + intros (r & Hr & <-). by apply Ga.
  - intros b Hb. destruct (Forall2_in_r _ _ _ _ HF Hb) as ([k rs] & Hin & Ek & Ea). cbn [fst snd] in Ek, Ea. rewrite Ea, Ek, nudgeActive_spec.
    assert (Hlast : forall t, match latestDismissalByBucket ds k with None => True | Some d => (d < t)%Z end <->
      forall d, d ∈ ds -> bucketKey (nd_fieldKey d) = k -> (nd_dismissedAt d < t)%Z).
    { intros t. unfold latestDismissalByBucket. rewrite latestDismissal_spec. naive_solver. }
    assert (Hds : forall d, d ∈ ds <-> d ∈ db_nudgeDismissals db /\ nd_orgId d = orgId /\ nd_credentialId d = credentialId).
    { intros d. unfold ds. rewrite elem_of_lfilter, andb_true_iff, !bool_decide_eq_true. tauto. }
    unfold undismissedShare. split.
    + intros (r & Hr & Hn & Hl). apply (Gr _ _ r Hin) in Hr as [Hr Ebk]. apply Hrows in Hr as (s & Hs & Eo & Ec & e & -> & _).
      exists s. repeat split; try done. intros d Hd Edo Edc Edk. apply (proj1 (Hlast _) Hl); [by apply Hds|done].
    + intros (s & Hs & Eo & Ec & Ebk & Hn & Hl).
      exists (MkNudgeShare (sh_fieldKey s) (sh_status s) (sh_createdAt s) (sh_recipientEmail s)
        (usr_email <$> head (List.filter (fun u : UserRow => Some (usr_id u) =? sh_recipientUserId s) (db_users db))) (effectiveSharerOf s)).
      split; [apply (Gr _ _ _ Hin); split; [|done]; apply Hrows; exists s; repeat split; try done; by eexists|]. split; [done|].
      apply Hlast. intros d (Hd & ? & ?)%Hds Edk. by apply Hl.
Qed.
End nudge.
