(* ===== verification/ShareDemo.v ===== *)
(** * Shares in a small database: witnesses and counterexamples

    The database of [Demo] with a secret of two fields and a second member;
    digests of the lengths the code relies on. *)

From S2P Require Import Prelude Js Crypto FieldSet AuthStore Store Tx QuotaGate AuditLog Notifications Credentials Demo Frames Sessions Mfa Shares ExternalShares ShareViews ShareEvolution ShareTheorems ShareGuesses ShareScope.
From Stdlib Require Import Ascii String.
From stdpp Require Import strings pretty.

Local Open Scope string_scope.
Local Open Scope list_scope.
Local Open Scope pv_scope.

(** 32 bytes: the last ones, backwards. *)
Definition digest32 (s : string) : string := substring 0 32 (String.rev s +:+ zeros 32).
Definition digestCrypto : NodeCrypto := {|
  aesGcmSeal := @aesGcmSeal toyCrypto; aesGcmDecipher := @aesGcmDecipher toyCrypto; hkdfSync := @hkdfSync toyCrypto;
  hmacSha256Hex key s := toHex (digest32 (key +:+ s)); sha256 := digest32 |}.
#[local] Existing Instances byteLocale toyPlatform digestCrypto toyEnv asciiUnicode.

Lemma digest32_length s : String.length (digest32 s) = 32.
Proof.
  unfold digest32. apply substring_length. rewrite string_length_app. destruct (zeros_digits 32) as [_ ->]. lia.
Qed.
Lemma digest_hmac key s : String.length (@hmacSha256Hex digestCrypto key s) = 64.
Proof. cbn. by rewrite toHex_length, digest32_length. Qed.
Lemma random_below n max : (0 < max)%N -> (@randomInt toyPlatform n max < max)%N.
Proof. intros Hm. cbn. apply N.mod_lt. lia. Qed.

Definition shareBody : CreateCredentialBody :=
  {| ccb_name := "database"; ccb_description := None; ccb_tags := None; ccb_expiresAt := None;
     ccb_rotationSchedule := None; ccb_cacheable := None;
     ccb_body := MkCreateBodyish None (Some [MkField "user" "ada" false None; MkField "password" "hunter2" true None;
                                             MkField "Token" "t0ken" true None]) None |}.

Definition quietly (w : World) : World := w <| w_db ::= fun db => db <| db_audit := [] |> <| db_usage := [] |> |>.

Definition shareDb : Db :=
  Eval vm_compute in (w_db (quietly (after (createCredentialWithFirstVersion 1 2 7 shareBody) (worldOf demoDb))))
    <| db_memberships ::= fun l => l ++ [MkMembershipRow 1 8 member active None None] |>
    <| db_users := [MkUserRow 7 "ada@example.org" "pw" None false; MkUserRow 8 "bob@example.org" "pw" None false] |>
    <| db_organizations := [MkOrganizationRow 1 "Analytical" "analytical" "en" 1600000000000] |>.
Definition shareWorld : World := worldOf shareDb.

Definition inAnHour : Date := 1700003600000.
Definition nativeInput (field : option string) : CreateShareInput :=
  MkCreateShareInput 1 2 demoCredential 7 8 field None inAnHour true.
Definition externalInput (email : string) : CreateExternalShareInput :=
  MkCreateExternalShareInput 1 2 demoCredential 7 email (Some "password") None inAnHour false None.

Definition shared1 : World := Eval vm_compute in (runShareOps [op_shareCreate (nativeInput (Some "password"));
  op_shareCreateExternal (externalInput "Eve@Example.org")] shareWorld).2.
Definition nativeShare : ShareRow := Eval vm_compute in
  default (baseShareInsertValues (MkShareBase 0 0 0 0 false None) None None "" (MkShareRecipient recipientUser None None true false) 0 0)
    (head (db_shares (w_db shared1))).
Definition externalShare : ShareRow := Eval vm_compute in default nativeShare (last (db_shares (w_db shared1))).

Definition nativeToken : string := String (ascii_of_nat 2) EmptyString.
Definition externalToken : string := String (ascii_of_nat 6) EmptyString.
Definition target : VerificationTarget := MkVerificationTarget 1 (sh_id externalShare).

Definition sentCode : World := Eval vm_compute in snd (sendVerificationCode externalToken target shared1).
Definition codeSent : string := "000056".
Definition guesses (code : string) (n : nat) : list ShareOp := repeat (op_shareConfirm externalToken code) n.

Definition verified1 : World := Eval vm_compute in (runShareOps (guesses codeSent 1) sentCode).2.
Definition proofGiven : string := Eval vm_compute in
  match fst (confirmExternalShareVerification externalToken codeSent sentCode) with Ok (confirm_ok p) => p | _ => "" end.

Lemma politeWait_id w : w_onWait w = id -> politeWait (w_onWait w).
Proof. intros -> db. apply SharesEvolve_refl. Qed.

Lemma SharesOk_nil : SharesOk [].
Proof. split; cbn; [apply NoDup_nil_2|apply NoDup_nil_2|by intros ? ?%not_elem_of_nil]. Qed.

(** The worlds below are reached from the empty table by the operations. *)
Lemma reached ops w w' :
  db_shares (w_db w) = [] -> w_onWait w = id -> (runShareOps ops w).2 = w' -> SharesOk (db_shares (w_db w')).
Proof.
  intros E EW <-. apply (runShareOps_evolving ops w); [rewrite E; apply SharesOk_nil|by apply politeWait_id].
Qed.

Definition creations : list ShareOp :=
  [op_shareCreate (nativeInput (Some "password")); op_shareCreateExternal (externalInput "Eve@Example.org")].

Lemma SharesOk_shared1 : SharesOk (db_shares (w_db shared1)).
Proof. by apply (reached creations shareWorld); vm_compute. Qed.
Lemma SharesOk_sentCode : SharesOk (db_shares (w_db sentCode)).
Proof. by apply (reached (creations ++ [op_shareSendCode externalToken target]) shareWorld); vm_compute. Qed.
Lemma SharesOk_verified1 : SharesOk (db_shares (w_db verified1)).
Proof.
  by apply (reached (creations ++ [op_shareSendCode externalToken target] ++ guesses codeSent 1) shareWorld); vm_compute.
Qed.

(** ** Witnesses *)

(** The recipient opens the share twice; the second time it has been viewed. *)
Definition twice : list ShareOp := repeat (op_shareReveal 1 8 nativeToken noMeta) 2.

Lemma single_use_opened_once_witness :
  length (List.filter (opensOnce (sh_id nativeShare)) (runShareOps twice shared1).1) = 1 /\
  length (List.filter (opensOnce (sh_id nativeShare)) (runShareOps twice shared1).1) <= 1.
Proof.
  split; [vm_compute; reflexivity|].
  exact (single_use_opened_once twice shared1 (sh_id nativeShare) SharesOk_shared1 (politeWait_id shared1 eq_refl)).
Defined.

Lemma share_lifecycle_witness : SharesOk (db_shares (w_db (runShareOps twice shared1).2)).
Proof. exact (proj1 (share_lifecycle twice shared1 SharesOk_shared1 (politeWait_id shared1 eq_refl))). Defined.

Definition openedShare (op : ShareOp) (w : World) : ShareRow := default nativeShare (openedBy op w).
Definition openNative : ShareOp := op_shareReveal 1 8 nativeToken noMeta.
Definition openExternal : ShareOp := op_shareRevealExternal externalToken (Some proofGiven).

Lemma native_open_authorised_witness :
  openedBy openNative shared1 = Some (openedShare openNative shared1) /\ activeMember 1 8 (membersAround shared1).
Proof.
  assert (E : openedBy openNative shared1 = Some (openedShare openNative shared1)) by (vm_compute; reflexivity).
  split; [exact E|].
  exact (proj2 (native_open_authorised 1 8 nativeToken noMeta shared1 _ SharesOk_shared1 (politeWait_id shared1 eq_refl) E)).
Defined.

(** With the code that was sent, the guest gets a proof and opens the share; without it, nothing is opened. *)
Lemma external_open_proven_witness :
  openedBy openExternal verified1 = Some (openedShare openExternal verified1) /\
  openedBy (op_shareRevealExternal externalToken None) verified1 = None /\
  exists row, row ∈ db_shares (w_db verified1) /\ sh_id row = sh_id (openedShare openExternal verified1) /\
    sh_tokenHash row = hashShareToken externalToken /\ sh_recipientType row = recipientExternal.
Proof.
  assert (E : openedBy openExternal verified1 = Some (openedShare openExternal verified1)) by (vm_compute; reflexivity).
  split; [exact E|]. split; [vm_compute; reflexivity|].
  exact (proj1 (external_open_proven externalToken (Some proofGiven) verified1 _ SharesOk_verified1
    (politeWait_id verified1 eq_refl) E)).
Defined.

(** Six wrong codes: five are compared, the fifth locks the share. *)
Lemma wrong_answers_bounded_witness :
  wrongAnswers (sh_id externalShare) (guesses "123456" 6) sentCode = 5 /\
  wrongAnswers (sh_id externalShare) (guesses "123456" 6) sentCode <= 5.
Proof.
  split; [vm_compute; reflexivity|].
  exact (wrong_answers_bounded (sh_id externalShare) (guesses "123456" 6) sentCode SharesOk_sentCode
    (politeWait_id sentCode eq_refl)).
Defined.

Lemma sent_code_confirms_witness : exists code job rest,
  last (db_queue (w_db sentCode)) = Some job /\ nq_payload job = JObj (("code", JStr code) :: rest).
Proof.
  assert (Hs : externalShare ∈ db_shares (w_db shared1)) by (vm_compute; right; left).
  assert (E : sendVerificationCode externalToken target shared1 = (Ok [MkNotificationQueueJob 1010 1 None], sentCode))
    by (vm_compute; reflexivity).
  destruct (sent_code_confirms digest_hmac digest32_length random_below externalToken externalShare shared1
      [MkNotificationQueueJob 1010 1 None] sentCode SharesOk_shared1 ltac:(vm_compute; reflexivity) Hs
      ltac:(vm_compute; reflexivity) ltac:(vm_compute; reflexivity) ltac:(vm_compute; reflexivity)
      ltac:(vm_compute; reflexivity) ltac:(vm_compute; reflexivity) E)
    as (code & job & rest & Hl & _ & Hp & _).
  exact (ex_intro _ code (ex_intro _ job (ex_intro _ rest (conj Hl Hp)))).
Defined.

Lemma bounded_disclosure_witness :
  disclosed shareDb demoCredential None (bounded_fields [MkBoundedField "user" "ada" false]).
Proof.
  assert (E : serializeBounded demoCredential None shareWorld = (Ok (bounded_fields [MkBoundedField "user" "ada" false]), shareWorld))
    by (vm_compute; reflexivity).
  exact (bounded_disclosure demoCredential None shareWorld _ _ E).
Defined.

Definition createOneMore : M CreateShareResult := createExternalCredentialShare (externalInput "dan@example.org").
Definition oneMore : ShareRow := Eval vm_compute in
  match fst (createOneMore shared1) with Ok (create_ok s _) => s | _ => nativeShare end.

Lemma external_cap_witness :
  length (List.filter (pendingBeside (w_now shared1) oneMore) (db_shares (w_db (snd (createOneMore shared1))))) = 2 /\
  length (List.filter (pendingBeside (w_now (snd (createOneMore shared1))) oneMore)
    (db_shares (w_db (snd (createOneMore shared1))))) <= 5.
Proof.
  split; [vm_compute; reflexivity|].
  assert (E : createOneMore shared1 = (Ok (create_ok oneMore (String (ascii_of_nat 9) EmptyString)), snd (createOneMore shared1)))
    by (vm_compute; reflexivity).
  exact (external_cap _ _ _ _ _ E).
Defined.

Definition supersede : ShareOp := op_shareSupersede 1 7 2 demoCredential 99 (Some ["password"]) noMeta.
Definition superseded1 : World := Eval vm_compute in snd (runShareOp supersede shared1).
Definition closedNative : ShareRow := Eval vm_compute in default nativeShare (head (db_shares (w_db superseded1))).

Lemma rotation_closes_shares_witness :
  sh_status closedNative = shareSuperseded /\
  List.filter (opensShare (sh_id closedNative)) (runShareOps twice superseded1).1 = [].
Proof.
  split; [reflexivity|].
  assert (Hs : closedNative ∈ db_shares (w_db superseded1)) by (vm_compute; left).
  assert (E : runShareOp supersede shared1 = (Ok None, superseded1)) by (vm_compute; reflexivity).
  exact (rotation_closes_shares 1 7 2 demoCredential 99 (Some ["password"]) noMeta shared1 superseded1 twice closedNative
    SharesOk_shared1 (politeWait_id shared1 eq_refl) E Hs eq_refl eq_refl eq_refl).
Defined.

(** ** What the code does not mean to do *)

(** A share of a field declared with a capital is created, is active and has not expired, and answers "expired". *)
Lemma capital_field_never_opens :
  exists share token w', withOrg (createCredentialShare (nativeInput (Some "Token"))) shareWorld = (Ok (create_ok share token), w') /\
    sh_status share = shareActive /\ fst (revealShareRoute 1 8 token noMeta w') = Ok reveal_expired.
Proof.
  eexists _, _, _. split; [vm_compute; reflexivity|]. split; vm_compute; reflexivity.
Qed.

(** The fifth wrong code is not counted when the audit gate refuses the entry of the lock: with the write rate of the
    organisation used up, the guest guesses without limit. *)
Definition fourGuesses : World := Eval vm_compute in (runShareOps (guesses "123456" 4) sentCode).2.
Definition rateUsedUp : World := Eval vm_compute in
  snd (withOrg (forEachSequential [1; 2] (fun _ =>
    writeSystemAuditEntryOrFailClosed 1 "credential.share_viewed" None None [])) fourGuesses).

Lemma fifth_guess_uncounted n : n < 8 ->
  guessesOn (sh_id externalShare) (db_shares (w_db (runShareOps (guesses "123456" n) rateUsedUp).2)) = 4%Z /\
  comparedRow externalToken (runShareOps (guesses "123456" n) rateUsedUp).2 <> None.
Proof. do 8 (destruct n as [|n]; [intros _; split; [vm_compute; reflexivity|by vm_compute]|]). lia. Qed.

(** A rotation supersedes the share; five late visits of its link turn it into a revoked one, and the rotation is
    recommended again. *)
Definition visited : World := Eval vm_compute in
  (runShareOps (repeat (op_shareLosing (MkDeferredLosingAttempt 1 (sh_id externalShare) false)) 5)
     (superseded1 <| w_db ::= fun db => db <| db_shares ::= List.filter (fun s => sh_id s =? sh_id externalShare) |>
                                            <| db_usage := [] |> |>)).2.
Definition recommended (w : World) : list (option string * bool) :=
  match fst (computeRotationRecommendedNudges 1 demoCredential 7 true w) with
  | Ok buckets => map (fun b => (rb_fieldKey b, rb_active b)) buckets
  | Throw _ => []
  end.
Lemma nudge_after_rotation :
  recommended superseded1 = [(Some "password", false)] /\ recommended visited = [(Some "password", true)].
Proof. split; vm_compute; reflexivity. Qed.

(** A rotation of one field supersedes a share that names other fields by [attributeKeys]. *)
Lemma unrelated_share_superseded :
  let w := (runShareOps [op_shareCreate (MkCreateShareInput 1 2 demoCredential 7 8 None (Some ["user"]) inAnHour true); supersede] shareWorld).2 in
  map (fun s => (sh_attributeKeys s, sh_status s)) (db_shares (w_db w)) = [(Some ["user"], shareSuperseded)].
Proof. vm_compute. reflexivity. Qed.
