(* ===== verification/UserSessions.v ===== *)
(** * User sessions and device sign-in

    modules/auth/user-session.ts (the sessions of the command line, which belong
    to a user and to no organisation), cli-device-codes.ts and
    cli-device-service.ts (the device grant and the organisation credential),
    lib/org-membership.ts. *)

From S2P Require Import Prelude Js Crypto FieldSet AuthStore Store Tx QuotaGate AuditLog Notifications Frames Sessions Authenticate Mfa.
From Stdlib Require Import Ascii String.
From stdpp Require Import strings.

Local Open Scope string_scope.
Local Open Scope list_scope.
Local Open Scope pv_scope.

Record IssuedUserSession := MkIssuedUserSession {
  ius_userId : Uuid;
  ius_sessionId : Uuid;
  ius_isPlatformOperator : bool;
  ius_jti : Uuid;
  ius_sessionVersion : Z;
  ius_accessMaxAgeSec : Z;
  ius_refreshOpaque : string;
}.

Record VerifiedUserSession := MkVerifiedUserSession {
  vus_userId : Uuid;
  vus_sessionId : Uuid;
  vus_jti : Uuid;
  vus_isPlatformOperator : bool;
}.

Record Approver := MkApprover { apr_userId : Uuid; apr_orgId : Uuid; apr_sessionId : Uuid }.

Inductive GrantDecision := decide_approve | decide_deny.
#[export] Instance GrantDecision_eq_dec : EqDecision GrantDecision.
Proof. solve_decision. Defined.

Inductive DeviceDecision :=
| dd_approved (expiresIn : Z) | dd_denied | dd_invalid | dd_step_up_required | dd_enrollment_required.
Inductive DevicePollResult :=
| poll_pending | poll_slow_down | poll_denied | poll_expired | poll_session (session : IssuedUserSession).

(** ** cli-device-codes.ts *)

Definition CLI_DEVICE_TTL_SECONDS : Z := 300.
Definition CLI_DEVICE_POLL_INTERVAL_SECONDS : Z := 5.
Definition CLI_DEVICE_MAX_INTERVAL_SECONDS : Z := 30.
Definition CLI_DEVICE_SLOW_DOWN_STEP_SECONDS : Z := 5.
Definition CLI_DEVICE_STEP_UP_FAILURE_LIMIT : Z := 5.
Definition CLI_ORG_CREDENTIAL_TTL_SECONDS : Z := 900.
Definition CLI_DEVICE_USER_CODE_ALPHABET : string := "BCDFGHJKLMNPQRSTVWXZ".
Definition CLI_DEVICE_USER_CODE_LENGTH : nat := 8.
Definition USER_REFRESH_REUSE_GRACE_MS : Z := 30000.

Section userSessions.
Context `{Locale, Platform, NodeCrypto, Env, Unicode, OtpValidate}.

Definition deviceHmac (material : string) : string := hmacSha256Hex CLI_DEVICE_CODE_HMAC_SECRET material.
Definition hashUserCode (normalized : string) : string := deviceHmac ("cli-user-code:" ++ normalized)%string.
Definition hashDeviceCode (deviceCode : string) : string := deviceHmac ("cli-device-code:" ++ deviceCode)%string.

Definition deviceCodeHashesEqual (storedHex : option string) (computedHex : string) : bool :=
  fromHex (default (deviceHmac "cli-user-code:absent") storedHex) =? fromHex computedHex.

Definition normalizeUserCode (raw : string) : option string :=
  let compact := toUpperCase (removeDashes (removeSpaces raw)) in
  if negb (String.length compact =? CLI_DEVICE_USER_CODE_LENGTH) then None
  else if forallb (fun c => c ∈? String.list_ascii_of_string CLI_DEVICE_USER_CODE_ALPHABET)
            (String.list_ascii_of_string compact)
  then Some compact else None.

Definition formatUserCode (normalized : string) : string :=
  (String.substring 0 4 normalized ++ "-" ++ String.substring 4 (String.length normalized) normalized)%string.

Definition drawUserChar : M string := fun w =>
  (Ok (String.substring (N.to_nat (randomInt (w_tick w) (N.of_nat (String.length CLI_DEVICE_USER_CODE_ALPHABET)))) 1
         CLI_DEVICE_USER_CODE_ALPHABET), w <| w_tick ::= S |>).
Fixpoint drawUserCode (n : nat) : M string :=
  match n with
  | O => mret ""
  | S n' => c ← drawUserChar; rest ← drawUserCode n'; mret (c ++ rest)%string
  end.
Definition generateUserCode : M string := drawUserCode CLI_DEVICE_USER_CODE_LENGTH.
Definition generateDeviceCode : M string := generateOpaque.

(** ** user-session.ts *)

Definition refreshLifetimeMs : Z := (REFRESH_TOKEN_TTL_DAYS * 24 * 60 * 60 * 1000)%Z.
Definition idleExceeded (lastActiveAt now : Date) : bool := IDLE_MS <? now - lastActiveAt.

Definition platformOperator (userId : Uuid) : M bool :=
  row ← selectFirst db_users (fun u => usr_id u =? userId);
  mret (default false (usr_isPlatformOperator <$> row)).

Definition insertUserRefreshToken (userSessionId : Uuid) (tokenHash : string) (expiresAt : Date) : M unit :=
  tid ← genRandomUuid;
  _ ← insertRow db_userRefreshTokens userRefreshTokenConflict
        {| urt_id := tid; urt_userSessionId := userSessionId; urt_tokenHash := tokenHash; urt_expiresAt := expiresAt;
           urt_usedAt := None; urt_revokedAt := None |};
  mret tt.

Definition issueUserSessionInTx (userId : Uuid) (meta : RequestMeta) (now : Date) : M IssuedUserSession :=
  jti ← genRandomUuid;
  let sessionExpiresAt := (now + refreshLifetimeMs)%Z in
  sid ← genRandomUuid;
  created ← dbNow;
  session ← insertRow db_userSessions userSessionConflict
    {| uss_id := sid; uss_userId := userId; uss_jti := jti; uss_sessionVersion := 1; uss_expiresAt := sessionExpiresAt;
       uss_revokedAt := None; uss_lastActiveAt := now; uss_ipAddress := rm_ipAddress meta;
       uss_userAgent := rm_userAgent meta; uss_updatedAt := created |};
  refreshOpaque ← generateRefreshToken;
  _ ← insertUserRefreshToken (uss_id session) (hashRefreshToken refreshOpaque) sessionExpiresAt;
  isOperator ← platformOperator userId;
  mret (MkIssuedUserSession userId (uss_id session) isOperator jti 1 JWT_ACCESS_TTL_SECONDS refreshOpaque).

Definition revokeLinkedCredentials (links : list CliOrgCredentialRow) : M unit :=
  forEachSequential links (fun link =>
    _ ← revokeSessionById (coc_sessionId link)
          (MkRevokeSessionOptions None scope_logout None None (Some (coc_orgId link)) true);
    mret tt).

Definition revokeUserSessionInTx (sessionId : Uuid) (now : Date) : M unit :=
  _ ← updateWhere db_userSessions (fun s => uss_id s =? sessionId)
        (fun s => s <| uss_revokedAt := Some now |> <| uss_updatedAt := now |>);
  _ ← updateWhere db_userRefreshTokens (fun t => urt_userSessionId t =? sessionId)
        (fun t => t <| urt_revokedAt := Some now |>);
  links ← selectWhere db_cliOrgCredentials (fun c => coc_userSessionId c =? sessionId);
  revokeLinkedCredentials links.

Definition revokeUserSessionById (sessionId userId : Uuid) : M bool :=
  withOrg (
    row ← selectFirst db_userSessions (fun s => uss_id s =? sessionId);
    match row with
    | None => mret false
    | Some row =>
        if negb (uss_userId row =? userId) then mret false
        else if isNotNull (uss_revokedAt row) then mret true
        else now ← newDate; _ ← revokeUserSessionInTx sessionId now; mret true
    end).

Definition recordOrgCredential (userSessionId orgId sessionId : Uuid) : M unit :=
  cid ← genRandomUuid;
  _ ← insertRow db_cliOrgCredentials cliOrgCredentialConflict (MkCliOrgCredentialRow cid userSessionId orgId sessionId);
  mret tt.

Definition loadRefreshRow (tokenHash : string) : M (option (UserRefreshTokenRow * UserSessionRow)) :=
  token ← selectFirst db_userRefreshTokens (fun t => urt_tokenHash t =? tokenHash);
  match token with
  | None => mret None
  | Some token =>
      session ← selectFirst db_userSessions (fun s => uss_id s =? urt_userSessionId token);
      mret ((fun s => (token, s)) <$> session)
  end.

Definition rejectReusedRefresh (usedAt : option Date) (now : Date) : Exn :=
  match usedAt with
  | None => refreshTokenInvalid
  | Some u => if USER_REFRESH_REUSE_GRACE_MS <? now - u then revokedRefreshToken else refreshTokenInvalid
  end.

Definition rotateUserRefresh (row : UserRefreshTokenRow * UserSessionRow) (meta : RequestMeta) (now : Date)
    : M IssuedUserSession :=
  let '(token, session) := row in
  let sessionId := urt_userSessionId token in
  if isNotNull (urt_revokedAt token) || isNotNull (uss_revokedAt session) then throw revokedRefreshToken
  else if isNotNull (urt_usedAt token) then
    let error := rejectReusedRefresh (urt_usedAt token) now in
    _ ← (if error =? revokedRefreshToken then revokeUserSessionInTx sessionId now else mret tt);
    throw error
  else if (urt_expiresAt token <=? now) || (uss_expiresAt session <=? now) then
    throw (AppError "refresh_token_expired" 401)
  else if idleExceeded (uss_lastActiveAt session) now then
    _ ← revokeUserSessionInTx sessionId now;
    throw (AppError "session_expired" 401)
  else
    _ ← updateWhere db_userRefreshTokens (fun t => urt_id t =? urt_id token)
          (fun t => t <| urt_usedAt := Some now |>);
    refreshToken ← generateRefreshToken;
    _ ← insertUserRefreshToken sessionId (hashRefreshToken refreshToken) (uss_expiresAt session);
    _ ← updateWhere db_userSessions (fun s => uss_id s =? sessionId)
          (fun s => s <| uss_lastActiveAt := now |> <| uss_updatedAt := now |>
                      <| uss_ipAddress := rm_ipAddress meta |> <| uss_userAgent := rm_userAgent meta |>);
    isOperator ← platformOperator (uss_userId session);
    mret (MkIssuedUserSession (uss_userId session) sessionId isOperator (uss_jti session)
            (uss_sessionVersion session) JWT_ACCESS_TTL_SECONDS refreshToken).

Definition refreshUserSession (refreshOpaque : string) (meta : RequestMeta) : M IssuedUserSession :=
  now ← newDate;
  withOrg (
    row ← loadRefreshRow (hashRefreshToken refreshOpaque);
    match row with
    | None => throw refreshTokenInvalid
    | Some row => rotateUserRefresh row meta now
    end).

Definition revokeUserSessionByRefresh (refreshOpaque : string) : M bool :=
  withOrg (
    row ← loadRefreshRow (hashRefreshToken refreshOpaque);
    match row with
    | None => mret false
    | Some (token, session) =>
        if isNotNull (uss_revokedAt session) then mret false
        else now ← newDate; _ ← revokeUserSessionInTx (urt_userSessionId token) now; mret true
    end).

Definition verifyUserSessionInTx (claims : CommonClaims) (now : Date) : M VerifiedUserSession :=
  found ← selectFirst db_userSessions (fun s => uuidText (uss_jti s) =? cc_jti claims);
  match found with
  | None => throw sessionRevoked
  | Some row =>
      if isNotNull (uss_revokedAt row) || negb (uuidText (uss_userId row) =? cc_sub claims)
         || negb (uss_sessionVersion row =? cc_sessionVersion claims) || (uss_expiresAt row <=? now)
      then throw sessionRevoked
      else if idleExceeded (uss_lastActiveAt row) now then
        _ ← revokeUserSessionInTx (uss_id row) now;
        throw (AppError "session_expired" 401)
      else
        _ ← updateWhere db_userSessions (fun s => uss_id s =? uss_id row)
              (fun s => s <| uss_lastActiveAt := now |> <| uss_updatedAt := now |>);
        isOperator ← platformOperator (uss_userId row);
        mret (MkVerifiedUserSession (uss_userId row) (uss_id row) (uss_jti row) isOperator)
  end.

Definition verifyUserSession (claims : CommonClaims) : M VerifiedUserSession :=
  now ← newDate;
  withOrg (verifyUserSessionInTx claims now).

(** ** cli-device-service.ts *)

Definition expiresInOf (grant : DeviceGrantRow) (now : Date) : Z :=
  Z.max 0 (- ((now - dg_expiresAt grant) / 1000))%Z.
Definition isExpired (grant : DeviceGrantRow) (now : Date) : bool := dg_expiresAt grant <=? now.
Definition polledTooSoon (grant : DeviceGrantRow) (now : Date) : bool :=
  match dg_lastPolledAt grant with
  | None => false
  | Some t => now - t <? dg_intervalSeconds grant * 1000
  end.

Definition insertGrant (deviceCode userCode : string) (clientName : option string) (now : Date) : M unit :=
  gid ← genRandomUuid;
  _ ← insertRow db_deviceGrants deviceGrantConflict
    {| dg_id := gid; dg_deviceCodeHash := hashDeviceCode deviceCode; dg_userCodeHash := hashUserCode userCode;
       dg_status := grantPending; dg_expiresAt := (now + CLI_DEVICE_TTL_SECONDS * 1000)%Z;
       dg_intervalSeconds := CLI_DEVICE_POLL_INTERVAL_SECONDS; dg_lastPolledAt := None; dg_clientName := clientName;
       dg_userId := None; dg_orgId := None; dg_approverSessionId := None; dg_sessionId := None;
       dg_stepUpFailures := 0; dg_approvedAt := None; dg_deniedAt := None; dg_consumedAt := None;
       dg_revokedAt := None |};
  mret tt.

(** The codes of the grant; a collision is retried once. *)
Definition createDeviceGrant (clientName : option string) : M (string * string) :=
  now ← newDate;
  deviceCode ← generateDeviceCode;
  userCode ← generateUserCode;
  catch (_ ← withOrg (insertGrant deviceCode userCode clientName now); mret (deviceCode, userCode))
    (fun e => match e with
      | UniqueViolation =>
          retryDevice ← generateDeviceCode;
          retryUser ← generateUserCode;
          _ ← withOrg (insertGrant retryDevice retryUser clientName now);
          mret (retryDevice, retryUser)
      | _ => throw e
      end).

Definition lockGrantByUserCode (normalized : string) : M (option DeviceGrantRow) :=
  let computed := hashUserCode normalized in
  grant ← selectFirst db_deviceGrants (fun g => dg_userCodeHash g =? computed);
  mret (if deviceCodeHashesEqual (dg_userCodeHash <$> grant) computed then grant else None).

Definition updateGrant (id : Uuid) (f : DeviceGrantRow -> DeviceGrantRow) : M unit :=
  _ ← updateWhere db_deviceGrants (fun g => dg_id g =? id) f;
  mret tt.

Definition applyStepUp (grant : DeviceGrantRow) (userId : Uuid) (totpCode : option string) (now : Date)
    : M (option DeviceDecision) :=
  verdict ← verifyConfirmedLoginTotp userId (default "" totpCode);
  match verdict with
  | totp_no_enrollment => mret (Some dd_enrollment_required)
  | totp_valid => mret None
  | totp_invalid_code | totp_replayed_code =>
      let failures := (dg_stepUpFailures grant + 1)%Z in
      _ ← updateGrant (dg_id grant) (fun g =>
            if (CLI_DEVICE_STEP_UP_FAILURE_LIMIT <=? failures)
            then g <| dg_stepUpFailures := failures |> <| dg_status := grantDenied |> <| dg_deniedAt := Some now |>
            else g <| dg_stepUpFailures := failures |>);
      mret (Some dd_step_up_required)
  end.

Definition CLI_DEVICE_LOGIN_APPROVED : string := "CLI_DEVICE_LOGIN_APPROVED".
Definition CLI_DEVICE_LOGIN_DENIED : string := "CLI_DEVICE_LOGIN_DENIED".
Definition CLI_DEVICE_LOGIN_CONSUMED : string := "CLI_DEVICE_LOGIN_CONSUMED".

(** Inside the route's transaction. *)
Definition decideDeviceGrant (approver : Approver) (normalizedUserCode : string) (decision : GrantDecision)
    (totpCode : option string) (meta : RequestMeta) : M DeviceDecision :=
  now ← newDate;
  found ← lockGrantByUserCode normalizedUserCode;
  match found with
  | None => mret dd_invalid
  | Some grant =>
      if negb (dg_status grant =? grantPending) || isExpired grant now then mret dd_invalid
      else if decision =? decide_deny then
        _ ← updateGrant (dg_id grant) (fun g => g <| dg_status := grantDenied |> <| dg_deniedAt := Some now |>
              <| dg_userId := Some (apr_userId approver) |> <| dg_orgId := Some (apr_orgId approver) |>);
        _ ← grantAudit (apr_orgId approver) (apr_userId approver) CLI_DEVICE_LOGIN_DENIED (dg_id grant) meta;
        mret dd_denied
      else
        isOperator ← platformOperator (apr_userId approver);
        refused ← (if isOperator : bool then applyStepUp grant (apr_userId approver) totpCode now else mret None);
        match refused with
        | Some d => mret d
        | None =>
            _ ← updateGrant (dg_id grant) (fun g => g <| dg_status := grantApproved |> <| dg_approvedAt := Some now |>
                  <| dg_userId := Some (apr_userId approver) |> <| dg_orgId := Some (apr_orgId approver) |>
                  <| dg_approverSessionId := Some (apr_sessionId approver) |>);
            _ ← grantAudit (apr_orgId approver) (apr_userId approver) CLI_DEVICE_LOGIN_APPROVED (dg_id grant) meta;
            mret (dd_approved (expiresInOf grant now))
        end
  end.

(** Under row-level security: the session is looked for in the grant's organisation. *)
Definition approverSessionLive (grant : DeviceGrantRow) : M bool :=
  match dg_approverSessionId grant, dg_orgId grant, dg_userId grant with
  | Some sid, Some orgId, Some _ =>
      found ← selectFirst db_sessions (fun s => (ses_id s =? sid) && (ses_orgId s =? orgId));
      match found with
      | None => mret false
      | Some session =>
          now ← newDate;
          if isNotNull (ses_revokedAt session) || (ses_expiresAt session <=? now) then mret false
          else
            now' ← newDate;
            mret (now' - ses_lastActiveAt session <=? SESSION_IDLE_TIMEOUT_MINUTES * 60000)
      end
  | _, _, _ => mret false
  end.

Definition markRevoked (grant : DeviceGrantRow) (meta : RequestMeta) (now : Date) : M unit :=
  _ ← updateGrant (dg_id grant) (fun g => g <| dg_status := grantRevoked |> <| dg_revokedAt := Some now |>);
  match dg_orgId grant, dg_userId grant with
  | Some orgId, Some userId => grantAudit orgId userId CLI_DEVICE_LOGIN_REVOKED (dg_id grant) meta
  | _, _ => mret tt
  end.

Definition issueFromGrant (grant : DeviceGrantRow) (meta : RequestMeta) (now : Date) : M IssuedUserSession :=
  match dg_userId grant with
  | None => throw (JsError "approved grant is missing its approver")
  | Some userId =>
      session ← issueUserSessionInTx userId meta now;
      _ ← updateGrant (dg_id grant) (fun g => g <| dg_status := grantConsumed |> <| dg_consumedAt := Some now |>
            <| dg_sessionId := Some (ius_sessionId session) |>);
      _ ← match dg_orgId grant with
          | Some orgId => grantAudit orgId userId CLI_DEVICE_LOGIN_CONSUMED (dg_id grant) meta
          | None => mret tt
          end;
      mret session
  end.

Definition terminalPoll (grant : DeviceGrantRow) (now : Date) : option DevicePollResult :=
  if isExpired grant now || (dg_status grant =? grantConsumed) then Some poll_expired
  else if (dg_status grant =? grantDenied) || (dg_status grant =? grantRevoked) then Some poll_denied
  else None.

Definition pollLockedGrant (found : option DeviceGrantRow) (computed : string) (meta : RequestMeta) (now : Date)
    : M DevicePollResult :=
  match found with
  | None => mret poll_expired
  | Some grant =>
      if negb (deviceCodeHashesEqual (Some (dg_deviceCodeHash grant)) computed) then mret poll_expired
      else
        match terminalPoll grant now with
        | Some result => mret result
        | None =>
            if polledTooSoon grant now then
              let intervalSeconds := Z.min (dg_intervalSeconds grant + CLI_DEVICE_SLOW_DOWN_STEP_SECONDS)
                                       CLI_DEVICE_MAX_INTERVAL_SECONDS in
              _ ← updateGrant (dg_id grant) (fun g => g <| dg_intervalSeconds := intervalSeconds |>
                    <| dg_lastPolledAt := Some now |>);
              mret poll_slow_down
            else
              _ ← updateGrant (dg_id grant) (fun g => g <| dg_lastPolledAt := Some now |>);
              if dg_status grant =? grantPending then mret poll_pending
              else
                live ← approverSessionLive grant;
                if negb live then _ ← markRevoked grant meta now; mret poll_denied
                else session ← issueFromGrant grant meta now; mret (poll_session session)
        end
  end.

Definition pollDeviceGrant (deviceCode : string) (meta : RequestMeta) : M DevicePollResult :=
  now ← newDate;
  let computed := hashDeviceCode deviceCode in
  withOrg (
    grant ← selectFirst db_deviceGrants (fun g => dg_deviceCodeHash g =? computed);
    pollLockedGrant grant computed meta now).

(** lib/org-membership.ts *)
Inductive OrgMembershipResult := membership_allowed | membership_denied | membership_unavailable.
Definition isOrgMember (organizationId userId : Uuid) : M OrgMembershipResult :=
  catch (role ← resolveActiveOrgRole userId organizationId;
         mret (if isNotNull role then membership_allowed else membership_denied))
    (fun _ => mret membership_unavailable).

Definition notOrgMember : Exn := AppError "not_org_member" 403.

Definition exchangeOrgCredential (userId userSessionId organizationId : Uuid) (meta : RequestMeta)
    : M (LoginResult * OrgRole * Uuid) :=
  membership ← isOrgMember organizationId userId;
  match membership with
  | membership_unavailable => throw (AppError "service_unavailable" 503)
  | membership_denied => throw notOrgMember
  | membership_allowed =>
      withOrg (
        role ← resolveActiveOrgRoleInTx userId organizationId;
        match role with
        | None => throw notOrgMember
        | Some role =>
            identityTokenId ← firstActorTokenIdForUser userId;
            login ← createLoginSessionInTx userId identityTokenId organizationId meta
                      (MkLoginSessionOptions (Some CLI_ORG_CREDENTIAL_TTL_SECONDS) false);
            created ← selectFirst db_sessions (fun s => ses_jti s =? ac_jti (tm_accessClaims (lr_tokens login)));
            match created with
            | None => throw (JsError "organization credential insert returned no row")
            | Some s =>
                _ ← recordOrgCredential userSessionId organizationId (ses_id s);
                mret (login, role, ses_id s)
            end
        end)
  end.

End userSessions.
