(* ===== verification/Login.v ===== *)
(** * Login

    modules/auth/service.ts: [loginUser] with its lockout, its failed-login audit
    and the MFA branch, the platform security events, and the allocation of
    organisation slugs; mfa-enforcement.ts and grace-period.ts. *)

From S2P Require Import Prelude Js Crypto FieldSet AuthStore Store Tx QuotaGate AuditLog Notifications Frames Sessions Authenticate Mfa.
From Stdlib Require Import Ascii String.
From stdpp Require Import strings pretty.

Local Open Scope string_scope.
Local Open Scope list_scope.
Local Open Scope pv_scope.

(** ** grace-period.ts, mfa-enforcement.ts *)

Definition isPrivileged (role : OrgRole) : bool := (role =? owner) || (role =? admin).

Definition setGracePeriodOnPrivilegedRole (role : OrgRole) (mfaEnrolledAt existingGracePeriodExpiresAt : option Date)
    (now : Date) (gracePeriodDays : Z) : option Date :=
  if negb (isPrivileged role) then None
  else if isNotNull mfaEnrolledAt then None
  else match existingGracePeriodExpiresAt with
       | Some d => Some d
       | None => if gracePeriodDays =? 0%Z then Some now else Some (now + gracePeriodDays * 24 * 60 * 60 * 1000)%Z
       end.

Definition isMfaEnforcementActive (orgRole : OrgRole) (mfaEnrolledAt gracePeriodExpiresAt : option Date) (now : Date)
    : bool :=
  if negb (isPrivileged orgRole) then false
  else if isNotNull mfaEnrolledAt then false
  else match gracePeriodExpiresAt with Some g => negb (now <? g) | None => true end.

Definition MFA_REQUIRED_MESSAGE : string :=
  "MFA enrollment is required for Owner and Admin roles. Enroll at /settings/security.".

Record ComputedMfaStatus := MkComputedMfaStatus {
  cms_mfaEnrolled : bool;
  cms_enrollmentRequired : bool;
  cms_gracePeriodActive : bool;
  cms_gracePeriodExpiresAt : option Date;
  cms_gracePeriodDaysRemaining : option Z;
  cms_bannerMessage : option string;
}.

Definition computeMfaStatus (orgRole : OrgRole) (mfaEnrolledAt gracePeriodExpiresAt : option Date) (now : Date)
    : ComputedMfaStatus :=
  let enrollmentRequired := isMfaEnforcementActive orgRole mfaEnrolledAt gracePeriodExpiresAt now in
  let grace := match gracePeriodExpiresAt with
               | Some g => if isPrivileged orgRole && isNull mfaEnrolledAt && (now <? g) then Some g else None
               | None => None
               end in
  let days := (fun g => - ((now - g) / 86400000))%Z <$> grace in
  {| cms_mfaEnrolled := isNotNull mfaEnrolledAt;
     cms_enrollmentRequired := enrollmentRequired;
     cms_gracePeriodActive := isNotNull grace;
     cms_gracePeriodExpiresAt := grace;
     cms_gracePeriodDaysRemaining := days;
     cms_bannerMessage :=
       match days with
       | Some n => Some ("MFA enrollment is required for Owner and Admin roles within " ++ pretty n
                           ++ " days. Enroll at /settings/security.")%string
       | None => if enrollmentRequired then Some MFA_REQUIRED_MESSAGE else None
       end |}.

Section login.
Context `{Locale, Platform, NodeCrypto, Env, Unicode, OtpValidate, Passwords}.

(** A delegated actor without a role counts as a viewer. *)
Definition loadMfaEnforcementStatus (userId orgId : Uuid) (orgRole : option OrgRole) : M ComputedMfaStatus :=
  user ← selectFirst db_users (fun u => usr_id u =? userId);
  membership ← selectFirst db_memberships
    (fun m => (mem_orgId m =? orgId) && (mem_userId m =? userId) && (mem_status m =? active));
  now ← newDate;
  mret (computeMfaStatus (default viewer orgRole) (user ≫= usr_mfaEnrolledAt)
          (membership ≫= mem_gracePeriodExpiresAt) now).

(** [rejectIfUserNotMfaEnrolled]: whether the request was refused *)
Definition rejectIfUserNotMfaEnrolled (userId : Uuid) : M bool :=
  user ← selectFirst db_users (fun u => usr_id u =? userId);
  mret (isNull (user ≫= usr_mfaEnrolledAt)).

(** The preHandlers: [Some (status, code)] when the reply is sent. *)
Definition requireMfaEnrollmentStrict (auth : option AuthContext) : M (option (Z * string)) :=
  match auth with
  | None => mret (Some (401%Z, "access_token_missing"))
  | Some a =>
      if negb (isPrivileged (actx_orgRole a)) then mret None
      else
        refused ← rejectIfUserNotMfaEnrolled (actx_userId a);
        mret (if refused : bool then Some (403%Z, "mfa_required") else None)
  end.

Definition requireMfaEnrollment (auth : option AuthContext) : M (option (Z * string)) :=
  match auth with
  | None => mret (Some (401%Z, "access_token_missing"))
  | Some a =>
      status ← loadMfaEnforcementStatus (actx_userId a) (actx_orgId a) (Some (actx_orgRole a));
      mret (if cms_enrollmentRequired status then Some (403%Z, "mfa_required") else None)
  end.

(** ** Security events outside an organisation *)

(** [email.split('@')[1] ?? ''] *)
Fixpoint upToAt (s : string) : string :=
  match s with
  | EmptyString => ""
  | String c s' => if c =? "@"%char then "" else String c (upToAt s')
  end.
Fixpoint emailDomain (email : string) : string :=
  match email with
  | EmptyString => ""
  | String c s' => if c =? "@"%char then upToAt s' else emailDomain s'
  end.

Definition subjectHash (email : string) : M string :=
  auditKey ← getAuditKey;
  mret (hmacSha256Hex auditKey email).

Definition optStr (o : option string) : Json := match o with Some s => JStr s | None => JNull end.

Definition insertPlatformSecurityEvent (eventType : string) (subjectHash emailDomain : option string)
    (payload : list (string * Json)) (meta : RequestMeta) : M unit :=
  keyVersion ← currentAuditKeyVersion;
  auditKey ← getAuditKey;
  eid ← genRandomUuid;
  let hmac := hmacSha256Hex auditKey (stringify (sortKeys (JObj
      [("eventType", JStr eventType); ("subjectHash", optStr subjectHash); ("emailDomain", optStr emailDomain);
       ("payload", JObj payload); ("keyVersion", JInt keyVersion)]))) in
  _ ← insertRow db_platformEvents (fun new old => pe_id new =? pe_id old)
    (MkPlatformEventRow eid eventType subjectHash emailDomain (rm_ipAddress meta) (rm_userAgent meta)
       (JObj payload) keyVersion hmac);
  mret tt.

(** ** service.ts: login *)

Record LoginUserRow := MkLoginUserRow {
  lu_user : UserRow;
  lu_identityTokenId : option Uuid;
  lu_orgId : option Uuid;
  lu_membershipStatus : option MembershipStatus;
}.

(** One row for each organisation the user has a membership of, or one without. *)
Definition findLoginUser (email : string) : M (list LoginUserRow) :=
  userRows ← findUserWithIdentityByEmail email;
  match userRows with
  | [] => mret []
  | (user, token) :: _ =>
      orgRows ← selectWhere db_organizations (fun _ => true);
      perOrg ← forEachCollect orgRows (fun org => withOrg (selectFirst db_memberships
                 (fun m => (mem_orgId m =? org_id org) && (mem_userId m =? usr_id user))));
      let membershipRows := map (fun m => MkLoginUserRow user token (Some (mem_orgId m)) (Some (mem_status m)))
                              (omap id perOrg) in
      mret (match membershipRows with [] => [MkLoginUserRow user token None None] | _ => membershipRows end)
  end.

Definition invalidCredentials : Exn := AppError "invalid_credentials" 401.

Definition verifyLoginPassword (password : string) (user : option LoginUserRow) : bool :=
  match verifyUserPassword password (default AUTH_DUMMY_PASSWORD_HASH (usr_passwordHash <$> (lu_user <$> user))) with
  | Ok b => b
  | Throw _ => false
  end.

(** The organisation and the actor token of the audit entry; [None] for an unknown email. *)
Definition failedLoginAuditSubject (user : option LoginUserRow) (rows : list LoginUserRow) (activeOrgId : option Uuid)
    : option (option Uuid * option Uuid) :=
  match user with
  | None => None
  | Some u =>
      Some (match activeOrgId with
            | Some o => Some o
            | None => List.find (fun r => isNotNull (lu_orgId r)) rows ≫= lu_orgId
            end, lu_identityTokenId u)
  end.

(** Never throws. *)
Definition recordLoginFailed (subject : option (option Uuid * option Uuid)) (email : string) (meta : RequestMeta)
    (reason : string) : M unit :=
  catch
    match subject with
    | Some (Some orgId, identityTokenId) =>
        withOrg (insertAuditEntry orgId identityTokenId LOGIN_FAILED [("reason", JStr reason)] meta)
    | _ =>
        let unresolvable := match subject with Some _ => "orphan_user" | None => "unknown_subject" end in
        withOrg (
          h ← subjectHash email;
          insertPlatformSecurityEvent LOGIN_FAILED (Some h) (Some (emailDomain email))
            [("reason", JStr (if reason =? "account_lockout" then reason else unresolvable))] meta)
    end
    (fun _ => mret tt).

Definition rejectInvalidLogin {A} (email : string) (meta : RequestMeta) (user : option LoginUserRow)
    (rows : list LoginUserRow) (activeOrgId : option Uuid) (lockedOut : bool) : M A :=
  _ ← recordFailedAuthAttempt (usr_id <$> (lu_user <$> user)) (default "0.0.0.0" (rm_ipAddress meta)) email
        "invalid_credentials";
  _ ← recordLoginFailed (failedLoginAuditSubject user rows activeOrgId) email meta
        (if lockedOut then "account_lockout" else "invalid_credentials");
  throw invalidCredentials.

Definition normalizeLoginEmail (rawEmail : string) (meta : RequestMeta) : M string :=
  match normalizeEmail rawEmail with
  | Ok e => mret e
  | Throw error =>
      _ ← recordFailedAuthAttempt None (default "0.0.0.0" (rm_ipAddress meta)) rawEmail "invalid_credentials";
      throw error
  end.

Inductive LoginOutcome := logged_in (session : LoginResult) | mfa_required (mfaToken : string).

Definition createLoginSession (user : LoginUserRow) (orgId : Uuid) (meta : RequestMeta) : M LoginResult :=
  withOrg (createLoginSessionInTx (usr_id (lu_user user)) (lu_identityTokenId user) orgId meta defaultLogin).

Definition loginUser (rawEmail password : string) (meta : RequestMeta) : M LoginOutcome :=
  email ← normalizeLoginEmail rawEmail meta;
  lockedOut ← isLoginLockedOut email;
  rows ← findLoginUser email;
  let user := head rows in
  let activeMembership := List.find (fun r => (lu_membershipStatus r =? Some active) && isNotNull (lu_orgId r)) rows in
  let activeOrgId := activeMembership ≫= lu_orgId in
  let valid := verifyLoginPassword password user in
  match user, activeOrgId with
  | Some u, Some orgId =>
      if lockedOut || negb valid then rejectInvalidLogin email meta user rows activeOrgId lockedOut
      else if isNotNull (usr_mfaEnrolledAt (lu_user u)) then
        mfaToken ← createPendingMfaSession (usr_id (lu_user u)) orgId meta;
        mret (mfa_required mfaToken)
      else
        session ← createLoginSession u orgId meta;
        mret (logged_in session)
  | _, _ => rejectInvalidLogin email meta user rows activeOrgId lockedOut
  end.

(** ** service.ts: organisation slugs *)

Definition MAX_SLUG_ATTEMPTS : nat := 5.
Definition SLUG_ATTEMPTS : list nat := seq 0 MAX_SLUG_ATTEMPTS.

Definition slugAt (baseSlug : string) (attempt : nat) : string :=
  if attempt =? 0%nat then baseSlug else (baseSlug ++ "-" ++ showNat (attempt + 1))%string.

(** One attempt, in a savepoint of its own: [None] when organizations_slug_unique refuses the slug. *)
Definition tryAllocateOrganizationSlug (baseSlug : string) (attempt : nat) : M (option (Uuid * string)) :=
  transaction (
    oid ← genRandomUuid;
    now ← dbNow;
    taken ← selectFirst db_organizations (fun o => org_slug o =? slugAt baseSlug attempt);
    if isNotNull taken then mret None
    else
      inserted ← insertRow db_organizations organizationConflict
                   (MkOrganizationRow oid "" (slugAt baseSlug attempt) "en" now);
      mret (Some (org_id inserted, org_slug inserted))).

Definition allocateOrganizationSlug (baseSlug : string) : M (Uuid * string) :=
  allocated ← firstResultSequential SLUG_ATTEMPTS (tryAllocateOrganizationSlug baseSlug);
  match allocated with
  | Some r => mret r
  | None => throw (AppError "org_name_unavailable" 409)
  end.

End login.
