(* ===== verification/SessionFrames.v ===== *)
(** * What each authentication operation does to the sessions

    The operations of modules/auth, and the job that prunes the list of revoked
    tokens, as one type, [AuthOp]; and the reduction of an invariant of the
    tables of sessions and refresh tokens to the functions that write them. *)

From S2P Require Import Prelude Js Crypto FieldSet AuthStore Store Tx QuotaGate AuditLog Notifications Frames Sessions Authenticate Mfa UserSessions Login.
From Stdlib Require Import Ascii String.
From stdpp Require Import strings.

Local Open Scope string_scope.
Local Open Scope list_scope.
Local Open Scope pv_scope.

(** The tables of the sessions of organisations; the list of revoked tokens is a cache of them. *)
Definition sessionTables (a : AuthDb) : list SessionRow * list RefreshTokenRow := (au_sessions a, au_refreshTokens a).

Inductive AuthOp :=
| op_login (rawEmail password : string) (meta : RequestMeta)
| op_verifyLogin (mfaToken totp : string) (meta : RequestMeta)
| op_recover (email password recoveryCode : string) (meta : RequestMeta)
| op_createSession (userId : Uuid) (identityTokenId : option Uuid) (orgId : Uuid) (meta : RequestMeta)
    (options : LoginSessionOptions)
| op_refresh (refreshOpaque : string) (meta : RequestMeta) (accessTokenExp : option Date)
| op_authenticate (request : RequestToken)
| op_revoke (sessionId : Uuid) (options : RevokeSessionOptions)
| op_revokeAllOfUser (userId orgId actorUserId : Uuid) (reason : SessionRevokeScope)
| op_revokeOthers (userId orgId currentJti actorUserId : Uuid)
| op_revokeOrg (orgId : Uuid) (requestId : string)
| op_enroll (secret : string) (auth : AuthPair) (meta : RequestMeta)
| op_verifyEnrollment (fuel : nat) (auth : AuthPair) (totp : string) (meta : RequestMeta)
| op_regenerate (fuel : nat) (auth : AuthPair) (totp : string) (meta : RequestMeta)
| op_createGrant (clientName : option string)
| op_decideGrant (approver : Approver) (userCode : string) (decision : GrantDecision) (totp : option string) (meta : RequestMeta)
| op_pollGrant (deviceCode : string) (meta : RequestMeta)
| op_exchange (userId userSessionId organizationId : Uuid) (meta : RequestMeta)
| op_refreshUser (refreshOpaque : string) (meta : RequestMeta)
| op_verifyUser (claims : CommonClaims)
| op_revokeUser (sessionId userId : Uuid)
| op_revokeUserByRefresh (refreshOpaque : string)
| op_pruneRevokedTokens.

Ltac preserve_ok :=
  repeat first
    [ apply preservesOk_bind; [|intros ?]
    | match goal with
      | |- preservesOk _ _ (if ?b then _ else _) => destruct b
      | |- preservesOk _ _ (match ?x with _ => _ end) => destruct x
      end ].

Section ops.
Context `{Locale, Platform, NodeCrypto, Env, Unicode, OtpValidate, Passwords, JwtLibrary}.

Definition runAuthOp (op : AuthOp) : M unit :=
  match op with
  | op_login e p m => discard (loginUser e p m)
  | op_verifyLogin k t m => discard (verifyLogin k t m)
  | op_recover e p r m => discard (recoverWithCode e p r m)
  | op_createSession u t o m opt => discard (withOrg (createLoginSessionInTx u t o m opt))
  | op_refresh r m x => discard (refreshSession r m x)
  | op_authenticate r => discard (authenticateRequest r)
  | op_revoke s o => discard (withOrg (revokeSessionById s o))
  | op_revokeAllOfUser u o a r => discard (withOrg (revokeAllUserSessionsInOrg u o a r))
  | op_revokeOthers u o j a => discard (withOrg (revokeAllOtherSessions u o j a))
  | op_revokeOrg o r => discard (withOrg (revokeAllSessionsForOrg o r))
  | op_enroll s a m => discard (withOrg (enrollMfa s a m))
  | op_verifyEnrollment n a t m => discard (withOrg (verifyEnrollment n a t m))
  | op_regenerate n a t m => discard (withOrg (regenerateRecoveryCodes n a t m))
  | op_createGrant c => discard (createDeviceGrant c)
  | op_decideGrant a u d t m => discard (withOrg (decideDeviceGrant a u d t m))
  | op_pollGrant c m => discard (pollDeviceGrant c m)
  | op_exchange u s o m => discard (exchangeOrgCredential u s o m)
  | op_refreshUser r m => discard (refreshUserSession r m)
  | op_verifyUser c => discard (verifyUserSession c)
  | op_revokeUser s u => discard (revokeUserSessionById s u)
  | op_revokeUserByRefresh r => discard (revokeUserSessionByRefresh r)
  | op_pruneRevokedTokens => discard pruneRevokedTokens
  end.

(** The requests, and runs of the job, one after the other, whether each of them succeeds or not. *)
Definition runAuthOps (ops : list AuthOp) (w : World) : World := foldl (fun w op => snd (runAuthOp op w)) w ops.

Lemma findRefreshRow_spec tokenHash w :
  wp (findRefreshRow tokenHash) (fun o w' => w' = w /\ forall row : RefreshTokenRow * SessionRow, o = Ok row ->
    row.1 ∈ db_refreshTokens (w_db w) /\ row.2 ∈ db_sessions (w_db w) /\
    rt_sessionId row.1 = ses_id row.2 /\ rt_tokenHash row.1 = tokenHash) w /\
  wp (findRefreshRow tokenHash) (fun o _ => forall e, o = Throw e -> e = refreshTokenInvalid) w.
Proof.
  unfold findRefreshRow, wp, mbind, M_bind, selectFirst.
  destruct (head (List.filter _ (db_refreshTokens _))) as [token|] eqn:Et; [|by split; [|intros e [= <-]]].
  destruct (head (List.filter _ (db_sessions _))) as [session|] eqn:Es; [|by split; [|intros e [= <-]]].
  apply head_elem_of, elem_of_lfilter in Et as [Eh Ht]. apply head_elem_of, elem_of_lfilter in Es as [Eid Hs].
  bool_simpl. split; [|done]. split; [done|]. by intros row [= <-].
Qed.

(** ** The reduction *)

Section reduction.
Context (Q : AuthDb -> Prop) (W : (Db -> Db) -> Prop).
Notation authP := (fun db => Q (db_auth db)).
Context (Q_tables : forall a a', sessionTables a = sessionTables a' -> Q a -> Q a').
Context (Q_revoke : forall s o, preservesOk authP W (revokeSessionById s o)).
Context (Q_create : forall u t o m opt, preservesOk authP W (createLoginSessionInTx u t o m opt)).
Context (Q_rotate : forall row m x w, row.1 ∈ db_refreshTokens (w_db w) -> row.2 ∈ db_sessions (w_db w) ->
  rt_sessionId row.1 = ses_id row.2 -> ses_revokedAt row.2 = None -> holds authP W w ->
  wp (rotateRefreshToken row m x) (okPost authP W) w).
Context (Q_org : forall o r, preservesOk authP W (revokeAllSessionsForOrg o r)).
Context (Q_touch : forall sid now, preserves authP W (updateWhere db_sessions (fun s => ses_id s =? sid)
  (fun s => s <| ses_lastActiveAt := now |> <| ses_updatedAt := now |>))).

Lemma Q_frame {A} (m : M A) :
  (forall w, wp m (fun _ w' => sessionTables (db_auth (w_db w')) = sessionTables (db_auth (w_db w)) /\
     w_onWait w' = w_onWait w) w) ->
  preserves authP W m.
Proof.
  intros Hm w HQ. eapply wp_mono; [apply Hm|]. intros o w' [E EW]. eapply holds_db; [exact HQ| |done].
  apply (Q_tables _ _ (eq_sym E)), HQ.
Qed.

Lemma Q_update {R} (t : Db -> list R) `{!Setter t} p f :
  (forall db g, sessionTables (db_auth (db <| t ::= g |>)) = sessionTables (db_auth db)) ->
  preserves authP W (updateWhere t p f).
Proof. intros Ht. apply Q_frame. intros w. split; [exact (Ht (w_db w) _)|done]. Qed.
Lemma Q_delete {R} (t : Db -> list R) `{!Setter t} p :
  (forall db g, sessionTables (db_auth (db <| t ::= g |>)) = sessionTables (db_auth db)) ->
  preserves authP W (deleteWhere t p).
Proof. intros Ht. apply Q_frame. intros w. split; [exact (Ht (w_db w) _)|done]. Qed.
Lemma Q_insert {R} (t : Db -> list R) `{!Setter t} c r :
  (forall db g, sessionTables (db_auth (db <| t ::= g |>)) = sessionTables (db_auth db)) ->
  preserves authP W (insertRow t c r).
Proof.
  intros Ht. apply Q_frame. intros w. unfold wp, insertRow. destruct (existsb _ _); [done|]. split; [exact (Ht (w_db w) _)|done].
Qed.

(** The statements on the other tables, and what only reads. *)
Ltac other_tables :=
  repeat first
    [ progress preserve
    | apply Q_update; intros ? ?; reflexivity
    | apply Q_delete; intros ? ?; reflexivity
    | apply Q_insert; intros ? ?; reflexivity
    | apply Q_frame; intros ?; split; reflexivity ].

Lemma Q_humanAudit o a e r p m : preserves authP W (humanAudit o a e r p m).
Proof. unfold humanAudit. apply preserves_bind; [apply auth_writeHuman|]. intros ?. other_tables. Qed.
Lemma Q_grantAudit o u e g m : preserves authP W (grantAudit o u e g m).
Proof.
  unfold grantAudit, firstActorTokenIdForUser. apply preserves_bind; [other_tables|]. intros ?.
  apply preserves_bind; [apply auth_writeHuman|]. intros ?. other_tables.
Qed.
Lemma Q_insertAuditEntry o a e p m : preserves authP W (insertAuditEntry o a e p m).
Proof.
  unfold insertAuditEntry. apply preserves_bind; [other_tables|]. intros ?.
  apply preserves_bind; [apply auth_appendAuditRow|]. intros ?. other_tables.
Qed.
Lemma Q_recordFailed u i e r : preserves authP W (recordFailedAuthAttempt u i e r).
Proof. unfold recordFailedAuthAttempt. other_tables. Qed.
Lemma Q_dispatch o u t : preserves authP W (safeDispatchDirectUserNotification o u t).
Proof.
  unfold safeDispatchDirectUserNotification, dispatchDirectUserNotification, getPreferences, processPreference,
    enqueueUserChannel, nextDigestDeliveryTime, insertQueue. other_tables.
Qed.
Lemma Q_recordTotpUse u c t : preserves authP W (recordTotpUse u c t).
Proof. unfold recordTotpUse. other_tables. Qed.
Lemma Q_validateTotp u e t d : preserves authP W (validateEnrollmentTotp u e t d).
Proof.
  unfold validateEnrollmentTotp, deletePendingEnrollmentForUser. apply preserves_bind; [other_tables|]. intros ?.
  apply preserves_catch; [|intros ?; other_tables]. cbv zeta. apply preserves_bind; [other_tables|]. intros ?.
  destruct (validateTotpCode _ _ _); [|other_tables]. apply preserves_bind; [apply Q_recordTotpUse|]. intros ?. other_tables.
Qed.
Lemma Q_verifyTotp u t : preserves authP W (verifyConfirmedLoginTotp u t).
Proof.
  unfold verifyConfirmedLoginTotp, loadConfirmedEnrollmentForUpdate. apply preserves_bind; [other_tables|].
  intros [e|]; [apply Q_validateTotp|other_tables].
Qed.
Lemma Q_touchSession s o : preserves authP W (touchSessionActivity s o).
Proof.
  unfold touchSessionActivity, lastActivityWrite, setLastActivityWrite. apply preserves_bind; [other_tables|]. intros ?.
  apply preserves_bind; [other_tables|]. intros ?. case_bool_decide; [other_tables|].
  apply preserves_bind; [|intros ?; other_tables]. apply preserves_withOrg, preserves_ok, Q_touch.
Qed.
Lemma Q_touchOrg o u : preserves authP W (touchOrgMembershipActivity o u).
Proof. unfold touchOrgMembershipActivity, lastOrgActivityWrite, setLastOrgActivityWrite. other_tables. Qed.
Lemma Q_touchAll s : preserves authP W (touchActivityWithoutBlocking s).
Proof.
  unfold touchActivityWithoutBlocking. apply preserves_bind.
  - apply preserves_catch; [apply Q_touchSession|]. intros ?. other_tables.
  - intros ?. apply preserves_catch; [apply Q_touchOrg|]. intros ?. other_tables.
Qed.

Lemma Q_authenticate r : preserves authP W (authenticateRequest r).
Proof.
  unfold authenticateRequest. destruct (requestToken r); [|other_tables]. apply preserves_catch; [|intros ?; other_tables].
  apply preserves_bind; [|intros ?; other_tables]. unfold authContextOf.
  apply preserves_bind; [unfold verifyAccessClaims, assertTemporalClaims; other_tables|]. intros claims.
  apply preserves_bind; [unfold rejectRevokedToken; other_tables|]. intros ?.
  apply preserves_bind; [unfold loadSessionForClaims; other_tables|]. intros session.
  apply preserves_bind.
  { unfold enforceIdleTimeout, cleanupExpiredSession. apply preserves_bind; [other_tables|]. intros ?.
    case_bool_decide; [other_tables|]. apply preserves_bind; [|intros ?; other_tables].
    apply preserves_withOrg, preservesOk_bind; [apply Q_revoke|]. intros ?. apply preserves_ok. other_tables. }
  intros ?. apply preserves_bind; [unfold loadOrgRole, resolveActiveOrgRole, resolveActiveOrgRoleInTx; other_tables|].
  intros ?. apply preserves_bind; [unfold loadIsPlatformOperator; other_tables|]. intros ?.
  apply preserves_bind; [apply Q_touchAll|]. intros ?. other_tables.
Qed.

Lemma Q_refresh opaque m x : preserves authP W (refreshSession opaque m x).
Proof.
  unfold refreshSession. apply preserves_bind; [|intros []; other_tables]. apply preserves_withOrg.
  intros w HQ. unfold refreshInTx. apply wp_bind. eapply wp_mono; [apply (proj1 (findRefreshRow_spec _ _))|].
  intros [row|e] w' [-> Hrow]; [|exact (proj2 HQ)]. destruct (Hrow row eq_refl) as (Ht & Hs & Eid & _).
  destruct (isNotNull (rt_usedAt row.1)).
  { apply (preserves_ok authP); [|exact HQ]. unfold handleGraceRefresh. other_tables. }
  destruct (isNotNull (ses_revokedAt row.2)) eqn:Er; [exact (proj2 HQ)|]. bool_simpl.
  destruct (isNotNull (rt_revokedAt row.1)); [exact (proj2 HQ)|]. apply wp_newDate.
  case_bool_decide; [exact (proj2 HQ)|]. apply wp_bind. unfold selectFirst, wp at 1. cbv beta iota.
  destruct (isNotNull (head _)); [exact (proj2 HQ)|]. apply wp_newDate. case_bool_decide.
  - apply (preservesOk_bind authP); [|intros ?; apply preserves_ok; other_tables|exact HQ].
    unfold cleanupExpiredSession. apply preservesOk_bind; [apply Q_revoke|]. intros ?. apply preserves_ok. other_tables.
  - apply wp_bind. eapply wp_mono; [apply Q_rotate; [exact Ht|exact Hs|by symmetry|done|exact HQ]|].
    intros [r|e] w' Hw'; exact Hw'.
Qed.

(** *** The other operations *)

Lemma Q_withCreate u t o m opt : preserves authP W (withOrg (createLoginSessionInTx u t o m opt)).
Proof. apply preserves_withOrg, Q_create. Qed.

Lemma Q_createPending u o m : preserves authP W (createPendingMfaSession u o m).
Proof.
  unfold createPendingMfaSession, TOKEN_ATTEMPTS, insertPendingChallenge, generateOpaque. cbn [seq firstResultSequential].
  other_tables.
Qed.

Lemma Q_findLoginUser e : preserves authP W (findLoginUser e).
Proof. unfold findLoginUser, findUserWithIdentityByEmail. other_tables. Qed.

Lemma Q_rejectInvalid {A} e m u rows org l : preserves authP W (rejectInvalidLogin (A := A) e m u rows org l).
Proof.
  unfold rejectInvalidLogin. apply preserves_bind; [apply Q_recordFailed|]. intros ?.
  apply preserves_bind; [|intros ?; other_tables]. unfold recordLoginFailed. apply preserves_catch; [|intros ?; other_tables].
  destruct (failedLoginAuditSubject _ _ _) as [[[orgId|] tok]|];
    [apply preserves_withOrg, preserves_ok, Q_insertAuditEntry|..];
    unfold subjectHash, insertPlatformSecurityEvent, currentAuditKeyVersion; other_tables.
Qed.

Lemma Q_login e p m : preserves authP W (loginUser e p m).
Proof.
  unfold loginUser. apply preserves_bind.
  { unfold normalizeLoginEmail. destruct (normalizeEmail e); [other_tables|].
    apply preserves_bind; [apply Q_recordFailed|]. intros ?. other_tables. }
  intros email. apply preserves_bind; [unfold isLoginLockedOut, selectFailedAttempts; other_tables|]. intros locked.
  apply preserves_bind; [apply Q_findLoginUser|]. intros rows. cbv zeta.
  destruct (head rows) as [u|]; [|apply Q_rejectInvalid]. destruct (_ ≫= lu_orgId); [|apply Q_rejectInvalid].
  destruct (_ || _); [apply Q_rejectInvalid|]. destruct (isNotNull _).
  - apply preserves_bind; [apply Q_createPending|]. intros ?. other_tables.
  - apply preserves_bind; [apply Q_withCreate|]. intros ?. other_tables.
Qed.

Lemma Q_recordInvalidTotp row m r : preserves authP W (recordInvalidTotpFailure row m r).
Proof.
  unfold recordInvalidTotpFailure. apply preserves_bind.
  - unfold tryWriteLoginFailedAudit. apply preserves_catch; [|intros ?; other_tables].
    apply preserves_transaction, preserves_ok, preserves_bind; [unfold firstActorTokenIdForUser; other_tables|].
    intros ?. apply Q_humanAudit.
  - intros ?. destruct r; [other_tables|]. apply preserves_bind; [unfold attemptedEmailForUser; other_tables|].
    intros ?. apply Q_recordFailed.
Qed.

Lemma Q_consumeInvalid row m r : preserves authP W (consumeInvalidAttempt row m r).
Proof.
  unfold consumeInvalidAttempt, deletePendingSession. cbv zeta. case_bool_decide.
  - apply preserves_bind; [apply Q_recordInvalidTotp|]. intros ?. other_tables.
  - apply preserves_bind; [other_tables|]. intros ?. apply preserves_bind; [apply Q_recordInvalidTotp|]. intros ?. other_tables.
Qed.

Lemma Q_verifyLogin k t m : preserves authP W (verifyLogin k t m).
Proof.
  unfold verifyLogin. apply preserves_bind; [|intros []; other_tables]. apply preserves_withOrg.
  unfold verifyLoginInTx, deletePendingSession. apply preservesOk_bind; [apply preserves_ok; other_tables|].
  intros [row|]; [|apply preserves_ok; other_tables]. apply preservesOk_bind; [apply preserves_ok; other_tables|].
  intros now. destruct (_ || _); [apply preserves_ok; other_tables|].
  apply preservesOk_bind; [apply preserves_ok, Q_verifyTotp|]. intros [].
  - apply preservesOk_bind; [apply preserves_ok; unfold firstActorTokenIdForUser; other_tables|]. intros ?.
    apply preservesOk_bind; [apply Q_create|]. intros ?. apply preserves_ok.
    apply preserves_bind; [|intros ?; other_tables]. unfold tryWriteLoginVerifiedAudit.
    apply preserves_catch; [|intros ?; other_tables]. apply preserves_transaction, preserves_ok, Q_humanAudit.
  - apply preserves_ok, Q_consumeInvalid.
  - apply preserves_ok, Q_consumeInvalid.
  - apply preserves_ok. other_tables.
Qed.

Lemma Q_recordRecovery e m sub u r : preserves authP W (recordRecoveryFailure e m sub u r).
Proof.
  unfold recordRecoveryFailure, tryWriteFailedRecoverAudit. apply preserves_bind; [|intros ?; apply Q_recordFailed].
  destruct sub as [[[orgId|] tok]|]; [|other_tables|other_tables].
  apply preserves_catch; [apply Q_humanAudit|intros ?; other_tables].
Qed.

Lemma Q_recover e p r m : preserves authP W (recoverWithCode e p r m).
Proof.
  unfold recoverWithCode. apply preserves_bind; [other_tables|]. intros email. cbv zeta.
  destruct (negb _); [other_tables|]. apply preserves_bind; [unfold findUserWithIdentityByEmail; other_tables|].
  intros users. apply preserves_withOrg. unfold recoverInTx.
  assert (Hrefuse : forall A sub u reason, preservesOk authP W
    (_ ← recordRecoveryFailure email m sub u reason; throw (A := A) invalidRecoveryCredentials)).
  { intros. apply preserves_ok, preserves_bind; [apply Q_recordRecovery|]. intros ?. other_tables. }
  destruct (head users) as [[user tok]|]; [|apply Hrefuse].
  apply preservesOk_bind.
  { apply preserves_ok. unfold activeOrgForUser. apply preserves_bind; [other_tables|]. intros orgs.
    induction orgs as [|o orgs IH]; cbn [firstResultSequential]; [other_tables|].
    apply preserves_bind; [other_tables|]. intros [?|]; [other_tables|apply IH]. }
  intros orgId. destruct (_ || _); [apply Hrefuse|]. destruct orgId as [orgId|]; [|apply Hrefuse].
  apply preservesOk_bind; [apply preserves_ok; unfold findMatchingRecoveryCode; other_tables|].
  intros [codeId|]; [|apply Hrefuse]. apply preservesOk_bind; [apply preserves_ok; other_tables|].
  intros locked. destruct (isNull locked); [apply Hrefuse|].
  apply preservesOk_bind; [apply preserves_ok; other_tables|]. intros ?.
  apply preservesOk_bind; [apply preserves_ok; other_tables|]. intros ?.
  apply preservesOk_bind; [apply preserves_ok; unfold countUnusedRecoveryCodes; other_tables|]. intros ?.
  apply preservesOk_bind; [apply Q_create|]. intros ?. apply preserves_ok.
  apply preserves_bind; [apply Q_humanAudit|]. intros ?. apply preserves_bind; [apply Q_dispatch|]. intros ?. other_tables.
Qed.

Lemma Q_insertRecoveryCodes u l : preserves authP W (insertRecoveryCodes u l).
Proof. unfold insertRecoveryCodes, insertRecoveryCode, hashRecoveryCode. other_tables. Qed.

Lemma Q_generateCodes n k l : preserves authP W (generateRecoveryCodes n k l).
Proof.
  assert (Hraw : forall j, preserves authP W (drawRaw j)).
  { induction j as [|j IHj]; cbn [drawRaw]; [other_tables|]. apply preserves_bind; [unfold drawChar; other_tables|].
    intros ?. apply preserves_bind; [exact IHj|]. intros ?. other_tables. }
  revert l. induction n as [|n IH]; intros l; cbn [generateRecoveryCodes]; destruct (_ <? _)%nat; [other_tables|other_tables| |other_tables].
  apply preserves_bind; [apply Hraw|]. intros ?. apply IH.
Qed.

Lemma Q_enrollmentAudit a e i p m : preserves authP W (writeMfaEnrollmentAudit a e i p m).
Proof.
  unfold writeMfaEnrollmentAudit, firstActorTokenIdForUser. apply preserves_bind; [other_tables|]. intros ?. apply Q_humanAudit.
Qed.

Lemma Q_guarded {A} a m r e (k : M A) : preserves authP W k -> preserves authP W (guardedByTotp a m r e k).
Proof.
  intros Hk. unfold guardedByTotp. case_bool_decide; [done|]. apply preserves_bind; [|intros ?; other_tables].
  case_bool_decide; [other_tables|apply Q_recordFailed].
Qed.

Lemma Q_enroll s a m : preserves authP W (enrollMfa s a m).
Proof.
  unfold enrollMfa, deletePendingEnrollmentForUser. apply preserves_bind; [other_tables|]. intros [u|]; [|other_tables].
  destruct (isNotNull _); [other_tables|]. apply preserves_bind; [other_tables|]. intros ?.
  apply preserves_bind; [other_tables|]. intros ?. apply preserves_bind; [other_tables|]. intros ?.
  apply preserves_bind; [other_tables|]. intros ?. apply preserves_bind; [apply Q_enrollmentAudit|]. intros ?. other_tables.
Qed.

Lemma Q_verifyEnrollment n a t m : preserves authP W (verifyEnrollment n a t m).
Proof.
  unfold verifyEnrollment, attemptedEmailForUser, loadPendingEnrollmentForUpdate.
  apply preserves_bind; [other_tables|]. intros ?. apply preserves_bind; [other_tables|]. intros [e|]; [|other_tables].
  destruct (negb _); [other_tables|]. apply preserves_bind; [apply Q_validateTotp|]. intros r. apply Q_guarded.
  apply preserves_bind; [other_tables|]. intros ?. apply preserves_bind; [apply Q_generateCodes|]. intros [codes|]; [|other_tables].
  apply preserves_bind; [other_tables|]. intros ?. apply preserves_bind; [other_tables|]. intros ?.
  apply preserves_bind; [apply Q_insertRecoveryCodes|]. intros ?. apply preserves_bind; [apply Q_enrollmentAudit|].
  intros ?. other_tables.
Qed.

Lemma Q_regenerate n a t m : preserves authP W (regenerateRecoveryCodes n a t m).
Proof.
  unfold regenerateRecoveryCodes, attemptedEmailForUser, loadConfirmedEnrollmentForUpdate.
  apply preserves_bind; [other_tables|]. intros ?. apply preserves_bind; [other_tables|]. intros [e|]; [|other_tables].
  apply preserves_bind; [apply Q_validateTotp|]. intros r. apply Q_guarded.
  apply preserves_bind; [other_tables|]. intros ?. apply preserves_bind; [apply Q_generateCodes|]. intros [codes|]; [|other_tables].
  apply preserves_bind; [other_tables|]. intros ?. apply preserves_bind; [apply Q_insertRecoveryCodes|]. intros ?.
  apply preserves_bind; [unfold countUnusedRecoveryCodes; other_tables|]. intros ?.
  apply preserves_bind; [apply Q_enrollmentAudit|]. intros ?. apply preserves_bind; [apply Q_dispatch|]. intros ?. other_tables.
Qed.

Lemma Q_revokeTargets l o : preservesOk authP W (revokeTargetSessions l o).
Proof.
  induction l as [|x l IH]; cbn [revokeTargetSessions]; [apply preserves_ok; other_tables|].
  apply preservesOk_bind; [apply Q_revoke|]. intros ?. apply preservesOk_bind; [exact IH|]. intros ?.
  apply preserves_ok. other_tables.
Qed.

Lemma Q_revokeAll u o a r : preservesOk authP W (revokeAllUserSessionsInOrg u o a r).
Proof.
  unfold revokeAllUserSessionsInOrg, selectRevocableUserSessionsInOrg.
  apply preservesOk_bind; [apply preserves_ok; other_tables|]. intros ?. apply Q_revokeTargets.
Qed.

Lemma Q_sessionRevokedAudit o s a t sc b c : preserves authP W (writeSessionRevokedAudit o s a t sc b c).
Proof.
  unfold writeSessionRevokedAudit, currentAuditKeyVersion, firstActorTokenIdForUser, getPreviousEntryHmac.
  apply preserves_bind; [other_tables|]. intros ?. cbv zeta. apply preserves_bind; [other_tables|]. intros ?.
  apply preserves_bind; [other_tables|]. intros ?. apply preserves_bind; [other_tables|]. intros ?.
  apply preserves_bind; [other_tables|]. intros ?. apply preserves_bind; [apply auth_insertAuditRow|]. intros ?. other_tables.
Qed.

Lemma Q_revokeOthers u o j a : preservesOk authP W (revokeAllOtherSessions u o j a).
Proof.
  unfold revokeAllOtherSessions, selectRevocableUserSessionsInOrg.
  apply preservesOk_bind; [apply preserves_ok; other_tables|]. intros ?. apply preservesOk_bind; [apply Q_revokeTargets|].
  intros n. apply preserves_ok. apply preserves_bind; [|intros ?; other_tables].
  case_bool_decide; [apply Q_sessionRevokedAudit|other_tables].
Qed.

(** *** User sessions and device grants *)

Lemma Q_revokeUserInTx sid now : preservesOk authP W (revokeUserSessionInTx sid now).
Proof.
  unfold revokeUserSessionInTx, revokeLinkedCredentials. apply preservesOk_bind; [apply preserves_ok; other_tables|].
  intros ?. apply preservesOk_bind; [apply preserves_ok; other_tables|]. intros ?.
  apply preservesOk_bind; [apply preserves_ok; other_tables|]. intros ?. apply preservesOk_forEachSequential. intros link.
  apply preservesOk_bind; [apply Q_revoke|]. intros ?. apply preserves_ok. other_tables.
Qed.

Lemma Q_revokeUserById s u : preserves authP W (revokeUserSessionById s u).
Proof.
  unfold revokeUserSessionById. apply preserves_withOrg, preservesOk_bind; [apply preserves_ok; other_tables|].
  intros [row|]; [|apply preserves_ok; other_tables]. destruct (negb _); [apply preserves_ok; other_tables|].
  destruct (isNotNull _); [apply preserves_ok; other_tables|].
  apply preservesOk_bind; [apply preserves_ok; other_tables|]. intros ?.
  apply preservesOk_bind; [apply Q_revokeUserInTx|]. intros ?. apply preserves_ok. other_tables.
Qed.

Lemma Q_loadRefresh h : preserves authP W (loadRefreshRow h).
Proof. unfold loadRefreshRow. other_tables. Qed.

Lemma Q_revokeByRefresh r : preserves authP W (revokeUserSessionByRefresh r).
Proof.
  unfold revokeUserSessionByRefresh. apply preserves_withOrg, preservesOk_bind; [apply preserves_ok, Q_loadRefresh|].
  intros [[token session]|]; [|apply preserves_ok; other_tables]. destruct (isNotNull _); [apply preserves_ok; other_tables|].
  apply preservesOk_bind; [apply preserves_ok; other_tables|]. intros ?.
  apply preservesOk_bind; [apply Q_revokeUserInTx|]. intros ?. apply preserves_ok. other_tables.
Qed.

Lemma Q_refreshUser r m : preserves authP W (refreshUserSession r m).
Proof.
  unfold refreshUserSession. apply preserves_bind; [other_tables|]. intros now. apply preserves_withOrg.
  apply preservesOk_bind; [apply preserves_ok, Q_loadRefresh|]. intros [[token session]|]; [|apply preserves_ok; other_tables].
  unfold rotateUserRefresh. cbv zeta. destruct (_ || _); [apply preserves_ok; other_tables|].
  destruct (isNotNull _).
  { apply preservesOk_bind; [|intros ?; apply preserves_ok; other_tables].
    case_bool_decide; [apply Q_revokeUserInTx|apply preserves_ok; other_tables]. }
  destruct (_ || _); [apply preserves_ok; other_tables|]. destruct (idleExceeded _ _).
  { apply preservesOk_bind; [apply Q_revokeUserInTx|]. intros ?. apply preserves_ok. other_tables. }
  apply preserves_ok. unfold generateRefreshToken, generateOpaque, insertUserRefreshToken, platformOperator. other_tables.
Qed.

Lemma Q_verifyUser c : preserves authP W (verifyUserSession c).
Proof.
  unfold verifyUserSession, verifyUserSessionInTx. apply preserves_bind; [other_tables|]. intros now.
  apply preserves_withOrg, preservesOk_bind; [apply preserves_ok; other_tables|].
  intros [row|]; [|apply preserves_ok; other_tables]. destruct (_ || _); [apply preserves_ok; other_tables|].
  destruct (idleExceeded _ _).
  { apply preservesOk_bind; [apply Q_revokeUserInTx|]. intros ?. apply preserves_ok. other_tables. }
  apply preserves_ok. unfold platformOperator. other_tables.
Qed.

Lemma Q_createGrant c : preserves authP W (createDeviceGrant c).
Proof.
  assert (Hcode : preserves authP W generateUserCode).
  { unfold generateUserCode. generalize CLI_DEVICE_USER_CODE_LENGTH. intros n.
    induction n as [|n IH]; cbn [drawUserCode]; [other_tables|]. apply preserves_bind; [unfold drawUserChar; other_tables|].
    intros ?. apply preserves_bind; [exact IH|]. intros ?. other_tables. }
  unfold createDeviceGrant, generateDeviceCode, generateOpaque, insertGrant.
  apply preserves_bind; [other_tables|]. intros ?. apply preserves_bind; [other_tables|]. intros ?.
  apply preserves_bind; [exact Hcode|]. intros ?. apply preserves_catch; [other_tables|].
  intros []; other_tables.
Qed.

Lemma Q_updateGrant i f : preserves authP W (updateGrant i f).
Proof. unfold updateGrant. other_tables. Qed.

Lemma Q_decideGrant a c d t m : preserves authP W (decideDeviceGrant a c d t m).
Proof.
  unfold decideDeviceGrant, lockGrantByUserCode, platformOperator. apply preserves_bind; [other_tables|]. intros now.
  apply preserves_bind; [other_tables|]. intros [g|]; [|other_tables]. destruct (_ || _); [other_tables|].
  case_bool_decide.
  { apply preserves_bind; [apply Q_updateGrant|]. intros ?. apply preserves_bind; [apply Q_grantAudit|]. intros ?. other_tables. }
  apply preserves_bind; [other_tables|]. intros op. apply preserves_bind.
  { destruct op; [|other_tables]. unfold applyStepUp. apply preserves_bind; [apply Q_verifyTotp|].
    intros []; try solve [other_tables]; cbv zeta; (apply preserves_bind; [apply Q_updateGrant|]); intros ?; other_tables. }
  intros [r|]; [other_tables|]. apply preserves_bind; [apply Q_updateGrant|]. intros ?.
  apply preserves_bind; [apply Q_grantAudit|]. intros ?. other_tables.
Qed.

Lemma Q_pollGrant c m : preserves authP W (pollDeviceGrant c m).
Proof.
  unfold pollDeviceGrant. apply preserves_bind; [other_tables|]. intros now. cbv zeta.
  apply preserves_withOrg, preserves_ok, preserves_bind; [other_tables|]. intros [g|]; [|other_tables].
  unfold pollLockedGrant. destruct (negb _); [other_tables|]. destruct (terminalPoll _ _); [other_tables|].
  destruct (polledTooSoon _ _).
  { apply preserves_bind; [apply Q_updateGrant|]. intros ?. other_tables. }
  apply preserves_bind; [apply Q_updateGrant|]. intros ?. case_bool_decide; [other_tables|].
  apply preserves_bind; [unfold approverSessionLive; other_tables|]. intros live. destruct (negb live).
  - apply preserves_bind; [|intros ?; other_tables]. unfold markRevoked. apply preserves_bind; [apply Q_updateGrant|].
    intros ?. destruct (dg_orgId g); [|other_tables]. destruct (dg_userId g); [apply Q_grantAudit|other_tables].
  - apply preserves_bind; [|intros ?; other_tables]. unfold issueFromGrant. destruct (dg_userId g); [|other_tables].
    apply preserves_bind; [unfold issueUserSessionInTx, generateRefreshToken, generateOpaque, insertUserRefreshToken,
      platformOperator; other_tables|]. intros ?. apply preserves_bind; [apply Q_updateGrant|]. intros ?.
    apply preserves_bind; [destruct (dg_orgId g); [apply Q_grantAudit|other_tables]|]. intros ?. other_tables.
Qed.

Lemma Q_exchange u s o m : preserves authP W (exchangeOrgCredential u s o m).
Proof.
  unfold exchangeOrgCredential, isOrgMember, resolveActiveOrgRole, resolveActiveOrgRoleInTx, recordOrgCredential.
  apply preserves_bind; [other_tables|]. intros []; [|other_tables|other_tables].
  apply preserves_withOrg, preservesOk_bind; [apply preserves_ok; other_tables|].
  intros [role|]; [|apply preserves_ok; other_tables].
  apply preservesOk_bind; [apply preserves_ok; unfold firstActorTokenIdForUser; other_tables|]. intros ?.
  apply preservesOk_bind; [apply Q_create|]. intros ?. apply preserves_ok. other_tables.
Qed.

Lemma Q_prune : preserves authP W pruneRevokedTokens.
Proof. unfold pruneRevokedTokens. apply preserves_bind; [other_tables|]. intros now. by apply Q_delete. Qed.

Lemma Q_op op : preserves authP W (runAuthOp op).
Proof.
  assert (Hd : forall A (m : M A), preserves authP W m -> preserves authP W (discard m)).
  { intros A m Hm. unfold discard. apply preserves_bind; [done|]. intros ?. other_tables. }
  destruct op; cbn [runAuthOp]; apply Hd;
    first [ apply Q_login | apply Q_verifyLogin | apply Q_recover | apply Q_withCreate | apply Q_refresh
          | apply Q_authenticate | apply preserves_withOrg, Q_revoke | apply preserves_withOrg, Q_revokeAll
          | apply preserves_withOrg, Q_revokeOthers | apply preserves_withOrg, Q_org
          | apply preserves_withOrg, preserves_ok, Q_enroll | apply preserves_withOrg, preserves_ok, Q_verifyEnrollment
          | apply preserves_withOrg, preserves_ok, Q_regenerate | apply Q_createGrant
          | apply preserves_withOrg, preserves_ok, Q_decideGrant | apply Q_pollGrant | apply Q_exchange
          | apply Q_prune | apply Q_refreshUser | apply Q_verifyUser | apply Q_revokeUserById | apply Q_revokeByRefresh ].
Qed.

Lemma Q_ops ops w : holds authP W w -> holds authP W (runAuthOps ops w).
Proof.
  revert w. induction ops as [|op ops IH]; intros w HQ; [done|]. apply IH.
  exact (wp_snd _ (fun w' => holds authP W w') _ (Q_op op w HQ)).
Qed.
End reduction.
End ops.
