(* ===== verification/SessionInvariant.v ===== *)
(** * The invariant of the session tables

    Distinct identifiers and token hashes; one refresh token a session; a
    session's version counts its revocation; a refresh token that is neither
    used nor revoked belongs to a live session, and a used one to a revoked
    session.  It holds between transactions, and a transaction that writes the
    tables step by step goes through the same invariant with exceptions. *)

From S2P Require Import Prelude Js Crypto FieldSet AuthStore Store Tx QuotaGate AuditLog Notifications Frames Sessions Authenticate Mfa UserSessions Login SessionFrames.
From Stdlib Require Import Ascii String.
From stdpp Require Import strings.

Local Open Scope string_scope.
Local Open Scope list_scope.
Local Open Scope pv_scope.

Definition versionOf (s : SessionRow) : Z := if isNull (ses_revokedAt s) then 1 else 2.
Definition active_token (t : RefreshTokenRow) : Prop := rt_usedAt t = None /\ rt_revokedAt t = None.

(** [Xt]: the sessions that may have active tokens though revoked. *)
Record SessInv (Xt : Uuid -> Prop) (a : AuthDb) : Prop := {
  si_ids : NoDup (map ses_id (au_sessions a));
  si_jtis : NoDup (map (fun s => uuidText (ses_jti s)) (au_sessions a));
  si_tids : NoDup (map rt_id (au_refreshTokens a));
  si_hashes : NoDup (map rt_tokenHash (au_refreshTokens a));
  si_one : NoDup (map rt_sessionId (au_refreshTokens a));
  si_fk : forall t, t ∈ au_refreshTokens a -> rt_sessionId t ∈ map ses_id (au_sessions a);
  si_version : forall s, s ∈ au_sessions a -> ses_sessionVersion s = versionOf s;
  si_live : forall t s, t ∈ au_refreshTokens a -> s ∈ au_sessions a -> ses_id s = rt_sessionId t ->
    active_token t -> Xt (ses_id s) \/ ses_revokedAt s = None;
  si_used : forall t s, t ∈ au_refreshTokens a -> s ∈ au_sessions a -> ses_id s = rt_sessionId t ->
    rt_usedAt t <> None -> ses_revokedAt s <> None;
}.

Definition nobody : Uuid -> Prop := fun _ => False.
Definition SessionsOk : AuthDb -> Prop := SessInv nobody.

Lemma SessionsOk_empty : SessionsOk emptyAuthDb.
Proof. constructor; cbn; try apply NoDup_nil_2; intros ?; by (intros ?%not_elem_of_nil || intros ? ?%not_elem_of_nil). Qed.

Lemma SessInv_tables Xt a a' : sessionTables a = sessionTables a' -> SessInv Xt a -> SessInv Xt a'.
Proof. intros E []. injection E as E1 E2. constructor; rewrite <- ?E1, <- ?E2; done. Qed.

(** ** The writes *)

Section writes.
Context (Xt : Uuid -> Prop) (a : AuthDb) (HI : SessInv Xt a).

Lemma SessInv_addSession s :
  (forall r, r ∈ au_sessions a -> sessionConflict s r = false) ->
  ses_revokedAt s = None -> ses_sessionVersion s = 1%Z ->
  SessInv Xt (a <| au_sessions ::= fun l => (l ++ [s])%list |>) /\
  (forall t, t ∈ au_refreshTokens a -> rt_sessionId t <> ses_id s).
Proof.
  intros Hc Hr Hv. destruct HI as [Hids Hjtis Htids Hhs Hone Hfk Hver Hlive Hused].
  assert (Hid : ses_id s ∉ map ses_id (au_sessions a)).
  { intros (r & E & Hin)%elem_of_map. specialize (Hc r Hin). unfold sessionConflict in Hc. bool_simpl. congruence. }
  assert (Hjti : uuidText (ses_jti s) ∉ map (fun s => uuidText (ses_jti s)) (au_sessions a)).
  { intros (r & E & Hin)%elem_of_map. specialize (Hc r Hin). unfold sessionConflict in Hc. bool_simpl. congruence. }
  split.
  - constructor; cbn; try done.
    + rewrite map_app. apply NoDup_app. split; [done|]. split; [|apply NoDup_singleton].
      by intros x Hx ->%list_elem_of_singleton.
    + rewrite map_app. apply NoDup_app. split; [done|]. split; [|apply NoDup_singleton].
      by intros x Hx ->%list_elem_of_singleton.
    + intros t Ht. rewrite map_app. apply elem_of_app. left. by apply Hfk.
    + intros x [Hx| ->%list_elem_of_singleton]%elem_of_app; [by apply Hver|]. by rewrite Hv; unfold versionOf; rewrite Hr.
    + intros t x Ht [Hx| ->%list_elem_of_singleton]%elem_of_app E Ha; [by eapply Hlive|by right].
    + intros t x Ht [Hx| ->%list_elem_of_singleton]%elem_of_app E Hu; [by eapply Hused|].
      exfalso. apply Hid. rewrite E. by apply Hfk.
  - intros t Ht E. apply Hid. rewrite <- E. by apply Hfk.
Qed.

Lemma SessInv_addToken t s :
  (forall r, r ∈ au_refreshTokens a -> refreshTokenConflict t r = false) ->
  s ∈ au_sessions a -> rt_sessionId t = ses_id s -> rt_usedAt t = None -> ses_revokedAt s = None ->
  (forall r, r ∈ au_refreshTokens a -> rt_sessionId r <> ses_id s) ->
  SessInv Xt (a <| au_refreshTokens ::= fun l => (l ++ [t])%list |>).
Proof.
  intros Hc Hs E Hu Hr Hno. destruct HI as [Hids Hjtis Htids Hhs Hone Hfk Hver Hlive Hused].
  constructor; cbn; try done.
  - rewrite map_app. apply NoDup_app. split; [done|]. split; [|apply NoDup_singleton].
    intros x (r & -> & Hin)%elem_of_map Ex%list_elem_of_singleton. specialize (Hc r Hin).
    unfold refreshTokenConflict in Hc. bool_simpl. cbn in *. congruence.
  - rewrite map_app. apply NoDup_app. split; [done|]. split; [|apply NoDup_singleton].
    intros x (r & -> & Hin)%elem_of_map Ex%list_elem_of_singleton. specialize (Hc r Hin).
    unfold refreshTokenConflict in Hc. bool_simpl. cbn in *. congruence.
  - rewrite map_app. apply NoDup_app. split; [done|]. split; [|apply NoDup_singleton].
    intros x (r & -> & Hin)%elem_of_map Ex%list_elem_of_singleton. apply (Hno r Hin). cbn in Ex. congruence.
  - intros r [Hin| ->%list_elem_of_singleton]%elem_of_app; [by apply Hfk|]. rewrite E. apply elem_of_map. by exists s.
  - intros r x [Hin| ->%list_elem_of_singleton]%elem_of_app Hx Ex Ha; [by eapply Hlive|]. right.
    by rewrite (NoDup_key_inj ses_id (au_sessions a) x s) by (done || congruence).
  - intros r x [Hin| ->%list_elem_of_singleton]%elem_of_app Hx Ex Hr'; [by eapply Hused|done].
Qed.

(** A bulk revocation of live sessions. *)
Lemma SessInv_revoke p f :
  (forall s, s ∈ au_sessions a -> p s = true -> ses_revokedAt s = None /\ ses_id (f s) = ses_id s /\
     ses_jti (f s) = ses_jti s /\ ses_revokedAt (f s) <> None /\ ses_sessionVersion (f s) = (ses_sessionVersion s + 1)%Z) ->
  SessInv (fun i => Xt i \/ exists s, s ∈ au_sessions a /\ p s = true /\ ses_id s = i)
          (a <| au_sessions ::= map_where p f |>).
Proof.
  intros Hf. destruct HI as [Hids Hjtis Htids Hhs Hone Hfk Hver Hlive Hused].
  assert (Emap : forall B (g : SessionRow -> B), (forall s, s ∈ au_sessions a -> p s = true -> g (f s) = g s) ->
    map g (map_where p f (au_sessions a)) = map g (au_sessions a)).
  { intros B g Hg. unfold map_where. rewrite map_map. apply map_ext_in. intros x Hx%list_elem_of_In.
    destruct (p x) eqn:Ep; [by apply Hg|done]. }
  constructor; cbn; try done.
  - rewrite Emap; [done|]. intros s Hs Hp. by destruct (Hf s Hs Hp) as (_ & ? & _).
  - rewrite Emap; [done|]. intros s Hs Hp. destruct (Hf s Hs Hp) as (_ & _ & E & _). by rewrite E.
  - intros t Ht. rewrite Emap; [by apply Hfk|]. intros s Hs Hp. by destruct (Hf s Hs Hp) as (_ & ? & _).
  - intros y (s & Hs & ->)%elem_of_map_where. destruct (p s) eqn:Ep; [|by apply Hver].
    destruct (Hf s Hs Ep) as (Hn & _ & _ & Hr & ->). rewrite (Hver s Hs). unfold versionOf. rewrite Hn.
    by destruct (ses_revokedAt (f s)).
  - intros t y Ht (s & Hs & ->)%elem_of_map_where E Ha. destruct (p s) eqn:Ep.
    + destruct (Hf s Hs Ep) as (_ & -> & _). left. right. by exists s.
    + destruct (Hlive t s Ht Hs E Ha); [by left; left|by right].
  - intros t y Ht (s & Hs & ->)%elem_of_map_where E Hu. destruct (p s) eqn:Ep; [|by eapply Hused].
    by destruct (Hf s Hs Ep) as (_ & _ & _ & ? & _).
Qed.

Lemma SessInv_updateTokens q f :
  (forall t, t ∈ au_refreshTokens a -> q t = true -> rt_id (f t) = rt_id t /\ rt_tokenHash (f t) = rt_tokenHash t /\
     rt_sessionId (f t) = rt_sessionId t /\ (active_token (f t) -> active_token t) /\
     (rt_usedAt (f t) <> None -> rt_usedAt t <> None \/
        forall s, s ∈ au_sessions a -> ses_id s = rt_sessionId t -> ses_revokedAt s <> None)) ->
  SessInv Xt (a <| au_refreshTokens ::= map_where q f |>).
Proof.
  intros Hf. destruct HI as [Hids Hjtis Htids Hhs Hone Hfk Hver Hlive Hused].
  assert (Emap : forall B (g : RefreshTokenRow -> B), (forall t, t ∈ au_refreshTokens a -> q t = true -> g (f t) = g t) ->
    map g (map_where q f (au_refreshTokens a)) = map g (au_refreshTokens a)).
  { intros B g Hg. unfold map_where. rewrite map_map. apply map_ext_in. intros x Hx%list_elem_of_In.
    destruct (q x) eqn:Ep; [by apply Hg|done]. }
  constructor; cbn; try done.
  - rewrite Emap; [done|]. intros t Ht Hq. by destruct (Hf t Ht Hq) as (? & _).
  - rewrite Emap; [done|]. intros t Ht Hq. by destruct (Hf t Ht Hq) as (_ & ? & _).
  - rewrite Emap; [done|]. intros t Ht Hq. by destruct (Hf t Ht Hq) as (_ & _ & ? & _).
  - intros y (t & Ht & ->)%elem_of_map_where. destruct (q t) eqn:Eq; [|by apply Hfk].
    destruct (Hf t Ht Eq) as (_ & _ & -> & _). by apply Hfk.
  - intros y s (t & Ht & ->)%elem_of_map_where Hs E Ha. destruct (q t) eqn:Eq; [|by eapply Hlive].
    destruct (Hf t Ht Eq) as (_ & _ & Es & Hact & _). rewrite Es in E. eapply Hlive; [exact Ht|done|done|by apply Hact].
  - intros y s (t & Ht & ->)%elem_of_map_where Hs E Hu. destruct (q t) eqn:Eq; [|by eapply Hused].
    destruct (Hf t Ht Eq) as (_ & _ & Es & _ & Hu'). rewrite Es in E.
    destruct (Hu' Hu) as [?|Hr]; [by eapply (Hused t)|by apply Hr].
Qed.

Lemma SessInv_touch p f :
  (forall s, ses_id (f s) = ses_id s /\ ses_jti (f s) = ses_jti s /\ ses_revokedAt (f s) = ses_revokedAt s /\
     ses_sessionVersion (f s) = ses_sessionVersion s) ->
  SessInv Xt (a <| au_sessions ::= map_where p f |>).
Proof.
  intros Hf. destruct HI as [Hids Hjtis Htids Hhs Hone Hfk Hver Hlive Hused].
  constructor; cbn; try done.
  - rewrite map_where_proj; [done|]. intros s. apply Hf.
  - rewrite map_where_proj; [done|]. intros s. destruct (Hf s) as (_ & E & _). by rewrite E.
  - intros t Ht. rewrite map_where_proj; [by apply Hfk|]. intros s. apply Hf.
  - intros y (s & Hs & ->)%elem_of_map_where. destruct (p s); [|by apply Hver].
    destruct (Hf s) as (_ & _ & E & ->). unfold versionOf. rewrite E. by apply Hver.
  - intros t y Ht (s & Hs & ->)%elem_of_map_where E Ha. destruct (p s); [|by eapply Hlive].
    destruct (Hf s) as (Ei & _ & -> & _). rewrite Ei in *. by eapply Hlive.
  - intros t y Ht (s & Hs & ->)%elem_of_map_where E Hu. destruct (p s); [|by eapply Hused].
    destruct (Hf s) as (Ei & _ & -> & _). rewrite Ei in *. by eapply Hused.
Qed.

(** The exceptions are dealt with. *)
Lemma SessInv_close Xt' :
  (forall t s, t ∈ au_refreshTokens a -> s ∈ au_sessions a -> ses_id s = rt_sessionId t -> active_token t ->
     Xt (ses_id s) -> Xt' (ses_id s)) -> SessInv Xt' a.
Proof.
  intros Ht. destruct HI as [Hids Hjtis Htids Hhs Hone Hfk Hver Hlive Hused]. constructor; try done.
  intros t s Hin Hs E Ha. destruct (Hlive t s Hin Hs E Ha); [left; by eapply Ht|by right].
Qed.
End writes.

(** ** The functions *)

(** What an entry in the list of revoked tokens changes. *)
Lemma insertRevokedToken_spec r w :
  wp (insertRevokedToken r) (fun o w' => o = Ok tt /\
    ((w' = w /\ rvt_jti r ∈ map rvt_jti (db_revokedTokens (w_db w))) \/
     w' = w <| w_db ::= fun db => db <| db_revokedTokens ::= fun l => (l ++ [r])%list |> |>)) w.
Proof.
  unfold insertRevokedToken, wp, catch, mbind, M_bind, insertRow. destruct (existsb _ _) eqn:E.
  - split; [done|]. left. split; [done|]. apply existsb_exists in E as (x & Hx & Hc). unfold revokedTokenConflict in Hc.
    bool_simpl. apply elem_of_map. exists x. by rewrite list_elem_of_In.
  - split; [done|]. by right.
Qed.

Section functions.
Context `{Locale, Platform, NodeCrypto, Env, Unicode, OtpValidate, Passwords, JwtLibrary}.

(** Nothing else of a revocation writes these tables. *)
Section frame.
Context (Q : AuthDb -> Prop) (W : (Db -> Db) -> Prop) (Q_tables : forall a a', sessionTables a = sessionTables a' -> Q a -> Q a').
Notation authP := (fun db => Q (db_auth db)).

Lemma deletePending_frame u : preserves authP W (deletePendingEnrollmentForUser u).
Proof. apply (Q_delete Q W Q_tables). by intros. Qed.
Lemma evict_frame s : preserves authP W (evictSessionActivityDebounce s).
Proof. by intros w. Qed.
Lemma insertRevoked_frame r : preserves authP W (insertRevokedToken r).
Proof.
  apply (Q_frame Q W Q_tables). intros w. eapply wp_mono; [apply insertRevokedToken_spec|].
  by intros o w' [_ [[-> _]| ->]].
Qed.
Lemma maybeAudit_frame s o : preserves authP W (maybeWriteSessionRevokedAudit s o).
Proof.
  unfold maybeWriteSessionRevokedAudit. destruct (negb _); [preserve|]. apply Q_sessionRevokedAudit.
Qed.
Lemma deviceGrants_frame ids now : preserves authP W (revokeDeviceGrantsForSessions ids now).
Proof.
  unfold revokeDeviceGrantsForSessions. destruct ids as [|i ids]; [preserve|].
  apply preserves_bind; [apply (Q_update Q W Q_tables); by intros|]. intros rows. apply preserves_forEachSequential.
  intros g. destruct (dg_orgId g); [|preserve]. destruct (dg_userId g); [by apply Q_grantAudit|preserve].
Qed.
End frame.

Notation Ok_ := (fun db => SessionsOk (db_auth db)).
(** What other sessions commit keeps the invariant. *)
Notation Wt := (fun onWait : Db -> Db => forall db, SessionsOk (db_auth db) -> SessionsOk (db_auth (onWait db))).

Lemma Ok_tables a a' : sessionTables a = sessionTables a' -> SessionsOk a -> SessionsOk a'.
Proof. apply SessInv_tables. Qed.

(** [revokeSessionById], when it finds a live session of the caller. *)
Lemma revoke_ok sid opts : preservesOk Ok_ Wt (revokeSessionById sid opts).
Proof.
  intros w HW. pose proof (proj1 HW) as HI. unfold revokeSessionById. apply wp_bind_first, wp_bind_first.
  destruct (head (List.filter (fun s => ses_id s =? sid) _)) as [session|] eqn:Es; [|exact HW].
  apply head_elem_of, elem_of_lfilter in Es as [Eid Hs]. bool_simpl. subst sid.
  destruct (isNotNull _) eqn:Er; [exact HW|]. destruct (sessionDoesNotMatchOptions _ _); [exact HW|].
  bool_simpl. apply wp_newDate, wp_bind_update, wp_bind_update. cbv zeta.
  set (now := clock _). set (p := fun s : SessionRow => ses_id s =? ses_id session).
  set (f := fun s : SessionRow => s <| ses_revokedAt := Some now |>
    <| ses_sessionVersion := (ses_sessionVersion session + 1)%Z |> <| ses_updatedAt := now |>).
  set (q := fun t : RefreshTokenRow => (rt_sessionId t =? ses_id session) && isNull (rt_revokedAt t)).
  set (g := fun t : RefreshTokenRow => t <| rt_revokedAt := Some now |>).
  assert (Hp : forall s, s ∈ db_sessions (w_db w) -> p s = true -> s = session).
  { intros s Hin Hps. unfold p in Hps. bool_simpl. by apply (NoDup_key_inj ses_id (au_sessions (db_auth (w_db w)))); [apply HI|..]. }
  opose proof* (SessInv_revoke _ _ HI p f) as HA.
  { intros s Hin Hps. by rewrite (Hp s Hin Hps). }
  opose proof* (SessInv_updateTokens _ _ HA q g) as HB.
  { intros t Ht _. do 3 (split; [done|]). split; [by intros [_ [=]]|by left]. }
  match type of HB with SessInv _ ?a => assert (HC : SessionsOk a) end.
  { eapply SessInv_close; [exact HB|].
    intros y s (t & Ht & ->)%elem_of_map_where Hin Es Hact [[]|(s' & Hs' & Hps & Ei)].
    rewrite (Hp s' Hs' Hps) in Ei. destruct (q t) eqn:Eq; [by destruct Hact as [_ [=]]|]. unfold q in Eq.
    rewrite <- Es, <- Ei in Eq. rewrite bool_decide_eq_true_2 in Eq by done. destruct Hact as [_ Hn]. by rewrite Hn in Eq. }
  apply (preserves_ok Ok_ Wt); [|eapply holds_db; [exact HW|exact HC|done]].
  apply preserves_bind; [apply insertRevoked_frame, Ok_tables|]. intros ?.
  apply preserves_bind; [apply deletePending_frame, Ok_tables|]. intros ?.
  apply preserves_bind; [apply evict_frame|]. intros ?.
  apply preserves_bind; [apply maybeAudit_frame|]. intros ?.
  apply preserves_bind; [preserve|]. intros ?. apply preserves_bind; [apply deviceGrants_frame, Ok_tables|].
  intros ?. preserve.
Qed.

Lemma touch_ok sid now : preserves Ok_ Wt (updateWhere db_sessions (fun s => ses_id s =? sid)
  (fun s => s <| ses_lastActiveAt := now |> <| ses_updatedAt := now |>)).
Proof.
  apply (preserves_updateWhere Ok_ Wt). intros db HI.
  exact (SessInv_touch _ _ HI (fun s => ses_id s =? sid) (fun s => s <| ses_lastActiveAt := now |>
    <| ses_updatedAt := now |>) (fun s => conj eq_refl (conj eq_refl (conj eq_refl eq_refl)))).
Qed.

Lemma wp_bind_ok {A B} P W (m : M A) (k : A -> M B) w :
  preserves P W m -> holds P W w -> (forall a w', holds P W w' -> wp (k a) (okPost P W) w') -> wp (m ≫= k) (okPost P W) w.
Proof.
  intros Hm HW Hk. apply wp_bind. eapply wp_mono; [by apply Hm|]. intros [a|e] w' HW'; [by apply Hk|exact (proj2 HW')].
Qed.

Lemma wp_bind_post {A B} P W (m : M A) (k : A -> M B) w :
  wp m (okPost P W) w -> (forall a w', holds P W w' -> wp (k a) (okPost P W) w') -> wp (m ≫= k) (okPost P W) w.
Proof. intros Hm Hk. apply wp_bind. eapply wp_mono; [exact Hm|]. intros [a|e] w' HW'; [by apply Hk|exact HW']. Qed.

Lemma insertSession_ok {A} userId orgId jti v exp la meta (k : SessionRow -> M A) w :
  holds Ok_ Wt w -> v = 1%Z ->
  (forall s w', holds Ok_ Wt w' -> s ∈ db_sessions (w_db w') -> ses_revokedAt s = None -> ses_sessionVersion s = 1%Z ->
     (forall t, t ∈ db_refreshTokens (w_db w') -> rt_sessionId t <> ses_id s) ->
     db_refreshTokens (w_db w') = db_refreshTokens (w_db w) ->
     db_sessions (w_db w') = (db_sessions (w_db w) ++ [s])%list -> w_tick w' = S (w_tick w) -> ses_id s = randomUuid (w_tick w) ->
     (forall r, r ∈ db_sessions (w_db w) -> sessionConflict s r = false) ->
     wp (k s) (okPost Ok_ Wt) w') ->
  wp (insertSession userId orgId jti v exp la meta ≫= k) (okPost Ok_ Wt) w.
Proof.
  intros HW -> Hk. unfold insertSession, genRandomUuid, dbNow.
  change (wp (insertRow db_sessions sessionConflict
    (MkSessionRow (randomUuid (w_tick w)) userId orgId jti 1 exp None (w_now w) (default (w_now w) la)
       (rm_ipAddress meta) (rm_userAgent meta) (w_now w)) ≫= k) (okPost Ok_ Wt) (w <| w_tick ::= S |>)).
  apply wp_bind_insert; [exact (proj2 HW)|]. intros Hc.
  match goal with |- wp (k ?r) _ _ => opose proof* (SessInv_addSession _ _ (proj1 HW) r) as [HA HB]; [exact Hc|done|done|] end.
  apply Hk; try done.
  - eapply holds_db; [exact HW|exact HA|done].
  - apply elem_of_app. right. by left.
Qed.

Lemma insertRefreshToken_ok s orgId hash exp w :
  holds Ok_ Wt w -> s ∈ db_sessions (w_db w) -> ses_revokedAt s = None ->
  (forall t, t ∈ db_refreshTokens (w_db w) -> rt_sessionId t <> ses_id s) ->
  wp (insertRefreshToken (ses_id s) orgId hash exp) (okPost Ok_ Wt) w.
Proof.
  intros HW Hs Hr Hno. unfold insertRefreshToken, genRandomUuid, wp, mbind, M_bind, insertRow.
  destruct (existsb _ _) eqn:E; [exact (proj2 HW)|]. eapply holds_db; [exact HW| |done].
  apply (SessInv_addToken _ _ (proj1 HW) _ s); try done. intros r Hin.
  destruct (refreshTokenConflict _ r) eqn:Ec; [|done]. exfalso. eapply not_true_iff_false; [exact E|].
  apply existsb_exists. exists r. by rewrite <- list_elem_of_In.
Qed.

Lemma lock_ok orgId : preserves Ok_ Wt (acquireOrgLock orgId).
Proof.
  intros w HW. unfold acquireOrgLock, wp. destruct ((orgId, orgId) ∈? w_locks w); [|exact HW].
  split; [exact (proj2 HW _ (proj1 HW))|exact (proj2 HW)].
Qed.

Lemma enforce_ok u o : preservesOk Ok_ Wt (enforceMaxSessionsForUser u o).
Proof.
  unfold enforceMaxSessionsForUser, revokeSecurity. case_bool_decide; [apply preserves_ok; preserve|].
  apply preservesOk_bind; [apply preserves_ok; preserve|]. intros now.
  apply preservesOk_bind; [apply preserves_ok, preserves_readOnly; intros w; by apply sameDb_refl|]. intros rows. cbv zeta.
  case_bool_decide; [apply preserves_ok; preserve|]. apply preservesOk_forEachSequential. intros sid.
  apply preservesOk_bind; [apply revoke_ok|]. intros ?. apply preserves_ok. preserve.
Qed.

Lemma create_ok u t o m opt : preservesOk Ok_ Wt (createLoginSessionInTx u t o m opt).
Proof.
  unfold createLoginSessionInTx. apply preservesOk_bind; [apply preserves_ok, lock_ok|]. intros ?.
  apply preservesOk_bind; [apply enforce_ok|]. intros ?.
  apply preservesOk_bind; [apply preserves_ok; preserve|]. intros jti.
  apply preservesOk_bind; [apply preserves_ok; preserve|]. intros now. cbv zeta.
  apply preservesOk_bind; [apply preserves_ok; unfold buildTokenMaterial, generateRefreshToken, generateOpaque;
    apply preserves_bind; [by intros w|intros ?; preserve]|].
  intros [tokens opaque] w HW. apply insertSession_ok; [done|done|].
  intros s w1 HW1 Hs Hr _ Hno _ _ _ _ _. destruct (ls_issueRefresh opt).
  - apply wp_bind_post.
    + apply wp_newDate, wp_bind_post; [by apply insertRefreshToken_ok|]. intros ? w2 HW2. by apply wp_ret.
    + intros ? w2 HW2. apply (preserves_ok Ok_ Wt); [|exact HW2].
      apply preserves_bind; [apply (Q_insertAuditEntry SessionsOk Wt)|]. intros ?. preserve.
  - apply (preserves_ok Ok_ Wt); [|exact HW1]. apply preserves_bind; [preserve|]. intros ?.
    apply preserves_bind; [apply (Q_insertAuditEntry SessionsOk Wt)|]. intros ?. preserve.
Qed.

Lemma wp_bind_insertRefresh {A} sid orgId hash exp (k : RefreshTokenRow -> M A) (Q : Outcome A -> World -> Prop) w :
  Q (Throw UniqueViolation) (w <| w_tick ::= S |>) ->
  (forall t, rt_sessionId t = sid -> rt_usedAt t = None ->
     (forall r, r ∈ db_refreshTokens (w_db w) -> refreshTokenConflict t r = false) ->
     wp (k t) Q (w <| w_tick ::= S |> <| w_db ::= fun db => db <| db_refreshTokens ::= fun l => (l ++ [t])%list |> |>)) ->
  wp (insertRefreshToken sid orgId hash exp ≫= k) Q w.
Proof.
  intros Hq Hk. unfold insertRefreshToken, genRandomUuid.
  change (wp (insertRow db_refreshTokens refreshTokenConflict
    (MkRefreshTokenRow (randomUuid (w_tick w)) sid orgId hash exp None None None) ≫= k) Q (w <| w_tick ::= S |>)).
  apply wp_bind_insert; [exact Hq|]. intros Hc. by apply Hk.
Qed.

(** The tables after the rotation's writes. *)
Lemma rotation_writes (a : AuthDb) token session s t now :
  SessionsOk a -> token ∈ au_refreshTokens a -> session ∈ au_sessions a -> rt_sessionId token = ses_id session ->
  ses_revokedAt session = None -> s ∈ au_sessions a -> ses_revokedAt s = None ->
  (forall r, r ∈ au_refreshTokens a -> rt_sessionId r <> ses_id s) -> rt_sessionId t = ses_id s -> rt_usedAt t = None ->
  let p := fun x : SessionRow => ses_id x =? rt_sessionId token in
  let f := fun x : SessionRow => x <| ses_revokedAt := Some now |>
    <| ses_sessionVersion := (ses_sessionVersion session + 1)%Z |> <| ses_updatedAt := now |> in
  let q := fun x : RefreshTokenRow => (rt_sessionId x =? rt_sessionId token) && isNull (rt_revokedAt x)
                                      && negb (rt_id x =? rt_id token) in
  let g := fun x : RefreshTokenRow => x <| rt_revokedAt := Some now |> in
  let q' := fun x : RefreshTokenRow => rt_id x =? rt_id token in
  let g' := fun x : RefreshTokenRow => x <| rt_usedAt := Some now |> <| rt_newSessionId := Some (ses_id s) |> in
  let a' := a <| au_sessions ::= map_where p f |> <| au_refreshTokens ::= map_where q g |>
              <| au_refreshTokens ::= map_where q' g' |> in
  (forall r, r ∈ au_refreshTokens a' -> refreshTokenConflict t r = false) ->
  SessionsOk (a' <| au_refreshTokens ::= fun l => (l ++ [t])%list |>).
Proof.
  intros HI Ht Hs E Hr Hs' Hr' Hno Et Eu p f q g q' g' a' Hfresh.
  assert (Hp : forall x, x ∈ au_sessions a -> p x = true -> x = session).
  { intros x Hin Hpx. unfold p in Hpx. bool_simpl. apply (NoDup_key_inj ses_id (au_sessions a)); [apply HI|done|done|congruence]. }
  opose proof* (SessInv_revoke _ _ HI p f) as HA.
  { intros x Hin Hpx. by rewrite (Hp x Hin Hpx). }
  opose proof* (SessInv_updateTokens _ _ HA q g) as HB.
  { intros x Hin _. do 3 (split; [done|]). split; [by intros [_ [=]]|by left]. }
  opose proof* (SessInv_updateTokens _ _ HB q' g') as HC.
  { intros x Hin Hqx. do 3 (split; [done|]). split; [by intros [[=] _]|]. intros _. right.
    intros y (z & Hz & ->)%elem_of_map_where Ey. destruct (p z) eqn:Ez; [done|]. exfalso.
    apply elem_of_map_where in Hin as (x' & Hx' & ->).
    assert (Eid : rt_id (if q x' then g x' else x') = rt_id x' /\ rt_sessionId (if q x' then g x' else x') = rt_sessionId x')
      by by destruct (q x').
    destruct Eid as [Eid Es]. unfold q' in Hqx. rewrite Eid in Hqx. rewrite Es in Ey. bool_simpl.
    assert (x' = token) as -> by (by apply (NoDup_key_inj rt_id (au_refreshTokens a)); [apply HI|..]).
    unfold p in Ez. bool_simpl. congruence. }
  assert (HD : SessionsOk a').
  { eapply SessInv_close; [exact HC|].
    intros y x (y' & (t' & Hin' & ->)%elem_of_map_where & ->)%elem_of_map_where Hx Ex Hact [[]|(z & Hz & Hpz & Ez)].
    rewrite (Hp z Hz Hpz) in Ez.
    assert (Eid : rt_id (if q t' then g t' else t') = rt_id t') by by destruct (q t').
    destruct (q' _) eqn:Eq'; [by destruct Hact as [[=] _]|]. unfold q' in Eq'. rewrite Eid in Eq'.
    destruct (q t') eqn:Eq; [by destruct Hact as [_ [=]]|]. unfold q in Eq.
    rewrite <- Ex, <- Ez, E in Eq. rewrite bool_decide_eq_true_2 in Eq by done.
    destruct Hact as [_ Hn]. rewrite Hn in Eq. by rewrite Eq' in Eq. }
  assert (Hne : p s = false).
  { unfold p. apply bool_decide_eq_false. intros Es. apply (Hno token Ht). by symmetry. }
  apply (SessInv_addToken _ _ HD t s); [done| |done|done|done|].
  - apply elem_of_map_where. exists s. by rewrite Hne.
  - intros y (y' & (t' & Hin' & ->)%elem_of_map_where & ->)%elem_of_map_where.
    specialize (Hno t' Hin'). by destruct (q t'), (q' _).
Qed.

Lemma wp_buildTokenMaterial {A} u o j ttl (k : TokenMaterial * string -> M A) (Q : Outcome A -> World -> Prop) w :
  wp (k (MkTokenMaterial (MkAccessClaims u o j 1) ttl (Some (randomOpaque (w_tick w))) REFRESH_MAX_AGE_SECONDS,
         randomOpaque (w_tick w))) Q (w <| w_tick ::= S |>) ->
  wp (buildTokenMaterial u o j ttl ≫= k) Q w.
Proof. done. Qed.

Lemma rotate_ok row m x w :
  row.1 ∈ db_refreshTokens (w_db w) -> row.2 ∈ db_sessions (w_db w) -> rt_sessionId row.1 = ses_id row.2 ->
  ses_revokedAt row.2 = None -> holds Ok_ Wt w -> wp (rotateRefreshToken row m x) (okPost Ok_ Wt) w.
Proof.
  destruct row as [token session]. cbn [fst snd]. intros Ht Hs E Hr HW. unfold rotateRefreshToken.
  assert (Hv : ses_sessionVersion session = 1%Z).
  { rewrite (si_version _ _ (proj1 HW) session Hs). unfold versionOf. by rewrite Hr. }
  apply wp_genRandomUuid, wp_newDate. cbv zeta. apply wp_buildTokenMaterial. cbv beta iota. apply wp_newDate.
  apply insertSession_ok; [exact HW|exact Hv|]. intros s w1 HW1 Hin Hr1 _ Hno Etok Eses _ _ _.
  assert (Ht1 : token ∈ db_refreshTokens (w_db w1)) by (rewrite Etok; exact Ht).
  assert (Hs1 : session ∈ db_sessions (w_db w1)) by (rewrite Eses; apply elem_of_app; left; exact Hs).
  do 3 apply wp_bind_update. apply wp_newDate. apply wp_bind_insertRefresh; [exact (proj2 HW1)|].
  intros t Et Eu Hfresh. opose proof* (rotation_writes _ token session s t) as HA;
    [exact (proj1 HW1)|exact Ht1|exact Hs1|exact E|exact Hr|exact Hin|exact Hr1|exact Hno|exact Et|exact Eu|exact Hfresh|].
  apply (preserves_ok Ok_ Wt); [|eapply holds_db; [exact HW1|exact HA|done]].
  apply preserves_bind; [apply insertRevoked_frame, Ok_tables|]. intros ?.
  apply preserves_bind; [apply evict_frame|]. intros ?. preserve.
Qed.

(** [rows]: the sessions a bulk revocation has just revoked, [X] their identifiers. *)
Lemma bulkRevoke_ok X rows now w :
  SessInv X (db_auth (w_db w)) -> (forall s, s ∈ db_sessions (w_db w) -> X (ses_id s) -> s ∈ rows) ->
  Wt (w_onWait w) -> wp (bulkRevoke rows now) (okPost Ok_ Wt) w.
Proof.
  intros HA HX HW. unfold bulkRevoke. cbv zeta. case_bool_decide as Hlen.
  - apply wp_bind_update.
    match goal with |- wp (_ ≫= _) _ (w <| w_db ::= fun db => db <| db_refreshTokens ::= map_where ?q ?g |> |>) =>
      opose proof* (SessInv_updateTokens _ _ HA q g) as HB;
        [intros t Ht _; do 3 (split; [done|]); split; [by intros [_ [=]]|by left]|] end.
    match type of HB with SessInv _ ?a => assert (HC : SessionsOk a) end.
    { eapply SessInv_close; [exact HB|]. intros y s (t & Ht & ->)%elem_of_map_where Hs E Hact Hx.
      destruct (_ && _) eqn:Eq; [by destruct Hact as [_ [=]]|]. destruct Hact as [_ Hn]. rewrite Hn in Eq.
      rewrite andb_true_r in Eq. bool_simpl. apply Eq. apply elem_of_map. exists s. split; [done|]. by apply HX. }
    apply (preserves_ok Ok_ Wt); [|by split].
    apply preserves_bind; [apply preserves_forEachSequential; intros ?; apply insertRevoked_frame, Ok_tables|]. intros ?.
    apply preserves_bind; [apply preserves_forEachSequential; intros ?; apply evict_frame|]. intros ?.
    apply preserves_forEachSequential. intros ?. apply deletePending_frame, Ok_tables.
  - apply wp_ret. split; [|exact HW].
    assert (Hnil : rows = []) by (destruct rows; [done|]; cbn in Hlen; lia). rewrite Hnil in HX.
    eapply SessInv_close; [exact HA|]. intros. exfalso. by eapply not_elem_of_nil, HX.
Qed.

Lemma org_ok o r : preservesOk Ok_ Wt (revokeAllSessionsForOrg o r).
Proof.
  unfold revokeAllSessionsForOrg. apply preservesOk_bind; [apply preserves_ok, lock_ok|]. intros _ w HW.
  apply wp_newDate, wp_bind_update. set (now := clock _).
  set (p := fun s : SessionRow => (ses_orgId s =? o) && isNull (ses_revokedAt s)).
  set (f := fun s : SessionRow => s <| ses_revokedAt := Some now |> <| ses_sessionVersion ::= Z.succ |> <| ses_updatedAt := now |>).
  opose proof* (SessInv_revoke _ _ (proj1 HW) p f) as HA.
  { intros s Hin Hp. unfold p in Hp. bool_simpl. unfold f. cbn. by rewrite <- Z.add_1_r. }
  set (X := fun i => nobody i \/ exists s, s ∈ au_sessions (db_auth (w_db w)) /\ p s = true /\ ses_id s = i) in HA.
  set (S1 := map_where p f (au_sessions (db_auth (w_db w)))).
  change (db_sessions (w_db (w <| w_tick ::= S |>))) with (db_sessions (w_db w)).
  set (rows := map f (List.filter p (db_sessions (w_db w)))).
  assert (HX : forall s, s ∈ S1 -> X (ses_id s) -> s ∈ rows).
  { intros y (s & Hs & ->)%elem_of_map_where [[]|(s' & Hs' & Hp & Ei)].
    assert (s = s') as ->.
    { apply (NoDup_key_inj ses_id (au_sessions (db_auth (w_db w)))); [apply (proj1 HW)|done|done|]. by destruct (p s). }
    rewrite Hp. unfold rows. apply elem_of_map. exists s'. split; [done|]. by apply elem_of_lfilter. }
  set (Q1 := fun a => SessInv X a /\ au_sessions a = S1).
  assert (Q1_tables : forall a a', sessionTables a = sessionTables a' -> Q1 a -> Q1 a').
  { intros a a' Ea [HI Es]. split; [by apply (SessInv_tables _ a)|]. by injection Ea as <- _. }
  apply wp_bind. eapply wp_mono.
  { apply (deviceGrants_frame Q1 Wt Q1_tables). split; [split; [exact HA|done]|exact (proj2 HW)]. }
  intros [u|e] w1 [[HB Es1] HW1]; [|exact HW1]. apply wp_bind_post.
  - apply (bulkRevoke_ok X); [done| |done]. intros s Hs. apply HX. rewrite <- Es1. exact Hs.
  - intros _ w2 HW2. apply (preserves_ok Ok_ Wt); [|exact HW2]. unfold revokeOrgApiKeys. apply preserves_bind.
    { apply preserves_bind; [by apply (Q_update SessionsOk Wt Ok_tables)|]. intros ?. preserve. }
    intros ?. apply preserves_bind; [apply (auth_writeSystem SessionsOk Wt)|]. intros ?. preserve.
Qed.

(** The invariant, over any sequence of requests. *)
Lemma runAuthOps_ok ops w : holds Ok_ Wt w -> holds Ok_ Wt (runAuthOps ops w).
Proof.
  apply (Q_ops SessionsOk Wt Ok_tables revoke_ok create_ok).
  - intros [token session] m x w'. apply rotate_ok.
  - apply org_ok.
  - apply touch_ok.
Qed.
End functions.
