(* ===== verification/SessionTheorems.v ===== *)
(** * The sessions of an organisation: what holds of every sequence of requests

    The invariant of the tables; a revoked session authenticates nothing again;
    a refresh token gives at most one new refresh token; a login keeps the
    number of active sessions within the limit. *)

From S2P Require Import Prelude Js Crypto FieldSet AuthStore Store Tx QuotaGate AuditLog Notifications Frames Sessions Authenticate Mfa UserSessions Login SessionFrames SessionInvariant.
From Stdlib Require Import Ascii String.
From stdpp Require Import strings.

Local Open Scope string_scope.
Local Open Scope list_scope.
Local Open Scope pv_scope.

(** ** What never goes away *)

Definition revokedSession (j : Uuid) (a : AuthDb) : Prop :=
  exists s, s ∈ au_sessions a /\ ses_jti s = j /\ ses_revokedAt s <> None.
Definition hashUsed (h : string) (a : AuthDb) : Prop :=
  exists t, t ∈ au_refreshTokens a /\ rt_tokenHash t = h /\ rt_usedAt t <> None.

Record grows (a a' : AuthDb) : Prop := {
  gr_revoked : forall j, revokedSession j a -> revokedSession j a';
  gr_hashes : forall h, hashUsed h a -> hashUsed h a';
}.

Lemma grows_refl a : grows a a.
Proof. done. Qed.
Lemma grows_trans a b c : grows a b -> grows b c -> grows a c.
Proof. intros [] []. constructor; auto. Qed.
Lemma grows_tables a b c : sessionTables b = sessionTables c -> grows a b -> grows a c.
Proof.
  intros E [Hj Hh]. injection E as E1 E2. unfold revokedSession, hashUsed in *.
  constructor; unfold revokedSession, hashUsed; by rewrite <- ?E1, <- ?E2.
Qed.
Lemma grows_updateTokens a0 a q f :
  (forall t, rt_tokenHash (f t) = rt_tokenHash t /\ (rt_usedAt t <> None -> rt_usedAt (f t) <> None)) ->
  grows a0 a -> grows a0 (a <| au_refreshTokens ::= map_where q f |>).
Proof.
  intros Hf [Hj Hh]. constructor; [done|]. intros h Hu. destruct (Hh h Hu) as (t & Ht & Eh & Hn).
  exists (if q t then f t else t). split; [apply elem_of_map_where; by exists t|]. destruct (q t); [|done].
  destruct (Hf t) as [-> Hu']. auto.
Qed.
Lemma grows_updateSessions a0 a p f :
  (forall s, ses_jti (f s) = ses_jti s /\ (ses_revokedAt s <> None -> ses_revokedAt (f s) <> None)) ->
  grows a0 a -> grows a0 (a <| au_sessions ::= map_where p f |>).
Proof.
  intros Hf [Hj Hh]. constructor; [|done]. intros j Hr. destruct (Hj j Hr) as (s & Hs & Es & Hn).
  exists (if p s then f s else s). split; [apply elem_of_map_where; by exists s|]. destruct (p s); [|done].
  destruct (Hf s) as [-> Hr']. auto.
Qed.
Lemma grows_addToken a0 a t : grows a0 a -> grows a0 (a <| au_refreshTokens ::= fun l => (l ++ [t])%list |>).
Proof.
  intros [Hj Hh]. constructor; [done|]. intros h Hu. destruct (Hh h Hu) as (x & Hx & ?). exists x.
  split; [|done]. apply elem_of_app. by left.
Qed.
Lemma grows_addSession a0 a s : grows a0 a -> grows a0 (a <| au_sessions ::= fun l => (l ++ [s])%list |>).
Proof.
  intros [Hj Hh]. constructor; [|done]. intros j Hr. destruct (Hj j Hr) as (x & Hx & ?). exists x.
  split; [|done]. apply elem_of_app. by left.
Qed.

Section theorems.
Context `{Locale, Platform, NodeCrypto, Env, Unicode, OtpValidate, Passwords, JwtLibrary}.

Section growing.
Context (a0 : AuthDb) (W : (Db -> Db) -> Prop)
        (W_grows : forall f, W f -> forall db, grows a0 (db_auth db) -> grows a0 (db_auth (f db))).
Notation Gr := (fun db => grows a0 (db_auth db)).

Lemma grow_tokens q f :
  (forall t, rt_tokenHash (f t) = rt_tokenHash t /\ (rt_usedAt t <> None -> rt_usedAt (f t) <> None)) ->
  preserves Gr W (updateWhere db_refreshTokens q f).
Proof. intros Hf. apply preserves_updateWhere. intros db. by apply (grows_updateTokens a0 (db_auth db) q f). Qed.
Lemma grow_sessions p f :
  (forall s, ses_jti (f s) = ses_jti s /\ (ses_revokedAt s <> None -> ses_revokedAt (f s) <> None)) ->
  preserves Gr W (updateWhere db_sessions p f).
Proof. intros Hf. apply preserves_updateWhere. intros db. by apply (grows_updateSessions a0 (db_auth db) p f). Qed.
Lemma grow_insertSession c r : preserves Gr W (insertRow db_sessions c r).
Proof. apply preserves_insertRow. intros db HG _. by apply (grows_addSession a0 (db_auth db)). Qed.
Lemma grow_insertToken c r : preserves Gr W (insertRow db_refreshTokens c r).
Proof. apply preserves_insertRow. intros db HG _. by apply (grows_addToken a0 (db_auth db)). Qed.
Ltac grow :=
  repeat first
    [ apply grow_sessions; by intros | apply grow_insertSession | apply grow_insertToken
    | apply grow_tokens; by intros | apply insertRevoked_frame, grows_tables
    | apply evict_frame | apply deletePending_frame, grows_tables
    | apply preserves_bind; [|intros ?]
    | progress preserve ].

Lemma grow_revoke s o : preserves Gr W (revokeSessionById s o).
Proof.
  unfold revokeSessionById. apply preserves_bind; [preserve|]. intros t. apply preserves_bind; [preserve|].
  intros [session|]; [|preserve]. destruct (isNotNull _); [preserve|]. destruct (sessionDoesNotMatchOptions _ _); [preserve|].
  apply preserves_bind; [preserve|]. intros now. apply preserves_bind; [grow|]. intros ?.
  apply preserves_bind; [grow|]. intros ?. apply preserves_bind; [grow|]. intros ?.
  apply preserves_bind; [grow|]. intros ?. apply preserves_bind; [grow|]. intros ?.
  apply preserves_bind; [apply maybeAudit_frame|]. intros ?. apply preserves_bind; [preserve|]. intros ?.
  apply preserves_bind; [apply deviceGrants_frame, grows_tables|]. intros ?. preserve.
Qed.

Lemma grow_lock o : preserves Gr W (acquireOrgLock o).
Proof.
  intros w HW. unfold acquireOrgLock, wp. destruct ((o, o) ∈? w_locks w); [|exact HW].
  split; [exact (W_grows _ (proj2 HW) _ (proj1 HW))|exact (proj2 HW)].
Qed.

Lemma grow_create u t o m opt : preserves Gr W (createLoginSessionInTx u t o m opt).
Proof.
  unfold createLoginSessionInTx. apply preserves_bind; [apply grow_lock|]. intros ?. apply preserves_bind.
  { unfold enforceMaxSessionsForUser, revokeSecurity. case_bool_decide; [preserve|].
    apply preserves_bind; [preserve|]. intros ?. apply preserves_bind; [by apply preserves_readOnly; intros w; apply sameDb_refl|].
    intros rows. cbv zeta. case_bool_decide; [preserve|]. apply preserves_forEachSequential. intros ?.
    apply preserves_bind; [apply grow_revoke|]. intros ?. preserve. }
  intros ?. apply preserves_bind; [preserve|]. intros ?. apply preserves_bind; [preserve|]. intros ?. cbv zeta.
  apply preserves_bind; [unfold buildTokenMaterial, generateRefreshToken, generateOpaque;
    apply preserves_bind; [by intros w|intros ?; preserve]|]. intros [tokens opaque].
  apply preserves_bind; [unfold insertSession; grow|]. intros ?.
  apply preserves_bind; [unfold insertRefreshToken; destruct (ls_issueRefresh opt); grow|]. intros ?.
  apply preserves_bind; [apply (Q_insertAuditEntry (grows a0))|]. intros ?. preserve.
Qed.

Lemma grow_rotate row m x : preserves Gr W (rotateRefreshToken row m x).
Proof.
  destruct row as [token session]. unfold rotateRefreshToken, insertSession, insertRefreshToken.
  apply preserves_bind; [preserve|]. intros ?. apply preserves_bind; [preserve|]. intros ?. cbv zeta.
  apply preserves_bind; [unfold buildTokenMaterial, generateRefreshToken, generateOpaque;
    apply preserves_bind; [by intros w|intros ?; preserve]|]. intros [tokens opaque]. grow.
Qed.

Lemma grow_org o r : preserves Gr W (revokeAllSessionsForOrg o r).
Proof.
  unfold revokeAllSessionsForOrg. apply preserves_bind; [apply grow_lock|]. intros ?. apply preserves_bind; [preserve|].
  intros ?. apply preserves_bind; [grow|]. intros ?. apply preserves_bind; [apply deviceGrants_frame, grows_tables|]. intros ?.
  apply preserves_bind.
  { unfold bulkRevoke. cbv zeta. case_bool_decide; [|preserve]. apply preserves_bind; [grow|]. intros ?.
    apply preserves_bind; [apply preserves_forEachSequential; intros ?; grow|]. intros ?.
    apply preserves_bind; [apply preserves_forEachSequential; intros ?; grow|]. intros ?.
    apply preserves_forEachSequential; intros ?; grow. }
  intros ?. apply preserves_bind; [unfold revokeOrgApiKeys; apply preserves_bind; [by apply (Q_update (grows a0) W (grows_tables a0))|intros ?; preserve]|].
  intros ?. cbv zeta. apply preserves_bind; [apply (auth_writeSystem (grows a0))|]. intros ?. preserve.
Qed.

Lemma runAuthOps_grows ops w : holds Gr W w -> holds Gr W (runAuthOps ops w).
Proof.
  apply (Q_ops (grows a0) W (grows_tables a0)).
  - intros s o. apply preserves_ok, grow_revoke.
  - intros u t o m opt. apply preserves_ok, grow_create.
  - intros row m x w' _ _ _ _ HW. apply (preserves_ok Gr W); [apply grow_rotate|exact HW].
  - intros o r. apply preserves_ok, grow_org.
  - intros sid now. by apply grow_sessions.
Qed.
End growing.

(** What other sessions commit while one waits for a lock: it keeps the invariant, deletes no
    session or refresh token, and none is un-revoked or un-used. *)
Record politeWorld (w : World) : Prop := {
  pw_ok : forall db, SessionsOk (db_auth db) -> SessionsOk (db_auth (w_onWait w db));
  pw_grows : forall db, grows (db_auth db) (db_auth (w_onWait w db));
}.

Lemma polite_grows w : politeWorld w ->
  forall a0 db, grows a0 (db_auth db) -> grows a0 (db_auth (w_onWait w db)).
Proof. intros Hp a0 db HG. eapply grows_trans; [exact HG|]. apply (pw_grows _ Hp). Qed.

Lemma runAuthOps_grows_from ops w : politeWorld w -> grows (db_auth (w_db w)) (db_auth (w_db (runAuthOps ops w))).
Proof.
  intros Hp. refine (proj1 (runAuthOps_grows (db_auth (w_db w)) (fun f => f = w_onWait w) _ ops w _)).
  - intros f -> db. by apply polite_grows.
  - split; [apply grows_refl|done].
Qed.

Lemma runAuthOps_polite ops w : politeWorld w -> politeWorld (runAuthOps ops w).
Proof.
  intros Hp. assert (EW : w_onWait (runAuthOps ops w) = w_onWait w).
  { refine (proj2 (runAuthOps_grows (db_auth (w_db w)) (fun f => f = w_onWait w) _ ops w _)).
    - intros f -> db. by apply polite_grows.
    - split; [apply grows_refl|done]. }
  destruct Hp. constructor; by rewrite EW.
Qed.

Lemma runAuthOps_invariant ops w :
  politeWorld w -> SessionsOk (db_auth (w_db w)) -> SessionsOk (db_auth (w_db (runAuthOps ops w))).
Proof.
  intros Hp HI. refine (proj1 (runAuthOps_ok ops w _)). split; [exact HI|]. intros db. apply (pw_ok _ Hp).
Qed.

(** ** A revoked session *)

Lemma revoke_jti sid opts w session :
  head (List.filter (fun s => ses_id s =? sid) (db_sessions (w_db w))) = Some session ->
  wp (revokeSessionById sid opts) (fun o w' => o = Ok true -> revokedSession (ses_jti session) (db_auth (w_db w'))) w.
Proof.
  intros Es. unfold revokeSessionById. apply wp_bind_first, wp_bind_first. rewrite Es.
  destruct (isNotNull _); [by intros [=]|]. destruct (sessionDoesNotMatchOptions _ _); [by intros [=]|].
  apply head_elem_of, elem_of_lfilter in Es as [Eid Hs].
  apply wp_newDate, wp_bind_update, wp_bind_update. set (Q := revokedSession (ses_jti session)).
  assert (Qt : forall a a', sessionTables a = sessionTables a' -> Q a -> Q a').
  { intros a a' E. injection E as E1 _. unfold Q, revokedSession. by rewrite E1. }
  match goal with |- wp ?m _ ?w1 => enough (Hm : preserves (fun db => Q (db_auth db)) (fun _ => True) m);
    [assert (HQ : Q (db_auth (w_db w1)))|] end.
  - eexists. split; [apply elem_of_map_where; exists session; split; [exact Hs|reflexivity]|]. by rewrite Eid.
  - eapply wp_mono; [by apply Hm|]. intros o w' [HQ' _] _. exact HQ'.
  - apply preserves_bind; [apply insertRevoked_frame, Qt|]. intros ?.
    apply preserves_bind; [apply deletePending_frame, Qt|]. intros ?.
    apply preserves_bind; [apply evict_frame|]. intros ?. apply preserves_bind; [apply maybeAudit_frame|]. intros ?.
    apply preserves_bind; [preserve|]. intros ?. apply preserves_bind; [apply deviceGrants_frame, Qt|]. intros ?. preserve.
Qed.

(** A token of a revoked session authenticates nothing. *)
Lemma authenticate_revoked request token payload claims j w :
  SessionsOk (db_auth (w_db w)) ->
  requestToken request = Some token -> jwtVerify token = Some payload -> parseAccessTokenClaims payload = Some claims ->
  cc_jti (atc_common claims) = uuidText j -> revokedSession j (db_auth (w_db w)) ->
  exists code w', authenticateRequest request w = (Ok (refusedWith code 401), w') /\ w_db w' = w_db w /\
    (code = "access_token_invalid" \/ code = "session_revoked").
Proof.
  intros HI Et Ev Ep Ej (s & Hs & Esj & Hr). unfold authenticateRequest. rewrite Et. unfold authContextOf, verifyAccessClaims.
  rewrite Ev, Ep. unfold catch, assertTemporalClaims. unfold mbind, M_bind, newDate, throw, mret, M_ret. cbv beta iota zeta.
  destruct (match cc_exp _ with Some _ => _ | None => _ end); [eexists _, _; split; [done|]; split; [done|]; by left|].
  destruct (match cc_iat _ with Some _ => _ | None => _ end); [eexists _, _; split; [done|]; split; [done|]; by left|].
  unfold rejectRevokedToken, selectFirst, mbind, M_bind. cbv beta iota. cbn [w_db].
  match goal with |- context [isNotNull (head (List.filter ?p ?l))] => destruct (isNotNull (head (List.filter p l))) end; [eexists _, _; split; [done|]; split; [done|]; by right|].
  unfold loadSessionForClaims, withOrg, transaction, selectFirst, mbind, M_bind, mret, M_ret, throw. cbv beta iota zeta. cbn [w_db setter].
  unfold beginTransaction, newDate, setNow, mbind, M_bind. cbv beta iota zeta.
  match goal with |- context [head (List.filter ?p ?l)] => destruct (head (List.filter p l)) as [found|] eqn:Ef end; [|eexists _, _; split; [done|]; split; [done|]; by right].
  apply head_elem_of, elem_of_lfilter in Ef as [Ef Hf]. bool_simpl.
  assert (found = s) as ->.
  { apply (NoDup_key_inj (fun s => uuidText (ses_jti s)) (au_sessions (db_auth (w_db w)))); [apply HI|exact Hf|exact Hs|].
    cbn. congruence. }
  unfold sessionMatchesClaims. destruct (ses_revokedAt s); [|done]. cbn [isNull andb].
  eexists _, _; split; [done|]; split; [done|]; by right.
Qed.

Lemma revoked_out sid opts w w1 session ops request token payload claims :
  SessionsOk (db_auth (w_db w)) -> politeWorld w ->
  session ∈ db_sessions (w_db w) -> ses_id session = sid -> revokeSessionById sid opts w = (Ok true, w1) ->
  requestToken request = Some token -> jwtVerify token = Some payload -> parseAccessTokenClaims payload = Some claims ->
  cc_jti (atc_common claims) = uuidText (ses_jti session) ->
  exists code w', authenticateRequest request (runAuthOps ops w1) = (Ok (refusedWith code 401), w') /\
    w_db w' = w_db (runAuthOps ops w1) /\ (code = "access_token_invalid" \/ code = "session_revoked").
Proof.
  intros HI Hp0 Hs Hid E. intros. assert (Hp : politeWorld w1).
  { assert (EW : w_onWait w1 = w_onWait w).
    { refine (proj2 (preserves_elim _ _ _ _ _ _ (grow_revoke (db_auth (w_db w)) (fun f => f = w_onWait w) sid opts) _ E)).
      split; [apply grows_refl|done]. }
    destruct Hp0. constructor; by rewrite EW. }
  assert (HI1 : SessionsOk (db_auth (w_db w1))).
  { refine (proj1 (wp_elim _ _ _ _ _ (revoke_ok sid opts w _) E)). split; [exact HI|]. intros db. apply (pw_ok _ Hp0). }
  eapply authenticate_revoked; try done; [by apply runAuthOps_invariant|].
  apply (gr_revoked _ _ (runAuthOps_grows_from ops w1 Hp)).
  refine (wp_elim _ _ _ _ _ (revoke_jti sid opts w session _) E eq_refl).
  rewrite (filter_unique ses_id (db_sessions (w_db w)) session); [done|apply HI|done|by apply bool_decide_eq_true|].
  intros y _ Hy. bool_simpl. congruence.
Qed.

(** ** A refresh token *)

Lemma handleGrace_spec row w :
  wp (handleGraceRefresh row) (fun o w' => sameDb w w' /\
    (o = Throw revokedRefreshToken \/ exists r, o = Ok r /\ tm_refreshOpaque (rr_tokens r) = None)) w.
Proof.
  unfold handleGraceRefresh. apply wp_newDate. cbv zeta.
  destruct (rt_newSessionId row.1); [|split; [by eexists|by left]].
  destruct (negb _); [split; [by eexists|by left]|]. apply wp_newDate, wp_bind_first.
  destruct (head _); [|split; [by eexists|by left]]. apply wp_newDate, wp_ret. split; [by eexists|]. right. by eexists.
Qed.

(** A used token: nothing is written and no refresh token is given. *)
Lemma refresh_used opaque m x w :
  SessionsOk (db_auth (w_db w)) -> hashUsed (hashRefreshToken opaque) (db_auth (w_db w)) ->
  wp (refreshSession opaque m x) (fun o w' => w_db w' = w_db w /\
    (o = Throw revokedRefreshToken \/ o = Throw refreshTokenInvalid \/
     exists r, o = Ok r /\ tm_refreshOpaque (rr_tokens r) = None)) w.
Proof.
  intros HI (t & Ht & Eh & Hu). unfold refreshSession. apply wp_bind, wp_withOrg. unfold refreshInTx. apply wp_bind.
  apply wp_intro. intros o w1 E.
  destruct (findRefreshRow_spec (hashRefreshToken opaque) (w <| w_tick ::= S |> <| w_now := clock (w_tick w) |>)) as [Hs He].
  pose proof (wp_elim _ _ _ _ _ He E) as He'. destruct (wp_elim _ _ _ _ _ Hs E) as [-> Hrow]. clear Hs He E. rename He' into He.
  destruct o as [row|e]; [|rewrite (He e eq_refl); split; [done|right; by left]].
  destruct (Hrow row eq_refl) as (Hin & _ & _ & Ehr).
  assert (Er : row.1 = t).
  { apply (NoDup_key_inj rt_tokenHash (au_refreshTokens (db_auth (w_db w)))); [apply HI|exact Hin|done|congruence]. }
  rewrite Er. destruct (isNotNull (rt_usedAt t)) eqn:Eu; [|by destruct (rt_usedAt t)].
  apply wp_bind. eapply wp_mono; [apply handleGrace_spec|].
  intros o w2 [[n ->] [->|(r & -> & Hr)]]; cbv beta iota.
  - split; [done|by left].
  - apply wp_ret, wp_ret. split; [done|]. right. right. by exists r.
Qed.

Lemma rotate_uses a token g q now sid h f :
  token ∈ au_refreshTokens a -> rt_tokenHash token = h -> (forall t, rt_tokenHash (f t) = rt_tokenHash t /\ rt_id (f t) = rt_id t) ->
  hashUsed h (a <| au_sessions ::= g |> <| au_refreshTokens ::= map_where q f |>
    <| au_refreshTokens ::= map_where (fun t => rt_id t =? rt_id token)
         (fun t => t <| rt_usedAt := Some now |> <| rt_newSessionId := Some sid |>) |>).
Proof.
  intros Hin Eh Hf. set (t1 := if q token then f token else token).
  assert (Et : rt_tokenHash t1 = h /\ rt_id t1 = rt_id token).
  { unfold t1. destruct (q token); [|done]. destruct (Hf token) as [-> ->]. done. }
  exists (t1 <| rt_usedAt := Some now |> <| rt_newSessionId := Some sid |>). split; [|split; [apply Et|done]].
  apply elem_of_map_where. exists t1. split; [apply elem_of_map_where; by exists token|].
  by rewrite bool_decide_eq_true_2 by apply Et.
Qed.

(** What follows the write of [used_at]. *)
Lemma rotate_tail h sid orgId hash exp rvt old (r : RefreshResult) w :
  hashUsed h (db_auth (w_db w)) ->
  wp (_ ← insertRefreshToken sid orgId hash exp; _ ← insertRevokedToken rvt; _ ← evictSessionActivityDebounce old; mret r)
    (fun o w' => match o with Ok _ => hashUsed h (db_auth (w_db w')) | Throw _ => True end) w.
Proof.
  intros Hused.
  match goal with |- wp ?m _ _ => assert (Hm : preserves (fun db => grows (db_auth (w_db w)) (db_auth db)) (fun _ => True) m) end.
  { unfold insertRefreshToken. apply preserves_bind.
    - apply preserves_bind; [preserve|]. intros ?. apply grow_insertToken.
    - intros ?. apply preserves_bind; [apply insertRevoked_frame, grows_tables|]. intros ?.
      apply preserves_bind; [apply evict_frame|]. intros ?. preserve. }
  eapply wp_mono; [apply Hm; by split; [apply grows_refl|]|]. intros [u|e] w5 [HG _]; [|done]. by apply (gr_hashes _ _ HG).
Qed.

Lemma wp_insertSession_tokens {A} u o j v exp la meta (k : SessionRow -> M A) (Q : Outcome A -> World -> Prop) w :
  (forall e w', Q (Throw e) w') ->
  (forall s w', db_refreshTokens (w_db w') = db_refreshTokens (w_db w) -> wp (k s) Q w') ->
  wp (insertSession u o j v exp la meta ≫= k) Q w.
Proof.
  intros HT Hk. apply wp_bind. unfold insertSession. apply wp_genRandomUuid, wp_dbNow.
  unfold wp at 1, insertRow. destruct (existsb _ _); [apply HT|]. by apply Hk.
Qed.

Lemma rotate_used token session m x w :
  token ∈ db_refreshTokens (w_db w) ->
  wp (rotateRefreshToken (token, session) m x)
    (fun o w' => match o with Ok _ => hashUsed (rt_tokenHash token) (db_auth (w_db w')) | Throw _ => True end) w.
Proof.
  intros Hin. unfold rotateRefreshToken. apply wp_genRandomUuid, wp_newDate. cbv zeta. apply wp_buildTokenMaterial.
  cbv beta iota. apply wp_newDate. apply wp_insertSession_tokens; [done|]. intros s w1 E.
  do 3 apply wp_bind_update. apply wp_newDate. eapply (rotate_tail _ _ _ _ _ _ _ _), rotate_uses; [|done|done].
  change (token ∈ db_refreshTokens (w_db w1)). by rewrite E.
Qed.

Lemma refreshInTx_used opaque m x w :
  wp (refreshInTx (hashRefreshToken opaque) m x) (fun o w' => forall r, o = Ok (refreshed r) ->
    tm_refreshOpaque (rr_tokens r) <> None -> hashUsed (hashRefreshToken opaque) (db_auth (w_db w'))) w.
Proof.
  unfold refreshInTx. apply wp_bind. eapply wp_mono; [apply (proj1 (findRefreshRow_spec _ _))|].
  intros [[token session]|e] w1 [-> Hrow]; [|done]. destruct (Hrow _ eq_refl) as (Hin & _ & _ & Eh). cbn [fst snd] in *.
  destruct (isNotNull (rt_usedAt token)).
  { apply wp_bind. eapply wp_mono; [apply handleGrace_spec|]. intros o w2 [_ [->|(r & -> & Hr)]]; [done|].
    apply wp_ret. by intros r' [= <-]. }
  destruct (isNotNull (ses_revokedAt session)); [done|]. destruct (isNotNull (rt_revokedAt token)); [done|].
  apply wp_newDate. case_bool_decide; [done|]. apply wp_bind_first. destruct (isNotNull (head _)); [done|].
  apply wp_newDate. case_bool_decide.
  { apply wp_bind, wp_intro. intros [u|e] w2 _; [|done]. by apply wp_ret. }
  apply wp_bind. eapply wp_mono; [apply rotate_used; exact Hin|]. intros [r|e] w5 Hu; [|done].
  apply wp_ret. intros r' _ _. by rewrite <- Eh.
Qed.

Lemma rotated_used opaque m x w :
  wp (refreshSession opaque m x) (fun o w' => forall r, o = Ok r -> tm_refreshOpaque (rr_tokens r) <> None ->
    hashUsed (hashRefreshToken opaque) (db_auth (w_db w'))) w.
Proof.
  unfold refreshSession. apply wp_bind, wp_withOrg. eapply wp_mono; [apply refreshInTx_used|].
  intros [[|r]|e] w1 Hu; [done| |done]. apply wp_ret. intros r' [= <-]. by apply Hu.
Qed.

Lemma single_use opaque m x w r w1 ops m' x' o w' :
  SessionsOk (db_auth (w_db w)) -> politeWorld w ->
  refreshSession opaque m x w = (Ok r, w1) -> tm_refreshOpaque (rr_tokens r) <> None ->
  refreshSession opaque m' x' (runAuthOps ops w1) = (o, w') ->
  w_db w' = w_db (runAuthOps ops w1) /\
  (o = Throw revokedRefreshToken \/ o = Throw refreshTokenInvalid \/
   exists r', o = Ok r' /\ tm_refreshOpaque (rr_tokens r') = None).
Proof.
  intros HI Hp E Hr E'.
  assert (Ew : runAuthOps [op_refresh opaque m x] w = w1).
  { cbn. unfold discard, mbind, M_bind. by rewrite E. }
  assert (HI1 := runAuthOps_invariant [op_refresh opaque m x] w Hp HI).
  assert (Hp1 := runAuthOps_polite [op_refresh opaque m x] w Hp). rewrite Ew in HI1, Hp1.
  refine (wp_elim _ _ _ _ _ (refresh_used opaque m' x' _ _ _) E').
  - by apply runAuthOps_invariant.
  - apply (gr_hashes _ _ (runAuthOps_grows_from ops w1 Hp1)). exact (wp_elim _ _ _ _ _ (rotated_used opaque m x w) E r eq_refl Hr).
Qed.
End theorems.
