(* ===== verification/SessionLimit.v ===== *)
(** * The session limit

    [enforceMaxSessionsForUser] revokes the sessions that were idle the longest
    until there is room for one more; a login then leaves at most
    MAX_SESSIONS_PER_USER active sessions. *)

From S2P Require Import Prelude Js Crypto FieldSet AuthStore Store Tx QuotaGate AuditLog Notifications Frames Sessions Authenticate Mfa UserSessions Login SessionFrames SessionInvariant.
From Stdlib Require Import Ascii String.
From stdpp Require Import strings.

Local Open Scope string_scope.
Local Open Scope list_scope.
Local Open Scope pv_scope.

Section distinct.
Context {A : Type} (key : A -> Uuid).

Lemma distinctBy_elem seen l x : x ∈ distinctBy key seen l -> x ∈ l.
Proof.
  revert seen. induction l as [|y l IH]; intros seen; cbn [distinctBy]; [done|]. case_bool_decide.
  - intros Hx. right. by eapply IH.
  - intros [->|Hx]%elem_of_cons; [by left|right; by eapply IH].
Qed.
Lemma distinctBy_complete seen l x : x ∈ l -> key x ∉ seen -> key x ∈ map key (distinctBy key seen l).
Proof.
  revert seen. induction l as [|y l IH]; intros seen; cbn [distinctBy]; [by intros ?%not_elem_of_nil|].
  intros Hx Hn. case_bool_decide as Hy.
  - apply elem_of_cons in Hx as [->|Hx]; [done|]. by apply IH.
  - cbn. destruct (decide (key x = key y)) as [->|Hne]; [by left|]. right.
    apply elem_of_cons in Hx as [->|Hx]; [done|]. apply IH; [done|]. by intros [?|?]%elem_of_cons.
Qed.
Lemma distinctBy_fresh seen l i : i ∈ map key (distinctBy key seen l) -> i ∉ seen.
Proof.
  revert seen. induction l as [|y l IH]; intros seen; cbn [distinctBy]; [by intros ?%not_elem_of_nil|].
  case_bool_decide as Hy; [by apply IH|]. cbn. intros [->|Hi]%elem_of_cons; [done|].
  intros Hs. eapply IH; [exact Hi|]. by right.
Qed.
Lemma distinctBy_NoDup seen l : NoDup (map key (distinctBy key seen l)).
Proof.
  revert seen. induction l as [|y l IH]; intros seen; cbn [distinctBy]; [apply NoDup_nil_2|].
  case_bool_decide; [done|]. cbn. apply NoDup_cons. split; [|done]. intros Hi%distinctBy_fresh. apply Hi. by left.
Qed.
End distinct.

Section limit.
Context `{Locale, Platform, NodeCrypto, Env, Unicode, OtpValidate, Passwords, JwtLibrary}.

(** The sessions a login counts. *)
Definition activeSessions (a : AuthDb) (userId orgId : Uuid) (now : Date) : list SessionRow :=
  List.filter (fun s => existsb (activeSessionPredicate userId orgId None now s) (au_refreshTokens a)) (au_sessions a).

Definition activeId (a : AuthDb) (u o : Uuid) (now : Date) (i : Uuid) : Prop :=
  exists s t, s ∈ au_sessions a /\ t ∈ au_refreshTokens a /\ ses_id s = i /\
    activeSessionPredicate u o None now s t = true.

Lemma active_fields u o c now s t : activeSessionPredicate u o c now s t = true ->
  rt_sessionId t = ses_id s /\ ses_userId s = u /\ ses_orgId s = o /\ ses_revokedAt s = None /\
  rt_revokedAt t = None /\ (now < rt_expiresAt t)%Z.
Proof. unfold activeSessionPredicate. intros Ha. by bool_simpl. Qed.

Lemma active_later u o now now' s t :
  (now <= now')%Z -> activeSessionPredicate u o None now' s t = true -> activeSessionPredicate u o None now s t = true.
Proof.
  unfold activeSessionPredicate. intros Hle Ha. rewrite !andb_true_r in *. bool_simpl.
  repeat (apply andb_true_iff; split); try (by apply bool_decide_eq_true); try (by apply isNull_true).
  apply bool_decide_eq_true. lia.
Qed.

Lemma activeSessions_ids a u o now i : i ∈ map ses_id (activeSessions a u o now) <-> activeId a u o now i.
Proof.
  unfold activeSessions, activeId. rewrite elem_of_map. split.
  - intros (s & -> & [He Hs]%elem_of_lfilter). apply existsb_exists in He as (t & Ht%list_elem_of_In & Ha). by exists s, t.
  - intros (s & t & Hs & Ht & <- & Ha). exists s. split; [done|]. apply elem_of_lfilter. split; [|done].
    apply existsb_exists. exists t. by rewrite <- list_elem_of_In.
Qed.

(** The tables a revocation of a session leaves. *)
Definition sameActive (a a' : AuthDb) : Prop :=
  au_sessions a' = au_sessions a /\ au_refreshTokens a' = au_refreshTokens a.

Lemma activeId_same a a' u o now i : sameActive a a' -> activeId a' u o now i -> activeId a u o now i.
Proof. unfold activeId. by intros [-> ->]. Qed.

Lemma sameActive_tables a b c : sessionTables b = sessionTables c -> sameActive a b -> sameActive a c.
Proof. intros E [E1 E2]. injection E as F1 F2. split; congruence. Qed.

Lemma revoke_active u o sid w :
  NoDup (map ses_id (db_sessions (w_db w))) ->
  wp (revokeSecurity u o sid) (fun r w' => forall x, r = Ok x -> forall now i,
    activeId (db_auth (w_db w')) u o now i -> activeId (db_auth (w_db w)) u o now i /\ i <> sid) w.
Proof.
  intros Hnd. unfold revokeSecurity. apply wp_bind. unfold revokeSessionById. apply wp_bind_first, wp_bind_first.
  assert (Hsid : forall session, head (List.filter (fun s => ses_id s =? sid) (db_sessions (w_db w))) = Some session ->
    forall s, s ∈ db_sessions (w_db w) -> ses_id s = sid -> s = session).
  { intros session [Eid Hs]%head_elem_of%elem_of_lfilter s Hin Es. bool_simpl.
    apply (NoDup_key_inj ses_id (db_sessions (w_db w))); [done|done|done|congruence]. }
  assert (Hsame : (forall session, head (List.filter (fun s => ses_id s =? sid) (db_sessions (w_db w))) = Some session ->
      ses_revokedAt session <> None \/ ses_userId session <> u \/ ses_orgId session <> o) ->
    forall now i, activeId (db_auth (w_db w)) u o now i -> activeId (db_auth (w_db w)) u o now i /\ i <> sid).
  { intros Hh now i Ha. split; [done|]. intros ->. destruct Ha as (s & t & Hs & _ & Es & Ha).
    apply active_fields in Ha as (_ & Hu & Ho & Hr & _).
    destruct (head (List.filter (fun s => ses_id s =? sid) (db_sessions (w_db w)))) as [session|] eqn:E.
    - rewrite <- (Hsid session eq_refl s Hs Es) in Hh. by destruct (Hh s eq_refl) as [|[|]].
    - assert (Hin : s ∈ List.filter (fun s => ses_id s =? sid) (db_sessions (w_db w))).
      { apply elem_of_lfilter. split; [by apply bool_decide_eq_true|done]. }
      destruct (List.filter _ _); [by apply not_elem_of_nil in Hin|done]. }
  destruct (head _) as [session|] eqn:Es; [|apply wp_ret; intros x _; apply Hsame; by intros].
  destruct (isNotNull _) eqn:Er.
  { apply wp_ret. intros x _. apply Hsame. intros ? [= <-]. left. by destruct (ses_revokedAt session). }
  destruct (sessionDoesNotMatchOptions _ _) eqn:Em.
  { apply wp_ret. intros x _. apply Hsame. intros ? [= <-]. right. unfold sessionDoesNotMatchOptions in Em. cbn in Em.
    apply orb_true_iff in Em as [Em|Em]; bool_simpl; by (left + right). }
  clear Hsame. apply wp_newDate, wp_bind_update, wp_bind_update.
  set (p := fun s : SessionRow => ses_id s =? sid).
  match goal with |- wp _ _ ?w2 => set (w2' := w2) end.
  assert (Hw2 : forall now i, activeId (db_auth (w_db w2')) u o now i -> activeId (db_auth (w_db w)) u o now i /\ i <> sid).
  { intros now i (y & r & (s & Hs & ->)%elem_of_map_where & (t & Ht & ->)%elem_of_map_where & <- & Ha).
    apply active_fields in Ha as Hf. destruct Hf as (_ & _ & _ & Hr & Hrt & _).
    change (ses_id s =? sid) with (p s) in *. destruct (p s) eqn:Ep; [done|].
    destruct ((rt_sessionId t =? sid) && _) eqn:Eq; [done|]. split; [by exists s, t|]. unfold p in Ep. by bool_simpl. }
  clearbody w2'. clear -Hw2.
  match goal with |- wp ?m _ _ =>
    assert (Hm : preserves (fun db => sameActive (db_auth (w_db w2')) (db_auth db)) (fun _ => True) m) end.
  { pose proof (sameActive_tables (db_auth (w_db w2'))) as Qt.
    apply preserves_bind; [by apply insertRevoked_frame|]. intros ?.
    apply preserves_bind; [by apply deletePending_frame|]. intros ?.
    apply preserves_bind; [apply evict_frame|]. intros ?. apply preserves_bind; [apply maybeAudit_frame|]. intros ?.
    apply preserves_bind; [preserve|]. intros ?. apply preserves_bind; [by apply deviceGrants_frame|]. intros ?. preserve. }
  eapply wp_mono; [by apply Hm|]. intros [b|e] w4 [H4 _]; [|done]. apply wp_ret. intros x _ now i Ha.
  apply Hw2. by eapply activeId_same.
Qed.

Notation Ok_ := (fun db => SessionsOk (db_auth db)).
Notation Wt := (fun onWait : Db -> Db => forall db, SessionsOk (db_auth db) -> SessionsOk (db_auth (onWait db))).

Lemma revokeSecurity_ok u o sid : preservesOk Ok_ Wt (revokeSecurity u o sid).
Proof. unfold revokeSecurity. apply preservesOk_bind; [apply revoke_ok|]. intros ?. apply preserves_ok. preserve. Qed.

Lemma revoke_loop u o ids w :
  holds Ok_ Wt w ->
  wp (forEachSequential ids (revokeSecurity u o)) (fun r w' => forall x, r = Ok x -> holds Ok_ Wt w' /\ forall now i,
    activeId (db_auth (w_db w')) u o now i -> activeId (db_auth (w_db w)) u o now i /\ i ∉ ids) w.
Proof.
  revert w. induction ids as [|sid ids IH]; intros w HW; cbn [forEachSequential].
  { apply wp_ret. intros x _. split; [done|]. intros now i Ha. split; [done|apply not_elem_of_nil]. }
  apply wp_bind, wp_intro. intros r w1 E. pose proof (wp_elim _ _ _ _ _ (revoke_active u o sid w (si_ids _ _ (proj1 HW))) E) as H1'.
  pose proof (wp_elim _ _ _ _ _ (revokeSecurity_ok u o sid w HW) E) as HW1. destruct r as [x|e]; [|done].
  eapply wp_mono; [by apply IH|]. intros r w2 H2' y Ey. destruct (H2' y Ey) as [HW2 Hin]. split; [done|].
  intros now i Ha. destruct (Hin now i Ha) as [Ha1 Hn]. destruct (H1' x eq_refl now i Ha1) as [Ha0 Hne].
  split; [done|]. by intros [?|?]%elem_of_cons.
Qed.

Lemma enforce_active u o w :
  holds Ok_ Wt w -> (1 <= MAX_SESSIONS_PER_USER)%Z ->
  wp (enforceMaxSessionsForUser u o) (fun r w' => forall x, r = Ok x -> holds Ok_ Wt w' /\ exists ids,
    (Z.of_nat (length ids) <= MAX_SESSIONS_PER_USER - 1)%Z /\
    forall now i, (clock (w_tick w) <= now)%Z -> activeId (db_auth (w_db w')) u o now i -> i ∈ ids) w.
Proof.
  intros HW Hmax. unfold enforceMaxSessionsForUser. rewrite bool_decide_eq_false_2 by lia.
  apply wp_newDate. apply wp_bind. unfold selectJoined, wp at 1. cbv beta iota zeta.
  set (t0 := clock (w_tick w)). set (rows := List.filter _ _).
  set (ids := map ses_id (distinctBy ses_id [] _)). change (Z.of_nat (length (map _ _))) with (Z.of_nat (length ids)).
  assert (HW1 : holds Ok_ Wt (w <| w_tick ::= S |>)) by exact HW.
  assert (Hids : forall now i, (t0 <= now)%Z -> activeId (db_auth (w_db w)) u o now i -> i ∈ ids).
  { intros now i Hle (s & t & Hs & Ht & <- & Ha). unfold ids. apply distinctBy_complete; [|apply not_elem_of_nil].
    apply elem_of_isort, elem_of_map. exists (s, t). split; [done|]. unfold rows. apply elem_of_lfilter.
    split; [by apply (active_later u o t0 now)|]. apply list_elem_of_In, in_prod; by apply list_elem_of_In. }
  case_bool_decide as Hk.
  - apply wp_ret. intros x _. split; [done|]. exists ids. split; [lia|exact Hids].
  - eapply wp_mono; [by apply revoke_loop|]. intros r w2 Hr x Ex. destruct (Hr x Ex) as [HW2 Hact]. split; [done|].
    set (k := Z.to_nat (Z.of_nat (length ids) - MAX_SESSIONS_PER_USER + 1)).
    exists (drop k ids). split; [rewrite length_drop; lia|]. intros now i Hle Ha.
    destruct (Hact now i Ha) as [Ha0 Hn]. pose proof (Hids now i Hle Ha0) as Hi.
    rewrite <- (take_drop k ids) in Hi. by apply elem_of_app in Hi as [Hi|Hi].
Qed.

(** The tables after the login's own writes. *)
Lemma wp_insertSession_rows {A} u o j v exp la meta (k : SessionRow -> M A) (Q : Outcome A -> World -> Prop) w :
  (forall e w', Q (Throw e) w') ->
  (forall s w', db_sessions (w_db w') = (db_sessions (w_db w) ++ [s])%list ->
     db_refreshTokens (w_db w') = db_refreshTokens (w_db w) -> wp (k s) Q w') ->
  wp (insertSession u o j v exp la meta ≫= k) Q w.
Proof.
  intros HT Hk. apply wp_bind. unfold insertSession. apply wp_genRandomUuid, wp_dbNow.
  unfold wp at 1, insertRow. destruct (existsb _ _); [apply HT|]. by apply Hk.
Qed.

Lemma wp_insertRefresh_rows {A} sid o h e (k : RefreshTokenRow -> M A) (Q : Outcome A -> World -> Prop) w :
  (forall e w', Q (Throw e) w') ->
  (forall t w', rt_sessionId t = sid -> db_sessions (w_db w') = db_sessions (w_db w) ->
     db_refreshTokens (w_db w') = (db_refreshTokens (w_db w) ++ [t])%list -> wp (k t) Q w') ->
  wp (insertRefreshToken sid o h e ≫= k) Q w.
Proof.
  intros HT Hk. apply wp_bind. unfold insertRefreshToken. apply wp_genRandomUuid.
  unfold wp at 1, insertRow. destruct (existsb _ _); [apply HT|]. by apply Hk.
Qed.

Lemma audit_sameActive a0 o tok e p m : preserves (fun db => sameActive a0 (db_auth db)) (fun _ => True) (insertAuditEntry o tok e p m).
Proof. apply (Q_insertAuditEntry (sameActive a0)). Qed.

(** The rows of a new session: no other session becomes active. *)
Lemma activeId_new a a' s new u o now i :
  au_sessions a' = (au_sessions a ++ [s])%list -> au_refreshTokens a' = (au_refreshTokens a ++ new)%list ->
  (forall t, t ∈ new -> rt_sessionId t = ses_id s) ->
  activeId a' u o now i -> activeId a u o now i \/ i = ses_id s.
Proof.
  intros Es Et Hnew (x & t & Hx & Ht & <- & Ha). rewrite Es in Hx. rewrite Et in Ht.
  apply elem_of_app in Hx as [Hx| ->%list_elem_of_singleton]; [|by right].
  apply elem_of_app in Ht as [Ht|Ht]; [left; by exists x, t|].
  right. apply active_fields in Ha as (E & _). by rewrite <- E, Hnew.
Qed.

Lemma login_rows u tok o meta opt w :
  wp (jti ← genRandomUuid;
      let accessTtlSeconds := default JWT_ACCESS_TTL_SECONDS (ls_accessTtlSeconds opt) in
      now ← newDate;
      let expiresAt := (now + accessTtlSeconds * 1000)%Z in
      '(tokens, refreshOpaque) ← buildTokenMaterial u o jti accessTtlSeconds;
      session ← insertSession u o jti 1 expiresAt None meta;
      _ ← (if ls_issueRefresh opt then
             now' ← newDate;
             _ ← insertRefreshToken (ses_id session) o (hashRefreshToken refreshOpaque)
                   (now' + tm_refreshMaxAgeSec tokens * 1000)%Z;
             mret tt
           else mret tt);
      _ ← insertAuditEntry o tok SESSION_CREATED [] meta;
      mret {| lr_userId := u; lr_orgId := o; lr_expiresAt := expiresAt;
              lr_tokens := if ls_issueRefresh opt then tokens
                           else MkTokenMaterial (tm_accessClaims tokens) (tm_accessMaxAgeSec tokens) None
                                  (tm_refreshMaxAgeSec tokens) |})
    (fun r w' => forall x, r = Ok x -> exists s, forall u o now i,
       activeId (db_auth (w_db w')) u o now i -> activeId (db_auth (w_db w)) u o now i \/ i = ses_id s) w.
Proof.
  apply wp_genRandomUuid. cbv zeta. apply wp_newDate, wp_buildTokenMaterial. cbv beta iota.
  apply wp_insertSession_rows; [done|]. intros s w1 Es Et. destruct (ls_issueRefresh opt).
  - apply wp_bind, wp_newDate. apply wp_insertRefresh_rows; [done|]. intros t w2 Eid Es2 Et2. apply wp_ret.
    apply wp_bind. eapply wp_mono; [apply (audit_sameActive (db_auth (w_db w2))); by split|].
    intros [[]|e] w3 [Hsame _]; [|done]. apply wp_ret. intros x _. exists s. intros u' o' now i Ha.
    apply (activeId_same _ _ _ _ _ _ Hsame) in Ha.
    eapply (activeId_new (db_auth (w_db w)) _ s [t]); [| | |exact Ha].
    + change (db_sessions (w_db w2) = db_sessions (w_db w) ++ [s])%list. rewrite Es2. exact Es.
    + change (db_refreshTokens (w_db w2) = db_refreshTokens (w_db w) ++ [t])%list.
      rewrite Et2. change (db_refreshTokens (w_db w1) ++ [t] = db_refreshTokens (w_db w) ++ [t])%list. by rewrite Et.
    + by intros x' ->%list_elem_of_singleton.
  - apply wp_bind, wp_ret. apply wp_bind. eapply wp_mono; [apply (audit_sameActive (db_auth (w_db w1))); by split|].
    intros [[]|e] w3 [Hsame _]; [|done]. apply wp_ret. intros x _. exists s. intros u' o' now i Ha.
    apply (activeId_same _ _ _ _ _ _ Hsame) in Ha.
    eapply (activeId_new (db_auth (w_db w)) _ s []); [exact Es| | |exact Ha].
    + rewrite app_nil_r. exact Et.
    + by intros ? ?%not_elem_of_nil.
Qed.

Lemma login_limit u tok o meta opt w r w' now :
  holds Ok_ Wt w -> (1 <= MAX_SESSIONS_PER_USER)%Z ->
  createLoginSessionInTx u tok o meta opt w = (Ok r, w') -> (clock (w_tick w) <= now)%Z ->
  (Z.of_nat (length (activeSessions (db_auth (w_db w')) u o now)) <= MAX_SESSIONS_PER_USER)%Z.
Proof.
  intros HW Hmax E Hle. pose proof (wp_elim _ _ _ _ _ (create_ok u tok o meta opt w HW) E) as HW'.
  unfold createLoginSessionInTx in E. revert E.
  match goal with |- ?m w = _ -> _ => intros E; enough (Hwp : wp m (fun r w' => forall x, r = Ok x -> exists s ids,
    (Z.of_nat (length ids) <= MAX_SESSIONS_PER_USER - 1)%Z /\ forall i,
      activeId (db_auth (w_db w')) u o now i -> i ∈ ids \/ i = ses_id s) w) end.
  - destruct (wp_elim _ _ _ _ _ Hwp E r eq_refl) as (s & ids & Hlen & Hin).
    rewrite <- (length_map ses_id). apply (Z.le_trans _ (Z.of_nat (length (ses_id s :: ids)))); [|cbn [length]; lia].
    apply inj_le, NoDup_incl_length.
    + apply NoDup_ListNoDup. unfold activeSessions. pose proof (si_ids _ _ (proj1 HW')) as Hnd.
      revert Hnd. generalize (au_sessions (db_auth (w_db w'))) as l. intros l.
      induction l as [|x l IH]; cbn [map List.filter]; [done|]. intros [Hx Hl]%NoDup_cons.
      destruct (existsb _ _); [|by apply IH]. cbn. apply NoDup_cons. split; [|by apply IH].
      intros (y & Ey & [_ Hy]%elem_of_lfilter)%elem_of_map. apply Hx. rewrite Ey. apply elem_of_map. by exists y.
    + intros i Hi%list_elem_of_In%activeSessions_ids. apply list_elem_of_In.
      destruct (Hin i Hi) as [?| ->]; [by right|by left].
  - apply wp_bind. apply wp_intro. intros [[]|e] w1 E1; [|done].
    pose proof (wp_elim _ _ _ _ _ (lock_ok o w HW) E1) as HW1.
    assert (Etick : w_tick w1 = w_tick w).
    { unfold acquireOrgLock in E1. destruct (_ ∈? _); by injection E1 as <-. }
    apply wp_bind. eapply wp_mono; [by apply enforce_active|]. intros [[]|e] w2 He; [|done].
    destruct (He _ eq_refl) as (HW2 & ids & Hlen & Hin). rewrite Etick in Hin.
    eapply wp_mono; [apply login_rows|]. intros r2 w3 Hr x Ex. destruct (Hr x Ex) as [s Hs]. exists s, ids.
    split; [done|]. intros i Ha. destruct (Hs u o now i Ha) as [Ha'| ->]; [left; by eapply Hin|by right].
Qed.
End limit.
