(* ===== verification/AuthDemo.v ===== *)
(** * A user and her sessions, for the witnesses

    The user 7 of organisation 1, signed in by the service functions
    themselves; a JWT library whose tokens are the text of the identifier they
    were signed for. *)

From S2P Require Import Prelude Js Crypto FieldSet AuthStore Store Tx QuotaGate AuditLog Notifications Frames Sessions Authenticate Mfa UserSessions Login SessionFrames SessionInvariant SessionTheorems Demo.
From Stdlib Require Import Ascii String.
From stdpp Require Import strings.

Local Open Scope string_scope.
Local Open Scope list_scope.
Local Open Scope pv_scope.

#[local] Existing Instances byteLocale toyPlatform toyCrypto toyEnv asciiUnicode.

(** A code is valid when it is the secret's, in the current period. *)
Definition toyOtpValidate : OtpValidate :=
  {| secretBase32 s := s; totpDelta secret code window t := if code =? secret then Some 0%Z else None |}.
Definition toyPasswords : Passwords :=
  {| verifyUserPassword p h := Ok (p =? h); bcryptHash n p cost := p; bcryptCompare p h := p =? h |}.
#[local] Existing Instances toyOtpValidate toyPasswords.

Definition demoUser : UserRow := MkUserRow 7 "ada@example.org" "pw" None false.

Definition authDb : Db := demoDb
  <| db_users := [demoUser] |>
  <| db_identityTokens := [MkIdentityTokenRow 70 (Some 7%N) 1600000000000] |>
  <| db_organizations := [MkOrganizationRow 1 "Analytical" "analytical" "en" 1600000000000] |>.

Definition authWorld : World := worldOf authDb.

Definition signIn : M LoginResult := withOrg (createLoginSessionInTx 7 (Some 70%N) 1 noMeta defaultLogin).

Definition signedIn : World := Eval vm_compute in snd (signIn authWorld).
Definition demoSession : SessionRow :=
  Eval vm_compute in default (MkSessionRow 0 0 0 0 0 0 None 0 0 None None 0) (head (db_sessions (w_db signedIn))).
Definition demoOpaque : string :=
  Eval vm_compute in match fst (signIn authWorld) with
                     | Ok r => default "" (tm_refreshOpaque (lr_tokens r))
                     | Throw _ => ""
                     end.

Definition demoPayload : Payload :=
  [("sub", CStr (uuidText 7)); ("orgId", CStr (uuidText 1)); ("jti", CStr (uuidText (ses_jti demoSession)));
   ("sessionVersion", CNum 1)].
Definition toyJwt : JwtLibrary := {| jwtVerify t := if t =? "ada" then Some (Some demoPayload) else None |}.
#[local] Existing Instance toyJwt.

Lemma politeWorld_idle w : w_onWait w = id -> politeWorld w.
Proof. intros E. constructor; rewrite E; [done|]. intros db. apply grows_refl. Qed.

Lemma SessionsOk_authDb : SessionsOk (db_auth authDb).
Proof. eapply SessInv_tables; [|apply SessionsOk_empty]. reflexivity. Qed.

Lemma signedIn_run :
  runAuthOps [op_createSession 7 (Some 70%N) 1 noMeta defaultLogin] authWorld = signedIn.
Proof. vm_compute. reflexivity. Qed.

Lemma SessionsOk_signedIn : SessionsOk (db_auth (w_db signedIn)).
Proof.
  rewrite <- signedIn_run. apply runAuthOps_invariant; [by apply politeWorld_idle|apply SessionsOk_authDb].
Qed.

Lemma polite_signedIn : politeWorld signedIn.
Proof. apply politeWorld_idle. reflexivity. Qed.
