(* ===== verification/AuthTheorems.v ===== *)
(** * The theorems on sessions *)

From S2P Require Import Prelude Js Crypto FieldSet AuthStore Store Tx QuotaGate AuditLog Notifications Frames Sessions Authenticate Mfa UserSessions Login SessionFrames SessionInvariant SessionTheorems SessionLimit Demo AuthDemo.
From Stdlib Require Import Ascii String.
From stdpp Require Import strings.

Local Open Scope string_scope.
Local Open Scope list_scope.
Local Open Scope pv_scope.

Section theorems.
Context `{Locale, Platform, NodeCrypto, Env, Unicode, OtpValidate, Passwords, JwtLibrary}.

(** C4: whatever requests are made, in whatever order and whether they succeed or not, and whenever the job prunes
    the list of revoked tokens, the session tables stay well-formed: identifiers, JWT identifiers and token hashes
    are distinct, a refresh token belongs to a session and a session has at most one, its version counts its
    revocation, a refresh token that is neither used nor revoked belongs to a live session, and the session of a
    used refresh token is revoked.  What other sessions commit while one waits is arbitrary as long as it does so too
    ([politeWorld]). *)
Theorem session_tables_invariant ops w :
  politeWorld w -> SessionsOk (db_auth (w_db w)) -> SessionsOk (db_auth (w_db (runAuthOps ops w))).
Proof. apply runAuthOps_invariant. Qed.

(** C5: once a session was revoked, no request with an access token signed for it is authenticated, whatever
    requests come in between, and whenever the job prunes the list of revoked tokens; the refusal writes nothing. *)
Theorem revoked_session_stays_out sid opts w w1 session ops request token payload claims :
  SessionsOk (db_auth (w_db w)) -> politeWorld w ->
  session ∈ db_sessions (w_db w) -> ses_id session = sid -> revokeSessionById sid opts w = (Ok true, w1) ->
  requestToken request = Some token -> jwtVerify token = Some payload -> parseAccessTokenClaims payload = Some claims ->
  cc_jti (atc_common claims) = uuidText (ses_jti session) ->
  exists code w', authenticateRequest request (runAuthOps ops w1) = (Ok (refusedWith code 401), w') /\
    w_db w' = w_db (runAuthOps ops w1) /\ (code = "access_token_invalid" \/ code = "session_revoked").
Proof. apply revoked_out. Qed.

(** C6: a refresh token is exchanged for a new one at most once: when a refresh gave a new refresh token, a later
    refresh with the same token, whatever requests and prunings come in between, writes nothing and either is refused
    or, within the grace window, repeats the access token without a refresh token. *)
Theorem refresh_token_single_use opaque m x w r w1 ops m' x' o w' :
  SessionsOk (db_auth (w_db w)) -> politeWorld w ->
  refreshSession opaque m x w = (Ok r, w1) -> tm_refreshOpaque (rr_tokens r) <> None ->
  refreshSession opaque m' x' (runAuthOps ops w1) = (o, w') ->
  w_db w' = w_db (runAuthOps ops w1) /\
  (o = Throw revokedRefreshToken \/ o = Throw refreshTokenInvalid \/
   exists r', o = Ok r' /\ tm_refreshOpaque (rr_tokens r') = None).
Proof. apply single_use. Qed.

(** A login leaves the user with at most MAX_SESSIONS_PER_USER active sessions in the organisation, whatever
    the tables held before it. *)
Theorem login_within_session_limit u tok o meta opt w r w' now :
  SessionsOk (db_auth (w_db w)) -> politeWorld w -> (1 <= MAX_SESSIONS_PER_USER)%Z ->
  createLoginSessionInTx u tok o meta opt w = (Ok r, w') -> (clock (w_tick w) <= now)%Z ->
  (Z.of_nat (length (activeSessions (db_auth (w_db w')) u o now)) <= MAX_SESSIONS_PER_USER)%Z.
Proof. intros HI Hp. apply login_limit. split; [exact HI|]. intros db. apply (pw_ok _ Hp). Qed.

End theorems.

(** ** Witnesses *)

#[local] Existing Instances byteLocale toyPlatform toyCrypto toyEnv asciiUnicode toyOtpValidate toyPasswords toyJwt.

Lemma session_tables_invariant_witness :
  SessionsOk (db_auth (w_db (runAuthOps [op_refresh demoOpaque noMeta None; op_pruneRevokedTokens; op_revokeOrg 1 "r"] signedIn))).
Proof. exact (session_tables_invariant _ signedIn polite_signedIn SessionsOk_signedIn). Defined.

Definition adminRevocation : RevokeSessionOptions := MkRevokeSessionOptions (Some 7%N) scope_admin_action None None (Some 1%N) true.
Definition adaRequest : RequestToken := MkRequestToken (Some "ada") None.
Definition revokedWorld : World := Eval vm_compute in snd (revokeSessionById (ses_id demoSession) adminRevocation signedIn).

Lemma revoked_session_stays_out_witness :
  fst (authenticateRequest adaRequest signedIn) =
    Ok (authenticated (MkAuthContext 7 1 (ses_id demoSession) (ses_jti demoSession) 1 owner false)) /\
  exists code w', authenticateRequest adaRequest (runAuthOps [op_pruneRevokedTokens; op_createSession 7 None 1 noMeta defaultLogin] revokedWorld) =
      (Ok (refusedWith code 401), w') /\
    w_db w' = w_db (runAuthOps [op_pruneRevokedTokens; op_createSession 7 None 1 noMeta defaultLogin] revokedWorld) /\
    (code = "access_token_invalid" \/ code = "session_revoked").
Proof.
  split; [vm_compute; reflexivity|].
  refine (revoked_session_stays_out (ses_id demoSession) adminRevocation signedIn revokedWorld demoSession _ adaRequest
            "ada" (Some demoPayload) _ SessionsOk_signedIn polite_signedIn _ _ _ _ _ _ _).
  - apply list_elem_of_In. left. reflexivity.
  - reflexivity.
  - vm_compute. reflexivity.
  - reflexivity.
  - reflexivity.
  - vm_compute. reflexivity.
  - vm_compute. reflexivity.
Defined.

Definition refreshedResult : RefreshResult :=
  Eval vm_compute in match fst (refreshSession demoOpaque noMeta None signedIn) with
                     | Ok r => r
                     | Throw _ => MkRefreshResult 0 (MkTokenMaterial (MkAccessClaims 0 0 0 0) 0 None 0)
                     end.
Definition refreshedWorld : World := Eval vm_compute in snd (refreshSession demoOpaque noMeta None signedIn).
Definition replayedWorld : World := Eval vm_compute in snd (refreshSession demoOpaque noMeta None refreshedWorld).
Definition replayedOutcome : Outcome RefreshResult := Eval vm_compute in fst (refreshSession demoOpaque noMeta None refreshedWorld).

Lemma refresh_token_single_use_witness :
  w_db replayedWorld = w_db refreshedWorld /\
  (replayedOutcome = Throw revokedRefreshToken \/ replayedOutcome = Throw refreshTokenInvalid \/
   exists r', replayedOutcome = Ok r' /\ tm_refreshOpaque (rr_tokens r') = None).
Proof.
  refine (refresh_token_single_use demoOpaque noMeta None signedIn refreshedResult refreshedWorld [] noMeta None
            replayedOutcome replayedWorld SessionsOk_signedIn polite_signedIn _ _ _).
  - vm_compute. reflexivity.
  - vm_compute. discriminate.
  - vm_compute. reflexivity.
Defined.

Definition secondLogin : LoginResult :=
  Eval vm_compute in match fst (createLoginSessionInTx 7 (Some 70%N) 1 noMeta defaultLogin signedIn) with
                     | Ok r => r
                     | Throw _ => MkLoginResult 0 0 0 (MkTokenMaterial (MkAccessClaims 0 0 0 0) 0 None 0)
                     end.
Definition secondWorld : World := Eval vm_compute in snd (createLoginSessionInTx 7 (Some 70%N) 1 noMeta defaultLogin signedIn).

Lemma login_within_session_limit_witness :
  length (activeSessions (db_auth (w_db secondWorld)) 7 1 1700000100000) = 2%nat /\
  (Z.of_nat (length (activeSessions (db_auth (w_db secondWorld)) 7 1 1700000100000)) <= MAX_SESSIONS_PER_USER)%Z.
Proof.
  split; [vm_compute; reflexivity|].
  refine (login_within_session_limit 7 (Some 70%N) 1 noMeta defaultLogin signedIn secondLogin secondWorld 1700000100000
            SessionsOk_signedIn polite_signedIn _ _ _).
  - vm_compute. discriminate.
  - vm_compute. reflexivity.
  - vm_compute. discriminate.
Defined.
