(* ===== verification/DeviceTheorems.v ===== *)
(** * The device grant

    A grant is pending until the user decides; approved, it is polled for its one
    session.  Denied, consumed and revoked are final. *)

From S2P Require Import Prelude Js Crypto FieldSet AuthStore Store Tx QuotaGate AuditLog Notifications Frames Sessions Authenticate Mfa UserSessions SessionFrames Demo AuthDemo.
From Stdlib Require Import Ascii String.
From stdpp Require Import strings.

Local Open Scope string_scope.
Local Open Scope list_scope.
Local Open Scope pv_scope.

(** The requests that touch device grants; a revocation of sessions revokes the grants they approved. *)
Inductive GrantOp :=
| go_create (clientName : option string)
| go_decide (approver : Approver) (userCode : string) (decision : GrantDecision) (totp : option string) (meta : RequestMeta)
| go_poll (deviceCode : string) (meta : RequestMeta)
| go_revoke (sessionIds : list Uuid) (now : Date).

Definition isFinal (s : GrantStatus) : Prop := s = grantDenied \/ s = grantConsumed \/ s = grantRevoked.

(** The primary key and uq_cli_device_grants_device_code_hash. *)
Definition GrantsOk (a : AuthDb) : Prop :=
  NoDup (map dg_id (au_deviceGrants a)) /\ NoDup (map dg_deviceCodeHash (au_deviceGrants a)).

(** The grant [i] of the device code hash [h] has the status [st]. *)
Definition grantHas (i : Uuid) (h : string) (st : GrantStatus) (a : AuthDb) : Prop :=
  GrantsOk a /\ exists g, g ∈ au_deviceGrants a /\ dg_id g = i /\ dg_deviceCodeHash g = h /\ dg_status g = st.

Lemma grantHas_other i h st a a' : au_deviceGrants a' = au_deviceGrants a -> grantHas i h st a -> grantHas i h st a'.
Proof. unfold grantHas, GrantsOk. by intros ->. Qed.

Lemma GrantsOk_update a p f :
  (forall g, dg_id (f g) = dg_id g /\ dg_deviceCodeHash (f g) = dg_deviceCodeHash g) -> GrantsOk a ->
  GrantsOk (a <| au_deviceGrants ::= map_where p f |>).
Proof.
  intros Hf [Hi Hh]. split; cbn.
  - rewrite (map_where_proj dg_id); [done|]. intros g. apply Hf.
  - rewrite (map_where_proj dg_deviceCodeHash); [done|]. intros g. apply Hf.
Qed.

Lemma grantHas_update i h st a p f :
  (forall g, dg_id (f g) = dg_id g /\ dg_deviceCodeHash (f g) = dg_deviceCodeHash g) ->
  (forall g, dg_id g = i -> dg_status g = st -> p g = false) ->
  grantHas i h st a -> grantHas i h st (a <| au_deviceGrants ::= map_where p f |>).
Proof.
  intros Hf Hp [HG (g & Hg & Ei & Eh & Es)]. split; [by apply GrantsOk_update|].
  exists g. split; [|done]. cbn. apply elem_of_map_where. exists g. split; [done|]. by rewrite (Hp g Ei Es).
Qed.

Lemma grantHas_insert i h st a g :
  (forall r, r ∈ au_deviceGrants a -> deviceGrantConflict g r = false) ->
  grantHas i h st a -> grantHas i h st (a <| au_deviceGrants ::= fun l => (l ++ [g])%list |>).
Proof.
  intros Hc [[Hi Hh] (x & Hx & E)]. split; [split|exists x; split; [cbn; apply elem_of_app; by left|done]]; cbn; rewrite map_app.
  - apply NoDup_app. split; [done|]. split; [|apply NoDup_singleton].
    intros y (r & -> & Hr)%elem_of_map Ey%list_elem_of_singleton. specialize (Hc r Hr).
    unfold deviceGrantConflict in Hc. bool_simpl. cbn in *. congruence.
  - apply NoDup_app. split; [done|]. split; [|apply NoDup_singleton].
    intros y (r & -> & Hr)%elem_of_map Ey%list_elem_of_singleton. specialize (Hc r Hr).
    unfold deviceGrantConflict in Hc. bool_simpl. cbn in *. congruence.
Qed.

Section device.
Context `{Locale, Platform, NodeCrypto, Env, Unicode, OtpValidate}.

Definition runGrantOp (op : GrantOp) : M unit :=
  match op with
  | go_create c => discard (createDeviceGrant c)
  | go_decide a u d t m => discard (withOrg (decideDeviceGrant a u d t m))
  | go_poll c m => discard (pollDeviceGrant c m)
  | go_revoke l now => withOrg (revokeDeviceGrantsForSessions l now)
  end.
Definition runGrantOps (ops : list GrantOp) (w : World) : World := foldl (fun w op => snd (runGrantOp op w)) w ops.

Section final.
Context (i : Uuid) (h : string) (st : GrantStatus) (Hfinal : isFinal st).
Notation has := (fun db => grantHas i h st (db_auth db)).
Notation W := (fun _ : Db -> Db => True).

Lemma final_not s : isFinal s -> s <> grantPending /\ s <> grantApproved.
Proof. by intros [->|[->| ->]]. Qed.

Lemma has_updateGrant j f :
  j <> i -> (forall g, dg_id (f g) = dg_id g /\ dg_deviceCodeHash (f g) = dg_deviceCodeHash g) ->
  preserves has W (updateGrant j f).
Proof.
  intros Hj Hf. unfold updateGrant. apply preserves_bind; [|intros ?; preserve]. apply preserves_updateWhere.
  intros db. apply (grantHas_update i h st (db_auth db)); [exact Hf|]. intros g <- _. by apply bool_decide_eq_false.
Qed.

(** Statements on the other tables. *)
Ltac other :=
  repeat first
    [ apply auth_writeHuman
    | apply preserves_updateWhere; intros ? HP; exact HP
    | apply preserves_deleteWhere; intros ? HP; exact HP
    | apply preserves_insertRow; intros ? HP _; exact HP
    | progress preserve ].

Lemma has_grantAudit o u e g m : preserves has W (grantAudit o u e g m).
Proof. unfold grantAudit, firstActorTokenIdForUser. apply preserves_bind; [other|]. intros ?. apply preserves_bind; [apply (auth_writeHuman (grantHas i h st))|intros ?; other]. Qed.

Lemma has_totp u t : preserves has W (verifyConfirmedLoginTotp u t).
Proof.
  unfold verifyConfirmedLoginTotp, loadConfirmedEnrollmentForUpdate, validateEnrollmentTotp, recordTotpUse,
    deletePendingEnrollmentForUser. other.
Qed.

Lemma has_create c : preserves has W (createDeviceGrant c).
Proof.
  assert (Hins : forall d u n, preserves has W (withOrg (insertGrant d u c n))).
  { intros d u n. apply preserves_withOrg, preserves_ok. unfold insertGrant. apply preserves_bind; [other|]. intros ?.
    apply preserves_bind; [|intros ?; other]. apply preserves_insertRow. intros db HP Hc.
    by apply (grantHas_insert i h st (db_auth db)). }
  assert (Hdraw : forall n, preserves has W (drawUserCode n)).
  { induction n as [|n IH]; cbn [drawUserCode]; [other|]. apply preserves_bind; [by intros w|]. intros ?.
    apply preserves_bind; [done|]. intros ?. other. }
  unfold createDeviceGrant. apply preserves_bind; [other|]. intros ?. apply preserves_bind; [by intros w|]. intros ?.
  apply preserves_bind; [apply Hdraw|]. intros ?. apply preserves_catch.
  - apply preserves_bind; [apply Hins|]. intros ?. other.
  - intros [] ; try solve [other]. apply preserves_bind; [by intros w|]. intros ?. apply preserves_bind; [apply Hdraw|]. intros ?.
    apply preserves_bind; [apply Hins|]. intros ?. other.
Qed.

Lemma has_revoke l now : preserves has W (revokeDeviceGrantsForSessions l now).
Proof.
  unfold revokeDeviceGrantsForSessions. destruct l as [|x l]; [other|]. apply preserves_bind.
  - apply preserves_updateWhere. intros db. apply (grantHas_update i h st (db_auth db)); [done|].
    intros g _ Es. destruct (final_not st Hfinal) as [_ Hne]. rewrite Es.
    rewrite (bool_decide_eq_false_2 (st = grantApproved)) by done. by rewrite andb_false_r.
  - intros revoked. apply preserves_forEachSequential. intros g. destruct (dg_orgId g), (dg_userId g); solve [apply has_grantAudit | other].
Qed.

(** A grant read with another status is another grant. *)
Lemma has_other db g p :
  has db -> head (List.filter p (db_deviceGrants db)) = Some g -> dg_status g <> st -> dg_id g <> i.
Proof.
  intros [[Hi _] (x & Hx & Ex & _ & Es)] [_ Hg]%head_elem_of%elem_of_lfilter Hne E. apply Hne. rewrite <- Es. f_equal.
  apply (NoDup_key_inj dg_id (db_deviceGrants db)); [exact Hi|done|done|congruence].
Qed.

Lemma has_decide a c d t m : preserves has W (decideDeviceGrant a c d t m).
Proof.
  unfold decideDeviceGrant. apply preserves_bind; [other|]. intros now w HP. apply wp_bind.
  unfold lockGrantByUserCode. apply wp_bind_first, wp_ret.
  destruct (head _) as [g|] eqn:Eg; [|by destruct (deviceCodeHashesEqual _ _)].
  destruct (deviceCodeHashesEqual _ _); [|done].
  destruct (negb (dg_status g =? grantPending) || isExpired g now) eqn:Eb; [done|].
  assert (Hj : dg_id g <> i).
  { eapply has_other; [apply HP|exact Eg|]. bool_simpl. destruct (final_not st Hfinal). congruence. }
  revert w HP Eg. match goal with |- forall w, _ -> _ -> wp ?k _ w => intros w HP _; enough (Hk : preserves has W k) by by apply Hk end.
  destruct (d =? decide_deny).
  { apply preserves_bind; [by apply has_updateGrant|]. intros ?. apply preserves_bind; [apply has_grantAudit|]. intros ?. other. }
  apply preserves_bind; [unfold platformOperator; other|]. intros op. apply preserves_bind.
  { destruct op; [|other]. unfold applyStepUp. apply preserves_bind; [apply has_totp|]. intros []; try solve [other].
    - apply preserves_bind; [apply has_updateGrant; [done|intros ?; cbv beta; by match goal with |- context [if ?b then _ else _] => destruct b end]|]. intros ?. other.
    - apply preserves_bind; [apply has_updateGrant; [done|intros ?; cbv beta; by match goal with |- context [if ?b then _ else _] => destruct b end]|]. intros ?. other. }
  intros [r|]; [other|]. apply preserves_bind; [by apply has_updateGrant|]. intros ?.
  apply preserves_bind; [apply has_grantAudit|]. intros ?. other.
Qed.

Lemma has_issueSession u m now : preserves has W (issueUserSessionInTx u m now).
Proof.
  unfold issueUserSessionInTx, insertUserRefreshToken, platformOperator.
  apply preserves_bind; [other|]. intros ?. apply preserves_bind; [other|]. intros ?. apply preserves_bind; [other|]. intros ?.
  apply preserves_bind; [other|]. intros ?. apply preserves_bind; [by intros w|]. intros ?. other.
Qed.

Lemma has_issue g m now : dg_id g <> i -> preserves has W (issueFromGrant g m now).
Proof.
  intros Hj. unfold issueFromGrant. destruct (dg_userId g); [|other].
  apply preserves_bind; [apply has_issueSession|]. intros ?. apply preserves_bind; [by apply has_updateGrant|]. intros ?.
  apply preserves_bind; [destruct (dg_orgId g); [apply has_grantAudit|other]|]. intros ?. other.
Qed.

Lemma terminalPoll_none g now : terminalPoll g now = None -> dg_status g = grantPending \/ dg_status g = grantApproved.
Proof. unfold terminalPoll. destruct (dg_status g); rewrite ?orb_true_r; auto; by destruct (isExpired g now). Qed.

Lemma has_approverLive g : preserves has W (approverSessionLive g).
Proof. unfold approverSessionLive. other. Qed.

Lemma has_poll c m : preserves has W (pollDeviceGrant c m).
Proof.
  unfold pollDeviceGrant. apply preserves_bind; [other|]. intros now. cbv zeta. apply preserves_withOrg, preserves_ok.
  intros w HP. apply wp_bind_first. unfold pollLockedGrant.
  destruct (head _) as [g|] eqn:Eg; [|done]. destruct (deviceCodeHashesEqual _ _); [|done].
  destruct (terminalPoll g now) as [r|] eqn:Et; [done|].
  assert (Hj : dg_id g <> i).
  { eapply has_other; [apply HP|exact Eg|]. destruct (final_not st Hfinal).
    destruct (terminalPoll_none g now Et) as [-> | ->]; congruence. }
  match goal with |- wp ?k _ _ => enough (Hk : preserves has W k) by by apply Hk end.
  destruct (polledTooSoon g now).
  { cbv zeta. apply preserves_bind; [by apply has_updateGrant|]. intros ?. other. }
  apply preserves_bind; [by apply has_updateGrant|]. intros ?. destruct (dg_status g =? grantPending); [other|].
  apply preserves_bind; [apply has_approverLive|]. intros []; cbn [negb].
  - apply preserves_bind; [by apply has_issue|]. intros ?. other.
  - apply preserves_bind; [|intros ?; other]. unfold markRevoked. apply preserves_bind; [by apply has_updateGrant|]. intros ?.
    destruct (dg_orgId g), (dg_userId g); solve [apply has_grantAudit | other].
Qed.

Lemma has_ops ops w : grantHas i h st (db_auth (w_db w)) -> grantHas i h st (db_auth (w_db (runGrantOps ops w))).
Proof.
  revert w. induction ops as [|op ops IH]; intros w HP; [done|]. cbn. apply IH.
  assert (Hop : preserves has W (runGrantOp op)).
  { destruct op; cbn; unfold discard.
    - apply preserves_bind; [apply has_create|]. intros ?. other.
    - apply preserves_bind; [apply preserves_withOrg, preserves_ok, has_decide|]. intros ?. other.
    - apply preserves_bind; [apply has_poll|]. intros ?. other.
    - apply preserves_withOrg, preserves_ok, has_revoke. }
  apply (wp_snd (runGrantOp op) (fun w' => has (w_db w'))). eapply wp_mono; [by apply Hop|]. by intros o w' [].
Qed.
End final.

(** ** The session of a grant *)

Lemma GrantsOk_read db p g h :
  GrantsOk (db_auth db) -> (forall x, p x = true -> dg_deviceCodeHash x = h) ->
  head (List.filter p (db_deviceGrants db)) = Some g -> grantHas (dg_id g) h (dg_status g) (db_auth db).
Proof. intros HG Hp [Hg Hin]%head_elem_of%elem_of_lfilter. split; [done|]. exists g. auto. Qed.

Lemma updateGrant_sets i h st st' f w :
  grantHas i h st (db_auth (w_db w)) ->
  (forall g, dg_id (f g) = dg_id g /\ dg_deviceCodeHash (f g) = dg_deviceCodeHash g) ->
  (forall g, dg_status g = st -> dg_status (f g) = st') ->
  grantHas i h st' ((db_auth (w_db w)) <| au_deviceGrants ::= map_where (fun g => dg_id g =? i) f |>).
Proof.
  intros [HG (g & Hg & Ei & Eh & Es)] Hf Hst. split; [by apply GrantsOk_update|]. exists (f g).
  destruct (Hf g) as [-> ->]. split; [|auto]. cbn. apply elem_of_map_where. exists g. split; [done|].
  by rewrite bool_decide_eq_true_2.
Qed.

Lemma issue_consumes g h st m now w :
  grantHas (dg_id g) h st (db_auth (w_db w)) ->
  wp (issueFromGrant g m now) (fun o w' => forall s, o = Ok s -> grantHas (dg_id g) h grantConsumed (db_auth (w_db w'))) w.
Proof.
  intros HP. unfold issueFromGrant. destruct (dg_userId g) as [u|]; [|done].
  apply wp_bind. eapply wp_mono; [apply (has_issueSession (dg_id g) h st); by split|]. intros [s|e] w1 [HP1 _]; [|done].
  unfold updateGrant. apply wp_bind, wp_bind_update, wp_ret.
  pose proof (updateGrant_sets (dg_id g) h st grantConsumed
    (fun g => g <| dg_status := grantConsumed |> <| dg_consumedAt := Some now |> <| dg_sessionId := Some (ius_sessionId s) |>)
    w1 HP1 ltac:(done) ltac:(done)) as HP2.
  apply wp_bind. destruct (dg_orgId g) as [o|].
  - eapply wp_mono; [apply (has_grantAudit (dg_id g) h grantConsumed); by split|]. intros [t|e] w2 [HP3 _]; [|done].
    apply wp_ret. by intros s' _.
  - apply wp_ret, wp_ret. by intros s' _.
Qed.

Lemma poll_consumes c m w :
  GrantsOk (db_auth (w_db w)) ->
  wp (pollDeviceGrant c m) (fun o w' => forall s, o = Ok (poll_session s) ->
    exists i, grantHas i (hashDeviceCode c) grantConsumed (db_auth (w_db w'))) w.
Proof.
  intros HG. unfold pollDeviceGrant. apply wp_newDate. cbv zeta. apply wp_withOrg. apply wp_bind_first. unfold pollLockedGrant.
  destruct (head _) as [g|] eqn:Eg; [|done]. destruct (deviceCodeHashesEqual _ _); [|done]. cbn [negb].
  destruct (terminalPoll g _) as [r|] eqn:Et.
  { apply wp_ret. intros s [= ->]. revert Et. unfold terminalPoll. by repeat case_match. }
  destruct (polledTooSoon g _); [by apply wp_bind, wp_bind_update, wp_ret|].
  apply (GrantsOk_read (w_db w) _ g (hashDeviceCode c)) in Eg; [|exact HG|intros x Hx; by bool_simpl].
  unfold updateGrant. apply wp_bind, wp_bind_update, wp_ret.
  match goal with |- context [map_where _ ?f] =>
    pose proof (updateGrant_sets _ _ _ (dg_status g) f w Eg ltac:(done) ltac:(done)) as HP end.
  destruct (dg_status g =? grantPending); [done|]. apply wp_bind.
  eapply wp_mono; [apply (has_approverLive (dg_id g) (hashDeviceCode c) (dg_status g)); split; [exact HP|done]|].
  intros [[]|e] w1 [HP1 _]; cbn [negb]; [| |done].
  - apply wp_bind. eapply wp_mono; [eapply issue_consumes; exact HP1|]. intros [s|e] w2 Hs; [|done]. apply wp_ret.
    intros s' _. exists (dg_id g). by eapply Hs.
  - apply wp_bind, wp_intro. intros [?|?] w2 _; [|done]. by apply wp_ret.
Qed.

(** A consumed grant: the poll tells so and writes nothing. *)
Lemma poll_consumed i c m w :
  grantHas i (hashDeviceCode c) grantConsumed (db_auth (w_db w)) ->
  wp (pollDeviceGrant c m) (fun o w' => o = Ok poll_expired /\ w_db w' = w_db w) w.
Proof.
  intros [[_ Hh] (g & Hg & Ei & Eh & Es)]. unfold pollDeviceGrant. apply wp_newDate. cbv zeta. apply wp_withOrg, wp_bind_first.
  change (db_deviceGrants _) with (db_deviceGrants (w_db w)).
  rewrite (filter_unique dg_deviceCodeHash (db_deviceGrants (w_db w)) g); [|exact Hh|exact Hg|by apply bool_decide_eq_true|
    intros y _ Hy; bool_simpl; congruence].
  cbn [head]. unfold pollLockedGrant, deviceCodeHashesEqual, terminalPoll. cbn [default]. rewrite Eh, Es.
  rewrite (bool_decide_eq_true_2 (fromHex _ = _)) by done. cbn [negb].
  rewrite (bool_decide_eq_true_2 (grantConsumed = grantConsumed)) by done. rewrite orb_true_r. by apply wp_ret.
Qed.

(** C36: a device code yields one session: after the poll that issued it, and whatever device requests come in
    between, every further poll with that code says the code has expired and writes nothing. *)
Theorem device_code_single_session c m w s w1 ops m' :
  GrantsOk (db_auth (w_db w)) -> pollDeviceGrant c m w = (Ok (poll_session s), w1) ->
  exists w', pollDeviceGrant c m' (runGrantOps ops w1) = (Ok poll_expired, w') /\ w_db w' = w_db (runGrantOps ops w1).
Proof.
  intros HG E. destruct (wp_elim _ _ _ _ _ (poll_consumes c m w HG) E s eq_refl) as [i Hi].
  apply (has_ops i _ _ (or_intror (or_introl eq_refl)) ops) in Hi.
  destruct (pollDeviceGrant c m' (runGrantOps ops w1)) as [o w'] eqn:E'.
  destruct (wp_elim _ _ _ _ _ (poll_consumed i c m' _ Hi) E') as [-> Hw]. by exists w'.
Qed.
End device.

(** ** Witness *)

#[local] Existing Instances byteLocale toyPlatform toyCrypto toyEnv asciiUnicode toyOtpValidate.

(** A minute later: the organisation's audit writes are not counted any more. *)
Definition rested : World := Eval vm_compute in signedIn <| w_db ::= fun db => db <| db_usage := [] |> |>.
Definition grantOutcome : string * string := Eval vm_compute in
  match fst (createDeviceGrant None rested) with Ok p => p | Throw _ => ("", "") end.
Definition approverAda : Approver := Eval vm_compute in MkApprover 7 1 (ses_id demoSession).
Definition approvedGrant : World := Eval vm_compute in
  runGrantOps [go_create None; go_decide approverAda (snd grantOutcome) decide_approve None noMeta] rested.
Definition polledSession : IssuedUserSession := Eval vm_compute in
  match fst (pollDeviceGrant (fst grantOutcome) noMeta approvedGrant) with
  | Ok (poll_session s) => s
  | _ => MkIssuedUserSession 0 0 false 0 0 0 ""
  end.
Definition polledWorld : World := Eval vm_compute in snd (pollDeviceGrant (fst grantOutcome) noMeta approvedGrant).

Lemma GrantsOk_approved : GrantsOk (db_auth (w_db approvedGrant)).
Proof. split; apply (bool_decide_unpack _); vm_compute; exact I. Qed.

Lemma device_code_single_session_witness :
  exists w', pollDeviceGrant (fst grantOutcome) noMeta
               (runGrantOps [go_decide approverAda (snd grantOutcome) decide_approve None noMeta; go_create None] polledWorld) =
             (Ok poll_expired, w') /\
    w_db w' = w_db (runGrantOps [go_decide approverAda (snd grantOutcome) decide_approve None noMeta; go_create None] polledWorld).
Proof.
  refine (device_code_single_session (fst grantOutcome) noMeta approvedGrant polledSession polledWorld _ noMeta GrantsOk_approved _).
  vm_compute. reflexivity.
Defined.
