(* ===== verification/MfaTheorems.v ===== *)
(** * One-time codes: what a guesser can do

    A challenge takes a bounded number of wrong codes; a code is taken once; the
    recovery codes are distinct and well-formed, and drawing them ends. *)

From S2P Require Import Prelude Js Crypto FieldSet AuthStore Store Tx QuotaGate AuditLog Notifications Frames Sessions Authenticate Mfa SessionFrames Demo AuthDemo.
From Stdlib Require Import Ascii String.
From stdpp Require Import strings gmap.

Local Open Scope string_scope.
Local Open Scope list_scope.
Local Open Scope pv_scope.

Section mfa.
Context `{Locale, Platform, NodeCrypto, Env, Unicode, OtpValidate, Passwords}.

(** ** The attempts of a challenge *)

(** How many wrong codes the challenge still takes. *)
Definition attemptsLeft (tokenHash : string) (a : AuthDb) : Z :=
  match head (List.filter (fun p => pm_tokenHash p =? tokenHash) (au_pendingMfa a)) with
  | None => 0
  | Some row => Z.max 0 (MFA_LOGIN_MAX_ATTEMPTS - 1 - pm_attemptCount row)
  end.

Lemma attemptsLeft_nonneg h a : (0 <= attemptsLeft h a)%Z.
Proof. unfold attemptsLeft. destruct (head _); lia. Qed.

Lemma attemptsLeft_deleted h a :
  attemptsLeft h (a <| au_pendingMfa ::= List.filter (fun r => negb (pm_tokenHash r =? h)) |>) = 0%Z.
Proof.
  unfold attemptsLeft. cbn. rewrite lfilter_none; [done|]. intros x [Hx _]%elem_of_lfilter. by destruct (pm_tokenHash x =? h).
Qed.

Notation Left h n := (fun db => attemptsLeft h (db_auth db) = n).
Notation W := (fun _ : Db -> Db => True).

Ltac other :=
  repeat first
    [ apply auth_writeHuman
    | apply preserves_updateWhere; intros ? HP; exact HP
    | apply preserves_deleteWhere; intros ? HP; exact HP
    | apply preserves_insertRow; intros ? HP _; exact HP
    | progress preserve ].

Lemma pending_totp l u t : preserves (fun db => db_pendingMfa db = l) W (verifyConfirmedLoginTotp u t).
Proof.
  unfold verifyConfirmedLoginTotp, loadConfirmedEnrollmentForUpdate, validateEnrollmentTotp, recordTotpUse,
    deletePendingEnrollmentForUser. other.
Qed.

Lemma left_record h n row m r : preserves (Left h n) W (recordInvalidTotpFailure row m r).
Proof.
  unfold recordInvalidTotpFailure. apply preserves_bind.
  - unfold tryWriteLoginFailedAudit, firstActorTokenIdForUser. apply preserves_catch; [|intros ?; other].
    apply preserves_transaction, preserves_ok. apply preserves_bind; [other|]. intros ?. unfold humanAudit.
    apply preserves_bind; [apply (auth_writeHuman (fun a => attemptsLeft h a = n))|]. intros ?. other.
  - intros ?. destruct r; [other|]. unfold attemptedEmailForUser. apply preserves_bind; [other|]. intros ?.
    unfold recordFailedAuthAttempt. destruct (negb _); [other|]. apply preserves_bind; [other|]. intros ?.
    apply preserves_bind; [other|]. intros ?. by intros w.
Qed.

Definition attemptPost (h : string) (n : Z) (o : Outcome VerifyLoginOutcome) (w' : World) : Prop :=
  (attemptsLeft h (db_auth (w_db w')) + (if o is Ok login_invalid_totp then 1 else 0) <= n)%Z.

Lemma wp_deletePending {A} h (k : unit -> M A) (Q : Outcome A -> World -> Prop) w :
  wp (k tt) Q (w <| w_db ::= fun db => db <| db_pendingMfa ::= List.filter (fun r => negb (pm_tokenHash r =? h)) |> |>) ->
  wp (deletePendingSession h ≫= k) Q w.
Proof. done. Qed.

Lemma deleted_post h n w :
  (0 <= n)%Z ->
  attemptPost h n (Ok login_mfa_token_expired)
    (w <| w_db ::= fun db => db <| db_pendingMfa ::= List.filter (fun r => negb (pm_tokenHash r =? h)) |> |>).
Proof.
  intros Hn. unfold attemptPost.
  etransitivity; [|exact Hn]. apply Z.eq_le_incl. rewrite Z.add_0_r. apply (attemptsLeft_deleted h (db_auth (w_db w))).
Qed.

Lemma consumeInvalid_attempts h row m r w :
  head (List.filter (fun p => pm_tokenHash p =? h) (db_pendingMfa (w_db w))) = Some row -> pm_tokenHash row = h ->
  (pm_attemptCount row < MFA_LOGIN_MAX_ATTEMPTS)%Z ->
  wp (consumeInvalidAttempt row m r)
    (fun o w' => match o with Ok _ => attemptPost h (attemptsLeft h (db_auth (w_db w))) o w' | Throw _ => True end) w.
Proof.
  intros Ehd Eh Hlt. pose proof (attemptsLeft_nonneg h (db_auth (w_db w))) as Hn.
  unfold consumeInvalidAttempt. cbv zeta. case_bool_decide as Hc.
  - apply wp_bind, wp_intro. intros [?|e] w1 _; [|done]. rewrite Eh. apply wp_deletePending, wp_ret. by apply deleted_post.
  - rewrite Eh. apply wp_bind_update. apply wp_bind.
    match goal with |- wp _ _ ?w1 => set (w1' := w1) end.
    assert (Hl : (attemptsLeft h (db_auth (w_db w1')) + 1 <= attemptsLeft h (db_auth (w_db w)))%Z).
    { unfold attemptsLeft.
      change (au_pendingMfa (db_auth (w_db w1'))) with
        (map_where (fun p => pm_tokenHash p =? h) (fun p => p <| pm_attemptCount := (pm_attemptCount row + 1)%Z |>)
           (db_pendingMfa (w_db w))).
      rewrite (head_filter_map_where (fun p => pm_tokenHash p =? h)) by done.
      change (au_pendingMfa (db_auth (w_db w))) with (db_pendingMfa (w_db w)). rewrite Ehd. cbn.
      rewrite Eh, bool_decide_eq_true_2 by done. cbn. lia. }
    eapply wp_mono; [apply (left_record h (attemptsLeft h (db_auth (w_db w1')))); by split|].
    intros [?|e] w2 [Hw2 _]; [|done]. apply wp_ret. unfold attemptPost. rewrite Hw2. exact Hl.
Qed.

Lemma verifyLogin_attempts h totp m w :
  wp (withOrg (verifyLoginInTx h totp m)) (attemptPost h (attemptsLeft h (db_auth (w_db w)))) w.
Proof.
  pose proof (attemptsLeft_nonneg h (db_auth (w_db w))) as Hn.
  apply wp_withOrg. set (w0 := w <| w_tick ::= S |> <| w_now := clock (w_tick w) |>).
  apply (wp_mono _ (fun o w' => match o with Ok _ => attemptPost h (attemptsLeft h (db_auth (w_db w))) o w' | Throw _ => True end)).
  2: { intros [?|e] w'; [done|]. intros _. unfold attemptPost. cbn. lia. }
  unfold verifyLoginInTx. apply wp_bind_first. change (w_db w0) with (w_db w).
  destruct (head _) as [row|] eqn:Ehd.
  2: { apply wp_ret. unfold attemptPost. change (w_db w0) with (w_db w). lia. }
  assert (Eh : pm_tokenHash row = h) by (apply head_elem_of, elem_of_lfilter in Ehd as [? _]; by bool_simpl).
  apply wp_dbNow. destruct (_ || _) eqn:Eb; [by apply wp_deletePending, wp_ret, deleted_post|].
  assert (Hlt : (pm_attemptCount row < MFA_LOGIN_MAX_ATTEMPTS)%Z) by (unfold isAttemptCapped in Eb; bool_simpl; lia).
  clear Eb. apply wp_bind.
  eapply (wp_mono _ (fun _ w' => db_pendingMfa (w_db w') = db_pendingMfa (w_db w))).
  { eapply wp_mono; [apply (pending_totp (db_pendingMfa (w_db w))); by split|]. by intros o w' []. }
  intros [r|e] w1 E1; [|done].
  assert (El : attemptsLeft h (db_auth (w_db w)) = attemptsLeft h (db_auth (w_db w1))).
  { unfold attemptsLeft. change (au_pendingMfa (db_auth (w_db w1))) with (db_pendingMfa (w_db w1)). by rewrite E1. }
  destruct r.
  - apply wp_bind, wp_intro. intros [?|e] w2 _; [|done]. apply wp_bind, wp_intro. intros [s|e] w3 _; [|done].
    apply wp_bind, wp_intro. intros [?|e] w4 _; [|done]. apply wp_deletePending, wp_ret. by apply deleted_post.
  - rewrite El. apply consumeInvalid_attempts; [by rewrite E1|done|done].
  - rewrite El. apply consumeInvalid_attempts; [by rewrite E1|done|done].
  - by apply wp_deletePending, wp_ret, deleted_post.
Qed.

(** The codes tried against one challenge, and how many of them were answered "wrong code, try again". *)
Fixpoint wrongAnswers (tokenHash : string) (tries : list (string * RequestMeta)) (w : World) : Z :=
  match tries with
  | [] => 0
  | (code, meta) :: tries' =>
      let '(o, w') := withOrg (verifyLoginInTx tokenHash code meta) w in
      ((if o is Ok login_invalid_totp then 1 else 0) + wrongAnswers tokenHash tries' w')%Z
  end.

(** C35: a login challenge answers "wrong code, try again" at most MFA_LOGIN_MAX_ATTEMPTS - 1 times less the wrong
    attempts it has already counted, however many codes are tried; in particular a challenge that was just
    created (no attempt counted) is dead after MFA_LOGIN_MAX_ATTEMPTS wrong codes. *)
Theorem mfa_attempts_bounded tokenHash tries w :
  (wrongAnswers tokenHash tries w <= attemptsLeft tokenHash (db_auth (w_db w)))%Z.
Proof.
  revert w. induction tries as [|[code meta] tries IH]; intros w; [apply attemptsLeft_nonneg|].
  cbn [wrongAnswers]. destruct (withOrg (verifyLoginInTx tokenHash code meta) w) as [o w'] eqn:E.
  pose proof (wp_elim _ _ _ _ _ (verifyLogin_attempts tokenHash code meta w) E) as Hp. unfold attemptPost in Hp.
  specialize (IH w'). lia.
Qed.

(** ** A one-time code *)

Lemma recordTotpUse_true u counter t w w1 :
  recordTotpUse u counter t w = (Ok true, w1) ->
  exists r, r ∈ db_usedCodes (w_db w1) /\ tuc_userId r = u /\ tuc_codeHash r = createTotpReplayHash u counter t.
Proof.
  unfold recordTotpUse, genRandomUuid, mbind, M_bind, catch, insertRow. cbv zeta beta.
  destruct (existsb _ _); intros [= <-]. eexists. split; [|split].
  - cbn. apply elem_of_app. right. by apply list_elem_of_singleton.
  - done.
  - done.
Qed.

Lemma recordTotpUse_false u counter t w r :
  r ∈ db_usedCodes (w_db w) -> tuc_userId r = u -> tuc_codeHash r = createTotpReplayHash u counter t ->
  wp (recordTotpUse u counter t) (fun o w' => o = Ok false /\ w_db w' = w_db w) w.
Proof.
  intros Hr Eu Eh. unfold recordTotpUse. cbv zeta. apply wp_genRandomUuid, wp_catch. unfold wp at 1, mbind, M_bind, insertRow.
  match goal with |- context [existsb ?f ?l] => assert (Ee : existsb f l = true) end.
  { apply existsb_exists. exists r. split; [by apply list_elem_of_In|]. unfold usedCodeConflict. cbn.
    rewrite Eu, Eh, (bool_decide_eq_true_2 (u = u)), (bool_decide_eq_true_2 (createTotpReplayHash u counter t = _)) by done.
    by rewrite orb_true_r. }
  by rewrite Ee.
Qed.

Lemma validate_valid u e t w w1 plain :
  withSecretText (mfa_secretEncrypted e) w = (Ok plain, w) ->
  validateEnrollmentTotp u e t false w = (Ok totp_valid, w1) ->
  exists counter, validateTotpCode (secretBase32 plain) (removeSpaces t) (clock (w_tick w)) = Some counter /\
    exists r, r ∈ db_usedCodes (w_db w1) /\ tuc_userId r = u /\
      tuc_codeHash r = createTotpReplayHash u counter (removeSpaces t).
Proof.
  intros Ep. unfold validateEnrollmentTotp, catch. unfold mbind at 1, M_bind at 1. rewrite Ep. cbv zeta beta iota.
  unfold mbind at 1, M_bind at 1, newDate. cbv beta iota.
  destruct (validateTotpCode _ _ _) as [counter|]; [|by cbn].
  unfold mbind at 1, M_bind at 1. destruct (recordTotpUse _ _ _ _) as [[[]|[]] w2] eqn:Er; try by cbn.
  intros [= <-]. exists counter. split; [done|]. by eapply recordTotpUse_true.
Qed.

Lemma validate_replayed u e t w plain counter r :
  withSecretText (mfa_secretEncrypted e) w = (Ok plain, w) ->
  validateTotpCode (secretBase32 plain) (removeSpaces t) (clock (w_tick w)) = Some counter ->
  r ∈ db_usedCodes (w_db w) -> tuc_userId r = u -> tuc_codeHash r = createTotpReplayHash u counter (removeSpaces t) ->
  wp (validateEnrollmentTotp u e t false) (fun o w' => o = Ok totp_replayed_code /\ w_db w' = w_db w) w.
Proof.
  intros Ep Ev Hr Eu Eh. unfold validateEnrollmentTotp. eapply wp_bind_eq; [exact Ep|]. apply wp_catch. cbv zeta.
  apply wp_newDate. rewrite Ev. apply wp_bind.
  eapply wp_mono; [eapply (recordTotpUse_false _ _ _ _ r); [exact Hr|done|done]|].
  intros o w' [-> Hw]. by apply wp_ret.
Qed.

(** A one-time code is taken once: when the code of a user was valid, the same code for the same period, at any
    later time at which the used codes of then are still recorded, is answered "replayed", and nothing is written. *)
Theorem totp_code_taken_once u code e plain w w1 w2 :
  let enrollmentOf := fun db => head (List.filter (fun e => (mfa_userId e =? u) && (mfa_status e =? enrollmentConfirmed))
                                        (db_enrollments db)) in
  enrollmentOf (w_db w) = Some e -> enrollmentOf (w_db w2) = Some e ->
  withSecret (w_activeKey w) (mfa_secretEncrypted e) Ok = Ok plain ->
  withSecret (w_activeKey w2) (mfa_secretEncrypted e) Ok = Ok plain ->
  verifyConfirmedLoginTotp u code w = (Ok totp_valid, w1) ->
  (forall r, r ∈ db_usedCodes (w_db w1) -> r ∈ db_usedCodes (w_db w2)) ->
  validateTotpCode (secretBase32 plain) (removeSpaces code) (clock (w_tick w2)) =
    validateTotpCode (secretBase32 plain) (removeSpaces code) (clock (w_tick w)) ->
  exists w', verifyConfirmedLoginTotp u code w2 = (Ok totp_replayed_code, w') /\ w_db w' = w_db w2.
Proof.
  cbv zeta. intros E1 E2 Ep1 Ep2 Ev Hsub Ecode.
  assert (Hfind : forall w', head (List.filter (fun e => (mfa_userId e =? u) && (mfa_status e =? enrollmentConfirmed))
            (db_enrollments (w_db w'))) = Some e -> verifyConfirmedLoginTotp u code w' = validateEnrollmentTotp u e code false w').
  { intros w' E. unfold verifyConfirmedLoginTotp, loadConfirmedEnrollmentForUpdate, selectFirst, mbind, M_bind. by rewrite E. }
  rewrite (Hfind w E1) in Ev. rewrite (Hfind w2 E2).
  destruct (validate_valid u e code w w1 plain) as (counter & Hc & r & Hr & Eu & Eh); [|exact Ev|].
  { unfold withSecretText. by rewrite Ep1. }
  destruct (validateEnrollmentTotp u e code false w2) as [o w'] eqn:E.
  destruct (fun HA HB => wp_elim _ _ _ _ _ (validate_replayed u e code w2 plain counter r HA HB (Hsub r Hr) Eu Eh) E) as [-> Hw].
  - unfold withSecretText. by rewrite Ep2.
  - by rewrite Ecode.
  - by exists w'.
Qed.

(** ** The recovery codes *)

(** [randomInt(n)] is below [n]; case and white space of the characters of a code. *)
Record CodeLaws : Prop := {
  randomInt_below : forall n max, (0 < max)%N -> (randomInt n max < max)%N;
  toUpperCase_code : forall s, forallb (fun c => isRecoveryChar c || (c =? "-"%char)) (String.list_ascii_of_string s) = true ->
    toUpperCase s = s;
  removeSpaces_code : forall s, forallb (fun c => isRecoveryChar c || (c =? "-"%char)) (String.list_ascii_of_string s) = true ->
    removeSpaces s = s;
}.

Definition wellFormedCode (code : string) : Prop :=
  exists raw, code = hyphenated raw /\ isNormalizedRecoveryCode raw = true /\ normalizeRecoveryCode code = raw.

Lemma charset_recovery i : (i < 31)%N -> exists c, charsetAt i = String c EmptyString /\ isRecoveryChar c = true.
Proof.
  intros Hi.
  assert (Hall : forallb (fun i => match charsetAt i with
                                   | String c EmptyString => isRecoveryChar c
                                   | _ => false
                                   end) (map N.of_nat (seq 0 31)) = true) by (vm_compute; reflexivity).
  rewrite forallb_forall in Hall. specialize (Hall i). assert (Hin : In i (map N.of_nat (seq 0 31))).
  { apply in_map_iff. exists (N.to_nat i). split; [lia|]. apply in_seq. lia. }
  specialize (Hall Hin). destruct (charsetAt i) as [|c [|]]; try done. by exists c.
Qed.

Lemma drawRaw_spec n w (HL : CodeLaws) :
  wp (drawRaw n) (fun o w' => exists raw, o = Ok raw /\ (exists k, w' = w <| w_tick := k |>) /\ String.length raw = n /\
    forallb isRecoveryChar (String.list_ascii_of_string raw) = true) w.
Proof.
  revert w. induction n as [|n IH]; intros w; cbn [drawRaw].
  { exists "". split; [done|]. split; [exists (w_tick w); by destruct w|done]. }
  destruct (charset_recovery (randomInt (w_tick w) (N.of_nat (String.length RECOVERY_CODE_CHARSET)))) as (c & Ec & Hc).
  { eapply N.lt_le_trans; [apply (randomInt_below HL); vm_compute; reflexivity|]. vm_compute. discriminate. }
  change (wp (rest ← drawRaw n; mret (charsetAt (randomInt (w_tick w) (N.of_nat (String.length RECOVERY_CODE_CHARSET))) ++ rest)%string)
            (fun o w' => exists raw, o = Ok raw /\ (exists k, w' = w <| w_tick := k |>) /\ String.length raw = S n /\
               forallb isRecoveryChar (String.list_ascii_of_string raw) = true) (w <| w_tick ::= S |>)).
  rewrite Ec. apply wp_bind. eapply wp_mono; [apply IH|]. cbv beta. intros o w' (raw & -> & [k Ek] & Hl & Hr). subst w'. apply wp_ret.
  exists (String c raw). split; [done|]. split; [by exists k|]. cbn. by rewrite Hl, Hc, Hr.
Qed.

Lemma recovery_not_dash c : isRecoveryChar c = true -> (c =? "-"%char) = false.
Proof. intros Hc. apply bool_decide_eq_false. intros ->. vm_compute in Hc. discriminate. Qed.

Lemma hyphenated_wf raw : CodeLaws -> String.length raw = 10%nat ->
  forallb isRecoveryChar (String.list_ascii_of_string raw) = true -> wellFormedCode (hyphenated raw).
Proof.
  intros HL Hl Hr. exists raw. split; [done|]. split.
  { unfold isNormalizedRecoveryCode. by rewrite Hl, Hr, bool_decide_eq_true_2. }
  do 10 (destruct raw as [|? raw]; [done|]). destruct raw; [|done]. clear Hl. cbn in Hr.
  repeat apply andb_true_iff in Hr as [? Hr]. unfold normalizeRecoveryCode.
  match goal with |- context [hyphenated ?r] => let x := eval lazy in (hyphenated r) in change (hyphenated r) with x end.
  match goal with |- context [toUpperCase ?s] => assert (Hs : forallb (fun c => isRecoveryChar c || (c =? "-"%char)) (String.list_ascii_of_string s) = true) end.
  { cbn. repeat match goal with Hc : isRecoveryChar _ = true |- _ => rewrite Hc; clear Hc end. reflexivity. }
  rewrite (toUpperCase_code HL) by exact Hs. rewrite (removeSpaces_code HL) by exact Hs. cbn.
  repeat match goal with Hc : isRecoveryChar _ = true |- _ => rewrite (recovery_not_dash _ Hc); clear Hc end. reflexivity.
Qed.

(** The codes of the next [n] draws. *)
Fixpoint drawnCodes (n : nat) (w : World) : list string :=
  match n with
  | O => []
  | S n' => match drawRaw 10 w with
            | (Ok raw, w') => hyphenated raw :: drawnCodes n' w'
            | (Throw _, _) => []
            end
  end.
Definition distinctCodes (l : list string) : nat := length (remove_dups l).

Lemma distinct_same l k : (forall x, x ∈ l <-> x ∈ k) -> distinctCodes l = distinctCodes k.
Proof.
  intros Hx. apply Permutation_length, NoDup_Permutation; [apply NoDup_remove_dups..|]. intros x.
  by rewrite !elem_of_remove_dups.
Qed.

Lemma generate_spec fuel count codes w :
  CodeLaws -> NoDup codes -> Forall wellFormedCode codes -> (length codes <= count)%nat ->
  wp (generateRecoveryCodes fuel count codes) (fun o w' => (exists k, w' = w <| w_tick := k |>) /\ exists r, o = Ok r /\
    match r with
    | Some l => NoDup l /\ length l = count /\ Forall wellFormedCode l
    | None => (distinctCodes (codes ++ drawnCodes fuel w) < count)%nat
    end) w.
Proof.
  intros HL. revert codes w. induction fuel as [|fuel IH]; intros codes w Hd Hf Hle; cbn [generateRecoveryCodes];
    (destruct (Nat.ltb_spec (length codes) count) as [Hlt|Hge]; [|apply wp_ret; split; [exists (w_tick w); by destruct w|]; eexists; split; [done|]; repeat split; [done|lia|done]]).
  - apply wp_ret. split; [exists (w_tick w); by destruct w|]. eexists. split; [done|]. cbn [drawnCodes]. rewrite app_nil_r.
    unfold distinctCodes. rewrite (Permutation_length (l' := codes)); [exact Hlt|].
    apply NoDup_Permutation; [apply NoDup_remove_dups|done|]. intros x. by rewrite elem_of_remove_dups.
  - apply wp_bind, wp_intro. intros o w1 E. destruct (wp_elim _ _ _ _ _ (drawRaw_spec 10 w HL) E) as (raw & -> & [k Ek] & Hl & Hr).
    cbn [drawnCodes]. rewrite E. cbv zeta.
    set (codes' := if hyphenated raw ∈? codes then codes else codes ++ [hyphenated raw]).
    assert (Hcodes : NoDup codes' /\ Forall wellFormedCode codes' /\ (length codes' <= count)%nat /\
              forall x, x ∈ codes' <-> x ∈ codes \/ x = hyphenated raw).
    { unfold codes'. case_bool_decide as Hin; [|split; [|split; [|split]]].
      - split; [done|]. split; [done|]. split; [lia|]. intros x. split; [by left|]. by intros [?| ->].
      - apply NoDup_app. split; [done|]. split; [|apply NoDup_singleton]. by intros x Hx ->%list_elem_of_singleton.
      - apply Forall_app. split; [done|]. apply Forall_singleton. by apply hyphenated_wf.
      - rewrite length_app. cbn. lia.
      - intros x. rewrite elem_of_app, list_elem_of_singleton. done. }
    destruct Hcodes as (Hd' & Hf' & Hle' & Hx').
    eapply wp_mono; [by apply IH|]. cbv beta. intros o w2 ([k2 Ek2] & r & -> & Hres). split.
    { exists k2. by rewrite Ek2, Ek. }
    exists r. split; [done|]. destruct r as [l|]; [done|].
    rewrite (distinct_same (codes ++ hyphenated raw :: _) (codes' ++ drawnCodes fuel w1)); [done|].
    intros x. rewrite !elem_of_app, elem_of_cons, Hx'. tauto.
Qed.

(** Drawing the recovery codes ends: as soon as the draws contain [count] distinct codes, the loop returns
    exactly [count] codes, distinct, each two groups of five characters of the alphabet that read back as the ten
    characters the recovery route accepts; the database is not touched. *)
Theorem recovery_codes_drawn fuel count w :
  CodeLaws -> (count <= distinctCodes (drawnCodes fuel w))%nat ->
  exists codes w', generateRecoveryCodes fuel count [] w = (Ok (Some codes), w') /\ w_db w' = w_db w /\
    NoDup codes /\ length codes = count /\ Forall wellFormedCode codes.
Proof.
  intros HL Hn. destruct (generateRecoveryCodes fuel count [] w) as [o w'] eqn:E.
  assert (Hl0 : (length (@nil string) <= count)%nat) by (cbn; lia).
  destruct (wp_elim _ _ _ _ _ (generate_spec fuel count [] w HL (NoDup_nil_2) (Forall_nil_2 _) Hl0) E) as ([k ->] & r & -> & Hr).
  destruct r as [l|]; [|cbn [app] in Hr; lia]. exists l. eexists. split; [done|]. by split.
Qed.
End mfa.

(** ** Witnesses *)

#[local] Existing Instances byteLocale toyPlatform toyCrypto toyEnv asciiUnicode toyOtpValidate toyPasswords.

(** The user with the confirmed enrolment of a secret. *)
Definition enrolledWorld : World := Eval vm_compute in
  let w := snd (withOrg (enrollMfa "123456" (MkAuthPair 7 1) noMeta) authWorld) in
  w <| w_db ::= fun db => db <| db_enrollments ::= map (fun e => e <| mfa_status := enrollmentConfirmed |>) |> |>.
Definition demoEnrollment : EnrollmentRow := Eval vm_compute in
  default (MkEnrollmentRow 0 0 (MkEncryptedValue 0 "" "" "") enrollmentPending None) (head (db_enrollments (w_db enrolledWorld))).
Definition codeTaken : World := Eval vm_compute in snd (verifyConfirmedLoginTotp 7 "123 456" enrolledWorld).

Lemma totp_code_taken_once_witness :
  exists w', verifyConfirmedLoginTotp 7 "123 456" codeTaken = (Ok totp_replayed_code, w') /\ w_db w' = w_db codeTaken.
Proof.
  refine (totp_code_taken_once 7 "123 456" demoEnrollment "123456" enrolledWorld codeTaken codeTaken _ _ _ _ _ _ _);
    [vm_compute; reflexivity..| |vm_compute; reflexivity].
  intros r Hr. exact Hr.
Defined.

Lemma upperAscii_code c : isRecoveryChar c || (c =? "-"%char) = true -> upperAscii c = c /\ isWs c = false.
Proof. destruct c as [[] [] [] [] [] [] [] []]; vm_compute; (discriminate || done). Qed.

Lemma toyCodeLaws : CodeLaws.
Proof.
  split.
  - intros n max Hmax. apply N.mod_lt. lia.
  - intros s. cbn. induction s as [|c s IH]; cbn; [done|]. intros [Hc Hs]%andb_true_iff.
    destruct (upperAscii_code c Hc) as [-> _]. by rewrite IH.
  - intros s. cbn. induction s as [|c s IH]; cbn; [done|]. intros [Hc Hs]%andb_true_iff.
    destruct (upperAscii_code c Hc) as [_ ->]. by rewrite IH.
Qed.

Lemma recovery_codes_drawn_witness :
  exists codes w', generateRecoveryCodes 10 10 [] authWorld = (Ok (Some codes), w') /\ w_db w' = w_db authWorld /\
    NoDup codes /\ length codes = 10%nat /\ Forall wellFormedCode codes.
Proof. apply (recovery_codes_drawn 10 10 authWorld toyCodeLaws). vm_compute. lia. Defined.
