(* ===== verification/AuthErrors.v ===== *)
(** * Refusals

    What a refused request leaves behind: the lockout of an email, a failed
    recovery, a reused refresh token of the command line, a token of the wrong
    kind. *)

From S2P Require Import Prelude Js Crypto FieldSet AuthStore Store Tx QuotaGate AuditLog Notifications Frames Sessions Authenticate Mfa UserSessions Login Demo AuthDemo.
From Stdlib Require Import Ascii String.
From stdpp Require Import strings.

Local Open Scope string_scope.
Local Open Scope list_scope.
Local Open Scope pv_scope.

Section errors.
Context `{Locale, Platform, NodeCrypto, Env, Unicode, OtpValidate, Passwords, JwtLibrary}.

(** ** Computations that return, and the failed attempts *)

(** [m] returns, whatever the world, and records no failed attempt. *)
Definition returnsQuietly {A} (m : M A) : Prop :=
  forall w, wp m (fun o w' => (exists a, o = Ok a) /\ w_failedAttempts w' = w_failedAttempts w) w.
Definition keepsAttempts {A} (m : M A) : Prop := forall w, wp m (fun _ w' => w_failedAttempts w' = w_failedAttempts w) w.

Section rules.
Context {A B : Type}.
Lemma quiet_ret (a : A) : returnsQuietly (mret a).
Proof. intros w. split; [by exists a|done]. Qed.
Lemma quiet_bind (m : M A) (k : A -> M B) : returnsQuietly m -> (forall a, returnsQuietly (k a)) -> returnsQuietly (m ≫= k).
Proof.
  intros Hm Hk w. apply wp_bind. eapply wp_mono; [apply Hm|]. intros o w' [[a ->] E].
  eapply wp_mono; [apply Hk|]. intros o w'' [Ho E']. split; [done|congruence].
Qed.
Lemma quiet_catch (m : M A) h : keepsAttempts m -> (forall e, returnsQuietly (h e)) -> returnsQuietly (catch m h).
Proof.
  intros Hm Hh w. apply wp_catch. eapply wp_mono; [apply Hm|]. intros [a|e] w' E; [by split; [exists a|]|].
  eapply wp_mono; [apply Hh|]. intros o w'' [Ho E']. split; [done|congruence].
Qed.
Lemma quiet_withOrg (m : M A) : returnsQuietly m -> returnsQuietly (withOrg m).
Proof. intros Hm w. apply wp_withOrg. eapply wp_mono; [apply Hm|]. intros o w' [[a ->] E]. by split; [exists a|]. Qed.
Lemma keeps_quiet (m : M A) : returnsQuietly m -> keepsAttempts m.
Proof. intros Hm w. eapply wp_mono; [apply Hm|]. by intros o w' []. Qed.
Lemma undone_bind (m : M A) (k : A -> M B) : keepsAttempts m -> (forall a, keepsAttempts (k a)) -> keepsAttempts (m ≫= k).
Proof.
  intros Hm Hk w. apply wp_bind. eapply wp_mono; [apply Hm|]. intros [a|e] w' E; [|done].
  eapply wp_mono; [apply Hk|]. intros o w'' E'. congruence.
Qed.
Lemma keeps_withOrg (m : M A) : keepsAttempts m -> keepsAttempts (withOrg m).
Proof. intros Hm w. apply wp_withOrg. eapply wp_mono; [apply Hm|]. by intros [a|e] w'. Qed.
Lemma undone_usage (m : M A) : usageFrame m -> keepsAttempts m.
Proof. intros Hm w. eapply wp_mono; [apply Hm|]. by intros o w' (n & u & ->). Qed.
Lemma undone_readOnly (m : M A) : readOnly m -> keepsAttempts m.
Proof. intros Hm w. eapply wp_mono; [apply Hm|]. by intros o w' [n ->]. Qed.
End rules.

Lemma keeps_insertRow {R} (t : Db -> list R) `{!Setter t} c r : keepsAttempts (insertRow t c r).
Proof. intros w. unfold wp, insertRow. by destruct (existsb _ _). Qed.
Lemma quiet_selectFirst {R} (t : Db -> list R) p : returnsQuietly (selectFirst t p).
Proof. intros w. split; [by eexists|done]. Qed.
Lemma quiet_selectWhere {R} (t : Db -> list R) p : returnsQuietly (selectWhere t p).
Proof. intros w. split; [by eexists|done]. Qed.
Lemma quiet_firstResult {A B} (l : list A) (f : A -> M (option B)) :
  (forall a, returnsQuietly (f a)) -> returnsQuietly (firstResultSequential l f).
Proof.
  intros Hf. induction l as [|a l IH]; cbn; [apply quiet_ret|]. apply quiet_bind; [done|]. intros [b|]; [apply quiet_ret|done].
Qed.
Lemma quiet_forEachCollect {A B} (l : list A) (f : A -> M B) :
  (forall a, returnsQuietly (f a)) -> returnsQuietly (forEachCollect l f).
Proof.
  intros Hf. induction l as [|a l IH]; cbn; [apply quiet_ret|]. apply quiet_bind; [done|]. intros b.
  apply quiet_bind; [done|]. intros bs. apply quiet_ret.
Qed.

Lemma keeps_append o a t e r rt p s u : keepsAttempts (appendAuditRow o a t e r rt p s u).
Proof.
  unfold appendAuditRow, readAuditChainHead, currentAuditKeyVersion, getPreviousEntryHmac, insertAuditRow.
  repeat first [ apply keeps_insertRow | apply undone_bind; [|intros ?]
               | match goal with |- keepsAttempts (match ?x with _ => _ end) => destruct x end
               | apply undone_readOnly; solve [auto with pv] | by intros w ].
Qed.
Lemma keeps_humanAudit o a e r p m : keepsAttempts (humanAudit o a e r p m).
Proof.
  unfold humanAudit, writeHumanAuditEntry. apply undone_bind; [|intros ?; by intros w].
  apply undone_bind; [apply undone_usage, gates_frame|]. intros ?. apply keeps_append.
Qed.
Lemma keeps_insertAuditEntry o a e p m : keepsAttempts (insertAuditEntry o a e p m).
Proof.
  unfold insertAuditEntry. apply undone_bind; [apply undone_usage, gates_frame|]. intros ?.
  apply undone_bind; [apply keeps_append|]. intros ?. by intros w.
Qed.

(** [recordFailedAuthAttempt] always returns, with one more row. *)
Lemma record_adds u ip email reason w :
  FAILED_AUTH_RECORD_ENABLED = true ->
  wp (recordFailedAuthAttempt u ip email reason) (fun o w' => o = Ok tt /\ w_db w' = w_db w /\
    exists a, w_failedAttempts w' = (w_failedAttempts w ++ [a])%list /\ fa_userId a = u /\ fa_reason a = reason /\
      fa_attemptedEmail a = normalizeAttemptedEmail email) w.
Proof.
  intros He. unfold recordFailedAuthAttempt. rewrite He. cbn [negb]. apply wp_genRandomUuid, wp_newDate.
  unfold insertFailedAttempt, wp. split; [done|]. split; [done|]. by eexists.
Qed.

(** ** A failed recovery *)

Lemma quiet_activeOrg u : returnsQuietly (activeOrgForUser u).
Proof.
  unfold activeOrgForUser. apply quiet_bind; [intros w; split; [by eexists|done]|]. intros orgs.
  apply quiet_firstResult. intros org. apply quiet_bind; [apply quiet_selectFirst|]. intros ?. apply quiet_ret.
Qed.
Lemma quiet_recoverAudit s m : returnsQuietly (tryWriteFailedRecoverAudit s m).
Proof.
  unfold tryWriteFailedRecoverAudit. destruct s as [[[o|] t]|]; [|apply quiet_ret..].
  apply quiet_catch; [apply keeps_humanAudit|]. intros ?. apply quiet_ret.
Qed.

Lemma wp_recovery_refused {A} email m s u reason w (k : unit -> M A) :
  FAILED_AUTH_RECORD_ENABLED = true -> (forall x, k x = throw invalidRecoveryCredentials) ->
  wp (recordRecoveryFailure email m s u reason ≫= k)
    (fun o w' => o = Throw invalidRecoveryCredentials /\ exists a, w_failedAttempts w' = (w_failedAttempts w ++ [a])%list /\
       fa_userId a = u /\ fa_reason a = reason /\ fa_attemptedEmail a = normalizeAttemptedEmail email) w.
Proof.
  intros He Hk. apply wp_bind. unfold recordRecoveryFailure. apply wp_bind. eapply wp_mono; [apply quiet_recoverAudit|].
  intros o w1 [[[] ->] E1]. eapply wp_mono; [by apply record_adds|]. intros o w2 (-> & _ & a & E2 & Ha).
  rewrite Hk. apply wp_throw. split; [done|]. exists a. split; [congruence|done].
Qed.

(** A recovery refused for its password or because one-time codes are not enrolled answers "invalid
    credentials" and leaves the database as it was, so the LOGIN_FAILED audit entry that [recordRecoveryFailure]
    writes inside the transaction is undone with it; the failed attempt, recorded by a connection of its own, stays. *)
Theorem failed_recovery_keeps_only_the_attempt email password code m w e user token :
  FAILED_AUTH_RECORD_ENABLED = true -> normalizeEmail email = Ok e ->
  isNormalizedRecoveryCode (normalizeRecoveryCode code) = true ->
  fst (findUserWithIdentityByEmail e w) = Ok [(user, token)] ->
  passwordMatches password (Some (usr_passwordHash user)) = false \/ usr_mfaEnrolledAt user = None ->
  exists w' a, recoverWithCode email password code m w = (Throw invalidRecoveryCredentials, w') /\
    w_db w' = w_db w /\ w_failedAttempts w' = (w_failedAttempts w ++ [a])%list /\
    fa_reason a = "invalid_credentials" /\ fa_attemptedEmail a = normalizeAttemptedEmail e.
Proof.
  intros He En Hc Eu Hbad. destruct (recoverWithCode email password code m w) as [o w'] eqn:E. revert E.
  unfold recoverWithCode. unfold mbind at 1, M_bind at 1, lift. rewrite En. cbv beta iota zeta. rewrite Hc. cbn [negb].
  unfold mbind at 1, M_bind at 1. destruct (findUserWithIdentityByEmail e w) as [o' w0] eqn:Ef.
  assert (w0 = w) as -> by (unfold findUserWithIdentityByEmail in Ef; congruence). cbn [fst] in Eu. subst o'.
  cbv beta iota zeta. cbn [head fmap option_fmap option_map fst].
  intros E. apply (wp_elim _ (fun o w' => o = Throw invalidRecoveryCredentials /\ w_db w' = w_db w /\
    exists a, w_failedAttempts w' = (w_failedAttempts w ++ [a])%list /\ fa_reason a = "invalid_credentials" /\
      fa_attemptedEmail a = normalizeAttemptedEmail e) w) in E.
  - destruct E as (-> & Hdb & a & Ha). by exists w', a.
  - apply wp_withOrg. unfold recoverInTx. cbv zeta. apply wp_bind. eapply wp_mono; [apply quiet_activeOrg|].
    intros o1 w1 [[org ->] E1].
    replace (negb (passwordMatches password (Some (usr_passwordHash user))) || isNull (usr_mfaEnrolledAt user)) with true
      by (symmetry; destruct Hbad as [-> | ->]; [done|by rewrite orb_true_r]).
    eapply wp_mono; [by apply wp_recovery_refused|].
    intros o2 w2 [-> (a & E2 & Hu & Hr & Hm)]. split; [done|]. split; [done|]. exists a.
    split; [change (w_failedAttempts w2 = (w_failedAttempts w ++ [a])%list); rewrite E2, E1; reflexivity|done].
Qed.

(** ** The lockout of an email *)

(** The tables a session or a challenge is made in. *)
Definition loginTables (a : AuthDb) : list SessionRow * list RefreshTokenRow * list PendingMfaRow :=
  (au_sessions a, au_refreshTokens a, au_pendingMfa a).

Section tables.
Context (l : list SessionRow * list RefreshTokenRow * list PendingMfaRow).
Notation same := (fun db => loginTables (db_auth db) = l).
Notation W := (fun _ : Db -> Db => True).

Lemma same_insertAuditEntry o a e p m : preserves same W (insertAuditEntry o a e p m).
Proof.
  unfold insertAuditEntry. apply preserves_bind; [apply (auth_gates (fun a => loginTables a = l))|]. intros ?.
  apply preserves_bind; [apply (auth_appendAuditRow (fun a => loginTables a = l))|]. intros ?. preserve.
Qed.
Lemma same_platformEvent t h d p m : preserves same W (insertPlatformSecurityEvent t h d p m).
Proof.
  unfold insertPlatformSecurityEvent, currentAuditKeyVersion. apply preserves_bind; [preserve|]. intros ?.
  apply preserves_bind; [preserve|]. intros ?. apply preserves_bind; [preserve|]. intros ?. cbv zeta.
  apply preserves_bind; [|intros ?; preserve]. apply preserves_insertRow. intros db HP _. exact HP.
Qed.
Lemma same_recordLoginFailed s e m r : preserves same W (recordLoginFailed s e m r).
Proof.
  unfold recordLoginFailed. apply preserves_catch; [|intros ?; preserve].
  destruct s as [[[o|] t]|]; apply preserves_withOrg, preserves_ok.
  - apply same_insertAuditEntry.
  - unfold subjectHash. apply preserves_bind; [preserve|]. intros ?. apply same_platformEvent.
  - unfold subjectHash. apply preserves_bind; [preserve|]. intros ?. apply same_platformEvent.
Qed.
Lemma same_recordFailed u i e r : preserves same W (recordFailedAuthAttempt u i e r).
Proof.
  unfold recordFailedAuthAttempt. destruct (negb _); [preserve|]. apply preserves_bind; [preserve|]. intros ?.
  apply preserves_bind; [preserve|]. intros ?. by intros w.
Qed.
Lemma same_findLoginUser e : preserves same W (findLoginUser e).
Proof.
  unfold findLoginUser. apply preserves_bind; [by intros w|]. intros [|[u t] rows]; [preserve|].
  apply preserves_bind; [preserve|]. intros orgs. apply preserves_bind; [|intros ?; preserve].
  apply preserves_forEachCollect. intros org. apply preserves_withOrg, preserves_ok. preserve.
Qed.
End tables.

Lemma catch_unit (n : M unit) w o w' : catch n (fun _ => mret tt) w = (o, w') -> o = Ok tt.
Proof. unfold catch. destruct (n w) as [[[]|e] w1]; by intros [= <- _]. Qed.

Lemma rejectInvalid_spec {A} e m u rows org locked w :
  wp (rejectInvalidLogin (A := A) e m u rows org locked) (fun o w' => o = Throw invalidCredentials /\
    loginTables (db_auth (w_db w')) = loginTables (db_auth (w_db w))) w.
Proof.
  set (l := loginTables (db_auth (w_db w))). unfold rejectInvalidLogin. apply wp_bind, wp_intro. intros o w1 E1.
  pose proof (wp_elim _ _ _ _ _ (same_recordFailed l _ _ _ _ w (conj eq_refl I)) E1) as [Hw1 _].
  assert (o = Ok tt) as ->.
  { revert E1. unfold recordFailedAuthAttempt. destruct (negb _); by intros [= <- _]. }
  apply wp_bind, wp_intro. intros o w2 E2.
  pose proof (wp_elim _ _ _ _ _ (same_recordLoginFailed l _ _ _ _ w1 (conj Hw1 I)) E2) as [Hw2 _].
  assert (o = Ok tt) as -> by exact (catch_unit _ _ _ _ E2). by apply wp_throw.
Qed.

Lemma quiet_findLoginUser e : returnsQuietly (findLoginUser e).
Proof.
  unfold findLoginUser. apply quiet_bind; [intros w; split; [by eexists|done]|]. intros [|[u t] rows]; [apply quiet_ret|].
  apply quiet_bind; [apply quiet_selectWhere|]. intros orgs. apply quiet_bind; [|intros ?; apply quiet_ret].
  apply quiet_forEachCollect. intros org. apply quiet_withOrg, quiet_selectFirst.
Qed.

Definition recentFailures (e : string) (now : Date) (l : list FailedAttemptRow) : list FailedAttemptRow :=
  List.filter (fun a => (toLowerCase (fa_attemptedEmail a) =? normalizeAttemptedEmail e)
                        && (now - LOGIN_LOCKOUT_WINDOW_SECONDS * 1000 <=? fa_attemptedAt a)) l.

(** While the failed attempts of an email within the window reach the threshold, every login with it is
    answered "invalid credentials", the right password included, and neither a session nor a one-time-code
    challenge is created. *)
Theorem locked_out_login_refused rawEmail password m w e :
  normalizeEmail rawEmail = Ok e ->
  (LOGIN_LOCKOUT_THRESHOLD <= Z.of_nat (length (recentFailures e (clock (w_tick w)) (w_failedAttempts w))))%Z ->
  exists w', loginUser rawEmail password m w = (Throw invalidCredentials, w') /\
    loginTables (db_auth (w_db w')) = loginTables (db_auth (w_db w)).
Proof.
  intros En Hlock. destruct (loginUser rawEmail password m w) as [o w'] eqn:E. revert E.
  unfold loginUser, normalizeLoginEmail. rewrite En. unfold mbind at 1, M_bind at 1, mret, M_ret. cbv beta iota.
  intros E. apply (wp_elim _ (fun o w' => o = Throw invalidCredentials /\
    loginTables (db_auth (w_db w')) = loginTables (db_auth (w_db w))) w) in E as [-> Hl]; [by exists w'|].
  apply wp_bind. unfold isLoginLockedOut. apply wp_newDate. unfold wp at 1, mbind, M_bind, selectFailedAttempts, mret, M_ret.
  cbv beta iota zeta. rewrite bool_decide_eq_true_2 by exact Hlock.
  clear E o w'. apply wp_bind, wp_intro. intros o w1 E1.
  destruct (wp_elim _ _ _ _ _ (quiet_findLoginUser _ _) E1) as [[rows ->] _].
  pose proof (wp_elim _ _ _ _ _ (same_findLoginUser (loginTables (db_auth (w_db w))) e (w <| w_tick ::= S |>) (conj eq_refl I)) E1) as [Hw1 _].
  cbv zeta. cbn [orb].
  destruct (head rows) as [u|].
  2: { eapply wp_mono; [apply rejectInvalid_spec|]. by intros o2 w2 [-> ->]. }
  match goal with |- context [match ?x with Some _ => _ | None => _ end] => destruct x end;
    cbn [orb]; (eapply wp_mono; [apply rejectInvalid_spec|]; by intros o2 w2 [-> ->]).
Qed.

(** ** The kinds of access token *)

(** The two kinds of access token exclude each other: a payload that parses as the token of an organisation's
    session does not parse as a user's, and a request with a user's token is refused with
    "organisation scope required" before anything is read or written. *)
Theorem access_token_kinds payload :
  (forall claims, parseAccessTokenClaims payload = Some claims -> parseUserAccessClaims payload = None) /\
  (forall claims request token w, parseUserAccessClaims payload = Some claims ->
     requestToken request = Some token -> jwtVerify token = Some payload ->
     authenticateRequest request w = (Ok (refusedWith "org_scope_required" 401), w)).
Proof.
  split.
  - intros claims. unfold parseAccessTokenClaims, parseUserAccessClaims. destruct (parseCommonClaims payload) as [c|]; [|done].
    destruct payload as [p|]; [|done]. destruct (strClaim "orgId" p); [|done]. intros _. by rewrite orb_true_r.
  - intros claims request token w Hu Et Ev. unfold authenticateRequest. rewrite Et. unfold authContextOf, verifyAccessClaims.
    rewrite Ev. replace (parseAccessTokenClaims payload) with (@None AccessTokenClaims); [by rewrite Hu|].
    revert Hu. unfold parseAccessTokenClaims, parseUserAccessClaims. destruct (parseCommonClaims payload) as [c|]; [|done].
    destruct payload as [p|]; [|done]. by destruct (negb _), (strClaim "orgId" p).
Qed.

(** ** The sessions of the command line *)

(** The revocation that answers the reuse of a refresh token of the command line, or the idle timeout found
    when its access token is verified, is written inside the transaction that the refusal then undoes: the request
    throws and the database is as it was, so the session stays open and the tokens that were issued after the
    reused one go on refreshing it. *)
Theorem user_session_revocation_undone opaque m w token session claims row :
  (head (List.filter (fun t => urt_tokenHash t =? hashRefreshToken opaque) (db_userRefreshTokens (w_db w))) = Some token ->
   head (List.filter (fun s => uss_id s =? urt_userSessionId token) (db_userSessions (w_db w))) = Some session ->
   urt_usedAt token <> None ->
   exists e w', refreshUserSession opaque m w = (Throw e, w') /\ w_db w' = w_db w) /\
  (head (List.filter (fun s => uuidText (uss_jti s) =? cc_jti claims) (db_userSessions (w_db w))) = Some row ->
   idleExceeded (uss_lastActiveAt row) (clock (w_tick w)) = true ->
   exists e w', verifyUserSession claims w = (Throw e, w') /\ w_db w' = w_db w).
Proof.
  split.
  - intros Et Es Hu. destruct (refreshUserSession opaque m w) as [o w'] eqn:E.
    apply (wp_elim _ (fun o w' => (exists e, o = Throw e) /\ w_db w' = w_db w) w) in E as [[e ->] Hw]; [by exists e, w'|].
    unfold refreshUserSession. apply wp_newDate, wp_withOrg. unfold loadRefreshRow. apply wp_bind, wp_bind_first.
    change (db_userRefreshTokens _) with (db_userRefreshTokens (w_db w)). rewrite Et. apply wp_bind_first.
    change (db_userSessions _) with (db_userSessions (w_db w)). rewrite Es. apply wp_ret. cbn [fmap option_fmap option_map].
    unfold rotateUserRefresh. destruct (_ || _); [by split; [eexists|]|].
    destruct (urt_usedAt token); [|done]. cbn [isNotNull]. cbv zeta. apply wp_bind, wp_intro. intros [?|?] w1 _; by split; [eexists|].
  - intros Er Hidle. destruct (verifyUserSession claims w) as [o w'] eqn:E.
    apply (wp_elim _ (fun o w' => (exists e, o = Throw e) /\ w_db w' = w_db w) w) in E as [[e ->] Hw]; [by exists e, w'|].
    unfold verifyUserSession. apply wp_newDate, wp_withOrg. unfold verifyUserSessionInTx. apply wp_bind_first.
    change (db_userSessions _) with (db_userSessions (w_db w)). rewrite Er.
    destruct (_ || _ || _ || _); [by split; [eexists|]|]. rewrite Hidle. apply wp_bind, wp_intro.
    intros [?|?] w1 _; by split; [eexists|].
Qed.
End errors.

(** ** Witnesses *)

#[local] Existing Instances byteLocale toyPlatform toyCrypto toyEnv asciiUnicode toyOtpValidate toyPasswords toyJwt.

Lemma failed_recovery_keeps_only_the_attempt_witness :
  exists w' a, recoverWithCode "Ada@example.org" "wrong" "abcde-fghjk" noMeta authWorld = (Throw invalidRecoveryCredentials, w') /\
    w_db w' = w_db authWorld /\ w_failedAttempts w' = (w_failedAttempts authWorld ++ [a])%list /\
    fa_reason a = "invalid_credentials" /\ fa_attemptedEmail a = normalizeAttemptedEmail "ada@example.org".
Proof.
  refine (failed_recovery_keeps_only_the_attempt "Ada@example.org" "wrong" "abcde-fghjk" noMeta authWorld
            "ada@example.org" demoUser (Some 70%N) _ _ _ _ (or_introl _)); vm_compute; reflexivity.
Defined.

(** Three wrong passwords; the right one is then refused. *)
Definition guessed : World := Eval vm_compute in
  snd (loginUser "ada@example.org" "c" noMeta (snd (loginUser "ada@example.org" "b" noMeta
    (snd (loginUser "ada@example.org" "a" noMeta authWorld))))).

Lemma locked_out_login_refused_witness :
  (exists r, fst (loginUser "ada@example.org" "pw" noMeta authWorld) = Ok (logged_in r)) /\
  exists w', loginUser "ada@example.org" "pw" noMeta guessed = (Throw invalidCredentials, w') /\
    loginTables (db_auth (w_db w')) = loginTables (db_auth (w_db guessed)).
Proof.
  split; [eexists; vm_compute; reflexivity|].
  refine (locked_out_login_refused "ada@example.org" "pw" noMeta guessed "ada@example.org" _ _).
  - vm_compute. reflexivity.
  - vm_compute. discriminate.
Defined.

Definition demoUserPayload : Payload :=
  [("sub", CStr (uuidText 7)); ("jti", CStr "j"); ("sessionVersion", CNum 1); ("scope", CStr "user")].
Definition userJwt : JwtLibrary := {| jwtVerify t := Some (Some demoUserPayload) |}.

Lemma access_token_kinds_witness :
  @authenticateRequest byteLocale toyPlatform toyCrypto toyEnv asciiUnicode userJwt (MkRequestToken (Some "t") None) signedIn =
    (Ok (refusedWith "org_scope_required" 401), signedIn).
Proof.
  refine (proj2 (@access_token_kinds byteLocale toyPlatform toyCrypto toyEnv asciiUnicode userJwt (Some demoUserPayload))
            (MkCommonClaims (uuidText 7) "j" 1 None None) (MkRequestToken (Some "t") None) "t" signedIn _ _ _);
    vm_compute; reflexivity.
Defined.

(** A session of the command line whose refresh token was rotated. *)
Definition cliFirst : IssuedUserSession := Eval vm_compute in
  match fst (issueUserSessionInTx 7 noMeta 1700000000000 authWorld) with
  | Ok s => s
  | Throw _ => MkIssuedUserSession 0 0 false 0 0 0 ""
  end.
Definition cliRotated : World := Eval vm_compute in
  snd (refreshUserSession (ius_refreshOpaque cliFirst) noMeta (snd (issueUserSessionInTx 7 noMeta 1700000000000 authWorld))).
Definition cliUsed : UserRefreshTokenRow := Eval vm_compute in
  default (MkUserRefreshTokenRow 0 0 "" 0 None None) (head (db_userRefreshTokens (w_db cliRotated))).
Definition cliSession : UserSessionRow := Eval vm_compute in
  default (MkUserSessionRow 0 0 0 0 0 None 0 None None 0) (head (db_userSessions (w_db cliRotated))).

Lemma user_session_revocation_undone_witness :
  uss_revokedAt cliSession = None /\
  exists e w', refreshUserSession (ius_refreshOpaque cliFirst) noMeta cliRotated = (Throw e, w') /\ w_db w' = w_db cliRotated.
Proof.
  split; [reflexivity|].
  refine (proj1 (user_session_revocation_undone (ius_refreshOpaque cliFirst) noMeta cliRotated cliUsed cliSession
                   (MkCommonClaims "" "" 0 None None) cliSession) _ _ _).
  - vm_compute. reflexivity.
  - vm_compute. reflexivity.
  - vm_compute. discriminate.
Defined.
