(* ===== verification/Vault.v ===== *)
(** * The vault keys

    modules/vault/key-service.ts and the error classes of kms-provider.ts: the
    three states of the vault, initialisation and unsealing with the four kinds
    of master key, and the keys the services read.

    Parameters: argon2, [path.resolve], the key management service, and the host
    a call finds (key files, process environment, the row another process may
    insert meanwhile).  Buffers are values: overwriting them with zeros is not
    modelled.  A text column is represented by what [JSON.parse] returns on it. *)

From S2P Require Import Prelude Js Crypto Store Tx.
From Stdlib Require Import Ascii String.
From stdpp Require Import strings pretty.

Local Open Scope string_scope.
Local Open Scope list_scope.
Local Open Scope pv_scope.

Inductive VaultStatus := uninitialized | sealed | unsealed.
#[export] Instance VaultStatus_eq_dec : EqDecision VaultStatus.
Proof. solve_decision. Defined.

(** The row of vault_state; [None] in a text column: null, or a text that does not parse. *)
Record VaultRow := MkVaultRow {
  vr_keyVersion : Z;
  vr_auditKeyVersion : Z;
  vr_encryptedSentinel : option EncryptedValue;
  vr_kmsType : string;
  vr_keyDerivationParams : option KeyDerivationParams;
  vr_kmsKeyId : option string;
  vr_kmsEncryptedDek : option string;
}.

(** The table and the variables of the module; [vs_activeKey] is the crypto package's. *)
Record VaultSys := MkVaultSys {
  vs_rows : list VaultRow;
  vs_status : VaultStatus;
  vs_primaryKey : option string;
  vs_auditKey : option string;
  vs_backupKey : option string;
  vs_platformAuditKey : option string;
  vs_activeKey : option string;
}.
#[export] Instance Eta_VaultSys : Eta VaultSys := fun s =>
  MkVaultSys (vs_rows s) (vs_status s) (vs_primaryKey s) (vs_auditKey s) (vs_backupKey s) (vs_platformAuditKey s)
    (vs_activeKey s).

Inductive VaultInitRequest :=
| init_passphrase (passphrase : string)
| init_envelope (envelopeKeyPath : string)
| init_file (masterKeyPath : string)
| init_kms (kmsKeyId : string).

Record VaultUnsealRequest := MkVaultUnsealRequest {
  vu_passphrase : option string;
  vu_envelopeKeyPath : option string;
  vu_masterKeyPath : option string;
}.

Definition kmsTypeOf (body : VaultInitRequest) : string :=
  match body with
  | init_passphrase _ => "passphrase"
  | init_envelope _ => "envelope"
  | init_file _ => "file"
  | init_kms _ => "kms"
  end.

(** ** kms-provider.ts *)

Inductive KmsErrorKind := kms_unreachable | kms_not_found | kms_permission_denied | kms_unknown.

Definition NOT_FOUND_NAMES : list string :=
  ["NotFoundException"; "DisabledException"; "KMSInvalidStateException"; "ValidationException"; "InvalidCiphertextException"].
Definition PERMISSION_DENIED_NAMES : list string :=
  ["AccessDeniedException"; "ExpiredTokenException"; "UnrecognizedClientException"].
Definition UNREACHABLE_NAMES : list string :=
  ["TimeoutError"; "NetworkingError"; "ETIMEDOUT"; "ECONNREFUSED"; "ECONNRESET"; "EHOSTUNREACH"; "ENOTFOUND";
   "ThrottlingException"; "LimitExceededException"; "KMSInternalException"; "ServiceUnavailable"].

(** By the name of the error the client threw. *)
Definition classifyKmsError (name : option string) : KmsErrorKind :=
  match name with
  | None => kms_unknown
  | Some n =>
      if negb (n =? "") && (n ∈? NOT_FOUND_NAMES) then kms_not_found
      else if negb (n =? "") && (n ∈? PERMISSION_DENIED_NAMES) then kms_permission_denied
      else if negb (n =? "") && (n ∈? UNREACHABLE_NAMES) then kms_unreachable
      else kms_unknown
  end.

(** What the client answers: an error, or the members of its response (bytes; base64 text for the blob). *)
Inductive KmsReply (A : Type) := kms_ok (a : A) | kms_error (name : option string).
Arguments kms_ok {A} a.
Arguments kms_error {A} name.

Class VaultLibraries := {
  argon2Raw : string -> string -> Outcome string;      (* passphrase, salt; with ARGON2_PARAMS *)
  resolvePath : string -> string;
  kmsGenerate : string -> KmsReply (option string * option string);
  kmsDecrypt : string -> KmsReply (option string);
}.

Record FileEntry := MkFileEntry { fe_isFile : bool; fe_content : string }.

(** What a call finds outside the process. *)
Record VaultHost := MkVaultHost {
  vh_keyDir : string;                          (* VAULT_KEY_DIR *)
  vh_files : string -> option FileEntry;       (* lstat, which does not follow links *)
  vh_envelopeKeyHalf : option string;          (* VAULT_ENVELOPE_KEY_HALF *)
  vh_allowRemoteInit : option string;          (* VAULT_ALLOW_REMOTE_INIT *)
  vh_bootstrapToken : option string;           (* VAULT_BOOTSTRAP_TOKEN *)
  vh_salt : string;                            (* randomBytes(16) *)
  vh_iv : string;                              (* randomBytes(12) *)
  vh_meanwhile : list VaultRow -> list VaultRow; (* what another process commits during the derivation *)
  vh_onUnsealed : Outcome unit;                (* the hook *)
}.

Section vault.
Context `{NodeCrypto, VaultLibraries}.

(** [/^[A-Za-z0-9+/]+={0,2}$/] *)
Definition isBase64Char (c : ascii) : bool :=
  ((65 <=? code c) && (code c <=? 90))%N || ((97 <=? code c) && (code c <=? 122))%N
  || ((48 <=? code c) && (code c <=? 57))%N || (c =? "+"%char) || (c =? "/"%char).
Fixpoint base64Tail (n : nat) (s : string) : bool :=
  match s with
  | EmptyString => true
  | String c s' => match n with O => false | S n' => (c =? "="%char) && base64Tail n' s' end
  end.
Fixpoint base64Body (s : string) : bool :=
  match s with
  | EmptyString => true
  | String c s' => if isBase64Char c then base64Body s' else base64Tail 2 s
  end.
Definition isBase64 (s : string) : bool :=
  match s with
  | EmptyString => false
  | String c s' => isBase64Char c && base64Body s'
  end.

Definition generateDataKey (keyId : string) : string * string + KmsErrorKind :=
  match kmsGenerate keyId with
  | kms_error name => inr (classifyKmsError name)
  | kms_ok (Some plaintext, Some blob) =>
      if negb (String.length plaintext =? 32%nat) then inr kms_unknown else inl (plaintext, blob)
  | kms_ok _ => inr kms_unknown
  end.

Definition decryptDataKey (ciphertextBlob : string) : string + KmsErrorKind :=
  if negb (isBase64 ciphertextBlob) then inr kms_not_found
  else
    match kmsDecrypt ciphertextBlob with
    | kms_error name => inr (classifyKmsError name)
    | kms_ok (Some plaintext) => if negb (String.length plaintext =? 32%nat) then inr kms_unknown else inl plaintext
    | kms_ok None => inr kms_unknown
    end.

(** ** Key files *)

Definition MAX_KEY_FILE_BYTES : nat := 4096.
Definition KEY_FILE_NOT_FOUND : Exn := AppError "KEY_FILE_NOT_FOUND" 400.
Definition INVALID_KEY_FILE : Exn := AppError "INVALID_KEY_FILE" 400.
Definition VAULT_CORRUPTED : Exn := AppError "VAULT_CORRUPTED" 503.
Definition SENTINEL_PLAINTEXT : string := "project-vault-sentinel-v1".

Definition assertWithinKeyDir (host : VaultHost) (resolved : string) : Outcome unit :=
  let allowedDir := resolvePath (vh_keyDir host) in
  if negb (String.prefix (allowedDir ++ "/")%string resolved) && negb (resolved =? allowedDir)
  then Throw KEY_FILE_NOT_FOUND else Ok tt.

Definition statRegularFile (host : VaultHost) (resolved : string) : Outcome string :=
  match vh_files host resolved with
  | None => Throw KEY_FILE_NOT_FOUND
  | Some f => if negb (fe_isFile f) then Throw INVALID_KEY_FILE else Ok (fe_content f)
  end.

Definition assertExpectedSize (size expectedMin expectedMax : nat) : Outcome unit :=
  if (MAX_KEY_FILE_BYTES <? size)%nat then Throw INVALID_KEY_FILE
  else if (size <? expectedMin)%nat || (expectedMax <? size)%nat then Throw INVALID_KEY_FILE
  else Ok tt.

Definition readKeyMaterialFile (host : VaultHost) (filePath : string) (expectedMin expectedMax : nat) : Outcome string :=
  let resolved := resolvePath filePath in
  _ ← assertWithinKeyDir host resolved;
  content ← statRegularFile host resolved;
  _ ← assertExpectedSize (String.length content) expectedMin expectedMax;
  Ok content.

Definition readKeyFile (host : VaultHost) (masterKeyPath : string) : Outcome string :=
  readKeyMaterialFile host masterKeyPath 32 MAX_KEY_FILE_BYTES.
Definition readEnvelopeFileHalf (host : VaultHost) (envelopeKeyPath : string) : Outcome string :=
  readKeyMaterialFile host envelopeKeyPath ENVELOPE_HALF_BYTES ENVELOPE_HALF_BYTES.

Definition getEnvelopeEnvHalf (host : VaultHost) : Outcome string :=
  match vh_envelopeKeyHalf host with
  | None => Throw (AppError "ENVELOPE_ENV_HALF_MISSING" 503)
  | Some raw => if raw =? "" then Throw (AppError "ENVELOPE_ENV_HALF_MISSING" 503) else parseEnvelopeEnvHalf raw
  end.

(** lib/timing-safe-header-token.ts, on the header's first value; equal lengths of ASCII tokens *)
Definition timingSafeHeaderTokenMatches (supplied : option string) (expectedToken : string) : bool :=
  match supplied with
  | None => false
  | Some s => negb (s =? "") && (String.length s =? String.length expectedToken) && (s =? expectedToken)
  end.

Definition BOOTSTRAP_FORBIDDEN : Exn := AppError "BOOTSTRAP_FORBIDDEN" 403.

Definition assertBootstrapAuthorized (host : VaultHost) (header : option string) : Outcome unit :=
  if vh_allowRemoteInit host =? Some "true" then Ok tt
  else
    match vh_bootstrapToken host with
    | None => Throw BOOTSTRAP_FORBIDDEN
    | Some token =>
        if token =? "" then Throw BOOTSTRAP_FORBIDDEN
        else if negb (timingSafeHeaderTokenMatches header token) then Throw BOOTSTRAP_FORBIDDEN
        else Ok tt
    end.

(** ** The master key *)

Record IkmResult := MkIkmResult {
  ir_ikm : string;
  ir_kdfParams : option KeyDerivationParams;
  ir_kmsKeyId : option string;
  ir_kmsEncryptedDek : option string;
}.

Definition mapKmsErrorForInit (kind : KmsErrorKind) : Exn :=
  match kind with
  | kms_not_found => AppError "KMS_KEY_NOT_FOUND" 400
  | kms_permission_denied => AppError "KMS_PERMISSION_DENIED" 403
  | kms_unreachable | kms_unknown => AppError "KMS_UNREACHABLE" 503
  end.
Definition mapKmsErrorForUnseal (kind : KmsErrorKind) : Exn :=
  match kind with
  | kms_not_found => AppError "KMS_KEY_UNAVAILABLE" 503
  | kms_permission_denied => AppError "KMS_PERMISSION_DENIED" 403
  | kms_unreachable | kms_unknown => AppError "KMS_UNREACHABLE" 503
  end.

(** passwords.ts: the cost parameters are the constants, whatever [params] says. *)
Definition deriveIkmFromPassphrase (passphrase : string) (params : KeyDerivationParams) : Outcome string :=
  if negb (kdp_type params =? "argon2id")
  then Throw (JsError ("deriveIkmFromPassphrase: unsupported type " ++ kdp_type params)%string)
  else argon2Raw passphrase (fromHex (kdp_salt params)).

Definition deriveEnvelopeIkm (host : VaultHost) (envelopeKeyPath : string) : Outcome string :=
  envHalf ← getEnvelopeEnvHalf host;
  fileHalf ← readEnvelopeFileHalf host envelopeKeyPath;
  combineEnvelopeHalves envHalf fileHalf.

Definition deriveIkmForInit (host : VaultHost) (body : VaultInitRequest) : Outcome IkmResult :=
  match body with
  | init_passphrase passphrase =>
      let params := createKeyDerivationParams (vh_salt host) in
      ikm ← deriveIkmFromPassphrase passphrase params;
      Ok (MkIkmResult ikm (Some params) None None)
  | init_envelope path => ikm ← deriveEnvelopeIkm host path; Ok (MkIkmResult ikm None None None)
  | init_kms keyId =>
      match generateDataKey keyId with
      | inl (plaintext, blob) => Ok (MkIkmResult plaintext None (Some keyId) (Some blob))
      | inr kind => Throw (mapKmsErrorForInit kind)
      end
  | init_file path => ikm ← readKeyFile host path; Ok (MkIkmResult ikm None None None)
  end.

Definition missingMember (e : EncryptedValue) : bool :=
  (ev_iv e =? "") || (ev_ciphertext e =? "") || (ev_tag e =? "").

Definition parseVaultStateRow (state : VaultRow) : Outcome (EncryptedValue * option KeyDerivationParams) :=
  match vr_encryptedSentinel state with
  | None => Throw VAULT_CORRUPTED
  | Some sentinel =>
      if missingMember sentinel then Throw VAULT_CORRUPTED
      else if vr_kmsType state =? "passphrase" then
        match vr_keyDerivationParams state with
        | None => Throw VAULT_CORRUPTED
        | Some params =>
            match validateKeyDerivationParams params with
            | Ok _ => Ok (sentinel, Some params)
            | Throw _ => Throw VAULT_CORRUPTED
            end
        end
      else Ok (sentinel, None)
  end.

(** A member that is absent or empty. *)
Definition given (o : option string) : option string :=
  match o with Some s => if s =? "" then None else Some s | None => None end.

Definition deriveIkmForUnseal (host : VaultHost) (kmsType : string) (body : VaultUnsealRequest)
    (kdfParams : option KeyDerivationParams) (kmsEncryptedDek : option string) : Outcome string :=
  if kmsType =? "passphrase" then
    match given (vu_passphrase body), kdfParams with
    | Some passphrase, Some params => deriveIkmFromPassphrase passphrase params
    | Some _, None => Throw (JsError "Cannot read properties of null (reading 'type')")
    | None, _ => Throw (AppError "INVALID_PASSPHRASE" 400)
    end
  else if kmsType =? "envelope" then
    match given (vu_envelopeKeyPath body) with
    | None => Throw INVALID_KEY_FILE
    | Some path => deriveEnvelopeIkm host path
    end
  else if kmsType =? "kms" then
    match given kmsEncryptedDek with
    | None => Throw VAULT_CORRUPTED
    | Some dek =>
        match decryptDataKey dek with
        | inl ikm => Ok ikm
        | inr kind => Throw (mapKmsErrorForUnseal kind)
        end
    end
  else if negb (kmsType =? "file") then Throw VAULT_CORRUPTED
  else
    match given (vu_masterKeyPath body) with
    | None => Throw INVALID_KEY_FILE
    | Some path => readKeyFile host path
    end.

Record VaultKeys := MkVaultKeys {
  vk_primary : string;
  vk_audit : string;
  vk_backup : string;
  vk_platformAudit : string;
}.

Definition deriveAllKeysFromIkm (ikm : string) : VaultKeys :=
  MkVaultKeys (deriveKey ikm HKDF_PRIMARY) (deriveKey ikm HKDF_AUDIT_LOG) (deriveKey ikm HKDF_BACKUP)
    (deriveKey ikm HKDF_PLATFORM_AUDIT).

(** ** The operations *)

Definition VM (A : Type) : Type := VaultSys -> Outcome A * VaultSys.
#[export] Instance VM_ret : MRet VM := fun A a s => (Ok a, s).
#[export] Instance VM_bind : MBind VM := fun A B k m s =>
  match m s with
  | (Ok a, s') => k a s'
  | (Throw e, s') => (Throw e, s')
  end.
Definition vthrow {A} (e : Exn) : VM A := fun s => (Throw e, s).
Definition vlift {A} (o : Outcome A) : VM A := fun s => (o, s).
Definition vrows : VM (list VaultRow) := fun s => (Ok (vs_rows s), s).
Definition vstatus : VM VaultStatus := fun s => (Ok (vs_status s), s).

Definition isSealed (s : VaultSys) : bool := negb (vs_status s =? unsealed).

Definition loadInitialVaultState : VM VaultStatus := fun s =>
  let status := match vs_rows s with [] => uninitialized | _ :: _ => sealed end in
  (Ok status, s <| vs_status := status |>).

Definition setKeys (keys : VaultKeys) : VM unit := fun s =>
  (Ok tt, s <| vs_activeKey ::= fun k => setVaultKey k (vk_primary keys) |>
            <| vs_primaryKey := Some (vk_primary keys) |> <| vs_auditKey := Some (vk_audit keys) |>
            <| vs_backupKey := Some (vk_backup keys) |> <| vs_platformAuditKey := Some (vk_platformAudit keys) |>
            <| vs_status := unsealed |>).

Definition notifyUnsealed (host : VaultHost) : VM unit := vlift (vh_onUnsealed host).

Definition commitUnsealedKeys (host : VaultHost) (keys : VaultKeys) : VM unit :=
  _ ← setKeys keys; notifyUnsealed host.

(** [INSERT ... ON CONFLICT DO NOTHING RETURNING], after what another process committed. *)
Definition insertVaultRow (host : VaultHost) (row : VaultRow) : VM (list VaultRow) := fun s =>
  match vh_meanwhile host (vs_rows s) with
  | [] => (Ok [row], s <| vs_rows := [row] |>)
  | rows => (Ok [], s <| vs_rows := rows |>)
  end.

Definition ALREADY_INITIALIZED : Exn := AppError "ALREADY_INITIALIZED" 409.

Definition initVault (host : VaultHost) (body : VaultInitRequest) (bootstrapHeader : option string) : VM (Z * string) :=
  _ ← vlift (assertBootstrapAuthorized host bootstrapHeader);
  existing ← vrows;
  match existing with
  | _ :: _ => vthrow ALREADY_INITIALIZED
  | [] =>
      ikmResult ← vlift (deriveIkmForInit host body);
      let keys := deriveAllKeysFromIkm (ir_ikm ikmResult) in
      encryptedSentinel ← vlift (encryptSync (vh_iv host) SENTINEL_PLAINTEXT (vk_primary keys));
      inserted ← insertVaultRow host
        {| vr_keyVersion := 1; vr_auditKeyVersion := 1; vr_encryptedSentinel := Some encryptedSentinel;
           vr_kmsType := kmsTypeOf body; vr_keyDerivationParams := ir_kdfParams ikmResult;
           vr_kmsKeyId := ir_kmsKeyId ikmResult; vr_kmsEncryptedDek := ir_kmsEncryptedDek ikmResult |};
      match inserted with
      | [] => vthrow ALREADY_INITIALIZED
      | _ :: _ => _ ← commitUnsealedKeys host keys; mret (1%Z, kmsTypeOf body)
      end
  end.

Definition UNSEAL_FAILED : Exn := AppError "UNSEAL_FAILED" 401.

Definition checkSentinel (sentinel : EncryptedValue) (primaryKey : string) : Outcome unit :=
  match decryptSync sentinel primaryKey with
  | Throw _ => Throw UNSEAL_FAILED
  | Ok sentinelDecrypted => if negb (sentinelDecrypted =? SENTINEL_PLAINTEXT) then Throw UNSEAL_FAILED else Ok tt
  end.

Definition unsealVault (host : VaultHost) (body : VaultUnsealRequest) : VM (Z * string) :=
  status ← vstatus;
  if status =? unsealed then vthrow (AppError "ALREADY_UNSEALED" 400)
  else
    rows ← vrows;
    match rows with
    | [] => vthrow (AppError "NOT_INITIALIZED" 400)
    | state :: _ =>
        '(storedSentinel, kdfParams) ← vlift (parseVaultStateRow state);
        ikm ← vlift (deriveIkmForUnseal host (vr_kmsType state) body kdfParams (vr_kmsEncryptedDek state));
        let keys := deriveAllKeysFromIkm ikm in
        _ ← vlift (checkSentinel storedSentinel (vk_primary keys));
        _ ← commitUnsealedKeys host keys;
        mret (vr_keyVersion state, vr_kmsType state)
    end.

Definition readKey (key : VaultSys -> option string) (error : Exn) : VM string := fun s =>
  (match key s with
   | Some k => if vs_status s =? unsealed then Ok k else Throw error
   | None => Throw error
   end, s).
Definition vaultAuditKey : VM string := readKey vs_auditKey VaultSealedError.
Definition vaultPrimaryKey : VM string :=
  readKey vs_primaryKey (JsError "getPrimaryKey: vault is sealed — primary key unavailable").
Definition vaultBackupKey : VM string := readKey vs_backupKey VaultSealedError.
Definition vaultPlatformAuditKey : VM string := readKey vs_platformAuditKey VaultSealedError.

Definition zeroKeys : VM unit := fun s =>
  (Ok tt, s <| vs_activeKey ::= clearVaultKey |> <| vs_primaryKey := None |> <| vs_auditKey := None |>
            <| vs_backupKey := None |> <| vs_platformAuditKey := None |> <| vs_status := sealed |>).

(** A new process: the variables have their initial values and main.ts loads the state. *)
Definition restart : VM VaultStatus := fun s =>
  loadInitialVaultState (MkVaultSys (vs_rows s) uninitialized None None None None None).

End vault.
