(* ===== verification/VaultTheorems.v ===== *)
(** * The vault: what its states guarantee *)

From S2P Require Import Prelude Js Crypto Store Tx Vault.
From Stdlib Require Import Ascii String.
From stdpp Require Import strings pretty.

Local Open Scope string_scope.
Local Open Scope list_scope.
Local Open Scope pv_scope.

Inductive VaultOp :=
| vo_init (host : VaultHost) (body : VaultInitRequest) (bootstrapHeader : option string)
| vo_unseal (host : VaultHost) (body : VaultUnsealRequest)
| vo_load
| vo_zeroKeys
| vo_restart.

Definition opHost (op : VaultOp) : option VaultHost :=
  match op with vo_init h _ _ => Some h | vo_unseal h _ => Some h | _ => None end.

(** Another process inserts the one row or nothing. *)
Definition insertsOnly (op : VaultOp) : Prop :=
  forall h, opHost op = Some h -> forall rows, rows <> [] -> vh_meanwhile h rows = rows.

Section theorems.
Context `{NodeCrypto, VaultLibraries}.

Definition runVaultOp (op : VaultOp) (s : VaultSys) : VaultSys :=
  match op with
  | vo_init h b t => snd (initVault h b t s)
  | vo_unseal h b => snd (unsealVault h b s)
  | vo_load => snd (loadInitialVaultState s)
  | vo_zeroKeys => snd (zeroKeys s)
  | vo_restart => snd (restart s)
  end.
Definition runVaultOps (ops : list VaultOp) (s : VaultSys) : VaultSys := foldl (fun s op => runVaultOp op s) s ops.

Definition holdsKeys (s : VaultSys) (keys : VaultKeys) : Prop :=
  vs_primaryKey s = Some (vk_primary keys) /\ vs_auditKey s = Some (vk_audit keys) /\
  vs_backupKey s = Some (vk_backup keys) /\ vs_platformAuditKey s = Some (vk_platformAudit keys) /\
  vs_activeKey s = Some (vk_primary keys).

(** The row's sentinel is readable with the primary key. *)
Definition opensSentinel (row : VaultRow) (keys : VaultKeys) : Prop :=
  exists e, vr_encryptedSentinel row = Some e /\ decryptSync e (vk_primary keys) = Ok SENTINEL_PLAINTEXT.

(** Unsealed: all the keys are those of one master key, which opens the stored sentinel. *)
Definition VaultOk (s : VaultSys) : Prop :=
  vs_status s = unsealed -> exists row ikm, head (vs_rows s) = Some row /\
    holdsKeys s (deriveAllKeysFromIkm ikm) /\ opensSentinel row (deriveAllKeysFromIkm ikm).

(** ** The shape of the two operations *)

Lemma commit_spec host keys s :
  commitUnsealedKeys host keys s = (vh_onUnsealed host, snd (setKeys keys s)).
Proof. unfold commitUnsealedKeys, mbind, VM_bind, notifyUnsealed, vlift. by destruct (vh_onUnsealed host) as [[]|]. Qed.

(** Before the keys are set, a refusal leaves everything but the table; and the table only if
    another process filled it. *)
Inductive InitResult (host : VaultHost) (body : VaultInitRequest) (s : VaultSys) : Outcome (Z * string) * VaultSys -> Prop :=
| init_refused e : InitResult host body s (Throw e, s)
| init_lost row rows : vs_rows s = [] -> vh_meanwhile host [] = row :: rows ->
    InitResult host body s (Throw ALREADY_INITIALIZED, s <| vs_rows := row :: rows |>)
| init_done r enc : vs_rows s = [] -> vh_meanwhile host [] = [] -> deriveIkmForInit host body = Ok r ->
    encryptSync (vh_iv host) SENTINEL_PLAINTEXT (deriveKey (ir_ikm r) HKDF_PRIMARY) = Ok enc ->
    InitResult host body s
      (match vh_onUnsealed host with Ok _ => Ok (1%Z, kmsTypeOf body) | Throw e => Throw e end,
       snd (setKeys (deriveAllKeysFromIkm (ir_ikm r))
              (s <| vs_rows := [MkVaultRow 1 1 (Some enc) (kmsTypeOf body) (ir_kdfParams r) (ir_kmsKeyId r) (ir_kmsEncryptedDek r)] |>))).

Lemma initVault_result host body hdr s : InitResult host body s (initVault host body hdr s).
Proof.
  unfold initVault, mbind at 1, VM_bind at 1, vlift at 1.
  destruct (assertBootstrapAuthorized host hdr) as [[]|e]; [|apply init_refused].
  unfold mbind at 1, VM_bind at 1, vrows. destruct (vs_rows s) as [|row rows] eqn:Er; [|apply init_refused].
  unfold mbind at 1, VM_bind at 1, vlift at 1. destruct (deriveIkmForInit host body) as [r|e] eqn:Ei; [|apply init_refused].
  cbv zeta. unfold mbind at 1, VM_bind at 1, vlift at 1.
  destruct (encryptSync _ _ _) as [enc|e] eqn:Ee; [|apply init_refused].
  unfold mbind at 1, VM_bind at 1, insertVaultRow. rewrite Er. destruct (vh_meanwhile host []) as [|row rows] eqn:Em.
  - unfold mbind at 1, VM_bind at 1. rewrite commit_spec.
    pose proof (init_done host body s r enc Er Em Ei Ee) as Hd. destruct (vh_onUnsealed host) as [[]|e]; exact Hd.
  - by apply init_lost.
Qed.

Inductive UnsealResult (host : VaultHost) (body : VaultUnsealRequest) (s : VaultSys) : Outcome (Z * string) * VaultSys -> Prop :=
| unseal_refused e : UnsealResult host body s (Throw e, s)
| unseal_done row rows sentinel params ikm :
    vs_status s <> unsealed -> vs_rows s = row :: rows -> parseVaultStateRow row = Ok (sentinel, params) ->
    deriveIkmForUnseal host (vr_kmsType row) body params (vr_kmsEncryptedDek row) = Ok ikm ->
    checkSentinel sentinel (deriveKey ikm HKDF_PRIMARY) = Ok tt ->
    UnsealResult host body s
      (match vh_onUnsealed host with Ok _ => Ok (vr_keyVersion row, vr_kmsType row) | Throw e => Throw e end,
       snd (setKeys (deriveAllKeysFromIkm ikm) s)).

Lemma unsealVault_result host body s : UnsealResult host body s (unsealVault host body s).
Proof.
  unfold unsealVault, mbind at 1, VM_bind at 1, vstatus. case_bool_decide as Hs; [apply unseal_refused|].
  unfold mbind at 1, VM_bind at 1, vrows. destruct (vs_rows s) as [|row rows] eqn:Er; [apply unseal_refused|].
  unfold mbind at 1, VM_bind at 1, vlift at 1.
  destruct (parseVaultStateRow row) as [[sentinel params]|e] eqn:Ep; [|apply unseal_refused].
  unfold mbind at 1, VM_bind at 1, vlift at 1.
  destruct (deriveIkmForUnseal _ _ _ _ _) as [ikm|e] eqn:Ei; [|apply unseal_refused].
  cbv zeta. unfold mbind at 1, VM_bind at 1, vlift at 1.
  destruct (checkSentinel _ _) as [[]|e] eqn:Ec; [|apply unseal_refused].
  unfold mbind at 1, VM_bind at 1. rewrite commit_spec.
  pose proof (unseal_done host body s row rows sentinel params ikm Hs Er Ep Ei Ec) as Hd.
  destruct (vh_onUnsealed host) as [[]|e]; exact Hd.
Qed.

Lemma unseal_opens host body s row rows sentinel params ikm :
  vs_status s <> unsealed -> vs_rows s = row :: rows -> parseVaultStateRow row = Ok (sentinel, params) ->
  deriveIkmForUnseal host (vr_kmsType row) body params (vr_kmsEncryptedDek row) = Ok ikm ->
  checkSentinel sentinel (deriveKey ikm HKDF_PRIMARY) = Ok tt -> vh_onUnsealed host = Ok tt ->
  unsealVault host body s = (Ok (vr_keyVersion row, vr_kmsType row), snd (setKeys (deriveAllKeysFromIkm ikm) s)).
Proof.
  intros Hs Er Ep Ei Ec Eh. unfold unsealVault, mbind at 1, VM_bind at 1, vstatus. rewrite bool_decide_eq_false_2 by done.
  unfold mbind at 1, VM_bind at 1, vrows. rewrite Er. unfold mbind at 1, VM_bind at 1, vlift at 1. rewrite Ep.
  unfold mbind at 1, VM_bind at 1, vlift at 1. rewrite Ei. cbv zeta. unfold mbind at 1, VM_bind at 1, vlift at 1.
  cbn [vk_primary deriveAllKeysFromIkm]. rewrite Ec. unfold mbind at 1, VM_bind at 1. by rewrite commit_spec, Eh.
Qed.

(** ** The invariant *)

Lemma parse_sentinel row sentinel params : parseVaultStateRow row = Ok (sentinel, params) -> vr_encryptedSentinel row = Some sentinel.
Proof.
  unfold parseVaultStateRow. destruct (vr_encryptedSentinel row) as [s'|]; [|done]. destruct (missingMember s'); [done|].
  case_bool_decide; [|by intros [= -> _]]. destruct (vr_keyDerivationParams row); [|done].
  destruct (validateKeyDerivationParams _); [by intros [= -> _]|done].
Qed.

Lemma checkSentinel_opens e k : checkSentinel e k = Ok tt -> decryptSync e k = Ok SENTINEL_PLAINTEXT.
Proof.
  unfold checkSentinel. destruct (decryptSync e k) as [p|]; [|done].
  destruct (p =? SENTINEL_PLAINTEXT) eqn:E; [|done]. intros _. by bool_simpl; subst.
Qed.

Definition validIvs (op : VaultOp) : Prop := forall h, opHost op = Some h -> String.length (vh_iv h) = IV_BYTES.

Lemma runVaultOp_ok `{!NodeCryptoLaws} op s : validIvs op -> VaultOk s -> VaultOk (runVaultOp op s).
Proof.
  intros Hiv HI. destruct op as [h b t|h b| | |]; cbn [runVaultOp].
  - destruct (initVault_result h b t s) as [e|row rows Er Em|r enc Er Em Ei Ee]; cbn [snd]; [exact HI| |].
    + intros Hu. destruct (HI Hu) as (row' & _ & E & _). cbn in E. by rewrite Er in E.
    + intros _. eexists _, (ir_ikm r). split; [reflexivity|]. split; [by repeat split|]. exists enc. split; [done|].
      assert (Hk : String.length (deriveKey (ir_ikm r) HKDF_PRIMARY) = 32) by apply hkdf_length.
      destruct (encryptSync_decrypts (deriveKey (ir_ikm r) HKDF_PRIMARY) (vh_iv h) SENTINEL_PLAINTEXT Hk (Hiv h eq_refl))
        as (e & E & _ & Ed & _). cbn [vk_primary deriveAllKeysFromIkm]. congruence.
  - destruct (unsealVault_result h b s) as [e|row rows sentinel params ikm Hs Er Ep Ei Ec]; cbn [snd]; [exact HI|].
    intros _. exists row, ikm. split; [cbn; by rewrite Er|]. split; [by repeat split|]. exists sentinel.
    split; [by eapply parse_sentinel|]. by apply checkSentinel_opens.
  - intros Hu. cbn in Hu. by destruct (vs_rows s).
  - by intros Hu.
  - intros Hu. cbn in Hu. by destruct (vs_rows s).
Qed.

Lemma runVaultOp_rows op s : insertsOnly op -> vs_rows s <> [] -> vs_rows (runVaultOp op s) = vs_rows s.
Proof.
  intros Hp Hne. destruct op as [h b t|h b| | |]; cbn [runVaultOp]; try done.
  - by destruct (initVault_result h b t s).
  - by destruct (unsealVault_result h b s).
Qed.

(** Whatever is asked of the vault and however often it is restarted, while it is unsealed the four keys the
    services read and the key of the crypto package are those of one master key, and that master key opens the
    sentinel of the stored row; the row, once there, is never changed. *)
Theorem vault_keys_match_row `{!NodeCryptoLaws} ops s :
  Forall validIvs ops -> Forall insertsOnly ops -> VaultOk s ->
  VaultOk (runVaultOps ops s) /\ (vs_rows s <> [] -> vs_rows (runVaultOps ops s) = vs_rows s).
Proof.
  intros Hiv Hp. revert s. induction ops as [|op ops IH]; intros s HI; [done|].
  apply Forall_cons in Hiv as [Hiv1 Hiv2]. apply Forall_cons in Hp as [Hp1 Hp2]. cbn.
  destruct (IH Hiv2 Hp2 (runVaultOp op s) (runVaultOp_ok op s Hiv1 HI)) as [HI' Hr]. split; [exact HI'|].
  intros Hne. pose proof (runVaultOp_rows op s Hp1 Hne) as E. etransitivity; [apply Hr; by rewrite E|exact E].
Qed.

(** ** Refusals *)

(** A vault operation that throws has changed nothing, except that the row of another process was found in the
    table, or that the vault is unsealed and it is the unsealing hook that threw; and while the vault is not
    unsealed every key getter throws. *)
Theorem refused_vault_operation host body ubody hdr s e s' :
  (initVault host body hdr s = (Throw e, s') ->
     s' = s \/ (e = ALREADY_INITIALIZED /\ vs_status s' = vs_status s) \/ (vs_status s' = unsealed /\ vh_onUnsealed host = Throw e)) /\
  (unsealVault host ubody s = (Throw e, s') ->
     s' = s \/ (vs_status s' = unsealed /\ vh_onUnsealed host = Throw e)) /\
  (vs_status s <> unsealed -> forall getter, getter ∈ [vaultPrimaryKey; vaultAuditKey; vaultBackupKey; vaultPlatformAuditKey] ->
     exists e', getter s = (Throw e', s)).
Proof.
  split; [|split].
  - intros E. pose proof (initVault_result host body hdr s) as HR. rewrite E in HR. inversion HR; subst; [by left| |].
    + right. left. done.
    + right. right. split; [done|]. by destruct (vh_onUnsealed host) as [|]; simplify_eq.
  - intros E. pose proof (unsealVault_result host ubody s) as HR. rewrite E in HR. inversion HR; subst; [by left|].
    right. split; [done|]. by destruct (vh_onUnsealed host) as [|]; simplify_eq.
  - intros Hs getter Hg. assert (Hr : forall key err, exists e', readKey key err s = (Throw e', s)).
    { intros key err. unfold readKey. rewrite bool_decide_eq_false_2 by done. by destruct (key s); eexists. }
    repeat (apply elem_of_cons in Hg as [->|Hg]; [apply Hr|]). by apply not_elem_of_nil in Hg.
Qed.

(** ** Sealing and unsealing *)

(** The credentials the vault was initialised with, given again. *)
Inductive sameCredentials (host host' : VaultHost) : VaultInitRequest -> VaultUnsealRequest -> Prop :=
| same_passphrase p : p <> "" -> sameCredentials host host' (init_passphrase p) (MkVaultUnsealRequest (Some p) None None)
| same_envelope path : path <> "" -> deriveEnvelopeIkm host' path = deriveEnvelopeIkm host path ->
    sameCredentials host host' (init_envelope path) (MkVaultUnsealRequest None (Some path) None)
| same_file path : path <> "" -> readKeyFile host' path = readKeyFile host path ->
    sameCredentials host host' (init_file path) (MkVaultUnsealRequest None None (Some path))
| same_kms keyId body : sameCredentials host host' (init_kms keyId) body.

(** Documented behaviour: a blob that was generated decrypts to its key, and is base64; GCM keeps the length. *)
Record VaultLaws : Prop := {
  kms_decrypts : forall keyId p b, kmsGenerate keyId = kms_ok (Some p, Some b) ->
    kmsDecrypt b = kms_ok (Some p) /\ isBase64 b = true;
  seal_length : forall key iv p, String.length (fst (aesGcmSeal key iv p)) = String.length p;
}.

Lemma toHex_nonempty s : s <> "" -> toHex s <> "".
Proof. by destruct s. Qed.

Lemma stored_row_parses `{!NodeCryptoLaws} host body r enc (HL : VaultLaws) :
  String.length (vh_iv host) = IV_BYTES -> String.length (vh_salt host) = 16 ->
  deriveIkmForInit host body = Ok r ->
  encryptSync (vh_iv host) SENTINEL_PLAINTEXT (deriveKey (ir_ikm r) HKDF_PRIMARY) = Ok enc ->
  parseVaultStateRow (MkVaultRow 1 1 (Some enc) (kmsTypeOf body) (ir_kdfParams r) (ir_kmsKeyId r) (ir_kmsEncryptedDek r)) =
    Ok (enc, ir_kdfParams r).
Proof.
  intros Hiv Hsalt Ei Ee.
  assert (Hk : String.length (deriveKey (ir_ikm r) HKDF_PRIMARY) = 32) by apply hkdf_length.
  assert (Hm : missingMember enc = false).
  { revert Ee. unfold encryptSync. apply badKeyLength_false in Hk as Hk'. rewrite Hk'.
    pose proof (seal_tag_length (deriveKey (ir_ikm r) HKDF_PRIMARY) (vh_iv host) SENTINEL_PLAINTEXT Hk Hiv) as Ht.
    pose proof (seal_length HL (deriveKey (ir_ikm r) HKDF_PRIMARY) (vh_iv host) SENTINEL_PLAINTEXT) as Hc.
    destruct (aesGcmSeal _ _ _) as [ct tg]. cbn [fst snd] in *. intros [= <-]. unfold missingMember. cbn [ev_iv ev_ciphertext ev_tag].
    rewrite !bool_decide_eq_false_2; [done| | |]; apply toHex_nonempty; intros E0;
      first [rewrite E0 in Hiv | rewrite E0 in Hc | rewrite E0 in Ht]; discriminate. }
  unfold parseVaultStateRow. cbn [vr_encryptedSentinel vr_kmsType vr_keyDerivationParams]. rewrite Hm.
  destruct body as [p|path|path|keyId]; cbn [kmsTypeOf] in *.
  - rewrite bool_decide_eq_true_2 by done. revert Ei. cbn [deriveIkmForInit]. cbv zeta.
    destruct (deriveIkmFromPassphrase _ _) as [ikm|]; [|done]. intros [= <-]. cbn [ir_kdfParams].
    unfold validateKeyDerivationParams. cbn. apply isHex32_toHex in Hsalt. by rewrite Hsalt.
  - rewrite bool_decide_eq_false_2 by done. revert Ei. cbn. by destruct (deriveEnvelopeIkm host path); [intros [= <-]|].
  - rewrite bool_decide_eq_false_2 by done. revert Ei. cbn. by destruct (readKeyFile host path); [intros [= <-]|].
  - rewrite bool_decide_eq_false_2 by done. revert Ei. cbn. by destruct (generateDataKey keyId) as [[p b]|]; [intros [= <-]|].
Qed.

Lemma given_some p : p <> "" -> given (Some p) = Some p.
Proof. intros Hp. unfold given. by rewrite bool_decide_eq_false_2. Qed.

Lemma unseal_ikm host host' body ubody r (HL : VaultLaws) :
  sameCredentials host host' body ubody -> deriveIkmForInit host body = Ok r ->
  deriveIkmForUnseal host' (kmsTypeOf body) ubody (ir_kdfParams r) (ir_kmsEncryptedDek r) = Ok (ir_ikm r).
Proof.
  intros [p Hp|path Hp E|path Hp E|keyId ub]; unfold deriveIkmForUnseal; cbn [kmsTypeOf vu_passphrase vu_envelopeKeyPath vu_masterKeyPath].
  - rewrite bool_decide_eq_true_2, given_some by done. cbn. destruct (deriveIkmFromPassphrase p _) as [ikm|] eqn:Ed; [|done].
    by intros [= <-].
  - rewrite bool_decide_eq_false_2, bool_decide_eq_true_2, given_some by done. rewrite E. cbn.
    by destruct (deriveEnvelopeIkm host path); [intros [= <-]|].
  - rewrite !bool_decide_eq_false_2, bool_decide_eq_true_2, given_some by done. rewrite E. cbn.
    by destruct (readKeyFile host path); [intros [= <-]|].
  - rewrite !bool_decide_eq_false_2, bool_decide_eq_true_2 by done. cbn [deriveIkmForInit].
    unfold generateDataKey. destruct (kmsGenerate keyId) as [[[p|] [b|]]|] eqn:Eg; try done.
    destruct (negb _) eqn:El; [done|]. intros [= <-]. cbn [ir_kmsEncryptedDek ir_ikm].
    destruct (kms_decrypts HL keyId p b Eg) as [Ed Hb].
    rewrite given_some by (intros ->; done). unfold decryptDataKey. by rewrite Hb, Ed, El.
Qed.

(** C24: the same credentials open the vault again: after an initialisation and a restart the vault is sealed, the
    credentials it was initialised with (passphrase, key file, the two halves, or the key service) unseal it with
    the keys it had, and every value encrypted before the restart is read back. *)
Theorem secrets_survive_restart `{!NodeCryptoLaws} (HL : VaultLaws) host host' body ubody hdr s0 r s1 :
  String.length (vh_iv host) = IV_BYTES -> String.length (vh_salt host) = 16 ->
  initVault host body hdr s0 = (Ok r, s1) -> sameCredentials host host' body ubody -> vh_onUnsealed host' = Ok tt ->
  let s2 := snd (restart s1) in
  vs_status s2 = sealed /\
  exists s3, unsealVault host' ubody s2 = (Ok r, s3) /\ s3 = s1 /\
    forall iv v enc, String.length iv = IV_BYTES -> encryptSync iv v (default "" (vs_primaryKey s1)) = Ok enc ->
      withSecret (vs_activeKey s3) enc Ok = Ok v.
Proof.
  intros Hiv Hsalt E Hsame Hhook. cbv zeta. pose proof (initVault_result host body hdr s0) as HR. rewrite E in HR.
  inversion HR as [| |ri enc Er Em Ei Ee]; subst.
  match goal with Hr : _ = Ok r |- _ => rename Hr into Hres end.
  destruct (vh_onUnsealed host) as [x|x] eqn:Eho; [|discriminate Hres]. injection Hres as <-.
  set (row := MkVaultRow 1 1 (Some enc) (kmsTypeOf body) (ir_kdfParams ri) (ir_kmsKeyId ri) (ir_kmsEncryptedDek ri)).
  split; [done|].
  assert (Hk : String.length (deriveKey (ir_ikm ri) HKDF_PRIMARY) = 32) by apply hkdf_length.
  assert (Hd : decryptSync enc (deriveKey (ir_ikm ri) HKDF_PRIMARY) = Ok SENTINEL_PLAINTEXT).
  { destruct (encryptSync_decrypts (deriveKey (ir_ikm ri) HKDF_PRIMARY) (vh_iv host) SENTINEL_PLAINTEXT Hk Hiv) as (e & E1 & _ & Ed & _).
    congruence. }
  match goal with |- exists s3, unsealVault host' ubody ?s2 = _ /\ s3 = ?s1 /\ _ =>
    exists s1; assert (Hun : unsealVault host' ubody s2 = (Ok (1%Z, kmsTypeOf body), s1)) end.
  { refine (unseal_opens host' ubody (MkVaultSys [row] sealed None None None None None) row [] enc (ir_kdfParams ri) (ir_ikm ri) _ eq_refl _ _ _ Hhook); [done| | |].
    - by apply (stored_row_parses host).
    - by apply (unseal_ikm host host').
    - unfold checkSentinel. rewrite Hd. reflexivity. }
  split; [exact Hun|]. split; [done|]. intros iv v e Hiv' Hev.
  destruct (encryptSync_decrypts (deriveKey (ir_ikm ri) HKDF_PRIMARY) iv v Hk Hiv') as (e' & E1 & _ & _ & Ed).
  assert (e = e') as -> by (change (encryptSync iv v (deriveKey (ir_ikm ri) HKDF_PRIMARY) = Ok e) in Hev; congruence).
  apply Ed.
Qed.
End theorems.

(** The stored cost parameters play no part in the derivation. *)
Lemma kdf_cost_unused `{VaultLibraries} passphrase p q :
  kdp_type p = kdp_type q -> kdp_salt p = kdp_salt q ->
  deriveIkmFromPassphrase passphrase p = deriveIkmFromPassphrase passphrase q.
Proof. unfold deriveIkmFromPassphrase. by intros -> ->. Qed.

(** ** Witnesses *)

#[local] Existing Instances toyCrypto toyCrypto_laws.

(** Argon2 by copying, a key service that wraps by copying. *)
Definition toyVaultLibraries : VaultLibraries :=
  {| argon2Raw p salt := Ok (p ++ salt)%string; resolvePath p := p;
     kmsGenerate id := kms_ok (Some key32, Some key32);
     kmsDecrypt b := kms_ok (Some b) |}.
#[local] Existing Instance toyVaultLibraries.

Definition demoHost : VaultHost :=
  MkVaultHost "/run/keys" (fun p => if p =? "/run/keys/half" then Some (MkFileEntry true "0123456789abcdef") else None)
    (Some "30313233343536373839616263646566") None (Some "letmein") "0123456789abcdef" iv12 id (Ok tt).
Definition emptyVault : VaultSys := MkVaultSys [] uninitialized None None None None None.

Lemma toyVaultLaws : VaultLaws.
Proof.
  split.
  - intros keyId p b. cbn. intros [= <- <-]. split; [done|]. vm_compute. reflexivity.
  - done.
Qed.

Definition initVaultResult : Z * string := Eval vm_compute in
  match fst (initVault demoHost (init_envelope "/run/keys/half") (Some "letmein") emptyVault) with Ok r => r | _ => (0%Z, "") end.
Definition initialisedVault : VaultSys := Eval vm_compute in
  snd (initVault demoHost (init_envelope "/run/keys/half") (Some "letmein") emptyVault).

Lemma secrets_survive_restart_witness :
  let s2 := snd (restart initialisedVault) in
  vs_status s2 = sealed /\
  exists s3, unsealVault demoHost (MkVaultUnsealRequest None (Some "/run/keys/half") None) s2 = (Ok initVaultResult, s3) /\
    s3 = initialisedVault /\
    forall iv v enc, String.length iv = IV_BYTES -> encryptSync iv v (default "" (vs_primaryKey initialisedVault)) = Ok enc ->
      withSecret (vs_activeKey s3) enc Ok = Ok v.
Proof.
  refine (secrets_survive_restart toyVaultLaws demoHost demoHost (init_envelope "/run/keys/half")
            (MkVaultUnsealRequest None (Some "/run/keys/half") None) (Some "letmein") emptyVault initVaultResult initialisedVault
            eq_refl eq_refl _ _ eq_refl).
  - vm_compute. reflexivity.
  - constructor; [discriminate|reflexivity].
Defined.

Lemma vault_keys_match_row_witness :
  let ops := [vo_init demoHost (init_kms "k") (Some "letmein"); vo_zeroKeys;
              vo_unseal demoHost (MkVaultUnsealRequest None None None)] in
  vs_status (runVaultOps ops emptyVault) = unsealed /\ VaultOk (runVaultOps ops emptyVault).
Proof.
  cbv zeta. split; [vm_compute; reflexivity|].
  refine (proj1 (vault_keys_match_row _ emptyVault _ _ _)).
  - repeat constructor; intros h [= <-]; reflexivity.
  - repeat constructor; intros h [= <-]; reflexivity.
  - intros Hu. vm_compute in Hu. discriminate.
Defined.

Lemma refused_vault_operation_witness :
  exists e', vaultPrimaryKey emptyVault = (Throw e', emptyVault).
Proof.
  refine (proj2 (proj2 (refused_vault_operation demoHost (init_kms "k") (MkVaultUnsealRequest None None None) None emptyVault
            UNSEAL_FAILED emptyVault)) _ vaultPrimaryKey _).
  - vm_compute. discriminate.
  - left.
Defined.
