(* ===== verification/RotationTheorems.v ===== *)
(** * The rotation service: functional theorems

    What promote, retire, complete, resume and abandon return and write, on
    every branch; that a promotion succeeds once and makes the new version
    current; and the two pure decisions of the service, the acknowledgement
    gate and the single-actor attestation. *)

From S2P Require Import Prelude Js Crypto FieldSet Store Tx QuotaGate AuditLog Notifications Credentials Rotation Transitions Workers Demo Lifecycle Effects RotationSpec Refinement RefinementWorkers System.
From Stdlib Require Import Ascii String Relations.
From stdpp Require Import strings sets.

Local Open Scope string_scope.
Local Open Scope list_scope.
Local Open Scope pv_scope.

(** ** Pure decisions *)

(** The acknowledgement gate of promote and retire lets a transition through
    exactly when the checklist is empty and the caller acknowledged that there
    are no dependencies, or every item is confirmed, or some are not and the
    caller acknowledged the incomplete checklist; it reports the acknowledgement
    exactly in the last case, with the number of unconfirmed items, and a
    refusal lists them. *)
Theorem evaluateChecklistAcknowledgement_spec items body :
  let pending := List.filter (fun i => negb (item_status i =? confirmed)) items in
  match evaluateChecklistAcknowledgement items body with
  | AckOk acknowledged count =>
      ((items = [] /\ ack_noDependencies body = Some true) \/
       (items <> [] /\ (pending = [] \/ ack_incompleteChecklist body = Some true))) /\
      count = length pending /\ (acknowledged = true <-> pending <> [])
  | AckRequired shown total =>
      ((items = [] /\ ack_noDependencies body <> Some true) \/
       (pending <> [] /\ ack_incompleteChecklist body <> Some true)) /\
      shown = map pendingOf pending /\ total = length items
  end.
Proof.
  cbv zeta. unfold evaluateChecklistAcknowledgement. set (pending := List.filter _ items).
  assert (Hp : items = [] -> pending = []) by (unfold pending; by intros ->).
  case_bool_decide as El.
  - assert (items = []) as Ei by by destruct items. rewrite (Hp Ei), Ei.
    destruct (ack_noDependencies body =? Some true) eqn:Ea; bool_simpl; cbn [negb]; naive_solver.
  - assert (items <> []) by (by intros ->). case_bool_decide as Epn.
    + assert (pending <> []) by (intros E; rewrite E in Epn; cbn in Epn; lia).
      destruct (ack_incompleteChecklist body =? Some true) eqn:Ea; bool_simpl; cbn [negb]; naive_solver.
    + assert (pending = []) as -> by (destruct pending; [done|cbn in Epn; lia]). naive_solver.
Qed.

Lemma distinctConfirmers_nil seen items :
  distinctConfirmers seen items = [] <-> forall i, i ∈ items -> item_confirmedBy i ∈ seen.
Proof.
  revert seen. induction items as [|i items IH]; intros seen; cbn.
  - split; [|done]. by intros _ i ?%not_elem_of_nil.
  - case_bool_decide as E.
    + rewrite IH. setoid_rewrite elem_of_cons. naive_solver.
    + split; [done|]. intros Hall. exfalso. apply E, Hall. left.
Qed.

(** A completed rotation is recorded as attested by a single actor exactly
    when its checklist is not empty and one user, the one who initiated the
    rotation, confirmed every item. *)
Theorem computeSingleActorAttested_spec items initiatedBy :
  computeSingleActorAttested items initiatedBy = true <->
  items <> [] /\ exists u, initiatedBy = Some u /\ forall i, i ∈ items -> item_confirmedBy i = Some u.
Proof.
  unfold computeSingleActorAttested. destruct items as [|i items]; [by cbn; naive_solver|].
  cbn [distinctConfirmers]. rewrite bool_decide_eq_false_2 by apply not_elem_of_nil.
  rewrite !andb_true_iff, !bool_decide_eq_true. cbn [length].
  assert (Hd : S (length (distinctConfirmers [item_confirmedBy i] items)) = 1 <->
    forall x, x ∈ items -> item_confirmedBy x = item_confirmedBy i).
  { transitivity (distinctConfirmers [item_confirmedBy i] items = []).
    - by destruct (distinctConfirmers _ _).
    - rewrite distinctConfirmers_nil. setoid_rewrite list_elem_of_singleton. done. }
  rewrite Hd. split.
  - intros [[[_ Hall] Hs] <-]. split; [done|]. destruct (item_confirmedBy i) as [u|] eqn:Ei; [|done].
    exists u. split; [done|]. intros x [->|Hx]%elem_of_cons; [done|]. auto.
  - intros [_ (u & -> & Hall)]. rewrite (Hall i) by left. repeat split; [lia|].
    intros x Hx. apply Hall. by right.
Qed.

(** ** Transitions *)

Section transitions.
Context `{Platform, NodeCrypto, Unicode, OtpAuth, Locale, Env}.

(** Promote: a refused promotion (lock held, no such rotation, not staged,
    checklist not acknowledged) changes nothing; otherwise it always succeeds
    (its compare-and-swap cannot fail under the scoped lock): the rotation
    becomes promoted with its optimistic version incremented, the new version
    gets its promotion date, and no other row changes. *)
Theorem promoteRotation_spec p body w :
  NoDup (map rot_id (db_rotations (w_db w))) ->
  promoteRotation p body w =
    match transitionFailure w p body staged with
    | inl f => (Ok (PromoteFailure f), w)
    | inr ready =>
        let r := ready_rotation ready in
        (Ok (Promoted (promoteRow w r r) (ready_items ready) (ready_checklistAcknowledged ready)
               (ready_pendingCount ready)),
         writes w 3 (setRotation (rot_id r) (promoteRow w r) (db_rotations (w_db w)))
           (setVersion (rot_newVersionId r)
              (fun v => v <| cv_promotedAt := Some (clock (2 + w_tick w)) |>) (db_versions (w_db w))))
    end.
Proof. apply promoteRotation_eq. Qed.

(** Retire: like promote, from the promoted status; a retirement destroys
    the previous version: its value and key version are erased, it is marked
    purged and unlocked, unless it was purged before. *)
Theorem retireRotation_spec p body w :
  NoDup (map rot_id (db_rotations (w_db w))) ->
  retireRotation p body w =
    match transitionFailure w p body promoted with
    | inl f => (Ok (RetireFailure f), w)
    | inr ready =>
        let r := ready_rotation ready in
        (Ok (Retired (retireRow w r r) (ready_items ready) (ready_checklistAcknowledged ready)
               (ready_pendingCount ready)),
         writes w 3 (setRotation (rot_id r) (retireRow w r) (db_rotations (w_db w)))
           (setVersion (rot_previousVersionId r) (destroy (clock (2 + w_tick w))) (db_versions (w_db w))))
    end.
Proof. apply retireRotation_eq. Qed.

(** Complete, the legacy end of a rotation: it demands the in-progress
    status, a fully confirmed checklist, and an acknowledgement when the
    checklist is empty; the refusals are told apart (staged, promoted and
    retired rotations get their own), change nothing, and a success only
    completes the rotation and unlocks the previous version. *)
Theorem completeRotation_spec p ack w :
  NoDup (map rot_id (db_rotations (w_db w))) ->
  completeRotation p ack w =
    match scopedLockResult w p with
    | RslLockedConflict v => (Ok (CompleteFailure (FailLockedConflict v)), w)
    | RslNotFound => (Ok (CompleteFailure FailRotationNotFound), w)
    | RslFound r =>
        if negb (rot_status r ∈? [in_progress]) then
          (Ok (if rot_status r ∈? LEGACY_COMPLETE_BLOCKED_STATUSES then CompleteWrongState (rot_status r)
               else CompleteFailure (FailRotationNotActive (rot_status r))), w)
        else
          let items := checklistOf (w_db w) (rp_rotationId p) in
          let pending := List.filter (fun i => negb (item_status i =? confirmed)) items in
          if bool_decide (0 < length pending)
          then (Ok (CompleteChecklistIncomplete (map pendingOf pending) (length items)), w)
          else if (length items =? 0) && negb (ack =? Some true)
          then (Ok CompleteAcknowledgementRequired, w)
          else
            (Ok (Completed (completeRow w r r) items (computeSingleActorAttested items (rot_initiatedBy r))),
             writes w 2 (setRotation (rot_id r) (completeRow w r) (db_rotations (w_db w)))
               (setVersion (rot_previousVersionId r) (fun v => v <| cv_rotationLockedAt := None |>)
                  (db_versions (w_db w))))
    end.
Proof. apply completeRotation_eq. Qed.

(** Abandon and resume: only a staged or stale rotation is abandoned, never
    a promoted one, and only a stale one is resumed; an abandonment withdraws
    the new version and unlocks the previous one, a resumption only changes the
    rotation; refusals change nothing. *)
Theorem abandon_resume_spec p w :
  NoDup (map rot_id (db_rotations (w_db w))) ->
  abandonRotation p w =
    match abandonFailure w p with
    | inl f => (Ok (AbandonFailure f), w)
    | inr r =>
        (Ok (Abandoned (abandonRow w r r) (checklistOf (w_db w) (rp_rotationId p))),
         writes w 2 (setRotation (rot_id r) (abandonRow w r) (db_rotations (w_db w)))
           (setVersion (rot_previousVersionId r) (fun v => v <| cv_rotationLockedAt := None |>)
              (setVersion (rot_newVersionId r)
                 (fun v => v <| cv_abandonedAt := Some (clock (1 + w_tick w)) |>) (db_versions (w_db w)))))
    end /\
  resumeRotation p w =
    match staleFailure w p with
    | inl f => (Ok (ResumeFailure f), w)
    | inr r =>
        (Ok (Resumed (resumeRow w r r) (checklistOf (w_db w) (rp_rotationId p))),
         writes w 1 (setRotation (rot_id r) (resumeRow w r) (db_rotations (w_db w))) (db_versions (w_db w)))
    end.
Proof. intros Hnd. split; [by apply abandonRotation_eq|by apply resumeRotation_eq]. Qed.

Lemma edge_from_promoted s : clos_refl_trans _ edge promoted s -> s <> staged.
Proof.
  intros He%clos_rt_rt1n. inversion He as [|x y Hxy Hrest]; subst; [done|]. inversion Hxy; subst.
  - inversion Hrest as [|u v Huv _]; subst; [done|]. inversion Huv as [| | | | |z Hz]; subst.
    repeat (apply elem_of_cons in Hz as [?|Hz]; [done|]). by apply not_elem_of_nil in Hz.
  - match goal with Hz : promoted ∈ _ |- _ =>
      repeat (apply elem_of_cons in Hz as [?|Hz]; [done|]); by apply not_elem_of_nil in Hz end.
Qed.

Lemma promoteRotation_ok p body w r items a n w' :
  NoDup (map rot_id (db_rotations (w_db w))) ->
  promoteRotation p body w = (Ok (Promoted r items a n), w') ->
  exists r0, rotationInScope (w_db w) p = Some r0 /\ rot_status r0 = staged /\ r = promoteRow w r0 r0 /\
    w' = writes w 3 (setRotation (rot_id r0) (promoteRow w r0) (db_rotations (w_db w)))
      (setVersion (rot_newVersionId r0) (fun v => v <| cv_promotedAt := Some (clock (2 + w_tick w)) |>)
         (db_versions (w_db w))).
Proof.
  intros Hnd. rewrite promoteRotation_eq by done. destruct (transitionFailure w p body staged) as [f|ready] eqn:E; [done|].
  apply transitionFailure_ready in E as [Hr Hst]. cbv zeta. intros [= <- _ _ _ <-].
  exists (ready_rotation ready). done.
Qed.

(** A promotion happens at most once: after a successful promotion and any
    sequence of further operations, promoting the same rotation again is
    refused and changes nothing. *)
Theorem promote_once p body body2 w r items a n w' w2 :
  DbInv (w_db w) -> promoteRotation p body w = (Ok (Promoted r items a n), w') ->
  Reaches (w_db w') (w_db w2) ->
  exists f, promoteRotation p body2 w2 = (Ok (PromoteFailure f), w2).
Proof.
  intros HI Hp Hreach.
  assert (He : Evolves (w_db w) (w_db w')).
  { pose proof (refines_promote p body w HI) as Hw. unfold wp in Hw. by rewrite Hp in Hw. }
  pose proof (Evolves_DbInv _ _ He HI) as HI'.
  pose proof (Evolves_DbInv _ _ (Reaches_evolves _ _ HI' Hreach) HI') as HI2.
  apply promoteRotation_ok in Hp as (r0 & Hr0 & Hst & -> & ->); [|by apply DbInv_rotation_ids].
  apply rotationInScope_spec in Hr0 as (Hin & Hid & _).
  destruct (Steps_follows _ _ (promoteRow w r0 r0) (ev_steps _ _ (Reaches_evolves _ _ HI' Hreach))
    (di_life _ HI')) as (r2 & Hr2 & Hf).
  { cbn. apply elem_of_setRotation; [by apply DbInv_rotation_ids|done|by left]. }
  rewrite promoteRotation_eq by by apply DbInv_rotation_ids.
  destruct (transitionFailure w2 p body2 staged) as [f|ready] eqn:E; [by exists f|].
  apply transitionFailure_ready in E as [(Hin2 & Hid2 & _)%rotationInScope_spec Hst2].
  exfalso. apply (edge_from_promoted (rot_status r2)); [exact (fo_status _ _ Hf)|].
  assert (ready_rotation ready = r2) as <-; [|done].
  apply (NoDup_key_inj rot_id (db_rotations (w_db w2))); [by apply DbInv_rotation_ids|done|done|].
  rewrite (fo_id _ _ Hf). cbn. congruence.
Qed.

(** ** The current version *)

Lemma currentOrder_spec a b :
  currentOrder a b = true <->
  let pa := default 0%Z (cv_promotedAt a) in let pb := default 0%Z (cv_promotedAt b) in
  (pb < pa)%Z \/ (pa = pb /\ (cv_versionNumber b <= cv_versionNumber a)%Z).
Proof. unfold currentOrder. by rewrite orb_true_iff, andb_true_iff, !bool_decide_eq_true. Qed.

Lemma currentOrder_total a b : currentOrder a b = false -> currentOrder b a = true.
Proof.
  intros E. apply currentOrder_spec. rewrite <- not_true_iff_false, currentOrder_spec in E. cbv zeta in *. lia.
Qed.
Lemma currentOrder_trans a b c : currentOrder a b = true -> currentOrder b c = true -> currentOrder a c = true.
Proof. rewrite !currentOrder_spec. cbv zeta. lia. Qed.

(** A live version promoted after all the others is the current one. *)
Lemma selectCurrentVersionMeta_latest c n d w :
  NoDup (map cv_id (db_versions (w_db w))) ->
  n ∈ db_versions (w_db w) -> cv_credentialId n = c -> isLive n = true -> cv_promotedAt n = Some d ->
  (forall v t, v ∈ db_versions (w_db w) -> cv_credentialId v = c -> cv_id v <> cv_id n ->
     cv_promotedAt v = Some t -> (t < d)%Z) ->
  selectCurrentVersionMeta c w = (Ok (Some n), w).
Proof.
  intros Hnd Hn Hc Hl Hd Hlast. unfold selectCurrentVersionMeta, selectFirstOrdered. f_equal. f_equal.
  assert (Hin : n ∈ List.filter (fun v => (cv_credentialId v =? c) && isLive v) (db_versions (w_db w)))
    by (apply elem_of_lfilter; by rewrite bool_decide_eq_true_2).
  destruct (head _) as [x|] eqn:E; cycle 1.
  { apply head_None in E. apply elem_of_isort with (leb := currentOrder) in Hin. rewrite E in Hin.
    by apply not_elem_of_nil in Hin. }
  f_equal. destruct (isort_head_least _ currentOrder_total currentOrder_trans _ _ n E Hin) as [Hle|]; [|done].
  apply head_elem_of in E. rewrite elem_of_isort, elem_of_lfilter in E. destruct E as [Hp Hx].
  apply andb_true_iff in Hp as [Hxc Hxl]. bool_simpl.
  destruct (decide (cv_id x = cv_id n)) as [Ei|Ei]; [by apply (NoDup_key_inj cv_id (db_versions (w_db w)))|].
  unfold isLive in Hxl. apply andb_true_iff in Hxl as [_ Hxp]. destruct (cv_promotedAt x) as [t|] eqn:Et; [|done].
  pose proof (Hlast x t Hx Hxc Ei Et). apply currentOrder_spec in Hle. rewrite Hd, Et in Hle. cbn in Hle. lia.
Qed.

(** A successful promotion makes the rotation's new version the current
    version of the credential, the one that reveal serves, when the clock did
    not go back behind the promotions of the other versions and the new version
    was not purged while staged. *)
Theorem promoted_version_is_current p body w r items a n w' :
  DbInv (w_db w) -> promoteRotation p body w = (Ok (Promoted r items a n), w') ->
  (forall v t, v ∈ db_versions (w_db w) -> cv_credentialId v = rp_credentialId p -> cv_promotedAt v = Some t ->
     (t < clock (2 + w_tick w))%Z) ->
  (forall v, v ∈ db_versions (w_db w) -> cv_id v = rot_newVersionId r -> cv_purgedAt v = None) ->
  exists v, v ∈ db_versions (w_db w) /\ cv_id v = rot_newVersionId r /\
    selectCurrentVersionMeta (rp_credentialId p) w' =
      (Ok (Some (v <| cv_promotedAt := Some (clock (2 + w_tick w)) |>)), w').
Proof.
  intros HI Hp Hclock Hpurged. apply promoteRotation_ok in Hp as (r0 & Hr0 & Hst & -> & ->); [|by apply DbInv_rotation_ids].
  apply rotationInScope_spec in Hr0 as (Hin & Hid & Hc).
  destruct HI as [HI _]. pose proof (inv_version_ids _ HI) as Hnd. cbn in Hnd.
  destruct (inv_linked _ HI r0 Hin) as (pv & nv & Hl); [unfold isActive; by rewrite Hst|]. cbn in Hl.
  pose proof (lk_new _ _ _ _ Hl) as Hnv. pose proof (lk_new_id _ _ _ _ Hl) as Eid.
  exists nv. split; [done|]. split; [done|]. set (d := clock _) in *.
  set (f := fun v : VersionRow => v <| cv_promotedAt := Some d |>).
  assert (Hf : keepsVersion (onId cv_id (rot_newVersionId r0) f)) by (apply keepsVersion_onId; keeps_version).
  apply (selectCurrentVersionMeta_latest _ _ d); cbn; rewrite ?setVersion_map.
  - by rewrite map_ids_version.
  - apply elem_of_map. exists nv. split; [|done]. unfold onId. by rewrite bool_decide_eq_true_2.
  - by rewrite (lk_new_cred _ _ _ _ Hl), Hc.
  - unfold isLive. cbn. by rewrite (Hpurged nv Hnv Eid), (lk_new_kept _ _ _ _ Hl).
  - done.
  - intros v' t (v & -> & Hv)%elem_of_map Hcv Hne Ht. unfold onId in *. case_bool_decide as Ei.
    + cbn in Hne. congruence.
    + by apply (Hclock v).
Qed.
End transitions.

(** ** Witnesses *)

#[local] Existing Instances byteLocale toyPlatform toyCrypto toyEnv toyOtpAuth.

Lemma demo_NoDup w : map rot_id (db_rotations (w_db w)) = [rot_id demoRotation] ->
  NoDup (map rot_id (db_rotations (w_db w))).
Proof. intros ->. apply NoDup_singleton. Qed.

Lemma promoteRotation_spec_witness : exists r items w',
  promoteRotation demoParams ackAll staged1 = (Ok (Promoted r items true 1), w') /\ rot_status r = promoted.
Proof.
  do 3 eexists. split.
  - rewrite (promoteRotation_spec demoParams ackAll staged1 (demo_NoDup staged1 eq_refl)).
    vm_compute. reflexivity.
  - reflexivity.
Defined.

Lemma retireRotation_spec_witness : exists r items w',
  retireRotation demoParams ackAll promoted1 = (Ok (Retired r items true 1), w') /\
  map cv_encryptedValue (List.filter (fun v => cv_id v =? rot_previousVersionId r) (db_versions (w_db w'))) = [None].
Proof.
  do 3 eexists. split.
  - rewrite (retireRotation_spec demoParams ackAll promoted1 (demo_NoDup promoted1 eq_refl)).
    vm_compute. reflexivity.
  - reflexivity.
Defined.

Lemma completeRotation_spec_witness :
  (exists r items w', completeRotation demoParams None inProgress1 = (Ok (Completed r items true), w')) /\
  completeRotation demoParams None staged1 = (Ok (CompleteWrongState staged), staged1).
Proof.
  split.
  - do 3 eexists. rewrite (completeRotation_spec demoParams None inProgress1 (demo_NoDup inProgress1 eq_refl)).
    vm_compute. reflexivity.
  - rewrite (completeRotation_spec demoParams None staged1 (demo_NoDup staged1 eq_refl)). vm_compute. reflexivity.
Defined.

Lemma abandon_resume_spec_witness :
  abandonRotation demoParams promoted1 = (Ok (AbandonFailure SfNotAbandonableAfterPromotion), promoted1) /\
  exists r items w', resumeRotation demoParams stale1 = (Ok (Resumed r items), w') /\ rot_status r = in_progress.
Proof.
  split.
  - rewrite (proj1 (abandon_resume_spec demoParams promoted1 (demo_NoDup promoted1 eq_refl))). reflexivity.
  - do 3 eexists. split.
    + rewrite (proj2 (abandon_resume_spec demoParams stale1 (demo_NoDup stale1 eq_refl))). vm_compute. reflexivity.
    + reflexivity.
Defined.

Lemma staged1_reached : staged1 =
  runAll [OpCreateCredential 1 2 7 demoBody; OpInitiate (demoInitiate "second secret")] (worldOf demoDb).
Proof. by vm_compute. Qed.

Lemma staged1_DbInv : DbInv (w_db staged1).
Proof.
  assert (HI : DbInv demoDb) by by apply DbInv_noVersions.
  eapply Evolves_DbInv; [|exact HI]. apply Reaches_evolves; [exact HI|]. rewrite staged1_reached.
  apply Reaches_runAll, reaches_refl.
Qed.

Lemma promote_once_witness :
  exists f, promoteRotation demoParams ackAll retired1 = (Ok (PromoteFailure f), retired1).
Proof.
  assert (Hr : Reaches (w_db promoted1) (w_db retired1)).
  { assert (E : retired1 = runAll [OpRetire demoParams ackAll] promoted1) by by vm_compute.
    rewrite E. apply Reaches_runAll, reaches_refl. }
  destruct (promoteRotation demoParams ackAll staged1) as [[[f|r items a n]|e] w'] eqn:E;
    [by vm_compute in E| |by vm_compute in E].
  assert (Ew : w' = promoted1) by (vm_compute in E; by injection E).
  rewrite <- Ew in Hr.
  exact (promote_once demoParams ackAll ackAll staged1 r items a n w' retired1 staged1_DbInv E Hr).
Defined.

Lemma promoted_version_is_current_witness :
  exists r items w' v, promoteRotation demoParams ackAll staged1 = (Ok (Promoted r items true 1), w') /\
    selectCurrentVersionMeta demoCredential w' = (Ok (Some v), w') /\ cv_versionNumber v = 2%Z.
Proof.
  destruct (promoteRotation demoParams ackAll staged1) as [[[f|r items a n]|e] w'] eqn:E;
    [by vm_compute in E| |by vm_compute in E].
  destruct (promoted_version_is_current demoParams ackAll staged1 r items a n w' staged1_DbInv E) as (v & Hv & Hid & Hs).
  - intros v t Hv _ Ht. vm_compute in Hv, Ht. revert t Ht.
    repeat (apply elem_of_cons in Hv as [->|Hv]; [intros t [= <-]; by vm_compute|]). by apply not_elem_of_nil in Hv.
  - intros v Hv _. vm_compute in Hv.
    repeat (apply elem_of_cons in Hv as [->|Hv]; [done|]). by apply not_elem_of_nil in Hv.
  - exists r, items, w'. eexists. split; [|split; [exact Hs|]].
    + vm_compute in E. injection E as <- <- <- <- <-. reflexivity.
    + vm_compute in E. injection E as <- _ _ _ _. vm_compute in Hv, Hid.
      repeat (apply elem_of_cons in Hv as [->|Hv]; [vm_compute in Hid; (congruence || reflexivity)|]).
      by apply not_elem_of_nil in Hv.
Defined.
