(* ===== verification/ServiceTheorems.v ===== *)
(** * The credential and rotation services: theorems on whole requests

    Initiation against an active rotation, the round trip from a created
    credential to its reveal, one-time-password seeds that no reveal returns,
    the idempotency window of break-glass, and two defects shown on concrete
    databases: the retention job that purges the current version, and the list
    of credentials that shows another version than the one revealed. *)

From S2P Require Import Prelude Js Crypto FieldSet Store Tx QuotaGate AuditLog Notifications Credentials Rotation Transitions Workers Demo Lifecycle Effects RotationSpec Refinement RefinementWorkers System RotationTheorems.
From Stdlib Require Import Ascii String Relations.
From stdpp Require Import strings sets.

Local Open Scope string_scope.
Local Open Scope list_scope.
Local Open Scope pv_scope.

Section services.
Context `{Platform, NodeCrypto, Unicode, OtpAuth, Locale, Env}.

(** ** Initiation *)

Lemma conflict_active r (rs : list RotationRow) c new :
  r ∈ rs -> isActive r = true -> rot_credentialId r = c ->
  rot_credentialId new = c -> isActive new = true ->
  Forall (fun x => rotationConflict new x = false) rs -> False.
Proof.
  intros Hr Ha Hc Hn Hna Hall. apply no_conflict_fresh in Hall as [_ Hno].
  rewrite (Hno Hna r Hr) in Ha; [done|congruence].
Qed.

Lemma writeRotation_conflict input prev pf r w :
  r ∈ db_rotations (w_db w) -> isActive r = true -> rot_credentialId r = ii_credentialId input ->
  wp (writeRotation input prev pf) (fun o _ => exists e, o = Throw e) w.
Proof.
  intros Hr Ha Hc. unfold writeRotation. eapply wp_bind_eq; [reflexivity|].
  eapply wp_bind_eq; [apply nextCredentialVersionNumber_eq|].
  apply wp_bind. eapply wp_mono; [apply buildNewVersionInsertFields_readOnly|].
  intros [fields|e] w1; [intros [n ->]|intros _; by exists e].
  apply wp_bind. eapply wp_mono; [apply insertVersion_spec|].
  intros [new|e] w2; [|by exists e]. intros (_ & _ & ->).
  eapply wp_bind_eq; [reflexivity|]. eapply wp_bind_eq; [reflexivity|]. eapply wp_bind_eq; [reflexivity|].
  apply wp_bind. eapply wp_mono; [apply insertRotation_spec|].
  intros [x|e] w3; [|by exists e]. intros (Exc & _ & _ & Exs & _ & _ & Hconf & _). cbn in Hconf. exfalso.
  apply (conflict_active r _ (ii_credentialId input) x Hr Ha Hc Exc); [|done]. unfold isActive. by rewrite Exs.
Qed.

Definition notInitiated (res : InitiateRotationResult) : Prop :=
  match res with Initiated _ _ _ _ => False | _ => True end.

Lemma resolveInitiateRotationPreflight_notInitiated prev body w :
  wp (resolveInitiateRotationPreflight prev body) (fun o w' =>
    sameDb w w' /\ forall res, o = Ok (inl res) -> notInitiated res) w.
Proof.
  unfold resolveInitiateRotationPreflight. destruct (validateTargetFields _ _ _) as [targets|field]; cycle 1.
  { apply wp_ret. split; [apply sameDb_refl|]. by intros ? [= <-]. }
  destruct (_ ≫= _); [by apply wp_ret; split; [apply sameDb_refl|intros ? [= <-]]|]. cbv zeta.
  destruct (validateFieldValues _ _); [|by apply wp_ret; split; [apply sameDb_refl|intros ? [= <-]]].
  apply wp_bind. assert (Hro : forall values, readOnly (computeSameValueAsPrevious prev targets (irb_newValue body) values))
    by (intros values; unfold computeSameValueAsPrevious; read_only).
  eapply wp_mono; [apply Hro|]. intros [[[same sameField] plaintext]|e] w' Hs; [|by split].
  destruct (_ && _); apply wp_ret; split; try done; by intros ? [= <-].
Qed.

Lemma initiateInSavepoint_conflict input r w :
  r ∈ db_rotations (w_db w) -> isActive r = true -> rot_credentialId r = ii_credentialId input ->
  wp (initiateInSavepoint input) (fun o w' => forall res, o = Ok res -> notInitiated res /\ w_db w' = w_db w) w.
Proof.
  intros Hr Ha Hc. unfold initiateInSavepoint. apply wp_bind. eapply wp_mono; [apply loadRotationTargetForUpdate_spec|].
  intros [res|e] w' [-> _]; [|done]. destruct res as [| | |prev]; try (apply wp_ret; by intros ? [= <-]).
  apply wp_bind. eapply wp_mono; [apply resolveInitiateRotationPreflight_notInitiated|].
  intros [[res|pf]|e] w1 [Hs Hno]; [| |done].
  - apply wp_ret. intros ? [= <-]. split; [by apply Hno|by apply sameDb_db].
  - eapply wp_mono; [apply (writeRotation_conflict input prev pf r)|]; rewrite ?(sameDb_db _ _ Hs); try done.
    by intros o w2 [e ->].
Qed.

(** No second rotation: as long as a credential has an active rotation
    (staged, promoted, in progress or stale), no initiation on it succeeds,
    whatever its input and the locks held; when the credential's lock is free
    the database is left as it was, whether the request is refused or throws. *)
Theorem initiate_refused_while_active input r w :
  r ∈ db_rotations (w_db w) -> isActive r = true -> rot_credentialId r = ii_credentialId input ->
  wp (initiateRotation input) (fun o w' =>
    (forall res, o = Ok res -> notInitiated res) /\
    ((ii_orgId input, ii_credentialId input) ∉ w_locks w -> w_db w' = w_db w)) w.
Proof.
  intros Hr Ha Hc. unfold initiateRotation. eapply wp_bind_eq; [reflexivity|]. rewrite negb_involutive.
  case_bool_decide as Hl.
  { eapply wp_bind_eq; [reflexivity|]. eapply wp_bind_eq; [reflexivity|]. by apply wp_throw. }
  apply wp_bind. eapply wp_mono; [assert (Hro : readOnly (lockActiveInitiatorMembership (ii_orgId input) (ii_userId input)))
    by (unfold lockActiveInitiatorMembership; read_only); apply Hro|].
  intros [b|e] w1 [n ->]; [|done]. destruct (negb b); [by apply wp_ret; split; [intros ? [= <-]|]|].
  apply wp_catch, wp_transaction. eapply wp_mono; [by apply (initiateInSavepoint_conflict input r)|].
  intros [res|e] w2 Hres.
  { destruct (Hres res eq_refl) as [Hn Hdb]. split; [by intros ? [= <-]|done]. }
  destruct (isUniqueViolation e); [|by apply wp_throw].
  apply wp_bind. eapply wp_mono; [assert (Hro : readOnly (findInProgressRotationId (ii_credentialId input)))
    by (unfold findInProgressRotationId; read_only); apply Hro|].
  intros [id|e'] w3 [n3 ->]; [by apply wp_throw|done].
Qed.

(** ** Reveal *)

(** What a reveal of a version in the current format returns for its fields. *)
Definition revealOf (fields : list Field) (versionNumber : Z) : RevealCurrentValueResult :=
  match fields with
  | [f] => if isTotp f then FoundFields [] 2 versionNumber false []
           else FoundValue (fld_value f) versionNumber false None
  | _ => FoundFields (withoutTotpFields fields) 2 versionNumber false
           (map fld_key (List.filter fld_sensitive (withoutTotpFields fields)))
  end.

Lemma readableFields_serialize r w :
  lift (readableFields 2 (serializeFieldEnvelope r)) w =
    (let fs := map storedField (rfs_fields r) in
     Ok (withoutTotpFields fs, bool_decide (1 < length fs)%nat || negb (length (withoutTotpFields fs) =? length fs)), w).
Proof.
  unfold lift, readableFields, parseFieldsFromPlaintext. change (2 <? 2) with false. change (2 <=? 2) with true.
  cbv iota. by rewrite parseEnvelope_serialize.
Qed.

Lemma unwrapReveal_serialize r w :
  lift (unwrapRevealValue 2 (serializeFieldEnvelope r)) w =
    (Ok (match rfs_fields r with [f] => fld_value f | _ => serializeFieldEnvelope r end), w).
Proof.
  unfold lift, unwrapRevealValue. change (2 <? 2) with false. cbv iota. rewrite parseEnvelope_serialize. cbn.
  by destruct (rfs_fields r) as [|f [|]].
Qed.

Lemma revealCurrentValue_row c projectId cr v enc r w :
  findCredentialInProject c projectId w = (Ok (Some cr), w) ->
  selectCurrentVersionMeta c w = (Ok (Some v), w) -> cv_encryptedValue v = Some enc ->
  cv_schemaVersion v = 2%Z -> rfs_fields r <> [] ->
  withSecret (w_activeKey w) enc Ok = Ok (serializeFieldEnvelope r) ->
  (forall x, x ∈ db_versions (w_db w) -> cv_credentialId x = c -> (cv_versionNumber x <= cv_versionNumber v)%Z) ->
  revealCurrentValue c projectId None w =
    (Ok (revealOf (map storedField (rfs_fields r)) (cv_versionNumber v)), w).
Proof.
  intros Hcr Hv He Hs Hne Hdec Hmax. unfold revealCurrentValue. unfold mbind at 1, M_bind at 1. rewrite Hcr.
  unfold mbind at 1, M_bind at 1. fold (selectCurrentVersionMeta c). rewrite Hv. cbv beta iota.
  assert (Eve : (x ← Some v; e ← cv_encryptedValue x; Some (x, e)) = Some (v, enc)) by (cbn; by rewrite He).
  rewrite Eve. unfold mbind at 1, M_bind at 1. unfold selectFirst at 1. cbv beta iota.
  assert (En : List.filter (fun x => (cv_credentialId x =? c) && isNull (cv_purgedAt x) && isNotNull (cv_abandonedAt x)
      && (cv_versionNumber v <? cv_versionNumber x)) (db_versions (w_db w)) = []).
  { apply lfilter_none. intros x Hx. apply not_true_iff_false. intros Hb. bool_simpl.
    match goal with Hc : cv_credentialId x = c |- _ => pose proof (Hmax x Hx Hc) end. lia. }
  rewrite En. cbn [head isNotNull]. rewrite Hs. cbv zeta. cbn [invalidRequestedField].
  unfold mbind at 1, M_bind at 1. unfold withSecretText. rewrite Hdec. cbv beta iota.
  unfold mbind at 1, M_bind at 1. rewrite readableFields_serialize. cbv beta iota zeta.
  destruct (rfs_fields r) as [|f [|g l]] eqn:Ef; [done| |done]. cbn [map revealOf].
  unfold withoutTotpFields. cbn [List.filter]. rewrite isTotp_storedField.
  destruct (isTotp f); [done|]. cbn [negb]. change (bool_decide (1 < length [storedField f])%nat) with false.
  change (length [storedField f] =? length [storedField f]) with true. cbn [negb orb].
  unfold mbind at 1, M_bind at 1. by rewrite unwrapReveal_serialize, Ef.
Qed.

Lemma insertVersionAndSetCurrent_spec nv w :
  wp (insertVersionAndSetCurrent nv) (fun o w' => forall v, o = Ok v ->
    (exists id, v = versionRowOf id (w_now w) nv) /\ cv_id v ∉ map cv_id (db_versions (w_db w)) /\
    db_versions (w_db w') = db_versions (w_db w) ++ [v] /\ w_activeKey w' = w_activeKey w /\
    exists g, (forall c, cred_id (g c) = cred_id c /\ cred_projectId (g c) = cred_projectId c) /\
      db_credentials (w_db w') = map g (db_credentials (w_db w))) w.
Proof.
  unfold insertVersionAndSetCurrent. apply wp_bind. eapply wp_mono; [apply insertVersion_spec|].
  intros [row|e] w1; [|done]. intros (Erow & Hfree & ->). unfold updateCredentials. unfold wp, mbind, M_bind, dbNow,
    updateWhere, mret, M_ret. cbn [w_db w_now w_activeKey w_tick setter db_versions db_credentials].
  intros v [= <-]. split; [by eexists|]. split.
  { intros (x & Ex & Hx)%elem_of_map. apply (proj1 (Forall_forall _ _) Hfree) in Hx. unfold versionConflict in Hx.
    rewrite Ex, bool_decide_eq_true_2 in Hx; done. }
  split; [done|]. split; [done|].
  exists (fun c => if cred_id c =? nv_credentialId nv
    then c <| cred_currentVersionId := Some (cv_id row) |> <| cred_updatedAt := w_now w |> else c).
  split; [|reflexivity]. intros c. by destruct (_ =? _).
Qed.

(** The reveal after a version was stored by [insertVersionAndSetCurrent]. *)
Lemma reveal_stored nv projectId key r enc d w w' v :
  DbInv (w_db w) -> insertVersionAndSetCurrent nv w = (Ok v, w') ->
  nv_encryptedValue nv = enc -> nv_schemaVersion nv = Some 2%Z -> nv_promotedAt nv = Some d ->
  rfs_fields r <> [] -> w_activeKey w = Some key ->
  withSecret (Some key) enc Ok = Ok (serializeFieldEnvelope r) ->
  (exists c, c ∈ db_credentials (w_db w) /\ cred_id c = nv_credentialId nv /\ cred_projectId c = projectId) ->
  (forall x t, x ∈ db_versions (w_db w) -> cv_credentialId x = nv_credentialId nv -> cv_promotedAt x = Some t ->
     (t < d)%Z) ->
  (forall x, x ∈ db_versions (w_db w) -> cv_credentialId x = nv_credentialId nv ->
     (cv_versionNumber x < nv_versionNumber nv)%Z) ->
  revealCurrentValue (nv_credentialId nv) projectId None w' =
    (Ok (revealOf (map storedField (rfs_fields r)) (nv_versionNumber nv)), w').
Proof.
  intros [HI _] Hok Henc Hsch Hpr Hne Hkey Hdec (c & Hc & Ecid & Ecp) Hold Hnum.
  pose proof (insertVersionAndSetCurrent_spec nv w) as Hw. unfold wp in Hw. rewrite Hok in Hw.
  destruct (Hw v eq_refl) as ([id Ev] & Hfresh & Hvs & Hact & g & Hg & Hcs).
  pose proof (inv_version_ids _ HI) as Hnd. cbn in Hnd.
  assert (Hnew : forall x, x ∈ db_versions (w_db w') -> x ∈ db_versions (w_db w) \/ x = v).
  { rewrite Hvs. intros x [?|?%list_elem_of_singleton]%elem_of_app; auto. }
  assert (Hfind : exists cr, findCredentialInProject (nv_credentialId nv) projectId w' = (Ok (Some cr), w')).
  { unfold findCredentialInProject, selectFirst. rewrite Hcs. destruct (head _) as [cr|] eqn:Eh; [by exists cr|].
    exfalso. apply head_None in Eh. eapply not_elem_of_nil. rewrite <- Eh. apply elem_of_lfilter. split; cycle 1.
    - apply elem_of_map. by exists c.
    - destruct (Hg c) as [-> ->]. by rewrite !bool_decide_eq_true_2. }
  destruct Hfind as [cr Hfind]. subst v enc.
  apply (revealCurrentValue_row _ _ cr (versionRowOf id (w_now w) nv) (nv_encryptedValue nv) r); try done.
  - apply (selectCurrentVersionMeta_latest _ _ d); try done.
    + rewrite Hvs, map_app. apply NoDup_app. split; [done|]. split; [|apply NoDup_singleton].
      intros x Hx ->%list_elem_of_singleton. done.
    + rewrite Hvs. apply elem_of_app. right. by left.
    + unfold isLive. cbn. by rewrite Hpr.
    + intros x t Hx Hxc Hxi Ht. destruct (Hnew x Hx) as [Hx'| ->]; [by eapply Hold|done].
  - cbn. by rewrite Hsch.
  - by rewrite Hact, Hkey.
  - intros x Hx Hxc. destruct (Hnew x Hx) as [Hx'| ->]; [|done]. cbn. specialize (Hnum x Hx' Hxc). lia.
Qed.

(** C28: what was stored is what is revealed: right after a version was added
    from a field set (or the legacy single value), the reveal of the credential
    returns exactly the submitted fields, in order, with any one-time-password
    field left out: the bare value for a single field, the fields with their
    values otherwise; provided the vault key that encrypts is the one that
    decrypts and the clock is ahead of the promotions of the older versions. *)
Theorem reveal_returns_stored `{!NodeCryptoLaws} orgId credentialId projectId userId body key w :
  DbInv (w_db w) -> w_primaryKey w = Some key -> w_activeKey w = Some key -> String.length key = 32 ->
  (forall n, String.length (randomIv n) = IV_BYTES) -> body_fields body <> Some [] ->
  (forall x t n, x ∈ db_versions (w_db w) -> cv_credentialId x = credentialId -> cv_promotedAt x = Some t ->
     (t < clock n)%Z) ->
  wp (addCredentialVersion orgId credentialId projectId userId body) (fun o w' =>
    forall v payload, o = Ok (Some (v, payload)) ->
      exists oldFields r, resolveFieldSet body oldFields = Ok r /\
        revealCurrentValue credentialId projectId None w' =
          (Ok (revealOf (map storedField (rfs_fields r)) (cv_versionNumber v)), w')) w.
Proof.
  intros HI Hpk Hak Hkl Hiv Hne Hclock. unfold addCredentialVersion. eapply wp_bind_eq; [reflexivity|].
  destruct (head _) as [c|] eqn:Ec; [|by apply wp_ret]. cbn [fmap option_fmap option_map].
  apply head_elem_of, elem_of_lfilter in Ec as [Ep Hin]. bool_simpl.
  match goal with |- wp ?m ?Q w => enough (Hw : forall n0, wp m Q (at_ w n0 (w_db w)))
    by (specialize (Hw (w_tick w)); rewrite <- at_id in Hw; exact Hw) end.
  intros n0.
  apply wp_bind, wp_at_readOnly; [unfold currentFieldKeys, selectCurrentVersionMeta; read_only|].
  intros [oldKeys|e] n1; [|done].
  apply wp_bind, wp_at_readOnly; [unfold currentFieldsForDiff, selectCurrentVersionMeta; read_only|].
  intros [oldFields|e] n2; [|done].
  apply wp_bind, wp_at_readOnly; [auto with pv|]. intros [[]|e] n3; [|done].
  apply wp_bind, wp_lift. destruct (resolveFieldSet body oldFields) as [r|e] eqn:Er; [|done]. cbv zeta.
  assert (Hrne : rfs_fields r <> []).
  { destruct (body_fields body) as [items|] eqn:Eb.
    - apply (resolveFieldSet_Ok body items oldFields r Eb) in Er as (_ & HF & _). intros Enil. rewrite Enil in HF.
      inversion HF; subst; done.
    - unfold resolveFieldSet in Er. rewrite Eb in Er. by injection Er as <-. }
  eapply wp_bind_eq; [reflexivity|]. eapply wp_bind_eq; [reflexivity|].
  destruct (encryptSync_decrypts key (randomIv n3) (serializeFieldEnvelope r) Hkl (Hiv n3)) as (enc & Eenc & _ & _ & Hdec).
  eapply wp_bind_eq; [rewrite (encryptValue_at _ key) by done; by rewrite Eenc|].
  apply wp_catch. eapply wp_bind_eq; [apply newDate_at|].
  apply wp_bind, wp_intro. intros [v|e] w1 Hok; [|by destruct (isUniqueViolation e)].
  apply wp_ret. intros v' payload [= <- _]. exists oldFields, r. split; [done|].
  pose proof (reveal_stored _ projectId key r enc (clock (S n3))
    (at_ w (S (S n3)) (w_db w)) _ v HI Hok eq_refl eq_refl eq_refl Hrne Hak (Hdec None))
    as Hrev. cbn [nv_credentialId nv_versionNumber] in Hrev.
  assert (Ev : cv_versionNumber v = (maxVersionNumber (versionsOf (w_db w) credentialId) + 1)%Z).
  { epose proof (insertVersionAndSetCurrent_spec _ _) as Hw. unfold wp in Hw. rewrite Hok in Hw.
    destruct (Hw v eq_refl) as ([id ->] & _). done. }
  rewrite Ev. apply Hrev.
  - exists c. done.
  - intros x t Hx Hc Ht. by eapply Hclock.
  - intros x Hx Hc. by apply next_version_above.
Qed.

(** What a reveal may show of the one-time-password fields: nothing. *)
Definition withoutSeeds (w : World) (res : RevealCurrentValueResult) : Prop :=
  match res with
  | FoundFields fields _ _ _ _ => forall f, f ∈ fields -> isTotp f = false
  | FoundValue value _ _ _ =>
      exists v enc plaintext allFields, v ∈ db_versions (w_db w) /\ cv_encryptedValue v = Some enc /\
        withSecret (w_activeKey w) enc Ok = Ok plaintext /\
        parseFieldsFromPlaintext (cv_schemaVersion v) plaintext = Ok allFields /\
        (forall f, f ∈ allFields -> isTotp f = false)
  | _ => True
  end.

Lemma withoutTotpFields_spec fields f : f ∈ withoutTotpFields fields -> isTotp f = false.
Proof. intros [Hn _]%elem_of_lfilter. by apply negb_true_iff in Hn. Qed.

Lemma withoutTotp_same_length fields :
  length (withoutTotpFields fields) = length fields -> forall f, f ∈ fields -> isTotp f = false.
Proof.
  intros El f Hf. unfold withoutTotpFields in El. destruct (isTotp f) eqn:Et; [|done]. exfalso.
  assert (Hlt : length (List.filter (fun item => negb (isTotp item)) fields) < length fields); [|lia].
  clear El. induction fields as [|x l IH]; [by apply not_elem_of_nil in Hf|]. cbn.
  pose proof (List.filter_length_le (fun item => negb (isTotp item)) l) as Hle.
  apply elem_of_cons in Hf as [<-|Hf]; [rewrite Et; cbn; lia|]. specialize (IH Hf).
  destruct (negb (isTotp x)); cbn; lia.
Qed.

(** No reveal returns a one-time-password seed: the fields of a reveal, of
    the whole value or of a single requested field, contain no such field, and
    a bare value is returned only for a version none of whose fields is one. *)
Theorem reveal_never_returns_seed credentialId projectId field w :
  wp (revealCurrentValue credentialId projectId field) (fun o w' =>
    w' = w /\ forall res, o = Ok res -> withoutSeeds w res) w.
Proof.
  unfold revealCurrentValue. eapply wp_bind_eq; [reflexivity|]. destruct (head _) as [cr|]; [|by apply wp_ret; split; [|intros ? [= <-]]].
  eapply wp_bind_eq; [reflexivity|]. destruct (head (isort _ _)) as [v|] eqn:Ev; [|by apply wp_ret; split; [|intros ? [= <-]]].
  apply head_elem_of in Ev. rewrite elem_of_isort, elem_of_lfilter in Ev. destruct Ev as [_ Hv].
  assert (Eb : (x ← Some v; e ← cv_encryptedValue x; Some (x, e)) = (e ← cv_encryptedValue v; Some (v, e))) by done.
  rewrite Eb. destruct (cv_encryptedValue v) as [enc|] eqn:Eenc; cbn [mbind option_bind];
    [|by apply wp_ret; split; [|intros ? [= <-]]].
  eapply wp_bind_eq; [reflexivity|]. cbv zeta. destruct (invalidRequestedField _ _ _); [by apply wp_ret; split; [|intros ? [= <-]]|].
  apply wp_bind, wp_intro. unfold withSecretText. intros o w1 [= Eo <-]. destruct o as [plaintext|e]; [|by split].
  apply wp_bind, wp_lift. unfold readableFields.
  destruct (parseFieldsFromPlaintext (cv_schemaVersion v) plaintext) as [allFields|e] eqn:Ep; [|by split].
  cbn [mbind Outcome_bind]. set (fields := withoutTotpFields allFields).
  destruct ((2 <=? cv_schemaVersion v) && _) eqn:Eg; cbn [negb].
  - destruct field as [f|]; [|by apply wp_ret; split; [|intros ? [= <-]; cbn; apply withoutTotpFields_spec]].
    destruct (List.find _ fields) as [m|] eqn:Ef; [|by apply wp_ret; split; [|intros ? [= <-]]].
    apply wp_ret. split; [done|]. intros ? [= <-]. cbn. intros x ->%list_elem_of_singleton.
    apply List.find_some in Ef as [Hm%list_elem_of_In _]. by apply withoutTotpFields_spec in Hm.
  - apply wp_bind, wp_lift. destruct (unwrapRevealValue _ _) as [value|e]; [|by split].
    apply wp_ret. split; [done|]. intros ? [= <-]. exists v, enc, plaintext, allFields. repeat split; try done.
    apply andb_false_iff in Eg as [Es|Eg].
    + unfold parseFieldsFromPlaintext in Ep. bool_simpl. rewrite bool_decide_eq_true_2 in Ep by lia.
      injection Ep as <-. by intros f ->%list_elem_of_singleton.
    + apply orb_false_iff in Eg as [_ Eg]. bool_simpl. by apply withoutTotp_same_length.
Qed.

(** ** Break-glass *)

Definition recentBreakGlass (c : Uuid) (since : Date) (r : RotationRow) : Prop :=
  rot_credentialId r = c /\ rot_status r = break_glass_complete /\ (since < rot_initiatedAt r)%Z.

Lemma findRecentDuplicateBreakGlass_spec c windowMs r w :
  r ∈ db_rotations (w_db w) -> recentBreakGlass c (clock (w_tick w) - windowMs) r ->
  exists d, findRecentDuplicateBreakGlass c windowMs w = (Ok (Some d), w <| w_tick ::= S |>) /\
    d ∈ db_rotations (w_db w) /\ recentBreakGlass c (clock (w_tick w) - windowMs) d /\
    (rot_initiatedAt r <= rot_initiatedAt d)%Z.
Proof.
  intros Hr (Hc & Hs & Ht). unfold findRecentDuplicateBreakGlass, selectFirstOrdered, mbind, M_bind, newDate.
  match goal with |- context [isort ?l (List.filter ?q _)] => set (p := q); set (leb := l) end.
  assert (Hin : r ∈ List.filter p (db_rotations (w_db (w <| w_tick ::= S |>))))
    by (apply elem_of_lfilter; split; [|done]; unfold p; by rewrite !bool_decide_eq_true_2).
  assert (Hleb : forall a b, leb a b = true <-> (rot_initiatedAt b <= rot_initiatedAt a)%Z)
    by (intros; unfold leb; apply bool_decide_eq_true).
  destruct (head _) as [d|] eqn:E; cycle 1.
  { apply head_None in E. apply elem_of_isort with (leb := leb) in Hin. rewrite E in Hin. by apply not_elem_of_nil in Hin. }
  exists d. split; [done|]. pose proof E as Ed%head_elem_of. rewrite elem_of_isort, elem_of_lfilter in Ed.
  destruct Ed as [Hp Hd]. unfold p in Hp. bool_simpl. split; [done|]. split; [done|].
  destruct (isort_head_least leb) with (l := List.filter p (db_rotations (w_db (w <| w_tick ::= S |>)))) (x := d) (y := r)
    as [Hle| ->]; [| |exact E|exact Hin| |]; try done.
  - intros a b Hab. apply Hleb. rewrite <- not_true_iff_false, Hleb in Hab. lia.
  - intros a b e. rewrite !Hleb. lia.
  - by apply Hleb.
Qed.

(** Break-glass is idempotent within its window: when a break-glass rotation
    of the credential was made less than the window ago, another request writes
    nothing and returns the most recent one, marked as a duplicate (unless the
    credential is locked, is not in the project or has a one-time password). *)
Theorem breakGlass_deduplicates input r w :
  (bg_orgId input, bg_credentialId input) ∉ w_locks w ->
  findCredentialIdInProject (bg_credentialId input) (bg_projectId input) w = (Ok (Some (bg_credentialId input)), w) ->
  currentVersionHasTotpField (bg_credentialId input) w = (Ok false, w) ->
  r ∈ db_rotations (w_db w) ->
  recentBreakGlass (bg_credentialId input) (clock (w_tick w) - bg_idempotencyWindowSeconds input * 1000) r ->
  wp (breakGlassRotation input) (fun o w' =>
    w_db w' = w_db w /\ exists d number expires systems, o = Ok (BgOk d None number expires systems true) /\
      d ∈ db_rotations (w_db w) /\ rot_credentialId d = bg_credentialId input /\
      rot_status d = break_glass_complete /\ (rot_initiatedAt r <= rot_initiatedAt d)%Z) w.
Proof.
  intros Hl Hc Ht Hr Hrec. unfold breakGlassRotation. eapply wp_bind_eq; [reflexivity|].
  rewrite negb_involutive, bool_decide_eq_false_2 by done.
  eapply wp_bind_eq; [exact Hc|]. cbv iota. eapply wp_bind_eq; [exact Ht|]. cbv iota.
  destruct (findRecentDuplicateBreakGlass_spec _ _ r w Hr Hrec) as (d & Ed & Hd & (Hdc & Hds & _) & Hle).
  eapply wp_bind_eq; [exact Ed|]. cbv iota. unfold buildDedupedBreakGlassResult, activeDependentSystems.
  eapply wp_bind_eq; [reflexivity|]. apply wp_bind. eapply wp_bind_eq; [reflexivity|]. apply wp_ret. cbv beta iota.
  destruct (_ ≫= cv_breakGlassOverlapExpiresAt) as [t|].
  - eapply wp_bind_eq; [reflexivity|]. apply wp_ret. split; [done|]. do 4 eexists. done.
  - eapply wp_bind_eq; [reflexivity|]. apply wp_ret. split; [done|]. do 4 eexists. done.
Qed.
End services.

(** ** Witnesses *)

#[local] Existing Instances byteLocale toyPlatform toyCrypto toyEnv toyOtpAuth.

Lemma initiate_refused_while_active_witness :
  rot_status demoRotation = staged /\
  wp (initiateRotation (demoInitiate "other")) (fun o w' => (forall res, o = Ok res -> notInitiated res) /\
    (((1, demoCredential)%N : Uuid * Uuid) ∉ w_locks staged1 -> w_db w' = w_db staged1)) staged1.
Proof.
  split; [reflexivity|].
  apply (initiate_refused_while_active (demoInitiate "other") demoRotation staged1); [|reflexivity|reflexivity].
  apply elem_of_cons. by left.
Defined.

Lemma created_DbInv : DbInv (w_db created).
Proof.
  assert (HI : DbInv demoDb) by by apply DbInv_noVersions.
  eapply Evolves_DbInv; [|exact HI]. apply Reaches_evolves; [exact HI|].
  assert (E : created = runAll [OpCreateCredential 1 2 7 demoBody] (worldOf demoDb)) by by vm_compute.
  rewrite E. apply Reaches_runAll, reaches_refl.
Qed.

(** The same process a day later. *)
Definition laterPlatform : Platform :=
  {| clock n := (1700086400000 + 1000 * Z.of_nat n)%Z; randomUuid n := (2000 + N.of_nat n)%N;
     randomIv n := "iv-iv-iv-iv-"; randomOpaque n := String (ascii_of_nat n) EmptyString;
     randomInt n max := N.modulo (N.of_nat n) max |}.
Definition loginVersion : CreateBodyish := MkCreateBodyish None
  (Some [MkField "username" "nestor" false None; MkField "password" "s3cret" true None]) None.

Lemma reveal_returns_stored_witness : exists v payload w',
  @addCredentialVersion laterPlatform toyCrypto asciiUnicode toyOtpAuth 1 demoCredential 2 7 loginVersion created
    = (Ok (Some (v, payload)), w') /\
  revealCurrentValue demoCredential 2 None w' =
    (Ok (FoundFields [MkField "username" "nestor" false None; MkField "password" "s3cret" true None] 2 2 false
           ["password"]), w').
Proof.
  pose proof (@reveal_returns_stored laterPlatform toyCrypto asciiUnicode toyOtpAuth toyCrypto_laws
    1 demoCredential 2 7 loginVersion key32 created created_DbInv eq_refl eq_refl eq_refl
    (fun _ => eq_refl) ltac:(discriminate)) as Hw.
  destruct (@addCredentialVersion laterPlatform toyCrypto asciiUnicode toyOtpAuth 1 demoCredential 2 7 loginVersion created)
    as [[[[v payload]|]|e] w'] eqn:E; [|by vm_compute in E|by vm_compute in E].
  unfold wp in Hw. rewrite E in Hw. destruct (fun H => Hw H v payload eq_refl) as (old & r & Hr & Hrev).
  - intros x t n Hx _ Ht. vm_compute in Hx. apply list_elem_of_singleton in Hx as ->. vm_compute in Ht.
    injection Ht as <-. cbn. lia.
  - exists v, payload, w'. split; [done|]. rewrite Hrev.
    assert (Ev : cv_versionNumber v = 2%Z) by (vm_compute in E; by injection E as <- _ _).
    rewrite Ev. vm_compute in Hr. by injection Hr as <-.
Defined.

Definition demoBreakGlass : BreakGlassInput := MkBreakGlassInput 1 2 demoCredential 7 "emergency" "incident" 60 300.
Definition broken1 : World := Eval vm_compute in after (breakGlassRotation demoBreakGlass) created.
Definition brokenRotation : RotationRow :=
  Eval vm_compute in default demoRotation (head (db_rotations (w_db broken1))).

Lemma breakGlass_deduplicates_witness :
  rot_status brokenRotation = break_glass_complete /\
  exists d number expires systems, fst (breakGlassRotation demoBreakGlass broken1) =
    Ok (BgOk d None number expires systems true).
Proof.
  split; [reflexivity|].
  pose proof (breakGlass_deduplicates demoBreakGlass brokenRotation broken1) as Hw. unfold wp in Hw.
  destruct (breakGlassRotation demoBreakGlass broken1) as [o w'].
  destruct Hw as (_ & d & number & expires & systems & -> & _).
  - apply not_elem_of_nil.
  - reflexivity.
  - by vm_compute.
  - apply elem_of_cons. by left.
  - split; [reflexivity|]. split; [reflexivity|]. by vm_compute.
  - by exists d, number, expires, systems.
Defined.

(** ** Two defects *)

(** A rotation is staged, three versions are added meanwhile (a route that does
    not look at rotations), and the rotation is promoted: version 2 is current. *)
Definition promotedOps : list Op :=
  [OpCreateCredential 1 2 7 demoBody; OpInitiate (demoInitiate "second secret");
   OpAddVersion 1 demoCredential 2 7 (MkCreateBodyish (Some "third") None None);
   OpAddVersion 1 demoCredential 2 7 (MkCreateBodyish (Some "fourth") None None);
   OpAddVersion 1 demoCredential 2 7 (MkCreateBodyish (Some "fifth") None None);
   OpPromote demoParams ackAll].
Definition outranked : World := Eval vm_compute in runAll promotedOps (worldOf demoDb).

(** A defect of the retention job (workers/prune-credential-versions.ts): it
    protects the highest-numbered version that is not abandoned, but the current
    version, the one reveal serves, is the last promoted. After a sequence of
    ordinary requests on a credential that keeps three versions, the job destroys
    the value of the current version. *)
Theorem retention_purges_current_version :
  exists w v, Reaches demoDb (w_db w) /\ selectCurrentVersionMeta demoCredential w = (Ok (Some v), w) /\
    cv_versionNumber v = 2%Z /\
    exists p, p ∈ db_versions (w_db (snd (runOp (JobPruneVersions 1 false) w))) /\ cv_id p = cv_id v /\
      cv_purgedAt p <> None /\ cv_encryptedValue p = None.
Proof.
  exists outranked. eexists. split.
  { assert (E : outranked = runAll promotedOps (worldOf demoDb)) by by vm_compute.
    rewrite E. apply Reaches_runAll, reaches_refl. }
  split; [vm_compute; reflexivity|]. split; [reflexivity|].
  eexists. split; [vm_compute; apply elem_of_cons; right; left|]. done.
Qed.

(** A defect of the list of credentials (modules/credentials/service.ts): the
    version it shows as current is the highest live number, which after a
    promotion need not be the version that reveal serves. *)
Theorem list_shows_another_version :
  exists w v, Reaches demoDb (w_db w) /\ selectCurrentVersionMeta demoCredential w = (Ok (Some v), w) /\
    listedCurrentVersionNumber demoCredential w <> (Ok (cv_versionNumber v), w).
Proof.
  exists outranked. eexists. split.
  { assert (E : outranked = runAll promotedOps (worldOf demoDb)) by by vm_compute.
    rewrite E. apply Reaches_runAll, reaches_refl. }
  split; [vm_compute; reflexivity|]. vm_compute. by intros [=].
Qed.

(** A third one: neither promotion nor break-glass moves
    [credentials.current_version_id], which the project export reads as the
    current version; only [insertVersionAndSetCurrent] writes it. *)
Lemma promotion_leaves_current_version_id :
  (exists v, selectCurrentVersionMeta demoCredential promoted1 = (Ok (Some v), promoted1) /\
     ~ Some (cv_id v) ∈ map cred_currentVersionId (db_credentials (w_db promoted1))) /\
  exists v, selectCurrentVersionMeta demoCredential broken1 = (Ok (Some v), broken1) /\
     ~ Some (cv_id v) ∈ map cred_currentVersionId (db_credentials (w_db broken1)).
Proof.
  split; eexists; (split; [vm_compute; reflexivity|]); vm_compute;
    (intros Hin%list_elem_of_singleton; discriminate).
Qed.
