(* ===== verification/JsMap.v ===== *)
(** * JavaScript maps

    [Map<K, V>] as the list of its entries in insertion order: [set] on a
    key that is present keeps its position, [delete] then [set] moves it to the
    end.  Nothing of this file models code of the repository. *)

From S2P Require Import Prelude.
From Stdlib Require Import String.
From stdpp Require Import strings.

Local Open Scope list_scope.
Local Open Scope pv_scope.

Section map.
Context {K V : Type} `{EqDecision K}.
Implicit Types (m : list (K * V)) (k : K) (v : V).

Fixpoint jsGet k m : option V :=
  match m with
  | [] => None
  | (k', v) :: m' => if k' =? k then Some v else jsGet k m'
  end.

Fixpoint jsPut k v m : list (K * V) :=
  match m with
  | [] => [(k, v)]
  | (k', v') :: m' => if k' =? k then (k', v) :: m' else (k', v') :: jsPut k v m'
  end.

Definition jsDelete k m : list (K * V) := List.filter (fun kv => negb (kv.1 =? k)) m.
Definition jsSize m : Z := Z.of_nat (length m).
Definition jsKeys m : list K := map fst m.

Lemma jsGet_set_eq k v m : jsGet k (jsPut k v m) = Some v.
Proof.
  induction m as [|[k' v'] m IH]; cbn; [by rewrite bool_decide_eq_true_2|].
  case_bool_decide as E; cbn; [by rewrite bool_decide_eq_true_2|].
  by rewrite bool_decide_eq_false_2.
Qed.

Lemma jsGet_set_ne k k' v m : k <> k' -> jsGet k (jsPut k' v m) = jsGet k m.
Proof.
  intros Hne. induction m as [|[k'' v'] m IH]; cbn; [by rewrite bool_decide_eq_false_2|].
  case_bool_decide as E; cbn; [|by rewrite IH].
  subst k''. by rewrite bool_decide_eq_false_2.
Qed.

Lemma jsGet_delete_eq k m : jsGet k (jsDelete k m) = None.
Proof.
  unfold jsDelete. induction m as [|[k' v'] m IH]; cbn; [done|]. case_bool_decide as E; cbn; [done|].
  by rewrite bool_decide_eq_false_2.
Qed.

Lemma jsGet_delete_ne k k' m : k <> k' -> jsGet k (jsDelete k' m) = jsGet k m.
Proof.
  intros Hne. unfold jsDelete. induction m as [|[k'' v'] m IH]; cbn; [done|].
  case_bool_decide as E; cbn; [|by rewrite IH]. subst k''. by rewrite bool_decide_eq_false_2.
Qed.

Lemma jsGet_None k m : jsGet k m = None <-> k ∉ jsKeys m.
Proof.
  induction m as [|[k' v'] m IH]; cbn; [split; [intros _ H; inversion H|done]|].
  rewrite not_elem_of_cons. case_bool_decide as E; naive_solver.
Qed.

Lemma jsGet_elem k v m : jsGet k m = Some v -> (k, v) ∈ m.
Proof.
  induction m as [|[k' v'] m IH]; cbn; [done|]. case_bool_decide as E; intros H.
  - simplify_eq. left.
  - right. auto.
Qed.

Lemma elem_jsGet k v m : NoDup (jsKeys m) -> (k, v) ∈ m -> jsGet k m = Some v.
Proof.
  induction m as [|[k' v'] m IH]; cbn; intros Hd Hin; [by apply not_elem_of_nil in Hin|].
  apply NoDup_cons in Hd as [Hn Hd]. apply elem_of_cons in Hin as [E|Hin].
  - simplify_eq. by rewrite bool_decide_eq_true_2.
  - rewrite bool_decide_eq_false_2; [by apply IH|]. intros ->. apply Hn.
    apply Prelude.elem_of_map. by exists (k, v).
Qed.

Lemma jsKeys_set k v m :
  jsKeys (jsPut k v m) = if k ∈? jsKeys m then jsKeys m else jsKeys m ++ [k].
Proof.
  induction m as [|[k' v'] m IH]; [done|]. cbn [jsPut]. destruct (decide (k' = k)) as [->|E].
  - rewrite !bool_decide_eq_true_2; [done|left|done].
  - rewrite (bool_decide_eq_false_2 (k' = k)) by done. cbn [jsKeys map fst]. fold (jsKeys m).
    fold (jsKeys (jsPut k v m)). rewrite IH. destruct (decide (k ∈ jsKeys m)) as [H|H].
    + rewrite !bool_decide_eq_true_2; [done|by right|done].
    + rewrite !bool_decide_eq_false_2; [done| |done]. rewrite not_elem_of_cons. naive_solver.
Qed.

Lemma NoDup_set k v m : NoDup (jsKeys m) -> NoDup (jsKeys (jsPut k v m)).
Proof.
  intros Hd. rewrite jsKeys_set. case_bool_decide as E; [done|]. apply NoDup_app. split; [done|].
  split; [|apply NoDup_singleton]. intros x Hx Hx'%list_elem_of_singleton. by subst.
Qed.

Lemma jsSize_set_new k v m : jsGet k m = None -> jsSize (jsPut k v m) = (jsSize m + 1)%Z.
Proof.
  unfold jsSize. intros Hn%jsGet_None.
  rewrite <- (length_map fst (jsPut k v m)), <- (length_map fst m). fold (jsKeys (jsPut k v m)) (jsKeys m).
  rewrite jsKeys_set, bool_decide_eq_false_2 by done. rewrite length_app. cbn. lia.
Qed.

Lemma jsSize_set_old k v v' m : jsGet k m = Some v' -> jsSize (jsPut k v m) = jsSize m.
Proof.
  unfold jsSize. intros Hs. rewrite <- (length_map fst (jsPut k v m)), <- (length_map fst m).
  fold (jsKeys (jsPut k v m)) (jsKeys m). rewrite jsKeys_set, bool_decide_eq_true_2; [done|].
  apply jsGet_elem in Hs. apply Prelude.elem_of_map. by exists (k, v').
Qed.

Lemma jsSize_filter (p : K * V -> bool) m : (jsSize (List.filter p m) <= jsSize m)%Z.
Proof. unfold jsSize. pose proof (List.filter_length_le p m). lia. Qed.

Lemma jsGet_filter_None (p : K * V -> bool) k m : jsGet k m = None -> jsGet k (List.filter p m) = None.
Proof.
  intros Hn%jsGet_None. apply jsGet_None. intros Hin. apply Hn. unfold jsKeys in *.
  apply Prelude.elem_of_map in Hin as ([k' v'] & -> & Hin).
  apply Prelude.elem_of_map. exists (k', v'). split; [done|]. by apply elem_of_lfilter in Hin as [_ Hin].
Qed.

Lemma jsGet_filter (p : K * V -> bool) k m :
  NoDup (jsKeys m) -> jsGet k (List.filter p m) = jsGet k m \/ jsGet k (List.filter p m) = None.
Proof.
  intros Hn. destruct (jsGet k (List.filter p m)) as [v|] eqn:E; [left|by right].
  apply jsGet_elem, elem_of_lfilter in E as [_ Hin]. symmetry. by apply elem_jsGet.
Qed.

Lemma NoDup_filter_keys (p : K * V -> bool) m : NoDup (jsKeys m) -> NoDup (jsKeys (List.filter p m)).
Proof.
  induction m as [|kv m IH]; cbn; intros Hd; [constructor|]. apply NoDup_cons in Hd as [Hn Hd].
  destruct (p kv); cbn; [|by apply IH]. apply NoDup_cons. split; [|by apply IH].
  intros Hin. apply Hn. unfold jsKeys in *. apply Prelude.elem_of_map in Hin as (x & E & Hin).
  apply Prelude.elem_of_map. exists x. by apply elem_of_lfilter in Hin as [_ Hin].
Qed.

Lemma jsDelete_size k v m : jsGet k m = Some v -> (jsSize (jsDelete k m) + 1 <= jsSize m)%Z.
Proof.
  unfold jsSize, jsDelete. induction m as [|[k' v'] m IH]; cbn; [done|].
  case_bool_decide as E; cbn; intros H.
  - pose proof (List.filter_length_le (fun kv => negb (kv.1 =? k)) m). lia.
  - specialize (IH H). lia.
Qed.
End map.
