(* ===== verification/RateLimit.v ===== *)
(** * Request rate limits: lib/route-helpers.ts

    The fixed windows of a process: one map for the buckets of users, and a
    bounded one for the buckets whose key a caller chooses.  A window is a
    mutable object of the map; here the map is updated. *)

From S2P Require Import Prelude Js JsMap.
From Stdlib Require Import String.
From stdpp Require Import strings.

Local Open Scope string_scope.
Local Open Scope list_scope.
Local Open Scope pv_scope.

(** [process.env] *)
Class ProcessEnv := { NODE_ENV : option string; RATE_LIMIT_TEST_BYPASS : option string }.

Record RateWindow := MkRateWindow { rw_count : Z; rw_resetAt : Date }.

Definition USER_RATE_LIMIT_MAX_BUCKETS : Z := 50000.
Definition BOUNDED_SWEEP_INTERVAL_MS : Z := 1000.

(** The module's maps. *)
Record RateLimits := MkRateLimits {
  rl_windows : list (string * RateWindow);
  rl_bounded : list (string * RateWindow);
  rl_nextBoundedSweepAt : Date;
}.
#[export] Instance Eta_RateLimits : Eta RateLimits := fun r =>
  MkRateLimits (rl_windows r) (rl_bounded r) (rl_nextBoundedSweepAt r).
Definition noRateLimits : RateLimits := MkRateLimits [] [] 0.

Definition userRateLimitBucketCount (bounded : bool) (s : RateLimits) : Z :=
  jsSize (if bounded then rl_bounded s else rl_windows s).

Definition sweepBounded (now : Date) (s : RateLimits) : RateLimits :=
  if rl_nextBoundedSweepAt s <=? now
  then s <| rl_nextBoundedSweepAt := (now + BOUNDED_SWEEP_INTERVAL_MS)%Z |>
         <| rl_bounded ::= List.filter (fun kv => negb (rw_resetAt kv.2 <=? now)) |>
  else s.

Definition makeRoomForBoundedBucket (now : Date) (s : RateLimits) : RateLimits :=
  if jsSize (rl_bounded s) <? USER_RATE_LIMIT_MAX_BUCKETS then s
  else
    let s := sweepBounded now s in
    if jsSize (rl_bounded s) <? USER_RATE_LIMIT_MAX_BUCKETS then s
    else match rl_bounded s with
         | (oldest, _) :: _ => s <| rl_bounded ::= jsDelete oldest |>
         | [] => s
         end.

Record UserRateLimitInput := MkUserRateLimitInput {
  ul_userId : string;
  ul_key : string;
  ul_max : Z;
  ul_timeWindowMs : option Z;
  ul_bounded : bool;
}.

Inductive UserRateLimitDecision := rate_allowed | rate_refused (retryAfter : Z).

Definition rateBucketKey (i : UserRateLimitInput) : string := ul_userId i +:+ ":" +:+ ul_key i.
Definition windowOf (i : UserRateLimitInput) : Z := default 60000%Z (ul_timeWindowMs i).

(** The window a call at [now] counts in. *)
Definition windowAt (now : Date) (i : UserRateLimitInput) (current : option RateWindow) : RateWindow :=
  match current with
  | Some b => if rw_resetAt b <=? now then MkRateWindow 0 (now + windowOf i) else b
  | None => MkRateWindow 0 (now + windowOf i)
  end.

(** [Math.ceil(ms / 1000)] *)
Definition ceilSeconds (ms : Z) : Z := (- ((- ms) / 1000))%Z.

Section rateLimit.
Context `{ProcessEnv}.

Definition isRateLimitEnforced : bool :=
  negb ((NODE_ENV =? Some "test") && (RATE_LIMIT_TEST_BYPASS =? Some "true")).

Definition consumeUserRateLimit (now : Date) (i : UserRateLimitInput) (s : RateLimits)
    : UserRateLimitDecision * RateLimits :=
  if negb isRateLimitEnforced then (rate_allowed, s)
  else
    let current := jsGet (rateBucketKey i) (if ul_bounded i then rl_bounded s else rl_windows s) in
    let s := if isNull current && ul_bounded i then makeRoomForBoundedBucket now s else s in
    let bucket := windowAt now i current in
    let bucket := MkRateWindow (rw_count bucket + 1) (rw_resetAt bucket) in
    let s := if ul_bounded i then s <| rl_bounded ::= jsPut (rateBucketKey i) bucket |>
             else s <| rl_windows ::= jsPut (rateBucketKey i) bucket |> in
    if rw_count bucket <=? ul_max i then (rate_allowed, s)
    else (rate_refused (ceilSeconds (rw_resetAt bucket - now)), s).

(** Calls in the order in which the process makes them. *)
Fixpoint runCalls (calls : list (Date * UserRateLimitInput)) (s : RateLimits)
    : list UserRateLimitDecision * RateLimits :=
  match calls with
  | [] => ([], s)
  | (now, i) :: calls' =>
      let '(d, s1) := consumeUserRateLimit now i s in
      let '(ds, s2) := runCalls calls' s1 in
      (d :: ds, s2)
  end.

Definition isAllowed (d : UserRateLimitDecision) : bool :=
  match d with rate_allowed => true | _ => false end.

(** The windows of the users, or the bounded ones. *)
Definition bucketsOf (bounded : bool) (s : RateLimits) : list (string * RateWindow) :=
  if bounded then rl_bounded s else rl_windows s.

Definition onBucket (bounded : bool) (b : string) (i : UserRateLimitInput) : bool :=
  (rateBucketKey i =? b) && (ul_bounded i =? bounded).

(** How many of the calls on bucket [b], at times in [[lo, hi)], are allowed. *)
Fixpoint admitted (bounded : bool) (b : string) (lo hi : Date) (calls : list (Date * UserRateLimitInput)) (s : RateLimits) : Z :=
  match calls with
  | [] => 0
  | (now, i) :: calls' =>
      let '(d, s1) := consumeUserRateLimit now i s in
      let counts := onBucket bounded b i && (lo <=? now) && (now <? hi) && isAllowed d in
      ((if counts then 1 else 0) + admitted bounded b lo hi calls' s1)%Z
  end.

Definition isLive (now : Date) (w : option RateWindow) : bool :=
  match w with Some w => now <? rw_resetAt w | None => false end.

(** How often a call at a time in [[lo, hi)] loses the window of bucket [b] before it is over. *)
Fixpoint evictions (bounded : bool) (b : string) (lo hi : Date) (calls : list (Date * UserRateLimitInput)) (s : RateLimits) : Z :=
  match calls with
  | [] => 0
  | (now, i) :: calls' =>
      let s1 := (consumeUserRateLimit now i s).2 in
      let lost := (lo <=? now) && (now <? hi) && isLive now (jsGet b (bucketsOf bounded s))
                  && isNull (jsGet b (bucketsOf bounded s1)) in
      ((if lost then 1 else 0) + evictions bounded b lo hi calls' s1)%Z
  end.

(** ** One call *)

(** What a call does to its own bucket. *)
Lemma consume_same now i s :
  isRateLimitEnforced = true ->
  let bucket := windowAt now i (jsGet (rateBucketKey i) (bucketsOf (ul_bounded i) s)) in
  let '(d, s') := consumeUserRateLimit now i s in
  jsGet (rateBucketKey i) (bucketsOf (ul_bounded i) s') = Some (MkRateWindow (rw_count bucket + 1) (rw_resetAt bucket)) /\
  isAllowed d = (rw_count bucket + 1 <=? ul_max i).
Proof.
  intros He. unfold consumeUserRateLimit, bucketsOf. rewrite He. cbn [negb]. cbv zeta.
  destruct (ul_bounded i); (destruct (_ <=? ul_max i) eqn:E; cbn; (split; [by rewrite jsGet_set_eq|first [done|exact (eq_sym E)]])).
Qed.

Lemma makeRoom_windows now s : rl_windows (makeRoomForBoundedBucket now s) = rl_windows s.
Proof.
  unfold makeRoomForBoundedBucket. destruct (_ <? _); [done|]. cbv zeta.
  assert (E : rl_windows (sweepBounded now s) = rl_windows s) by (unfold sweepBounded; by destruct (_ <=? now)).
  destruct (_ <? _); [done|]. by destruct (rl_bounded (sweepBounded now s)) as [|[? ?] ?].
Qed.

(** Room is made by losing windows, never by changing one. *)
Lemma makeRoom_keeps now b s :
  NoDup (jsKeys (rl_bounded s)) ->
  jsGet b (rl_bounded (makeRoomForBoundedBucket now s)) = jsGet b (rl_bounded s) \/
  jsGet b (rl_bounded (makeRoomForBoundedBucket now s)) = None.
Proof.
  intros Hn. unfold makeRoomForBoundedBucket. destruct (_ <? _); [by left|]. cbv zeta.
  assert (Hs : NoDup (jsKeys (rl_bounded (sweepBounded now s))) /\
    (jsGet b (rl_bounded (sweepBounded now s)) = jsGet b (rl_bounded s) \/ jsGet b (rl_bounded (sweepBounded now s)) = None)).
  { unfold sweepBounded. destruct (_ <=? now); cbn; [|by split; [|left]]. split; [by apply NoDup_filter_keys|]. by apply jsGet_filter. }
  destruct Hs as [_ Hs]. destruct (_ <? _); [exact Hs|].
  destruct (rl_bounded (sweepBounded now s)) as [|[k v] m] eqn:E; cbn; [rewrite E; exact Hs|]. rewrite E.
  destruct (decide (b = k)) as [->|Hk]; [right; apply jsGet_delete_eq|]. rewrite jsGet_delete_ne by done. exact Hs.
Qed.

Lemma makeRoom_keys now s : NoDup (jsKeys (rl_bounded s)) -> NoDup (jsKeys (rl_bounded (makeRoomForBoundedBucket now s))).
Proof.
  intros Hn. unfold makeRoomForBoundedBucket. destruct (_ <? _); [done|]. cbv zeta.
  assert (Hs : NoDup (jsKeys (rl_bounded (sweepBounded now s)))).
  { unfold sweepBounded. destruct (_ <=? now); cbn; [by apply NoDup_filter_keys|done]. }
  destruct (_ <? _); [done|]. destruct (rl_bounded (sweepBounded now s)) as [|[k v] m] eqn:E; cbn; rewrite E; [done|].
  by apply NoDup_filter_keys.
Qed.

(** A call on another bucket changes nothing here, or loses the window. *)
Lemma consume_other now i s bounded b :
  NoDup (jsKeys (rl_bounded s)) -> onBucket bounded b i = false ->
  let s' := (consumeUserRateLimit now i s).2 in
  jsGet b (bucketsOf bounded s') = jsGet b (bucketsOf bounded s) \/
  bounded = true /\ jsGet b (bucketsOf bounded s') = None.
Proof.
  intros Hn Ho. unfold consumeUserRateLimit. destruct (negb isRateLimitEnforced); [by left|]. cbv zeta.
  set (room := if isNull _ && ul_bounded i then makeRoomForBoundedBucket now s else s).
  assert (Hw : rl_windows room = rl_windows s) by (unfold room; destruct (_ && _); [apply makeRoom_windows|done]).
  assert (Hr : jsGet b (rl_bounded room) = jsGet b (rl_bounded s) \/ jsGet b (rl_bounded room) = None).
  { unfold room. destruct (_ && _); [by apply makeRoom_keeps|by left]. }
  clearbody room. assert (Hk : b = rateBucketKey i -> ul_bounded i <> bounded) by (intros -> Eb; unfold onBucket in Ho; rewrite Eb in Ho; by rewrite !bool_decide_eq_true_2 in Ho).
  destruct (_ <=? ul_max i), (ul_bounded i), bounded; cbn; rewrite ?Hw; try (by left);
    try (rewrite jsGet_set_ne by (intros E; by apply Hk)); first [by left|destruct Hr as [Hr|Hr]; [by left|by right]].
Qed.

Lemma consume_keys now i s :
  NoDup (jsKeys (rl_bounded s)) -> NoDup (jsKeys (rl_bounded (consumeUserRateLimit now i s).2)).
Proof.
  intros Hn. unfold consumeUserRateLimit. destruct (negb isRateLimitEnforced); [done|]. cbv zeta.
  set (room := if isNull _ && ul_bounded i then makeRoomForBoundedBucket now s else s).
  assert (Hr : NoDup (jsKeys (rl_bounded room))) by (unfold room; destruct (_ && _); [by apply makeRoom_keys|done]).
  destruct (_ <=? ul_max i), (ul_bounded i); cbn; try done; by apply NoDup_set.
Qed.

Lemma consume_disabled now i s : isRateLimitEnforced = false -> consumeUserRateLimit now i s = (rate_allowed, s).
Proof. intros He. unfold consumeUserRateLimit. by rewrite He. Qed.

(** ** The bound of a window *)

(** The calls the theorem is about: of one limit, in the order of time. *)
Definition limitedCalls (bounded : bool) (b : string) (max window : Z) (calls : list (Date * UserRateLimitInput)) : Prop :=
  Forall (fun c => onBucket bounded b c.2 = true -> ul_max c.2 = max /\ windowOf c.2 = window) calls.
Definition sortedCalls (calls : list (Date * UserRateLimitInput)) : Prop :=
  StronglySorted (fun c c' => (c.1 <= c'.1)%Z) calls.

Section bound.
Context (bounded : bool) (b : string) (max window : Z) (Hmax : (0 <= max)%Z) (Henforced : isRateLimitEnforced = true).
Notation getB s := (jsGet b (bucketsOf bounded s)).
Notation evicted := (evictions bounded b).
Notation admits := (admitted bounded b).

Lemma evictions_nonneg lo hi calls : forall s, (0 <= evicted lo hi calls s)%Z.
Proof.
  induction calls as [|[now i] calls IH]; intros s; cbn; [done|]. specialize (IH (consumeUserRateLimit now i s).2).
  destruct (_ && _); lia.
Qed.

(** One call at a time of the interval, seen from the bucket. *)
Lemma admitted_step lo hi now i calls s :
  limitedCalls bounded b max window ((now, i) :: calls) -> NoDup (jsKeys (rl_bounded s)) ->
  exists s', limitedCalls bounded b max window calls /\ NoDup (jsKeys (rl_bounded s')) /\
    ((let bucket := windowAt now i (getB s) in
      getB s' = Some (MkRateWindow (rw_count bucket + 1) (rw_resetAt bucket)) /\ windowOf i = window /\
      admits lo hi ((now, i) :: calls) s =
        ((if ((lo <=? now) && (now <? hi) && (rw_count bucket + 1 <=? max))%pv then 1 else 0) + admits lo hi calls s')%Z /\
      evicted lo hi ((now, i) :: calls) s = evicted lo hi calls s')
     \/
     (admits lo hi ((now, i) :: calls) s = admits lo hi calls s' /\
      (getB s' = getB s /\ evicted lo hi ((now, i) :: calls) s = evicted lo hi calls s' \/
       getB s' = None /\ evicted lo hi ((now, i) :: calls) s =
         ((if ((lo <=? now) && (now <? hi) && isLive now (getB s))%pv then 1 else 0) + evicted lo hi calls s')%Z))).
Proof.
  intros Hl Hn. apply Forall_cons in Hl as [Hi Hl]. cbn [snd] in Hi. cbn [admitted evictions].
  pose proof (consume_keys now i s Hn) as Hn'. destruct (onBucket bounded b i) eqn:Eo.
  - destruct (Hi eq_refl) as [Hm Hw]. unfold onBucket in Eo. bool_simpl. subst b bounded.
    pose proof (consume_same now i s Henforced) as Hc. destruct (consumeUserRateLimit now i s) as [d s'].
    destruct Hc as [Hg Ha]. exists s'. split; [done|]. split; [done|]. left. cbn [snd].
    rewrite Ha, Hm. split; [exact Hg|]. split; [exact Hw|]. split; [done|].
    rewrite Hg. cbn [isNull]. by rewrite andb_false_r.
  - pose proof (consume_other now i s bounded b Hn Eo) as Hc. destruct (consumeUserRateLimit now i s) as [d s'].
    exists s'. split; [done|]. split; [done|]. right. split; [done|]. cbn [snd] in *. destruct Hc as [E|[_ E]].
    + left. split; [done|]. rewrite E. destruct (getB s) as [w|]; cbn [isLive isNull]; by rewrite !andb_false_r.
    + right. split; [done|]. rewrite E. cbn [isNull]. by rewrite andb_true_r.
Qed.

(** No call of the interval is left. *)
Lemma admitted_past lo hi calls : forall s,
  Forall (fun c => (hi <= c.1)%Z) calls -> admits lo hi calls s = 0%Z.
Proof.
  induction calls as [|[now i] calls IH]; intros s Hf; cbn; [done|].
  apply Forall_cons in Hf as [Hn Hf]. cbn in Hn. destruct (consumeUserRateLimit now i s) as [d s'].
  rewrite IH by done. rewrite (bool_decide_eq_false_2 (now < hi)%Z) by lia.
  by rewrite !andb_false_r.
Qed.

(** What the state of a bucket still lets through: no window, a window open until the end of the interval, or any. *)
Definition leftOf (hi : Date) (w : option RateWindow) : Z :=
  match w with
  | None => max
  | Some w => if hi <=? rw_resetAt w then Z.max 0 (max - rw_count w) else Z.max 0 (max - rw_count w) + max
  end.

(** From the start of an interval as long as the window. *)
Lemma admitted_from lo calls : forall s,
  limitedCalls bounded b max window calls -> sortedCalls calls -> NoDup (jsKeys (rl_bounded s)) ->
  Forall (fun c => (lo <= c.1)%Z) calls ->
  (forall w, getB s = Some w -> (0 <= rw_count w)%Z) ->
  (admits lo (lo + window) calls s <= leftOf (lo + window) (getB s) + max * evicted lo (lo + window) calls s)%Z.
Proof.
  induction calls as [|[now i] calls IH]; intros s Hl Hs Hn Hlo Hc.
  { cbn -[leftOf]. unfold leftOf. destruct (getB s); [destruct (_ <=? _)|]; lia. }
  destruct (decide (lo + window <= now)%Z) as [Hp|Hp].
  { rewrite admitted_past.
    - pose proof (evictions_nonneg lo (lo + window) ((now, i) :: calls) s). unfold leftOf.
      destruct (getB s); [destruct (_ <=? _)|]; nia.
    - apply StronglySorted_inv in Hs as [_ Hall]. constructor; [done|]. eapply List.Forall_impl; [|exact Hall]. cbn. lia. }
  apply StronglySorted_inv in Hs as [Hs _]. apply Forall_cons in Hlo as [Hlo1 Hlo]. cbn in Hlo1.
  destruct (admitted_step lo (lo + window) now i calls s Hl Hn) as (s' & Hl' & Hn' & Hstep).
  specialize (IH s' Hl' Hs Hn' Hlo).
  rewrite (bool_decide_eq_true_2 (lo <= now)%Z), (bool_decide_eq_true_2 (now < lo + window)%Z) in Hstep by lia. cbn [andb] in Hstep.
  destruct Hstep as [(Hg & Hw & -> & ->)|[-> [[Hg ->]|[Hg ->]]]].
  - rewrite Hg in IH. assert (Hpos : (0 <= rw_count (windowAt now i (getB s)))%Z).
    { unfold windowAt. destruct (getB s) as [w|]; [|done]. specialize (Hc w eq_refl). by destruct (_ <=? now). }
    specialize (IH ltac:(intros w [= <-]; cbn; lia)). unfold leftOf in *. cbn [rw_count rw_resetAt] in *.
    unfold windowAt in *. rewrite Hw in *. destruct (getB s) as [[c r]|]; cbn [rw_count rw_resetAt] in *.
    + destruct (bool_decide_reflect (r <= now)%Z); cbn [rw_count rw_resetAt] in *; repeat case_bool_decide; lia.
    + repeat case_bool_decide; lia.
  - rewrite Hg in IH. by apply IH.
  - rewrite Hg in IH. specialize (IH ltac:(done)). unfold leftOf, isLive in *. destruct (getB s) as [[c r]|]; [|lia].
    cbn [rw_count rw_resetAt] in *. repeat case_bool_decide; lia.
Qed.

Lemma admitted_any lo calls : forall s,
  limitedCalls bounded b max window calls -> sortedCalls calls -> NoDup (jsKeys (rl_bounded s)) ->
  (forall w, getB s = Some w -> (1 <= rw_count w)%Z) ->
  (admits lo (lo + window) calls s <= Z.max 0 (2 * max - 1) + max * evicted lo (lo + window) calls s)%Z.
Proof.
  induction calls as [|[now i] calls IH]; intros s Hl Hs Hn Hc; [cbn; lia|].
  destruct (decide (lo <= now)%Z) as [Hlo|Hlo].
  { assert (Hf : Forall (fun c : Date * UserRateLimitInput => (lo <= c.1)%Z) ((now, i) :: calls)).
    { apply StronglySorted_inv in Hs as [_ Hall]. constructor; [done|]. eapply List.Forall_impl; [|exact Hall]. cbn. lia. }
    pose proof (admitted_from lo ((now, i) :: calls) s Hl Hs Hn Hf ltac:(intros w E; specialize (Hc w E); lia)) as Hb.
    unfold leftOf in Hb. destruct (getB s) as [w|]; [specialize (Hc w eq_refl); case_bool_decide|]; lia. }
  apply StronglySorted_inv in Hs as [Hs _].
  destruct (admitted_step lo (lo + window) now i calls s Hl Hn) as (s' & Hl' & Hn' & Hstep).
  rewrite (bool_decide_eq_false_2 (lo <= now)%Z) in Hstep by done. cbn [andb] in Hstep.
  destruct Hstep as [(Hg & Hw & -> & ->)|[-> [[Hg ->]|[Hg ->]]]]; rewrite ?Z.add_0_l; apply IH; try done.
  - rewrite Hg. intros w [= <-]. cbn. unfold windowAt. destruct (getB s) as [w|]; [|done].
    specialize (Hc w eq_refl). destruct (_ <=? now); cbn; lia.
  - by rewrite Hg.
  - by rewrite Hg.
Qed.

(** The map of the users never loses a window. *)
Lemma evictions_users lo hi calls : forall s, bounded = false -> NoDup (jsKeys (rl_bounded s)) -> evicted lo hi calls s = 0%Z.
Proof.
  induction calls as [|[now i] calls IH]; intros s Hb Hn; cbn; [done|].
  rewrite IH by (done || by apply consume_keys). destruct (onBucket bounded b i) eqn:Eo.
  - unfold onBucket in Eo. bool_simpl. subst b. pose proof (consume_same now i s Henforced) as Hc.
    destruct (consumeUserRateLimit now i s) as [d s']. destruct Hc as [Hg _]. cbn [snd].
    rewrite Hb in *. replace (ul_bounded i) with false in Hg by done. rewrite Hg. cbn. by rewrite andb_false_r.
  - destruct (consume_other now i s bounded b Hn Eo) as [E|[E _]]; [|congruence]. rewrite E.
    destruct (getB s); cbn; by rewrite ?andb_false_r.
Qed.

(** Nor does the other map, while all its keys fit. *)
Lemma consume_roomy K now i s :
  (ul_bounded i = true -> rateBucketKey i ∈ K) -> (Z.of_nat (length K) <= USER_RATE_LIMIT_MAX_BUCKETS)%Z ->
  NoDup (jsKeys (rl_bounded s)) -> jsKeys (rl_bounded s) ⊆ K ->
  jsKeys (rl_bounded (consumeUserRateLimit now i s).2) ⊆ K /\
  forall k, is_Some (jsGet k (rl_bounded s)) -> is_Some (jsGet k (rl_bounded (consumeUserRateLimit now i s).2)).
Proof.
  intros Hk Hlen Hn Hsub. unfold consumeUserRateLimit. rewrite Henforced. cbn [negb]. cbv zeta.
  destruct (ul_bounded i); [|rewrite andb_false_r; by destruct (_ <=? ul_max i)].
  rewrite andb_true_r. specialize (Hk eq_refl).
  assert (E : (if isNull (jsGet (rateBucketKey i) (rl_bounded s)) then makeRoomForBoundedBucket now s else s) = s).
  { destruct (jsGet (rateBucketKey i) (rl_bounded s)) eqn:Hno; [done|]. cbn. unfold makeRoomForBoundedBucket.
    rewrite bool_decide_eq_true_2; [done|].
    assert (Hle : (length (rateBucketKey i :: jsKeys (rl_bounded s)) <= length K)%nat); cycle 1.
    { cbn in Hle. unfold jsKeys, jsSize in *. rewrite length_map in Hle. lia. }
    apply NoDup_incl_length.
    - apply NoDup_ListNoDup, NoDup_cons. split; [by apply jsGet_None|done].
    - intros x Hx%list_elem_of_In. apply list_elem_of_In. apply elem_of_cons in Hx as [->|Hx]; [done|by apply Hsub]. }
  rewrite E. destruct (_ <=? ul_max i); cbn; (split;
    [intros x Hx; match type of Hx with _ ∈ map fst ?m => change (x ∈ jsKeys m) in Hx end; rewrite jsKeys_set in Hx; destruct (_ ∈? _); [by apply Hsub|];
       apply elem_of_app in Hx as [Hx| ->%list_elem_of_singleton]; [by apply Hsub|done]|
     intros k Hin; destruct (decide (k = rateBucketKey i)) as [->|Hne];
       [rewrite jsGet_set_eq; by eexists|by rewrite jsGet_set_ne by done]]).
Qed.

Lemma evictions_room K lo hi calls : forall s,
  Forall (fun c => ul_bounded c.2 = true -> rateBucketKey c.2 ∈ K) calls ->
  (Z.of_nat (length K) <= USER_RATE_LIMIT_MAX_BUCKETS)%Z ->
  NoDup (jsKeys (rl_bounded s)) -> jsKeys (rl_bounded s) ⊆ K -> evicted lo hi calls s = 0%Z.
Proof.
  destruct (decide (bounded = false)) as [Hb|Hb]; [intros; by apply evictions_users|].
  induction calls as [|[now i] calls IH]; intros s Hk Hlen Hn Hsub; cbn; [done|].
  apply Forall_cons in Hk as [Hki Hk]. destruct (consume_roomy K now i s Hki Hlen Hn Hsub) as [Hsub' Hkeep].
  rewrite (IH _ Hk Hlen (consume_keys now i s Hn) Hsub').
  destruct bounded; [|done]. cbn [bucketsOf]. destruct (jsGet b (rl_bounded s)) as [w|] eqn:E; cbn; [|by rewrite andb_false_r].
  destruct (Hkeep b ltac:(by rewrite E)) as [w' E']. rewrite E'. cbn. by rewrite andb_false_r.
Qed.
End bound.

(** C33: A fixed-window limit of [max] calls per [window] milliseconds lets at most [2 * max - 1] calls through in any
    interval of that length, and [max] more for each time the window of its bucket is evicted in that interval before
    it is over; whatever calls on the same and on other buckets the process serves; an interval that spans the end
    of a window reaches it.  The windows of the users' limits are never evicted, whatever flood of caller-chosen
    buckets the process serves; those of the bounded limits are not while all the caller-chosen buckets fit in
    [USER_RATE_LIMIT_MAX_BUCKETS]. *)
Theorem rate_limit_bound bounded b max window lo calls
    (Henforced : isRateLimitEnforced = true) (Hmax : (0 <= max)%Z)
    (Hlimit : limitedCalls bounded b max window calls) (Hsorted : sortedCalls calls) :
  let evicted := evictions bounded b lo (lo + window) calls noRateLimits in
  (admitted bounded b lo (lo + window) calls noRateLimits <= Z.max 0 (2 * max - 1) + max * evicted)%Z /\
  (bounded = false -> evicted = 0%Z) /\
  (forall keys, Forall (fun c => ul_bounded c.2 = true -> rateBucketKey c.2 ∈ keys) calls ->
     (Z.of_nat (length keys) <= USER_RATE_LIMIT_MAX_BUCKETS)%Z -> evicted = 0%Z).
Proof.
  intros evicted. split; [apply admitted_any; first [done|apply NoDup_nil_2|intros w; by destruct bounded]|]. split.
  - intros Hb. apply evictions_users; first [done|apply NoDup_nil_2].
  - intros keys Hk Hlen. apply (evictions_room _ _ Henforced keys); first [done|apply NoDup_nil_2|by intros x ?%not_elem_of_nil].
Qed.

(** ** The bounded map *)

Lemma sweepBounded_size now s : (jsSize (rl_bounded (sweepBounded now s)) <= jsSize (rl_bounded s))%Z.
Proof. unfold sweepBounded. destruct (_ <=? now); cbn; [apply jsSize_filter|lia]. Qed.

Lemma makeRoom_size now s :
  (jsSize (rl_bounded s) <= USER_RATE_LIMIT_MAX_BUCKETS)%Z ->
  (jsSize (rl_bounded (makeRoomForBoundedBucket now s)) < USER_RATE_LIMIT_MAX_BUCKETS)%Z.
Proof.
  intros Hs. unfold makeRoomForBoundedBucket. case_bool_decide; [done|]. cbv zeta. case_bool_decide; [done|].
  pose proof (sweepBounded_size now s). destruct (rl_bounded (sweepBounded now s)) as [|[k v] m] eqn:E; cbn.
  { rewrite E. done. }
  rewrite E. assert (Hg : jsGet k ((k, v) :: m) = Some v) by (cbn; by rewrite bool_decide_eq_true_2).
  pose proof (jsDelete_size _ _ _ Hg). unfold jsDelete in *. cbn in *. lia.
Qed.

Lemma makeRoom_get now b s : jsGet b (rl_bounded s) = None -> jsGet b (rl_bounded (makeRoomForBoundedBucket now s)) = None.
Proof.
  intros Hn. unfold makeRoomForBoundedBucket. case_bool_decide; [done|]. cbv zeta.
  assert (Hs : jsGet b (rl_bounded (sweepBounded now s)) = None).
  { unfold sweepBounded. destruct (_ <=? now); cbn; [by apply jsGet_filter_None|done]. }
  case_bool_decide; [done|]. destruct (rl_bounded (sweepBounded now s)) as [|[k v] m] eqn:E; cbn; rewrite E; [done|].
  by apply jsGet_filter_None.
Qed.

Lemma consume_bounded_size now i s :
  (jsSize (rl_bounded s) <= USER_RATE_LIMIT_MAX_BUCKETS)%Z ->
  (jsSize (rl_bounded (consumeUserRateLimit now i s).2) <= USER_RATE_LIMIT_MAX_BUCKETS)%Z.
Proof.
  intros Hs. unfold consumeUserRateLimit. destruct (negb isRateLimitEnforced); [done|]. cbv zeta.
  destruct (ul_bounded i); cycle 1.
  { rewrite andb_false_r. by destruct (_ <=? ul_max i). }
  rewrite andb_true_r. destruct (jsGet (rateBucketKey i) (rl_bounded s)) as [w|] eqn:E; cbn [isNull].
  - destruct (_ <=? ul_max i); cbn; by rewrite (jsSize_set_old _ _ _ _ E).
  - pose proof (makeRoom_size now s Hs). pose proof (makeRoom_get now _ _ E).
    destruct (_ <=? ul_max i); cbn; rewrite jsSize_set_new by done; lia.
Qed.

(** The calls on the users' buckets, without the others. *)
Definition userCalls (calls : list (Date * UserRateLimitInput)) : list (Date * UserRateLimitInput) :=
  List.filter (fun c => negb (ul_bounded c.2)) calls.

Fixpoint userDecisions (calls : list (Date * UserRateLimitInput)) (ds : list UserRateLimitDecision)
    : list UserRateLimitDecision :=
  match calls, ds with
  | (_, i) :: calls', d :: ds' => if ul_bounded i then userDecisions calls' ds' else d :: userDecisions calls' ds'
  | _, _ => []
  end.

(** A call on a user's bucket reads and writes the users' map only. *)
Lemma consume_user_frame now i s s' :
  ul_bounded i = false -> rl_windows s = rl_windows s' ->
  (consumeUserRateLimit now i s).1 = (consumeUserRateLimit now i s').1 /\
  rl_windows (consumeUserRateLimit now i s).2 = rl_windows (consumeUserRateLimit now i s').2.
Proof.
  intros Hb Hw. unfold consumeUserRateLimit. destruct (negb isRateLimitEnforced); [done|]. cbv zeta.
  rewrite Hb, Hw, andb_false_r. destruct (_ <=? ul_max i); cbn; by rewrite Hw.
Qed.

Lemma consume_bounded_windows now i s :
  ul_bounded i = true -> rl_windows (consumeUserRateLimit now i s).2 = rl_windows s.
Proof.
  intros Hb. unfold consumeUserRateLimit. destruct (negb isRateLimitEnforced); [done|]. cbv zeta.
  rewrite Hb, andb_true_r. destruct (_ <=? ul_max i); cbn; (destruct (isNull _); [by rewrite makeRoom_windows|done]).
Qed.

(** However many buckets unauthenticated callers make up, the process
    tracks at most [USER_RATE_LIMIT_MAX_BUCKETS] of them, and none of their
    calls changes a decision on the bucket of a user. *)
Theorem flood_isolated calls s s'
    (Hsize : (userRateLimitBucketCount true s <= USER_RATE_LIMIT_MAX_BUCKETS)%Z)
    (Hsame : rl_windows s = rl_windows s') :
  (userRateLimitBucketCount true (runCalls calls s).2 <= USER_RATE_LIMIT_MAX_BUCKETS)%Z /\
  userDecisions calls (runCalls calls s).1 = (runCalls (userCalls calls) s').1.
Proof.
  revert s s' Hsize Hsame. induction calls as [|[now i] calls IH]; intros s s' Hs Hw; cbn; [done|].
  destruct (consumeUserRateLimit now i s) as [d s1] eqn:E1. destruct (runCalls calls s1) as [ds s2] eqn:E2.
  pose proof (consume_bounded_size now i s Hs) as Hs1. rewrite E1 in Hs1. cbn in Hs1 |- *.
  destruct (ul_bounded i) eqn:Eb; cbn [negb].
  - destruct (IH s1 s' Hs1) as [H1 H2].
    { rewrite <- Hw. pose proof (consume_bounded_windows now i s Eb) as H1. by rewrite E1 in H1. }
    by rewrite E2 in H1, H2.
  - cbn [runCalls]. destruct (consumeUserRateLimit now i s') as [d' s1'] eqn:E1'.
    destruct (consume_user_frame now i s s' Eb Hw) as [Hd Hw1]. rewrite E1, E1' in Hd, Hw1. cbn in Hd, Hw1. subst d'.
    destruct (IH s1 s1' Hs1 Hw1) as [H1 H2]. rewrite E2 in H1, H2. split; [done|].
    change (userCalls calls) with (List.filter (fun c => negb (ul_bounded c.2)) calls) in H2.
    destruct (runCalls (List.filter _ calls) s1') as [ds' s2']. cbn in H2 |- *. by rewrite H2.
Qed.

End rateLimit.
