(* ===== verification/Server.v ===== *)
(** * The HTTP server process

    What a request reads and changes besides the database: the state modules
    keep in the process (rate-limit windows, the capability gate), and the
    reply.  A computation of [H] takes a [Server] and returns or throws; the
    services run in it by [db], and [requestTransaction] is the
    organisation-scoped transaction of a request, which can also fail where
    PostgreSQL fails ([Postgres]). *)

From S2P Require Import Prelude Js Crypto FieldSet AuthStore Store Tx JsMap RateLimit.
From Stdlib Require Import Ascii String.
From stdpp Require Import strings.

Local Open Scope string_scope.
Local Open Scope list_scope.
Local Open Scope pv_scope.

(** ** Identifiers in texts: middleware/rls.ts *)

Fixpoint readHex (n : nat) (acc : N) (s : string) : option (N * string) :=
  match n, s with
  | O, _ => Some (acc, s)
  | S n', String c s' => v ← hexValue c; readHex n' (acc * 16 + v)%N s'
  | S _, EmptyString => None
  end.

Definition readDash (s : string) : option string :=
  match s with String c s' => if c =? "-"%char then Some s' else None | EmptyString => None end.

(** The [uuid] a text denotes, in either case of its letters. *)
Definition parseUuid (s : string) : option Uuid :=
  '(a, s) ← readHex 8 0 s; s ← readDash s;
  '(a, s) ← readHex 4 a s; s ← readDash s;
  '(a, s) ← readHex 4 a s; s ← readDash s;
  '(a, s) ← readHex 4 a s; s ← readDash s;
  '(a, s) ← readHex 12 a s;
  if s =? EmptyString then Some a else None.

(** [UUID_REGEX.test(value)] *)
Definition isUuid (value : string) : bool := isNotNull (parseUuid value).

(** ** The state of the process *)

(** lib/race-with-timeout.ts: when and how the attempt settles *)
Inductive GateAttempt A := resolves_after (ms : Z) (value : A) | rejects_after (ms : Z) (message : string) | never_settles.
Arguments resolves_after {A}.
Arguments rejects_after {A}.
Arguments never_settles {A}.

Record CapabilityGateContext := MkCapabilityGateContext {
  cgc_capability : string;
  cgc_orgId : option Uuid;
  cgc_userId : option Uuid;
  cgc_orgRole : option OrgRole;
  cgc_gateCallId : Uuid;
}.

(** A gate of an extension: its answer is any value. *)
Definition CapabilityGate : Type := CapabilityGateContext -> World -> GateAttempt Json.

Record CapabilityGateCounters := MkCapabilityGateCounters {
  cgn_checks : Z; cgn_permitted : Z; cgn_denied : Z; cgn_failed : Z; cgn_saturated : Z;
}.
#[export] Instance Eta_CapabilityGateCounters : Eta CapabilityGateCounters := fun c =>
  MkCapabilityGateCounters (cgn_checks c) (cgn_permitted c) (cgn_denied c) (cgn_failed c) (cgn_saturated c).

Record DampenerEntry := MkDampenerEntry { de_windowStart : Date; de_reasonCode : string; de_suppressedCount : Z }.

(** [(orgId, userId, capability)], joined by NUL in the source. *)
Abbreviation DampenerKey := (Uuid * Uuid * string)%type (only parsing).

Record Process := MkProcess {
  pr_rateLimits : RateLimits;
  pr_gate : option CapabilityGate;
  pr_gateName : option string;
  pr_counters : CapabilityGateCounters;
  pr_inFlight : list (string * Z);
  pr_dampener : list (DampenerKey * DampenerEntry);
  pr_failedKeys : list (string * RateWindow);   (* machine-users/token-exchange-rate-limit.ts *)
}.
#[export] Instance Eta_Process : Eta Process := fun p =>
  MkProcess (pr_rateLimits p) (pr_gate p) (pr_gateName p) (pr_counters p) (pr_inFlight p) (pr_dampener p) (pr_failedKeys p).
Definition freshCounters : CapabilityGateCounters := MkCapabilityGateCounters 0 0 0 0 0.
Definition freshProcess : Process := MkProcess noRateLimits None None freshCounters [] [] [].

(** ** The reply *)

Record Reply := MkReply {
  rp_status : Z;
  rp_headers : list (string * string);
  rp_sent : option (Z * option Json);  (* what was sent: the status and the body *)
  rp_guarded : bool;                 (* [send] is replaced by a function that throws *)
}.
#[export] Instance Eta_Reply : Eta Reply := fun r =>
  MkReply (rp_status r) (rp_headers r) (rp_sent r) (rp_guarded r).
Definition freshReply : Reply := MkReply 200 [] None false.

Inductive RequestPhase := phase_rls | phase_handler | phase_audit.
#[export] Instance RequestPhase_eq_dec : EqDecision RequestPhase.
Proof. solve_decision. Defined.

(** One request at work in the process. *)
Record Server := MkServer {
  sv_world : World;
  sv_process : Process;
  sv_reply : Reply;
  sv_phase : RequestPhase;
  sv_seen : list string;              (* the capabilities this request checked *)
  sv_callbacks : list (M unit);       (* to run after the commit *)
}.
#[export] Instance Eta_Server : Eta Server := fun s =>
  MkServer (sv_world s) (sv_process s) (sv_reply s) (sv_phase s) (sv_seen s) (sv_callbacks s).

Definition H (A : Type) : Type := Server -> Outcome A * Server.
#[export] Instance H_ret : MRet H := fun A a s => (Ok a, s).
#[export] Instance H_bind : MBind H := fun A B k m s =>
  match m s with
  | (Ok a, s') => k a s'
  | (Throw e, s') => (Throw e, s')
  end.

Definition raise {A} (e : Exn) : H A := fun s => (Throw e, s).

(** [try { m } catch (e) { h(e) }], [try { m } finally { f }] *)
Definition tryCatch {A} (m : H A) (h : Exn -> H A) : H A := fun s =>
  match m s with (Throw e, s') => h e s' | r => r end.
Definition tryFinally {A} (m : H A) (f : H unit) : H A := fun s =>
  let '(o, s') := m s in
  match f s' with
  | (Ok _, s'') => (o, s'')
  | (Throw e, s'') => (Throw e, s'')
  end.

(** A service function. *)
Definition db {A} (m : M A) : H A := fun s =>
  let '(o, w') := m (sv_world s) in (o, s <| sv_world := w' |>).

Definition gets {A} (f : Server -> A) : H A := fun s => (Ok (f s), s).
Definition modify (f : Server -> Server) : H unit := fun s => (Ok tt, f s).
Definition modifyProcess (f : Process -> Process) : H unit := modify (fun s => s <| sv_process ::= f |>).

(** lib/for-each-sequential.ts *)
Fixpoint forEachInOrder {A} (items : list A) (fn : A -> H unit) : H unit :=
  match items with
  | [] => mret tt
  | item :: items' => _ ← fn item; forEachInOrder items' fn
  end.

(** Fastify: [reply.status(n)], [reply.header(k, v)], [reply.send(body)], [reply.sent]; a second
    [send] is ignored. *)
Definition replyStatus (n : Z) : H unit := modify (fun s => s <| sv_reply ::= fun r => r <| rp_status := n |> |>).
Definition replyHeader (k v : string) : H unit :=
  modify (fun s => s <| sv_reply ::= fun r => r <| rp_headers ::= jsPut k v |> |>).
Definition auditedSendError : Exn := JsError "SecureRoute: audited handlers must return data instead of sending replies".
Definition replySend (body : option Json) : H unit := fun s =>
  if rp_guarded (sv_reply s) then (Throw auditedSendError, s)
  else match rp_sent (sv_reply s) with
       | Some _ => (Ok tt, s)
       | None => (Ok tt, s <| sv_reply ::= fun r => r <| rp_sent := Some (rp_status r, body) |> |>)
       end.
Definition isReplySent : H bool := gets (fun s => isNotNull (rp_sent (sv_reply s))).

(** [reply.status(n).send(body)] *)
Definition sendStatus (n : Z) (body : Json) : H unit := _ ← replyStatus n; replySend (Some body).
Definition errorBody (code message : string) : Json := JObj [("code", JStr code); ("message", JStr message)].
Definition sendError (n : Z) (code message : string) : H unit := sendStatus n (errorBody code message).

(** ** Transactions of a request *)

(** Whether PostgreSQL fails: [set_config] and the commit. *)
Class Postgres := { setConfigFails : World -> Uuid -> bool; commitFails : World -> bool }.
Definition DatabaseError : Exn := JsError "Failed query".

Section transactions.
Context `{Platform, Postgres}.

Definition failing (f : World -> bool) : H unit := fun s =>
  if f (sv_world s) then (Throw DatabaseError, s) else (Ok tt, s).

(** middleware/rls.ts: an identifier of the model is a [uuid] *)
Definition setRlsOrgContext (orgId : Uuid) : H unit := failing (fun w => setConfigFails w orgId).

(** [db.transaction(fn)]: an exception, of [fn] or of the commit, undoes its writes. *)
Definition requestTransaction {A} (m : H A) : H A := fun s =>
  match (_ ← db beginTransaction; a ← m; _ ← failing commitFails; mret a) s with
  | (Throw e, s') => (Throw e, s' <| sv_world ::= fun w => w <| w_db := w_db (sv_world s) |> |>)
  | r => r
  end.
End transactions.

(** ** Post-conditions *)

Definition hwp {A} (m : H A) (Q : Outcome A -> Server -> Prop) (s : Server) : Prop :=
  let '(o, s') := m s in Q o s'.

Section hwp_rules.
Context {A B : Type}.
Implicit Types (s : Server).

Lemma hwp_bind (m : H A) (k : A -> H B) (Q : Outcome B -> Server -> Prop) s :
  hwp m (fun o s' => match o with Ok a => hwp (k a) Q s' | Throw e => Q (Throw e) s' end) s ->
  hwp (m ≫= k) Q s.
Proof. unfold hwp, mbind, H_bind. by destruct (m s) as [[a|e] s']. Qed.

Lemma hwp_mono (m : H A) (Q Q' : Outcome A -> Server -> Prop) s :
  hwp m Q s -> (forall o s', Q o s' -> Q' o s') -> hwp m Q' s.
Proof. unfold hwp. destruct (m s). auto. Qed.

Lemma hwp_tryCatch (m : H A) h (Q : Outcome A -> Server -> Prop) s :
  hwp m (fun o s' => match o with Ok a => Q (Ok a) s' | Throw e => hwp (h e) Q s' end) s ->
  hwp (tryCatch m h) Q s.
Proof. unfold hwp, tryCatch. by destruct (m s) as [[a|e] s']. Qed.

Lemma hwp_elim (m : H A) (Q : Outcome A -> Server -> Prop) s o s' : hwp m Q s -> m s = (o, s') -> Q o s'.
Proof. unfold hwp. intros HQ E. by rewrite E in HQ. Qed.

(** A call whose result is known. *)
Lemma bind_ok (m : H A) (k : A -> H B) s a s' : m s = (Ok a, s') -> (m ≫= k) s = k a s'.
Proof. intros E. unfold mbind, H_bind. by rewrite E. Qed.
Lemma bind_throw (m : H A) (k : A -> H B) s e s' : m s = (Throw e, s') -> (m ≫= k) s = (Throw e, s').
Proof. intros E. unfold mbind, H_bind. by rewrite E. Qed.

(** The primitives, run. *)
Lemma bind_gets {C} (f : Server -> C) (k : C -> H B) s : (gets f ≫= k) s = k (f s) s.
Proof. done. Qed.
Lemma bind_modify f (k : unit -> H B) s : (modify f ≫= k) s = k tt (f s).
Proof. done. Qed.
Lemma bind_modifyProcess f (k : unit -> H B) s : (modifyProcess f ≫= k) s = k tt (s <| sv_process ::= f |>).
Proof. done. Qed.
Lemma bind_ret (a : A) (k : A -> H B) s : (mret a ≫= k) s = k a s.
Proof. done. Qed.
Lemma bind_db (m : M A) (k : A -> H B) s a w' :
  m (sv_world s) = (Ok a, w') -> (db m ≫= k) s = k a (s <| sv_world := w' |>).
Proof. intros E. unfold mbind, H_bind, db. by rewrite E. Qed.
Lemma bind_assoc {C} (m : H C) (k : C -> H A) (k' : A -> H B) s :
  ((m ≫= k) ≫= k') s = (m ≫= fun c => k c ≫= k') s.
Proof. unfold mbind, H_bind. by destruct (m s) as [[c|e] s']. Qed.
End hwp_rules.

(** Runs the next primitive of a computation. *)
Ltac h_step :=
  first [ rewrite bind_gets | rewrite bind_modifyProcess | rewrite bind_modify | rewrite bind_ret
        | rewrite bind_assoc ].

(** ** The text of an identifier is read back *)

Lemma hexValue_hexDigit n : (n < 16)%N -> hexValue (hexDigit n) = Some n.
Proof.
  intros Hn. assert (Hc : exists k, (k < 16)%nat /\ n = N.of_nat k) by (exists (N.to_nat n); lia).
  destruct Hc as (k & Hk & ->). do 16 (destruct k as [|k]; [reflexivity|]). lia.
Qed.

Lemma readHex_digits n : forall x acc rest,
  readHex n acc (hexDigits n x +:+ rest) = Some (acc * 16 ^ N.of_nat n + x mod 16 ^ N.of_nat n, rest)%N.
Proof.
  enough (G : forall x acc rest k, readHex (n + k) acc (hexDigits n x +:+ rest)
            = readHex k (acc * 16 ^ N.of_nat n + x mod 16 ^ N.of_nat n)%N rest).
  { intros x acc rest. specialize (G x acc rest 0%nat). rewrite Nat.add_0_r in G. by rewrite G. }
  induction n as [|n IH]; intros x acc rest k; cbn [hexDigits Nat.add].
  { cbn. f_equal. rewrite N.mod_1_r. lia. }
  rewrite (string_app_assoc (hexDigits n (x / 16))). replace (S (n + k)) with (n + S k)%nat by lia.
  rewrite IH. rewrite string_app_cons. cbn [readHex]. rewrite hexValue_hexDigit by (apply N.mod_lt; lia).
  cbn [mbind option_bind]. f_equal. rewrite Nat2N.inj_succ, N.pow_succ_r'.
  rewrite (N.Div0.mod_mul_r x 16 (16 ^ N.of_nat n)). lia.
Qed.

Lemma div_mod_join u k n m : m = (k + n)%N -> ((u / 2 ^ m) * 2 ^ n + (u / 2 ^ k) mod 2 ^ n)%N = (u / 2 ^ k)%N.
Proof.
  intros ->. rewrite N.pow_add_r, <- N.Div0.div_div, N.mul_comm. symmetry. apply N.div_mod. by apply N.pow_nonzero.
Qed.

Lemma parseUuid_uuidText u : (u < 2 ^ 128)%N -> parseUuid (uuidText u) = Some u.
Proof.
  intros Hu. unfold parseUuid, uuidText.
  assert (Hd : forall s, readDash ("-" +:+ s) = Some s) by done.
  rewrite readHex_digits. cbn [mbind option_bind]. rewrite Hd. cbn [mbind option_bind].
  rewrite readHex_digits. cbn [mbind option_bind]. rewrite Hd. cbn [mbind option_bind].
  rewrite readHex_digits. cbn [mbind option_bind]. rewrite Hd. cbn [mbind option_bind].
  rewrite readHex_digits. cbn [mbind option_bind]. rewrite Hd. cbn [mbind option_bind].
  rewrite <- (string_app_nil_r (hexDigits 12 u)), readHex_digits. cbn [mbind option_bind].
  rewrite bool_decide_eq_true_2 by done. f_equal.
  change (16 ^ N.of_nat 8)%N with (2 ^ 32)%N. change (16 ^ N.of_nat 4)%N with (2 ^ 16)%N.
  change (16 ^ N.of_nat 12)%N with (2 ^ 48)%N. rewrite N.mul_0_l, N.add_0_l.
  rewrite (N.mod_small (u / 2 ^ 96)) by (apply N.Div0.div_lt_upper_bound; exact Hu).
  rewrite (div_mod_join u 80 16), (div_mod_join u 64 16), (div_mod_join u 48 16) by done.
  pose proof (div_mod_join u 0 48 48 eq_refl) as E. rewrite N.pow_0_r, !N.div_1_r in E. exact E.
Qed.
