(* ===== verification/CapabilityGate.v ===== *)
(** * Capability gates: lib/capability-gate.ts, lib/race-with-timeout.ts,
      lib/capability-gate-audit.ts

    An extension can register one gate that decides which capabilities an
    organisation has.  [checkCapability] is the only caller of the gate: it
    bounds the calls in flight per organisation, times the gate out, and reads
    the answer, which may be any value.  A denial is audited, at most once per
    window of a minute for the same organisation, user and capability; the
    repeats are counted and written later.  The operational log is not
    modelled. *)

From S2P Require Import Prelude Js Crypto FieldSet AuthStore Store Tx QuotaGate AuditLog Sessions JsMap RateLimit Server.
From Stdlib Require Import Ascii String.
From stdpp Require Import strings.

Local Open Scope string_scope.
Local Open Scope list_scope.
Local Open Scope pv_scope.

(** ** lib/race-with-timeout.ts *)

Inductive RaceWithTimeoutResult A := race_resolved (value : A) | race_timed_out | race_rejected (message : string).
Arguments race_resolved {A}.
Arguments race_timed_out {A}.
Arguments race_rejected {A}.

Definition TIMED_OUT_MESSAGE : string := "race-with-timeout: timed out".

Definition raceWithTimeout {A} (attempt : GateAttempt A) (timeoutMs : Z) : RaceWithTimeoutResult A :=
  match attempt with
  | resolves_after ms value => if ms <? timeoutMs then race_resolved value else race_timed_out
  | rejects_after ms message =>
      if ms <? timeoutMs then
        if message =? TIMED_OUT_MESSAGE then race_timed_out else race_rejected message
      else race_timed_out
  | never_settles => race_timed_out
  end.

(** ** Decisions *)

Inductive CapabilityDecision := cap_permitted | cap_denied (reasonCode message : string).

Definition CAPABILITY_GATE_TIMEOUT_MS : Z := 250.
Definition CAPABILITY_GATE_MAX_IN_FLIGHT_PER_SURFACE : Z := 8.
Definition PUBLIC_SURFACE_ACCOUNTING_KEY : string := "__public__".
Definition MAX_REASON_CODE_LENGTH : Z := 200.
Definition MESSAGE_TRUNCATE_LENGTH : Z := 300.
Definition TRUNCATION_MARKER : string := "…".
Definition PV_LOCALIZED_FALLBACK_MESSAGE : string := "This capability is not available for your organization.".

(** The first surrogate of a character of four bytes. *)
Definition highSurrogate (c : ascii) (rest : string) : string :=
  match rest with
  | String c1 (String c2 _) =>
      utf8 (55296 + ((code c mod 8) * 256 + (code c1 mod 64) * 4 + (code c2 mod 64) / 16 - 64))
  | _ => EmptyString
  end.

(** [s.slice(0, n)]: the first [n] UTF-16 code units; a surrogate left alone keeps three bytes. *)
Fixpoint jsTake (n : Z) (s : string) : string :=
  match s with
  | EmptyString => EmptyString
  | String c s' =>
      if (128 <=? code c)%N && (code c <? 192)%N then String c (jsTake n s')
      else if n <=? 0 then EmptyString
      else if (code c <? 240)%N then String c (jsTake (n - 1) s')
      else if n =? 1%Z then highSurrogate c s' else String c (jsTake (n - 2) s')
  end.

Definition truncateMessage (message : option string) : option string :=
  (fun m => if jsLength m <=? MESSAGE_TRUNCATE_LENGTH then m
            else jsTake MESSAGE_TRUNCATE_LENGTH m +:+ TRUNCATION_MARKER) <$> message.

Definition denial (reasonCode : string) (message : option string) : CapabilityDecision :=
  cap_denied reasonCode (default PV_LOCALIZED_FALLBACK_MESSAGE (truncateMessage message)).

(** packages/shared: constants/capability-ids.ts *)
Definition CapabilityId : list string := ["monitoring.public-status-page"].
Definition isKnownCapabilityId (capability : string) : bool := capability ∈? CapabilityId.

(** What [capabilityDecisionSchema] reads of an answer. *)
Inductive ParsedDecision := parsed_permitted | parsed_denied (reasonCode : string) (message : option string).

Definition capabilityDecisionSchema (answer : Json) : option ParsedDecision :=
  match answer with
  | JObj members =>
      match getProp "permitted" members with
      | Some (JBool true) => Some parsed_permitted
      | Some (JBool false) =>
          match getProp "reasonCode" members with
          | Some (JStr reasonCode) =>
              if (1 <=? jsLength reasonCode) && (jsLength reasonCode <=? MAX_REASON_CODE_LENGTH) then
                match getProp "message" members with
                | None => Some (parsed_denied reasonCode None)
                | Some (JStr message) => Some (parsed_denied reasonCode (Some message))
                | Some _ => None
                end
              else None
          | _ => None
          end
      | _ => None
      end
  | _ => None
  end.

(** ** The registry *)

(** The state of the extension loader, as far as the gate goes. *)
Inductive ExtensionState := ext_not_loaded | ext_loaded (name : string) (capabilityGate : option CapabilityGate).

Definition wireExtensionCapabilityGate (state : ExtensionState) : H unit :=
  match state with
  | ext_not_loaded | ext_loaded _ None => mret tt
  | ext_loaded name (Some gate) =>
      modifyProcess (fun p => match pr_gate p with
                              | Some _ => p
                              | None => p <| pr_gate := Some gate |> <| pr_gateName := Some name |>
                              end)
  end.

Definition getCapabilityGate : H (option CapabilityGate) := gets (fun s => pr_gate (sv_process s)).

(** ** Calls in flight *)

Inductive Surface := surface_public | surface_org.

Definition accountingKeyFor (surface : Surface) (orgId : option Uuid) : string :=
  match surface with
  | surface_public => PUBLIC_SURFACE_ACCOUNTING_KEY
  | surface_org => match orgId with Some o => uuidText o | None => PUBLIC_SURFACE_ACCOUNTING_KEY end
  end.

Definition tryAcquireSlot (key : string) (max : Z) (inFlight : list (string * Z)) : bool * list (string * Z) :=
  let current := default 0%Z (jsGet key inFlight) in
  if max <=? current then (false, inFlight) else (true, jsPut key (current + 1)%Z inFlight).

Definition releaseSlot (key : string) (inFlight : list (string * Z)) : list (string * Z) :=
  let current := default 0%Z (jsGet key inFlight) in
  if current <=? 1 then jsDelete key inFlight else jsPut key (current - 1)%Z inFlight.

(** ** Checks *)

Record CheckCapabilityInput := MkCheckCapabilityInput {
  cci_capability : string;
  cci_orgId : option Uuid;
  cci_userId : option Uuid;
  cci_orgRole : option OrgRole;
  cci_surface : Surface;
  cci_timeoutMs : option Z;
  cci_maxInFlightPerSurface : option Z;
  cci_extensionRouteCapability : bool;
}.

Definition count (f : CapabilityGateCounters -> CapabilityGateCounters) : H unit :=
  modifyProcess (fun p => p <| pr_counters ::= f |>).

Definition recordGateOutcome (decision : CapabilityDecision) : H unit :=
  count (fun c => match decision with
                  | cap_permitted => c <| cgn_permitted ::= Z.succ |>
                  | cap_denied _ _ => c <| cgn_denied ::= Z.succ |>
                  end).

(** [const decision = ...; recordGateOutcome(decision); return decision] *)
Definition concluded (decision : CapabilityDecision) : H CapabilityDecision :=
  _ ← recordGateOutcome decision; mret decision.

(** The set of the request only serves the log. *)
Definition checkForDoubleCheck (capability : string) : H unit :=
  modify (fun s => s <| sv_seen ::= fun l => if capability ∈? l then l else l ++ [capability] |>).

Definition resolveGateOutcome (outcome : RaceWithTimeoutResult Json) : H CapabilityDecision :=
  match outcome with
  | race_timed_out | race_rejected _ =>
      _ ← count (fun c => c <| cgn_failed ::= Z.succ |>);
      concluded (denial "gate_unavailable" None)
  | race_resolved answer =>
      match capabilityDecisionSchema answer with
      | None => concluded (denial "gate_malformed_decision" None)
      | Some parsed_permitted => concluded cap_permitted
      | Some (parsed_denied reasonCode message) => concluded (denial reasonCode message)
      end
  end.

Section gate.
Context `{Locale, Platform, NodeCrypto, Env, Postgres}.

Definition invokeGateWithTimeout (gate : CapabilityGate) (context : CapabilityGateContext) (timeoutMs : Z)
    : H (RaceWithTimeoutResult Json) :=
  gets (fun s => raceWithTimeout (gate context (sv_world s)) timeoutMs).

Definition checkCapability (gate : CapabilityGate) (input : CheckCapabilityInput) : H CapabilityDecision :=
  gateCallId ← db genRandomUuid;
  _ ← count (fun c => c <| cgn_checks ::= Z.succ |>);
  _ ← checkForDoubleCheck (cci_capability input);
  if negb (cci_extensionRouteCapability input) && negb (isKnownCapabilityId (cci_capability input))
  then concluded (denial "unknown_capability" None)
  else
    let accountingKey := accountingKeyFor (cci_surface input) (cci_orgId input) in
    let maxInFlight := default CAPABILITY_GATE_MAX_IN_FLIGHT_PER_SURFACE (cci_maxInFlightPerSurface input) in
    slot ← gets (fun s => tryAcquireSlot accountingKey maxInFlight (pr_inFlight (sv_process s)));
    if negb slot.1 then
      _ ← count (fun c => c <| cgn_saturated ::= Z.succ |>);
      concluded (denial "gate_unavailable" None)
    else
      _ ← modifyProcess (fun p => p <| pr_inFlight := slot.2 |>);
      tryFinally
        (let context := MkCapabilityGateContext (cci_capability input) (cci_orgId input) (cci_userId input)
                          (cci_orgRole input) gateCallId in
         outcome ← invokeGateWithTimeout gate context (default CAPABILITY_GATE_TIMEOUT_MS (cci_timeoutMs input));
         resolveGateOutcome outcome)
        (modifyProcess (fun p => p <| pr_inFlight ::= releaseSlot accountingKey |>)).

(** [None]: nobody decides, the request goes on. *)
Definition extensionRouteCapabilityWithoutGate (capability : string) : option CapabilityDecision :=
  if isKnownCapabilityId capability then None else Some (denial "unknown_capability" None).

(** For routes whose organisation resolves inside the handler. *)
Definition assertCapability (input : CheckCapabilityInput) : H CapabilityDecision :=
  gate ← getCapabilityGate;
  match gate with
  | None => mret cap_permitted
  | Some gate => checkCapability gate input
  end.

(** ** The audit of denials: lib/capability-gate-audit.ts *)

Definition AUDIT_DAMPEN_WINDOW_MS : Z := 60000.
Definition AUDIT_DAMPEN_MAX_ENTRIES : Z := 1000.
Definition CAPABILITY_DENIED : string := "capability.denied".

Record DeniedRow := MkDeniedRow {
  dr_orgId : Uuid;
  dr_userId : Uuid;
  dr_capability : string;
  dr_reasonCode : string;
  dr_suppressedCount : Z;
}.

Definition insertCapabilityDeniedRow (input : DeniedRow) : M unit :=
  actorTokenId ← firstActorTokenIdForUser (dr_userId input);
  '(keyVersion, previousHmac) ← readAuditChainHead (dr_orgId input);
  let payload := JObj ([("capability", JStr (dr_capability input)); ("reasonCode", JStr (dr_reasonCode input))]
    ++ if 0 <? dr_suppressedCount input then [("suppressedCount", JInt (dr_suppressedCount input))] else []) in
  let fields := {| hf_orgId := dr_orgId input; hf_actorTokenId := actorTokenId; hf_actorType := "human";
                   hf_eventType := CAPABILITY_DENIED; hf_resourceId := None; hf_resourceType := None;
                   hf_payload := payload; hf_keyVersion := keyVersion;
                   hf_previousEntryHmac := default GENESIS_SENTINEL previousHmac |} in
  _ ← assertOrgMayWriteAuditGates (dr_orgId input) CAPABILITY_DENIED
        (estimateAuditEntrySizeBytes payload None None None);
  auditKey ← getAuditKey;
  _ ← insertAuditRow fields None previousHmac (computeAuditHmac fields auditKey) noUnsigned;
  mret tt.

(** [defaultAuditWriter] *)
Definition writeDeniedRow (input : DeniedRow) : M unit := withOrg (insertCapabilityDeniedRow input).

Section dampener.
Context (writer : DeniedRow -> M unit).

Definition onDampener (f : list (DampenerKey * DampenerEntry) -> list (DampenerKey * DampenerEntry)) : H unit :=
  modifyProcess (fun p => p <| pr_dampener ::= f |>).
Definition dampener : H (list (DampenerKey * DampenerEntry)) := gets (fun s => pr_dampener (sv_process s)).

Definition flushEntry (key : DampenerKey) : H unit :=
  entries ← dampener;
  match jsGet key entries with
  | None => mret tt
  | Some entry =>
      _ ← onDampener (jsDelete key);
      if de_suppressedCount entry <=? 0 then mret tt
      else
        let '(orgId, userId, capability) := key in
        db (writer (MkDeniedRow orgId userId capability (de_reasonCode entry) (de_suppressedCount entry)))
  end.

Definition evictOldestIfAtCapacity : H unit :=
  entries ← dampener;
  if jsSize entries <? AUDIT_DAMPEN_MAX_ENTRIES then mret tt
  else match entries with
       | [] => mret tt
       | (oldestKey, _) :: _ => flushEntry oldestKey
       end.

Definition isExpiredEntry (now : Date) (skipKey : DampenerKey) (kv : DampenerKey * DampenerEntry) : bool :=
  negb (kv.1 =? skipKey) && (AUDIT_DAMPEN_WINDOW_MS <=? now - de_windowStart kv.2).

Definition sweepExpired (now : Date) (skipKey : DampenerKey) : H unit :=
  entries ← dampener;
  forEachInOrder (map fst (List.filter (isExpiredEntry now skipKey) entries)) flushEntry.

Definition recordCapabilityDeniedAudit (orgId userId : Uuid) (capability reasonCode : string) : H unit :=
  let key := (orgId, userId, capability) in
  now ← db newDate;
  _ ← sweepExpired now key;
  entries ← dampener;
  let existing := jsGet key entries in
  match existing with
  | Some entry =>
      if now - de_windowStart entry <? AUDIT_DAMPEN_WINDOW_MS then
        let touched := MkDampenerEntry (de_windowStart entry) (de_reasonCode entry) (de_suppressedCount entry + 1) in
        onDampener (fun m => jsPut key touched (jsDelete key m))
      else
        _ ← onDampener (jsDelete key);
        _ ← evictOldestIfAtCapacity;
        _ ← onDampener (jsPut key (MkDampenerEntry now reasonCode 0));
        db (writer (MkDeniedRow orgId userId capability reasonCode 0))
  | None =>
      _ ← onDampener (jsDelete key);
      _ ← evictOldestIfAtCapacity;
      _ ← onDampener (jsPut key (MkDampenerEntry now reasonCode 0));
      db (writer (MkDeniedRow orgId userId capability reasonCode 0))
  end.
End dampener.
End gate.
