(* ===== verification/GateTheorems.v ===== *)
(** * What capability gates guarantee

    A check is permitted only by an answer of the gate that says so, in time;
    the calls in flight of an organisation are bounded and nobody else's traffic
    counts; every denial is accounted for by the dampened audit, up to the
    counts the dampener drops and what a failed write of a row loses. *)

From S2P Require Import Prelude Js Crypto FieldSet AuthStore Store Tx QuotaGate AuditLog Notifications Frames Sessions JsMap RateLimit Server CapabilityGate.
From Stdlib Require Import Ascii String.
From stdpp Require Import strings pretty.

Local Open Scope string_scope.
Local Open Scope list_scope.
Local Open Scope pv_scope.

(** ** One check *)

Definition inFlightOf (key : string) (s : Server) : Z := default 0%Z (jsGet key (pr_inFlight (sv_process s))).

(** The gate, called with the context of the check, permits in time. *)
Definition gatePermits (gate : CapabilityGate) (context : CapabilityGateContext) (w : World) (timeoutMs : Z) : Prop :=
  exists ms answer, gate context w = resolves_after ms answer /\ (ms < timeoutMs)%Z /\
    capabilityDecisionSchema answer = Some parsed_permitted.

Lemma releaseSlot_acquired key max l l' :
  (forall k n, jsGet k l = Some n -> (0 < n)%Z) -> tryAcquireSlot key max l = (true, l') ->
  forall k, jsGet k (releaseSlot key l') = jsGet k l.
Proof.
  unfold tryAcquireSlot. intros Hpos E k. destruct (max <=? _); [done|]. simplify_eq.
  unfold releaseSlot. rewrite jsGet_set_eq. cbn [from_option id]. destruct (jsGet key l) as [n|] eqn:Ek; cbn [from_option id].
  - specialize (Hpos key n Ek). rewrite bool_decide_eq_false_2 by lia. destruct (decide (k = key)) as [->|Hk].
    + rewrite jsGet_set_eq, Ek. f_equal. lia.
    + by rewrite !jsGet_set_ne.
  - rewrite bool_decide_eq_true_2 by lia. destruct (decide (k = key)) as [->|Hk].
    + by rewrite jsGet_delete_eq.
    + by rewrite jsGet_delete_ne, jsGet_set_ne.
Qed.

Section gate.
Context `{Locale, Platform, NodeCrypto, Env, Postgres}.

Definition contextOf (input : CheckCapabilityInput) (w : World) : CapabilityGateContext :=
  MkCapabilityGateContext (cci_capability input) (cci_orgId input) (cci_userId input) (cci_orgRole input)
    (randomUuid (w_tick w)).

(** What resolving an outcome decides, and that it only counts. *)
Lemma resolveGateOutcome_spec outcome s :
  exists d c, resolveGateOutcome outcome s = (Ok d, s <| sv_process ::= fun p => p <| pr_counters := c |> |>) /\
    (d = cap_permitted <-> exists answer, outcome = race_resolved answer /\
       capabilityDecisionSchema answer = Some parsed_permitted) /\
    cgn_checks c = cgn_checks (pr_counters (sv_process s)) /\
    (cgn_permitted c + cgn_denied c
      = cgn_permitted (pr_counters (sv_process s)) + cgn_denied (pr_counters (sv_process s)) + 1)%Z.
Proof.
  destruct s as [w p r ph se cb]. destruct p as [rl g gn c fl da].
  destruct outcome as [answer| |m]; cbn -[Z.succ denial];
    [destruct (capabilityDecisionSchema answer) as [[|rc m]|] eqn:E; cbn -[Z.succ denial]|..];
    (do 2 eexists; split; [reflexivity|]; split; [|cbn; lia]).
  - split; [|done]. intros _. by exists answer.
  - split; [done|]. intros (a & Ha & Hp). congruence.
  - split; [done|]. intros (a & Ha & Hp). congruence.
  - split; [done|]. by intros (a & Ha & Hp).
  - split; [done|]. by intros (a & Ha & Hp).
Qed.

Lemma raceWithTimeout_resolved {A} (a : GateAttempt A) t v :
  raceWithTimeout a t = race_resolved v <-> exists ms, a = resolves_after ms v /\ (ms < t)%Z.
Proof.
  unfold raceWithTimeout. destruct a as [ms v'|ms m|]; [case_bool_decide as E..|];
    try (case_bool_decide as E'); split; try naive_solver.
Qed.

Definition afterCallId (w : World) : World := w <| w_tick ::= S |>.

Definition totals (s : Server) : Z * Z :=
  let c := pr_counters (sv_process s) in (cgn_checks c, cgn_permitted c + cgn_denied c)%Z.

Lemma checkCapability_spec gate input s
    (Hslots : forall k n, jsGet k (pr_inFlight (sv_process s)) = Some n -> (0 < n)%Z) :
  let key := accountingKeyFor (cci_surface input) (cci_orgId input) in
  exists d s', checkCapability gate input s = (Ok d, s') /\
    (d = cap_permitted <->
       (cci_extensionRouteCapability input = true \/ cci_capability input ∈ CapabilityId) /\
       (inFlightOf key s < default CAPABILITY_GATE_MAX_IN_FLIGHT_PER_SURFACE (cci_maxInFlightPerSurface input))%Z /\
       gatePermits gate (contextOf input (sv_world s)) (afterCallId (sv_world s))
         (default CAPABILITY_GATE_TIMEOUT_MS (cci_timeoutMs input))) /\
    (forall k, jsGet k (pr_inFlight (sv_process s')) = jsGet k (pr_inFlight (sv_process s))) /\
    sv_world s' = afterCallId (sv_world s) /\
    totals s' = (fst (totals s) + 1, snd (totals s) + 1)%Z /\
    (sv_reply s' = sv_reply s /\ sv_callbacks s' = sv_callbacks s /\ sv_phase s' = sv_phase s /\
     pr_gate (sv_process s') = pr_gate (sv_process s)).
Proof.
  intros key. destruct s as [w p r ph se cb]. destruct p as [rl g gn c fl da].
  unfold totals, inFlightOf in *. cbn [sv_world sv_process pr_inFlight pr_counters] in *.
  unfold checkCapability, count, checkForDoubleCheck. fold key.
  set (max := default _ (cci_maxInFlightPerSurface input)). set (t := default _ (cci_timeoutMs input)).
  erewrite (bind_db genRandomUuid) by reflexivity. do 2 h_step. set (s1 := setter _ _ _).
  destruct (negb _ && negb _) eqn:Eu.
  { apply andb_true_iff in Eu as [Ee Ek]. apply negb_true_iff in Ee, Ek. unfold isKnownCapabilityId in Ek.
    apply bool_decide_eq_false in Ek. do 2 eexists. split; [reflexivity|]. cbn.
    split; [|split; [done|split; [done|split; [f_equal; lia|done]]]]. split; [done|]. intros ([Hx|Hx] & _); [congruence|done]. }
  assert (Hk : cci_extensionRouteCapability input = true \/ cci_capability input ∈ CapabilityId).
  { apply andb_false_iff in Eu as [Eu|Eu]; apply negb_false_iff in Eu; [by left|right].
    by apply bool_decide_eq_true in Eu. }
  h_step. change (pr_inFlight (sv_process s1)) with fl.
  destruct (tryAcquireSlot key max fl) as [ok fl'] eqn:Ea. cbn [fst snd].
  assert (Hok : ok = true <-> (default 0%Z (jsGet key fl) < max)%Z).
  { unfold tryAcquireSlot in Ea. case_bool_decide; simplify_eq; split; intros; try done; lia. }
  destruct ok; cbn [negb]; cycle 1.
  { h_step. do 2 eexists. split; [reflexivity|]. cbn. split; [|split; [done|split; [done|split; [f_equal; lia|done]]]].
    split; [done|]. intros (_ & Hlt & _). by apply Hok in Hlt. }
  h_step. set (s2 := setter _ _ s1). unfold tryFinally, invokeGateWithTimeout. h_step.
  change (sv_world s2) with (afterCallId w). change (randomUuid _) with (randomUuid (w_tick w)).
  fold (contextOf input w).
  destruct (resolveGateOutcome_spec (raceWithTimeout (gate (contextOf input w) (afterCallId w)) t) s2)
    as (d & c' & E & Hd & Hc1 & Hc2). unfold afterCallId, contextOf in E |- *. cbn [sv_world] in E. rewrite E.
  exists d. eexists. split; [reflexivity|]. split.
  { rewrite Hd. setoid_rewrite raceWithTimeout_resolved. split.
    - intros (a & (ms & Ea' & Hms) & Hp). split; [done|]. split; [by apply Hok|]. by exists ms, a.
    - intros (_ & _ & ms & a & Ea' & Hms & Hp). exists a. split; [|done]. by exists ms. }
  split; [exact (releaseSlot_acquired _ _ _ _ Hslots Ea)|]. split; [done|]. cbn in Hc1, Hc2 |- *.
  split; [|done]. f_equal; [by rewrite Hc1; lia|rewrite Hc2; lia].
Qed.

(** C31: A check is permitted exactly when the capability is known, or an
    extension declares it, a slot of its organisation is free, and the gate
    answers in time with a decision that says so: a gate that throws, hangs or
    answers anything else denies.  Every check ends, gives its slot back,
    changes no data, and is counted once, as permitted or as denied. *)
Theorem gate_fails_closed gate input s
    (Hslots : forall k n, jsGet k (pr_inFlight (sv_process s)) = Some n -> (0 < n)%Z) :
  let key := accountingKeyFor (cci_surface input) (cci_orgId input) in
  exists d s', checkCapability gate input s = (Ok d, s') /\
    (d = cap_permitted <->
       (cci_extensionRouteCapability input = true \/ cci_capability input ∈ CapabilityId) /\
       (inFlightOf key s < default CAPABILITY_GATE_MAX_IN_FLIGHT_PER_SURFACE (cci_maxInFlightPerSurface input))%Z /\
       gatePermits gate (contextOf input (sv_world s)) (afterCallId (sv_world s))
         (default CAPABILITY_GATE_TIMEOUT_MS (cci_timeoutMs input))) /\
    (forall k, jsGet k (pr_inFlight (sv_process s')) = jsGet k (pr_inFlight (sv_process s))) /\
    sv_world s' = afterCallId (sv_world s) /\
    totals s' = (fst (totals s) + 1, snd (totals s) + 1)%Z.
Proof.
  intros key. destruct (checkCapability_spec gate input s Hslots) as (d & s' & E & Hd & Hin & Hw & Ht & _).
  by exists d, s'.
Qed.
End gate.

(** ** Checks that overlap *)

(** A check of another request can begin or end while a gate is running. *)
Inductive SlotEvent := check_begins (key : string) | check_ends (key : string).
Definition eventKey (e : SlotEvent) : string := match e with check_begins k | check_ends k => k end.

(** The keys of the checks that are running, and the accounting of the process. *)
Record Slots := MkSlots { sl_running : list string; sl_inFlight : list (string * Z) }.

Fixpoint removeOne (k : string) (l : list string) : list string :=
  match l with
  | [] => []
  | x :: l' => if x =? k then l' else x :: removeOne k l'
  end.

Definition slotStep (st : Slots) (e : SlotEvent) : Slots :=
  match e with
  | check_begins k =>
      let '(ok, l) := tryAcquireSlot k CAPABILITY_GATE_MAX_IN_FLIGHT_PER_SURFACE (sl_inFlight st) in
      if ok : bool then MkSlots (k :: sl_running st) l else st
  | check_ends k =>
      if k ∈? sl_running st then MkSlots (removeOne k (sl_running st)) (releaseSlot k (sl_inFlight st)) else st
  end.

Definition runSlots (events : list SlotEvent) : Slots := foldl slotStep (MkSlots [] []) events.

Definition occurrences (k : string) (l : list string) : Z := Z.of_nat (length (List.filter (fun x => x =? k) l)).

Lemma occurrences_nonneg k l : (0 <= occurrences k l)%Z.
Proof. unfold occurrences. lia. Qed.

Lemma occurrences_cons k x l : occurrences k (x :: l) = ((if decide (x = k) then 1 else 0) + occurrences k l)%Z.
Proof. unfold occurrences. cbn. destruct (decide _); [rewrite bool_decide_eq_true_2|rewrite bool_decide_eq_false_2]; cbn; lia || done. Qed.

Lemma occurrences_elem k l : k ∈ l <-> (0 < occurrences k l)%Z.
Proof.
  induction l as [|x l IH].
  { split; [intros H; inversion H|done]. }
  rewrite occurrences_cons, elem_of_cons, IH. pose proof (occurrences_nonneg k l).
  destruct (decide (x = k)); naive_solver lia.
Qed.

Lemma occurrences_remove k j l :
  j ∈ l -> occurrences k (removeOne j l) = (occurrences k l - if decide (j = k) then 1 else 0)%Z.
Proof.
  induction l as [|x l IH]; [intros Hj; inversion Hj|]. intros Hj. cbn [removeOne].
  destruct (decide (x = j)) as [->|Hx].
  - rewrite bool_decide_eq_true_2, occurrences_cons by done. lia.
  - rewrite bool_decide_eq_false_2, !occurrences_cons by done.
    apply elem_of_cons in Hj as [->|Hj]; [done|]. rewrite IH by done. lia.
Qed.

(** The accounting is the number of running checks, an entry only while it is not zero. *)
Definition SlotsOk (st : Slots) : Prop := forall k,
  (occurrences k (sl_running st) <= CAPABILITY_GATE_MAX_IN_FLIGHT_PER_SURFACE)%Z /\
  jsGet k (sl_inFlight st) =
    if decide (occurrences k (sl_running st) = 0)%Z then None else Some (occurrences k (sl_running st)).

Lemma SlotsOk_default st k : SlotsOk st -> default 0%Z (jsGet k (sl_inFlight st)) = occurrences k (sl_running st).
Proof. intros Hok. destruct (Hok k) as [_ ->]. by destruct (decide _). Qed.

Lemma slotStep_ok st e : SlotsOk st -> SlotsOk (slotStep st e).
Proof.
  intros Hok. destruct e as [j|j]; cbn [slotStep].
  - unfold tryAcquireSlot. rewrite (SlotsOk_default _ _ Hok). case_bool_decide as E; [done|].
    intros k. destruct (Hok k) as [Hb Hg]. cbn [sl_running sl_inFlight]. rewrite occurrences_cons.
    pose proof (occurrences_nonneg k (sl_running st)). destruct (decide (j = k)) as [->|Hj].
    + split; [lia|]. rewrite jsGet_set_eq, decide_False by lia. f_equal. lia.
    + rewrite Z.add_0_l, jsGet_set_ne by done. done.
  - case_bool_decide as E; [|done]. intros k. cbn [sl_running sl_inFlight].
    rewrite occurrences_remove by done. destruct (Hok k) as [Hb Hg].
    unfold releaseSlot. rewrite (SlotsOk_default _ _ Hok). apply occurrences_elem in E.
    destruct (decide (j = k)) as [->|Hj].
    + split; [lia|]. case_bool_decide.
      * rewrite jsGet_delete_eq, decide_True by lia. done.
      * rewrite jsGet_set_eq, decide_False by lia. done.
    + rewrite Z.sub_0_r. split; [done|]. case_bool_decide;
        [rewrite jsGet_delete_ne by done|rewrite jsGet_set_ne by done]; done.
Qed.

Lemma runSlots_ok events : SlotsOk (runSlots events).
Proof.
  unfold runSlots. assert (H0 : SlotsOk (MkSlots [] [])) by (by intros k).
  revert H0. generalize (MkSlots [] []). induction events as [|e l IH]; intros st H0; cbn; [done|].
  apply IH. by apply slotStep_ok.
Qed.

(** What a check of another key does is not seen from this one. *)
Lemma slotStep_other k st st' e :
  SlotsOk st -> SlotsOk st' -> occurrences k (sl_running st) = occurrences k (sl_running st') ->
  occurrences k (sl_running (slotStep st e)) =
    if eventKey e =? k then occurrences k (sl_running (slotStep st' e)) else occurrences k (sl_running st).
Proof.
  intros Hok Hok' Heq. destruct e as [j|j]; cbn [slotStep eventKey]; unfold tryAcquireSlot.
  - rewrite (SlotsOk_default _ j Hok), (SlotsOk_default _ j Hok'). destruct (decide (j = k)) as [->|Hj].
    + rewrite (bool_decide_eq_true_2 (k = k)) by done. rewrite Heq. case_bool_decide; cbn -[occurrences]; [done|].
      rewrite !occurrences_cons. lia.
    + rewrite (bool_decide_eq_false_2 (j = k)) by done. case_bool_decide; cbn -[occurrences]; [done|].
      rewrite occurrences_cons, decide_False by done. lia.
  - destruct (decide (j = k)) as [->|Hj].
    + rewrite (bool_decide_eq_true_2 (k = k)) by done. case_bool_decide as E1; case_bool_decide as E2;
        cbn [sl_running]; rewrite ?occurrences_remove by done; rewrite ?Heq; try done;
        rewrite occurrences_elem in E1, E2; lia.
    + rewrite (bool_decide_eq_false_2 (j = k)) by done. case_bool_decide; cbn [sl_running]; [|done].
      rewrite occurrences_remove by done. rewrite decide_False by done. lia.
Qed.

(** However checks overlap, at most [CAPABILITY_GATE_MAX_IN_FLIGHT_PER_SURFACE]
    gates run at once for an organisation; the accounting holds an entry
    exactly for the keys with a running check; and the checks of one key are
    admitted as if no other key existed: no flood of unauthenticated requests
    changes the decision of an organisation. *)
Theorem gate_slots_bounded_and_isolated events key :
  (occurrences key (sl_running (runSlots events)) <= CAPABILITY_GATE_MAX_IN_FLIGHT_PER_SURFACE)%Z /\
  (is_Some (jsGet key (sl_inFlight (runSlots events))) <-> key ∈ sl_running (runSlots events)) /\
  occurrences key (sl_running (runSlots events)) =
    occurrences key (sl_running (runSlots (List.filter (fun e => eventKey e =? key) events))).
Proof.
  destruct (runSlots_ok events key) as [Hb Hg]. split; [done|]. split.
  { rewrite Hg, occurrences_elem. pose proof (occurrences_nonneg key (sl_running (runSlots events))).
    destruct (decide _) as [E|E]; split; [by intros []|lia|lia|by eexists]. }
  clear Hb Hg. unfold runSlots. assert (H0 : SlotsOk (MkSlots [] [])) by (by intros k).
  enough (G : forall st st', SlotsOk st -> SlotsOk st' ->
    occurrences key (sl_running st) = occurrences key (sl_running st') ->
    occurrences key (sl_running (foldl slotStep st events)) =
    occurrences key (sl_running (foldl slotStep st' (List.filter (fun e => eventKey e =? key) events)))) by (by apply G).
  clear H0. induction events as [|e l IH]; intros st st' Hok Hok' Heq; cbn; [done|].
  pose proof (slotStep_other key st st' e Hok Hok' Heq) as Hs.
  destruct (eventKey e =? key); cbn; apply IH; auto using slotStep_ok. by rewrite Hs.
Qed.

(** ** The dampened audit *)

Definition pendingCount (m : list (DampenerKey * DampenerEntry)) : Z :=
  foldr (fun kv n => (de_suppressedCount kv.2 + n)%Z) 0%Z m.

Definition suppressedOf (key : DampenerKey) (m : list (DampenerKey * DampenerEntry)) : Z :=
  match jsGet key m with Some e => de_suppressedCount e | None => 0 end.

(** The count of the denied tuple's own window, when that window is over: nobody writes it. *)
Definition droppedCount (key : DampenerKey) (now : Date) (m : list (DampenerKey * DampenerEntry)) : Z :=
  match jsGet key m with
  | Some e => if now - de_windowStart e <? AUDIT_DAMPEN_WINDOW_MS then 0 else de_suppressedCount e
  | None => 0
  end.

Record DampenerOk (m : list (DampenerKey * DampenerEntry)) : Prop := {
  dk_keys : NoDup (jsKeys m);
  dk_counts : Forall (fun kv => (0 <= de_suppressedCount kv.2)%Z) m;
  dk_size : (jsSize m <= AUDIT_DAMPEN_MAX_ENTRIES)%Z;
}.

Lemma pendingCount_cons kv m : pendingCount (kv :: m) = (de_suppressedCount kv.2 + pendingCount m)%Z.
Proof. done. Qed.

Lemma pendingCount_delete key m :
  NoDup (jsKeys m) -> pendingCount (jsDelete key m) = (pendingCount m - suppressedOf key m)%Z.
Proof.
  unfold suppressedOf, jsDelete. induction m as [|[k e] m IH]; [done|]. intros Hd. cbn in Hd.
  apply NoDup_cons in Hd as [Hn Hd]. cbn [jsGet List.filter fst]. destruct (decide (k = key)) as [->|Hk].
  - rewrite bool_decide_eq_true_2 by done. cbn [negb]. rewrite IH by done.
    assert (E : jsGet key m = None) by (by apply jsGet_None). rewrite E, pendingCount_cons. cbn [snd]. lia.
  - rewrite bool_decide_eq_false_2 by done. cbn [negb]. rewrite !pendingCount_cons, IH by done. cbn [snd]. lia.
Qed.

Lemma pendingCount_set_new key e m : jsGet key m = None -> pendingCount (jsPut key e m) = (pendingCount m + de_suppressedCount e)%Z.
Proof.
  induction m as [|[k x] m IH]; intros Hn; [cbn; lia|]. cbn [jsGet jsPut] in *. case_bool_decide; [done|].
  rewrite !pendingCount_cons, IH by done. lia.
Qed.

Lemma pendingCount_nonneg m : Forall (fun kv => (0 <= de_suppressedCount kv.2)%Z) m -> (0 <= pendingCount m)%Z.
Proof. induction 1; [done|]. rewrite pendingCount_cons. lia. Qed.

Lemma DampenerOk_delete key m : DampenerOk m -> DampenerOk (jsDelete key m).
Proof.
  intros [Hk Hc Hs]. split.
  - by apply NoDup_filter_keys.
  - apply Forall_forall. intros x [_ Hx]%elem_of_lfilter. rewrite Forall_forall in Hc. by apply Hc.
  - unfold jsDelete. pose proof (jsSize_filter (fun kv : DampenerKey * DampenerEntry => negb (kv.1 =? key)) m). lia.
Qed.

Lemma Forall_jsPut {V} (P : V -> Prop) (key : DampenerKey) v (m : list (DampenerKey * V)) :
  Forall (fun kv => P kv.2) m -> P v -> Forall (fun kv => P kv.2) (jsPut key v m).
Proof.
  intros Hm Hv. induction Hm as [|[k x] m Hx Hm IH]; cbn; [by constructor|].
  case_bool_decide; constructor; done.
Qed.

Lemma DampenerOk_set key e m :
  DampenerOk m -> jsGet key m = None -> (0 <= de_suppressedCount e)%Z -> (jsSize m < AUDIT_DAMPEN_MAX_ENTRIES)%Z ->
  DampenerOk (jsPut key e m).
Proof.
  intros [Hk Hc Hs] Hn He Hlt. split.
  - by apply NoDup_set.
  - by apply (Forall_jsPut (fun e => (0 <= de_suppressedCount e)%Z)).
  - rewrite jsSize_set_new by done. lia.
Qed.

(** *** The default writer *)

(** How many denials a row of the log stands for, and how many the log has. *)
Definition suppressedIn (payload : Json) : Z :=
  match payloadText "suppressedCount" payload with
  | Some digits => Z.of_N (default 0%N (decimalValue 0 digits))
  | None => 0
  end.
Definition denialsOf (row : AuditRow) : Z :=
  if al_eventType row =? CAPABILITY_DENIED then Z.max 1 (suppressedIn (al_payload row)) else 0.
Definition denialsIn (rows : list AuditRow) : Z := foldr (fun r n => (denialsOf r + n)%Z) 0%Z rows.

Lemma denialsIn_snoc rows r : denialsIn (rows ++ [r]) = (denialsIn rows + denialsOf r)%Z.
Proof.
  induction rows as [|x rows IH]; [cbn; lia|].
  change (denialsOf x + denialsIn (rows ++ [r]) = denialsOf x + denialsIn rows + denialsOf r)%Z. lia.
Qed.

Lemma decimalValue_digit d acc s : (d < 10)%N -> decimalValue acc (String (pretty_N_char d) s) = decimalValue (acc * 10 + d) s.
Proof.
  intros Hd. assert (Hc : exists j, (j < 10)%nat /\ d = N.of_nat j) by (exists (N.to_nat d); lia).
  destruct Hc as (j & Hj & ->). do 10 (destruct j as [|j]; [reflexivity|]). lia.
Qed.

Lemma decimalValue_pretty_N n : decimalValue 0 (pretty n) = Some n.
Proof.
  unfold pretty, pretty_N. case_decide as Hz; [by rewrite Hz|].
  assert (Hgo : forall k x s, (N.to_nat x < k)%nat -> decimalValue 0 (pretty_N_go x s) = decimalValue x s); cycle 1.
  { by rewrite (Hgo (S (N.to_nat n))) by lia. }
  induction k as [|k IH]; intros x s Hk; [lia|]. destruct (decide (0 < x)%N) as [Hx|Hx].
  - rewrite pretty_N_go_step by done. assert (Hd : (x / 10 < x)%N) by (apply N.div_lt; lia).
    rewrite IH by lia. rewrite decimalValue_digit by (by apply N.mod_lt). f_equal.
    pose proof (N.div_mod x 10 ltac:(done)). lia.
  - assert (x = 0%N) as -> by lia. by rewrite pretty_N_go_0.
Qed.

Section accounting.
Context `{Locale, Platform, NodeCrypto, Env, Postgres}.

(** A writer writes its row or fails and leaves the ledger as it was. *)
Definition recordsOrFails (writer : DeniedRow -> M unit) (ledger : Db -> Z) : Prop := forall row w,
  wp (writer row) (fun o w' => ledger (w_db w') =
    (ledger (w_db w) + if o is Ok _ then Z.max 1 (dr_suppressedCount row) else 0)%Z) w.

Lemma denialsOf_denied id seq org project actor actorType resource type ip agent revealed version hmac created previous
    capability reasonCode suppressed :
  denialsOf (MkAuditRow id seq org project actor actorType CAPABILITY_DENIED resource type ip agent
    (JObj ([("capability", JStr capability); ("reasonCode", JStr reasonCode)]
           ++ if 0 <? suppressed then [("suppressedCount", JInt suppressed)] else [])) revealed version hmac created previous)
  = Z.max 1 suppressed.
Proof.
  destruct suppressed as [|p|p]; [reflexivity| |reflexivity].
  transitivity (Z.max 1 (Z.of_N (default 0%N (decimalValue 0 (pretty (N.pos p)))))); [reflexivity|].
  by rewrite decimalValue_pretty_N.
Qed.

Lemma writeDeniedRow_records : recordsOrFails writeDeniedRow (fun db => denialsIn (db_audit db)).
Proof.
  intros row w. unfold writeDeniedRow. apply wp_withOrg. set (w0 := _ <| w_now := _ |>).
  change (w_db w) with (w_db w0). generalize w0. clear w w0. intros w.
  enough (Hw : wp (insertCapabilityDeniedRow row) (fun o w' => forall a, o = Ok a ->
    denialsIn (db_audit (w_db w')) = (denialsIn (db_audit (w_db w)) + Z.max 1 (dr_suppressedCount row))%Z) w).
  { eapply wp_mono; [exact Hw|]. intros [a|e] w' Ha; [by apply (Ha a)|]. cbn. lia. }
  unfold insertCapabilityDeniedRow. apply wp_bind.
  eapply wp_mono; [apply (ltac:(unfold firstActorTokenIdForUser; read_only) : readOnly (firstActorTokenIdForUser (dr_userId row)))|].
  intros [token|e] w1 [n ->]; [|done]. apply wp_bind.
  eapply wp_mono; [apply (ltac:(unfold readAuditChainHead, currentAuditKeyVersion, getPreviousEntryHmac; read_only)
                            : readOnly (readAuditChainHead (dr_orgId row)))|].
  intros [[keyVersion previousHmac]|e] w1 [n1 ->]; [|done]. cbv beta iota zeta.
  set (payload := JObj _). apply wp_bind. eapply wp_mono; [apply gates_frame|]. intros [[]|e] w2 (n2 & usage & ->); [|done].
  unfold wp, getAuditKey, mbind, M_bind. destruct (w_auditKey _); [|done].
  unfold insertAuditRow, genRandomUuid, dbNow, nextChainSeq, insertRow, mbind, M_bind, mret, M_ret. cbv beta iota zeta.
  destruct (existsb _ _); [done|]. intros a _. cbn -[denialsIn denialsOf]. rewrite denialsIn_snoc. f_equal.
  unfold payload. apply denialsOf_denied.
Qed.

Section writer.
Context (writer : DeniedRow -> M unit) (ledger : Db -> Z) (Hwriter : recordsOrFails writer ledger).
Notation entriesOf s := (pr_dampener (sv_process s)).
Notation ledgerOf s := (ledger (w_db (sv_world s))).

(** The state of the dampener after a call, and what it wrote. *)
Definition moves (s s' : Server) (m : list (DampenerKey * DampenerEntry)) (n : Z) : Prop :=
  entriesOf s' = m /\ ledgerOf s' = (ledgerOf s + n)%Z.

Lemma db_writer row s : exists o s', db (writer row) s = (o, s') /\
  moves s s' (entriesOf s) (if o is Ok _ then Z.max 1 (dr_suppressedCount row) else 0).
Proof.
  pose proof (Hwriter row (sv_world s)) as Hw. unfold wp in Hw. unfold db.
  destruct (writer row (sv_world s)) as [o w']. by do 2 eexists.
Qed.

Lemma jsDelete_None {K V} `{EqDecision K} (k : K) (m : list (K * V)) : jsGet k m = None -> jsDelete k m = m.
Proof.
  unfold jsDelete. induction m as [|[k' v] m IH]; cbn; [done|]. case_bool_decide; [done|]. intros Hn. cbn. by rewrite IH.
Qed.

Lemma suppressedOf_nonneg key m : Forall (fun kv => (0 <= de_suppressedCount kv.2)%Z) m -> (0 <= suppressedOf key m)%Z.
Proof.
  intros Hc. unfold suppressedOf. destruct (jsGet key m) as [e|] eqn:E; [|done]. rewrite Forall_forall in Hc.
  exact (Hc _ (jsGet_elem _ _ _ E)).
Qed.

Lemma flushEntry_spec key s :
  DampenerOk (entriesOf s) ->
  exists o s', flushEntry writer key s = (o, s') /\
    moves s s' (jsDelete key (entriesOf s)) (if o is Ok _ then suppressedOf key (entriesOf s) else 0).
Proof.
  intros Hok. pose proof (suppressedOf_nonneg key _ (dk_counts _ Hok)) as He. unfold flushEntry, dampener, suppressedOf, moves in *. h_step.
  destruct (jsGet key (entriesOf s)) as [e|] eqn:E.
  - unfold onDampener. h_step. set (s1 := setter _ _ _). case_bool_decide.
    + exists (Ok tt), s1. split; [done|]. split; [done|]. change (ledgerOf s1) with (ledgerOf s). lia.
    + destruct key as [[u c] r]. destruct (db_writer (MkDeniedRow u c r (de_reasonCode e) (de_suppressedCount e)) s1)
        as (o & s' & Es & Hm & Hl). exists o, s'. split; [exact Es|]. split; [by rewrite Hm|]. rewrite Hl.
      change (ledgerOf s1) with (ledgerOf s). destruct o; [|done]. cbn [dr_suppressedCount]. lia.
  - exists (Ok tt), s. rewrite jsDelete_None by done. split; [done|]. split; [done|lia].
Qed.

(** Denials written plus denials waiting to be written. *)
Definition accounted (s : Server) : Z := (ledgerOf s + pendingCount (entriesOf s))%Z.

(** What a failed write may lose: no more than the count of one entry of another tuple. *)
Definition countOfAnother (key : DampenerKey) (s : Server) (lost : Z) : Prop :=
  exists k, k <> key /\ (0 <= lost <= suppressedOf k (entriesOf s))%Z.

(** Flushing other entries loses nothing, or the count of the one whose row cannot be written. *)
Record flushed (key : DampenerKey) (s : Server) (o : Outcome unit) (s' : Server) : Prop := {
  fl_ok : DampenerOk (entriesOf s');
  fl_accounted : match o with
                 | Ok _ => accounted s' = accounted s
                 | Throw _ => exists lost, accounted s' = (accounted s - lost)%Z /\ countOfAnother key s lost
                 end;
  fl_own : jsGet key (entriesOf s') = jsGet key (entriesOf s);
  fl_others : forall k, (suppressedOf k (entriesOf s') <= suppressedOf k (entriesOf s))%Z;
  fl_size : (jsSize (entriesOf s') <= jsSize (entriesOf s))%Z;
}.

Lemma flushed_refl key s : DampenerOk (entriesOf s) -> flushed key s (Ok tt) s.
Proof. by split. Qed.

Lemma flushed_trans key s s1 o s2 : flushed key s (Ok tt) s1 -> flushed key s1 o s2 -> flushed key s o s2.
Proof.
  intros [Hok1 Ha1 Ho1 Hk1 Hs1] [Hok2 Ha2 Ho2 Hk2 Hs2]. split; [done| |congruence| |lia].
  - destruct o as [u|e]; [congruence|]. destruct Ha2 as (lost & Ea & k & Hk & Hb). exists lost.
    split; [congruence|]. exists k. split; [done|]. specialize (Hk1 k). lia.
  - intros k. specialize (Hk1 k). specialize (Hk2 k). lia.
Qed.

Lemma flushEntry_flushed key k s :
  DampenerOk (entriesOf s) -> k <> key -> exists o s', flushEntry writer k s = (o, s') /\ flushed key s o s' /\
    entriesOf s' = jsDelete k (entriesOf s).
Proof.
  intros Hok Hk. destruct (flushEntry_spec k s Hok) as (o & s' & E & Hm & Hl). exists o, s'. split; [done|]. split; [|done].
  pose proof (suppressedOf_nonneg k _ (dk_counts _ Hok)) as Hpos. split.
  - rewrite Hm. by apply DampenerOk_delete.
  - unfold accounted. rewrite Hm, Hl, pendingCount_delete by apply Hok. destruct o; [lia|].
    exists (suppressedOf k (entriesOf s)). split; [lia|]. exists k. split; [done|lia].
  - rewrite Hm. by rewrite jsGet_delete_ne.
  - intros j. rewrite Hm. pose proof (suppressedOf_nonneg j _ (dk_counts _ Hok)) as Hj. unfold suppressedOf in *.
    destruct (decide (j = k)) as [->|Hjk]; [by rewrite jsGet_delete_eq|by rewrite jsGet_delete_ne].
  - rewrite Hm. unfold jsDelete. apply jsSize_filter.
Qed.

Lemma flushAll_flushed key ks : forall s,
  DampenerOk (entriesOf s) -> Forall (fun k => k <> key) ks ->
  exists o s', forEachInOrder ks (flushEntry writer) s = (o, s') /\ flushed key s o s'.
Proof.
  induction ks as [|k ks IH]; intros s Hok Hks; cbn [forEachInOrder].
  { exists (Ok tt), s. split; [done|]. by apply flushed_refl. }
  apply Forall_cons in Hks as [Hk Hks]. destruct (flushEntry_flushed key k s Hok Hk) as (o1 & s1 & E1 & F1 & _).
  destruct o1 as [[]|e]; [|exists (Throw e), s1; split; [by apply bind_throw|done]].
  destruct (IH s1 (fl_ok _ _ _ _ F1) Hks) as (o & s2 & E2 & F2). exists o, s2. split; [|by eapply flushed_trans].
  by rewrite (bind_ok _ _ _ _ _ E1).
Qed.

Lemma sweepExpired_flushed now key s :
  DampenerOk (entriesOf s) -> exists o s', sweepExpired writer now key s = (o, s') /\ flushed key s o s'.
Proof.
  intros Hok. unfold sweepExpired, dampener. h_step. apply flushAll_flushed; [done|].
  apply Forall_forall. intros k Hk. apply Prelude.elem_of_map in Hk as (kv & -> & Hkv).
  apply elem_of_lfilter in Hkv as [Hkv _]. unfold isExpiredEntry in Hkv. bool_simpl. done.
Qed.

Lemma evictOldest_flushed key s :
  DampenerOk (entriesOf s) -> jsGet key (entriesOf s) = None ->
  exists o s', evictOldestIfAtCapacity writer s = (o, s') /\ flushed key s o s' /\
    (jsSize (entriesOf s') < AUDIT_DAMPEN_MAX_ENTRIES)%Z.
Proof.
  intros Hok Hn. unfold evictOldestIfAtCapacity, dampener. h_step. case_bool_decide as Hs.
  { exists (Ok tt), s. split; [done|]. split; [by apply flushed_refl|done]. }
  destruct (entriesOf s) as [|[k e] m] eqn:E; [done|]. rewrite <- E in *.
  assert (Hk : k <> key). { intros ->. rewrite E in Hn. cbn in Hn. by rewrite bool_decide_eq_true_2 in Hn. }
  assert (Hg : jsGet k (entriesOf s) = Some e) by (rewrite E; cbn; by rewrite bool_decide_eq_true_2).
  destruct (flushEntry_flushed key k s Hok Hk) as (o & s' & Es & F & Hm). exists o, s'. split; [done|]. split; [done|].
  pose proof (jsDelete_size _ _ _ Hg). pose proof (dk_size _ Hok). rewrite Hm. lia.
Qed.

(** What a call leaves: the denial is accounted for, or the call failed and what it lost is bounded; [own]: the
    count of the tuple's own window, when that is over. *)
Definition recorded (key : DampenerKey) (own : Z) (s : Server) (o : Outcome unit) (s' : Server) : Prop :=
  DampenerOk (entriesOf s') /\
  match o with
  | Ok _ => accounted s' = (accounted s + 1 - own)%Z
  | Throw _ => exists lost own', accounted s' = (accounted s - lost - own')%Z /\ countOfAnother key s lost /\ (own' = 0 \/ own' = own)%Z
  end.

Lemma countOfAnother_zero key s : DampenerOk (entriesOf s) -> countOfAnother key s 0.
Proof.
  intros Hok. destruct key as [[o u] c]. exists (o, u, String "x" c). split.
  - intros [= E]. apply (f_equal String.length) in E. cbn in E. lia.
  - pose proof (suppressedOf_nonneg (o, u, String "x" c) _ (dk_counts _ Hok)). lia.
Qed.

(** The first denial of a window. *)
Lemma openWindow_spec orgId userId capability reasonCode now s :
  let key := (orgId, userId, capability) in
  DampenerOk (entriesOf s) ->
  exists o s',
    (_ ← onDampener (jsDelete key); _ ← evictOldestIfAtCapacity writer;
     _ ← onDampener (jsPut key (MkDampenerEntry now reasonCode 0));
     db (writer (MkDeniedRow orgId userId capability reasonCode 0))) s = (o, s') /\
    recorded key (suppressedOf key (entriesOf s)) s o s'.
Proof.
  intros key Hok. unfold onDampener. h_step. set (s1 := setter _ _ _).
  assert (Hok1 : DampenerOk (entriesOf s1)) by (by apply DampenerOk_delete).
  assert (Ha1 : accounted s1 = (accounted s - suppressedOf key (entriesOf s))%Z).
  { unfold accounted. change (ledgerOf s1) with (ledgerOf s). change (entriesOf s1) with (jsDelete key (entriesOf s)).
    rewrite pendingCount_delete by apply Hok. lia. }
  destruct (evictOldest_flushed key s1 Hok1) as (o2 & s2 & E2 & [Hok2 Ha Hown _ _] & Hsz); [apply jsGet_delete_eq|].
  destruct o2 as [[]|e].
  2: { exists (Throw e), s2. split; [by apply bind_throw|]. split; [done|]. destruct Ha as (lost & Ea & k & Hk & Hb).
    exists lost, (suppressedOf key (entriesOf s)). split; [lia|]. split; [|by right]. exists k. split; [done|].
    change (entriesOf s1) with (jsDelete key (entriesOf s)) in Hb. unfold suppressedOf in *. by rewrite jsGet_delete_ne in Hb. }
  rewrite (bind_ok _ _ _ _ _ E2). h_step. set (s3 := setter _ _ _).
  destruct (db_writer (MkDeniedRow orgId userId capability reasonCode 0) s3) as (o & s4 & E4 & Hm4 & Hl4).
  exists o, s4. split; [exact E4|].
  assert (Hn2 : jsGet key (entriesOf s2) = None) by (etransitivity; [exact Hown|apply jsGet_delete_eq]).
  split. { rewrite Hm4. by apply DampenerOk_set. }
  assert (Ha4 : accounted s4 = (accounted s - suppressedOf key (entriesOf s) + if o is Ok _ then 1 else 0)%Z).
  { unfold accounted in *. rewrite Hm4, Hl4. change (ledgerOf s3) with (ledgerOf s2).
    change (entriesOf s3) with (jsPut key (MkDampenerEntry now reasonCode 0) (entriesOf s2)).
    rewrite pendingCount_set_new by done. cbn [de_suppressedCount dr_suppressedCount]. destruct o; lia. }
  destruct o as [[]|e]; [lia|]. exists 0%Z, (suppressedOf key (entriesOf s)). split; [lia|].
  split; [by apply countOfAnother_zero|by right].
Qed.

Lemma recordCapabilityDenied_spec orgId userId capability reasonCode s :
  let key := (orgId, userId, capability) in
  DampenerOk (entriesOf s) ->
  exists o s', recordCapabilityDeniedAudit writer orgId userId capability reasonCode s = (o, s') /\
    recorded key (droppedCount key (clock (w_tick (sv_world s))) (entriesOf s)) s o s'.
Proof.
  intros key Hok. unfold recordCapabilityDeniedAudit. fold key.
  erewrite (bind_db newDate) by reflexivity. set (now := clock _). set (s0 := setter _ _ _).
  destruct (sweepExpired_flushed now key s0 Hok) as (o1 & s1 & E1 & [Hok1 Ha1 Hown1 Hk1 _]).
  change (accounted s0) with (accounted s) in Ha1. change (entriesOf s0) with (entriesOf s) in *.
  destruct o1 as [[]|e].
  2: { exists (Throw e), s1. split; [by apply bind_throw|]. split; [done|]. destruct Ha1 as (lost & Ea & Hl).
    exists lost, 0%Z. split; [lia|]. split; [exact Hl|by left]. }
  assert (Hopen : forall own, own = suppressedOf key (entriesOf s1) ->
    exists o s', (_ ← onDampener (jsDelete key); _ ← evictOldestIfAtCapacity writer;
       _ ← onDampener (jsPut key (MkDampenerEntry now reasonCode 0));
       db (writer (MkDeniedRow orgId userId capability reasonCode 0))) s1 = (o, s') /\ recorded key own s o s').
  { intros own ->. destruct (openWindow_spec orgId userId capability reasonCode now s1 Hok1) as (o & s' & E & Hok' & Ha).
    exists o, s'. split; [exact E|]. split; [done|]. fold key in Ha. destruct o as [[]|e]; [lia|].
    destruct Ha as (lost & own & Ea & (k & Hk & Hb) & Ho). exists lost, own. split; [lia|]. split; [|done].
    exists k. split; [done|]. specialize (Hk1 k). lia. }
  rewrite (bind_ok _ _ _ _ _ E1). unfold dampener. h_step.
  unfold droppedCount. rewrite <- Hown1. destruct (jsGet key (entriesOf s1)) as [e|] eqn:Ee; cycle 1.
  { apply Hopen. unfold suppressedOf. by rewrite Ee. }
  pose proof (suppressedOf_nonneg key _ (dk_counts _ Hok1)) as He. unfold suppressedOf in He. rewrite Ee in He.
  case_bool_decide; cycle 1. { apply Hopen. unfold suppressedOf. by rewrite Ee. }
  exists (Ok tt). eexists. split; [reflexivity|]. unfold recorded, accounted in *.
  cbn -[pendingCount]. set (touched := MkDampenerEntry _ _ _).
  assert (Hn : jsGet key (jsDelete key (entriesOf s1)) = None) by apply jsGet_delete_eq.
  pose proof (jsDelete_size _ _ _ Ee). pose proof (dk_size _ Hok1). split.
  - apply DampenerOk_set; [by apply DampenerOk_delete|done|cbn; lia|lia].
  - rewrite pendingCount_set_new, pendingCount_delete by (done || apply Hok1).
    unfold suppressedOf. rewrite Ee. subst touched. cbn [de_suppressedCount]. lia.
Qed.

(** Denials one after another; what a call throws is caught and logged. *)
Definition Denial : Type := Uuid * Uuid * string * string.
Definition recordDenial (d : Denial) : H unit :=
  let '(orgId, userId, capability, reasonCode) := d in
  tryCatch (recordCapabilityDeniedAudit writer orgId userId capability reasonCode) (fun _ => mret tt).
Fixpoint recordDenials (denials : list Denial) : H unit :=
  match denials with
  | [] => mret tt
  | d :: denials' => _ ← recordDenial d; recordDenials denials'
  end.

(** What such a run loses, denial by denial. *)
Inductive Lost : list Denial -> Server -> Z -> Server -> Prop :=
| lost_none s : Lost [] s 0 s
| lost_own orgId userId capability reasonCode denials s s1 n s2 :
    recordCapabilityDeniedAudit writer orgId userId capability reasonCode s = (Ok tt, s1) ->
    Lost denials s1 n s2 ->
    Lost ((orgId, userId, capability, reasonCode) :: denials) s
      (droppedCount (orgId, userId, capability) (clock (w_tick (sv_world s))) (entriesOf s) + n) s2
| lost_failed orgId userId capability reasonCode denials s e s1 lost own n s2 :
    recordCapabilityDeniedAudit writer orgId userId capability reasonCode s = (Throw e, s1) ->
    countOfAnother (orgId, userId, capability) s lost ->
    (own = 0 \/ own = droppedCount (orgId, userId, capability) (clock (w_tick (sv_world s))) (entriesOf s))%Z ->
    Lost denials s1 n s2 ->
    Lost ((orgId, userId, capability, reasonCode) :: denials) s (1 + lost + own + n) s2.

Lemma recordDenials_spec denials : forall s, DampenerOk (entriesOf s) ->
  exists lost s', recordDenials denials s = (Ok tt, s') /\ Lost denials s lost s' /\ DampenerOk (entriesOf s') /\
    accounted s' = (accounted s + Z.of_nat (length denials) - lost)%Z.
Proof.
  induction denials as [|[[[o u] c] r] denials IH]; intros s Hok.
  { exists 0%Z, s. split; [done|]. split; [constructor|]. split; [done|]. cbn. lia. }
  destruct (recordCapabilityDenied_spec o u c r s Hok) as (out & s1 & E1 & Hok1 & Ha1).
  assert (Er : recordDenial (o, u, c, r) s = (Ok tt, s1)).
  { unfold recordDenial, tryCatch. rewrite E1. by destruct out as [[]|e]. }
  destruct (IH s1 Hok1) as (n & s2 & E2 & Hl2 & Hok2 & Ha2). destruct out as [[]|e].
  - eexists _, s2. split; [cbn [recordDenials]; by rewrite (bind_ok _ _ _ _ _ Er)|].
    split; [by eapply lost_own|]. split; [done|]. cbn [length]. lia.
  - destruct Ha1 as (lost & own & Ea & Hc & Ho). eexists _, s2.
    split; [cbn [recordDenials]; by rewrite (bind_ok _ _ _ _ _ Er)|].
    split; [by eapply lost_failed|]. split; [done|]. cbn [length]. lia.
Qed.
End writer.

(** C32: The dampened audit of the routes accounts for every denial: whatever denials are recorded one after another,
    the denials that the rows of the audit log stand for and those waiting in the dampener's entries are all of them,
    less what the calls lose, each call as follows.  A call that does not throw loses only the count of its own
    tuple's window, when that window is over, which nobody writes.  A call that throws, because the default writer
    cannot write a row (quota, rate, sealed vault), loses besides the denial at hand and at most the count of the one
    entry of another tuple whose row failed.  It never tracks more than [AUDIT_DAMPEN_MAX_ENTRIES] tuples. *)
Theorem denials_accounted denials s (Hok : DampenerOk (pr_dampener (sv_process s))) :
  let ledger := fun db => denialsIn (db_audit db) in
  exists lost s', recordDenials writeDeniedRow denials s = (Ok tt, s') /\ Lost writeDeniedRow denials s lost s' /\
    DampenerOk (pr_dampener (sv_process s')) /\
    accounted ledger s' = (accounted ledger s + Z.of_nat (length denials) - lost)%Z.
Proof. intros ledger. apply (recordDenials_spec writeDeniedRow ledger); [apply writeDeniedRow_records|done]. Qed.
End accounting.
