(* ===== verification/AuditPayload.v ===== *)
(** * Payloads of the default audit entry: the sanitizer of lib/secure-route.ts

    A payload is a graph of JavaScript objects and arrays: a value is a
    primitive or a reference into a heap, so that sharing and cycles are what
    they are in the source.  The sanitizer drops the members with a forbidden
    key at every depth and replaces an object it has seen by a text. *)

From S2P Require Import Prelude Js FieldSet JsMap.
From Stdlib Require Import Ascii String.
From stdpp Require Import strings.

Local Open Scope string_scope.
Local Open Scope list_scope.
Local Open Scope pv_scope.

(** ** Object graphs *)

Inductive Value := v_null | v_bool (b : bool) | v_number (lexeme : string) | v_string (s : string) | v_ref (loc : N).
Inductive Cell := cell_array (items : list Value) | cell_object (members : list (string * Value)).
Definition Heap : Type := list (N * Cell).

(** ** Keys *)

Definition FORBIDDEN_AUDIT_KEYS : list string :=
  ["password"; "passphrase"; "masterKeyPath"; "envelopeKeyPath"; "secret"; "value"; "authorization"; "cookie";
   "accessToken"; "refreshToken"; "totp"; "recoveryCode"; "apiKey"].

(** [s.includes(t)] *)
Fixpoint includes (s t : string) : bool :=
  String.prefix t s || match s with EmptyString => false | String _ s' => includes s' t end.

Section sanitize.
Context `{Unicode}.

Definition isForbiddenAuditKey (key : string) : bool :=
  let normalized := toLowerCase key in
  existsb (fun forbidden => includes normalized (toLowerCase forbidden)) FORBIDDEN_AUDIT_KEYS.

(** [items.map(...)]: the set of seen objects goes through the calls in order; [None]: no result yet. *)
Fixpoint mapSeen (f : Value -> list N -> option (Json * list N)) (items : list Value) (seen : list N)
    : option (list Json * list N) :=
  match items with
  | [] => Some ([], seen)
  | v :: items' =>
      '(j, seen) ← f v seen; '(js, seen) ← mapSeen f items' seen; Some (j :: js, seen)
  end.

(** [Object.entries(value).filter(...).map(...)], then [Object.fromEntries] *)
Fixpoint sanitizeMembers (f : Value -> list N -> option (Json * list N)) (members : list (string * Value))
    (seen : list N) : option (list (string * Json) * list N) :=
  match members with
  | [] => Some ([], seen)
  | (key, v) :: members' =>
      if isForbiddenAuditKey key then sanitizeMembers f members' seen
      else '(j, seen) ← f v seen; '(ms, seen) ← sanitizeMembers f members' seen; Some ((key, j) :: ms, seen)
  end.

(** The depth of the recursion is bounded by [fuel]; [None] when it is not enough. *)
Fixpoint sanitizeAuditValue (fuel : nat) (heap : Heap) (value : Value) (seen : list N) : option (Json * list N) :=
  match fuel with
  | O => None
  | S fuel' =>
      match value with
      | v_null => Some (JNull, seen)
      | v_bool b => Some (JBool b, seen)
      | v_number l => Some (JNum l, seen)
      | v_string s => Some (JStr s, seen)
      | v_ref loc =>
          match jsGet loc heap with
          | None => None
          | Some (cell_array items) =>
              '(js, seen) ← mapSeen (sanitizeAuditValue fuel' heap) items seen; Some (JArr js, seen)
          | Some (cell_object members) =>
              if loc ∈? seen then Some (JStr "[Circular]", seen)
              else
                '(ms, seen) ← sanitizeMembers (sanitizeAuditValue fuel' heap) members (loc :: seen);
                Some (JObj ms, seen)
          end
      end
  end.

Definition sanitizeAuditPayload (fuel : nat) (heap : Heap) (members : list (string * Value)) : option (list (string * Json)) :=
  fst <$> sanitizeMembers (sanitizeAuditValue fuel heap) members [].

(** ** No forbidden key is left *)

Fixpoint clean (j : Json) : bool :=
  match j with
  | JArr items => forallb clean items
  | JObj members => forallb (fun kv => negb (isForbiddenAuditKey kv.1) && clean kv.2) members
  | _ => true
  end.

Definition cleanResults (f : Value -> list N -> option (Json * list N)) : Prop :=
  forall v seen j seen', f v seen = Some (j, seen') -> clean j = true.

Lemma mapSeen_clean f items : cleanResults f -> forall seen js seen',
  mapSeen f items seen = Some (js, seen') -> forallb clean js = true.
Proof.
  intros Hf. induction items as [|v items IH]; cbn; intros seen js seen' E; [by simplify_eq|].
  destruct (f v seen) as [[j s1]|] eqn:E1; [|done]. cbn in E.
  destruct (mapSeen f items s1) as [[js' s2]|] eqn:E2; [|done]. cbn in E. simplify_eq. cbn.
  by rewrite (Hf _ _ _ _ E1), (IH _ _ _ E2).
Qed.

Lemma sanitizeMembers_clean f members : cleanResults f -> forall seen ms seen',
  sanitizeMembers f members seen = Some (ms, seen') -> clean (JObj ms) = true.
Proof.
  intros Hf. induction members as [|[k v] members IH]; cbn [sanitizeMembers]; intros seen ms seen' E; [by simplify_eq|].
  destruct (isForbiddenAuditKey k) eqn:Ek; [exact (IH _ _ _ E)|].
  destruct (f v seen) as [[j s1]|] eqn:E1; [|done]. cbn in E.
  destruct (sanitizeMembers f members s1) as [[ms' s2]|] eqn:E2; [|done]. cbn in E. simplify_eq.
  cbn [clean forallb fst snd]. rewrite Ek, (Hf _ _ _ _ E1). exact (IH _ _ _ E2).
Qed.

Lemma sanitizeAuditValue_clean fuel heap : cleanResults (sanitizeAuditValue fuel heap).
Proof.
  induction fuel as [|fuel IH]; intros v seen j seen' E; [done|]. cbn in E.
  destruct v as [|b|l|s|loc]; try by simplify_eq. destruct (jsGet loc heap) as [[items|members]|]; [..|done].
  - destruct (mapSeen _ _ _) as [[js s1]|] eqn:E1; [|done]. cbn in E. simplify_eq. cbn.
    exact (mapSeen_clean _ _ IH _ _ _ E1).
  - case_bool_decide; [by simplify_eq|].
    destruct (sanitizeMembers _ _ _) as [[ms s1]|] eqn:E1; [|done]. cbn in E. simplify_eq.
    exact (sanitizeMembers_clean _ _ IH _ _ _ E1).
Qed.

Lemma sanitizeAuditPayload_clean fuel heap members ms :
  sanitizeAuditPayload fuel heap members = Some ms -> clean (JObj ms) = true.
Proof.
  unfold sanitizeAuditPayload. destruct (sanitizeMembers _ _ _) as [[ms' s]|] eqn:E; [|done].
  cbn. intros [= <-]. exact (sanitizeMembers_clean _ _ (sanitizeAuditValue_clean _ _) _ _ _ E).
Qed.

(** ** The sanitizer ends *)

(** References are to cells of the heap. *)
Definition validValue (heap : Heap) (v : Value) : Prop :=
  match v with v_ref loc => is_Some (jsGet loc heap) | _ => True end.

Definition cellValues (c : Cell) : list Value :=
  match c with cell_array items => items | cell_object members => map snd members end.

Definition validHeap (heap : Heap) : Prop :=
  forall loc c, jsGet loc heap = Some c -> Forall (validValue heap) (cellValues c).

(** No cycle goes through arrays alone: arrays have a rank above the arrays they hold. *)
Definition arraysRanked (heap : Heap) (rank : N -> nat) : Prop :=
  forall loc items loc' items', jsGet loc heap = Some (cell_array items) -> v_ref loc' ∈ items ->
    jsGet loc' heap = Some (cell_array items') -> (rank loc' < rank loc)%nat.

(** The objects that were not seen. *)
Definition unseen (heap : Heap) (seen : list N) : nat :=
  length (List.filter (fun kv => match kv.2 with cell_object _ => negb (kv.1 ∈? seen) | _ => false end) heap).

Definition arrayRank (heap : Heap) (rank : N -> nat) (v : Value) : nat :=
  match v with
  | v_ref loc => match jsGet loc heap with Some (cell_array _) => S (rank loc) | _ => O end
  | _ => O
  end.

Lemma unseen_mono heap seen seen' : seen ⊆ seen' -> (unseen heap seen' <= unseen heap seen)%nat.
Proof.
  intros Hs. unfold unseen. induction heap as [|[l c] heap IH]; cbn; [done|].
  destruct c; [done|]. destruct (decide (l ∈ seen)) as [Hl|Hl].
  - rewrite !bool_decide_eq_true_2; [done|auto..].
  - rewrite (bool_decide_eq_false_2 (l ∈ seen)) by done. case_bool_decide; cbn; lia.
Qed.

Lemma unseen_cons heap seen loc members :
  jsGet loc heap = Some (cell_object members) -> loc ∉ seen -> (unseen heap (loc :: seen) < unseen heap seen)%nat.
Proof.
  intros Hg Hn. apply jsGet_elem in Hg. unfold unseen.
  induction heap as [|[l c] heap IH]; [by apply not_elem_of_nil in Hg|].
  assert (Hm : forall h, (unseen h (loc :: seen) <= unseen h seen)%nat) by (intros h; apply unseen_mono; intros x Hx; by right).
  apply elem_of_cons in Hg as [E|Hg].
  - simplify_eq. cbn. rewrite bool_decide_eq_true_2 by left. rewrite bool_decide_eq_false_2 by done. cbn.
    specialize (Hm heap). unfold unseen in Hm. lia.
  - specialize (IH Hg). cbn. destruct c; [done|]. destruct (decide (l ∈ seen)) as [Hl|Hl].
    + rewrite !bool_decide_eq_true_2; [done|done|by right].
    + rewrite (bool_decide_eq_false_2 (l ∈ seen)) by done. case_bool_decide; cbn; lia.
Qed.

Section termination.
Context (heap : Heap) (rank : N -> nat) (R : nat).
Context (Hvalid : validHeap heap) (Hranked : arraysRanked heap rank).
Context (Hbound : forall loc items, jsGet loc heap = Some (cell_array items) -> (rank loc < R)%nat).

Definition fuelFor (seen : list N) (r : nat) : nat := unseen heap seen * S R + r.

Lemma fuelFor_mono seen seen' r : seen ⊆ seen' -> (fuelFor seen' r <= fuelFor seen r)%nat.
Proof. intros Hs. pose proof (unseen_mono heap _ _ Hs). unfold fuelFor. nia. Qed.

Lemma arrayRank_bound v : (arrayRank heap rank v <= R)%nat.
Proof.
  unfold arrayRank. destruct v as [| | | |loc]; try lia. destruct (jsGet loc heap) as [[items|ms]|] eqn:E; try lia.
  specialize (Hbound _ _ E). lia.
Qed.

(** A sanitizer that ends on the values of rank at most [r]. *)
Definition endsOn (f : Value -> list N -> option (Json * list N)) (seen0 : list N) (r : nat) : Prop :=
  forall v seen, validValue heap v -> (arrayRank heap rank v <= r)%nat -> seen0 ⊆ seen ->
    exists j seen', f v seen = Some (j, seen') /\ seen ⊆ seen'.

Lemma mapSeen_ends f seen0 r items : endsOn f seen0 r ->
  Forall (validValue heap) items -> Forall (fun v => (arrayRank heap rank v <= r)%nat) items ->
  forall seen, seen0 ⊆ seen -> exists js seen', mapSeen f items seen = Some (js, seen') /\ seen ⊆ seen'.
Proof.
  intros Hf. induction items as [|v items IH]; intros Hv Hr seen Hs; [by exists [], seen|].
  apply Forall_cons in Hv as [Hv Hvs]. apply Forall_cons in Hr as [Hr Hrs].
  destruct (Hf v seen Hv Hr Hs) as (j & s1 & E1 & H1).
  destruct (IH Hvs Hrs s1) as (js & s2 & E2 & H2); [by transitivity seen|].
  exists (j :: js), s2. cbn. rewrite E1. cbn. rewrite E2. split; [done|by transitivity s1].
Qed.

Lemma sanitizeMembers_ends f seen0 r members : endsOn f seen0 r ->
  Forall (validValue heap) (map snd members) -> Forall (fun v => (arrayRank heap rank v <= r)%nat) (map snd members) ->
  forall seen, seen0 ⊆ seen -> exists ms seen', sanitizeMembers f members seen = Some (ms, seen') /\ seen ⊆ seen'.
Proof.
  intros Hf. induction members as [|[k v] members IH]; intros Hv Hr seen Hs; [by exists [], seen|].
  cbn [map snd] in Hv, Hr. apply Forall_cons in Hv as [Hv Hvs]. apply Forall_cons in Hr as [Hr Hrs].
  cbn [sanitizeMembers]. destruct (isForbiddenAuditKey k); [by apply IH|].
  destruct (Hf v seen Hv Hr Hs) as (j & s1 & E1 & H1).
  destruct (IH Hvs Hrs s1) as (ms & s2 & E2 & H2); [by transitivity seen|].
  exists ((k, j) :: ms), s2. rewrite E1. cbn [mbind option_bind]. rewrite E2. split; [done|by transitivity s1].
Qed.

Lemma sanitizeAuditValue_ends fuel : forall v seen, validValue heap v ->
  (fuelFor seen (arrayRank heap rank v) < fuel)%nat ->
  exists j seen', sanitizeAuditValue fuel heap v seen = Some (j, seen') /\ seen ⊆ seen'.
Proof.
  induction fuel as [|fuel IH]; intros v seen Hv Hf; [lia|].
  destruct v as [|b|l|s|loc]; cbn [sanitizeAuditValue]; try by do 2 eexists.
  destruct Hv as [c Hc]. rewrite Hc. unfold arrayRank in Hf. rewrite Hc in Hf. pose proof (Hvalid _ _ Hc) as Hcell.
  destruct c as [items|members]; cbn [cellValues] in Hcell.
  - assert (He : endsOn (sanitizeAuditValue fuel heap) seen (rank loc)).
    { intros v' seen' Hv' Hr' Hs'. apply IH; [done|]. pose proof (fuelFor_mono _ _ (rank loc) Hs'). unfold fuelFor in *. lia. }
    destruct (mapSeen_ends _ _ _ items He Hcell) with (seen := seen) as (js & s & -> & Hs); [|done|by do 2 eexists].
    apply Forall_forall. intros [| | | |loc'] Hin; cbn; try lia.
    destruct (jsGet loc' heap) as [[items'|ms]|] eqn:E; try lia. by apply (Hranked loc items loc' items').
  - case_bool_decide as Hseen; [by do 2 eexists|].
    pose proof (unseen_cons heap seen loc members Hc Hseen) as Hless.
    assert (He : endsOn (sanitizeAuditValue fuel heap) (loc :: seen) R).
    { intros v' seen' Hv' Hr' Hs'. apply IH; [done|].
      pose proof (fuelFor_mono _ _ (arrayRank heap rank v') Hs'). unfold fuelFor in *. nia. }
    destruct (sanitizeMembers_ends _ _ _ members He Hcell) with (seen := loc :: seen) as (ms & s & -> & Hs); [|done|].
    { apply Forall_forall. intros v' _. apply arrayRank_bound. }
    do 2 eexists. split; [done|]. intros x Hx. apply Hs. by right.
Qed.
End termination.

(** C34: The sanitizer of audit payloads ends on every graph of objects and
    arrays in which no cycle goes through arrays alone, whatever is shared and
    however objects refer to each other, and what it returns has no member with
    a forbidden key at any depth. *)
Theorem sanitized_payload heap rank R members fuel
    (Hvalid : validHeap heap) (Hranked : arraysRanked heap rank)
    (Hbound : forall loc items, jsGet loc heap = Some (cell_array items) -> (rank loc < R)%nat)
    (Hmembers : Forall (validValue heap) (map snd members))
    (Hfuel : (S (length heap) * S R <= fuel)%nat) :
  exists ms, sanitizeAuditPayload fuel heap members = Some ms /\ clean (JObj ms) = true.
Proof.
  assert (He : endsOn heap rank (sanitizeAuditValue fuel heap) [] R).
  { intros v seen Hv Hr _. apply (sanitizeAuditValue_ends heap rank R Hvalid Hranked Hbound); [done|].
    assert (unseen heap seen <= length heap)%nat by apply List.filter_length_le. unfold fuelFor. nia. }
  destruct (sanitizeMembers_ends heap rank _ _ _ members He Hmembers) with (seen := @nil N) as (ms & s & E & _); [|done|].
  { apply Forall_forall. intros v _. by apply (arrayRank_bound heap rank R Hbound). }
  exists ms. assert (Es : sanitizeAuditPayload fuel heap members = Some ms)
    by (unfold sanitizeAuditPayload; by rewrite E).
  split; [done|]. exact (sanitizeAuditPayload_clean _ _ _ _ Es).
Qed.
End sanitize.
