(* ===== verification/SecureRoute.v ===== *)
(** * The route pipeline: lib/secure-route.ts, secure-route-project-role.ts,
      modules/projects/project-access.ts

    Every HTTP route of the server is registered through [secureRoute], and
    every request to it runs [handleSecureRouteRequest]: the guards, in order
    (platform operator or role, rate limit, MFA, capability), then one
    transaction in the caller's organisation with the guards on the project,
    the handler and the default audit entry, then the callbacks.  The handler
    is any computation: it is the argument the theorems quantify over.

    A route of an extension declares its own security; a delegated request
    comes with a context made by the delegation stages, which are not modelled. *)

From S2P Require Import Prelude Js Crypto FieldSet AuthStore Store Tx QuotaGate AuditLog Notifications Text Sessions Authenticate Mfa Login JsMap RateLimit Server CapabilityGate AuditPayload.
From Stdlib Require Import Ascii String.
From stdpp Require Import strings pretty.

Local Open Scope string_scope.
Local Open Scope list_scope.
Local Open Scope pv_scope.

(** ** Routes *)

Inductive HttpMethod := GET | HEAD | POST | PUT | PATCH | DELETE | OPTIONS.
#[export] Instance HttpMethod_eq_dec : EqDecision HttpMethod.
Proof. solve_decision. Defined.
Definition methodText (m : HttpMethod) : string :=
  match m with
  | GET => "GET" | HEAD => "HEAD" | POST => "POST" | PUT => "PUT" | PATCH => "PATCH" | DELETE => "DELETE"
  | OPTIONS => "OPTIONS"
  end.
Definition MUTATING_METHODS : list HttpMethod := [POST; PUT; PATCH; DELETE].

(** [request.authContext]: a delegated actor may have no role. *)
Record RouteAuth := MkRouteAuth {
  ra_userId : Uuid;
  ra_orgId : Uuid;
  ra_orgRole : option OrgRole;
  ra_isPlatformOperator : bool;
  ra_delegation : bool;
}.
Definition sessionAuth (c : AuthContext) : RouteAuth :=
  MkRouteAuth (actx_userId c) (actx_orgId c) (Some (actx_orgRole c)) (actx_isPlatformOperator c) false.

Record RouteRequest := MkRouteRequest {
  rr_ip : string;
  rr_userAgent : option string;
  rr_params : list (string * Json);
  rr_query : list (string * Json);
  rr_authContext : option RouteAuth;
  rr_delegationContext : bool;         (* whether the delegation stages set one *)
}.

Record AuditConfig := MkAuditConfig {
  ac_eventType : string;
  ac_resourceType : option string;
  ac_resourceIdFromParams : option string;
  ac_payload : option (list (string * Json) -> list (string * Json) -> Heap * list (string * Value));
}.

Inductive AuditSetting := audit_flag (on : bool) | audit_config (config : AuditConfig).
Inductive RateSetting := rate_off | rate_limit (max : Z) (timeWindowMs : option Z) (key : option string).

Record Security := MkSecurity {
  sec_requireAuth : option bool;
  sec_requireOrgScope : option bool;
  sec_minimumRole : option OrgRole;
  sec_allowedRoles : option (list OrgRole);
  sec_minimumProjectRole : option OrgRole;
  sec_includeDeletedProject : option bool;
  sec_requireMfa : option bool;
  sec_writeAuditEvent : option AuditSetting;
  sec_rateLimit : option RateSetting;
  sec_requirePlatformOperator : option bool;
  sec_capability : option string;
  sec_delegation : bool;                (* whether [normalizeDelegation] gives a configuration *)
}.
#[export] Instance Eta_Security : Eta Security := fun s =>
  MkSecurity (sec_requireAuth s) (sec_requireOrgScope s) (sec_minimumRole s) (sec_allowedRoles s)
    (sec_minimumProjectRole s) (sec_includeDeletedProject s) (sec_requireMfa s) (sec_writeAuditEvent s)
    (sec_rateLimit s) (sec_requirePlatformOperator s) (sec_capability s) (sec_delegation s).
Definition noSecurity : Security := MkSecurity None None None None None None None None None None None false.

(** What the handler is given; [rc_tx]: a transaction is. *)
Record RouteContext := MkRouteContext {
  rc_auth : option RouteAuth;
  rc_delegation : bool;
  rc_tx : bool;
  rc_audit : option (string * option string);
}.

(** What the handler returns: the reply object, or data to send ([None]: [undefined]). *)
Inductive HandlerValue := returned_reply | returned_data (data : option Json).

Definition Handler : Type := RouteContext -> H HandlerValue.
Definition AuditWriter : Type := RouteAuth -> RouteRequest -> AuditConfig -> H unit.

Record RouteOptions := MkRouteOptions {
  ro_method : HttpMethod;
  ro_url : string;
  ro_security : Security;
  ro_auditWriter : option AuditWriter;
  ro_handler : Handler;
}.
#[export] Instance Eta_RouteOptions : Eta RouteOptions := fun o =>
  MkRouteOptions (ro_method o) (ro_url o) (ro_security o) (ro_auditWriter o) (ro_handler o).

(** ** Roles *)

Definition roleRank (role : OrgRole) : Z :=
  match role with owner => 3 | admin => 2 | member => 1 | viewer => 0 end.

Definition declaresNoRoleRequirement (options : RouteOptions) : bool :=
  negb (match sec_allowedRoles (ro_security options) with Some (_ :: _) => true | _ => false end)
  && isNull (sec_minimumRole (ro_security options)).

Definition hasSufficientRole (auth : RouteAuth) (options : RouteOptions) : bool :=
  if ra_delegation auth && declaresNoRoleRequirement options then true
  else match ra_orgRole auth with
       | None => false
       | Some role =>
           match sec_allowedRoles (ro_security options) with
           | Some ((_ :: _) as allowedRoles) => role ∈? allowedRoles
           | _ => roleRank (default viewer (sec_minimumRole (ro_security options))) <=? roleRank role
           end
       end.

(** lib/auth-role.ts *)
Definition orgRoleOrDeny (auth : RouteAuth) : M OrgRole :=
  match ra_orgRole auth with Some r => mret r | None => throw (AppError "insufficient_role" 403) end.

(** ** modules/projects/project-access.ts *)

Definition isOrgAdminOrOwner (role : OrgRole) : bool := (role =? owner) || (role =? admin).

(** member-management.ts *)
Definition getProjectMembershipRole (orgId projectId userId : Uuid) : M (option OrgRole) :=
  membership ← selectFirst db_projectMemberships
    (fun m => (pmb_projectId m =? projectId) && (pmb_userId m =? userId) && (pmb_orgId m =? orgId));
  mret (pmb_role <$> membership).

Definition callerCanSeeProject (auth : RouteAuth) (projectId : Uuid) : M bool :=
  orgRole ← orgRoleOrDeny auth;
  if isOrgAdminOrOwner orgRole then mret true
  else
    role ← getProjectMembershipRole (ra_orgId auth) projectId (ra_userId auth);
    mret (isNotNull role).

Definition resolveEffectiveProjectRoleForOrgRole (orgRole : OrgRole) (membershipRole : option OrgRole) : OrgRole :=
  if isOrgAdminOrOwner orgRole then orgRole else default orgRole membershipRole.

(** A text that is no [uuid] matches no membership. *)
Definition effectiveProjectRoleForCaller (auth : RouteAuth) (projectId : string) : M OrgRole :=
  orgRole ← orgRoleOrDeny auth;
  match parseUuid projectId with
  | None => mret orgRole
  | Some pid =>
      if isOrgAdminOrOwner orgRole then mret orgRole
      else
        projectRole ← getProjectMembershipRole (ra_orgId auth) pid (ra_userId auth);
        mret (resolveEffectiveProjectRoleForOrgRole orgRole projectRole)
  end.

(** modules/projects/project-lifecycle.ts *)
Definition isProjectDeletedParam (projectId : string) : M bool :=
  match parseUuid projectId with
  | None => mret false
  | Some pid =>
      row ← selectFirst db_projects (fun p => (proj_id p =? pid) && isNotNull (proj_deletedAt p));
      mret (isNotNull row)
  end.

(** ** lib/secure-route-project-role.ts *)

Inductive ProjectRolePolicy := policy_pv | policy_extension | policy_extension_legacy.
#[export] Instance ProjectRolePolicy_eq_dec : EqDecision ProjectRolePolicy.
Proof. solve_decision. Defined.
Inductive ProjectRoleUngatedReason := declared_viewer | legacy_contract | unauthenticated.

Record ProjectRoleGate := MkProjectRoleGate {
  prg_minimumProjectRole : option OrgRole;
  prg_ungated : option ProjectRoleUngatedReason;
}.
Definition NO_GATE : ProjectRoleGate := MkProjectRoleGate None None.
Definition MEMBER_GATE : ProjectRoleGate := MkProjectRoleGate (Some member) None.

(** A segment of the path is [:projectId]. *)
Definition hasProjectIdParam (url : string) : bool := ":projectId" ∈? splitOn "/"%char url.

Definition ungatedFor (policy : ProjectRolePolicy) (reason : ProjectRoleUngatedReason) : ProjectRoleGate :=
  MkProjectRoleGate None (if policy =? policy_pv then None else Some reason).

Definition undeclaredGate (security : Security) (policy : ProjectRolePolicy) : ProjectRoleGate :=
  if sec_minimumProjectRole security =? Some viewer then ungatedFor policy declared_viewer
  else match policy with
       | policy_pv => MEMBER_GATE
       | policy_extension_legacy => ungatedFor policy legacy_contract
       | policy_extension =>
           if sec_requireAuth security =? Some false then ungatedFor policy unauthenticated else MEMBER_GATE
       end.

Definition resolveProjectRoleGate (method : HttpMethod) (url : string) (security : Security)
    (policy : ProjectRolePolicy) : ProjectRoleGate :=
  match sec_minimumProjectRole security with
  | Some ((owner | admin | member) as declared) => MkProjectRoleGate (Some declared) None
  | _ =>
      if (method ∈? MUTATING_METHODS) && hasProjectIdParam url then undeclaredGate security policy else NO_GATE
  end.

(** ** The resolved security of a route *)

Definition auditConfigFor (options : RouteOptions) : option AuditConfig :=
  let defaultConfig := MkAuditConfig (methodText (ro_method options) +:+ " " +:+ ro_url options) None None None in
  match sec_writeAuditEvent (ro_security options) with
  | Some (audit_flag false) => None
  | Some (audit_flag true) => Some defaultConfig
  | Some (audit_config c) => Some c
  | None => if ro_method options ∈? MUTATING_METHODS then Some defaultConfig else None
  end.

Record RateLimit := MkRateLimit { rlm_max : Z; rlm_timeWindowMs : option Z; rlm_key : string }.

Record ResolvedSecurity := MkResolvedSecurity {
  rs_requireAuth : bool;
  rs_requireOrgScope : bool;
  rs_rateLimit : option RateLimit;
  rs_rateLimitKeyIsDefault : bool;
  rs_extensionSecurity : bool;
  rs_delegation : bool;
  rs_minimumProjectRole : option OrgRole;
  rs_projectRoleUngated : option ProjectRoleUngatedReason;
}.

Definition resolveSecurity (options : RouteOptions) (defaultRateLimitKey : string) (policy : ProjectRolePolicy)
    : ResolvedSecurity :=
  let security := ro_security options in
  let requireAuth := negb (sec_requireAuth security =? Some false) in
  let rateLimit := default (rate_limit 60 (Some 60000%Z) None) (sec_rateLimit security) in
  let gate := resolveProjectRoleGate (ro_method options) (ro_url options) security policy in
  {| rs_requireAuth := requireAuth;
     rs_requireOrgScope := negb (sec_requireOrgScope security =? Some false) && requireAuth;
     rs_rateLimit := match rateLimit with
                     | rate_off => None
                     | rate_limit max window key => Some (MkRateLimit max window (default defaultRateLimitKey key))
                     end;
     rs_rateLimitKeyIsDefault := match rateLimit with rate_limit _ _ None => true | _ => false end;
     rs_extensionSecurity := negb (policy =? policy_pv);
     rs_delegation := sec_delegation security;
     rs_minimumProjectRole := prg_minimumProjectRole gate;
     rs_projectRoleUngated := prg_ungated gate |}.

(** ** Registration checks: the error of the boot, if any *)

Definition assertKnownCapabilityId (options : RouteOptions) : Outcome unit :=
  match sec_capability (ro_security options) with
  | Some c => if isKnownCapabilityId c then Ok tt
              else Throw (JsError ("SecureRoute: unknown capability id '" +:+ c +:+ "'"))
  | None => Ok tt
  end.

Definition assertCapabilityConfig (options : RouteOptions) (rs : ResolvedSecurity) : Outcome unit :=
  if negb (rs_extensionSecurity rs) then assertKnownCapabilityId options
  else if isNotNull (sec_capability (ro_security options)) && negb (rs_requireAuth rs)
  then Throw (JsError "SecureRoute: capability requires requireAuth")
  else Ok tt.

Definition assertProjectRoleConfig (options : RouteOptions) (rs : ResolvedSecurity) : Outcome unit :=
  if isNotNull (sec_minimumProjectRole (ro_security options)) && negb (hasProjectIdParam (ro_url options))
  then Throw (JsError "SecureRoute: minimumProjectRole requires a :projectId route parameter")
  else if isNotNull (rs_minimumProjectRole rs) && negb (rs_requireAuth rs)
  then Throw (JsError "SecureRoute: minimumProjectRole requires requireAuth")
  else Ok tt.

(** [hasAuthenticate]: [fastify.authenticate] is registered. *)
Definition assertSecureRouteConfig (hasAuthenticate : bool) (options : RouteOptions) (rs : ResolvedSecurity)
    : Outcome unit :=
  if rs_requireAuth rs && negb (rs_delegation rs) && negb hasAuthenticate
  then Throw (JsError "SecureRoute: requireAuth is true but fastify.authenticate is not registered")
  else if sec_allowedRoles (ro_security options) =? Some []
  then Throw (JsError "SecureRoute: allowedRoles must not be empty")
  else if negb (rs_requireOrgScope rs) && isNotNull (auditConfigFor options)
  then Throw (JsError "SecureRoute: writeAuditEvent requires requireOrgScope")
  else
    _ ← assertProjectRoleConfig options rs;
    assertCapabilityConfig options rs.

Definition assertDelegationConfig (options : RouteOptions) (rs : ResolvedSecurity) : Outcome unit :=
  let security := ro_security options in
  if negb (rs_delegation rs) then Ok tt
  else if (sec_requireMfa security =? Some true) || (sec_requirePlatformOperator security =? Some true)
          || (sec_requireAuth security =? Some false)
  then Throw (JsError "SecureRoute: delegation cannot be combined")
  else if isNotNull (auditConfigFor options) && isNull (ro_auditWriter options)
  then Throw (JsError "SecureRoute: a delegated route must set writeAuditEvent: false")
  else Ok tt.

(** [assertEffectiveConfig], less the prefix of the message *)
Definition assertEffectiveConfig (hasAuthenticate : bool) (options : RouteOptions) (rs : ResolvedSecurity)
    : Outcome unit :=
  _ ← assertDelegationConfig options rs;
  assertSecureRouteConfig hasAuthenticate options rs.

(** lib/secure-route-overrides.ts *)
Fixpoint endsWithSlash (s : string) : bool :=
  match s with
  | EmptyString => false
  | String c EmptyString => c =? "/"%char
  | String _ s' => endsWithSlash s'
  end.
Fixpoint dropLast (s : string) : string :=
  match s with
  | EmptyString => EmptyString
  | String c EmptyString => EmptyString
  | String c s' => String c (dropLast s')
  end.
Definition normalizeRouteUrl (prefix url : string) : string :=
  let joined := prefix +:+ url in
  if joined =? "" then "/"
  else if (1 <? jsLength joined) && endsWithSlash joined then dropLast joined else joined.
Definition routeKey (method : HttpMethod) (prefix url : string) : string :=
  methodText method +:+ " " +:+ normalizeRouteUrl prefix url.

(** A route as the server serves it. *)
Record BuiltRoute := MkBuiltRoute { br_key : string; br_options : RouteOptions; br_security : ResolvedSecurity }.

Definition registerBuiltRoute (hasAuthenticate : bool) (options : RouteOptions) (key : string)
    (policy : ProjectRolePolicy) : Outcome BuiltRoute :=
  let rs := resolveSecurity options key policy in
  _ ← assertEffectiveConfig hasAuthenticate options rs;
  mret (MkBuiltRoute key options rs).

(** An override of an extension: [replace] or [wrap] the handler, and maybe the security. *)
Inductive OverrideMode := mode_replace (handler : Handler) | mode_wrap (wrapper : H HandlerValue -> Handler).
Record RouteOverride := MkRouteOverride {
  ov_mode : OverrideMode;
  ov_replaceSecurity : option Security;
  ov_projectRolePolicy : ProjectRolePolicy;
}.

(** [next()] runs PV's handler with the same context. *)
Definition overriddenOptions (options : RouteOptions) (entry : RouteOverride) : RouteOptions :=
  options <| ro_handler := match ov_mode entry with
                           | mode_replace cm => cm
                           | mode_wrap cm => fun ctx => cm (ro_handler options ctx) ctx
                           end |>
          <| ro_security := default (ro_security options) (ov_replaceSecurity entry) |>.

Definition overridePolicy (entry : RouteOverride) : ProjectRolePolicy :=
  if isNotNull (ov_replaceSecurity entry) then ov_projectRolePolicy entry else policy_pv.

(** The per-app table of overrides, by key. *)
Definition secureRoute (hasAuthenticate : bool) (prefix : string) (overrides : list (string * RouteOverride))
    (options : RouteOptions) : Outcome (list BuiltRoute) :=
  let key := routeKey (ro_method options) prefix (ro_url options) in
  let headKey := routeKey HEAD prefix (ro_url options) in
  route ← match jsGet key overrides with
          | Some entry => registerBuiltRoute hasAuthenticate (overriddenOptions options entry) key (overridePolicy entry)
          | None => registerBuiltRoute hasAuthenticate options key policy_pv
          end;
  match (if ro_method options =? GET then jsGet headKey overrides else None) with
  | Some entry =>
      head ← registerBuiltRoute hasAuthenticate (overriddenOptions (options <| ro_method := HEAD |>) entry)
               headKey (overridePolicy entry);
      mret [route; head]
  | None => mret [route]
  end.

(** ** Requests *)

(** A fraction of a second the server adds to [Retry-After]. *)
Class Jitter := jitterMs : World -> Z.

Section pipeline.
Context `{Locale, Platform, NodeCrypto, Env, Unicode, OtpValidate, Passwords, JwtLibrary, ProcessEnv, Postgres, Jitter}.

(** *** The default audit entry *)

(** The first entry of the key, when it is a text. *)
Definition stringValueForKey (record : list (string * Json)) (key : string) : option string :=
  match jsGet key record with Some (JStr s) => Some s | _ => None end.

Definition RangeError : Exn := JsError "Maximum call stack size exceeded".

(** The HMAC is computed on the text of the identifier as the path has it. *)
Definition routeHmacObject (f : AuditLogEntryHmacFields) (resourceId : option string) : Json :=
  JObj ([("orgId", JUuid (hf_orgId f)); ("actorTokenId", JOptUuid (hf_actorTokenId f));
         ("actorType", JStr (hf_actorType f)); ("eventType", JStr (hf_eventType f))]
        ++ optionalMember "resourceId" (JStr <$> resourceId)
        ++ optionalMember "resourceType" (JStr <$> hf_resourceType f)
        ++ [("payload", hf_payload f); ("keyVersion", JInt (hf_keyVersion f));
            ("previousEntryHmac", JStr (hf_previousEntryHmac f))]).
Definition routeHmac (f : AuditLogEntryHmacFields) (resourceId : option string) (auditKey : string) : string :=
  hmacSha256Hex auditKey (stringify (sortKeys (routeHmacObject f resourceId))).

(** The depth the engine allows is more than any payload without a cycle of arrays needs. *)
Definition sanitizeFuel (heap : Heap) : nat := S (length heap) * S (length heap).

Definition auditPayload (config : AuditConfig) (params query : list (string * Json)) : M (list (string * Json)) :=
  match ac_payload config with
  | None => mret []
  | Some payload =>
      let '(heap, members) := payload params query in
      match sanitizeAuditPayload (sanitizeFuel heap) heap members with
      | Some ms => mret ms
      | None => throw RangeError
      end
  end.

(** The text is [""] or missing: no resource. *)
Definition auditResourceId (config : AuditConfig) (params : list (string * Json)) : M (option string) :=
  match ac_resourceIdFromParams config with
  | None => mret None
  | Some key =>
      if key =? "" then mret None else
      match stringValueForKey params key with
      | Some s => if s =? "" then throw (JsError "SecureRoute: missing audit resourceId param") else mret (Some s)
      | None => throw (JsError "SecureRoute: missing audit resourceId param")
      end
  end.

(** The column is a [uuid]. *)
Definition uuidColumn (text : option string) : M (option Uuid) :=
  match text with
  | None => mret None
  | Some s => match parseUuid s with
              | Some u => mret (Some u)
              | None => throw (JsError "invalid input syntax for type uuid")
              end
  end.

Definition writeDefaultAudit (auth : RouteAuth) (request : RouteRequest) (config : AuditConfig) : M unit :=
  members ← auditPayload config (rr_params request) (rr_query request);
  let payload := JObj members in
  resourceId ← auditResourceId config (rr_params request);
  actorTokenId ← firstActorTokenIdForUser (ra_userId auth);
  '(keyVersion, previousHmac) ← readAuditChainHead (ra_orgId auth);
  auditKey ← getAuditKey;
  let fields := {| hf_orgId := ra_orgId auth; hf_actorTokenId := actorTokenId; hf_actorType := "human";
                   hf_eventType := ac_eventType config; hf_resourceId := resourceId ≫= parseUuid;
                   hf_resourceType := ac_resourceType config; hf_payload := payload;
                   hf_keyVersion := keyVersion;
                   hf_previousEntryHmac := default GENESIS_SENTINEL previousHmac |} in
  let hmac := routeHmac fields resourceId auditKey in
  _ ← assertOrgMayWriteAuditGates (ra_orgId auth) (ac_eventType config)
        (estimateTextSizeBytes payload resourceId (ac_resourceType config) None);
  column ← uuidColumn resourceId;
  _ ← insertAuditRow fields column previousHmac hmac
        (noUnsigned <| un_ipAddress := Some (rr_ip request) |> <| un_userAgent := rr_userAgent request |>);
  mret tt.

Definition defaultAuditWriter : AuditWriter := fun auth request config => db (writeDefaultAudit auth request config).

(** *** Guards *)

Definition sendMissingAuth : H unit := sendError 401 "access_token_missing" "Access token is missing".
Definition sendInsufficientRole : H unit := sendError 403 "insufficient_role" "Insufficient permissions".
Definition sendPlatformOperatorRequired : H unit :=
  sendError 403 "platform_operator_required" "This endpoint requires platform operator privileges.".
Definition sendCapabilityDenied (capability reasonCode message : string) : H unit :=
  sendStatus 403 (JObj [("code", JStr "capability_denied"); ("capability", JStr capability);
                        ("reasonCode", JStr reasonCode); ("message", JStr message)]).

(** lib/route-helpers.ts: the bucket is spent, and a refusal answered *)
Definition enforceUserRateLimit (input : UserRateLimitInput) : H bool :=
  now ← (if isRateLimitEnforced then db newDate else mret 0%Z);
  decision ← (fun s =>
    let '(d, limits) := consumeUserRateLimit now input (pr_rateLimits (sv_process s)) in
    (Ok d, s <| sv_process ::= fun p => p <| pr_rateLimits := limits |> |>));
  match decision with
  | rate_allowed => mret true
  | rate_refused retryAfter =>
      _ ← sendStatus 429 (JObj [("code", JStr "rate_limit_exceeded");
                               ("message", JStr "Too many authenticated requests"); ("retryAfter", JInt retryAfter)]);
      mret false
  end.

Definition enforceRouteRateLimit (rateLimit : option RateLimit) (auth : RouteAuth) : H bool :=
  match rateLimit with
  | None => mret true
  | Some l =>
      let userId := if ra_delegation auth then "delegation:" +:+ uuidText (ra_orgId auth) else uuidText (ra_userId auth) in
      enforceUserRateLimit (MkUserRateLimitInput userId (rlm_key l) (rlm_max l) (rlm_timeWindowMs l) false)
  end.

(** modules/auth/mfa-enforcement.ts: [requireMfaEnrollment()], on the context of the route *)
Definition requireMfaEnrollmentOfRoute (auth : RouteAuth) : H unit :=
  status ← db (loadMfaEnforcementStatus (ra_userId auth) (ra_orgId auth) (ra_orgRole auth));
  if cms_enrollmentRequired status then sendError 403 "mfa_required" MFA_REQUIRED_MESSAGE
  else match cms_gracePeriodExpiresAt status with
       | Some d => if cms_gracePeriodActive status then replyHeader "X-MFA-Grace-Expires-At" (toISOString d) else mret tt
       | None => mret tt
       end.

Definition isOn (o : option bool) : bool := o =? Some true.

Definition enforceMfaIfRequired (options : RouteOptions) (auth : RouteAuth) : H bool :=
  if negb (isOn (sec_requireMfa (ro_security options))) then mret true
  else
    _ ← requireMfaEnrollmentOfRoute auth;
    sent ← isReplySent;
    mret (negb sent).

Definition auditCapabilityDenialBestEffort (auth : RouteAuth) (capability reasonCode : string) : H unit :=
  if ra_delegation auth then mret tt
  else tryCatch (recordCapabilityDeniedAudit writeDeniedRow (ra_orgId auth) (ra_userId auth) capability reasonCode)
         (fun _ => mret tt).

(** [None]: nobody decides. *)
Definition decideCapability (capability : string) (extensionSecurity : bool) (auth : RouteAuth)
    : H (option CapabilityDecision) :=
  gate ← getCapabilityGate;
  match gate with
  | None =>
      if negb extensionSecurity then mret None
      else match extensionRouteCapabilityWithoutGate capability with
           | None => mret None
           | Some d => _ ← db genRandomUuid; mret (Some d)
           end
  | Some gate =>
      d ← checkCapability gate (MkCheckCapabilityInput capability (Some (ra_orgId auth)) (Some (ra_userId auth))
            (ra_orgRole auth) surface_org None None extensionSecurity);
      mret (Some d)
  end.

Definition enforceCapabilityIfRequired (options : RouteOptions) (rs : ResolvedSecurity) (auth : RouteAuth) : H bool :=
  match sec_capability (ro_security options) with
  | None => mret true
  | Some capability =>
      if capability =? "" then mret true
      else
        decision ← decideCapability capability (rs_extensionSecurity rs) auth;
        match decision with
        | None | Some cap_permitted => mret true
        | Some (cap_denied reasonCode message) =>
            _ ← auditCapabilityDenialBestEffort auth capability reasonCode;
            _ ← sendCapabilityDenied capability reasonCode message;
            mret false
        end
  end.

(** Whether the request goes on; otherwise the reply was sent. *)
Definition enforceProtectedGuards (options : RouteOptions) (rs : ResolvedSecurity) (auth : RouteAuth) : H bool :=
  let authorised :=
    if isOn (sec_requirePlatformOperator (ro_security options)) then
      if ra_isPlatformOperator auth then mret true else (_ ← sendPlatformOperatorRequired; mret false)
    else if hasSufficientRole auth options then mret true
    else (_ ← sendInsufficientRole; mret false) in
  ok ← authorised;
  if negb ok then mret false
  else
    withinLimit ← enforceRouteRateLimit (rs_rateLimit rs) auth;
    if negb withinLimit then mret false
    else
      mfaOk ← enforceMfaIfRequired options auth;
      if negb mfaOk then mret false
      else enforceCapabilityIfRequired options rs auth.

(** *** Guards on the project, in the transaction *)

Definition projectIdParamOf (request : RouteRequest) : string :=
  default "" (stringValueForKey (rr_params request) "projectId").

Definition rejectIfProjectDeleted (options : RouteOptions) (request : RouteRequest) : H bool :=
  if isOn (sec_includeDeletedProject (ro_security options)) || negb (hasProjectIdParam (ro_url options)) then mret false
  else
    deleted ← db (isProjectDeletedParam (projectIdParamOf request));
    if negb deleted then mret false
    else (_ ← sendError 404 "project_not_found" "Project not found"; mret true).

Definition rejectIfBelowProjectRole (auth : RouteAuth) (minimumProjectRole : OrgRole) (request : RouteRequest) : H bool :=
  effectiveRole ← db (effectiveProjectRoleForCaller auth (projectIdParamOf request));
  if roleRank minimumProjectRole <=? roleRank effectiveRole then mret false
  else (_ ← sendError 403 "insufficient_project_role" "Your role in this project does not permit this action"; mret true).

Definition setPhase (p : RequestPhase) : H unit := modify (fun s => s <| sv_phase := p |>).

Definition rejectUnscopedBelowProjectRole (auth : RouteAuth) (minimumProjectRole : OrgRole) (request : RouteRequest)
    : H bool :=
  requestTransaction
    (_ ← setPhase phase_rls;
     _ ← setRlsOrgContext (ra_orgId auth);
     _ ← setPhase phase_handler;
     rejectIfBelowProjectRole auth minimumProjectRole request).

(** *** The handler and its audit entry *)

(** [withAuditSendGuard]: the guard, and taking it away *)
Definition guardSend (enabled : bool) : H unit :=
  if enabled then modify (fun s => s <| sv_reply ::= fun r => r <| rp_guarded := true |> |>) else mret tt.
Definition restoreSend (enabled : bool) : H unit :=
  if enabled then modify (fun s => s <| sv_reply ::= fun r => r <| rp_guarded := false |> |>) else mret tt.

(** [throw new AuditWriteError(message)], or the refusal as it is *)
Definition AuditWriteError : Exn := JsError "AuditWriteError".
Definition asAuditError (e : Exn) : Exn :=
  match e with SameTransactionAuditWriteError _ => e | _ => AuditWriteError end.

(** [ctx.onPostCommit] *)
Definition onPostCommit (callback : M unit) : H unit :=
  modify (fun s => s <| sv_callbacks ::= fun l => l ++ [callback] |>).

Definition contextFor (auth : RouteAuth) (request : RouteRequest) (tx : bool) (audit : option AuditConfig) : RouteContext :=
  MkRouteContext (Some auth) (ra_delegation auth && rr_delegationContext request) tx
    ((fun c => (ac_eventType c, ac_resourceType c)) <$> audit).

Definition rejectIfBelow (auth : RouteAuth) (minimumProjectRole : option OrgRole) (request : RouteRequest) : H bool :=
  match minimumProjectRole with
  | Some m => rejectIfBelowProjectRole auth m request
  | None => mret false
  end.

Definition runAudited (options : RouteOptions) (auth : RouteAuth) (request : RouteRequest) : H HandlerValue :=
  let auditConfig := auditConfigFor options in
  _ ← guardSend (isNotNull auditConfig);
  result ← tryFinally (ro_handler options (contextFor auth request true auditConfig))
             (restoreSend (isNotNull auditConfig));
  match auditConfig with
  | None => mret result
  | Some config =>
      _ ← setPhase phase_audit;
      _ ← tryCatch (default defaultAuditWriter (ro_auditWriter options) auth request config)
            (fun e => raise (asAuditError e));
      mret result
  end.

Definition runScoped (options : RouteOptions) (minimumProjectRole : option OrgRole) (auth : RouteAuth)
    (request : RouteRequest) : H HandlerValue :=
  _ ← setPhase phase_rls;
  _ ← setRlsOrgContext (ra_orgId auth);
  _ ← setPhase phase_handler;
  deleted ← rejectIfProjectDeleted options request;
  if deleted : bool then mret returned_reply
  else
    below ← rejectIfBelow auth minimumProjectRole request;
    if below : bool then mret returned_reply
    else runAudited options auth request.

(** Without a transaction [onPostCommit] does nothing, and the callbacks stay empty. *)
Definition runProtectedHandler (options : RouteOptions) (rs : ResolvedSecurity) (auth : RouteAuth) (request : RouteRequest)
    : H HandlerValue :=
  if negb (rs_requireOrgScope rs) then
    rejected ← match rs_minimumProjectRole rs with
               | Some m => rejectUnscopedBelowProjectRole auth m request
               | None => mret false
               end;
    if rejected : bool then mret returned_reply
    else
      result ← ro_handler options (contextFor auth request false None);
      _ ← modify (fun s => s <| sv_callbacks := [] |>);
      mret result
  else requestTransaction (runScoped options (rs_minimumProjectRole rs) auth request).

(** *** After the commit *)

(** A callback that throws, or takes more than ten seconds, is logged. *)
Definition runPostCommitCallback (callback : M unit) : H unit := tryCatch (db callback) (fun _ => mret tt).

(** [callbacks.splice(0)] *)
Definition runPostCommitCallbacks : H unit :=
  callbacks ← gets sv_callbacks;
  _ ← modify (fun s => s <| sv_callbacks := [] |>);
  forEachInOrder callbacks runPostCommitCallback.

Definition sendIfNeeded (result : HandlerValue) : H unit :=
  sent ← isReplySent;
  match result with
  | returned_reply => mret tt
  | returned_data d => if sent : bool then mret tt else replySend d
  end.

Definition sendAuditRateLimitedFailure (orgId : Uuid) : H unit :=
  jitter ← gets (fun s => jitterMs (sv_world s));
  result ← db (withOrg (recordAuditRateRefusalBestEffort orgId jitter));
  let retryAfterSeconds := default (ceilSeconds AUDIT_ORG_WRITE_RATE_WINDOW_MS) result in
  _ ← replyHeader "Retry-After" (pretty retryAfterSeconds);
  sendError 429 "audit_rate_limited" "Audit write rate limit exceeded for this organization".

Definition sendAuditQuotaExhaustedFailure (orgId : Uuid) : H unit :=
  _ ← db (withOrg (recordAuditQuotaRefusalBestEffort orgId));
  sendError 503 "audit_quota_exhausted" "Audit storage quota exhausted for this organization".

Definition sendSecureRouteFailure (error : Exn) (orgId : Uuid) : H unit :=
  sent ← isReplySent;
  phase ← gets sv_phase;
  if sent : bool then raise (JsError "SecureRoute: handler sent a response before audit completed")
  else if phase =? phase_rls
  then sendError 503 "service_unavailable" "Database security context unavailable"
  else match error with
       | SameTransactionAuditWriteError reason =>
           if reason =? "audit_quota_exhausted" then sendAuditQuotaExhaustedFailure orgId
           else if reason =? "audit_rate_limited" then sendAuditRateLimitedFailure orgId
           else if reason =? "audit_gate_unavailable"
           then sendError 503 "audit_gate_unavailable" "Audit quota gate is unavailable"
           else sendError 503 "audit_write_failed" "Audit logging is unavailable"
       | _ => if (error =? AuditWriteError) || (phase =? phase_audit)
              then sendError 503 "audit_write_failed" "Audit logging is unavailable"
              else raise error
       end.

Definition handlePublicRequest (options : RouteOptions) (rateLimit : option RateLimit) (request : RouteRequest) : H unit :=
  withinLimit ← match rateLimit with
                | Some l => enforceUserRateLimit (MkUserRateLimitInput ("ip:" +:+ rr_ip request) (rlm_key l) (rlm_max l)
                                                    (rlm_timeWindowMs l) false)
                | None => mret true
                end;
  if negb withinLimit then mret tt
  else
    result ← ro_handler options (MkRouteContext None false false None);
    sendIfNeeded result.

(** A protected request, once its caller is known. *)
Definition handleProtected (route : BuiltRoute) (auth : RouteAuth) (request : RouteRequest) : H unit :=
  let options := br_options route in
  let rs := br_security route in
  guardsPassed ← enforceProtectedGuards options rs auth;
  if negb guardsPassed then mret tt
  else
    _ ← setPhase phase_handler;
    tryCatch
      (result ← runProtectedHandler options rs auth request;
       _ ← runPostCommitCallbacks;
       sendIfNeeded result)
      (fun e => sendSecureRouteFailure e (ra_orgId auth)).

Definition handleSecureRouteRequest (route : BuiltRoute) (request : RouteRequest) : H unit :=
  sent ← isReplySent;
  if sent : bool then mret tt
  else if negb (rs_requireAuth (br_security route))
  then handlePublicRequest (br_options route) (rs_rateLimit (br_security route)) request
  else match rr_authContext request with
       | None => sendMissingAuth
       | Some auth => handleProtected route auth request
       end.

(** *** A request on the wire *)

(** The preHandler of a session route is [authenticate]; the reply of a refusal is sent, here
    without its message, and the handler does not run. *)
Definition serveRoute (route : BuiltRoute) (token : RequestToken) (request : RouteRequest) : H unit :=
  if rs_requireAuth (br_security route) && negb (rs_delegation (br_security route)) then
    outcome ← db (authenticateRequest token);
    match outcome with
    | refusedWith code status => sendStatus status (JObj [("code", JStr code)])
    | authenticated c =>
        handleSecureRouteRequest route
          (MkRouteRequest (rr_ip request) (rr_userAgent request) (rr_params request) (rr_query request)
             (Some (sessionAuth c)) false)
    end
  else handleSecureRouteRequest route request.

End pipeline.
