(* ===== verification/SecureRouteTheorems.v ===== *)
(** * What the route pipeline guarantees

    Complete mediation: the business code of a protected route runs only for a
    caller every declared guard admits ([Passes], stated on the database and
    on the state of the process), and a refused request answers the same
    whatever that code is and leaves the data as it was. *)

From S2P Require Import Prelude Js Crypto FieldSet AuthStore Store Tx QuotaGate AuditLog Notifications Text Sessions Authenticate Mfa Login JsMap RateLimit Server CapabilityGate GateTheorems AuditPayload SecureRoute.
From Stdlib Require Import Ascii String.
From stdpp Require Import strings pretty.

Local Open Scope string_scope.
Local Open Scope list_scope.
Local Open Scope pv_scope.

(** ** Replies *)

Definition freshReplyState (s : Server) : Prop := rp_guarded (sv_reply s) = false /\ rp_sent (sv_reply s) = None.

(** The reply was sent, with an error of this code. *)
Definition sentError (status : Z) (code : string) (s : Server) : Prop :=
  rp_guarded (sv_reply s) = false /\
  exists members, rp_sent (sv_reply s) = Some (status, Some (JObj (("code", JStr code) :: members))).

(** The guards leave alone what the request is about. *)
Record goesOn (s s' : Server) : Prop := {
  go_db : w_db (sv_world s') = w_db (sv_world s);
  go_reply : freshReplyState s -> freshReplyState s';
  go_callbacks : sv_callbacks s' = sv_callbacks s;
  go_phase : sv_phase s' = sv_phase s;
  go_gate : pr_gate (sv_process s') = pr_gate (sv_process s);
  go_inFlight : forall k, jsGet k (pr_inFlight (sv_process s')) = jsGet k (pr_inFlight (sv_process s));
}.

Lemma goesOn_refl s : goesOn s s.
Proof. by split. Qed.
Lemma goesOn_trans s1 s2 s3 : goesOn s1 s2 -> goesOn s2 s3 -> goesOn s1 s3.
Proof.
  intros [a b c d e f] [a' b' c' d' e' f']. split; [congruence|auto|congruence|congruence|congruence|].
  intros k. by rewrite f'.
Qed.

Lemma sendStatus_spec n code members s :
  freshReplyState s ->
  exists s', sendStatus n (JObj (("code", JStr code) :: members)) s = (Ok tt, s') /\ sentError n code s' /\
    sv_world s' = sv_world s /\ sv_process s' = sv_process s /\ sv_callbacks s' = sv_callbacks s /\ sv_phase s' = sv_phase s.
Proof.
  intros [Hg Hs]. unfold sendStatus, replyStatus. eexists. split.
  { rewrite bind_modify. unfold replySend. cbn. rewrite Hg, Hs. reflexivity. }
  split; [|done]. split; [done|]. by exists members.
Qed.

Lemma sendError_spec n code message s :
  freshReplyState s ->
  exists s', sendError n code message s = (Ok tt, s') /\ sentError n code s' /\
    sv_world s' = sv_world s /\ sv_process s' = sv_process s /\ sv_callbacks s' = sv_callbacks s /\ sv_phase s' = sv_phase s.
Proof. apply sendStatus_spec. Qed.

(** A guard that answers [refused], with the data untouched, or lets the request go on under [pass]. *)
Definition guards (m : H bool) (goOn : bool) (refused : Z -> string -> Prop) (pass : Prop) (s : Server) : Prop :=
  exists b s', m s = (Ok b, s') /\
    if Bool.eqb b goOn then pass /\ goesOn s s'
    else exists status code, refused status code /\ sentError status code s' /\
           w_db (sv_world s') = w_db (sv_world s) /\ sv_phase s' = sv_phase s /\ sv_callbacks s' = sv_callbacks s.

(** A computation on the data and on the process, that does not answer. *)
Definition silent {A} (m : H A) : Prop := forall s,
  sv_reply (m s).2 = sv_reply s /\ sv_phase (m s).2 = sv_phase s.

Lemma silent_ret {A} (a : A) : silent (mret (M := H) a).
Proof. done. Qed.
Lemma silent_raise {A} e : silent (@raise A e).
Proof. done. Qed.
Lemma silent_db {A} (m : M A) : silent (db m).
Proof. intros s. unfold db. by destruct (m (sv_world s)). Qed.
Lemma silent_gets {A} (f : Server -> A) : silent (gets f).
Proof. done. Qed.
Lemma silent_modifyProcess f : silent (modifyProcess f).
Proof. done. Qed.
Lemma silent_bind {A B} (m : H A) (k : A -> H B) : silent m -> (forall a, silent (k a)) -> silent (m ≫= k).
Proof.
  intros Hm Hk s. specialize (Hm s). unfold mbind, H_bind. destruct (m s) as [[a|e] s'].
  - destruct (Hk a s') as [-> ->]. exact Hm.
  - exact Hm.
Qed.
Lemma silent_forEach {A} (l : list A) f : (forall a, silent (f a)) -> silent (forEachInOrder l f).
Proof. intros Hf. induction l; cbn; [done|]. by apply silent_bind. Qed.

#[local] Hint Resolve silent_ret silent_raise silent_db silent_gets silent_modifyProcess : pv.
Ltac silent_steps :=
  repeat first
    [ progress (auto with pv)
    | apply silent_bind; [|intros ?]
    | apply silent_forEach; intros ?
    | match goal with
      | |- silent (if ?b then _ else _) => destruct b
      | |- silent (match ?x with _ => _ end) => destruct x
      end ].

Lemma silent_flushEntry writer key : silent (flushEntry writer key).
Proof. unfold flushEntry, dampener, onDampener. silent_steps. Qed.
#[local] Hint Resolve silent_flushEntry : pv.

Section mediation.
Context `{Locale, Platform, NodeCrypto, Env, Unicode, OtpValidate, Passwords, JwtLibrary, ProcessEnv, Postgres, Jitter}.

(** ** What the guards require *)

Definition rateInput (l : RateLimit) (auth : RouteAuth) : UserRateLimitInput :=
  MkUserRateLimitInput (if ra_delegation auth then "delegation:" +:+ uuidText (ra_orgId auth) else uuidText (ra_userId auth))
    (rlm_key l) (rlm_max l) (rlm_timeWindowMs l) false.

(** The bucket of the caller has room. *)
Definition rateAdmits (rateLimit : option RateLimit) (auth : RouteAuth) (s : Server) : Prop :=
  forall l, rateLimit = Some l -> isRateLimitEnforced = true ->
    (consumeUserRateLimit (clock (w_tick (sv_world s))) (rateInput l auth) (pr_rateLimits (sv_process s))).1 = rate_allowed.

Definition callerAdmitted (options : RouteOptions) (auth : RouteAuth) : Prop :=
  if isOn (sec_requirePlatformOperator (ro_security options)) then ra_isPlatformOperator auth = true
  else hasSufficientRole auth options = true.

(** The user's enrolment and the grace period of the membership, as the database has them. *)
Definition mfaEnrolledAtOf (db : Db) (userId : Uuid) : option Date :=
  head (List.filter (fun u => usr_id u =? userId) (db_users db)) ≫= usr_mfaEnrolledAt.
Definition gracePeriodOf (db : Db) (orgId userId : Uuid) : option Date :=
  head (List.filter (fun m => (mem_orgId m =? orgId) && (mem_userId m =? userId) && (mem_status m =? active))
          (db_memberships db)) ≫= mem_gracePeriodExpiresAt.

Definition mfaAdmits (options : RouteOptions) (auth : RouteAuth) (db : Db) : Prop :=
  isOn (sec_requireMfa (ro_security options)) = true -> exists n,
    isMfaEnforcementActive (default viewer (ra_orgRole auth)) (mfaEnrolledAtOf db (ra_userId auth))
      (gracePeriodOf db (ra_orgId auth) (ra_userId auth)) (clock n) = false.

Definition capabilityInput (capability : string) (extension : bool) (auth : RouteAuth) : CheckCapabilityInput :=
  MkCheckCapabilityInput capability (Some (ra_orgId auth)) (Some (ra_userId auth)) (ra_orgRole auth) surface_org None None extension.

(** The registered gate permits, or there is none and the capability is PV's own or the route is. *)
Definition capabilityAdmits (options : RouteOptions) (rs : ResolvedSecurity) (auth : RouteAuth) (s : Server) : Prop :=
  forall capability, sec_capability (ro_security options) = Some capability -> capability <> "" ->
    match pr_gate (sv_process s) with
    | None => rs_extensionSecurity rs = true -> capability ∈ CapabilityId
    | Some gate =>
        let input := capabilityInput capability (rs_extensionSecurity rs) auth in
        (rs_extensionSecurity rs = true \/ capability ∈ CapabilityId) /\
        (inFlightOf (uuidText (ra_orgId auth)) s < CAPABILITY_GATE_MAX_IN_FLIGHT_PER_SURFACE)%Z /\
        exists w, w_db w = w_db (sv_world s) /\
          gatePermits gate (contextOf input w) (afterCallId w) CAPABILITY_GATE_TIMEOUT_MS
    end.

Definition deletedProject (db : Db) (projectId : Uuid) : bool :=
  existsb (fun p => (proj_id p =? projectId) && isNotNull (proj_deletedAt p)) (db_projects db).

Definition projectAdmits (options : RouteOptions) (request : RouteRequest) (db : Db) : Prop :=
  isOn (sec_includeDeletedProject (ro_security options)) = false -> hasProjectIdParam (ro_url options) = true ->
  forall pid, parseUuid (projectIdParamOf request) = Some pid -> deletedProject db pid = false.

(** The caller's own membership of the project. *)
Definition membershipRoleOf (db : Db) (auth : RouteAuth) (pid : Uuid) : option OrgRole :=
  pmb_role <$> head (List.filter (fun m => (pmb_projectId m =? pid) && (pmb_userId m =? ra_userId auth)
                                           && (pmb_orgId m =? ra_orgId auth)) (db_projectMemberships db)).

Definition effectiveRoleOf (db : Db) (auth : RouteAuth) (projectId : string) : option OrgRole :=
  orgRole ← ra_orgRole auth;
  Some (match parseUuid projectId with
        | Some pid => if isOrgAdminOrOwner orgRole then orgRole else default orgRole (membershipRoleOf db auth pid)
        | None => orgRole
        end).

Definition roleAdmits (minimumProjectRole : option OrgRole) (auth : RouteAuth) (request : RouteRequest) (db : Db) : Prop :=
  forall m, minimumProjectRole = Some m ->
    exists r, effectiveRoleOf db auth (projectIdParamOf request) = Some r /\ (roleRank m <= roleRank r)%Z.

Record Passes (route : BuiltRoute) (auth : RouteAuth) (request : RouteRequest) (s : Server) : Prop := {
  ad_caller : callerAdmitted (br_options route) auth;
  ad_rate : rateAdmits (rs_rateLimit (br_security route)) auth s;
  ad_mfa : mfaAdmits (br_options route) auth (w_db (sv_world s));
  ad_capability : capabilityAdmits (br_options route) (br_security route) auth s;
  ad_project : rs_requireOrgScope (br_security route) = true -> projectAdmits (br_options route) request (w_db (sv_world s));
  ad_role : roleAdmits (rs_minimumProjectRole (br_security route)) auth request (w_db (sv_world s));
}.

(** ** Each guard *)

Lemma rate_guard rateLimit auth s :
  freshReplyState s ->
  guards (enforceRouteRateLimit rateLimit auth) true (fun st c => st = 429%Z /\ c = "rate_limit_exceeded")
    (rateAdmits rateLimit auth s) s.
Proof.
  intros Hf. unfold guards, enforceRouteRateLimit, rateAdmits. destruct rateLimit as [l|].
  2: { exists true, s. split; [done|]. by split. }
  fold (rateInput l auth). unfold enforceUserRateLimit.
  destruct isRateLimitEnforced eqn:En.
  - erewrite (bind_db newDate) by reflexivity. unfold mbind at 1, H_bind at 1. cbn [sv_process sv_world].
    change (pr_rateLimits (sv_process (s <| sv_world := (sv_world s) <| w_tick ::= S |> |>))) with (pr_rateLimits (sv_process s)).
    destruct (consumeUserRateLimit _ _ _) as [d limits] eqn:Ec. destruct d as [|retryAfter].
    + do 2 eexists. split; [reflexivity|]. cbn. split; [|by split].
      intros l' [= <-] _. by rewrite Ec.
    + edestruct (sendStatus_spec 429) as (s' & E & Hsent & Hw & _ & Hcb & Hp); cycle 1.
      { rewrite (bind_ok _ _ _ _ _ E). do 2 eexists. split; [reflexivity|]. cbn.
        do 2 eexists. split; [done|]. split; [done|]. split; [by rewrite Hw|split; [by rewrite Hp|by rewrite Hcb]]. }
      exact Hf.
  - unfold mbind at 1, H_bind at 1. cbn [mret H_ret]. unfold mbind at 1, H_bind at 1.
    rewrite consume_disabled by done. do 2 eexists. split; [reflexivity|]. cbn. split; [done|by split].
Qed.

Lemma mfa_guard options auth s :
  freshReplyState s ->
  guards (enforceMfaIfRequired options auth) true (fun st c => st = 403%Z /\ c = "mfa_required")
    (mfaAdmits options auth (w_db (sv_world s))) s.
Proof.
  intros Hf. unfold guards, enforceMfaIfRequired, mfaAdmits. destruct (isOn _); cbn [negb].
  2: { exists true, s. split; [done|]. by split. }
  unfold requireMfaEnrollmentOfRoute. rewrite bind_assoc.
  erewrite (bind_db (loadMfaEnforcementStatus _ _ _)) by reflexivity. set (s1 := setter _ _ s).
  set (status := computeMfaStatus _ _ _ _).
  assert (Hf1 : freshReplyState s1) by exact Hf.
  destruct (cms_enrollmentRequired status) eqn:Er.
  - destruct (sendStatus_spec 403 "mfa_required" [("message", JStr MFA_REQUIRED_MESSAGE)] s1 Hf1)
      as (s' & E & (Hg & members & Hsent) & Hw & _ & Hcb & Hp).
    unfold sendError, errorBody. rewrite (bind_ok _ _ _ _ _ E). unfold isReplySent. rewrite bind_gets, Hsent.
    do 2 eexists. split; [reflexivity|]. cbn.
    do 2 eexists. split; [done|]. split; [split; [done|by exists members]|]. split; [by rewrite Hw|split; [by rewrite Hp|by rewrite Hcb]].
  - assert (Hn : isMfaEnforcementActive (default viewer (ra_orgRole auth)) (mfaEnrolledAtOf (w_db (sv_world s)) (ra_userId auth))
                   (gracePeriodOf (w_db (sv_world s)) (ra_orgId auth) (ra_userId auth)) (clock (w_tick (sv_world s))) = false)
      by exact Er.
    assert (Hend : forall s2, freshReplyState s2 -> goesOn s s2 ->
      exists b s', (_ ← mret (M := H) tt; sent ← isReplySent; mret (negb sent)) s2 = (Ok b, s') /\
        b = true /\ goesOn s s').
    { intros s2 [Hg2 Hs2] Hgo. exists true, s2. split; [|done]. unfold isReplySent. rewrite bind_ret, bind_gets, Hs2. done. }
    assert (Hgo1 : goesOn s s1) by by split.
    assert (Hdone : forall m, (m = mret tt \/ exists k v, m = replyHeader k v) ->
      exists b s', (_ ← m; sent ← isReplySent; mret (negb sent)) s1 = (Ok b, s') /\ b = true /\ goesOn s s').
    { intros m [->|(k & v & ->)]; [by apply Hend|]. unfold replyHeader. rewrite bind_modify. set (s2 := setter _ _ s1).
      destruct (Hend s2) as (b & s' & E & Hb & Hgo); [exact Hf|by split|]. exists b, s'.
      rewrite bind_ret in E. by rewrite E. }
    destruct (Hdone (match cms_gracePeriodExpiresAt status with
       | Some d => if cms_gracePeriodActive status then replyHeader "X-MFA-Grace-Expires-At" (toISOString d) else mret tt
       | None => mret tt end)) as (b & s' & E & -> & Hgo).
    { destruct (cms_gracePeriodExpiresAt status); [|by left]. destruct (cms_gracePeriodActive status); [right|by left].
      by do 2 eexists. }
    rewrite E. exists true, s'. split; [done|]. cbn. split; [|done]. intros _. by exists (w_tick (sv_world s)).
Qed.

(** The slots of the gate are counted above zero ([gate_slots_bounded_and_isolated]). *)
Definition slotsCounted (s : Server) : Prop :=
  forall k n, jsGet k (pr_inFlight (sv_process s)) = Some n -> (0 < n)%Z.

Lemma silent_recordCapabilityDenied writer orgId userId capability reasonCode :
  silent (recordCapabilityDeniedAudit writer orgId userId capability reasonCode).
Proof.
  unfold recordCapabilityDeniedAudit, sweepExpired, evictOldestIfAtCapacity, dampener, onDampener.
  silent_steps.
Qed.

Lemma auditDenial_spec auth capability reasonCode s :
  exists s', auditCapabilityDenialBestEffort auth capability reasonCode s = (Ok tt, s') /\
    sv_reply s' = sv_reply s /\ sv_phase s' = sv_phase s.
Proof.
  unfold auditCapabilityDenialBestEffort. destruct (ra_delegation auth); [by exists s|]. unfold tryCatch.
  pose proof (silent_recordCapabilityDenied writeDeniedRow (ra_orgId auth) (ra_userId auth) capability reasonCode s) as Hq.
  destruct (recordCapabilityDeniedAudit _ _ _ _ _ s) as [[[]|e] s']; by exists s'.
Qed.

Lemma decideCapability_spec capability extension auth s :
  slotsCounted s ->
  exists d s', decideCapability capability extension auth s = (Ok d, s') /\ goesOn s s' /\ sv_phase s' = sv_phase s /\
    (sv_reply s' = sv_reply s) /\
    (d = None \/ d = Some cap_permitted ->
     match pr_gate (sv_process s) with
     | None => extension = true -> capability ∈ CapabilityId
     | Some gate =>
         let input := capabilityInput capability extension auth in
         (extension = true \/ capability ∈ CapabilityId) /\
         (inFlightOf (uuidText (ra_orgId auth)) s < CAPABILITY_GATE_MAX_IN_FLIGHT_PER_SURFACE)%Z /\
         exists w, w_db w = w_db (sv_world s) /\
           gatePermits gate (contextOf input w) (afterCallId w) CAPABILITY_GATE_TIMEOUT_MS
     end).
Proof.
  intros Hslots. unfold decideCapability, getCapabilityGate. rewrite bind_gets.
  destruct (pr_gate (sv_process s)) as [gate|] eqn:Eg.
  - fold (capabilityInput capability extension auth).
    destruct (checkCapability_spec gate (capabilityInput capability extension auth) s Hslots)
      as (d & s' & E & Hd & Hin & Hw & Ht & Hr & Hc & Hp & Hpg).
    rewrite (bind_ok _ _ _ _ _ E). exists (Some d), s'. split; [done|]. split.
    { split; [by rewrite Hw|intros Hf; unfold freshReplyState; by rewrite Hr|done|done|done|done]. }
    split; [done|]. split; [done|]. intros [?|[= ->]]; [done|]. destruct Hd as [Hd _]. specialize (Hd eq_refl).
    destruct Hd as (Hk & Hslot & Hgate). split; [done|]. split; [done|]. by exists (sv_world s).
  - destruct extension; cbn [negb].
    + unfold extensionRouteCapabilityWithoutGate, isKnownCapabilityId. case_bool_decide as Ek.
      * exists None, s. split; [done|]. split; [apply goesOn_refl|]. done.
      * erewrite (bind_db genRandomUuid) by reflexivity. do 2 eexists. split; [reflexivity|].
        split; [by split|]. split; [done|]. split; [done|]. by intros [?|?].
    + exists None, s. split; [done|]. split; [apply goesOn_refl|]. done.
Qed.

(** The answers of the guards before the transaction. *)
Definition guardRefusal (status : Z) (code : string) : Prop :=
  (status, code) ∈ [(403, "platform_operator_required"); (403, "insufficient_role"); (429, "rate_limit_exceeded");
                    (403, "mfa_required")]%Z.

(** What the guards before the transaction require. *)
Definition callerPasses (options : RouteOptions) (rs : ResolvedSecurity) (auth : RouteAuth) (s : Server) : Prop :=
  callerAdmitted options auth /\ rateAdmits (rs_rateLimit rs) auth s /\ mfaAdmits options auth (w_db (sv_world s)) /\
  capabilityAdmits options rs auth s.

Lemma caller_guard options auth s :
  freshReplyState s ->
  guards (if isOn (sec_requirePlatformOperator (ro_security options)) then
            if ra_isPlatformOperator auth then mret true else (_ ← sendPlatformOperatorRequired; mret false)
          else if hasSufficientRole auth options then mret true
          else (_ ← sendInsufficientRole; mret false)) true guardRefusal (callerAdmitted options auth) s.
Proof.
  intros Hf. unfold guards, callerAdmitted, guardRefusal.
  destruct (isOn _); [destruct (ra_isPlatformOperator auth)|destruct (hasSufficientRole auth options)].
  1, 3: exists true, s; split; [done|]; split; [done|apply goesOn_refl].
  all: unfold sendPlatformOperatorRequired, sendInsufficientRole;
    match goal with |- context [sendError 403 ?c ?t] =>
      destruct (sendError_spec 403 c t s Hf) as (s' & E & Hsent & Hw & _ & Hcb & Hp) end;
    rewrite (bind_ok _ _ _ _ _ E).
  all: exists false, s'; split; [done|]; cbn; do 2 eexists; split; [|split; [exact Hsent|split; [by rewrite Hw|split; [by rewrite Hp|by rewrite Hcb]]]];
    by apply (bool_decide_eq_true_1 _).
Qed.

Lemma capability_guard options rs auth s :
  freshReplyState s -> slotsCounted s ->
  exists b s', enforceCapabilityIfRequired options rs auth s = (Ok b, s') /\
    if b : bool then capabilityAdmits options rs auth s /\ goesOn s s'
    else sentError 403 "capability_denied" s'.
Proof.
  intros Hf Hslots. unfold enforceCapabilityIfRequired, capabilityAdmits.
  destruct (sec_capability _) as [capability|]; [|exists true, s; split; [done|split; [done|apply goesOn_refl]]].
  case_bool_decide as Ee; [exists true, s; split; [done|split; [congruence|apply goesOn_refl]]|].
  destruct (decideCapability_spec capability (rs_extensionSecurity rs) auth s Hslots)
    as (d & s1 & E & Hgo & Hp & Hr & Hd). rewrite (bind_ok _ _ _ _ _ E).
  assert (Hpass : d = None \/ d = Some cap_permitted -> exists b s', mret (M := H) true s1 = (Ok b, s') /\
    if b : bool then (forall c, Some capability = Some c -> c <> "" -> 
      match pr_gate (sv_process s) with
      | None => rs_extensionSecurity rs = true -> c ∈ CapabilityId
      | Some gate => let input := capabilityInput c (rs_extensionSecurity rs) auth in
          (rs_extensionSecurity rs = true \/ c ∈ CapabilityId) /\
          (inFlightOf (uuidText (ra_orgId auth)) s < CAPABILITY_GATE_MAX_IN_FLIGHT_PER_SURFACE)%Z /\
          exists w, w_db w = w_db (sv_world s) /\
            gatePermits gate (contextOf input w) (afterCallId w) CAPABILITY_GATE_TIMEOUT_MS
      end) /\ goesOn s s' else sentError 403 "capability_denied" s').
  { intros Hd'. exists true, s1. split; [done|]. split; [|done]. intros c [= <-] _. by apply Hd. }
  destruct d as [[|reasonCode message]|]; [by apply Hpass; right| |by apply Hpass; left].
  destruct (auditDenial_spec auth capability reasonCode s1) as (s2 & E2 & Hr2 & _).
  rewrite (bind_ok _ _ _ _ _ E2).
  edestruct (sendStatus_spec 403 "capability_denied") as (s3 & E3 & Hsent & _); cycle 1.
  { unfold sendCapabilityDenied. rewrite (bind_ok _ _ _ _ _ E3). by exists false, s3. }
  unfold freshReplyState. by rewrite Hr2, Hr.
Qed.

Lemma rateAdmits_mono l auth s s' : s = s' -> rateAdmits l auth s -> rateAdmits l auth s'.
Proof. by intros ->. Qed.

(** The guards before the transaction admit the caller, or they have answered. *)
Lemma enforceProtectedGuards_spec options rs auth s :
  freshReplyState s -> slotsCounted s ->
  exists b s', enforceProtectedGuards options rs auth s = (Ok b, s') /\
    if b : bool then callerPasses options rs auth s /\ goesOn s s'
    else (exists status code, guardRefusal status code /\ sentError status code s' /\
            w_db (sv_world s') = w_db (sv_world s)) \/ sentError 403 "capability_denied" s'.
Proof.
  intros Hf Hslots. unfold enforceProtectedGuards, callerPasses.
  destruct (caller_guard options auth s Hf) as (b & s1 & E1 & G1). rewrite (bind_ok _ _ _ _ _ E1).
  destruct b; cbn in G1; cycle 1.
  { exists false, s1. split; [done|]. left. destruct G1 as (st & c & ? & ? & ? & ?). by exists st, c. }
  destruct G1 as [Hcaller Hgo1]. cbn [negb].
  assert (Es1 : s1 = s).
  { revert E1. unfold callerAdmitted in Hcaller. destruct (isOn _); rewrite Hcaller; by intros [= <-]. }
  subst s1. destruct (rate_guard (rs_rateLimit rs) auth s Hf) as (b & s2 & E2 & G2). rewrite (bind_ok _ _ _ _ _ E2).
  destruct b; cbn in G2; cycle 1.
  { exists false, s2. split; [done|]. left. destruct G2 as (st & c & [-> ->] & ? & ? & ?). exists 429%Z, "rate_limit_exceeded".
    split; [unfold guardRefusal; by apply (bool_decide_eq_true_1 _)|done]. }
  destruct G2 as [Hrate Hgo2]. cbn [negb].
  destruct (mfa_guard options auth s2 (go_reply _ _ Hgo2 Hf)) as (b & s3 & E3 & G3). rewrite (bind_ok _ _ _ _ _ E3).
  destruct b; cbn in G3; cycle 1.
  { exists false, s3. split; [done|]. left. destruct G3 as (st & c & [-> ->] & ? & Hd & ?). exists 403%Z, "mfa_required".
    split; [unfold guardRefusal; by apply (bool_decide_eq_true_1 _)|]. split; [done|]. by rewrite Hd, (go_db _ _ Hgo2). }
  destruct G3 as [Hmfa Hgo3]. cbn [negb]. pose proof (goesOn_trans _ _ _ Hgo2 Hgo3) as Hgo.
  assert (Hslots3 : slotsCounted s3) by (intros k n; rewrite (go_inFlight _ _ Hgo); apply Hslots).
  destruct (capability_guard options rs auth s3 (go_reply _ _ Hgo Hf) Hslots3) as (b & s4 & E4 & G4).
  rewrite E4. exists b, s4. split; [done|]. destruct b; [|by right]. destruct G4 as [Hcap Hgo4].
  split; [|by eapply goesOn_trans]. split; [done|]. split; [done|]. split.
  { unfold mfaAdmits in *. by rewrite (go_db _ _ Hgo2) in Hmfa. }
  intros c Hc Hne. specialize (Hcap c Hc Hne). rewrite (go_gate _ _ Hgo), (go_db _ _ Hgo) in Hcap.
  unfold inFlightOf in *. by rewrite (go_inFlight _ _ Hgo) in Hcap.
Qed.

(** *** In the transaction *)

Lemma head_filter_existsb {A} (p : A -> bool) l : isNotNull (head (List.filter p l)) = existsb p l.
Proof. induction l as [|x l IH]; [done|]. cbn. by destruct (p x). Qed.

Lemma deleted_guard options request s :
  freshReplyState s ->
  guards (rejectIfProjectDeleted options request) false (fun st c => st = 404%Z /\ c = "project_not_found")
    (projectAdmits options request (w_db (sv_world s))) s.
Proof.
  intros Hf. unfold guards, rejectIfProjectDeleted, projectAdmits.
  destruct (isOn _ || negb _) eqn:Eo.
  { exists false, s. split; [done|]. cbn. split; [|apply goesOn_refl]. intros Hi Hp. by rewrite Hi, Hp in Eo. }
  apply orb_false_iff in Eo as [_ _].
  unfold isProjectDeletedParam. destruct (parseUuid _) as [pid|] eqn:Ep.
  2: { erewrite (bind_db (mret false)) by reflexivity. do 2 eexists. split; [reflexivity|]. cbn. split; [done|by split]. }
  assert (Ed : (row ← selectFirst db_projects (fun p => (proj_id p =? pid) && isNotNull (proj_deletedAt p));
                mret (isNotNull row)) (sv_world s) = (Ok (deletedProject (w_db (sv_world s)) pid), sv_world s)).
  { unfold selectFirst, mbind, M_bind, mret, M_ret. by rewrite head_filter_existsb. }
  erewrite (bind_db _ _ _ _ _ Ed). destruct (deletedProject _ pid) eqn:Edel; cbn [negb].
  - edestruct (sendError_spec 404 "project_not_found" "Project not found") as (s' & E & Hsent & Hw & _ & Hcb & Hp); cycle 1.
    { rewrite (bind_ok _ _ _ _ _ E). do 2 eexists. split; [reflexivity|]. cbn. do 2 eexists. split; [done|].
      split; [done|]. split; [by rewrite Hw|split; [by rewrite Hp|by rewrite Hcb]]. }
    exact Hf.
  - do 2 eexists. split; [reflexivity|]. cbn. split; [|by split]. intros _ _ pid' [= <-]. done.
Qed.

Lemma effectiveRole_spec auth projectId w :
  effectiveProjectRoleForCaller auth projectId w =
    (match effectiveRoleOf (w_db w) auth projectId with
     | Some r => Ok r
     | None => Throw (AppError "insufficient_role" 403)
     end, w).
Proof.
  unfold effectiveProjectRoleForCaller, orgRoleOrDeny, effectiveRoleOf. destruct (ra_orgRole auth) as [r|]; [|done].
  unfold mbind at 1, M_bind at 1. cbn [mret M_ret mbind option_bind]. destruct (parseUuid projectId) as [pid|]; [|done].
  destruct (isOrgAdminOrOwner r) eqn:Er; [done|].
  unfold getProjectMembershipRole, resolveEffectiveProjectRoleForOrgRole, membershipRoleOf. rewrite Er. done.
Qed.

(** A guard that may also throw this before anything was sent. *)
Definition guardsOrThrows (m : H bool) (refused : Z -> string -> Prop) (e : Exn) (pass : Prop) (s : Server) : Prop :=
  guards m false refused pass s \/ m s = (Throw e, s).

Lemma role_guard auth minimumProjectRole request s :
  freshReplyState s ->
  guardsOrThrows (rejectIfBelow auth minimumProjectRole request)
    (fun st c => st = 403%Z /\ c = "insufficient_project_role") (AppError "insufficient_role" 403)
    (roleAdmits minimumProjectRole auth request (w_db (sv_world s))) s.
Proof.
  intros Hf. unfold guardsOrThrows, rejectIfBelow, roleAdmits. destruct minimumProjectRole as [m|].
  2: { left. exists false, s. split; [done|]. cbn. split; [done|apply goesOn_refl]. }
  unfold rejectIfBelowProjectRole. pose proof (effectiveRole_spec auth (projectIdParamOf request) (sv_world s)) as Er.
  destruct (effectiveRoleOf _ auth _) as [r|] eqn:Eeff.
  2: { right. unfold mbind, H_bind, db. rewrite Er. by destruct s. }
  left. unfold guards. erewrite (bind_db _ _ _ _ _ Er). case_bool_decide as Hrank.
  - do 2 eexists. split; [reflexivity|]. cbn. split; [|by split]. intros m' [= <-]. by exists r.
  - edestruct (sendError_spec 403 "insufficient_project_role") as (s' & E & Hsent & Hw & _ & Hcb & Hp); cycle 1.
    { rewrite (bind_ok _ _ _ _ _ E). do 2 eexists. split; [reflexivity|]. cbn. do 2 eexists. split; [done|].
      split; [done|]. split; [by rewrite Hw|split; [by rewrite Hp|by rewrite Hcb]]. }
    exact Hf.
Qed.

(** ** Complete mediation *)

Definition withHandler (h : Handler) (route : BuiltRoute) : BuiltRoute :=
  MkBuiltRoute (br_key route) ((br_options route) <| ro_handler := h |>) (br_security route).

(** A request as it comes: nothing sent, no callback. *)
Record Incoming (s : Server) : Prop := {
  in_fresh : freshReplyState s;
  in_callbacks : sv_callbacks s = [];
  in_slots : slotsCounted s;
}.

(** Every answer of a guard. *)
Definition refusal (status : Z) (code : string) : Prop :=
  (status, code) ∈ [(403, "platform_operator_required"); (403, "insufficient_role"); (429, "rate_limit_exceeded");
                    (403, "mfa_required"); (403, "capability_denied"); (404, "project_not_found");
                    (403, "insufficient_project_role"); (503, "service_unavailable")]%Z.
Definition projectRefusal (status : Z) (code : string) : Prop :=
  (status, code) ∈ [(404, "project_not_found"); (403, "insufficient_project_role")]%Z.

(** The transaction ends without the handler: the data is as it was, and a guard sent its refusal, or
    an exception came before any reply. *)
Definition notReached {A} (done : A) (s : Server) (o : Outcome A) (s' : Server) : Prop :=
  w_db (sv_world s') = w_db (sv_world s) /\ sv_callbacks s' = sv_callbacks s /\
  ((o = Ok done \/ exists e, o = Throw e) /\ (exists status code, projectRefusal status code /\ sentError status code s')
   \/ (exists e, o = Throw e /\ (sv_phase s' = phase_rls \/
                   sv_phase s' = phase_handler /\ (e = DatabaseError \/ e = AppError "insufficient_role" 403)))
      /\ freshReplyState s').

Lemma requestTransaction_eq {A} (m : H A) s o s1 :
  m (s <| sv_world := (sv_world s) <| w_tick ::= S |> <| w_now := clock (w_tick (sv_world s)) |> |>) = (o, s1) ->
  requestTransaction m s =
    match o with
    | Ok a => if commitFails (sv_world s1)
              then (Throw DatabaseError, s1 <| sv_world ::= fun w => w <| w_db := w_db (sv_world s) |> |>)
              else (Ok a, s1)
    | Throw e => (Throw e, s1 <| sv_world ::= fun w => w <| w_db := w_db (sv_world s) |> |>)
    end.
Proof.
  intros E. unfold requestTransaction. erewrite (bind_db beginTransaction) by reflexivity.
  destruct o as [a|e].
  - rewrite (bind_ok _ _ _ _ _ E). unfold failing, mbind at 1, H_bind at 1. by destruct (commitFails _).
  - by rewrite (bind_throw _ _ _ _ _ E).
Qed.

Lemma sentError_world status code s w : sentError status code (s <| sv_world := w |>) <-> sentError status code s.
Proof. done. Qed.

(** The transaction after its set-up. *)
Definition afterSetup (options : RouteOptions) (m : option OrgRole) (auth : RouteAuth) (request : RouteRequest) : H HandlerValue :=
  deleted ← rejectIfProjectDeleted options request;
  if deleted : bool then mret returned_reply
  else
    below ← rejectIfBelow auth m request;
    if below : bool then mret returned_reply else runAudited options auth request.

Lemma runScoped_start options m auth request s :
  runScoped options m auth request s =
    if setConfigFails (sv_world s) (ra_orgId auth) then (Throw DatabaseError, s <| sv_phase := phase_rls |>)
    else afterSetup options m auth request (s <| sv_phase := phase_handler |>).
Proof.
  unfold runScoped, setPhase, setRlsOrgContext, failing. rewrite bind_modify. unfold mbind at 1, H_bind at 1.
  change (sv_world (s <| sv_phase := phase_rls |>)) with (sv_world s). by destruct (setConfigFails _ _).
Qed.

Lemma notReached_answered {A} (a : A) s s1 status code :
  projectRefusal status code -> sentError status code s1 -> w_db (sv_world s1) = w_db (sv_world s) ->
  sv_callbacks s1 = sv_callbacks s -> notReached a s (Ok a) s1.
Proof. intros Hr Hs Hd Hc. split; [done|]. split; [done|]. left. split; [by left|]. by exists status, code. Qed.

(** The guards of the transaction. *)
Lemma runScoped_spec options m auth request s :
  freshReplyState s ->
  (exists o s', (forall h, runScoped (options <| ro_handler := h |>) m auth request s = (o, s')) /\
     notReached returned_reply s o s')
  \/ (projectAdmits options request (w_db (sv_world s)) /\ roleAdmits m auth request (w_db (sv_world s))).
Proof.
  intros Hf. setoid_rewrite runScoped_start. destruct (setConfigFails _ _).
  { left. do 2 eexists. split; [done|]. split; [done|]. split; [done|]. right. split; [|done].
    exists DatabaseError. split; [done|by left]. }
  set (s1 := s <| sv_phase := phase_handler |>). assert (Hf1 : freshReplyState s1) by exact Hf.
  destruct (deleted_guard options request s1 Hf1) as (b & s2 & E2 & G2).
  assert (E2' : forall h, rejectIfProjectDeleted (options <| ro_handler := h |>) request s1 = (Ok b, s2)) by (intros h; exact E2).
  unfold afterSetup. destruct b; cbn in G2.
  { left. exists (Ok returned_reply), s2. split; [intros h; by rewrite (bind_ok _ _ _ _ _ (E2' h))|].
    destruct G2 as (st & c & [-> ->] & Hs & Hd & _ & Hcb).
    apply (notReached_answered _ _ _ 404 "project_not_found"); [unfold projectRefusal; by apply (bool_decide_eq_true_1 _)|done..]. }
  destruct G2 as [Hdel Hgo2].
  assert (Hp2 : sv_phase s2 = phase_handler).
  { by rewrite (go_phase _ _ Hgo2). }
  destruct (role_guard auth m request s2 (go_reply _ _ Hgo2 Hf1)) as [(b & s3 & E3 & G3)|E3].
  2: { left. do 2 eexists. split; [intros h; rewrite (bind_ok _ _ _ _ _ (E2' h)); by rewrite (bind_throw _ _ _ _ _ E3)|].
       split; [exact (go_db _ _ Hgo2)|]. split; [exact (go_callbacks _ _ Hgo2)|]. right. split; [|exact (go_reply _ _ Hgo2 Hf1)].
       eexists. split; [done|]. right. split; [done|by right]. }
  destruct b; cbn in G3.
  { left. exists (Ok returned_reply), s3. split; [intros h; by rewrite (bind_ok _ _ _ _ _ (E2' h)), (bind_ok _ _ _ _ _ E3)|].
    destruct G3 as (st & c & [-> ->] & Hs & Hd & _ & Hcb).
    apply (notReached_answered _ _ _ 403 "insufficient_project_role"); [unfold projectRefusal; by apply (bool_decide_eq_true_1 _)|done| |].
    - by rewrite Hd, (go_db _ _ Hgo2).
    - by rewrite Hcb, (go_callbacks _ _ Hgo2). }
  right. destruct G3 as [Hrole _]. split; [exact Hdel|]. by rewrite (go_db _ _ Hgo2) in Hrole.
Qed.

(** What the transaction made of the request, whatever the commit does. *)
Lemma notReached_transaction {A} (a : A) s s0 o s1 :
  w_db (sv_world s0) = w_db (sv_world s) -> sv_callbacks s0 = sv_callbacks s ->
  notReached a s0 o s1 ->
  exists o' s', match o with
    | Ok x => if commitFails (sv_world s1)
              then (Throw DatabaseError, s1 <| sv_world ::= fun w => w <| w_db := w_db (sv_world s) |> |>)
              else (Ok x, s1)
    | Throw e => (Throw e, s1 <| sv_world ::= fun w => w <| w_db := w_db (sv_world s) |> |>)
    end = (o', s') /\ notReached a s o' s'.
Proof.
  intros Hd Hc (Hdb & Hcb & Hans).
  assert (Hthrow : forall e, (exists st c, projectRefusal st c /\ sentError st c s1) ->
    notReached a s (Throw e) (s1 <| sv_world ::= fun w => w <| w_db := w_db (sv_world s) |> |>)).
  { intros e Hsent. split; [done|]. split; [by rewrite <- Hc|]. left. split; [right; by exists e|exact Hsent]. }
  destruct Hans as [[[->|[e ->]] Hsent]|[(e & -> & Hphase) Hf]].
  - destruct (commitFails _); do 2 eexists; (split; [reflexivity|]); [by apply Hthrow|].
    split; [congruence|]. split; [congruence|]. left. split; [by left|done].
  - do 2 eexists. split; [reflexivity|]. by apply Hthrow.
  - do 2 eexists. split; [reflexivity|]. split; [done|]. split; [by rewrite <- Hc|]. right. split; [|exact Hf].
    exists e. split; [done|exact Hphase].
Qed.

Lemma runProtected_spec options rs auth request s :
  freshReplyState s ->
  (exists o s', (forall h, runProtectedHandler (options <| ro_handler := h |>) rs auth request s = (o, s')) /\
     notReached returned_reply s o s')
  \/ ((rs_requireOrgScope rs = true -> projectAdmits options request (w_db (sv_world s))) /\
      roleAdmits (rs_minimumProjectRole rs) auth request (w_db (sv_world s))).
Proof.
  intros Hf. unfold runProtectedHandler. destruct (rs_requireOrgScope rs); cbn [negb].
  - set (s0 := s <| sv_world := (sv_world s) <| w_tick ::= S |> <| w_now := clock (w_tick (sv_world s)) |> |>).
    destruct (runScoped_spec options (rs_minimumProjectRole rs) auth request s0 Hf) as [(o & s1 & E & Hn)|[Hp Hr]].
    2: { right. split; [intros _; exact Hp|exact Hr]. }
    left. destruct (notReached_transaction returned_reply s s0 o s1 eq_refl eq_refl Hn) as (o' & s' & E' & Hn').
    exists o', s'. split; [|done]. intros h. by rewrite (requestTransaction_eq _ _ _ _ (E h)).
  - destruct (rs_minimumProjectRole rs) as [m|]; [|right; split; [done|by intros ? ?]].
    set (s0 := s <| sv_world := (sv_world s) <| w_tick ::= S |> <| w_now := clock (w_tick (sv_world s)) |> |>).
    set (s1 := s0 <| sv_phase := phase_rls |>). set (s2 := s1 <| sv_phase := phase_handler |>).
    destruct (setConfigFails (sv_world s0) (ra_orgId auth)) eqn:Eset.
    { left. assert (E : (_ ← setPhase phase_rls; _ ← setRlsOrgContext (ra_orgId auth); _ ← setPhase phase_handler;
                          rejectIfBelowProjectRole auth m request) s0 = (Throw DatabaseError, s1)).
      { unfold setPhase, setRlsOrgContext, failing. rewrite bind_modify. unfold mbind at 1, H_bind at 1. fold s1.
        change (sv_world s1) with (sv_world s0). by rewrite Eset. }
      do 2 eexists. split.
      { intros h. unfold rejectUnscopedBelowProjectRole. apply bind_throw. rewrite (requestTransaction_eq _ _ _ _ E). reflexivity. }
      split; [done|]. split; [done|]. right. split; [|exact Hf]. exists DatabaseError. split; [done|by left]. }
    assert (E : (_ ← setPhase phase_rls; _ ← setRlsOrgContext (ra_orgId auth); _ ← setPhase phase_handler;
                  rejectIfBelowProjectRole auth m request) s0 = rejectIfBelow auth (Some m) request s2).
    { unfold setPhase, setRlsOrgContext, failing. rewrite bind_modify. unfold mbind at 1, H_bind at 1. fold s1.
      change (sv_world s1) with (sv_world s0). by rewrite Eset. }
    destruct (role_guard auth (Some m) request s2 Hf) as [(b & s3 & E3 & G3)|E3]; cycle 1.
    { left. rewrite E3 in E. do 2 eexists. split.
      { intros h. unfold rejectUnscopedBelowProjectRole. apply bind_throw. rewrite (requestTransaction_eq _ _ _ _ E). reflexivity. }
      split; [done|]. split; [done|]. right. split; [|exact Hf]. eexists. split; [done|]. right. split; [done|by right]. }
    rewrite E3 in E. destruct b; cbn in G3; [|right; split; [done|by destruct G3]].
    left. destruct G3 as (st & c & [-> ->] & Hs & Hd & _ & Hcb).
    assert (Hn : notReached true s0 (Ok true) s3).
    { apply (notReached_answered _ _ _ 403 "insufficient_project_role");
        [unfold projectRefusal; by apply (bool_decide_eq_true_1 _)|done..]. }
    destruct (notReached_transaction true s s0 (Ok true) s3 eq_refl eq_refl Hn) as (o' & s' & E' & Hn').
    exists (match o' with Ok _ => Ok returned_reply | Throw e => Throw e end), s'. split.
    + intros h. unfold rejectUnscopedBelowProjectRole. unfold mbind at 1, H_bind at 1.
      rewrite (requestTransaction_eq _ _ _ _ E), E'. destruct o' as [b'|e]; [|done].
      revert E'. destruct (commitFails _); [done|]. by intros [= <- <-].
    + destruct Hn' as (? & ? & Hans). split; [done|]. split; [done|].
      destruct Hans as [[Ho Hsent]|[(e & -> & Hph) Hfr]]; [left|right].
      * split; [|done]. destruct o' as [b'|e]; [by left|right; by exists e].
      * split; [by exists e|done].
Qed.

(** The request ended without the handler: with the answer of a guard, or with an exception before any
    answer (the error handler of the server answers those).  Only a denied capability wrote, its audit row. *)
Definition Denied (s : Server) (o : Outcome unit) (s' : Server) : Prop :=
  ((exists status code, refusal status code /\ sentError status code s') \/ (exists e, o = Throw e /\ freshReplyState s')) /\
  (w_db (sv_world s') = w_db (sv_world s) \/ sentError 403 "capability_denied" s').

Lemma guardRefusal_refusal st c : guardRefusal st c -> refusal st c.
Proof.
  unfold guardRefusal, refusal. intros Hin. repeat (apply elem_of_cons in Hin as [[= -> ->]|Hin]; [by apply (bool_decide_eq_true_1 _)|]).
  by apply not_elem_of_nil in Hin.
Qed.
Lemma projectRefusal_refusal st c : projectRefusal st c -> refusal st c.
Proof.
  unfold projectRefusal, refusal. intros Hin. repeat (apply elem_of_cons in Hin as [[= -> ->]|Hin]; [by apply (bool_decide_eq_true_1 _)|]).
  by apply not_elem_of_nil in Hin.
Qed.

(** What is done with the outcome of the protected handler. *)
Definition finishProtected (auth : RouteAuth) (m : H HandlerValue) : H unit :=
  tryCatch (result ← m; _ ← runPostCommitCallbacks; sendIfNeeded result) (fun e => sendSecureRouteFailure e (ra_orgId auth)).

Lemma sendFailure_sent e orgId st c s :
  sentError st c s -> exists e', sendSecureRouteFailure e orgId s = (Throw e', s).
Proof.
  intros (Hg & members & Hm). unfold sendSecureRouteFailure, isReplySent. rewrite !bind_gets, Hm. eexists. reflexivity.
Qed.

Lemma sendFailure_rls e orgId s :
  freshReplyState s -> sv_phase s = phase_rls ->
  exists s', sendSecureRouteFailure e orgId s = (Ok tt, s') /\ sentError 503 "service_unavailable" s' /\ sv_world s' = sv_world s.
Proof.
  intros Hf Hp. unfold sendSecureRouteFailure, isReplySent. rewrite !bind_gets. destruct Hf as [Hg Hn]. rewrite Hn, Hp.
  rewrite bool_decide_eq_true_2 by done.
  destruct (sendError_spec 503 "service_unavailable" "Database security context unavailable" s (conj Hg Hn))
    as (s' & E & Hsent & Hw & _). by exists s'.
Qed.

Lemma sendFailure_raised e orgId s :
  freshReplyState s -> sv_phase s = phase_handler -> e = DatabaseError \/ e = AppError "insufficient_role" 403 ->
  sendSecureRouteFailure e orgId s = (Throw e, s).
Proof.
  intros [Hg Hn] Hp He. unfold sendSecureRouteFailure, isReplySent. rewrite !bind_gets, Hn, Hp. by destruct He as [-> | ->].
Qed.

Lemma finish_notReached auth m s o s1 :
  m s = (o, s1) -> sv_callbacks s = [] -> notReached returned_reply s o s1 ->
  exists o' s', finishProtected auth m s = (o', s') /\ Denied s o' s' /\ w_db (sv_world s') = w_db (sv_world s).
Proof.
  intros E Hc (Hd & Hcb & Hans). unfold finishProtected, tryCatch.
  destruct Hans as [[[->|[e ->]] (st & c & Hr & Hs)]|[(e & -> & Hphase) Hf]].
  - rewrite (bind_ok _ _ _ _ _ E). unfold runPostCommitCallbacks, sendIfNeeded, isReplySent.
    rewrite bind_assoc, bind_gets, Hcb, Hc, bind_assoc, bind_modify. cbn [forEachInOrder]. rewrite bind_ret, bind_gets.
    do 2 eexists. split; [reflexivity|]. split; [|done]. split; [left; exists st, c; split; [by apply projectRefusal_refusal|done]|by left].
  - rewrite (bind_throw _ _ _ _ _ E). destruct (sendFailure_sent e (ra_orgId auth) st c s1 Hs) as [e' E']. rewrite E'.
    do 2 eexists. split; [reflexivity|]. split; [|done]. split; [left; exists st, c; split; [by apply projectRefusal_refusal|done]|by left].
  - rewrite (bind_throw _ _ _ _ _ E). destruct Hphase as [Hp|[Hp He]].
    + destruct (sendFailure_rls e (ra_orgId auth) s1 Hf Hp) as (s' & E' & Hs & Hw). rewrite E'.
      assert (Hd' : w_db (sv_world s') = w_db (sv_world s)) by by rewrite Hw.
      do 2 eexists. split; [reflexivity|]. split; [|done]. split; [left|by left].
      exists 503%Z, "service_unavailable". split; [unfold refusal; by apply (bool_decide_eq_true_1 _)|done].
    + rewrite (sendFailure_raised e _ s1 Hf Hp He). do 2 eexists. split; [reflexivity|]. split; [|done].
      split; [right; by exists e|by left].
Qed.

Lemma handleProtected_eq route auth request s :
  handleProtected route auth request s =
    (guardsPassed ← enforceProtectedGuards (br_options route) (br_security route) auth;
     if negb guardsPassed then mret tt
     else _ ← setPhase phase_handler;
          finishProtected auth (runProtectedHandler (br_options route) (br_security route) auth request)) s.
Proof. done. Qed.

(** Complete mediation, for the session [auth] of the caller. *)
Lemma handleProtected_mediated route auth request s :
  Incoming s ->
  Passes route auth request s \/
  exists o s', (forall h, handleProtected (withHandler h route) auth request s = (o, s')) /\ Denied s o s'.
Proof.
  intros [Hf Hcalls Hslots]. destruct (enforceProtectedGuards_spec (br_options route) (br_security route) auth s Hf Hslots)
    as (b & s1 & E1 & G1).
  assert (E1' : forall h, enforceProtectedGuards (br_options (withHandler h route)) (br_security (withHandler h route)) auth s
                  = (Ok b, s1)) by (intros h; exact E1).
  destruct b; cycle 1.
  { right. exists (Ok tt), s1. split; [intros h; by rewrite handleProtected_eq, (bind_ok _ _ _ _ _ (E1' h))|].
    destruct G1 as [(st & c & Hr & Hs & Hd)|Hs].
    - split; [|by left]. left. exists st, c. split; [by apply guardRefusal_refusal|done].
    - split; [|by right]. left. exists 403%Z, "capability_denied".
      split; [unfold refusal; by apply (bool_decide_eq_true_1 _)|done]. }
  destruct G1 as [(Hcaller & Hrate & Hmfa & Hcap) Hgo].
  set (s2 := s1 <| sv_phase := phase_handler |>).
  assert (Hf2 : freshReplyState s2) by exact (go_reply _ _ Hgo Hf).
  assert (Hdb : w_db (sv_world s2) = w_db (sv_world s)) by exact (go_db _ _ Hgo).
  destruct (runProtected_spec (br_options route) (br_security route) auth request s2 Hf2)
    as [(o & s3 & E3 & Hn)|[Hproject Hrole]]; [right|left].
  - assert (Hc2 : sv_callbacks s2 = []) by exact (eq_trans (go_callbacks _ _ Hgo) Hcalls).
    destruct (finish_notReached auth (fun _ => (o, s3)) s2 o s3 eq_refl Hc2 Hn) as (o' & s' & E' & [Hd _] & Hd').
    exists o', s'. split; [|split; [done|left; by rewrite Hd']]. intros h.
    rewrite handleProtected_eq, (bind_ok _ _ _ _ _ (E1' h)). cbn [negb]. unfold setPhase. rewrite bind_modify. fold s2.
    rewrite <- E'. unfold finishProtected, tryCatch, mbind, H_bind.
    change (br_options (withHandler h route)) with ((br_options route) <| ro_handler := h |>).
    change (br_security (withHandler h route)) with (br_security route). by rewrite (E3 h).
  - rewrite Hdb in Hproject, Hrole. by split.
Qed.

(** *** From the token on *)

(** The request [authenticate] lets through. *)
Definition withSession (c : AuthContext) (request : RouteRequest) : RouteRequest :=
  MkRouteRequest (rr_ip request) (rr_userAgent request) (rr_params request) (rr_query request) (Some (sessionAuth c)) false.

(** What a service does is to the data. *)
Definition sameRequest (s s' : Server) : Prop :=
  sv_process s' = sv_process s /\ sv_reply s' = sv_reply s /\ sv_callbacks s' = sv_callbacks s.

Lemma Incoming_same s s' : sameRequest s s' -> Incoming s -> Incoming s'.
Proof.
  intros (Hp & Hr & Hc) [Hf Hcb Hs]. split; [unfold freshReplyState; by rewrite Hr|by rewrite Hc|].
  unfold slotsCounted. by rewrite Hp.
Qed.

Lemma authenticateRequest_answers token s :
  exists outcome s1, db (authenticateRequest token) s = (Ok outcome, s1) /\ sameRequest s s1.
Proof.
  unfold db, authenticateRequest. destruct (requestToken token) as [t|]; [|by do 2 eexists].
  unfold catch. destruct ((c ← authContextOf t; mret (authenticated c)) (sv_world s)) as [[o|e] w]; by do 2 eexists.
Qed.

(** C7: the business code of a session route is mediated completely. When the token does not
    authenticate, the request answers [authenticate]'s refusal; when it does, either every guard the route
    declares admits the caller on the database as it is (platform operator or role, rate limit, MFA with
    its grace period, the capability gate, the project not deleted, the role in the project), or the
    request ends the same way whatever the handler is: with the status and code of the refusing guard, or
    an exception before any answer, the data untouched but for the audit row of a denied capability. *)
Theorem complete_mediation route token request s :
  Incoming s -> rs_requireAuth (br_security route) = true -> rs_delegation (br_security route) = false ->
  exists outcome s1, db (authenticateRequest token) s = (Ok outcome, s1) /\
    match outcome with
    | refusedWith code status =>
        exists s', (forall h, serveRoute (withHandler h route) token request s = (Ok tt, s')) /\ sentError status code s' /\
          sv_world s' = sv_world s1
    | authenticated c =>
        Passes route (sessionAuth c) (withSession c request) s1 \/
        exists o s', (forall h, serveRoute (withHandler h route) token request s = (o, s')) /\ Denied s1 o s'
    end.
Proof.
  intros Hin Hauth Hdel. destruct (authenticateRequest_answers token s) as (outcome & s1 & E & Hsame).
  exists outcome, s1. split; [exact E|].
  assert (Hserve : forall h, serveRoute (withHandler h route) token request s =
    match outcome with
    | refusedWith code status => sendStatus status (JObj [("code", JStr code)]) s1
    | authenticated c => handleSecureRouteRequest (withHandler h route) (withSession c request) s1
    end).
  { intros h. unfold serveRoute. change (br_security (withHandler h route)) with (br_security route). rewrite Hauth, Hdel.
    cbn [andb negb]. rewrite (bind_ok _ _ _ _ _ E). by destruct outcome. }
  pose proof (Incoming_same _ _ Hsame Hin) as Hin1.
  destruct outcome as [c|code status]; cycle 1.
  - destruct (sendStatus_spec status code [] s1 (in_fresh _ Hin1)) as (s' & Es & Hs & Hw & _). exists s'.
    split; [intros h; by rewrite Hserve|done].
  - destruct (handleProtected_mediated route (sessionAuth c) (withSession c request) s1 Hin1) as [Ha|(o' & s' & E' & Hd)];
      [by left|right]. exists o', s'. split; [|done]. intros h. rewrite Hserve. unfold handleSecureRouteRequest, isReplySent.
    rewrite bind_gets. destruct (in_fresh _ Hin1) as [_ ->]. cbn [isNotNull].
    change (br_security (withHandler h route)) with (br_security route). rewrite Hauth. exact (E' h).
Qed.
End mediation.
