(* ===== verification/RouteTheorems.v ===== *)
(** * Writing through a route

    A viewer of a project never reaches the code of a gated route that changes
    it, and which routes have no gate ([viewer_cannot_write]); and what an audited route changes commits
    together with its audit entry or not at all ([audited_all_or_nothing]). *)

From S2P Require Import Prelude Js Crypto FieldSet AuthStore Store Tx QuotaGate AuditLog Notifications Text Sessions Authenticate Mfa Login JsMap RateLimit Server CapabilityGate GateTheorems AuditPayload SecureRoute SecureRouteTheorems.
From Stdlib Require Import Ascii String.
From stdpp Require Import strings pretty.

Local Open Scope string_scope.
Local Open Scope list_scope.
Local Open Scope pv_scope.

Section routes.
Context `{Locale, Platform, NodeCrypto, Env, Unicode, OtpValidate, Passwords, JwtLibrary, ProcessEnv, Postgres, Jitter}.

(** ** The gate of the boot *)

Lemma bind_Ok {A B} (m : Outcome A) (k : A -> Outcome B) b : (m ≫= k) = Ok b -> exists a, m = Ok a /\ k a = Ok b.
Proof. destruct m as [a|e]; [by exists a|done]. Qed.

(** The reasons for which a route that changes a project has no gate. *)
Definition gateExemption (security : Security) (policy : ProjectRolePolicy) : option ProjectRoleUngatedReason :=
  match sec_minimumProjectRole security, policy with
  | Some viewer, _ => Some declared_viewer
  | Some _, _ | None, policy_pv => None
  | None, policy_extension_legacy => Some legacy_contract
  | None, policy_extension => if sec_requireAuth security =? Some false then Some unauthenticated else None
  end.

(** Every other one is registered with a gate, and for authenticated callers. *)
Lemma registered_gate hasAuthenticate options key policy route :
  registerBuiltRoute hasAuthenticate options key policy = Ok route ->
  ro_method options ∈ MUTATING_METHODS -> hasProjectIdParam (ro_url options) = true ->
  match gateExemption (ro_security options) policy with
  | None => rs_requireAuth (br_security route) = true /\
            exists m, rs_minimumProjectRole (br_security route) = Some m /\ (roleRank member <= roleRank m)%Z
  | Some reason => rs_minimumProjectRole (br_security route) = None /\
                   rs_projectRoleUngated (br_security route) = if policy =? policy_pv then None else Some reason
  end.
Proof.
  intros Hreg Hm Hp. unfold registerBuiltRoute in Hreg. apply bind_Ok in Hreg as ([] & Hassert & [= <-]). cbn [br_security].
  assert (Hgate : resolveProjectRoleGate (ro_method options) (ro_url options) (ro_security options) policy =
    match sec_minimumProjectRole (ro_security options) with
    | Some ((owner | admin | member) as declared) => MkProjectRoleGate (Some declared) None
    | _ => undeclaredGate (ro_security options) policy
    end).
  { unfold resolveProjectRoleGate. rewrite (bool_decide_eq_true_2 (ro_method options ∈ MUTATING_METHODS)), Hp by done. done. }
  destruct (gateExemption (ro_security options) policy) as [reason|] eqn:Ee.
  - cbn [resolveSecurity rs_minimumProjectRole rs_projectRoleUngated]. rewrite Hgate. unfold undeclaredGate, ungatedFor.
    unfold gateExemption in Ee. destruct (sec_minimumProjectRole _) as [[]|], policy; try done; cbn;
      try (destruct (_ =? Some false); [|done]); by injection Ee as <-.
  - assert (Hm' : exists m, rs_minimumProjectRole (resolveSecurity options key policy) = Some m /\ (roleRank member <= roleRank m)%Z).
    { cbn [resolveSecurity rs_minimumProjectRole]. rewrite Hgate. unfold undeclaredGate. unfold gateExemption in Ee.
      destruct (sec_minimumProjectRole _) as [[]|], policy; try done; cbn; try (destruct (_ =? Some false); [done|]); by eexists. }
    split; [|exact Hm']. destruct Hm' as (m & Em & _).
    unfold assertEffectiveConfig in Hassert. apply bind_Ok in Hassert as ([] & _ & Hs). unfold assertSecureRouteConfig in Hs.
    do 3 (match type of Hs with (if ?b then _ else _) = _ => destruct b; [done|] end). apply bind_Ok in Hs as ([] & Hs & _).
    unfold assertProjectRoleConfig in Hs. destruct (_ && _) in Hs; [done|]. rewrite Em in Hs.
    destruct (rs_requireAuth _); [done|]. done.
Qed.

(** C8: a viewer of a project reaches the code of a route that changes it only where the route says so.  A mutating
    route under [:projectId] that the boot accepts is registered in one of two ways.  With a gate of member or more
    and for authenticated callers: then every caller whose effective role in the project is viewer is answered
    without the handler, whatever the handler is, with the data untouched but for the audit row of a denied
    capability.  Or without a gate, exactly when it declares [minimumProjectRole: "viewer"], or is a route of an
    extension that declares nothing and either has the legacy contract or serves unauthenticated callers; and the
    reason of an extension is then recorded for the log of the boot. *)
Theorem viewer_cannot_write hasAuthenticate options key policy route :
  registerBuiltRoute hasAuthenticate options key policy = Ok route ->
  ro_method options ∈ MUTATING_METHODS -> hasProjectIdParam (ro_url options) = true ->
  match gateExemption (ro_security options) policy with
  | None =>
      rs_requireAuth (br_security route) = true /\
      (exists m, rs_minimumProjectRole (br_security route) = Some m /\ (roleRank member <= roleRank m)%Z) /\
      forall auth request s, Incoming s -> rr_authContext request = Some auth ->
        effectiveRoleOf (w_db (sv_world s)) auth (projectIdParamOf request) = Some viewer ->
        exists o s', (forall h, handleSecureRouteRequest (withHandler h route) request s = (o, s')) /\ Denied s o s'
  | Some reason =>
      rs_minimumProjectRole (br_security route) = None /\
      rs_projectRoleUngated (br_security route) = if policy =? policy_pv then None else Some reason
  end.
Proof.
  intros Hreg Hm Hp. pose proof (registered_gate _ _ _ _ _ Hreg Hm Hp) as Hgate.
  destruct (gateExemption _ policy); [exact Hgate|]. destruct Hgate as (Hra & m & Em & Hrank).
  split; [done|]. split; [by exists m|]. intros auth request s Hin Hauth Hrole.
  destruct (handleProtected_mediated route auth request s Hin) as [[_ _ _ _ _ Had]|(o & s' & E & Hd)].
  - destruct (Had m Em) as (r & Er & Hle). rewrite Hrole in Er. injection Er as <-. cbn in Hle, Hrank. lia.
  - exists o, s'. split; [|done]. intros h. unfold handleSecureRouteRequest, isReplySent. rewrite bind_gets.
    destruct (in_fresh _ Hin) as [_ ->]. cbn [isNotNull].
    change (br_security (withHandler h route)) with (br_security route). rewrite Hra, Hauth. exact (E h).
Qed.

(** ** The default audit entry *)

(** The resource the route names, as the path has it. *)
Definition resourceText (config : AuditConfig) (request : RouteRequest) : option string :=
  k ← ac_resourceIdFromParams config; if k =? "" then None else stringValueForKey (rr_params request) k.

(** The entry of this request. *)
Record entryOf (auth : RouteAuth) (request : RouteRequest) (config : AuditConfig) (row : AuditRow) : Prop := {
  en_org : al_orgId row = ra_orgId auth;
  en_actor : al_actorType row = "human";
  en_event : al_eventType row = ac_eventType config;
  en_resourceType : al_resourceType row = ac_resourceType config;
  en_resource : al_resourceId row = resourceText config request ≫= parseUuid;
  en_ip : al_ipAddress row = Some (rr_ip request);
}.

(** One row of the audit log more, its sequence number, and the usage the gates count. *)
Definition oneRowMore (w w' : World) (row : AuditRow) : Prop :=
  exists n usage seq, w' = w <| w_tick := n |> <| w_db := (w_db w)
    <| db_usage := usage |> <| db_auditSeq := seq |> <| db_audit := db_audit (w_db w) ++ [row] |> |>.

(** The resource is written the way PostgreSQL writes it. *)
Definition canonicalResource (config : AuditConfig) (request : RouteRequest) : Prop :=
  forall text u, resourceText config request = Some text -> parseUuid text = Some u -> text = uuidText u.

Lemma auditResourceId_spec config request w :
  exists o, auditResourceId config (rr_params request) w = (o, w) /\ forall r, o = Ok r -> r = resourceText config request.
Proof.
  unfold auditResourceId, resourceText. destruct (ac_resourceIdFromParams config) as [k|]; cbn [mbind option_bind].
  2: { eexists. split; [reflexivity|]. by intros r [= <-]. }
  case_bool_decide; [eexists; split; [reflexivity|]; by intros r [= <-]|].
  destruct (stringValueForKey _ k) as [text|]; [|by eexists].
  case_bool_decide; [by eexists|]. eexists. split; [reflexivity|]. by intros r [= <-].
Qed.

Lemma auditPayload_pure config params query w : exists o, auditPayload config params query w = (o, w).
Proof.
  unfold auditPayload. destruct (ac_payload config) as [f|]; [|by eexists]. destruct (f params query).
  destruct (sanitizeAuditPayload _ _ _); by eexists.
Qed.

Lemma uuidColumn_spec text w :
  exists o, uuidColumn text w = (o, w) /\ forall c, o = Ok c -> c = text ≫= parseUuid /\ (isNotNull text = true -> isNotNull c = true).
Proof.
  unfold uuidColumn. destruct text as [s|]; cbn [mbind option_bind]; [destruct (parseUuid s)|]; eexists;
    (split; [reflexivity|]); by try intros c [= <-].
Qed.

Lemma readOnly_firstActorTokenId userId : readOnly (firstActorTokenIdForUser userId).
Proof. unfold firstActorTokenIdForUser. read_only. Qed.

(** The HMAC over the text is the one the verifier computes over the column, when the text is canonical. *)
Lemma routeHmac_canonical f text key :
  (forall s, text = Some s -> exists u, hf_resourceId f = Some u /\ s = uuidText u) ->
  (text = None -> hf_resourceId f = None) -> routeHmac f text key = computeAuditHmac f key.
Proof.
  intros Hsome Hnone. unfold routeHmac, computeAuditHmac, canonicalJson. do 3 f_equal.
  unfold routeHmacObject, hmacObject. destruct text as [s|].
  - destruct (Hsome s eq_refl) as (u & -> & ->). done.
  - by rewrite (Hnone eq_refl).
Qed.

Lemma insertAuditRow_spec f previousHmac hmac u w :
  hf_previousEntryHmac f = default GENESIS_SENTINEL previousHmac ->
  wp (insertAuditRow f (hf_resourceId f) previousHmac hmac u)
    (fun o w' => forall row, o = Ok row ->
       storedFields row = f /\ al_previousEntryHmac row = previousHmac /\ al_hmac row = hmac /\
       al_chainSeq row = (db_auditSeq (w_db w) + 1)%Z /\ al_createdAt row = w_now w /\
       al_ipAddress row = un_ipAddress u /\
       exists n usage, w' = w <| w_tick := n |> <| w_db := (w_db w)
            <| db_usage := usage |> <| db_auditSeq := al_chainSeq row |>
            <| db_audit := db_audit (w_db w) ++ [row] |> |>) w.
Proof.
  intros Hp. unfold insertAuditRow, genRandomUuid, dbNow, nextChainSeq, mbind, M_bind, wp. cbv beta iota zeta.
  unfold insertRow. destruct (existsb _ _); [done|]. intros row [= <-].
  split; [unfold storedFields; cbn; rewrite <- Hp; by destruct f|]. do 5 (split; [done|]).
  exists (S (w_tick w)), (db_usage (w_db w)). destruct w as [db]. by destruct db.
Qed.

Lemma readAuditChainHead_spec orgId w :
  let '(o, w') := readAuditChainHead orgId w in
  w' = w /\ forall kv prev, o = Ok (kv, prev) -> sequenced (w_db w) -> prev = tailHmac (w_db w) orgId.
Proof.
  unfold readAuditChainHead, currentAuditKeyVersion, selectFirst. unfold mbind at 1, M_bind at 1.
  unfold mbind at 1, M_bind at 1. unfold mbind at 1, M_bind at 1. cbn [mret M_ret].
  assert (E : (getPreviousEntryHmac orgId w).2 = w) by done.
  destruct (getPreviousEntryHmac orgId w) as [o w'] eqn:Ep. cbn in E. subst w'.
  destruct o as [p|e]; [|done]. split; [done|]. intros kv prev [= <- <-] Hs.
  rewrite (getPreviousEntryHmac_spec orgId w Hs) in Ep. by injection Ep.
Qed.

(** What a committed entry is: a row of the request, at the end of the log and of its chain. *)
Lemma writeDefaultAudit_spec auth request config w :
  wp (writeDefaultAudit auth request config)
    (fun o w' => o = Ok tt -> exists row, entryOf auth request config row /\ oneRowMore w w' row /\
       forall key, w_auditKey w = Some key -> canonicalResource config request ->
         ChainOk (w_db w) (ra_orgId auth) key -> ChainOk (w_db w') (ra_orgId auth) key) w.
Proof.
  unfold writeDefaultAudit. apply wp_bind. unfold wp at 1. destruct (auditPayload_pure config (rr_params request) (rr_query request) w)
    as [[members|e] ->]; [|done].
  apply wp_bind. unfold wp at 1. destruct (auditResourceId_spec config request w) as (o & -> & Hr). destruct o as [r|e]; [|done].
  specialize (Hr r eq_refl).
  apply wp_bind. eapply wp_mono; [apply readOnly_firstActorTokenId|]. intros [token|e] w1 [n1 ->]; [|done].
  set (w1 := w <| w_tick := n1 |>).
  apply wp_bind. unfold wp at 1. destruct (readAuditChainHead (ra_orgId auth) w1) as [o w2] eqn:Ehead.
  assert (Hhead : w2 = w1 /\ forall kv prev, o = Ok (kv, prev) -> sequenced (w_db w) -> prev = tailHmac (w_db w) (ra_orgId auth)).
  { pose proof (readAuditChainHead_spec (ra_orgId auth) w1) as Hs. rewrite Ehead in Hs. destruct Hs as [-> Hs].
    split; [done|]. intros kv prev -> Hsq. by eapply Hs. }
  destruct Hhead as [-> Hprev]. destruct o as [[keyVersion prev]|e]; [|done]. specialize (Hprev _ _ eq_refl).
  apply wp_bind. unfold getAuditKey at 1, wp at 1. change (w_auditKey w1) with (w_auditKey w). destruct (w_auditKey w) as [key|] eqn:Ekey; [|done].
  apply wp_bind. eapply wp_mono; [apply gates_frame|]. intros [[]|e] w2 (n2 & usage & ->); [|done].
  apply wp_bind. unfold wp at 1. set (w2 := w1 <| w_tick := n2 |> <| w_db := _ |>).
  destruct (uuidColumn_spec r w2) as (o & -> & Hc). destruct o as [column|e]; [|done]. destruct (Hc column eq_refl) as [-> Hcanon].
  apply wp_bind. set (f := MkAuditLogEntryHmacFields _ _ _ _ _ _ _ _ _).
  eapply wp_mono; [apply (insertAuditRow_spec f prev _ _ w2 eq_refl)|].
  intros [row|e] w3 Hrow; [|done]. destruct (Hrow row eq_refl) as (Hf & Hpr & Hh & Hseq & Hat & Hip & n3 & usage3 & ->).
  apply wp_ret. intros _. exists row. assert (Hin := Hf). unfold storedFields, f in Hin. injection Hin as E1 E2 E3 E4 E5 E6 E7 E8 E9.
  split; [|split].
  - split; [exact E1|exact E3|exact E4|exact E6| |exact Hip]. by rewrite E5, <- Hr.
  - by exists n3, usage3, (al_chainSeq row).
  - intros k [= <-] Hres HC. eapply (ChainOk_append w2 _ f row); [|by intros _; symmetry|exact Ekey|].
    2: { eapply usageOnly_ChainOk; [|exact HC]. exists n2, usage. by destruct w. }
    split; [|by rewrite Hpr, E1; apply Hprev, HC|done|done|done|by rewrite <- Hf|by exists n3, usage3].
    exists key. split; [exact Ekey|]. rewrite Hh. apply routeHmac_canonical.
    + intros text ->. specialize (Hcanon eq_refl). cbn [mbind option_bind] in Hcanon. unfold f. cbn [hf_resourceId mbind option_bind].
      destruct (parseUuid text) as [u|] eqn:Eu; [|done]. exists u. split; [done|]. by apply Hres.
    + by intros ->.
Qed.

(** ** The audited transaction *)

(** Code that answers through the reply it is given: while the guard is on, it sends nothing, and it does
    not take the guard away. *)
Definition repliesThroughGuard (h : Handler) : Prop := forall ctx s,
  rp_guarded (sv_reply s) = true ->
  rp_guarded (sv_reply (h ctx s).2) = true /\ rp_sent (sv_reply (h ctx s).2) = rp_sent (sv_reply s).

(** The handler has run, and its entry was written after it. *)
Definition handledAndAudited (options : RouteOptions) (auth : RouteAuth) (request : RouteRequest) (config : AuditConfig)
    (s : Server) (value : HandlerValue) (s' : Server) : Prop :=
  exists sh sr row,
    w_db (sv_world sh) = w_db (sv_world s) /\
    ro_handler options (contextFor auth request true (Some config)) sh = (Ok value, sr) /\
    freshReplyState s' /\ oneRowMore (sv_world sr) (sv_world s') row /\ entryOf auth request config row /\
    forall key, w_auditKey (sv_world sr) = Some key -> canonicalResource config request ->
      ChainOk (w_db (sv_world sr)) (ra_orgId auth) key -> ChainOk (w_db (sv_world s')) (ra_orgId auth) key.

Lemma runAudited_spec options auth request config s :
  freshReplyState s -> ro_auditWriter options = None -> auditConfigFor options = Some config ->
  repliesThroughGuard (ro_handler options) ->
  hwp (runAudited options auth request)
    (fun o s' => forall value, o = Ok value -> handledAndAudited options auth request config s value s') s.
Proof.
  intros [Hg Hs] Hw Hc Hreply. unfold runAudited. cbv zeta. rewrite Hc, Hw. cbn [isNotNull from_option id].
  set (sh := s <| sv_reply ::= fun r => r <| rp_guarded := true |> |>).
  destruct (Hreply (contextFor auth request true (Some config)) sh eq_refl) as [Hg1 Hs1].
  unfold hwp. rewrite (bind_ok (guardSend (isNotNull (Some config))) _ s tt sh eq_refl).
  unfold tryFinally, mbind at 1, H_bind at 1.
  destruct (ro_handler options (contextFor auth request true (Some config)) sh) as [[value|e] sr] eqn:Eh; [|done].
  cbn [snd] in Hg1, Hs1. set (s1 := sr <| sv_reply ::= fun r => r <| rp_guarded := false |> |>).
  change (restoreSend (isNotNull (Some config)) sr) with (Ok (A := unit) tt, s1). cbv beta iota.
  set (s2 := s1 <| sv_phase := phase_audit |>). rewrite (bind_ok (setPhase phase_audit) _ s1 tt s2 eq_refl).
  unfold tryCatch, defaultAuditWriter, db, mbind at 1, H_bind at 1.
  pose proof (writeDefaultAudit_spec auth request config (sv_world s2)) as Hspec. unfold wp in Hspec.
  destruct (writeDefaultAudit auth request config (sv_world s2)) as [[[]|e] w']; [|done].
  cbn. intros v [= <-]. destruct (Hspec eq_refl) as (row & Hentry & Hrow & Hchain).
  exists sh, sr, row. split; [done|]. split; [exact Eh|]. split; [|done].
  split; [done|]. cbn. by rewrite Hs1.
Qed.

(** A reply of failure was sent, or the exception is left to the server's error handler. *)
Definition failed (o : Outcome unit) (s : Server) : Prop :=
  (exists e, o = Throw e) \/ exists status body, rp_sent (sv_reply s) = Some (status, body) /\ (400 <= status)%Z.

Lemma sendError_failed n code message s :
  (400 <= n)%Z -> rp_sent (sv_reply s) = None -> hwp (sendError n code message) failed s.
Proof.
  intros Hn Hs. unfold hwp, sendError, sendStatus, replyStatus. rewrite bind_modify. unfold replySend. cbn.
  destruct (rp_guarded _); [left; by eexists|]. rewrite Hs. right. cbn. by do 2 eexists.
Qed.

Lemma silent_failed {A} (m : H A) (k : A -> H unit) s :
  silent m -> rp_sent (sv_reply s) = None ->
  (forall a s', rp_sent (sv_reply s') = None -> hwp (k a) failed s') -> hwp (m ≫= k) failed s.
Proof.
  intros Hm Hs Hk. apply hwp_bind. unfold hwp at 1. destruct (Hm s) as [Hr _].
  destruct (m s) as [[a|e] s']; [|left; by eexists]. apply Hk. cbn in Hr. by rewrite Hr.
Qed.

Lemma sendSecureRouteFailure_failed e orgId s : hwp (sendSecureRouteFailure e orgId) failed s.
Proof.
  unfold sendSecureRouteFailure, isReplySent. unfold hwp. rewrite !bind_gets.
  destruct (rp_sent (sv_reply s)) eqn:Es; cbn [isNotNull]; [left; by eexists|].
  assert (Herr : forall n c t, (400 <= n)%Z -> hwp (sendError n c t) failed s) by (intros; by apply sendError_failed).
  case_bool_decide; [by apply Herr|].
  destruct e; try (match goal with |- context [if ?b then sendError _ _ _ else raise _] => destruct b end;
    [by apply Herr|left; by eexists]).
  case_bool_decide.
  { apply silent_failed; [apply silent_db|done|]. intros a s' Hs'. by apply sendError_failed. }
  case_bool_decide; [|case_bool_decide; by apply Herr].
  apply silent_failed; [apply silent_gets|done|]. intros jitter s1 Hs1.
  apply silent_failed; [apply silent_db|done|]. intros r s2 Hs2.
  unfold replyHeader, hwp. rewrite bind_modify. by apply sendError_failed.
Qed.

(** The transaction of an audited route, when it returns. *)
Lemma runScoped_ok options m auth request config s :
  freshReplyState s -> ro_auditWriter options = None -> auditConfigFor options = Some config ->
  repliesThroughGuard (ro_handler options) ->
  hwp (runScoped options m auth request)
    (fun o s' => forall value, o = Ok value ->
       (value = returned_reply /\ w_db (sv_world s') = w_db (sv_world s) /\
        exists status code, projectRefusal status code /\ sentError status code s')
       \/ handledAndAudited options auth request config s value s') s.
Proof.
  intros Hf Hw Hc Hreply. unfold hwp. rewrite runScoped_start. destruct (setConfigFails _ _); [done|].
  set (s1 := s <| sv_phase := phase_handler |>). assert (Hf1 : freshReplyState s1) by exact Hf. unfold afterSetup.
  destruct (deleted_guard options request s1 Hf1) as (b & s2 & E2 & G2). rewrite (bind_ok _ _ _ _ _ E2).
  destruct b; cbn in G2.
  { destruct G2 as (st & c & [-> ->] & Hs & Hd & _). intros v [= <-]. left. split; [done|]. split; [exact Hd|].
    exists 404%Z, "project_not_found". split; [unfold projectRefusal; by apply (bool_decide_eq_true_1 _)|done]. }
  destruct G2 as [_ Hgo2]. pose proof (go_reply _ _ Hgo2 Hf1) as Hf2.
  destruct (role_guard auth m request s2 Hf2) as [(b & s3 & E3 & G3)|E3]; [|by rewrite (bind_throw _ _ _ _ _ E3)].
  rewrite (bind_ok _ _ _ _ _ E3). destruct b; cbn in G3.
  { destruct G3 as (st & c & [-> ->] & Hs & Hd & _). intros v [= <-]. left. split; [done|].
    split; [by rewrite Hd, (go_db _ _ Hgo2)|].
    exists 403%Z, "insufficient_project_role". split; [unfold projectRefusal; by apply (bool_decide_eq_true_1 _)|done]. }
  destruct G3 as [_ Hgo3]. pose proof (runAudited_spec options auth request config s3 (go_reply _ _ Hgo3 Hf2) Hw Hc Hreply) as Hrun.
  unfold hwp in Hrun. destruct (runAudited options auth request s3) as [o s4]. intros v ->. right.
  destruct (Hrun v eq_refl) as (sh & sr & row & Hd & Hrest). exists sh, sr, row. split; [|done].
  by rewrite Hd, (go_db _ _ Hgo3), (go_db _ _ Hgo2).
Qed.

(** C9: an audited route writes all or nothing.  For a route of organisation scope with the default audit entry,
    and a handler that answers through the reply it is given, the transaction of a request ends in one of three
    ways.  A guard on the project answered, and the data is untouched.  Or the handler ran on the data of the
    request, and what it changed is committed with one more row of the audit log: the entry of this request, at the
    end of the organisation's chain, which stays intact when the path writes the resource the way PostgreSQL does;
    nothing was sent before the commit.  Or anything threw (the handler, the sanitizer, the write gates, the vault,
    the insert, the commit): the data is as it was before the request, and the caller is answered a failure. *)
Theorem audited_all_or_nothing options rs auth request config s :
  freshReplyState s -> rs_requireOrgScope rs = true -> ro_auditWriter options = None ->
  auditConfigFor options = Some config -> repliesThroughGuard (ro_handler options) ->
  let '(o, s') := runProtectedHandler options rs auth request s in
  match o with
  | Ok value =>
      (value = returned_reply /\ w_db (sv_world s') = w_db (sv_world s) /\
       exists status code, projectRefusal status code /\ sentError status code s')
      \/ handledAndAudited options auth request config s value s'
  | Throw e =>
      w_db (sv_world s') = w_db (sv_world s) /\
      hwp (finishProtected auth (runProtectedHandler options rs auth request)) failed s
  end.
Proof.
  intros Hf Hscope Hw Hc Hreply.
  assert (Hfail : forall e s', runProtectedHandler options rs auth request s = (Throw e, s') ->
    hwp (finishProtected auth (runProtectedHandler options rs auth request)) failed s).
  { intros e s' E. unfold finishProtected, hwp, tryCatch. rewrite (bind_throw _ _ _ _ _ E).
    apply (sendSecureRouteFailure_failed e). }
  destruct (runProtectedHandler options rs auth request s) as [o s'] eqn:Erun.
  destruct o as [value|e].
  all: unfold runProtectedHandler in Erun; rewrite Hscope in Erun; cbn [negb] in Erun.
  all: set (s0 := s <| sv_world := (sv_world s) <| w_tick ::= S |> <| w_now := clock (w_tick (sv_world s)) |> |>) in *.
  all: destruct (runScoped options (rs_minimumProjectRole rs) auth request s0) as [o1 s1] eqn:E1.
  all: rewrite (requestTransaction_eq _ _ _ _ E1) in Erun.
  2: { split; [|by eapply Hfail]. destruct o1; [destruct (commitFails _)|]; injection Erun; intros; by subst. }
  destruct o1 as [v|e1]; [|done]. destruct (commitFails _); [done|]. injection Erun as -> ->.
  exact (hwp_elim _ _ s0 _ _ (runScoped_ok options _ auth request config s0 Hf Hw Hc Hreply) E1 value eq_refl).
Qed.
End routes.
