(* ===== verification/RouteDemo.v ===== *)
(** * The routes at work, for the witnesses

    A server with the signed-in user 7 and one route that archives the project
    of its path; and the places where the pipeline does not do what its
    comments say. *)

From S2P Require Import Prelude Js Crypto FieldSet AuthStore Store Tx QuotaGate AuditLog Notifications Text Demo Sessions Authenticate Mfa Login AuthDemo AuthTheorems JsMap RateLimit Server CapabilityGate GateTheorems AuditPayload SecureRoute SecureRouteTheorems RouteTheorems.
From Stdlib Require Import Ascii String.
From stdpp Require Import strings.

Local Open Scope string_scope.
Local Open Scope list_scope.
Local Open Scope pv_scope.

#[local] Existing Instances byteLocale toyPlatform toyCrypto toyEnv asciiUnicode toyOtpValidate toyPasswords toyJwt.

Definition toyProcessEnv : ProcessEnv := {| NODE_ENV := Some "production"; RATE_LIMIT_TEST_BYPASS := None |}.
Definition toyPostgres : Postgres := {| setConfigFails := fun _ _ => false; commitFails := fun _ => false |}.
Definition toyJitter : Jitter := fun _ => 0%Z.
#[local] Existing Instances toyProcessEnv toyPostgres toyJitter.

Definition serverAt (w : World) : Server := MkServer w freshProcess freshReply phase_handler [] [].

Lemma Incoming_serverAt w : Incoming (serverAt w).
Proof. split; [done|done|]. by intros k n. Qed.

(** ** Rate limits *)

Definition adaCall (max : Z) : UserRateLimitInput := MkUserRateLimitInput "ada" "POST /p" max (Some 60000%Z) false.
Definition strangerCall (n : string) : UserRateLimitInput := MkUserRateLimitInput n "GET /s" 1 None true.

(** A call before the interval, one at the end of its window and two at the start of the next: the
    bound is reached. *)
Definition burst : list (Date * UserRateLimitInput) :=
  [(0, adaCall 2); (59998, strangerCall "x"); (59999, adaCall 2); (60000, adaCall 2); (60001, adaCall 2); (60002, adaCall 2)]%Z.

Lemma rate_limit_bound_witness :
  admitted false "ada:POST /p" 1 60001 burst noRateLimits = 2%Z /\
  admitted false "ada:POST /p" 59999 119999 burst noRateLimits = 3%Z /\
  (admitted false "ada:POST /p" 59999 (59999 + 60000) burst noRateLimits <= 3)%Z /\
  (admitted true "x:GET /s" 0 (0 + 60000) burst noRateLimits <= 1)%Z.
Proof.
  split; [vm_compute; reflexivity|]. split; [vm_compute; reflexivity|].
  assert (Hs : sortedCalls burst) by (repeat constructor; cbn; lia).
  split.
  - destruct (rate_limit_bound false "ada:POST /p" 2 60000 59999 burst) as (Hb & Hz & _); [reflexivity|lia| |exact Hs|].
    + unfold limitedCalls, burst. repeat (apply Forall_cons; split; [done|]). by apply Forall_nil.
    + rewrite (Hz eq_refl) in Hb. exact Hb.
  - destruct (rate_limit_bound true "x:GET /s" 1 60000 0 burst) as (Hb & _ & Hz); [reflexivity|lia| |exact Hs|].
    + unfold limitedCalls, burst. repeat (apply Forall_cons; split; [done|]). by apply Forall_nil.
    + rewrite (Hz ["x:GET /s"]) in Hb; [exact Hb| |vm_compute; discriminate].
      unfold burst. repeat (apply Forall_cons; split; [by try (intros _; left)|]). by apply Forall_nil.
Defined.

Lemma flood_isolated_witness :
  let calls := burst ++ [(60003, strangerCall "y"); (60004, strangerCall "z")]%Z in
  (userRateLimitBucketCount true (runCalls calls noRateLimits).2 <= USER_RATE_LIMIT_MAX_BUCKETS)%Z /\
  userDecisions calls (runCalls calls noRateLimits).1 = (runCalls (userCalls calls) noRateLimits).1.
Proof. apply (flood_isolated _ noRateLimits noRateLimits); [vm_compute; discriminate|reflexivity]. Defined.

(** ** Capability gates *)

Definition statusPage : CheckCapabilityInput :=
  MkCheckCapabilityInput "monitoring.public-status-page" (Some 1%N) (Some 7%N) (Some owner) surface_org None None false.
Definition permitting : CapabilityGate := fun _ _ => resolves_after 10 (JObj [("permitted", JBool true)]).
Definition hanging : CapabilityGate := fun _ _ => never_settles.

Lemma gate_fails_closed_witness :
  fst (checkCapability permitting statusPage (serverAt signedIn)) = Ok cap_permitted /\
  fst (checkCapability hanging statusPage (serverAt signedIn)) =
    Ok (cap_denied "gate_unavailable" PV_LOCALIZED_FALLBACK_MESSAGE) /\
  exists d s', checkCapability permitting statusPage (serverAt signedIn) = (Ok d, s') /\
    (d = cap_permitted <->
       (false = true \/ "monitoring.public-status-page" ∈ CapabilityId) /\
       (inFlightOf (uuidText 1) (serverAt signedIn) < 8)%Z /\
       gatePermits permitting (contextOf statusPage signedIn) (afterCallId signedIn) 250) /\
    (forall k, jsGet k (pr_inFlight (sv_process s')) = jsGet k (@nil (string * Z))) /\
    sv_world s' = afterCallId signedIn /\ totals s' = (1, 1)%Z.
Proof.
  split; [vm_compute; reflexivity|]. split; [vm_compute; reflexivity|].
  exact (gate_fails_closed permitting statusPage (serverAt signedIn) (in_slots _ (Incoming_serverAt signedIn))).
Defined.

(** A writer that adds what its row stands for to a counter of the database. *)
Definition countingWriter : DeniedRow -> M unit := fun row w =>
  (Ok tt, w <| w_db ::= fun db => db <| db_auditSeq ::= fun n => (n + Z.max 1 (dr_suppressedCount row))%Z |> |>).

Definition capability : string := "monitoring.public-status-page".
Definition threeDenials : list (Uuid * Uuid * string * string) :=
  [(1, 7, capability, "plan"); (1, 7, capability, "plan"); (1, 8, capability, "plan")]%N.

(** Of three denials one is written, one waits, and the row of the last is refused by the rate gate. *)
Lemma denials_accounted_witness :
  exists s', recordDenials writeDeniedRow threeDenials (serverAt signedIn) = (Ok tt, s') /\
    Lost writeDeniedRow threeDenials (serverAt signedIn) 1 s' /\ DampenerOk (pr_dampener (sv_process s')) /\
    denialsIn (db_audit (w_db (sv_world s'))) = 1%Z /\ pendingCount (pr_dampener (sv_process s')) = 1%Z.
Proof.
  destruct (denials_accounted threeDenials (serverAt signedIn)) as (lost & s' & E & Hl & Hok & Ha).
  - split; [apply NoDup_nil_2|apply Forall_nil_2|vm_compute; discriminate].
  - assert (Es : denialsIn (db_audit (w_db (sv_world s'))) = 1%Z /\ pendingCount (pr_dampener (sv_process s')) = 1%Z).
    { pose proof (f_equal snd E) as E2. cbn [snd] in E2. rewrite <- E2. split; vm_compute; reflexivity. }
    destruct Es as [E1 E2]. assert (lost = 1%Z) as ->.
    { assert (E0 : accounted (fun db => denialsIn (db_audit db)) (serverAt signedIn) = 0%Z) by (vm_compute; reflexivity).
      rewrite E0 in Ha. unfold accounted in Ha. cbv beta in Ha. rewrite E1, E2 in Ha.
      change (Z.of_nat (length threeDenials)) with 3%Z in Ha. lia. }
    exists s'. split; [exact E|]. split; [exact Hl|]. split; [exact Hok|]. by split.
Defined.

(** *** What the dampener loses *)

(** The key's own window is over with three denials waiting: the next denial opens a new window and the
    three are gone, neither written nor waiting. *)
Definition waiting : Server := (serverAt signedIn)
  <| sv_process ::= fun p => p <| pr_dampener := [((1, 7, capability)%N, MkDampenerEntry 0 "plan" 3)] |> |>.

Theorem expired_count_dropped :
  accounted db_auditSeq waiting = (accounted db_auditSeq (serverAt signedIn) + 3)%Z /\
  accounted db_auditSeq (recordCapabilityDeniedAudit countingWriter 1 7 capability "plan" waiting).2 =
    (accounted db_auditSeq (serverAt signedIn) + 1)%Z.
Proof. split; vm_compute; reflexivity. Qed.

(** The write gates of organisation 2 refuse; organisation 1's do not. *)
Definition refusingWriter : DeniedRow -> M unit := fun row =>
  if dr_orgId row =? 2%N then throw (SameTransactionAuditWriteError "audit_rate_limited") else countingWriter row.
Definition otherWaiting : Server := (serverAt signedIn)
  <| sv_process ::= fun p => p <| pr_dampener := [((2, 9, capability)%N, MkDampenerEntry 0 "plan" 3)] |> |>.

(** The flush of another organisation's window throws: the denial at hand is neither written nor counted. *)
Theorem foreign_flush_aborts_denial :
  exists s', recordCapabilityDeniedAudit refusingWriter 1 7 capability "plan" otherWaiting =
    (Throw (SameTransactionAuditWriteError "audit_rate_limited"), s') /\
    w_db (sv_world s') = w_db (sv_world otherWaiting) /\ pr_dampener (sv_process s') = [].
Proof. eexists. split; [vm_compute; reflexivity|]. split; vm_compute; reflexivity. Qed.

(** ** Payloads *)

(** An object that refers to itself, through an array, with a secret in it. *)
Definition selfHeap : Heap :=
  [(1, cell_object [("name", v_string "db"); ("dbPassword", v_string "s3cret"); ("peers", v_ref 2)]);
   (2, cell_array [v_ref 1; v_number "7"])]%N.

Lemma sanitized_payload_witness :
  sanitizeAuditPayload 9 selfHeap [("resource", v_ref 1)] =
    Some [("resource", JObj [("name", JStr "db"); ("peers", JArr [JStr "[Circular]"; JNum "7"])])] /\
  exists ms, sanitizeAuditPayload 9 selfHeap [("resource", v_ref 1)] = Some ms /\ clean (JObj ms) = true.
Proof.
  split; [vm_compute; reflexivity|].
  apply (sanitized_payload selfHeap (fun _ => 0%nat) 1 [("resource", v_ref 1)] 9).
  - intros loc c E. cbn in E. repeat case_bool_decide; simplify_eq; cbn;
      repeat (apply Forall_cons_2; [first [exact I|by eexists]|]); apply Forall_nil_2.
  - intros loc items loc' items' E Hin E'. cbn in E. repeat case_bool_decide; simplify_eq.
    apply elem_of_cons in Hin as [[= ->]|Hin]; [done|]. apply elem_of_cons in Hin as [?|Hin]; [done|].
    by apply not_elem_of_nil in Hin.
  - intros. lia.
  - apply Forall_cons_2; [by eexists|apply Forall_nil_2].
  - vm_compute. lia.
Defined.

(** An object in two members is not a cycle. *)
Theorem shared_object_reported_circular :
  sanitizeAuditPayload 9 [(1%N, cell_object [("id", v_string "a")])] [("before", v_ref 1); ("after", v_ref 1)] =
    Some [("before", JObj [("id", JStr "a")]); ("after", JStr "[Circular]")].
Proof. vm_compute. reflexivity. Qed.

(** An array that holds itself is: the recursion never ends. *)
Theorem cyclic_array_overflows fuel :
  sanitizeAuditPayload fuel [(1%N, cell_array [v_ref 1])] [("tags", v_ref 1)] = None.
Proof.
  assert (E : forall seen, sanitizeAuditValue fuel [(1%N, cell_array [v_ref 1])] (v_ref 1) seen = None).
  { induction fuel as [|fuel IH]; intros seen; [done|]. cbn [sanitizeAuditValue]. cbn [jsGet].
    rewrite bool_decide_eq_true_2 by done. cbn [mapSeen]. by rewrite IH. }
  unfold sanitizeAuditPayload. cbn [sanitizeMembers].
  assert (Ef : isForbiddenAuditKey "tags" = false) by (vm_compute; reflexivity). rewrite Ef. by rewrite E.
Qed.

(** ** A route that archives the project of its path *)

Definition archiveHandler : Handler := fun ctx =>
  _ ← db (updateWhere db_projects (fun p => proj_id p =? 2%N) (fun p => p <| proj_archivedAt := Some 5%Z |>));
  mret (returned_data (Some (JObj [("archived", JBool true)]))).

Definition archiveOptions : RouteOptions :=
  MkRouteOptions POST "/projects/:projectId/archive"
    (noSecurity <| sec_minimumRole := Some member |>
       <| sec_writeAuditEvent := Some (audit_config (MkAuditConfig "project.archived" (Some "project") (Some "projectId") None)) |>)
    None archiveHandler.
Definition archiveKey : string := "POST /projects/:projectId/archive".
Definition archiveRoute : BuiltRoute := MkBuiltRoute archiveKey archiveOptions (resolveSecurity archiveOptions archiveKey policy_pv).
Definition archiveRequest (projectId : string) : RouteRequest :=
  MkRouteRequest "10.0.0.1" (Some "curl") [("projectId", JStr projectId)] [] None false.

Definition archivedIn (s : Server) : list (option Date) := map proj_archivedAt (db_projects (w_db (sv_world s))).
Definition servedArchive : Outcome unit * Server :=
  Eval vm_compute in serveRoute archiveRoute adaRequest (archiveRequest (uuidText 2)) (serverAt signedIn).

Lemma complete_mediation_witness :
  registerBuiltRoute true archiveOptions archiveKey policy_pv = Ok archiveRoute /\
  serveRoute archiveRoute adaRequest (archiveRequest (uuidText 2)) (serverAt signedIn) = servedArchive /\
  rp_sent (sv_reply servedArchive.2) = Some (200%Z, Some (JObj [("archived", JBool true)])) /\
  archivedIn servedArchive.2 = [Some 5%Z] /\
  map al_eventType (db_audit (w_db (sv_world servedArchive.2))) =
    (map al_eventType (db_audit (w_db signedIn)) ++ ["project.archived"]) /\
  exists outcome s1, db (authenticateRequest adaRequest) (serverAt signedIn) = (Ok outcome, s1) /\
    match outcome with
    | refusedWith code status =>
        exists s', (forall h, serveRoute (withHandler h archiveRoute) adaRequest (archiveRequest (uuidText 2)) (serverAt signedIn)
            = (Ok tt, s')) /\ sentError status code s' /\ sv_world s' = sv_world s1
    | authenticated c =>
        Passes archiveRoute (sessionAuth c) (withSession c (archiveRequest (uuidText 2))) s1 \/
        exists o s', (forall h, serveRoute (withHandler h archiveRoute) adaRequest (archiveRequest (uuidText 2)) (serverAt signedIn)
            = (o, s')) /\ Denied s1 o s'
    end.
Proof.
  split; [vm_compute; reflexivity|]. split; [vm_compute; reflexivity|]. do 3 (split; [vm_compute; reflexivity|]).
  exact (complete_mediation archiveRoute adaRequest (archiveRequest (uuidText 2)) (serverAt signedIn)
           (Incoming_serverAt signedIn) eq_refl eq_refl).
Defined.

(** A user of the organisation who is a viewer of the project. *)
Definition viewerAuth : RouteAuth := MkRouteAuth 8 1 (Some member) false false.
Definition viewerRequest : RouteRequest :=
  MkRouteRequest "10.0.0.2" None [("projectId", JStr (uuidText 2))] [] (Some viewerAuth) false.
Definition viewerServer : Server :=
  serverAt (signedIn <| w_db ::= fun db => db <| db_projectMemberships := [MkProjectMembershipRow 1 2 8 viewer] |> |>).

(** The same route with the gate opted out of, as the revocation of a share is. *)
Definition openOptions : RouteOptions :=
  archiveOptions <| ro_security ::= fun sec => sec <| sec_minimumProjectRole := Some viewer |> |>.

Lemma viewer_cannot_write_witness :
  rp_sent (sv_reply (handleSecureRouteRequest archiveRoute viewerRequest viewerServer).2) =
    Some (403%Z, Some (errorBody "insufficient_project_role" "Your role in this project does not permit this action")) /\
  (exists o s', (forall h, handleSecureRouteRequest (withHandler h archiveRoute) viewerRequest viewerServer = (o, s')) /\
    Denied viewerServer o s') /\
  (forall route, registerBuiltRoute true openOptions archiveKey policy_pv = Ok route ->
     rs_minimumProjectRole (br_security route) = None).
Proof.
  split; [vm_compute; reflexivity|]. split.
  - assert (E : gateExemption (ro_security archiveOptions) policy_pv = None) by reflexivity.
    pose proof (viewer_cannot_write true archiveOptions archiveKey policy_pv archiveRoute) as Hv. rewrite E in Hv.
    destruct Hv as (_ & _ & Hv); [vm_compute; reflexivity| |reflexivity|].
    { unfold MUTATING_METHODS. apply (bool_decide_eq_true_1 _). vm_compute. reflexivity. }
    apply (Hv viewerAuth viewerRequest viewerServer (Incoming_serverAt _)); [reflexivity|vm_compute; reflexivity].
  - intros route Hr. refine (proj1 (viewer_cannot_write true openOptions archiveKey policy_pv route Hr _ eq_refl)).
    unfold MUTATING_METHODS. apply (bool_decide_eq_true_1 _). vm_compute. reflexivity.
Defined.

Definition archiveConfig : AuditConfig := MkAuditConfig "project.archived" (Some "project") (Some "projectId") None.
Definition ownerAuth : RouteAuth := MkRouteAuth 7 1 (Some owner) false false.
Definition archiveSecurity : ResolvedSecurity := br_security archiveRoute.

(** The same server where the commit of a request fails. *)
Definition failingPostgres : Postgres := {| setConfigFails := fun _ _ => false; commitFails := fun _ => true |}.

Lemma audited_all_or_nothing_witness :
  let run := runProtectedHandler archiveOptions archiveSecurity ownerAuth (archiveRequest (uuidText 2)) in
  let '(o, s') := run (serverAt signedIn) in
  match o with
  | Ok value =>
      (value = returned_reply /\ w_db (sv_world s') = w_db signedIn /\
       exists status code, projectRefusal status code /\ sentError status code s')
      \/ handledAndAudited archiveOptions ownerAuth (archiveRequest (uuidText 2)) archiveConfig (serverAt signedIn) value s'
  | Throw e => w_db (sv_world s') = w_db signedIn /\ hwp (finishProtected ownerAuth run) failed (serverAt signedIn)
  end.
Proof.
  apply (audited_all_or_nothing archiveOptions archiveSecurity ownerAuth (archiveRequest (uuidText 2)) archiveConfig (serverAt signedIn)).
  - by split.
  - reflexivity.
  - reflexivity.
  - reflexivity.
  - intros ctx s Hg. unfold archiveOptions, archiveHandler. cbn. by split.
Defined.

(** The three ways, run: committed; the writer of the entry refuses an identifier that is no [uuid]; the
    commit fails. *)
Example archive_commits :
  let '(o, s') := runProtectedHandler archiveOptions archiveSecurity ownerAuth (archiveRequest (uuidText 2)) (serverAt signedIn) in
  o = Ok (returned_data (Some (JObj [("archived", JBool true)]))) /\ archivedIn s' = [Some 5%Z] /\
  length (db_audit (w_db (sv_world s'))) = S (length (db_audit (w_db signedIn))).
Proof. vm_compute. repeat split. Qed.
Example archive_unaudited_undone :
  let '(o, s') := runProtectedHandler archiveOptions archiveSecurity ownerAuth (archiveRequest "payments") (serverAt signedIn) in
  o = Throw AuditWriteError /\ w_db (sv_world s') = w_db signedIn.
Proof. vm_compute. repeat split. Qed.
Example archive_commit_failed_undone :
  let '(o, s') := @runProtectedHandler byteLocale toyPlatform toyCrypto toyEnv asciiUnicode failingPostgres archiveOptions archiveSecurity
                    ownerAuth (archiveRequest (uuidText 2)) (serverAt signedIn) in
  o = Throw DatabaseError /\ w_db (sv_world s') = w_db signedIn.
Proof. vm_compute. repeat split. Qed.

(** ** Where the code is not what its comments say *)

(** The HMAC is over the text of the path, the column holds the identifier: a request that writes the
    identifier in upper case leaves a row that the verification of the log rejects. *)
Definition upperCaseId : string := "000000AB-0000-0000-0000-000000000002".

Theorem upper_case_resource_never_verifies :
  exists w' row, writeDefaultAudit ownerAuth (archiveRequest upperCaseId) archiveConfig signedIn = (Ok tt, w') /\
    last (db_audit (w_db w')) = Some row /\ isNotNull (al_resourceId row) = true /\
    (forall u, al_resourceId row = Some u -> uuidText u = "000000ab-0000-0000-0000-000000000002") /\
    (key ← w_auditKey w';
     match fst (evaluateAuditRow row key (al_keyVersion row) (al_previousEntryHmac row) w') with
     | Ok (reason, _) => reason
     | Throw _ => None
     end) = Some hmac_mismatch.
Proof.
  do 2 eexists. split; [vm_compute; reflexivity|]. split; [reflexivity|]. split; [reflexivity|].
  split; [by intros u [= <-]; vm_compute|]. vm_compute. reflexivity.
Qed.

(** A deleted project is gone for the routes of organisation scope only. *)
Definition unscopedOptions : RouteOptions := archiveOptions <| ro_security := noSecurity
  <| sec_requireOrgScope := Some false |> <| sec_writeAuditEvent := Some (audit_flag false) |> |>.
Definition unscopedRoute : BuiltRoute :=
  MkBuiltRoute archiveKey unscopedOptions (resolveSecurity unscopedOptions archiveKey policy_extension).
Definition deletedServer : Server :=
  serverAt (signedIn <| w_db ::= fun db => db <| db_projects ::= map (fun p => p <| proj_deletedAt := Some 4%Z |>) |> |>).

Theorem unscoped_route_serves_deleted_project :
  registerBuiltRoute true unscopedOptions archiveKey policy_extension = Ok unscopedRoute /\
  rp_sent (sv_reply (serveRoute archiveRoute adaRequest (archiveRequest (uuidText 2)) deletedServer).2) =
    Some (404%Z, Some (errorBody "project_not_found" "Project not found")) /\
  rp_sent (sv_reply (serveRoute unscopedRoute adaRequest (archiveRequest (uuidText 2)) deletedServer).2) =
    Some (200%Z, Some (JObj [("archived", JBool true)])).
Proof. split; [vm_compute; reflexivity|]. split; vm_compute; reflexivity. Qed.
