(* ===== verification/Projects.v ===== *)
(** * Projects: modules/projects

    routes.ts (creation, edits, tags, archive, delete, restore and the list of
    deleted projects), project-lifecycle.ts, archive-guards.ts,
    machine-users/archival-check.ts and packages/shared/utils/archive-authority.ts.

    A handler is a computation that gives the reply; it runs in the
    organisation's transaction of the route, which commits when it returns,
    whatever the status.  A [FOR UPDATE], an advisory lock and a statement on a
    row that another transaction holds wait for that transaction: [otherCommits]
    stands before them.  The warnings of the operational log are left out. *)

From S2P Require Import Prelude Js Crypto FieldSet AuthStore Store Tx QuotaGate AuditLog Credentials Sessions Shares JsMap RateLimit Server CapabilityGate AuditPayload SecureRoute.
From Stdlib Require Import Ascii String.
From stdpp Require Import strings pretty.

Local Open Scope string_scope.
Local Open Scope list_scope.
Local Open Scope pv_scope.

(** ** Replies *)

(** [reply.status(n).send(body); return reply], or [reply.status(n); return data]. *)
Inductive HandlerReply :=
| reply_sends (status : Z) (body : Json)
| reply_returns (status : Z) (data : option Json).

Definition isSuccess (r : HandlerReply) : bool := match r with reply_returns _ _ => true | reply_sends _ _ => false end.

Definition PROJECT_NOT_FOUND : HandlerReply := reply_sends 404 (errorBody "project_not_found" "Project not found").
Definition CREATION_REQUEST_CONFLICT : Json :=
  errorBody "creation_request_conflict" "This project creation request cannot be reused".
Definition PROJECT_SLUG_TAKEN : Json :=
  errorBody "slug_taken" "A project with this slug already exists in your organization".
Definition PROJECT_CREATION_NOT_PERMITTED : Json :=
  errorBody "project_creation_not_permitted" "Project creation is not available for this organization".
(** archive-guards.ts *)
Definition PROJECT_ARCHIVED_ERROR : Json :=
  errorBody "project_archived" "This project is archived and cannot be modified. Unarchive it first.".
(** lib/route-helpers.ts, without the details of the schema *)
Definition VALIDATION_ERROR : HandlerReply := reply_sends 422 (JObj [("code", JStr "validation_error")]).

Definition dataBody (data : Json) : option Json := Some (JObj [("data", data)]).
Definition JDate (d : Date) : Json := JStr (toISOString d).
Definition JOptDate (d : option Date) : Json := match d with Some d => JDate d | None => JNull end.
Definition roleName (r : OrgRole) : string :=
  match r with owner => "owner" | admin => "admin" | member => "member" | viewer => "viewer" end.

(** ** packages/shared/src/utils/archive-authority.ts *)

Inductive ProjectEditAuthority := project_owner | org_owner | org_admin.
Definition authorityName (a : ProjectEditAuthority) : string :=
  match a with project_owner => "project_owner" | org_owner => "org_owner" | org_admin => "org_admin" end.

Definition archiveAuthority (orgRole : OrgRole) (projectRole : option OrgRole) : option ProjectEditAuthority :=
  if negb (orgRole =? owner) && negb (orgRole =? admin) && negb (orgRole =? member) then None
  else if projectRole =? Some owner then Some project_owner
  else if orgRole =? owner then Some org_owner
  else None.

Definition projectEditAuthority (orgRole : OrgRole) (projectRole : option OrgRole) : option ProjectEditAuthority :=
  match archiveAuthority orgRole projectRole with
  | Some via => Some via
  | None => if orgRole =? admin then Some org_admin else None
  end.

(** ** Slugs *)

Definition isAlnum (c : ascii) : bool :=
  let n := N_of_ascii c in ((97 <=? n)%N && (n <=? 122)%N) || ((48 <=? n)%N && (n <=? 57)%N).

(** [.replace(/[^a-z0-9]+/g, '-')]; [inRun]: the characters before were replaced. *)
Fixpoint hyphenate (inRun : bool) (s : string) : string :=
  match s with
  | EmptyString => EmptyString
  | String c s' =>
      if isAlnum c then String c (hyphenate false s')
      else if inRun then hyphenate true s'
      else String "-"%char (hyphenate true s')
  end.

(** [s.slice(0, n)], on the characters of a slug *)
Fixpoint takeChars (n : nat) (s : string) : string :=
  match n, s with
  | O, _ | _, EmptyString => EmptyString
  | S n', String c s' => String c (takeChars n' s')
  end.

Fixpoint trimStart (s : string) : string :=
  match s with String c s' => if c =? "-"%char then trimStart s' else s | EmptyString => EmptyString end.
Fixpoint trimEnd (s : string) : string :=
  match s with
  | EmptyString => EmptyString
  | String c s' => let t := trimEnd s' in
                   if (t =? EmptyString) && (c =? "-"%char) then EmptyString else String c t
  end.
Definition trimHyphens (value : string) : string := trimEnd (trimStart value).

Definition firstIs (p : ascii -> bool) (s : string) : bool := match s with String c _ => p c | EmptyString => false end.
Fixpoint lastIs (p : ascii -> bool) (s : string) : bool :=
  match s with EmptyString => false | String c EmptyString => p c | String _ s' => lastIs p s' end.

(** schema.ts: [/^[a-z0-9][a-z0-9-]{1,48}[a-z0-9]$|^[a-z0-9]{3}$/] *)
Definition SLUG_REGEX (s : string) : bool :=
  (firstIs isAlnum s && lastIs isAlnum s && allChars (fun c => isAlnum c || (c =? "-"%char)) s
   && bool_decide (3 <= String.length s <= 50)%nat)
  || (allChars isAlnum s && bool_decide (String.length s = 3)%nat).

(** ** What stands around the organisation *)

(** extensions/loader.ts, as far as projects go: the hook that decides whether a project is created, and the
    one that learns that a project was archived. *)
Record ProjectCreateInput := MkProjectCreateInput {
  pci_organizationId : Uuid;
  pci_actorUserId : Uuid;
  pci_projectName : string;
  pci_currentProjectCount : Z;
  pci_creationRequestId : Uuid;
}.
Definition ProjectCreatePolicy : Type := ProjectCreateInput -> World -> GateAttempt Json.

Inductive ExtensionStatus :=
| extension_not_loaded
| extension_loaded (capabilities : list string) (projectLifecycle : option ProjectCreatePolicy).

Definition getProjectCreatePolicy (extensionState : ExtensionStatus) : option ProjectCreatePolicy :=
  match extensionState with
  | extension_not_loaded => None
  | extension_loaded capabilities projectLifecycle =>
      if negb ("project-lifecycle" ∈? capabilities) then None else projectLifecycle
  end.

Definition EXTENSION_CALLOUT_TIMEOUT_MS : Z := 10000.
Definition PROJECT_CREATE_POLICY_TIMEOUT_MS : Z := EXTENSION_CALLOUT_TIMEOUT_MS.

(** The creation requests of the other organisations, which the unique index sees and the queries do not. *)
Class OtherOrganizations := foreignCreationRequest : World -> Uuid -> bool.

Record CreateProjectBody := MkCreateProjectBody {
  cpb_name : string;
  cpb_slug : option string;
  cpb_creationRequestId : option Uuid;
  cpb_description : option string;
}.

(** [description]: [None] when the member is missing, [Some None] when it is [null]. *)
Record PatchProjectBody := MkPatchProjectBody {
  ppb_name : option string;
  ppb_description : option (option string);
  ppb_urls : option (list string);
}.

Section projects.
Context `{Locale, Platform, NodeCrypto, Env, Unicode, OtherOrganizations}.

Definition serverSlugFromProjectName (name : string) : string :=
  let slug := hyphenate false (toLowerCase (normalizeNFKC name)) in
  let trimmed := trimHyphens (takeChars 50 slug) in
  let bounded := if trimmed =? "" then "project" else trimmed in
  if bool_decide (3 <= String.length bounded)%nat then bounded else "project".

(** ** Statements *)

(** The trigger [set_updated_at] overrides the column with [now()]. *)
Definition updateProjects (p : ProjectRow -> bool) (f : ProjectRow -> ProjectRow) : M (list ProjectRow) :=
  now ← dbNow;
  updateWhere db_projects p (fun r => (f r) <| proj_updatedAt := now |>).

(** A query over more than one table. *)
Definition query {A} (f : Db -> A) : M A := fun w => (Ok (f (w_db w)), w).

(** [SELECT ... FROM projects WHERE id = $1 FOR UPDATE LIMIT 1] *)
Definition lockProject (projectId : Uuid) : M (option ProjectRow) :=
  _ ← otherCommits;
  selectFirst db_projects (fun p => proj_id p =? projectId).

Definition findProject (projectId : Uuid) : M (option ProjectRow) :=
  selectFirst db_projects (fun p => proj_id p =? projectId).

Definition writeProjectAudit (auth : RouteAuth) (eventType : string) (resourceType : string) (resourceId : Uuid)
    (projectId : option Uuid) (payload : list (string * Json)) (meta : RequestMeta) : M unit :=
  rethrowAsSameTransactionAuditWriteError (
    actorTokenId ← firstActorTokenIdForUser (ra_userId auth);
    writeHumanAuditEntry {| af_orgId := ra_orgId auth; af_actorTokenId := actorTokenId; af_eventType := eventType;
      af_resourceId := Some resourceId; af_resourceType := Some resourceType; af_payload := payload;
      af_unsigned := MkUnsigned projectId (rm_ipAddress meta) (rm_userAgent meta) None |}).

(** ** Who may *)

Definition callerProjectRole (auth : RouteAuth) (projectId : Uuid) : M (option OrgRole) :=
  getProjectMembershipRole (ra_orgId auth) projectId (ra_userId auth).

Definition callerArchiveAuthorization (auth : RouteAuth) (projectId : Uuid) : M (option ProjectEditAuthority) :=
  callerRole ← callerProjectRole auth projectId;
  orgRole ← orgRoleOrDeny auth;
  mret (archiveAuthority orgRole callerRole).

Definition callerEditAuthorization (auth : RouteAuth) (projectId : Uuid) : M (option ProjectEditAuthority) :=
  callerRole ← callerProjectRole auth projectId;
  orgRole ← orgRoleOrDeny auth;
  mret (projectEditAuthority orgRole callerRole).

Definition callerCanManageMembers (auth : RouteAuth) (projectId : Uuid) : M bool :=
  callerRole ← callerProjectRole auth projectId;
  orgRole ← orgRoleOrDeny auth;
  mret ((callerRole =? Some admin) || (callerRole =? Some owner) || (orgRole =? admin) || (orgRole =? owner)).

Inductive ActionVerb := verb_archive | verb_unarchive | verb_edit | verb_delete | verb_restore.
Definition verbName (v : ActionVerb) : string :=
  match v with
  | verb_archive => "archive" | verb_unarchive => "unarchive" | verb_edit => "edit" | verb_delete => "delete"
  | verb_restore => "restore"
  end.

Definition insufficientRole (message : string) : HandlerReply := reply_sends 403 (errorBody "insufficient_role" message).
Definition notTheOwner (verb : ActionVerb) : HandlerReply :=
  insufficientRole match verb with
                   | verb_edit => "Only the project owner, an organization owner or an organization admin can edit a project"
                   | _ => "Only the project owner can " +:+ verbName verb +:+ " a project"
                   end.

(** The refusal, or the locked row and the authority of the caller. *)
Definition loadOwnedProjectForArchiveToggle (auth : RouteAuth) (projectId : Uuid) (verb : ActionVerb)
    : M (HandlerReply + ProjectRow * ProjectEditAuthority) :=
  visible ← callerCanSeeProject auth projectId;
  if negb visible then mret (inl PROJECT_NOT_FOUND)
  else
    project ← lockProject projectId;
    match project with
    | None => mret (inl PROJECT_NOT_FOUND)
    | Some project =>
        authorizedVia ← match verb with
                        | verb_edit => callerEditAuthorization auth projectId
                        | _ => callerArchiveAuthorization auth projectId
                        end;
        match authorizedVia with
        | None => mret (inl (notTheOwner verb))
        | Some via => mret (inr (project, via))
        end
    end.

(** ** archive-guards.ts *)

Definition findBlockingRotationIds (projectId : Uuid) : M (list Uuid) :=
  rows ← selectWhere db_rotations
           (fun r => (rot_projectId r =? projectId) && (rot_status r ∈? BLOCKING_ROTATION_STATUSES));
  mret (map rot_id rows).

(** The credentials of the project. *)
Definition credentialsOf (projectId : Uuid) (db : Db) : list Uuid :=
  map cred_id (List.filter (fun c => cred_projectId c =? projectId) (db_credentials db)).

Definition findBlockingShareIds (tenant projectId : Uuid) : M (list Uuid) :=
  query (fun db => map sh_id (List.filter (scoped tenant (fun s =>
    (sh_credentialId s ∈? credentialsOf projectId db) && (sh_status s =? shareActive))) (db_shares db))).

(** machine-users/archival-check.ts: the keys that could still authenticate, with their users *)
Definition machineUsersOf (projectId : Uuid) (db : Db) : list Uuid :=
  map mu_id (List.filter (fun m => mu_projectId m =? Some projectId) (db_machineUsers db)).

Definition isActiveKey (now : Date) (k : ApiKeyRow) : bool :=
  isNull (ak_revokedAt k) && match ak_expiresAt k with None => true | Some e => now <? e end.

Definition activeMachineUserKeysQuery (projectId : Uuid) : M (list ApiKeyRow) :=
  now ← newDate;
  query (fun db => List.filter (fun k => (ak_machineUserId k ∈? machineUsersOf projectId db) && isActiveKey now k)
                     (db_apiKeys db)).

Definition hasActiveMachineUserKeys (projectId : Uuid) : M bool :=
  rows ← activeMachineUserKeysQuery projectId; mret (match rows with [] => false | _ => true end).

Definition isProjectArchived (projectId : Uuid) : M bool :=
  row ← findProject projectId;
  mret (isNotNull (row ≫= proj_archivedAt)).

(** ** project-lifecycle.ts *)

Definition PROJECT_DELETE_GRACE_DAYS : Z := 30.
Definition DAY_MS : Z := 86400000.
Definition purgeAfterFor (deletedAt : Date) : Date := (deletedAt + PROJECT_DELETE_GRACE_DAYS * DAY_MS)%Z.

Definition activeRotationsBody (ids : list Uuid) : Json :=
  JObj [("error", JStr "active_rotations"); ("rotationIds", JArr (map JUuid ids))].
Definition activeKeysBody (keys : list ApiKeyRow) : Json :=
  JObj [("error", JStr "active_machine_user_keys"); ("machineUserIds", JArr (map (fun k => JUuid (ak_machineUserId k)) keys))].
Definition activeSharesBody (ids : list Uuid) : Json :=
  JObj [("error", JStr "active_shares"); ("shareIds", JArr (map JUuid ids))].

(** [None]: not blocked. *)
Definition findDeleteBlockers (projectId : Uuid) : M (option Json) :=
  rotationIds ← findBlockingRotationIds projectId;
  match rotationIds with
  | _ :: _ => mret (Some (activeRotationsBody rotationIds))
  | [] =>
      keys ← activeMachineUserKeysQuery projectId;
      mret (match keys with _ :: _ => Some (activeKeysBody keys) | [] => None end)
  end.

Definition revokeProjectShares (tenant projectId : Uuid) : M (list ShareRow) :=
  now ← newDate;
  _ ← otherCommits;
  ids ← query (credentialsOf projectId);
  updateWhere db_shares (scoped tenant (fun s => (sh_status s =? shareActive) && (sh_credentialId s ∈? ids)))
    (fun s => s <| sh_status := shareRevoked |> <| sh_revokedAt := Some now |>).

Definition isPendingInvitation (projectId : Uuid) (i : ProjectInvitationRow) : bool :=
  (pinv_projectId i =? projectId) && isNull (pinv_revokedAt i) && isNull (pinv_acceptedAt i).

Definition revokePendingInvitations (projectId : Uuid) : M unit :=
  now ← newDate;
  _ ← otherCommits;
  _ ← updateWhere db_projectInvitations (isPendingInvitation projectId) (fun i => i <| pinv_revokedAt := Some now |>);
  mret tt.

Definition markProjectDeleted (projectId actorUserId : Uuid) (wasArchived : bool) (now : Date) : M (option ProjectRow) :=
  rows ← updateProjects (fun p => (proj_id p =? projectId) && isNull (proj_deletedAt p))
    (fun p => p <| proj_deletedAt := Some now |> <| proj_deletedBy := Some actorUserId |>
                <| proj_purgeAfter := Some (purgeAfterFor now) |>
                <| proj_archivedAt := if wasArchived then proj_archivedAt p else Some now |>);
  mret (head rows).

Definition markProjectRestored (projectId : Uuid) : M (option ProjectRow) :=
  _ ← newDate;
  rows ← updateProjects (fun p => (proj_id p =? projectId) && (isNotNull (proj_deletedAt p) && isNull (proj_purgedAt p)))
    (fun p => p <| proj_deletedAt := None |> <| proj_deletedBy := None |> <| proj_purgeAfter := None |>);
  mret (head rows).

Definition deletedAtLe (a b : ProjectRow) : bool := default 0%Z (proj_deletedAt a) <=? default 0%Z (proj_deletedAt b).
Definition purgeAfterLe (a b : ProjectRow) : bool := default 0%Z (proj_purgeAfter a) <=? default 0%Z (proj_purgeAfter b).

(** The rows with both dates. *)
Definition listDeletedProjects : M (list ProjectRow) :=
  rows ← selectOrdered db_projects (fun p => isNotNull (proj_deletedAt p) && isNull (proj_purgedAt p)) deletedAtLe;
  mret (List.filter (fun p => isNotNull (proj_deletedAt p) && isNotNull (proj_purgeAfter p)) rows).

(** Deleted, not purged, and [purge_after <= now]. *)
Definition isPurgeDue (now : Date) (p : ProjectRow) : bool :=
  isNotNull (proj_deletedAt p) && isNull (proj_purgedAt p)
  && match proj_purgeAfter p with Some d => d <=? now | None => false end.

Definition findPurgeDueProjectIds (now : Date) : M (list Uuid) :=
  rows ← selectOrdered db_projects (isPurgeDue now) purgeAfterLe;
  mret (map proj_id (take 100 rows)).

(** [DELETE FROM t WHERE project_id = $1] for the tables of the schema that the model has, with what goes by
    cascade: the items of the rotations, the keys of the machine users, and the versions, shares, dependencies and
    dismissals of the credentials.  A rotation is of the project of its credential, so none is left when the
    credentials go.  PROJECT_PURGE_TABLES names the tables of status pages, alerts, endpoints, certificates,
    domains, payments and imports as well. *)
Definition deleteRotationsOf (projectId : Uuid) : M unit :=
  rotationIds ← query (fun db => map rot_id (List.filter (fun r => rot_projectId r =? projectId) (db_rotations db)));
  _ ← deleteWhere db_rotations (fun r => rot_projectId r =? projectId);
  deleteWhere db_items (fun i => item_rotationId i ∈? rotationIds).

Definition deleteMachineUsersOf (projectId : Uuid) : M unit :=
  ids ← query (machineUsersOf projectId);
  _ ← deleteWhere db_machineUsers (fun m => mu_projectId m =? Some projectId);
  deleteWhere db_apiKeys (fun k => ak_machineUserId k ∈? ids).

Definition deleteCredentialsOf (projectId : Uuid) : M unit :=
  ids ← query (credentialsOf projectId);
  _ ← deleteWhere db_credentials (fun c => cred_projectId c =? projectId);
  _ ← deleteWhere db_versions (fun v => cv_credentialId v ∈? ids);
  _ ← deleteWhere db_shares (fun s => sh_credentialId s ∈? ids);
  _ ← deleteWhere db_dependencies (fun d => dep_credentialId d ∈? ids);
  deleteWhere db_nudgeDismissals (fun n => nd_credentialId n ∈? ids).

Definition PROJECT_PURGE_TABLES (projectId : Uuid) : list (M unit) :=
  [ deleteRotationsOf projectId; deleteMachineUsersOf projectId; deleteCredentialsOf projectId;
    deleteWhere db_projectInvitations (fun i => pinv_projectId i =? projectId);
    deleteWhere db_lifecycleEvents (fun e => le_projectId e =? projectId);
    deleteWhere db_projectMemberships (fun m => pmb_projectId m =? projectId) ].

(** The tombstone of a row. *)
Definition tombstone (now : Date) (p : ProjectRow) : ProjectRow :=
  p <| proj_name := "Purged project" |> <| proj_slug := "purged-" +:+ uuidText (proj_id p) |>
    <| proj_description := None |> <| proj_tags := [] |> <| proj_urls := [] |>
    <| proj_creationRequestId := None |> <| proj_createdBy := None |> <| proj_purgedAt := Some now |>.

Definition eraseProjectData (projectId : Uuid) (now : Date) : M bool :=
  _ ← otherCommits;
  due ← selectFirst db_projects (fun p => (proj_id p =? projectId) && isPurgeDue now p);
  match due with
  | None => mret false
  | Some _ =>
      _ ← forEachSequential (PROJECT_PURGE_TABLES projectId) id;
      _ ← updateProjects (fun p => proj_id p =? projectId) (tombstone now);
      mret true
  end.

(** ** routes.ts: the life of a project *)

Definition lifecyclePayload (auth : RouteAuth) (projectId : Uuid) (archivedAt : Date) : Json :=
  JObj [("organizationId", JUuid (ra_orgId auth)); ("projectId", JUuid projectId); ("archivedAt", JDate archivedAt);
        ("archivedByUserId", JUuid (ra_userId auth))].

Definition insertProjectArchivedLifecycleEvent (auth : RouteAuth) (projectId : Uuid) (archivedAt : Date) : M unit :=
  id ← genRandomUuid;
  now ← dbNow;
  _ ← insertRow db_lifecycleEvents lifecycleEventConflict
        {| le_id := id; le_orgId := ra_orgId auth; le_projectId := projectId; le_eventType := "project_archived";
           le_payload := lifecyclePayload auth projectId archivedAt; le_status := "pending"; le_attemptCount := 0;
           le_lastAttemptAt := None; le_lastError := None; le_createdAt := now; le_deliveredAt := None |};
  mret tt.

Definition conflict (code message : string) : HandlerReply := reply_sends 409 (errorBody code message).

Definition archiveState (p : ProjectRow) (archivedAt : option Date) (isArchived : bool) : HandlerReply :=
  reply_returns 200 (dataBody (JObj [("id", JUuid (proj_id p)); ("name", JStr (proj_name p)); ("slug", JStr (proj_slug p));
    ("archivedAt", JOptDate archivedAt); ("isArchived", JBool isArchived)])).

Definition viaPayload (via : ProjectEditAuthority) : list (string * Json) := [("authorizedVia", JStr (authorityName via))].

(** What blocks an archive: rotations, then shares, then keys. *)
Definition findArchiveBlockers (tenant projectId : Uuid) : M (option Json) :=
  rotationIds ← findBlockingRotationIds projectId;
  match rotationIds with
  | _ :: _ => mret (Some (activeRotationsBody rotationIds))
  | [] =>
      shareIds ← findBlockingShareIds tenant projectId;
      match shareIds with
      | _ :: _ => mret (Some (activeSharesBody shareIds))
      | [] =>
          keys ← activeMachineUserKeysQuery projectId;
          mret (match keys with _ :: _ => Some (activeKeysBody keys) | [] => None end)
      end
  end.

(** POST /:projectId/archive *)
Definition archiveProject (auth : RouteAuth) (projectId : Uuid) (meta : RequestMeta) : M HandlerReply :=
  preflight ← loadOwnedProjectForArchiveToggle auth projectId verb_archive;
  match preflight with
  | inl refused => mret refused
  | inr (project, via) =>
      if isNotNull (proj_archivedAt project) then mret (conflict "already_archived" "Project is already archived")
      else
        blockers ← findArchiveBlockers (ra_orgId auth) projectId;
        match blockers with
        | Some body => mret (reply_sends 409 body)
        | None =>
            now ← newDate;
            _ ← newDate;
            archived ← updateProjects (fun p => (proj_id p =? projectId) && isNull (proj_archivedAt p))
                         (fun p => p <| proj_archivedAt := Some now |>);
            match head archived with
            | None => mret (conflict "already_archived" "Project is already archived")
            | Some row =>
                _ ← writeProjectAudit auth "project.archived" "project" (proj_id row) None (viaPayload via) meta;
                _ ← insertProjectArchivedLifecycleEvent auth (proj_id row) (default now (proj_archivedAt row));
                mret (archiveState row (proj_archivedAt row) true)
            end
        end
  end.

(** POST /:projectId/unarchive *)
Definition unarchiveProject (auth : RouteAuth) (projectId : Uuid) (meta : RequestMeta) : M HandlerReply :=
  preflight ← loadOwnedProjectForArchiveToggle auth projectId verb_unarchive;
  match preflight with
  | inl refused => mret refused
  | inr (project, via) =>
      if isNull (proj_archivedAt project) then mret (conflict "not_archived" "Project is not archived")
      else
        _ ← newDate;
        restored ← updateProjects (fun p => (proj_id p =? projectId) && isNotNull (proj_archivedAt p))
                     (fun p => p <| proj_archivedAt := None |>);
        match head restored with
        | None => mret (conflict "not_archived" "Project is not archived")
        | Some row =>
            _ ← writeProjectAudit auth "project.unarchived" "project" (proj_id row) None (viaPayload via) meta;
            mret (archiveState row None false)
        end
  end.

(** One audit entry for each share that the deletion revoked. *)
Definition auditRevokedShare (auth : RouteAuth) (projectId : Uuid) (meta : RequestMeta) (share : ShareRow) : M unit :=
  writeProjectAudit auth "credential.share_revoked" "credential_share" (sh_id share) (Some projectId)
    [("credentialId", JUuid (sh_credentialId share)); ("reason", JStr "project_deleted");
     ("attributeKeys", JOptArr (sh_attributeKeys share))] meta.

(** DELETE /:projectId *)
Definition deleteProject (auth : RouteAuth) (projectId : Uuid) (meta : RequestMeta) : M HandlerReply :=
  preflight ← loadOwnedProjectForArchiveToggle auth projectId verb_delete;
  match preflight with
  | inl refused => mret refused
  | inr (project, via) =>
      blockers ← findDeleteBlockers projectId;
      match blockers with
      | Some body => mret (reply_sends 409 body)
      | None =>
          now ← newDate;
          let wasArchived := isNotNull (proj_archivedAt project) in
          deleted ← markProjectDeleted projectId (ra_userId auth) wasArchived now;
          match deleted with
          | None => mret (conflict "already_deleted" "Project is already deleted")
          | Some row =>
              revokedShares ← revokeProjectShares (ra_orgId auth) projectId;
              _ ← revokePendingInvitations projectId;
              _ ← forEachSequential revokedShares (auditRevokedShare auth projectId meta);
              let count := JInt (Z.of_nat (length revokedShares)) in
              _ ← writeProjectAudit auth "project.deleted" "project" (proj_id row) (Some (proj_id row))
                    (viaPayload via ++ [("purgeAfter", JDate (purgeAfterFor now)); ("revokedShareCount", count);
                                        ("wasArchived", JBool wasArchived)]) meta;
              mret (reply_returns 200 (dataBody (JObj
                [("id", JUuid (proj_id row)); ("name", JStr (proj_name row)); ("slug", JStr (proj_slug row));
                 ("deletedAt", JDate now); ("purgeAfter", JDate (purgeAfterFor now)); ("revokedShareCount", count)])))
          end
      end
  end.

(** POST /:projectId/restore *)
Definition restoreProject (auth : RouteAuth) (projectId : Uuid) (meta : RequestMeta) : M HandlerReply :=
  preflight ← loadOwnedProjectForArchiveToggle auth projectId verb_restore;
  match preflight with
  | inl refused => mret refused
  | inr (project, via) =>
      if isNotNull (proj_purgedAt project) then mret PROJECT_NOT_FOUND
      else if isNull (proj_deletedAt project) then mret (conflict "not_deleted" "Project is not deleted")
      else
        restored ← markProjectRestored projectId;
        match restored with
        | None => mret (conflict "not_deleted" "Project is not deleted")
        | Some row =>
            _ ← writeProjectAudit auth "project.restored" "project" (proj_id row) (Some (proj_id row)) (viaPayload via) meta;
            mret (archiveState row (proj_archivedAt row) (isNotNull (proj_archivedAt row)))
        end
  end.

(** GET /deleted: the items *)
Definition ownedProjectIds (auth : RouteAuth) : M (list Uuid) :=
  rows ← selectWhere db_projectMemberships (fun m => (pmb_userId m =? ra_userId auth) && (pmb_role m =? owner));
  mret (map pmb_projectId rows).

Definition listDeleted (auth : RouteAuth) : M (list ProjectRow) :=
  deleted ← listDeletedProjects;
  orgRole ← orgRoleOrDeny auth;
  if orgRole =? owner then mret deleted
  else
    ownedIds ← ownedProjectIds auth;
    mret (List.filter (fun p => proj_id p ∈? ownedIds) deleted).

Definition deletedItem (p : ProjectRow) : Json :=
  JObj [("id", JUuid (proj_id p)); ("name", JStr (proj_name p)); ("slug", JStr (proj_slug p));
        ("deletedAt", JOptDate (proj_deletedAt p)); ("purgeAfter", JOptDate (proj_purgeAfter p))].

Definition listDeletedRoute (auth : RouteAuth) : M HandlerReply :=
  items ← listDeleted auth;
  mret (reply_returns 200 (dataBody (JObj [("items", JArr (map deletedItem items))]))).

(** ** routes.ts: edits *)

Definition changedProjectFields (before after : ProjectRow) : list string :=
  (if proj_name before =? proj_name after then [] else ["name"])
  ++ (if proj_description before =? proj_description after then [] else ["description"])
  ++ (if proj_urls before =? proj_urls after then [] else ["urls"]).

Definition applyPatch (body : PatchProjectBody) (p : ProjectRow) : ProjectRow :=
  p <| proj_name := default (proj_name p) (ppb_name body) |>
    <| proj_description := default (proj_description p) (ppb_description body) |>
    <| proj_urls := default (proj_urls p) (ppb_urls body) |>.

(** PATCH /:projectId; [None]: the schema refuses the body. *)
Definition patchProject (auth : RouteAuth) (projectId : Uuid) (parsed : option PatchProjectBody) (meta : RequestMeta)
    : M HandlerReply :=
  preflight ← loadOwnedProjectForArchiveToggle auth projectId verb_edit;
  match preflight with
  | inl refused => mret refused
  | inr (project, via) =>
      match parsed with
      | None => mret VALIDATION_ERROR
      | Some body =>
          if isNull (ppb_name body) && isNull (ppb_description body) && isNull (ppb_urls body)
          then mret (reply_sends 422 (errorBody "validation_error" "No updatable fields provided"))
          else
            _ ← newDate;
            if isNotNull (proj_archivedAt project) then mret (reply_sends 410 PROJECT_ARCHIVED_ERROR)
            else
              before ← findProject projectId;
              match before with
              | None => mret PROJECT_NOT_FOUND
              | Some before =>
                  updated ← updateProjects (fun p => (proj_id p =? projectId) && isNull (proj_archivedAt p)) (applyPatch body);
                  match head updated with
                  | None => mret PROJECT_NOT_FOUND
                  | Some row =>
                      _ ← writeProjectAudit auth "project.updated" "project" (proj_id row) (Some (proj_id row))
                            (viaPayload via ++ [("changedFields", JArr (map JStr (changedProjectFields before row)))]) meta;
                      mret (reply_returns 200 (dataBody (JObj
                        [("id", JUuid (proj_id row)); ("name", JStr (proj_name row)); ("slug", JStr (proj_slug row));
                         ("description", JOptStr (proj_description row)); ("urls", JArr (map JStr (proj_urls row)));
                         ("updatedAt", JDate (proj_updatedAt row))])))
                  end
              end
      end
  end.

(** PUT /:projectId/tags *)
Definition putProjectTags (auth : RouteAuth) (projectId : Uuid) (tags : list string) (meta : RequestMeta) : M HandlerReply :=
  current ← lockProject projectId;
  match current with
  | None => mret PROJECT_NOT_FOUND
  | Some current =>
      if isNotNull (proj_archivedAt current) then mret (reply_sends 410 PROJECT_ARCHIVED_ERROR)
      else
        let nextTags := dedupeTags tags in
        _ ← newDate;
        updated ← updateProjects (fun p => proj_id p =? projectId) (fun p => p <| proj_tags := nextTags |>);
        match head updated with
        | None => mret PROJECT_NOT_FOUND
        | Some row =>
            let missing old := List.filter (fun tag => negb (tag ∈? old)) in
            _ ← writeProjectAudit auth "project.tags_updated" "project" (proj_id row) None
                  [("mode", JStr "replace"); ("added", JArr (map JStr (missing (proj_tags current) nextTags)));
                   ("removed", JArr (map JStr (missing nextTags (proj_tags current))));
                   ("resultCount", JInt (Z.of_nat (length nextTags)))] meta;
            mret (reply_returns 200 (dataBody (JObj [("id", JUuid (proj_id row)); ("tags", JArr (map JStr (proj_tags row)))])))
        end
  end.

(** ** routes.ts: creation *)

Inductive ProjectCreateResult :=
| create_error (body : Json)
| create_project (project : ProjectRow) (role : OrgRole) (replayed : bool).

Definition findReplayedProject (auth : RouteAuth) (creationRequestId : Uuid) : M (option ProjectCreateResult) :=
  replayed ← selectFirst db_projects (fun p => proj_creationRequestId p =? Some creationRequestId);
  match replayed with
  | None => mret None
  | Some p =>
      if isNotNull (proj_deletedAt p) then mret (Some (create_error CREATION_REQUEST_CONFLICT))
      else if negb (proj_orgId p =? ra_orgId auth) || negb (proj_createdBy p =? Some (ra_userId auth))
      then mret (Some (create_error CREATION_REQUEST_CONFLICT))
      else
        replayedRole ← callerProjectRole auth (proj_id p);
        mret (Some (match replayedRole with
                    | None => create_error CREATION_REQUEST_CONFLICT
                    | Some role => create_project p role true
                    end))
  end.

Definition readProjectCount : M Z :=
  query (fun db => Z.of_nat (length (List.filter (fun p => isNull (proj_purgedAt p)) (db_projects db)))).

(** A call of an extension, which may answer anything. *)
Definition callout {A} (f : World -> A) : M A := fun w => (Ok (f w), w).

(** [raced.value?.permitted === true] *)
Definition answersPermitted (answer : Json) : bool :=
  match answer with
  | JObj members => match getProp "permitted" members with Some (JBool true) => true | _ => false end
  | _ => false
  end.

(** The refusal, if any. *)
Definition evaluateProjectCreatePolicy (extensionState : ExtensionStatus) (auth : RouteAuth) (body : CreateProjectBody)
    (creationRequestId : Uuid) : M (option Json) :=
  match getProjectCreatePolicy extensionState with
  | None => mret None
  | Some policy =>
      count ← readProjectCount;
      let input := MkProjectCreateInput (ra_orgId auth) (ra_userId auth) (cpb_name body) count creationRequestId in
      raced ← callout (fun w => raceWithTimeout (policy input w) PROJECT_CREATE_POLICY_TIMEOUT_MS);
      mret (match raced with
            | race_resolved answer => if answersPermitted answer then None else Some PROJECT_CREATION_NOT_PERMITTED
            | race_timed_out | race_rejected _ => Some PROJECT_CREATION_NOT_PERMITTED
            end)
  end.

Definition slugTaken (auth : RouteAuth) (slug : string) : M bool :=
  row ← selectFirst db_projects (fun p => (proj_orgId p =? ra_orgId auth) && (proj_slug p =? slug));
  mret (isNotNull row).

(** [body.slug] when it is not empty *)
Definition resolveProjectSlug (auth : RouteAuth) (body : CreateProjectBody) : M string :=
  match truthy (cpb_slug body) with
  | Some slug => mret slug
  | None =>
      let baseSlug := serverSlugFromProjectName (cpb_name body) in
      taken ← slugTaken auth baseSlug;
      if taken : bool then
        id ← genRandomUuid;
        mret (takeChars 41 baseSlug +:+ "-" +:+ takeChars 8 (uuidText id))
      else mret baseSlug
  end.

(** [INSERT ... ON CONFLICT DO NOTHING RETURNING *] *)
Definition insertProjectOrNothing (row : ProjectRow) : M (option ProjectRow) := fun w =>
  let foreign := match proj_creationRequestId row with Some r => foreignCreationRequest w r | None => false end in
  if foreign then (Ok None, w) else
  match insertRow db_projects projectConflict row w with
  | (Ok inserted, w') => (Ok (Some inserted), w')
  | (Throw _, w') => (Ok None, w')
  end.

Definition resolveProjectInsertConflict (auth : RouteAuth) (body : CreateProjectBody) (creationRequestId : Uuid)
    (slug : string) : M ProjectCreateResult :=
  conflict ← findReplayedProject auth creationRequestId;
  match conflict with
  | Some r => mret r
  | None =>
      if isNotNull (cpb_creationRequestId body) then mret (create_error CREATION_REQUEST_CONFLICT)
      else
        taken ← slugTaken auth slug;
        mret (create_error (if taken : bool then PROJECT_SLUG_TAKEN else CREATION_REQUEST_CONFLICT))
  end.

Definition newProjectRow (auth : RouteAuth) (body : CreateProjectBody) (creationRequestId : Uuid) (slug : string)
    (id : Uuid) (now : Date) : ProjectRow :=
  {| proj_id := id; proj_orgId := ra_orgId auth; proj_name := cpb_name body; proj_slug := slug;
     proj_creationRequestId := Some creationRequestId; proj_description := cpb_description body; proj_tags := [];
     proj_createdBy := Some (ra_userId auth); proj_createdAt := now; proj_updatedAt := now; proj_archivedAt := None;
     proj_urls := []; proj_deletedAt := None; proj_deletedBy := None; proj_purgeAfter := None; proj_purgedAt := None |}.

(** The insert leaves no unique violation of the table of projects to catch. *)
Definition createProject (extensionState : ExtensionStatus) (auth : RouteAuth) (body : CreateProjectBody)
    : M ProjectCreateResult :=
  creationRequestId ← match cpb_creationRequestId body with Some r => mret r | None => genRandomUuid end;
  _ ← otherCommits;
  replay ← findReplayedProject auth creationRequestId;
  match replay with
  | Some r => mret r
  | None =>
      policyError ← evaluateProjectCreatePolicy extensionState auth body creationRequestId;
      match policyError with
      | Some e => mret (create_error e)
      | None =>
          slug ← resolveProjectSlug auth body;
          id ← genRandomUuid;
          now ← dbNow;
          project ← insertProjectOrNothing (newProjectRow auth body creationRequestId slug id now);
          match project with
          | None => resolveProjectInsertConflict auth body creationRequestId slug
          | Some project =>
              _ ← insertRow db_projectMemberships projectMembershipConflict
                    (MkProjectMembershipRow (ra_orgId auth) (proj_id project) (ra_userId auth) owner);
              mret (create_project project owner false)
          end
      end
  end.

(** [{ ...project, role, createdAt, updatedAt, archivedAt }] *)
Definition serializeProjectDetail (p : ProjectRow) (role : OrgRole) : Json :=
  JObj [("id", JUuid (proj_id p)); ("orgId", JUuid (proj_orgId p)); ("name", JStr (proj_name p)); ("slug", JStr (proj_slug p));
        ("creationRequestId", JOptUuid (proj_creationRequestId p)); ("description", JOptStr (proj_description p));
        ("tags", JArr (map JStr (proj_tags p))); ("createdBy", JOptUuid (proj_createdBy p));
        ("createdAt", JDate (proj_createdAt p)); ("updatedAt", JDate (proj_updatedAt p));
        ("archivedAt", JOptDate (proj_archivedAt p)); ("urls", JArr (map JStr (proj_urls p)));
        ("deletedAt", JOptDate (proj_deletedAt p)); ("deletedBy", JOptUuid (proj_deletedBy p));
        ("purgeAfter", JOptDate (proj_purgeAfter p)); ("purgedAt", JOptDate (proj_purgedAt p)); ("role", JStr (roleName role))].

(** POST / *)
Definition createProjectRoute (extensionState : ExtensionStatus) (auth : RouteAuth) (parsed : option CreateProjectBody)
    (meta : RequestMeta) : M HandlerReply :=
  match parsed with
  | None => mret VALIDATION_ERROR
  | Some body =>
      result ← createProject extensionState auth body;
      match result with
      | create_error body => mret (reply_sends 409 body)
      | create_project project role replayed =>
          _ ← (if replayed : bool then mret tt
               else writeProjectAudit auth "project.created" "project" (proj_id project) None
                      [("slug", JStr (proj_slug project))] meta);
          mret (reply_returns 201 (dataBody (serializeProjectDetail project role)))
      end
  end.

(** ** workers/project-purge.ts, for the organisation of the database *)

(** One transaction for each project. *)
Definition purgeOne (orgId projectId : Uuid) (now : Date) : M bool :=
  withOrg (
    row ← findProject projectId;
    match row with
    | None => mret false
    | Some row =>
        erased ← eraseProjectData projectId now;
        if negb erased then mret false
        else
          _ ← writeSystemAuditEntryOrFailClosed orgId "project.purged" (Some (proj_id row)) (Some "project")
                [("projectId", JUuid (proj_id row)); ("name", JStr (proj_name row)); ("slug", JStr (proj_slug row))];
          mret true
    end).

(** A purge that fails is logged, and the next one goes on. *)
Definition purgeOrg (orgId : Uuid) (now : Date) : M nat :=
  dueIds ← withOrg (findPurgeDueProjectIds now);
  foldM (fun purged projectId =>
           erased ← catch (purgeOne orgId projectId now) (fun _ => mret false);
           mret (if erased : bool then S purged else purged)) 0%nat dueIds.
End projects.

(** ** In the pipeline of routes *)

(** A handler of this file as the handler of a route: the reply is sent, or its data returned. *)
Definition asHandler (run : RouteAuth -> M HandlerReply) : Handler := fun ctx =>
  match rc_auth ctx with
  | None => raise (JsError "TypeError")
  | Some auth =>
      reply ← db (run auth);
      match reply with
      | reply_sends status body => _ ← sendStatus status body; mret returned_reply
      | reply_returns status data => _ ← replyStatus status; mret (returned_data data)
      end
  end.
