(* ===== verification/ProjectMembers.v ===== *)
(** * The members of a project: modules/projects

    The members routes of routes.ts (add, remove, transfer of ownership),
    member-management.ts, and the change of a member's role in
    modules/org/routes.ts.  A lookup that takes no lock reads what is committed;
    an UPDATE or a DELETE waits for the transactions that hold its rows and then
    evaluates its WHERE on what they committed, as the other handlers of
    projects do. *)

From S2P Require Import Prelude Js Crypto FieldSet AuthStore Store Tx QuotaGate AuditLog Credentials Sessions Authenticate Mfa Login Shares JsMap RateLimit Server CapabilityGate AuditPayload SecureRoute Projects.
From Stdlib Require Import Ascii String.
From stdpp Require Import strings pretty.

Local Open Scope string_scope.
Local Open Scope list_scope.
Local Open Scope pv_scope.

(** The row of a user in a project. *)
Definition membershipOf (projectId userId : Uuid) (m : ProjectMembershipRow) : bool :=
  (pmb_projectId m =? projectId) && (pmb_userId m =? userId).
Definition ownerOf (projectId : Uuid) (m : ProjectMembershipRow) : bool :=
  (pmb_projectId m =? projectId) && (pmb_role m =? owner).

(** schema.ts: the roles that can be given; never [owner]. *)
Inductive AddMemberRole := add_viewer | add_member | add_admin.
Definition addedRole (r : AddMemberRole) : OrgRole :=
  match r with add_viewer => viewer | add_member => member | add_admin => admin end.

Inductive AddMemberRefusal := role_above_caller | user_not_found | already_member.
Inductive AddExistingMemberResult :=
| member_added (userId : Uuid) (email : string) (role : OrgRole)
| member_refused (why : AddMemberRefusal).

Section members.
Context `{Locale, Platform, NodeCrypto, Env, Unicode, OtpValidate, Passwords}.

(** ** member-management.ts *)

Definition removeProjectMembership (projectId userId : Uuid) : M unit :=
  _ ← otherCommits;
  deleteWhere db_projectMemberships (membershipOf projectId userId).

(** The insert waits for another insert of the same key; in a savepoint. *)
Definition insertProjectMembershipOrConflict (orgId projectId userId : Uuid) (role : AddMemberRole) : M bool :=
  _ ← otherCommits;
  catch (_ ← transaction (insertRow db_projectMemberships projectMembershipConflict
                            (MkProjectMembershipRow orgId projectId userId (addedRole role)));
         mret true)
    (fun e => if isUniqueViolation e then mret false else throw e).

(** [orgMemberships JOIN users ... FOR SHARE]: the email of an active member *)
Definition activeOrgUser (orgId userId : Uuid) : M (option string) :=
  _ ← otherCommits;
  query (fun db =>
    m ← head (List.filter (fun m => (mem_orgId m =? orgId) && (mem_userId m =? userId) && (mem_status m =? active))
                (db_memberships db));
    usr_email <$> head (List.filter (fun u => usr_id u =? mem_userId m) (db_users db))).

(** [roleRank] orders the roles as [ROLE_ORDER] does. *)
Definition addExistingOrgUserToProject (orgId projectId userId : Uuid) (role : AddMemberRole)
    (callerEffectiveRole : OrgRole) : M AddExistingMemberResult :=
  if roleRank callerEffectiveRole <? roleRank (addedRole role) then mret (member_refused role_above_caller)
  else
    target ← activeOrgUser orgId userId;
    match target with
    | None => mret (member_refused user_not_found)
    | Some email =>
        already ← getProjectMembershipRole orgId projectId userId;
        if isNotNull already then mret (member_refused already_member)
        else
          inserted ← insertProjectMembershipOrConflict orgId projectId userId role;
          mret (if inserted : bool then member_added userId email (addedRole role) else member_refused already_member)
    end.

(** ** routes.ts *)

Definition MFA_REQUIRED : HandlerReply := reply_sends 403 (errorBody "mfa_required" MFA_REQUIRED_MESSAGE).

(** [requireMfaEnrollmentStrict], without the period of grace: the refusal *)
Definition strictMfaRefusal (auth : RouteAuth) : M (option HandlerReply) :=
  if negb match ra_orgRole auth with Some (owner | admin) => true | _ => false end then mret None
  else
    refused ← rejectIfUserNotMfaEnrolled (ra_userId auth);
    mret (if refused : bool then Some MFA_REQUIRED else None).

Definition resolveRoleOrRejectUnenrolledProjectAdmin (auth : RouteAuth) (projectId : Uuid) : M (HandlerReply + OrgRole) :=
  role ← effectiveProjectRoleForCaller auth (uuidText projectId);
  if (role =? admin) || (role =? owner) then
    refused ← rejectIfUserNotMfaEnrolled (ra_userId auth);
    mret (if refused : bool then inl MFA_REQUIRED else inr role)
  else mret (inr role).

Definition ADD_MEMBER_REFUSALS (why : AddMemberRefusal) : HandlerReply :=
  match why with
  | role_above_caller => insufficientRole "Cannot add a member with a role higher than your own"
  | user_not_found => reply_sends 404 (errorBody "user_not_found" "User not found in this organization")
  | already_member => conflict "already_member" "User is already a project member"
  end.

(** [user?.deletedAt !== null]: a missing project is not found either. *)
Definition isWritable (project : option ProjectRow) : option HandlerReply :=
  match project with
  | None => Some PROJECT_NOT_FOUND
  | Some p => if isNotNull (proj_deletedAt p) then Some PROJECT_NOT_FOUND
              else if isNotNull (proj_archivedAt p) then Some (reply_sends 410 PROJECT_ARCHIVED_ERROR) else None
  end.

(** POST /:projectId/members; [None]: the schema refuses the body. *)
Definition addMember (auth : RouteAuth) (projectId : Uuid) (parsed : option (Uuid * AddMemberRole)) (meta : RequestMeta)
    : M HandlerReply :=
  mfa ← strictMfaRefusal auth;
  match mfa with
  | Some refused => mret refused
  | None =>
      project ← lockProject projectId;
      match isWritable project with
      | Some refused => mret refused
      | None =>
          allowed ← callerCanManageMembers auth projectId;
          if negb allowed
          then mret (insufficientRole "Only project admins/owners or org admins/owners can add project members")
          else
            effective ← resolveRoleOrRejectUnenrolledProjectAdmin auth projectId;
            match effective, parsed with
            | inl refused, _ => mret refused
            | inr _, None => mret VALIDATION_ERROR
            | inr callerEffectiveRole, Some (userId, role) =>
                result ← addExistingOrgUserToProject (ra_orgId auth) projectId userId role callerEffectiveRole;
                match result with
                | member_refused why => mret (ADD_MEMBER_REFUSALS why)
                | member_added userId email given =>
                    _ ← writeProjectAudit auth "project.member_added" "project_membership" userId None
                          [("projectId", JUuid projectId); ("role", JStr (roleName given))] meta;
                    mret (reply_returns 201 (dataBody (JObj
                      [("userId", JUuid userId); ("email", JStr email); ("displayName", JStr email);
                       ("role", JStr (roleName given))])))
                end
            end
      end
  end.

(** DELETE /:projectId/members/:userId *)
Definition removeMember (auth : RouteAuth) (projectId userId : Uuid) (meta : RequestMeta) : M HandlerReply :=
  targetRole ← getProjectMembershipRole (ra_orgId auth) projectId userId;
  match targetRole with
  | None => mret (reply_sends 404 (errorBody "membership_not_found" "User is not a member of this project"))
  | Some role =>
      allowed ← callerCanManageMembers auth projectId;
      if negb allowed
      then mret (insufficientRole "Only project admins/owners or org admins/owners can remove project members")
      else
        lastOwner ← (if role =? owner then
                       _ ← otherCommits;
                       others ← selectWhere db_projectMemberships
                                  (fun m => ownerOf projectId m && negb (pmb_userId m =? userId));
                       mret (match others with [] => true | _ => false end)
                     else mret false);
        if lastOwner : bool then mret (conflict "last_owner" "Cannot remove the last owner of a project")
        else
          _ ← removeProjectMembership projectId userId;
          _ ← writeProjectAudit auth "project.member_removed" "project_membership" userId None
                [("projectId", JUuid projectId); ("removedRole", JStr (roleName role))] meta;
          mret (reply_returns 204 None)
  end.

Definition OWNERSHIP_ALREADY_CHANGED : HandlerReply :=
  conflict "ownership_already_changed" "Project ownership changed concurrently — reload and retry".

(** The refusal, or the current owner, whose row is locked.  [otherCommits] stands for what commits just before the
    statement.  A transfer that commits while the statement waits for its row leaves it no row: the new version is no
    owner's, and the answer is the refusal of a missing owner. *)
Definition resolveTransferTargets (auth : RouteAuth) (projectId newOwnerId : Uuid) : M (HandlerReply + Uuid) :=
  targetMembership ← getProjectMembershipRole (ra_orgId auth) projectId newOwnerId;
  match targetMembership with
  | None => mret (inl (reply_sends 404 (errorBody "not_a_project_member" "Target user is not a member of this project")))
  | Some role =>
      if role =? owner then mret (inl (conflict "already_owner" "User is already the project owner"))
      else
        _ ← otherCommits;
        currentOwner ← selectFirst db_projectMemberships (ownerOf projectId);
        mret (match currentOwner with
              | None => inl OWNERSHIP_ALREADY_CHANGED
              | Some m => inr (pmb_userId m)
              end)
  end.

(** The two updates: the old owner, whose row is locked, and the new one. *)
Definition swapOwners (projectId currentOwner newOwnerId : Uuid) : M bool :=
  demoted ← updateWhere db_projectMemberships
              (fun m => membershipOf projectId currentOwner m && (pmb_role m =? owner)) (fun m => m <| pmb_role := admin |>);
  match demoted with
  | [] => mret false
  | _ =>
      _ ← otherCommits;
      _ ← updateWhere db_projectMemberships (membershipOf projectId newOwnerId) (fun m => m <| pmb_role := owner |>);
      mret true
  end.

(** POST /:projectId/transfer-ownership *)
Definition transferOwnership (auth : RouteAuth) (projectId newOwnerId : Uuid) (meta : RequestMeta) : M HandlerReply :=
  callerRole ← callerProjectRole auth projectId;
  orgRole ← orgRoleOrDeny auth;
  if negb (callerRole =? Some owner) && negb (orgRole =? owner)
  then mret (insufficientRole "Only the project owner can transfer ownership")
  else
    archived ← isProjectArchived projectId;
    if archived : bool then mret (reply_sends 410 PROJECT_ARCHIVED_ERROR)
    else if newOwnerId =? ra_userId auth
    then mret (reply_sends 422 (errorBody "invalid_new_owner" "Cannot transfer ownership to yourself"))
    else
      targets ← resolveTransferTargets auth projectId newOwnerId;
      match targets with
      | inl refused => mret refused
      | inr currentOwner =>
          swapped ← swapOwners projectId currentOwner newOwnerId;
          if negb swapped then mret OWNERSHIP_ALREADY_CHANGED
          else
            _ ← writeProjectAudit auth "project.ownership_transferred" "project" projectId None
                  [("previousOwnerId", JUuid currentOwner); ("newOwnerId", JUuid newOwnerId)] meta;
            mret (reply_returns 200 (dataBody (JObj
              [("projectId", JUuid projectId); ("previousOwnerId", JUuid currentOwner); ("newOwnerId", JUuid newOwnerId)])))
      end.

(** ** org/routes.ts: PUT /users/:userId/projects/:projectId/role *)

Definition changeProjectRole (auth : RouteAuth) (userId projectId : Uuid) (role : AddMemberRole) (meta : RequestMeta)
    : M HandlerReply :=
  if userId =? ra_userId auth
  then mret (reply_sends 403 (errorBody "cannot_modify_self" "You cannot change your own project role"))
  else
    targetOrg ← selectFirst db_memberships (fun m => (mem_userId m =? userId) && (mem_orgId m =? ra_orgId auth));
    callerRank ← (r ← orgRoleOrDeny auth; mret (roleRank r));
    if match targetOrg with Some m => callerRank <=? roleRank (mem_role m) | None => false end
    then mret (insufficientRole "Cannot modify a user with an equal or higher organization role")
    else if callerRank <? roleRank (addedRole role)
    then mret (insufficientRole "Cannot assign a role higher than your own")
    else
      membershipRole ← getProjectMembershipRole (ra_orgId auth) projectId userId;
      match membershipRole with
      | None => mret (reply_sends 404 (errorBody "membership_not_found" "User is not a member of this project"))
      | Some old =>
          if old =? owner
          then mret (conflict "must_transfer_ownership_first" "Use transfer-ownership to change the project owner")
          else
            _ ← otherCommits;
            _ ← updateWhere db_projectMemberships (membershipOf projectId userId) (fun m => m <| pmb_role := addedRole role |>);
            _ ← writeProjectAudit auth "project.member_role_changed" "project_membership" userId None
                  [("projectId", JUuid projectId); ("oldRole", JStr (roleName old)); ("newRole", JStr (roleName (addedRole role)))] meta;
            mret (reply_returns 200 (dataBody (JObj
              [("userId", JUuid userId); ("projectId", JUuid projectId); ("role", JStr (roleName (addedRole role)))])))
      end.
End members.
