(* ===== verification/ProjectTheorems.v ===== *)
(** * What the life of a project guarantees

    The lemmas that run the handlers of [Projects] in a world where no other
    transaction commits meanwhile ([Idle]), and the theorems: what a deletion
    closes, what a restore brings back and a purge erases, and which projects
    are listed as deleted. *)

From S2P Require Import Prelude Js Crypto FieldSet AuthStore Store Tx QuotaGate AuditLog Notifications Credentials Frames Sessions Shares Text Authenticate Mfa Login JsMap RateLimit Server CapabilityGate GateTheorems AuditPayload SecureRoute SecureRouteTheorems RouteTheorems Projects.
From Stdlib Require Import Ascii String.
From stdpp Require Import strings pretty.

Local Open Scope string_scope.
Local Open Scope list_scope.
Local Open Scope pv_scope.

(** A database is its tables. *)
Ltac db_eta db := destruct db as [? ? ? ? ? ? ? ? ? ? ? ? ? ? ? ? [] []].

(** No other transaction commits while this one waits. *)
Definition Idle (w : World) : Prop := forall db, w_onWait w db = db.

Lemma wp_otherCommits {A} (k : unit -> M A) (Q : Outcome A -> World -> Prop) w :
  Idle w -> wp (k tt) Q w -> wp (otherCommits ≫= k) Q w.
Proof.
  intros Hi Hk. apply wp_bind. unfold wp at 1, otherCommits. cbn. rewrite Hi. by destruct w.
Qed.

(** Rows of the audit log more, the counters of the gates, and the draws of the clock. *)
Definition rowsMore (w w' : World) (rows : list AuditRow) : Prop :=
  exists n usage seq, w' = w <| w_tick := n |> <| w_db := (w_db w)
    <| db_usage := usage |> <| db_auditSeq := seq |> <| db_audit := db_audit (w_db w) ++ rows |> |>.

Lemma rowsMore_trans w1 w2 w3 l k : rowsMore w1 w2 l -> rowsMore w2 w3 k -> rowsMore w1 w3 (l ++ k).
Proof.
  intros (n & u & s & ->) (n' & u' & s' & ->). exists n', u', s'. cbn. by rewrite <- app_assoc.
Qed.
Lemma rowsMore_refl w : rowsMore w w [].
Proof. exists (w_tick w), (db_usage (w_db w)), (db_auditSeq (w_db w)). rewrite app_nil_r. destruct w as [db]. by destruct db. Qed.
Lemma rowsMore_sameDb w w' : sameDb w w' -> rowsMore w w' [].
Proof. intros [n ->]. exists n, (db_usage (w_db w)), (db_auditSeq (w_db w)). rewrite app_nil_r. destruct w as [db]. by destruct db. Qed.
Lemma rowsMore_usage w w' : usageOnly w w' -> rowsMore w w' [].
Proof. intros (n & u & ->). exists n, u, (db_auditSeq (w_db w)). rewrite app_nil_r. destruct w as [db]. by destruct db. Qed.
Lemma rowsMore_Idle w w' l : rowsMore w w' l -> Idle w -> Idle w'.
Proof. by intros (n & u & s & ->). Qed.

(** An entry of the audit log by a caller. *)
Record entryBy (orgId : Uuid) (actorType eventType resourceType : string) (resourceId : Uuid) (projectId : option Uuid)
    (payload : list (string * Json)) (row : AuditRow) : Prop := {
  eb_org : al_orgId row = orgId;
  eb_actor : al_actorType row = actorType;
  eb_event : al_eventType row = eventType;
  eb_type : al_resourceType row = Some resourceType;
  eb_resource : al_resourceId row = Some resourceId;
  eb_project : al_projectId row = projectId;
  eb_payload : al_payload row = JObj payload;
}.

Section audits.
Context `{Locale, Platform, NodeCrypto, Env}.

Lemma appendAuditRow_rows orgId actorTokenId actorType eventType resourceId resourceType payload u w :
  wp (appendAuditRow orgId actorTokenId actorType eventType (Some resourceId) (Some resourceType) (JObj payload) (Some resourceId) u)
    (fun o w' => forall row, o = Ok row -> rowsMore w w' [row] /\
       entryBy orgId actorType eventType resourceType resourceId (un_projectId u) payload row) w.
Proof.
  unfold appendAuditRow. apply wp_bind. unfold wp at 1.
  pose proof (readAuditChainHead_spec orgId w) as Hh. destruct (readAuditChainHead orgId w) as [[[kv prev]|e] w1]; [|done].
  destruct Hh as [-> _]. apply wp_bind. unfold wp at 1, getAuditKey. destruct (w_auditKey w) as [key|]; [|done].
  unfold wp, insertAuditRow, genRandomUuid, dbNow, nextChainSeq, mbind, M_bind. cbv beta iota zeta.
  unfold insertRow. destruct (existsb _ _); [done|]. intros row [= <-]. split; [|done].
  exists (S (w_tick w)), (db_usage (w_db w)), (db_auditSeq (w_db w) + 1)%Z. destruct w as [db]. by destruct db.
Qed.

(** What a fail-closed write leaves, when it does not throw. *)
Definition wrote (E : AuditRow -> Prop) (w : World) {A} (o : Outcome A) (w' : World) : Prop :=
  match o with Ok _ => exists row, rowsMore w w' [row] /\ E row | Throw _ => True end.

Lemma wp_rethrow {A} (m : M A) (E : AuditRow -> Prop) w : wp m (wrote E w) w -> wp (rethrowAsSameTransactionAuditWriteError m) (wrote E w) w.
Proof.
  intros Hm. unfold rethrowAsSameTransactionAuditWriteError. apply wp_catch. apply wp_bind.
  eapply wp_mono; [exact Hm|]. intros [a|e] w1 Ha; [by apply wp_ret|]. by destruct e; apply wp_throw.
Qed.

Lemma writeProjectAudit_spec auth eventType resourceType resourceId projectId payload meta w :
  wp (writeProjectAudit auth eventType resourceType resourceId projectId payload meta)
    (wrote (entryBy (ra_orgId auth) "human" eventType resourceType resourceId projectId payload) w) w.
Proof.
  apply wp_rethrow. apply wp_bind. eapply wp_mono; [apply readOnly_firstActorTokenId|].
  intros [token|e] w1 Hw1; [|done]. unfold writeHumanAuditEntry. cbv zeta. apply wp_bind.
  eapply wp_mono; [apply gates_frame|]. intros [[]|e] w2 Hw2; [|done].
  eapply wp_mono; [apply appendAuditRow_rows|]. intros [row|e] w3 Hrow; [|done].
  destruct (Hrow row eq_refl) as [Hw3 Hentry]. exists row. split; [|exact Hentry].
  change [row] with ([] ++ [] ++ [row]). eapply rowsMore_trans; [by apply rowsMore_sameDb|].
  eapply rowsMore_trans; [by apply rowsMore_usage|exact Hw3].
Qed.

Lemma writeSystemAudit_spec orgId eventType resourceType resourceId payload w :
  wp (writeSystemAuditEntryOrFailClosed orgId eventType (Some resourceId) (Some resourceType) payload)
    (wrote (entryBy orgId "system" eventType resourceType resourceId None payload) w) w.
Proof.
  apply wp_rethrow. unfold writeSystemAuditEntry. apply wp_bind.
  eapply wp_mono; [apply gates_frame|]. intros [[]|e] w2 Hw2; [|done].
  eapply wp_mono; [apply appendAuditRow_rows|]. intros [row|e] w3 Hrow; [|done].
  destruct (Hrow row eq_refl) as [Hw3 Hentry]. exists row. split; [|exact Hentry].
  change [row] with ([] ++ [row]). eapply rowsMore_trans; [by apply rowsMore_usage|exact Hw3].
Qed.

(** One entry for each item, in order. *)
Lemma wp_audits {A} (f : A -> M unit) (E : A -> AuditRow -> Prop) l w :
  (forall x w, wp (f x) (wrote (E x) w) w) ->
  wp (forEachSequential l f) (fun o w' => o = Ok tt -> exists rows, rowsMore w w' rows /\ Forall2 E l rows) w.
Proof.
  intros Hf. revert w. induction l as [|x l IH]; intros w; cbn [forEachSequential].
  { apply wp_ret. intros _. exists []. split; [apply rowsMore_refl|constructor]. }
  apply wp_bind. eapply wp_mono; [apply Hf|]. intros [[]|e] w1 Ha; [|done]. destruct Ha as (row & Ha & He).
  eapply wp_mono; [apply IH|]. intros o w2 Hb Ho. destruct (Hb Ho) as (rows & Hb' & Hl). exists (row :: rows).
  split; [|by constructor]. exact (rowsMore_trans _ _ _ [row] rows Ha Hb').
Qed.
End audits.

(** ** The guards before a change *)

Definition projectRow (db : Db) (projectId : Uuid) : option ProjectRow :=
  head (List.filter (fun p => proj_id p =? projectId) (db_projects db)).

(** The role of the caller in the project. *)
Definition roleIn (db : Db) (auth : RouteAuth) (projectId : Uuid) : option OrgRole :=
  pmb_role <$> head (List.filter (fun m => (pmb_projectId m =? projectId) && (pmb_userId m =? ra_userId auth)
                                          && (pmb_orgId m =? ra_orgId auth)) (db_projectMemberships db)).

Definition authorityFor (verb : ActionVerb) (orgRole : OrgRole) (projectRole : option OrgRole) : option ProjectEditAuthority :=
  match verb with
  | verb_edit => projectEditAuthority orgRole projectRole
  | _ => archiveAuthority orgRole projectRole
  end.

Definition preflightOf (db : Db) (auth : RouteAuth) (projectId : Uuid) (verb : ActionVerb)
    : Outcome (HandlerReply + ProjectRow * ProjectEditAuthority) :=
  match ra_orgRole auth with
  | None => Throw (AppError "insufficient_role" 403)
  | Some orgRole =>
      Ok (if negb (isOrgAdminOrOwner orgRole || isNotNull (roleIn db auth projectId)) then inl PROJECT_NOT_FOUND
          else match projectRow db projectId with
               | None => inl PROJECT_NOT_FOUND
               | Some p => match authorityFor verb orgRole (roleIn db auth projectId) with
                           | None => inl (notTheOwner verb)
                           | Some via => inr (p, via)
                           end
               end)
  end.

(** The caller may [verb] the project, whose row is [p]. *)
Definition mayDo (verb : ActionVerb) (db : Db) (auth : RouteAuth) (projectId : Uuid) (p : ProjectRow)
    (via : ProjectEditAuthority) : Prop :=
  projectRow db projectId = Some p /\
  exists orgRole, ra_orgRole auth = Some orgRole /\ authorityFor verb orgRole (roleIn db auth projectId) = Some via.

Lemma otherCommits_run w : Idle w -> otherCommits w = (Ok tt, w).
Proof. intros Hi. unfold otherCommits. cbn. rewrite Hi. by destruct w. Qed.

Lemma run_bind {A B} (m : M A) (k : A -> M B) w a w' : m w = (Ok a, w') -> (m ≫= k) w = k a w'.
Proof. intros E. unfold mbind, M_bind. by rewrite E. Qed.

Lemma run_bind2 {A B} (m : M A) (k : A -> M B) w o w' : m w = (o, w') ->
  (m ≫= k) w = match o with Ok a => k a w' | Throw e => (Throw e, w') end.
Proof. intros E. unfold mbind, M_bind. by rewrite E. Qed.

Lemma callerRole_run auth projectId w :
  getProjectMembershipRole (ra_orgId auth) projectId (ra_userId auth) w = (Ok (roleIn (w_db w) auth projectId), w).
Proof. done. Qed.

Lemma lockProject_run projectId w : Idle w -> lockProject projectId w = (Ok (projectRow (w_db w) projectId), w).
Proof. intros Hi. unfold lockProject. by rewrite (run_bind _ _ _ _ _ (otherCommits_run w Hi)). Qed.

Lemma callerCanSee_run auth projectId orgRole w :
  ra_orgRole auth = Some orgRole ->
  callerCanSeeProject auth projectId w = (Ok (isOrgAdminOrOwner orgRole || isNotNull (roleIn (w_db w) auth projectId)), w).
Proof.
  intros Er. unfold callerCanSeeProject, orgRoleOrDeny. rewrite Er, (run_bind _ _ _ orgRole w eq_refl).
  by destruct (isOrgAdminOrOwner orgRole).
Qed.

Lemma authorization_run auth projectId verb orgRole w :
  ra_orgRole auth = Some orgRole ->
  match verb with
  | verb_edit => callerEditAuthorization auth projectId
  | _ => callerArchiveAuthorization auth projectId
  end w = (Ok (authorityFor verb orgRole (roleIn (w_db w) auth projectId)), w).
Proof.
  intros Er. destruct verb; unfold callerEditAuthorization, callerArchiveAuthorization, callerProjectRole, orgRoleOrDeny.
  all: by rewrite (run_bind _ _ _ _ _ (callerRole_run _ _ _)), Er.
Qed.

Lemma loadOwned_run auth projectId verb w :
  Idle w -> loadOwnedProjectForArchiveToggle auth projectId verb w = (preflightOf (w_db w) auth projectId verb, w).
Proof.
  intros Hi. unfold preflightOf. destruct (ra_orgRole auth) as [orgRole|] eqn:Er.
  2: { unfold loadOwnedProjectForArchiveToggle, callerCanSeeProject, orgRoleOrDeny. by rewrite Er. }
  unfold loadOwnedProjectForArchiveToggle. rewrite (run_bind _ _ _ _ _ (callerCanSee_run _ _ _ _ Er)).
  destruct (negb _); [done|]. rewrite (run_bind _ _ _ _ _ (lockProject_run _ _ Hi)).
  destruct (projectRow (w_db w) projectId) as [p|]; [|done].
  rewrite (run_bind _ _ _ _ _ (authorization_run _ _ _ _ _ Er)). by destruct (authorityFor _ _ _).
Qed.

Lemma preflight_inr db auth projectId verb p via :
  preflightOf db auth projectId verb = Ok (inr (p, via)) -> mayDo verb db auth projectId p via.
Proof.
  unfold preflightOf. destruct (ra_orgRole auth) as [r|] eqn:Er; [|done]. destruct (negb _); [done|].
  destruct (projectRow db projectId) as [q|] eqn:Ep; [|done]. destruct (authorityFor _ _ _) as [v|] eqn:Ev; [|done].
  intros [= -> ->]. split; [done|]. by exists r.
Qed.

Definition refuses (r : HandlerReply) : Prop := exists status body, r = reply_sends status body /\ (400 <= status)%Z.

Lemma preflight_inl db auth projectId verb r :
  preflightOf db auth projectId verb = Ok (inl r) -> refuses r.
Proof.
  unfold preflightOf. destruct (ra_orgRole auth) as [o|]; [|done]. destruct (negb _).
  { intros [= <-]. by do 2 eexists. }
  destruct (projectRow db projectId) as [q|]; [|intros [= <-]; by do 2 eexists].
  destruct (authorityFor _ _ _) as [v|]; [done|]. intros [= <-]. unfold notTheOwner, insufficientRole. by do 2 eexists.
Qed.

(** The guards, then [k] on the locked row. *)
Lemma wp_preflight {A} auth projectId verb (k : HandlerReply + ProjectRow * ProjectEditAuthority -> M A)
    (Q : Outcome A -> World -> Prop) w :
  Idle w ->
  (forall e, Q (Throw e) w) ->
  (forall r, refuses r -> wp (k (inl r)) Q w) ->
  (forall p via, mayDo verb (w_db w) auth projectId p via -> wp (k (inr (p, via))) Q w) ->
  wp (loadOwnedProjectForArchiveToggle auth projectId verb ≫= k) Q w.
Proof.
  intros Hi Ht Hl Hr. apply wp_bind. unfold wp at 1. rewrite loadOwned_run by done.
  destruct (preflightOf (w_db w) auth projectId verb) as [[r|[p via]]|e] eqn:E; [|..|apply Ht].
  - apply Hl. by eapply preflight_inl.
  - apply Hr. by apply preflight_inr.
Qed.

(** ** Deletion *)

Lemma wp_updateProjects {A} p f (k : list ProjectRow -> M A) (Q : Outcome A -> World -> Prop) w :
  let g := fun r : ProjectRow => (f r) <| proj_updatedAt := w_now w |> in
  wp (k (map g (List.filter p (db_projects (w_db w))))) Q (w <| w_db ::= fun db => db <| db_projects ::= map_where p g |> |>) ->
  wp (updateProjects p f ≫= k) Q w.
Proof. done. Qed.

Lemma wp_bind_assoc {A B C} (m : M A) (k : A -> M B) (k' : B -> M C) (Q : Outcome C -> World -> Prop) w :
  wp (m ≫= fun a => k a ≫= k') Q w -> wp ((m ≫= k) ≫= k') Q w.
Proof. unfold wp, mbind, M_bind. by destruct (m w) as [[a|e] w']. Qed.

Lemma wp_query {A B} (f : Db -> B) (k : B -> M A) (Q : Outcome A -> World -> Prop) w :
  wp (k (f (w_db w))) Q w -> wp (query f ≫= k) Q w.
Proof. done. Qed.

(** A read only step, and where it leads. *)
Lemma wp_readOnly {A B} (m : M A) (k : A -> M B) (Q : Outcome B -> World -> Prop) w (P : A -> Prop) :
  readOnly m -> wp m (fun o _ => forall a, o = Ok a -> P a) w -> (forall e w', Q (Throw e) w') ->
  (forall a w', P a -> sameDb w w' -> wp (k a) Q w') -> wp (m ≫= k) Q w.
Proof.
  intros Hr HP Ht Hk. apply wp_bind. specialize (Hr w). unfold wp in *. destruct (m w) as [[a|e] w1]; [|apply Ht].
  apply Hk; [by apply HP|exact Hr].
Qed.

Lemma wp_readOnly_any {A B} (m : M A) (k : A -> M B) (Q : Outcome B -> World -> Prop) w :
  readOnly m -> (forall e w', Q (Throw e) w') -> (forall a w', sameDb w w' -> wp (k a) Q w') -> wp (m ≫= k) Q w.
Proof.
  intros Hr Ht Hk. apply (wp_readOnly m k Q w (fun _ => True)); [done| |done|by intros a w' _; apply Hk].
  unfold wp. by destruct (m w) as [o w'].
Qed.

Lemma readOnly_query {A} (f : Db -> A) : readOnly (query f).
Proof. intros w. apply sameDb_refl. Qed.
Lemma readOnly_callout {A} (f : World -> A) : readOnly (callout f).
Proof. intros w. apply sameDb_refl. Qed.
Lemma readOnly_callerProjectRole auth projectId : readOnly (callerProjectRole auth projectId).
Proof. unfold callerProjectRole, getProjectMembershipRole. read_only. Qed.

Lemma lfilter_all {A} (p : A -> bool) l : (forall x, x ∈ l -> p x = true) -> List.filter p l = l.
Proof.
  induction l as [|x l IH]; intros Hp; [done|]. cbn. rewrite (Hp x) by left. f_equal. apply IH. intros y Hy. apply Hp. by right.
Qed.

(** The rows of an identifier are one row. *)
Lemma lfilter_key {A} (f : A -> Uuid) k l x :
  NoDup (map f l) -> head (List.filter (fun r => f r =? k) l) = Some x ->
  x ∈ l /\ f x = k /\ forall q, List.filter (fun r => (f r =? k) && q r) l = if q x then [x] else [].
Proof.
  intros Hn Hh. apply head_elem_of in Hh. apply elem_of_lfilter in Hh as [Ex Hx]. bool_simpl. split; [done|]. split; [done|].
  intros q. induction l as [|y l IH]; [by apply not_elem_of_nil in Hx|]. cbn in Hn |- *. apply NoDup_cons in Hn as [Hy Hn].
  apply elem_of_cons in Hx as [->|Hx].
  - rewrite bool_decide_eq_true_2 by done. cbn. rewrite lfilter_none; [done|]. intros z Hz.
    rewrite bool_decide_eq_false_2; [done|]. intros Ez. apply Hy. apply elem_of_map. exists z. split; [congruence|done].
  - rewrite bool_decide_eq_false_2; [by apply IH|]. intros Ey. apply Hy. apply elem_of_map. exists x. split; [congruence|done].
Qed.

Lemma projectRow_of db p : NoDup (map proj_id (db_projects db)) -> p ∈ db_projects db -> projectRow db (proj_id p) = Some p.
Proof.
  intros Hn Hp. unfold projectRow. destruct (head _) as [q|] eqn:Eh.
  - apply head_elem_of, elem_of_lfilter in Eh as [Eq Hq]. apply bool_decide_eq_true in Eq. f_equal.
    by apply (NoDup_key_inj proj_id (db_projects db)).
  - exfalso. assert (Hin : p ∈ List.filter (fun r => proj_id r =? proj_id p) (db_projects db)).
    { apply elem_of_lfilter. by rewrite bool_decide_eq_true_2. }
    destruct (List.filter _ _); [by apply not_elem_of_nil in Hin|done].
Qed.

(** An update of the row of an identifier, when it passes [q]. *)
Definition updatedBy (k : Uuid) (q : ProjectRow -> bool) (f : ProjectRow -> ProjectRow) : list ProjectRow -> list ProjectRow :=
  map_where (fun r => (proj_id r =? k) && q r) f.

Section row.
Context (k : Uuid) (q : ProjectRow -> bool) (f : ProjectRow -> ProjectRow) (Hf : forall r, proj_id (f r) = proj_id r).

Lemma updatedBy_ids l : map proj_id (updatedBy k q f l) = map proj_id l.
Proof. by apply map_where_proj. Qed.

Lemma updatedBy_row l p :
  NoDup (map proj_id l) -> head (List.filter (fun r => proj_id r =? k) l) = Some p ->
  head (List.filter (fun r => proj_id r =? k) (updatedBy k q f l)) = Some (if q p then f p else p).
Proof.
  intros Hn. induction l as [|y l IH]; [done|]. cbn in Hn |- *. apply NoDup_cons in Hn as [Hy Hn].
  assert (Ey : proj_id (if (proj_id y =? k) && q y then f y else y) = proj_id y) by (destruct (_ && _); [apply Hf|done]).
  rewrite Ey. case_bool_decide as Ek; cbn [andb]; [|by apply IH]. intros [= ->]. done.
Qed.

Lemma updatedBy_other l p : proj_id p <> k -> p ∈ updatedBy k q f l <-> p ∈ l.
Proof.
  intros Hp. unfold updatedBy. rewrite elem_of_map_where. split.
  - intros (x & Hx & ->). destruct ((proj_id x =? k) && q x) eqn:E; [|done]. bool_simpl. by rewrite Hf in Hp.
  - intros Hin. exists p. by rewrite bool_decide_eq_false_2.
Qed.
End row.

Definition uniqueProjects (db : Db) : Prop := NoDup (map proj_id (db_projects db)).

Lemma updatedBy_none k q f l p :
  NoDup (map proj_id l) -> head (List.filter (fun r => proj_id r =? k) l) = Some p -> q p = false -> updatedBy k q f l = l.
Proof.
  intros Hn Hh Hq. apply map_where_none. intros r Hr. destruct ((proj_id r =? k) && q r) eqn:E; [|done].
  destruct (lfilter_key proj_id k l p Hn Hh) as (_ & _ & Hf). specialize (Hf q). rewrite Hq in Hf.
  exfalso. eapply not_elem_of_nil. rewrite <- Hf. by apply elem_of_lfilter.
Qed.

(** An update of the row [p] of the project, which passes the guard or does not. *)
Lemma wp_changeRow {A} k q f (K : list ProjectRow -> M A) (Q : Outcome A -> World -> Prop) w p :
  projectRow (w_db w) k = Some p -> uniqueProjects (w_db w) ->
  let g := fun r : ProjectRow => (f r) <| proj_updatedAt := w_now w |> in
  (q p = false -> wp (K []) Q w) ->
  (q p = true -> wp (K [g p]) Q (w <| w_db ::= fun db => db <| db_projects ::= updatedBy k q g |> |>)) ->
  wp (updateProjects (fun r => (proj_id r =? k) && q r) f ≫= K) Q w.
Proof.
  intros Hrow Hn g Hno Hyes. destruct (lfilter_key proj_id k (db_projects (w_db w)) p Hn Hrow) as (Hp & Ep & Hq).
  apply wp_updateProjects. fold g. rewrite Hq. destruct (q p) eqn:E; cbn [map]; [by apply Hyes|].
  fold (updatedBy k q g). cbn. rewrite (updatedBy_none k q g _ p) by done.
  assert (Ew : w <| w_db ::= fun db => db <| db_projects := db_projects (w_db w) |> |> = w) by (destruct w as [db]; by destruct db).
  specialize (Hno eq_refl). rewrite <- Ew in Hno. exact Hno.
Qed.

(** The row of a project deleted at [at_]. *)
Definition deletedRow (at_ updated : Date) (by_ : Uuid) (p : ProjectRow) : ProjectRow :=
  p <| proj_deletedAt := Some at_ |> <| proj_deletedBy := Some by_ |> <| proj_purgeAfter := Some (purgeAfterFor at_) |>
    <| proj_archivedAt := if isNotNull (proj_archivedAt p) then proj_archivedAt p else Some at_ |>
    <| proj_updatedAt := updated |>.

(** An active share of a credential of the project. *)
Definition openShare (tenant projectId : Uuid) (db : Db) : ShareRow -> bool :=
  scoped tenant (fun s => (sh_status s =? shareActive) && (sh_credentialId s ∈? credentialsOf projectId db)).

(** [p] is the row of the project before the deletion, [shares] and [row] the new entries of the log. *)
Record Deletion (auth : RouteAuth) (projectId : Uuid) (p : ProjectRow) (via : ProjectEditAuthority) (at_ : Date)
    (shares : list AuditRow) (row : AuditRow) (db db' : Db) : Prop := {
  dl_allowed : mayDo verb_delete db auth projectId p via;
  dl_live : proj_deletedAt p = None;
  dl_rotations : forall r, r ∈ db_rotations db -> rot_projectId r = projectId -> rot_status r ∉ BLOCKING_ROTATION_STATUSES;
  dl_keys : exists t, forall k, k ∈ db_apiKeys db -> ak_machineUserId k ∈ machineUsersOf projectId db -> isActiveKey t k = false;
  dl_row : exists updated, projectRow db' projectId = Some (deletedRow at_ updated (ra_userId auth) p);
  dl_ids : map proj_id (db_projects db') = map proj_id (db_projects db);
  dl_projects : forall q, proj_id q <> projectId -> q ∈ db_projects db' <-> q ∈ db_projects db;
  dl_shares : List.filter (openShare (ra_orgId auth) projectId db') (db_shares db') = [];
  dl_otherShares : forall s, openShare (ra_orgId auth) projectId db s = false -> s ∈ db_shares db -> s ∈ db_shares db';
  dl_invitations : List.filter (isPendingInvitation projectId) (db_projectInvitations db') = [];
  dl_audit : db_audit db' = db_audit db ++ shares ++ [row];
  dl_shareEntries : Forall2 (fun s => entryBy (ra_orgId auth) "human" "credential.share_revoked" "credential_share" (sh_id s)
      (Some projectId) [("credentialId", JUuid (sh_credentialId s)); ("reason", JStr "project_deleted");
                        ("attributeKeys", JOptArr (sh_attributeKeys s))])
    (List.filter (openShare (ra_orgId auth) projectId db) (db_shares db)) shares;
  dl_entry : entryBy (ra_orgId auth) "human" "project.deleted" "project" projectId (Some projectId)
    (viaPayload via ++ [("purgeAfter", JDate (purgeAfterFor at_)); ("revokedShareCount", JInt (Z.of_nat (length shares)));
                        ("wasArchived", JBool (isNotNull (proj_archivedAt p)))]) row;
  dl_rest : db' = db <| db_projects := db_projects db' |> <| db_shares := db_shares db' |>
    <| db_projectInvitations := db_projectInvitations db' |> <| db_audit := db_audit db' |> <| db_usage := db_usage db' |>
    <| db_auditSeq := db_auditSeq db' |>;
}.

Definition unblocked (projectId : Uuid) (db : Db) : Prop :=
  (forall r, r ∈ db_rotations db -> rot_projectId r = projectId -> rot_status r ∉ BLOCKING_ROTATION_STATUSES) /\
  exists t, forall k, k ∈ db_apiKeys db -> ak_machineUserId k ∈ machineUsersOf projectId db -> isActiveKey t k = false.

Lemma sameDb_Idle w w' : sameDb w w' -> Idle w -> Idle w'.
Proof. by intros [n ->]. Qed.

Section deletion.
Context `{Locale, Platform, NodeCrypto, Env}.

Lemma noRotations projectId db :
  map rot_id (List.filter (fun r => (rot_projectId r =? projectId) && (rot_status r ∈? BLOCKING_ROTATION_STATUSES)) (db_rotations db)) = [] ->
  forall r, r ∈ db_rotations db -> rot_projectId r = projectId -> rot_status r ∉ BLOCKING_ROTATION_STATUSES.
Proof.
  intros E r Hr Ep Hb. apply map_eq_nil in E. eapply not_elem_of_nil. rewrite <- E. apply elem_of_lfilter.
  split; [|exact Hr]. rewrite !bool_decide_eq_true_2; done.
Qed.

Lemma noKeys projectId t db :
  List.filter (fun k => (ak_machineUserId k ∈? machineUsersOf projectId db) && isActiveKey t k) (db_apiKeys db) = [] ->
  forall k, k ∈ db_apiKeys db -> ak_machineUserId k ∈ machineUsersOf projectId db -> isActiveKey t k = false.
Proof.
  intros E k Hk Hm. destruct (isActiveKey t k) eqn:Ea; [|done]. exfalso. eapply not_elem_of_nil. rewrite <- E.
  apply elem_of_lfilter. split; [|exact Hk]. by rewrite bool_decide_eq_true_2.
Qed.

Lemma wp_deleteBlockers {A} projectId (k : option Json -> M A) (Q : Outcome A -> World -> Prop) w :
  (forall body w', sameDb w w' -> wp (k (Some body)) Q w') ->
  (forall w', sameDb w w' -> unblocked projectId (w_db w) -> wp (k None) Q w') ->
  wp (findDeleteBlockers projectId ≫= k) Q w.
Proof.
  intros Hs Hn. unfold findDeleteBlockers, findBlockingRotationIds, activeMachineUserKeysQuery.
  unfold wp, mbind, M_bind, selectWhere, mret, M_ret, newDate, query. cbv beta iota zeta.
  destruct (map rot_id _) as [|i ids] eqn:Er; [|apply (Hs _ w), sameDb_refl]. cbn [w_db setter].
  destruct (List.filter _ (db_apiKeys _)) as [|x l] eqn:Ek; [apply Hn|apply Hs].
  - by exists (S (w_tick w)).
  - split; [by apply noRotations|]. exists (clock (w_tick w)). by apply noKeys.
  - by exists (S (w_tick w)).
Qed.

(** What closes the project, once it is marked. *)
Lemma revokeShares_run tenant projectId w : Idle w ->
  let f := fun s : ShareRow => s <| sh_status := shareRevoked |> <| sh_revokedAt := Some (clock (w_tick w)) |> in
  revokeProjectShares tenant projectId w =
    (Ok (map f (List.filter (openShare tenant projectId (w_db w)) (db_shares (w_db w)))),
     w <| w_tick ::= S |> <| w_db ::= fun db => db <| db_shares ::= map_where (openShare tenant projectId (w_db w)) f |> |>).
Proof.
  intros Hi f. unfold revokeProjectShares. unfold mbind at 1, M_bind at 1, newDate.
  assert (Hi' : Idle (w <| w_tick ::= S |>)) by exact Hi.
  rewrite (run_bind _ _ _ _ _ (otherCommits_run _ Hi')). done.
Qed.

Lemma revokeInvitations_run projectId w : Idle w ->
  revokePendingInvitations projectId w =
    (Ok tt, w <| w_tick ::= S |> <| w_db ::= fun db => db <| db_projectInvitations ::= map_where (isPendingInvitation projectId)
       (fun i => i <| pinv_revokedAt := Some (clock (w_tick w)) |>) |> |>).
Proof.
  intros Hi. unfold revokePendingInvitations. unfold mbind at 1, M_bind at 1, newDate.
  assert (Hi' : Idle (w <| w_tick ::= S |>)) by exact Hi.
  by rewrite (run_bind _ _ _ _ _ (otherCommits_run _ Hi')).
Qed.

Lemma revoked_none {A} (p : A -> bool) (f : A -> A) l :
  (forall x, p (f x) = false) -> List.filter p (map_where p f l) = [].
Proof.
  intros Hp. apply lfilter_none. intros x Hx. apply elem_of_map_where in Hx as (y & _ & ->).
  by destruct (p y) eqn:E.
Qed.

Lemma Forall2_entries {A B} (E E' : A -> B -> Prop) (f : A -> A) l k :
  (forall x y, E (f x) y -> E' x y) -> Forall2 E (map f l) k -> Forall2 E' l k.
Proof.
  intros HE. revert k. induction l as [|x l IH]; intros k Hl; cbn in Hl; inversion Hl; subst; constructor; auto.
Qed.

Definition changesNothing (w w' : World) : Prop := w_db w' = w_db w.

Lemma deleteProject_spec auth projectId meta w :
  Idle w -> uniqueProjects (w_db w) ->
  wp (deleteProject auth projectId meta)
    (fun o w' => match o with
                 | Ok (reply_returns status _) =>
                     status = 200%Z /\ exists p via at_ shares row, Deletion auth projectId p via at_ shares row (w_db w) (w_db w')
                 | Ok r => refuses r /\ changesNothing w w'
                 | Throw _ => True
                 end) w.
Proof.
  intros Hi Hn. unfold deleteProject. apply wp_preflight; [done|done|..].
  { intros r (st & b & -> & Hr). apply wp_ret. split; [by do 2 eexists|done]. }
  intros p via Hmay. apply wp_deleteBlockers.
  { intros body w1 Ha1. apply wp_ret. split; [by do 2 eexists|]. by apply sameDb_db. }
  intros w1 [n1 ->] [Hrot Hkey]. apply wp_newDate. set (at_ := clock _). cbv zeta.
  unfold markProjectDeleted. set (w2 := _ <| w_tick ::= S |>). apply wp_bind.
  destruct Hmay as [Hrow Horg]. apply (wp_changeRow _ (fun r => isNull (proj_deletedAt r)) _ _ _ w2 p Hrow Hn); intros Ed.
  { apply wp_ret, wp_ret. split; [by do 2 eexists|done]. }
  set (g := fun r : ProjectRow => _ <| proj_updatedAt := w_now w2 |>). cbn [head]. apply wp_ret.
  destruct (lfilter_key proj_id projectId (db_projects (w_db w)) p Hn Hrow) as (Hp & Ep & _).
  set (w3 := w2 <| w_db ::= _ |>). assert (Hi3 : Idle w3) by exact Hi.
  eapply wp_bind_eq; [exact (revokeShares_run (ra_orgId auth) projectId w3 Hi3)|].
  set (w4 := w3 <| w_tick ::= S |> <| w_db ::= _ |>). assert (Hi4 : Idle w4) by exact Hi.
  eapply wp_bind_eq; [exact (revokeInvitations_run projectId w4 Hi4)|]. set (w5 := w4 <| w_tick ::= S |> <| w_db ::= _ |>).
  apply wp_bind. eapply wp_mono; [apply wp_audits; intros s ws; apply writeProjectAudit_spec|].
  intros [[]|e] w6 Ha6; [|done]. destruct (Ha6 eq_refl) as (shares & Hrows & Hshares).
  apply wp_bind. eapply wp_mono; [apply writeProjectAudit_spec|]. intros [[]|e] w7 Ha7; [|done].
  destruct Ha7 as (row & Hrow7 & Hentry). apply wp_ret. split; [done|]. exists p, via, at_, shares, row.
  pose proof (rowsMore_trans _ _ _ _ _ Hrows Hrow7) as (n & usage & seq & ->).
  constructor.
  - by split.
  - by apply isNull_true.
  - exact Hrot.
  - exact Hkey.
  - exists (w_now w2). change (head (List.filter (fun r => proj_id r =? projectId)
      (updatedBy projectId (fun r => isNull (proj_deletedAt r)) g (db_projects (w_db w)))) = Some (deletedRow at_ (w_now w2) (ra_userId auth) p)).
    rewrite (updatedBy_row _ _ g) with (p := p) by done. cbv beta. rewrite Ed. unfold g, deletedRow. by destruct (isNotNull (proj_archivedAt p)).
  - by apply (updatedBy_ids projectId (fun r => isNull (proj_deletedAt r)) g).
  - intros q Hne. by apply (updatedBy_other projectId (fun r => isNull (proj_deletedAt r)) g).
  - change (List.filter (openShare (ra_orgId auth) projectId (w_db w)) (map_where (openShare (ra_orgId auth) projectId (w_db w))
      (fun s => s <| sh_status := shareRevoked |> <| sh_revokedAt := Some (clock (w_tick w3)) |>) (db_shares (w_db w))) = []).
    apply revoked_none. intros s. unfold openShare, scoped. cbn. by rewrite andb_false_r.
  - intros s Hs Hin. apply elem_of_map_where. exists s. split; [exact Hin|].
    change (openShare (ra_orgId auth) projectId (w_db w3) s) with (openShare (ra_orgId auth) projectId (w_db w) s). by rewrite Hs.
  - change (List.filter (isPendingInvitation projectId) (map_where (isPendingInvitation projectId)
      (fun i => i <| pinv_revokedAt := Some (clock (w_tick w4)) |>) (db_projectInvitations (w_db w))) = []).
    apply revoked_none. intros inv. unfold isPendingInvitation. cbn. by rewrite andb_false_r.
  - done.
  - eapply Forall2_entries; [|exact Hshares]. done.
  - rewrite <- Ep. pose proof (Forall2_length _ _ _ Hshares) as Hlen. rewrite <- Hlen. exact Hentry.
  - cbn. by db_eta (w_db w).
Qed.

Lemma deleteProject_withOrg auth projectId meta w :
  Idle w -> uniqueProjects (w_db w) ->
  wp (withOrg (deleteProject auth projectId meta))
    (fun o w' => match o with
                 | Ok (reply_returns status _) =>
                     status = 200%Z /\ exists p via at_ shares row, Deletion auth projectId p via at_ shares row (w_db w) (w_db w')
                 | Ok r => refuses r /\ w_db w' = w_db w
                 | Throw _ => w_db w' = w_db w
                 end) w.
Proof. intros Hi Hn. apply wp_withOrg. eapply wp_mono; [by apply deleteProject_spec|]. by intros [[]|e] w' Ha. Qed.

(** C15: a deletion closes the project, all of it or nothing.  In a world where no other transaction commits
    meanwhile, DELETE /:projectId either answers an error or throws, and then changes nothing; or it answers 200, and
    then the caller is the owner of the project or of the organisation ([archiveAuthority]), the project was not
    deleted, no rotation of it is active and no key of its machine users could authenticate; its row is marked
    deleted by the caller and due for the purge thirty days later, and archived (at the time it already was, or now);
    no share of its credentials is active and no invitation to it pending any more; and the log has one entry more
    for each share that was revoked, in order, and then one for the deletion, with their number.  Nothing else of the
    database changes. *)
Theorem deletion_closes_project auth projectId meta w :
  Idle w -> uniqueProjects (w_db w) ->
  let '(o, w') := withOrg (deleteProject auth projectId meta) w in
  match o with
  | Ok (reply_returns status _) =>
      status = 200%Z /\ exists p via at_ shares row, Deletion auth projectId p via at_ shares row (w_db w) (w_db w')
  | Ok r => refuses r /\ w_db w' = w_db w
  | Throw _ => w_db w' = w_db w
  end.
Proof. by apply deleteProject_withOrg. Qed.
End deletion.

(** ** Restore *)

Definition restoredRow (updated : Date) (p : ProjectRow) : ProjectRow :=
  p <| proj_deletedAt := None |> <| proj_deletedBy := None |> <| proj_purgeAfter := None |> <| proj_updatedAt := updated |>.

(** One row changed, with its entries in the log and in the outbox of extensions. *)
Record RowChange (projectId : Uuid) (p p' : ProjectRow) (entries : list AuditRow) (db db' : Db) : Prop := {
  rc_before : projectRow db projectId = Some p;
  rc_after : projectRow db' projectId = Some p';
  rc_projects : exists q f, (forall r, proj_id (f r) = proj_id r) /\ q p = true /\ f p = p' /\
                  db_projects db' = updatedBy projectId q f (db_projects db);
  rc_audit : db_audit db' = db_audit db ++ entries;
  rc_rest : db' = db <| db_projects := db_projects db' |> <| db_audit := db_audit db' |> <| db_usage := db_usage db' |>
    <| db_auditSeq := db_auditSeq db' |> <| db_lifecycleEvents := db_lifecycleEvents db' |>;
}.

Section changes.
Context `{Locale, Platform, NodeCrypto, Env}.

(** The row [p] becomes [f p], and an entry says so. *)
Lemma wp_changeFor {A} auth k q f (K : list ProjectRow -> M A) (finish : ProjectRow -> M A) event rt (about : Uuid -> option Uuid)
    (payload : ProjectRow -> list (string * Json)) meta
    (Q : Outcome A -> World -> Prop) w p :
  projectRow (w_db w) k = Some p -> uniqueProjects (w_db w) -> (forall r, proj_id (f r) = proj_id r) ->
  let g := fun r : ProjectRow => (f r) <| proj_updatedAt := w_now w |> in
  (forall e w', Q (Throw e) w') ->
  (q p = false -> wp (K []) Q w) ->
  (q p = true -> K [g p] = (_ ← writeProjectAudit auth event rt (proj_id (g p)) (about (proj_id (g p))) (payload (g p)) meta; finish (g p))) ->
  (q p = true -> forall w' row, RowChange k p (g p) [row] (w_db w) (w_db w') -> db_lifecycleEvents (w_db w') = db_lifecycleEvents (w_db w) ->
     entryBy (ra_orgId auth) "human" event rt k (about k) (payload (g p)) row -> wp (finish (g p)) Q w') ->
  wp (updateProjects (fun r => (proj_id r =? k) && q r) f ≫= K) Q w.
Proof.
  intros Hrow Hn Hf g Ht Hno HK Hfin. apply (wp_changeRow k q f K Q w p Hrow Hn Hno). intros Eq.
  match goal with |- wp ?m _ _ => change m with (K [g p]) end. rewrite (HK Eq).
  apply wp_bind. eapply wp_mono; [apply writeProjectAudit_spec|]. intros [[]|e] w1 Ha; [|apply Ht].
  destruct Ha as (row & (n & u & sq & ->) & He).
  assert (Ek : proj_id (g p) = k) by (destruct (lfilter_key proj_id k (db_projects (w_db w)) p Hn Hrow) as (_ & Ek & _); cbn; by rewrite Hf).
  rewrite Ek in He. apply (Hfin Eq _ row); [|done|done]. split.
  - exact Hrow.
  - change (head (List.filter (fun r => proj_id r =? k) (updatedBy k q g (db_projects (w_db w)))) = Some (g p)).
    rewrite (updatedBy_row _ _ g) with (p := p) by done. by rewrite Eq.
  - exists q, g. done.
  - done.
  - cbn. by db_eta (w_db w).
Qed.

Lemma restoreProject_spec auth projectId meta w :
  Idle w -> uniqueProjects (w_db w) ->
  wp (restoreProject auth projectId meta)
    (fun o w' => match o with
                 | Ok (reply_returns status _) =>
                     status = 200%Z /\ exists p via updated row, mayDo verb_restore (w_db w) auth projectId p via /\
                       isNotNull (proj_deletedAt p) = true /\ isNull (proj_purgedAt p) = true /\
                       RowChange projectId p (restoredRow updated p) [row] (w_db w) (w_db w') /\
                       db_lifecycleEvents (w_db w') = db_lifecycleEvents (w_db w) /\
                       entryBy (ra_orgId auth) "human" "project.restored" "project" projectId (Some projectId) (viaPayload via) row
                 | Ok r => refuses r /\ changesNothing w w' /\
                     forall p via, mayDo verb_restore (w_db w) auth projectId p via ->
                       isNull (proj_deletedAt p) = true \/ isNotNull (proj_purgedAt p) = true
                 | Throw _ => True
                 end) w.
Proof.
  intros Hi Hn. unfold restoreProject.
  apply wp_bind. unfold wp at 1. rewrite loadOwned_run by done.
  destruct (preflightOf (w_db w) auth projectId verb_restore) as [[r|[p via]]|e] eqn:E; [|..|done].
  { destruct (preflight_inl _ _ _ _ _ E) as (st & b & -> & Hr). apply wp_ret. split; [by do 2 eexists|]. split; [done|].
    intros p via [Hp (o & Eo & Ev)]. exfalso. revert E. unfold preflightOf. rewrite Eo, Hp, Ev.
    destruct (negb _) eqn:En; [|done]. cbn in Ev. unfold archiveAuthority in Ev.
    apply negb_true_iff, orb_false_iff in En as [En1 En2]. destruct (roleIn (w_db w) auth projectId) as [r|]; [done|].
    rewrite (bool_decide_eq_false_2 (None = Some owner)) in Ev by done. destruct o; try done. }
  pose proof (preflight_inr _ _ _ _ _ _ E) as Hmay. destruct Hmay as [Hrow Horg] eqn:Em. clear Em.
  assert (Hsame : forall q v, mayDo verb_restore (w_db w) auth projectId q v -> q = p) by (intros q v [Hq _]; congruence).
  destruct (isNotNull (proj_purgedAt p)) eqn:Epu.
  { apply wp_ret. split; [by do 2 eexists|]. split; [done|]. intros q v Hq. right. by rewrite (Hsame q v Hq). }
  destruct (isNull (proj_deletedAt p)) eqn:Ede.
  { apply wp_ret. split; [by do 2 eexists|]. split; [done|]. intros q v Hq. left. by rewrite (Hsame q v Hq). }
  unfold markProjectRestored. apply wp_bind_assoc, wp_newDate, wp_bind_assoc. set (w1 := w <| w_tick ::= S |>).
  eapply (wp_changeFor auth projectId (fun r => isNotNull (proj_deletedAt r) && isNull (proj_purgedAt r)) _ _
    (fun row => mret (archiveState row (proj_archivedAt row) (isNotNull (proj_archivedAt row))))
    "project.restored" "project" Some (fun _ => viaPayload via) meta _ w1 p Hrow Hn).
  - done.
  - done.
  - intros Eq. exfalso. unfold isNotNull, isNull in *. by destruct (proj_deletedAt p), (proj_purgedAt p).
  - intros Eq. cbn [head]. reflexivity.
  - intros Eq w' row Hc Hl He. apply wp_ret. split; [done|]. cbv beta in Eq. apply andb_true_iff in Eq as [E1 E2].
    exists p, via, (w_now w1), row. split; [by split|]. split; [done|]. split; [done|]. by split.
Qed.

(** A restored row is the row as it was before the deletion, archived. *)
Lemma restored_deletedRow at_ t1 t2 by_ p :
  restoredRow t2 (deletedRow at_ t1 by_ p) =
  p <| proj_deletedAt := None |> <| proj_deletedBy := None |> <| proj_purgeAfter := None |>
    <| proj_archivedAt := Some (default at_ (proj_archivedAt p)) |> <| proj_updatedAt := t2 |>.
Proof. unfold restoredRow, deletedRow. by destruct p, proj_archivedAt. Qed.

(** C17: restoring undoes a deletion.  When a project is deleted and, with the database as the deletion left it, an
    owner asks to restore it, the request is not refused (unless the row were a tombstone); and when it succeeds the row of the project is the one
    before the deletion, its name, slug, tags, links and creator included, but archived (at the time it already was,
    or at the time of the deletion) and not deleted, so that the unarchive is a step of its own.  Every other project
    is as it was, and no table has changed since before the deletion but the shares and invitations it revoked, the
    audit log and its counters: the credentials and their versions, the rotations, the members and the machine users
    are all there. *)
Theorem restore_undoes_delete auth auth' projectId meta meta' w status data w1 w1' :
  Idle w -> uniqueProjects (w_db w) ->
  withOrg (deleteProject auth projectId meta) w = (Ok (reply_returns status data), w1) ->
  Idle w1' -> w_db w1' = w_db w1 ->
  let '(o, w2) := withOrg (restoreProject auth' projectId meta') w1' in
  match o with
  | Ok (reply_returns status' _) =>
      status' = 200%Z /\ exists p at_ updated,
        projectRow (w_db w) projectId = Some p /\ proj_deletedAt p = None /\
        projectRow (w_db w2) projectId =
          Some (p <| proj_deletedAt := None |> <| proj_deletedBy := None |> <| proj_purgeAfter := None |>
                  <| proj_archivedAt := Some (default at_ (proj_archivedAt p)) |> <| proj_updatedAt := updated |>) /\
        (forall q, proj_id q <> projectId -> q ∈ db_projects (w_db w2) <-> q ∈ db_projects (w_db w)) /\
        w_db w2 = (w_db w) <| db_projects := db_projects (w_db w2) |> <| db_shares := db_shares (w_db w2) |>
          <| db_projectInvitations := db_projectInvitations (w_db w2) |> <| db_audit := db_audit (w_db w2) |>
          <| db_usage := db_usage (w_db w2) |> <| db_auditSeq := db_auditSeq (w_db w2) |>
  | Ok _ => forall q via, mayDo verb_restore (w_db w1) auth' projectId q via -> isNotNull (proj_purgedAt q) = true
  | Throw _ => w_db w2 = w_db w1
  end.
Proof.
  intros Hi Hn Edel Hi1 Edb.
  pose proof (wp_elim _ _ _ _ _ (deleteProject_withOrg auth projectId meta w Hi Hn) Edel) as (_ & p & via & at_ & shares & row & Hd).
  destruct Hd as [[Hrow _] Hlive _ _ [t1 Hrow1] Hids Hothers _ _ _ _ _ _ Hrest]. rewrite <- Edb in Hrow1.
  assert (Hn1 : uniqueProjects (w_db w1')) by (unfold uniqueProjects; rewrite Edb, Hids; exact Hn).
  apply wp_withOrg. set (w0 := w1' <| w_tick ::= S |> <| w_now := _ |>).
  assert (E0 : w_db w0 = w_db w1) by exact Edb. rewrite Edb in Hrow1. rewrite <- E0 in Hrow1, Hrest, Hothers |- *.
  eapply wp_mono; [by apply restoreProject_spec|].
  intros [[st body|st body]|e] w2; [|..|by rewrite E0].
  - intros (_ & _ & Hr) q v Hq. destruct (Hr q v Hq) as [Hr'|Hr']; [|done]. destruct Hq as [Hq _]. rewrite Hrow1 in Hq. by injection Hq as <-.
  - intros (-> & q & v & t2 & entry & [Hq _] & _ & _ & Hc & Hev & _). split; [done|]. exists p, at_, t2.
    rewrite Hrow1 in Hq. injection Hq as <-.
    destruct Hc as [_ Hafter (qq & f & Hf & _ & _ & El) _ Hr2]. rewrite restored_deletedRow in Hafter.
    split; [exact Hrow|]. split; [exact Hlive|]. split; [exact Hafter|]. split.
    + intros z Hz. by rewrite El, updatedBy_other, Hothers.
    + assert (Hle : db_lifecycleEvents (w_db w0) = db_lifecycleEvents (w_db w)) by by rewrite Hrest.
      assert (Hsh : db_shares (w_db w2) = db_shares (w_db w0)) by by rewrite Hr2.
      assert (Hin : db_projectInvitations (w_db w2) = db_projectInvitations (w_db w0)) by by rewrite Hr2.
      rewrite Hsh, Hin. rewrite Hr2 at 1. rewrite Hev, Hle. rewrite Hrest at 1. cbn. by db_eta (w_db w).
Qed.

(** ** The list of deleted projects *)

(** Row-level security shows the rows of the organisation only. *)
Definition ownOrganization (auth : RouteAuth) (db : Db) : Prop :=
  forall m, m ∈ db_projectMemberships db -> pmb_orgId m = ra_orgId auth.
Definition uniqueMembers (db : Db) : Prop :=
  NoDup (map (fun m => (pmb_projectId m, pmb_userId m)) (db_projectMemberships db)).

Lemma roleIn_owner auth projectId db :
  ownOrganization auth db -> uniqueMembers db ->
  roleIn db auth projectId = Some owner <->
  projectId ∈ map pmb_projectId (List.filter (fun m => (pmb_userId m =? ra_userId auth) && (pmb_role m =? owner)) (db_projectMemberships db)).
Proof.
  intros Ho Hu. unfold roleIn. split.
  - destruct (head _) as [m|] eqn:Eh; [|done]. intros [= Er]. apply head_elem_of, elem_of_lfilter in Eh as [E Hm]. bool_simpl.
    apply elem_of_map. exists m. split; [done|]. apply elem_of_lfilter. split; [|done]. by rewrite !bool_decide_eq_true_2.
  - intros Hin. apply elem_of_map in Hin as (m & -> & Hm). apply elem_of_lfilter in Hm as [E Hm]. bool_simpl.
    destruct (head _) as [m'|] eqn:Eh.
    + apply head_elem_of, elem_of_lfilter in Eh as [E' Hm']. bool_simpl. cbn.
      rewrite (NoDup_key_inj (fun m => (pmb_projectId m, pmb_userId m)) (db_projectMemberships db) m' m);
        [by f_equal|done|done|done|congruence].
    + exfalso. assert (Hin : m ∈ List.filter (fun x => (pmb_projectId x =? pmb_projectId m) && (pmb_userId x =? ra_userId auth)
        && (pmb_orgId x =? ra_orgId auth)) (db_projectMemberships db)).
      { apply elem_of_lfilter. split; [|done]. rewrite !bool_decide_eq_true_2; [done|by apply Ho|done|done]. }
      destruct (List.filter _ _); [by apply not_elem_of_nil in Hin|done].
Qed.

Lemma restore_refused_iff auth orgRole projectId meta w :
  Idle w -> uniqueProjects (w_db w) -> ra_orgRole auth = Some orgRole ->
  (exists status body w2, restoreProject auth projectId meta w = (Ok (reply_sends status body), w2)) <->
  ~ exists p via, mayDo verb_restore (w_db w) auth projectId p via /\ isNotNull (proj_deletedAt p) = true /\ isNull (proj_purgedAt p) = true.
Proof.
  intros Hi Hn Er. split.
  - intros (st & b & w2 & E) (p & via & Hmay & Hd & Hp).
    destruct (wp_elim _ _ _ _ _ (restoreProject_spec auth projectId meta w Hi Hn) E) as (_ & _ & Hr).
    unfold isNotNull in *. by destruct (Hr p via Hmay) as [Hx|Hx], (proj_deletedAt p), (proj_purgedAt p).
  - intros Hno. unfold restoreProject. rewrite (run_bind2 _ _ _ _ _ (loadOwned_run _ _ _ _ Hi)).
    destruct (preflightOf (w_db w) auth projectId verb_restore) as [[r|[p via]]|e] eqn:E.
    + destruct (preflight_inl _ _ _ _ _ E) as (st & b & -> & _). by do 3 eexists.
    + pose proof (preflight_inr _ _ _ _ _ _ E) as Hmay. destruct (isNotNull (proj_purgedAt p)) eqn:Ep; [by do 3 eexists|].
      destruct (isNull (proj_deletedAt p)) eqn:Ed; [by do 3 eexists|]. exfalso. apply Hno. exists p, via. split; [done|].
      unfold isNotNull in *. rewrite Ed. split; [done|]. by apply negb_false_iff in Ep.
    + unfold preflightOf in E. rewrite Er in E. done.
Qed.

Lemma mayRestore_iff db auth orgRole projectId p :
  ra_orgRole auth = Some orgRole -> orgRole <> viewer ->
  (exists via, mayDo verb_restore db auth projectId p via) <->
  projectRow db projectId = Some p /\ (orgRole = owner \/ roleIn db auth projectId = Some owner).
Proof.
  intros Er Hv. unfold mayDo. cbn [authorityFor].
  assert (Ha : (exists via, archiveAuthority orgRole (roleIn db auth projectId) = Some via) <-> orgRole = owner \/ roleIn db auth projectId = Some owner).
  { unfold archiveAuthority. destruct (roleIn db auth projectId) as [[]|]; destruct orgRole; cbn; try done; split; eauto; try (by intros [? [=]]); by intros [[=]|[=]]. }
  rewrite <- Ha. split.
  - intros (via & Hp & o & Eo & Ev). rewrite Er in Eo. injection Eo as <-. eauto.
  - intros (Hp & via & Ev). exists via. eauto.
Qed.

(** The list of deleted projects is exactly what its reader may restore, so that it tells of no other project.
    For a caller whose role in the organisation is member or more (the floor of both routes), GET /deleted lists a
    project if and only if POST /:projectId/restore does not refuse the caller: with a database in which deleted
    projects have their date of purge, and a world where no other transaction commits meanwhile, the request goes on
    to the restore for every listed project, and is refused for every other identifier, without changing anything. *)
Theorem deleted_list_iff_restorable auth orgRole projectId meta w :
  Idle w -> uniqueProjects (w_db w) -> uniqueMembers (w_db w) -> ownOrganization auth (w_db w) ->
  (forall p, p ∈ db_projects (w_db w) -> isNotNull (proj_deletedAt p) = true -> isNotNull (proj_purgeAfter p) = true) ->
  ra_orgRole auth = Some orgRole -> orgRole <> viewer ->
  exists items w1, listDeleted auth w = (Ok items, w1) /\ w_db w1 = w_db w /\
    (projectId ∈ map proj_id items <->
     ~ exists status body w2, restoreProject auth projectId meta w = (Ok (reply_sends status body), w2)).
Proof.
  intros Hi Hn Hu Ho Hpa Er Hv.
  set (isDeleted := fun p => isNotNull (proj_deletedAt p) && isNull (proj_purgedAt p)).
  set (items := List.filter (fun p => bool_decide (orgRole = owner \/ roleIn (w_db w) auth (proj_id p) = Some owner))
    (List.filter (fun p => isNotNull (proj_deletedAt p) && isNotNull (proj_purgeAfter p))
       (isort deletedAtLe (List.filter isDeleted (db_projects (w_db w)))))).
  exists items, w. split; [|split; [done|]].
  - unfold listDeleted, listDeletedProjects, ownedProjectIds, orgRoleOrDeny, mbind, M_bind, selectOrdered, selectWhere, mret, M_ret.
    rewrite Er. cbv beta iota. destruct (orgRole =? owner) eqn:Eo; do 2 f_equal; unfold items; bool_simpl.
    + symmetry. apply lfilter_all. intros p _. apply bool_decide_eq_true_2. by left.
    + apply lfilter_ext. intros p _. apply bool_decide_ext. rewrite (roleIn_owner _ _ _ Ho Hu). naive_solver.
  - rewrite (restore_refused_iff auth orgRole) by done. split.
    + intros Hin Hno. apply Hno. apply elem_of_map in Hin as (p & -> & Hp). apply elem_of_lfilter in Hp as [Ha Hp].
      apply elem_of_lfilter in Hp as [_ Hp]. apply elem_of_isort, elem_of_lfilter in Hp as [Hd Hp]. unfold isDeleted in Hd.
      apply bool_decide_eq_true in Ha. apply andb_true_iff in Hd as [Hd Hpu].
      assert (Hrow : projectRow (w_db w) (proj_id p) = Some p) by by apply projectRow_of.
      destruct (proj2 (mayRestore_iff (w_db w) auth orgRole (proj_id p) p Er Hv) (conj Hrow Ha)) as (via & Hmay). by exists p, via.
    + intros Hno. destruct (decide (projectId ∈ map proj_id items)) as [|Hout]; [done|]. exfalso. apply Hno. intros (p & via & Hmay & Hd & Hpu).
      destruct (proj1 (mayRestore_iff (w_db w) auth orgRole projectId p Er Hv) (ex_intro _ via Hmay)) as [Hrow Ha].
      apply Hout. pose proof (head_elem_of _ _ Hrow) as Hp. apply elem_of_lfilter in Hp as [Ep Hp]. apply bool_decide_eq_true in Ep. subst projectId.
      apply elem_of_map. exists p. split; [done|]. apply elem_of_lfilter. split; [by apply bool_decide_eq_true|].
      apply elem_of_lfilter. split; [apply andb_true_iff; split; [done|by apply Hpa]|].
      apply elem_of_isort, elem_of_lfilter. split; [by apply andb_true_iff|done].
Qed.
End changes.

(** ** Purge *)

(** Whose rows the purge of a project erases. *)
Definition rotationsOf (projectId : Uuid) (db : Db) : list Uuid :=
  map rot_id (List.filter (fun r => rot_projectId r =? projectId) (db_rotations db)).

(** What the purge leaves of each table. *)
Definition erasedDb (projectId : Uuid) (db : Db) : Db :=
  db <| db_rotations ::= List.filter (fun r => negb (rot_projectId r =? projectId)) |>
     <| db_items ::= List.filter (fun i => negb (item_rotationId i ∈? rotationsOf projectId db)) |>
     <| db_machineUsers ::= List.filter (fun m => negb (mu_projectId m =? Some projectId)) |>
     <| db_apiKeys ::= List.filter (fun k => negb (ak_machineUserId k ∈? machineUsersOf projectId db)) |>
     <| db_credentials ::= List.filter (fun c => negb (cred_projectId c =? projectId)) |>
     <| db_versions ::= List.filter (fun v => negb (cv_credentialId v ∈? credentialsOf projectId db)) |>
     <| db_shares ::= List.filter (fun s => negb (sh_credentialId s ∈? credentialsOf projectId db)) |>
     <| db_dependencies ::= List.filter (fun d => negb (dep_credentialId d ∈? credentialsOf projectId db)) |>
     <| db_nudgeDismissals ::= List.filter (fun n => negb (nd_credentialId n ∈? credentialsOf projectId db)) |>
     <| db_projectInvitations ::= List.filter (fun i => negb (pinv_projectId i =? projectId)) |>
     <| db_lifecycleEvents ::= List.filter (fun e => negb (le_projectId e =? projectId)) |>
     <| db_projectMemberships ::= List.filter (fun m => negb (pmb_projectId m =? projectId)) |>.

Lemma purgeTables_run projectId w :
  forEachSequential (PROJECT_PURGE_TABLES projectId) id w = (Ok tt, w <| w_db ::= erasedDb projectId |>).
Proof. reflexivity. Qed.

Section purge.
Context `{Locale, Platform, NodeCrypto, Env}.

Definition purgedRow (now updated : Date) (p : ProjectRow) : ProjectRow := (tombstone now p) <| proj_updatedAt := updated |>.

(** The row [p] of the project, before; the entry [row] of the log, which names it as it was. *)
Record Purge (orgId projectId : Uuid) (now : Date) (p : ProjectRow) (row : AuditRow) (db db' : Db) : Prop := {
  pu_row : projectRow db projectId = Some p;
  pu_due : isPurgeDue now p = true;
  pu_tombstone : exists updated, projectRow db' projectId = Some (purgedRow now updated p);
  pu_projects : exists updated, db_projects db' = updatedBy projectId (fun _ => true) (purgedRow now updated) (db_projects db);
  pu_entry : entryBy orgId "system" "project.purged" "project" projectId None
               [("projectId", JUuid projectId); ("name", JStr (proj_name p)); ("slug", JStr (proj_slug p))] row;
  pu_audit : db_audit db' = db_audit db ++ [row];
  pu_rest : db' = (erasedDb projectId db) <| db_projects := db_projects db' |> <| db_audit := db_audit db' |>
    <| db_usage := db_usage db' |> <| db_auditSeq := db_auditSeq db' |>;
}.

Lemma purgeOne_withOrg orgId projectId now w :
  Idle w -> uniqueProjects (w_db w) ->
  wp (purgeOne orgId projectId now)
    (fun o w' => match o with
                 | Ok true => exists p row, Purge orgId projectId now p row (w_db w) (w_db w')
                 | Ok false => w_db w' = w_db w /\ forall p, projectRow (w_db w) projectId = Some p -> isPurgeDue now p = false
                 | Throw _ => w_db w' = w_db w
                 end) w.
Proof.
  intros Hi Hn. apply wp_withOrg. set (w0 := w <| w_tick ::= S |> <| w_now := _ |>).
  change (w_db w) with (w_db w0). assert (Hi0 : Idle w0) by exact Hi. assert (Hn0 : uniqueProjects (w_db w0)) by exact Hn.
  clearbody w0. clear w Hi Hn. unfold findProject. apply wp_bind_first.
  fold (projectRow (w_db w0) projectId). destruct (projectRow (w_db w0) projectId) as [p|] eqn:Erow; [|by apply wp_ret].
  destruct (lfilter_key proj_id projectId _ p Hn0 Erow) as (Hp & Ep & Hq).
  unfold eraseProjectData. apply wp_bind_assoc, wp_otherCommits; [done|]. apply wp_bind_assoc, wp_bind_first. rewrite Hq.
  destruct (isPurgeDue now p) eqn:Ed; cbn [head].
  2: { apply wp_bind, wp_ret, wp_ret. split; [done|]. by intros q [= <-]. }
  apply wp_bind_assoc. eapply wp_bind_eq; [apply purgeTables_run|]. apply wp_bind_assoc, wp_updateProjects. cbv zeta.
  set (w1 := w0 <| w_db ::= erasedDb projectId |>). set (g := fun r : ProjectRow => (tombstone now r) <| proj_updatedAt := w_now w1 |>).
  apply wp_bind, wp_ret. cbn [negb].
  apply wp_bind. eapply wp_mono; [apply writeSystemAudit_spec|]. intros [[]|e] w2 Ha; [|done].
  destruct Ha as (row & Hrows & Hentry). apply wp_ret. exists p, row.
  destruct Hrows as (n & usage & seq & ->).
  assert (El : map_where (fun r => proj_id r =? projectId) g (db_projects (w_db w1))
               = updatedBy projectId (fun _ => true) (purgedRow now (w_now w1)) (db_projects (w_db w0))).
  { apply map_ext. intros r. by rewrite andb_true_r. }
  constructor.
  - exact Erow.
  - exact Ed.
  - exists (w_now w1). unfold projectRow. change (db_projects _) with (map_where (fun r => proj_id r =? projectId) g (db_projects (w_db w1))).
    rewrite El. by rewrite (updatedBy_row _ _ (purgedRow now (w_now w1))) with (p := p).
  - exists (w_now w1). exact El.
  - rewrite <- Ep. exact Hentry.
  - done.
  - cbn. by db_eta (w_db w0).
Qed.

(** Nothing of the project is left, and nothing that refers to what was erased. *)
Record NothingLeft (projectId : Uuid) (db db' : Db) : Prop := {
  nl_credentials : credentialsOf projectId db' = [];
  nl_rotations : rotationsOf projectId db' = [];
  nl_machineUsers : machineUsersOf projectId db' = [];
  nl_versions : forall v, v ∈ db_versions db' -> cv_credentialId v ∉ credentialsOf projectId db;
  nl_shares : forall s, s ∈ db_shares db' -> sh_credentialId s ∉ credentialsOf projectId db;
  nl_dependencies : forall d, d ∈ db_dependencies db' -> dep_credentialId d ∉ credentialsOf projectId db;
  nl_dismissals : forall n, n ∈ db_nudgeDismissals db' -> nd_credentialId n ∉ credentialsOf projectId db;
  nl_items : forall i, i ∈ db_items db' -> item_rotationId i ∉ rotationsOf projectId db;
  nl_keys : forall k, k ∈ db_apiKeys db' -> ak_machineUserId k ∉ machineUsersOf projectId db;
  nl_members : forall m, m ∈ db_projectMemberships db' -> pmb_projectId m <> projectId;
  nl_invitations : forall i, i ∈ db_projectInvitations db' -> pinv_projectId i <> projectId;
  nl_events : forall e, e ∈ db_lifecycleEvents db' -> le_projectId e <> projectId;
}.

Lemma map_filter_negb {A B} (f : A -> B) (p : A -> bool) l :
  map f (List.filter p (List.filter (fun x => negb (p x)) l)) = [].
Proof. rewrite lfilter_none; [done|]. intros x Hx. apply elem_of_lfilter in Hx as [E _]. by apply negb_true_iff in E. Qed.

Lemma kept_not {A} `{EqDecision B} (f : A -> B) (k : B) l x :
  x ∈ List.filter (fun y => negb (f y =? k)) l -> f x <> k.
Proof. intros Hx. apply elem_of_lfilter in Hx as [E _]. by bool_simpl. Qed.

Lemma kept_notIn {A} `{EqDecision B} (f : A -> B) (ks : list B) l x :
  x ∈ List.filter (fun y => negb (f y ∈? ks)) l -> f x ∉ ks.
Proof. intros Hx. apply elem_of_lfilter in Hx as [E _]. by bool_simpl. Qed.

Lemma Purge_nothingLeft orgId projectId now p row db db' : Purge orgId projectId now p row db db' -> NothingLeft projectId db db'.
Proof.
  intros [_ _ _ _ _ _ E]. rewrite E. clear E. split; cbn.
  1-3: apply map_filter_negb.
  1-6: intros x Hx; by eapply kept_notIn.
  all: intros x Hx; by eapply kept_not.
Qed.

(** What of the other projects stays. *)
Record OthersKept (projectId : Uuid) (db db' : Db) : Prop := {
  ok_projects : forall q, proj_id q <> projectId -> q ∈ db_projects db' <-> q ∈ db_projects db;
  ok_credentials : forall c, cred_projectId c <> projectId -> c ∈ db_credentials db -> c ∈ db_credentials db';
  ok_versions : forall v, cv_credentialId v ∉ credentialsOf projectId db -> v ∈ db_versions db -> v ∈ db_versions db';
  ok_rotations : forall r, rot_projectId r <> projectId -> r ∈ db_rotations db -> r ∈ db_rotations db';
  ok_members : forall m, pmb_projectId m <> projectId -> m ∈ db_projectMemberships db -> m ∈ db_projectMemberships db';
  ok_users : db_users db' = db_users db /\ db_memberships db' = db_memberships db /\ db_sessions db' = db_sessions db;
}.

Lemma Purge_othersKept orgId projectId now p row db db' : Purge orgId projectId now p row db db' -> OthersKept projectId db db'.
Proof.
  intros [_ _ _ [u El] _ _ E]. split; [intros q Hq; rewrite El; by apply updatedBy_other|..].
  all: rewrite E; clear E; cbn; try done.
  all: intros x Hx Hin; apply elem_of_lfilter; split; [|done]; by apply negb_true_iff, bool_decide_eq_false_2.
Qed.

(** C16: a purge erases a project whole, and no other.  In a world where no other transaction commits meanwhile the
    purge of one project either fails and changes nothing, or finds the project not due ([isPurgeDue]: deleted, not
    purged and its date passed) and changes nothing; or the project was due, and then its row is a tombstone without
    name, slug, description, tags, links or creator; no credential, rotation, machine user, invitation, event or
    member of it is left, nor a version, share, dependency or dismissal of its credentials, an item of its rotations
    or a key of its machine users; the rows of the other projects are all there, and the users; the audit log keeps
    every entry and has one more, which names the project as it was; and nothing else changes. *)
Theorem purge_erases orgId projectId now w :
  Idle w -> uniqueProjects (w_db w) ->
  let '(o, w') := purgeOne orgId projectId now w in
  match o with
  | Ok true => exists p row, Purge orgId projectId now p row (w_db w) (w_db w') /\
                 NothingLeft projectId (w_db w) (w_db w') /\ OthersKept projectId (w_db w) (w_db w')
  | Ok false => w_db w' = w_db w /\ forall p, projectRow (w_db w) projectId = Some p -> isPurgeDue now p = false
  | Throw _ => w_db w' = w_db w
  end.
Proof.
  intros Hi Hn. destruct (purgeOne orgId projectId now w) as [o w'] eqn:E.
  pose proof (wp_elim _ _ _ _ _ (purgeOne_withOrg orgId projectId now w Hi Hn) E) as HQ.
  destruct o as [[]|e]; [|done|done]. destruct HQ as (p & row & HP). exists p, row. split; [done|].
  split; [by eapply Purge_nothingLeft|by eapply Purge_othersKept].
Qed.
End purge.
