(* ===== verification/ProjectSlugs.v ===== *)
(** * The slugs of projects are well formed

    What [serverSlugFromProjectName] derives from a name, and what the creation
    makes of it when it is taken, passes the schema that checks the slugs of
    requests ([SLUG_REGEX]). *)

From S2P Require Import Prelude Js Crypto FieldSet AuthStore Store Tx QuotaGate AuditLog Notifications Credentials Frames Sessions Shares Text Authenticate Mfa Login JsMap RateLimit Server CapabilityGate GateTheorems AuditPayload SecureRoute SecureRouteTheorems RouteTheorems Projects ProjectTheorems.
From Stdlib Require Import Ascii String.
From stdpp Require Import strings pretty.

Local Open Scope string_scope.
Local Open Scope list_scope.
Local Open Scope pv_scope.

Definition slugChar (c : ascii) : bool := isAlnum c || (c =? "-"%char).

Lemma hyphenate_chars inRun s : allChars slugChar (hyphenate inRun s) = true.
Proof.
  revert inRun. induction s as [|c s IH]; intros inRun; cbn; [done|]. destruct (isAlnum c) eqn:Ec.
  - cbn. unfold slugChar at 1. by rewrite Ec, IH.
  - destruct inRun; [apply IH|]. cbn. by rewrite IH.
Qed.

Lemma takeChars_chars p n s : allChars p s = true -> allChars p (takeChars n s) = true.
Proof.
  revert s. induction n as [|n IH]; intros [|c s]; cbn; try done. intros [Hc Hs]%andb_true_iff. by rewrite Hc, IH.
Qed.
Lemma takeChars_length n s : (String.length (takeChars n s) <= n)%nat.
Proof. revert s. induction n as [|n IH]; intros [|c s]; cbn; try lia. specialize (IH s). lia. Qed.
Lemma takeChars_short n s : (String.length s <= n)%nat -> takeChars n s = s.
Proof. revert s. induction n as [|n IH]; intros [|c s]; cbn; try done; [lia|]. intros Hl. rewrite IH; [done|lia]. Qed.
Lemma takeChars_min n s : String.length (takeChars n s) = Nat.min n (String.length s).
Proof. revert s. induction n as [|n IH]; intros [|c s]; cbn; try done. by rewrite IH. Qed.
Lemma takeChars_app n s t : String.length s = n -> takeChars n (s +:+ t) = s.
Proof.
  revert s. induction n as [|n IH]; intros [|c s]; try done. intros [= Hl].
  change (String c (takeChars n (s +:+ t)) = String c s). by rewrite IH.
Qed.
Lemma takeChars_first p n s : firstIs p (takeChars (S n) s) = firstIs p s.
Proof. by destruct s. Qed.

Lemma slugChar_first c : slugChar c = true -> (c =? "-"%char) = false -> isAlnum c = true.
Proof. unfold slugChar. intros Hc Hd. by rewrite Hd, orb_false_r in Hc. Qed.

Lemma trimStart_ok s : allChars slugChar s = true ->
  allChars slugChar (trimStart s) = true /\ (String.length (trimStart s) <= String.length s)%nat /\
  (trimStart s = EmptyString \/ firstIs isAlnum (trimStart s) = true).
Proof.
  induction s as [|c s IH]; cbn; [auto|]. intros [Hc Hs]%andb_true_iff. destruct (c =? "-"%char) eqn:Ec.
  - destruct (IH Hs) as (Ha & Hl & Hf). split; [done|]. split; [lia|done].
  - cbn. rewrite Hc, Hs. split; [done|]. split; [lia|]. right. by apply slugChar_first.
Qed.

Lemma trimEnd_ok s : allChars slugChar s = true ->
  allChars slugChar (trimEnd s) = true /\ (String.length (trimEnd s) <= String.length s)%nat /\
  (trimEnd s = EmptyString \/ lastIs isAlnum (trimEnd s) = true /\ (firstIs isAlnum s = true -> firstIs isAlnum (trimEnd s) = true)).
Proof.
  induction s as [|c s IH]; cbn; [auto|]. intros [Hc Hs]%andb_true_iff. destruct (IH Hs) as (Ha & Hl & Hf).
  destruct (trimEnd s) as [|d t] eqn:Et.
  - rewrite bool_decide_eq_true_2 by done. cbn [andb]. destruct (c =? "-"%char) eqn:Ec; [repeat split; [cbn; lia|by left]|].
    cbn. rewrite Hc. split; [done|]. split; [lia|]. right. split; [by apply slugChar_first|done].
  - rewrite bool_decide_eq_false_2 by done. cbn [andb]. split; [by cbn [allChars]; rewrite Hc|]. split; [cbn in *; lia|].
    right. destruct Hf as [Hf|[Hf _]]; [done|]. by split.
Qed.

(** A slug passes when its characters and its ends do. *)
Lemma SLUG_REGEX_of s :
  allChars slugChar s = true -> firstIs isAlnum s = true -> lastIs isAlnum s = true -> (3 <= String.length s <= 50)%nat ->
  SLUG_REGEX s = true.
Proof. intros Ha Hf Hl Hlen. unfold SLUG_REGEX. rewrite Hf, Hl. fold slugChar. rewrite Ha. by rewrite bool_decide_eq_true_2. Qed.

Lemma trimHyphens_ok s : allChars slugChar s = true ->
  allChars slugChar (trimHyphens s) = true /\ (String.length (trimHyphens s) <= String.length s)%nat /\
  (trimHyphens s = EmptyString \/ firstIs isAlnum (trimHyphens s) = true /\ lastIs isAlnum (trimHyphens s) = true).
Proof.
  intros Hs. destruct (trimStart_ok s Hs) as (Ha & Hl & Hf). destruct (trimEnd_ok _ Ha) as (Ha' & Hl' & Hf').
  unfold trimHyphens. split; [done|]. split; [lia|]. destruct Hf' as [|[Hlast Hfirst]]; [by left|].
  destruct Hf as [E|Hf]; [left; by rewrite E|]. right. by split; [apply Hfirst|].
Qed.

Section slugs.
Context `{Locale, Platform, NodeCrypto, Env, Unicode}.

Record goodSlug (s : string) : Prop := {
  gs_chars : allChars slugChar s = true;
  gs_first : firstIs isAlnum s = true;
  gs_last : lastIs isAlnum s = true;
  gs_length : (3 <= String.length s <= 50)%nat;
}.

Lemma serverSlug_good name : goodSlug (serverSlugFromProjectName name).
Proof.
  unfold serverSlugFromProjectName. cbv zeta. set (slug := takeChars 50 _).
  assert (Hc : allChars slugChar slug = true) by apply takeChars_chars, hyphenate_chars.
  pose proof (takeChars_length 50 (hyphenate false (toLowerCase (normalizeNFKC name)))) as Hl. fold slug in Hl.
  destruct (trimHyphens_ok slug Hc) as (Ha & Hl' & Hends). set (t := trimHyphens slug) in *.
  assert (Hproject : goodSlug "project") by (split; cbn; [done..|lia]).
  destruct (t =? "") eqn:Et; [done|]. destruct (bool_decide_reflect (3 <= String.length t)%nat) as [Hlow|]; [|done].
  destruct Hends as [E|[Hf Hla]]; [by rewrite E in Et|]. split; [done..|lia].
Qed.

(** The digits of an identifier. *)
Lemma hexDigit_alnum x : isAlnum (hexDigit (x mod 16)) = true.
Proof.
  assert (Hx : (x mod 16 < 16)%N) by (by apply N.mod_lt). revert Hx. generalize (x mod 16)%N as d. intros d Hd.
  assert (E : Forall (fun d => isAlnum (hexDigit d) = true) (map N.of_nat (seq 0 16))) by (by repeat constructor).
  eapply Forall_forall in E; [exact E|]. apply elem_of_map. exists (N.to_nat d). split; [lia|]. apply elem_of_seq. lia.
Qed.

Lemma lastIs_snoc p s c : lastIs p (s +:+ String c EmptyString) = p c.
Proof.
  induction s as [|d s IH]; [done|]. change (String d s +:+ String c EmptyString) with (String d (s +:+ String c EmptyString)).
  rewrite <- IH. cbn [lastIs]. by destruct s.
Qed.

Lemma hexDigits_ok n x :
  allChars slugChar (hexDigits n x) = true /\ String.length (hexDigits n x) = n /\ (n <> 0%nat -> lastIs isAlnum (hexDigits n x) = true).
Proof.
  revert x. induction n as [|n IH]; intros x; [done|]. destruct (IH (x / 16)%N) as (Ha & Hl & _). cbn [hexDigits]. split; [|split].
  - rewrite allChars_app, Ha. cbn. unfold slugChar. by rewrite hexDigit_alnum.
  - rewrite string_length_app, Hl. cbn. lia.
  - intros _. by rewrite lastIs_snoc, hexDigit_alnum.
Qed.

Lemma lastIs_app p s t : t <> EmptyString -> lastIs p (s +:+ t) = lastIs p t.
Proof.
  intros Ht. induction s as [|d s IH]; [done|]. change (String d s +:+ t) with (String d (s +:+ t)). rewrite <- IH. cbn [lastIs].
  destruct (s +:+ t) eqn:E; [|done]. by destruct s, t.
Qed.

Lemma suffixed_good base id : goodSlug base -> goodSlug (takeChars 41 base +:+ "-" +:+ takeChars 8 (uuidText id)).
Proof.
  intros [Hc Hf Hl Hlen]. destruct (hexDigits_ok 8 (id / 2 ^ 96)) as (Ha8 & Hl8 & Hla8).
  assert (E8 : takeChars 8 (uuidText id) = hexDigits 8 (id / 2 ^ 96)) by (unfold uuidText; by apply takeChars_app). rewrite E8. clear E8.
  set (h := hexDigits 8 (id / 2 ^ 96)) in *. assert (Hh : h <> EmptyString) by (intros E; by rewrite E in Hl8).
  pose proof (takeChars_min 41 base) as Hm. split.
  - rewrite !allChars_app, (takeChars_chars _ 41 base Hc), Ha8. done.
  - destruct base as [|c base]; [done|]. exact Hf.
  - rewrite !lastIs_app; [by apply Hla8|done|done].
  - rewrite !string_length_app, Hm, Hl8. change (String.length "-") with 1%nat. lia.
Qed.

Lemma goodSlug_regex s : goodSlug s -> SLUG_REGEX s = true.
Proof. intros [Hc Hf Hl Hlen]. by apply SLUG_REGEX_of. Qed.

(** C37: the slug of a new project is one that the schema of requests would accept: 3 to 50 characters of [a-z0-9-] that
    neither begin nor end with a hyphen.  The resolution of the slug always returns one, whatever the name is (in any
    script, empty, of punctuation only or longer than the bound: the cut at 50 characters comes before the hyphens at
    its ends go), whatever projects there are, and whatever identifier is drawn when the slug of the name is taken, of
    which the first 41 characters are kept before a hyphen and 8 digits.  A slug of the request is taken as the schema
    let it through. *)
Theorem created_slug_valid auth body w :
  (forall slug, cpb_slug body = Some slug -> slug <> "" -> SLUG_REGEX slug = true) ->
  exists slug w', resolveProjectSlug auth body w = (Ok slug, w') /\ SLUG_REGEX slug = true.
Proof.
  intros Hslug. unfold resolveProjectSlug. destruct (truthy (cpb_slug body)) as [slug|] eqn:Et.
  - exists slug, w. split; [done|]. unfold truthy in Et. destruct (cpb_slug body) as [s|]; [|done].
    destruct s as [|c s]; [done|]. injection Et as <-. by apply Hslug.
  - pose proof (serverSlug_good (cpb_name body)) as Hg. cbv zeta. unfold slugTaken, selectFirst, genRandomUuid, mbind, M_bind, mret, M_ret.
    destruct (isNotNull _); do 2 eexists; (split; [reflexivity|]); apply goodSlug_regex; [by apply suffixed_good|done].
Qed.
End slugs.
