(* ===== verification/ProjectLifecycle.v ===== *)
(** * The life cycle of a project

    An abstract machine of four phases (live, archived, deleted, purged), and
    the proof that the requests of modules/projects/routes.ts and the purge of
    workers/project-purge.ts only make its transitions, each on the project of
    the request alone; with what follows for the data of a project.  Requests
    and purges follow one another in any order; each runs in a world where no
    other transaction commits meanwhile ([ProjectStep]), without which the code
    can leave the life cycle ([ProjectDemo.unarchive_races_deletion]). *)

From S2P Require Import Prelude Js Crypto FieldSet AuthStore Store Tx QuotaGate AuditLog Notifications Credentials Frames Sessions Shares Text Authenticate Mfa Login JsMap RateLimit Server CapabilityGate GateTheorems AuditPayload SecureRoute SecureRouteTheorems RouteTheorems Projects ProjectTheorems.
From Stdlib Require Import Ascii String.
From stdpp Require Import strings pretty.

Local Open Scope string_scope.
Local Open Scope list_scope.
Local Open Scope pv_scope.

(** ** The abstract machine *)

Inductive Phase :=
| ph_live
| ph_archived (since : Date)
| ph_deleted (at_ archivedSince : Date)
| ph_purged (at_ : Date).

Inductive LifeAction := do_archive | do_unarchive | do_delete | do_restore | do_purge.

Inductive PhaseStep : LifeAction -> Phase -> Phase -> Prop :=
| phase_archive t : PhaseStep do_archive ph_live (ph_archived t)
| phase_unarchive t : PhaseStep do_unarchive (ph_archived t) ph_live
| phase_delete_live d : PhaseStep do_delete ph_live (ph_deleted d d)
| phase_delete_archived t d : PhaseStep do_delete (ph_archived t) (ph_deleted d t)
| phase_restore d t : PhaseStep do_restore (ph_deleted d t) (ph_archived t)
| phase_purge d t now : (purgeAfterFor d <= now)%Z -> PhaseStep do_purge (ph_deleted d t) (ph_purged now).

Definition phaseOf (p : ProjectRow) : Phase :=
  match proj_purgedAt p, proj_deletedAt p, proj_archivedAt p with
  | Some t, _, _ => ph_purged t
  | None, Some d, archivedAt => ph_deleted d (default d archivedAt)
  | None, None, Some t => ph_archived t
  | None, None, None => ph_live
  end.
Definition phaseIn (db : Db) (projectId : Uuid) : option Phase := phaseOf <$> projectRow db projectId.

(** The columns of a row agree. *)
Record WellFormed (p : ProjectRow) : Prop := {
  wf_deleted : forall d, proj_deletedAt p = Some d ->
    isNotNull (proj_deletedBy p) = true /\ proj_purgeAfter p = Some (purgeAfterFor d) /\ isNotNull (proj_archivedAt p) = true;
  wf_open : proj_deletedAt p = None -> proj_deletedBy p = None /\ proj_purgeAfter p = None /\ proj_purgedAt p = None;
  wf_purged : forall t, proj_purgedAt p = Some t -> exists d, proj_deletedAt p = Some d /\ (purgeAfterFor d <= t)%Z;
}.

Record LifecycleInv (db : Db) : Prop := {
  li_unique : uniqueProjects db;
  li_rows : forall p, p ∈ db_projects db -> WellFormed p;
}.

(** ** The requests *)

Inductive ProjectRequest :=
| rq_create (parsed : option CreateProjectBody)
| rq_patch (parsed : option PatchProjectBody)
| rq_tags (tags : list string)
| rq_archive
| rq_unarchive
| rq_delete
| rq_restore.

Definition actionOf (r : ProjectRequest) : option LifeAction :=
  match r with
  | rq_archive => Some do_archive
  | rq_unarchive => Some do_unarchive
  | rq_delete => Some do_delete
  | rq_restore => Some do_restore
  | _ => None
  end.

Section lifecycle.
Context `{Locale, Platform, NodeCrypto, Env, Unicode, OtherOrganizations}.

Definition withProjectId (param : string) (run : Uuid -> M HandlerReply) : M HandlerReply :=
  match parseUuid param with
  | None => mret VALIDATION_ERROR
  | Some projectId => run projectId
  end.

(** Behind the gate of deleted projects, which the restore opts out of. *)
Definition unlessDeleted (param : string) (run : Uuid -> M HandlerReply) : M HandlerReply :=
  gone ← isProjectDeletedParam param;
  if gone : bool then mret PROJECT_NOT_FOUND else withProjectId param run.

Definition serveProject (extensionState : ExtensionStatus) (auth : RouteAuth) (meta : RequestMeta) (param : string)
    (r : ProjectRequest) : M HandlerReply :=
  match r with
  | rq_create parsed => createProjectRoute extensionState auth parsed meta
  | rq_patch parsed => unlessDeleted param (fun projectId => patchProject auth projectId parsed meta)
  | rq_tags tags => unlessDeleted param (fun projectId => putProjectTags auth projectId tags meta)
  | rq_archive => unlessDeleted param (fun projectId => archiveProject auth projectId meta)
  | rq_unarchive => unlessDeleted param (fun projectId => unarchiveProject auth projectId meta)
  | rq_delete => unlessDeleted param (fun projectId => deleteProject auth projectId meta)
  | rq_restore => withProjectId param (fun projectId => restoreProject auth projectId meta)
  end.

(** One request, or one purge, as a step of the database: the project it names and what it does to it. *)
Inductive ProjectStep : option Uuid -> option LifeAction -> Db -> Db -> Prop :=
| step_request extensionState auth meta param r w o w' :
    Idle w -> withOrg (serveProject extensionState auth meta param r) w = (o, w') ->
    ProjectStep (match r with rq_create _ => None | _ => parseUuid param end) (actionOf r) (w_db w) (w_db w')
| step_purge orgId projectId now w o w' :
    Idle w -> purgeOne orgId projectId now w = (o, w') ->
    ProjectStep (Some projectId) (Some do_purge) (w_db w) (w_db w').

Inductive History : Db -> Db -> Prop :=
| history_none db : History db db
| history_step db1 db2 db3 target action : History db1 db2 -> ProjectStep target action db2 db3 -> History db1 db3.

(** ** What each handler does *)

(** The reply is an error and nothing changed, or the row of the project changed as [R] says. *)
Definition changesRow (k : Uuid) (R : ProjectRow -> ProjectRow -> Prop) (w : World) (o : Outcome HandlerReply) (w' : World) : Prop :=
  match o with
  | Ok (reply_returns _ _) => exists p p' entries, R p p' /\ RowChange k p p' entries (w_db w) (w_db w')
  | Ok r => refuses r /\ w_db w' = w_db w
  | Throw _ => True
  end.

Ltac refused := apply wp_ret; split; [by do 2 eexists|done].

Lemma RowChange_event k p p' l db db' f :
  RowChange k p p' l db db' -> RowChange k p p' l db (db' <| db_lifecycleEvents ::= f |>).
Proof.
  intros [Hb Ha Hp Hl Hr]. split; [exact Hb|exact Ha|exact Hp|exact Hl|]. rewrite Hr. cbn. by db_eta db.
Qed.

Definition archives (p p' : ProjectRow) : Prop :=
  proj_archivedAt p = None /\ exists t u, p' = p <| proj_archivedAt := Some t |> <| proj_updatedAt := u |>.
Definition unarchives (p p' : ProjectRow) : Prop :=
  isNotNull (proj_archivedAt p) = true /\ exists u, p' = p <| proj_archivedAt := None |> <| proj_updatedAt := u |>.
(** An edit leaves what the life cycle is about. *)
Definition edits (p p' : ProjectRow) : Prop :=
  proj_archivedAt p = None /\
  p' = p <| proj_name := proj_name p' |> <| proj_description := proj_description p' |> <| proj_urls := proj_urls p' |>
         <| proj_tags := proj_tags p' |> <| proj_updatedAt := proj_updatedAt p' |>.

Lemma wp_archiveBlockers {A} tenant projectId (k : option Json -> M A) (Q : Outcome A -> World -> Prop) w :
  (forall b w', sameDb w w' -> wp (k b) Q w') -> wp (findArchiveBlockers tenant projectId ≫= k) Q w.
Proof.
  intros Hk. unfold findArchiveBlockers, findBlockingRotationIds, findBlockingShareIds, activeMachineUserKeysQuery.
  unfold wp, mbind, M_bind, selectWhere, mret, M_ret, newDate, query. cbv beta iota zeta.
  destruct (map rot_id _); [|apply (Hk _ w), sameDb_refl]. destruct (map sh_id _); [|apply (Hk _ w), sameDb_refl].
  apply Hk. by exists (S (w_tick w)).
Qed.

Lemma archiveProject_spec auth projectId meta w :
  Idle w -> uniqueProjects (w_db w) ->
  wp (archiveProject auth projectId meta) (changesRow projectId archives w) w.
Proof.
  intros Hi Hn. unfold archiveProject. apply wp_preflight; [done|done|..].
  { intros r (st & b & -> & Hr). refused. }
  intros p via [Hrow _]. destruct (isNotNull (proj_archivedAt p)) eqn:Ea; [refused|].
  apply wp_archiveBlockers. intros [body|] w1 [n ->]; [refused|].
  apply wp_newDate, wp_newDate. set (w1 := _ <| w_tick ::= S |>).
  eapply (wp_changeFor auth projectId (fun r => isNull (proj_archivedAt r)) _ _
    (fun row => _ ← insertProjectArchivedLifecycleEvent auth (proj_id row) _; mret (archiveState row (proj_archivedAt row) true))
    "project.archived" "project" (fun _ => None) (fun _ => viaPayload via) meta _ w1 p Hrow Hn).
  - done.
  - done.
  - intros _. refused.
  - intros _. cbn [head]. reflexivity.
  - intros Eq w' row Hc _ _. apply wp_bind. unfold insertProjectArchivedLifecycleEvent.
    apply wp_genRandomUuid, wp_dbNow, wp_bind_insert; [done|]. intros _. apply wp_ret, wp_ret.
    eexists p, _, _. split; [|by apply RowChange_event, Hc]. apply isNull_true in Eq. split; [done|]. by do 2 eexists.
Qed.

Lemma unarchiveProject_spec auth projectId meta w :
  Idle w -> uniqueProjects (w_db w) ->
  wp (unarchiveProject auth projectId meta) (changesRow projectId unarchives w) w.
Proof.
  intros Hi Hn. unfold unarchiveProject. apply wp_preflight; [done|done|..].
  { intros r (st & b & -> & Hr). refused. }
  intros p via [Hrow _]. destruct (isNull (proj_archivedAt p)) eqn:Ea; [refused|].
  apply wp_newDate. set (w1 := _ <| w_tick ::= S |>).
  eapply (wp_changeFor auth projectId (fun r => isNotNull (proj_archivedAt r)) _ _
    (fun row => mret (archiveState row None false))
    "project.unarchived" "project" (fun _ => None) (fun _ => viaPayload via) meta _ w1 p Hrow Hn).
  - done.
  - done.
  - intros _. refused.
  - intros _. cbn [head]. reflexivity.
  - intros Eq w' row Hc _ _. apply wp_ret. eexists p, _, _. split; [|exact Hc]. split; [done|]. by eexists.
Qed.

Lemma patchProject_spec auth projectId parsed meta w :
  Idle w -> uniqueProjects (w_db w) ->
  wp (patchProject auth projectId parsed meta) (changesRow projectId edits w) w.
Proof.
  intros Hi Hn. unfold patchProject. apply wp_preflight; [done|done|..].
  { intros r (st & b & -> & Hr). refused. }
  intros p via [Hrow _]. destruct parsed as [body|]; [|refused].
  destruct (_ && isNull (ppb_urls body)); [refused|]. apply wp_newDate. set (w1 := _ <| w_tick ::= S |>).
  destruct (isNotNull (proj_archivedAt p)) eqn:Ea; [refused|].
  unfold findProject. apply wp_bind_first.
  assert (Hrow1 : head (List.filter (fun r => proj_id r =? projectId) (db_projects (w_db w1))) = Some p) by exact Hrow. rewrite Hrow1.
  eapply (wp_changeFor auth projectId (fun r => isNull (proj_archivedAt r)) _ _
    (fun row => mret (reply_returns 200 (dataBody (JObj
                        [("id", JUuid (proj_id row)); ("name", JStr (proj_name row)); ("slug", JStr (proj_slug row));
                         ("description", JOptStr (proj_description row)); ("urls", JArr (map JStr (proj_urls row)));
                         ("updatedAt", JDate (proj_updatedAt row))]))))
    "project.updated" "project" Some
    (fun row => viaPayload via ++ [("changedFields", JArr (map JStr (changedProjectFields p row)))]) meta _ w1 p Hrow Hn).
  - done.
  - done.
  - intros _. refused.
  - intros _. cbn [head]. reflexivity.
  - intros Eq w' row Hc _ _. apply wp_ret. eexists p, _, _. split; [|exact Hc]. split; [by apply isNull_true|]. by destruct p.
Qed.

Lemma wp_updateAll {A} k f (K : list ProjectRow -> M A) (Q : Outcome A -> World -> Prop) w :
  wp (updateProjects (fun r => (proj_id r =? k) && (fun _ => true) r) f ≫= K) Q w ->
  wp (updateProjects (fun r => proj_id r =? k) f ≫= K) Q w.
Proof.
  assert (Ef : forall l, List.filter (fun r => (proj_id r =? k) && true) l = List.filter (fun r => proj_id r =? k) l).
  { intros l. apply lfilter_ext. intros r _. by rewrite andb_true_r. }
  assert (Em : forall g l, map_where (fun r => (proj_id r =? k) && true) g l = map_where (fun r => proj_id r =? k) g l).
  { intros g l. apply map_where_ext. intros r _. by rewrite andb_true_r. }
  unfold wp, updateProjects, updateWhere, mbind, M_bind, dbNow. cbv beta iota zeta. rewrite Ef. cbn. by rewrite Em.
Qed.

Lemma putProjectTags_spec auth projectId tags meta w :
  Idle w -> uniqueProjects (w_db w) ->
  wp (putProjectTags auth projectId tags meta) (changesRow projectId edits w) w.
Proof.
  intros Hi Hn. unfold putProjectTags. eapply wp_bind_eq; [by apply lockProject_run|].
  destruct (projectRow (w_db w) projectId) as [p|] eqn:Hrow; [|refused].
  destruct (isNotNull (proj_archivedAt p)) eqn:Ea; [refused|]. cbv zeta. apply wp_newDate. set (w1 := _ <| w_tick ::= S |>).
  apply wp_updateAll.
  eapply (wp_changeFor auth projectId (fun _ => true) _ _
    (fun row => mret (reply_returns 200 (dataBody (JObj [("id", JUuid (proj_id row)); ("tags", JArr (map JStr (proj_tags row)))]))))
    "project.tags_updated" "project" (fun _ => None) (fun _ => _) meta _ w1 p Hrow Hn).
  - done.
  - done.
  - done.
  - intros _. cbn [head]. reflexivity.
  - intros _ w' row Hc _ _. apply wp_ret. eexists p, _, _. split; [|exact Hc].
    split; [|by destruct p]. unfold isNotNull in Ea. by apply isNull_true, negb_false_iff.
Qed.

(** *** Creation *)

(** The row [p] is new, and of the caller. *)
Record Created (auth : RouteAuth) (p : ProjectRow) (row : AuditRow) (db db' : Db) : Prop := {
  cr_fresh : forall q, q ∈ db_projects db -> proj_id q <> proj_id p;
  cr_row : exists body request slug now, p = newProjectRow auth body request slug (proj_id p) now;
  cr_projects : db_projects db' = db_projects db ++ [p];
  cr_member : db_projectMemberships db' =
    db_projectMemberships db ++ [MkProjectMembershipRow (ra_orgId auth) (proj_id p) (ra_userId auth) owner];
  cr_entry : entryBy (ra_orgId auth) "human" "project.created" "project" (proj_id p) None [("slug", JStr (proj_slug p))] row;
  cr_audit : db_audit db' = db_audit db ++ [row];
  cr_rest : db' = db <| db_projects := db_projects db' |> <| db_projectMemberships := db_projectMemberships db' |>
    <| db_audit := db_audit db' |> <| db_usage := db_usage db' |> <| db_auditSeq := db_auditSeq db' |>;
}.

#[local] Hint Resolve readOnly_query readOnly_callout readOnly_callerProjectRole : pv.
Lemma readOnly_findReplayed auth r : readOnly (findReplayedProject auth r).
Proof. unfold findReplayedProject. read_only. Qed.
Lemma readOnly_createPolicy ext auth body r : readOnly (evaluateProjectCreatePolicy ext auth body r).
Proof. unfold evaluateProjectCreatePolicy, readProjectCount. read_only. Qed.
Lemma readOnly_resolveSlug auth body : readOnly (resolveProjectSlug auth body).
Proof. unfold resolveProjectSlug, slugTaken. read_only. Qed.
Lemma readOnly_insertConflict auth body r slug : readOnly (resolveProjectInsertConflict auth body r slug).
Proof. unfold resolveProjectInsertConflict, slugTaken, findReplayedProject. read_only. Qed.

(** [ON CONFLICT DO NOTHING] *)
Lemma wp_insertProject {A} row (k : option ProjectRow -> M A) (Q : Outcome A -> World -> Prop) w :
  wp (k None) Q w ->
  ((forall q, q ∈ db_projects (w_db w) -> projectConflict row q = false) ->
   wp (k (Some row)) Q (w <| w_db ::= fun db => db <| db_projects ::= fun l => l ++ [row] |> |>)) ->
  wp (insertProjectOrNothing row ≫= k) Q w.
Proof.
  intros Hno Hyes. apply wp_bind. unfold wp at 1, insertProjectOrNothing. cbv zeta. destruct (match _ with Some _ => _ | None => _ end); [exact Hno|].
  unfold insertRow. destruct (existsb _ _) eqn:E; [exact Hno|]. apply Hyes. intros q Hq.
  destruct (projectConflict row q) eqn:Ec; [|done]. rewrite <- not_true_iff_false, existsb_exists in E.
  destruct E. exists q. by rewrite <- list_elem_of_In.
Qed.

(** A result that replays or refuses changed nothing; the row of the other is inserted with its owner. *)
Definition createdSoFar (auth : RouteAuth) (w : World) (o : Outcome ProjectCreateResult) (w' : World) : Prop :=
  match o with
  | Ok (create_project p _ false) =>
      (forall q, q ∈ db_projects (w_db w) -> proj_id q <> proj_id p) /\
      (exists body request slug now, p = newProjectRow auth body request slug (proj_id p) now) /\
      exists n, w' = w <| w_tick := n |> <| w_db ::= fun db => db <| db_projects ::= fun l => l ++ [p] |>
         <| db_projectMemberships ::= fun l => l ++ [MkProjectMembershipRow (ra_orgId auth) (proj_id p) (ra_userId auth) owner] |> |>
  | Ok _ => sameDb w w'
  | Throw _ => True
  end.

Lemma createdSoFar_same auth w o w' :
  (forall p role, o <> Ok (create_project p role false)) -> sameDb w w' -> createdSoFar auth w o w'.
Proof. destruct o as [[|p role []]|]; cbn; try done. intros Hn. by destruct (Hn p role). Qed.

Lemma createdSoFar_from auth w w1 o w' : sameDb w w1 -> createdSoFar auth w1 o w' -> createdSoFar auth w o w'.
Proof.
  intros [n ->]. destruct o as [[|p role []]|]; cbn; try done; try by apply sameDb_trans; exists n.
Qed.

Lemma notCreated auth r w : wp (findReplayedProject auth r)
  (fun o _ => forall p role, o <> Ok (Some (create_project p role false))) w.
Proof.
  unfold findReplayedProject. apply wp_bind_first. destruct (head _) as [p|]; [|by apply wp_ret].
  destruct (isNotNull _); [by apply wp_ret|]. destruct (_ || _); [by apply wp_ret|].
  eapply wp_bind_eq; [apply callerRole_run|]. apply wp_ret. by destruct (roleIn _ _ _).
Qed.

Lemma wp_conflict auth body r slug w :
  wp (resolveProjectInsertConflict auth body r slug) (createdSoFar auth w) w.
Proof.
  assert (Hr := readOnly_insertConflict auth body r slug w). unfold wp in *.
  assert (Hn : forall o w' p role, resolveProjectInsertConflict auth body r slug w = (o, w') -> o <> Ok (create_project p role false)).
  { intros o w' p role E ->. unfold resolveProjectInsertConflict in E.
    pose proof (notCreated auth r w) as Hc. unfold wp, mbind, M_bind in *.
    destruct (findReplayedProject auth r w) as [[[c|]|e] w1]; [injection E as ->; by apply (Hc p role)| |done].
    destruct (isNotNull _); [done|]. unfold slugTaken, mbind, M_bind, selectFirst in E. cbn in E. done. }
  destruct (resolveProjectInsertConflict auth body r slug w) as [o w']. apply createdSoFar_same; [|done].
  intros p role. by apply (Hn o w').
Qed.

Lemma createProject_spec ext auth body w :
  Idle w -> wp (createProject ext auth body) (createdSoFar auth w) w.
Proof.
  intros Hi. unfold createProject. apply wp_readOnly_any; [by destruct (cpb_creationRequestId body); auto with pv|done|].
  intros request w1 Hs1. eapply wp_mono; [|intros o w'; by apply (createdSoFar_from auth w w1)].
  apply (sameDb_Idle w w1 Hs1) in Hi. clear w Hs1. apply wp_otherCommits; [exact Hi|].
  apply (wp_readOnly _ _ _ _ (fun r => forall p role, r <> Some (create_project p role false))); [apply readOnly_findReplayed| |done|].
  { eapply wp_mono; [apply notCreated|]. intros o w' Ho a -> p role ->. by apply (Ho p role). }
  intros [r|] w2 Hr Hs2.
  { apply wp_ret. apply createdSoFar_same; [|done]. intros p role [= ->]. by apply (Hr p role). }
  eapply wp_mono; [|intros o w'; by apply (createdSoFar_from auth w1 w2)]. clear w1 Hi Hr Hs2.
  apply wp_readOnly_any; [apply readOnly_createPolicy|done|]. intros [e|] w3 Hs3; [by apply wp_ret, createdSoFar_same|].
  apply wp_readOnly_any; [apply readOnly_resolveSlug|done|]. intros slug w4 Hs4.
  assert (Hs24 : sameDb w2 w4) by by eapply sameDb_trans.
  eapply wp_mono; [|intros o w'; by apply (createdSoFar_from auth w2 w4)]. clear w2 w3 Hs3 Hs4 Hs24.
  apply wp_genRandomUuid, wp_dbNow, wp_insertProject.
  - eapply wp_mono; [apply wp_conflict|]. intros o w'. apply createdSoFar_from. by eexists.
  - intros Hfresh. apply wp_bind_insert; [done|]. intros _. apply wp_ret. split; [|split].
    + intros q Hq. specialize (Hfresh q Hq). unfold projectConflict in Hfresh. bool_simpl. congruence.
    + by do 4 eexists.
    + by eexists.
Qed.

Lemma createProjectRoute_spec ext auth parsed meta w :
  Idle w ->
  wp (createProjectRoute ext auth parsed meta)
    (fun o w' => match o with
                 | Ok (reply_returns status _) =>
                     status = 201%Z /\ (w_db w' = w_db w \/ exists p row, Created auth p row (w_db w) (w_db w'))
                 | Ok r => refuses r /\ w_db w' = w_db w
                 | Throw _ => True
                 end) w.
Proof.
  intros Hi. unfold createProjectRoute. destruct parsed as [body|]; [|refused].
  apply wp_bind. eapply wp_mono; [by apply createProject_spec|]. intros [[e|p role []]|e] w1 Hc; [..|done].
  - apply wp_ret. split; [by do 2 eexists|by apply sameDb_db].
  - apply wp_ret. split; [done|]. left. by apply sameDb_db.
  - destruct Hc as (Hfresh & Hp & n & ->). set (w1 := w <| w_tick := n |> <| w_db ::= _ |>).
    apply wp_bind. eapply wp_mono; [apply writeProjectAudit_spec|]. intros [[]|e] w2 Ha; [|done].
    destruct Ha as (row & (m & usage & seq & ->) & Hentry). apply wp_ret. split; [done|]. right. exists p, row.
    split; [exact Hfresh|exact Hp|done|done|exact Hentry|done|]. cbn. by db_eta (w_db w).
Qed.

(** *** The gate *)

Lemma deletedParam_run param projectId w :
  parseUuid param = Some projectId -> uniqueProjects (w_db w) ->
  isProjectDeletedParam param w =
    (Ok (match projectRow (w_db w) projectId with Some p => isNotNull (proj_deletedAt p) | None => false end), w).
Proof.
  intros Hid Hn. unfold isProjectDeletedParam, mbind, M_bind, selectFirst. rewrite Hid. cbv beta iota.
  unfold mret, M_ret. do 2 f_equal. destruct (projectRow (w_db w) projectId) as [p|] eqn:Erow.
  - destruct (lfilter_key proj_id projectId _ p Hn Erow) as (_ & _ & Hq). rewrite Hq. by destruct (isNotNull (proj_deletedAt p)).
  - rewrite lfilter_none; [done|]. intros p Hp. case_bool_decide as Ep; [|done]. subst projectId.
    rewrite (projectRow_of (w_db w) p Hn Hp) in Erow. done.
Qed.

Lemma wp_unlessDeleted param run (Q : Outcome HandlerReply -> World -> Prop) w :
  uniqueProjects (w_db w) ->
  (forall r, refuses r -> Q (Ok r) w) ->
  (forall projectId, parseUuid param = Some projectId ->
     (forall p, projectRow (w_db w) projectId = Some p -> proj_deletedAt p = None) -> wp (run projectId) Q w) ->
  wp (unlessDeleted param run) Q w.
Proof.
  intros Hn Href Hrun. unfold unlessDeleted, withProjectId. destruct (parseUuid param) as [projectId|] eqn:Hid.
  - eapply wp_bind_eq; [by apply deletedParam_run|]. destruct (projectRow (w_db w) projectId) as [p|] eqn:Erow.
    + destruct (isNotNull (proj_deletedAt p)) eqn:Ed; [apply wp_ret, Href; by do 2 eexists|].
      apply Hrun; [done|]. intros q Hq. rewrite Erow in Hq. injection Hq as <-. apply isNull_true. unfold isNotNull in Ed. by apply negb_false_iff.
    + apply Hrun; [done|]. intros q Hq. by rewrite Erow in Hq.
  - eapply wp_bind_eq; [unfold isProjectDeletedParam; by rewrite Hid|]. apply wp_ret, Href. by do 2 eexists.
Qed.

(** ** The simulation *)

(** A change of the row [k], as the abstract machine sees it, and what of the secrets it leaves. *)
Record OnRow (k : Uuid) (action : option LifeAction) (db db' : Db) : Prop := {
  or_ids : map proj_id (db_projects db') = map proj_id (db_projects db);
  or_others : forall q, proj_id q <> k -> q ∈ db_projects db' <-> q ∈ db_projects db;
  or_row : exists p p', projectRow db k = Some p /\ projectRow db' k = Some p' /\
    (WellFormed p -> WellFormed p' /\
       match action with Some a => PhaseStep a (phaseOf p) (phaseOf p') | None => phaseOf p' = phaseOf p end);
  or_credentials : forall c, c ∈ db_credentials db -> c ∈ db_credentials db' \/ action = Some do_purge /\ cred_projectId c = k;
  or_noNew : forall c, c ∈ db_credentials db' -> c ∈ db_credentials db;
  or_versions : forall v, v ∈ db_versions db ->
    v ∈ db_versions db' \/ action = Some do_purge /\ cv_credentialId v ∈ credentialsOf k db;
}.

Lemma RowChange_OnRow k action p p' l db db' :
  RowChange k p p' l db db' ->
  (WellFormed p -> WellFormed p' /\
     match action with Some a => PhaseStep a (phaseOf p) (phaseOf p') | None => phaseOf p' = phaseOf p end) ->
  OnRow k action db db'.
Proof.
  intros [Hb Ha (q & f & Hf & Hq & Efp & Ep) _ Hr] Hrow. split.
  - rewrite Ep. by apply updatedBy_ids.
  - intros x Hx. rewrite Ep. by apply updatedBy_other.
  - by exists p, p'.
  - intros c Hc. left. by rewrite Hr.
  - intros c. by rewrite Hr.
  - intros v Hv. left. by rewrite Hr.
Qed.

(** The columns of an open project. *)
Lemma open_phase p : proj_deletedAt p = None -> WellFormed p ->
  phaseOf p = match proj_archivedAt p with Some t => ph_archived t | None => ph_live end.
Proof. intros Ed [_ Hopen _]. destruct (Hopen Ed) as (_ & _ & Epu). unfold phaseOf. by rewrite Ed, Epu. Qed.

(** An open project stays well formed whatever happens to its other columns. *)
Lemma open_wf p p' :
  proj_deletedAt p = None -> WellFormed p -> proj_deletedAt p' = proj_deletedAt p -> proj_deletedBy p' = proj_deletedBy p ->
  proj_purgeAfter p' = proj_purgeAfter p -> proj_purgedAt p' = proj_purgedAt p -> WellFormed p'.
Proof.
  intros Ed [_ Hopen _] E1 E2 E3 E4. destruct (Hopen Ed) as (Eb & Ea & Epu). split.
  - intros d Hd. by rewrite E1, Ed in Hd.
  - intros _. by rewrite E2, E3, E4.
  - intros t Ht. by rewrite E4, Epu in Ht.
Qed.

Lemma archives_step p p' : proj_deletedAt p = None -> archives p p' -> WellFormed p ->
  WellFormed p' /\ PhaseStep do_archive (phaseOf p) (phaseOf p').
Proof.
  intros Ed [Ea (t & u & ->)] Hwf. assert (Hwf' : WellFormed (p <| proj_archivedAt := Some t |> <| proj_updatedAt := u |>)) by by apply (open_wf p).
  split; [done|]. rewrite open_phase, Ea, open_phase by done. apply phase_archive.
Qed.

Lemma unarchives_step p p' : proj_deletedAt p = None -> unarchives p p' -> WellFormed p ->
  WellFormed p' /\ PhaseStep do_unarchive (phaseOf p) (phaseOf p').
Proof.
  intros Ed [Ea (u & ->)] Hwf. assert (Hwf' : WellFormed (p <| proj_archivedAt := None |> <| proj_updatedAt := u |>)) by by apply (open_wf p).
  split; [done|]. rewrite open_phase by done. rewrite (open_phase (p <| proj_archivedAt := None |> <| proj_updatedAt := u |>)) by done.
  destruct (proj_archivedAt p) as [t|]; [|done]. apply phase_unarchive.
Qed.

Lemma edits_step p p' : proj_deletedAt p = None -> edits p p' -> WellFormed p -> WellFormed p' /\ phaseOf p' = phaseOf p.
Proof. intros Ed [_ ->] Hwf. split; [by apply (open_wf p)|done]. Qed.

Lemma deleted_step at_ u by_ p : proj_deletedAt p = None -> WellFormed p ->
  WellFormed (deletedRow at_ u by_ p) /\ PhaseStep do_delete (phaseOf p) (phaseOf (deletedRow at_ u by_ p)).
Proof.
  intros Ed Hwf. rewrite open_phase by done. destruct Hwf as [_ Hopen _]. destruct (Hopen Ed) as (_ & _ & Epu). split.
  - split.
    + intros d [= <-]. split; [done|]. split; [done|]. cbn. by destruct (proj_archivedAt p).
    + done.
    + intros t Ht. cbn in Ht. congruence.
  - unfold phaseOf, deletedRow. cbn. rewrite Epu. destruct (proj_archivedAt p); constructor.
Qed.

Lemma restored_step u p : isNotNull (proj_deletedAt p) = true -> isNull (proj_purgedAt p) = true -> WellFormed p ->
  WellFormed (restoredRow u p) /\ PhaseStep do_restore (phaseOf p) (phaseOf (restoredRow u p)).
Proof.
  intros Ed Epu [Hdel _ _]. apply isNull_true in Epu. destruct (proj_deletedAt p) as [d|] eqn:E; [|done].
  destruct (Hdel d eq_refl) as (_ & _ & Ea). split.
  - split; [done|by cbn|]. intros t Ht. cbn in Ht. congruence.
  - unfold phaseOf, restoredRow. cbn. rewrite Epu, E. destruct (proj_archivedAt p) as [t|]; [|done]. apply phase_restore.
Qed.

Lemma purged_step now u p : isPurgeDue now p = true -> WellFormed p ->
  WellFormed (purgedRow now u p) /\ PhaseStep do_purge (phaseOf p) (phaseOf (purgedRow now u p)).
Proof.
  intros Hdue [Hdel _ _]. unfold isPurgeDue in Hdue. apply andb_true_iff in Hdue as [Hdue Hle]. apply andb_true_iff in Hdue as [Ed Epu].
  apply isNull_true in Epu. destruct (proj_deletedAt p) as [d|] eqn:E; [|done]. destruct (Hdel d eq_refl) as (Hb & Hpa & Ha).
  rewrite Hpa in Hle. apply bool_decide_eq_true in Hle. split.
  - split.
    + intros d' Hd'. cbn in Hd'. rewrite E in Hd'. by injection Hd' as <-.
    + intros Hd'. cbn in Hd'. congruence.
    + intros t [= <-]. by exists d.
  - unfold phaseOf, purgedRow, tombstone. cbn. rewrite Epu, E. destruct (proj_archivedAt p) as [t|]; by constructor.
Qed.

Lemma Deletion_OnRow auth k p via at_ shares row db db' : Deletion auth k p via at_ shares row db db' -> OnRow k (Some do_delete) db db'.
Proof.
  intros Hd. destruct Hd as [[Hrow _] Hlive _ _ [u Hrow'] Hids Hothers _ _ _ _ _ _ Hr]. split.
  - exact Hids.
  - exact Hothers.
  - exists p, (deletedRow at_ u (ra_userId auth) p). split; [done|]. split; [done|]. by apply deleted_step.
  - intros c Hc. left. by rewrite Hr.
  - intros c. by rewrite Hr.
  - intros v Hv. left. by rewrite Hr.
Qed.

Lemma Purge_OnRow orgId k now p row db db' : Purge orgId k now p row db db' -> OnRow k (Some do_purge) db db'.
Proof.
  intros HP. pose proof (Purge_othersKept _ _ _ _ _ _ _ HP) as [Hp Hc Hv _ _ _].
  destruct HP as [Hrow Hdue [u Hrow'] [u' El] _ _ Hr]. split.
  - rewrite El. by apply updatedBy_ids.
  - exact Hp.
  - exists p, (purgedRow now u p). split; [done|]. split; [done|]. by apply purged_step.
  - intros c Hin. destruct (decide (cred_projectId c = k)); [by right|left; by apply Hc].
  - intros c. rewrite Hr. cbn. intros Hin. by apply elem_of_lfilter in Hin as [_ Hin].
  - intros v Hin. destruct (decide (cv_credentialId v ∈ credentialsOf k db)); [by right|left; by apply Hv].
Qed.

(** What a request does to the tables, when it does anything. *)
Inductive Effect (target : option Uuid) (action : option LifeAction) (db db' : Db) : Prop :=
| effect_created auth p row : target = None -> Created auth p row db db' -> Effect target action db db'
| effect_row k : target = Some k -> OnRow k action db db' -> Effect target action db db'.

Definition effectful (target : option Uuid) (action : option LifeAction) (w : World) (o : Outcome HandlerReply) (w' : World) : Prop :=
  match o with
  | Ok (reply_returns _ _) => w_db w' = w_db w \/ Effect target action (w_db w) (w_db w')
  | Ok r => w_db w' = w_db w
  | Throw _ => True
  end.

(** A request that changes one row, behind the gate. *)
Lemma gated_effectful param run (R : ProjectRow -> ProjectRow -> Prop) action w :
  uniqueProjects (w_db w) ->
  (forall k, wp (run k) (changesRow k R w) w) ->
  (forall p p', proj_deletedAt p = None -> R p p' -> WellFormed p -> WellFormed p' /\
     match action with Some a => PhaseStep a (phaseOf p) (phaseOf p') | None => phaseOf p' = phaseOf p end) ->
  wp (unlessDeleted param run) (effectful (parseUuid param) action w) w.
Proof.
  intros Hn Hrun HR. apply wp_unlessDeleted; [done|by intros r (st & b & -> & _)|]. intros k -> Hopen.
  eapply wp_mono; [apply Hrun|]. intros [[]|e] w'; [by intros [_ ?]| |done].
  intros (p & p' & l & Hpp & Hc). right. apply (effect_row _ _ _ _ k); [done|]. eapply RowChange_OnRow; [exact Hc|].
  apply HR; [|done]. apply Hopen. apply Hc.
Qed.

Lemma serveProject_effectful ext auth meta param r w :
  Idle w -> uniqueProjects (w_db w) ->
  wp (serveProject ext auth meta param r)
    (effectful (match r with rq_create _ => None | _ => parseUuid param end) (actionOf r) w) w.
Proof.
  intros Hi Hn. destruct r; cbn [serveProject actionOf].
  - eapply wp_mono; [by apply createProjectRoute_spec|]. intros [[]|e] w'; [by intros [_ ?]| |done].
    intros (_ & [?|(p & row & Hc)]); [by left|right; by eapply effect_created].
  - eapply gated_effectful; [done|by intros k; apply patchProject_spec|apply edits_step].
  - eapply gated_effectful; [done|by intros k; apply putProjectTags_spec|apply edits_step].
  - eapply gated_effectful; [done|by intros k; apply archiveProject_spec|apply archives_step].
  - eapply gated_effectful; [done|by intros k; apply unarchiveProject_spec|apply unarchives_step].
  - apply wp_unlessDeleted; [done|by intros r (st & b & -> & _)|]. intros k -> _.
    eapply wp_mono; [by apply deleteProject_spec|]. intros [[]|e] w'; [by intros [_ ?]| |done].
    intros (_ & p & via & at_ & shares & row & Hd). right. eapply effect_row; [done|by eapply Deletion_OnRow].
  - unfold withProjectId. destruct (parseUuid param) as [k|]; [|by apply wp_ret].
    eapply wp_mono; [by apply restoreProject_spec|]. intros [[]|e] w'; [by intros (_ & ? & _)| |done].
    intros (_ & p & via & u & row & _ & Ed & Epu & Hc & _). right. eapply effect_row; [done|].
    eapply RowChange_OnRow; [exact Hc|]. by apply restored_step.
Qed.

Lemma ProjectStep_effect target action db db' :
  uniqueProjects db -> ProjectStep target action db db' -> db' = db \/ Effect target action db db'.
Proof.
  intros Hn Hs. destruct Hs as [ext auth meta param r w o w' Hi E|orgId k now w o w' Hi E].
  - eapply (wp_elim _ (fun _ w' => w_db w' = w_db w \/ Effect _ _ (w_db w) (w_db w'))); [|exact E]. apply wp_withOrg.
    set (w0 := w <| w_tick ::= S |> <| w_now := _ |>).
    eapply wp_mono; [by apply (serveProject_effectful ext auth meta param r w0)|].
    intros [[]|e] w1; [by left|done|by left].
  - pose proof (wp_elim _ _ _ _ _ (purgeOne_withOrg orgId k now w Hi Hn) E) as HQ.
    destruct o as [[]|e]; [|by left; destruct HQ|by left]. destruct HQ as (p & row & HP).
    right. eapply effect_row; [done|by eapply Purge_OnRow].
Qed.

(** *** The invariant, and the abstract step *)

Lemma projectRow_others k db db' :
  uniqueProjects db -> uniqueProjects db' -> (forall q, proj_id q <> k -> q ∈ db_projects db' <-> q ∈ db_projects db) ->
  forall j, j <> k -> projectRow db' j = projectRow db j.
Proof.
  intros Hn Hn' Hiff j Hj.
  assert (Hin : forall d q, projectRow d j = Some q -> q ∈ db_projects d /\ proj_id q = j).
  { intros d q Hq. apply head_elem_of, elem_of_lfilter in Hq as [E Hq]. by apply bool_decide_eq_true in E. }
  destruct (projectRow db j) as [q|] eqn:E.
  - destruct (Hin db q E) as [Hq <-]. apply projectRow_of; [done|]. by apply Hiff.
  - destruct (projectRow db' j) as [q|] eqn:E'; [|done]. destruct (Hin db' q E') as [Hq <-].
    apply Hiff in Hq; [|done]. by rewrite (projectRow_of db q Hn Hq) in E.
Qed.

Lemma OnRow_unique k action db db' : OnRow k action db db' -> uniqueProjects db -> uniqueProjects db'.
Proof. intros [Hids _ _ _ _ _]. unfold uniqueProjects. by rewrite Hids. Qed.

Lemma projectRow_in db k p : projectRow db k = Some p -> p ∈ db_projects db /\ proj_id p = k.
Proof. intros Hq. apply head_elem_of, elem_of_lfilter in Hq as [E Hq]. by apply bool_decide_eq_true in E. Qed.

Lemma OnRow_inv k action db db' : OnRow k action db db' -> LifecycleInv db -> LifecycleInv db'.
Proof.
  intros Hon [Hn Hwf]. pose proof (OnRow_unique _ _ _ _ Hon Hn) as Hn'. split; [done|].
  intros q Hq. destruct Hon as [_ Hothers (p & p' & Hp & Hp' & Hstep) _ _ _].
  destruct (decide (proj_id q = k)) as [Ek|Ek]; [|by apply Hwf, Hothers].
  assert (q = p') as ->. { pose proof (projectRow_of db' q Hn' Hq) as E. rewrite Ek in E. congruence. }
  apply Hstep. apply Hwf. by apply (projectRow_in db k).
Qed.

Lemma created_row db db' auth p row : Created auth p row db db' -> LifecycleInv db ->
  LifecycleInv db' /\ projectRow db (proj_id p) = None /\ phaseIn db' (proj_id p) = Some ph_live /\
  forall j, j <> proj_id p -> projectRow db' j = projectRow db j.
Proof.
  intros [Hfresh (body & rq & slug & now & Ep) El _ _ _ _] [Hn Hwf].
  assert (Hnone : List.filter (fun r => proj_id r =? proj_id p) (db_projects db) = []).
  { apply lfilter_none. intros q Hq. rewrite bool_decide_eq_false_2; [done|by apply Hfresh]. }
  assert (Hlive : WellFormed p /\ phaseOf p = ph_live) by (rewrite Ep; by repeat split).
  split; [split|split; [|split]].
  - unfold uniqueProjects. rewrite El, map_app. apply NoDup_app. split; [exact Hn|]. split; [|apply NoDup_singleton].
    intros i Hi Hs. apply list_elem_of_singleton in Hs as ->. apply elem_of_map in Hi as (q & Eq & Hq). by apply (Hfresh q Hq).
  - intros q Hq. rewrite El in Hq. apply elem_of_app in Hq as [Hq|Hq]; [by apply Hwf|]. apply list_elem_of_singleton in Hq as ->. apply Hlive.
  - unfold projectRow. by rewrite Hnone.
  - unfold phaseIn, projectRow. rewrite El, List.filter_app, Hnone. cbn. rewrite bool_decide_eq_true_2 by done. cbn. f_equal. apply Hlive.
  - intros j Hj. unfold projectRow. rewrite El, List.filter_app. cbn. rewrite bool_decide_eq_false_2 by done. by rewrite app_nil_r.
Qed.

(** A step of one project along the life cycle, or none. *)
Definition phaseMoves (target : option Uuid) (action : option LifeAction) (j : Uuid) (x x' : option Phase) : Prop :=
  x' = x
  \/ (target = None /\ x = None /\ x' = Some ph_live)
  \/ (target = Some j /\ exists a p p', action = Some a /\ x = Some p /\ x' = Some p' /\ PhaseStep a p p').

Lemma step_simulates target action db db' :
  LifecycleInv db -> ProjectStep target action db db' ->
  LifecycleInv db' /\ forall j, phaseMoves target action j (phaseIn db j) (phaseIn db' j).
Proof.
  intros Hinv Hs. pose proof Hinv as [Hn Hwf]. destruct (ProjectStep_effect _ _ _ _ Hn Hs) as [->|[auth p row Ht Hc|k Ht Hon]].
  - split; [done|]. intros j. by left.
  - destruct (created_row _ _ _ _ _ Hc Hinv) as (Hinv' & Hnone & Hlive & Hothers). split; [done|]. intros j.
    destruct (decide (j = proj_id p)) as [->|Hj]; [|left; unfold phaseIn; by rewrite Hothers].
    right; left. unfold phaseIn at 1. by rewrite Hnone, Hlive.
  - pose proof (OnRow_inv _ _ _ _ Hon Hinv) as Hinv'. split; [done|]. intros j.
    destruct Hon as [_ Hothers (p & p' & Hp & Hp' & Hstep) _ _ _].
    destruct (decide (j = k)) as [->|Hj].
    2: { left. unfold phaseIn. by rewrite (projectRow_others k db db' Hn (li_unique _ Hinv') Hothers j Hj). }
    destruct (Hstep (Hwf p (proj1 (projectRow_in db k p Hp)))) as [_ Ha]. unfold phaseIn. rewrite Hp, Hp'. cbn.
    destruct action as [a|]; [|left; by rewrite Ha]. right; right. split; [done|]. by exists a, (phaseOf p), (phaseOf p').
Qed.

Lemma History_inv db db' : History db db' -> LifecycleInv db -> LifecycleInv db'.
Proof. induction 1 as [|db1 db2 db3 target action _ IH Hs]; [done|]. intros Hinv. by eapply step_simulates; [apply IH|]. Qed.

(** *** What becomes of a secret *)

(** The project was purged, no sooner than the period of grace after its deletion. *)
Definition purgedInTime (db : Db) (projectId : Uuid) : Prop :=
  exists p d t, projectRow db projectId = Some p /\ proj_deletedAt p = Some d /\ proj_purgedAt p = Some t /\
    (d + PROJECT_DELETE_GRACE_DAYS * DAY_MS <= t)%Z.

Lemma purgedInTime_phase db projectId t : LifecycleInv db -> phaseIn db projectId = Some (ph_purged t) -> purgedInTime db projectId.
Proof.
  intros [_ Hwf]. unfold phaseIn. destruct (projectRow db projectId) as [p|] eqn:Ep; [|done]. intros [= Eph].
  destruct (proj_purgedAt p) as [t'|] eqn:Et.
  - destruct (Hwf p (proj1 (projectRow_in _ _ _ Ep))) as [_ _ Hpu]. destruct (Hpu t' Et) as (d & Ed & Hd). exists p, d, t'. by repeat split.
  - unfold phaseOf in Eph. rewrite Et in Eph. by destruct (proj_deletedAt p), (proj_archivedAt p).
Qed.

(** A tombstone stays one. *)
Lemma purged_forever db db' k t : History db db' -> LifecycleInv db -> phaseIn db k = Some (ph_purged t) -> phaseIn db' k = Some (ph_purged t).
Proof.
  intros Hh Hinv Hp. induction Hh as [|db1 db2 db3 target action Hh IH Hs]; [done|]. specialize (IH Hinv Hp).
  destruct (step_simulates _ _ _ _ (History_inv _ _ Hh Hinv) Hs) as [_ Hm].
  destruct (Hm k) as [->|[(_ & E & _)|(_ & a & p & p' & _ & E & _ & Hst)]]; [done|by rewrite IH in E|].
  rewrite IH in E. injection E as <-. inversion Hst.
Qed.

(** A step that loses rows of [k] purges it. *)
Lemma lost_purged db db' k :
  LifecycleInv db -> OnRow k (Some do_purge) db db' ->
  exists t, phaseIn db' k = Some (ph_purged t).
Proof.
  intros [Hn Hwf] [_ _ (p & p' & Hp & Hp' & Hstep) _ _ _].
  destruct (Hstep (Hwf p (proj1 (projectRow_in db k p Hp)))) as [_ Ha]. unfold phaseIn. rewrite Hp'. inversion Ha as [| | | | |d t now Hd E1 E2]. exists now. cbn. congruence.
Qed.

Lemma created_keeps auth p row db db' : Created auth p row db db' ->
  db_credentials db' = db_credentials db /\ db_versions db' = db_versions db.
Proof. intros [_ _ _ _ _ _ Hr]. rewrite Hr. by split. Qed.

(** Where the secrets of [db] are, after. *)
Record SecretsKept (db db' : Db) : Prop := {
  sk_noNew : forall c, c ∈ db_credentials db' -> c ∈ db_credentials db;
  sk_credentials : forall c, c ∈ db_credentials db -> c ∈ db_credentials db' \/ exists t, phaseIn db' (cred_projectId c) = Some (ph_purged t);
  sk_versions : forall c v, c ∈ db_credentials db -> v ∈ db_versions db -> cv_credentialId v = cred_id c ->
    v ∈ db_versions db' \/ exists t, phaseIn db' (cred_projectId c) = Some (ph_purged t);
}.

Lemma SecretsKept_step target action db db1 db2 :
  LifecycleInv db1 -> NoDup (map cred_id (db_credentials db)) -> ProjectStep target action db1 db2 ->
  SecretsKept db db1 -> SecretsKept db db2.
Proof.
  intros Hinv Hu Hs [Hnew Hc Hv].
  assert (Hstay : forall k, (exists t, phaseIn db1 k = Some (ph_purged t)) -> exists t, phaseIn db2 k = Some (ph_purged t)).
  { intros k (t & Ht). exists t. eapply (purged_forever db1); [|done|done]. econstructor; [constructor|exact Hs]. }
  destruct (ProjectStep_effect _ _ _ _ (li_unique _ Hinv) Hs) as [->|[auth p row _ Hcr|k _ Hon]]; [by split|..].
  - destruct (created_keeps _ _ _ _ _ Hcr) as [Ec Ev]. split; rewrite ?Ec, ?Ev.
    + done.
    + intros c Hin. destruct (Hc c Hin); auto.
    + intros c v Hin Hvin E. destruct (Hv c v Hin Hvin E); auto.
  - pose proof (lost_purged db1 db2 k Hinv) as Hlost. pose proof Hon as [_ _ _ Hcreds Hno Hvers]. split.
    + intros c Hin. by apply Hnew, Hno.
    + intros c Hin. destruct (Hc c Hin) as [Hin1|Hp]; [|by right; apply Hstay].
      destruct (Hcreds c Hin1) as [|[-> <-]]; [by left|right; by apply Hlost].
    + intros c v Hin Hvin E. destruct (Hv c v Hin Hvin E) as [Hin1|Hp]; [|by right; apply Hstay].
      destruct (Hvers v Hin1) as [|[-> Hk]]; [by left|]. right. rewrite E in Hk.
      apply elem_of_map in Hk as (c' & Ec & Hc'). apply elem_of_lfilter in Hc' as [Ek Hc']. apply bool_decide_eq_true in Ek.
      assert (c = c') as -> by (apply (NoDup_key_inj cred_id (db_credentials db)); auto). rewrite Ek. by apply Hlost.
Qed.

(** ** The theorems *)

(** C10: requests on projects, and the job that purges them, implement the life cycle when they run one after
    the other, no transaction committing while one of them waits for a lock ([ProjectStep]; with such a commit an
    unarchive can bring a deleted project out of its phase).  From a database whose rows are
    well formed, any such history of them (creations, edits, tags, archives, unarchives, deletions, restores and purges, by
    any callers with any parameters, each behind the gate of deleted projects as the routes declare it, and each
    succeeding, refused or rolled back) keeps identifiers unique and rows well formed: a deleted project is archived
    and due thirty days after its deletion, and a purged one was purged no sooner.  And each step moves at most the
    project it names, by the transition of its action: nothing is archived, restored or purged by an edit, no deleted
    project is unarchived or edited, only a deleted one is restored (to archived) or purged, nothing leaves the
    phase of purged, and a new project is live. *)
Theorem life_cycle_refined db0 db target action db' :
  LifecycleInv db0 -> History db0 db -> ProjectStep target action db db' ->
  LifecycleInv db' /\ forall projectId, phaseMoves target action projectId (phaseIn db projectId) (phaseIn db' projectId).
Proof. intros Hinv Hh Hs. eapply step_simulates; [by eapply History_inv|exact Hs]. Qed.

(** C11: secrets outlive a deletion by thirty days.  Whatever requests and purges run on projects, one after the other in any order, a
    credential and each of its versions are still there unchanged, or the project of the credential was purged, and
    the time of that purge is at least the thirty days of grace after the time of its deletion: no creation, edit,
    archive, unarchive, deletion or restore, and no purge of another project, loses a secret. *)
Theorem secrets_outlive_deletion db db' c v :
  LifecycleInv db -> NoDup (map cred_id (db_credentials db)) -> History db db' ->
  c ∈ db_credentials db -> v ∈ db_versions db -> cv_credentialId v = cred_id c ->
  (c ∈ db_credentials db' /\ v ∈ db_versions db') \/ purgedInTime db' (cred_projectId c).
Proof.
  intros Hinv Hu Hh Hc Hv E.
  assert (Hk : SecretsKept db db').
  { induction Hh as [|db1 db2 db3 target action Hh IH Hs]; [split; auto|].
    eapply SecretsKept_step; [by eapply History_inv|done|exact Hs|by apply IH]. }
  pose proof (History_inv _ _ Hh Hinv) as Hinv'. destruct Hk as [_ Hkc Hkv].
  destruct (Hkc c Hc) as [Hc'|(t & Ht)]; [|right; by eapply purgedInTime_phase].
  destruct (Hkv c v Hc Hv E) as [Hv'|(t & Ht)]; [by left|right; by eapply purgedInTime_phase].
Qed.
End lifecycle.
