(* ===== verification/ProjectOwners.v ===== *)
(** * The owner of a project

    Every request on the members of a project (modules/projects/routes.ts and
    the change of a role in modules/org/routes.ts) keeps a project that has one
    owner with one owner, when no other transaction commits meanwhile. *)

From S2P Require Import Prelude Js Crypto FieldSet AuthStore Store Tx QuotaGate AuditLog Notifications Credentials Frames Sessions Shares Text Authenticate Mfa Login JsMap RateLimit Server CapabilityGate GateTheorems AuditPayload SecureRoute SecureRouteTheorems RouteTheorems Projects ProjectMembers ProjectTheorems.
From Stdlib Require Import Ascii String.
From stdpp Require Import strings pretty.

Local Open Scope string_scope.
Local Open Scope list_scope.
Local Open Scope pv_scope.

Notation Members := (list ProjectMembershipRow).

Definition memberKey (m : ProjectMembershipRow) : Uuid * Uuid := (pmb_projectId m, pmb_userId m).
Definition ownersIn (projectId : Uuid) (l : Members) : Members := List.filter (ownerOf projectId) l.

(** Every project with one owner keeps one, and the keys stay unique and in the organisation. *)
Record OwnersKept (orgId : Uuid) (l l' : Members) : Prop := {
  ow_unique : NoDup (map memberKey l');
  ow_org : forall m, m ∈ l' -> pmb_orgId m = orgId;
  ow_owner : forall projectId, length (ownersIn projectId l) = 1%nat -> length (ownersIn projectId l') = 1%nat;
}.

Record MembersInv (orgId : Uuid) (l : Members) : Prop := {
  mi_unique : NoDup (map memberKey l);
  mi_org : forall m, m ∈ l -> pmb_orgId m = orgId;
}.

Lemma OwnersKept_refl orgId l : MembersInv orgId l -> OwnersKept orgId l l.
Proof. by intros [Hu Ho]. Qed.

(** ** Lists of members *)

Lemma length_filter_map_where {A} (p q : A -> bool) f l :
  (forall x, x ∈ l -> p (if q x then f x else x) = p x) -> length (List.filter p (map_where q f l)) = length (List.filter p l).
Proof.
  induction l as [|x l IH]; intros Hp; [done|]. cbn [map_where map List.filter]. fold (map_where q f l).
  rewrite (Hp x) by left. destruct (p x); cbn; rewrite IH; try done; intros y Hy; apply Hp; by right.
Qed.

Lemma membershipOf_key projectId userId m : membershipOf projectId userId m = (memberKey m =? (projectId, userId)).
Proof.
  unfold membershipOf, memberKey. destruct (decide (pmb_projectId m = projectId)), (decide (pmb_userId m = userId));
    rewrite ?(bool_decide_eq_true_2 (pmb_projectId m = _)), ?(bool_decide_eq_false_2 (pmb_projectId m = _)) by done;
    rewrite ?(bool_decide_eq_true_2 (pmb_userId m = _)), ?(bool_decide_eq_false_2 (pmb_userId m = _)) by done; cbn;
    symmetry; (apply bool_decide_eq_true_2 || apply bool_decide_eq_false_2); congruence.
Qed.

Lemma membershipOf_true projectId userId m : membershipOf projectId userId m = true <-> memberKey m = (projectId, userId).
Proof. rewrite membershipOf_key. apply bool_decide_eq_true. Qed.

Lemma ownerOf_true projectId m : ownerOf projectId m = true <-> pmb_projectId m = projectId /\ pmb_role m = owner.
Proof. unfold ownerOf. by rewrite andb_true_iff, !bool_decide_eq_true. Qed.

(** The role that a lookup read is that of the row of the user. *)
Lemma role_row orgId auth projectId userId db role :
  MembersInv orgId (db_projectMemberships db) -> ra_userId auth = userId ->
  roleIn db auth projectId = Some role ->
  exists m, m ∈ db_projectMemberships db /\ memberKey m = (projectId, userId) /\ pmb_role m = role.
Proof.
  intros _ <- Hr. unfold roleIn in Hr. destruct (head _) as [m|] eqn:Eh; [|done]. injection Hr as <-.
  apply head_elem_of, elem_of_lfilter in Eh as [E Hm]. bool_simpl. exists m. split; [done|]. split; [|done]. unfold memberKey. congruence.
Qed.

Lemma same_member l m m' projectId userId :
  NoDup (map memberKey l) -> m ∈ l -> m' ∈ l -> memberKey m = (projectId, userId) -> membershipOf projectId userId m' = true -> m' = m.
Proof. intros Hn Hm Hm' E E'. apply membershipOf_true in E'. apply (NoDup_key_inj memberKey l); congruence. Qed.

Lemma NoDup_map_lfilter {A B} (f : A -> B) (p : A -> bool) l : NoDup (map f l) -> NoDup (map f (List.filter p l)).
Proof.
  induction l as [|x l IH]; [done|]. cbn. intros Hn. apply NoDup_cons in Hn as [Hx Hn]. destruct (p x); [|by apply IH].
  cbn. apply NoDup_cons. split; [|by apply IH]. intros Hin. apply Hx. apply elem_of_map in Hin as (y & Ey & Hy).
  apply elem_of_map. exists y. split; [done|]. by apply elem_of_lfilter in Hy as [_ Hy].
Qed.

(** A removal, unless of the last owner. *)
Lemma OwnersKept_delete orgId projectId userId l m :
  MembersInv orgId l -> m ∈ l -> memberKey m = (projectId, userId) ->
  (pmb_role m = owner -> List.filter (fun x => ownerOf projectId x && negb (pmb_userId x =? userId)) l <> []) ->
  OwnersKept orgId l (List.filter (fun x => negb (membershipOf projectId userId x)) l).
Proof.
  intros [Hu Ho] Hm Ek Hlast. split.
  - by apply NoDup_map_lfilter.
  - intros x Hx. apply elem_of_lfilter in Hx as [_ Hx]. by apply Ho.
  - intros j Hone. unfold ownersIn. rewrite lfilter_lfilter. rewrite <- Hone. unfold ownersIn. f_equal. apply lfilter_ext.
    intros x Hx. destruct (membershipOf projectId userId x) eqn:Ex; [|done]. cbn.
    assert (x = m) as -> by by eapply same_member. symmetry. apply not_true_iff_false. intros Hown.
    apply ownerOf_true in Hown as [Ej Hr]. assert (j = projectId) as -> by (unfold memberKey in Ek; congruence).
    unfold memberKey in Ek. injection Ek as Epid Euid.
    destruct (List.filter (fun x => ownerOf projectId x && negb (pmb_userId x =? userId)) l) as [|y l'] eqn:El; [by apply Hlast|].
    assert (Hy : y ∈ y :: l') by left. rewrite <- El in Hy. apply elem_of_lfilter in Hy as [Ey Hy].
    apply andb_true_iff in Ey as [Ey1 Ey2]. apply negb_true_iff, bool_decide_eq_false in Ey2.
    assert (Hym : y <> m) by (intros ->; congruence).
    assert (Hmo : m ∈ ownersIn projectId l) by (apply elem_of_lfilter; split; [by apply ownerOf_true|done]).
    assert (Hyo : y ∈ ownersIn projectId l) by (by apply elem_of_lfilter).
    unfold ownersIn in *. destruct (List.filter (ownerOf projectId) l) as [|a [|b t]]; [done| |done].
    apply list_elem_of_singleton in Hmo, Hyo. congruence.
Qed.

(** A new member, who is no owner. *)
Lemma OwnersKept_add orgId projectId userId role l :
  MembersInv orgId l -> role <> owner ->
  (forall x, x ∈ l -> projectMembershipConflict (MkProjectMembershipRow orgId projectId userId role) x = false) ->
  OwnersKept orgId l (l ++ [MkProjectMembershipRow orgId projectId userId role]).
Proof.
  intros [Hu Ho] Hr Hnew. split.
  - rewrite map_app. apply NoDup_app. split; [done|]. split; [|apply NoDup_singleton].
    intros k Hk Hs. apply list_elem_of_singleton in Hs as ->. apply elem_of_map in Hk as (x & Ex & Hx).
    specialize (Hnew x Hx). apply not_true_iff_false in Hnew. apply Hnew. unfold projectMembershipConflict, memberKey in *. cbn in *.
    injection Ex as -> ->. by rewrite !bool_decide_eq_true_2.
  - intros m Hm. apply elem_of_app in Hm as [Hm|Hm]; [by apply Ho|]. by apply list_elem_of_singleton in Hm as ->.
  - intros j <-. unfold ownersIn. rewrite List.filter_app. cbn.
    replace (ownerOf j _) with false; [by rewrite app_nil_r|]. symmetry. apply not_true_iff_false. intros E.
    by apply ownerOf_true in E as [_ E].
Qed.

(** The role of a member who is no owner, to a role that is not owner's. *)
Lemma OwnersKept_role orgId projectId userId role l m :
  MembersInv orgId l -> m ∈ l -> memberKey m = (projectId, userId) -> pmb_role m <> owner -> role <> owner ->
  OwnersKept orgId l (map_where (membershipOf projectId userId) (fun x => x <| pmb_role := role |>) l).
Proof.
  intros [Hu Ho] Hm Ek Hr Hrole. split.
  - by rewrite map_where_proj.
  - intros x Hx. apply elem_of_map_where in Hx as (y & Hy & ->). destruct (membershipOf _ _ y); exact (Ho y Hy).
  - intros j <-. apply length_filter_map_where. intros x Hx. destruct (membershipOf projectId userId x) eqn:Ex; [|done].
    assert (x = m) as -> by by eapply same_member. unfold ownerOf. cbn.
    rewrite (bool_decide_eq_false_2 (role = owner)), (bool_decide_eq_false_2 (pmb_role m = owner)) by done. by rewrite !andb_false_r.
Qed.

(** The rows of a member are one row. *)
Lemma member_unique l m projectId userId :
  NoDup (map memberKey l) -> m ∈ l -> memberKey m = (projectId, userId) ->
  length (List.filter (membershipOf projectId userId) l) = 1%nat.
Proof.
  intros Hn Hm Ek. induction l as [|x l IH]; [by apply not_elem_of_nil in Hm|]. cbn in Hn |- *. apply NoDup_cons in Hn as [Hx Hn].
  apply elem_of_cons in Hm as [->|Hm].
  - rewrite (proj2 (membershipOf_true _ _ _) Ek). cbn. f_equal. rewrite lfilter_none; [done|]. intros y Hy.
    apply not_true_iff_false. intros Ey. apply membershipOf_true in Ey. apply Hx. apply elem_of_map. exists y. split; [congruence|done].
  - destruct (membershipOf projectId userId x) eqn:Ex; [|by apply IH]. exfalso. apply membershipOf_true in Ex. apply Hx.
    apply elem_of_map. exists m. split; [congruence|done].
Qed.

Definition demoted (projectId currentOwner : Uuid) : Members -> Members :=
  map_where (fun m => membershipOf projectId currentOwner m && (pmb_role m =? owner)) (fun m => m <| pmb_role := admin |>).
Definition promoted (projectId newOwner : Uuid) : Members -> Members :=
  map_where (membershipOf projectId newOwner) (fun m => m <| pmb_role := owner |>).

Lemma keys_demoted projectId u l : map memberKey (demoted projectId u l) = map memberKey l.
Proof. by apply map_where_proj. Qed.
Lemma keys_promoted projectId u l : map memberKey (promoted projectId u l) = map memberKey l.
Proof. by apply map_where_proj. Qed.

(** The transfer: from the one owner to a member who is not the owner. *)
Lemma OwnersKept_transfer orgId projectId c t l :
  MembersInv orgId l -> head (ownersIn projectId l) = Some c ->
  t ∈ l -> pmb_projectId t = projectId -> pmb_role t <> owner ->
  OwnersKept orgId l (promoted projectId (pmb_userId t) (demoted projectId (pmb_userId c) l)).
Proof.
  intros [Hu Ho] Hc Ht Etp Etr. pose proof (head_elem_of _ _ Hc) as Hcl. apply elem_of_lfilter in Hcl as [Ec Hcl].
  apply ownerOf_true in Ec as [Ecp Ecr]. split.
  - by rewrite keys_promoted, keys_demoted.
  - intros x Hx. apply elem_of_map_where in Hx as (y & Hy & ->). apply elem_of_map_where in Hy as (z & Hz & ->).
    destruct (membershipOf _ _ z && _); destruct (membershipOf _ _ _); exact (Ho z Hz).
  - intros j Hone. destruct (decide (j = projectId)) as [->|Hj].
    + set (l1 := demoted projectId (pmb_userId c) l).
      assert (Hno : forall x, x ∈ l1 -> ownerOf projectId x = false).
      { intros x Hx. apply elem_of_map_where in Hx as (y & Hy & ->). apply not_true_iff_false. intros E.
        destruct (membershipOf projectId (pmb_userId c) y && (pmb_role y =? owner)) eqn:Eq; [by apply ownerOf_true in E as [_ E]|].
        assert (Hyo : y ∈ ownersIn projectId l) by (by apply elem_of_lfilter).
        assert (y = c) as ->.
        { unfold ownersIn in *. destruct (List.filter (ownerOf projectId) l) as [|a [|b k]]; [done| |done]. injection Hc as ->. by apply list_elem_of_singleton in Hyo. }
        rewrite (proj2 (membershipOf_true _ _ c)), bool_decide_eq_true_2 in Eq; [done|done|]. unfold memberKey. congruence. }
      assert (Ht1 : exists t1, t1 ∈ l1 /\ memberKey t1 = (projectId, pmb_userId t)).
      { eexists. split; [apply elem_of_map_where; exists t; split; [done|reflexivity]|]. unfold memberKey. destruct (_ && _); cbn; congruence. }
      destruct Ht1 as (t1 & Ht1 & Ek1). assert (Hu1 : NoDup (map memberKey l1)) by (unfold l1; by rewrite keys_demoted).
      rewrite <- (member_unique l1 t1 projectId (pmb_userId t) Hu1 Ht1 Ek1). unfold ownersIn, promoted.
      clear -Hno. induction l1 as [|x l1 IH]; [done|]. cbn [map_where map List.filter]. fold (map_where (membershipOf projectId (pmb_userId t)) (fun m => m <| pmb_role := owner |>) l1).
      destruct (membershipOf projectId (pmb_userId t) x) eqn:Ex.
      * rewrite (proj2 (ownerOf_true _ _)); [|split; [|done]; apply membershipOf_true in Ex; unfold memberKey in Ex; cbn; congruence].
        cbn. f_equal. apply IH. intros y Hy. apply Hno. by right.
      * rewrite (Hno x) by left. apply IH. intros y Hy. apply Hno. by right.
    + rewrite <- Hone. unfold ownersIn, promoted, demoted. rewrite !length_filter_map_where; [done|..].
      * intros x Hx. destruct (_ && _) eqn:E; [|done]. apply andb_true_iff in E as [E _]. apply membershipOf_true in E.
        unfold memberKey, ownerOf in *. cbn. rewrite bool_decide_eq_false_2; [done|congruence].
      * intros x Hx. destruct (membershipOf _ _ x) eqn:E; [|done]. apply membershipOf_true in E.
        unfold memberKey, ownerOf in *. cbn. rewrite bool_decide_eq_false_2; [done|congruence].
Qed.

(** ** The requests *)

Inductive MemberRequest :=
| mr_add (parsed : option (Uuid * AddMemberRole))
| mr_remove (userId : Uuid)
| mr_transfer (newOwnerId : Uuid)
| mr_changeRole (userId : Uuid) (role : AddMemberRole).

Lemma addedRole_owner r : addedRole r <> owner.
Proof. by destruct r. Qed.

Section owners.
Context `{Locale, Platform, NodeCrypto, Env, Unicode, OtpValidate, Passwords}.

Definition serveMembers (auth : RouteAuth) (projectId : Uuid) (meta : RequestMeta) (r : MemberRequest) : M HandlerReply :=
  match r with
  | mr_add parsed => addMember auth projectId parsed meta
  | mr_remove userId => removeMember auth projectId userId meta
  | mr_transfer newOwnerId => transferOwnership auth projectId newOwnerId meta
  | mr_changeRole userId role => changeProjectRole auth userId projectId role meta
  end.

Definition keepsOwners {A} (orgId : Uuid) (w : World) (o : Outcome A) (w' : World) : Prop :=
  match o with
  | Ok _ => OwnersKept orgId (db_projectMemberships (w_db w)) (db_projectMemberships (w_db w'))
  | Throw _ => True
  end.

Lemma keepsOwners_from {A} orgId w w1 (o : Outcome A) w' : sameDb w w1 -> keepsOwners orgId w1 o w' -> keepsOwners orgId w o w'.
Proof. by intros [n ->]. Qed.

(** The end of a request: its entry, and the reply. *)
Lemma wp_entryAndReply auth orgId event rt id pid payload meta (r : HandlerReply) w w1 :
  OwnersKept orgId (db_projectMemberships (w_db w)) (db_projectMemberships (w_db w1)) ->
  wp (_ ← writeProjectAudit auth event rt id pid payload meta; mret r) (keepsOwners orgId w) w1.
Proof.
  intros Hk. apply wp_bind. eapply wp_mono; [apply writeProjectAudit_spec|]. intros [[]|e] w2 Ha; [|done].
  destruct Ha as (row & (n & u & s & ->) & _). by apply wp_ret.
Qed.

Lemma wp_reply orgId (r : HandlerReply) w w1 :
  MembersInv orgId (db_projectMemberships (w_db w)) -> sameDb w w1 -> wp (mret r) (keepsOwners orgId w) w1.
Proof. intros Hi [n ->]. apply wp_ret. by apply OwnersKept_refl. Qed.

Lemma readOnly_strictMfa auth : readOnly (strictMfaRefusal auth).
Proof. unfold strictMfaRefusal, rejectIfUserNotMfaEnrolled. read_only. Qed.
Lemma readOnly_effectiveRole auth param : readOnly (effectiveProjectRoleForCaller auth param).
Proof. unfold effectiveProjectRoleForCaller, getProjectMembershipRole, orgRoleOrDeny. read_only. Qed.
Lemma readOnly_resolveRole auth projectId : readOnly (resolveRoleOrRejectUnenrolledProjectAdmin auth projectId).
Proof.
  unfold resolveRoleOrRejectUnenrolledProjectAdmin, rejectIfUserNotMfaEnrolled.
  apply readOnly_bind; [apply readOnly_effectiveRole|]. intros r. read_only.
Qed.
Lemma readOnly_canManage auth projectId : readOnly (callerCanManageMembers auth projectId).
Proof.
  unfold callerCanManageMembers, orgRoleOrDeny. apply readOnly_bind; [apply readOnly_callerProjectRole|]. intros r. read_only.
Qed.

Ltac same := match goal with
             | |- sameDb ?w ?w => apply sameDb_refl
             | H : sameDb ?w ?w1 |- sameDb ?w ?w1 => exact H
             | |- _ => by eauto using sameDb_trans
             end.

Ltac replied := cbn beta iota; apply wp_reply; [assumption|same].

Lemma insertMembership_run orgId projectId userId role w :
  Idle w ->
  exists w', insertProjectMembershipOrConflict orgId projectId userId role w = (Ok false, w) \/
    (insertProjectMembershipOrConflict orgId projectId userId role w = (Ok true, w') /\
     let row := MkProjectMembershipRow orgId projectId userId (addedRole role) in
     (forall x, x ∈ db_projectMemberships (w_db w) -> projectMembershipConflict row x = false) /\
     w' = w <| w_db ::= fun db => db <| db_projectMemberships ::= fun l => l ++ [row] |> |>).
Proof.
  intros Hi. unfold insertProjectMembershipOrConflict. rewrite (run_bind _ _ _ _ _ (otherCommits_run w Hi)).
  unfold catch, transaction, mbind, M_bind, insertRow. destruct (existsb _ _) eqn:E; cbn [isUniqueViolation].
  - exists w. left. f_equal. by destruct w.
  - eexists. right. split; [reflexivity|]. split; [|done]. intros x Hx. apply not_true_iff_false. intros Ec.
    rewrite <- not_true_iff_false, existsb_exists in E. apply E. exists x. by rewrite <- list_elem_of_In.
Qed.

Lemma addMember_keeps auth projectId parsed meta w :
  Idle w -> MembersInv (ra_orgId auth) (db_projectMemberships (w_db w)) ->
  wp (addMember auth projectId parsed meta) (keepsOwners (ra_orgId auth) w) w.
Proof.
  intros Hi Hinv. unfold addMember. apply wp_readOnly_any; [apply readOnly_strictMfa|done|].
  intros [r|] w1 Hs1; [by apply wp_reply|]. pose proof (sameDb_Idle _ _ Hs1 Hi) as Hi1.
  eapply wp_bind_eq; [by apply lockProject_run|]. destruct (isWritable _); [by apply wp_reply|].
  apply wp_readOnly_any; [apply readOnly_canManage|done|]. intros allowed w2 Hs2.
  assert (Hs : sameDb w w2) by same. clear w1 Hs1 Hs2 Hi1. destruct (negb allowed); [by apply wp_reply|].
  apply wp_readOnly_any; [apply readOnly_resolveRole|done|]. intros effective w3 Hs3.
  assert (Hs' : sameDb w w3) by same. clear w2 Hs Hs3.
  destruct effective as [r|callerRole]; [by apply wp_reply|]. destruct parsed as [[userId role]|]; [|by apply wp_reply].
  eapply wp_mono; [|intros o w'; by apply (keepsOwners_from (ra_orgId auth) w w3)].
  pose proof (sameDb_Idle _ _ Hs' Hi) as Hi3.
  assert (Hinv3 : MembersInv (ra_orgId auth) (db_projectMemberships (w_db w3))) by (by destruct Hs' as [n ->]).
  clear w Hi Hinv Hs'. apply wp_bind. unfold addExistingOrgUserToProject.
  destruct (_ <? _); [apply wp_ret; replied|].
  unfold activeOrgUser. apply wp_bind_assoc, wp_otherCommits; [done|]. apply wp_query.
  match goal with |- wp (match ?x with Some _ => _ | None => _ end) _ _ => destruct x as [email|] end; [|apply wp_ret; replied].
  unfold getProjectMembershipRole. apply wp_bind_assoc, wp_bind_first, wp_bind, wp_ret.
  destruct (isNotNull _); [apply wp_ret; replied|]. destruct (insertMembership_run (ra_orgId auth) projectId userId role w3 Hi3) as (w4 & [E|(E & Hnew & ->)]).
  - eapply wp_bind_eq; [exact E|]. apply wp_ret. replied.
  - eapply wp_bind_eq; [exact E|]. apply wp_ret. cbn beta iota. apply wp_entryAndReply.
    apply OwnersKept_add; [done|apply addedRole_owner|done].
Qed.

(** The role that a lookup of the organisation finds, with its row. *)
Definition foundRole (orgId projectId userId : Uuid) (l : Members) : option OrgRole :=
  pmb_role <$> head (List.filter (fun m => (pmb_projectId m =? projectId) && (pmb_userId m =? userId) && (pmb_orgId m =? orgId)) l).

Lemma foundRole_row orgId projectId userId l role : foundRole orgId projectId userId l = Some role ->
  exists m, m ∈ l /\ memberKey m = (projectId, userId) /\ pmb_role m = role.
Proof.
  unfold foundRole. destruct (head _) as [m|] eqn:Eh; [|done]. intros [= <-].
  apply head_elem_of, elem_of_lfilter in Eh as [E Hm]. bool_simpl. exists m. split; [done|]. split; [|done]. unfold memberKey. congruence.
Qed.

Lemma wp_findRole {A} orgId projectId userId (k : option OrgRole -> M A) (Q : Outcome A -> World -> Prop) w :
  wp (k (foundRole orgId projectId userId (db_projectMemberships (w_db w)))) Q w ->
  wp (getProjectMembershipRole orgId projectId userId ≫= k) Q w.
Proof. done. Qed.

Lemma removeMember_keeps auth projectId userId meta w :
  Idle w -> MembersInv (ra_orgId auth) (db_projectMemberships (w_db w)) ->
  wp (removeMember auth projectId userId meta) (keepsOwners (ra_orgId auth) w) w.
Proof.
  intros Hi Hinv. unfold removeMember. apply wp_findRole. destruct (foundRole _ _ _ _) as [role|] eqn:Er; [|replied].
  destruct (foundRole_row _ _ _ _ _ Er) as (m & Hm & Ek & <-).
  apply wp_readOnly_any; [apply readOnly_canManage|done|]. intros allowed w1 Hs. destruct (negb allowed); [replied|].
  eapply wp_mono; [|intros o w'; by apply (keepsOwners_from (ra_orgId auth) w w1)].
  pose proof (sameDb_Idle _ _ Hs Hi) as Hi1. destruct Hs as [n ->]. set (w1 := w <| w_tick := n |>) in *.
  assert (Hdel : forall w2, w2 = w1 ->
     (pmb_role m = owner -> List.filter (fun x => ownerOf projectId x && negb (pmb_userId x =? userId)) (db_projectMemberships (w_db w)) <> []) ->
     wp (_ ← removeProjectMembership projectId userId;
         _ ← writeProjectAudit auth "project.member_removed" "project_membership" userId None
               [("projectId", JUuid projectId); ("removedRole", JStr (roleName (pmb_role m)))] meta;
         mret (reply_returns 204 None)) (keepsOwners (ra_orgId auth) w1) w2).
  { intros w2 -> Hlast. unfold removeProjectMembership. apply wp_bind_assoc, wp_otherCommits; [done|].
    match goal with |- wp (deleteWhere ?t ?p ≫= ?k) ?Q ?w0 =>
      change (wp (k tt) Q (w0 <| w_db ::= fun db => db <| t ::= List.filter (fun r => negb (p r)) |> |>)) end.
    apply wp_entryAndReply. by apply (OwnersKept_delete _ _ _ _ m). }
  destruct (bool_decide_reflect (pmb_role m = owner)) as [Eo|Eo].
  - apply wp_bind_assoc, wp_otherCommits; [done|]. unfold selectWhere.
    match goal with |- wp ((?f ≫= ?g) ≫= ?k) ?Q ?w0 => change (wp (g (List.filter (fun x => ownerOf projectId x && negb (pmb_userId x =? userId)) (db_projectMemberships (w_db w))) ≫= k) Q w0) end.
    apply wp_bind, wp_ret. destruct (List.filter _ _) as [|y l] eqn:El; [replied|]. by apply Hdel.
  - apply wp_bind, wp_ret. apply Hdel; [done|]. by intros.
Qed.

Lemma changeProjectRole_keeps auth userId projectId role meta w :
  Idle w -> MembersInv (ra_orgId auth) (db_projectMemberships (w_db w)) ->
  wp (changeProjectRole auth userId projectId role meta) (keepsOwners (ra_orgId auth) w) w.
Proof.
  intros Hi Hinv. unfold changeProjectRole. destruct (_ =? _); [replied|]. apply wp_bind_first.
  apply wp_readOnly_any; [unfold orgRoleOrDeny; read_only|done|]. intros rank w1 Hs.
  destruct (match _ with Some _ => _ | None => _ end); [replied|]. destruct (_ <? _); [replied|].
  eapply wp_mono; [|intros o w'; by apply (keepsOwners_from (ra_orgId auth) w w1)].
  pose proof (sameDb_Idle _ _ Hs Hi) as Hi1. destruct Hs as [n ->]. set (w1 := w <| w_tick := n |>) in *.
  apply wp_findRole. destruct (foundRole _ _ _ _) as [old|] eqn:Er; [|replied].
  destruct (foundRole_row _ _ _ _ _ Er) as (m & Hm & Ek & <-).
  destruct (bool_decide_reflect (pmb_role m = owner)) as [Eo|Eo]; [replied|].
  apply wp_otherCommits; [done|]. apply wp_bind_update. apply wp_entryAndReply.
  by apply (OwnersKept_role _ _ _ _ _ m); [| | | |apply addedRole_owner].
Qed.

Lemma transferOwnership_keeps auth projectId newOwnerId meta w :
  Idle w -> MembersInv (ra_orgId auth) (db_projectMemberships (w_db w)) ->
  wp (transferOwnership auth projectId newOwnerId meta) (keepsOwners (ra_orgId auth) w) w.
Proof.
  intros Hi Hinv. unfold transferOwnership. apply wp_readOnly_any; [apply readOnly_callerProjectRole|done|]. intros cr w1 Hs1.
  apply wp_readOnly_any; [unfold orgRoleOrDeny; read_only|done|]. intros orgRole w2 Hs2. destruct (_ && _); [replied|].
  apply wp_readOnly_any; [unfold isProjectArchived, findProject; read_only|done|]. intros archived w3 Hs3.
  assert (Hs : sameDb w w3) by (eapply sameDb_trans; [exact Hs1|]; by eapply sameDb_trans). clear w1 w2 Hs1 Hs2 Hs3.
  destruct archived; [replied|]. destruct (_ =? _); [replied|].
  eapply wp_mono; [|intros o w'; by apply (keepsOwners_from (ra_orgId auth) w w3)].
  pose proof (sameDb_Idle _ _ Hs Hi) as Hi1. destruct Hs as [n ->]. set (w1 := w <| w_tick := n |>) in *.
  unfold resolveTransferTargets. apply wp_bind_assoc, wp_findRole. destruct (foundRole _ _ _ _) as [role|] eqn:Er; [|apply wp_bind, wp_ret; replied].
  destruct (foundRole_row _ _ _ _ _ Er) as (t & Ht & Ek & <-).
  destruct (bool_decide_reflect (pmb_role t = owner)) as [Eo|Eo]; [apply wp_bind, wp_ret; replied|].
  apply wp_bind_assoc, wp_otherCommits; [done|]. apply wp_bind_assoc, wp_bind_first, wp_bind, wp_ret.
  change (db_projectMemberships (w_db w1)) with (db_projectMemberships (w_db w)).
  destruct (head _) as [c|] eqn:Ec; [|replied]. unfold swapOwners. apply wp_bind_assoc, wp_bind_update.
  set (w2 := w1 <| w_db ::= _ |>).
  pose proof (head_elem_of _ _ Ec) as Hc. apply elem_of_lfilter in Hc as [Eown Hc]. apply ownerOf_true in Eown as [Ecp Ecr].
  match goal with |- wp (match ?l with _ => _ end ≫= _) _ _ => assert (Hl : l <> []); [|destruct l as [|d l']; [done|]] end.
  { intros El. apply map_eq_nil in El. eapply (not_elem_of_nil c). rewrite <- El. apply elem_of_lfilter. split; [|done].
    rewrite (proj2 (membershipOf_true _ _ c)), bool_decide_eq_true_2; [done|done|]. unfold memberKey. congruence. }
  clear Hl. assert (Hi2 : Idle w2) by exact Hi1. apply wp_bind_assoc, wp_otherCommits; [done|]. apply wp_bind_assoc, wp_bind_update, wp_bind, wp_ret.
  apply wp_entryAndReply. unfold memberKey in Ek. injection Ek as Etp <-.
  by apply (OwnersKept_transfer _ _ c t).
Qed.

Lemma serveMembers_keeps auth projectId meta r w :
  Idle w -> MembersInv (ra_orgId auth) (db_projectMemberships (w_db w)) ->
  wp (withOrg (serveMembers auth projectId meta r))
    (fun o w' => OwnersKept (ra_orgId auth) (db_projectMemberships (w_db w)) (db_projectMemberships (w_db w'))) w.
Proof.
  intros Hi Hinv. apply wp_withOrg. set (w0 := w <| w_tick ::= S |> <| w_now := _ |>).
  change (w_db w) with (w_db w0) in Hinv |- *. assert (Hi0 : Idle w0) by exact Hi.
  apply (wp_mono _ (keepsOwners (ra_orgId auth) w0)).
  - destruct r; [by apply addMember_keeps|by apply removeMember_keeps|by apply transferOwnership_keeps|by apply changeProjectRole_keeps].
  - intros [a|e] w' Hk; [exact Hk|]. by apply OwnersKept_refl.
Qed.

(** Requests on the members of the projects of an organisation, one after the other. *)
Inductive MemberHistory (orgId : Uuid) : Db -> Db -> Prop :=
| member_none db : MemberHistory orgId db db
| member_step db w auth projectId meta r o w' :
    MemberHistory orgId db (w_db w) -> ra_orgId auth = orgId -> Idle w ->
    withOrg (serveMembers auth projectId meta r) w = (o, w') -> MemberHistory orgId db (w_db w').

(** C18: a project keeps its owner.  Whatever requests on members run in an organisation, one after the other (new
    members, removals, changes of role and transfers of ownership, by any callers and on any projects, each
    succeeding, refused or rolled back), every project that had exactly one owner has exactly one: the removal of the
    last one is refused, nobody is added or promoted to owner, the role of an owner changes only in a transfer, and a
    transfer demotes the one and promotes the other.  And a user has at most one membership of a project. *)
Theorem sole_owner_kept orgId db db' :
  MembersInv orgId (db_projectMemberships db) -> MemberHistory orgId db db' ->
  OwnersKept orgId (db_projectMemberships db) (db_projectMemberships db').
Proof.
  intros Hinv Hh. induction Hh as [|db w auth projectId meta r o w' Hh IH Eorg Hi E]; [by apply OwnersKept_refl|].
  destruct (IH Hinv) as [Hu Ho Hone].
  subst orgId.
  destruct (wp_elim _ _ _ _ _ (serveMembers_keeps auth projectId meta r w Hi (Build_MembersInv _ _ Hu Ho)) E) as [Hu' Ho' Hone'].
  split; [done|done|]. intros j Hj. by apply Hone', Hone.
Qed.
End owners.
