(* ===== verification/ProjectDemo.v ===== *)
(** * The life of a project, for the witnesses

    A project with a secret, a share of it and a pending invitation, whose owner
    is user 8; what becomes of it; and two races that the handlers lose. *)

From S2P Require Import Prelude Js Crypto FieldSet AuthStore Store Tx QuotaGate AuditLog Notifications Credentials Text Demo Sessions Shares ShareDemo Authenticate Mfa Login AuthDemo JsMap RateLimit Server CapabilityGate AuditPayload SecureRoute Projects ProjectMembers ProjectTheorems ProjectSlugs ProjectLifecycle ProjectOwners.
From Stdlib Require Import Ascii String.
From stdpp Require Import strings pretty sets.

Local Open Scope string_scope.
Local Open Scope list_scope.
Local Open Scope pv_scope.

#[local] Existing Instances byteLocale toyPlatform digestCrypto toyEnv asciiUnicode toyOtpValidate toyPasswords.
Definition onlyUs : OtherOrganizations := fun _ _ => false.
#[local] Existing Instance onlyUs.

Definition payments : Uuid := 2.
Definition bobAuth : RouteAuth := MkRouteAuth 8 1 (Some member) false false.
Definition adaAuth : RouteAuth := MkRouteAuth 7 1 (Some owner) false false.

Definition projectDb : Db :=
  Eval vm_compute in (w_db (quietly shared1))
    <| db_shares := [nativeShare] |>
    <| db_projectInvitations := [MkProjectInvitationRow 90 2 None None] |>
    <| db_projectMemberships := [MkProjectMembershipRow 1 2 8 owner; MkProjectMembershipRow 1 2 7 member] |>.
Definition projectWorld : World := worldOf projectDb.

Lemma Idle_worldOf db : Idle (worldOf db).
Proof. done. Qed.

Ltac unique_ids := repeat first [apply NoDup_nil_2 | apply NoDup_cons_2; [set_solver|]].

(** ** Delete, restore, purge *)

Definition deletedResult := Eval vm_compute in withOrg (deleteProject bobAuth payments noMeta) projectWorld.
Definition deletedWorld : World := Eval vm_compute in deletedResult.2.
Definition deletedReply : option Json :=
  Eval vm_compute in match deletedResult.1 with Ok (reply_returns _ data) => data | _ => None end.

Lemma deleted_run : withOrg (deleteProject bobAuth payments noMeta) projectWorld = (Ok (reply_returns 200 deletedReply), deletedWorld).
Proof. vm_compute. reflexivity. Qed.

Lemma deletion_closes_project_witness :
  map sh_status (db_shares projectDb) = [shareActive] /\ map sh_status (db_shares (w_db deletedWorld)) = [shareRevoked] /\
  length (db_audit (w_db deletedWorld)) = 2%nat /\
  let '(o, w') := withOrg (deleteProject bobAuth payments noMeta) projectWorld in
  match o with
  | Ok (reply_returns status _) =>
      status = 200%Z /\ exists p via at_ shares row, Deletion bobAuth payments p via at_ shares row projectDb (w_db w')
  | Ok r => refuses r /\ w_db w' = projectDb
  | Throw _ => w_db w' = projectDb
  end.
Proof.
  do 3 (split; [vm_compute; reflexivity|]).
  apply (deletion_closes_project bobAuth payments noMeta projectWorld).
  - done.
  - unfold uniqueProjects. vm_compute. unique_ids.
Defined.

(** Ada, who owns the organisation, restores it in the next minute. *)
Definition laterWorld : World := (worldOf (w_db deletedWorld)) <| w_tick := 200 |>.

Lemma restore_undoes_delete_witness :
  (exists data w2, withOrg (restoreProject adaAuth payments noMeta) laterWorld = (Ok (reply_returns 200 data), w2) /\
     map proj_deletedAt (db_projects (w_db w2)) = [None]) /\
  let '(o, w2) := withOrg (restoreProject adaAuth payments noMeta) laterWorld in
  match o with
  | Ok (reply_returns status' _) =>
      status' = 200%Z /\ exists p at_ updated,
        projectRow projectDb payments = Some p /\ proj_deletedAt p = None /\
        projectRow (w_db w2) payments =
          Some (p <| proj_deletedAt := None |> <| proj_deletedBy := None |> <| proj_purgeAfter := None |>
                  <| proj_archivedAt := Some (default at_ (proj_archivedAt p)) |> <| proj_updatedAt := updated |>) /\
        (forall q, proj_id q <> payments -> q ∈ db_projects (w_db w2) <-> q ∈ db_projects projectDb) /\
        w_db w2 = projectDb <| db_projects := db_projects (w_db w2) |> <| db_shares := db_shares (w_db w2) |>
          <| db_projectInvitations := db_projectInvitations (w_db w2) |> <| db_audit := db_audit (w_db w2) |>
          <| db_usage := db_usage (w_db w2) |> <| db_auditSeq := db_auditSeq (w_db w2) |>
  | Ok _ => forall q via, mayDo verb_restore (w_db deletedWorld) adaAuth payments q via -> isNotNull (proj_purgedAt q) = true
  | Throw _ => w_db w2 = w_db deletedWorld
  end.
Proof.
  split; [do 2 eexists; split; [vm_compute; reflexivity|vm_compute; reflexivity]|].
  apply (restore_undoes_delete bobAuth adaAuth payments noMeta noMeta projectWorld 200 deletedReply deletedWorld laterWorld).
  - done.
  - unfold uniqueProjects. vm_compute. unique_ids.
  - exact deleted_run.
  - done.
  - reflexivity.
Defined.

Lemma deleted_list_iff_restorable_witness :
  exists items w1, listDeleted bobAuth laterWorld = (Ok items, w1) /\ w_db w1 = w_db deletedWorld /\
    map proj_id items = [payments] /\
    (payments ∈ map proj_id items <->
     ~ exists status body w2, restoreProject bobAuth payments noMeta laterWorld = (Ok (reply_sends status body), w2)).
Proof.
  destruct (deleted_list_iff_restorable bobAuth member payments noMeta laterWorld) as (items & w1 & E & Ew & Hiff).
  - done.
  - unfold uniqueProjects. vm_compute. unique_ids.
  - unfold uniqueMembers. vm_compute. unique_ids.
  - intros m Hm. vm_compute in Hm. set_solver.
  - intros p Hp. vm_compute in Hp. apply list_elem_of_singleton in Hp as ->. done.
  - done.
  - done.
  - exists items, w1. split; [exact E|]. split; [exact Ew|]. split; [|exact Hiff].
    vm_compute in E. injection E as <- _. vm_compute. reflexivity.
Defined.

(** Thirty days later. *)
Definition dueAt : Date := 1800000000000.

Lemma purge_erases_witness :
  map cred_id (db_credentials (w_db deletedWorld)) = [demoCredential] /\
  let '(o, w') := purgeOne 1 payments dueAt laterWorld in
  o = Ok true /\ db_credentials (w_db w') = [] /\ db_versions (w_db w') = [] /\
  match o with
  | Ok true => exists p row, Purge 1 payments dueAt p row (w_db deletedWorld) (w_db w') /\
                 NothingLeft payments (w_db deletedWorld) (w_db w') /\ OthersKept payments (w_db deletedWorld) (w_db w')
  | Ok false => w_db w' = w_db deletedWorld /\ forall p, projectRow (w_db deletedWorld) payments = Some p -> isPurgeDue dueAt p = false
  | Throw _ => w_db w' = w_db deletedWorld
  end.
Proof.
  split; [vm_compute; reflexivity|].
  assert (Hu : uniqueProjects (w_db laterWorld)) by (unfold uniqueProjects; vm_compute; unique_ids).
  pose proof (purge_erases 1 payments dueAt laterWorld (Idle_worldOf _) Hu) as HP.
  destruct (purgeOne 1 payments dueAt laterWorld) as [o w'] eqn:E.
  vm_compute in E. injection E as <- <-. do 3 (split; [vm_compute; reflexivity|]). exact HP.
Defined.

(** ** A life, step by step *)

Definition param : string := uuidText payments.
Definition noExtension : ExtensionStatus := extension_not_loaded.
Definition purgedWorld : World := Eval vm_compute in (purgeOne 1 payments dueAt laterWorld).2.

Lemma projectDb_inv : LifecycleInv projectDb.
Proof.
  split.
  - unfold uniqueProjects. vm_compute. unique_ids.
  - intros p Hp. vm_compute in Hp. apply list_elem_of_singleton in Hp as ->. split; by intros.
Qed.

(** The deletion, and the purge of the project thirty days later. *)
Lemma delete_step : ProjectStep (Some payments) (Some do_delete) projectDb (w_db deletedWorld).
Proof.
  assert (E : parseUuid param = Some payments) by (vm_compute; reflexivity).
  assert (Hrun : withOrg (serveProject noExtension bobAuth noMeta param rq_delete) projectWorld = (Ok (reply_returns 200 deletedReply), deletedWorld))
    by (vm_compute; reflexivity).
  pose proof (step_request _ _ _ _ _ _ _ _ (Idle_worldOf projectDb) Hrun) as Hs. cbv beta iota in Hs. rewrite E in Hs. exact Hs.
Qed.
Lemma purge_step : ProjectStep (Some payments) (Some do_purge) (w_db deletedWorld) (w_db purgedWorld).
Proof.
  assert (Hrun : purgeOne 1 payments dueAt laterWorld = (Ok true, purgedWorld)) by (vm_compute; reflexivity).
  exact (step_purge 1 payments dueAt laterWorld (Ok true) purgedWorld (Idle_worldOf _) Hrun).
Qed.

Lemma delete_history : History projectDb (w_db deletedWorld).
Proof. exact (history_step _ _ _ _ _ (history_none projectDb) delete_step). Qed.
Lemma life_history : History projectDb (w_db purgedWorld).
Proof. exact (history_step _ _ _ _ _ delete_history purge_step). Qed.

Lemma life_cycle_refined_witness :
  phaseIn projectDb payments = Some ph_live /\
  phaseIn (w_db purgedWorld) payments = Some (ph_purged dueAt) /\
  LifecycleInv (w_db purgedWorld) /\
  forall projectId, phaseMoves (Some payments) (Some do_purge) projectId (phaseIn (w_db deletedWorld) projectId)
                      (phaseIn (w_db purgedWorld) projectId).
Proof.
  split; [vm_compute; reflexivity|]. split; [vm_compute; reflexivity|].
  exact (life_cycle_refined projectDb (w_db deletedWorld) (Some payments) (Some do_purge) (w_db purgedWorld) projectDb_inv
           delete_history purge_step).
Defined.

Definition demoSecret : CredentialRow :=
  Eval vm_compute in default (MkCredentialRow 0 0 0 "" None [] None None 0 None 0 0 false None None None) (head (db_credentials projectDb)).
Definition demoVersion : VersionRow :=
  Eval vm_compute in default (MkVersionRow 0 0 0 None None 0 None None None None None None 0 0 None) (head (db_versions projectDb)).

Lemma secrets_outlive_deletion_witness :
  db_credentials (w_db purgedWorld) = [] /\
  ((demoSecret ∈ db_credentials (w_db purgedWorld) /\ demoVersion ∈ db_versions (w_db purgedWorld)) \/
   purgedInTime (w_db purgedWorld) (cred_projectId demoSecret)).
Proof.
  split; [vm_compute; reflexivity|].
  apply (secrets_outlive_deletion projectDb (w_db purgedWorld) demoSecret demoVersion projectDb_inv).
  - vm_compute. unique_ids.
  - exact life_history.
  - left.
  - left.
  - vm_compute. reflexivity.
Defined.

(** ** Slugs *)

(** The slug of the name is taken. *)
Definition twinBody : CreateProjectBody := MkCreateProjectBody "--Payments!" None None None.

Lemma created_slug_valid_witness :
  serverSlugFromProjectName "--Payments!" = "payments" /\
  fst (resolveProjectSlug adaAuth twinBody projectWorld) = Ok "payments-00000000" /\
  exists slug w', resolveProjectSlug adaAuth twinBody projectWorld = (Ok slug, w') /\ SLUG_REGEX slug = true.
Proof.
  split; [vm_compute; reflexivity|]. split; [vm_compute; reflexivity|].
  apply (created_slug_valid adaAuth twinBody projectWorld). intros slug [=].
Defined.

(** ** Owners *)

(** Bob hands the project to Ada, and Ada removes him. *)
Definition transferredWorld : World :=
  Eval vm_compute in (withOrg (serveMembers bobAuth payments noMeta (mr_transfer 7)) projectWorld).2.
Definition alone : World := Eval vm_compute in
  (withOrg (serveMembers adaAuth payments noMeta (mr_remove 8)) (transferredWorld <| w_tick := 200 |>)).2.

Lemma projectDb_members : MembersInv 1 (db_projectMemberships projectDb).
Proof.
  split; [vm_compute; unique_ids|]. intros m Hm. vm_compute in Hm. set_solver.
Qed.

Lemma sole_owner_kept_witness :
  ownersIn payments (db_projectMemberships projectDb) = [MkProjectMembershipRow 1 2 8 owner] /\
  db_projectMemberships (w_db alone) = [MkProjectMembershipRow 1 2 7 owner] /\
  OwnersKept 1 (db_projectMemberships projectDb) (db_projectMemberships (w_db alone)).
Proof.
  split; [vm_compute; reflexivity|]. split; [vm_compute; reflexivity|].
  apply (sole_owner_kept 1 projectDb (w_db alone) projectDb_members).
  apply (member_step 1 projectDb (transferredWorld <| w_tick := 200 |>) adaAuth payments noMeta (mr_remove 8)
           (Ok (reply_returns 204 None)) alone); [|done|done|vm_compute; reflexivity].
  refine (member_step 1 projectDb projectWorld bobAuth payments noMeta (mr_transfer 7) _ transferredWorld
            (member_none 1 projectDb) eq_refl (Idle_worldOf _) _). vm_compute. reflexivity.
Defined.

(** ** Two races *)

(** What a request of another caller commits. *)
Definition commits (m : M HandlerReply) (db : Db) : Db := w_db (withOrg m ((worldOf db) <| w_tick := 100 |>)).2.

(** Bob removes Ada while a transfer of the project to her commits: her role is read before, so that no check for the
    last owner is made, and her row is deleted after.  The removal answers 204, and the project has no owner. *)
Definition transferMeanwhile : World := projectWorld <| w_onWait := commits (serveMembers bobAuth payments noMeta (mr_transfer 7)) |>.

Theorem removal_races_transfer :
  length (ownersIn payments (db_projectMemberships projectDb)) = 1%nat /\
  let '(o, w') := withOrg (serveMembers bobAuth payments noMeta (mr_remove 7)) transferMeanwhile in
  o = Ok (reply_returns 204 None) /\
  ownersIn payments (db_projectMemberships (w_db w')) = [] /\
  map (fun m => (pmb_userId m, pmb_role m)) (db_projectMemberships (w_db w')) = [(8%N, admin)].
Proof. vm_compute. repeat split. Qed.

(** An archived project, without a share. *)
Definition archivedWorld : World :=
  projectWorld <| w_db ::= fun db => db <| db_shares := [] |> <| db_projects ::= map (fun p => p <| proj_archivedAt := Some 5%Z |>) |> |>.
Definition deletionMeanwhile : World := archivedWorld <| w_onWait := commits (deleteProject bobAuth payments noMeta) |>.

(** The unarchive passes the gate of deleted projects, waits for the deletion to commit, and unarchives what was
    deleted: the row is deleted and not archived, and a restore brings it back live. *)
Definition succeeds (o : Outcome HandlerReply) : bool := match o with Ok (reply_returns 200 _) => true | _ => false end.

Theorem unarchive_races_deletion :
  let '(o, w') := withOrg (serveProject noExtension adaAuth noMeta param rq_unarchive) deletionMeanwhile in
  succeeds o = true /\
  map (fun p => (isNotNull (proj_deletedAt p), proj_archivedAt p)) (db_projects (w_db w')) = [(true, None)] /\
  let '(o', w2) := withOrg (serveProject noExtension adaAuth noMeta param rq_restore) ((worldOf (w_db w')) <| w_tick := 200 |>) in
  succeeds o' = true /\ phaseIn (w_db w2) payments = Some ph_live.
Proof. vm_compute. repeat split. Qed.
