(* ===== verification/MachineKeys.v ===== *)
(** * Machine users and their API keys: modules/machine-users

    tokens.ts, key-validity.ts, admin-provisioned.ts, rotation.ts, routes.ts,
    lib/pagination.ts and the jobs of workers/machine-key-overlap-revoke.ts.  A
    handler is a computation that gives the reply, as in [Projects]; the schemas
    of bodies and queries have been applied, and [None] is what they refuse.

    Row-level security shows a transaction the keys and the users of its
    organisation ([keyIn], [userIn]).  A [FOR UPDATE] and an UPDATE of a row
    wait for the transaction that holds the row: [otherCommits] stands before
    them. *)

From S2P Require Import Prelude Js Crypto FieldSet AuthStore Store Tx QuotaGate AuditLog Notifications Credentials Sessions Shares JsMap RateLimit Server CapabilityGate AuditPayload SecureRoute Projects.
From Stdlib Require Import Ascii String.
From stdpp Require Import strings pretty.

Local Open Scope string_scope.
Local Open Scope list_scope.
Local Open Scope pv_scope.

(** ** Which keys are usable: key-validity.ts *)

Record MachineKeyValidityFields := MkMachineKeyValidityFields {
  kv_revokedAt : option Date;
  kv_expiresAt : option Date;
  kv_machineUserDeactivatedAt : option Date;
}.

Definition isMachineKeyLive (row : MachineKeyValidityFields) (now : Date) : bool :=
  if isNotNull (kv_revokedAt row) then false
  else if isNotNull (kv_machineUserDeactivatedAt row) then false
  else match kv_expiresAt row with Some e => negb (e <=? now) | None => true end.

Definition validityOf (k : ApiKeyRow) (m : MachineUserRow) : MachineKeyValidityFields :=
  MkMachineKeyValidityFields (ak_revokedAt k) (ak_expiresAt k) (mu_deactivatedAt m).

(** ** admin-provisioned.ts *)

Definition isAdminProvisioned (m : MachineUserRow) : bool := negb (mu_hostManaged m).

(** A row with its project. *)
Definition ownProject (m : MachineUserRow) : option (MachineUserRow * Uuid) := (fun p => (m, p)) <$> mu_projectId m.
Fixpoint withProjectIds (rows : list MachineUserRow) : list (MachineUserRow * Uuid) :=
  match rows with
  | [] => []
  | m :: rows' => match ownProject m with Some r => r :: withProjectIds rows' | None => withProjectIds rows' end
  end.

(** ** Row-level security *)

Definition keyIn (orgId : Uuid) (p : ApiKeyRow -> bool) (k : ApiKeyRow) : bool := (ak_orgId k =? orgId) && p k.
Definition userIn (orgId : Uuid) (p : MachineUserRow -> bool) (m : MachineUserRow) : bool := (mu_orgId m =? orgId) && p m.

(** The key [:keyId] of the user [:machineUserId]. *)
Definition keyOfUser (machineUserId keyId : Uuid) (k : ApiKeyRow) : bool :=
  (ak_id k =? keyId) && (ak_machineUserId k =? machineUserId).

(** ** Errors *)

Definition MACHINE_USER_NOT_FOUND : HandlerReply :=
  reply_sends 404 (errorBody "machine_user_not_found" "Machine user not found").
Definition API_KEY_NOT_FOUND : HandlerReply := reply_sends 404 (errorBody "api_key_not_found" "API key not found").
Definition API_KEY_ALREADY_REVOKED : HandlerReply :=
  conflict "api_key_already_revoked" "This key has already been revoked".
Definition API_KEY_ALREADY_ROTATED : HandlerReply :=
  conflict "api_key_already_rotated" "This key has already been rotated".
Definition MACHINE_USER_DEACTIVATED : HandlerReply := conflict "machine_user_deactivated" "Machine user is deactivated".

(** ** lib/pagination.ts *)

Record PaginationParams := MkPaginationParams { pg_page : Z; pg_limit : Z }.

(** On integers. *)
Definition parsePagination (rawPage rawLimit : Z) : PaginationParams :=
  MkPaginationParams (if 1 <=? rawPage then rawPage else 1) (if 1 <=? rawLimit then Z.min rawLimit 100 else 20).
Definition paginationOffset (p : PaginationParams) : Z := ((pg_page p - 1) * pg_limit p)%Z.
Definition resolvePaginationOffset (rawPage rawLimit maxOffset : Z) : option (PaginationParams * Z) :=
  let pagination := parsePagination rawPage rawLimit in
  let offset := paginationOffset pagination in
  if maxOffset <? offset then None else Some (pagination, offset).
Definition buildPaginationMeta (p : PaginationParams) (total : Z) : list (string * Json) :=
  [("page", JInt (pg_page p)); ("limit", JInt (pg_limit p)); ("total", JInt total);
   ("hasNext", JBool (pg_page p * pg_limit p <? total))].
Definition PAGE_OUT_OF_RANGE_ERROR : HandlerReply :=
  reply_sends 422 (errorBody "page_out_of_range" "Page is too deep; narrow your filters").
Definition MAX_MACHINE_USER_LIST_OFFSET : Z := 10000.

Definition parseListQuery (query : option (Z * Z)) : HandlerReply + PaginationParams * Z :=
  match query with
  | None => inl VALIDATION_ERROR
  | Some (page, limit) =>
      match resolvePaginationOffset page limit MAX_MACHINE_USER_LIST_OFFSET with
      | None => inl PAGE_OUT_OF_RANGE_ERROR
      | Some resolved => inr resolved
      end
  end.

(** [LIMIT limit OFFSET offset] *)
Definition pageOf {A} (limit offset : Z) (rows : list A) : list A := take (Z.to_nat limit) (drop (Z.to_nat offset) rows).

(** ** Bodies: schema.ts *)

Record CreateMachineUserBody := MkCreateMachineUserBody {
  cmb_name : string;
  cmb_role : MachineUserRole;
  cmb_description : option string;
}.

(** The text of the instant, and the instant. *)
Record IssueApiKeyBody := MkIssueApiKeyBody { ikb_name : string; ikb_expiresAt : option (string * Date) }.

Definition machineRoleName (r : MachineUserRole) : string :=
  match r with machine_member => "member" | machine_viewer => "viewer" end.

(** ** What is sent of a row *)

Definition machineUserSummaryFields (m : MachineUserRow) (projectId : Uuid) : list (string * Json) :=
  [("id", JUuid (mu_id m)); ("projectId", JUuid projectId); ("name", JStr (mu_name m));
   ("description", JOptStr (mu_description m)); ("role", JStr (machineRoleName (mu_role m)));
   ("createdBy", JOptUuid (mu_createdBy m)); ("createdAt", JDate (mu_createdAt m));
   ("deactivatedAt", JOptDate (mu_deactivatedAt m))].

Definition toApiKeyIssued (row : ApiKeyRow) (plaintext : string) : Json :=
  JObj [("id", JUuid (ak_id row)); ("machineUserId", JUuid (ak_machineUserId row)); ("name", JStr (ak_name row));
        ("key", JStr plaintext); ("expiresAt", JOptDate (ak_expiresAt row)); ("createdAt", JDate (ak_createdAt row))].

Definition toApiKeyMetadata (row : ApiKeyRow) : Json :=
  JObj [("id", JUuid (ak_id row)); ("name", JStr (ak_name row)); ("expiresAt", JOptDate (ak_expiresAt row));
        ("lastUsedAt", JOptDate (ak_lastUsedAt row)); ("createdAt", JDate (ak_createdAt row));
        ("isRevoked", JBool (isNotNull (ak_revokedAt row)))].

Section machine.
Context `{Locale, Platform, NodeCrypto, Env}.

(** ** tokens.ts *)

Definition API_KEY_PREFIX : string := "pk_".

Definition generateApiKey : M string := opaque ← generateOpaque; mret (API_KEY_PREFIX +:+ opaque).

Definition hashApiKey (plaintext : string) : string := hmacSha256Hex API_KEY_HMAC_SECRET plaintext.

(** [/^[0-9a-f]{64}$/i] *)
Definition isHexDigest (s : string) : bool :=
  allChars (fun c => isNotNull (hexValue c)) s && (String.length s =? 64%nat).

Definition apiKeysMatch (storedHash plaintext : string) : bool :=
  let computed := hashApiKey plaintext in
  if negb (isHexDigest storedHash) then false
  else if negb (String.length storedHash =? String.length computed) then false
  else constantTimeHexEqual storedHash computed.

(** ** rotation.ts *)

(** [SELECT ... FOR UPDATE LIMIT 1] *)
Definition lockApiKeyForUpdate (orgId machineUserId keyId : Uuid) : M (option ApiKeyRow) :=
  _ ← otherCommits;
  selectFirst db_apiKeys (keyIn orgId (keyOfUser machineUserId keyId)).

(** The columns of an INSERT that are not defaults. *)
Definition newApiKeyRow (orgId machineUserId : Uuid) (name keyHash : string) (expiresAt : option Date)
    (rotatedFromKeyId : option Uuid) (id : Uuid) (now : Date) : ApiKeyRow :=
  {| ak_id := id; ak_orgId := orgId; ak_machineUserId := machineUserId; ak_name := name; ak_keyHash := keyHash;
     ak_hmacKeyVersion := 1; ak_expiresAt := expiresAt; ak_lastUsedAt := None; ak_createdAt := now;
     ak_revokedAt := None; ak_overlapExpiresAt := None; ak_rotatedFromKeyId := rotatedFromKeyId;
     ak_dormancySnoozedUntil := None; ak_overlapAlertSent := false |}.

Definition insertApiKey (orgId machineUserId : Uuid) (name keyHash : string) (expiresAt : option Date)
    (rotatedFromKeyId : option Uuid) : M ApiKeyRow :=
  id ← genRandomUuid;
  now ← dbNow;
  insertRow db_apiKeys apiKeyConflict (newApiKeyRow orgId machineUserId name keyHash expiresAt rotatedFromKeyId id now).

Definition issueSuccessorKey (orgId machineUserId oldKeyId : Uuid) (name keyHash : string) : M Uuid :=
  newKey ← insertApiKey orgId machineUserId name keyHash None (Some oldKeyId);
  mret (ak_id newKey).

(** [UPDATE api_keys SET f WHERE id = $1], on a row this transaction holds *)
Definition updateHeldKey (orgId keyId : Uuid) (f : ApiKeyRow -> ApiKeyRow) : M (list ApiKeyRow) :=
  updateWhere db_apiKeys (keyIn orgId (fun k => ak_id k =? keyId)) f.

Record RotateApiKeyResult := MkRotateApiKeyResult {
  rkr_newKeyId : Uuid;
  rkr_plaintext : string;
  rkr_overlapExpiresAt : Date;
}.
Record EmergencyRevokeResult := MkEmergencyRevokeResult { err_newKeyId : Uuid; err_plaintext : string }.

Definition rotateApiKey (orgId machineUserId : Uuid) (oldKey : ApiKeyRow) (overlapMinutes : Z) : M RotateApiKeyResult :=
  plaintext ← generateApiKey;
  now ← newDate;
  let overlapExpiresAt := (now + overlapMinutes * 60000)%Z in
  newKeyId ← issueSuccessorKey orgId machineUserId (ak_id oldKey) (ak_name oldKey) (hashApiKey plaintext);
  _ ← updateHeldKey orgId (ak_id oldKey) (fun k => k <| ak_overlapExpiresAt := Some overlapExpiresAt |>);
  mret (MkRotateApiKeyResult newKeyId plaintext overlapExpiresAt).

Definition emergencyRevokeApiKey (orgId machineUserId : Uuid) (oldKey : ApiKeyRow) : M EmergencyRevokeResult :=
  plaintext ← generateApiKey;
  now ← newDate;
  _ ← updateHeldKey orgId (ak_id oldKey) (fun k => k <| ak_revokedAt := Some now |>);
  newKeyId ← issueSuccessorKey orgId machineUserId (ak_id oldKey) (ak_name oldKey) (hashApiKey plaintext);
  mret (MkEmergencyRevokeResult newKeyId plaintext).

Definition anomalyPayload (oldKeyId newKeyId machineUserId : Uuid) (usedAt : Date) : Json :=
  JObj [("oldKeyId", JUuid oldKeyId); ("newKeyId", JUuid newKeyId); ("machineUserId", JUuid machineUserId);
        ("usedAt", JDate usedAt)].

Definition checkRotationAnomaly (orgId oldKeyId machineUserId : Uuid) (usedAt : Date) : M unit :=
  withOrg (
    supersededBy ← selectFirst db_apiKeys (keyIn orgId (fun k =>
                     (ak_rotatedFromKeyId k =? Some oldKeyId) && isNotNull (ak_lastUsedAt k)));
    match supersededBy with
    | None => mret tt
    | Some newKey =>
        _ ← createOrgAdminNotificationEntries orgId
              (MkNotificationTemplate "security.anomalous_access"
                 (anomalyPayload oldKeyId (ak_id newKey) machineUserId usedAt) (Some warning)) None;
        _ ← writeMachineAuditEntry
              {| af_orgId := orgId; af_actorTokenId := None; af_eventType := "machine_user.rotation_anomaly_detected";
                 af_resourceId := Some oldKeyId; af_resourceType := Some "api_key";
                 af_payload := [("oldKeyId", JUuid oldKeyId); ("newKeyId", JUuid (ak_id newKey))];
                 af_unsigned := noUnsigned |} (uuidText machineUserId) (Some (uuidText oldKeyId));
        mret tt
    end).

(** ** routes.ts *)

(** The refusal, or the locked key. *)
Definition lockAndRejectIfRevoked (orgId machineUserId keyId : Uuid) : M (HandlerReply + ApiKeyRow) :=
  oldKey ← lockApiKeyForUpdate orgId machineUserId keyId;
  mret (match oldKey with
        | None => inl API_KEY_NOT_FOUND
        | Some k => if isNotNull (ak_revokedAt k) then inl API_KEY_ALREADY_REVOKED
                    else if isNotNull (ak_overlapExpiresAt k) then inl API_KEY_ALREADY_ROTATED
                    else inr k
        end).

Definition projectNameById (projectId : Uuid) : M string :=
  row ← selectFirst db_projects (fun p => proj_id p =? projectId);
  mret (match row with Some p => proj_name p | None => uuidText projectId end).

Definition scopeBoundaryFor (m : MachineUserRow) (projectId : Uuid) : M Json :=
  projectName ← projectNameById projectId;
  mret (JObj [("canAccess", JArr [JStr ("credentials in project " +:+ String "034" projectName +:+ String "034"
                                          (" (" +:+ mu_name m +:+ "'s assigned project)"))]);
              ("cannotAccess", JArr [JStr "other projects"; JStr "org settings"; JStr "audit logs"])]).

Definition toMachineUserDetail (m : MachineUserRow) (projectId : Uuid) : M Json :=
  scopeBoundary ← scopeBoundaryFor m projectId;
  mret (JObj (machineUserSummaryFields m projectId ++ [("scopeBoundary", scopeBoundary)])).

(** The project of the user is not deleted. *)
Definition inOpenProject (projects : list ProjectRow) (m : MachineUserRow) : bool :=
  existsb (fun p => isNull (proj_deletedAt p) && (mu_projectId m =? Some (proj_id p))) projects.

Definition findMachineUserById (orgId machineUserId : Uuid) : M (option (MachineUserRow * Uuid)) :=
  rows ← query (fun db => List.filter (userIn orgId (fun m =>
           (mu_id m =? machineUserId) && isAdminProvisioned m && inOpenProject (db_projects db) m)) (db_machineUsers db));
  mret (head (withProjectIds (take 1 rows))).

(** credentials/service.ts *)
Definition findProjectInOrg (projectId : Uuid) : M bool :=
  row ← selectFirst db_projects (fun p => (proj_id p =? projectId) && isNull (proj_archivedAt p));
  mret (isNotNull row).

(** POST /projects/:projectId/machine-users *)
Definition createMachineUser (auth : RouteAuth) (projectId : Uuid) (parsed : option CreateMachineUserBody)
    (meta : RequestMeta) : M HandlerReply :=
  match parsed with
  | None => mret VALIDATION_ERROR
  | Some body =>
      projectExists ← findProjectInOrg projectId;
      if negb projectExists then mret PROJECT_NOT_FOUND
      else
        id ← genRandomUuid;
        now ← dbNow;
        newMachineUser ← insertRow db_machineUsers machineUserConflict
          {| mu_id := id; mu_orgId := ra_orgId auth; mu_projectId := Some projectId; mu_name := cmb_name body;
             mu_description := cmb_description body; mu_role := cmb_role body; mu_createdBy := Some (ra_userId auth);
             mu_createdAt := now; mu_deactivatedAt := None; mu_hostManaged := false |};
        _ ← writeProjectAudit auth "machine_user.created" "machine_user" (mu_id newMachineUser) None
              [("name", JStr (cmb_name body)); ("role", JStr (machineRoleName (cmb_role body)));
               ("description", JOptStr (cmb_description body))] meta;
        detail ← toMachineUserDetail newMachineUser projectId;
        mret (reply_returns 201 (dataBody detail))
  end.

(** GET /projects/:projectId/machine-users/active-keys *)
Definition getActiveKeys (projectId : Uuid) : M HandlerReply :=
  projectExists ← findProjectInOrg projectId;
  if negb projectExists then mret PROJECT_NOT_FOUND
  else
    items ← activeMachineUserKeysQuery projectId;
    mret (reply_returns 200 (dataBody (JObj
      [("items", JArr (map (fun k => JObj [("machineUserId", JUuid (ak_machineUserId k)); ("keyId", JUuid (ak_id k))]) items));
       ("total", JInt (Z.of_nat (length items)))]))).

(** GET /projects/:projectId/machine-users *)
Definition listMachineUsers (auth : RouteAuth) (projectId : Uuid) (query : option (Z * Z)) : M HandlerReply :=
  match parseListQuery query with
  | inl refused => mret refused
  | inr (pagination, offset) =>
      projectExists ← findProjectInOrg projectId;
      if negb projectExists then mret PROJECT_NOT_FOUND
      else
        let ofProject := userIn (ra_orgId auth) (fun m => mu_projectId m =? Some projectId) in
        all ← selectWhere db_machineUsers ofProject;
        rows ← selectOrdered db_machineUsers ofProject (fun a b => mu_createdAt a <=? mu_createdAt b);
        mret (reply_returns 200 (dataBody (JObj
          ([("items", JArr (map (fun '(m, p) => JObj (machineUserSummaryFields m p))
                              (withProjectIds (pageOf (pg_limit pagination) offset rows))))]
           ++ buildPaginationMeta pagination (Z.of_nat (length all))))))
  end.

(** GET /machine-users/:machineUserId *)
Definition getMachineUser (auth : RouteAuth) (machineUserId : Uuid) : M HandlerReply :=
  row ← findMachineUserById (ra_orgId auth) machineUserId;
  match row with
  | None => mret MACHINE_USER_NOT_FOUND
  | Some (m, projectId) => detail ← toMachineUserDetail m projectId; mret (reply_returns 200 (dataBody detail))
  end.

Definition stamped (idName : string) (i : Uuid) (stamp : string) (at_ : Date) : HandlerReply :=
  reply_returns 200 (dataBody (JObj [(idName, JUuid i); (stamp, JDate at_)])).

(** POST /machine-users/:machineUserId/deactivate *)
Definition deactivateMachineUser (auth : RouteAuth) (machineUserId : Uuid) (meta : RequestMeta) : M HandlerReply :=
  deactivatedAt ← newDate;
  _ ← otherCommits;
  claimed ← updateWhere db_machineUsers
    (userIn (ra_orgId auth) (fun m => (mu_id m =? machineUserId) && isNull (mu_deactivatedAt m) && isAdminProvisioned m))
    (fun m => m <| mu_deactivatedAt := Some deactivatedAt |>);
  match head claimed with
  | Some m =>
      _ ← writeProjectAudit auth "machine_user.deactivated" "machine_user" (mu_id m) None [] meta;
      mret (stamped "id" (mu_id m) "deactivatedAt" (default deactivatedAt (mu_deactivatedAt m)))
  | None =>
      existing ← findMachineUserById (ra_orgId auth) machineUserId;
      match existing with
      | None => mret MACHINE_USER_NOT_FOUND
      | Some (m, _) => mret (stamped "id" (mu_id m) "deactivatedAt" (default deactivatedAt (mu_deactivatedAt m)))
      end
  end.

(** [superRefine]: an instant that is not in the future is refused. *)
Definition parseIssueBody (parsed : option IssueApiKeyBody) : M (option IssueApiKeyBody) :=
  match parsed with
  | None => mret None
  | Some body =>
      match ikb_expiresAt body with
      | None => mret (Some body)
      | Some (_, expiresAt) => now ← newDate; mret (if expiresAt <=? now then None else Some body)
      end
  end.

(** POST /machine-users/:machineUserId/api-keys *)
Definition issueApiKey (auth : RouteAuth) (machineUserId : Uuid) (parsed : option IssueApiKeyBody) (meta : RequestMeta)
    : M HandlerReply :=
  parsed ← parseIssueBody parsed;
  match parsed with
  | None => mret VALIDATION_ERROR
  | Some body =>
      machineUser ← findMachineUserById (ra_orgId auth) machineUserId;
      match machineUser with
      | None => mret MACHINE_USER_NOT_FOUND
      | Some (m, _) =>
          if isNotNull (mu_deactivatedAt m) then mret MACHINE_USER_DEACTIVATED
          else
            plaintextKey ← generateApiKey;
            newKey ← insertApiKey (ra_orgId auth) machineUserId (ikb_name body) (hashApiKey plaintextKey)
                       (snd <$> ikb_expiresAt body) None;
            _ ← writeProjectAudit auth "machine_user.api_key_issued" "api_key" (ak_id newKey) None
                  [("name", JStr (ikb_name body)); ("expiresAt", JOptStr (fst <$> ikb_expiresAt body))] meta;
            mret (reply_returns 201 (dataBody (toApiKeyIssued newKey plaintextKey)))
      end
  end.

(** GET /machine-users/:machineUserId/api-keys *)
Definition listApiKeys (auth : RouteAuth) (machineUserId : Uuid) (query : option (Z * Z)) : M HandlerReply :=
  match parseListQuery query with
  | inl refused => mret refused
  | inr (pagination, offset) =>
      machineUser ← findMachineUserById (ra_orgId auth) machineUserId;
      match machineUser with
      | None => mret MACHINE_USER_NOT_FOUND
      | Some _ =>
          let ofUser := keyIn (ra_orgId auth) (fun k => ak_machineUserId k =? machineUserId) in
          all ← selectWhere db_apiKeys ofUser;
          rows ← selectOrdered db_apiKeys ofUser (fun a b => ak_createdAt a <=? ak_createdAt b);
          mret (reply_returns 200 (dataBody (JObj
            ([("items", JArr (map toApiKeyMetadata (pageOf (pg_limit pagination) offset rows)))]
             ++ buildPaginationMeta pagination (Z.of_nat (length all))))))
      end
  end.

(** DELETE /machine-users/:machineUserId/api-keys/:keyId *)
Definition revokeApiKey (auth : RouteAuth) (machineUserId keyId : Uuid) (meta : RequestMeta) : M HandlerReply :=
  revokedAt ← newDate;
  _ ← otherCommits;
  claimed ← updateWhere db_apiKeys
    (keyIn (ra_orgId auth) (fun k => keyOfUser machineUserId keyId k && isNull (ak_revokedAt k)))
    (fun k => k <| ak_revokedAt := Some revokedAt |>);
  match head claimed with
  | Some k =>
      _ ← writeProjectAudit auth "machine_user.api_key_revoked" "api_key" (ak_id k) None [] meta;
      mret (stamped "id" (ak_id k) "revokedAt" (default revokedAt (ak_revokedAt k)))
  | None =>
      existing ← selectFirst db_apiKeys (keyIn (ra_orgId auth) (keyOfUser machineUserId keyId));
      match existing with
      | None => mret API_KEY_NOT_FOUND
      | Some k => mret (stamped "id" (ak_id k) "revokedAt" (default revokedAt (ak_revokedAt k)))
      end
  end.

(** POST /machine-users/:machineUserId/api-keys/:keyId/rotate *)
Definition rotateKeyRoute (auth : RouteAuth) (machineUserId keyId : Uuid) (overlapMinutes : option Z) (meta : RequestMeta)
    : M HandlerReply :=
  match overlapMinutes with
  | None => mret VALIDATION_ERROR
  | Some overlapMinutes =>
      oldKey ← lockAndRejectIfRevoked (ra_orgId auth) machineUserId keyId;
      match oldKey with
      | inl refused => mret refused
      | inr oldKey =>
          result ← rotateApiKey (ra_orgId auth) machineUserId oldKey overlapMinutes;
          _ ← writeProjectAudit auth "machine_user.api_key_rotated" "api_key" (rkr_newKeyId result) None
                [("oldKeyId", JUuid (ak_id oldKey)); ("newKeyId", JUuid (rkr_newKeyId result));
                 ("overlapMinutes", JInt overlapMinutes)] meta;
          mret (reply_returns 201 (dataBody (JObj
            [("newKeyId", JUuid (rkr_newKeyId result)); ("key", JStr (rkr_plaintext result));
             ("oldKeyId", JUuid (ak_id oldKey)); ("overlapExpiresAt", JDate (rkr_overlapExpiresAt result))])))
      end
  end.

(** POST /machine-users/:machineUserId/api-keys/:keyId/emergency-revoke *)
Definition emergencyRevokeRoute (auth : RouteAuth) (machineUserId keyId : Uuid) (meta : RequestMeta) : M HandlerReply :=
  oldKey ← lockAndRejectIfRevoked (ra_orgId auth) machineUserId keyId;
  match oldKey with
  | inl refused => mret refused
  | inr oldKey =>
      result ← emergencyRevokeApiKey (ra_orgId auth) machineUserId oldKey;
      _ ← writeProjectAudit auth "machine_user.api_key_emergency_revoked" "api_key" (err_newKeyId result) None
            [("revokedKeyId", JUuid (ak_id oldKey)); ("newKeyId", JUuid (err_newKeyId result))] meta;
      mret (reply_returns 200 (dataBody (JObj
        [("revokedKeyId", JUuid (ak_id oldKey)); ("newKey", JStr (err_plaintext result));
         ("newKeyId", JUuid (err_newKeyId result))])))
  end.

(** POST /machine-users/:machineUserId/api-keys/:keyId/extend-dormancy *)
Definition extendDormancy (auth : RouteAuth) (machineUserId keyId : Uuid) (days : option Z) (meta : RequestMeta)
    : M HandlerReply :=
  match days with
  | None => mret VALIDATION_ERROR
  | Some days =>
      now ← newDate;
      let dormancySnoozedUntil := (now + days * 86400000)%Z in
      _ ← otherCommits;
      updated ← updateWhere db_apiKeys (keyIn (ra_orgId auth) (keyOfUser machineUserId keyId))
                  (fun k => k <| ak_dormancySnoozedUntil := Some dormancySnoozedUntil |>);
      match head updated with
      | None => mret API_KEY_NOT_FOUND
      | Some k =>
          _ ← writeProjectAudit auth "machine_user.dormancy_extended" "api_key" (ak_id k) None
                [("keyId", JUuid (ak_id k)); ("days", JInt days); ("newSnoozeUntil", JDate dormancySnoozedUntil)] meta;
          mret (stamped "keyId" (ak_id k) "dormancySnoozedUntil" dormancySnoozedUntil)
      end
  end.

(** ** workers/machine-key-overlap-revoke.ts *)

Definition ONE_HOUR_MS : Z := 3600000.

Definition overlapEnded (now : Date) (k : ApiKeyRow) : bool :=
  match ak_overlapExpiresAt k with Some t => t <=? now | None => false end.

Definition overlapDue (now : Date) (k : ApiKeyRow) : bool := overlapEnded now k && isNull (ak_revokedAt k).

Definition revokeOverlapped (orgId keyId : Uuid) (now : Date) : M unit :=
  withOrg (
    _ ← otherCommits;
    claimed ← updateWhere db_apiKeys (keyIn orgId (fun k => (ak_id k =? keyId) && isNull (ak_revokedAt k)))
                (fun k => k <| ak_revokedAt := Some now |>);
    match head claimed with
    | None => mret tt
    | Some _ =>
        writeSystemAuditEntryOrFailClosed orgId "machine_user.api_key_revoked" (Some keyId) (Some "api_key")
          [("reason", JStr "overlap_window_expired"); ("oldKeyId", JUuid keyId)]
    end).

(** The work on one organisation; a failure is logged and the next row or organisation goes on. *)
Definition revokeOverlapsForOrg (now : Date) (orgId : Uuid) : M unit :=
  catch (
    rows ← withOrg (selectWhere db_apiKeys (keyIn orgId (overlapDue now)));
    forEachSequential rows (fun row => catch (revokeOverlapped orgId (ak_id row) now) (fun _ => mret tt)))
  (fun _ => mret tt).

(** [orgIds]: what [fetchAllOrgIds] gives. *)
Definition runMachineKeyOverlapRevokeJob (orgIds : list Uuid) : M unit :=
  now ← newDate;
  forEachSequential orgIds (revokeOverlapsForOrg now).

Definition overlapAlertDue (now : Date) (k : ApiKeyRow) : bool :=
  match ak_overlapExpiresAt k with Some t => (t <=? now + ONE_HOUR_MS) && (now <? t) | None => false end
  && isNull (ak_revokedAt k) && negb (ak_overlapAlertSent k).

Definition alertOverlap (orgId : Uuid) (k : ApiKeyRow) (m : MachineUserRow) : M (list NotificationQueueJob) :=
  withOrg (
    _ ← otherCommits;
    claimed ← updateWhere db_apiKeys (keyIn orgId (fun x => (ak_id x =? ak_id k) && negb (ak_overlapAlertSent x)))
                (fun x => x <| ak_overlapAlertSent := true |>);
    match head claimed with
    | None => mret []
    | Some _ =>
        createOrgAdminNotificationEntries orgId
          (MkNotificationTemplate "machine_key.expiry"
             (JObj [("keyId", JUuid (ak_id k)); ("keyName", JStr (ak_name k)); ("machineUserName", JStr (mu_name m));
                    ("projectId", JOptUuid (mu_projectId m)); ("reason", JStr "rotation_overlap_ending");
                    ("overlapExpiresAt", JOptDate (ak_overlapExpiresAt k))]) (Some warning)) None
    end).

Definition alertOverlapsForOrg (now : Date) (orgId : Uuid) : M (list NotificationQueueJob) :=
  catch (
    rows ← withOrg (selectJoined db_apiKeys db_machineUsers (fun k m =>
             keyIn orgId (overlapAlertDue now) k && userIn orgId (fun m => mu_id m =? ak_machineUserId k) m));
    jobs ← forEachCollect rows (fun '(k, m) => catch (alertOverlap orgId k m) (fun _ => mret []));
    mret (concat jobs))
  (fun _ => mret []).

(** The jobs to send to the queue. *)
Definition runMachineKeyOverlapAlertJob (orgIds : list Uuid) : M (list NotificationQueueJob) :=
  now ← newDate;
  jobs ← forEachCollect orgIds (alertOverlapsForOrg now);
  mret (concat jobs).
End machine.
