(* ===== verification/MachineAuth.v ===== *)
(** * Requests of machines: modules/machine-users

    The exchange of an API key for a token (token-exchange-routes.ts,
    token-exchange-lookup.ts, token-exchange-rate-limit.ts), the check of a
    token (machine-auth.ts), and the two routes behind it
    (machine-credential-routes.ts with machine-credential-schema.ts and
    client-invocation-context.ts, cache-activated-routes.ts), as handlers of
    [SecureRoute].  The library that signs and verifies the tokens of
    plugins/machine-jwt.ts is a parameter, as is the category of a character in
    the Unicode tables. *)

From S2P Require Import Prelude Js Crypto FieldSet AuthStore Store Tx QuotaGate AuditLog Notifications Credentials Text Sessions Shares Authenticate Mfa Login JsMap RateLimit Server CapabilityGate AuditPayload SecureRoute Projects MachineKeys.
From Stdlib Require Import Ascii String.
From stdpp Require Import strings pretty.

Local Open Scope string_scope.
Local Open Scope list_scope.
Local Open Scope pv_scope.

(** fast-jwt with the secret of the server: [createSigner({ expiresIn })] at a time, and
    [createVerifier], [None] when it throws. *)
Class MachineJwtLibrary := {
  fastJwtSign : Date -> Z -> Payload -> string;
  fastJwtVerify : Date -> string -> option Payload;
}.

(** [/\p{Cf}/u] *)
Class UnicodeCategories := isFormatCharacter : N -> bool.

(** ** [decodeURIComponent] *)

(** [%XX] at the head of a text. *)
Definition percentByte (s : string) : option (N * string) :=
  match s with
  | String p (String a (String b s')) =>
      if p =? "%"%char then x ← hexValue a; y ← hexValue b; Some (x * 16 + y, s')%N else None
  | _ => None
  end.

(** The rest of a sequence: the bits of [n] more octets. *)
Fixpoint continuation (n : nat) (codePoint : N) (s : string) : option (N * string) :=
  match n with
  | O => Some (codePoint, s)
  | S n' =>
      '(b, s') ← percentByte s;
      if (128 <=? b)%N && (b <? 192)%N then continuation n' (codePoint * 64 + (b - 128))%N s' else None
  end.

(** The octets after the first, its bits, and the least code point the length is for. *)
Definition leadByte (b : N) : option (nat * N * N) :=
  if (b <? 128)%N then Some (0%nat, b, 0%N)
  else if (b <? 192)%N then None
  else if (b <? 224)%N then Some (1%nat, (b - 192)%N, 128%N)
  else if (b <? 240)%N then Some (2%nat, (b - 224)%N, 2048%N)
  else if (b <? 248)%N then Some (3%nat, (b - 240)%N, 65536%N)
  else None.

Definition isScalarValue (c : N) : bool := (c <? 55296)%N || ((57344 <=? c)%N && (c <? 1114112)%N).

(** The code point at the head of an escaped text. *)
Definition escapedCodePoint (s : string) : option (N * string) :=
  '(b, s1) ← percentByte s;
  '(n, bits, least) ← leadByte b;
  '(c, s2) ← continuation n bits s1;
  if (least <=? c)%N && isScalarValue c then Some (c, s2) else None.

(** Every step takes a character: the length is fuel enough.  [None]: a URIError. *)
Fixpoint decodeFrom (fuel : nat) (s : string) : option string :=
  match fuel, s with
  | _, EmptyString => Some EmptyString
  | O, _ => None
  | S fuel', String c s' =>
      if c =? "%"%char then
        '(codePoint, rest) ← escapedCodePoint s;
        decoded ← decodeFrom fuel' rest;
        Some (utf8 codePoint +:+ decoded)
      else decoded ← decodeFrom fuel' s'; Some (String c decoded)
  end.
Definition decodeURIComponent (s : string) : option string := decodeFrom (String.length s) s.

(** ** client-invocation-context.ts, machine-credential-schema.ts *)

(** [ClientInvocationHeaderSchema] *)
Definition INVOCATIONS : list string := ["get"; "run"; "write-env"].

(** [/^[A-Za-z0-9%._+~-]{1,128}$/] *)
Definition isTargetCharacter (c : ascii) : bool :=
  isLetter c || isAsciiDigit c || (c ∈? ["%"; "."; "_"; "+"; "~"; "-"]%char).
Definition TARGET_COMMAND_ENCODED_PATTERN (s : string) : bool :=
  allChars isTargetCharacter s && bool_decide (1 <= String.length s <= 128)%nat.

(** The code points of a text; [pending]: the octets that the one at work still lacks. *)
Fixpoint codePointsFrom (pending : nat) (codePoint : N) (s : string) : list N :=
  match s with
  | EmptyString => []
  | String c s' =>
      let b := code c in
      match pending with
      | S O => (codePoint * 64 + (b - 128))%N :: codePointsFrom 0 0 s'
      | S pending' => codePointsFrom pending' (codePoint * 64 + (b - 128))%N s'
      | O => match leadByte b with
             | Some (S n, bits, _) => codePointsFrom (S n) bits s'
             | _ => b :: codePointsFrom 0 0 s'
             end
      end
  end.

Definition TAG_BLOCK_FIRST : N := 917504.
Definition TAG_BLOCK_LAST : N := 917631.

Definition isUnsafeCodePoint (c : N) : bool :=
  (c <? 32)%N || ((127 <=? c)%N && (c <=? 159)%N) || ((TAG_BLOCK_FIRST <=? c)%N && (c <=? TAG_BLOCK_LAST)%N).

(** What a header of the request holds: one text, or several. *)
Inductive HeaderValue := header_one (value : string) | header_many (values : list string).

Section context.
Context `{UnicodeCategories}.

(** [/[\p{Cf}\u2028\u2029]/u] *)
Definition FORMAT_OR_LINE_SEPARATOR (c : N) : bool := isFormatCharacter c || (c =? 8232%N) || (c =? 8233%N).

Definition containsUnsafeCharacter (value : string) : bool :=
  existsb (fun c => isUnsafeCodePoint c || FORMAT_OR_LINE_SEPARATOR c) (codePointsFrom 0 0 value).

(** [ClientTargetCommandHeaderSchema] *)
Definition parseTargetCommand (value : string) : option string :=
  if negb (TARGET_COMMAND_ENCODED_PATTERN value) then None
  else
    decoded ← decodeURIComponent value;
    if containsUnsafeCharacter decoded then None else Some decoded.

(** The members an accepted header adds, or the mark of a rejected one. *)
Definition contextMember (key : string) (parse : string -> option string) (header : option HeaderValue)
    (fields : list (string * Json)) : list (string * Json) :=
  match header with
  | None => fields
  | Some h =>
      match (match h with header_one v => parse v | header_many _ => None end) with
      | Some v => jsPut key (JStr v) fields
      | None => jsPut "clientInvocationContextRejected" (JBool true) fields
      end
  end.

Definition parseClientInvocationContext (invocation targetCommand : option HeaderValue) : list (string * Json) :=
  contextMember "clientTargetCommand" parseTargetCommand targetCommand
    (contextMember "clientInvocation" (fun v => if v ∈? INVOCATIONS then Some v else None) invocation []).
End context.

(** ** Requests *)

(** The parts of a request the routes read; parameters, query and body as their schemas give them. *)
Record MachineRequest := MkMachineRequest {
  mq_authorization : option string;
  mq_meta : RequestMeta;
  mq_params : option (string * string);            (* the project and the name, as the router decoded them *)
  mq_field : option (option string);
  mq_invocation : option HeaderValue;
  mq_targetCommand : option HeaderValue;
  mq_cacheBody : option (string * Z);              (* [activatedAt], [threshold] *)
}.

Record ApiKeyByHashRow := MkApiKeyByHashRow { abh_key : ApiKeyRow; abh_user : MachineUserRow; abh_projectId : Uuid }.

(** machine-auth.ts *)
Record LiveKeyState := MkLiveKeyState { lks_validity : MachineKeyValidityFields; lks_role : MachineUserRole }.
Record VerifiedMachineRequest := MkVerifiedMachineRequest {
  vmr_machineUserId : string;
  vmr_orgId : Uuid;
  vmr_projectId : string;
  vmr_keyId : string;
  vmr_role : MachineUserRole;
}.

Definition ACCESS_TOKEN_MISSING : Json := errorBody "access_token_missing" "Access token is missing".
Definition INVALID_API_KEY : Json := errorBody "invalid_api_key" "API key is invalid".
Definition KEY_HASH_RATE_LIMITED : Json := errorBody "rate_limit_exceeded" "Too many failed attempts for this API key".
Definition INVALID_MACHINE_TOKEN : Json := errorBody "invalid_machine_token" "Machine access token is invalid".
Definition CREDENTIAL_NOT_FOUND : Json := errorBody "credential_not_found" "Credential not found".
Definition INSUFFICIENT_ROLE : Json := errorBody "insufficient_role" "Insufficient permissions".
Definition AUDIT_WRITE_FAILED : Json := errorBody "audit_write_failed" "Audit logging is unavailable".

Definition KEY_HASH_FAILED_ATTEMPT_MAX : Z := 10.
Definition KEY_HASH_FAILED_ATTEMPT_WINDOW_MS : Z := 60000.
Definition OVERALL_MAX : Z := 300.
Definition FAILED_LOOKUP_MAX : Z := 20.
Definition CACHE_ACTIVATED_MAX : Z := 30.
Definition RATE_LIMIT_WINDOW_MS : Z := 60000.
Definition VALUE_ROUTE_KEY : string := "GET /api/v1/machine/projects/:projectId/credentials/:name/value".
Definition CACHE_ROUTE_KEY : string := "POST /api/v1/machine/cache-activated".

Section machineAuth.
Context `{Locale, Platform, NodeCrypto, Env, Unicode, ProcessEnv, Postgres, MachineJwtLibrary, UnicodeCategories, OtpAuth}.

Definition sends (status : Z) (body : Json) : H HandlerValue := _ ← sendStatus status body; mret returned_reply.

(** ** token-exchange-lookup.ts *)

(** By the connection of the administrator: every organisation. *)
Definition findApiKeyByHash (keyHash : string) : M (option ApiKeyByHashRow) :=
  rows ← selectJoined db_apiKeys db_machineUsers (fun k m => (mu_id m =? ak_machineUserId k) && (ak_keyHash k =? keyHash));
  mret ('(k, m) ← head rows; p ← mu_projectId m; Some (MkApiKeyByHashRow k m p)).

Definition isApiKeyValidForExchange (row : ApiKeyByHashRow) (now : Date) : bool :=
  isMachineKeyLive (validityOf (abh_key row) (abh_user row)) now.

Definition touchApiKeyLastUsed (keyId : Uuid) (now : Date) : M unit :=
  _ ← otherCommits;
  _ ← updateWhere db_apiKeys (fun k => ak_id k =? keyId) (fun k => k <| ak_lastUsedAt := Some now |>);
  mret tt.

(** ** token-exchange-rate-limit.ts *)

Definition isKeyHashRateLimited (keyHash : string) : H bool :=
  if negb isRateLimitEnforced then mret false
  else
    bucket ← gets (fun s => jsGet keyHash (pr_failedKeys (sv_process s)));
    match bucket with
    | None => mret false
    | Some b =>
        now ← db newDate;
        mret (if rw_resetAt b <=? now then false else KEY_HASH_FAILED_ATTEMPT_MAX <=? rw_count b)
    end.

Definition recordFailedKeyHashAttempt (keyHash : string) : H unit :=
  now ← db newDate;
  modifyProcess (fun p => p <| pr_failedKeys ::= fun m =>
    let bucket := match jsGet keyHash m with
                  | Some b => if rw_resetAt b <=? now then MkRateWindow 0 (now + KEY_HASH_FAILED_ATTEMPT_WINDOW_MS) else b
                  | None => MkRateWindow 0 (now + KEY_HASH_FAILED_ATTEMPT_WINDOW_MS)
                  end in
    jsPut keyHash (MkRateWindow (rw_count bucket + 1) (rw_resetAt bucket)) m |>).

(** ** plugins/machine-jwt.ts *)

Definition machineJwtSign (claims : Payload) : H string :=
  now ← db newDate; mret (fastJwtSign now (MACHINE_JWT_TTL_SECONDS * 1000) claims).

Definition machineJwtVerify (token : string) : H (option Payload) :=
  now ← db newDate; mret (fastJwtVerify now token).

(** ** token-exchange-routes.ts *)

(** The row of the key, when it is valid. *)
Definition exchangeableKey (token keyHash : string) : M (option ApiKeyByHashRow) :=
  row ← findApiKeyByHash keyHash;
  match row with
  | None => mret None
  | Some r =>
      if negb (apiKeysMatch (ak_keyHash (abh_key r)) token) then mret None
      else now ← newDate; mret (if isApiKeyValidForExchange r now then Some r else None)
  end.

Definition machineClaims (row : ApiKeyByHashRow) (jti : Uuid) : Payload :=
  [("sub", CStr (uuidText (ak_machineUserId (abh_key row)))); ("orgId", CStr (uuidText (ak_orgId (abh_key row))));
   ("scope", CStr (uuidText (abh_projectId row))); ("keyId", CStr (uuidText (ak_id (abh_key row))));
   ("jti", CStr (uuidText jti))].

Definition exchangeToken (authorization : option string) : H HandlerValue :=
  match extractBearerToken authorization with
  | None => sends 401 ACCESS_TOKEN_MISSING
  | Some token =>
      if negb (String.prefix API_KEY_PREFIX token) then sends 401 INVALID_API_KEY
      else
        let keyHash := hashApiKey token in
        limited ← isKeyHashRateLimited keyHash;
        if limited : bool then sends 429 KEY_HASH_RATE_LIMITED
        else
          row ← db (exchangeableKey token keyHash);
          match row with
          | None => _ ← recordFailedKeyHashAttempt keyHash; sends 401 INVALID_API_KEY
          | Some row =>
              now ← db newDate;
              _ ← db (touchApiKeyLastUsed (ak_id (abh_key row)) now);
              _ ← tryCatch (db (checkRotationAnomaly (ak_orgId (abh_key row)) (ak_id (abh_key row))
                                  (ak_machineUserId (abh_key row)) now)) (fun _ => mret tt);
              jti ← db genRandomUuid;
              accessToken ← machineJwtSign (machineClaims row jti);
              mret (returned_data (dataBody (JObj [("accessToken", JStr accessToken); ("tokenType", JStr "Bearer");
                                                   ("expiresIn", JInt MACHINE_JWT_TTL_SECONDS)])))
          end
  end.

(** ** machine-auth.ts *)

Record MachineClaims := MkMachineClaims { mc_sub : string; mc_orgId : string; mc_scope : string; mc_keyId : string }.

(** The claims, when they are well formed. *)
Definition hasWellFormedMachineClaims (claims : Payload) : option MachineClaims :=
  match strClaim "orgId" claims, strClaim "keyId" claims, strClaim "sub" claims, strClaim "scope" claims with
  | Some orgId, Some keyId, Some sub, Some scope =>
      if isUuid orgId then Some (MkMachineClaims sub orgId scope keyId) else None
  | _, _, _, _ => None
  end.

(** A text compared with a [uuid] column. *)
Definition uuidOrThrow (text : string) : M Uuid :=
  match parseUuid text with Some u => mret u | None => throw (JsError "invalid input syntax for type uuid") end.

(** The join of a key with its user, in the organisation. *)
Definition keyWithUser (orgId key : Uuid) (k : ApiKeyRow) (m : MachineUserRow) : bool :=
  keyIn orgId (fun k => ak_id k =? key) k && userIn orgId (fun m => mu_id m =? ak_machineUserId k) m.

Definition findLiveKeyState (orgId : Uuid) (keyId : string) : M (option LiveKeyState) :=
  withOrg (
    key ← uuidOrThrow keyId;
    rows ← selectJoined db_apiKeys db_machineUsers (keyWithUser orgId key);
    mret ((fun '(k, m) => MkLiveKeyState (validityOf k m) (mu_role m)) <$> head rows)).

(** [null] when the reply was sent. *)
Definition verifyMachineRequest (authorization : option string) : H (option VerifiedMachineRequest) :=
  let refuse body := _ ← sendStatus 401 body; mret None in
  match extractBearerToken authorization with
  | None => refuse ACCESS_TOKEN_MISSING
  | Some token =>
      verified ← machineJwtVerify token;
      match verified ≫= hasWellFormedMachineClaims with
      | None => refuse INVALID_MACHINE_TOKEN
      | Some claims =>
          orgId ← db (uuidOrThrow (mc_orgId claims));
          row ← db (findLiveKeyState orgId (mc_keyId claims));
          match row with
          | None => refuse INVALID_MACHINE_TOKEN
          | Some r =>
              now ← db newDate;
              if negb (isMachineKeyLive (lks_validity r) now) then refuse INVALID_MACHINE_TOKEN
              else mret (Some (MkVerifiedMachineRequest (mc_sub claims) orgId (mc_scope claims) (mc_keyId claims) (lks_role r)))
          end
      end
  end.

(** ** machine-credential-routes.ts *)

Definition limitFor (userId key : string) (max : Z) : H bool :=
  enforceUserRateLimit (MkUserRateLimitInput userId key max (Some RATE_LIMIT_WINDOW_MS) false).
Definition enforceOverallRateLimit (keyId : string) : H bool :=
  limitFor ("machine-key:" +:+ keyId) VALUE_ROUTE_KEY OVERALL_MAX.
Definition enforceFailedLookupRateLimit (keyId : string) : H bool :=
  limitFor ("machine-key-failed:" +:+ keyId) (VALUE_ROUTE_KEY +:+ ":failed") FAILED_LOOKUP_MAX.

Definition replyAsFailedLookup (keyId : string) (status : Z) (body : Json) : H HandlerValue :=
  ok ← enforceFailedLookupRateLimit keyId;
  if negb ok then mret returned_reply else sends status body.

(** credentials/service.ts: archived credentials too; row-level security shows those of the organisation *)
Definition credentialNamed (orgId projectId : Uuid) (name : string) (c : CredentialRow) : bool :=
  (cred_orgId c =? orgId) && ((cred_projectId c =? projectId) && (cred_name c =? name)).
Definition findCredentialByNameInProject (orgId projectId : Uuid) (name : string) : M (list CredentialRow) :=
  selectWhere db_credentials (credentialNamed orgId projectId name).

Definition writeMachineAuditEntryOrFailClosed (orgId : Uuid) (eventType resourceType : string) (resourceId : Uuid)
    (machineUserId keyId : string) (payload : list (string * Json)) (revealedFields : option (list string))
    (meta : RequestMeta) : M unit :=
  rethrowAsSameTransactionAuditWriteError (
    writeMachineAuditEntry
      {| af_orgId := orgId; af_actorTokenId := None; af_eventType := eventType; af_resourceId := Some resourceId;
         af_resourceType := Some resourceType; af_payload := payload;
         af_unsigned := MkUnsigned None (rm_ipAddress meta) (rm_userAgent meta) revealedFields |}
      machineUserId (Some keyId)).

(** [withOrg(orgId, fn)] around what also touches the process; [catch]: a failed audit write. *)
Definition withOrgReply (orgId : Uuid) (fn : H HandlerValue) : H HandlerValue :=
  tryCatch (requestTransaction (_ ← setRlsOrgContext orgId; fn))
    (fun e => match e with
              | SameTransactionAuditWriteError _ => sends 503 AUDIT_WRITE_FAILED
              | _ => raise e
              end).

Definition revealAudited (v : VerifiedMachineRequest) (request : MachineRequest) (credential : CredentialRow)
    (name : string) (versionNumber : Z) (revealedFields : option (list string)) (value : list (string * Json))
    : H HandlerValue :=
  _ ← db (writeMachineAuditEntryOrFailClosed (vmr_orgId v) "credential.value_revealed" "credential" (cred_id credential)
            (vmr_machineUserId v) (vmr_keyId v)
            ([("versionNumber", JInt versionNumber); ("name", JStr name)]
             ++ parseClientInvocationContext (mq_invocation request) (mq_targetCommand request))
            revealedFields (mq_meta request));
  mret (returned_data (dataBody (JObj ([("name", JStr name)] ++ value
          ++ [("versionNumber", JInt versionNumber); ("cacheable", JBool (cred_cacheable credential))])))).

Definition ambiguousBody (matchCount : nat) : Json :=
  JObj [("code", JStr "ambiguous_credential_name");
        ("message", JStr "Multiple credentials share this name in this project; machine-user retrieval requires unique names");
        ("matchCount", JInt (Z.of_nat matchCount))].

Definition revealForMachine (v : VerifiedMachineRequest) (request : MachineRequest) (projectId : Uuid) (name : string)
    (field : option string) : H HandlerValue :=
  let notFound := replyAsFailedLookup (vmr_keyId v) 404 CREDENTIAL_NOT_FOUND in
  matches ← db (findCredentialByNameInProject (vmr_orgId v) projectId name);
  match matches with
  | [] => notFound
  | [credential] =>
      result ← db (revealCurrentValue (cred_id credential) projectId field);
      match result with
      | CredentialNotFound | AllVersionsPurged => notFound
      | UnknownField key =>
          replyAsFailedLookup (vmr_keyId v) 400 (errorBody "unknown_field_key" ("Unknown field key: '" +:+ key +:+ "'"))
      | FoundFields fields _ versionNumber _ revealedFields =>
          revealAudited v request credential name versionNumber (Some revealedFields)
            [("fields", JArr (map fieldJson fields))]
      | FoundValue value versionNumber _ revealedFields =>
          revealAudited v request credential name versionNumber revealedFields [("value", JStr value)]
      end
  | _ :: _ :: _ => replyAsFailedLookup (vmr_keyId v) 409 (ambiguousBody (length matches))
  end.

Definition UriError : Exn := JsError "URI malformed".

Definition machineCredentialValue (request : MachineRequest) : H HandlerValue :=
  verified ← verifyMachineRequest (mq_authorization request);
  match verified with
  | None => mret returned_reply
  | Some v =>
      withinLimit ← enforceOverallRateLimit (vmr_keyId v);
      if negb withinLimit then mret returned_reply
      else match mq_params request, mq_field request with
           | Some (projectId, rawName), Some field =>
               match decodeURIComponent rawName with
               | None => raise UriError
               | Some name =>
                   if negb (vmr_projectId v =? projectId) then sends 403 INSUFFICIENT_ROLE
                   else withOrgReply (vmr_orgId v)
                          (project ← db (uuidOrThrow projectId); revealForMachine v request project name field)
               end
           | _, _ => sends 422 (JObj [("code", JStr "validation_error")])
           end
  end.

(** ** cache-activated-routes.ts *)

Definition cacheActivated (request : MachineRequest) : H HandlerValue :=
  verified ← verifyMachineRequest (mq_authorization request);
  match verified with
  | None => mret returned_reply
  | Some v =>
      match mq_cacheBody request with
      | None => sends 422 (JObj [("code", JStr "validation_error")])
      | Some (activatedAt, threshold) =>
          withinLimit ← limitFor ("machine-key:" +:+ vmr_keyId v) CACHE_ROUTE_KEY CACHE_ACTIVATED_MAX;
          if negb withinLimit then mret returned_reply
          else
            let report := [("activatedAt", JStr activatedAt); ("threshold", JInt threshold)] in
            r ← withOrgReply (vmr_orgId v) (db (
                  machineUser ← match parseUuid (vmr_machineUserId v) with
                                | Some u => mret u
                                | None => throw (SameTransactionAuditWriteError "audit_write_failed")
                                end;
                  _ ← writeMachineAuditEntryOrFailClosed (vmr_orgId v) "machine_cache.activated" "machine_user" machineUser
                        (vmr_machineUserId v) (vmr_keyId v) report None (mq_meta request);
                  _ ← createOrgAdminNotificationEntries (vmr_orgId v)
                        (MkNotificationTemplate "machine_cache.activated"
                           (JObj ([("machineUserId", JStr (vmr_machineUserId v)); ("keyId", JStr (vmr_keyId v))] ++ report))
                           None) None;
                  mret (returned_data None)));
            match r with
            | returned_reply => mret returned_reply
            | returned_data _ =>
                _ ← replyStatus 202;
                mret (returned_data (dataBody (JObj [("recorded", JBool true)])))
            end
      end
  end.

(** ** The routes *)

(** [MANUAL_MACHINE_AUTH_SECURITY]: no session, no entry of the route's own *)
Definition MANUAL_MACHINE_AUTH_SECURITY (rateLimit : RateSetting) : Security :=
  noSecurity <| sec_requireAuth := Some false |> <| sec_writeAuditEvent := Some (audit_flag false) |>
             <| sec_rateLimit := Some rateLimit |>.
Definition IP_RATE_LIMIT : RateSetting := rate_limit 20 (Some 60000%Z) (Some "POST /api/v1/auth/machine-token").

Definition machineTokenOptions (request : MachineRequest) : RouteOptions :=
  MkRouteOptions POST "/machine-token" (MANUAL_MACHINE_AUTH_SECURITY IP_RATE_LIMIT) None
    (fun _ => exchangeToken (mq_authorization request)).
Definition machineCredentialOptions (request : MachineRequest) : RouteOptions :=
  MkRouteOptions GET "/projects/:projectId/credentials/:name/value" (MANUAL_MACHINE_AUTH_SECURITY rate_off) None
    (fun _ => machineCredentialValue request).
Definition cacheActivatedOptions (request : MachineRequest) : RouteOptions :=
  MkRouteOptions POST "/cache-activated" (MANUAL_MACHINE_AUTH_SECURITY rate_off) None
    (fun _ => cacheActivated request).
End machineAuth.

(** routes.ts: the security of the routes that change keys, and of those that read them *)
Definition MACHINE_USERS_RATE_LIMIT_WINDOW_MS : Z := 60000.
Definition MACHINE_USER_MUTATION_RATE_LIMIT : Z := 10.
Definition machineMutationSecurity (key : string) : Security :=
  noSecurity <| sec_minimumRole := Some admin |> <| sec_requireMfa := Some true |>
    <| sec_rateLimit := Some (rate_limit MACHINE_USER_MUTATION_RATE_LIMIT (Some MACHINE_USERS_RATE_LIMIT_WINDOW_MS) (Some key)) |>
    <| sec_writeAuditEvent := Some (audit_flag false) |>.
Definition READ_SECURITY : Security :=
  noSecurity <| sec_minimumRole := Some viewer |> <| sec_writeAuditEvent := Some (audit_flag false) |>.
