(* ===== verification/MachineOps.v ===== *)
(** * Requests and jobs on API keys, interleaved

    [KeyInvariant] is what a property of the table of keys must satisfy to hold
    after any request and job: it survives the statements that only advance a
    key, the insertion of a first key and the succession of a key.  Its
    instances are the succession of keys ([KeysOk]) and the revocation of a key
    ([RevokedKey]).  Every request and job of [MachineKeys] and [MachineAuth],
    with the revocation of an organisation's sessions and keys, is one type of
    operations on the server, and any sequence of them is proved once to keep a
    [KeyInvariant] ([runMachineOps_keeps]); what other transactions commit while
    one of them waits is any function that keeps it too. *)

From S2P Require Import Prelude Js Crypto FieldSet AuthStore Store Tx QuotaGate AuditLog Notifications Credentials Text Frames Sessions Shares Authenticate Mfa Login SessionFrames JsMap RateLimit Server CapabilityGate AuditPayload SecureRoute Projects MachineKeys MachineAuth.
From Stdlib Require Import Ascii String.
From stdpp Require Import strings pretty.

Local Open Scope string_scope.
Local Open Scope list_scope.
Local Open Scope pv_scope.

Notation Keys := (list ApiKeyRow).

(** ** What an invariant of the keys survives *)

(** A successor was issued, and the key is on its way out: revoked, or in its overlap. *)
Definition superseded (k : ApiKeyRow) : Prop := isNotNull (ak_revokedAt k) = true \/ isNotNull (ak_overlapExpiresAt k) = true.

(** The identity of a key stays, and nothing is taken back. *)
Record Advances (f : ApiKeyRow -> ApiKeyRow) : Prop := {
  adv_id : forall k, ak_id (f k) = ak_id k;
  adv_org : forall k, ak_orgId (f k) = ak_orgId k;
  adv_user : forall k, ak_machineUserId (f k) = ak_machineUserId k;
  adv_from : forall k, ak_rotatedFromKeyId (f k) = ak_rotatedFromKeyId k;
  adv_revoked : forall k, isNotNull (ak_revokedAt k) = true -> isNotNull (ak_revokedAt (f k)) = true;
  adv_overlap : forall k, isNotNull (ak_overlapExpiresAt k) = true -> isNotNull (ak_overlapExpiresAt (f k)) = true;
}.

(** [new] succeeds [old]. *)
Record Succeeds (new old : ApiKeyRow) : Prop := {
  suc_from : ak_rotatedFromKeyId new = Some (ak_id old);
  suc_org : ak_orgId new = ak_orgId old;
  suc_user : ak_machineUserId new = ak_machineUserId old;
}.

Definition freshIn (l : Keys) (new : ApiKeyRow) : Prop := forall x, x ∈ l -> ak_id x <> ak_id new.

Class KeyInvariant (R : Keys -> Prop) : Prop := {
  ki_update : forall p f l, Advances f -> R l -> R (map_where p f l);
  ki_first : forall new l, freshIn l new -> ak_rotatedFromKeyId new = None -> R l -> R (l ++ [new]);
  ki_succession : forall old new f l, old ∈ l -> ~ superseded old -> Advances f -> superseded (f old) ->
    freshIn l new -> Succeeds new old -> R l ->
    R (map_where (keyIn (ak_orgId old) (fun k => ak_id k =? ak_id old)) f l ++ [new]);
}.

(** ** A revoked key *)

Record RevokedKey (keyId : Uuid) (l : Keys) : Prop := {
  rk_there : exists k, k ∈ l /\ ak_id k = keyId;
  rk_revoked : forall k, k ∈ l -> ak_id k = keyId -> isNotNull (ak_revokedAt k) = true;
}.

Lemma RevokedKey_update keyId p f l : Advances f -> RevokedKey keyId l -> RevokedKey keyId (map_where p f l).
Proof.
  intros Hf [(k & Hk & Ek) Hr]. split.
  - exists (if p k then f k else k). split; [apply elem_of_map_where; by exists k|]. destruct (p k); [by rewrite (adv_id f Hf)|done].
  - intros x Hx Ex. apply elem_of_map_where in Hx as (y & Hy & ->). destruct (p y); [|by apply Hr].
    apply (adv_revoked f Hf), Hr; [done|]. by rewrite <- (adv_id f Hf).
Qed.

Lemma RevokedKey_insert keyId new l : freshIn l new -> RevokedKey keyId l -> RevokedKey keyId (l ++ [new]).
Proof.
  intros Hn [(k & Hk & Ek) Hr]. split; [exists k; split; [apply elem_of_app; by left|done]|].
  intros x Hx Ex. apply elem_of_app in Hx as [Hx|Hx]; [by apply Hr|]. apply list_elem_of_singleton in Hx as ->.
  exfalso. apply (Hn k Hk). congruence.
Qed.

Lemma freshIn_update p f l new : Advances f -> freshIn l new -> freshIn (map_where p f l) new.
Proof.
  intros Hf Hn x Hx. apply elem_of_map_where in Hx as (y & Hy & ->). destruct (p y); [rewrite (adv_id f Hf)|]; by apply Hn.
Qed.

#[export] Instance RevokedKey_invariant keyId : KeyInvariant (RevokedKey keyId).
Proof.
  split.
  - intros p f l. apply RevokedKey_update.
  - intros new l Hn _. by apply RevokedKey_insert.
  - intros old new f l _ _ Hf _ Hn _ Hr. apply RevokedKey_insert; [by apply freshIn_update|by apply RevokedKey_update].
Qed.

(** ** The succession of keys *)

Record KeysOk (l : Keys) : Prop := {
  ko_ids : NoDup (map ak_id l);
  ko_known : forall x old, x ∈ l -> ak_rotatedFromKeyId x = Some old -> exists k, k ∈ l /\ ak_id k = old;
  ko_superseded : forall x k, x ∈ l -> k ∈ l -> ak_rotatedFromKeyId x = Some (ak_id k) -> superseded k /\ Succeeds x k;
  ko_single : forall x y old, x ∈ l -> y ∈ l -> ak_rotatedFromKeyId x = Some old -> ak_rotatedFromKeyId y = Some old -> x = y;
}.

Lemma superseded_advances f k : Advances f -> superseded k -> superseded (f k).
Proof. intros Hf [Hr|Ho]; [left; by apply (adv_revoked f Hf)|right; by apply (adv_overlap f Hf)]. Qed.

Lemma KeysOk_update p f l : Advances f -> KeysOk l -> KeysOk (map_where p f l).
Proof.
  intros Hf [Hids Hknown Hsup Hone].
  set (g := fun k => if p k then f k else k).
  assert (Hg : forall k, ak_id (g k) = ak_id k /\ ak_orgId (g k) = ak_orgId k /\ ak_machineUserId (g k) = ak_machineUserId k /\
                         ak_rotatedFromKeyId (g k) = ak_rotatedFromKeyId k /\ (superseded k -> superseded (g k))).
  { intros k. unfold g. destruct (p k); [|by repeat split].
    rewrite (adv_id f Hf), (adv_org f Hf), (adv_user f Hf), (adv_from f Hf). do 4 (split; [done|]). by apply superseded_advances. }
  assert (Hin : forall x, x ∈ map_where p f l -> exists y, y ∈ l /\ x = g y) by (intros x; by rewrite elem_of_map_where).
  split.
  - rewrite (map_where_proj ak_id p f l); [done|]. apply (adv_id f Hf).
  - intros x old Hx Ex. destruct (Hin x Hx) as (y & Hy & ->). destruct (Hg y) as (_ & _ & _ & Efr & _). rewrite Efr in Ex.
    destruct (Hknown y old Hy Ex) as (k & Hk & <-). exists (g k). split; [apply elem_of_map_where; by exists k|apply Hg].
  - intros x k Hx Hk Ex. destruct (Hin x Hx) as (y & Hy & ->), (Hin k Hk) as (j & Hj & ->).
    destruct (Hg y) as (_ & Eo & Eu & Efr & _), (Hg j) as (Ei' & Eo' & Eu' & _ & Hs'). rewrite Efr, Ei' in Ex.
    destruct (Hsup y j Hy Hj Ex) as [Hs [Sf So Su]]. split; [by apply Hs'|]. split; congruence.
  - intros x y old Hx Hy Ex Ey. destruct (Hin x Hx) as (a & Ha & ->), (Hin y Hy) as (b & Hb & ->). f_equal.
    destruct (Hg a) as (_ & _ & _ & Ea & _), (Hg b) as (_ & _ & _ & Eb & _). rewrite Ea in Ex. rewrite Eb in Ey. by apply (Hone a b old).
Qed.

Lemma KeysOk_ids l new : KeysOk l -> freshIn l new -> NoDup (map ak_id (l ++ [new])).
Proof.
  intros Hok Hn. rewrite map_app. apply NoDup_app. split; [apply Hok|]. split; [|apply NoDup_singleton].
  intros i Hi Hs. apply list_elem_of_singleton in Hs as ->. apply elem_of_map in Hi as (x & Ex & Hx). by apply (Hn x).
Qed.

(** No key is the successor of one that is not there yet. *)
Lemma KeysOk_unclaimed l new x : KeysOk l -> freshIn l new -> x ∈ l -> ak_rotatedFromKeyId x <> Some (ak_id new).
Proof. intros Hok Hn Hx Ex. destruct (ko_known l Hok x _ Hx Ex) as (k & Hk & Ek). by apply (Hn k). Qed.

Lemma KeysOk_first new l : freshIn l new -> ak_rotatedFromKeyId new = None -> KeysOk l -> KeysOk (l ++ [new]).
Proof.
  intros Hn Ef Hok. pose proof Hok as [_ Hknown Hsup Hone].
  assert (Hin : forall x, x ∈ l ++ [new] -> x ∈ l \/ x = new).
  { intros x Hx. apply elem_of_app in Hx as [Hx|Hx]; [by left|right; by apply list_elem_of_singleton in Hx]. }
  split; [by apply KeysOk_ids|..].
  - intros x old Hx Ex. destruct (Hin x Hx) as [Hx'| ->]; [|congruence]. destruct (Hknown x old Hx' Ex) as (k & Hk & Ek).
    exists k. split; [apply elem_of_app; by left|done].
  - intros x k Hx Hk Ex. destruct (Hin x Hx) as [Hx'| ->]; [|congruence]. destruct (Hin k Hk) as [Hk'| ->]; [by apply Hsup|].
    by destruct (KeysOk_unclaimed l new x Hok Hn Hx').
  - intros x y old Hx Hy Ex Ey. destruct (Hin x Hx) as [Hx'| ->], (Hin y Hy) as [Hy'| ->]; [by apply (Hone x y old)|congruence..].
Qed.

Lemma KeysOk_successor old new l :
  old ∈ l -> superseded old -> freshIn l new -> Succeeds new old -> (forall x, x ∈ l -> ak_rotatedFromKeyId x <> Some (ak_id old)) ->
  KeysOk l -> KeysOk (l ++ [new]).
Proof.
  intros Ho Hs Hn Hsuc Hno Hok. pose proof Hok as [Hids Hknown Hsup Hone]. pose proof (suc_from _ _ Hsuc) as Ef.
  assert (Hin : forall x, x ∈ l ++ [new] -> x ∈ l \/ x = new).
  { intros x Hx. apply elem_of_app in Hx as [Hx|Hx]; [by left|right; by apply list_elem_of_singleton in Hx]. }
  assert (Hself : ak_rotatedFromKeyId new <> Some (ak_id new)).
  { rewrite Ef. intros [= E]. by apply (Hn old). }
  split; [by apply KeysOk_ids|..].
  - intros x i Hx Ex. destruct (Hin x Hx) as [Hx'| ->].
    + destruct (Hknown x i Hx' Ex) as (k & Hk & Ek). exists k. split; [apply elem_of_app; by left|done].
    + exists old. split; [apply elem_of_app; by left|congruence].
  - intros x k Hx Hk Ex. destruct (Hin x Hx) as [Hx'| ->], (Hin k Hk) as [Hk'| ->]; [by apply Hsup|..|done].
    + by destruct (KeysOk_unclaimed l new x Hok Hn Hx').
    + assert (k = old) as -> by (apply (NoDup_key_inj ak_id l); congruence). by split.
  - intros x y i Hx Hy Ex Ey. destruct (Hin x Hx) as [Hx'| ->], (Hin y Hy) as [Hy'| ->]; [by apply (Hone x y i)|..|done].
    + destruct (Hno x Hx'). congruence.
    + destruct (Hno y Hy'). congruence.
Qed.

#[export] Instance KeysOk_invariant : KeyInvariant KeysOk.
Proof.
  split.
  - intros p f l. apply KeysOk_update.
  - intros new l. apply KeysOk_first.
  - intros old new f l Ho Hnot Hf Hs Hn [Sf So Su] Hok. set (p := keyIn _ _).
    assert (Hp : p old = true) by (unfold p, keyIn; by rewrite !bool_decide_eq_true_2).
    apply (KeysOk_successor (f old)).
    + apply elem_of_map_where. exists old. by rewrite Hp.
    + done.
    + by apply freshIn_update.
    + split; [by rewrite (adv_id f Hf)|by rewrite (adv_org f Hf)|by rewrite (adv_user f Hf)].
    + intros x Hx Ex. rewrite (adv_id f Hf) in Ex. apply elem_of_map_where in Hx as (y & Hy & ->).
      assert (Ey : ak_rotatedFromKeyId y = Some (ak_id old)) by (destruct (p y); [by rewrite (adv_from f Hf) in Ex|done]).
      by destruct (ko_superseded l Hok y old Hy Ho Ey).
    + by apply KeysOk_update.
Qed.

(** ** The operations *)

Inductive ManageRequest :=
| mr_create (projectId : Uuid) (parsed : option CreateMachineUserBody)
| mr_activeKeys (projectId : Uuid)
| mr_list (projectId : Uuid) (query : option (Z * Z))
| mr_get (machineUserId : Uuid)
| mr_deactivate (machineUserId : Uuid)
| mr_issue (machineUserId : Uuid) (parsed : option IssueApiKeyBody)
| mr_listKeys (machineUserId : Uuid) (query : option (Z * Z))
| mr_revoke (machineUserId keyId : Uuid)
| mr_rotate (machineUserId keyId : Uuid) (overlapMinutes : option Z)
| mr_emergency (machineUserId keyId : Uuid)
| mr_extend (machineUserId keyId : Uuid) (days : option Z).

Inductive MachineOp :=
| mop_manage (auth : RouteAuth) (meta : RequestMeta) (request : ManageRequest)
| mop_exchange (authorization : option string)
| mop_value (request : MachineRequest)
| mop_cache (request : MachineRequest)
| mop_revokeOverlaps (orgIds : list Uuid)
| mop_alertOverlaps (orgIds : list Uuid)
| mop_revokeOrg (orgId : Uuid) (requestId : string).

Section ops.
Context `{Locale, Platform, NodeCrypto, Env, Unicode, ProcessEnv, Postgres, MachineJwtLibrary, UnicodeCategories, OtpAuth}.

Definition serveMachine (auth : RouteAuth) (meta : RequestMeta) (r : ManageRequest) : M HandlerReply :=
  match r with
  | mr_create projectId parsed => createMachineUser auth projectId parsed meta
  | mr_activeKeys projectId => getActiveKeys projectId
  | mr_list projectId query => listMachineUsers auth projectId query
  | mr_get machineUserId => getMachineUser auth machineUserId
  | mr_deactivate machineUserId => deactivateMachineUser auth machineUserId meta
  | mr_issue machineUserId parsed => issueApiKey auth machineUserId parsed meta
  | mr_listKeys machineUserId query => listApiKeys auth machineUserId query
  | mr_revoke machineUserId keyId => revokeApiKey auth machineUserId keyId meta
  | mr_rotate machineUserId keyId overlapMinutes => rotateKeyRoute auth machineUserId keyId overlapMinutes meta
  | mr_emergency machineUserId keyId => emergencyRevokeRoute auth machineUserId keyId meta
  | mr_extend machineUserId keyId days => extendDormancy auth machineUserId keyId days meta
  end.

Definition ignore {A} (m : H A) : H unit := _ ← m; mret tt.

(** A request with a fresh reply; a handler that throws is answered by the server. *)
Definition runMachineOp (op : MachineOp) : H unit :=
  _ ← modify (fun s => s <| sv_reply := freshReply |>);
  match op with
  | mop_manage auth meta r => ignore (requestTransaction (_ ← setRlsOrgContext (ra_orgId auth); db (serveMachine auth meta r)))
  | mop_exchange authorization => ignore (exchangeToken authorization)
  | mop_value request => ignore (machineCredentialValue request)
  | mop_cache request => ignore (cacheActivated request)
  | mop_revokeOverlaps orgIds => db (runMachineKeyOverlapRevokeJob orgIds)
  | mop_alertOverlaps orgIds => ignore (db (runMachineKeyOverlapAlertJob orgIds))
  | mop_revokeOrg orgId requestId => ignore (db (withOrg (revokeAllSessionsForOrg orgId requestId)))
  end.

Fixpoint runMachineOps (ops : list MachineOp) (s : Server) : Server :=
  match ops with [] => s | op :: ops' => runMachineOps ops' (snd (runMachineOp op s)) end.

(** ** Invariants of the server's database *)

Section hpreserves.
Context (P : Db -> Prop) (W : (Db -> Db) -> Prop).

Definition hpreserves {A} (m : H A) : Prop :=
  forall s, holds P W (sv_world s) -> hwp m (fun _ s' => holds P W (sv_world s')) s.
Definition hpreservesOk {A} (m : H A) : Prop :=
  forall s, holds P W (sv_world s) -> hwp m (fun o s' => okPost P W o (sv_world s')) s.

Lemma hp_ret {A} (a : A) : hpreserves (mret a).
Proof. by intros s. Qed.
Lemma hp_raise {A} e : hpreserves (@raise A e).
Proof. by intros s. Qed.
Lemma hp_gets {A} (f : Server -> A) : hpreserves (gets f).
Proof. by intros s. Qed.
Lemma hp_modify f : (forall s, sv_world (f s) = sv_world s) -> hpreserves (modify f).
Proof. intros E s Hs. unfold hwp, modify. by rewrite E. Qed.
Lemma hp_bind {A B} (m : H A) (k : A -> H B) : hpreserves m -> (forall a, hpreserves (k a)) -> hpreserves (m ≫= k).
Proof.
  intros Hm Hk s Hs. apply hwp_bind. eapply hwp_mono; [by apply Hm|]. intros [a|e] s' Hs'; [by apply Hk|done].
Qed.
Lemma hp_tryCatch {A} (m : H A) h : hpreserves m -> (forall e, hpreserves (h e)) -> hpreserves (tryCatch m h).
Proof.
  intros Hm Hh s Hs. apply hwp_tryCatch. eapply hwp_mono; [by apply Hm|]. intros [a|e] s' Hs'; [done|by apply Hh].
Qed.
Lemma hp_db {A} (m : M A) : preserves P W m -> hpreserves (db m).
Proof.
  intros Hm s Hs. unfold hwp, db. specialize (Hm _ Hs). unfold wp in Hm. by destruct (m (sv_world s)) as [o w'].
Qed.
Lemma hpOk_db {A} (m : M A) : preservesOk P W m -> hpreservesOk (db m).
Proof.
  intros Hm s Hs. unfold hwp, db. specialize (Hm _ Hs). unfold wp in Hm. by destruct (m (sv_world s)) as [o w'].
Qed.
Lemma hpOk_of {A} (m : H A) : hpreserves m -> hpreservesOk m.
Proof. intros Hm s Hs. eapply hwp_mono; [by apply Hm|]. intros [a|e] s' Hs'; [exact Hs'|exact (proj2 Hs')]. Qed.
Lemma hpOk_bind {A B} (m : H A) (k : A -> H B) : hpreservesOk m -> (forall a, hpreservesOk (k a)) -> hpreservesOk (m ≫= k).
Proof.
  intros Hm Hk s Hs. apply hwp_bind. eapply hwp_mono; [by apply Hm|]. intros [a|e] s' Hs'; [by apply Hk|done].
Qed.
Lemma hp_failing f : hpreserves (failing f).
Proof. intros s Hs. unfold hwp, failing. by destruct (f _). Qed.
Lemma hp_transaction {A} (m : H A) : hpreservesOk m -> hpreserves (requestTransaction m).
Proof.
  intros Hm s Hs. unfold hwp, requestTransaction.
  assert (Hb : hpreservesOk (_ ← db beginTransaction; a ← m; _ ← failing commitFails; mret a)).
  { apply hpOk_bind; [apply hpOk_of, hp_db; by intros w|]. intros _. apply hpOk_bind; [done|]. intros a.
    apply hpOk_of, hp_bind; [apply hp_failing|]. intros _. apply hp_ret. }
  specialize (Hb s Hs). unfold hwp in Hb.
  destruct ((_ ← db beginTransaction; a ← m; _ ← failing commitFails; mret a) s) as [[a|e] s']; [exact Hb|].
  split; [exact (proj1 Hs)|exact Hb].
Qed.
Lemma hp_replySend body : hpreserves (replySend body).
Proof. intros s Hs. unfold hwp, replySend. destruct (rp_guarded _); [done|]. by destruct (rp_sent _). Qed.
Lemma hp_sendStatus n body : hpreserves (sendStatus n body).
Proof. apply hp_bind; [by apply hp_modify|]. intros _. apply hp_replySend. Qed.
Lemma hp_sends n body : hpreserves (sends n body).
Proof. apply hp_bind; [apply hp_sendStatus|]. intros _. apply hp_ret. Qed.
Lemma hp_rateLimit i : hpreserves (enforceUserRateLimit i).
Proof.
  unfold enforceUserRateLimit. apply hp_bind.
  { destruct isRateLimitEnforced; [|apply hp_ret]. by apply hp_db, preserves_readOnly, readOnly_newDate. }
  intros now. apply hp_bind.
  { intros s Hs. unfold hwp. by destruct (consumeUserRateLimit _ _ _). }
  intros [|r]; [apply hp_ret|]. apply hp_bind; [apply hp_sendStatus|]. intros _. apply hp_ret.
Qed.
End hpreserves.

Lemma readOnly_query' {A} (f : Db -> A) : readOnly (query f).
Proof. intros w. apply sameDb_refl. Qed.
Lemma readOnly_selectJoined {R S} (t : Db -> list R) (u : Db -> list S) p : readOnly (selectJoined t u p).
Proof. intros w. apply sameDb_refl. Qed.
Lemma readOnly_uuidOrThrow text : readOnly (uuidOrThrow text).
Proof. unfold uuidOrThrow. read_only. Qed.
Lemma readOnly_generateApiKey : readOnly generateApiKey.
Proof. apply readOnly_bind; [intros w; by exists (S (w_tick w))|]. intros o. apply readOnly_ret. Qed.
#[local] Hint Resolve readOnly_query' readOnly_selectJoined readOnly_uuidOrThrow readOnly_generateApiKey : pv.

Lemma readOnly_findMachineUser o i : readOnly (findMachineUserById o i).
Proof. unfold findMachineUserById. read_only. Qed.
Lemma readOnly_detail m p : readOnly (toMachineUserDetail m p).
Proof. unfold toMachineUserDetail, scopeBoundaryFor, projectNameById. read_only. Qed.
Lemma readOnly_findProjectInOrg p : readOnly (findProjectInOrg p).
Proof. unfold findProjectInOrg. read_only. Qed.
Lemma readOnly_activeKeys p : readOnly (activeMachineUserKeysQuery p).
Proof. unfold activeMachineUserKeysQuery. read_only. Qed.
Lemma readOnly_exchangeableKey t h : readOnly (exchangeableKey t h).
Proof. unfold exchangeableKey, findApiKeyByHash. read_only. Qed.
Lemma readOnly_reveal c p f : readOnly (revealCurrentValue c p f).
Proof. unfold revealCurrentValue, findCredentialInProject. read_only. Qed.
Lemma readOnly_parseIssueBody b : readOnly (parseIssueBody b).
Proof. unfold parseIssueBody. read_only. Qed.
#[local] Hint Resolve readOnly_findMachineUser readOnly_detail readOnly_findProjectInOrg readOnly_activeKeys
  readOnly_exchangeableKey readOnly_reveal readOnly_parseIssueBody : pv.

(** ** Any sequence keeps the invariant *)

Section keeps.
Context (R : Keys -> Prop) `{!KeyInvariant R} (W : (Db -> Db) -> Prop).
Notation keysP := (fun db => R (au_apiKeys (db_auth db))).
Context (W_keeps : forall f, W f -> forall db, keysP db -> keysP (f db)).

Lemma keep_wait : preserves keysP W otherCommits.
Proof. intros w [HP HW]. split; [by apply (W_keeps _ HW)|done]. Qed.
Lemma keep_keys p f : Advances f -> preserves keysP W (updateWhere db_apiKeys p f).
Proof. intros Hf. apply preserves_updateWhere. intros db. by apply (ki_update p f). Qed.
Lemma keep_auth {A} (m : M A) (t : A -> M unit) : preserves keysP W m -> (forall a, preserves keysP W (t a)) -> preserves keysP W (m ≫= t).
Proof. apply preserves_bind. Qed.
Lemma keep_projectAudit auth e t r p l meta : preserves keysP W (writeProjectAudit auth e t r p l meta).
Proof.
  unfold writeProjectAudit, rethrowAsSameTransactionAuditWriteError, firstActorTokenIdForUser.
  apply preserves_catch; [|intros []; preserve]. apply preserves_bind; [|intros ?; preserve].
  apply preserves_bind; [preserve|]. intros ?. apply (auth_writeHuman (fun a => R (au_apiKeys a))).
Qed.
Lemma keep_systemAudit o e r t l : preserves keysP W (writeSystemAuditEntryOrFailClosed o e r t l).
Proof.
  unfold writeSystemAuditEntryOrFailClosed, rethrowAsSameTransactionAuditWriteError.
  apply preserves_catch; [|intros []; preserve]. apply preserves_bind; [|intros ?; preserve].
  apply (auth_writeSystem (fun a => R (au_apiKeys a))).
Qed.
Lemma keep_machineAudit fields u k : preserves keysP W (writeMachineAuditEntry fields u k).
Proof.
  unfold writeMachineAuditEntry. cbv zeta. apply preserves_bind; [apply (auth_gates (fun a => R (au_apiKeys a)))|].
  intros _. apply (auth_appendAuditRow (fun a => R (au_apiKeys a))).
Qed.
Lemma keep_machineAuditClosed o e t r u k l f meta : preserves keysP W (writeMachineAuditEntryOrFailClosed o e t r u k l f meta).
Proof.
  unfold writeMachineAuditEntryOrFailClosed, rethrowAsSameTransactionAuditWriteError.
  apply preserves_catch; [|intros []; preserve]. apply preserves_bind; [|intros ?; preserve]. apply keep_machineAudit.
Qed.
Lemma keep_notify o t r : preserves keysP W (createOrgAdminNotificationEntries o t r).
Proof.
  unfold createOrgAdminNotificationEntries, resolveRoutingRecipients, getMembersWithRole, getPreferencesBatch,
    processRecipientPreferences, processPreference, enqueueUserChannel, enqueueSlackEntry, nextDigestDeliveryTime, insertQueue.
  repeat first [apply preserves_insertRow; intros db HP _; exact HP | progress preserve].
Qed.

(** The key inserted by a request is fresh. *)
Lemma freshIn_conflict new l : (forall x, x ∈ l -> apiKeyConflict new x = false) -> freshIn l new.
Proof. intros Hn x Hx E. specialize (Hn x Hx). unfold apiKeyConflict in Hn. by rewrite E, bool_decide_eq_true_2 in Hn. Qed.

Lemma keep_firstKey o u n h e : preserves keysP W (insertApiKey o u n h e None).
Proof.
  unfold insertApiKey. apply preserves_bind; [preserve|]. intros id. apply preserves_bind; [preserve|]. intros now.
  apply preserves_insertRow. intros db HP Hn. apply ki_first; [by apply freshIn_conflict|done|exact HP].
Qed.

(** [old] was locked: it is there, and not on its way out. *)
Definition lockedKey (orgId machineUserId : Uuid) (old : ApiKeyRow) (w : World) : Prop :=
  old ∈ db_apiKeys (w_db w) /\ ak_orgId old = orgId /\ ak_machineUserId old = machineUserId /\ ~ superseded old.

Lemma lockKey_spec orgId machineUserId keyId w :
  holds keysP W w ->
  wp (lockAndRejectIfRevoked orgId machineUserId keyId)
    (fun o w' => holds keysP W w' /\ forall old, o = Ok (inr old) -> ak_id old = keyId /\ lockedKey orgId machineUserId old w') w.
Proof.
  intros Hw. unfold lockAndRejectIfRevoked, lockApiKeyForUpdate. apply wp_bind, wp_bind.
  eapply wp_mono; [by apply keep_wait|]. intros [[]|e] w1 Hw1; [|by split].
  unfold wp at 1, selectFirst. apply wp_ret. destruct (head _) as [k|] eqn:Eh; [|by split].
  split; [done|]. destruct (isNotNull (ak_revokedAt k)) eqn:Er; [done|]. destruct (isNotNull (ak_overlapExpiresAt k)) eqn:Eo; [done|].
  assert (Hno : ~ superseded k) by (intros [Hs|Hs]; congruence).
  intros old [= <-]. apply head_elem_of, elem_of_lfilter in Eh as [Ep Hk]. unfold keyIn, keyOfUser in Ep. bool_simpl.
  split; [done|]. by repeat split.
Qed.

(** A successor, with the change of the key it succeeds before or after. *)
Lemma succession (old new : ApiKeyRow) orgId machineUserId f db :
  old ∈ db_apiKeys db -> ak_orgId old = orgId -> ak_machineUserId old = machineUserId -> ~ superseded old ->
  Advances f -> superseded (f old) -> (forall x, x ∈ db_apiKeys db -> apiKeyConflict new x = false) ->
  ak_rotatedFromKeyId new = Some (ak_id old) -> ak_orgId new = orgId -> ak_machineUserId new = machineUserId -> keysP db ->
  let p := keyIn orgId (fun k => ak_id k =? ak_id old) in
  R (map_where p f (db_apiKeys db) ++ [new]) /\ R (map_where p f (db_apiKeys db ++ [new])).
Proof.
  intros Ho <- <- Hnot Hf Hs Hn Ef Eorg Eu HP p. pose proof (freshIn_conflict _ _ Hn) as Hfr.
  assert (G : R (map_where p f (db_apiKeys db) ++ [new])) by (by apply (ki_succession old new f)). split; [exact G|].
  assert (E : map_where p f (db_apiKeys db ++ [new]) = map_where p f (db_apiKeys db) ++ [new]); [|by rewrite E].
  unfold map_where. rewrite map_app. cbn. replace (p new) with false; [done|]. symmetry. unfold p, keyIn.
  rewrite (bool_decide_eq_false_2 (ak_id new = _)); [apply andb_false_r|]. intros E. by apply (Hfr old).
Qed.

Lemma adv_overlapping t : Advances (fun k => k <| ak_overlapExpiresAt := Some t |>).
Proof. by split. Qed.
Lemma adv_revoking t : Advances (fun k => k <| ak_revokedAt := Some t |>).
Proof. by split. Qed.

Lemma rotate_keeps orgId machineUserId old minutes w :
  holds keysP W w -> lockedKey orgId machineUserId old w -> wp (rotateApiKey orgId machineUserId old minutes) (okPost keysP W) w.
Proof.
  intros [HP HW] (Hin & Eo & Eu & Hnot). unfold rotateApiKey, generateApiKey, generateOpaque, issueSuccessorKey, insertApiKey.
  unfold wp, mbind, M_bind, mret, M_ret, newDate, genRandomUuid, dbNow. cbv beta iota zeta. unfold insertRow.
  destruct (existsb _ _) eqn:Ee; [exact HW|]. cbn. split; [|exact HW]. cbn.
  refine (proj2 (succession old _ orgId machineUserId _ (w_db w) Hin Eo Eu Hnot (adv_overlapping _) _ _ _ _ _ HP)); try done.
  - by right.
  - intros x Hx. destruct (apiKeyConflict _ x) eqn:Ec; [|done]. exfalso. eapply not_true_iff_false; [exact Ee|].
    apply existsb_exists. exists x. by rewrite <- list_elem_of_In.
Qed.

Lemma emergency_keeps orgId machineUserId old w :
  holds keysP W w -> lockedKey orgId machineUserId old w -> wp (emergencyRevokeApiKey orgId machineUserId old) (okPost keysP W) w.
Proof.
  intros [HP HW] (Hin & Eo & Eu & Hnot). unfold emergencyRevokeApiKey, generateApiKey, generateOpaque, issueSuccessorKey, insertApiKey.
  unfold wp, mbind, M_bind, mret, M_ret, newDate, genRandomUuid, dbNow, updateHeldKey, updateWhere. cbv beta iota zeta. unfold insertRow.
  destruct (existsb _ _) eqn:Ee; [exact HW|]. split; [|exact HW]. cbn.
  refine (proj1 (succession old _ orgId machineUserId _ (w_db w) Hin Eo Eu Hnot (adv_revoking _) _ _ _ _ _ HP)); try done.
  - by left.
  - intros x Hx. destruct (apiKeyConflict _ x) eqn:Ec; [|done]. exfalso. eapply not_true_iff_false; [exact Ee|].
    set (p := keyIn orgId (fun k => ak_id k =? ak_id old)). set (f := fun k => k <| ak_revokedAt := _ |>).
    apply existsb_exists. exists (if p x then f x else x). split; [|by destruct (p x)].
    rewrite <- list_elem_of_In. apply elem_of_map_where. by exists x.
Qed.

Ltac keep :=
  repeat first
    [ apply keep_wait | apply keep_projectAudit | apply keep_systemAudit | apply keep_machineAudit
    | apply keep_machineAuditClosed | apply keep_notify | apply keep_firstKey
    | apply keep_keys; by split
    | apply preserves_updateWhere; intros ? HP; exact HP
    | apply preserves_insertRow; intros ? HP _; exact HP
    | apply preserves_deleteWhere; intros ? HP; exact HP
    | preserve_step ].

(** *** The requests *)

Lemma keep_succession {A} orgId machineUserId keyId (issue : ApiKeyRow -> M A) (k : A -> ApiKeyRow -> M HandlerReply) :
  (forall old w, holds keysP W w -> lockedKey orgId machineUserId old w -> wp (issue old) (okPost keysP W) w) ->
  (forall a old, preserves keysP W (k a old)) ->
  preservesOk keysP W (
    oldKey ← lockAndRejectIfRevoked orgId machineUserId keyId;
    match oldKey with inl refused => mret refused | inr old => result ← issue old; k result old end).
Proof.
  intros Hi Hk w Hw. apply wp_bind. eapply wp_mono; [by apply lockKey_spec|]. intros [[r|old]|e] w1 [Hw1 Hl].
  - by apply wp_ret.
  - destruct (Hl old eq_refl) as [_ Hold]. apply wp_bind. eapply wp_mono; [by apply Hi|]. intros [a|e] w2 Hw2; [|done].
    by apply preserves_ok; [apply Hk|].
  - exact (proj2 Hw1).
Qed.

Lemma keep_serveMachine auth meta r : preservesOk keysP W (serveMachine auth meta r).
Proof.
  destruct r; cbn [serveMachine].
  1: apply preserves_ok; unfold createMachineUser; keep.
  1: apply preserves_ok; unfold getActiveKeys; keep.
  1: apply preserves_ok; unfold listMachineUsers; cbv zeta; keep.
  1: apply preserves_ok; unfold getMachineUser; keep.
  1: apply preserves_ok; unfold deactivateMachineUser; keep.
  1: apply preserves_ok; unfold issueApiKey; keep.
  1: apply preserves_ok; unfold listApiKeys; cbv zeta; keep.
  1: apply preserves_ok; unfold revokeApiKey; keep.
  - unfold rotateKeyRoute. destruct overlapMinutes as [minutes|]; [|apply preserves_ok; keep].
    apply keep_succession; [intros old w; apply rotate_keeps|intros a old; keep].
  - unfold emergencyRevokeRoute. apply keep_succession; [intros old w; apply emergency_keeps|intros a old; keep].
  - apply preserves_ok; unfold extendDormancy; keep.
Qed.

(** *** The jobs *)

Lemma keep_quietly {A} (m : M A) a : preserves keysP W m -> preserves keysP W (catch m (fun _ => mret a)).
Proof. intros Hm. apply preserves_catch; [done|]. intros e. apply preserves_readOnly, readOnly_ret. Qed.
Lemma keep_selectKeys p : preserves keysP W (withOrg (selectWhere db_apiKeys p)).
Proof. apply preserves_withOrg, preserves_ok, preserves_readOnly. intros w. apply sameDb_refl. Qed.
Lemma keep_selectJoined p : preserves keysP W (withOrg (selectJoined db_apiKeys db_machineUsers p)).
Proof. apply preserves_withOrg, preserves_ok, preserves_readOnly. intros w. apply sameDb_refl. Qed.

Lemma keep_revokeOverlapped orgId keyId now : preserves keysP W (revokeOverlapped orgId keyId now).
Proof.
  apply preserves_withOrg, preserves_ok, preserves_bind; [apply keep_wait|]. intros _.
  apply preserves_bind; [apply keep_keys; by split|]. intros claimed.
  destruct (head claimed); [apply keep_systemAudit|apply preserves_readOnly, readOnly_ret].
Qed.
Lemma keep_revokeOverlaps orgIds : preserves keysP W (runMachineKeyOverlapRevokeJob orgIds).
Proof.
  apply preserves_bind; [apply preserves_readOnly, readOnly_newDate|]. intros now.
  apply preserves_forEachSequential. intros orgId. apply keep_quietly, preserves_bind; [apply keep_selectKeys|]. intros rows.
  apply preserves_forEachSequential. intros k. apply keep_quietly, keep_revokeOverlapped.
Qed.

Lemma keep_alertOverlap orgId k m : preserves keysP W (alertOverlap orgId k m).
Proof.
  apply preserves_withOrg, preserves_ok, preserves_bind; [apply keep_wait|]. intros _.
  apply preserves_bind; [apply keep_keys; by split|]. intros claimed.
  destruct (head claimed); [apply keep_notify|apply preserves_readOnly, readOnly_ret].
Qed.
Lemma keep_alertOverlaps orgIds : preserves keysP W (runMachineKeyOverlapAlertJob orgIds).
Proof.
  apply preserves_bind; [apply preserves_readOnly, readOnly_newDate|]. intros now.
  apply preserves_bind; [|intros jobs; apply preserves_readOnly, readOnly_ret].
  apply preserves_forEachCollect. intros orgId. apply keep_quietly, preserves_bind; [apply keep_selectJoined|]. intros rows.
  apply preserves_bind; [|intros jobs; apply preserves_readOnly, readOnly_ret].
  apply preserves_forEachCollect. intros [k m]. apply keep_quietly, keep_alertOverlap.
Qed.

Lemma keep_orgLock orgId : preserves keysP W (acquireOrgLock orgId).
Proof.
  intros w [HP HW]. unfold acquireOrgLock, wp. destruct (_ ∈? _); [|by split]. split; [by apply (W_keeps _ HW)|exact HW].
Qed.
Lemma keep_grants l now : preserves keysP W (revokeDeviceGrantsForSessions l now).
Proof.
  destruct l; [apply preserves_readOnly, readOnly_ret|].
  apply preserves_bind; [apply preserves_updateWhere; intros db HP; exact HP|]. intros revoked.
  apply preserves_forEachSequential. intros g.
  destruct (dg_orgId g) as [o|], (dg_userId g) as [u|]; [|apply preserves_readOnly, readOnly_ret..].
  apply preserves_bind; [apply preserves_readOnly; unfold firstActorTokenIdForUser; read_only|]. intros actor.
  apply preserves_bind; [|intros ?; apply preserves_readOnly, readOnly_ret]. apply (auth_writeHuman (fun a => R (au_apiKeys a))).
Qed.
Lemma keep_bulkRevoke l now : preserves keysP W (bulkRevoke l now).
Proof.
  unfold bulkRevoke. cbv zeta. case_match; [|apply preserves_readOnly, readOnly_ret].
  apply preserves_bind; [apply preserves_updateWhere; intros db HP; exact HP|]. intros _.
  apply preserves_bind.
  { apply preserves_forEachSequential. intros x. apply keep_quietly, preserves_bind.
    - apply preserves_insertRow. intros db HP _. exact HP.
    - intros _. apply preserves_readOnly, readOnly_ret. }
  intros _. apply preserves_bind; [apply preserves_forEachSequential; by intros x w|]. intros _.
  apply preserves_forEachSequential. intros x. apply preserves_deleteWhere. intros db HP. exact HP.
Qed.
Lemma keep_revokeOrg orgId requestId : preserves keysP W (revokeAllSessionsForOrg orgId requestId).
Proof.
  unfold revokeAllSessionsForOrg, revokeOrgApiKeys. apply preserves_bind; [apply keep_orgLock|]. intros _.
  apply preserves_bind; [apply preserves_readOnly, readOnly_newDate|]. intros now.
  apply preserves_bind; [apply preserves_updateWhere; intros db HP; exact HP|]. intros rows.
  apply preserves_bind; [apply keep_grants|]. intros _. apply preserves_bind; [apply keep_bulkRevoke|]. intros _.
  apply preserves_bind.
  { apply preserves_bind; [apply keep_keys; by split|]. intros keys. apply preserves_readOnly, readOnly_ret. }
  intros count. apply preserves_bind; [|intros ?; apply preserves_readOnly, readOnly_ret].
  apply (auth_writeSystem (fun a => R (au_apiKeys a))).
Qed.

(** *** Token exchange and the machine routes *)

Notation hkeeps := (hpreserves keysP W).

Lemma hk_readOnly {A} (m : M A) : readOnly m -> hkeeps (db m).
Proof. intros Hm. by apply hp_db, preserves_readOnly. Qed.
Lemma keep_touch keyId now : preserves keysP W (touchApiKeyLastUsed keyId now).
Proof.
  apply preserves_bind; [apply keep_wait|]. intros _. apply preserves_bind; [apply keep_keys; by split|].
  intros _. apply preserves_readOnly, readOnly_ret.
Qed.
Lemma keep_anomaly o k u at' : preserves keysP W (checkRotationAnomaly o k u at').
Proof.
  apply preserves_withOrg, preserves_ok, preserves_bind.
  { apply preserves_readOnly. intros w. apply sameDb_refl. }
  intros [x|]; [|apply preserves_readOnly, readOnly_ret].
  apply preserves_bind; [apply keep_notify|]. intros _. apply preserves_bind; [apply keep_machineAudit|].
  intros _. apply preserves_readOnly, readOnly_ret.
Qed.
Lemma hk_exchange authorization : hkeeps (exchangeToken authorization).
Proof.
  unfold exchangeToken. destruct (extractBearerToken authorization) as [token|]; [|apply hp_sends].
  destruct (negb _); [apply hp_sends|]. cbv zeta. apply hp_bind.
  { unfold isKeyHashRateLimited. destruct (negb _); [apply hp_ret|]. apply hp_bind; [apply hp_gets|].
    intros [b|]; [|apply hp_ret]. apply hp_bind; [apply hk_readOnly, readOnly_newDate|]. intros now. apply hp_ret. }
  intros [|]; [apply hp_sends|]. apply hp_bind; [apply hk_readOnly, readOnly_exchangeableKey|]. intros [row|].
  - apply hp_bind; [apply hk_readOnly, readOnly_newDate|]. intros now. apply hp_bind; [apply hp_db, keep_touch|]. intros _.
    apply hp_bind; [apply hp_tryCatch; [apply hp_db, keep_anomaly|intros ?; apply hp_ret]|]. intros _.
    apply hp_bind; [apply hk_readOnly, readOnly_genRandomUuid|]. intros jti.
    apply hp_bind; [apply hp_bind; [apply hk_readOnly, readOnly_newDate|intros ?; apply hp_ret]|]. intros t. apply hp_ret.
  - apply hp_bind; [|intros _; apply hp_sends].
    apply hp_bind; [apply hk_readOnly, readOnly_newDate|]. intros now. by apply hp_modify.
Qed.

Lemma keep_findLive orgId keyId : preserves keysP W (findLiveKeyState orgId keyId).
Proof.
  apply preserves_withOrg, preserves_ok, preserves_readOnly, readOnly_bind; [apply readOnly_uuidOrThrow|]. intros key.
  apply readOnly_bind; [intros w; apply sameDb_refl|]. intros rows. apply readOnly_ret.
Qed.
Lemma hk_refuse body : hkeeps (_ ← sendStatus 401 body; mret (None (A := VerifiedMachineRequest))).
Proof. apply hp_bind; [apply hp_sendStatus|]. intros _. apply hp_ret. Qed.
Lemma hk_verify authorization : hkeeps (verifyMachineRequest authorization).
Proof.
  unfold verifyMachineRequest. cbv zeta. destruct (extractBearerToken authorization) as [token|]; [|apply hk_refuse].
  apply hp_bind; [apply hp_bind; [apply hk_readOnly, readOnly_newDate|intros ?; apply hp_ret]|]. intros verified.
  destruct (verified ≫= hasWellFormedMachineClaims) as [claims|]; [|apply hk_refuse].
  apply hp_bind; [apply hk_readOnly, readOnly_uuidOrThrow|]. intros orgId.
  apply hp_bind; [apply hp_db, keep_findLive|]. intros [r|]; [|apply hk_refuse].
  apply hp_bind; [apply hk_readOnly, readOnly_newDate|]. intros now. destruct (negb _); [apply hk_refuse|apply hp_ret].
Qed.
Lemma hk_failedLookup keyId status body : hkeeps (replyAsFailedLookup keyId status body).
Proof. apply hp_bind; [apply hp_rateLimit|]. intros [|]; [apply hp_sends|apply hp_ret]. Qed.
Lemma hk_withOrgReply orgId fn : hkeeps fn -> hkeeps (withOrgReply orgId fn).
Proof.
  intros Hfn. apply hp_tryCatch.
  - apply hp_transaction, hpOk_of, hp_bind; [apply hp_failing|by intros _].
  - intros []; try apply hp_raise. apply hp_sends.
Qed.
Lemma hk_audited v request c name n f value : hkeeps (revealAudited v request c name n f value).
Proof. apply hp_bind; [apply hp_db, keep_machineAuditClosed|]. intros _. apply hp_ret. Qed.
Lemma hk_reveal v request projectId name field : hkeeps (revealForMachine v request projectId name field).
Proof.
  unfold revealForMachine. cbv zeta. apply hp_bind; [apply hk_readOnly; intros w; apply sameDb_refl|].
  intros [|c [|? ?]]; try apply hk_failedLookup.
  apply hp_bind; [apply hk_readOnly, readOnly_reveal|]. intros []; first [apply hk_failedLookup|apply hk_audited].
Qed.
Lemma hk_value request : hkeeps (machineCredentialValue request).
Proof.
  apply hp_bind; [apply hk_verify|]. intros [v|]; [|apply hp_ret]. apply hp_bind; [apply hp_rateLimit|].
  intros [|]; [|apply hp_ret]. cbn [negb]. destruct (mq_params request) as [[projectId rawName]|]; [|apply hp_sends].
  destruct (mq_field request) as [field|]; [|apply hp_sends]. destruct (decodeURIComponent rawName) as [name|]; [|apply hp_raise].
  try (destruct (negb _); [apply hp_sends|]). apply hk_withOrgReply, hp_bind; [apply hk_readOnly, readOnly_uuidOrThrow|].
  intros p. apply hk_reveal.
Qed.
Lemma hk_cache request : hkeeps (cacheActivated request).
Proof.
  apply hp_bind; [apply hk_verify|]. intros [v|]; [|apply hp_ret].
  destruct (mq_cacheBody request) as [[activatedAt threshold]|]; [|apply hp_sends].
  apply hp_bind; [apply hp_rateLimit|]. intros [|]; [|apply hp_ret]. cbn [negb]. cbv zeta. apply hp_bind.
  - apply hk_withOrgReply, hp_db, preserves_bind; [apply preserves_readOnly; by destruct (parseUuid _); read_only|]. intros u.
    apply preserves_bind; [apply keep_machineAuditClosed|]. intros _. apply preserves_bind; [apply keep_notify|].
    intros _. apply preserves_readOnly, readOnly_ret.
  - intros [|d]; [apply hp_ret|]. apply hp_bind; [by apply hp_modify|]. intros _. apply hp_ret.
Qed.

(** ** Any operation *)

Lemma hk_ignore {A} (m : H A) : hkeeps m -> hkeeps (ignore m).
Proof. intros Hm. apply hp_bind; [done|]. intros _. apply hp_ret. Qed.
Lemma hk_op op : hkeeps (runMachineOp op).
Proof.
  apply hp_bind; [by apply hp_modify|]. intros _. destruct op as [auth meta r| | | |orgIds|orgIds|orgId requestId].
  - apply hk_ignore, hp_transaction, hpOk_bind; [apply hpOk_of, hp_failing|]. intros _. apply hpOk_db, keep_serveMachine.
  - apply hk_ignore, hk_exchange.
  - apply hk_ignore, hk_value.
  - apply hk_ignore, hk_cache.
  - apply hp_db, keep_revokeOverlaps.
  - apply hk_ignore, hp_db, keep_alertOverlaps.
  - apply hk_ignore, hp_db, preserves_withOrg, preserves_ok, keep_revokeOrg.
Qed.

Lemma runMachineOps_keeps ops s : holds keysP W (sv_world s) -> holds keysP W (sv_world (runMachineOps ops s)).
Proof.
  revert s. induction ops as [|op ops IH]; intros s Hs; [done|]. cbn [runMachineOps]. apply IH.
  pose proof (hk_op op s Hs) as G. unfold hwp in G. by destruct (runMachineOp op s) as [o s'].
Qed.
End keeps.
End ops.
