(* ===== verification/MachineTheorems.v ===== *)
(** * What API keys open

    The theorems on [MachineOps]: after any requests and jobs the keys form
    chains of succession, a revoked key opens nothing, a secret is released only
    to a live key of its project and with an entry in the log, and the token an
    exchange gives is accepted. *)

From S2P Require Import Prelude Js Crypto FieldSet AuthStore Store Tx QuotaGate AuditLog Notifications Credentials Text Frames Sessions Shares Authenticate Mfa Login SessionFrames JsMap RateLimit Server CapabilityGate GateTheorems AuditPayload SecureRoute SecureRouteTheorems RouteTheorems Projects ProjectTheorems MachineKeys MachineAuth MachineOps.
From Stdlib Require Import Ascii String.
From stdpp Require Import strings pretty.

Local Open Scope string_scope.
Local Open Scope list_scope.
Local Open Scope pv_scope.

(** The table of keys satisfies [R], and what other transactions commit meanwhile keeps it. *)
Definition keysAlways (R : Keys -> Prop) (s : Server) : Prop :=
  holds (fun db => R (db_apiKeys db)) (fun f => forall db, R (db_apiKeys db) -> R (db_apiKeys (f db))) (sv_world s).

Section theorems.
Context `{Locale, Platform, NodeCrypto, Env, Unicode, ProcessEnv, Postgres, MachineJwtLibrary, UnicodeCategories, OtpAuth}.

Lemma keysAlways_ops R `{!KeyInvariant R} ops s : keysAlways R s -> keysAlways R (runMachineOps ops s).
Proof. apply (runMachineOps_keeps R). auto. Qed.

(** ** Steps of a request *)

Lemma hwp_db {A} (m : M A) (Q : Outcome A -> Server -> Prop) s :
  wp m (fun o w' => Q o (s <| sv_world := w' |>)) (sv_world s) -> hwp (db m) Q s.
Proof. unfold hwp, db, wp. by destruct (m (sv_world s)). Qed.

Lemma hwp_run {A B} (m : H A) (k : A -> H B) (Q : Outcome B -> Server -> Prop) s a s' :
  m s = (Ok a, s') -> hwp (k a) Q s' -> hwp (m ≫= k) Q s.
Proof. intros E. unfold hwp, mbind, H_bind. by rewrite E. Qed.

(** The tables are as before, whatever the outcome. *)
Definition sameTables (s s' : Server) : Prop := w_db (sv_world s') = w_db (sv_world s).
Definition quietly {A} (m : H A) : Prop := forall s, hwp m (fun _ s' => sameTables s s') s.

Lemma quietly_frame {A} (m : H A) : (forall d, hpreserves (fun db => db = d) (fun _ => True) m) -> quietly m.
Proof.
  intros Hm s. eapply hwp_mono; [by apply (Hm (w_db (sv_world s)))|]. by intros o s' [E _].
Qed.
Lemma quietly_sends n body : quietly (sends n body).
Proof. apply quietly_frame. intros d. apply hp_sends. Qed.
Lemma quietly_limit i : quietly (enforceUserRateLimit i).
Proof. apply quietly_frame. intros d. apply hp_rateLimit. Qed.
Lemma quietly_readOnly {A} (m : M A) : readOnly m -> quietly (db m).
Proof. intros Hm s. apply hwp_db. eapply wp_mono; [apply Hm|]. by intros o w' [n ->]. Qed.
Lemma quietly_failedLookup keyId n body : quietly (replyAsFailedLookup keyId n body).
Proof. apply quietly_frame. intros d. apply hp_bind; [apply hp_rateLimit|]. intros [|]; [apply hp_sends|apply hp_ret]. Qed.

(** A step that leaves the tables, before the rest. *)
Lemma hwp_quiet {A B} (m : H A) (k : A -> H B) (Q : Outcome B -> Server -> Prop) s :
  quietly m -> (forall e s', sameTables s s' -> Q (Throw e) s') ->
  (forall a s', sameTables s s' -> hwp (k a) Q s') -> hwp (m ≫= k) Q s.
Proof. intros Hm Ht Hk. apply hwp_bind. eapply hwp_mono; [apply Hm|]. intros [a|e] s' Hs'; auto. Qed.

Lemma elem_of_joined {R S} (p : R -> S -> bool) l k x y :
  head (List.filter (fun rs : R * S => p rs.1 rs.2) (list_prod l k)) = Some (x, y) -> x ∈ l /\ y ∈ k /\ p x y = true.
Proof.
  intros Hh. apply head_elem_of, elem_of_lfilter in Hh as [Hp Hin]. rewrite list_elem_of_In in Hin.
  apply in_prod_iff in Hin as [Hx Hy]. by rewrite !list_elem_of_In.
Qed.

(** ** The check of a token *)

(** The bearer token is one of the key [k] of the user [m]: its claims, verified at [at1], name the key; the key is
    live at [at2]. *)
Record VerifiedBy (authorization : option string) (d : Db) (v : VerifiedMachineRequest) (k : ApiKeyRow) (m : MachineUserRow)
    (at1 at2 : Date) : Prop := {
  vb_token : exists token claims, extractBearerToken authorization = Some token
    /\ fastJwtVerify at1 token ≫= hasWellFormedMachineClaims = Some claims
    /\ parseUuid (mc_orgId claims) = Some (vmr_orgId v)
    /\ v = MkVerifiedMachineRequest (mc_sub claims) (vmr_orgId v) (mc_scope claims) (mc_keyId claims) (mu_role m);
  vb_key : k ∈ db_apiKeys d;
  vb_user : m ∈ db_machineUsers d;
  vb_keyId : parseUuid (vmr_keyId v) = Some (ak_id k);
  vb_orgs : ak_orgId k = vmr_orgId v /\ mu_orgId m = vmr_orgId v;
  vb_owner : mu_id m = ak_machineUserId k;
  vb_live : isMachineKeyLive (validityOf k m) at2 = true;
}.

Lemma uuidOrThrow_spec text w :
  wp (uuidOrThrow text) (fun o w' => w' = w /\ forall u, o = Ok u -> parseUuid text = Some u) w.
Proof. unfold uuidOrThrow. destruct (parseUuid text) as [u|]; [apply wp_ret|apply wp_throw]; split; congruence. Qed.

Lemma findLive_spec orgId keyId w :
  wp (findLiveKeyState orgId keyId) (fun o w' => w_db w' = w_db w /\ forall r, o = Ok (Some r) ->
    exists k m, k ∈ db_apiKeys (w_db w) /\ m ∈ db_machineUsers (w_db w) /\ parseUuid keyId = Some (ak_id k) /\
      ak_orgId k = orgId /\ mu_orgId m = orgId /\ mu_id m = ak_machineUserId k /\ r = MkLiveKeyState (validityOf k m) (mu_role m)) w.
Proof.
  apply wp_withOrg, wp_bind. eapply wp_mono; [apply uuidOrThrow_spec|]. intros [key|e] w1 [-> Hkey]; [|by split].
  specialize (Hkey key eq_refl). unfold wp, mbind, M_bind, selectJoined, mret, M_ret. cbv beta iota. split; [done|].
  intros r [= Hr]. destruct (head _) as [[k m]|] eqn:Eh; [|done]. injection Hr as <-.
  apply elem_of_joined in Eh as (Hk & Hm & Hp). unfold keyWithUser, keyIn, userIn in Hp. bool_simpl.
  exists k, m. repeat split; congruence.
Qed.

Lemma findLive_returns orgId keyId u w :
  parseUuid keyId = Some u -> wp (findLiveKeyState orgId keyId) (fun o _ => exists r, o = Ok r) w.
Proof.
  intros E. apply wp_withOrg. unfold uuidOrThrow. rewrite E. unfold wp, mbind, M_bind, selectJoined, mret, M_ret.
  cbv beta iota. by eexists.
Qed.

Lemma quietly_refuse body : quietly (_ ← sendStatus 401 body; mret (None (A := VerifiedMachineRequest))).
Proof. apply quietly_frame. intros d. apply hp_bind; [apply hp_sendStatus|]. intros _. apply hp_ret. Qed.

Lemma refuse_spec body s :
  hwp (_ ← sendStatus 401 body; mret (None (A := VerifiedMachineRequest)))
    (fun o s' => sameTables s s' /\ forall v, o <> Ok (Some v)) s.
Proof.
  pose proof (quietly_refuse body s) as Hq. unfold hwp in *. unfold sendStatus, replySend in *.
  unfold mbind, H_bind, replyStatus, modify in *. cbn in *. destruct (rp_guarded _); [by split|]. by destruct (rp_sent _).
Qed.

Lemma verify_spec authorization s :
  hwp (verifyMachineRequest authorization) (fun o s' => sameTables s s' /\
    forall v, o = Ok (Some v) -> exists k m at1 at2, VerifiedBy authorization (w_db (sv_world s)) v k m at1 at2) s.
Proof.
  assert (Hrefuse : forall body s1, sameTables s s1 ->
    hwp (_ ← sendStatus 401 body; mret (None (A := VerifiedMachineRequest))) (fun o s' => sameTables s s' /\
    forall v, o = Ok (Some v) -> exists k m at1 at2, VerifiedBy authorization (w_db (sv_world s)) v k m at1 at2) s1).
  { intros body s1 E. eapply hwp_mono; [apply refuse_spec|]. intros o s' [E' Hn]. split; [unfold sameTables in *; congruence|].
    intros v ->. by destruct (Hn v). }
  unfold verifyMachineRequest. cbv zeta. destruct (extractBearerToken authorization) as [token|] eqn:Et; [|by apply Hrefuse].
  set (at1 := clock (w_tick (sv_world s))).
  assert (Ev : machineJwtVerify token s = (Ok (fastJwtVerify at1 token), s <| sv_world ::= fun w => w <| w_tick ::= S |> |>)) by done.
  apply (hwp_run _ _ _ _ _ _ Ev). set (s1 := s <| sv_world ::= _ |>).
  destruct (fastJwtVerify at1 token ≫= hasWellFormedMachineClaims) as [claims|] eqn:Ec; [|by apply Hrefuse].
  apply hwp_bind, hwp_db. eapply wp_mono; [apply uuidOrThrow_spec|]. intros [orgId|e] w2 [-> Ho]; [|by split].
  specialize (Ho orgId eq_refl). apply hwp_bind, hwp_db. eapply wp_mono; [apply findLive_spec|].
  intros [[r|]|e] w3 [Ew Hr]; [|by apply Hrefuse|by split].
  destruct (Hr r eq_refl) as (k & m & Hk & Hm & Hid & Eko & Emo & Emk & ->).
  set (s3 := s1 <| sv_world := _ |> <| sv_world := w3 |>). change (w_db (sv_world s3) = w_db (sv_world s)) in Ew.
  set (at2 := clock (w_tick w3)).
  change (hwp (if negb (isMachineKeyLive (validityOf k m) at2) then
                 _ ← sendStatus 401 INVALID_MACHINE_TOKEN; mret None
               else mret (Some (MkVerifiedMachineRequest (mc_sub claims) orgId (mc_scope claims) (mc_keyId claims) (mu_role m))))
            (fun o s' => sameTables s s' /\
    forall v, o = Ok (Some v) -> exists k m at1 at2, VerifiedBy authorization (w_db (sv_world s)) v k m at1 at2)
            (s3 <| sv_world ::= fun w => w <| w_tick ::= S |> |>)).
  destruct (isMachineKeyLive _ at2) eqn:El; cbn [negb]; [|by apply Hrefuse].
  split; [done|]. intros v [= <-]. exists k, m, at1, at2. split; try done. by exists token, claims.
Qed.
(** ** The release of a secret *)

(** What a reveal gives: the version and the members of the reply. *)
Definition revealedParts (result : RevealCurrentValueResult) : option (Z * list (string * Json)) :=
  match result with
  | FoundFields fields _ versionNumber _ _ => Some (versionNumber, [("fields", JArr (map fieldJson fields))])
  | FoundValue value versionNumber _ _ => Some (versionNumber, [("value", JStr value)])
  | _ => None
  end.

Definition machinePayload (v : VerifiedMachineRequest) (payload : list (string * Json)) : list (string * Json) :=
  spreadSet (spreadSet payload "machineUserId" (JStr (vmr_machineUserId v))) "keyId" (JStr (vmr_keyId v)).

(** One entry more in the log, and the counters of its gates. *)
Definition oneEntry (E : AuditRow -> Prop) (d d' : Db) : Prop :=
  exists row usage seq, E row /\ d' = d <| db_usage := usage |> <| db_auditSeq := seq |> <| db_audit := db_audit d ++ [row] |>.

(** The only credential of the name in the project of the token, read at its current version, with its entry. *)
Record Released (request : MachineRequest) (d : Db) (data : option Json) (d' : Db)
    (v : VerifiedMachineRequest) (projectId : Uuid) (credential : CredentialRow) (versionNumber : Z) : Prop := {
  rl_verified : exists k m at1 at2, VerifiedBy (mq_authorization request) d v k m at1 at2;
  rl_project : parseUuid (vmr_projectId v) = Some projectId;
  rl_asked : exists rawName, mq_params request = Some (vmr_projectId v, rawName)
    /\ decodeURIComponent rawName = Some (cred_name credential);
  rl_only : List.filter (credentialNamed (vmr_orgId v) projectId (cred_name credential)) (db_credentials d) = [credential];
  rl_value : exists field w result w' value, mq_field request = Some field /\ w_db w = d
    /\ revealCurrentValue (cred_id credential) projectId field w = (Ok result, w')
    /\ revealedParts result = Some (versionNumber, value)
    /\ data = dataBody (JObj ([("name", JStr (cred_name credential))] ++ value
                ++ [("versionNumber", JInt versionNumber); ("cacheable", JBool (cred_cacheable credential))]));
  rl_entry : oneEntry (entryBy (vmr_orgId v) "machine_user" "credential.value_revealed" "credential" (cred_id credential) None
      (machinePayload v ([("versionNumber", JInt versionNumber); ("name", JStr (cred_name credential))]
         ++ parseClientInvocationContext (mq_invocation request) (mq_targetCommand request)))) d d';
}.

(** Refusals: nothing is written and no data is returned. *)
Definition refusal (s : Server) (o : Outcome HandlerValue) (s' : Server) : Prop :=
  sameTables s s' /\ forall d, o <> Ok (returned_data d).

Lemma refusal_sends n body s : hwp (sends n body) (refusal s) s.
Proof.
  pose proof (quietly_sends n body s) as Hq. unfold hwp in *. unfold sends, sendStatus, replySend in *.
  unfold mbind, H_bind, replyStatus, modify in *. cbn in *. destruct (rp_guarded _); [by split|]. by destruct (rp_sent _).
Qed.
Lemma refusal_trans s1 s2 o s3 : sameTables s1 s2 -> refusal s2 o s3 -> refusal s1 o s3.
Proof. intros E [E' Hn]. split; [unfold sameTables in *; congruence|done]. Qed.
Lemma refusal_reply s s' : sameTables s s' -> refusal s (Ok returned_reply) s'.
Proof. by split. Qed.
Lemma refusal_throw s s' e : sameTables s s' -> refusal s (Throw e) s'.
Proof. by split. Qed.
Lemma refusal_failedLookup keyId n body s : hwp (replyAsFailedLookup keyId n body) (refusal s) s.
Proof.
  apply hwp_quiet; [apply quietly_limit|intros e s'; by apply refusal_throw|]. intros [|] s' Hs'; cbn [negb].
  - eapply hwp_mono; [apply refusal_sends|]. intros o s''. by apply refusal_trans.
  - by apply refusal_reply.
Qed.

Lemma machineAudit_spec orgId eventType resourceType resourceId v payload f meta w :
  vmr_orgId v = orgId ->
  wp (writeMachineAuditEntryOrFailClosed orgId eventType resourceType resourceId (vmr_machineUserId v) (vmr_keyId v) payload f meta)
    (wrote (entryBy orgId "machine_user" eventType resourceType resourceId None (machinePayload v payload)) w) w.
Proof.
  intros <-. apply wp_rethrow. unfold writeMachineAuditEntry. cbv zeta. apply wp_bind.
  eapply wp_mono; [apply gates_frame|]. intros [[]|e] w2 Hw2; [|done].
  eapply wp_mono; [apply appendAuditRow_rows|]. intros [row|e] w3 Hrow; [|done].
  destruct (Hrow row eq_refl) as [Hw3 Hentry]. exists row. split; [|exact Hentry].
  change [row] with ([] ++ [row]). eapply rowsMore_trans; [by apply rowsMore_usage|exact Hw3].
Qed.

Lemma oneEntry_of E w w' row : rowsMore w w' [row] -> E row -> oneEntry E (w_db w) (w_db w').
Proof. intros (n & u & q & ->) HE. by exists row, u, q. Qed.

(** A transaction of the machine routes: what its computation throws is undone. *)
Lemma hwp_withOrgReply orgId fn (Q : Outcome HandlerValue -> Server -> Prop) s :
  (forall s1, sameTables s s1 -> hwp fn (fun o s' => forall r, o = Ok r -> Q (Ok r) s') s1) ->
  (forall o s', refusal s o s' -> Q o s') -> hwp (withOrgReply orgId fn) Q s.
Proof.
  intros Hfn Hr. apply hwp_tryCatch. set (m := _ ← setRlsOrgContext orgId; fn).
  set (s1 := s <| sv_world := (sv_world s) <| w_tick ::= S |> <| w_now := clock (w_tick (sv_world s)) |> |>).
  assert (Hu : forall e s', hwp (match e with SameTransactionAuditWriteError _ => sends 503 AUDIT_WRITE_FAILED | _ => raise e end) Q
                 (s' <| sv_world ::= fun w => w <| w_db := w_db (sv_world s) |> |>)).
  { intros e s'. set (s2 := s' <| sv_world ::= _ |>). assert (E2 : sameTables s s2) by done.
    destruct e; try by apply Hr, refusal_throw. eapply hwp_mono; [apply refusal_sends|]. intros o s3 Hs3.
    apply Hr. by eapply refusal_trans. }
  assert (Hm : hwp m (fun o s' => forall r, o = Ok r -> Q (Ok r) s') s1).
  { unfold m, setRlsOrgContext, failing, hwp, mbind, H_bind. destruct (setConfigFails _ _); [done|]. by apply Hfn. }
  unfold hwp at 1. unfold hwp at 1 in Hm. destruct (m s1) as [o s2] eqn:E. rewrite (requestTransaction_eq _ _ _ _ E).
  destruct o as [r|e]; [|apply Hu]. destruct (commitFails _); [apply (Hu DatabaseError)|]. by apply Hm.
Qed.

Definition releasedOr (request : MachineRequest) (s : Server) (o : Outcome HandlerValue) (s' : Server) : Prop :=
  refusal s o s' \/
  exists data v projectId credential versionNumber, o = Ok (returned_data data) /\
    Released request (w_db (sv_world s)) data (w_db (sv_world s')) v projectId credential versionNumber.

Lemma reveal_spec v request projectId name field rawName s :
  (exists k m at1 at2, VerifiedBy (mq_authorization request) (w_db (sv_world s)) v k m at1 at2) ->
  parseUuid (vmr_projectId v) = Some projectId -> mq_params request = Some (vmr_projectId v, rawName) ->
  mq_field request = Some field -> decodeURIComponent rawName = Some name ->
  hwp (revealForMachine v request projectId name field) (fun o s' => forall r, o = Ok r -> releasedOr request s (Ok r) s') s.
Proof.
  intros Hv Hp Hq Hf Hd. unfold revealForMachine. cbv zeta.
  assert (Hfail : forall n body s1, sameTables s s1 ->
    hwp (replyAsFailedLookup (vmr_keyId v) n body) (fun o s' => forall r, o = Ok r -> releasedOr request s (Ok r) s') s1).
  { intros n body s1 E1. eapply hwp_mono; [apply refusal_failedLookup|]. intros o s' Hs r ->. left. by eapply refusal_trans. }
  set (matches := List.filter (credentialNamed (vmr_orgId v) projectId name) (db_credentials (w_db (sv_world s)))).
  assert (Em : db (findCredentialByNameInProject (vmr_orgId v) projectId name) s = (Ok matches, s)) by (by destruct s).
  apply (hwp_run _ _ _ _ _ _ Em). destruct matches as [|c [|c2 l]] eqn:El; [by apply Hfail| |by apply Hfail].
  assert (Hname : name = cred_name c).
  { assert (Hc : c ∈ matches) by (rewrite El; apply list_elem_of_singleton; done).
    apply elem_of_lfilter in Hc as [Hc _]. unfold credentialNamed in Hc. by bool_simpl. }
  pose proof (readOnly_reveal (cred_id c) projectId field (sv_world s)) as Hro. unfold wp in Hro.
  destruct (revealCurrentValue (cred_id c) projectId field (sv_world s)) as [[result|e] w1] eqn:Er.
  2: { apply hwp_bind. unfold hwp at 1, db. by rewrite Er. }
  apply (hwp_run _ _ _ _ result (s <| sv_world := w1 |>)); [unfold db; by rewrite Er|].
  assert (E1 : sameTables s (s <| sv_world := w1 |>)) by (by destruct Hro as [n ->]). set (s1 := s <| sv_world := w1 |>) in *.
  assert (Haudit : forall n f value, revealedParts result = Some (n, value) ->
    hwp (revealAudited v request c name n f value) (fun o s' => forall r, o = Ok r -> releasedOr request s (Ok r) s') s1).
  { intros n f value Hparts. apply hwp_bind, hwp_db. eapply wp_mono; [by apply machineAudit_spec|].
    intros [[]|e] w2 Hw2; [|done]. intros r [= <-]. right. do 5 eexists. split; [reflexivity|]. subst name. split; try done.
    - by exists rawName.
    - by exists field, (sv_world s), result, w1, value.
    - destruct Hw2 as (row & Hrows & Hentry). unfold sameTables in E1. rewrite <- E1.
      exact (oneEntry_of _ _ _ _ Hrows Hentry). }
  destruct result; first [by apply Hfail|by apply Haudit].
Qed.

Lemma releasedOr_trans request s1 s2 o s3 : sameTables s1 s2 -> releasedOr request s2 o s3 -> releasedOr request s1 o s3.
Proof.
  intros E [Hr|(data & v & p & c & n & -> & Hr)]; [left; by eapply refusal_trans|].
  right. exists data, v, p, c, n. split; [done|]. unfold sameTables in E. by rewrite <- E.
Qed.

(** C12: a request for the value of a credential by a machine releases a value only for a token whose key exists, is
    live and is of the organisation of the token; the project asked for is the one of the token, the credential the
    only one of its name in that project, the value its current version, and exactly one entry, naming the key and
    the version, is added to the audit log. Whatever else happens, an exception included, the database is as it was
    and no data is returned. *)
Theorem machine_reveal_confined request s :
  hwp (machineCredentialValue request) (releasedOr request s) s.
Proof.
  apply hwp_bind. eapply hwp_mono; [apply verify_spec|]. intros [[v|]|e] s1 [E1 Hv]; [|left; by apply refusal_reply|left; by apply refusal_throw].
  specialize (Hv v eq_refl). apply hwp_quiet; [apply quietly_limit|intros e s2 E2; left; apply refusal_throw; unfold sameTables in *; congruence|].
  intros within s2 E2. assert (E12 : sameTables s s2) by (unfold sameTables in *; congruence).
  assert (Hsend : forall n body, hwp (sends n body) (releasedOr request s) s2).
  { intros n body. eapply hwp_mono; [apply refusal_sends|]. intros o s3 Hs3. left. by eapply refusal_trans. }
  destruct within; cbn [negb]; [|left; by apply refusal_reply].
  destruct (mq_params request) as [[projectText rawName]|] eqn:Eq; [|apply Hsend].
  destruct (mq_field request) as [field|] eqn:Ef; [|apply Hsend].
  destruct (decodeURIComponent rawName) as [name|] eqn:Ed; [|left; by apply refusal_throw].
  case_bool_decide as Ep; cbn [negb]; [subst projectText|apply Hsend].
  apply hwp_withOrgReply; [|intros o s3 Hs3; left; by eapply refusal_trans].
  intros s3 E3. apply hwp_bind, hwp_db. eapply wp_mono; [apply uuidOrThrow_spec|]. intros [p|e] w4 [-> Hp]; [|done].
  assert (E13 : sameTables s (s3 <| sv_world := sv_world s3 |>)) by (unfold sameTables in *; cbn; congruence).
  eapply hwp_mono; [eapply (reveal_spec v request p name field rawName)|]; try done.
  - unfold sameTables in E13. by rewrite E13.
  - by apply Hp.
  - intros o s5 Hr r ->. eapply releasedOr_trans; [exact E13|]. by apply Hr.
Qed.

(** ** Revocation *)

(** The data of an exchange: the token signed for [row], a live key whose digest is that of the bearer token. *)
Record Exchanged (authorization : option string) (d : Db) (data : option Json) (row : ApiKeyByHashRow) (at1 at2 : Date)
    (jti : Uuid) : Prop := {
  ex_token : exists token, extractBearerToken authorization = Some token /\ apiKeysMatch (ak_keyHash (abh_key row)) token = true;
  ex_key : abh_key row ∈ db_apiKeys d;
  ex_user : abh_user row ∈ db_machineUsers d;
  ex_owner : mu_id (abh_user row) = ak_machineUserId (abh_key row);
  ex_project : mu_projectId (abh_user row) = Some (abh_projectId row);
  ex_live : isMachineKeyLive (validityOf (abh_key row) (abh_user row)) at1 = true;
  ex_data : data = dataBody (JObj [("accessToken", JStr (fastJwtSign at2 (MACHINE_JWT_TTL_SECONDS * 1000) (machineClaims row jti)));
                                   ("tokenType", JStr "Bearer"); ("expiresIn", JInt MACHINE_JWT_TTL_SECONDS)]);
}.

Lemma exchangeable_spec token keyHash w :
  wp (exchangeableKey token keyHash) (fun o w' => sameDb w w' /\ forall row, o = Ok (Some row) ->
    abh_key row ∈ db_apiKeys (w_db w) /\ abh_user row ∈ db_machineUsers (w_db w) /\
    mu_id (abh_user row) = ak_machineUserId (abh_key row) /\ mu_projectId (abh_user row) = Some (abh_projectId row) /\
    apiKeysMatch (ak_keyHash (abh_key row)) token = true /\
    exists at1, isMachineKeyLive (validityOf (abh_key row) (abh_user row)) at1 = true) w.
Proof.
  unfold exchangeableKey, findApiKeyByHash. apply wp_bind. unfold wp at 1, mbind at 1, M_bind, selectJoined, mret at 1, M_ret.
  cbv beta iota. destruct (head _) as [[k m]|] eqn:Eh; cbn [mbind option_bind].
  2: { split; [apply sameDb_refl|done]. }
  destruct (elem_of_joined (fun k m => (mu_id m =? ak_machineUserId k) && (ak_keyHash k =? keyHash)) _ _ _ _ Eh) as (Hk & Hm & Hp).
  bool_simpl. destruct (mu_projectId m) as [p|] eqn:Em; cbn [mbind option_bind].
  2: { split; [apply sameDb_refl|done]. }
  destruct (apiKeysMatch (ak_keyHash (abh_key (MkApiKeyByHashRow k m p))) token) eqn:Ea; cbn [negb].
  2: { split; [apply sameDb_refl|done]. }
  apply wp_newDate, wp_ret. split; [by exists (S (w_tick w))|]. intros row.
  destruct (isApiKeyValidForExchange _ _) eqn:El; [|done]. intros [= <-]. cbn in *. repeat split; try done.
  by eexists.
Qed.

(** The token is signed at the last reading of the clock. *)
Lemma exchange_spec authorization s :
  hwp (exchangeToken authorization) (fun o s' => forall data, o = Ok (returned_data data) ->
    exists row at1 n jti, w_tick (sv_world s') = S n /\ Exchanged authorization (w_db (sv_world s)) data row at1 (clock n) jti) s.
Proof.
  unfold exchangeToken. assert (Hs : forall n body s1, hwp (sends n body) (fun o s' => forall data, o = Ok (returned_data data) ->
    exists row at1 n jti, w_tick (sv_world s') = S n /\ Exchanged authorization (w_db (sv_world s)) data row at1 (clock n) jti) s1).
  { intros n body s1. eapply hwp_mono; [apply refusal_sends|]. intros o s' [_ Hn] data E. by destruct (Hn data). }
  destruct (extractBearerToken authorization) as [token|] eqn:Et; [|apply Hs]. destruct (negb _); [apply Hs|]. cbv zeta.
  apply hwp_quiet; [|done|].
  { apply quietly_frame. intros d. unfold isKeyHashRateLimited. destruct (negb _); [apply hp_ret|].
    apply hp_bind; [apply hp_gets|]. intros [b|]; [|apply hp_ret].
    apply hp_bind; [apply hp_db, preserves_readOnly, readOnly_newDate|]. intros now. apply hp_ret. }
  intros [|] s1 E1; [apply Hs|]. apply hwp_bind, hwp_db. eapply wp_mono; [apply exchangeable_spec|].
  intros [[row|]|e] w2 [_ Hrow]; [| |done].
  2: { apply hwp_bind. unfold hwp at 1. destruct (recordFailedKeyHashAttempt _ _) as [[[]|e] s3]; [apply Hs|done]. }
  destruct (Hrow row eq_refl) as (Hk & Hm & Ho & Hp & Ha & at1 & Hl). unfold sameTables in E1. rewrite E1 in Hk, Hm.
  set (s2 := s1 <| sv_world := w2 |>). clearbody s2.
  apply hwp_bind. unfold hwp at 1. destruct (db newDate s2) as [[now|e] s3]; [|done].
  apply hwp_bind. unfold hwp at 1. destruct (db (touchApiKeyLastUsed _ now) s3) as [[[]|e] s4]; [|done].
  apply hwp_bind. unfold hwp at 1. destruct (tryCatch _ _ s4) as [[[]|e] s5]; [|done].
  apply hwp_bind. unfold hwp at 1. destruct (db genRandomUuid s5) as [[jti|e] s6]; [|done].
  intros data [= <-]. exists row, at1, (w_tick (sv_world s6)), jti. split; [done|]. split; try done. by exists token.
Qed.

Lemma revoked_not_live keyId l k m at1 :
  RevokedKey keyId l -> k ∈ l -> isMachineKeyLive (validityOf k m) at1 = true -> ak_id k <> keyId.
Proof. intros [_ Hr] Hk Hl E. specialize (Hr k Hk E). unfold isMachineKeyLive in Hl. cbn in Hl. by rewrite Hr in Hl. Qed.

(** The bearer token has claims that name the key. *)
Definition bearerNames (keyId : Uuid) (at1 : Date) (authorization : option string) : Prop :=
  exists token claims, extractBearerToken authorization = Some token
    /\ fastJwtVerify at1 token ≫= hasWellFormedMachineClaims = Some claims /\ parseUuid (mc_keyId claims) = Some keyId.

(** The request was answered 401, and nothing was written. *)
Definition turnedAway (s s' : Server) : Prop :=
  sameTables s s' /\ rp_sent (sv_reply s') = Some (401%Z, Some INVALID_MACHINE_TOKEN).

Lemma refuse_fresh s : rp_sent (sv_reply s) = None -> rp_guarded (sv_reply s) = false ->
  hwp (_ ← sendStatus 401 INVALID_MACHINE_TOKEN; mret (None (A := VerifiedMachineRequest)))
    (fun o s' => o = Ok None /\ turnedAway s s') s.
Proof.
  intros Es Eg. unfold hwp, sendStatus, replySend, mbind, H_bind, replyStatus, modify. cbn. by rewrite Eg, Es.
Qed.

Lemma verify_revoked keyId authorization s :
  RevokedKey keyId (db_apiKeys (w_db (sv_world s))) -> bearerNames keyId (clock (w_tick (sv_world s))) authorization ->
  rp_sent (sv_reply s) = None -> rp_guarded (sv_reply s) = false ->
  hwp (verifyMachineRequest authorization) (fun o s' => o = Ok None /\ turnedAway s s') s.
Proof.
  intros Hr (token & claims & Et & Ec & Ek) Es Eg. unfold verifyMachineRequest. cbv zeta. rewrite Et.
  assert (Hrefuse : forall s1, sameTables s s1 -> sv_reply s1 = sv_reply s ->
    hwp (_ ← sendStatus 401 INVALID_MACHINE_TOKEN; mret (None (A := VerifiedMachineRequest)))
      (fun o s' => o = Ok None /\ turnedAway s s') s1).
  { intros s1 E1 Er. eapply hwp_mono; [apply refuse_fresh; by rewrite Er|]. intros o s' [-> [E2 Hs]].
    split; [done|]. split; [unfold sameTables in *; congruence|done]. }
  assert (Ev : machineJwtVerify token s = (Ok (fastJwtVerify (clock (w_tick (sv_world s))) token), s <| sv_world ::= fun w => w <| w_tick ::= S |> |>)) by done.
  apply (hwp_run _ _ _ _ _ _ Ev). rewrite Ec. set (s1 := s <| sv_world ::= _ |>).
  assert (Ho : exists o, parseUuid (mc_orgId claims) = Some o).
  { destruct (fastJwtVerify _ token) as [p|]; [|done]. cbn [mbind option_bind] in Ec. unfold hasWellFormedMachineClaims in Ec.
    destruct (strClaim "orgId" p) as [o|], (strClaim "keyId" p), (strClaim "sub" p), (strClaim "scope" p); try done.
    unfold isUuid in Ec. destruct (parseUuid o) as [u|] eqn:Eu; [|done]. cbn in Ec. injection Ec as <-. by exists u. }
  destruct Ho as [orgId Ho]. apply hwp_bind, hwp_db. unfold uuidOrThrow. rewrite Ho. apply wp_ret.
  apply hwp_bind, hwp_db. unfold wp.
  pose proof (findLive_spec orgId (mc_keyId claims) (sv_world s1)) as Hf.
  pose proof (findLive_returns orgId (mc_keyId claims) keyId (sv_world s1) Ek) as Hx. unfold wp in Hf, Hx.
  change (sv_world (s1 <| sv_world := sv_world s1 |>)) with (sv_world s1).
  destruct (findLiveKeyState orgId (mc_keyId claims) (sv_world s1)) as [o w2]. destruct Hx as [r ->]. destruct Hf as [Ew Hf].
  destruct r as [r|]; [|by apply Hrefuse]. destruct (Hf r eq_refl) as (k & m & Hk & _ & Ekk & _ & _ & _ & ->).
  assert (El : forall t, isMachineKeyLive (validityOf k m) t = false).
  { intros t. apply not_true_is_false. intros El. apply (revoked_not_live keyId _ k m t Hr Hk El). congruence. }
  apply hwp_bind, hwp_db. unfold wp, newDate. cbn [lks_validity]. rewrite El. by apply Hrefuse.
Qed.

(** C13: Once an API key is revoked, whatever requests and jobs follow and whatever other transactions commit
    meanwhile: an exchange gives a token only for another key, which is live; no bearer token is accepted for the
    revoked key; and a request for a value whose token names it is answered 401 and changes nothing. *)
Theorem revoked_key_stays_out keyId ops s :
  keysAlways (RevokedKey keyId) s ->
  let s' := runMachineOps ops s in
  (forall authorization, hwp (exchangeToken authorization) (fun o _ => forall data, o = Ok (returned_data data) ->
     exists row at1 at2 jti, Exchanged authorization (w_db (sv_world s')) data row at1 at2 jti /\ ak_id (abh_key row) <> keyId) s') /\
  (forall authorization, hwp (verifyMachineRequest authorization) (fun o _ =>
     forall v, o = Ok (Some v) -> parseUuid (vmr_keyId v) <> Some keyId) s') /\
  (forall request, bearerNames keyId (clock (w_tick (sv_world s'))) (mq_authorization request) ->
     let fresh := s' <| sv_reply := freshReply |> in
     hwp (machineCredentialValue request) (fun o s2 => o = Ok returned_reply /\ turnedAway fresh s2) fresh).
Proof.
  intros Ha s'. pose proof (proj1 (keysAlways_ops _ ops s Ha)) as Hr. fold s' in Hr. cbv beta in Hr. split_and!.
  - intros authorization. eapply hwp_mono; [apply exchange_spec|]. intros o s2 Hx data E.
    destruct (Hx data E) as (row & at1 & n & jti & _ & Hex). exists row, at1, (clock n), jti. split; [done|].
    eapply (revoked_not_live keyId); [exact Hr|apply Hex|apply Hex].
  - intros authorization. eapply hwp_mono; [apply verify_spec|]. intros o s2 [_ Hv] v E.
    destruct (Hv v E) as (k & m & at1 & at2 & Hver). rewrite (vb_keyId _ _ _ _ _ _ _ Hver). intros [= Ek].
    revert Ek. eapply (revoked_not_live keyId); [exact Hr|apply Hver|apply Hver].
  - intros request Hb fresh. apply hwp_bind. eapply hwp_mono; [by apply (verify_revoked keyId)|]. by intros o s2 [-> Ht].
Qed.

(** C14: The keys stay in chains of succession whatever requests and jobs run and whatever other transactions commit
    meanwhile: identifiers are unique, a key that names a predecessor names one that is there, of the same
    organisation and machine user, and revoked or in its overlap, and no two keys succeed the same key. *)
Theorem key_succession_kept ops s :
  keysAlways KeysOk s -> KeysOk (db_apiKeys (w_db (sv_world (runMachineOps ops s)))).
Proof. intros Ha. exact (proj1 (keysAlways_ops _ ops s Ha)). Qed.
End theorems.

(** ** The token of an exchange *)

(** What fast-jwt documents: within its time a signed token verifies to the claims that were signed ([iat] and [exp]
    are its own), and a token in compact form is a text without white space. *)
Class MachineJwtLaws `{MachineJwtLibrary, Unicode} : Prop := {
  jwt_verify : forall at1 ttl claims at2, (at1 <= at2 <= at1 + ttl - 1000)%Z ->
    exists payload, fastJwtVerify at2 (fastJwtSign at1 ttl claims) = Some payload /\
      forall name v, name <> "iat" -> name <> "exp" -> strClaim name claims = Some v -> strClaim name payload = Some v;
  jwt_compact : forall at1 ttl claims, fastJwtSign at1 ttl claims <> EmptyString
    /\ trim (fastJwtSign at1 ttl claims) = fastJwtSign at1 ttl claims;
}.

Section roundtrip.
Context `{Locale, Platform, NodeCrypto, Env, Unicode, ProcessEnv, Postgres, MachineJwtLibrary, UnicodeCategories, OtpAuth}.
Context `{!MachineJwtLaws}.

Lemma substring_all t n : (String.length t <= n)%nat -> String.substring 0 n t = t.
Proof. revert n. induction t as [|c t IH]; intros [|n] Hn; cbn in *; try done; [lia|]. rewrite IH; [done|lia]. Qed.

Lemma extractBearer_token t : t <> EmptyString -> trim t = t -> extractBearerToken (Some (BEARER_PREFIX +:+ t)) = Some t.
Proof.
  intros Hn Ht. unfold extractBearerToken. replace (String.prefix _ _) with true by (by destruct t).
  replace (String.substring _ _ _) with (String.substring 0 (S (S (S (S (S (S (S (String.length t)))))))) t) by (by destruct t).
  rewrite substring_all by lia. rewrite Ht. by rewrite bool_decide_eq_false_2.
Qed.

(** The row of the join is the only one. *)
Lemma joined_unique {R S} (p : R -> S -> bool) l k x y :
  x ∈ l -> y ∈ k -> p x y = true ->
  (forall x' y', x' ∈ l -> y' ∈ k -> p x' y' = true -> x' = x /\ y' = y) ->
  head (List.filter (fun rs : R * S => p rs.1 rs.2) (list_prod l k)) = Some (x, y).
Proof.
  intros Hx Hy Hp Hu. destruct (head _) as [[x' y']|] eqn:Eh.
  - destruct (elem_of_joined p l k x' y' Eh) as (Hx' & Hy' & Hp'). by destruct (Hu x' y' Hx' Hy' Hp') as [-> ->].
  - exfalso. assert (Hin : (x, y) ∈ List.filter (fun rs : R * S => p rs.1 rs.2) (list_prod l k)).
    { apply elem_of_lfilter. split; [done|]. rewrite list_elem_of_In. apply in_prod; by rewrite <- list_elem_of_In. }
    destruct (List.filter _ _); [by apply not_elem_of_nil in Hin|done].
Qed.

(** The key is there, of the user [m], and each is the only one of its identifier. *)
Record keyThere (d : Db) (k : ApiKeyRow) (m : MachineUserRow) : Prop := {
  kt_key : k ∈ db_apiKeys d;
  kt_user : m ∈ db_machineUsers d;
  kt_owner : mu_id m = ak_machineUserId k;
  kt_org : mu_orgId m = ak_orgId k;
  kt_keys : NoDup (map ak_id (db_apiKeys d));
  kt_users : NoDup (map mu_id (db_machineUsers d));
  kt_uuids : (ak_id k < 2 ^ 128)%N /\ (ak_orgId k < 2 ^ 128)%N;
}.

Lemma findLive_there d k m w :
  w_db w = d -> keyThere d k m ->
  exists w', findLiveKeyState (ak_orgId k) (uuidText (ak_id k)) w = (Ok (Some (MkLiveKeyState (validityOf k m) (mu_role m))), w')
    /\ w_tick w' = S (w_tick w).
Proof.
  intros <- [Hk Hm Ho Horg Hks Hms [Hid _]]. eexists. unfold findLiveKeyState, withOrg, uuidOrThrow. rewrite parseUuid_uuidText by done.
  unfold beginTransaction, transaction, mbind, M_bind, selectJoined, mret, M_ret, newDate, setNow. cbv beta iota.
  match goal with |- context [list_prod (db_apiKeys (w_db ?x)) _] => change (w_db x) with (w_db w) end.
  rewrite (joined_unique (keyWithUser (ak_orgId k) (ak_id k)) _ _ k m Hk Hm).
  - by split.
  - unfold keyWithUser, keyIn, userIn. by rewrite !bool_decide_eq_true_2.
  - intros k' m' Hk' Hm' Hp. unfold keyWithUser, keyIn, userIn in Hp. bool_simpl.
    assert (k' = k) as -> by (apply (NoDup_key_inj ak_id (db_apiKeys (w_db w))); congruence).
    split; [done|]. apply (NoDup_key_inj mu_id (db_machineUsers (w_db w))); congruence.
Qed.

(** C30: The access token of an exchange opens the machine routes: while the key and its user are there and the key is
    live, within the life of the token less a second, a request that bears it is verified as the key's machine user,
    organisation, project and role. *)
Theorem exchanged_token_accepted authorization s s1 data :
  exchangeToken authorization s = (Ok (returned_data data), s1) ->
  exists row n token, w_tick (sv_world s1) = S n /\
    abh_key row ∈ db_apiKeys (w_db (sv_world s)) /\ abh_user row ∈ db_machineUsers (w_db (sv_world s)) /\
    mu_id (abh_user row) = ak_machineUserId (abh_key row) /\ mu_projectId (abh_user row) = Some (abh_projectId row) /\
    data = dataBody (JObj [("accessToken", JStr token); ("tokenType", JStr "Bearer"); ("expiresIn", JInt MACHINE_JWT_TTL_SECONDS)]) /\
    forall s2 k m, keyThere (w_db (sv_world s2)) k m ->
      ak_id k = ak_id (abh_key row) -> ak_orgId k = ak_orgId (abh_key row) ->
      (clock n <= clock (w_tick (sv_world s2)) <= clock n + MACHINE_JWT_TTL_SECONDS * 1000 - 1000)%Z ->
      isMachineKeyLive (validityOf k m) (clock (S (S (w_tick (sv_world s2))))) = true ->
      exists s3, verifyMachineRequest (Some (BEARER_PREFIX +:+ token)) s2
        = (Ok (Some (MkVerifiedMachineRequest (uuidText (ak_machineUserId (abh_key row))) (ak_orgId k)
                       (uuidText (abh_projectId row)) (uuidText (ak_id k)) (mu_role m))), s3).
Proof.
  intros E. pose proof (exchange_spec authorization s) as Hx. unfold hwp in Hx. rewrite E in Hx.
  destruct (Hx data eq_refl) as (row & at0 & n & jti & En & [_ Hk Hm Hmu Hp _ ->]). set (at1 := clock n) in *.
  exists row, n. eexists. split_and!; [done..|reflexivity|]. intros s2 k m Ht Eid Eorg Htime Hlive.
  set (claims := machineClaims row jti). set (token := fastJwtSign _ _ _).
  destruct (jwt_verify at1 (MACHINE_JWT_TTL_SECONDS * 1000) claims _ Htime) as (payload & Hver & Hclaims).
  destruct (jwt_compact at1 (MACHINE_JWT_TTL_SECONDS * 1000) claims) as [Hne Htrim].
  pose proof (kt_uuids _ _ _ Ht) as [Hkid Horg].
  assert (Hc : hasWellFormedMachineClaims payload = Some (MkMachineClaims (uuidText (ak_machineUserId (abh_key row)))
                 (uuidText (ak_orgId k)) (uuidText (abh_projectId row)) (uuidText (ak_id k)))).
  { unfold hasWellFormedMachineClaims.
    rewrite (Hclaims "orgId" (uuidText (ak_orgId k))), (Hclaims "keyId" (uuidText (ak_id k))),
      (Hclaims "sub" (uuidText (ak_machineUserId (abh_key row)))), (Hclaims "scope" (uuidText (abh_projectId row))); try done.
    - unfold isUuid. by rewrite parseUuid_uuidText.
    - by rewrite Eid.
    - by rewrite Eorg. }
  unfold verifyMachineRequest. cbv zeta. unfold token. rewrite extractBearer_token by done.
  assert (Ev : machineJwtVerify (fastJwtSign at1 (MACHINE_JWT_TTL_SECONDS * 1000) claims) s2
               = (Ok (Some payload), s2 <| sv_world ::= fun w => w <| w_tick ::= S |> |>)) by (rewrite <- Hver; done).
  rewrite (bind_ok _ _ _ _ _ Ev). cbn [mbind option_bind]. rewrite Hc. cbn [mc_orgId mc_keyId].
  set (s3 := s2 <| sv_world ::= _ |>). unfold uuidOrThrow at 1. rewrite parseUuid_uuidText by done.
  rewrite (bind_db (mret (ak_orgId k)) _ _ (ak_orgId k) (sv_world s3)) by done.
  destruct (findLive_there (w_db (sv_world s2)) k m (sv_world s3) eq_refl Ht) as (w4 & Hf & Etick).
  rewrite (bind_db _ _ _ _ _ Hf). rewrite (bind_db newDate _ _ _ _ eq_refl). cbn [lks_validity].
  replace (clock (w_tick (sv_world _))) with (clock (S (S (w_tick (sv_world s2))))) by (cbn; by rewrite Etick).
  rewrite Hlive. by eexists.
Qed.
End roundtrip.
