(* ===== verification/MachineDemo.v ===== *)
(** * Machines at work, for the witnesses

    The project of [ProjectDemo] with a machine user and its keys: a signer of
    tokens that satisfies [MachineJwtLaws], an exchange, the release of a
    secret, and the chain of requests by which a key opens a project that is
    deleted. *)

From S2P Require Import Prelude Js Crypto FieldSet AuthStore Store Tx QuotaGate AuditLog Notifications Credentials Text Demo Frames Sessions Shares ShareDemo Authenticate Mfa Login AuthDemo JsMap RateLimit Server CapabilityGate AuditPayload SecureRoute RouteDemo Projects ProjectTheorems ProjectDemo MachineKeys MachineAuth MachineOps MachineTheorems.
From Stdlib Require Import Ascii String.
From stdpp Require Import strings pretty countable.

Local Open Scope string_scope.
Local Open Scope list_scope.
Local Open Scope pv_scope.

#[local] Existing Instances byteLocale toyPlatform digestCrypto toyEnv asciiUnicode toyOtpValidate toyPasswords toyJwt toyProcessEnv toyPostgres toyJitter toyOtpAuth.
Definition noFormatCharacters : UnicodeCategories := fun _ => false.
#[local] Existing Instance noFormatCharacters.

(** ** A signer *)

(** A text with its end marked, and the claims that are texts. *)
Fixpoint putText (s rest : string) : string :=
  match s with EmptyString => String ";" rest | String c s' => String "." (String c (putText s' rest)) end.
Fixpoint takeText (s : string) : option (string * string) :=
  match s with
  | String ";" rest => Some (EmptyString, rest)
  | String "." (String c s') => '(t, rest) ← takeText s'; Some (String c t, rest)
  | _ => None
  end.
Fixpoint putClaims (l : list (string * string)) : string :=
  match l with [] => "!" | (k, v) :: l' => String "," (putText k (putText v (putClaims l'))) end.
Fixpoint takeClaims (fuel : nat) (s : string) : option (list (string * string)) :=
  match fuel, s with
  | S fuel', String "," s1 => '(k, s2) ← takeText s1; '(v, s3) ← takeText s2; l ← takeClaims fuel' s3; Some ((k, v) :: l)
  | _, String "!" _ => Some []
  | _, _ => None
  end.

Fixpoint putPos (p : positive) (rest : string) : string :=
  match p with xH => String "1" rest | xO q => String "0" (putPos q rest) | xI q => String "i" (putPos q rest) end.
Fixpoint takePos (s : string) : option (positive * string) :=
  match s with
  | String "1" rest => Some (xH, rest)
  | String "0" s' => '(p, rest) ← takePos s'; Some (xO p, rest)
  | String "i" s' => '(p, rest) ← takePos s'; Some (xI p, rest)
  | _ => None
  end.

Definition textClaims (claims : Payload) : list (string * string) :=
  omap (fun '(k, v) => match v with CStr s => Some (k, s) | _ => None end) claims.

(** The end of the token's life and the texts of the claims. *)
Definition toyMachineJwt : MachineJwtLibrary := {|
  fastJwtSign at1 ttl claims := String "t" (putPos (encode (at1 + ttl)%Z) (putClaims (textClaims claims)) +:+ "t");
  fastJwtVerify at2 token :=
    match token with
    | String "t" s =>
        '(p, rest) ← takePos s;
        e ← (decode p : option Z);
        l ← takeClaims (String.length rest) rest;
        if at2 <=? e then Some (map (fun '(k, v) => (k, CStr v)) l) else None
    | _ => None
    end |}.
#[local] Existing Instance toyMachineJwt.

Lemma takeText_put s rest : takeText (putText s rest) = Some (s, rest).
Proof. induction s as [|c s IH]; cbn; [done|]. by rewrite IH. Qed.
Lemma putText_app s rest t : putText s rest +:+ t = putText s (rest +:+ t).
Proof. induction s as [|c s IH]; cbn [putText]; rewrite !string_app_cons; [done|]. by rewrite IH. Qed.
Lemma takeClaims_put l n t : (length l <= n)%nat -> takeClaims n (putClaims l +:+ t) = Some l.
Proof.
  revert n. induction l as [|[k v] l IH]; intros [|n] Hn; cbn in Hn; try lia; [done..|]. cbn [putClaims].
  rewrite string_app_cons, !putText_app. cbn [takeClaims]. rewrite takeText_put. cbn [mbind option_bind].
  rewrite takeText_put. cbn [mbind option_bind]. rewrite IH by lia. done.
Qed.
Lemma putText_length s rest : (String.length rest < String.length (putText s rest))%nat.
Proof. induction s as [|c s IH]; cbn; lia. Qed.
Lemma putClaims_length l : (length l <= String.length (putClaims l))%nat.
Proof.
  induction l as [|[k v] l IH]; cbn; [lia|]. pose proof (putText_length k (putText v (putClaims l))).
  pose proof (putText_length v (putClaims l)). lia.
Qed.
Lemma takePos_put p rest t : takePos (putPos p rest +:+ t) = Some (p, rest +:+ t).
Proof. induction p as [p IH|p IH|]; cbn [putPos]; rewrite string_app_cons; cbn [takePos]; [by rewrite IH..|done]. Qed.

Lemma strClaim_texts claims name v :
  strClaim name claims = Some v -> strClaim name (map (fun '(k, v) => (k, CStr v)) (textClaims claims)) = Some v.
Proof.
  unfold strClaim, claim. induction claims as [|[k c] claims IH]; [done|]. cbn.
  case_bool_decide as E; cbn.
  - subst k. destruct c as [s| |]; [|done..]. intros [= ->]. cbn. by rewrite bool_decide_eq_true_2.
  - intros Hc. destruct c as [s| |]; cbn; [rewrite bool_decide_eq_false_2 by done|..]; by apply IH.
Qed.

Lemma trim_between s : trimAscii (String "t" (s +:+ "t")) = String "t" (s +:+ "t").
Proof.
  unfold trimAscii. cbv zeta. change (skipWs (String "t" (s +:+ "t"))) with (String "t" (s +:+ "t")).
  set (l := String.list_ascii_of_string (String "t" (s +:+ "t"))).
  assert (E : exists l', rev l = ("t"%char :: l')%list).
  { exists (rev (String.list_ascii_of_string (String "t" s))). subst l. cbn [String.list_ascii_of_string].
    replace (String.list_ascii_of_string (s +:+ "t")) with (String.list_ascii_of_string s ++ ["t"%char]); [|].
    - cbn [rev]. rewrite rev_app_distr. done.
    - induction s as [|c s IH]; [done|]. rewrite string_app_cons. cbn. by rewrite <- IH. }
  destruct E as [l' E]. rewrite E. cbn [String.string_of_list_ascii].
  change (skipWs (String "t" (String.string_of_list_ascii l'))) with (String "t" (String.string_of_list_ascii l')).
  cbn [String.list_ascii_of_string]. rewrite String.list_ascii_of_string_of_list_ascii, <- E, rev_involutive.
  apply String.string_of_list_ascii_of_string.
Qed.

#[export] Instance toyMachineJwtLaws : MachineJwtLaws.
Proof.
  split.
  - intros at1 ttl claims at2 Ht. eexists. split.
    + cbn [fastJwtVerify fastJwtSign toyMachineJwt]. rewrite takePos_put. cbn [mbind option_bind]. rewrite decode_encode.
      cbn [mbind option_bind]. rewrite takeClaims_put; [cbn [mbind option_bind]|].
      2: { rewrite string_length_app. pose proof (putClaims_length (textClaims claims)). lia. }
      rewrite bool_decide_eq_true_2 by lia. reflexivity.
    + intros name v _ _. apply strClaim_texts.
  - intros at1 ttl claims. split; [done|]. apply trim_between.
Qed.

(** ** A machine user, its key and a token *)

Definition waits (n : nat) (s : Server) : Server := s <| sv_world ::= fun w => w <| w_tick := n |> |>.
Definition runs (ops : list MachineOp) (n : nat) (s : Server) : Server := runMachineOps ops (waits n s).
Definition bearer (t : string) : option string := Some (BEARER_PREFIX +:+ t).
Definition noUser : MachineUserRow := MkMachineUserRow 0 0 None "" None machine_viewer None 0 None false.
Definition noKey : ApiKeyRow := newApiKeyRow 0 0 "" "" None None 0 0.

Definition server0 : Server := serverAt projectWorld.
Definition server1 : Server := Eval vm_compute in
  runs [mop_manage adaAuth noMeta (mr_create payments (Some (MkCreateMachineUserBody "deploy" machine_member None)))] 300 server0.
Definition bot : MachineUserRow := Eval vm_compute in default noUser (head (db_machineUsers (w_db (sv_world server1)))).

(** A key for twenty minutes; the text of it is the draw of the second tick. *)
Definition ciBody : IssueApiKeyBody := MkIssueApiKeyBody "ci" (Some ("2023-11-14T22:30:00Z", 1700001000000%Z)).
Definition server2 : Server := Eval vm_compute in runs [mop_manage adaAuth noMeta (mr_issue (mu_id bot) (Some ciBody))] 400 server1.
Definition ciRow : ApiKeyRow := Eval vm_compute in default noKey (head (db_apiKeys (w_db (sv_world server2)))).
Definition ciKey : string := API_KEY_PREFIX +:+ randomOpaque 402.

Definition exchanged : Outcome HandlerValue * Server := exchangeToken (bearer ciKey) (waits 500 server2).
Definition server3 : Server := Eval vm_compute in snd exchanged.
Definition ciUsed : ApiKeyRow := Eval vm_compute in default noKey (head (db_apiKeys (w_db (sv_world server3)))).
Definition tokenOf (o : Outcome HandlerValue) : string :=
  match o with Ok (returned_data (Some (JObj ((_, JObj ((_, JStr t) :: _)) :: _)))) => t | _ => EmptyString end.
Definition ciToken : string := Eval vm_compute in tokenOf (fst exchanged).
Definition asks (token name : string) : MachineRequest :=
  MkMachineRequest (bearer token) noMeta (Some (uuidText payments, name)) (Some None) (Some (header_one "run"))
    (Some (header_one "npm%20test")) None.

Lemma exchanged_run : exists data, exchangeToken (bearer ciKey) (waits 500 server2) = (Ok (returned_data data), server3) /\ data <> None.
Proof. eexists. split; [vm_compute; reflexivity|discriminate]. Qed.

(** The secret of the project, with its entry. *)
Definition secretData : Json := JObj [("data", JObj [("name", JStr "database");
  ("fields", JArr [JObj [("key", JStr "user"); ("value", JStr "ada"); ("sensitive", JBool false)];
                   JObj [("key", JStr "password"); ("value", JStr "hunter2"); ("sensitive", JBool true)];
                   JObj [("key", JStr "Token"); ("value", JStr "t0ken"); ("sensitive", JBool true)]]);
  ("versionNumber", JInt 1); ("cacheable", JBool true)])].

Lemma machine_reveal_releases :
  let r := machineCredentialValue (asks ciToken "database") (waits 600 server3) in
  r.1 = Ok (returned_data (Some secretData)) /\
  length (db_audit (w_db (sv_world r.2))) = S (length (db_audit (w_db (sv_world server3)))).
Proof. vm_compute. split; reflexivity. Qed.

(** ** Witnesses *)

Definition keysOf (s : Server) : Keys := db_apiKeys (w_db (sv_world s)).

Lemma keysAlways_idle (R : Keys -> Prop) s : w_onWait (sv_world s) = id -> R (keysOf s) -> keysAlways R s.
Proof. intros E HR. split; [exact HR|]. rewrite E. by intros db. Qed.

(** The key is rotated; then nothing succeeds it any more. *)
Definition rotations : list MachineOp :=
  [mop_manage adaAuth noMeta (mr_rotate (mu_id bot) (ak_id ciRow) (Some 60%Z));
   mop_manage adaAuth noMeta (mr_emergency (mu_id bot) (ak_id ciRow))].

Lemma key_succession_kept_witness :
  map ak_rotatedFromKeyId (keysOf (runMachineOps rotations (waits 600 server3))) = [None; Some (ak_id ciRow)] /\
  KeysOk (keysOf (runMachineOps rotations (waits 600 server3))).
Proof.
  split; [vm_compute; reflexivity|]. apply (key_succession_kept rotations (waits 600 server3)).
  apply keysAlways_idle; [reflexivity|].
  apply (KeysOk_first ciUsed []); [by intros x ?%not_elem_of_nil|reflexivity|].
  split; [apply NoDup_nil_2|intros * Hx; by apply not_elem_of_nil in Hx..].
Defined.

Definition revocation : list MachineOp := [mop_manage adaAuth noMeta (mr_revoke (mu_id bot) (ak_id ciRow))].
Definition server3r : Server := Eval vm_compute in runs revocation 600 server3.
Definition afterwards : list MachineOp := [mop_exchange (bearer ciKey); mop_revokeOverlaps [1%N]].

Lemma revokedKey_server3r : keysAlways (RevokedKey (ak_id ciRow)) server3r.
Proof.
  apply keysAlways_idle; [reflexivity|]. split.
  - exists (ciUsed <| ak_revokedAt := Some 1700000601000%Z |>).
    split; [|reflexivity]. vm_compute. by left.
  - intros k Hk _. vm_compute in Hk. by apply list_elem_of_singleton in Hk as ->.
Qed.

(** The token that was accepted a minute before is turned away. *)
Lemma revoked_key_stays_out_witness :
  let s' := runMachineOps afterwards server3r in
  bearerNames (ak_id ciRow) (clock (w_tick (sv_world s'))) (bearer ciToken) /\
  let fresh := s' <| sv_reply := freshReply |> in
  hwp (machineCredentialValue (asks ciToken "database")) (fun o s2 => o = Ok returned_reply /\ turnedAway fresh s2) fresh.
Proof.
  intros s'. assert (Et : w_tick (sv_world s') = 607%nat) by (vm_compute; reflexivity).
  assert (Hb : bearerNames (ak_id ciRow) (clock (w_tick (sv_world s'))) (bearer ciToken)).
  { rewrite Et. exists ciToken, (MkMachineClaims (uuidText (mu_id bot)) (uuidText 1) (uuidText payments) (uuidText (ak_id ciRow))).
    split_and!; vm_compute; reflexivity. }
  split; [exact Hb|]. exact (proj2 (proj2 (revoked_key_stays_out (ak_id ciRow) afterwards server3r revokedKey_server3r)) (asks ciToken "database") Hb).
Defined.

Lemma keyThere_server3 : keyThere (w_db (sv_world (waits 600 server3))) ciUsed bot.
Proof.
  split; try (vm_compute; reflexivity).
  - vm_compute. by left.
  - vm_compute. by left.
  - vm_compute. unique_ids.
  - vm_compute. unique_ids.
  - split; vm_compute; reflexivity.
Qed.

Lemma exchanged_token_accepted_witness :
  exists token s3, verifyMachineRequest (bearer token) (waits 600 server3)
    = (Ok (Some (MkVerifiedMachineRequest (uuidText (mu_id bot)) 1 (uuidText payments) (uuidText (ak_id ciRow)) machine_member)), s3).
Proof.
  destruct exchanged_run as (data & E & _).
  destruct (exchanged_token_accepted (bearer ciKey) (waits 500 server2) server3 data E)
    as (row & n & token & En & Hrow & Huser & _ & Hp & _ & Hv).
  assert (Ek : db_apiKeys (w_db (sv_world (waits 500 server2))) = [ciRow]) by (vm_compute; reflexivity).
  assert (Em : db_machineUsers (w_db (sv_world (waits 500 server2))) = [bot]) by (vm_compute; reflexivity).
  rewrite Ek in Hrow. rewrite Em in Huser. apply list_elem_of_singleton in Hrow as Er, Huser as Eu.
  assert (Et : w_tick (sv_world server3) = 505%nat) by (vm_compute; reflexivity).
  assert (n = 504%nat) as -> by congruence.
  rewrite Eu in Hp. injection Hp as Ep. exists token. destruct (Hv (waits 600 server3) ciUsed bot) as [s3 E3].
  - exact keyThere_server3.
  - by rewrite Er.
  - by rewrite Er.
  - vm_compute. split; discriminate.
  - vm_compute. reflexivity.
  - exists s3. rewrite Er, <- Ep in E3. exact E3.
Defined.

(** ** What a key still opens *)

(** The same requests when the key has expired and the project is then deleted: nothing of the machine user stands in
    the way of the deletion, the expired key is rotated, its successor has no expiry, and a token for it is given the
    secrets of the deleted project. *)
Definition deletedServer : Server := Eval vm_compute in
  server3 <| sv_world := (withOrg (deleteProject bobAuth payments noMeta) (sv_world (waits 2000 server3))).2 |>.
Definition rotatedServer : Server := Eval vm_compute in
  runs [mop_manage adaAuth noMeta (mr_rotate (mu_id bot) (ak_id ciRow) (Some 60%Z))] 2100 deletedServer.
Definition successorKey : string := API_KEY_PREFIX +:+ randomOpaque 2101.
Definition successorExchange : Outcome HandlerValue * Server := exchangeToken (bearer successorKey) (waits 2200 rotatedServer).
Definition successorServer : Server := Eval vm_compute in waits 2300 (snd successorExchange).
Definition successorAsks : MachineRequest := Eval vm_compute in asks (tokenOf (fst successorExchange)) "database".

Definition valueRouteKey : string := "GET /api/v1/machine/projects/:projectId/credentials/:name/value".
Definition valueRoute (request : MachineRequest) : BuiltRoute :=
  MkBuiltRoute valueRouteKey (machineCredentialOptions request)
    (resolveSecurity (machineCredentialOptions request) valueRouteKey policy_pv).
Definition valueRequest : RouteRequest := MkRouteRequest "203.0.113.9" None [("projectId", JUuid payments); ("name", JStr "database")] [] None false.

Theorem deleted_project_served :
  map ak_expiresAt (keysOf rotatedServer) = [Some 1700001000000%Z; None] /\
  map (fun p => isNotNull (proj_deletedAt p)) (db_projects (w_db (sv_world successorServer))) = [true] /\
  registerBuiltRoute true (machineCredentialOptions successorAsks) valueRouteKey policy_pv = Ok (valueRoute successorAsks) /\
  rp_sent (sv_reply (handleSecureRouteRequest (valueRoute successorAsks) valueRequest successorServer).2) = Some (200%Z, Some secretData).
Proof. split; [vm_compute; reflexivity|]. split; [vm_compute; reflexivity|]. split; [reflexivity|vm_compute; reflexivity]. Qed.

(** A name is decoded once by the router and once more by the handler: a credential named with a percent sign that
    starts no escape cannot be asked for. *)
Theorem percent_name_throws : fst (machineCredentialValue (asks ciToken "100%") (waits 600 server3)) = Throw UriError.
Proof. vm_compute. reflexivity. Qed.
